(* ===== verification/_CoqProject ===== *)
-Q . S2P
Prelude.v
Varint.v
QuicBuffer.v
RingQueue.v
CondPool.v
AdaptivePool.v
TaskPool.v
Connection.v
Schedule.v
Backpressure.v
HpackTables.v
Huffman.v
Hpack.v
Qpack.v
QuicFrames.v
QuicParams.v
Chacha.v
QuicPacket.v
QuicControl.v
QuicRecovery.v
QuicStream.v
QuicFlow.v
QuicIds.v
QuicSend.v
QuicConn.v
Utf8.v
WsFrame.v
WsParser.v
WsStream.v
WsRoundtrip.v
WsConn.v
GoText.v
HttpParser.v
HttpServer.v
HttpWriter.v
HttpFraming.v
HttpClient.v
Http2Frame.v
Http2Server.v
Http2Inv.v
Http2Flush.v
Http2Calls.v
Http2Handle.v
Http2Control.v
Http2Headers.v
Http2Conn.v
Http2Run.v
Http2Demo.v
Http3Frames.v
Http3Server.v
Http3Inv.v
Http3Request.v
Http3Client.v
Http3Own.v
Http3Response.v
Http3Exchange.v
Http3Quic.v
Http3Demo.v
HttpPool.v
HttpPoolInv.v
HttpPoolKeep.v
HttpPoolSteps.v
HttpPoolFresh.v
HttpPoolRun.v
HttpPoolDemo.v
