(* ===== verification/Prelude.v ===== *)
(** * A verification of event_work_balance (the Go implementation under src/go)

    The program is an event-driven network engine and the protocols on top of
    it.  Event loops report readiness; a task pool runs the work; a connection
    queues what its users send, writes it when the socket takes it, and holds
    back its reads when it has buffered too much.  On this stand HTTP/1, HTTP/2
    (HPACK), HTTP/3 (QPACK over an own QUIC) and WebSocket.

    ** Files and the code they model

    - Prelude: machine integers with their wrap-around, Go slices and the
      panics of their indices, [sort.Search], results with errors, counting and
      summing over lists, little- and big-endian bytes.
    - RingQueue, CondPool, AdaptivePool, TaskPool: taskpool/cond.go, adaptive.go,
      sharded.go, taskpool.go.  A goroutine is a state machine, each of its
      critical sections under the pool's mutex one function, and a step
      relation interleaves them; a condition variable is its set of waiters.
    - Connection, Schedule, Backpressure: connection.go, the Unix sendfile, and
      engine.go's scheduling and budget.  The record [Connection] is the struct;
      system calls are an oracle that answers in any way the kernel may.
      Schedule runs on top of Connection's state; Backpressure on the accounting
      Connection proves.
    - HpackTables, Huffman, Hpack, Qpack: internal/hpack and http3/internal/qpack
      with the tables of the RFCs.
    - Varint, QuicBuffer, QuicFrames, QuicParams, Chacha, QuicPacket,
      QuicRecovery: http3/internal/quic: integers, stream buffers and
      acknowledgement ranges, frames, transport parameters, the AEAD, packets
      and their protection, loss detection and congestion control, the latter with
      Go's int64 durations and with the Retry that starts a handshake again.
    - QuicControl: the connection IDs of conn.go and frames.go, from the handshake's
      first packet, Retry and the peer's parameters to NEW_CONNECTION_ID and
      RETIRE_CONNECTION_ID, and the answers to path challenges.
    - QuicStream, QuicFlow, QuicIds, QuicSend, QuicConn: http3/internal/quic/stream.go
      and the streams of conn.go, send.go and frames.go: the data and operations
      in QuicStream, the invariants of flow control, of stream numbers and of the
      send queue in the next three, and whole connections in QuicConn.
    - Utf8, WsFrame, WsParser, WsStream, WsRoundtrip, WsConn: websocket/utf8.go,
      frame.go and handler.go: validation, frames, the incremental parser and
      its specification, what is sent and read back, and the close handshake
      under concurrent calls.
    - GoText, HttpParser, HttpServer: text as net/http and strconv treat it, http/parser.go
      and the request loop of handler.go.
    - HttpWriter, HttpFraming: responses of handler.go and response_writer.go, and
      how they are framed.  HttpClient: response_parser.go.
    - Http2Frame: h2_frame.go, with the reading back of what is written.
    - Http2Server: h2_server.go, h2_push.go and h2_upgrade.go.  [h2ServerConn] and
      [h2ServerStream] are the structs; a stream is a key of the connection's
      [store], which keeps those the map has forgotten; the handling of a frame
      and a call of the application are functions on the connection.
    - Http2Inv, Http2Calls, Http2Handle, Http2Control: the invariant of a connection
      and its preservation by sending, by the application's calls, by HEADERS and
      DATA, and by the other frames and the reading loop.  Http2Flush and
      Http2Headers: what is sent of a body, and how a header block arrives.
      Http2Conn and Http2Run: reads in pieces, and the runs of a connection.
      Http2Demo: concrete runs.
    - Http3Frames: http3/frames.go and fields.go: the frame parser, SETTINGS and the
      building of requests, responses and trailers from fields.
    - Http3Server: http3/conn.go and server.go, against the class [Transport] of
      what HTTP/3 calls of QUIC.  Http3Inv: what every event keeps, and GOAWAY.
      Http3Request: how a request arrives.
    - Http3Client: http3/client.go; requests, connections and streams are numbers,
      and [answers] is what the callbacks were given.  Http3Own: who owns a
      request that is not answered.  Http3Response and Http3Exchange: how a response
      arrives, and how the server understands what the client sends.
    - Http3Quic: QuicStream as a [Transport] and the dispatch of its events to
      the HTTP/3 server.  Http3Demo: concrete runs.
    - HttpPool: http/client.go, and how the streams of h2_client.go carry requests.
      A goroutine is the list of critical sections it has yet to go through
      ([instr]), [exec] is one of them, and [step] lets any goroutine go on or
      something happen.  HttpPoolInv, HttpPoolKeep, HttpPoolSteps, HttpPoolFresh: the
      invariant and its preservation by each critical section.  HttpPoolRun: runs.
      HttpPoolDemo: concrete runs and races.

    ** What the theorems show

    - Pools: every accepted task is run exactly once, in order of acceptance,
      and no interleaving deadlocks or loses a wake-up ([pool_quiesces],
      [adaptive_quiesces]); the populations stay within their bounds; [stop]
      drains.
    - Connections: the bytes handed to the kernel are the bytes accepted, in
      order ([connection_stream]); queued output always has someone to write it or
      to close ([connection_no_stall]), save after an error that [Flush] returned or
      a file that ended early, whose stalls are theorems too ([flush_error_strands],
      [short_file_stalls]); the pending counters are exact; one worker at a
      time; readiness is not dropped; reads resume when the backlog is gone.
      The cases in which they do not resume are theorems too.
    - Codecs: encoders and decoders are inverse (varints, Huffman, HPACK with its
      dynamic tables in step, QPACK, QUIC frames, parameters and protected
      packets, WebSocket frames), decoders end on every input and keep within
      their bounds, and the 64-bit limbs of Poly1305 compute the RFC's polynomial.
    - Buffers and recovery: a QUIC stream's bytes survive reordering, repetition
      and loss, and exactly the acknowledged ones are released; the bytes in flight
      are accounted for exactly, a Retry included; an acknowledgement settles
      each packet once; the loss timer is always armed while something waits for an
      acknowledgement and the waits have not wrapped.
    - QUIC streams: both directions keep to what was granted, credit is given back,
      every stream with something to send is queued, and no frame of a peer about a
      stream makes a connection panic; the connection ID in use is always one in
      force ([cids_in_force]).
    - HTTP/1: requests and responses are the same however they are cut into
      reads, and a response is framed as its header says.  The sums of limits and
      lengths wrap as int64 does; with limits near the top of int64 a request can
      make the parser panic ([unlimited_body_panics]).
    - HTTP/2: whatever a client sends and an application does, what is on the wire
      reads back as frames; a response's DATA is a prefix of its body, and all of
      it once the stream was ended ([h2_body_intact]); the windows are
      accounted for exactly and never overdrawn ([h2_flow_control],
      [h2_flush_exact]); nothing waits without a reason ([h2_no_stall]); cutting
      the input changes nothing ([h2_segmentation]); header blocks arrive as they
      were sent ([h2_headers_arrive]).  Where the code does otherwise than it means
      to, a closed theorem shows it.
    - HTTP/3: a request and a response arrive as they were sent, however the
      stream is cut, over any transport ([h3_request_arrives],
      [h3_response_arrives], [h3_request_understood]); a callback of the client is
      called exactly once, and a request not answered yet belongs to a connection
      that is not closed ([h3_client_exactly_once]); what GOAWAY promises is kept
      ([h3_goaway_promise]); a concrete run shows that a refused stream's next event
      panics ([going_away_panics]).
    - The clients of HTTP/1 and HTTP/2: in every interleaving in which no goroutine
      acts on a connection that another has taken further since it looked, no
      callback is called twice, no host has more connections than allowed, and no
      request is lost ([pool_keeps_requests]); the interleavings in which one does
      are theorems of HttpPoolDemo.
    - WebSocket: the parser hands out the events of the stream however it is cut
      into reads, whichever way it is fed, up to a close frame or a ping that cannot be
      answered; at most one close frame is sent.

    ** Fuel and bounds

    A loop that is not structural is given fuel computed from its input: the
    input's length where each round consumes a byte (HPACK, QPACK, frames,
    parameters, the WebSocket parser, the key stream), the distance for
    [sort.Search].  Theorems state results, not results provided the fuel was
    enough.  Where a run may go on (the pools, a connection) a step relation is
    used, and termination is by a measure each step lowers.  Integers are [Z]
    with the reductions of their width written out; hypotheses that a total stays
    below 2^63 or 2^64 bytes stand where Go would wrap.

    ** Parameters

    Code outside the repository is an argument: the growth of [append]'s arrays,
    system calls, files, compress/flate, the AEAD and header protection of a
    packet (with ChaCha20-Poly1305 as the instance that is verified), random
    bytes, net/http's reading of a request, a response and a chunked body, its
    status texts, content sniffing and canonical header keys, net/url, the date,
    the order in which Go ranges over a map, and the application's handlers.  In
    QuicRecovery the effect of a lost or acknowledged frame on the stream it
    belongs to is an argument as well.

    ** Not modelled

    The event loops' kernel interfaces (epoll, kqueue, IOCP) and sockets, dialing
    and listening, UDP, TLS, timers and tickers as such, the elastic task pool,
    and buffer recycling: these only call the system or manage memory.  The
    TLS handshake inside QUIC (the CRYPTO data handed to it and the events it gives
    back), QUIC's other timers, and the WebSocket handshake are not modelled.
    Of the HTTP/1 and HTTP/2 clients, what the response parser makes of the bytes
    and which frames end a stream are inputs of the pool; the HTTP/2 client's flow
    control and its building of responses are left out.  Of HTTP/3, what [ServerHandler] and
    [clientPath] do with datagrams, TLS and the engine, the dialing of a connection
    (its outcomes are inputs), [Future] and the defaults of configurations are left
    out.  In HTTP/2 and HTTP/3 the handling of a frame or an event is one step: a
    call of another goroutine between two critical sections of one handler is not
    interleaved, except for the idle timer of the HTTP/3 client.  The port to C and
    the examples are outside the development. *)
From stdpp Require Export base tactics list list_numbers numbers option gmap.
From Stdlib Require Export ZArith Lia.

Open Scope Z_scope.

(** ** Machine integers *)

Definition u8 (z : Z) : Z := z mod 2 ^ 8.
Definition u16 (z : Z) : Z := z mod 2 ^ 16.
Definition u32 (z : Z) : Z := z mod 2 ^ 32.
Definition u64 (z : Z) : Z := z mod 2 ^ 64.
(** [int64(x)] of an arbitrary integer: two's complement. *)
Definition i64 (z : Z) : Z := (z + 2 ^ 63) mod 2 ^ 64 - 2 ^ 63.

(** A Go [[]byte] or [string]: a list of integers in [0, 256). *)
Abbreviation bytes := (list Z).
Definition byte_ok (b : Z) : Prop := 0 <= b < 256.
Abbreviation bytes_ok := (Forall byte_ok).

(** [len(l)] *)
Definition len {A} (l : list A) : Z := Z.of_nat (length l).

(** [l[lo:hi]]; [None] is the run-time panic of an index out of range. *)
Definition slice {A} (l : list A) (lo hi : Z) : option (list A) :=
  if (0 <=? lo) && (lo <=? hi) && (hi <=? len l)
  then Some (take (Z.to_nat (hi - lo)) (drop (Z.to_nat lo) l)) else None.

(** [l[i:]], with the same panic. *)
Definition slice_from {A} (l : list A) (lo : Z) : option (list A) := slice l lo (len l).

(** [l[i]], with the same panic. *)
Definition at_ {A} (l : list A) (i : Z) : option A :=
  if 0 <=? i then l !! Z.to_nat i else None.

(** ** Go's [sort.Search]: the smallest [i] in [0, n] with [f i], by bisection. *)
Fixpoint search_loop (fuel : nat) (f : Z -> bool) (i j : Z) : Z :=
  match fuel with
  | O => i
  | S fuel =>
      if i <? j then
        let h := (i + j) / 2 in
        if f h then search_loop fuel f i h else search_loop fuel f (h + 1) j
      else i
  end.

Definition sort_Search (n : Z) (f : Z -> bool) : Z := search_loop (Z.to_nat n) f 0 n.

(** The linear search it stands for on a list. *)
Fixpoint first_index {A} (p : A -> bool) (l : list A) : Z :=
  match l with
  | [] => 0
  | x :: l => if p x then 0 else 1 + first_index p l
  end.

(** ** Results of fallible code *)
Inductive result (E A : Type) : Type :=
| Ok (a : A)
| Err (e : E).
Arguments Ok {E A} a.
Arguments Err {E A} e.

Declare Scope result_scope.
Delimit Scope result_scope with result.
Notation "'let!' p := e 'in' k" :=
  (match e with Ok p => k | Err err => Err err end)
  (at level 10, p pattern, e at level 100, k at level 200) : result_scope.
Notation "'let?' p := e 'in' k" :=
  (match e with Some p => k | None => None end)
  (at level 10, p pattern, e at level 100, k at level 200) : result_scope.
Open Scope result_scope.

(** ** Counting the elements of a list that satisfy a boolean test *)
Fixpoint cnt {A} (p : A -> bool) (l : list A) : Z :=
  match l with
  | [] => 0
  | x :: l => Z.b2z (p x) + cnt p l
  end.

(** Sum of a measure over a list. *)
Fixpoint total {A} (f : A -> Z) (l : list A) : Z :=
  match l with
  | [] => 0
  | x :: l => f x + total f l
  end.

(** Sum of a measure over a finite map. *)
Definition msum {A} (f : A -> Z) (m : gmap Z A) : Z := map_fold (fun _ x s => f x + s) 0 m.

(** ** Updating the fields of a record

    [r <| f := v |>] is [r] with the field [f] set to [v].  A record says with an
    [Eta] instance how it is put together; the setter of a field is found from it. *)
Class Eta (R : Type) := eta : R -> R.
Class Setter {R E : Type} (field : R -> E) := change : (E -> E) -> R -> R.

Ltac find_setter :=
  lazymatch goal with
  | |- @Setter ?R _ ?field =>
      let f := fresh "f" in
      let r := fresh "r" in
      intros f r;
      let e := constr:(_ : Eta R) in
      let whole := eval hnf in (e r) in
      let open := eval pattern (field r) in whole in
      lazymatch open with
      | ?rest _ => let t := eval cbv beta in (rest (f (field r))) in exact t
      end
  end.
#[export] Hint Extern 1 (Setter _) => find_setter : typeclass_instances.

Notation "r <| f := v |>" := (change (field := f) (fun _ => v) r)
  (at level 12, left associativity, f constr at level 1, format "r  <| f  :=  v |>").

(** * Lemmas *)

Create HintDb fib.
Create HintDb fib_rew.

Lemma len_nonneg {A} (l : list A) : 0 <= len l.
Proof. unfold len. lia. Qed.

Lemma len_nil {A : Type} : len (@nil A) = 0.
Proof. reflexivity. Qed.

Lemma len_cons {A} (x : A) l : len (x :: l) = 1 + len l.
Proof. unfold len. cbn [length]. lia. Qed.

Lemma len_app {A} (l k : list A) : len (l ++ k) = len l + len k.
Proof. unfold len. rewrite length_app. lia. Qed.

Lemma len_take {A} (n : nat) (l : list A) : len (take n l) = Z.min (Z.of_nat n) (len l).
Proof. unfold len. rewrite length_take. lia. Qed.

Lemma len_drop {A} (n : nat) (l : list A) : len (drop n l) = Z.max 0 (len l - Z.of_nat n).
Proof. unfold len. rewrite length_drop. lia. Qed.

Lemma len_insert {A} (i : nat) (x : A) l : len (<[i:=x]> l) = len l.
Proof. unfold len. by rewrite length_insert. Qed.

Lemma len_replicate {A} (n : nat) (x : A) : len (replicate n x) = Z.of_nat n.
Proof. unfold len. by rewrite length_replicate. Qed.

Lemma len_zero_nil {A} (l : list A) : len l = 0 -> l = [].
Proof. destruct l; [done|]. rewrite len_cons. pose proof (len_nonneg l). lia. Qed.

#[export] Hint Rewrite @len_nil @len_cons @len_app @len_take @len_drop @len_insert
  @len_replicate : fib_rew.
#[export] Hint Resolve len_nonneg : fib.

(** Normalise lengths everywhere, add that they are non-negative, and call [lia]. *)
Ltac pose_lens :=
  repeat match goal with
    | |- context [@len ?A ?l] =>
        lazymatch goal with H : 0 <= len l |- _ => fail | _ => pose proof (len_nonneg l) end
    | _ : context [@len ?A ?l] |- _ =>
        lazymatch goal with H : 0 <= len l |- _ => fail | _ => pose proof (len_nonneg l) end
    end.
Ltac len_lia := autorewrite with fib_rew in *; pose_lens; lia.

(** Case analysis on the boolean comparisons of a goal. *)
Ltac bdestruct_all :=
  repeat match goal with
    | |- context [?a <? ?b] => destruct (Z.ltb_spec a b)
    | |- context [?a <=? ?b] => destruct (Z.leb_spec a b)
    | |- context [?a =? ?b] => destruct (Z.eqb_spec a b)
    end; cbn [andb orb negb] in *.

(** *** Slices *)

Lemma i64_small z : - 2 ^ 63 <= z < 2 ^ 63 -> i64 z = z.
Proof. intros. unfold i64. rewrite Z.mod_small by lia. lia. Qed.

Lemma i64_range z : - 2 ^ 63 <= i64 z < 2 ^ 63.
Proof. unfold i64. pose proof (Z.mod_pos_bound (z + 2 ^ 63) (2 ^ 64) ltac:(lia)). lia. Qed.

(** A sum of two that are not negative, when it does not fit. *)
Lemma i64_wrapped z : 2 ^ 63 <= z < 2 ^ 64 -> i64 z = z - 2 ^ 64.
Proof. intros H. unfold i64. replace (z + 2 ^ 63) with (z - 2 ^ 63 + 1 * 2 ^ 64) by lia. rewrite Z.mod_add, Z.mod_small by lia. lia. Qed.

Lemma slice_Some {A} (l : list A) lo hi :
  0 <= lo <= hi -> hi <= len l ->
  slice l lo hi = Some (take (Z.to_nat (hi - lo)) (drop (Z.to_nat lo) l)).
Proof. intros ??. unfold slice. bdestruct_all; try lia. done. Qed.

Lemma slice_inv {A} (l : list A) lo hi r :
  slice l lo hi = Some r ->
  0 <= lo <= hi /\ hi <= len l /\ r = take (Z.to_nat (hi - lo)) (drop (Z.to_nat lo) l).
Proof. unfold slice. bdestruct_all; intros; simplify_eq. lia || (repeat split; try lia; done). Qed.

Lemma slice_from_Some {A} (l : list A) lo :
  0 <= lo <= len l -> slice_from l lo = Some (drop (Z.to_nat lo) l).
Proof.
  intros ?. unfold slice_from. rewrite slice_Some by lia.
  f_equal. apply take_ge. unfold len in *. rewrite length_drop. lia.
Qed.

Lemma slice_len {A} (l : list A) lo hi r : slice l lo hi = Some r -> len r = hi - lo.
Proof. intros (?&?&->)%slice_inv. len_lia. Qed.

Lemma slice_is_Some {A} (l : list A) lo hi :
  0 <= lo <= hi -> hi <= len l -> is_Some (slice l lo hi).
Proof. intros. rewrite slice_Some by lia. eauto. Qed.

Lemma slice_app_prefix {A} (l k : list A) : slice (l ++ k) 0 (len l) = Some l.
Proof.
  rewrite slice_Some by len_lia. f_equal. rewrite drop_0.
  unfold len. rewrite Z.sub_0_r, Nat2Z.id. apply take_app_length.
Qed.

Lemma slice_from_app_suffix {A} (l k : list A) : slice_from (l ++ k) (len l) = Some k.
Proof.
  rewrite slice_from_Some by len_lia. f_equal. unfold len. rewrite Nat2Z.id. apply drop_app_length.
Qed.

Lemma at_app_l {A} (l k : list A) i : 0 <= i < len l -> at_ (l ++ k) i = at_ l i.
Proof.
  intros. unfold at_. destruct (Z.leb_spec 0 i); [|lia].
  apply lookup_app_l. unfold len in *. lia.
Qed.

Lemma at_head {A} (x : A) l : at_ (x :: l) 0 = Some x.
Proof. reflexivity. Qed.

Lemma at_nil {A : Type} i : at_ (@nil A) i = None.
Proof. unfold at_. by destruct (0 <=? i). Qed.

Lemma at_is_Some {A} (l : list A) i : 0 <= i < len l -> is_Some (at_ l i).
Proof.
  intros. unfold at_. destruct (Z.leb_spec 0 i); [|lia].
  apply lookup_lt_is_Some. unfold len in *. lia.
Qed.

(** *** Counting *)

Lemma cnt_nonneg {A} (p : A -> bool) l : 0 <= cnt p l.
Proof. induction l as [|x l IH]; cbn; [lia|]. destruct (p x); cbn; lia. Qed.
#[export] Hint Resolve cnt_nonneg : fib.

Lemma cnt_app {A} (p : A -> bool) l k : cnt p (l ++ k) = cnt p l + cnt p k.
Proof. induction l as [|x l IH]; cbn; [lia|]. rewrite IH. lia. Qed.

Lemma cnt_insert {A} (p : A -> bool) (l : list A) (i : nat) x y :
  l !! i = Some x -> cnt p (<[i:=y]> l) = cnt p l - Z.b2z (p x) + Z.b2z (p y).
Proof.
  revert i; induction l as [|z l IH]; intros [|i] H; simpl in *; simplify_eq; try lia.
  specialize (IH i H). unfold insert in *. lia.
Qed.

Lemma cnt_lookup_pos {A} (p : A -> bool) (l : list A) (i : nat) x :
  l !! i = Some x -> p x = true -> 1 <= cnt p l.
Proof.
  revert i; induction l as [|z l IH]; intros [|i] H Hp; cbn in *; simplify_eq.
  - rewrite Hp. cbn. pose proof (cnt_nonneg p l). lia.
  - specialize (IH _ H Hp). destruct (p z); cbn; lia.
Qed.

Lemma cnt_pos_inv {A} (p : A -> bool) (l : list A) :
  0 < cnt p l -> exists i x, l !! i = Some x /\ p x = true.
Proof.
  induction l as [|z l IH]; cbn; [lia|]. intros H.
  destruct (p z) eqn:E; [by exists 0%nat, z|].
  destruct IH as (i & x & ? & ?); [cbn in H; lia|]. by exists (S i), x.
Qed.

Lemma cnt_le {A} (p q : A -> bool) l :
  (forall x, p x = true -> q x = true) -> cnt p l <= cnt q l.
Proof.
  intros Hpq. induction l as [|x l IH]; cbn; [lia|].
  specialize (Hpq x). destruct (p x), (q x); cbn; try lia.
Qed.

Lemma cnt_len {A} (p : A -> bool) l : cnt p l <= len l.
Proof. induction l as [|x l IH]; [reflexivity|]. rewrite len_cons. cbn. destruct (p x); cbn; lia. Qed.

Lemma cnt_zero_inv {A} (p : A -> bool) l (i : nat) x :
  cnt p l = 0 -> l !! i = Some x -> p x = false.
Proof.
  intros H Hl. destruct (p x) eqn:E; [|done].
  pose proof (cnt_lookup_pos p l i x Hl E). lia.
Qed.

Lemma total_app {A} (f : A -> Z) l k : total f (l ++ k) = total f l + total f k.
Proof. induction l as [|x l IH]; cbn; [lia|]. rewrite IH. lia. Qed.

Lemma total_insert {A} (f : A -> Z) (l : list A) (i : nat) x y :
  l !! i = Some x -> total f (<[i:=y]> l) = total f l - f x + f y.
Proof.
  revert i; induction l as [|z l IH]; intros [|i] H; simpl in *; simplify_eq; try lia.
  specialize (IH i H). unfold insert in *. lia.
Qed.

Lemma total_nonneg {A} (f : A -> Z) l : (forall x, 0 <= f x) -> 0 <= total f l.
Proof. intros Hf. induction l as [|x l IH]; cbn; [lia|]. specialize (Hf x). lia. Qed.
Lemma total_lookup_le {A} (f : A -> Z) l (i : nat) x :
  (forall x, 0 <= f x) -> l !! i = Some x -> f x <= total f l.
Proof.
  intros Hf. revert i. induction l as [|y l IH]; intros [|i] H; simplify_eq/=.
  - pose proof (total_nonneg f l Hf). lia.
  - pose proof (IH i H). pose proof (Hf y). lia.
Qed.
Lemma bind_insert {A B} (f : A -> list B) l (i : nat) x y :
  l !! i = Some x -> (<[i := y]> l ≫= f) ++ f x ≡ₚ (l ≫= f) ++ f y.
Proof.
  revert i. induction l as [|z l IH]; intros [|i] H; simplify_eq/=.
  - solve_Permutation.
  - rewrite <- !(assoc_L (++)). f_equiv. by apply IH.
Qed.

Lemma bind_insert_same {A B} (f : A -> list B) l (i : nat) x y :
  l !! i = Some x -> f x = f y -> <[i := y]> l ≫= f = l ≫= f.
Proof.
  revert i. induction l as [|z l IH]; intros [|i] H E; simplify_eq/=; [by rewrite E|by rewrite (IH i)].
Qed.

Lemma cnt_none {A} (f : A -> bool) l : (forall i x, l !! i = Some x -> f x = false) -> cnt f l = 0.
Proof.
  intros H. destruct (Z.eq_dec (cnt f l) 0); [done|]. pose proof (cnt_nonneg f l).
  destruct (cnt_pos_inv f l) as (i & x & Hi & Hx); [lia|]. by rewrite (H i x Hi) in Hx.
Qed.

Lemma total_none {A} (f : A -> Z) l : (forall i x, l !! i = Some x -> f x = 0) -> total f l = 0.
Proof.
  induction l as [|y l IH]; intros H; cbn; [done|].
  rewrite (H 0%nat y eq_refl), IH; [done|]. intros i x Hi. by apply (H (S i)).
Qed.

#[export] Hint Rewrite @cnt_app @total_app : fib_rew.

(** *** Sums over finite maps *)

Lemma msum_empty {A} (f : A -> Z) : msum f ∅ = 0.
Proof. apply map_fold_empty. Qed.

Lemma msum_new {A} (f : A -> Z) m i x : m !! i = None -> msum f (<[i := x]> m) = f x + msum f m.
Proof. intros Hi. unfold msum. rewrite map_fold_insert_L; [done| |done]. intros. lia. Qed.

Lemma msum_delete {A} (f : A -> Z) m i x : m !! i = Some x -> msum f m = f x + msum f (delete i m).
Proof. intros Hi. unfold msum. rewrite (map_fold_delete_L _ _ i x m); [done| |done]. intros. lia. Qed.

Lemma msum_set {A} (f : A -> Z) m i x y : m !! i = Some x -> msum f (<[i := y]> m) = msum f m + f y - f x.
Proof.
  intros Hi. rewrite <- insert_delete_eq, msum_new by apply lookup_delete_eq. rewrite (msum_delete f m i x Hi). lia.
Qed.

Lemma msum_le {A} (f g : A -> Z) m : (forall i x, m !! i = Some x -> f x <= g x) -> msum f m <= msum g m.
Proof.
  induction m as [|i x m Hi IH] using map_ind; intros H; [by rewrite !msum_empty|].
  rewrite !msum_new by done. assert (f x <= g x) by (eapply H, lookup_insert_eq).
  assert (msum f m <= msum g m); [|lia]. apply IH. intros j y Hj. apply (H j). rewrite lookup_insert_ne; [done|congruence].
Qed.

Lemma msum_nonneg {A} (f : A -> Z) m : (forall i x, m !! i = Some x -> 0 <= f x) -> 0 <= msum f m.
Proof.
  intros H. pose proof (msum_le (fun _ => 0) f m H) as Hle. etrans; [|exact Hle].
  clear. induction m as [|i x m Hi IH] using map_ind; [by rewrite msum_empty|]. rewrite msum_new by done. lia.
Qed.

Lemma msum_elem {A} (f : A -> Z) m i x :
  (forall i x, m !! i = Some x -> 0 <= f x) -> m !! i = Some x -> f x <= msum f m.
Proof.
  intros H Hi. rewrite (msum_delete f m i x Hi).
  assert (0 <= msum f (delete i m)); [|lia]. apply msum_nonneg. intros j y [_ Hj]%lookup_delete_Some. eauto.
Qed.

(** A sum depends on the part [v] of the elements that the measure looks at. *)
Lemma msum_view {A B} (v : A -> B) (f : A -> Z) (m m' : gmap Z A) :
  (forall s s', v s = v s' -> f s = f s') -> v <$> m = v <$> m' -> msum f m = msum f m'.
Proof.
  intros Hf. revert m'. induction m as [|i s m Hi IH] using map_ind; intros m' Hm.
  { rewrite fmap_empty in Hm. symmetry in Hm. by apply fmap_empty_iff in Hm as ->. }
  rewrite fmap_insert in Hm.
  assert (exists s', m' !! i = Some s' /\ v s = v s') as (s' & Hi' & Hs).
  { apply (f_equal (lookup i)) in Hm. rewrite lookup_insert_eq, lookup_fmap in Hm.
    destruct (m' !! i) as [s'|]; cbn in Hm; [|done]. apply (inj Some) in Hm. eauto. }
  rewrite (msum_delete f m' i s') by done. rewrite msum_new, (Hf s s') by done. f_equal. apply IH.
  rewrite fmap_delete, <- Hm, delete_insert_id; [done|]. by rewrite lookup_fmap, Hi.
Qed.

(** *** Bits and widths *)

Lemma u64_small z : 0 <= z < 2 ^ 64 -> u64 z = z.
Proof. intros. unfold u64. by apply Z.mod_small. Qed.

Lemma u64_range z : 0 <= u64 z < 2 ^ 64.
Proof. unfold u64. apply Z.mod_pos_bound. lia. Qed.

Lemma u8_byte_ok z : byte_ok (u8 z).
Proof. unfold u8, byte_ok. pose proof (Z.mod_pos_bound z (2 ^ 8)). lia. Qed.
#[export] Hint Resolve u8_byte_ok : fib.

(** A concrete byte string is checked by evaluation. *)
Lemma bytes_check (l : bytes) : forallb (fun b => (0 <=? b) && (b <? 256)) l = true -> bytes_ok l.
Proof.
  induction l as [|b l IH]; cbn; [constructor|]. intros [Hb Hl]%andb_true_iff. constructor; [unfold byte_ok; lia|by apply IH].
Qed.

Lemma u8_small z : byte_ok z -> u8 z = z.
Proof. intros. unfold u8. by apply Z.mod_small. Qed.

Lemma lor_byte_ok a b : byte_ok a -> byte_ok b -> byte_ok (Z.lor a b).
Proof.
  unfold byte_ok. intros Ha Hb.
  replace (Z.lor a b) with (Z.lor a b mod 2 ^ 8); [pose proof (Z.mod_pos_bound (Z.lor a b) (2 ^ 8)); lia|].
  apply Z.bits_inj'. intros i Hi. destruct (Z.lt_ge_cases i 8).
  - by rewrite Z.mod_pow2_bits_low by lia.
  - rewrite Z.mod_pow2_bits_high, Z.lor_spec by lia.
    rewrite <- (Z.mod_small a (2 ^ 8)), <- (Z.mod_small b (2 ^ 8)) by lia.
    by rewrite !Z.mod_pow2_bits_high by lia.
Qed.
#[export] Hint Resolve lor_byte_ok : fib.

(** A disjoint [or] is an addition. *)
Lemma lor_add k a b : 0 <= k -> 0 <= a < 2 ^ k -> Z.lor (b * 2 ^ k) a = b * 2 ^ k + a.
Proof.
  intros Hk Ha. pose proof (Z.add_lor_land (b * 2 ^ k) a).
  enough (Z.land (b * 2 ^ k) a = 0) by lia.
  apply Z.bits_inj'. intros i Hi. rewrite Z.land_spec, Z.bits_0.
  destruct (Z.lt_ge_cases i k).
  - rewrite Z.mul_pow2_bits_low by lia. done.
  - replace (Z.testbit a i) with false; [apply andb_false_r|].
    symmetry. rewrite <- (Z.mod_small a (2 ^ k)) by lia. apply Z.mod_pow2_bits_high. lia.
Qed.

Lemma lor_shiftl_add k a b : 0 <= k -> 0 <= a < 2 ^ k -> Z.lor (Z.shiftl b k) a = b * 2 ^ k + a.
Proof. intros. rewrite Z.shiftl_mul_pow2 by lia. by apply lor_add. Qed.

Lemma land_mask k a : 0 <= k -> Z.land a (2 ^ k - 1) = a mod 2 ^ k.
Proof. intros. rewrite <- Z.land_ones, Z.ones_equiv by lia. f_equal. Qed.

(** One round of the accumulation [v = v<<8 | c]. *)
Lemma shift8_or v c : 0 <= v < 2 ^ 56 -> byte_ok c -> Z.lor (u64 (Z.shiftl v 8)) c = v * 256 + c.
Proof.
  intros Hv Hc. rewrite u64_small by (rewrite Z.shiftl_mul_pow2; lia).
  apply (lor_shiftl_add 8); [lia|]. exact Hc.
Qed.

(** *** Big-endian integers: [encoding/binary]'s [BigEndian] *)

Fixpoint be_bytes (n : nat) (v : Z) : bytes :=
  match n with
  | O => []
  | S n => u8 (Z.shiftr v (8 * Z.of_nat n)) :: be_bytes n v
  end.

Definition be_val (l : bytes) : Z := fold_left (fun a c => a * 256 + c) l 0.

Lemma be_bytes_length n v : length (be_bytes n v) = n.
Proof. induction n; cbn; congruence. Qed.

Lemma be_bytes_len n v : len (be_bytes n v) = Z.of_nat n.
Proof. unfold len. by rewrite be_bytes_length. Qed.

Lemma be_bytes_ok n v : bytes_ok (be_bytes n v).
Proof. induction n; cbn; constructor; auto with fib. Qed.
#[export] Hint Resolve be_bytes_ok : fib.

Lemma be_val_acc l a :
  fold_left (fun a c => a * 256 + c) l a = a * 256 ^ len l + be_val l.
Proof.
  unfold be_val. revert a. induction l as [|c l IH]; intros a; cbn [fold_left].
  - rewrite len_nil. lia.
  - rewrite (IH (a * 256 + c)), (IH (0 * 256 + c)), len_cons.
    rewrite Z.pow_add_r by len_lia. change (256 ^ 1) with 256. lia.
Qed.

Lemma be_val_cons c l : be_val (c :: l) = c * 256 ^ len l + be_val l.
Proof. unfold be_val at 1. cbn [fold_left]. rewrite be_val_acc. lia. Qed.

Lemma be_val_range l : bytes_ok l -> 0 <= be_val l < 256 ^ len l.
Proof.
  induction 1 as [|c l Hc Hl IH]; [split; [done|reflexivity]|].
  rewrite be_val_cons, len_cons, Z.pow_add_r by len_lia.
  unfold byte_ok in Hc. nia.
Qed.

Lemma be_val_bytes n v : be_val (be_bytes n v) = v mod 256 ^ Z.of_nat n.
Proof.
  induction n as [|n IH]; [cbn; by rewrite Z.mod_1_r|].
  cbn [be_bytes]. rewrite be_val_cons, be_bytes_len, IH, Nat2Z.inj_succ, Z.pow_succ_r by lia.
  rewrite Z.shiftr_div_pow2 by lia. unfold u8.
  replace (2 ^ (8 * Z.of_nat n)) with (256 ^ Z.of_nat n) by (rewrite Z.pow_mul_r by lia; done).
  rewrite (Z.mul_comm 256), Z.rem_mul_r by lia. change (2 ^ 8) with 256. lia.
Qed.

Lemma be_val_bytes_small n v : 0 <= v < 256 ^ Z.of_nat n -> be_val (be_bytes n v) = v.
Proof. intros. rewrite be_val_bytes. by apply Z.mod_small. Qed.

(** The loop [v = v<<8 | c] over 64 bits computes the big-endian value while it fits. *)
Lemma or_fold_be l a :
  bytes_ok l -> 0 <= a -> (a + 1) * 256 ^ len l <= 2 ^ 64 ->
  fold_left (fun v c => Z.lor (u64 (Z.shiftl v 8)) c) l a = a * 256 ^ len l + be_val l.
Proof.
  intros Hl. revert a. induction Hl as [|c l Hc Hl IH]; intros a Ha Hb; cbn [fold_left].
  - rewrite len_nil. cbn. lia.
  - rewrite len_cons in *. rewrite Z.pow_add_r in * by len_lia.
    assert (1 <= 256 ^ len l) by (apply (Z.pow_le_mono_r 256 0); len_lia).
    rewrite shift8_or by (done || nia). unfold byte_ok in Hc.
    rewrite IH by nia. rewrite be_val_cons. nia.
Qed.

Lemma at_bytes_ok (l : bytes) i : bytes_ok l -> byte_ok (default 0 (at_ l i)).
Proof.
  intros Hl. unfold at_. destruct (0 <=? i); [|cbn; unfold byte_ok; lia].
  destruct (l !! Z.to_nat i) as [x|] eqn:E; cbn; [|unfold byte_ok; lia]. by eapply Forall_lookup_1 in E.
Qed.

(** *** Little-endian integers: [encoding/binary]'s [LittleEndian] *)

Fixpoint le_bytes (n : nat) (v : Z) : bytes :=
  match n with O => [] | S n => u8 v :: le_bytes n (Z.shiftr v 8) end.
Fixpoint le_val (l : bytes) : Z :=
  match l with [] => 0 | b :: l => b + 256 * le_val l end.

Lemma lxor_byte_ok a b : byte_ok a -> byte_ok b -> byte_ok (Z.lxor a b).
Proof.
  unfold byte_ok. intros Ha Hb.
  replace (Z.lxor a b) with (Z.lxor a b mod 2 ^ 8); [pose proof (Z.mod_pos_bound (Z.lxor a b) (2 ^ 8)); lia|].
  apply Z.bits_inj'. intros i Hi. destruct (Z.lt_ge_cases i 8).
  - by rewrite Z.mod_pow2_bits_low by lia.
  - rewrite Z.mod_pow2_bits_high, Z.lxor_spec by lia.
    rewrite <- (Z.mod_small a (2 ^ 8)), <- (Z.mod_small b (2 ^ 8)) by lia.
    by rewrite !Z.mod_pow2_bits_high by lia.
Qed.
#[export] Hint Resolve lxor_byte_ok : fib.

Lemma add_lxor x y u v :
  byte_ok x -> byte_ok y -> Z.lxor (x + 256 * u) (y + 256 * v) = Z.lxor x y + 256 * Z.lxor u v.
Proof.
  intros Hx Hy. unfold byte_ok in *.
  assert (H : forall a b, 0 <= a < 256 -> a + 256 * b = Z.lor (b * 2 ^ 8) a) by (intros; rewrite lor_add; lia).
  assert (Hxy : byte_ok (Z.lxor x y)) by (apply lxor_byte_ok; done). unfold byte_ok in Hxy.
  rewrite !H by done. apply Z.bits_inj'. intros i Hi. rewrite Z.lxor_spec, !Z.lor_spec, Z.lxor_spec.
  assert (Hhi : forall a, 0 <= a < 256 -> 8 <= i -> Z.testbit a i = false).
  { intros a Ha Hi8. rewrite <- (Z.mod_small a (2 ^ 8)) by lia. apply Z.mod_pow2_bits_high. lia. }
  destruct (Z.lt_ge_cases i 8).
  - by rewrite !Z.mul_pow2_bits_low by lia.
  - rewrite !Z.mul_pow2_bits by lia. rewrite (Hhi x), (Hhi y) by done. by rewrite Z.lxor_spec, !orb_false_r.
Qed.

Lemma le_bytes_lxor a b :
  bytes_ok a -> bytes_ok b -> length a = length b ->
  le_bytes (length a) (Z.lxor (le_val a) (le_val b)) = zip_with Z.lxor a b.
Proof.
  intros Ha. revert b. induction Ha as [|x a Hx Ha IH]; intros [|y b] Hb Hl; try done.
  apply Forall_cons in Hb as [Hy Hb]. cbn [le_val length le_bytes zip_with]. rewrite add_lxor by done.
  pose proof (lxor_byte_ok x y Hx Hy) as Hxy. unfold byte_ok in Hxy. f_equal.
  - unfold u8. change (2 ^ 8) with 256. Z.div_mod_to_equations. lia.
  - rewrite Z.shiftr_div_pow2 by lia. change (2 ^ 8) with 256.
    replace ((Z.lxor x y + 256 * Z.lxor (le_val a) (le_val b)) / 256) with (Z.lxor (le_val a) (le_val b))
      by (Z.div_mod_to_equations; lia).
    apply IH; [done|]. by injection Hl.
Qed.

Lemma le_val_app a b : le_val (a ++ b) = le_val a + 256 ^ len a * le_val b.
Proof.
  induction a as [|x a IH]; cbn [app le_val]; [change (len (@nil Z)) with 0; lia|].
  rewrite IH, len_cons, Z.pow_add_r by len_lia. lia.
Qed.

Lemma le_val_range l : bytes_ok l -> 0 <= le_val l < 256 ^ len l.
Proof.
  induction 1 as [|b l Hb Hl IH]; cbn [le_val]; [by split|].
  rewrite len_cons, Z.pow_add_r by len_lia. unfold byte_ok in Hb. lia.
Qed.

Lemma le_bytes_length n v : length (le_bytes n v) = n.
Proof. revert v. induction n; intros v; cbn; congruence. Qed.

Lemma le_bytes_ok n v : bytes_ok (le_bytes n v).
Proof. revert v. induction n; intros v; cbn; constructor; auto with fib. Qed.
#[export] Hint Resolve le_bytes_ok : fib.

Lemma le_val_bytes n v : le_val (le_bytes n v) = v mod 256 ^ Z.of_nat n.
Proof.
  revert v. induction n as [|n IH]; intros v; [cbn; by rewrite Z.mod_1_r|].
  cbn [le_bytes le_val]. rewrite IH, Z.shiftr_div_pow2 by lia. unfold u8. change (2 ^ 8) with 256.
  rewrite Nat2Z.inj_succ, Z.pow_succ_r, Z.rem_mul_r by lia. lia.
Qed.

Lemma le_bytes_val l : bytes_ok l -> le_bytes (length l) (le_val l) = l.
Proof.
  induction 1 as [|b l Hb Hl IH]; cbn [length le_bytes le_val]; [done|]. unfold byte_ok in Hb. f_equal.
  - unfold u8. change (2 ^ 8) with 256. Z.div_mod_to_equations. lia.
  - rewrite Z.shiftr_div_pow2 by lia. change (2 ^ 8) with 256.
    replace ((b + 256 * le_val l) / 256) with (le_val l) by (Z.div_mod_to_equations; lia). done.
Qed.

(** *** [sort.Search] on a monotone test is the first index that passes it. *)

Lemma first_index_range {A} (p : A -> bool) l : 0 <= first_index p l <= len l.
Proof.
  induction l as [|x l IH]; cbn; [done|]. rewrite len_cons.
  destruct (p x); len_lia.
Qed.

Lemma at_cons {A} (y : A) l i : 0 < i -> at_ (y :: l) i = at_ l (i - 1).
Proof.
  intros. unfold at_. destruct (Z.leb_spec 0 i), (Z.leb_spec 0 (i - 1)); try lia.
  replace (Z.to_nat i) with (S (Z.to_nat (i - 1))) by lia. done.
Qed.

Lemma first_index_before {A} (p : A -> bool) l i x :
  0 <= i < first_index p l -> at_ l i = Some x -> p x = false.
Proof.
  revert i. induction l as [|y l IH]; intros i Hi Hx; simpl in *; [lia|].
  destruct (p y) eqn:E; [lia|].
  destruct (Z.eq_dec i 0) as [->|]; [by rewrite at_head in Hx; simplify_eq|].
  rewrite at_cons in Hx by lia. apply (IH (i - 1)); [lia|done].
Qed.

Lemma first_index_at {A} (p : A -> bool) l x :
  at_ l (first_index p l) = Some x -> p x = true.
Proof.
  induction l as [|y l IH]; simpl; [done|].
  destruct (p y) eqn:E; [by rewrite at_head; intros [= <-]|].
  pose proof (first_index_range p l). rewrite at_cons by lia.
  intros H'. apply IH. by replace (1 + first_index p l - 1) with (first_index p l) in H' by lia.
Qed.

Lemma search_loop_spec fuel (f : Z -> bool) i j m :
  i <= m <= j -> j - i <= Z.of_nat fuel ->
  (forall k, i <= k < j -> f k = (m <=? k)) ->
  search_loop fuel f i j = m.
Proof.
  revert i j. induction fuel as [|fuel IH]; intros i j Hm Hf Hk; cbn; [lia|].
  destruct (Z.ltb_spec i j); [|lia].
  assert (i <= (i + j) / 2 < j) by (Z.div_mod_to_equations; lia).
  rewrite Hk by lia. destruct (Z.leb_spec m ((i + j) / 2)).
  - apply IH; [lia|lia|]. intros; apply Hk; lia.
  - apply IH; [lia|lia|]. intros; apply Hk; lia.
Qed.

(** [p] on a list is monotone when it never goes from true back to false. *)
Definition monotone {A} (p : A -> bool) (l : list A) : Prop :=
  forall i x, first_index p l <= i -> at_ l i = Some x -> p x = true.

(** [sort.Search(len(l), func(i) bool { return p(l[i]) })] *)
Definition search_list {A} (p : A -> bool) (l : list A) : Z :=
  sort_Search (len l) (fun i => match at_ l i with Some x => p x | None => true end).

Lemma search_list_first {A} (p : A -> bool) l :
  monotone p l -> search_list p l = first_index p l.
Proof.
  intros Hm. apply search_loop_spec.
  - apply first_index_range.
  - len_lia.
  - intros k Hk. destruct (at_is_Some l k Hk) as [x Hx]. rewrite Hx.
    destruct (Z.leb_spec (first_index p l) k); [by eapply Hm|].
    eapply first_index_before; [|done]. lia.
Qed.

(** Take a step of a concrete run and compute the state it leads to. *)
Ltac run_norm :=
  lazymatch goal with |- rtc _ ?x _ => let y := eval vm_compute in x in change x with y end.
Tactic Notation "run_step" tactic3(tac) := eapply rtc_l; [tac|run_norm].
