(* ===== verification/Varint.v ===== *)
(** QUIC variable-length integers and the sticky-failure reader
    (src/go/http3/internal/quic/varint.go).

    The encoder appends to a buffer, so every [append...] takes the buffer it
    extends.  [reader] is the record the frame and transport-parameter parsers
    thread: its operations return the value read and the reader left. *)
From S2P Require Import Prelude.

Definition maxVarint : Z := 2 ^ 62 - 1.

Definition AppendVarint (b : bytes) (v : Z) : bytes :=
  if v <? 2 ^ 6 then b ++ [u8 v]
  else if v <? 2 ^ 14 then b ++ [Z.lor (u8 (Z.shiftr v 8)) 0x40; u8 v]
  else if v <? 2 ^ 30 then
    b ++ [Z.lor (u8 (Z.shiftr v 24)) 0x80; u8 (Z.shiftr v 16); u8 (Z.shiftr v 8); u8 v]
  else
    b ++ [Z.lor (u8 (Z.shiftr v 56)) 0xc0; u8 (Z.shiftr v 48); u8 (Z.shiftr v 40);
          u8 (Z.shiftr v 32); u8 (Z.shiftr v 24); u8 (Z.shiftr v 16); u8 (Z.shiftr v 8); u8 v].

Definition VarintLen (v : Z) : Z :=
  if v <? 2 ^ 6 then 1 else if v <? 2 ^ 14 then 2 else if v <? 2 ^ 30 then 4 else 8.

(** The value and its length, or a length of zero when [b] is too short. *)
Definition ReadVarint (b : bytes) : Z * Z :=
  match b with
  | [] => (0, 0)
  | b0 :: tail =>
      let n := Z.shiftl 1 (Z.shiftr b0 6) in
      if len b <? n then (0, 0)
      else (fold_left (fun v c => Z.lor (u64 (Z.shiftl v 8)) c)
              (take (Z.to_nat (n - 1)) tail) (Z.land b0 0x3f), n)
  end.

Definition appendVarint2 (b : bytes) (v : Z) : bytes :=
  b ++ [Z.lor (u8 (Z.shiftr v 8)) 0x40; u8 v].

Record reader := Reader { r_b : bytes; r_bad : bool }.

Definition reader_varint (r : reader) : Z * reader :=
  let '(v, n) := ReadVarint (r_b r) in
  if n =? 0 then (0, Reader [] true)
  else (v, Reader (drop (Z.to_nat n) (r_b r)) (r_bad r)).

(** A read past the end yields [nil], which Go and the model both show as empty. *)
Definition reader_bytes (n : Z) (r : reader) : bytes * reader :=
  if len (r_b r) <? n then ([], Reader [] true)
  else (take (Z.to_nat n) (r_b r), Reader (drop (Z.to_nat n) (r_b r)) (r_bad r)).

Definition reader_byte (r : reader) : Z * reader :=
  match r_b r with
  | [] => (0, Reader (r_b r) true)
  | c :: rest => (c, Reader rest (r_bad r))
  end.

(** * The codec interface

    What an encoder promises the parsers built on it: decoding what was
    encoded, with anything after it, gives the value back and leaves the rest. *)
Class Codec (A : Type) := {
  enc : A -> bytes;
  dec : bytes -> option (A * bytes);
  dom : A -> Prop;
  dec_enc : forall a rest, dom a -> dec (enc a ++ rest) = Some (a, rest);
  enc_bytes : forall a, bytes_ok (enc a);
}.

Lemma enc_inj {A} `{Codec A} a a' : dom a -> dom a' -> enc a = enc a' -> a = a'.
Proof.
  intros Ha Ha' E. pose proof (dec_enc a [] Ha) as H1. pose proof (dec_enc a' [] Ha') as H2.
  rewrite E in H1. congruence.
Qed.

(** * Lemmas *)

Lemma AppendVarint_app b v : AppendVarint b v = b ++ AppendVarint [] v.
Proof. unfold AppendVarint. bdestruct_all; by rewrite ?app_nil_l. Qed.

(** Every encoding is a two-bit tag over the big-endian bytes of the value. *)
Definition vint_tail (v : Z) : nat :=
  if v <? 2 ^ 6 then 0 else if v <? 2 ^ 14 then 1 else if v <? 2 ^ 30 then 3 else 7.
Definition vint_tag (v : Z) : Z :=
  if v <? 2 ^ 6 then 0 else if v <? 2 ^ 14 then 1 else if v <? 2 ^ 30 then 2 else 3.

Lemma VarintLen_tail v : VarintLen v = Z.of_nat (vint_tail v) + 1.
Proof. unfold VarintLen, vint_tail. bdestruct_all; done. Qed.

Lemma AppendVarint_shape v :
  AppendVarint [] v =
  Z.lor (u8 (Z.shiftr v (8 * Z.of_nat (vint_tail v)))) (vint_tag v * 64) :: be_bytes (vint_tail v) v.
Proof.
  unfold AppendVarint, vint_tail, vint_tag. bdestruct_all; cbn [app be_bytes]; try done.
  all: cbn -[u8 Z.shiftr Z.lor]; rewrite ?Z.lor_0_r, ?Z.shiftr_0_r; done.
Qed.

(** Splitting the tagged first byte. *)
Lemma tagged_byte x t : 0 <= t < 4 ->
  Z.shiftr (Z.lor (u8 x) (t * 64)) 6 = Z.lor t (u8 x / 64) /\
  Z.land (Z.lor (u8 x) (t * 64)) 0x3f = u8 x mod 64.
Proof.
  intros Ht. change 64 with (2 ^ 6). split.
  - rewrite Z.shiftr_lor, Z.lor_comm, !Z.shiftr_div_pow2 by lia.
    by rewrite Z.div_mul by lia.
  - change 0x3f with (2 ^ 6 - 1). rewrite land_mask by lia.
    rewrite <- !Z.land_ones, Z.land_lor_distr_l by lia.
    rewrite (Z.land_ones (t * 2 ^ 6)), Z.mod_mul by lia. by rewrite Z.lor_0_r.
Qed.

Lemma pow256 n : 0 <= n -> 2 ^ (8 * n) = 256 ^ n.
Proof. intros. rewrite Z.pow_mul_r by lia. done. Qed.

(** The tag always survives: the value's own two top bits sit under it. *)
Lemma vint_tag_ok v :
  0 <= v < 2 ^ 64 ->
  Z.lor (vint_tag v) (u8 (Z.shiftr v (8 * Z.of_nat (vint_tail v))) / 64) = vint_tag v /\
  Z.shiftl 1 (vint_tag v) = VarintLen v.
Proof.
  intros Hv. unfold vint_tag, vint_tail, VarintLen, u8.
  bdestruct_all; (split; [|done]).
  all: try (replace (_ / 64) with 0; [done|]; symmetry; cbn;
            rewrite ?Z.shiftr_div_pow2 by lia; Z.div_mod_to_equations; lia).
  rewrite Z.shiftr_div_pow2 by lia. cbn.
  assert (0 <= v / 72057594037927936 mod 256 / 64 < 4) by (Z.div_mod_to_equations; lia).
  assert (Hx : forall x, 0 <= x < 4 -> Z.lor 3 x = 3).
  { intros x Hx. assert (x = 0 \/ x = 1 \/ x = 2 \/ x = 3) as [->|[->|[->| ->]]] by lia; done. }
  by apply Hx.
Qed.

(** What the decoder rebuilds from the tagged byte and the tail. *)
Lemma vint_value v :
  0 <= v < 2 ^ 64 ->
  u8 (Z.shiftr v (8 * Z.of_nat (vint_tail v))) mod 64 * 256 ^ Z.of_nat (vint_tail v)
    + v mod 256 ^ Z.of_nat (vint_tail v) = v mod 2 ^ 62.
Proof.
  intros Hv. unfold u8. rewrite Z.shiftr_div_pow2, pow256 by lia.
  set (P := 256 ^ Z.of_nat (vint_tail v)).
  assert (HP : 0 < P) by (apply Z.pow_pos_nonneg; lia).
  change (2 ^ 8) with (64 * 4). rewrite Z.rem_mul_r by lia.
  rewrite (Z.mul_comm 64), Z.add_comm, Z.add_comm, Z.mod_add, Z.mod_mod by lia.
  rewrite (Z.add_comm _ (v mod P)), (Z.mul_comm _ P), <- Z.rem_mul_r by lia.
  unfold P, vint_tail. bdestruct_all; cbn; try done; rewrite !Z.mod_small by lia; done.
Qed.

Lemma ReadVarint_AppendVarint v rest :
  0 <= v < 2 ^ 64 ->
  ReadVarint (AppendVarint [] v ++ rest) = (v mod 2 ^ 62, VarintLen v).
Proof.
  intros Hv. rewrite AppendVarint_shape. cbn [app]. unfold ReadVarint.
  set (x := Z.shiftr v _).
  destruct (tagged_byte x (vint_tag v)) as [-> ->].
  { unfold vint_tag. bdestruct_all; lia. }
  pose proof (vint_tag_ok v Hv) as [E1 E2]. fold x in E1. rewrite E1, E2.
  pose proof (VarintLen_tail v) as HL.
  destruct (Z.ltb_spec (len (Z.lor (u8 x) (vint_tag v * 64) :: be_bytes (vint_tail v) v ++ rest))
              (VarintLen v)) as [Hlt|_].
  { rewrite len_cons, len_app, be_bytes_len in Hlt. pose proof (len_nonneg rest). lia. }
  f_equal. replace (Z.to_nat (VarintLen v - 1)) with (vint_tail v) by lia.
  rewrite take_app_le, take_ge by (rewrite be_bytes_length; lia).
  rewrite or_fold_be, be_bytes_len, be_val_bytes; auto with fib.
  - by apply vint_value.
  - apply Z.mod_pos_bound. lia.
  - rewrite be_bytes_len. pose proof (Z.mod_pos_bound (u8 x) 64).
    assert (256 ^ Z.of_nat (vint_tail v) <= 256 ^ 7).
    { apply Z.pow_le_mono_r; [lia|]. unfold vint_tail. bdestruct_all; lia. }
    nia.
Qed.

Lemma AppendVarint_len v : len (AppendVarint [] v) = VarintLen v.
Proof. unfold AppendVarint, VarintLen. bdestruct_all; done. Qed.

Lemma AppendVarint_bytes b v : bytes_ok b -> bytes_ok (AppendVarint b v).
Proof.
  intros Hb. unfold AppendVarint. bdestruct_all; apply Forall_app; (split; [done|]);
    repeat apply Forall_cons_2; try apply Forall_nil_2; auto with fib;
    apply lor_byte_ok; auto with fib; unfold byte_ok; lia.
Qed.
#[export] Hint Resolve AppendVarint_bytes : fib.

Definition decVarint (b : bytes) : option (Z * bytes) :=
  let '(v, n) := ReadVarint b in
  if n =? 0 then None else Some (v, drop (Z.to_nat n) b).

#[export] Program Instance varint_codec : Codec Z := {|
  enc := AppendVarint [];
  dec := decVarint;
  dom v := 0 <= v <= maxVarint;
|}.
Next Obligation.
  unfold maxVarint. intros v rest Hv. unfold decVarint.
  rewrite ReadVarint_AppendVarint, Z.mod_small by lia.
  assert (VarintLen v <> 0) by (unfold VarintLen; bdestruct_all; lia).
  destruct (Z.eqb_spec (VarintLen v) 0); [done|]. do 2 f_equal.
  rewrite <- AppendVarint_len. unfold len. rewrite Nat2Z.id. apply drop_app_length.
Qed.
Next Obligation. auto with fib. Qed.

(** Reading with the sticky reader what the encoder wrote. *)
Lemma reader_varint_enc v rest bad :
  0 <= v <= maxVarint ->
  reader_varint (Reader (AppendVarint [] v ++ rest) bad) = (v, Reader rest bad).
Proof.
  intros Hv. pose proof (dec_enc v rest Hv) as H. cbn in H. unfold decVarint in H.
  unfold reader_varint. cbn [r_b r_bad].
  destruct (ReadVarint _) as [w n]. destruct (n =? 0); [done|]. injection H as -> E. by rewrite E.
Qed.

Lemma reader_bytes_app l rest bad n :
  n = len l -> reader_bytes n (Reader (l ++ rest) bad) = (l, Reader rest bad).
Proof.
  intros ->. unfold reader_bytes. cbn [r_b r_bad].
  destruct (Z.ltb_spec (len (l ++ rest)) (len l)); [len_lia|].
  unfold len. by rewrite Nat2Z.id, take_app_length, drop_app_length.
Qed.

(** A successful read never yields more than its length can hold. *)
Lemma ReadVarint_value b v n :
  bytes_ok b -> ReadVarint b = (v, n) -> n <> 0 ->
  (n = 1 \/ n = 2 \/ n = 4 \/ n = 8) /\ 0 <= v < 64 * 256 ^ (n - 1).
Proof.
  intros Hb. destruct b as [|b0 tail]; [intros [= <- <-]; done|].
  apply Forall_cons in Hb as [Hb0 Ht]. unfold byte_ok in Hb0.
  unfold ReadVarint. destruct (Z.ltb_spec (len (b0 :: tail)) (Z.shiftl 1 (Z.shiftr b0 6)));
    [intros [= <- <-]; done|]. intros [= <- <-] _.
  rewrite Z.shiftr_div_pow2 in * by lia. change (2 ^ 6) with 64 in *.
  set (q := b0 / 64) in *. assert (0 <= q < 4) by (unfold q; Z.div_mod_to_equations; lia).
  set (n := Z.shiftl 1 q) in *. set (l := take (Z.to_nat (n - 1)) tail) in *.
  change 0x3f with (2 ^ 6 - 1). rewrite land_mask by lia.
  pose proof (Z.mod_pos_bound b0 (2 ^ 6)).
  assert (Hq : n = 1 \/ n = 2 \/ n = 4 \/ n = 8).
  { unfold n. assert (q = 0 \/ q = 1 \/ q = 2 \/ q = 3) as [->|[->|[->| ->]]] by lia; cbv; auto. }
  assert (Hl : len l = n - 1) by (subst l; len_lia).
  assert (Hlb : bytes_ok l) by (by apply Forall_take).
  pose proof (be_val_range l Hlb) as Hr. rewrite Hl in Hr. split; [done|].
  rewrite or_fold_be, Hl; [|done|lia|]; rewrite ?Hl; destruct Hq as [->|[->|[->| ->]]]; cbn in *; lia.
Qed.

Lemma ReadVarint_bound b v n :
  bytes_ok b -> ReadVarint b = (v, n) -> n <> 0 -> VarintLen v <= n.
Proof.
  intros Hb Hr Hn. destruct (ReadVarint_value b v n Hb Hr Hn) as [Hq Hv].
  unfold VarintLen. destruct Hq as [->|[->|[->| ->]]]; cbn in *; bdestruct_all; lia.
Qed.

Lemma reader_varint_range r v r' :
  bytes_ok (r_b r) -> reader_varint r = (v, r') -> 0 <= v <= maxVarint /\ bytes_ok (r_b r').
Proof.
  intros Hb. unfold reader_varint, maxVarint. destruct (ReadVarint (r_b r)) as [w n] eqn:E.
  destruct (Z.eqb_spec n 0) as [|Hn]; intros [= <- <-]; [split; [lia|apply Forall_nil_2]|].
  split; [|by apply Forall_drop]. destruct (ReadVarint_value _ _ _ Hb E Hn) as [Hq Hv].
  destruct Hq as [->|[->|[->| ->]]]; cbn in *; lia.
Qed.

(** Varints round trip, shortest.  A value below 2^62 that [AppendVarint]
    appends is what [reader.varint] reads back, leaving exactly what follows;
    it takes [VarintLen] bytes, and no byte string [ReadVarint] reads the same
    value from is shorter. *)
Theorem varint_roundtrip (v : Z) (rest : bytes) :
  0 <= v <= maxVarint ->
  reader_varint (Reader (AppendVarint [] v ++ rest) false) = (v, Reader rest false) /\
  len (AppendVarint [] v) = VarintLen v /\
  (forall b n, bytes_ok b -> ReadVarint b = (v, n) -> n <> 0 -> len (AppendVarint [] v) <= n).
Proof.
  intros Hv. split; [by apply reader_varint_enc|]. split; [apply AppendVarint_len|].
  intros b n Hb Hr Hn. rewrite AppendVarint_len. by apply (ReadVarint_bound b).
Qed.

Lemma varint_roundtrip_witness :
  reader_varint (Reader (AppendVarint [] 15293 ++ [7]) false) = (15293, Reader [7] false).
Proof. apply (varint_roundtrip 15293 [7]). unfold maxVarint. lia. Defined.
