(* ===== verification/QuicBuffer.v ===== *)
(** The byte-range bookkeeping of QUIC streams
    (src/go/http3/internal/quic/buffer.go): [addSpan], the retransmission
    buffer [sendBuffer], the reassembly buffer [recvBuffer] and the received
    packet numbers [rangeSet].

    Offsets are 64-bit; sums and differences the source takes are reduced
    modulo 2^64 here too.  An operation that slices an array returns [None]
    where the slice would panic; the theorems show it never does.  The spans,
    segments and ranges of a buffer are owned by it alone, so the in-place
    [copy]s of the source are list surgery here. *)
From S2P Require Import Prelude.

(** * Spans *)

Record span := Span { off : Z; end_ : Z }.

#[export] Instance span_eq_dec : EqDecision span.
Proof. solve_decision. Defined.

(** The loop that absorbs [spans[j:]] into [s] while they touch it; it returns
    the grown span and how many it absorbed. *)
Fixpoint absorb (spans : list span) (s : span) : span * nat :=
  match spans with
  | x :: rest =>
      if off x <=? end_ s then
        let '(s', j) := absorb rest (Span (Z.min (off s) (off x)) (Z.max (end_ s) (end_ x))) in
        (s', S j)
      else (s, O)
  | [] => (s, O)
  end.

Definition addSpan (spans : list span) (s : span) : list span :=
  if end_ s <=? off s then spans
  else
    let i := Z.to_nat (search_list (fun x => off s <=? end_ x) spans) in
    let '(s', k) := absorb (drop i spans) s in
    let j := (i + k)%nat in
    if (i =? j)%nat then take i spans ++ s' :: drop i spans
    else take i spans ++ s' :: drop j spans.

(** * The send buffer *)

Record sendBuffer := SendBuffer {
  base : Z;
  buf : bytes;
  next : Z;
  lost : list span;
  acked : list span;
}.

Definition sb_end (b : sendBuffer) : Z := u64 (base b + len (buf b)).

Definition sb_write (b : sendBuffer) (p : bytes) : sendBuffer :=
  SendBuffer (base b) (buf b ++ p) (next b) (lost b) (acked b).

Fixpoint trim_lost (base : Z) (l : list span) : list span :=
  match l with
  | s :: rest => if end_ s <=? base then trim_lost base rest else l
  | [] => []
  end.

Definition hasLost (b : sendBuffer) : bool * sendBuffer :=
  let l := trim_lost (base b) (lost b) in
  (0 <? len l, SendBuffer (base b) (buf b) (next b) l (acked b)).

Definition popLost (n : Z) (b : sendBuffer) : option ((Z * bytes) * sendBuffer) :=
  let '(has, b) := hasLost b in
  if negb has || (n =? 0) then Some ((0, []), b)
  else
    match lost b with
    | [] => None
    | s :: rest =>
        let o := Z.max (off s) (base b) in
        let e := Z.min (end_ s) (u64 (o + n)) in
        let? data := slice (buf b) (u64 (o - base b)) (u64 (e - base b)) in
        let lost' := if end_ s <=? e then rest else Span e (end_ s) :: rest in
        Some ((o, data), SendBuffer (base b) (buf b) (next b) lost' (acked b))
    end.

Definition popNew (n : Z) (b : sendBuffer) : option ((Z * bytes) * sendBuffer) :=
  let o := next b in
  let e := Z.min (sb_end b) (u64 (o + n)) in
  let? data := slice (buf b) (u64 (o - base b)) (u64 (e - base b)) in
  Some ((o, data), SendBuffer (base b) (buf b) e (lost b) (acked b)).

Definition onAck (o n : Z) (b : sendBuffer) : option sendBuffer :=
  let acked' := addSpan (acked b) (Span o (u64 (o + n))) in
  match acked' with
  | [] => Some (SendBuffer (base b) (buf b) (next b) (lost b) acked')
  | s :: rest =>
      if base b <? off s then Some (SendBuffer (base b) (buf b) (next b) (lost b) acked')
      else
        let newBase := end_ s in
        if newBase <=? base b then Some (SendBuffer (base b) (buf b) (next b) (lost b) rest)
        else
          let? buf' := slice_from (buf b) (u64 (newBase - base b)) in
          Some (SendBuffer newBase buf' (next b) (lost b) rest)
  end.

Definition onLost (o n : Z) (b : sendBuffer) : sendBuffer :=
  let e := u64 (o + n) in
  let o' := Z.max o (base b) in
  if e <=? o' then b
  else SendBuffer (base b) (buf b) (next b) (addSpan (lost b) (Span o' e)) (acked b).

Definition allAcked (b : sendBuffer) : bool := len (buf b) =? 0.

(** * The receive buffer *)

Record segment := Segment { seg_off : Z; seg_data : bytes }.

Record recvBuffer := RecvBuffer {
  offset : Z;
  segments : list segment;
  buffered : Z;
}.

Definition push (o : Z) (data : bytes) (r : recvBuffer) : option recvBuffer :=
  let e := u64 (o + len data) in
  if (e <=? offset r) || (len data =? 0) then Some r
  else
    let? (o, data) :=
      if o <? offset r then
        let? d := slice_from data (u64 (offset r - o)) in Some (offset r, d)
      else Some (o, data) in
    let i := Z.to_nat (search_list (fun s => o <? seg_off s) (segments r)) in
    Some (RecvBuffer (offset r)
            (take i (segments r) ++ Segment o data :: drop i (segments r))
            (buffered r + len data)).

(** [pop]'s loop, structural in the segments: [Some (None, r)] is the nil that
    says there is a gap. *)
Fixpoint pop_loop (o : Z) (segs : list segment) (bf : Z) : option (option bytes * recvBuffer) :=
  match segs with
  | [] => Some (None, RecvBuffer o [] bf)
  | s :: rest =>
      if o <? seg_off s then Some (None, RecvBuffer o segs bf)
      else
        let bf := bf - len (seg_data s) in
        let e := u64 (seg_off s + len (seg_data s)) in
        if e <=? o then pop_loop o rest bf
        else
          let? data := slice_from (seg_data s) (u64 (o - seg_off s)) in
          Some (Some data, RecvBuffer e rest bf)
  end.

Definition pop (r : recvBuffer) : option (option bytes * recvBuffer) :=
  pop_loop (offset r) (segments r) (buffered r).

(** * Received packet numbers *)

Record pnRange := PnRange { lo : Z; hi : Z }.

Definition maxAckRanges : Z := 32.

Abbreviation rangeSet := (list pnRange).

Definition rs_add (pn : Z) (r : rangeSet) : bool * rangeSet :=
  match r with
  | r0 :: _ =>
      if (pn <? lo r0) && (len r =? maxAckRanges) then (false, r) else
      let i := Z.to_nat (search_list (fun x => pn <=? u64 (hi x + 1)) r) in
      let present := match r !! i with Some x => (lo x <=? pn) && (pn <=? hi x) | None => false end in
      if present then (false, r)
      else
        let r' :=
          match r !! i with
          | Some x =>
              if u64 (hi x + 1) =? pn then
                match r !! S i with
                | Some y =>
                    if lo y =? u64 (pn + 1)
                    then take i r ++ PnRange (lo x) (hi y) :: drop (S (S i)) r
                    else take i r ++ PnRange (lo x) pn :: drop (S i) r
                | None => take i r ++ PnRange (lo x) pn :: drop (S i) r
                end
              else if lo x =? u64 (pn + 1) then take i r ++ PnRange pn (hi x) :: drop (S i) r
              else take i r ++ PnRange pn pn :: drop i r
          | None => take i r ++ PnRange pn pn :: drop i r
          end in
        (true, if maxAckRanges <? len r' then drop 1 r' else r')
  | [] => (true, [PnRange pn pn])
  end.

(** [s[len(s)-1].hi]: [None] is the panic on an empty set. *)
Definition rs_largest (s : rangeSet) : option Z := hi <$> last s.

(** * Spans: the reference definition and the invariant *)

(** Sorted, disjoint and not even touching spans, all beyond [l]. *)
Fixpoint separated (l : Z) (spans : list span) : Prop :=
  match spans with
  | [] => True
  | s :: rest => l < off s /\ off s < end_ s /\ separated (end_ s) rest
  end.

Definition covers (spans : list span) (x : Z) : Prop :=
  exists s, s ∈ spans /\ off s <= x < end_ s.

Fixpoint insert_span (spans : list span) (s : span) : list span :=
  match spans with
  | [] => [s]
  | x :: rest =>
      if end_ x <? off s then x :: insert_span rest s
      else let '(s', k) := absorb spans s in s' :: drop k spans
  end.

Lemma separated_mono l l' spans : l' <= l -> separated l spans -> separated l' spans.
Proof. destruct spans; cbn; [done|]. intros ? (?&?&?). repeat split; (lia || done). Qed.

Lemma covers_cons s l x : covers (s :: l) x <-> off s <= x < end_ s \/ covers l x.
Proof.
  unfold covers. split.
  - intros (t & [->|Ht]%elem_of_cons & ?); [by left|right; eauto].
  - intros [?|(t & ? & ?)]; [exists s|exists t]; split; try done; set_solver.
Qed.

Lemma covers_nil x : ~ covers [] x.
Proof. intros (s & Hs & _). set_solver. Qed.

Lemma separated_covers l spans x : separated l spans -> covers spans x -> l < x.
Proof.
  revert l. induction spans as [|s spans IH]; intros l Hs Hc.
  - by apply covers_nil in Hc.
  - destruct Hs as (?&?&Hs). apply covers_cons in Hc as [?|Hc]; [lia|].
    apply (separated_mono _ l) in Hs; [|lia]. eauto.
Qed.

Lemma separated_ends l spans s : separated l spans -> s ∈ spans -> l < off s < end_ s.
Proof.
  revert l. induction spans as [|t spans IH]; intros l Hs Hin; [set_solver|].
  destruct Hs as (?&?&Hs). apply elem_of_cons in Hin as [->|Hin]; [lia|].
  apply (IH l); [|done]. by apply (separated_mono (end_ t)); [lia|].
Qed.

Lemma first_index_split {A} (p : A -> bool) x (l : list A) :
  p x = false -> Z.to_nat (first_index p (x :: l)) = S (Z.to_nat (first_index p l)).
Proof. intros E. cbn. rewrite E. pose proof (first_index_range p l). lia. Qed.

Lemma separated_monotone l spans k :
  separated l spans -> monotone (fun x => k <=? end_ x) spans.
Proof.
  intros Hs i x Hi Hx. revert l i Hi Hx Hs.
  induction spans as [|s spans IH]; intros l i Hi Hx Hs; [by rewrite at_nil in Hx|].
  destruct Hs as (?&?&Hs). cbn in Hi.
  pose proof (first_index_range (fun x => k <=? end_ x) spans).
  destruct (Z.leb_spec k (end_ s)).
  - destruct (Z.eq_dec i 0) as [->|]; [rewrite at_head in Hx; simplify_eq; by apply Z.leb_le|].
    apply Z.leb_le. unfold at_ in Hx. destruct (Z.leb_spec 0 i); [|done].
    apply list_elem_of_lookup_2 in Hx. apply elem_of_cons in Hx as [->|Hx]; [lia|].
    pose proof (separated_ends _ _ _ Hs Hx). lia.
  - rewrite at_cons in Hx by lia. apply (IH (end_ s) (i - 1)); (lia || done).
Qed.

Lemma addSpan_insert l spans s :
  separated l spans -> off s < end_ s -> addSpan spans s = insert_span spans s.
Proof.
  intros Hs He. unfold addSpan. destruct (Z.leb_spec (end_ s) (off s)); [lia|].
  rewrite search_list_first by by eapply separated_monotone.
  revert l Hs. induction spans as [|x spans IH]; intros l Hs; [done|].
  destruct Hs as (?&?&Hs). cbn [insert_span].
  destruct (Z.ltb_spec (end_ x) (off s)).
  - rewrite first_index_split by (apply Z.leb_gt; lia). cbn [drop take].
    specialize (IH _ Hs). destruct (absorb _ s) as [s' k]. rewrite <- IH. cbn.
    destruct (Nat.eqb_spec (Z.to_nat (first_index (fun x => off s <=? end_ x) spans))
      (Z.to_nat (first_index (fun x => off s <=? end_ x) spans) + k)); done.
  - cbn [first_index]. destruct (Z.leb_spec (off s) (end_ x)); [|lia].
    change (Z.to_nat 0) with 0%nat. rewrite drop_0.
    destruct (absorb (x :: spans) s) as [s' k] eqn:E. by destruct k.
Qed.

Lemma absorb_spec l spans s s' k :
  separated l spans -> off s < end_ s ->
  match spans with t :: _ => off s <= end_ t | [] => True end ->
  absorb spans s = (s', k) ->
  Z.min (off s) (l + 1) <= off s' <= off s /\ end_ s <= end_ s' /\
  separated (end_ s') (drop k spans) /\
  (forall x, off s' <= x < end_ s' \/ covers (drop k spans) x <->
             off s <= x < end_ s \/ covers spans x).
Proof.
  revert l s s' k. induction spans as [|t spans IH]; intros l s s' k Hs He Ht Ha.
  { cbn in Ha. simplify_eq. cbn. repeat split; try lia; tauto. }
  destruct Hs as (?&?&Hs). cbn in Ha. destruct (Z.leb_spec (off t) (end_ s)).
  - destruct (absorb spans _) as [s2 k2] eqn:E. simplify_eq. cbn [drop].
    apply (IH (end_ t)) in E as (?&?&?&Hc); [|done|cbn; lia|].
    2: { destruct spans as [|t2 spans]; [done|]. cbn in *. lia. }
    cbn in *.
    repeat split; try (lia || done).
    all: intros Hx; specialize (Hc x); rewrite ?covers_cons in *.
    + apply Hc in Hx as [Hx|Hx]; [|tauto]. lia.
    + apply Hc. destruct Hx as [Hx|[Hx|Hx]]; [left; lia|left; lia|tauto].
  - simplify_eq. cbn [drop]. repeat split; try (lia || done || tauto).
Qed.

Lemma insert_span_spec l spans s :
  separated l spans -> l < off s -> off s < end_ s ->
  separated l (insert_span spans s) /\
  forall x, covers (insert_span spans s) x <-> covers spans x \/ off s <= x < end_ s.
Proof.
  revert l. induction spans as [|t spans IH]; intros l Hs Hl He.
  { cbn. split; [done|]. intros x. rewrite covers_cons. pose proof (covers_nil x). tauto. }
  cbn [insert_span]. destruct (Z.ltb_spec (end_ t) (off s)).
  - destruct Hs as (?&?&Hs). destruct (IH (end_ t)) as [? Hc]; try done.
    split; [done|]. intros x. rewrite !covers_cons, Hc. tauto.
  - destruct (absorb (t :: spans) s) as [s' k] eqn:E.
    apply (absorb_spec l) in E as (?&?&?&Hc); try (done || lia).
    split; [cbn; repeat split; (lia || done)|].
    intros x. rewrite covers_cons, Hc. tauto.
Qed.

(** [addSpan] keeps the spans separated and covers exactly one range more. *)
Lemma addSpan_ok l spans s :
  separated l spans -> l < off s ->
  separated l (addSpan spans s) /\
  forall x, covers (addSpan spans s) x <-> covers spans x \/ off s <= x < end_ s.
Proof.
  intros Hs Hl. destruct (Z.le_gt_cases (end_ s) (off s)).
  - unfold addSpan. destruct (Z.leb_spec (end_ s) (off s)); [|lia].
    split; [done|]. intros x. split; [tauto|]. intros [?|?]; [done|lia].
  - erewrite addSpan_insert by (done || lia). apply insert_span_spec; (lia || done).
Qed.

(** * The send buffer loses nothing *)

(** A frame on the wire: where its data starts, and the data. *)
Record frame := Frame { f_off : Z; f_data : bytes }.

(** The buffer with the two ghosts the theorems speak of: everything ever
    written, and the frames sent whose fate is not known yet. *)
Record sbState := SbState { written : bytes; sbuf : sendBuffer; flight : list frame }.

(** What a stream or a CRYPTO stream does with its buffer; next to the state, the
    frames that were acknowledged.  [n] is the room left in a packet, far below
    2^62.  A probe sends a frame again while it stays in flight; a frame declared
    lost or acknowledged leaves the flight. *)
Inductive sb_step : sbState * list frame -> sbState * list frame -> Prop :=
| step_write W b fl p A :
    len W + len p <= 2 ^ 62 ->
    sb_step (SbState W b fl, A) (SbState (W ++ p) (sb_write b p) fl, A)
| step_popNew W b fl n o data b' A :
    0 <= n < 2 ^ 62 -> popNew n b = Some ((o, data), b') ->
    sb_step (SbState W b fl, A) (SbState W b' (Frame o data :: fl), A)
| step_popLost W b fl n o data b' A :
    0 < n < 2 ^ 62 -> popLost n b = Some ((o, data), b') ->
    sb_step (SbState W b fl, A) (SbState W b' (Frame o data :: fl), A)
| step_ack W b fl1 f fl2 b' A :
    onAck (f_off f) (len (f_data f)) b = Some b' ->
    sb_step (SbState W b (fl1 ++ f :: fl2), A) (SbState W b' (fl1 ++ fl2), f :: A)
| step_lost W b fl1 f fl2 A :
    sb_step (SbState W b (fl1 ++ f :: fl2), A)
            (SbState W (onLost (f_off f) (len (f_data f)) b) (fl1 ++ fl2), A)
| step_probe W b fl f A :
    f ∈ fl -> sb_step (SbState W b fl, A) (SbState W (onLost (f_off f) (len (f_data f)) b) fl, A).

Definition sb_init : sbState := SbState [] (SendBuffer 0 [] 0 [] []) [].

Definition in_flight (fl : list frame) (x : Z) : Prop :=
  exists f, f ∈ fl /\ f_off f <= x < f_off f + len (f_data f).

(** [n] bytes of the stream from offset [o]. *)
Definition stream_at (W : bytes) (o n : Z) : bytes := take (Z.to_nat n) (drop (Z.to_nat o) W).

Definition ends_below (l : list span) (m : Z) : Prop := forall s, s ∈ l -> end_ s <= m.

Definition frame_ok (W : bytes) (nx : Z) (f : frame) : Prop :=
  0 <= f_off f /\ f_off f + len (f_data f) <= nx /\
  f_data f = stream_at W (f_off f) (len (f_data f)).

Record sb_inv (st : sbState) : Prop := {
  inv_range : 0 <= base (sbuf st) <= next (sbuf st) /\ next (sbuf st) <= len (written st) <= 2 ^ 62;
  inv_buf : buf (sbuf st) = drop (Z.to_nat (base (sbuf st))) (written st);
  inv_lost : separated (-1) (lost (sbuf st)) /\ ends_below (lost (sbuf st)) (next (sbuf st));
  inv_acked : separated (base (sbuf st)) (acked (sbuf st)) /\
              ends_below (acked (sbuf st)) (next (sbuf st));
  inv_frames : Forall (frame_ok (written st) (next (sbuf st))) (flight st);
  inv_kept : forall x, 0 <= x < next (sbuf st) ->
    x < base (sbuf st) \/ covers (acked (sbuf st)) x \/ covers (lost (sbuf st)) x \/
    in_flight (flight st) x;
}.

Lemma separated_tail_max b l k spans :
  separated b spans -> separated l (drop k spans) -> separated (Z.max b l) (drop k spans).
Proof.
  intros Hb Hl. assert (Hd : separated b (drop k spans)).
  { clear Hl. revert b spans Hb. induction k as [|k IH]; intros b spans Hb; [done|].
    destruct spans as [|s spans]; [done|]. destruct Hb as (?&?&Hb). cbn [drop].
    apply (separated_mono (end_ s)); [lia|]. by apply IH. }
  destruct (drop k spans); cbn in *; [done|]. intuition lia.
Qed.

(** A new range that reaches down to [b] makes the head; what follows is beyond both. *)
Lemma addSpan_head b spans s x rest :
  separated b spans -> off s < end_ s -> addSpan spans s = x :: rest -> off x <= b ->
  separated (Z.max b (end_ x)) rest.
Proof.
  intros Hs He Ha Hx. erewrite addSpan_insert in Ha by done.
  destruct spans as [|t spans]; cbn [insert_span] in Ha; [by simplify_eq|].
  destruct (Z.ltb_spec (end_ t) (off s)).
  { simplify_eq. destruct Hs. lia. }
  destruct (absorb (t :: spans) s) as [s' k] eqn:E. simplify_eq.
  apply (absorb_spec b) in E as (?&?&?&?); [|done|lia|lia].
  by apply separated_tail_max.
Qed.

Lemma separated_app_end m spans :
  (forall x, covers spans x -> x < m) -> (exists l, separated l spans) -> ends_below spans m.
Proof.
  intros Hc [l Hs] s Hin. pose proof (separated_ends _ _ _ Hs Hin).
  enough (end_ s - 1 < m) by lia. apply Hc. exists s. split; [done|lia].
Qed.

Lemma ends_below_covers l m x : ends_below l m -> covers l x -> x < m.
Proof. intros He (s & Hs & ?). specialize (He s Hs). lia. Qed.

Lemma addSpan_ends l spans s m :
  separated l spans -> l < off s -> ends_below spans m -> end_ s <= m ->
  ends_below (addSpan spans s) m.
Proof.
  intros Hs Hl He Hm. destruct (addSpan_ok l spans s Hs Hl) as [Hs' Hc].
  apply separated_app_end; [|by eexists]. intros x [Hx|Hx]%Hc; [|lia].
  by eapply ends_below_covers.
Qed.

Lemma stream_at_app W p o n :
  0 <= o -> o + n <= len W -> stream_at (W ++ p) o n = stream_at W o n.
Proof.
  intros. unfold stream_at. unfold len in *.
  destruct (Z.le_gt_cases n 0). { by replace (Z.to_nat n) with 0%nat by lia. }
  rewrite drop_app_le, take_app_le; [done| |lia]. rewrite length_drop. lia.
Qed.

Lemma drop_drop_Z {A} (l : list A) a b :
  0 <= a -> 0 <= b -> drop (Z.to_nat b) (drop (Z.to_nat a) l) = drop (Z.to_nat (a + b)) l.
Proof. intros. rewrite drop_drop. f_equal. lia. Qed.

(** Slicing the buffer is reading the stream. *)
Lemma slice_buf W bs o e :
  0 <= bs <= o -> o <= e <= len W -> len W <= 2 ^ 62 ->
  slice (drop (Z.to_nat bs) W) (u64 (o - bs)) (u64 (e - bs)) = Some (stream_at W o (e - o)).
Proof.
  intros ???. rewrite !u64_small by lia. rewrite slice_Some by len_lia.
  rewrite drop_drop_Z by lia. unfold stream_at. do 2 f_equal; [lia|]. do 2 f_equal. lia.
Qed.

Lemma stream_at_len W o n : 0 <= o -> 0 <= n -> o + n <= len W -> len (stream_at W o n) = n.
Proof. intros. unfold stream_at. len_lia. Qed.

Lemma frame_ok_mono W nx W' nx' f :
  (exists p, W' = W ++ p) -> nx <= nx' -> nx <= len W -> frame_ok W nx f -> frame_ok W' nx' f.
Proof.
  intros [p ->] ?? (?&?&E). split_and!; [done|lia|]. rewrite E at 1.
  rewrite stream_at_app; (done || lia).
Qed.

Lemma frame_new W nx o e :
  0 <= o <= e -> e <= nx -> e <= len W -> frame_ok W nx (Frame o (stream_at W o (e - o))).
Proof.
  intros. split_and!; cbn; [lia| |]; rewrite stream_at_len by lia; [lia|done].
Qed.

Lemma in_flight_cons f fl x :
  in_flight (f :: fl) x <-> f_off f <= x < f_off f + len (f_data f) \/ in_flight fl x.
Proof.
  unfold in_flight. split.
  - intros (g & [->|Hg]%elem_of_cons & ?); [by left|right; eauto].
  - intros [?|(g & ? & ?)]; [exists f|exists g]; split; try done; set_solver.
Qed.

Lemma in_flight_split fl1 f fl2 x :
  in_flight (fl1 ++ f :: fl2) x <->
  f_off f <= x < f_off f + len (f_data f) \/ in_flight (fl1 ++ fl2) x.
Proof.
  unfold in_flight. split.
  - intros (g & Hg & ?). apply elem_of_app in Hg as [Hg|[->|Hg]%elem_of_cons]; [|by left|];
      right; exists g; set_solver.
  - intros [?|(g & Hg & ?)]; [exists f|exists g]; set_solver.
Qed.

Lemma trim_lost_spec l bs spans :
  separated l spans ->
  separated l (trim_lost bs spans) /\
  (forall s, s ∈ trim_lost bs spans -> s ∈ spans) /\
  (forall x, covers spans x -> x < bs \/ covers (trim_lost bs spans) x) /\
  match trim_lost bs spans with s :: _ => bs < end_ s | [] => True end.
Proof.
  revert l. induction spans as [|s spans IH]; intros l Hs; cbn; [by repeat split; auto|].
  destruct Hs as (?&?&Hs). destruct (Z.leb_spec (end_ s) bs).
  - destruct (IH (end_ s) Hs) as (Ha&Hb&Hc&Hd). split_and!; [|set_solver| |done].
    + by apply (separated_mono (end_ s)); [lia|].
    + intros x [Hx|Hx]%covers_cons; [lia|]. auto.
  - split_and!; auto. by cbn.
Qed.

Lemma sb_end_eq W b fl : sb_inv (SbState W b fl) -> sb_end b = len W.
Proof.
  intros [(?&?) Hb _ _ _ _]. cbn in *. unfold sb_end. rewrite Hb, u64_small; len_lia.
Qed.

Lemma write_inv W b fl p :
  len W + len p <= 2 ^ 62 -> sb_inv (SbState W b fl) ->
  sb_inv (SbState (W ++ p) (sb_write b p) fl).
Proof.
  intros Hp [(?&?) Hb Hl Ha Hf Hk]. cbn in *. constructor; cbn; try done.
  - len_lia.
  - rewrite Hb, drop_app_le; [done|]. unfold len in *. lia.
  - eapply Forall_impl; [exact Hf|]. intros f Hfr.
    eapply frame_ok_mono; [by eexists| | |done]; lia.
Qed.

Lemma popNew_spec W b fl n :
  0 <= n < 2 ^ 62 -> sb_inv (SbState W b fl) ->
  let e := Z.min (len W) (next b + n) in
  popNew n b = Some ((next b, stream_at W (next b) (e - next b)),
                     SendBuffer (base b) (buf b) e (lost b) (acked b)).
Proof.
  intros Hn Hi e. pose proof (sb_end_eq _ _ _ Hi) as He. destruct Hi as [(?&?) Hb _ _ _ _].
  cbn in *. unfold popNew. rewrite He, (u64_small (next b + n)) by lia. fold e.
  rewrite Hb, slice_buf by lia. done.
Qed.

Lemma popNew_inv W b fl n o data b' :
  0 <= n < 2 ^ 62 -> sb_inv (SbState W b fl) -> popNew n b = Some ((o, data), b') ->
  sb_inv (SbState W b' (Frame o data :: fl)).
Proof.
  intros Hn Hi Hp. rewrite (popNew_spec _ _ _ _ Hn Hi) in Hp. simplify_eq.
  destruct Hi as [(?&?) Hb (?&Hl) (?&Ha) Hf Hk]. cbn in *. constructor; cbn; try done.
  - lia.
  - split; [done|]. intros s Hs. specialize (Hl s Hs). lia.
  - split; [done|]. intros s Hs. specialize (Ha s Hs). lia.
  - constructor; [apply frame_new; lia|]. eapply Forall_impl; [exact Hf|].
    intros f Hfr. eapply frame_ok_mono; [exists []; by rewrite app_nil_r| | |done]; lia.
  - intros x Hx. rewrite in_flight_cons. cbn. rewrite stream_at_len by lia.
    destruct (Z.lt_ge_cases x (next b)).
    + destruct (Hk x) as [?|[?|[?|?]]]; [lia|tauto..].
    + right; right; right; left. lia.
Qed.

Lemma popLost_spec W b fl n :
  0 < n < 2 ^ 62 -> sb_inv (SbState W b fl) ->
  exists o e lost',
    popLost n b = Some ((o, stream_at W o (e - o)), SendBuffer (base b) (buf b) (next b) lost' (acked b)) /\
    0 <= o <= e /\ e <= next b /\
    separated (-1) lost' /\ ends_below lost' (next b) /\
    (forall x, covers (lost b) x -> x < base b \/ o <= x < e \/ covers lost' x).
Proof.
  intros Hn [(?&?) Hb (Hs&Hl) _ _ _]. cbn in *.
  destruct (trim_lost_spec _ (base b) _ Hs) as (Ht&Hin&Hc&Hd).
  unfold popLost, hasLost. cbn. destruct (trim_lost (base b) (lost b)) as [|s rest] eqn:E.
  { cbn. exists 0, 0, []. unfold stream_at. cbn. repeat split; try (lia || done).
    - intros s Hs'. set_solver.
    - intros x Hx. destruct (Hc x Hx); auto. }
  destruct (Z.ltb_spec 0 (len (s :: rest))); [|len_lia].
  destruct (Z.eqb_spec n 0); [lia|]. cbn [negb orb].
  destruct Ht as (?&?&Ht). assert (end_ s <= next b) by (apply Hl, Hin; set_solver).
  set (o := Z.max (off s) (base b)). rewrite (u64_small (o + n)) by lia.
  set (e := Z.min (end_ s) (o + n)). rewrite Hb, slice_buf by lia.
  eexists o, e, _. split; [reflexivity|]. split_and!; [lia|lia|lia| | |].
  - destruct (Z.leb_spec (end_ s) e); [by apply (separated_mono (end_ s)); [lia|]|].
    cbn. repeat split; (lia || done).
  - intros t Ht'. destruct (Z.leb_spec (end_ s) e).
    + apply Hl, Hin. set_solver.
    + apply elem_of_cons in Ht' as [->|Ht']; [done|]. apply Hl, Hin. set_solver.
  - intros x Hx. destruct (Hc x Hx) as [|Hx']; [auto|]. apply covers_cons in Hx'.
    destruct (Z.leb_spec (end_ s) e); rewrite ?covers_cons; cbn;
      (destruct Hx' as [?|?]; [lia|tauto]).
Qed.

Lemma popLost_inv W b fl n o data b' :
  0 < n < 2 ^ 62 -> sb_inv (SbState W b fl) -> popLost n b = Some ((o, data), b') ->
  sb_inv (SbState W b' (Frame o data :: fl)).
Proof.
  intros Hn Hi Hp. destruct (popLost_spec _ _ _ _ Hn Hi) as (o'&e&lost'&Hp'&?&?&?&?&Hc).
  rewrite Hp' in Hp. simplify_eq. destruct Hi as [(?&?) Hb (?&Hl) (?&Ha) Hf Hk]. cbn in *.
  constructor; cbn; try done.
  - constructor; [apply frame_new; lia|done].
  - intros x Hx. rewrite in_flight_cons. cbn. rewrite stream_at_len by lia.
    destruct (Hk x Hx) as [?|[?|[Hx'|?]]]; [tauto..| |tauto].
    destruct (Hc x Hx') as [?|[?|?]]; [tauto| |tauto]. right; right; right; left. lia.
Qed.

Lemma onAck_spec W b fl f :
  sb_inv (SbState W b fl) -> frame_ok W (next b) f ->
  exists b', onAck (f_off f) (len (f_data f)) b = Some b' /\
    base b <= base b' <= next b /\ next b' = next b /\ lost b' = lost b /\
    buf b' = drop (Z.to_nat (base b')) W /\
    separated (base b') (acked b') /\ ends_below (acked b') (next b) /\
    (forall x, covers (acked b) x \/ f_off f <= x < f_off f + len (f_data f) ->
               x < base b' \/ covers (acked b') x).
Proof.
  intros [(?&?) Hb _ (Hs&He) _ _] (?&?&_). cbn in *. unfold onAck.
  rewrite (u64_small (f_off f + len (f_data f))) by len_lia.
  set (s := Span (f_off f) (f_off f + len (f_data f))).
  assert (Hm : separated (-1) (acked b)) by (apply (separated_mono (base b)); [lia|done]).
  destruct (addSpan_ok (-1) (acked b) s Hm) as [Ha Hc]; [cbn; lia|].
  assert (Hends : ends_below (addSpan (acked b) s) (next b))
    by (eapply addSpan_ends; [done|cbn; lia|done|cbn; lia]).
  pose proof (addSpan_head (base b) (acked b) s) as Hhd.
  assert (Hnil : len (f_data f) = 0 -> addSpan (acked b) s = acked b).
  { intros Hz. unfold addSpan. cbn. destruct (Z.leb_spec (f_off f + len (f_data f)) (f_off f)); [done|lia]. }
  destruct (addSpan (acked b) s) as [|h rest] eqn:E.
  { exists (SendBuffer (base b) (buf b) (next b) (lost b) []). cbn. split_and!; try (lia || done).
    intros x Hx. right. apply Hc. done. }
  destruct (Z.ltb_spec (base b) (off h)) as [Hbh|Hbh].
  { exists (SendBuffer (base b) (buf b) (next b) (lost b) (h :: rest)). cbn.
    destruct Ha as (?&?&?). split_and!; try (lia || done). intros x Hx. right. by apply Hc. }
  assert (Hpos : off s < end_ s).
  { cbn. pose proof (len_nonneg (f_data f)). destruct (Z.eq_dec (len (f_data f)) 0) as [Hz|]; [|lia].
    rewrite <- (Hnil Hz) in Hs. destruct Hs. lia. }
  specialize (Hhd h rest Hs Hpos eq_refl Hbh).
  assert (end_ h <= next b) by (apply Hends; set_solver).
  assert (Hrest : ends_below rest (next b)) by (intros t Ht; apply Hends; set_solver).
  assert (Hx2 : forall x, covers (acked b) x \/ f_off f <= x < f_off f + len (f_data f) ->
                x < end_ h \/ covers rest x).
  { intros x Hx. assert (covers (h :: rest) x) as [?|?]%covers_cons by (by apply Hc); [lia|by right]. }
  destruct (Z.leb_spec (end_ h) (base b)).
  - exists (SendBuffer (base b) (buf b) (next b) (lost b) rest). cbn. split_and!; try (lia || done).
    + apply (separated_mono (Z.max (base b) (end_ h))); [lia|done].
    + intros x [?|?]%Hx2; [left; lia|by right].
  - rewrite Hb, u64_small, slice_from_Some by len_lia.
    rewrite drop_drop_Z by lia. replace (base b + (end_ h - base b)) with (end_ h) by lia.
    exists (SendBuffer (end_ h) (drop (Z.to_nat (end_ h)) W) (next b) (lost b) rest). cbn.
    split_and!; try (lia || done).
    apply (separated_mono (Z.max (base b) (end_ h))); [lia|done].
Qed.

Lemma onAck_inv W b fl1 f fl2 b' :
  sb_inv (SbState W b (fl1 ++ f :: fl2)) -> onAck (f_off f) (len (f_data f)) b = Some b' ->
  sb_inv (SbState W b' (fl1 ++ fl2)).
Proof.
  intros Hi Ho. pose proof (inv_frames _ Hi) as Hf. cbn in Hf.
  rewrite Forall_app, Forall_cons in Hf. destruct Hf as (Hf1&Hf0&Hf2).
  destruct (onAck_spec _ _ _ f Hi Hf0) as (b2&Ho2&?&Hn&Hlo&Hbuf&Hs&He&Hc).
  rewrite Ho2 in Ho. simplify_eq. destruct Hi as [(?&?) Hb (?&Hl) (?&Ha) Hf Hk]. cbn in *.
  constructor; cbn; rewrite ?Hn, ?Hlo; try done.
  - lia.
  - apply Forall_app. done.
  - intros x Hx. specialize (Hc x).
    destruct (Hk x Hx) as [?|[?|[?|Hfl]]]; [lia|tauto|tauto|].
    apply in_flight_split in Hfl. tauto.
Qed.

Lemma onLost_spec W b fl f :
  sb_inv (SbState W b fl) -> frame_ok W (next b) f ->
  let b' := onLost (f_off f) (len (f_data f)) b in
  base b' = base b /\ buf b' = buf b /\ next b' = next b /\ acked b' = acked b /\
  separated (-1) (lost b') /\ ends_below (lost b') (next b) /\
  (forall x, covers (lost b) x \/ f_off f <= x < f_off f + len (f_data f) ->
             x < base b \/ covers (lost b') x).
Proof.
  intros [(?&?) Hb (Hs&He) _ _ _] (?&?&_). cbn in *. unfold onLost.
  rewrite (u64_small (f_off f + len (f_data f))) by len_lia.
  destruct (Z.leb_spec (f_off f + len (f_data f)) (Z.max (f_off f) (base b))).
  { split_and!; try done. intros x [?|?]; [by right|left; lia]. }
  cbn. set (s := Span _ _). destruct (addSpan_ok (-1) (lost b) s Hs) as [Ha Hc]; [cbn; lia|].
  split_and!; try done.
  - eapply addSpan_ends; [done|cbn; lia|done|cbn; lia].
  - intros x Hx. rewrite Hc. cbn. destruct Hx as [?|?]; [tauto|].
    destruct (Z.lt_ge_cases x (base b)); [by left|]. right; right; lia.
Qed.

Lemma onLost_inv W b fl fl' f :
  sb_inv (SbState W b fl) -> f ∈ fl ->
  (forall x, in_flight fl x -> in_flight fl' x \/ f_off f <= x < f_off f + len (f_data f)) ->
  (forall g, g ∈ fl' -> g ∈ fl) ->
  sb_inv (SbState W (onLost (f_off f) (len (f_data f)) b) fl').
Proof.
  intros Hi Hin Hfl Hsub. pose proof (inv_frames _ Hi) as Hf. cbn in Hf.
  assert (Hf0 : frame_ok W (next b) f) by (rewrite Forall_forall in Hf; auto).
  destruct (onLost_spec _ _ _ f Hi Hf0) as (E1&E2&E3&E4&Hs&He&Hc).
  destruct Hi as [(?&?) Hb (?&Hl) (?&Ha) _ Hk]. cbn in *.
  constructor; cbn; rewrite ?E1, ?E2, ?E3, ?E4; try done.
  - rewrite Forall_forall in *. auto.
  - intros x Hx. specialize (Hc x). destruct (Hk x Hx) as [?|[?|[?|Hx']]]; [tauto..|].
    destruct (Hfl x Hx'); tauto.
Qed.

(** The bytes an acknowledgement settles are those of its frame, and no others. *)
Lemma onAck_exact W b fl f b' :
  sb_inv (SbState W b fl) -> frame_ok W (next b) f -> onAck (f_off f) (len (f_data f)) b = Some b' ->
  forall x, 0 <= x -> (x < base b' \/ covers (acked b') x <-> (x < base b \/ covers (acked b) x) \/ f_off f <= x < f_off f + len (f_data f)).
Proof.
  intros [(?&?) Hb _ (Hs&He) _ _] (?&?&_) Ho x Hx. cbn in *. unfold onAck in Ho.
  rewrite (u64_small (f_off f + len (f_data f))) in Ho by len_lia. set (s := Span (f_off f) (f_off f + len (f_data f))) in *.
  assert (Hm : separated (-1) (acked b)) by (apply (separated_mono (base b)); [lia|done]).
  destruct (addSpan_ok (-1) (acked b) s Hm) as [_ Hc]; [cbn; lia|]. specialize (Hc x). cbn [off end_ s] in Hc.
  destruct (addSpan (acked b) s) as [|h rest]; [injection Ho as <-; cbn; tauto|]. rewrite covers_cons in Hc.
  destruct (Z.ltb_spec (base b) (off h)); [injection Ho as <-; cbn; rewrite covers_cons; tauto|].
  destruct (Z.leb_spec (end_ h) (base b)); [injection Ho as <-; cbn; intuition lia|].
  destruct (slice_from _ _); [|done]. injection Ho as <-. cbn. destruct (Z.lt_ge_cases x (base b)); [split; [tauto|lia]|].
  split.
  - intros Hx'. assert (Hc1 : off h <= x < end_ h \/ covers rest x) by (destruct Hx'; [left; lia|by right]). apply Hc in Hc1. tauto.
  - intros Hx'. assert (Hc1 : covers (acked b) x \/ f_off f <= x < f_off f + len (f_data f)) by (destruct Hx' as [[?|?]|?]; [lia|tauto|tauto]). apply Hc in Hc1. destruct Hc1; [left; lia|tauto].
Qed.

(** What was released, or is kept as acknowledged, is what the acknowledged frames
    carried. *)
Definition settled_by (b : sendBuffer) (A : list frame) : Prop := forall x, 0 <= x -> (x < base b \/ covers (acked b) x <-> in_flight A x).

Lemma settled_same b b' A : base b' = base b -> acked b' = acked b -> settled_by b A -> settled_by b' A.
Proof. unfold settled_by. by intros -> ->. Qed.

Lemma sb_step_inv st st' : sb_step st st' -> sb_inv st.1 /\ settled_by (sbuf st.1) st.2 -> sb_inv st'.1 /\ settled_by (sbuf st'.1) st'.2.
Proof.
  intros Hstep [Hi Hs]. destruct Hstep as [W b fl p A|W b fl n o data b' A Hn Hp|W b fl n o data b' A Hn Hp|W b fl1 f fl2 b' A Ho|W b fl1 f fl2 A|W b fl f A Hin]; cbn [fst snd sbuf] in *.
  - split; [by apply write_inv|done].
  - split; [by eapply popNew_inv|]. unfold popNew in Hp. destruct (slice _ _ _); [|done]. injection Hp as <- <- <-. done.
  - split; [by eapply popLost_inv|]. destruct (popLost_spec _ _ _ _ Hn Hi) as (o'&e&lost'&Hp'&_). rewrite Hp' in Hp. by simplify_eq.
  - split; [by eapply onAck_inv|]. pose proof (inv_frames _ Hi) as Hf. cbn in Hf. rewrite Forall_app, Forall_cons in Hf. destruct Hf as (_&Hf&_).
    intros x Hx. rewrite (onAck_exact W b _ f b' Hi Hf Ho x Hx), in_flight_cons, (Hs x Hx). tauto.
  - split; [|unfold onLost; by destruct (_ <=? _)]. eapply onLost_inv; [done|set_solver| |set_solver]. intros x Hx. apply in_flight_split in Hx. tauto.
  - split; [|unfold onLost; by destruct (_ <=? _)]. eapply onLost_inv; [done|done|auto|done].
Qed.

Lemma sb_init_inv : sb_inv sb_init.
Proof.
  constructor; cbn; try done; try lia; (split; [done|]); intros s Hs; set_solver.
Qed.

Lemma sb_reachable_inv st A : rtc sb_step (sb_init, []) (st, A) -> sb_inv st /\ settled_by (sbuf st) A.
Proof.
  apply (rtc_ind_r (fun s => sb_inv s.1 /\ settled_by (sbuf s.1) s.2)); [|intros s1 s2 _ H; by apply sb_step_inv].
  split; [apply sb_init_inv|]. intros x Hx. cbn. split; [intros [?|H%covers_nil]; [lia|done]|]. intros (f & H & _). by apply elem_of_nil in H.
Qed.

(** * Reassembly *)

(** The delivery loop of [Stream.onStreamFrame] and of the CRYPTO streams: pop
    until there is a gap, handing on what comes out.  Each round consumes a
    segment, so one more round than there are segments is enough. *)
Fixpoint drain (fuel : nat) (r : recvBuffer) : option (bytes * recvBuffer) :=
  match fuel with
  | O => Some ([], r)
  | S fuel =>
      let? (chunk, r) := pop r in
      match chunk with
      | None => Some ([], r)
      | Some data => let? (rest, r) := drain fuel r in Some (data ++ rest, r)
      end
  end.

Definition recv_frame (f : frame) (r : recvBuffer) : option (bytes * recvBuffer) :=
  let? r := push (f_off f) (f_data f) r in
  drain (S (length (segments r))) r.

(** The frames of a stream, in the order they arrive. *)
Fixpoint recv_frames (fs : list frame) (r : recvBuffer) : option (bytes * recvBuffer) :=
  match fs with
  | [] => Some ([], r)
  | f :: fs =>
      let? (out, r) := recv_frame f r in
      let? (out', r) := recv_frames fs r in
      Some (out ++ out', r)
  end.

Definition recv_init : recvBuffer := RecvBuffer 0 [] 0.

(** [n] bytes of the peer's stream [S] from offset [o]. *)
Definition stream_of (S : Z -> Z) (o n : Z) : bytes :=
  (fun i => S (o + i)) <$> seqZ 0 n.

Lemma stream_of_len S o n : 0 <= n -> len (stream_of S o n) = n.
Proof. intros. unfold stream_of, len. rewrite length_fmap, length_seqZ. lia. Qed.

Lemma stream_of_app S o n m :
  0 <= n -> 0 <= m -> stream_of S o (n + m) = stream_of S o n ++ stream_of S (o + n) m.
Proof.
  intros. unfold stream_of. rewrite seqZ_app, fmap_app by lia. f_equal.
  cbn. replace (seqZ (0 + n) m) with (Z.add n <$> seqZ 0 m).
  - rewrite <- list_fmap_compose. apply list_fmap_ext. intros i x _. cbn. f_equal. lia.
  - rewrite fmap_add_seqZ. f_equal. lia.
Qed.

Lemma stream_of_drop S o n k :
  0 <= k <= n -> drop (Z.to_nat k) (stream_of S o n) = stream_of S (o + k) (n - k).
Proof.
  intros. replace n with (k + (n - k)) at 1 by lia. rewrite stream_of_app by lia.
  rewrite drop_app_length'; [done|]. pose proof (stream_of_len S o k). unfold len in *. lia.
Qed.

Section reassembly.
Context (S : Z -> Z).

(** The peer sends one stream, whatever it repeats or overlaps. *)
Definition frame_of_stream (f : frame) : Prop :=
  0 <= f_off f /\ f_off f + len (f_data f) <= 2 ^ 62 /\
  f_data f = stream_of S (f_off f) (len (f_data f)).

Definition seg_ok (s : segment) : Prop :=
  0 <= seg_off s /\ 0 < len (seg_data s) /\ seg_off s + len (seg_data s) <= 2 ^ 62 /\
  seg_data s = stream_of S (seg_off s) (len (seg_data s)).

Definition seg_has (s : segment) (x : Z) : Prop := seg_off s <= x < seg_off s + len (seg_data s).
Definition segs_have (l : list segment) (x : Z) : Prop := exists s, s ∈ l /\ seg_has s x.

(** Ascending by start. *)
Fixpoint ascending (l : Z) (segs : list segment) : Prop :=
  match segs with
  | [] => True
  | s :: rest => l <= seg_off s /\ ascending (seg_off s) rest
  end.

Definition segs_bytes (l : list segment) : Z := total (fun s => len (seg_data s)) l.

(** [got] are the offsets some frame carried; [out] is what was delivered. *)
Record recv_inv (got : Z -> Prop) (out : bytes) (r : recvBuffer) : Prop := {
  ri_off : 0 <= offset r <= 2 ^ 62;
  ri_out : out = stream_of S 0 (offset r);
  ri_segs : Forall seg_ok (segments r);
  ri_asc : ascending 0 (segments r);
  ri_below : forall x, 0 <= x < offset r -> got x;
  ri_have : forall x, segs_have (segments r) x -> got x;
  ri_got : forall x, got x -> x < offset r \/ segs_have (segments r) x;
  ri_buffered : buffered r = segs_bytes (segments r);
}.

Lemma segs_have_cons s l x : segs_have (s :: l) x <-> seg_has s x \/ segs_have l x.
Proof.
  unfold segs_have. split.
  - intros (t & [->|Ht]%elem_of_cons & ?); [by left|right; eauto].
  - intros [?|(t & ? & ?)]; [exists s|exists t]; split; try done; set_solver.
Qed.

Lemma segs_have_app l1 s l2 x : segs_have (l1 ++ s :: l2) x <-> seg_has s x \/ segs_have (l1 ++ l2) x.
Proof.
  unfold segs_have. split.
  - intros (t & Ht & ?). apply elem_of_app in Ht as [?|[->|?]%elem_of_cons]; [|by left|];
      right; exists t; set_solver.
  - intros [?|(t & Ht & ?)]; [exists s|exists t]; set_solver.
Qed.

Lemma ascending_mono l l' segs : l' <= l -> ascending l segs -> ascending l' segs.
Proof. destruct segs; cbn; [done|]. intros ? [??]. split; [lia|done]. Qed.

Lemma ascending_in l segs s : ascending l segs -> s ∈ segs -> l <= seg_off s.
Proof.
  revert l. induction segs as [|t segs IH]; intros l Ha Hs; [set_solver|].
  destruct Ha as [? Ha]. apply elem_of_cons in Hs as [->|Hs]; [done|].
  specialize (IH _ Ha Hs). lia.
Qed.

Lemma ascending_monotone l segs o :
  ascending l segs -> monotone (fun s => o <? seg_off s) segs.
Proof.
  intros Ha i x Hi Hx. revert l i Hi Hx Ha.
  induction segs as [|s segs IH]; intros l i Hi Hx Ha; [by rewrite at_nil in Hx|].
  destruct Ha as [? Ha]. cbn in Hi. pose proof (first_index_range (fun s => o <? seg_off s) segs).
  destruct (Z.ltb_spec o (seg_off s)).
  - apply Z.ltb_lt. destruct (Z.eq_dec i 0) as [->|]; [rewrite at_head in Hx; by simplify_eq|].
    rewrite at_cons in Hx by lia. unfold at_ in Hx. destruct (Z.leb_spec 0 (i - 1)); [|done].
    apply list_elem_of_lookup_2 in Hx. pose proof (ascending_in _ _ _ Ha Hx). lia.
  - rewrite at_cons in Hx by lia. apply (IH (seg_off s) (i - 1)); (lia || done).
Qed.

Lemma ascending_insert l segs s :
  ascending l segs -> l <= seg_off s ->
  let i := Z.to_nat (first_index (fun t => seg_off s <? seg_off t) segs) in
  ascending l (take i segs ++ s :: drop i segs).
Proof.
  revert l. induction segs as [|t segs IH]; intros l Ha Hl; [done|].
  destruct Ha as [? Ha]. cbn zeta. destruct (Z.ltb_spec (seg_off s) (seg_off t)) as [Hlt|Hge].
  - replace (Z.to_nat _) with 0%nat; [cbn; repeat split; (lia || done)|].
    cbn. destruct (Z.ltb_spec (seg_off s) (seg_off t)); [done|lia].
  - rewrite first_index_split by (apply Z.ltb_ge; lia). cbn. split; [done|]. apply IH; (lia || done).
Qed.

Lemma segs_bytes_app l1 s l2 : segs_bytes (l1 ++ s :: l2) = len (seg_data s) + segs_bytes (l1 ++ l2).
Proof. unfold segs_bytes. rewrite !total_app. cbn. lia. Qed.

Lemma push_spec got out r f :
  recv_inv got out r -> frame_of_stream f ->
  exists r', push (f_off f) (f_data f) r = Some r' /\
    recv_inv (fun x => got x \/ f_off f <= x < f_off f + len (f_data f)) out r'.
Proof.
  intros [Hof Hout Hsegs Hasc Hbel Hhave Hgot Hbuf] (Hf1&Hf2&Hf3). unfold push.
  rewrite (u64_small (f_off f + len (f_data f))) by len_lia.
  destruct (Z.leb_spec (f_off f + len (f_data f)) (offset r)) as [Hle|Hgt].
  { exists r. split; [done|]. constructor; try done; auto.
    intros x [Hx|Hx]; [by apply Hgot|left; lia]. }
  destruct (Z.eqb_spec (len (f_data f)) 0) as [Hz|Hnz].
  { exists r. split; [done|]. constructor; try done; auto.
    intros x [Hx|Hx]; [by apply Hgot|lia]. }
  cbn [orb].
  (* the data kept, [d] from [o] on *)
  assert (exists o d, (if f_off f <? offset r
      then let? d := slice_from (f_data f) (u64 (offset r - f_off f)) in Some (offset r, d)
      else Some (f_off f, f_data f)) = Some (o, d) /\
      seg_ok (Segment o d) /\ (forall x, seg_has (Segment o d) x <->
        offset r <= x /\ f_off f <= x < f_off f + len (f_data f))) as (o & d & -> & Hd & Hx).
  { destruct (Z.ltb_spec (f_off f) (offset r)).
    - rewrite u64_small, slice_from_Some by lia.
      assert (drop (Z.to_nat (offset r - f_off f)) (f_data f) =
        stream_of S (offset r) (f_off f + len (f_data f) - offset r)) as ->.
      { rewrite Hf3 at 1. rewrite stream_of_drop by lia. f_equal; lia. }
      eexists _, _. split; [reflexivity|]. unfold seg_ok, seg_has. cbn.
      rewrite stream_of_len by lia. split_and!; try (lia || done).
    - eexists _, _. split; [reflexivity|]. unfold seg_ok, seg_has. cbn. split_and!; try (lia || done).
      len_lia. }
  rewrite search_list_first by (by eapply ascending_monotone).
  eexists. split; [reflexivity|]. set (i := Z.to_nat _).
  constructor; cbn; try done; auto.
  - rewrite Forall_app, Forall_cons. split_and!; [by apply Forall_take|done|by apply Forall_drop].
  - apply (ascending_insert 0 (segments r) (Segment o d)); [done|]. by destruct Hd.
  - intros x [Hsx|Hsx]%segs_have_app; [right; by apply Hx|left]. rewrite take_drop in Hsx. auto.
  - intros x Hgx. rewrite segs_have_app, take_drop.
    destruct (Z.lt_ge_cases x (offset r)); [by left|right].
    destruct Hgx as [Hgx|Hgx]; [|left; apply Hx; lia].
    destruct (Hgot x Hgx); [lia|by right].
  - rewrite segs_bytes_app, take_drop. cbn. lia.
Qed.

Lemma pop_loop_spec o segs :
  0 <= o -> Forall seg_ok segs -> ascending 0 segs ->
  exists chunk r', pop_loop o segs (segs_bytes segs) = Some (chunk, r') /\
    let d := default [] chunk in
    d = stream_of S o (len d) /\ offset r' = o + len d /\ offset r' <= Z.max o (2 ^ 62) /\
    Forall seg_ok (segments r') /\ ascending 0 (segments r') /\
    buffered r' = segs_bytes (segments r') /\
    (forall x, o <= x < offset r' -> segs_have segs x) /\
    (forall x, segs_have (segments r') x -> segs_have segs x) /\
    (forall x, segs_have segs x -> x < offset r' \/ segs_have (segments r') x) /\
    match chunk with
    | None => forall x, segs_have (segments r') x -> o < x
    | Some _ => (length (segments r') < length segs)%nat
    end.
Proof.
  intros Ho. induction segs as [|s segs IH]; intros Hok Hasc.
  { eexists _, _. split; [reflexivity|]. cbn. split_and!; rewrite ?len_nil; try (lia || done || auto).
    intros x (s & Hs & _). set_solver. }
  apply Forall_cons in Hok as [Hs Hok]. destruct Hasc as [? Hasc].
  assert (Hasc0 : ascending 0 segs) by (apply (ascending_mono (seg_off s)); [lia|done]).
  destruct Hs as (Hs1&Hs2&Hs3&Hs4). cbn [pop_loop].
  destruct (Z.ltb_spec o (seg_off s)).
  { eexists _, _. split; [reflexivity|]. cbn -[segs_bytes].
    split_and!; rewrite ?len_nil; try (lia || done || auto); [constructor; done|].
    - intros x [[? _]|(t & Ht & Hx)]%segs_have_cons; [lia|].
      pose proof (ascending_in _ _ _ Hasc Ht). destruct Hx. lia. }
  rewrite u64_small by len_lia.
  replace (segs_bytes (s :: segs) - len (seg_data s)) with (segs_bytes segs)
    by (unfold segs_bytes; cbn; lia).
  destruct (Z.leb_spec (seg_off s + len (seg_data s)) o).
  { destruct (IH Hok Hasc0) as (chunk & r' & -> & Hd&Hoff&Hmax&Hsok&Ha&Hb&Hc1&Hc2&Hc3&Hc4).
    eexists _, _. split; [reflexivity|]. split_and!; try done.
    - intros x Hx. apply segs_have_cons. auto.
    - intros x Hx. apply segs_have_cons. auto.
    - intros x [[_ ?]|Hx]%segs_have_cons; [|auto]. left. pose proof (len_nonneg (default [] chunk)). lia.
    - destruct chunk; [cbn in *; lia|done]. }
  rewrite u64_small, slice_from_Some by lia.
  assert (drop (Z.to_nat (o - seg_off s)) (seg_data s) =
          stream_of S o (seg_off s + len (seg_data s) - o)) as ->.
  { rewrite Hs4 at 1. rewrite stream_of_drop by lia. f_equal; lia. }
  eexists _, _. split; [reflexivity|]. cbn -[segs_bytes].
  rewrite stream_of_len by lia. split_and!; try (lia || done).
  - intros x Hx. apply segs_have_cons. left. unfold seg_has. lia.
  - intros x Hx. apply segs_have_cons. by right.
  - intros x [[? ?]|Hx]%segs_have_cons; [left; lia|by right].
Qed.

Lemma drain_spec got fuel out r :
  recv_inv got out r -> (length (segments r) < fuel)%nat ->
  exists out' r', drain fuel r = Some (out', r') /\
    recv_inv got (out ++ out') r' /\ ~ got (offset r').
Proof.
  revert out r. induction fuel as [|fuel IH]; intros out r Hi Hf; [lia|].
  destruct Hi as [Hof Hout Hsegs Hasc Hbel Hhave Hgot Hbuf].
  destruct (pop_loop_spec (offset r) (segments r)) as
    (chunk & r1 & Hp & Hd&Hoff&Hmax&Hsok&Ha&Hb&Hc1&Hc2&Hc3&Hc4); [lia|done|done|].
  cbn [drain]. unfold pop. rewrite Hbuf, Hp.
  pose proof (len_nonneg (default [] chunk)).
  assert (Hi1 : recv_inv got (out ++ default [] chunk) r1).
  { constructor; try done; [lia| | | |].
    - rewrite Hoff. rewrite Hout, stream_of_app by lia. by f_equal.
    - intros x Hx. destruct (Z.lt_ge_cases x (offset r)); [apply Hbel; lia|]. apply Hhave, Hc1. lia.
    - intros x Hx. auto.
    - intros x Hx. destruct (Hgot x Hx) as [?|?]; [left; lia|auto]. }
  destruct chunk as [d|]; cbn [default] in *.
  - destruct (IH _ _ Hi1) as (out' & r' & -> & Hi' & Hng); [lia|].
    eexists _, _. split; [reflexivity|]. split; [|done]. by rewrite (assoc (++)).
  - eexists _, _. split; [reflexivity|]. split; [done|]. intros Hg.
    rewrite len_nil in Hoff. destruct (ri_got _ _ _ Hi1 _ Hg) as [?|Hx]; [lia|]. apply Hc4 in Hx. lia.
Qed.

Lemma recv_frame_spec got out r f :
  recv_inv got out r -> frame_of_stream f ->
  exists out' r', recv_frame f r = Some (out', r') /\
    recv_inv (fun x => got x \/ f_off f <= x < f_off f + len (f_data f)) (out ++ out') r' /\
    ~ (got (offset r') \/ f_off f <= offset r' < f_off f + len (f_data f)).
Proof.
  intros Hi Hf. destruct (push_spec _ _ _ _ Hi Hf) as (r1 & Hp & Hi1).
  unfold recv_frame. rewrite Hp.
  destruct (drain_spec _ (Datatypes.S (length (segments r1))) _ _ Hi1) as (out' & r' & -> & Hi' & Hng); [lia|].
  by eexists _, _.
Qed.

Lemma recv_inv_ext got got' out r :
  (forall x, got x <-> got' x) -> recv_inv got out r -> recv_inv got' out r.
Proof.
  intros Hg [? ? ? ? Hb Hh Hgt ?]. constructor; try done; intros x Hx.
  - apply Hg. auto.
  - apply Hg. auto.
  - apply Hgt. by apply Hg.
Qed.

Lemma recv_frames_spec got out r fs :
  recv_inv got out r -> ~ got (offset r) -> Forall frame_of_stream fs ->
  exists out' r', recv_frames fs r = Some (out', r') /\
    recv_inv (fun x => got x \/ in_flight fs x) (out ++ out') r' /\
    ~ (got (offset r') \/ in_flight fs (offset r')).
Proof.
  intros Hi Hng Hfs. revert got out r Hi Hng.
  induction Hfs as [|f fs Hf Hfs IH]; intros got out r Hi Hng; cbn [recv_frames].
  { assert (Hn : forall x, ~ in_flight [] x) by (intros x (? & ? & _); set_solver).
    eexists [], r. split; [done|]. rewrite app_nil_r. split; [|naive_solver].
    eapply recv_inv_ext; [|done]. naive_solver. }
  destruct (recv_frame_spec _ _ _ _ Hi Hf) as (o1 & r1 & -> & Hi1 & Hng1).
  destruct (IH _ _ _ Hi1 Hng1) as (o2 & r2 & -> & Hi2 & Hng2).
  eexists _, _. split; [reflexivity|]. rewrite (assoc (++)).
  split; [eapply recv_inv_ext; [|done]; intros x|]; rewrite in_flight_cons; tauto.
Qed.

Lemma recv_init_inv : recv_inv (fun _ => False) [] recv_init.
Proof.
  constructor; cbn; try done; try lia. intros x (s & Hs & _). set_solver.
Qed.
End reassembly.

(** * Packet-number ranges *)

(** Ascending, disjoint and non-adjacent ranges beyond [l]. *)
Fixpoint ranges_ok (l : Z) (r : rangeSet) : Prop :=
  match r with
  | [] => True
  | x :: rest => l < lo x /\ lo x <= hi x < 2 ^ 62 /\ ranges_ok (hi x + 1) rest
  end.

Definition in_ranges (r : rangeSet) (pn : Z) : Prop := exists x, x ∈ r /\ lo x <= pn <= hi x.

(** What [rs_add] does to the ranges when [pn] is new, before the oldest is dropped. *)
Fixpoint rs_insert (pn : Z) (r : rangeSet) : rangeSet :=
  match r with
  | [] => [PnRange pn pn]
  | x :: rest =>
      if hi x + 1 <? pn then x :: rs_insert pn rest
      else if hi x + 1 =? pn then
        match rest with
        | y :: rest' => if lo y =? pn + 1 then PnRange (lo x) (hi y) :: rest' else PnRange (lo x) pn :: rest
        | [] => [PnRange (lo x) pn]
        end
      else if lo x =? pn + 1 then PnRange pn (hi x) :: rest
      else PnRange pn pn :: x :: rest
  end.

Lemma in_ranges_cons x r pn : in_ranges (x :: r) pn <-> lo x <= pn <= hi x \/ in_ranges r pn.
Proof.
  unfold in_ranges. split.
  - intros (t & [->|Ht]%elem_of_cons & ?); [by left|right; eauto].
  - intros [?|(t & ? & ?)]; [exists x|exists t]; split; try done; set_solver.
Qed.

Lemma in_ranges_nil pn : ~ in_ranges [] pn.
Proof. intros (x & Hx & _). set_solver. Qed.

Lemma ranges_ok_mono l l' r : l' <= l -> ranges_ok l r -> ranges_ok l' r.
Proof. destruct r; cbn; [done|]. intros ? (?&?&?). split_and!; (lia || done). Qed.

Lemma ranges_ok_in l r pn : ranges_ok l r -> in_ranges r pn -> l < pn < 2 ^ 62.
Proof.
  revert l. induction r as [|x r IH]; intros l Hr Hp; [by apply in_ranges_nil in Hp|].
  destruct Hr as (?&?&Hr). apply in_ranges_cons in Hp as [?|Hp]; [lia|].
  specialize (IH _ Hr Hp). lia.
Qed.

Lemma ranges_elem l r x : ranges_ok l r -> x ∈ r -> l < lo x /\ lo x <= hi x < 2 ^ 62.
Proof.
  intros Hr Hx. revert l Hr. induction r as [|y r IH]; intros l Hr; [set_solver|].
  destruct Hr as (?&?&Hr). apply elem_of_cons in Hx as [->|Hx]; [done|].
  destruct (IH Hx _ Hr). lia.
Qed.

Lemma ranges_monotone l r pn :
  -1 <= l -> ranges_ok l r -> monotone (fun x => pn <=? u64 (hi x + 1)) r.
Proof.
  intros Hl Hr i x Hi Hx. revert l i Hl Hi Hx Hr.
  induction r as [|y r IH]; intros l i Hl Hi Hx Hr; [by rewrite at_nil in Hx|].
  destruct Hr as (?&?&Hr). simpl in Hi.
  pose proof (first_index_range (fun x => pn <=? u64 (hi x + 1)) r).
  rewrite (u64_small (hi y + 1)) in Hi by lia.
  destruct (Z.leb_spec pn (hi y + 1)).
  - apply Z.leb_le. destruct (Z.eq_dec i 0) as [->|].
    { rewrite at_head in Hx. simplify_eq. rewrite u64_small; lia. }
    rewrite at_cons in Hx by lia. unfold at_ in Hx. destruct (Z.leb_spec 0 (i - 1)); [|done].
    apply list_elem_of_lookup_2 in Hx. pose proof (ranges_elem _ _ _ Hr Hx).
    rewrite u64_small; lia.
  - rewrite at_cons in Hx by lia. apply (IH (hi y + 1) (i - 1)); (lia || done).
Qed.

(** The index arithmetic of [rs_add] amounts to the recursive insertion. *)
Lemma rs_add_insert l r pn :
  -1 <= l -> ranges_ok l r -> 0 <= pn < 2 ^ 62 -> r <> [] ->
  let i := Z.to_nat (search_list (fun x => pn <=? u64 (hi x + 1)) r) in
  (match r !! i with Some x => (lo x <=? pn) && (pn <=? hi x) | None => false end = true
     <-> in_ranges r pn) /\
  match r !! i with
  | Some x =>
      if u64 (hi x + 1) =? pn then
        match r !! S i with
        | Some y =>
            if lo y =? u64 (pn + 1)
            then take i r ++ PnRange (lo x) (hi y) :: drop (S (S i)) r
            else take i r ++ PnRange (lo x) pn :: drop (S i) r
        | None => take i r ++ PnRange (lo x) pn :: drop (S i) r
        end
      else if lo x =? u64 (pn + 1) then take i r ++ PnRange pn (hi x) :: drop (S i) r
      else take i r ++ PnRange pn pn :: drop i r
  | None => take i r ++ PnRange pn pn :: drop i r
  end = rs_insert pn r.
Proof.
  intros Hl Hr Hp _. rewrite search_list_first by (by eapply ranges_monotone).
  rewrite (u64_small (pn + 1)) by lia.
  revert l Hl Hr. induction r as [|x r IH]; intros l Hl Hr; cbn zeta.
  { cbn. split; [|done]. split; [done|]. by intros ?%in_ranges_nil. }
  destruct Hr as (?&?&Hr). specialize (IH (hi x + 1) ltac:(lia) Hr). cbn zeta in IH.
  cbn [rs_insert]. destruct (Z.ltb_spec (hi x + 1) pn) as [Hlt|Hge].
  - rewrite first_index_split by (apply Z.leb_gt; rewrite u64_small; lia).
    set (i := Z.to_nat _) in *. destruct IH as [IH1 IH2]. split.
    + rewrite in_ranges_cons. change ((x :: r) !! S i) with (r !! i). rewrite IH1.
      split; [by right|]. intros [?|?]; [lia|done].
    + rewrite <- IH2. clear. change ((x :: r) !! S i) with (r !! i).
      change ((x :: r) !! S (S i)) with (r !! S i).
      case_match; [|done]. case_match; [case_match; [by case_match|done]|by case_match].
  - replace (Z.to_nat _) with 0%nat.
    2: { cbn [first_index]. rewrite u64_small by lia. destruct (Z.leb_spec pn (hi x + 1)); [done|lia]. }
    cbn [lookup list_lookup take drop app]. rewrite u64_small by lia. split.
    + rewrite andb_true_iff, Z.leb_le, Z.leb_le, in_ranges_cons. split; [tauto|].
      intros [?|Hin]; [done|]. apply (ranges_ok_in _ _ _ Hr) in Hin. lia.
    + destruct (Z.eqb_spec (hi x + 1) pn); [|done]. destruct r; done.
Qed.

Lemma rs_insert_spec l r pn :
  l < pn < 2 ^ 62 -> ranges_ok l r -> ~ in_ranges r pn ->
  ranges_ok l (rs_insert pn r) /\ len (rs_insert pn r) <= len r + 1 /\
  (forall x, in_ranges (rs_insert pn r) x <-> in_ranges r x \/ x = pn) /\
  match r with
  | x :: rest => hi x < pn -> len (rs_insert pn r) = len r + 1 ->
                 exists rest', rs_insert pn r = x :: rest'
  | [] => True
  end.
Proof.
  intros Hp Hr Hn. revert l Hp Hr. induction r as [|x r IH]; intros l Hp Hr.
  { cbn. split_and!; try (lia || done). intros y. rewrite in_ranges_cons. cbn.
    pose proof (in_ranges_nil y). intuition lia. }
  destruct Hr as (?&?&Hr). rewrite in_ranges_cons in Hn. cbn [rs_insert].
  destruct (Z.ltb_spec (hi x + 1) pn).
  { destruct (IH ltac:(tauto) (hi x + 1) ltac:(lia) Hr) as (?&?&Hin&_).
    split_and!; [cbn; split_and!; (lia || done)|len_lia| |eauto].
    intros y. rewrite !in_ranges_cons, Hin. tauto. }
  destruct (Z.eqb_spec (hi x + 1) pn).
  { destruct r as [|y r].
    - cbn. split_and!; try (lia || done).
      intros z. rewrite !in_ranges_cons. cbn. pose proof (in_ranges_nil z). intuition lia.
    - destruct Hr as (?&?&Hr). destruct (Z.eqb_spec (lo y) (pn + 1)); cbn -[len].
      + split_and!; try (lia || done); try len_lia.
        intros z. rewrite !in_ranges_cons. cbn. intuition lia.
      + split_and!; try (lia || done); try len_lia.
        intros z. rewrite !in_ranges_cons. cbn. intuition lia. }
  destruct (Z.eqb_spec (lo x) (pn + 1)); cbn -[len].
  - split_and!; try (lia || done); try len_lia.
    intros z. rewrite !in_ranges_cons. cbn. intuition lia.
  - split_and!; try (lia || done); try len_lia.
    intros z. rewrite !in_ranges_cons. cbn. intuition lia.
Qed.

(** * Properties *)

(** On sorted, disjoint, non-touching spans, [addSpan] (binary search, then
    merging in place) keeps them so, equals the plain recursive insertion, and
    covers exactly the old offsets and the new range. *)
Theorem addSpan_union (spans : list span) (s : span) :
  separated (-1) spans -> 0 <= off s < end_ s ->
  addSpan spans s = insert_span spans s /\
  separated (-1) (addSpan spans s) /\
  forall x, covers (addSpan spans s) x <-> covers spans x \/ off s <= x < end_ s.
Proof.
  intros Hs Ho. split; [apply (addSpan_insert (-1)); (done || lia)|].
  apply addSpan_ok; [done|lia].
Qed.

Lemma addSpan_union_witness :
  addSpan [Span 0 4; Span 6 8; Span 20 30] (Span 4 6) = [Span 0 8; Span 20 30] /\
  separated (-1) (addSpan [Span 0 4; Span 6 8; Span 20 30] (Span 4 6)).
Proof.
  split; [vm_compute; reflexivity|].
  apply (addSpan_union [Span 0 4; Span 6 8; Span 20 30] (Span 4 6)); cbn; lia.
Defined.

(** C28: The send buffer is reliable.  Whatever sequence of writes, sends,
    acknowledgements, losses and probes happened: the bytes it has released or
    keeps as acknowledged are exactly those of the frames that were acknowledged;
    what it has not released is in the buffer, as it was written; every byte sent
    was acknowledged, is queued to be sent again, or is in a frame still in flight;
    every frame carries the stream's bytes at its offset; and no operation the
    stream may do next slices out of range. *)
Theorem sendBuffer_reliable (st : sbState) (acks : list frame) :
  rtc sb_step (sb_init, []) (st, acks) ->
  (forall x, 0 <= x -> (x < base (sbuf st) \/ covers (acked (sbuf st)) x <-> in_flight acks x)) /\
  buf (sbuf st) = drop (Z.to_nat (base (sbuf st))) (written st) /\
  (forall x, 0 <= x < next (sbuf st) -> in_flight acks x \/ covers (lost (sbuf st)) x \/ in_flight (flight st) x) /\
  (forall f, f ∈ flight st -> f_data f = stream_at (written st) (f_off f) (len (f_data f))) /\
  (forall n, 0 < n < 2 ^ 62 -> is_Some (popNew n (sbuf st)) /\ is_Some (popLost n (sbuf st))) /\
  (forall f, f ∈ flight st -> is_Some (onAck (f_off f) (len (f_data f)) (sbuf st))).
Proof.
  intros H. destruct (sb_reachable_inv _ _ H) as [Hi Hs]. destruct st as [W b fl].
  cbn [written sbuf flight] in *.
  pose proof (inv_frames _ Hi) as Hf. cbn in Hf. rewrite Forall_forall in Hf. split_and!.
  - exact Hs.
  - apply (inv_buf _ Hi).
  - intros x Hx. rewrite <- (Hs x) by lia. pose proof (inv_kept _ Hi x Hx). cbn in *. tauto.
  - intros f Hin. by destruct (Hf f Hin) as (_&_&?).
  - intros n Hn. split.
    + rewrite (popNew_spec W b fl n ltac:(lia) Hi). eauto.
    + destruct (popLost_spec W b fl n Hn Hi) as (?&?&?&->&_). eauto.
  - intros f Hin. destruct (onAck_spec _ _ _ f Hi (Hf f Hin)) as (?&->&_). eauto.
Qed.

(** A run of the buffer: write, send, lose, send again, acknowledge. *)
Lemma sb_run_example :
  rtc sb_step (sb_init, [])
    (SbState [10; 20; 30; 40] (SendBuffer 2 [30; 40] 4 [] []) [Frame 2 [30; 40]], [Frame 0 [10; 20]]).
Proof.
  eapply rtc_l. { apply (step_write [] _ [] [10; 20; 30; 40]). vm_compute. discriminate. }
  eapply rtc_l. { eapply (step_popNew _ _ _ 2); [lia|vm_compute; reflexivity]. }
  eapply rtc_l. { eapply (step_popNew _ _ _ 2); [lia|vm_compute; reflexivity]. }
  eapply rtc_l. { eapply (step_lost _ _ [] (Frame 2 [30; 40]) [Frame 0 [10; 20]]). }
  eapply rtc_l. { eapply (step_popLost _ _ _ 9); [lia|vm_compute; reflexivity]. }
  eapply rtc_l. { eapply (step_ack _ _ [Frame 2 [30; 40]] (Frame 0 [10; 20]) []).
    vm_compute. reflexivity. }
  vm_compute. apply rtc_refl.
Qed.

Lemma sendBuffer_reliable_witness :
  is_Some (onAck 2 2 (SendBuffer 2 [30; 40] 4 [] [])) /\ in_flight [Frame 2 [30; 40]] 3 /\ in_flight [Frame 0 [10; 20]] 1 /\ ~ in_flight [Frame 0 [10; 20]] 2.
Proof.
  destruct (sendBuffer_reliable _ _ sb_run_example) as (H0&_&H1&_&_&H4). split_and!.
  - apply (H4 (Frame 2 [30; 40])). cbn. set_solver.
  - destruct (H1 3) as [(f & Hf & Hx)|[H|H]]; cbn in *; [lia|apply list_elem_of_singleton in Hf as ->; change (0 <= 3 < 0 + 2) in Hx; lia|by apply covers_nil in H|done].
  - apply (H0 1); cbn; [lia|left; lia].
  - intros [H|H]%(H0 2); cbn in *; [lia|by apply covers_nil in H|lia].
Defined.

(** The buffer finishes: with nothing in flight, nothing queued as lost and
    nothing unsent, everything written has been acknowledged, so a stream whose
    frames are all answered is done. *)
Theorem sendBuffer_finishes (st : sbState) (acks : list frame) :
  rtc sb_step (sb_init, []) (st, acks) -> flight st = [] ->
  (hasLost (sbuf st)).1 = false -> next (sbuf st) = sb_end (sbuf st) ->
  allAcked (sbuf st) = true.
Proof.
  intros H Hfl Hl Hn. destruct (sb_reachable_inv _ _ H) as [Hi _]. destruct st as [W b fl]. cbn in *. subst.
  rewrite (sb_end_eq _ _ _ Hi) in Hn. destruct Hi as [(?&?) Hb (Hs&_) (Ha&_) _ Hk]. cbn in *.
  unfold allAcked. apply Z.eqb_eq. rewrite Hb, len_drop.
  enough (next b <= base b) by lia. destruct (Z.lt_ge_cases (base b) (next b)); [exfalso|lia].
  destruct (trim_lost_spec _ (base b) _ Hs) as (_&_&Hc&_).
  destruct (Hk (base b) ltac:(lia)) as [?|[Hx|[Hx|(f & Hf & _)]]]; [lia| | |set_solver].
  - apply (separated_covers _ _ _ Ha) in Hx. lia.
  - destruct (Hc _ Hx) as [?|Hx2]; [lia|]. unfold hasLost in Hl. cbn in Hl.
    destruct (trim_lost (base b) (lost b)) as [|s l]; [by apply covers_nil in Hx2|].
    apply Z.ltb_ge in Hl. rewrite len_cons in Hl. pose proof (len_nonneg l). lia.
Qed.

Lemma sb_run_finished :
  rtc sb_step (sb_init, []) (SbState [10; 20; 30; 40] (SendBuffer 4 [] 4 [] []) [], [Frame 2 [30; 40]; Frame 0 [10; 20]]).
Proof.
  etrans; [exact sb_run_example|].
  eapply rtc_l. { eapply (step_ack _ _ [] (Frame 2 [30; 40]) []). vm_compute. reflexivity. }
  apply rtc_refl.
Qed.

Lemma sendBuffer_finishes_witness : allAcked (SendBuffer 4 [] 4 [] []) = true.
Proof. apply (sendBuffer_finishes _ _ sb_run_finished); vm_compute; reflexivity. Defined.

(** C30: Reassembly.  However a stream's frames are cut, reordered, repeated or
    overlapped, delivering them hands on exactly the stream's bytes up to the
    first offset no frame has carried yet, never panics, and counts in
    [buffered] exactly the bytes held beyond it. *)
Theorem recvBuffer_reassembles (S : Z -> Z) (fs : list frame) :
  Forall (frame_of_stream S) fs ->
  exists out r, recv_frames fs recv_init = Some (out, r) /\
    out = stream_of S 0 (offset r) /\
    (forall x, 0 <= x < offset r -> in_flight fs x) /\
    ~ in_flight fs (offset r) /\
    buffered r = segs_bytes (segments r).
Proof.
  intros Hf. destruct (recv_frames_spec S _ _ _ fs (recv_init_inv S)) as (out & r & Hr & Hi & Hn); [tauto|done|].
  exists out, r. rewrite app_nil_l in Hi. destruct Hi as [_ Ho _ _ Hb _ _ Hbuf].
  split_and!; try done; [|tauto]. intros x Hx. destruct (Hb x Hx); [done|]. done.
Qed.

Lemma recvBuffer_reassembles_witness :
  exists out r,
    recv_frames [Frame 4 [4; 5]; Frame 2 [2; 3; 4]; Frame 7 [7]; Frame 0 [0; 1; 2]] recv_init
      = Some (out, r) /\ out = stream_of (fun x => x) 0 (offset r) /\ out = [0; 1; 2; 3; 4; 5].
Proof.
  destruct (recvBuffer_reassembles (fun x => x)
    [Frame 4 [4; 5]; Frame 2 [2; 3; 4]; Frame 7 [7]; Frame 0 [0; 1; 2]]) as (out & r & H & Ho & _).
  { repeat (apply Forall_cons_2 || apply Forall_nil_2); split_and!; cbn; (lia || done). }
  exists out, r. split; [done|]. split; [done|]. vm_compute in H. by injection H as <- <-.
Defined.

(** Recording a packet number.  [rangeSet.add] keeps at most 32 ascending,
    non-adjacent ranges.  It refuses exactly a number already recorded, or one
    below a full set; otherwise the number is recorded, nothing else is, and at
    most the oldest range of a full set is forgotten. *)
Theorem rangeSet_add (pn : Z) (r : rangeSet) :
  ranges_ok (-1) r -> len r <= maxAckRanges -> 0 <= pn < 2 ^ 62 ->
  let '(ok, r') := rs_add pn r in
  ranges_ok (-1) r' /\ len r' <= maxAckRanges /\
  (ok = false <-> in_ranges r pn \/ len r = maxAckRanges /\ forall x, in_ranges r x -> pn < x) /\
  (ok = false -> r' = r) /\
  (ok = true -> in_ranges r' pn /\
     (forall x, in_ranges r' x -> in_ranges r x \/ x = pn) /\
     (forall x, in_ranges r x -> in_ranges r' x \/
        len r = maxAckRanges /\ exists r0, head r = Some r0 /\ lo r0 <= x <= hi r0)).
Proof.
  intros Hr Hlen Hp. unfold rs_add. destruct r as [|r0 rest].
  { cbn. split_and!; try (lia || done).
    - split; [done|]. intros [H|[? _]]; [by apply in_ranges_nil in H|done].
    - intros _. split_and!; [exists (PnRange pn pn); cbn; split; [set_solver|lia]| |].
      + intros x (y & [->|?]%elem_of_cons & ?); cbn in *; [right; lia|set_solver].
      + by intros x ?%in_ranges_nil. }
  destruct (rs_add_insert (-1) (r0 :: rest) pn) as [Hpres Hins]; try (lia || done).
  set (r := r0 :: rest) in *. pose proof Hr as (?&?&_).
  assert (Hin0 : in_ranges r (lo r0)) by (apply in_ranges_cons; left; lia).
  destruct ((pn <? lo r0) && (len r =? maxAckRanges)) eqn:E.
  { apply andb_true_iff in E as [E1%Z.ltb_lt E2%Z.eqb_eq]. split_and!; try done.
    split; [|done]. right. split; [done|]. intros x [?|Hx]%in_ranges_cons; [lia|].
    destruct Hr as (_&_&Hr). apply (ranges_ok_in _ _ _ Hr) in Hx. lia. }
  destruct (match r !! _ with Some x => _ | None => false end).
  { split_and!; try done. split; [|done]. left. tauto. }
  rewrite Hins. assert (Hnin : ~ in_ranges r pn) by (intros Hx%Hpres; done).
  destruct (rs_insert_spec (-1) r pn ltac:(lia) Hr Hnin) as (Hok&Hl&Hmem&Hhd).
  destruct (Z.ltb_spec maxAckRanges (len (rs_insert pn r))) as [Hov|Hov].
  - destruct (Hhd) as [rest' Heq]; [|lia|].
    { apply andb_false_iff in E as [E%Z.ltb_ge|E%Z.eqb_neq]; [|lia].
      destruct (Z.le_gt_cases pn (hi r0)); [|lia]. destruct Hnin. apply in_ranges_cons. by left. }
    rewrite Heq in *. cbn [drop]. rewrite drop_0. destruct Hok as (?&?&Hok).
    split_and!; try done; [|rewrite len_cons in Hl; lia| |].
    + apply (ranges_ok_mono (hi r0 + 1)); [lia|done].
    + split; [done|]. intros [?|[Hfull Hbel]]; [done|]. specialize (Hbel _ Hin0).
      apply andb_false_iff in E as [E%Z.ltb_ge|E%Z.eqb_neq]; lia.
    + intros _. split_and!.
      * assert (in_ranges (r0 :: rest') pn) as [?|?]%in_ranges_cons by (apply Hmem; auto); [|done].
        destruct Hnin. apply in_ranges_cons. by left.
      * intros x Hx. apply Hmem, in_ranges_cons. by right.
      * intros x Hx. assert (in_ranges (r0 :: rest') x) as [?|?]%in_ranges_cons by (apply Hmem; auto).
        -- right. split; [lia|]. exists r0. done.
        -- by left.
  - split_and!; try done.
    + split; [done|]. intros [?|[Hfull Hbel]]; [done|]. specialize (Hbel _ Hin0).
      apply andb_false_iff in E as [E%Z.ltb_ge|E%Z.eqb_neq]; lia.
    + intros _. split_and!; [apply Hmem; auto|intros x; apply Hmem|intros x Hx; left; apply Hmem; auto].
Qed.

Lemma rangeSet_add_witness :
  ranges_ok (-1) (rs_add 5 [PnRange 0 4; PnRange 6 9; PnRange 20 20]).2 /\
  rs_add 5 [PnRange 0 4; PnRange 6 9; PnRange 20 20] = (true, [PnRange 0 9; PnRange 20 20]).
Proof.
  pose proof (rangeSet_add 5 [PnRange 0 4; PnRange 6 9; PnRange 20 20]) as H.
  destruct (rs_add 5 _) as [ok r'] eqn:E.
  destruct H as [H _]; [cbn; lia|vm_compute; by intros|lia|].
  split; [exact H|]. rewrite <- E. vm_compute. reflexivity.
Defined.
