(* ===== verification/RingQueue.v ===== *)
(** The bounded ring queue both task pools keep their tasks in
    (src/go/taskpool/cond.go and src/go/taskpool/adaptive.go): an array of
    task slots with [head], [tail] and [count].

    [ring_rep] relates a ring to the first-in-first-out list it stands for, so
    the pools' theorems speak of that list only. *)
From S2P Require Import Prelude.

Section ring.
Context {Task : Type}.

(** A nil slot is [None]. *)
Record ring := Ring {
  queue : list (option Task);
  head_ : Z;
  tail_ : Z;
  count : Z;
}.

(** [make([]Task, n)] *)
Definition ring_new (n : Z) : ring := Ring (replicate (Z.to_nat n) None) 0 0 0.

Definition ring_cap (r : ring) : Z := len (queue r).

(** [enqueueLocked]; the callers have checked that there is room. *)
Definition enqueueLocked (task : Task) (r : ring) : ring :=
  let tail := tail_ r + 1 in
  Ring (<[Z.to_nat (tail_ r) := Some task]> (queue r)) (head_ r)
    (if tail =? len (queue r) then 0 else tail) (count r + 1).

(** The dequeue of the workers' loop: read the head slot, clear it, advance.
    [None] is a panic or a nil task. *)
Definition dequeue (r : ring) : option (Task * ring) :=
  match at_ (queue r) (head_ r) with
  | Some (Some task) =>
      let head := head_ r + 1 in
      Some (task, Ring (<[Z.to_nat (head_ r) := None]> (queue r))
                    (if head =? len (queue r) then 0 else head) (tail_ r) (count r - 1))
  | _ => None
  end.

(** * The queue a ring stands for *)

Definition slot (r : ring) (k : Z) : nat := Z.to_nat ((head_ r + k) mod ring_cap r).

Record ring_rep (r : ring) (l : list Task) : Prop := {
  rep_cap : 0 < ring_cap r;
  rep_head : 0 <= head_ r < ring_cap r;
  rep_count : count r = len l;
  rep_room : len l <= ring_cap r;
  rep_tail : tail_ r = (head_ r + count r) mod ring_cap r;
  rep_slots : forall k t, at_ l k = Some t -> queue r !! slot r k = Some (Some t);
}.

Lemma ring_new_rep n : 0 < n -> ring_rep (ring_new n) [].
Proof.
  intros Hn. unfold ring_new. constructor; unfold ring_cap; cbn; rewrite ?len_replicate, ?len_nil; try lia.
  - done.
  - symmetry. apply Z.mod_0_l. lia.
  - intros k t Hk. by rewrite at_nil in Hk.
Qed.

(** Stepping an index forward around the ring. *)
Lemma wrap_next n i : 0 <= i < n -> (if i + 1 =? n then 0 else i + 1) = (i + 1) mod n.
Proof.
  intros. destruct (Z.eqb_spec (i + 1) n) as [->|]; [by rewrite Z.mod_same by lia|].
  rewrite Z.mod_small; lia.
Qed.

Lemma mod_add_inj n h a b :
  0 < n -> 0 <= a < n -> 0 <= b < n -> (h + a) mod n = (h + b) mod n -> a = b.
Proof.
  intros Hn Ha Hb H. pose proof (Z.div_mod (h + a) n). pose proof (Z.div_mod (h + b) n).
  assert (a - b = n * ((h + a) / n - (h + b) / n)) by lia.
  assert ((h + a) / n - (h + b) / n = 0) by nia. nia.
Qed.

Lemma at_Some_range {A} (l : list A) k x : at_ l k = Some x -> 0 <= k < len l.
Proof.
  unfold at_. destruct (Z.leb_spec 0 k); [|done]. intros Hk%lookup_lt_Some. unfold len. lia.
Qed.

Lemma slot_lt r k : 0 < ring_cap r -> (slot r k < length (queue r))%nat.
Proof.
  intros Hc. unfold slot, ring_cap, len in *.
  pose proof (Z.mod_pos_bound (head_ r + k) (Z.of_nat (length (queue r)))). lia.
Qed.

Lemma enqueue_rep r l t :
  ring_rep r l -> len l < ring_cap r -> ring_rep (enqueueLocked t r) (l ++ [t]).
Proof.
  intros [Hc Hh Hn Hr Ht Hs] Hlt. pose proof (len_nonneg l).
  assert (Htail : 0 <= tail_ r < ring_cap r) by (rewrite Ht; apply Z.mod_pos_bound; lia).
  constructor; unfold ring_cap, enqueueLocked in *; cbn; rewrite ?len_insert, ?len_app, ?len_cons, ?len_nil;
    try lia.
  - rewrite wrap_next, Ht, Zplus_mod_idemp_l by lia. f_equal. lia.
  - intros k u Hk. unfold slot, ring_cap. cbn. rewrite len_insert.
    pose proof (at_Some_range _ _ _ Hk) as Hkr. rewrite len_app, len_cons, (@len_nil Task) in Hkr.
    destruct (Z.eq_dec k (len l)) as [->|].
    + replace (Z.to_nat ((head_ r + len l) mod len (queue r))) with (Z.to_nat (tail_ r))
        by (rewrite Ht, Hn; done).
      rewrite list_lookup_insert_eq by (unfold len in *; lia).
      assert (at_ (l ++ [t]) (len l) = Some t) as E2.
      { unfold at_. destruct (Z.leb_spec 0 (len l)); [|lia]. unfold len. rewrite Nat2Z.id.
        by rewrite list_lookup_middle. }
      congruence.
    + rewrite list_lookup_insert_ne.
      * rewrite at_app_l in Hk by lia. by apply Hs.
      * intros E. apply Z2Nat.inj in E; [|lia|apply Z.mod_pos_bound; lia].
        rewrite Ht, Hn in E. apply mod_add_inj in E; lia.
Qed.

Lemma dequeue_rep r l t :
  ring_rep r (t :: l) -> exists r', dequeue r = Some (t, r') /\ ring_rep r' l /\ ring_cap r' = ring_cap r.
Proof.
  intros [Hc Hh Hn Hr Ht Hs]. pose proof (len_nonneg l). rewrite len_cons in *.
  assert (H0 : queue r !! Z.to_nat (head_ r) = Some (Some t)).
  { pose proof (Hs 0 t eq_refl) as E. unfold slot in E. by rewrite Z.add_0_r, Z.mod_small in E by lia. }
  unfold dequeue, at_. destruct (Z.leb_spec 0 (head_ r)); [|lia]. rewrite H0.
  eexists. split; [reflexivity|].
  split; [|unfold ring_cap; cbn; by rewrite len_insert].
  constructor; unfold ring_cap in *; cbn; rewrite ?len_insert; try lia.
  - rewrite wrap_next by lia. apply Z.mod_pos_bound. lia.
  - rewrite wrap_next, Ht, Zplus_mod_idemp_l by lia. f_equal. lia.
  - intros k u Hk. pose proof (at_Some_range _ _ _ Hk) as Hkr.
    unfold slot, ring_cap. cbn. rewrite len_insert, wrap_next, Zplus_mod_idemp_l by lia.
    replace (head_ r + 1 + k) with (head_ r + (1 + k)) by lia.
    rewrite list_lookup_insert_ne.
    + apply (Hs (1 + k)). rewrite at_cons by lia. by replace (1 + k - 1) with k by lia.
    + intros E. apply Z2Nat.inj in E; [|lia|apply Z.mod_pos_bound; lia].
      rewrite <- (Z.mod_small (head_ r) (len (queue r))) in E at 1 by lia.
      rewrite <- (Z.add_0_r (head_ r)) in E at 1. apply mod_add_inj in E; lia.
Qed.

Lemma enqueue_cap t r : ring_cap (enqueueLocked t r) = ring_cap r.
Proof. unfold ring_cap. cbn. by rewrite len_insert. Qed.

Lemma enqueue_count t r : count (enqueueLocked t r) = count r + 1.
Proof. done. Qed.
End ring.

Arguments ring Task : clear implicits.
