(* ===== verification/CondPool.v ===== *)
(** The fixed-population task pool (src/go/taskpool/cond.go, [condPool]).

    A pool is its ring queue, the two counts of parked goroutines, the stopped
    flag and the [pending] WaitGroup.  Every goroutine that touches it is an
    explicit state machine: a worker ([wstate]), or a call of [submit],
    [submitBatch] or [stop] ([sstate]).  What a goroutine does while it holds
    [p.mu], from [Lock] to [Unlock] or to a [Wait], is one function
    ([worker_locked], [submit_locked], [batch_loop]), and [step] interleaves
    those critical sections with the signals sent after them, in any order.
    [sync.Cond] is as documented: [Signal] wakes one waiter, any one, if there
    is one; [Broadcast] wakes them all; a woken goroutine runs once it has the
    lock again. *)
From S2P Require Import Prelude.
From S2P Require Import RingQueue.

Section cond.
Context {Task : Type}.

Record condPool := CondPool {
  ring_ : ring Task;
  waiters : Z;
  fullWaiters : Z;
  stopped : bool;
  workerTotal : Z;
  (** [pending sync.WaitGroup]'s counter *)
  pending : Z;
}.

Definition set_ring (r : ring Task) (p : condPool) : condPool :=
  CondPool r (waiters p) (fullWaiters p) (stopped p) (workerTotal p) (pending p).
Definition add_waiters (n : Z) (p : condPool) : condPool :=
  CondPool (ring_ p) (waiters p + n) (fullWaiters p) (stopped p) (workerTotal p) (pending p).
Definition add_fullWaiters (n : Z) (p : condPool) : condPool :=
  CondPool (ring_ p) (waiters p) (fullWaiters p + n) (stopped p) (workerTotal p) (pending p).
Definition add_pending (n : Z) (p : condPool) : condPool :=
  CondPool (ring_ p) (waiters p) (fullWaiters p) (stopped p) (workerTotal p) (pending p + n).
Definition set_stopped (p : condPool) : condPool :=
  CondPool (ring_ p) (waiters p) (fullWaiters p) true (workerTotal p) (pending p).

(** A worker: about to lock, parked in [notEmpty.Wait], woken but without the
    lock yet, holding a task it has just taken (and whether it will signal
    [notFull]), running it, done running it, or gone. *)
Inductive wstate :=
| WLock
| WParked
| WWoken
| WTook (t : Task) (wakeFull : bool)
| WRun (t : Task)
| WRan (t : Task)
| WExited
| WCrash.

(** A call of [submit], [submitBatch] or [stop]. *)
Inductive sstate :=
| SLock (t : Task)
| SParked (t : Task)
| SWoken (t : Task)
| SSignal (wake : bool)
| SDone (ok : bool)
| BLock (ts : list Task)
| BParked (rest : list Task) (total submitted : Z)
| BWoken (rest : list Task) (total submitted : Z)
| BSignal (n submitted : Z)
| BDone (submitted : Z)
| PLock
| PWait
| PJoin
| PDone.

(** [newCondPool]; the workers it starts are [replicate workerCount WLock]. *)
Definition newCondPool (workerCount queueSize : Z) : condPool :=
  let queueSize := if queueSize =? 0 then 1 else queueSize in
  CondPool (ring_new queueSize) 0 0 false workerCount 0.

(** The worker's critical section, from the top of its loop. *)
Definition worker_locked (p : condPool) : condPool * wstate :=
  if (count (ring_ p) =? 0) && negb (stopped p) then (add_waiters 1 p, WParked)
  else if (count (ring_ p) =? 0) && stopped p then (p, WExited)
  else match dequeue (ring_ p) with
       | Some (task, r) => (set_ring r p, WTook task (0 <? fullWaiters p))
       | None => (p, WCrash)
       end.

(** [submit]'s critical section. *)
Definition submit_locked (task : Task) (p : condPool) : condPool * sstate :=
  if negb (stopped p) && (count (ring_ p) =? ring_cap (ring_ p))
  then (add_fullWaiters 1 p, SParked task)
  else if stopped p then (p, SDone false)
  else
    let p := add_pending 1 p in
    let p := set_ring (enqueueLocked task (ring_ p)) p in
    (p, SSignal (0 <? waiters p)).

(** The end of [submitBatch]: hand back what was reserved and not used. *)
Definition batch_finish (total submitted wake : Z) (p : condPool) : condPool * sstate :=
  let rejected := total - submitted in
  (if 0 <? rejected then add_pending (- rejected) p else p, BSignal wake submitted).

(** [submitBatch]'s loop over the tasks it has left; the third component is how
    many signals it sends before it parks, still under the lock. *)
Fixpoint batch_loop (rest : list Task) (total submitted wake wakeBudget : Z) (p : condPool)
  : condPool * sstate * Z :=
  match rest with
  | [] => (batch_finish total submitted wake p, 0)
  | task :: rest' =>
      if negb (stopped p) && (count (ring_ p) =? ring_cap (ring_ p))
      then (add_fullWaiters 1 p, BParked rest total submitted, wake)
      else if stopped p then (batch_finish total submitted wake p, 0)
      else
        let p := set_ring (enqueueLocked task (ring_ p)) p in
        if 0 <? wakeBudget
        then batch_loop rest' total (submitted + 1) (wake + 1) (wakeBudget - 1) p
        else batch_loop rest' total (submitted + 1) wake wakeBudget p
  end.

Definition batch_locked (ts : list Task) (p : condPool) : condPool * sstate * Z :=
  if stopped p then (p, BDone 0, 0)
  else batch_loop ts (len ts) 0 0 (waiters p) (add_pending (len ts) p).

(** Back from [notFull.Wait]: the budget is recomputed and the loop goes on. *)
Definition batch_resumed (rest : list Task) (total submitted : Z) (p : condPool)
  : condPool * sstate * Z :=
  batch_loop rest total submitted 0 (waiters p) (add_fullWaiters (-1) p).

(** * Condition variables *)

Definition w_parked (w : wstate) : bool := match w with WParked => true | _ => false end.
Definition w_woken (w : wstate) : bool := match w with WWoken => true | _ => false end.
Definition w_exited (w : wstate) : bool := match w with WExited => true | _ => false end.
Definition s_parked (s : sstate) : bool := match s with SParked _ | BParked _ _ _ => true | _ => false end.
Definition s_woken (s : sstate) : bool := match s with SWoken _ | BWoken _ _ _ => true | _ => false end.
Definition s_stop (s : sstate) : bool := match s with PLock | PWait | PJoin | PDone => true | _ => false end.

Definition wake_worker (w : wstate) : wstate := if w_parked w then WWoken else w.
Definition wake_submitter (s : sstate) : sstate :=
  match s with SParked t => SWoken t | BParked r t n => BWoken r t n | s => s end.

(** [notEmpty.Signal] and [notFull.Signal]. *)
Inductive signalE : list wstate -> list wstate -> Prop :=
| signalE_one ws i : ws !! i = Some WParked -> signalE ws (<[i := WWoken]> ws)
| signalE_none ws : cnt w_parked ws = 0 -> signalE ws ws.

Inductive signalF : list sstate -> list sstate -> Prop :=
| signalF_one ss i s : ss !! i = Some s -> s_parked s = true -> signalF ss (<[i := wake_submitter s]> ss)
| signalF_none ss : cnt s_parked ss = 0 -> signalF ss ss.

(** * The system *)

(** The pool, its goroutines, and three ghosts: the tasks accepted, taken and
    run, each in order. *)
Record sys := Sys {
  pool : condPool;
  ws : list wstate;
  ss : list sstate;
  accepted : list Task;
  taken : list Task;
  ran : list Task;
}.

Definition sys_init (workerCount queueSize : Z) : sys :=
  Sys (newCondPool workerCount queueSize) (replicate (Z.to_nat workerCount) WLock) [] [] [] [].

(** How many tasks a batch has enqueued when it stops. *)
Definition batch_submitted (s : sstate) : Z :=
  match s with BParked _ _ n | BWoken _ _ n | BSignal _ n | BDone n => n | _ => 0 end.

Inductive step : sys -> sys -> Prop :=
(* calls *)
| step_submit p w s a k r t : step (Sys p w s a k r) (Sys p w (s ++ [SLock t]) a k r)
| step_submitBatch p w s a k r ts : step (Sys p w s a k r) (Sys p w (s ++ [BLock ts]) a k r)
| step_stop p w s a k r : cnt s_stop s = 0 -> step (Sys p w s a k r) (Sys p w (s ++ [PLock]) a k r)
(* submit *)
| step_submit_lock p w s a k r i t p' s' :
    s !! i = Some (SLock t) -> submit_locked t p = (p', s') ->
    step (Sys p w s a k r)
         (Sys p' w (<[i := s']> s) (match s' with SSignal _ => a ++ [t] | _ => a end) k r)
| step_submit_woken p w s a k r i t p' s' :
    s !! i = Some (SWoken t) -> submit_locked t (add_fullWaiters (-1) p) = (p', s') ->
    step (Sys p w s a k r)
         (Sys p' w (<[i := s']> s) (match s' with SSignal _ => a ++ [t] | _ => a end) k r)
| step_submit_signal p w w' s a k r i wake :
    s !! i = Some (SSignal wake) -> (if wake then signalE w w' else w' = w) ->
    step (Sys p w s a k r) (Sys p w' (<[i := SDone true]> s) a k r)
(* submitBatch *)
| step_batch_lock p w w' s a k r i ts p' s' n :
    s !! i = Some (BLock ts) -> batch_locked ts p = (p', s', n) ->
    nsteps signalE (Z.to_nat n) w w' ->
    step (Sys p w s a k r)
         (Sys p' w' (<[i := s']> s) (a ++ take (Z.to_nat (batch_submitted s')) ts) k r)
| step_batch_woken p w w' s a k r i rest total submitted p' s' n :
    s !! i = Some (BWoken rest total submitted) ->
    batch_resumed rest total submitted p = (p', s', n) ->
    nsteps signalE (Z.to_nat n) w w' ->
    step (Sys p w s a k r)
         (Sys p' w' (<[i := s']> s) (a ++ take (Z.to_nat (batch_submitted s' - submitted)) rest) k r)
| step_batch_signal p w w' s a k r i n submitted :
    s !! i = Some (BSignal n submitted) -> 0 < n -> signalE w w' ->
    step (Sys p w s a k r) (Sys p w' (<[i := BSignal (n - 1) submitted]> s) a k r)
| step_batch_return p w s a k r i n submitted :
    s !! i = Some (BSignal n submitted) -> n <= 0 ->
    step (Sys p w s a k r) (Sys p w (<[i := BDone submitted]> s) a k r)
(* workers *)
| step_worker_lock p w s a k r i p' w' :
    w !! i = Some WLock -> worker_locked p = (p', w') ->
    step (Sys p w s a k r)
         (Sys p' (<[i := w']> w) s a (match w' with WTook t _ => k ++ [t] | _ => k end) r)
| step_worker_woken p w s a k r i p' w' :
    w !! i = Some WWoken -> worker_locked (add_waiters (-1) p) = (p', w') ->
    step (Sys p w s a k r)
         (Sys p' (<[i := w']> w) s a (match w' with WTook t _ => k ++ [t] | _ => k end) r)
| step_worker_signal p w s s' a k r i t wf :
    w !! i = Some (WTook t wf) -> (if wf then signalF s s' else s' = s) ->
    step (Sys p w s a k r) (Sys p (<[i := WRun t]> w) s' a k r)
| step_worker_run p w s a k r i t :
    w !! i = Some (WRun t) ->
    step (Sys p w s a k r) (Sys p (<[i := WRan t]> w) s a k (r ++ [t]))
| step_worker_done p w s a k r i t :
    w !! i = Some (WRan t) ->
    step (Sys p w s a k r) (Sys (add_pending (-1) p) (<[i := WLock]> w) s a k r)
(* stop *)
| step_stop_lock p w s a k r i :
    s !! i = Some PLock ->
    step (Sys p w s a k r)
         (Sys (set_stopped p) (wake_worker <$> w) (wake_submitter <$> <[i := PWait]> s) a k r)
| step_stop_wait p w s a k r i :
    s !! i = Some PWait -> pending p = 0 ->
    step (Sys p w s a k r) (Sys p (wake_worker <$> w) (<[i := PJoin]> s) a k r)
| step_stop_join p w s a k r i :
    s !! i = Some PJoin -> cnt w_exited w = len w ->
    step (Sys p w s a k r) (Sys p w (<[i := PDone]> s) a k r).

(** * Invariant *)

(** Signals on their way: to [notEmpty] from the submitters, to [notFull] from
    the workers. *)
Definition s_signals (s : sstate) : Z :=
  match s with SSignal true => 1 | BSignal n _ => Z.max 0 n | _ => 0 end.
Definition w_signals (w : wstate) : bool := match w with WTook _ true => true | _ => false end.

(** A worker holds a task from the dequeue to [pending.Done]. *)
Definition w_holds (w : wstate) : bool := match w with WTook _ _ | WRun _ | WRan _ => true | _ => false end.
Definition w_crashed (w : wstate) : bool := match w with WCrash => true | _ => false end.

(** What a batch in progress has reserved in [pending] and not enqueued. *)
Definition s_reserved (s : sstate) : Z :=
  match s with BParked r _ _ | BWoken r _ _ => len r | _ => 0 end.
Definition s_wf (s : sstate) : Prop :=
  match s with BParked r t n | BWoken r t n => r <> [] /\ t - n = len r | _ => True end.

(** Tasks taken and not run yet. *)
Definition w_task (w : wstate) : list Task := match w with WTook t _ | WRun t => [t] | _ => [] end.

Record inv (workerCount : Z) (st : sys) : Prop := {
  i_fifo : exists l, accepted st = taken st ++ l /\ ring_rep (ring_ (pool st)) l;
  i_once : taken st ≡ₚ ran st ++ (ws st ≫= w_task);
  i_waiters : waiters (pool st) = cnt w_parked (ws st) + cnt w_woken (ws st);
  i_fullWaiters : fullWaiters (pool st) = cnt s_parked (ss st) + cnt s_woken (ss st);
  i_pending : pending (pool st) =
    count (ring_ (pool st)) + cnt w_holds (ws st) + total s_reserved (ss st);
  i_wakeE : Z.min (count (ring_ (pool st))) (waiters (pool st)) <=
    total s_signals (ss st) + cnt w_woken (ws st);
  i_wakeF : 0 < cnt s_parked (ss st) ->
    ring_cap (ring_ (pool st)) - count (ring_ (pool st)) <=
    cnt w_signals (ws st) + cnt s_woken (ss st);
  i_exit : 0 < cnt w_exited (ws st) -> stopped (pool st) = true /\ count (ring_ (pool st)) = 0;
  i_stop : stopped (pool st) = true -> cnt w_parked (ws st) = 0 /\ cnt s_parked (ss st) = 0;
  i_crash : cnt w_crashed (ws st) = 0;
  i_wf : Forall s_wf (ss st);
  i_workers : len (ws st) = workerCount;
}.

(** * What a wake-up changes *)

(** [k] parked workers became woken ones and nothing else changed. *)
Record wokeE (k : Z) (w w' : list wstate) : Prop := {
  we_parked : cnt w_parked w' = cnt w_parked w - k;
  we_woken : cnt w_woken w' = cnt w_woken w + k;
  we_holds : cnt w_holds w' = cnt w_holds w;
  we_signals : cnt w_signals w' = cnt w_signals w;
  we_exited : cnt w_exited w' = cnt w_exited w;
  we_crashed : cnt w_crashed w' = cnt w_crashed w;
  we_task : w' ≫= w_task = w ≫= w_task;
  we_len : len w' = len w;
}.

Record wokeF (k : Z) (s s' : list sstate) : Prop := {
  wf_parked : cnt s_parked s' = cnt s_parked s - k;
  wf_woken : cnt s_woken s' = cnt s_woken s + k;
  wf_signals : total s_signals s' = total s_signals s;
  wf_reserved : total s_reserved s' = total s_reserved s;
  wf_wf : Forall s_wf s -> Forall s_wf s';
}.

Lemma wokeE_refl w : wokeE 0 w w.
Proof. constructor; lia || done. Qed.
Lemma wokeF_refl s : wokeF 0 s s.
Proof. constructor; lia || done. Qed.

Lemma wokeE_trans k1 k2 w1 w2 w3 : wokeE k1 w1 w2 -> wokeE k2 w2 w3 -> wokeE (k1 + k2) w1 w3.
Proof. intros [] []. constructor; lia || congruence. Qed.

Lemma signalE_woke w w' : signalE w w' -> wokeE (Z.min 1 (cnt w_parked w)) w w'.
Proof.
  intros [? i Hi|? Hz].
  - pose proof (cnt_lookup_pos w_parked _ i _ Hi eq_refl).
    rewrite Z.min_l by lia.
    constructor; rewrite ?(cnt_insert _ _ _ _ _ Hi), ?len_insert; cbn; try lia.
    by apply (bind_insert_same _ _ _ _ _ Hi).
  - rewrite Hz. apply wokeE_refl.
Qed.

Lemma signalE_n_woke n w w' :
  nsteps signalE n w w' -> wokeE (Z.min (Z.of_nat n) (cnt w_parked w)) w w'.
Proof.
  pose proof (cnt_nonneg w_parked w).
  intros Hn. induction Hn as [w|n w1 w2 w3 H1%signalE_woke _ IH].
  - rewrite Z.min_l by lia. apply wokeE_refl.
  - pose proof (cnt_nonneg w_parked w2). specialize (IH ltac:(done)).
    pose proof (wokeE_trans _ _ _ _ _ H1 IH) as Ht. rewrite (we_parked _ _ _ H1) in Ht, H0.
    replace (Z.of_nat (S n) `min` cnt w_parked w1) with
      (1 `min` cnt w_parked w1 + Z.of_nat n `min` (cnt w_parked w1 - 1 `min` cnt w_parked w1)) by lia.
    done.
Qed.

Lemma broadcastE_woke w : wokeE (cnt w_parked w) w (wake_worker <$> w).
Proof.
  induction w as [|x w [? ? ? ? ? ? ? Hl]]; [apply wokeE_refl|].
  constructor; try (destruct x; cbn; unfold fmap in *; lia).
  - destruct x; cbn; unfold mbind, fmap in *; congruence.
  - rewrite fmap_cons, !len_cons. lia.
Qed.

Lemma signalF_woke s s' : signalF s s' -> wokeF (Z.min 1 (cnt s_parked s)) s s'.
Proof.
  intros [? i x Hi Hp|? Hz].
  - pose proof (cnt_lookup_pos s_parked _ i _ Hi Hp).
    rewrite Z.min_l by lia.
    constructor; rewrite ?(cnt_insert _ _ _ _ _ Hi), ?(total_insert _ _ _ _ _ Hi);
      try (destruct x; cbn in *; (lia || done)).
    intros Hw. apply Forall_insert; [done|].
    pose proof (Forall_lookup_1 _ _ _ _ Hw Hi). by destruct x.
  - rewrite Hz. apply wokeF_refl.
Qed.

Lemma broadcastF_woke s : wokeF (cnt s_parked s) s (wake_submitter <$> s).
Proof.
  induction s as [|x s [? ? ? ? Hw]]; [apply wokeF_refl|].
  constructor; try (destruct x; cbn; unfold fmap in *; lia).
  intros [Hx Hs]%Forall_cons. rewrite fmap_cons. constructor; [by destruct x|auto].
Qed.

(** * What a critical section does *)

Lemma worker_locked_spec p l :
  ring_rep (ring_ p) l ->
  (l = [] /\ stopped p = false /\ worker_locked p = (add_waiters 1 p, WParked)) \/
  (l = [] /\ stopped p = true /\ worker_locked p = (p, WExited)) \/
  (exists t l' r, l = t :: l' /\ worker_locked p = (set_ring r p, WTook t (0 <? fullWaiters p)) /\
     ring_rep r l' /\ ring_cap r = ring_cap (ring_ p)).
Proof.
  intros Hr. pose proof (rep_count _ _ Hr) as Hc. unfold worker_locked. rewrite Hc.
  destruct l as [|t l'].
  - rewrite (@len_nil Task). destruct (stopped p); cbn; auto.
  - right. right. destruct (dequeue_rep _ _ _ Hr) as (r & -> & Hr' & Hcap).
    rewrite len_cons. pose proof (len_nonneg l').
    destruct (Z.eqb_spec (1 + len l') 0); [lia|]. cbn. eauto 10.
Qed.

Lemma submit_locked_spec p l t :
  ring_rep (ring_ p) l ->
  (stopped p = false /\ len l = ring_cap (ring_ p) /\ submit_locked t p = (add_fullWaiters 1 p, SParked t)) \/
  (stopped p = true /\ submit_locked t p = (p, SDone false)) \/
  (stopped p = false /\ exists r, ring_rep r (l ++ [t]) /\ ring_cap r = ring_cap (ring_ p) /\
     submit_locked t p = (set_ring r (add_pending 1 p), SSignal (0 <? waiters p))).
Proof.
  intros Hr. pose proof (rep_count _ _ Hr) as Hc. unfold submit_locked. rewrite Hc.
  destruct (stopped p); cbn; [auto|].
  destruct (Z.eqb_spec (len l) (ring_cap (ring_ p))); [auto|].
  right. right. split; [done|]. eexists. split; [|split; [|reflexivity]].
  - apply enqueue_rep; [done|]. pose proof (rep_room _ _ Hr). cbn. lia.
  - apply enqueue_cap.
Qed.

(** A run of [submitBatch]'s loop enqueues [done] and keeps [left]: it either
    parks on a full queue, or leaves for good. *)
Inductive batch_outcome (p : condPool) (total submitted wake budget : Z) (dn left : list Task)
  (r : ring Task) : condPool * sstate * Z -> Prop :=
| batch_parks :
    stopped p = false -> left <> [] -> count r = ring_cap r ->
    batch_outcome p total submitted wake budget dn left r
      (add_fullWaiters 1 (set_ring r p), BParked left total (submitted + len dn),
       wake + Z.min (len dn) budget)
| batch_leaves :
    (stopped p = true -> dn = []) -> (stopped p = false -> left = []) ->
    batch_outcome p total submitted wake budget dn left r
      (add_pending (- len left) (set_ring r p),
       BSignal (wake + Z.min (len dn) budget) (submitted + len dn), 0).

Lemma batch_finish_spec total submitted wake p (left : list Task) :
  total - submitted = len left ->
  batch_finish total submitted wake p = (add_pending (- len left) p, BSignal wake submitted).
Proof.
  intros E. unfold batch_finish. rewrite E. pose proof (len_nonneg left).
  destruct (Z.ltb_spec 0 (len left)); [done|]. unfold add_pending. destruct p; cbn. repeat f_equal. lia.
Qed.

Lemma set_ring_id p : set_ring (ring_ p) p = p.
Proof. by destruct p. Qed.

Lemma batch_loop_spec rest total submitted wake budget p l :
  ring_rep (ring_ p) l -> total - submitted = len rest -> 0 <= budget ->
  exists dn left r, rest = dn ++ left /\ ring_rep r (l ++ dn) /\
    ring_cap r = ring_cap (ring_ p) /\
    batch_outcome p total submitted wake budget dn left r (batch_loop rest total submitted wake budget p).
Proof.
  revert submitted wake budget p l. induction rest as [|t rest IH]; intros submitted wake budget p l Hr Ht Hb; cbn.
  - exists [], [], (ring_ p). rewrite ?(app_nil_r l). split_and!; [by auto..|].
    rewrite (batch_finish_spec _ _ _ _ [] Ht).
    pose proof (batch_leaves p total submitted wake budget [] [] (ring_ p)) as H.
    rewrite set_ring_id, (@len_nil Task), Z.min_l, !Z.add_0_r in H by lia. by apply H.
  - destruct (stopped p) eqn:Hs; cbn.
    { exists [], (t :: rest), (ring_ p). rewrite ?(app_nil_r l). split_and!; [by auto..|].
      rewrite (batch_finish_spec _ _ _ _ _ Ht).
      pose proof (batch_leaves p total submitted wake budget [] (t :: rest) (ring_ p)) as H.
      rewrite set_ring_id, (@len_nil Task), Z.min_l, !Z.add_0_r in H by lia. apply H; congruence. }
    destruct (Z.eqb_spec (count (ring_ p)) (ring_cap (ring_ p))) as [Hc|Hc].
    { exists [], (t :: rest), (ring_ p). rewrite ?(app_nil_r l). split_and!; [by auto..|].
      pose proof (batch_parks p total submitted wake budget [] (t :: rest) (ring_ p)) as H.
      rewrite set_ring_id, (@len_nil Task), Z.min_l, !Z.add_0_r in H by lia. by apply H. }
    rewrite len_cons in Ht. pose proof (rep_room _ _ Hr). pose proof (rep_count _ _ Hr).
    set (p1 := set_ring (enqueueLocked t (ring_ p)) p).
    assert (Hr1 : ring_rep (ring_ p1) (l ++ [t])) by (apply enqueue_rep; [done|lia]).
    set (wb := if 0 <? budget then (wake + 1, budget - 1) else (wake, budget)).
    destruct (IH (submitted + 1) wb.1 wb.2 p1 (l ++ [t])) as (dn & left & r & -> & Hr' & Hcap & Hout);
      [done|lia|subst wb; destruct (Z.ltb_spec 0 budget); cbn; lia|].
    exists (t :: dn), left, r. split_and!.
    + done.
    + by rewrite <- (assoc_L (++)) in Hr'.
    + rewrite Hcap. apply enqueue_cap.
    + replace (if 0 <? budget then _ else _) with (batch_loop (dn ++ left) total (submitted + 1) wb.1 wb.2 p1)
        by (subst wb; by destruct (0 <? budget)).
      pose proof (len_nonneg dn).
      inversion Hout as [? ? ? E|Hst1 Hst2 E].
      * replace (submitted + 1 + len dn) with (submitted + len (t :: dn)) by (rewrite len_cons; lia).
        replace (wb.1 + Z.min (len dn) wb.2) with (wake + Z.min (len (t :: dn)) budget)
          by (rewrite len_cons; subst wb; destruct (Z.ltb_spec 0 budget); cbn; lia).
        change (set_ring r p1) with (set_ring r p). by apply batch_parks.
      * replace (submitted + 1 + len dn) with (submitted + len (t :: dn)) by (rewrite len_cons; lia).
        replace (wb.1 + Z.min (len dn) wb.2) with (wake + Z.min (len (t :: dn)) budget)
          by (rewrite len_cons; subst wb; destruct (Z.ltb_spec 0 budget); cbn; lia).
        change (set_ring r p1) with (set_ring r p). apply batch_leaves; [cbn in *; congruence|done].
Qed.

(** * The invariant is preserved *)

Ltac sys_cbn :=
  cbn [pool ws ss accepted taken ran ring_ waiters fullWaiters stopped workerTotal pending
       set_ring add_waiters add_fullWaiters add_pending set_stopped
       w_parked w_woken w_exited w_holds w_signals w_crashed w_task
       s_parked s_woken s_signals s_reserved s_wf Z.b2z batch_submitted] in *.

Ltac sys_counts :=
  repeat match goal with
  | H : ?w !! ?i = Some _ |- context [cnt _ (<[?i := _]> ?w)] => rewrite (cnt_insert _ _ _ _ _ H)
  | H : ?w !! ?i = Some _ |- context [total _ (<[?i := _]> ?w)] => rewrite (total_insert _ _ _ _ _ H)
  end;
  rewrite ?cnt_app, ?total_app, ?len_insert; cbn [cnt total]; sys_cbn.

Lemma s_signals_nonneg s : 0 <= s_signals s.
Proof. destruct s as [| | |[]| | | | | | | | | | ]; cbn; lia. Qed.

(** Case analysis on a step, one goal per rule. *)
Ltac step_cases H :=
  destruct H as
    [p w s a k r t|p w s a k r ts0|p w s a k r Hst
    |p w s a k r i t p' s' Hi Hl|p w s a k r i t p' s' Hi Hl|p w w' s a k r i wake Hi Hl
    |p w w' s a k r i ts0 p' s' n0 Hi Hl Hn|p w w' s a k r i rest tot sb p' s' n0 Hi Hl Hn
    |p w w' s a k r i n0 sb Hi Hn Hl|p w s a k r i n0 sb Hi Hn
    |p w s a k r i p' w' Hi Hl|p w s a k r i p' w' Hi Hl|p w s s' a k r i t wf Hi Hl
    |p w s a k r i t Hi|p w s a k r i t Hi
    |p w s a k r i Hi|p w s a k r i Hi Hp|p w s a k r i Hi Hp].

Ltac sys_nonneg w s :=
  pose proof (cnt_nonneg w_parked w); pose proof (cnt_nonneg w_woken w);
  pose proof (cnt_nonneg w_exited w); pose proof (cnt_nonneg w_signals w);
  pose proof (cnt_nonneg s_parked s); pose proof (cnt_nonneg s_woken s);
  pose proof (total_nonneg s_signals s s_signals_nonneg).

Ltac sys_solve :=
  try first [ lia | done | (intros; split; lia) | (intros; tauto) | (intros; exfalso; (lia || congruence))
            | (apply Forall_insert; by auto)
            | (let H := fresh in intros H;
               repeat match goal with I : _ -> _ /\ _ |- _ =>
                 let J := fresh in assert (J := I ltac:(first [done | lia | congruence])); clear I; destruct J end;
               first [lia | split; (done || lia)]) ].

Lemma inv_same_pool n p w s a k r w' s' j :
  inv n (Sys p w s a k r) -> wokeE j w w' ->
  cnt s_parked s' = cnt s_parked s -> cnt s_woken s' = cnt s_woken s ->
  total s_reserved s' = total s_reserved s ->
  total s_signals s' >= total s_signals s - j \/
    (cnt w_parked w' = 0 /\ total s_signals s' >= 0) ->
  Forall s_wf s' -> 0 <= j ->
  inv n (Sys p w' s' a k r).
Proof.
  intros [] [] ? ? ? Hs ? ?. sys_cbn. sys_nonneg w s. sys_nonneg w' s'.
  constructor; sys_cbn; sys_solve. by rewrite we_task0.
Qed.

Lemma inv_worker n p w s a k r i x p' w' :
  inv n (Sys p w s a k r) -> w !! i = Some x -> x = WLock \/ x = WWoken ->
  worker_locked (if w_woken x then add_waiters (-1) p else p) = (p', w') ->
  inv n (Sys p' (<[i := w']> w) s a (match w' with WTook t _ => k ++ [t] | _ => k end) r).
Proof.
  intros [[l [Ha Hr]] Ho] Hi Hx Hl. sys_cbn. sys_nonneg w s. pose proof (rep_count _ _ Hr) as Hc.
  set (p1 := if w_woken x then add_waiters (-1) p else p) in *.
  assert (Hp1 : ring_ p1 = ring_ p /\ fullWaiters p1 = fullWaiters p /\ stopped p1 = stopped p /\
    pending p1 = pending p /\ waiters p1 = waiters p - Z.b2z (w_woken x)).
  { subst p1. destruct Hx as [-> | ->]; cbn; split_and!; try done; lia. }
  clearbody p1. destruct Hp1 as (E1 & E2 & E3 & E4 & E5). rewrite <- E1 in Hr.
  assert (Z.b2z (w_woken x) <= cnt w_woken w).
  { destruct Hx as [-> | ->]; cbn; [done|]. by apply (cnt_lookup_pos _ _ _ _ Hi). }
  assert (Ht : w_task x = []) by (destruct Hx as [-> | ->]; done).
  destruct (worker_locked_spec p1 l Hr) as [(-> & Hs & E)|[(-> & Hs & E)|(t & l' & r' & -> & E & Hr' & Hcap)]];
    rewrite E in Hl; injection Hl as <- <-; rewrite ?E1 in *.
  1-2: rewrite (@len_nil Task) in *;
    constructor; sys_cbn; rewrite ?E1, ?E2, ?E3, ?E4, ?E5; sys_counts; eauto;
    rewrite ?(bind_insert_same _ _ _ _ _ Hi) by done; try done;
    destruct Hx as [-> | ->]; sys_cbn; sys_solve.
  rewrite len_cons in *. pose proof (rep_count _ _ Hr').
  constructor; sys_cbn; rewrite ?E1, ?E2, ?E3, ?E4, ?E5; sys_counts.
  - exists l'. by rewrite <- (assoc_L (++)).
  - pose proof (bind_insert w_task _ _ _ (WTook t (0 <? fullWaiters p)) Hi) as Hb.
    rewrite Ht, app_nil_r in Hb. rewrite Hb, Ho. cbn. solve_Permutation.
  - destruct Hx as [-> | ->]; sys_cbn; sys_solve.
  - lia.
  - destruct Hx as [-> | ->]; sys_cbn; sys_solve.
  - destruct Hx as [-> | ->]; sys_cbn; sys_solve.
  - destruct (Z.ltb_spec 0 (fullWaiters p)); destruct Hx as [-> | ->]; sys_cbn; sys_solve.
  - destruct Hx as [-> | ->]; sys_cbn; pose proof (len_nonneg l'); sys_solve.
  - destruct Hx as [-> | ->]; sys_cbn; sys_solve.
  - destruct Hx as [-> | ->]; sys_cbn; sys_solve.
  - done.
  - done.
Qed.

Lemma inv_no_exit n st : inv n st -> stopped (pool st) = false -> cnt w_exited (ws st) = 0.
Proof.
  intros [] Hs. pose proof (cnt_nonneg w_exited (ws st)).
  destruct (Z.eq_dec (cnt w_exited (ws st)) 0); [done|]. destruct (i_exit0 ltac:(lia)). congruence.
Qed.

Lemma inv_submit n p w s a k r i x t p' s' :
  inv n (Sys p w s a k r) -> s !! i = Some x -> x = SLock t \/ x = SWoken t ->
  submit_locked t (if s_woken x then add_fullWaiters (-1) p else p) = (p', s') ->
  inv n (Sys p' w (<[i := s']> s) (match s' with SSignal _ => a ++ [t] | _ => a end) k r).
Proof.
  intros Hinv. pose proof (inv_no_exit _ _ Hinv) as Hex. destruct Hinv as [[l [Ha Hr]] Ho].
  intros Hi Hx Hl. sys_cbn. sys_nonneg w s. pose proof (rep_count _ _ Hr) as Hc.
  set (p1 := if s_woken x then add_fullWaiters (-1) p else p) in *.
  assert (Hp1 : ring_ p1 = ring_ p /\ waiters p1 = waiters p /\ stopped p1 = stopped p /\
    pending p1 = pending p /\ fullWaiters p1 = fullWaiters p - Z.b2z (s_woken x)).
  { subst p1. destruct Hx as [-> | ->]; cbn; split_and!; try done; lia. }
  clearbody p1. destruct Hp1 as (E1 & E2 & E3 & E4 & E5). rewrite <- E1 in Hr.
  assert (Z.b2z (s_woken x) <= cnt s_woken s).
  { destruct Hx as [-> | ->]; cbn; [done|]. by apply (cnt_lookup_pos _ _ _ _ Hi). }
  destruct (submit_locked_spec p1 l t Hr) as [(Hs & Hf & E)|[(Hs & E)|(Hs & r' & Hr' & Hcap & E)]];
    rewrite E in Hl; injection Hl as <- <-; rewrite ?E1 in *; rewrite E3 in Hs.
  1-2: constructor; sys_cbn; rewrite ?E1, ?E2, ?E3, ?E4, ?E5; sys_counts; eauto;
    destruct Hx as [-> | ->]; sys_cbn; sys_solve.
  specialize (Hex Hs). pose proof (rep_count _ _ Hr') as Hc'. rewrite len_app, len_cons, (@len_nil Task) in Hc'.
  constructor; sys_cbn; rewrite ?E1, ?E2, ?E3, ?E4, ?E5; sys_counts;
    try (destruct Hx as [-> | ->]; sys_cbn; sys_solve).
  1-2: exists (l ++ [t]); rewrite Ha; by rewrite (assoc_L (++)).
  all: destruct (Z.ltb_spec 0 (waiters p)); sys_cbn; lia.
Qed.

Lemma inv_batch n p w s a k r i x rest tot submitted p1 p' s' j w' :
  inv n (Sys p w s a k r) -> s !! i = Some x ->
  x = BLock rest /\ stopped p = false /\ p1 = add_pending (len rest) p \/
  x = BWoken rest tot submitted /\ p1 = add_fullWaiters (-1) p ->
  tot - submitted = len rest ->
  batch_loop rest tot submitted 0 (waiters p) p1 = (p', s', j) ->
  nsteps signalE (Z.to_nat j) w w' ->
  inv n (Sys p' w' (<[i := s']> s) (a ++ take (Z.to_nat (batch_submitted s' - submitted)) rest) k r).
Proof.
  intros Hinv. pose proof (inv_no_exit _ _ Hinv) as Hex. destruct Hinv as [[l [Ha Hr]] Ho].
  intros Hi Hx Ht Hl Hj%signalE_n_woke. sys_cbn. sys_nonneg w s. pose proof (rep_count _ _ Hr) as Hc.
  assert (Hp1 : ring_ p1 = ring_ p /\ waiters p1 = waiters p /\ stopped p1 = stopped p /\
    pending p1 = pending p + len rest - s_reserved x /\ fullWaiters p1 = fullWaiters p - Z.b2z (s_woken x)).
  { destruct Hx as [(-> & Hs & ->) | [-> ->]]; cbn; split_and!; try done; lia. }
  destruct Hp1 as (E1 & E2 & E3 & E4 & E5). rewrite <- E1 in Hr.
  assert (Z.b2z (s_woken x) <= cnt s_woken s).
  { destruct Hx as [(-> & Hs & ->) | [-> ->]]; cbn; [done|]. by apply (cnt_lookup_pos _ _ _ _ Hi). }
  assert (Hne : s_woken x = true -> rest <> []).
  { pose proof (Forall_lookup_1 _ _ _ _ i_wf0 Hi). destruct Hx as [(-> & Hs & ->) | [-> ->]]; naive_solver. }
  destruct (batch_loop_spec rest tot submitted 0 (waiters p) p1 l Hr Ht ltac:(lia))
    as (dn & left & r' & -> & Hr' & Hcap & Hout).
  rewrite Hl in Hout. rewrite len_app in *. pose proof (rep_count _ _ Hr') as Hc'. rewrite len_app in Hc'.
  pose proof (len_nonneg dn). pose proof (len_nonneg left). pose proof (rep_room _ _ Hr') as Hro.
  rewrite len_app in Hro. rewrite E1 in *.
  assert (Htk : forall z, z = submitted + len dn -> take (Z.to_nat (z - submitted)) (dn ++ left) = dn).
  { intros z ->. replace (Z.to_nat (submitted + len dn - submitted)) with (length dn) by (unfold len; lia).
    apply take_app_length. }
  assert (Hfifo : exists l, a ++ dn = k ++ l /\ ring_rep r' l).
  { exists (l ++ dn). split; [|done]. by rewrite Ha, (assoc_L (++)). }
  destruct Hj.
  inversion Hout; subst p' s' j; sys_cbn; rewrite Htk by done.
  - rewrite E3 in *. specialize (Hex ltac:(done)).
    assert (Forall s_wf (<[i:=BParked left tot (submitted + len dn)]> s)).
    { apply Forall_insert; [done|]. cbn. split; [done|lia]. }
    constructor; sys_cbn; rewrite ?E1, ?E2, ?E3, ?E4, ?E5, ?we_task0; sys_counts;
      destruct Hx as [(-> & Hs & ->) | [-> ->]]; sys_cbn; sys_solve.
  - rewrite E3 in *.
    assert (stopped p = true /\ dn = [] \/ stopped p = false /\ left = [] /\ cnt w_exited w = 0) as Hcase
      by (destruct (stopped p); [left|right]; auto).
    assert (Hlen : stopped p = false -> s_woken x = true -> 0 < len dn).
    { intros Hs Hw. destruct Hcase as [[]|(_ & -> & _)]; [congruence|]. specialize (Hne Hw).
      rewrite app_nil_r in Hne. destruct dn; [done|]. rewrite len_cons. pose proof (len_nonneg dn). lia. }
    assert (Hex' : 0 < cnt w_exited w' -> stopped p = true /\ count r' = 0).
    { intros He. destruct Hcase as [[Hs ->]|(_ & _ & ?)]; [|lia].
      destruct (i_exit0 ltac:(lia)). split; [done|]. rewrite (@len_nil Task) in Hc'. lia. }
    assert (Hwf : 0 < cnt s_parked s -> ring_cap r' - count r' <= cnt w_signals w + (cnt s_woken s - Z.b2z (s_woken x))).
    { intros Hp. destruct (stopped p) eqn:Hs; [destruct (i_stop0 eq_refl); lia|].
      destruct (s_woken x) eqn:Hw; cbn; [pose proof (Hlen eq_refl eq_refl)|]; lia. }
    constructor; sys_cbn; rewrite ?E1, ?E2, ?E3, ?E4, ?E5, ?we_task0; sys_counts;
      destruct Hx as [(-> & Hs & ->) | [-> ->]]; sys_cbn; sys_solve.
Qed.

Lemma inv_init n q : 0 <= n -> 0 <= q -> inv n (sys_init n q).
Proof.
  intros Hn Hq.
  assert (Hz : forall f : wstate -> bool, f WLock = false -> cnt f (replicate (Z.to_nat n) WLock) = 0).
  { intros f Hf. induction (Z.to_nat n) as [|m IH]; cbn; [done|]. by rewrite Hf, IH. }
  unfold sys_init, newCondPool. set (q' := if q =? 0 then 1 else q).
  assert (0 < q') by (subst q'; destruct (Z.eqb_spec q 0); lia). clearbody q'.
  constructor; sys_cbn; rewrite ?Hz by done; cbn; try lia; try done.
  - exists []. split; [done|]. by apply ring_new_rep.
  - clear. by induction (Z.to_nat n).
  - rewrite len_replicate. lia.
Qed.

Lemma inv_worker_signal n p w s a k r i t wf s' :
  inv n (Sys p w s a k r) -> w !! i = Some (WTook t wf) -> (if wf then signalF s s' else s' = s) ->
  inv n (Sys p (<[i := WRun t]> w) s' a k r).
Proof.
  intros [] Hi Hs. sys_cbn.
  assert (exists j, wokeF j s s' /\ 0 <= j <= cnt s_parked s /\
    (j >= Z.b2z wf \/ cnt s_parked s' = 0)) as (j & [] & Hj & Hj').
  { pose proof (cnt_nonneg s_parked s). destruct wf; [apply signalF_woke in Hs|subst].
    - eexists. split; [exact Hs|]. destruct Hs. cbn. split; lia.
    - exists 0. split; [apply wokeF_refl|]. cbn. lia. }
  sys_nonneg w s.
  constructor; sys_cbn; sys_counts; try (destruct wf; sys_cbn; sys_solve).
  all: by rewrite (bind_insert_same _ _ _ _ _ Hi).
Qed.

Lemma inv_stop_lock n p w s a k r i :
  inv n (Sys p w s a k r) -> s !! i = Some PLock ->
  inv n (Sys (set_stopped p) (wake_worker <$> w) (wake_submitter <$> <[i := PWait]> s) a k r).
Proof.
  intros [] Hi. sys_cbn.
  destruct (broadcastE_woke w), (broadcastF_woke (<[i := PWait]> s)).
  rewrite ?(cnt_insert _ _ _ _ _ Hi), ?(total_insert _ _ _ _ _ Hi) in *. sys_nonneg w s. sys_cbn.
  constructor; sys_cbn; sys_solve.
  - by rewrite we_task0.
  - apply wf_wf0. by apply Forall_insert.
Qed.

Lemma inv_step n st st' : inv n st -> step st st' -> inv n st'.
Proof.
  intros Hinv Hs. step_cases Hs.
  1-3: apply (inv_same_pool _ _ _ _ _ _ _ _ _ 0 Hinv (wokeE_refl _)); sys_counts; try lia;
    apply Forall_app; split; [apply Hinv|by constructor].
  - by apply (inv_submit _ _ _ _ _ _ _ _ _ _ _ _ Hinv Hi (or_introl eq_refl)).
  - by apply (inv_submit _ _ _ _ _ _ _ _ _ _ _ _ Hinv Hi (or_intror eq_refl)).
  - assert (Hf : Forall s_wf (<[i:=SDone true]> s)) by (apply Forall_insert; [apply Hinv|done]).
    pose proof (total_lookup_le s_signals _ _ _ s_signals_nonneg Hi). sys_cbn.
    destruct wake; [apply signalE_woke in Hl|subst w'].
    + apply (inv_same_pool _ _ _ _ _ _ _ _ _ _ Hinv Hl); sys_counts; try lia; auto.
      * destruct Hl. pose proof (cnt_nonneg w_parked w). lia.
      * pose proof (cnt_nonneg w_parked w). lia.
    + apply (inv_same_pool _ _ _ _ _ _ _ _ _ _ Hinv (wokeE_refl _)); sys_counts; try lia; auto.
  - unfold batch_locked in Hl. destruct (stopped p) eqn:Hs.
    + simplify_eq. inversion Hn; subst. cbn. rewrite app_nil_r.
      apply (inv_same_pool _ _ _ _ _ _ _ _ _ 0 Hinv (wokeE_refl _)); sys_counts; try lia.
      apply Forall_insert; [apply Hinv|done].
    + pose proof (inv_batch n p w s a k r i _ ts0 (len ts0) 0 _ p' s' n0 w' Hinv Hi
        (or_introl (conj eq_refl (conj Hs eq_refl))) ltac:(lia) Hl Hn) as H.
      by rewrite Z.sub_0_r in H.
  - pose proof (Forall_lookup_1 _ _ _ _ (i_wf _ _ Hinv) Hi) as [? ?].
    by apply (inv_batch n p w s a k r i _ rest tot sb _ p' s' n0 w' Hinv Hi (or_intror (conj eq_refl eq_refl))).
  - assert (Hf : Forall s_wf (<[i:=BSignal (n0 - 1) sb]> s)) by (apply Forall_insert; [apply Hinv|done]).
    pose proof (total_lookup_le s_signals _ _ _ s_signals_nonneg Hi). sys_cbn.
    apply signalE_woke in Hl. pose proof (cnt_nonneg w_parked w).
    apply (inv_same_pool _ _ _ _ _ _ _ _ _ _ Hinv Hl); sys_counts; try lia; auto.
    destruct Hl. lia.
  - apply (inv_same_pool _ _ _ _ _ _ _ _ _ 0 Hinv (wokeE_refl _)); sys_counts; try lia.
    apply Forall_insert; [apply Hinv|done].
  - by apply (inv_worker _ _ _ _ _ _ _ _ _ _ _ Hinv Hi (or_introl eq_refl)).
  - by apply (inv_worker _ _ _ _ _ _ _ _ _ _ _ Hinv Hi (or_intror eq_refl)).
  - by apply (inv_worker_signal _ _ _ _ _ _ _ _ _ _ _ Hinv Hi Hl).
  - destruct Hinv. sys_cbn. constructor; sys_cbn; sys_counts; sys_solve.
    pose proof (bind_insert w_task _ _ _ (WRan t) Hi) as Hb. cbn in Hb. rewrite app_nil_r in Hb.
    rewrite i_once0, <- Hb. solve_Permutation.
  - destruct Hinv. sys_cbn. constructor; sys_cbn; sys_counts; sys_solve.
    by rewrite (bind_insert_same _ _ _ _ _ Hi).
  - by apply inv_stop_lock.
  - pose proof (cnt_nonneg w_parked w).
    apply (inv_same_pool _ _ _ _ _ _ _ _ _ _ Hinv (broadcastE_woke _)); sys_counts; try lia.
    apply Forall_insert; [apply Hinv|done].
  - apply (inv_same_pool _ _ _ _ _ _ _ _ _ 0 Hinv (wokeE_refl _)); sys_counts; try lia.
    apply Forall_insert; [apply Hinv|done].
Qed.

(** ** What [stop] has established on its way *)

Definition s_stopping (s : sstate) : bool := match s with PWait | PJoin | PDone => true | _ => false end.
Definition s_joined (s : sstate) : bool := match s with PJoin | PDone => true | _ => false end.

Definition stop_inv (st : sys) : Prop :=
  (0 < cnt s_stopping (ss st) -> stopped (pool st) = true) /\
  (0 < cnt s_joined (ss st) -> pending (pool st) = 0).

Lemma inv_pending_nonneg n st : inv n st -> 0 <= pending (pool st).
Proof.
  intros [(l & _ & Hr) _ _ _ Hp]. pose proof (rep_count _ _ Hr). pose proof (len_nonneg l).
  pose proof (cnt_nonneg w_holds (ws st)).
  pose proof (total_nonneg s_reserved (ss st) ltac:(intros []; cbn; auto using len_nonneg; lia)). lia.
Qed.

(** Once stopped, a pool stays so and takes on no more work. *)
Lemma step_stopped n st st' :
  inv n st -> step st st' -> stopped (pool st) = true ->
  stopped (pool st') = true /\ pending (pool st') <= pending (pool st).
Proof.
  intros Hinv Hst Hs. destruct (i_fifo _ _ Hinv) as (l & _ & Hr).
  pose proof (i_waiters _ _ Hinv). pose proof (cnt_nonneg w_parked (ws st)). pose proof (cnt_nonneg w_woken (ws st)).
  step_cases Hst; sys_cbn; try (split; (done || lia)).
  - destruct (submit_locked_spec p l t Hr) as [(? & ? & E)|[(? & E)|(? & _)]]; try congruence.
    rewrite E in *. simplify_eq. split; [done|lia].
  - destruct (submit_locked_spec (add_fullWaiters (-1) p) l t Hr) as [(? & ? & E)|[(? & E)|(? & _)]];
      sys_cbn; try congruence.
    rewrite E in *. simplify_eq. split; [done|sys_cbn; lia].
  - unfold batch_locked in *. rewrite Hs in *. simplify_eq. split; [done|lia].
  - pose proof (Forall_lookup_1 _ _ _ _ (i_wf _ _ Hinv) Hi) as [? Ht].
    destruct (batch_loop_spec rest tot sb 0 (waiters p) (add_fullWaiters (-1) p) l Hr Ht ltac:(lia))
      as (dn & left & r' & -> & Hr' & Hcap & Hout).
    unfold batch_resumed in *. rewrite Hl in Hout. pose proof (len_nonneg left).
    inversion Hout; subst; sys_cbn; [congruence|]. split; [done|lia].
  - destruct (worker_locked_spec p l Hr) as [(-> & ? & E)|[(-> & ? & E)|(t & l' & r' & -> & E & Hr' & Hcap)]];
      rewrite E in *; simplify_eq; cbn; (split; [done|lia]).
  - destruct (worker_locked_spec (add_waiters (-1) p) l Hr) as [(-> & ? & E)|[(-> & ? & E)|(t & l' & r' & -> & E & Hr' & Hcap)]];
      rewrite E in *; simplify_eq; cbn; (split; [done|lia]).
Qed.

Lemma cnt_wake (f : sstate -> bool) s :
  (forall x, f (wake_submitter x) = f x) -> cnt f (wake_submitter <$> s) = cnt f s.
Proof. intros Hf. induction s as [|x s IH]; [done|]. rewrite fmap_cons. cbn. by rewrite Hf, IH. Qed.

Lemma cnt_signalF (f : sstate -> bool) s s' :
  (forall x, f (wake_submitter x) = f x) -> signalF s s' -> cnt f s' = cnt f s.
Proof. intros Hf [? i x Hi _|]; [|done]. rewrite (cnt_insert _ _ _ _ _ Hi), Hf. lia. Qed.

Lemma submit_not_stop t p p' s' : submit_locked t p = (p', s') -> s_stopping s' = false /\ s_joined s' = false.
Proof. unfold submit_locked. intros. repeat case_match; by simplify_eq. Qed.

Lemma batch_not_stop rest tot sb wake budget p p' s' j :
  batch_loop rest tot sb wake budget p = (p', s', j) -> s_stopping s' = false /\ s_joined s' = false.
Proof.
  revert sb wake budget p. induction rest as [|t rest IH]; intros sb wake budget p E; cbn in E.
  - unfold batch_finish in E. by simplify_eq.
  - unfold batch_finish in E. repeat case_match; eauto; by simplify_eq.
Qed.

(** The calls that have passed one of [stop]'s waits are those [stop] took
    there. *)
Lemma stop_counts st st' :
  step st st' ->
  (cnt s_stopping (ss st') = cnt s_stopping (ss st) \/ stopped (pool st') = true) /\
  (cnt s_joined (ss st') = cnt s_joined (ss st) \/ pending (pool st') = 0 /\ cnt s_stopping (ss st) > 0).
Proof.
  intros Hst. step_cases Hst;
    sys_cbn; try (sys_counts; cbn [s_stopping s_joined Z.b2z]; split; left; lia).
  - destruct (submit_not_stop _ _ _ _ Hl) as [E1 E2]. sys_counts. rewrite E1, E2. cbn. lia.
  - destruct (submit_not_stop _ _ _ _ Hl) as [E1 E2]. sys_counts. rewrite E1, E2. cbn. lia.
  - unfold batch_locked in Hl. destruct (stopped p); [simplify_eq; sys_counts; cbn; lia|].
    destruct (batch_not_stop _ _ _ _ _ _ _ _ _ Hl) as [E1 E2]. sys_counts. rewrite E1, E2. cbn. lia.
  - destruct (batch_not_stop _ _ _ _ _ _ _ _ _ Hl) as [E1 E2]. sys_counts. rewrite E1, E2. cbn. lia.
  - sys_cbn. destruct wf; [|subst; lia].
    rewrite !(fun f H => cnt_signalF f _ _ H Hl) by (intros []; done). lia.
  - sys_cbn. rewrite !cnt_wake by (intros []; done). sys_counts. cbn. auto with lia.
  - pose proof (cnt_lookup_pos s_stopping _ _ _ Hi eq_refl). sys_counts. cbn. lia.
Qed.

Lemma stop_inv_step n st st' : inv n st -> inv n st' -> stop_inv st -> step st st' -> stop_inv st'.
Proof.
  intros Hi Hi' [H1 H2] Hs. destruct (stop_counts _ _ Hs) as [C1 C2].
  assert (Hle : cnt s_joined (ss st) <= cnt s_stopping (ss st)) by (apply cnt_le; by intros []).
  pose proof (inv_pending_nonneg _ _ Hi'). pose proof (step_stopped _ _ _ Hi Hs) as H3.
  split; intros Hc.
  - destruct C1 as [C1|]; [|done]. apply H3, H1. lia.
  - destruct C2 as [C2|[]]; [|done]. destruct H3; [apply H1; lia|]. specialize (H2 ltac:(lia)). lia.
Qed.

Lemma reachable_inv n q st : 0 <= n -> 0 <= q -> rtc step (sys_init n q) st -> inv n st /\ stop_inv st.
Proof.
  intros Hn Hq Hr. pose proof (inv_init n q Hn Hq) as H0.
  assert (H1 : stop_inv (sys_init n q)) by (split; cbn; lia).
  induction Hr as [|x y z Hs _ IH]; [done|].
  pose proof (inv_step _ _ _ H0 Hs). apply IH; [done|]. by apply (stop_inv_step n x).
Qed.

(** * Quiescence *)

(** A step of a goroutine of the pool: no new call arrives. *)
Definition gstep (st st' : sys) : Prop := step st st' /\ len (ss st') = len (ss st).

(** What each goroutine may still do, with [W] workers and [S] calls. *)
Definition w_weight (w : wstate) : Z :=
  match w with
  | WLock | WWoken => 1 | WParked => 0 | WTook _ _ => 5 | WRun _ => 3 | WRan _ => 2
  | WExited | WCrash => 0
  end.
Definition s_weight (W S : Z) (s : sstate) : Z :=
  match s with
  | SLock _ | SWoken _ => 9 | SParked _ => 8 | SSignal _ => 2 | SDone _ => 0
  | BLock ts => 7 * len ts + 3
  | BWoken r _ _ => 7 * len r + 3 | BParked r _ _ => 7 * len r + 2
  | BSignal n _ => 2 * Z.max 0 n + 1 | BDone _ => 0
  | PLock => 2 * W + S + 3 | PWait => W + 2 | PJoin => 1 | PDone => 0
  end.
Definition weight (st : sys) : Z :=
  5 * count (ring_ (pool st)) + total w_weight (ws st) + total (s_weight (len (ws st)) (len (ss st))) (ss st).

Definition w_idle (w : wstate) : bool := match w with WParked | WExited => true | _ => false end.
Definition returned (s : sstate) : bool := match s with SDone _ | BDone _ | PDone => true | _ => false end.

Lemma signalE_weight w w' : signalE w w' -> total w_weight w' <= total w_weight w + 1.
Proof. intros [? i Hi|? Hz]; [rewrite (total_insert _ _ _ _ _ Hi); cbn|]; lia. Qed.

Lemma signalE_n_weight n w w' : nsteps signalE n w w' -> total w_weight w' <= total w_weight w + Z.of_nat n.
Proof. induction 1 as [|n w1 w2 w3 H1%signalE_weight _ IH]; lia. Qed.

Lemma broadcastE_weight w : total w_weight (wake_worker <$> w) <= total w_weight w + len w.
Proof.
  induction w as [|x w IH]; [done|]. rewrite fmap_cons, len_cons. cbn [total].
  destruct x; cbn; lia.
Qed.

Lemma signalF_weight W S s s' : signalF s s' -> total (s_weight W S) s' <= total (s_weight W S) s + 1 /\ len s' = len s.
Proof.
  intros [? i x Hi Hp|? Hz]; [|lia]. rewrite (total_insert _ _ _ _ _ Hi), len_insert.
  destruct x; cbn in *; try done; lia.
Qed.

Lemma broadcastF_weight W S s :
  total (s_weight W S) (wake_submitter <$> s) <= total (s_weight W S) s + len s.
Proof.
  induction s as [|x s IH]; [done|]. rewrite fmap_cons, len_cons. cbn [total].
  destruct x; cbn [wake_submitter s_weight]; lia.
Qed.

Lemma signalE_len w w' : signalE w w' -> len w' = len w.
Proof. intros H%signalE_woke. apply H. Qed.

Lemma wake_worker_len w : len (wake_worker <$> w) = len w.
Proof. unfold len. by rewrite length_fmap. Qed.

(** A critical section of [submit] or [submitBatch] costs less than it frees. *)
Lemma submit_weight W S p l t p' s' :
  ring_rep (ring_ p) l -> submit_locked t p = (p', s') ->
  5 * count (ring_ p') + s_weight W S s' <= 5 * count (ring_ p) + 8.
Proof.
  intros Hr E. pose proof (rep_count _ _ Hr).
  destruct (submit_locked_spec p l t Hr) as [(Hs & Hf & E')|[(Hs & E')|(Hs & r' & Hr' & Hcap & E')]];
    rewrite E' in E; simplify_eq; cbn; try lia.
  rewrite (rep_count _ _ Hr'), len_app, len_cons, (@len_nil Task). lia.
Qed.

Lemma batch_weight W S rest tot sb p1 l p' s' j :
  ring_rep (ring_ p1) l -> tot - sb = len rest -> 0 <= waiters p1 ->
  batch_loop rest tot sb 0 (waiters p1) p1 = (p', s', j) ->
  0 <= j /\ 5 * count (ring_ p') + s_weight W S s' + j <= 5 * count (ring_ p1) + 7 * len rest + 2.
Proof.
  intros Hr Ht Hw E. pose proof (rep_count _ _ Hr).
  destruct (batch_loop_spec rest tot sb 0 (waiters p1) p1 l Hr Ht Hw) as (dn & left & r' & -> & Hr' & Hcap & Hout).
  rewrite E in Hout. pose proof (rep_count _ _ Hr') as Hc. rewrite len_app in *.
  pose proof (len_nonneg dn). pose proof (len_nonneg left).
  inversion Hout; subst; cbn; lia.
Qed.

Lemma worker_weight p l p' w' :
  ring_rep (ring_ p) l -> worker_locked p = (p', w') ->
  5 * count (ring_ p') + w_weight w' <= 5 * count (ring_ p).
Proof.
  intros Hr E. pose proof (rep_count _ _ Hr).
  destruct (worker_locked_spec p l Hr) as [(-> & Hs & E')|[(-> & Hs & E')|(t & l' & r' & -> & E' & Hr' & Hcap)]];
    rewrite E' in E; simplify_eq; cbn; try lia.
  rewrite (rep_count _ _ Hr'). rewrite len_cons in *. lia.
Qed.

Lemma weight_nonneg n st : inv n st -> 0 <= weight st.
Proof.
  intros Hinv. destruct (i_fifo _ _ Hinv) as (l & _ & Hr). unfold weight. rewrite (rep_count _ _ Hr).
  pose proof (len_nonneg l). pose proof (total_nonneg w_weight (ws st) ltac:(intros []; cbn; lia)).
  pose proof (len_nonneg (ws st)). pose proof (len_nonneg (ss st)).
  enough (0 <= total (s_weight (len (ws st)) (len (ss st))) (ss st)) by lia.
  apply total_nonneg. intros []; cbn; try lia;
    match goal with |- context [len ?l] => pose proof (len_nonneg l) end; lia.
Qed.

Lemma gstep_weight n st st' : inv n st -> gstep st st' -> weight st' < weight st.
Proof.
  intros Hinv [Hs Hlen]. destruct (i_fifo _ _ Hinv) as (l & _ & Hr). pose proof (i_waiters _ _ Hinv) as Hw.
  pose proof (cnt_nonneg w_parked (ws st)). pose proof (cnt_nonneg w_woken (ws st)).
  unfold weight. rewrite Hlen.
  step_cases Hs; sys_cbn.
  1-3: rewrite len_app, len_cons, (@len_nil sstate) in Hlen; lia.
  all: rewrite ?len_insert, ?wake_worker_len, ?(total_insert _ _ _ _ _ Hi).
  - pose proof (submit_weight (len w) (len s) _ _ _ _ _ Hr Hl). cbn [s_weight]. lia.
  - pose proof (submit_weight (len w) (len s) _ _ _ _ _ (Hr : ring_rep (ring_ (add_fullWaiters (-1) p)) l) Hl).
    sys_cbn. cbn [s_weight]. lia.
  - cbn [s_weight]. destruct wake; [|subst; lia].
    rewrite (signalE_len _ _ Hl). pose proof (signalE_weight _ _ Hl). lia.
  - pose proof (signalE_n_weight _ _ _ Hn). pose proof (we_len _ _ _ (signalE_n_woke _ _ _ Hn)) as ->.
    cbn [s_weight]. unfold batch_locked in Hl. destruct (stopped p).
    + simplify_eq. pose proof (len_nonneg ts0). cbn [s_weight]. lia.
    + destruct (batch_weight (len w) (len s) ts0 (len ts0) 0 (add_pending (len ts0) p) l _ _ _ Hr
        ltac:(lia) ltac:(sys_cbn; lia) Hl). sys_cbn. lia.
  - pose proof (signalE_n_weight _ _ _ Hn). pose proof (we_len _ _ _ (signalE_n_woke _ _ _ Hn)) as ->.
    pose proof (Forall_lookup_1 _ _ _ _ (i_wf _ _ Hinv) Hi) as [? ?].
    cbn [s_weight]. destruct (batch_weight (len w) (len s) rest tot sb (add_fullWaiters (-1) p) l _ _ _ Hr
        ltac:(done) ltac:(sys_cbn; lia) Hl). sys_cbn. lia.
  - cbn [s_weight]. rewrite (signalE_len _ _ Hl). pose proof (signalE_weight _ _ Hl). lia.
  - cbn [s_weight]. lia.
  - pose proof (worker_weight _ _ _ _ Hr Hl). cbn [w_weight]. lia.
  - pose proof (worker_weight _ _ _ _ (Hr : ring_rep (ring_ (add_waiters (-1) p)) l) Hl). sys_cbn. cbn [w_weight]. lia.
  - cbn [w_weight]. destruct wf; [|subst; lia]. destruct (signalF_weight (len w) (len s) _ _ Hl). lia.
  - cbn [w_weight]. lia.
  - cbn [w_weight]. lia.
  - pose proof (broadcastE_weight w). pose proof (broadcastF_weight (len w) (len s) (<[i:=PWait]> s)) as Hb.
    rewrite (total_insert _ _ _ _ _ Hi), len_insert in Hb. cbn [s_weight] in *. lia.
  - pose proof (broadcastE_weight w). cbn [s_weight]. lia.
  - cbn [s_weight]. lia.
Qed.

(** ** A state where no goroutine can move *)

Lemma signalE_total w : exists w', signalE w w'.
Proof.
  destruct (Z.eq_dec (cnt w_parked w) 0); [eexists; by apply signalE_none|].
  pose proof (cnt_nonneg w_parked w).
  destruct (cnt_pos_inv w_parked w) as (i & x & Hi & Hx); [lia|]. destruct x; try done.
  eexists. by apply (signalE_one _ i).
Qed.

Lemma signalE_n_total n w : exists w', nsteps signalE n w w'.
Proof.
  revert w. induction n as [|n IH]; intros w; [eexists; constructor|].
  destruct (signalE_total w) as [w1 H1]. destruct (IH w1) as [w2 H2]. eexists. by econstructor.
Qed.

Lemma signalF_total s : exists s', signalF s s'.
Proof.
  destruct (Z.eq_dec (cnt s_parked s) 0); [eexists; by apply signalF_none|].
  pose proof (cnt_nonneg s_parked s).
  destruct (cnt_pos_inv s_parked s) as (i & x & Hi & Hx); [lia|].
  eexists. by apply (signalF_one _ i x).
Qed.

Lemma signalF_len s s' : signalF s s' -> len s' = len s.
Proof. intros H. by apply (signalF_weight 0 0). Qed.

(** Every worker that is not parked or gone can move. *)
Lemma worker_moves n st i x :
  inv n st -> ws st !! i = Some x -> w_idle x = false -> exists st', gstep st st'.
Proof.
  intros Hinv Hi Hx. pose proof (i_crash _ _ Hinv) as Hcr. destruct st as [p w s a k r]. sys_cbn.
  destruct x; try done.
  - destruct (worker_locked p) eqn:E. eexists. split; [by eapply step_worker_lock|done].
  - destruct (worker_locked (add_waiters (-1) p)) eqn:E. eexists. split; [by eapply step_worker_woken|done].
  - destruct (signalF_total s) as [s' Hs']. exists (Sys p (<[i := WRun t]> w) (if wakeFull then s' else s) a k r).
    split; [|cbn; destruct wakeFull; [by apply signalF_len|done]].
    eapply step_worker_signal; [done|]. by destruct wakeFull.
  - eexists. split; [by eapply step_worker_run|done].
  - eexists. split; [by eapply step_worker_done|done].
  - by pose proof (cnt_zero_inv _ _ _ _ Hcr Hi).
Qed.

(** So can every call that is not parked, waiting in [stop] or back. *)
Definition s_waits (s : sstate) : bool :=
  s_parked s || returned s || match s with PWait | PJoin => true | _ => false end.

Lemma call_moves st i x :
  ss st !! i = Some x -> s_waits x = false -> exists st', gstep st st'.
Proof.
  intros Hi Hx. destruct st as [p w s a k r]. sys_cbn.
  destruct (signalE_total w) as [w1 Hw1].
  destruct x as [t|t|t|wake|ok|ts0|r0 t0 n0|r0 t0 n0|n0 sb|sb| | | |]; try done.
  - destruct (submit_locked t p) eqn:E. eexists. split; [by eapply step_submit_lock|apply len_insert].
  - destruct (submit_locked t (add_fullWaiters (-1) p)) eqn:E. eexists. split; [by eapply step_submit_woken|apply len_insert].
  - exists (Sys p (if wake then w1 else w) (<[i := SDone true]> s) a k r). split; [|apply len_insert].
    eapply step_submit_signal; [done|]. by destruct wake.
  - destruct (batch_locked ts0 p) as [[? ?] m] eqn:E. destruct (signalE_n_total (Z.to_nat m) w) as [w2 H2].
    eexists. split; [by eapply step_batch_lock|apply len_insert].
  - destruct (batch_resumed r0 t0 n0 p) as [[? ?] m] eqn:E. destruct (signalE_n_total (Z.to_nat m) w) as [w2 H2].
    eexists. split; [by eapply step_batch_woken|apply len_insert].
  - destruct (Z.leb_spec n0 0); eexists.
    + split; [by eapply step_batch_return|apply len_insert].
    + split; [by eapply step_batch_signal|apply len_insert].
  - eexists. split; [by eapply step_stop_lock|]. cbn. unfold len. by rewrite length_fmap, length_insert.
Qed.

Lemma quiet_done n st :
  0 < n -> inv n st -> stop_inv st -> (forall st', ~ gstep st st') ->
  Forall (fun s => returned s = true) (ss st) /\ ran st ≡ₚ accepted st /\ pending (pool st) = 0.
Proof.
  intros Hn Hinv [Hst _] Hq.
  assert (Hw : forall i x, ws st !! i = Some x -> w_idle x = true).
  { intros i x Hi. destruct (w_idle x) eqn:E; [done|].
    destruct (worker_moves _ _ _ _ Hinv Hi E) as [? []%Hq]. }
  assert (Hs : forall i x, ss st !! i = Some x -> s_waits x = true).
  { intros i x Hi. destruct (s_waits x) eqn:E; [done|]. destruct (call_moves _ _ _ Hi E) as [? []%Hq]. }
  assert (Hz : cnt w_woken (ws st) = 0 /\ cnt w_signals (ws st) = 0 /\ cnt w_holds (ws st) = 0 /\
               cnt s_woken (ss st) = 0 /\ total s_signals (ss st) = 0 /\ (ws st ≫= w_task) = []).
  { split_and!; try (apply cnt_none; intros i x Hi; apply Hw in Hi || apply Hs in Hi; by destruct x).
    - apply total_none. intros i x Hi. apply Hs in Hi. by destruct x.
    - clear - Hw. induction (ws st) as [|x l IH]; [done|].
      pose proof (Hw 0%nat x eq_refl). cbn. rewrite IH by (intros i; apply (Hw (S i))). by destruct x. }
  destruct Hz as (Hz1 & Hz2 & Hz3 & Hz4 & Hz5 & Hz6).
  assert (Hidle : cnt w_parked (ws st) + cnt w_exited (ws st) = n).
  { rewrite <- (i_workers _ _ Hinv). clear - Hw. induction (ws st) as [|x l IH]; [done|].
    pose proof (Hw 0%nat x eq_refl). rewrite len_cons, <- IH by (intros i; apply (Hw (S i))).
    destruct x; cbn in *; try done; lia. }
  destruct Hinv as [(l & Ha & Hr) Ho Hwt Hfw Hp HE HF Hexit Hstop _ Hwf Hlen].
  pose proof (rep_count _ _ Hr) as Hc. pose proof (len_nonneg l). pose proof (rep_cap _ _ Hr).
  assert (Hc0 : len l = 0).
  { destruct (Z.eq_dec (cnt w_exited (ws st)) 0); [lia|].
    pose proof (cnt_nonneg w_exited (ws st)). destruct (Hexit ltac:(lia)). lia. }
  assert (Hsp : cnt s_parked (ss st) = 0) by (pose proof (cnt_nonneg s_parked (ss st)); lia).
  assert (Hres : total s_reserved (ss st) = 0).
  { apply total_none. intros i x Hi. pose proof (cnt_zero_inv _ _ _ _ Hsp Hi). apply Hs in Hi. by destruct x. }
  assert (Hpend : pending (pool st) = 0) by lia.
  split_and!; [|destruct l; [|rewrite len_cons in Hc0; pose proof (len_nonneg l); lia]|done].
  - apply Forall_lookup_2. intros i x Hi. pose proof (cnt_zero_inv _ _ _ _ Hsp Hi) as Hnp.
    pose proof (Hs _ _ Hi) as Hsw. destruct st as [p w s a k r]. sys_cbn. destruct x; try done; exfalso.
    + eapply Hq. split; [by eapply step_stop_wait|apply len_insert].
    + pose proof (cnt_lookup_pos s_stopping _ _ _ Hi eq_refl). destruct (Hstop (Hst ltac:(lia))).
      eapply Hq. split; [eapply step_stop_join; [done|]; sys_cbn; lia|apply len_insert].
  - rewrite Ha, Ho, Hz6, !app_nil_r. done.
Qed.

(** * The pool's contract *)

(** C3: the pool is a queue.  In every reachable state, whatever the
    interleaving of workers, submitters and [stop], the accepted tasks are the
    ones workers have taken, in the order they were accepted, followed by the
    ones in the ring; every task taken has either run, once, or is in the hands
    of one worker that is about to run it; and no worker has hit an empty slot. *)
Theorem pool_fifo_exactly_once n q st :
  0 <= n -> 0 <= q -> rtc step (sys_init n q) st ->
  (exists l, accepted st = taken st ++ l /\ ring_rep (ring_ (pool st)) l) /\
  taken st ≡ₚ ran st ++ (ws st ≫= w_task) /\
  ~ WCrash ∈ ws st.
Proof.
  intros Hn Hq Hr. destruct (reachable_inv _ _ _ Hn Hq Hr) as [Hinv _].
  split; [apply Hinv|split; [apply Hinv|]]. intros [i Hi]%list_elem_of_lookup.
  by pose proof (cnt_zero_inv _ _ _ _ (i_crash _ _ Hinv) Hi).
Qed.

(** [stop] drains.  Once [stop] has passed [pending.Wait], every task the
    pool ever accepted has run, the queue is empty and the pool refuses new
    work: [submit] returns false and [submitBatch] 0. *)
Theorem stop_drains n q st i s :
  0 <= n -> 0 <= q -> rtc step (sys_init n q) st ->
  ss st !! i = Some s -> s_joined s = true ->
  ran st ≡ₚ accepted st /\ count (ring_ (pool st)) = 0 /\
  (forall t, submit_locked t (pool st) = (pool st, SDone false)) /\
  (forall ts, batch_locked ts (pool st) = (pool st, BDone 0, 0)).
Proof.
  intros Hn Hq Hr Hi Hs. destruct (reachable_inv _ _ _ Hn Hq Hr) as [Hinv [Hst Hp]].
  pose proof (cnt_lookup_pos s_joined _ _ _ Hi Hs).
  assert (cnt s_joined (ss st) <= cnt s_stopping (ss st)) by (apply cnt_le; by intros []).
  specialize (Hst ltac:(lia)). specialize (Hp ltac:(lia)).
  destruct Hinv as [(l & Ha & Hrep) Ho _ _ Hpend]. pose proof (rep_count _ _ Hrep).
  pose proof (len_nonneg l). pose proof (cnt_nonneg w_holds (ws st)).
  pose proof (total_nonneg s_reserved (ss st) ltac:(intros []; cbn; auto using len_nonneg; lia)).
  split_and!; [|lia| |].
  - assert (l = []) as -> by (destruct l; [done|]; rewrite len_cons in *; pose proof (len_nonneg l); lia).
    assert ((ws st ≫= w_task) = []) as Hz.
    { assert (cnt w_holds (ws st) = 0) as Hh by lia. clear - Hh. induction (ws st) as [|x w IH]; [done|].
      cbn in *. pose proof (cnt_nonneg w_holds w). rewrite IH by (destruct x; cbn in *; lia).
      destruct x; cbn in *; try done; lia. }
    by rewrite Ha, Ho, Hz, !app_nil_r.
  - intros t. unfold submit_locked. by rewrite Hst.
  - intros ts. unfold batch_locked. by rewrite Hst.
Qed.

(** C2: no deadlock and no lost wake-up.  With at least one worker, the
    goroutines of the pool cannot run for ever without a new call, and when
    none of them can move every call of [submit], [submitBatch] and [stop] has
    returned and every accepted task has run. *)
Theorem pool_quiesces n q st :
  0 < n -> 0 <= q -> rtc step (sys_init n q) st ->
  (forall m st', nsteps gstep m st st' -> Z.of_nat m <= weight st) /\
  (forall st', rtc gstep st st' -> (forall st'', ~ gstep st' st'') ->
     Forall (fun s => returned s = true) (ss st') /\ ran st' ≡ₚ accepted st').
Proof.
  intros Hn Hq Hr. destruct (reachable_inv n q st ltac:(lia) Hq Hr) as [Hinv Hstop]. split.
  - intros m st' Hm. clear Hr Hstop. revert Hinv. induction Hm as [x|m x y z Hs Hm IH]; intros Hinv.
    + apply (weight_nonneg n). done.
    + pose proof (gstep_weight _ _ _ Hinv Hs). destruct Hs as [Hs _].
      specialize (IH (inv_step _ _ _ Hinv Hs)). lia.
  - intros st' Hg Hquiet.
    assert (rtc step (sys_init n q) st') as Hr'.
    { etrans; [done|]. apply (rtc_subrel gstep); [|done]. by intros ? ? []. }
    destruct (reachable_inv n q st' ltac:(lia) Hq Hr') as [Hinv' Hstop'].
    by destruct (quiet_done n st' Hn Hinv' Hstop' Hquiet) as (? & ? & _).
Qed.
End cond.

(** One worker, a queue of one: a task is submitted, run, and the pool stopped. *)
Definition demo_state : sys (Task:=Z) :=
  Sys (CondPool (Ring [None] 0 0 0) 0 0 true 1 0) [WExited] [SDone true; PDone] [7] [7] [7].

Lemma demo_run : rtc step (sys_init 1 0) demo_state.
Proof.
  eapply rtc_l; [apply (step_submit _ _ _ _ _ _ 7)|].
  eapply rtc_l; [by apply (step_submit_lock _ _ _ _ _ _ 0 7)|].
  eapply rtc_l; [by eapply (step_submit_signal _ _ _ _ _ _ _ 0)|].
  eapply rtc_l; [by apply (step_worker_lock _ _ _ _ _ _ 0)|].
  eapply rtc_l; [by eapply (step_worker_signal _ _ _ _ _ _ _ 0)|].
  eapply rtc_l; [by apply (step_worker_run _ _ _ _ _ _ 0 7)|].
  eapply rtc_l; [by apply (step_worker_done _ _ _ _ _ _ 0 7)|].
  eapply rtc_l; [by apply step_stop|].
  eapply rtc_l; [by apply (step_stop_lock _ _ _ _ _ _ 1)|].
  eapply rtc_l; [by apply (step_stop_wait _ _ _ _ _ _ 1)|].
  eapply rtc_l; [by apply (step_worker_lock _ _ _ _ _ _ 0)|].
  eapply rtc_l; [by apply (step_stop_join _ _ _ _ _ _ 1)|].
  apply rtc_refl.
Qed.

Lemma pool_fifo_exactly_once_witness : taken demo_state ≡ₚ ran demo_state ++ (ws demo_state ≫= w_task).
Proof. apply (pool_fifo_exactly_once 1 0 demo_state); [lia|lia|apply demo_run]. Defined.

Lemma stop_drains_witness : ran demo_state ≡ₚ accepted demo_state.
Proof. apply (stop_drains 1 0 demo_state 1 PDone); [lia|lia|apply demo_run|reflexivity|reflexivity]. Defined.

Lemma pool_quiesces_witness :
  Forall (fun s => returned s = true) (ss demo_state) /\ ran demo_state ≡ₚ accepted demo_state.
Proof.
  destruct (pool_quiesces 1 0 demo_state) as [H1 H2]; [lia|lia|apply demo_run|].
  apply (H2 demo_state); [apply rtc_refl|]. intros st'' Hs.
  pose proof (H1 1%nat st'' (nsteps_once _ _ Hs)) as H. vm_compute in H. by apply H.
Defined.
