(* ===== verification/AdaptivePool.v ===== *)
(** The adaptive task pool (src/go/taskpool/adaptive.go, [adaptivePool]), the
    pool [New] builds: one shard with its ring queue, the population counters
    and the goroutines around it.

    The structure is that of the fixed pool: a worker ([wstate]) or a call of
    [submit], [submitBatch], [shrink], [resize] or [stop] ([sstate]) is a state
    machine whose critical sections are functions on the pool, and [step]
    interleaves them.  What a call does after it has released the lock, signal
    [wake] workers, start [spawn] new ones, broadcast, return, is the state
    [After]. *)
From S2P Require Import Prelude.
From S2P Require Import RingQueue.

Section adaptive.
Context {Task : Type}.

Record adaptivePool := AdaptivePool {
  ring_ : ring Task;
  idle : Z;
  signals : Z;
  fullWaiters : Z;
  minWorkers : Z;
  maxWorkers : Z;
  workers : Z;
  retire : Z;
  lowIdle : Z;
  stopped : bool;
  (** [pending sync.WaitGroup]'s counter *)
  pending : Z;
}.

Definition set_ring (r : ring Task) (p : adaptivePool) : adaptivePool :=
  AdaptivePool r (idle p) (signals p) (fullWaiters p) (minWorkers p) (maxWorkers p) (workers p)
    (retire p) (lowIdle p) (stopped p) (pending p).
Definition set_idle (i s l : Z) (p : adaptivePool) : adaptivePool :=
  AdaptivePool (ring_ p) i s (fullWaiters p) (minWorkers p) (maxWorkers p) (workers p)
    (retire p) l (stopped p) (pending p).
Definition add_fullWaiters (n : Z) (p : adaptivePool) : adaptivePool :=
  AdaptivePool (ring_ p) (idle p) (signals p) (fullWaiters p + n) (minWorkers p) (maxWorkers p) (workers p)
    (retire p) (lowIdle p) (stopped p) (pending p).
Definition add_workers (n : Z) (p : adaptivePool) : adaptivePool :=
  AdaptivePool (ring_ p) (idle p) (signals p) (fullWaiters p) (minWorkers p) (maxWorkers p) (workers p + n)
    (retire p) (lowIdle p) (stopped p) (pending p).
Definition set_range (mn mx : Z) (p : adaptivePool) : adaptivePool :=
  AdaptivePool (ring_ p) (idle p) (signals p) (fullWaiters p) mn mx (workers p)
    (retire p) (lowIdle p) (stopped p) (pending p).
Definition set_retire (n : Z) (p : adaptivePool) : adaptivePool :=
  AdaptivePool (ring_ p) (idle p) (signals p) (fullWaiters p) (minWorkers p) (maxWorkers p) (workers p)
    n (lowIdle p) (stopped p) (pending p).
Definition set_stopped (p : adaptivePool) : adaptivePool :=
  AdaptivePool (ring_ p) (idle p) (signals p) (fullWaiters p) (minWorkers p) (maxWorkers p) (workers p)
    (retire p) (lowIdle p) true (pending p).
Definition add_pending (n : Z) (p : adaptivePool) : adaptivePool :=
  AdaptivePool (ring_ p) (idle p) (signals p) (fullWaiters p) (minWorkers p) (maxWorkers p) (workers p)
    (retire p) (lowIdle p) (stopped p) (pending p + n).

(** A worker: about to lock, parked in [notEmpty.Wait], woken but without the
    lock, holding a task (and whether it will signal [notFull]), running it,
    done with it, out of its loop (and whether it passes its wake-up on), or
    gone. *)
Inductive wstate :=
| WLock
| WParked
| WWoken
| WTook (t : Task) (wakeFull : bool)
| WRun (t : Task)
| WRan (t : Task)
| WLeave (handoff : bool)
| WExited
| WCrash.

Inductive ret := RetBool (b : bool) | RetInt (n : Z) | RetUnit.

Inductive sstate :=
| SLock (t : Task)
| SParked (t : Task)
| SWoken (t : Task)
| BLock (ts : list Task)
| BParked (rest : list Task) (total submitted : Z)
| BWoken (rest : list Task) (total submitted : Z)
| KLock
| RLock (mn mx : Z)
| PLock
| PWait
| PLast
| After (wake spawn : Z) (bcast : bool) (r : ret)
| Done (r : ret).

(** [newAdaptivePool] *)
Definition newAdaptivePool (queueSize : Z) : adaptivePool :=
  AdaptivePool (ring_new (Z.max queueSize 1)) 0 0 0 0 0 0 0 0 false 0.

Definition spawnLocked (p : adaptivePool) : adaptivePool * bool :=
  if maxWorkers p <=? workers p then (p, false) else (add_workers 1 p, true).

Definition claimLocked (p : adaptivePool) : adaptivePool * bool :=
  if idle p =? 0 then (p, false)
  else
    let idle' := idle p - 1 in
    (set_idle idle' (signals p + 1) (Z.min (lowIdle p) idle') p, true).

(** [waitForRoomLocked] up to its [Wait]; the number of workers it starts. *)
Definition waitForRoomLocked (p : adaptivePool) : adaptivePool * Z :=
  let '(p, ok) := spawnLocked p in (add_fullWaiters 1 p, Z.b2z ok).

(** The workers a task just queued asks for: the claim of a parked one, or a
    new one. *)
Definition claim_or_spawn (p : adaptivePool) : adaptivePool * bool * bool :=
  let '(p, wake) := claimLocked p in
  if wake then (p, true, false) else let '(p, spawn) := spawnLocked p in (p, false, spawn).

(** [submit]'s critical section; the last component is how many workers it
    starts before it parks. *)
Definition submit_locked (task : Task) (p : adaptivePool) : adaptivePool * sstate * Z :=
  if negb (stopped p) && (count (ring_ p) =? ring_cap (ring_ p))
  then let '(p, n) := waitForRoomLocked p in (p, SParked task, n)
  else if stopped p then (p, Done (RetBool false), 0)
  else
    let p := add_pending 1 p in
    let p := set_ring (enqueueLocked task (ring_ p)) p in
    let '(p, wake, spawn) := claim_or_spawn p in
    (p, After (Z.b2z wake) (Z.b2z spawn) false (RetBool true), 0).

Definition batch_finish (total submitted wake spawn : Z) (p : adaptivePool) : adaptivePool * sstate :=
  let rejected := total - submitted in
  (if 0 <? rejected then add_pending (- rejected) p else p, After wake spawn false (RetInt submitted)).

(** [submitBatch]'s loop; the last two components are the signals it sends and
    the workers it starts before it parks, still under the lock. *)
Fixpoint batch_loop (rest : list Task) (total submitted wake spawn : Z) (p : adaptivePool)
  : adaptivePool * sstate * Z * Z :=
  match rest with
  | [] => (batch_finish total submitted wake spawn p, 0, 0)
  | task :: rest' =>
      if negb (stopped p) && (count (ring_ p) =? ring_cap (ring_ p))
      then let '(p, n) := waitForRoomLocked p in (p, BParked rest total submitted, wake, spawn + n)
      else if stopped p then (batch_finish total submitted wake spawn p, 0, 0)
      else
        let p := set_ring (enqueueLocked task (ring_ p)) p in
        let '(p, w, s) := claim_or_spawn p in
        batch_loop rest' total (submitted + 1) (wake + Z.b2z w) (spawn + Z.b2z s) p
  end.

Definition batch_locked (ts : list Task) (p : adaptivePool) : adaptivePool * sstate * Z * Z :=
  if stopped p then (p, Done (RetInt 0), 0, 0)
  else batch_loop ts (len ts) 0 0 0 (add_pending (len ts) p).

Definition batch_resumed (rest : list Task) (total submitted : Z) (p : adaptivePool)
  : adaptivePool * sstate * Z * Z :=
  batch_loop rest total submitted 0 0 (add_fullWaiters (-1) p).

Definition exitLocked (p : adaptivePool) : adaptivePool * wstate :=
  let p := add_workers (-1) p in
  if 0 <? count (ring_ p)
  then let '(p, handoff) := claimLocked p in (p, WLeave handoff)
  else (p, WLeave false).

(** The worker's critical section, from the top of its loop. *)
Definition worker_locked (p : adaptivePool) : adaptivePool * wstate :=
  if maxWorkers p <? workers p then exitLocked p
  else if 0 <? count (ring_ p) then
    match dequeue (ring_ p) with
    | Some (task, r) => (set_ring r p, WTook task (0 <? fullWaiters p))
    | None => (p, WCrash)
    end
  else if stopped p then exitLocked p
  else if (0 <? retire p) && (minWorkers p <? workers p) then exitLocked (set_retire (retire p - 1) p)
  else (set_idle (idle p + 1) (signals p) (lowIdle p) p, WParked).

(** Back from [notEmpty.Wait]: take up a claim, or stop being idle. *)
Definition worker_back (p : adaptivePool) : adaptivePool :=
  if 0 <? signals p then set_idle (idle p) (signals p - 1) (lowIdle p) p
  else set_idle (idle p - 1) (signals p) (Z.min (lowIdle p) (idle p - 1)) p.

Definition shrink_locked (p : adaptivePool) : adaptivePool * sstate :=
  let low := lowIdle p in
  let p := set_idle (idle p) (signals p) (idle p) p in
  let surplus := workers p - minWorkers p in
  let rt := if (0 <? low) && (0 <? surplus) && negb (stopped p)
            then Z.min ((low + 1) / 2) surplus else 0 in
  let p := set_retire rt p in
  (p, After (Z.min rt (idle p)) 0 false RetUnit).

(** [resize]'s loop; a round raises [workers], so [mn - workers] rounds are
    enough. *)
Fixpoint resize_loop (fuel : nat) (spawn : Z) (p : adaptivePool) : adaptivePool * Z :=
  match fuel with
  | O => (p, spawn)
  | S fuel =>
      if negb (stopped p) && (workers p <? minWorkers p)
      then let '(p, ok) := spawnLocked p in
           if ok then resize_loop fuel (spawn + 1) p else (p, spawn)
      else (p, spawn)
  end.

Definition resize_locked (mn mx : Z) (p : adaptivePool) : adaptivePool * sstate :=
  let p := set_range mn mx p in
  let '(p, spawn) := resize_loop (Z.to_nat (mn - workers p)) 0 p in
  (p, After 0 spawn (mx <? workers p) RetUnit).

(** * Condition variables *)

Definition w_parked (w : wstate) : bool := match w with WParked => true | _ => false end.
Definition w_woken (w : wstate) : bool := match w with WWoken => true | _ => false end.
Definition s_parked (s : sstate) : bool := match s with SParked _ | BParked _ _ _ => true | _ => false end.
Definition s_woken (s : sstate) : bool := match s with SWoken _ | BWoken _ _ _ => true | _ => false end.
Definition s_stop (s : sstate) : bool := match s with PLock | PWait | PLast => true | _ => false end.

Definition wake_worker (w : wstate) : wstate := if w_parked w then WWoken else w.
Definition wake_submitter (s : sstate) : sstate :=
  match s with SParked t => SWoken t | BParked r t n => BWoken r t n | s => s end.

Inductive signalE : list wstate -> list wstate -> Prop :=
| signalE_one ws i : ws !! i = Some WParked -> signalE ws (<[i := WWoken]> ws)
| signalE_none ws : cnt w_parked ws = 0 -> signalE ws ws.

Inductive signalF : list sstate -> list sstate -> Prop :=
| signalF_one ss i s : ss !! i = Some s -> s_parked s = true -> signalF ss (<[i := wake_submitter s]> ss)
| signalF_none ss : cnt s_parked ss = 0 -> signalF ss ss.

(** * The system *)

Record sys := Sys {
  pool : adaptivePool;
  ws : list wstate;
  ss : list sstate;
  accepted : list Task;
  taken : list Task;
  ran : list Task;
}.

(** A new shard, resized as [newAdaptiveBackend] does before it hands it out. *)
Definition sys_init (mn mx queueSize : Z) : sys :=
  let '(p, s) := resize_locked mn mx (newAdaptivePool queueSize) in Sys p [] [s] [] [] [].

Definition batch_submitted (s : sstate) : Z :=
  match s with
  | BParked _ _ n | BWoken _ _ n | After _ _ _ (RetInt n) | Done (RetInt n) => n
  | _ => 0
  end.

(** [go p.worker()], [n] times. *)
Definition start (n : Z) (w : list wstate) : list wstate := w ++ replicate (Z.to_nat n) WLock.

Definition is_after (s : sstate) : bool := match s with After _ _ _ _ => true | _ => false end.

Inductive step : sys -> sys -> Prop :=
(* calls *)
| step_submit p w s a k r t : step (Sys p w s a k r) (Sys p w (s ++ [SLock t]) a k r)
| step_submitBatch p w s a k r ts : step (Sys p w s a k r) (Sys p w (s ++ [BLock ts]) a k r)
| step_shrink p w s a k r : step (Sys p w s a k r) (Sys p w (s ++ [KLock]) a k r)
| step_resize p w s a k r mn mx :
    0 <= mn <= mx -> 1 <= mx -> step (Sys p w s a k r) (Sys p w (s ++ [RLock mn mx]) a k r)
| step_stop p w s a k r : cnt s_stop s = 0 -> step (Sys p w s a k r) (Sys p w (s ++ [PLock]) a k r)
(* submit *)
| step_submit_lock p w s a k r i t p' s' n :
    s !! i = Some (SLock t) -> submit_locked t p = (p', s', n) ->
    step (Sys p w s a k r)
         (Sys p' (start n w) (<[i := s']> s) (if is_after s' then a ++ [t] else a) k r)
| step_submit_woken p w s a k r i t p' s' n :
    s !! i = Some (SWoken t) -> submit_locked t (add_fullWaiters (-1) p) = (p', s', n) ->
    step (Sys p w s a k r)
         (Sys p' (start n w) (<[i := s']> s) (if is_after s' then a ++ [t] else a) k r)
(* submitBatch *)
| step_batch_lock p w w' s a k r i ts p' s' n m :
    s !! i = Some (BLock ts) -> batch_locked ts p = (p', s', n, m) ->
    nsteps signalE (Z.to_nat n) w w' ->
    step (Sys p w s a k r)
         (Sys p' (start m w') (<[i := s']> s) (a ++ take (Z.to_nat (batch_submitted s')) ts) k r)
| step_batch_woken p w w' s a k r i rest total submitted p' s' n m :
    s !! i = Some (BWoken rest total submitted) ->
    batch_resumed rest total submitted p = (p', s', n, m) ->
    nsteps signalE (Z.to_nat n) w w' ->
    step (Sys p w s a k r)
         (Sys p' (start m w') (<[i := s']> s) (a ++ take (Z.to_nat (batch_submitted s' - submitted)) rest) k r)
(* shrink, resize *)
| step_shrink_lock p w s a k r i p' s' :
    s !! i = Some KLock -> shrink_locked p = (p', s') ->
    step (Sys p w s a k r) (Sys p' w (<[i := s']> s) a k r)
| step_resize_lock p w s a k r i mn mx p' s' :
    s !! i = Some (RLock mn mx) -> resize_locked mn mx p = (p', s') ->
    step (Sys p w s a k r) (Sys p' w (<[i := s']> s) a k r)
(* after the lock is released *)
| step_after_signal p w w' s a k r i wake spawn b v :
    s !! i = Some (After wake spawn b v) -> 0 < wake -> signalE w w' ->
    step (Sys p w s a k r) (Sys p w' (<[i := After (wake - 1) spawn b v]> s) a k r)
| step_after_start p w s a k r i wake spawn b v :
    s !! i = Some (After wake spawn b v) -> wake <= 0 -> 0 < spawn ->
    step (Sys p w s a k r) (Sys p (start 1 w) (<[i := After wake (spawn - 1) b v]> s) a k r)
| step_after_broadcast p w s a k r i wake spawn v :
    s !! i = Some (After wake spawn true v) -> wake <= 0 -> spawn <= 0 ->
    step (Sys p w s a k r) (Sys p (wake_worker <$> w) (<[i := After wake spawn false v]> s) a k r)
| step_after_return p w s a k r i wake spawn v :
    s !! i = Some (After wake spawn false v) -> wake <= 0 -> spawn <= 0 ->
    step (Sys p w s a k r) (Sys p w (<[i := Done v]> s) a k r)
(* workers *)
| step_worker_lock p w s a k r i p' w' :
    w !! i = Some WLock -> worker_locked p = (p', w') ->
    step (Sys p w s a k r)
         (Sys p' (<[i := w']> w) s a (match w' with WTook t _ => k ++ [t] | _ => k end) r)
| step_worker_woken p w s a k r i p' w' :
    w !! i = Some WWoken -> worker_locked (worker_back p) = (p', w') ->
    step (Sys p w s a k r)
         (Sys p' (<[i := w']> w) s a (match w' with WTook t _ => k ++ [t] | _ => k end) r)
| step_worker_signal p w s s' a k r i t wf :
    w !! i = Some (WTook t wf) -> (if wf then signalF s s' else s' = s) ->
    step (Sys p w s a k r) (Sys p (<[i := WRun t]> w) s' a k r)
| step_worker_run p w s a k r i t :
    w !! i = Some (WRun t) ->
    step (Sys p w s a k r) (Sys p (<[i := WRan t]> w) s a k (r ++ [t]))
| step_worker_done p w s a k r i t :
    w !! i = Some (WRan t) ->
    step (Sys p w s a k r) (Sys (add_pending (-1) p) (<[i := WLock]> w) s a k r)
| step_worker_leave p w w' s a k r i h :
    w !! i = Some (WLeave h) -> (if h then signalE (<[i := WExited]> w) w' else w' = <[i := WExited]> w) ->
    step (Sys p w s a k r) (Sys p w' s a k r)
(* stop *)
| step_stop_lock p w s a k r i :
    s !! i = Some PLock ->
    step (Sys p w s a k r)
         (Sys (set_stopped p) (wake_worker <$> w) (wake_submitter <$> <[i := PWait]> s) a k r)
| step_stop_wait p w s a k r i :
    s !! i = Some PWait -> pending p = 0 ->
    step (Sys p w s a k r) (Sys p w (<[i := PLast]> s) a k r)
| step_stop_last p w s a k r i :
    s !! i = Some PLast ->
    step (Sys p w s a k r) (Sys p (wake_worker <$> w) (<[i := Done RetUnit]> s) a k r).

(** * Invariant *)

(** Workers that count: from [spawnLocked] to [exitLocked]. *)
Definition w_live (w : wstate) : bool :=
  match w with WLock | WParked | WWoken | WTook _ _ | WRun _ | WRan _ => true | _ => false end.
Definition w_holds (w : wstate) : bool := match w with WTook _ _ | WRun _ | WRan _ => true | _ => false end.
Definition w_crashed (w : wstate) : bool := match w with WCrash => true | _ => false end.
Definition w_signalsF (w : wstate) : bool := match w with WTook _ true => true | _ => false end.
Definition w_signalsE (w : wstate) : bool := match w with WLeave true => true | _ => false end.
Definition w_task (w : wstate) : list Task := match w with WTook t _ | WRun t => [t] | _ => [] end.

Definition s_signals (s : sstate) : Z := match s with After n _ _ _ => Z.max 0 n | _ => 0 end.
(** Workers reserved and not started. *)
Definition s_spawns (s : sstate) : Z := match s with After _ n _ _ => Z.max 0 n | _ => 0 end.
Definition s_reserved (s : sstate) : Z :=
  match s with BParked r _ _ | BWoken r _ _ => len r | _ => 0 end.
Definition s_wf (s : sstate) : Prop :=
  match s with
  | BParked r t n | BWoken r t n => r <> [] /\ t - n = len r
  | RLock mn mx => 0 <= mn <= mx /\ 1 <= mx
  | _ => True
  end.

Record inv (st : sys) : Prop := {
  i_fifo : exists l, accepted st = taken st ++ l /\ ring_rep (ring_ (pool st)) l;
  i_once : taken st ≡ₚ ran st ++ (ws st ≫= w_task);
  i_wait : idle (pool st) + signals (pool st) = cnt w_parked (ws st) + cnt w_woken (ws st);
  i_workers : workers (pool st) = cnt w_live (ws st) + total s_spawns (ss st);
  i_idle : 0 <= lowIdle (pool st) <= idle (pool st);
  i_claims : 0 <= signals (pool st) <=
    total s_signals (ss st) + cnt w_signalsE (ws st) + cnt w_woken (ws st);
  i_retire : 0 <= retire (pool st);
  i_range : 0 <= minWorkers (pool st) <= maxWorkers (pool st) /\ 1 <= maxWorkers (pool st);
  i_work : 0 < count (ring_ (pool st)) -> idle (pool st) < workers (pool st);
  i_floor : stopped (pool st) = false -> minWorkers (pool st) <= workers (pool st);
  i_fullWaiters : fullWaiters (pool st) = cnt s_parked (ss st) + cnt s_woken (ss st);
  i_pending : pending (pool st) =
    count (ring_ (pool st)) + cnt w_holds (ws st) + total s_reserved (ss st);
  i_wakeF : 0 < cnt s_parked (ss st) ->
    ring_cap (ring_ (pool st)) - count (ring_ (pool st)) <=
    cnt w_signalsF (ws st) + cnt s_woken (ss st);
  i_stop : stopped (pool st) = true -> cnt w_parked (ws st) = 0 /\ cnt s_parked (ss st) = 0;
  i_crash : cnt w_crashed (ws st) = 0;
  i_wf : Forall s_wf (ss st);
}.

(** * What a wake-up changes *)

Record wokeE (k : Z) (w w' : list wstate) : Prop := {
  we_parked : cnt w_parked w' = cnt w_parked w - k;
  we_woken : cnt w_woken w' = cnt w_woken w + k;
  we_live : cnt w_live w' = cnt w_live w;
  we_holds : cnt w_holds w' = cnt w_holds w;
  we_signalsF : cnt w_signalsF w' = cnt w_signalsF w;
  we_signalsE : cnt w_signalsE w' = cnt w_signalsE w;
  we_crashed : cnt w_crashed w' = cnt w_crashed w;
  we_task : w' ≫= w_task = w ≫= w_task;
}.

Record wokeF (k : Z) (s s' : list sstate) : Prop := {
  wf_parked : cnt s_parked s' = cnt s_parked s - k;
  wf_woken : cnt s_woken s' = cnt s_woken s + k;
  wf_signals : total s_signals s' = total s_signals s;
  wf_spawns : total s_spawns s' = total s_spawns s;
  wf_reserved : total s_reserved s' = total s_reserved s;
  wf_wf : Forall s_wf s -> Forall s_wf s';
}.

Lemma a_wokeE_refl w : wokeE 0 w w.
Proof. constructor; lia || done. Qed.
Lemma a_wokeF_refl s : wokeF 0 s s.
Proof. constructor; lia || done. Qed.

Lemma a_wokeE_trans k1 k2 w1 w2 w3 : wokeE k1 w1 w2 -> wokeE k2 w2 w3 -> wokeE (k1 + k2) w1 w3.
Proof. intros [] []. constructor; lia || congruence. Qed.

Lemma a_signalE_woke w w' : signalE w w' -> wokeE (Z.min 1 (cnt w_parked w)) w w'.
Proof.
  intros [? i Hi|? Hz].
  - pose proof (cnt_lookup_pos w_parked _ i _ Hi eq_refl).
    rewrite Z.min_l by lia.
    constructor; rewrite ?(cnt_insert _ _ _ _ _ Hi); cbn; try lia.
    by apply (bind_insert_same _ _ _ _ _ Hi).
  - rewrite Hz. apply a_wokeE_refl.
Qed.

Lemma a_signalE_n_woke n w w' :
  nsteps signalE n w w' -> wokeE (Z.min (Z.of_nat n) (cnt w_parked w)) w w'.
Proof.
  pose proof (cnt_nonneg w_parked w).
  intros Hn. induction Hn as [w|n w1 w2 w3 H1%a_signalE_woke _ IH].
  - rewrite Z.min_l by lia. apply a_wokeE_refl.
  - pose proof (cnt_nonneg w_parked w2). specialize (IH ltac:(done)).
    pose proof (a_wokeE_trans _ _ _ _ _ H1 IH) as Ht. rewrite (we_parked _ _ _ H1) in Ht.
    replace (Z.of_nat (S n) `min` cnt w_parked w1) with
      (1 `min` cnt w_parked w1 + Z.of_nat n `min` (cnt w_parked w1 - 1 `min` cnt w_parked w1)) by lia.
    done.
Qed.

Lemma a_broadcastE_woke w : wokeE (cnt w_parked w) w (wake_worker <$> w).
Proof.
  induction w as [|x w [? ? ? ? ? ? ? ?]]; [apply a_wokeE_refl|].
  constructor; try (destruct x; cbn; unfold fmap in *; lia).
  destruct x; cbn; unfold mbind, fmap in *; congruence.
Qed.

Lemma a_signalF_woke s s' : signalF s s' -> wokeF (Z.min 1 (cnt s_parked s)) s s'.
Proof.
  intros [? i x Hi Hp|? Hz].
  - pose proof (cnt_lookup_pos s_parked _ i _ Hi Hp).
    rewrite Z.min_l by lia.
    constructor; rewrite ?(cnt_insert _ _ _ _ _ Hi), ?(total_insert _ _ _ _ _ Hi);
      try (destruct x; cbn in *; (lia || done)).
    intros Hw. apply Forall_insert; [done|].
    pose proof (Forall_lookup_1 _ _ _ _ Hw Hi). by destruct x.
  - rewrite Hz. apply a_wokeF_refl.
Qed.

Lemma a_broadcastF_woke s : wokeF (cnt s_parked s) s (wake_submitter <$> s).
Proof.
  induction s as [|x s [? ? ? ? ? Hw]]; [apply a_wokeF_refl|].
  constructor; try (destruct x; cbn; unfold fmap in *; lia).
  intros [Hx Hs]%Forall_cons. rewrite fmap_cons. constructor; [by destruct x|auto].
Qed.

(** Starting workers only adds [WLock]s. *)
Lemma start_cnt (f : wstate -> bool) n w :
  0 <= n -> cnt f (start n w) = cnt f w + n * Z.b2z (f WLock).
Proof.
  intros Hn. unfold start. rewrite cnt_app. f_equal.
  assert (forall m, cnt f (replicate m WLock) = Z.of_nat m * Z.b2z (f WLock)) as ->.
  { induction m as [|m IH]; [done|]. cbn. rewrite IH. lia. }
  by rewrite Z2Nat.id.
Qed.

Lemma start_task n w : start n w ≫= w_task = w ≫= w_task.
Proof.
  unfold start. rewrite bind_app.
  assert (forall m, replicate m WLock ≫= w_task = []) as -> by (by induction m).
  by rewrite app_nil_r.
Qed.

(** * What a critical section does *)

(** The counters of [p'] are those of [p] moved by the given amounts. *)
Record delta (p p' : adaptivePool) (di ds dw df dp : Z) : Prop := {
  d_idle : idle p' = idle p + di;
  d_signals : signals p' = signals p + ds;
  d_workers : workers p' = workers p + dw;
  d_full : fullWaiters p' = fullWaiters p + df;
  d_pending : pending p' = pending p + dp;
  d_min : minWorkers p' = minWorkers p;
  d_max : maxWorkers p' = maxWorkers p;
  d_stopped : stopped p' = stopped p;
  d_low : 0 <= lowIdle p <= idle p -> 0 <= idle p' -> 0 <= lowIdle p' <= idle p';
  d_retire : 0 <= retire p -> 0 <= retire p';
}.

Lemma delta_refl p : delta p p 0 0 0 0 0.
Proof. constructor; lia || done. Qed.

Lemma claimLocked_spec p :
  0 <= idle p ->
  exists p' b, claimLocked p = (p', b) /\ delta p p' (- Z.b2z b) (Z.b2z b) 0 0 0 /\
    ring_ p' = ring_ p /\ (if b then 0 < idle p else idle p = 0).
Proof.
  intros Hi. unfold claimLocked. destruct (Z.eqb_spec (idle p) 0).
  - exists p, false. split_and!; [done|apply delta_refl|done|done].
  - eexists _, true. split_and!; [done| |done|cbn; lia]. constructor; cbn; lia || done.
Qed.

Lemma spawnLocked_spec p :
  exists p' b, spawnLocked p = (p', b) /\ delta p p' 0 0 (Z.b2z b) 0 0 /\ ring_ p' = ring_ p /\
    (if b then workers p < maxWorkers p else maxWorkers p <= workers p).
Proof.
  unfold spawnLocked. destruct (Z.leb_spec (maxWorkers p) (workers p)).
  - exists p, false. split_and!; [done|apply delta_refl|done|done].
  - eexists _, true. split_and!; [done| |done|done]. constructor; cbn; lia || done.
Qed.

Lemma waitForRoomLocked_spec p :
  exists p' n, waitForRoomLocked p = (p', n) /\ delta p p' 0 0 n 1 0 /\ ring_ p' = ring_ p /\ 0 <= n <= 1 /\
    (0 < n -> workers p < maxWorkers p).
Proof.
  unfold waitForRoomLocked. destruct (spawnLocked_spec p) as (p' & b & -> & [] & Hr & Hb).
  eexists _, _. split; [done|]. split; [constructor; cbn; lia || done|]. split; [done|].
  destruct b; cbn in *; split; lia.
Qed.

Lemma claim_or_spawn_spec p :
  0 <= idle p <= workers p -> 1 <= maxWorkers p ->
  exists p' w s, claim_or_spawn p = (p', w, s) /\ delta p p' (- Z.b2z w) (Z.b2z w) (Z.b2z s) 0 0 /\
    ring_ p' = ring_ p /\ w && s = false /\ 0 <= idle p' < workers p' /\
    (s = true -> workers p < maxWorkers p).
Proof.
  intros Hi Hm. unfold claim_or_spawn.
  destruct (claimLocked_spec p ltac:(lia)) as (p1 & b & -> & [] & Hr & Hb). destruct b; cbn in *.
  - eexists _, _, _. split; [done|]. split_and!; cbn; try (done || lia).
  - destruct (spawnLocked_spec p1) as (p2 & b & -> & [] & Hr2 & Hb2).
    eexists _, _, _. split; [done|].
    split_and!; cbn; try (done || (destruct b; cbn in *; lia) || congruence).
    constructor; cbn; lia || auto with lia || congruence.
Qed.

Lemma delta_trans p1 p2 p3 a1 a2 a3 a4 a5 b1 b2 b3 b4 b5 :
  delta p1 p2 a1 a2 a3 a4 a5 -> delta p2 p3 b1 b2 b3 b4 b5 -> 0 <= idle p2 ->
  delta p1 p3 (a1 + b1) (a2 + b2) (a3 + b3) (a4 + b4) (a5 + b5).
Proof. intros [] [] ?. constructor; lia || congruence || auto. Qed.

(** Filling the ring does not move the counters. *)
Lemma delta_ring r p : delta p (set_ring r p) 0 0 0 0 0.
Proof. constructor; cbn; lia || done. Qed.

Lemma delta_pending n p : delta p (add_pending n p) 0 0 0 0 n.
Proof. constructor; cbn; lia || done. Qed.

Lemma delta_fullWaiters n p : delta p (add_fullWaiters n p) 0 0 0 n 0.
Proof. constructor; cbn; lia || done. Qed.

Lemma delta_eq p p' a1 a2 a3 a4 a5 b1 b2 b3 b4 b5 :
  delta p p' a1 a2 a3 a4 a5 -> a1 = b1 -> a2 = b2 -> a3 = b3 -> a4 = b4 -> a5 = b5 ->
  delta p p' b1 b2 b3 b4 b5.
Proof. by intros ? -> -> -> -> ->. Qed.

Lemma a_submit_locked_spec p l t :
  ring_rep (ring_ p) l -> 0 <= idle p <= workers p -> 1 <= maxWorkers p ->
  exists p' s' n, submit_locked t p = (p', s', n) /\ 0 <= n <= 1 /\
  ((stopped p = false /\ len l = ring_cap (ring_ p) /\ s' = SParked t /\ ring_ p' = ring_ p /\
    delta p p' 0 0 n 1 0 /\ workers p + n <= Z.max (workers p) (maxWorkers p)) \/
   (stopped p = true /\ n = 0 /\ s' = Done (RetBool false) /\ p' = p) \/
   (stopped p = false /\ n = 0 /\ exists w s, ring_rep (ring_ p') (l ++ [t]) /\ ring_cap (ring_ p') = ring_cap (ring_ p) /\
     s' = After (Z.b2z w) (Z.b2z s) false (RetBool true) /\ w && s = false /\
     delta p p' (- Z.b2z w) (Z.b2z w) (Z.b2z s) 0 1 /\ 0 <= idle p' < workers p' /\
     workers p + Z.b2z s <= Z.max (workers p) (maxWorkers p))).
Proof.
  intros Hr Hi Hm. pose proof (rep_count _ _ Hr) as Hc. unfold submit_locked. rewrite Hc.
  destruct (stopped p) eqn:Hs; cbn -[waitForRoomLocked claim_or_spawn].
  { eexists _, _, _. split; [done|]. split; [lia|]. right. left. done. }
  destruct (Z.eqb_spec (len l) (ring_cap (ring_ p))).
  { destruct (waitForRoomLocked_spec p) as (p' & n & -> & Hd & Hr' & Hn & Hroom).
    eexists _, _, _. split; [done|]. split; [done|]. left. split_and!; try done. lia. }
  set (p1 := set_ring _ (add_pending 1 p)).
  pose proof (rep_room _ _ Hr).
  assert (Hr1 : ring_rep (ring_ p1) (l ++ [t])) by (apply enqueue_rep; [done|lia]).
  destruct (claim_or_spawn_spec p1 Hi Hm) as (p' & w & s & -> & Hd & Hr' & Hws & Hlt & Hroom).
  eexists _, _, _. split; [done|]. split; [lia|]. right. right. split; [done|]. split; [done|].
  exists w, s. rewrite Hr'. split_and!; try done; try lia.
  - apply enqueue_cap.
  - eapply delta_eq; [eapply delta_trans; [apply (delta_pending 1)|
      eapply delta_trans; [apply (delta_ring (enqueueLocked t (ring_ p)))|exact Hd|cbn; lia]|cbn; lia]|lia..].
  - destruct s; [specialize (Hroom eq_refl)|]; cbn in *; lia.
Qed.

(** A run of [submitBatch]'s loop enqueues [dn] and keeps [left], having
    claimed [w] parked workers and reserved [s] new ones. *)
Inductive batch_outcome (p : adaptivePool) (total submitted wake spawn : Z) (dn left : list Task) (w s : Z)
  : adaptivePool * sstate * Z * Z -> Prop :=
| batch_parks p' n :
    stopped p = false -> left <> [] -> count (ring_ p') = ring_cap (ring_ p') -> 0 <= n <= 1 ->
    delta p p' (- w) w (s + n) 1 0 -> workers p + s + n <= Z.max (workers p) (maxWorkers p) ->
    batch_outcome p total submitted wake spawn dn left w s
      (p', BParked left total (submitted + len dn), wake + w, spawn + s + n)
| batch_leaves p' :
    (stopped p = true -> dn = []) -> (stopped p = false -> left = []) ->
    delta p p' (- w) w s 0 (- len left) -> workers p + s <= Z.max (workers p) (maxWorkers p) ->
    batch_outcome p total submitted wake spawn dn left w s
      (p', After (wake + w) (spawn + s) false (RetInt (submitted + len dn)), 0, 0).

Lemma a_batch_finish_spec total submitted wake spawn p (left : list Task) :
  total - submitted = len left ->
  batch_finish total submitted wake spawn p =
    (add_pending (- len left) p, After wake spawn false (RetInt submitted)).
Proof.
  intros E. unfold batch_finish. rewrite E. pose proof (len_nonneg left).
  destruct (Z.ltb_spec 0 (len left)); [done|]. unfold add_pending. destruct p; cbn. repeat f_equal. lia.
Qed.

Lemma a_batch_loop_spec rest total submitted wake spawn p l :
  ring_rep (ring_ p) l -> total - submitted = len rest -> 0 <= idle p <= workers p -> 1 <= maxWorkers p ->
  exists dn left w s, rest = dn ++ left /\
    ring_rep (ring_ (batch_loop rest total submitted wake spawn p).1.1.1) (l ++ dn) /\
    ring_cap (ring_ (batch_loop rest total submitted wake spawn p).1.1.1) = ring_cap (ring_ p) /\
    0 <= w /\ 0 <= s /\ w + s <= len dn /\
    (dn <> [] -> 0 <= idle p - w < workers p + s) /\ (dn = [] -> w = 0 /\ s = 0) /\
    batch_outcome p total submitted wake spawn dn left w s (batch_loop rest total submitted wake spawn p).
Proof.
  revert submitted wake spawn p l. induction rest as [|t rest IH]; intros submitted wake spawn p l Hr Ht Hi Hm; cbn [batch_loop].
  - exists [], [], 0, 0. rewrite ?(app_nil_r l), (@len_nil Task).
    rewrite (a_batch_finish_spec _ _ _ _ _ [] Ht). cbn [fst snd ring_ add_pending]. split_and!; try done.
    pose proof (batch_leaves p total submitted wake spawn [] [] 0 0 (add_pending (- len (@nil Task)) p)) as H.
    rewrite (@len_nil Task), !Z.add_0_r in *. apply H; [done|done|apply delta_pending|lia].
  - destruct (stopped p) eqn:Hs; cbn [negb andb].
    { exists [], (t :: rest), 0, 0. rewrite ?(app_nil_r l), (@len_nil Task).
      rewrite (a_batch_finish_spec _ _ _ _ _ _ Ht). cbn [fst snd ring_ add_pending]. split_and!; try done.
      pose proof (batch_leaves p total submitted wake spawn [] (t :: rest) 0 0 (add_pending (- len (t :: rest)) p)) as H.
      rewrite (@len_nil Task), !Z.add_0_r in *. apply H; [done|congruence|apply delta_pending|lia]. }
    destruct (Z.eqb_spec (count (ring_ p)) (ring_cap (ring_ p))) as [Hc|Hc].
    { destruct (waitForRoomLocked_spec p) as (p' & n & -> & Hd & Hr' & Hn & Hroom).
      exists [], (t :: rest), 0, 0. rewrite ?(app_nil_r l), (@len_nil Task). cbn [fst snd]. rewrite Hr'. split_and!; try done.
      pose proof (batch_parks p total submitted wake spawn [] (t :: rest) 0 0 p' n) as H.
      rewrite (@len_nil Task), !Z.add_0_r, Hr' in *. apply H; try done. lia. }
    rewrite len_cons in Ht. pose proof (rep_room _ _ Hr). pose proof (rep_count _ _ Hr).
    set (p1 := set_ring (enqueueLocked t (ring_ p)) p).
    assert (Hr1 : ring_rep (ring_ p1) (l ++ [t])) by (apply enqueue_rep; [done|lia]).
    destruct (claim_or_spawn_spec p1 Hi Hm) as (p2 & w0 & s0 & -> & Hd & Hr2 & Hws & Hlt & Hroom).
    pose proof (delta_trans _ _ _ _ _ _ _ _ _ _ _ _ _ (delta_ring (enqueueLocked t (ring_ p)) p) Hd ltac:(cbn; lia)) as Hd'. pose proof Hd' as Hd''.
    rewrite <- Hr2 in Hr1.
    destruct (IH (submitted + 1) (wake + Z.b2z w0) (spawn + Z.b2z s0) p2 (l ++ [t]) Hr1 ltac:(lia) ltac:(lia)
                ltac:(destruct Hd'; lia)) as (dn & left & w & s & -> & Hr' & Hcap & Hw & Hs' & Hle & Hlt' & Hz & Hout).
    exists (t :: dn), left, (Z.b2z w0 + w), (Z.b2z s0 + s). rewrite len_cons.
    assert (0 <= Z.b2z w0 /\ 0 <= Z.b2z s0 /\ Z.b2z w0 + Z.b2z s0 <= 1) by (destruct w0, s0; done || (cbn; lia)).
    split_and!; try lia; try done.
    + by rewrite <- (assoc_L (++)) in Hr'.
    + rewrite Hcap, Hr2. apply enqueue_cap.
    + destruct Hd'. destruct dn; [destruct (Hz eq_refl); lia|]. destruct (Hlt' ltac:(done)). lia.
    + assert (workers p + Z.b2z s0 <= Z.max (workers p) (maxWorkers p))
        by (destruct s0; [specialize (Hroom eq_refl)|]; cbn in *; lia).
      inversion Hout as [p' n ? ? ? ? Hd2 Hc2 E|p' Hst1 Hst2 Hd2 Hc2 E].
      * replace (submitted + 1 + len dn) with (submitted + len (t :: dn)) by (rewrite len_cons; lia).
        replace (wake + Z.b2z w0 + w) with (wake + (Z.b2z w0 + w)) by lia.
        replace (spawn + Z.b2z s0 + s + n) with (spawn + (Z.b2z s0 + s) + n) by lia.
        constructor; try done; [|destruct Hd'; lia].
        eapply delta_eq; [eapply delta_trans; [exact Hd'|exact Hd2|lia]|lia..].
      * replace (submitted + 1 + len dn) with (submitted + len (t :: dn)) by (rewrite len_cons; lia).
        replace (wake + Z.b2z w0 + w) with (wake + (Z.b2z w0 + w)) by lia.
        replace (spawn + Z.b2z s0 + s) with (spawn + (Z.b2z s0 + s)) by lia.
        destruct Hd' as [? ? ? ? ? ? ? Hst]. rewrite Hst in *.
        constructor; try done; [congruence| |lia].
        eapply delta_eq; [eapply delta_trans; [exact Hd''|exact Hd2|lia]|lia..].
Qed.

Lemma exitLocked_spec p :
  0 <= idle p ->
  exists p' h, exitLocked p = (p', WLeave h) /\ delta p p' (- Z.b2z h) (Z.b2z h) (-1) 0 0 /\
    ring_ p' = ring_ p /\ (0 < count (ring_ p) -> h = false -> idle p = 0) /\ Z.b2z h <= idle p.
Proof.
  intros Hi. unfold exitLocked. cbn [ring_ add_workers].
  assert (Hw : delta p (add_workers (-1) p) 0 0 (-1) 0 0) by (constructor; cbn; lia || done).
  destruct (Z.ltb_spec 0 (count (ring_ p))).
  - destruct (claimLocked_spec (add_workers (-1) p) Hi) as (p' & h & -> & Hd & Hr & Hb).
    exists p', h. split_and!; [done| |done| |].
    + eapply delta_eq; [eapply delta_trans; [exact Hw|exact Hd|done]|lia..].
    + intros _ ->. done.
    + destruct h; cbn in *; lia.
  - exists (add_workers (-1) p), false. split_and!; [done|done|done| |]; cbn; lia.
Qed.

Lemma a_worker_locked_spec p l :
  ring_rep (ring_ p) l -> 0 <= idle p ->
  (exists p' h, worker_locked p = (p', WLeave h) /\ delta p p' (- Z.b2z h) (Z.b2z h) (-1) 0 0 /\
     ring_ p' = ring_ p /\ (0 < len l -> h = false -> idle p = 0) /\ Z.b2z h <= idle p /\
     (maxWorkers p < workers p \/ l = [] /\ (stopped p = true \/ minWorkers p < workers p))) \/
  (exists t l' p', l = t :: l' /\ worker_locked p = (p', WTook t (0 <? fullWaiters p)) /\
     ring_rep (ring_ p') l' /\ ring_cap (ring_ p') = ring_cap (ring_ p) /\ delta p p' 0 0 0 0 0) \/
  (exists p', l = [] /\ stopped p = false /\ worker_locked p = (p', WParked) /\ ring_ p' = ring_ p /\
     delta p p' 1 0 0 0 0).
Proof.
  intros Hr Hi. pose proof (rep_count _ _ Hr) as Hc. unfold worker_locked. rewrite Hc.
  destruct (Z.ltb_spec (maxWorkers p) (workers p)).
  { left. destruct (exitLocked_spec p Hi) as (p' & h & -> & Hd & Hr' & Hh & Hb). rewrite Hc in Hh.
    exists p', h. split_and!; auto. }
  destruct l as [|t l'].
  - rewrite (@len_nil Task). cbn [Z.ltb Z.compare].
    destruct (stopped p) eqn:Hs.
    { left. destruct (exitLocked_spec p Hi) as (p' & h & -> & Hd & Hr' & Hh & Hb).
      rewrite Hc, (@len_nil Task) in Hh. exists p', h. split_and!; auto. }
    destruct (Z.ltb_spec 0 (retire p)); cbn [andb].
    + destruct (Z.ltb_spec (minWorkers p) (workers p)).
      * left. destruct (exitLocked_spec (set_retire (retire p - 1) p) Hi) as (p' & h & -> & Hd & Hr' & Hh & Hb).
        cbn [ring_ set_retire] in Hh. rewrite Hc, (@len_nil Task) in Hh. exists p', h. split_and!; auto.
        assert (Hd0 : delta p (set_retire (retire p - 1) p) 0 0 0 0 0) by (constructor; cbn; lia || done).
        eapply delta_eq; [eapply delta_trans; [exact Hd0|exact Hd|done]|lia..].
      * right. right. eexists. split_and!; [done|done|done|done|]. constructor; cbn; lia || done.
    + right. right. eexists. split_and!; [done|done|done|done|]. constructor; cbn; lia || done.
  - right. left. destruct (dequeue_rep _ _ _ Hr) as (r & -> & Hr' & Hcap).
    rewrite len_cons. pose proof (len_nonneg l').
    destruct (Z.ltb_spec 0 (1 + len l')); [|lia]. exists t, l', (set_ring r p).
    split_and!; try done. apply delta_ring.
Qed.

Lemma worker_back_spec p :
  0 <= signals p -> exists b, delta p (worker_back p) (- (1 - Z.b2z b)) (- Z.b2z b) 0 0 0 /\
    ring_ (worker_back p) = ring_ p /\ (if b then 0 < signals p else signals p = 0).
Proof.
  intros Hs. unfold worker_back. destruct (Z.ltb_spec 0 (signals p)); [exists true|exists false].
  all: split_and!; try done; try lia; constructor; cbn; lia || done.
Qed.

Lemma resize_loop_spec fuel spawn p :
  0 <= spawn -> 0 <= idle p -> minWorkers p <= maxWorkers p -> (Z.to_nat (minWorkers p - workers p) <= fuel)%nat ->
  exists p' n, resize_loop fuel spawn p = (p', spawn + n) /\ 0 <= n /\ delta p p' 0 0 n 0 0 /\
    ring_ p' = ring_ p /\ (stopped p = false -> minWorkers p <= workers p') /\
    (0 < n -> workers p' <= maxWorkers p).
Proof.
  revert spawn p. induction fuel as [|fuel IH]; intros spawn p Hsp Hidle Hm Hf; cbn.
  - exists p, 0. rewrite Z.add_0_r. split_and!; try done; try lia. apply delta_refl.
  - destruct (stopped p) eqn:Hs; cbn.
    { exists p, 0. rewrite Z.add_0_r. split_and!; try done; try lia. apply delta_refl. }
    destruct (Z.ltb_spec (workers p) (minWorkers p)).
    2: { exists p, 0. rewrite Z.add_0_r. split_and!; try done; try lia. apply delta_refl. }
    destruct (spawnLocked_spec p) as (p1 & b & -> & Hd & Hr & Hb).
    destruct b; [|lia]. pose proof Hd as [? ? Hw ? ? Hmin Hmax Hst _ _]. cbn in Hw.
    destruct (IH (spawn + 1) p1) as (p' & n & -> & Hn & Hd' & Hr' & Hfl & Hce); [lia..|].
    exists p', (1 + n). split_and!; [f_equal; lia|lia| |congruence| |].
    + eapply delta_eq; [eapply delta_trans; [exact Hd|exact Hd'|lia]|cbn; lia..].
    + intros _. rewrite <- Hmin. apply Hfl. congruence.
    + intros _. destruct (Z.eq_dec n 0) as [->|]; [destruct Hd'; lia|]. rewrite <- Hmax. apply Hce. lia.
Qed.

(** * The invariant is preserved *)

Ltac sys_cbn :=
  cbn [pool ws ss accepted taken ran ring_ idle signals fullWaiters minWorkers maxWorkers workers retire
       lowIdle stopped pending set_ring set_idle add_fullWaiters add_workers set_range set_retire
       set_stopped add_pending w_parked w_woken w_live w_holds w_signalsF w_signalsE w_crashed w_task
       s_parked s_woken s_signals s_spawns s_reserved s_wf Z.b2z batch_submitted is_after] in *.

Ltac sys_counts :=
  repeat match goal with
  | H : ?w !! ?i = Some _ |- context [cnt _ (<[?i := _]> ?w)] => rewrite (cnt_insert _ _ _ _ _ H)
  | H : ?w !! ?i = Some _ |- context [total _ (<[?i := _]> ?w)] => rewrite (total_insert _ _ _ _ _ H)
  | |- context [cnt _ (start _ _)] => rewrite start_cnt by lia
  end;
  rewrite ?cnt_app, ?total_app, ?start_task; cbn [cnt total]; sys_cbn.

Lemma a_s_signals_nonneg s : 0 <= s_signals s.
Proof. destruct s; cbn; lia. Qed.
Lemma s_spawns_nonneg s : 0 <= s_spawns s.
Proof. destruct s; cbn; lia. Qed.

Ltac sys_nonneg w s :=
  pose proof (cnt_nonneg w_parked w); pose proof (cnt_nonneg w_woken w);
  pose proof (cnt_nonneg w_signalsF w); pose proof (cnt_nonneg w_signalsE w);
  pose proof (cnt_nonneg s_parked s); pose proof (cnt_nonneg s_woken s);
  pose proof (total_nonneg s_signals s a_s_signals_nonneg);
  pose proof (total_nonneg s_spawns s s_spawns_nonneg).

Ltac sys_solve :=
  try first [ lia | done | (intros; split; lia) | (intros; exfalso; (lia || congruence))
            | (apply Forall_insert; by auto)
            | (let H := fresh in intros H;
               match goal with I : _ = false -> _ <= _ |- _ => specialize (I ltac:(congruence)) end; lia)
            | (let H := fresh in intros H;
               repeat match goal with I : _ -> _ /\ _ |- _ =>
                 let J := fresh in assert (J := I ltac:(first [done | lia | congruence])); clear I; destruct J end;
               first [done | lia | split; (done || lia)]) ].

(** Parked and woken workers are live ones. *)
Lemma waiting_live w : cnt w_parked w + cnt w_woken w <= cnt w_live w.
Proof. induction w as [|[] w IH]; cbn; lia. Qed.

Lemma inv_idle_workers st : inv st -> idle (pool st) + signals (pool st) <= workers (pool st).
Proof.
  intros []. pose proof (waiting_live (ws st)). pose proof (total_nonneg s_spawns (ss st) s_spawns_nonneg). lia.
Qed.

Lemma a_inv_same_pool p w s a k r w' s' j :
  inv (Sys p w s a k r) -> wokeE j w w' -> 0 <= j ->
  cnt s_parked s' = cnt s_parked s -> cnt s_woken s' = cnt s_woken s ->
  total s_reserved s' = total s_reserved s -> total s_spawns s' = total s_spawns s ->
  total s_signals s' >= total s_signals s - j \/ cnt w_parked w' = 0 ->
  Forall s_wf s' ->
  inv (Sys p w' s' a k r).
Proof.
  intros [] [] ? ? ? ? ? Hs ?. sys_cbn. sys_nonneg w s. sys_nonneg w' s'.
  constructor; sys_cbn; sys_solve. by rewrite we_task0.
Qed.

Lemma a_inv_worker p w s a k r i x p' w' :
  inv (Sys p w s a k r) -> w !! i = Some x -> x = WLock \/ x = WWoken ->
  worker_locked (if w_woken x then worker_back p else p) = (p', w') ->
  inv (Sys p' (<[i := w']> w) s a (match w' with WTook t _ => k ++ [t] | _ => k end) r).
Proof.
  intros Hinv Hi Hx Hl. pose proof (inv_idle_workers _ Hinv) as Hiw.
  destruct Hinv as [[l [Ha Hr]] Ho]. sys_cbn. sys_nonneg w s. pose proof (rep_count _ _ Hr) as Hc.
  assert (Hwk : Z.b2z (w_woken x) <= cnt w_woken w).
  { destruct Hx as [-> | ->]; cbn; [done|]. by apply (cnt_lookup_pos _ _ _ _ Hi). }
  assert (Ht : w_task x = []) by (destruct Hx as [-> | ->]; done).
  set (p1 := if w_woken x then worker_back p else p) in *.
  assert (exists di ds, delta p p1 di ds 0 0 0 /\ ring_ p1 = ring_ p /\
    0 <= idle p1 /\ 0 <= signals p1 /\ di + ds = - Z.b2z (w_woken x) /\ di <= 0 /\ ds <= 0 /\ (ds = 0 -> w_woken x = true -> signals p = 0))
    as (di & ds & Hd1 & E1 & Hi1 & Hs1 & Hds & Hdi & Hds0 & Hds1).
  { subst p1. destruct Hx as [-> | ->]; cbn.
    - exists 0, 0. split_and!; try done; try lia. apply delta_refl.
    - destruct (worker_back_spec p ltac:(lia)) as (b & Hd & Hrb & Hb).
      eexists _, _. split; [exact Hd|]. destruct Hd. cbn in *. destruct b; cbn in *; split_and!; try done; lia. }
  clearbody p1. rewrite <- E1 in Hr. destruct Hd1.
  destruct (a_worker_locked_spec p1 l Hr Hi1)
    as [(p2 & h & E & Hd2 & E2 & Hh & Hb & Hwhy)|[(t & l' & p2 & -> & E & Hr' & Hcap & Hd2)|(p2 & -> & Hs & E & E2 & Hd2)]];
    rewrite E in Hl; injection Hl as <- <-; destruct Hd2; rewrite ?E1 in *.
  - assert (Est : stopped p2 = stopped p) by congruence.
    assert (0 < count (ring_ p) -> idle p2 < workers p2).
    { intros Hcp. destruct Hwhy as [?|[-> _]]; [|rewrite (@len_nil Task) in Hc; lia].
      specialize (i_work0 Hcp). destruct h; [cbn in *; lia|]. specialize (Hh ltac:(lia) eq_refl). cbn in *. lia. }
    assert (stopped p = false -> minWorkers p2 <= workers p2).
    { intros Hf. destruct Hwhy as [?|[_ [?|?]]]; [lia|congruence|lia]. }
    constructor; sys_cbn; rewrite ?E2, ?E1, ?Est; sys_counts; rewrite ?(bind_insert_same _ _ _ _ _ Hi) by done; eauto;
      destruct Hx as [-> | ->]; sys_cbn; destruct h; sys_cbn; sys_solve.
  - rewrite len_cons in *. pose proof (rep_count _ _ Hr'). assert (stopped p2 = stopped p) as Est by congruence.
    assert (k ++ [t] ≡ₚ r ++ <[i:=WTook t (0 <? fullWaiters p1)]> w ≫= w_task) as Hperm.
    { pose proof (bind_insert w_task _ _ _ (WTook t (0 <? fullWaiters p1)) Hi) as Hb.
      rewrite Ht, app_nil_r in Hb. rewrite Hb, Ho. cbn. solve_Permutation. }
    constructor; sys_cbn; rewrite ?Est; sys_counts; try done;
      try (destruct (Z.ltb_spec 0 (fullWaiters p1)); destruct Hx as [-> | ->]; sys_cbn; sys_solve).
    all: exists l'; rewrite <- (assoc_L (++)); by split.
  - rewrite (@len_nil Task) in *. assert (stopped p2 = false) as Est by congruence.
    constructor; sys_cbn; rewrite ?E2, ?E1, ?Est; sys_counts; eauto;
      rewrite ?(bind_insert_same _ _ _ _ _ Hi) by done; try done.
    all: destruct Hx as [-> | ->]; sys_cbn; sys_solve.
Qed.

Lemma a_inv_submit p w s a k r i x t p' s' n :
  inv (Sys p w s a k r) -> s !! i = Some x -> x = SLock t \/ x = SWoken t ->
  submit_locked t (if s_woken x then add_fullWaiters (-1) p else p) = (p', s', n) ->
  inv (Sys p' (start n w) (<[i := s']> s) (if is_after s' then a ++ [t] else a) k r).
Proof.
  intros Hinv Hi Hx Hl. pose proof (inv_idle_workers _ Hinv) as Hiw.
  destruct Hinv as [[l [Ha Hr]] Ho]. sys_cbn. sys_nonneg w s. pose proof (rep_count _ _ Hr) as Hc.
  assert (Hwk : Z.b2z (s_woken x) <= cnt s_woken s).
  { destruct Hx as [-> | ->]; cbn; [done|]. by apply (cnt_lookup_pos _ _ _ _ Hi). }
  set (p1 := if s_woken x then add_fullWaiters (-1) p else p) in *.
  assert (delta p p1 0 0 0 (- Z.b2z (s_woken x)) 0 /\ ring_ p1 = ring_ p) as [Hd1 E1].
  { subst p1. destruct Hx as [-> | ->]; split; try done; [apply delta_refl|apply delta_fullWaiters]. }
  clearbody p1. rewrite <- E1 in Hr. destruct Hd1.
  destruct (a_submit_locked_spec p1 l t Hr ltac:(lia) ltac:(lia)) as (p2 & s2 & n2 & E & Hn & Hcase).
  rewrite E in Hl. injection Hl as <- <- <-. rewrite ?E1 in *.
  destruct Hcase as [(Hs & Hf & -> & E2 & Hd & _)|[(Hs & -> & -> & ->)|(Hs & -> & wk & sp & Hr' & Hcap & -> & Hws & Hd & Hlt & _)]].
  - destruct Hd. assert (Est : stopped p2 = stopped p) by congruence.
    constructor; sys_cbn; rewrite ?E2, ?Est; sys_counts; eauto;
      destruct Hx as [-> | ->]; sys_cbn; sys_solve.
  - rewrite d_stopped0 in Hs. constructor; sys_cbn; rewrite ?E1, ?d_stopped0; sys_counts; eauto;
      destruct Hx as [-> | ->]; sys_cbn; sys_solve.
  - destruct Hd. assert (Est : stopped p2 = stopped p) by congruence.
    pose proof (rep_count _ _ Hr') as Hc'. rewrite len_app, len_cons, (@len_nil Task) in Hc'.
    constructor; sys_cbn; rewrite ?Est; sys_counts; try done;
      try (destruct wk, sp; try done; destruct Hx as [-> | ->]; sys_cbn; sys_solve).
    all: exists (l ++ [t]); rewrite Ha; by rewrite (assoc_L (++)).
Qed.

Lemma a_inv_batch p w s a k r i x rest tot submitted p1 p' s' j m w' :
  inv (Sys p w s a k r) -> s !! i = Some x ->
  x = BLock rest /\ stopped p = false /\ p1 = add_pending (len rest) p \/
  x = BWoken rest tot submitted /\ p1 = add_fullWaiters (-1) p ->
  tot - submitted = len rest ->
  batch_loop rest tot submitted 0 0 p1 = (p', s', j, m) ->
  nsteps signalE (Z.to_nat j) w w' ->
  inv (Sys p' (start m w') (<[i := s']> s) (a ++ take (Z.to_nat (batch_submitted s' - submitted)) rest) k r).
Proof.
  intros Hinv Hi Hx Ht Hl Hj%a_signalE_n_woke. pose proof (inv_idle_workers _ Hinv) as Hiw.
  destruct Hinv as [[l [Ha Hr]] Ho]. sys_cbn. sys_nonneg w s. pose proof (rep_count _ _ Hr) as Hc.
  assert (Hd1 : delta p p1 0 0 0 (- Z.b2z (s_woken x)) (len rest - s_reserved x) /\ ring_ p1 = ring_ p).
  { destruct Hx as [(-> & Hs & ->) | [-> ->]]; cbn; (split; [|done]).
    - eapply delta_eq; [apply delta_pending|lia..].
    - eapply delta_eq; [apply delta_fullWaiters|lia..]. }
  destruct Hd1 as [[] E1]. rewrite <- E1 in Hr.
  assert (Z.b2z (s_woken x) <= cnt s_woken s).
  { destruct Hx as [(-> & Hs & ->) | [-> ->]]; cbn; [done|]. by apply (cnt_lookup_pos _ _ _ _ Hi). }
  assert (Hne : s_woken x = true -> rest <> []).
  { pose proof (Forall_lookup_1 _ _ _ _ i_wf0 Hi) as Hwfx.
    destruct Hx as [(-> & Hs & ->) | [-> ->]]; [done|by intros _; apply Hwfx]. }
  destruct (a_batch_loop_spec rest tot submitted 0 0 p1 l Hr Ht ltac:(lia) ltac:(lia))
    as (dn & left & wk & sp & -> & Hr' & Hcap & Hwk & Hsp & Hle & Hlt & Hz & Hout).
  rewrite Hl in Hout, Hr', Hcap. cbn [fst snd] in Hr', Hcap.
  rewrite len_app in *. pose proof (rep_count _ _ Hr') as Hc'. rewrite len_app in Hc'.
  pose proof (len_nonneg dn). pose proof (len_nonneg left). pose proof (rep_room _ _ Hr') as Hro.
  rewrite len_app in Hro. rewrite E1 in *.
  assert (Htk : forall z, z = submitted + len dn -> take (Z.to_nat (z - submitted)) (dn ++ left) = dn).
  { intros z ->. replace (Z.to_nat (submitted + len dn - submitted)) with (length dn) by (unfold len; lia).
    apply take_app_length. }
  assert (Hfifo : exists l, a ++ dn = k ++ l /\ ring_rep (ring_ p') l).
  { exists (l ++ dn). split; [|done]. by rewrite Ha, (assoc_L (++)). }
  assert (Hidle : 0 < count (ring_ p') -> idle p - wk < workers p + sp).
  { destruct dn; [destruct (Hz eq_refl); rewrite (@len_nil Task) in *; intros; specialize (i_work0 ltac:(lia)); lia|].
    intros _. destruct (Hlt ltac:(done)). lia. }
  assert (Hidle0 : 0 <= idle p - wk).
  { destruct dn; [destruct (Hz eq_refl); lia|]. destruct (Hlt ltac:(done)). lia. }
  assert (Hlen : dn ++ left <> [] -> left = [] -> 0 < len dn).
  { intros Hn ->. rewrite app_nil_r in Hn. destruct dn; [done|]. rewrite len_cons. pose proof (len_nonneg dn). lia. }
  destruct Hj. clear Hlt Hz Ha Hr Hr'.
  inversion Hout as [p'' n Hs Hle' Hfull Hn Hd _|p'' Hst1 Hst2 Hd _]; subst p'' s' j m; sys_cbn; rewrite Htk by done;
    destruct Hd; assert (Est : stopped p' = stopped p) by congruence.
  - assert (Forall s_wf (<[i:=BParked left tot (submitted + len dn)]> s)).
    { apply Forall_insert; [done|]. cbn. split; [done|lia]. }
    constructor; sys_cbn; rewrite ?Est, ?Hcap; sys_counts; rewrite ?we_task0; try done;
      destruct Hx as [(-> & Hs' & ->) | [-> ->]]; sys_cbn; sys_solve.
  - rewrite d_stopped0 in *.
    assert (Hwf : 0 < cnt s_parked s ->
      ring_cap (ring_ p') - count (ring_ p') <= cnt w_signalsF w + (cnt s_woken s - Z.b2z (s_woken x))).
    { intros Hp. destruct (stopped p) eqn:Hs; [destruct (i_stop0 eq_refl); lia|].
      destruct (s_woken x) eqn:Hw; cbn; [pose proof (Hlen (Hne eq_refl) (Hst2 eq_refl))|]; lia. }
    constructor; sys_cbn; rewrite ?Est, ?Hcap; sys_counts; rewrite ?we_task0; try done;
      destruct Hx as [(-> & Hs' & ->) | [-> ->]]; sys_cbn; sys_solve.
Qed.

Lemma inv_shrink p w s a k r i p' s' :
  inv (Sys p w s a k r) -> s !! i = Some KLock -> shrink_locked p = (p', s') ->
  inv (Sys p' w (<[i := s']> s) a k r).
Proof.
  intros [] Hi Hl. unfold shrink_locked in Hl. cbv zeta in Hl.
  match type of Hl with context [set_retire ?z _] =>
    assert (0 <= z); [|set (rt := z) in *] end.
  { sys_cbn. pose proof (Z.div_pos (lowIdle p + 1) 2).
    destruct (Z.ltb_spec 0 (lowIdle p)), (Z.ltb_spec 0 (workers p - minWorkers p)), (stopped p); cbn; lia. }
  sys_nonneg w s. sys_cbn.
  clearbody rt. simplify_eq. constructor; sys_cbn; sys_counts; sys_solve.
Qed.

Lemma resize_locked_spec mn mx p :
  0 <= idle p -> 0 <= mn <= mx ->
  exists p' n, resize_locked mn mx p = (p', After 0 n (mx <? workers p') RetUnit) /\ 0 <= n /\
    delta (set_range mn mx p) p' 0 0 n 0 0 /\ ring_ p' = ring_ p /\ (stopped p = false -> mn <= workers p').
Proof.
  intros Hi Hm. unfold resize_locked.
  destruct (resize_loop_spec (Z.to_nat (mn - workers p)) 0 (set_range mn mx p)) as (p' & n & E & Hn & Hd & Hr & Hfl & _);
    [done|done|cbn; lia|done|].
  exists p', n. cbn [workers set_range]. rewrite E. split_and!; try done. 
Qed.

Lemma inv_resize p w s a k r i mn mx p' s' :
  inv (Sys p w s a k r) -> s !! i = Some (RLock mn mx) -> resize_locked mn mx p = (p', s') ->
  inv (Sys p' w (<[i := s']> s) a k r).
Proof.
  intros Hinv Hi Hl. pose proof (Forall_lookup_1 _ _ _ _ (i_wf _ Hinv) Hi) as [Hmn Hmx].
  destruct Hinv. sys_cbn. sys_nonneg w s.
  destruct (resize_locked_spec mn mx p ltac:(lia) Hmn) as (p2 & n & E & Hn & Hd & Hr & Hfl).
  rewrite E in Hl. simplify_eq. destruct Hd. sys_cbn.
  constructor; sys_cbn; rewrite ?Hr, ?d_stopped0; sys_counts; sys_solve.
Qed.

Lemma a_inv_worker_signal p w s a k r i t wf s' :
  inv (Sys p w s a k r) -> w !! i = Some (WTook t wf) -> (if wf then signalF s s' else s' = s) ->
  inv (Sys p (<[i := WRun t]> w) s' a k r).
Proof.
  intros [] Hi Hs. sys_cbn.
  assert (exists j, wokeF j s s' /\ 0 <= j <= cnt s_parked s /\
    (j >= Z.b2z wf \/ cnt s_parked s' = 0)) as (j & [] & Hj & Hj').
  { pose proof (cnt_nonneg s_parked s). destruct wf; [apply a_signalF_woke in Hs|subst].
    - eexists. split; [exact Hs|]. destruct Hs. cbn. split; lia.
    - exists 0. split; [apply a_wokeF_refl|]. cbn. lia. }
  sys_nonneg w s.
  constructor; sys_cbn; sys_counts; try (destruct wf; sys_cbn; sys_solve).
  all: by (rewrite (bind_insert_same _ _ _ _ _ Hi) || apply wf_wf0).
Qed.

Lemma inv_worker_leave p w s a k r i h w' :
  inv (Sys p w s a k r) -> w !! i = Some (WLeave h) ->
  (if h then signalE (<[i := WExited]> w) w' else w' = <[i := WExited]> w) ->
  inv (Sys p w' s a k r).
Proof.
  intros [] Hi Hs. sys_cbn.
  assert (exists j, wokeE j (<[i := WExited]> w) w' /\ 0 <= j /\
    (j >= Z.b2z h \/ cnt w_parked w' = 0)) as (j & [] & Hj & Hj').
  { pose proof (cnt_nonneg w_parked (<[i := WExited]> w)). destruct h; [apply a_signalE_woke in Hs|subst].
    - eexists. split; [exact Hs|]. destruct Hs. cbn. split; lia.
    - exists 0. split; [apply a_wokeE_refl|]. cbn. lia. }
  rewrite ?(cnt_insert _ _ _ _ _ Hi) in *. rewrite (bind_insert_same _ _ _ _ _ Hi) in we_task0 by done.
  sys_nonneg w s. sys_nonneg w' s. sys_cbn.
  constructor; sys_cbn; rewrite ?we_task0; destruct h; sys_cbn; sys_solve.
Qed.

Lemma inv_start p w s a k r i wake spawn b v :
  inv (Sys p w s a k r) -> s !! i = Some (After wake spawn b v) -> 0 < spawn ->
  inv (Sys p (start 1 w) (<[i := After wake (spawn - 1) b v]> s) a k r).
Proof. intros [] Hi Hs. sys_cbn. constructor; sys_cbn; sys_counts; sys_solve. Qed.

Lemma a_inv_stop_lock p w s a k r i :
  inv (Sys p w s a k r) -> s !! i = Some PLock ->
  inv (Sys (set_stopped p) (wake_worker <$> w) (wake_submitter <$> <[i := PWait]> s) a k r).
Proof.
  intros [] Hi. sys_cbn.
  destruct (a_broadcastE_woke w), (a_broadcastF_woke (<[i := PWait]> s)).
  rewrite ?(cnt_insert _ _ _ _ _ Hi), ?(total_insert _ _ _ _ _ Hi) in *. sys_nonneg w s. sys_cbn.
  constructor; sys_cbn; sys_solve.
  - by rewrite we_task0.
  - apply wf_wf0. by apply Forall_insert.
Qed.

Lemma a_inv_init mn mx q : 0 <= mn <= mx -> 1 <= mx -> inv (sys_init mn mx q).
Proof.
  intros Hm Hx. unfold sys_init.
  destruct (resize_locked_spec mn mx (newAdaptivePool q)) as (p' & n & -> & Hn & Hd & Hr & Hfl); [done|done|].
  destruct Hd. sys_cbn. unfold newAdaptivePool in *. sys_cbn.
  constructor; sys_cbn; rewrite ?Hr; cbn [cnt total]; sys_cbn; try (done || lia).
  - exists []. split; [done|]. apply ring_new_rep. lia.
  - by apply Forall_singleton.
Qed.

Ltac step_cases H :=
  destruct H as
    [p w s a k r t|p w s a k r ts0|p w s a k r|p w s a k r mn mx Hmn Hmx|p w s a k r Hst
    |p w s a k r i t p' s' n Hi Hl|p w s a k r i t p' s' n Hi Hl
    |p w w' s a k r i ts0 p' s' n m Hi Hl Hn|p w w' s a k r i rest tot sb p' s' n m Hi Hl Hn
    |p w s a k r i p' s' Hi Hl|p w s a k r i mn mx p' s' Hi Hl
    |p w w' s a k r i wake spawn b v Hi Hn Hl|p w s a k r i wake spawn b v Hi Hn Hsp
    |p w s a k r i wake spawn v Hi Hn Hsp|p w s a k r i wake spawn v Hi Hn Hsp
    |p w s a k r i p' w' Hi Hl|p w s a k r i p' w' Hi Hl|p w s s' a k r i t wf Hi Hl
    |p w s a k r i t Hi|p w s a k r i t Hi|p w w' s a k r i h Hi Hl
    |p w s a k r i Hi|p w s a k r i Hi Hp|p w s a k r i Hi].

Lemma a_inv_step st st' : inv st -> step st st' -> inv st'.
Proof.
  intros Hinv Hs. step_cases Hs.
  1-5: apply (a_inv_same_pool _ _ _ _ _ _ _ _ 0 Hinv (a_wokeE_refl _)); sys_counts; try lia;
    apply Forall_app; split; [apply Hinv|by apply Forall_singleton].
  - by apply (a_inv_submit _ _ _ _ _ _ _ _ _ _ _ _ Hinv Hi (or_introl eq_refl)).
  - by apply (a_inv_submit _ _ _ _ _ _ _ _ _ _ _ _ Hinv Hi (or_intror eq_refl)).
  - unfold batch_locked in Hl. destruct (stopped p) eqn:Hs.
    + simplify_eq. inversion Hn; subst. unfold start. cbn. rewrite !app_nil_r.
      apply (a_inv_same_pool _ _ _ _ _ _ _ _ 0 Hinv (a_wokeE_refl _)); sys_counts; try lia.
      apply Forall_insert; [apply Hinv|done].
    + pose proof (a_inv_batch p w s a k r i _ ts0 (len ts0) 0 _ p' s' n m w' Hinv Hi
        (or_introl (conj eq_refl (conj Hs eq_refl))) ltac:(lia) Hl Hn) as H.
      by rewrite Z.sub_0_r in H.
  - pose proof (Forall_lookup_1 _ _ _ _ (i_wf _ Hinv) Hi) as [? ?].
    by apply (a_inv_batch p w s a k r i _ rest tot sb _ p' s' n m w' Hinv Hi (or_intror (conj eq_refl eq_refl))).
  - by apply (inv_shrink _ _ _ _ _ _ _ _ _ Hinv Hi).
  - by apply (inv_resize _ _ _ _ _ _ _ _ _ _ _ Hinv Hi).
  - apply a_signalE_woke in Hl. pose proof (cnt_nonneg w_parked w).
    apply (a_inv_same_pool _ _ _ _ _ _ _ _ _ Hinv Hl); sys_counts; try lia.
    + destruct Hl. lia.
    + apply Forall_insert; [apply Hinv|done].
  - by apply inv_start.
  - pose proof (cnt_nonneg w_parked w).
    apply (a_inv_same_pool _ _ _ _ _ _ _ _ _ Hinv (a_broadcastE_woke _)); sys_counts; try lia.
    apply Forall_insert; [apply Hinv|done].
  - apply (a_inv_same_pool _ _ _ _ _ _ _ _ 0 Hinv (a_wokeE_refl _)); sys_counts; try lia.
    apply Forall_insert; [apply Hinv|done].
  - by apply (a_inv_worker _ _ _ _ _ _ _ _ _ _ Hinv Hi (or_introl eq_refl)).
  - by apply (a_inv_worker _ _ _ _ _ _ _ _ _ _ Hinv Hi (or_intror eq_refl)).
  - by apply (a_inv_worker_signal _ _ _ _ _ _ _ _ _ _ Hinv Hi Hl).
  - destruct Hinv. sys_cbn. constructor; sys_cbn; sys_counts; sys_solve.
    pose proof (bind_insert w_task _ _ _ (WRan t) Hi) as Hb. cbn in Hb. rewrite app_nil_r in Hb.
    rewrite i_once0, <- Hb. solve_Permutation.
  - destruct Hinv. sys_cbn. constructor; sys_cbn; sys_counts; sys_solve.
    by rewrite (bind_insert_same _ _ _ _ _ Hi).
  - by apply (inv_worker_leave _ _ _ _ _ _ _ _ _ Hinv Hi Hl).
  - by apply a_inv_stop_lock.
  - apply (a_inv_same_pool _ _ _ _ _ _ _ _ 0 Hinv (a_wokeE_refl _)); sys_counts; try lia.
    apply Forall_insert; [apply Hinv|done].
  - pose proof (cnt_nonneg w_parked w).
    apply (a_inv_same_pool _ _ _ _ _ _ _ _ _ Hinv (a_broadcastE_woke _)); sys_counts; try lia.
    apply Forall_insert; [apply Hinv|done].
Qed.

Lemma a_reachable_inv mn mx q st :
  0 <= mn <= mx -> 1 <= mx -> rtc step (sys_init mn mx q) st -> inv st.
Proof.
  intros Hm Hx Hr. pose proof (a_inv_init mn mx q Hm Hx) as H0.
  induction Hr as [|x y z Hs _ IH]; [done|]. apply IH. by eapply a_inv_step.
Qed.

(** * Population *)

Lemma worker_back_ok st i :
  inv st -> ws st !! i = Some WWoken ->
  0 <= idle (worker_back (pool st)) /\ ring_ (worker_back (pool st)) = ring_ (pool st) /\
  workers (worker_back (pool st)) = workers (pool st) /\ maxWorkers (worker_back (pool st)) = maxWorkers (pool st).
Proof.
  intros [] Hi. pose proof (cnt_lookup_pos w_woken _ _ _ Hi eq_refl). pose proof (cnt_nonneg w_parked (ws st)).
  destruct (worker_back_spec (pool st) ltac:(lia)) as (b & [] & Hrb & Hb).
  split_and!; try done; try lia. destruct b; cbn in *; lia.
Qed.

(** Only [resize] moves the range, and no other step takes the population
    above the ceiling. *)
Lemma step_ceiling st st' :
  inv st -> step st st' -> maxWorkers (pool st') = maxWorkers (pool st) ->
  workers (pool st') <= Z.max (workers (pool st)) (maxWorkers (pool st)).
Proof.
  intros Hinv Hs Hmax. pose proof (inv_idle_workers _ Hinv) as Hiw. pose proof Hinv as Hinv'.
  destruct Hinv as [(l & _ & Hr) _ _ _ Hid Hcl _ Hrg _ Hfl _ _ _ _ _ Hwf]. step_cases Hs; sys_cbn; try lia.
  - destruct (a_submit_locked_spec p l t Hr ltac:(lia) ltac:(lia)) as (p2 & s2 & n2 & E & Hn & Hc).
    rewrite E in Hl. simplify_eq.
    destruct Hc as [(_ & _ & _ & _ & [] & ?)|[(_ & _ & _ & ->)|(_ & _ & ? & ? & _ & _ & _ & _ & [] & _ & ?)]]; lia.
  - destruct (a_submit_locked_spec (add_fullWaiters (-1) p) l t Hr ltac:(sys_cbn; lia) ltac:(sys_cbn; lia)) as (p2 & s2 & n2 & E & Hn & Hc).
    rewrite E in Hl. simplify_eq.
    destruct Hc as [(_ & _ & _ & _ & [] & ?)|[(_ & _ & _ & ->)|(_ & _ & ? & ? & _ & _ & _ & _ & [] & _ & ?)]]; sys_cbn; lia.
  - unfold batch_locked in Hl. destruct (stopped p); [simplify_eq; lia|].
    destruct (a_batch_loop_spec ts0 (len ts0) 0 0 0 (add_pending (len ts0) p) l Hr ltac:(lia) ltac:(sys_cbn; lia) ltac:(sys_cbn; lia))
      as (dn & left & wk & sp & _ & _ & _ & _ & _ & _ & _ & _ & Hout).
    rewrite Hl in Hout. inversion Hout as [? ? ? ? ? ? [] ?|? ? ? [] ?]; subst; sys_cbn; lia.
  - pose proof (Forall_lookup_1 _ _ _ _ Hwf Hi) as [_ Ht]. unfold batch_resumed in Hl.
    destruct (a_batch_loop_spec rest tot sb 0 0 (add_fullWaiters (-1) p) l Hr Ht ltac:(sys_cbn; lia) ltac:(sys_cbn; lia))
      as (dn & left & wk & sp & _ & _ & _ & _ & _ & _ & _ & _ & Hout).
    rewrite Hl in Hout. inversion Hout as [? ? ? ? ? ? [] ?|? ? ? [] ?]; subst; sys_cbn; lia.
  - unfold shrink_locked in Hl. simplify_eq. cbn. lia.
  - pose proof (Forall_lookup_1 _ _ _ _ Hwf Hi) as [Hmn Hmx].
    unfold resize_locked in Hl. cbn [workers set_range] in Hl.
    destruct (resize_loop_spec (Z.to_nat (mn - workers p)) 0 (set_range mn mx p)) as (p2 & n & E & Hn & [] & _ & _ & Hce);
      [done|sys_cbn; lia|sys_cbn; lia|done|].
    rewrite E in Hl. simplify_eq. sys_cbn. lia.
  - destruct (a_worker_locked_spec p l Hr ltac:(lia))
      as [(p2 & h & E & [] & _)|[(t & l' & p2 & -> & E & _ & _ & [])|(p2 & -> & _ & E & _ & [])]];
      rewrite E in Hl; simplify_eq; lia.
  - destruct (worker_back_ok _ _ Hinv' Hi) as (Hi0 & Hrb & Hw & Hmx). sys_cbn. rewrite <- Hrb in Hr.
    destruct (a_worker_locked_spec (worker_back p) l Hr ltac:(lia))
      as [(p2 & h & E & [] & _)|[(t & l' & p2 & -> & E & _ & _ & [])|(p2 & -> & _ & E & _ & [])]];
      rewrite E in Hl; simplify_eq; lia.
Qed.

(** * Quiescence *)

Definition gstep (st st' : sys) : Prop := step st st' /\ len (ss st') = len (ss st).

(** The calls that may still wake or start any number of workers. *)
Definition s_control (s : sstate) : Z :=
  match s with KLock => 1 | RLock _ _ => 2 | After _ _ true _ => 1 | PLock => 3 | PWait => 2 | PLast => 1 | _ => 0 end.

Definition w_weight (w : wstate) : Z :=
  match w with
  | WLock | WWoken => 4 | WParked => 3 | WTook _ _ => 12 | WRun _ => 6 | WRan _ => 5
  | WLeave h => 1 + Z.b2z h | WExited | WCrash => 0
  end.
Definition s_weight (s : sstate) : Z :=
  match s with
  | SLock _ | SWoken _ => 18 | SParked _ => 13
  | BLock ts => 14 * len ts + 7 | BWoken r _ _ => 14 * len r + 7 | BParked r _ _ => 14 * len r + 2
  | After n m _ _ => 2 * Z.max 0 n + 5 * Z.max 0 m + 1
  | KLock | RLock _ _ | PLock | PWait | PLast | Done _ => 0
  end.

Definition control (st : sys) : Z := total s_control (ss st).
Definition weight (st : sys) : Z :=
  9 * count (ring_ (pool st)) + total w_weight (ws st) + total s_weight (ss st).

Definition w_idle (w : wstate) : bool := match w with WParked | WExited => true | _ => false end.
Definition returned (s : sstate) : bool := match s with Done _ => true | _ => false end.

Lemma a_signalE_weight w w' : signalE w w' -> total w_weight w' <= total w_weight w + 1.
Proof. intros [? i Hi|? Hz]; [rewrite (total_insert _ _ _ _ _ Hi); cbn|]; lia. Qed.

Lemma a_signalE_n_weight n w w' : nsteps signalE n w w' -> total w_weight w' <= total w_weight w + Z.of_nat n.
Proof. induction 1 as [|n w1 w2 w3 H1%a_signalE_weight _ IH]; lia. Qed.

Lemma start_weight n w : 0 <= n -> total w_weight (start n w) = total w_weight w + 4 * n.
Proof.
  intros Hn. unfold start. rewrite total_app. f_equal.
  assert (forall m, total w_weight (replicate m WLock) = 4 * Z.of_nat m) as ->.
  { induction m as [|m IH]; [done|]. cbn. rewrite IH. cbn. lia. }
  by rewrite Z2Nat.id.
Qed.

Lemma a_signalF_weight s s' :
  signalF s s' -> total s_weight s' <= total s_weight s + 5 /\ total s_control s' = total s_control s.
Proof.
  intros [? i x Hi Hp|? Hz]; [|lia]. rewrite !(total_insert _ _ _ _ _ Hi). destruct x; cbn in *; try done; lia.
Qed.

Lemma wake_control s : total s_control (wake_submitter <$> s) = total s_control s.
Proof. induction s as [|x s IH]; [done|]. rewrite fmap_cons. cbn [total]. rewrite IH. by destruct x. Qed.

Lemma a_submit_weight p l t p' s' n :
  ring_rep (ring_ p) l -> 0 <= idle p <= workers p -> 1 <= maxWorkers p -> submit_locked t p = (p', s', n) ->
  s_control s' = 0 /\ 0 <= n /\ 9 * count (ring_ p') + s_weight s' + 4 * n < 9 * count (ring_ p) + 18.
Proof.
  intros Hr Hi Hm E. pose proof (rep_count _ _ Hr).
  destruct (a_submit_locked_spec p l t Hr Hi Hm) as (p2 & s2 & n2 & E2 & Hn & Hc). rewrite E2 in E. simplify_eq.
  destruct Hc as [(_ & _ & -> & -> & _)|[(_ & -> & -> & ->)|(_ & -> & w & s & Hr' & _ & -> & Hws & _)]]; cbn; try lia.
  rewrite (rep_count _ _ Hr'), len_app, len_cons, (@len_nil Task). destruct w, s; cbn in *; try done; lia.
Qed.

Lemma a_batch_weight rest tot sb p l p' s' j m :
  ring_rep (ring_ p) l -> tot - sb = len rest -> 0 <= idle p <= workers p -> 1 <= maxWorkers p ->
  batch_loop rest tot sb 0 0 p = (p', s', j, m) ->
  s_control s' = 0 /\ 0 <= j /\ 0 <= m /\
  9 * count (ring_ p') + s_weight s' + j + 4 * m < 9 * count (ring_ p) + 14 * len rest + 7.
Proof.
  intros Hr Ht Hi Hm E. pose proof (rep_count _ _ Hr).
  destruct (a_batch_loop_spec rest tot sb 0 0 p l Hr Ht Hi Hm)
    as (dn & left & w & s & -> & Hr' & _ & Hw & Hs & Hle & _ & _ & Hout).
  rewrite E in Hout, Hr'. cbn [fst snd] in Hr'. pose proof (rep_count _ _ Hr') as Hc. rewrite len_app in *.
  pose proof (len_nonneg dn). pose proof (len_nonneg left).
  inversion Hout; subst; cbn; lia.
Qed.

Lemma a_worker_weight p l p' w' :
  ring_rep (ring_ p) l -> 0 <= idle p -> worker_locked p = (p', w') ->
  9 * count (ring_ p') + w_weight w' < 9 * count (ring_ p) + 4.
Proof.
  intros Hr Hi E. pose proof (rep_count _ _ Hr).
  destruct (a_worker_locked_spec p l Hr Hi)
    as [(p2 & h & E2 & _ & E3 & _)|[(t & l' & p2 & -> & E2 & Hr' & _)|(p2 & -> & _ & E2 & E3 & _)]];
    rewrite E2 in E; simplify_eq; rewrite ?E3; cbn; try (destruct h; cbn); try lia.
  rewrite (rep_count _ _ Hr'). rewrite len_cons in *. lia.
Qed.

Lemma gstep_decreases st st' :
  inv st -> gstep st st' ->
  control st' < control st \/ control st' = control st /\ weight st' < weight st.
Proof.
  intros Hinv [Hs Hlen]. pose proof (inv_idle_workers _ Hinv) as Hiw. pose proof Hinv as Hinv'.
  destruct Hinv as [(l & _ & Hr) _ _ _ Hid Hcl _ Hrg _ _ _ _ _ _ _ Hwf]. unfold control, weight.
  step_cases Hs; sys_cbn.
  1-5: rewrite len_app, len_cons, (@len_nil sstate) in Hlen; lia.
  all: rewrite ?(fun f => total_insert f _ _ _ _ Hi).
  - destruct (a_submit_weight p l t _ _ _ Hr ltac:(lia) ltac:(lia) Hl) as (-> & ? & ?). rewrite start_weight by lia.
    cbn [s_control s_weight]. lia.
  - destruct (a_submit_weight (add_fullWaiters (-1) p) l t _ _ _ Hr ltac:(sys_cbn; lia) ltac:(sys_cbn; lia) Hl) as (-> & ? & ?).
    rewrite start_weight by lia. sys_cbn. cbn [s_control s_weight]. lia.
  - pose proof (a_signalE_n_weight _ _ _ Hn). unfold batch_locked in Hl. destruct (stopped p).
    + simplify_eq. rewrite start_weight by lia. pose proof (len_nonneg ts0). cbn [s_control s_weight]. lia.
    + destruct (a_batch_weight ts0 (len ts0) 0 (add_pending (len ts0) p) l _ _ _ _ Hr ltac:(lia) ltac:(sys_cbn; lia)
        ltac:(sys_cbn; lia) Hl) as (-> & ? & ? & ?). rewrite start_weight by lia. sys_cbn. cbn [s_control s_weight]. lia.
  - pose proof (a_signalE_n_weight _ _ _ Hn). pose proof (Forall_lookup_1 _ _ _ _ Hwf Hi) as [_ Ht].
    destruct (a_batch_weight rest tot sb (add_fullWaiters (-1) p) l _ _ _ _ Hr Ht ltac:(sys_cbn; lia)
        ltac:(sys_cbn; lia) Hl) as (-> & ? & ? & ?). rewrite start_weight by lia. sys_cbn. cbn [s_control s_weight]. lia.
  - unfold shrink_locked in Hl. simplify_eq. left. cbn [s_control]. lia.
  - unfold resize_locked in Hl. destruct (resize_loop _ _ _) as [p2 n]. simplify_eq. left.
    cbn [s_control]. destruct (mx <? workers p'); lia.
  - pose proof (a_signalE_weight _ _ Hl). cbn [s_control s_weight]. destruct b; lia.
  - rewrite start_weight by lia. cbn [s_control s_weight]. destruct b; lia.
  - left. cbn [s_control]. lia.
  - cbn [s_control s_weight]. lia.
  - pose proof (a_worker_weight p l _ _ Hr ltac:(lia) Hl). cbn [w_weight]. lia.
  - destruct (worker_back_ok _ _ Hinv' Hi) as (Hi0 & Hrb & _). sys_cbn. rewrite <- Hrb in Hr.
    pose proof (a_worker_weight _ l _ _ Hr Hi0 Hl). rewrite Hrb in *. cbn [w_weight]. lia.
  - cbn [w_weight]. destruct wf; [|subst; lia]. destruct (a_signalF_weight _ _ Hl). lia.
  - cbn [w_weight]. lia.
  - cbn [w_weight]. lia.
  - right. split; [done|]. assert (total w_weight (<[i := WExited]> w) = total w_weight w - (1 + Z.b2z h)) as Hx.
    { rewrite (total_insert _ _ _ _ _ Hi). cbn [w_weight]. lia. }
    destruct h; [pose proof (a_signalE_weight _ _ Hl)|subst w']; cbn in Hx; lia.
  - left. rewrite wake_control, (total_insert _ _ _ _ _ Hi). cbn [s_control]. lia.
  - left. cbn [s_control]. lia.
  - left. cbn [s_control]. lia.
Qed.

Lemma control_nonneg st : 0 <= control st.
Proof. apply total_nonneg. intros []; cbn; try case_match; lia. Qed.

Lemma a_weight_nonneg st : inv st -> 0 <= weight st.
Proof.
  intros Hinv. destruct (i_fifo _ Hinv) as (l & _ & Hr). unfold weight. rewrite (rep_count _ _ Hr).
  pose proof (len_nonneg l). pose proof (total_nonneg w_weight (ws st) ltac:(intros [| | | | | | [] | |]; cbn; lia)).
  enough (0 <= total s_weight (ss st)) by lia.
  apply total_nonneg. intros []; cbn; try lia;
    match goal with |- context [len ?l] => pose proof (len_nonneg l) end; lia.
Qed.

Lemma gstep_acc st : inv st -> Acc (fun y x => gstep x y) st.
Proof.
  remember (Z.to_nat (control st)) as c eqn:Hc. revert st Hc.
  induction (lt_wf c) as [c _ IHc]. intros st Hc.
  remember (Z.to_nat (weight st)) as w eqn:Hw. revert st Hc Hw.
  induction (lt_wf w) as [w _ IHw]. intros st Hc Hw Hinv.
  constructor. intros y Hg. pose proof (a_inv_step _ _ Hinv (proj1 Hg)) as Hy.
  pose proof (control_nonneg y). pose proof (a_weight_nonneg y Hy).
  destruct (gstep_decreases _ _ Hinv Hg) as [?|[? ?]].
  - apply (IHc (Z.to_nat (control y))); [lia|done|done].
  - apply (IHw (Z.to_nat (weight y))); [lia|lia|done|done].
Qed.

(** ** A state where no goroutine can move *)

Lemma a_signalE_total w : exists w', signalE w w'.
Proof.
  destruct (Z.eq_dec (cnt w_parked w) 0); [eexists; by apply signalE_none|].
  pose proof (cnt_nonneg w_parked w).
  destruct (cnt_pos_inv w_parked w) as (i & x & Hi & Hx); [lia|]. destruct x; try done.
  eexists. by apply (signalE_one _ i).
Qed.

Lemma a_signalE_n_total n w : exists w', nsteps signalE n w w'.
Proof.
  revert w. induction n as [|n IH]; intros w; [eexists; constructor|].
  destruct (a_signalE_total w) as [w1 H1]. destruct (IH w1) as [w2 H2]. eexists. by econstructor.
Qed.

Lemma a_signalF_total s : exists s', signalF s s' /\ len s' = len s.
Proof.
  destruct (Z.eq_dec (cnt s_parked s) 0); [exists s; split; [by apply signalF_none|done]|].
  pose proof (cnt_nonneg s_parked s).
  destruct (cnt_pos_inv s_parked s) as (i & x & Hi & Hx); [lia|].
  eexists. split; [by apply (signalF_one _ i x)|apply len_insert].
Qed.

Lemma a_worker_moves st i x :
  inv st -> ws st !! i = Some x -> w_idle x = false -> exists st', gstep st st'.
Proof.
  intros Hinv Hi Hx. pose proof (i_crash _ Hinv) as Hcr. destruct st as [p w s a k r]. sys_cbn.
  destruct x as [| | |t wf|t|t|h| |]; try done.
  - destruct (worker_locked p) eqn:E. eexists. split; [by eapply step_worker_lock|done].
  - destruct (worker_locked (worker_back p)) eqn:E. eexists. split; [by eapply step_worker_woken|done].
  - destruct (a_signalF_total s) as (s' & Hs' & Hl). exists (Sys p (<[i := WRun t]> w) (if wf then s' else s) a k r).
    split; [|by destruct wf]. eapply step_worker_signal; [done|]. by destruct wf.
  - eexists. split; [by eapply step_worker_run|done].
  - eexists. split; [by eapply step_worker_done|done].
  - destruct (a_signalE_total (<[i := WExited]> w)) as [w' Hw'].
    exists (Sys p (if h then w' else <[i := WExited]> w) s a k r). split; [|done].
    eapply step_worker_leave; [done|]. by destruct h.
  - by pose proof (cnt_zero_inv _ _ _ _ Hcr Hi).
Qed.

Definition s_waits (s : sstate) : bool :=
  s_parked s || returned s || match s with PWait => true | _ => false end.

Lemma a_call_moves st i x :
  ss st !! i = Some x -> s_waits x = false -> exists st', gstep st st'.
Proof.
  intros Hi Hx. destruct st as [p w s a k r]. sys_cbn.
  destruct (a_signalE_total w) as [w1 Hw1].
  destruct x as [t|t|t|ts0|r0 t0 n0|r0 t0 n0| |mn mx| | | |wake spawn b v|v]; try done.
  - destruct (submit_locked t p) as [[? ?] m] eqn:E. eexists. split; [by eapply step_submit_lock|apply len_insert].
  - destruct (submit_locked t (add_fullWaiters (-1) p)) as [[? ?] m] eqn:E. eexists. split; [by eapply step_submit_woken|apply len_insert].
  - destruct (batch_locked ts0 p) as [[[? ?] n] m] eqn:E. destruct (a_signalE_n_total (Z.to_nat n) w) as [w2 H2].
    eexists. split; [by eapply step_batch_lock|apply len_insert].
  - destruct (batch_resumed r0 t0 n0 p) as [[[? ?] n] m] eqn:E. destruct (a_signalE_n_total (Z.to_nat n) w) as [w2 H2].
    eexists. split; [by eapply step_batch_woken|apply len_insert].
  - destruct (shrink_locked p) eqn:E. eexists. split; [by eapply step_shrink_lock|apply len_insert].
  - destruct (resize_locked mn mx p) eqn:E. eexists. split; [by eapply step_resize_lock|apply len_insert].
  - eexists. split; [by eapply step_stop_lock|]. cbn. unfold len. by rewrite length_fmap, length_insert.
  - eexists. split; [by eapply step_stop_last|apply len_insert].
  - destruct (Z.ltb_spec 0 wake); [eexists; split; [by eapply step_after_signal|apply len_insert]|].
    destruct (Z.ltb_spec 0 spawn); [eexists; split; [by eapply step_after_start|apply len_insert]|].
    destruct b; eexists.
    + split; [by apply (step_after_broadcast _ _ _ _ _ _ i wake spawn v)|apply len_insert].
    + split; [by apply (step_after_return _ _ _ _ _ _ i wake spawn v)|apply len_insert].
Qed.

Lemma a_quiet_done st :
  inv st -> (forall st', ~ gstep st st') ->
  Forall (fun s => returned s = true) (ss st) /\ ran st ≡ₚ accepted st /\
  (stopped (pool st) = true -> workers (pool st) = 0).
Proof.
  intros Hinv Hq.
  assert (Hw : forall i x, ws st !! i = Some x -> w_idle x = true).
  { intros i x Hi. destruct (w_idle x) eqn:E; [done|].
    destruct (a_worker_moves _ _ _ Hinv Hi E) as [? []%Hq]. }
  assert (Hs : forall i x, ss st !! i = Some x -> s_waits x = true).
  { intros i x Hi. destruct (s_waits x) eqn:E; [done|]. destruct (a_call_moves _ _ _ Hi E) as [? []%Hq]. }
  assert (Hz : cnt w_woken (ws st) = 0 /\ cnt w_signalsF (ws st) = 0 /\ cnt w_signalsE (ws st) = 0 /\
     cnt w_holds (ws st) = 0 /\ cnt s_woken (ss st) = 0 /\ total s_signals (ss st) = 0 /\
     total s_spawns (ss st) = 0 /\ (ws st ≫= w_task) = []).
  { split_and!; try (apply cnt_none; intros i x Hi; apply Hw in Hi || apply Hs in Hi; by destruct x);
      try (apply total_none; intros i x Hi; apply Hs in Hi; by destruct x).
    clear - Hw. induction (ws st) as [|x l IH]; [done|].
    pose proof (Hw 0%nat x eq_refl). cbn. rewrite IH by (intros i; apply (Hw (S i))). by destruct x. }
  destruct Hz as (Hz1 & Hz2 & Hz3 & Hz4 & Hz5 & Hz6 & Hz7 & Hz8).
  assert (Hlive : cnt w_live (ws st) = cnt w_parked (ws st)).
  { clear - Hw. induction (ws st) as [|x l IH]; [done|].
    pose proof (Hw 0%nat x eq_refl). cbn [cnt]. rewrite IH by (intros i; apply (Hw (S i))). by destruct x. }
  destruct Hinv as [(l & Ha & Hr) Ho Hwt Hwk Hid Hcl _ Hrg Hwork _ Hfw Hp HF Hstop _ Hwf].
  pose proof (rep_count _ _ Hr) as Hc. pose proof (len_nonneg l). pose proof (rep_cap _ _ Hr).
  pose proof (cnt_nonneg s_parked (ss st)).
  assert (Hc0 : len l = 0) by lia.
  assert (Hsp : cnt s_parked (ss st) = 0) by lia.
  assert (Hres : total s_reserved (ss st) = 0).
  { apply total_none. intros i x Hi. pose proof (cnt_zero_inv _ _ _ _ Hsp Hi). apply Hs in Hi. by destruct x. }
  split_and!; [|destruct l; [|rewrite len_cons in Hc0; pose proof (len_nonneg l); lia]|].
  - apply Forall_lookup_2. intros i x Hi. pose proof (cnt_zero_inv _ _ _ _ Hsp Hi) as Hnp.
    pose proof (Hs _ _ Hi) as Hsw. destruct st as [p w s a k r]. sys_cbn. destruct x; try done; exfalso.
    eapply Hq. split; [eapply step_stop_wait; [done|]; lia|apply len_insert].
  - rewrite Ha, Ho, Hz8, !app_nil_r. done.
  - intros Hst. destruct (Hstop Hst). lia.
Qed.

(** * The pool's contract *)

(** The adaptive pool is a queue, like the fixed one, while its population
    changes: the accepted tasks are those taken, in order, followed by the
    ring; each task taken has run once or is in the hands of one worker. *)
Theorem adaptive_fifo_exactly_once mn mx q st :
  0 <= mn <= mx -> 1 <= mx -> rtc step (sys_init mn mx q) st ->
  (exists l, accepted st = taken st ++ l /\ ring_rep (ring_ (pool st)) l) /\
  taken st ≡ₚ ran st ++ (ws st ≫= w_task) /\ ~ WCrash ∈ ws st.
Proof.
  intros Hm Hx Hr. pose proof (a_reachable_inv _ _ _ _ Hm Hx Hr) as Hinv.
  split; [apply Hinv|split; [apply Hinv|]]. intros [i Hi]%list_elem_of_lookup.
  by pose proof (cnt_zero_inv _ _ _ _ (i_crash _ Hinv) Hi).
Qed.

(** The population keeps to its range.  [workers] is exactly the number of
    live workers plus those reserved and not started; until [stop] it never
    falls below the floor; and no step other than a [resize] that lowers the
    ceiling takes it above. *)
Theorem adaptive_population mn mx q st :
  0 <= mn <= mx -> 1 <= mx -> rtc step (sys_init mn mx q) st ->
  workers (pool st) = cnt w_live (ws st) + total s_spawns (ss st) /\
  (stopped (pool st) = false -> minWorkers (pool st) <= workers (pool st)) /\
  (forall st', step st st' -> maxWorkers (pool st') = maxWorkers (pool st) ->
     workers (pool st') <= Z.max (workers (pool st)) (maxWorkers (pool st))).
Proof.
  intros Hm Hx Hr. pose proof (a_reachable_inv _ _ _ _ Hm Hx Hr) as Hinv.
  split; [apply Hinv|split; [apply Hinv|]]. intros st' Hs Hmax. by apply step_ceiling.
Qed.

(** C14: no deadlock, no lost wake-up and no stranded task while workers come
    and go.  Without new calls the goroutines of the pool cannot run for ever,
    and when none can move every call has returned, every accepted task has
    run and a stopped pool has no worker left. *)
Theorem adaptive_quiesces mn mx q st :
  0 <= mn <= mx -> 1 <= mx -> rtc step (sys_init mn mx q) st ->
  Acc (fun y x => gstep x y) st /\
  (forall st', rtc gstep st st' -> (forall st'', ~ gstep st' st'') ->
     Forall (fun s => returned s = true) (ss st') /\ ran st' ≡ₚ accepted st' /\
     (stopped (pool st') = true -> workers (pool st') = 0)).
Proof.
  intros Hm Hx Hr. split; [by apply gstep_acc, (a_reachable_inv mn mx q)|].
  intros st' Hg Hquiet. apply a_quiet_done; [|done]. apply (a_reachable_inv mn mx q); [done|done|].
  etrans; [done|]. apply (rtc_subrel gstep); [|done]. by intros ? ? [].
Qed.
End adaptive.

(** A pool with floor 0: a submission starts the only worker, which runs the
    task and leaves when the pool stops. *)
Definition adaptive_demo : sys (Task:=Z) :=
  Sys (AdaptivePool (Ring [None] 0 0 0) 0 0 0 0 1 0 0 0 true 0) [WExited]
    [Done RetUnit; Done (RetBool true); Done RetUnit] [7] [7] [7].

Lemma adaptive_demo_run : rtc step (sys_init 0 1 1) adaptive_demo.
Proof.
  run_norm.
  run_step (by apply (step_after_return _ _ _ _ _ _ 0 0 0 RetUnit)).
  run_step (apply (step_submit _ _ _ _ _ _ 7)).
  run_step (by apply (step_submit_lock _ _ _ _ _ _ 1 7)).
  run_step (by apply (step_after_start _ _ _ _ _ _ 1 0 1 false (RetBool true))).
  run_step (by apply (step_after_return _ _ _ _ _ _ 1 0 0 (RetBool true))).
  run_step (by apply (step_worker_lock _ _ _ _ _ _ 0)).
  run_step (by eapply (step_worker_signal _ _ _ _ _ _ _ 0)).
  run_step (by apply (step_worker_run _ _ _ _ _ _ 0 7)).
  run_step (by apply (step_worker_done _ _ _ _ _ _ 0 7)).
  run_step (by apply step_stop).
  run_step (by apply (step_stop_lock _ _ _ _ _ _ 2)).
  run_step (by apply (step_stop_wait _ _ _ _ _ _ 2)).
  run_step (by apply (step_stop_last _ _ _ _ _ _ 2)).
  run_step (by apply (step_worker_lock _ _ _ _ _ _ 0)).
  run_step (by eapply (step_worker_leave _ _ _ _ _ _ _ 0 false)).
  apply rtc_refl.
Qed.

Lemma adaptive_fifo_exactly_once_witness :
  taken adaptive_demo ≡ₚ ran adaptive_demo ++ (ws adaptive_demo ≫= w_task).
Proof. apply (adaptive_fifo_exactly_once 0 1 1 adaptive_demo); [lia|lia|apply adaptive_demo_run]. Defined.

Lemma adaptive_population_witness :
  workers (pool adaptive_demo) = cnt w_live (ws adaptive_demo) + total s_spawns (ss adaptive_demo).
Proof. apply (adaptive_population 0 1 1 adaptive_demo); [lia|lia|apply adaptive_demo_run]. Defined.

Lemma adaptive_quiesces_witness : Acc (fun y x => gstep x y) adaptive_demo.
Proof. apply (adaptive_quiesces 0 1 1 adaptive_demo); [lia|lia|apply adaptive_demo_run]. Defined.
