(* ===== verification/TaskPool.v ===== *)
(** How a task pool is sized and split (src/go/taskpool/taskpool.go, sharded.go
    and the backend half of adaptive.go): the modes, the argument checks that
    panic, the number of shards, the share of workers and queue slots each
    shard gets, and the round robin over the shards.

    [runtime.GOMAXPROCS(0)] is the parameter [procs], at least 1.  The shards
    themselves are the pools of CondPool.v and AdaptivePool.v: the split meets
    what those files assume of a shard. *)
From S2P Require Import Prelude.

Inductive Mode := ModeCond | ModeElastic | ModeAdaptive | ModeOther (m : Z).

(** [Mode.Valid] *)
Definition Mode_Valid (m : Mode) : bool := match m with ModeOther _ => false | _ => true end.

Definition workersPerShard : Z := 8.

Section sizes.
Context (procs : Z).

Definition shardCount (workerCount : Z) : Z :=
  let shards := workerCount / workersPerShard in
  let shards := if procs <? shards then procs else shards in
  if shards <? 1 then 1 else shards.

Definition share (total shards i : Z) : Z :=
  let part := total / shards in
  if i <? total mod shards then part + 1 else part.

(** [0, 1, ..., n - 1] *)
Definition indices (n : Z) : list Z := seqZ 0 n.

(** [newCondBackend]: the workers and the queue size of each shard. *)
Definition newCondBackend (workerCount queueSize : Z) : list (Z * Z) :=
  let shards := shardCount workerCount in
  if shards <=? 1 then [(workerCount, queueSize)]
  else (fun i =>
    let workers := workerCount / shards in
    let workers := if i <? workerCount mod shards then workers + 1 else workers in
    let queue := queueSize / shards in
    let queue := if i <? queueSize mod shards then queue + 1 else queue in
    (workers, queue)) <$> indices shards.

(** [adaptiveBackend.resize]: the floor and the ceiling each shard gets. *)
Definition backend_resize (shards minWorkers maxWorkers : Z) : list (Z * Z) :=
  (fun i => (share minWorkers shards i, Z.max 1 (share maxWorkers shards i))) <$> indices shards.

Record AdaptiveConfig := { MinWorkers : Z; MaxWorkers : Z; QueueSize : Z }.

(** [newAdaptiveBackend]: floor, ceiling and queue size of each shard. *)
Definition newAdaptiveBackend (config : AdaptiveConfig) : list (Z * Z * Z) :=
  let queueSize := QueueSize config in
  let shards := shardCount (MaxWorkers config) in
  let queueSize := if queueSize <? shards then shards else queueSize in
  zip (backend_resize shards (MinWorkers config) (MaxWorkers config))
      ((fun i => share queueSize shards i) <$> indices shards).

Definition defaultMinWorkers (maxWorkers : Z) : Z := Z.min maxWorkers (20 * procs).

Inductive panic := MaxWorkersNotPositive | MinWorkersOutOfRange | QueueSizeNegative | MaxConcurrentNotPositive | InvalidMode.

Definition validateAdaptiveRange (minWorkers maxWorkers : Z) : result panic unit :=
  if maxWorkers <=? 0 then Err MaxWorkersNotPositive
  else if (minWorkers <? 0) || (maxWorkers <? minWorkers) then Err MinWorkersOutOfRange
  else Ok tt.

(** The shards a pool starts with. *)
Inductive backend :=
| CondBackend (shards : list (Z * Z))
| ElasticBackend (maxWorkers queueSize : Z)
| AdaptiveBackend (shards : list (Z * Z * Z)).

Definition NewAdaptive (config : AdaptiveConfig) : result panic backend :=
  let! _ := validateAdaptiveRange (MinWorkers config) (MaxWorkers config) in
  if QueueSize config <? 0 then Err QueueSizeNegative
  else Ok (AdaptiveBackend (newAdaptiveBackend config)).

Definition NewWithMode (mode : Mode) (maxConcurrent queueSize : Z) : result panic backend :=
  if maxConcurrent <=? 0 then Err MaxConcurrentNotPositive
  else if queueSize <? 0 then Err QueueSizeNegative
  else match mode with
       | ModeElastic => Ok (ElasticBackend (maxConcurrent - 1) queueSize)
       | ModeCond => Ok (CondBackend (newCondBackend maxConcurrent queueSize))
       | ModeAdaptive => Ok (AdaptiveBackend (newAdaptiveBackend
           {| MinWorkers := defaultMinWorkers maxConcurrent; MaxWorkers := maxConcurrent; QueueSize := queueSize |}))
       | ModeOther _ => Err InvalidMode
       end.

(** [TaskPool.Resize]; [None] reports false. *)
Definition Resize (b : backend) (minWorkers maxWorkers : Z) : option (result panic (list (Z * Z))) :=
  match b with
  | AdaptiveBackend shards =>
      Some (let! _ := validateAdaptiveRange minWorkers maxWorkers in
            Ok (backend_resize (len shards) minWorkers maxWorkers))
  | _ => None
  end.
End sizes.

(** [int(x)] of a [uint32] where [int] has [w] bits. *)
Definition int_of_u32 (w x : Z) : Z := if x <? 2 ^ (w - 1) then x else if w <=? 32 then x - 2 ^ w else x.

(** [pick] of both sharded backends: the counter is atomic, so each call sees
    the value it left, and [%] of Go truncates. *)
Definition pick (w shards next : Z) : Z * Z :=
  let n := u32 (next + 1) in
  (Z.rem (int_of_u32 w (u32 (n - 1))) shards, n).

(** * The split *)

Lemma indices_snoc n : indices (Z.of_nat (S n)) = indices (Z.of_nat n) ++ [Z.of_nat n].
Proof.
  unfold indices. replace (Z.of_nat (S n)) with (Z.of_nat n + 1) by lia.
  rewrite seqZ_app by lia. rewrite Z.add_0_l. by rewrite (seqZ_cons (Z.of_nat n) 1) by lia.
Qed.

Lemma total_share t n k :
  0 < n -> 0 <= t -> Z.of_nat k <= n ->
  total (share t n) (indices (Z.of_nat k)) = Z.of_nat k * (t / n) + Z.min (Z.of_nat k) (t mod n).
Proof.
  intros Hn Ht. pose proof (Z.mod_pos_bound t n Hn).
  induction k as [|k IH]; intros Hk.
  { change (total (share t n) (indices (Z.of_nat 0))) with 0. lia. }
  rewrite indices_snoc, total_app, IH by lia. cbn [total]. unfold share at 1.
  rewrite Nat2Z.inj_succ, Z.mul_succ_l. destruct (Z.ltb_spec (Z.of_nat k) (t mod n)); lia.
Qed.

(** The shares add up to the whole. *)
Lemma share_total t n : 0 < n -> 0 <= t -> total (share t n) (indices n) = t.
Proof.
  intros Hn Ht. pose proof (total_share t n (Z.to_nat n) Hn Ht ltac:(lia)) as H.
  rewrite Z2Nat.id in H by lia. rewrite H. pose proof (Z.mod_pos_bound t n Hn).
  rewrite Z.min_r by lia. pose proof (Z.div_mod t n). lia.
Qed.

Lemma share_bounds t n i : 0 < n -> 0 <= t -> t / n <= share t n i <= t / n + 1.
Proof. intros. unfold share. destruct (i <? t mod n); lia. Qed.

Lemma share_mono s t n i : 0 < n -> 0 <= s <= t -> share s n i <= share t n i.
Proof.
  intros Hn Hst. unfold share. pose proof (Z.div_le_mono s t n Hn ltac:(lia)).
  pose proof (Z.div_mod s n). pose proof (Z.div_mod t n).
  destruct (Z.ltb_spec i (s mod n)), (Z.ltb_spec i (t mod n)); try lia.
  assert (s / n <> t / n) by (intros E; rewrite E in *; lia). lia.
Qed.

Lemma total_fmap {A B} (f : B -> Z) (g : A -> B) l : total f (g <$> l) = total (fun x => f (g x)) l.
Proof. induction l as [|x l IH]; [done|]. rewrite fmap_cons. cbn. by rewrite IH. Qed.

Lemma total_ext {A} (f g : A -> Z) l : (forall x, In x l -> f x = g x) -> total f l = total g l.
Proof. induction l as [|x l IH]; intros H; cbn; [done|]. rewrite (H x (or_introl eq_refl)), IH; [done|]. intros; apply H; by right. Qed.

Lemma shardCount_spec procs w :
  1 <= procs -> 0 < w -> 1 <= shardCount procs w <= procs /\ shardCount procs w <= w.
Proof.
  intros Hp Hw. unfold shardCount, workersPerShard.
  pose proof (Z.div_mod w 8 ltac:(lia)). pose proof (Z.mod_pos_bound w 8 ltac:(lia)).
  destruct (Z.ltb_spec procs (w / 8)); destruct (Z.ltb_spec (if true then 1 else 1) 1); try lia;
    match goal with |- context [if ?x <? 1 then _ else _] => destruct (Z.ltb_spec x 1) end; lia.
Qed.

(** sharding loses nothing.  The workers and the queue slots of the shards
    [newCondBackend] makes add up to exactly what was asked for, every shard
    has at least one worker, and there are at most [GOMAXPROCS] shards. *)
Theorem newCondBackend_split procs workerCount queueSize :
  1 <= procs -> 0 < workerCount -> 0 <= queueSize ->
  let shards := newCondBackend procs workerCount queueSize in
  total fst shards = workerCount /\ total snd shards = queueSize /\
  Forall (fun s => 1 <= fst s /\ 0 <= snd s) shards /\ 1 <= len shards <= procs.
Proof.
  intros Hp Hw Hq. cbn zeta. unfold newCondBackend.
  destruct (shardCount_spec procs workerCount Hp Hw) as [Hs Hsw].
  destruct (Z.leb_spec (shardCount procs workerCount) 1).
  { assert (Forall (fun s => 1 <= fst s /\ 0 <= snd s) [(workerCount, queueSize)]) by (apply Forall_singleton; cbn; lia).
    cbn. unfold len. cbn. split_and!; auto; lia. }
  set (n := shardCount procs workerCount) in *. rewrite !total_fmap. cbn [fst snd].
  split_and!.
  - by apply (share_total workerCount n); lia.
  - by apply (share_total queueSize n); lia.
  - apply Forall_fmap, Forall_forall. intros i _. cbn.
    pose proof (Z.div_le_lower_bound workerCount n 1). pose proof (Z.div_pos queueSize n).
    destruct (i <? workerCount mod n), (i <? queueSize mod n); lia.
  - unfold len. rewrite length_fmap. unfold indices. rewrite length_seqZ. lia.
  - unfold len. rewrite length_fmap. unfold indices. rewrite length_seqZ. lia.
Qed.

Lemma backend_resize_wf shards mn mx :
  0 < shards -> 0 <= mn <= mx ->
  Forall (fun s => 0 <= fst s <= snd s /\ 1 <= snd s) (backend_resize shards mn mx) /\
  total fst (backend_resize shards mn mx) = mn /\
  (shards <= mx -> total snd (backend_resize shards mn mx) = mx).
Proof.
  intros Hs Hm. unfold backend_resize. rewrite !total_fmap. cbn [fst snd]. split_and!.
  - apply Forall_fmap, Forall_forall. intros i _. cbn.
    pose proof (share_mono mn mx shards i Hs Hm). pose proof (share_bounds mn shards i Hs ltac:(lia)).
    pose proof (Z.div_pos mn shards). lia.
  - apply share_total; lia.
  - intros Hle. etrans; [|apply (share_total mx shards); lia]. apply total_ext. intros i _.
    pose proof (share_bounds mx shards i Hs ltac:(lia)). pose proof (Z.div_le_lower_bound mx shards 1). lia.
Qed.

Lemma Forall_zip {A B} (P : A -> Prop) (Q : B -> Prop) l k :
  Forall P l -> Forall Q k -> Forall (fun p => P p.1 /\ Q p.2) (zip l k).
Proof.
  intros Hl. revert k. induction Hl as [|x l Hx _ IH]; intros k Hk; [constructor|].
  destruct Hk; cbn; constructor; auto.
Qed.

Lemma total_zip_fst {A B} (f : A -> Z) (l : list A) (k : list B) :
  length l = length k -> total (fun p => f p.1) (zip l k) = total f l.
Proof.
  revert k. induction l as [|x l IH]; intros [|y k] E; try done. cbn in *. rewrite IH; [done|lia].
Qed.

(** the shards of an adaptive pool are well formed.  Each has a floor
    between zero and its ceiling, a ceiling of at least one worker and a queue
    slot, which is what the theorems on a shard assume; and the floors and the
    ceilings add up to the configured ones. *)
Theorem newAdaptiveBackend_split procs config :
  1 <= procs -> 0 <= MinWorkers config <= MaxWorkers config -> 1 <= MaxWorkers config -> 0 <= QueueSize config ->
  let shards := newAdaptiveBackend procs config in
  Forall (fun s => (0 <= s.1.1 <= s.1.2 /\ 1 <= s.1.2) /\ 1 <= s.2) shards /\
  total (fun s => s.1.1) shards = MinWorkers config /\ total (fun s => s.1.2) shards = MaxWorkers config /\
  1 <= len shards <= procs.
Proof.
  intros Hp Hm Hx Hq. cbn zeta. unfold newAdaptiveBackend.
  destruct (shardCount_spec procs (MaxWorkers config) Hp ltac:(lia)) as [Hs Hsw].
  set (n := shardCount procs (MaxWorkers config)) in *.
  destruct (backend_resize_wf n (MinWorkers config) (MaxWorkers config) ltac:(lia) Hm) as (Hwf & Hmin & Hmax).
  set (q := if QueueSize config <? n then n else QueueSize config).
  assert (n <= q) by (subst q; destruct (Z.ltb_spec (QueueSize config) n); lia).
  assert (Hl : length (backend_resize n (MinWorkers config) (MaxWorkers config)) =
    length ((fun i => share q n i) <$> indices n)) by (unfold backend_resize; by rewrite !length_fmap).
  split_and!.
  - apply (Forall_zip (fun s : Z * Z => 0 <= s.1 <= s.2 /\ 1 <= s.2) (fun s => 1 <= s)); [done|]. apply Forall_fmap, Forall_forall. intros i _. cbn.
    pose proof (share_bounds q n i ltac:(lia) ltac:(lia)). pose proof (Z.div_le_lower_bound q n 1). lia.
  - rewrite (total_zip_fst fst); done.
  - rewrite (total_zip_fst snd); [by apply Hmax|done].
  - unfold len. rewrite length_zip_with, <- Hl, Nat.min_id. unfold backend_resize, indices.
    rewrite length_fmap, length_seqZ. lia.
  - unfold len. rewrite length_zip_with, <- Hl, Nat.min_id. unfold backend_resize, indices.
    rewrite length_fmap, length_seqZ. lia.
Qed.

(** C3: round robin.  Where [int] has 64 bits a submission always lands on a
    shard, the shards are visited in order, and the counter's wrap-around at
    2^32 only restarts the order. *)
Theorem pick_round_robin shards next :
  0 < shards -> 0 <= next < 2 ^ 32 ->
  pick 64 shards next = (next mod shards, (next + 1) mod 2 ^ 32) /\ 0 <= fst (pick 64 shards next) < shards.
Proof.
  intros Hs Hn.
  assert (E : pick 64 shards next = (next mod shards, (next + 1) mod 2 ^ 32)).
  { unfold pick, u32.
    replace (((next + 1) mod 2 ^ 32 - 1) mod 2 ^ 32) with next.
    - unfold int_of_u32. destruct (Z.ltb_spec next (2 ^ (64 - 1))); [|lia]. by rewrite Z.rem_mod_nonneg by lia.
    - rewrite Zminus_mod_idemp_l. replace (next + 1 - 1) with next by lia. by rewrite Z.mod_small. }
  split; [done|]. rewrite E. cbn. by apply Z.mod_pos_bound.
Qed.

(** where [int] has 32 bits, the conversion of the counter is negative from
    the 2^31st submission to the 2^32nd, and the shard index with it unless the
    shards divide it: an index Go panics on. *)
Theorem pick_32bit_negative shards next :
  0 < shards -> 2 ^ 31 <= next < 2 ^ 32 -> (2 ^ 32 - next) mod shards <> 0 ->
  fst (pick 32 shards next) < 0.
Proof.
  intros Hs Hn Hd. unfold pick, u32.
  replace (((next + 1) mod 2 ^ 32 - 1) mod 2 ^ 32) with next.
  2: { rewrite Zminus_mod_idemp_l. replace (next + 1 - 1) with next by lia. by rewrite Z.mod_small by lia. }
  unfold int_of_u32. destruct (Z.ltb_spec next (2 ^ (32 - 1))); [lia|]. replace (32 <=? 32) with true by done. cbn [fst].
  replace (next - 2 ^ 32) with (- (2 ^ 32 - next)) by lia.
  rewrite Z.rem_opp_l', Z.rem_mod_nonneg by lia. pose proof (Z.mod_pos_bound (2 ^ 32 - next) shards Hs). lia.
Qed.

Lemma newCondBackend_split_witness : total fst (newCondBackend 4 20 10) = 20 /\ len (newCondBackend 4 20 10) = 2.
Proof. split; [apply (newCondBackend_split 4 20 10); lia|reflexivity]. Defined.

Lemma newAdaptiveBackend_split_witness :
  total (fun s => s.1.1) (newAdaptiveBackend 4 {| MinWorkers := 3; MaxWorkers := 17; QueueSize := 1 |}) = 3.
Proof. apply (newAdaptiveBackend_split 4 {| MinWorkers := 3; MaxWorkers := 17; QueueSize := 1 |}); cbn; lia. Defined.

Lemma pick_round_robin_witness : pick 64 3 (2 ^ 32 - 1) = (0, 0).
Proof. apply (pick_round_robin 3 (2 ^ 32 - 1)); lia. Defined.

Lemma pick_32bit_negative_witness : fst (pick 32 3 (2 ^ 31)) < 0.
Proof. apply (pick_32bit_negative 3 (2 ^ 31)); [lia|lia|vm_compute; discriminate]. Defined.
