(* ===== verification/Connection.v ===== *)
(** The output half of a connection (src/go/connection.go, with the Unix
    sendfile of src/go/sendfile_unix.go and src/go/sendfile_native.go): the
    send queue, direct writes, the flush loop, corking, and the pause decision
    that bounds what a connection buffers.

    A critical section under [c.mu] is one function on [Connection].  System
    calls are an oracle: a script of the results the kernel gives, consumed in
    order ([sysev]).  [wire] and [accepted] are ghosts: the bytes the kernel
    has taken, in order, and the bytes every accepted send promised, in order.
    The buffer behind an item is its capacity; the array it points to is the
    item's [data].  UDP connections and layers are other components. *)
From S2P Require Import Prelude.

(** [append]'s growth is the run time's: the new capacity holds what is
    appended, and an append that fits keeps it. *)
Class AppendCap := {
  append_cap : Z -> Z -> Z;
  append_cap_fits : forall c n, n <= append_cap c n;
  append_cap_same : forall c n, n <= c -> append_cap c n = c;
}.

(** What a file holds, for a descriptor: the byte at an offset, and where it
    ends. *)
Class Files := { file_at : Z -> Z -> Z; file_size : Z -> Z }.

Inductive err := EPIPE | ErrUnexpectedEOF | ErrSendFileRange | Errno (e : Z).

(** A system call's result. [Partial n intr] is macOS's sendfile, which reports
    a count together with EINTR or EAGAIN. *)
Inductive sysev :=
| Wrote (n : Z)
| Partial (n : Z) (intr : bool)
| EINTR
| EAGAIN
| Unsupported
| Failed (e : Z).

Record EngineConfig := {
  useWritev : bool;
  writeHighWatermark : Z;
  writeLowWatermark : Z;
  maxPendingBytes : Z;
  budgetResumeBytes : Z;
  retainedSendBuffer : Z;
}.

Definition maxWritevItems : Z := 64.
Definition maxSendFileCall : Z := 2 ^ 30.
Definition sendFileChunk : Z := 65536.

(** [copyBuf != nil] is [fs_copy]. *)
Record fileSegment := FileSegment { fs_fd : Z; fs_offset : Z; fs_remaining : Z; fs_copy : bool }.

Definition advance (n : Z) (s : fileSegment) : fileSegment :=
  FileSegment (fs_fd s) (fs_offset s + n) (fs_remaining s - n) (fs_copy s).

(** [it_data = None] is a nil slice. *)
Record sendItem := SendItem {
  it_data : option bytes;
  it_offset : Z;
  it_buf : option Z;
  it_file : option fileSegment;
}.

Definition zeroItem : sendItem := SendItem None 0 None None.

Definition item_len (it : sendItem) : Z := match it_data it with Some d => len d | None => 0 end.

(** More ghosts: the flush under way is the application's [Flush], which returns
    its error instead of closing with it; [Flush] has returned one; and a sendfile
    call came back short because the file had ended. *)
Record ghost := Ghost { byApp : bool; told : bool; starved : bool }.

Record Connection := Conn {
  sends : list sendItem;
  sendHead : Z;
  closing : bool;
  closed : bool;
  readPaused : bool;
  flushing : bool;
  corked : bool;
  closeAfterSend : bool;
  pendingBytes : Z;
  (** ghosts *)
  wire : bytes;
  accepted : bytes;
  (** the socket has refused bytes since it last became writable *)
  blocked : bool;
  (** a goroutine has the error of a failed write and goes on to close with it *)
  closer : bool;
  notes : ghost;
}.

Definition set_queue (s : list sendItem) (h : Z) (c : Connection) : Connection :=
  Conn s h (closing c) (closed c) (readPaused c) (flushing c) (corked c) (closeAfterSend c)
    (pendingBytes c) (wire c) (accepted c) (blocked c) (closer c) (notes c).
Definition set_pending (n : Z) (c : Connection) : Connection :=
  Conn (sends c) (sendHead c) (closing c) (closed c) (readPaused c) (flushing c) (corked c)
    (closeAfterSend c) n (wire c) (accepted c) (blocked c) (closer c) (notes c).
Definition set_flushing (b : bool) (c : Connection) : Connection :=
  Conn (sends c) (sendHead c) (closing c) (closed c) (readPaused c) b (corked c) (closeAfterSend c)
    (pendingBytes c) (wire c) (accepted c) (blocked c) (closer c) (notes c).
Definition set_corked (b : bool) (c : Connection) : Connection :=
  Conn (sends c) (sendHead c) (closing c) (closed c) (readPaused c) (flushing c) b (closeAfterSend c)
    (pendingBytes c) (wire c) (accepted c) (blocked c) (closer c) (notes c).
Definition set_closing (cl cd : bool) (c : Connection) : Connection :=
  Conn (sends c) (sendHead c) cl cd (readPaused c) (flushing c) (corked c) (closeAfterSend c)
    (pendingBytes c) (wire c) (accepted c) (blocked c) (closer c) (notes c).
Definition set_closeAfterSend (c : Connection) : Connection :=
  Conn (sends c) (sendHead c) (closing c) (closed c) (readPaused c) (flushing c) (corked c) true
    (pendingBytes c) (wire c) (accepted c) (blocked c) (closer c) (notes c).
Definition set_readPaused (b : bool) (c : Connection) : Connection :=
  Conn (sends c) (sendHead c) (closing c) (closed c) b (flushing c) (corked c) (closeAfterSend c)
    (pendingBytes c) (wire c) (accepted c) (blocked c) (closer c) (notes c).
Definition put_wire (b : bytes) (c : Connection) : Connection :=
  Conn (sends c) (sendHead c) (closing c) (closed c) (readPaused c) (flushing c) (corked c)
    (closeAfterSend c) (pendingBytes c) (wire c ++ b) (accepted c) (blocked c) (closer c) (notes c).
Definition put_accepted (b : bytes) (c : Connection) : Connection :=
  Conn (sends c) (sendHead c) (closing c) (closed c) (readPaused c) (flushing c) (corked c)
    (closeAfterSend c) (pendingBytes c) (wire c) (accepted c ++ b) (blocked c) (closer c) (notes c).
Definition set_blocked (b : bool) (c : Connection) : Connection :=
  Conn (sends c) (sendHead c) (closing c) (closed c) (readPaused c) (flushing c) (corked c)
    (closeAfterSend c) (pendingBytes c) (wire c) (accepted c) b (closer c) (notes c).
Definition set_closer (c : Connection) : Connection :=
  Conn (sends c) (sendHead c) (closing c) (closed c) (readPaused c) (flushing c) (corked c)
    (closeAfterSend c) (pendingBytes c) (wire c) (accepted c) (blocked c) true (notes c).
Definition set_notes (g : ghost) (c : Connection) : Connection :=
  Conn (sends c) (sendHead c) (closing c) (closed c) (readPaused c) (flushing c) (corked c)
    (closeAfterSend c) (pendingBytes c) (wire c) (accepted c) (blocked c) (closer c) g.
Definition set_byApp (b : bool) (c : Connection) : Connection := set_notes (Ghost b (told (notes c)) (starved (notes c))) c.
Definition set_told (c : Connection) : Connection := set_notes (Ghost (byApp (notes c)) true (starved (notes c))) c.
Definition set_starved (c : Connection) : Connection := set_notes (Ghost (byApp (notes c)) (told (notes c)) true) c.

Section conn.
Context `{!AppendCap, !Files} (cfg : EngineConfig).

Definition file_bytes (fd o n : Z) : bytes := (fun i => file_at fd (o + i)) <$> seqZ 0 n.

(** * The queue *)

Definition queue_empty (c : Connection) : bool := sendHead c =? len (sends c).

Definition canWriteDirectlyLocked (c : Connection) : bool :=
  queue_empty c && negb (flushing c) && negb (corked c).

Definition rewindQueueLocked (c : Connection) : Connection := set_queue [] 0 c.

(** [releaseItemLocked] leaves the zero item. *)
Definition releaseItemLocked (i : Z) (c : Connection) : Connection :=
  set_queue (<[Z.to_nat i := zeroItem]> (sends c)) (sendHead c) c.

Definition set_item (i : Z) (it : sendItem) (c : Connection) : Connection :=
  set_queue (<[Z.to_nat i := it]> (sends c)) (sendHead c) c.

(** [consumeLocked]'s loop; every round but the last takes an item off, so the
    number of items is fuel enough. *)
Fixpoint consume_loop (fuel : nat) (left : Z) (c : Connection) : Connection :=
  match fuel with
  | O => c
  | S fuel =>
      match at_ (sends c) (sendHead c) with
      | None => c
      | Some it =>
          let next left := consume_loop fuel left
            (let c := releaseItemLocked (sendHead c) c in set_queue (sends c) (sendHead c + 1) c) in
          match it_file it, it_data it with
          | Some f, None =>
              if left <? fs_remaining f
              then set_item (sendHead c) (SendItem None (it_offset it) (it_buf it) (Some (advance left f))) c
              else next (left - fs_remaining f)
          | _, _ =>
              let remaining := item_len it - it_offset it in
              if left <? remaining
              then set_item (sendHead c) (SendItem (it_data it) (it_offset it + left) (it_buf it) (it_file it)) c
              else
                let left := left - remaining in
                match it_file it with
                | Some f =>
                    if 0 <? fs_remaining f
                    then set_item (sendHead c) (SendItem None 0 (it_buf it) (Some f)) c
                    else next left
                | None => next left
                end
          end
      end
  end.

Definition consumeLocked (n : Z) (c : Connection) : Connection :=
  consume_loop (length (sends c)) n c.

Definition queueLocked (first second : bytes) (c : Connection) : Connection :=
  let fresh c :=
    let c := if queue_empty c then rewindQueueLocked c else c in
    let cap := append_cap (append_cap (retainedSendBuffer cfg) (len first)) (len first + len second) in
    set_queue (sends c ++ [SendItem (Some (first ++ second)) 0 (Some cap) None]) (sendHead c) c in
  match last (sends c) with
  | Some tail =>
      match it_buf tail with
      | Some cap =>
          if (it_offset tail =? 0) && (item_len tail + len first + len second <=? cap)
          then set_item (len (sends c) - 1)
                 (SendItem (Some (default [] (it_data tail) ++ first ++ second)) (it_offset tail) (Some cap) (it_file tail)) c
          else fresh c
      | None => fresh c
      end
  | None => fresh c
  end.

Definition queueOwnedLocked (data : bytes) (c : Connection) : Connection :=
  let c := if queue_empty c then rewindQueueLocked c else c in
  set_queue (sends c ++ [SendItem (Some data) 0 None None]) (sendHead c) c.

(** * Backpressure *)

(** [pauseDecision], given the engine's [pendingTotal]. *)
Definition pauseDecision (total : Z) (paused : bool) (pending : Z) : bool * bool :=
  if (0 <? maxPendingBytes cfg) && (maxPendingBytes cfg <=? total) then (true, true)
  else if writeHighWatermark cfg <=? 0 then (false, false)
  else if writeHighWatermark cfg <=? pending then (true, false)
  else (paused && (writeLowWatermark cfg <? pending), false).

Definition pauseStateChangedLocked (total : Z) (c : Connection) : bool :=
  negb (Bool.eqb (fst (pauseDecision total (readPaused c) (pendingBytes c))) (readPaused c)).

(** [addPending] and [subPending]: the connection, and what the engine's total
    changes by. *)
Definition addPending (n : Z) (c : Connection) : Connection * Z :=
  if n <=? 0 then (c, 0) else (set_pending (pendingBytes c + n) c, n).

Definition subPending (n : Z) (c : Connection) : Connection * Z :=
  if n <=? 0 then (c, 0)
  else
    let pending := pendingBytes c - n in
    let '(c, n) := if pending <? 0 then (set_pending 0 c, n + pending) else (set_pending pending c, n) in
    (c, if 0 <? n then - n else 0).

(** * Sending *)

(** A direct write, repeated while it is interrupted. *)
Fixpoint write_retry (script : list sysev) : option (sysev * list sysev) :=
  match script with
  | [] => None
  | EINTR :: script => write_retry script
  | ev :: script => Some (ev, script)
  end.

(** What a critical section of a send leaves: the connection, the change of
    the total, whether a refresh is requested, and the error returned. *)
Record outcome := Outcome { o_conn : Connection; o_total : Z; o_refresh : bool; o_err : option err }.

(** The end of [send] and [SendParts], once [n] bytes are queued: count them
    and see whether the pause state moved. *)
Definition send_finish (total n : Z) (c : Connection) : outcome :=
  let '(c, d) := addPending n c in
  Outcome c d (negb (corked c) && pauseStateChangedLocked (total + d) c) None.

Definition refuses (c : Connection) : bool := closing c || closed c || closeAfterSend c.

(** [send]; [put sent c] queues what a direct write left. *)
Definition send_with (size : Z) (all : bytes) (put : Z -> Connection -> Connection)
  (total : Z) (script : list sysev) (c : Connection) : option (outcome * list sysev) :=
  if size =? 0 then Some (Outcome c 0 false None, script)
  else if refuses c then Some (Outcome c 0 false (Some EPIPE), script)
  else
    let queue sent c script :=
      if sent =? size then Some (Outcome (put_accepted all c) 0 false None, script)
      else Some (send_finish total (size - sent) (put sent (put_accepted all c)), script) in
    if canWriteDirectlyLocked c then
      match write_retry script with
      | Some (Wrote n, script) => queue n (set_blocked (blocked c || (n <? size)) (put_wire (take (Z.to_nat n) all) c)) script
      | Some (EAGAIN, script) => queue 0 (set_blocked true c) script
      | Some (Failed e, script) => Some (Outcome (set_closer c) 0 false (Some (Errno e)), script)
      | _ => None
      end
    else queue 0 c script.

Definition send (data : bytes) (copyData : bool) : Z -> list sysev -> Connection -> option (outcome * list sysev) :=
  send_with (len data) data (fun sent c =>
    let queued := drop (Z.to_nat sent) data in
    if copyData then queueLocked queued [] c else queueOwnedLocked queued c).

Definition SendParts (first second : bytes) : Z -> list sysev -> Connection -> option (outcome * list sysev) :=
  send_with (len first + len second) (first ++ second) (fun sent c =>
    if sent <? len first then queueLocked (drop (Z.to_nat sent) first) second c
    else queueLocked (drop (Z.to_nat (sent - len first)) second) [] c).

(** [SendFile]'s critical section; true when it goes on to flush. *)
Definition SendFile (fd o n : Z) (c : Connection) : Connection * bool * option err :=
  if (o <? 0) || (n <? 0) then (c, false, Some ErrSendFileRange)
  else if n =? 0 then (c, false, None)
  else if refuses c then (c, false, Some EPIPE)
  else
    let direct := canWriteDirectlyLocked c in
    let c := if queue_empty c then rewindQueueLocked c else c in
    let c := put_accepted (file_bytes fd o n) c in
    (set_queue (sends c ++ [SendItem None 0 None (Some (FileSegment fd o n false))]) (sendHead c) c, direct, None).

(** * Flushing *)

(** [sysSendFileLocked]'s sendfile call, repeated while it is interrupted. *)
Fixpoint sendfile_retry (script : list sysev) : option (sysev * list sysev) :=
  match script with
  | [] => None
  | EINTR :: script => sendfile_retry script
  | ev :: script => Some (ev, script)
  end.

(** The result of a write attempt: [n], [attempted], [fromFile] and [err]. *)
Inductive werr := WNone | WIntr | WAgain | WErr (e : err).
Record attempt := Attempt { a_n : Z; a_attempted : Z; a_fromFile : bool; a_err : werr }.

Definition of_write (ev : sysev) (attempted : Z) (fromFile : bool) : attempt :=
  match ev with
  | Wrote n | Partial n _ => Attempt n attempted fromFile WNone
  | EINTR => Attempt 0 attempted fromFile WIntr
  | EAGAIN => Attempt 0 attempted fromFile WAgain
  | Unsupported => Attempt 0 attempted fromFile (WErr (Errno 0))
  | Failed e => Attempt 0 attempted fromFile (WErr (Errno e))
  end.

(** The copying fallback: read a chunk, write it. *)
Definition sendfile_copy (s : fileSegment) (script : list sysev) : option (attempt * fileSegment * list sysev) :=
  let chunk := Z.min (fs_remaining s) sendFileChunk in
  match script with
  | Wrote read :: script =>
      if read =? 0 then Some (Attempt 0 chunk true (WErr ErrUnexpectedEOF), s, script)
      else match script with
           | ev :: script => Some (of_write ev read true, s, script)
           | [] => None
           end
  | ev :: script => Some (of_write ev chunk true, s, script)
  | [] => None
  end.

Definition sysSendFileLocked (s : fileSegment) (script : list sysev) : option (attempt * fileSegment * list sysev) :=
  let attempted := Z.min (fs_remaining s) maxSendFileCall in
  if fs_copy s then sendfile_copy s script
  else match sendfile_retry script with
  | Some (Wrote n, script) =>
      Some (if n =? 0 then Attempt 0 attempted true (WErr ErrUnexpectedEOF) else Attempt n attempted true WNone, s, script)
  | Some (Partial n intr, script) => Some (Attempt n (if intr then n else attempted) true WNone, s, script)
  | Some (EAGAIN, script) => Some (Attempt 0 attempted true WAgain, s, script)
  | Some (Failed e, script) => Some (Attempt 0 attempted true (WErr (Errno e)), s, script)
  | Some (Unsupported, script) =>
      sendfile_copy (FileSegment (fs_fd s) (fs_offset s) (fs_remaining s) true) script
  | _ => None
  end.

(** The buffers one [writev] hands over: up to a file, at most [count]. *)
Fixpoint gather (count : nat) (items : list sendItem) : bytes :=
  match count, items with
  | S count, it :: items =>
      match it_file it with
      | Some _ => []
      | None => drop (Z.to_nat (it_offset it)) (default [] (it_data it)) ++ gather count items
      end
  | _, _ => []
  end.

(** One write attempt of the flush loop, on the bytes it offers. *)
Definition flush_attempt (script : list sysev) (c : Connection)
  : option (attempt * bytes * Connection * list sysev) :=
  match at_ (sends c) (sendHead c) with
  | None => None
  | Some head =>
      let pending := len (sends c) - sendHead c in
      match it_file head with
      | Some s =>
          match sysSendFileLocked s script with
          | Some (a, s', script) =>
              Some (a, file_bytes (fs_fd s) (fs_offset s) (fs_remaining s),
                    set_item (sendHead c) (SendItem (it_data head) (it_offset head) (it_buf head) (Some s')) c, script)
          | None => None
          end
      | None =>
          let offered :=
            if useWritev cfg && (1 <? pending)
            then gather (Z.to_nat (Z.min pending maxWritevItems)) (drop (Z.to_nat (sendHead c)) (sends c))
            else drop (Z.to_nat (it_offset head)) (default [] (it_data head)) in
          match script with
          | ev :: script => Some (of_write ev (len offered) false, offered, c, script)
          | [] => None
          end
      end
  end.

(** Whether the file at the head ends where a sendfile call has taken [n] bytes
    more of it: such a call is short whether or not the socket has room. *)
Definition at_end (n : Z) (c : Connection) : bool :=
  match at_ (sends c) (sendHead c) with
  | Some (SendItem _ _ _ (Some s)) => negb (fs_copy s) && (file_size (fs_fd s) <=? fs_offset s + n)
  | _ => false
  end.

Inductive flushed :=
| FlushAgain
| FlushDone (close refresh : bool)
| FlushWait (refresh : bool)
| FlushError (e : err).

(** One round of [flushOutput]'s loop, under the lock. *)
Definition flush_round (total : Z) (script : list sysev) (c : Connection)
  : option (flushed * Connection * Z * list sysev) :=
  if queue_empty c then
    let c := set_flushing false (rewindQueueLocked c) in
    Some (FlushDone (closeAfterSend c) (pauseStateChangedLocked total c), c, 0, script)
  else
    match flush_attempt script c with
    | None => None
    | Some (a, offered, c, script) =>
        if 0 <? a_n a then
          let ended := at_end (a_n a) c in
          let c := put_wire (take (Z.to_nat (a_n a)) offered) c in
          let '(c, d) := if a_fromFile a then (c, 0) else subPending (a_n a) c in
          let c := consumeLocked (a_n a) c in
          if a_n a <? a_attempted a then
            let c := set_flushing false c in
            let c := if ended then set_starved c else set_blocked true c in
            Some (FlushWait (pauseStateChangedLocked (total + d) c), c, d, script)
          else Some (FlushAgain, c, d, script)
        else
          match a_err a with
          | WIntr => Some (FlushAgain, c, 0, script)
          | WAgain =>
              let c := set_blocked true (set_flushing false c) in
              Some (FlushWait (pauseStateChangedLocked total c), c, 0, script)
          | WErr e =>
              let c := set_flushing false c in
              Some (FlushError e, if byApp (notes c) then set_told c else set_closer c, 0, script)
          | WNone => Some (FlushWait false, set_flushing false c, 0, script)
          end
    end.

(** [flushOutput]'s first critical section: true when the loop is entered. *)
Definition flush_begin (c : Connection) : Connection * bool * option err :=
  if closing c || closed c || flushing c
  then (c, false, if negb (closing c) && negb (closed c) then None else Some EPIPE)
  else (set_flushing true c, true, None).

(** [uncork]; true when it goes on to flush. *)
Definition uncork (c : Connection) : Connection * bool :=
  (set_corked false c, corked c && negb (queue_empty c)).

(** * Closing *)

(** [closeAfterSendRaw]; true when it goes on to close. *)
Definition closeAfterSendRaw (c : Connection) : Connection * bool :=
  if refuses c then (c, false)
  else (set_closeAfterSend c, queue_empty c && negb (flushing c)).

(** [closeWithError]; true when it requests the close. *)
Definition closeWithError (c : Connection) : Connection * bool :=
  (set_closing true (closed c) c, negb (closing c) && negb (closed c)).

(** [closeConnection]'s critical section, and the change of the total. *)
Definition closeConnection (c : Connection) : Connection * Z :=
  if closed c then (c, 0)
  else
    let d := if 0 <? pendingBytes c then - pendingBytes c else 0 in
    (set_pending 0 (set_queue [] 0 (set_closing true true c)), d).

(** * The stream a queue stands for *)

Definition item_rest (it : sendItem) : bytes :=
  match it_file it with
  | Some f => file_bytes (fs_fd f) (fs_offset f) (fs_remaining f)
  | None => drop (Z.to_nat (it_offset it)) (default [] (it_data it))
  end.

(** Bytes an item holds in memory. *)
Definition item_mem (it : sendItem) : Z :=
  match it_file it with Some _ => 0 | None => item_len it - it_offset it end.

Definition item_ok (it : sendItem) : Prop :=
  match it_file it with
  | Some f => it_data it = None /\ it_buf it = None /\ it_offset it = 0 /\ 0 < fs_remaining f
  | None => exists d, it_data it = Some d /\ 0 <= it_offset it < len d
  end.

Definition live (c : Connection) : list sendItem := drop (Z.to_nat (sendHead c)) (sends c).
Definition queue_bytes (c : Connection) : bytes := live c ≫= item_rest.
Definition queue_mem (c : Connection) : Z := total item_mem (live c).

(** The queue is drained items, then live ones. *)
Definition queue_ok (c : Connection) : Prop :=
  exists zs, sends c = zs ++ live c /\ sendHead c = len zs /\ Forall (eq zeroItem) zs /\ Forall item_ok (live c).

Lemma live_app c zs lv : sends c = zs ++ lv -> sendHead c = len zs -> live c = lv.
Proof. unfold live. intros -> ->. unfold len. rewrite Nat2Z.id. apply drop_app_length. Qed.

Lemma queue_ok_intro c zs lv :
  sends c = zs ++ lv -> sendHead c = len zs -> Forall (eq zeroItem) zs -> Forall item_ok lv ->
  queue_ok c /\ live c = lv.
Proof.
  intros Hs Hh Hz Hl. pose proof (live_app c zs lv Hs Hh) as E. split; [|done].
  exists zs. by rewrite E.
Qed.

Lemma queue_empty_live c : queue_ok c -> queue_empty c = true <-> live c = [].
Proof.
  intros (zs & Hs & Hh & _). unfold queue_empty. rewrite Hh, Hs, len_app.
  pose proof (len_nonneg (live c)). destruct (Z.eqb_spec (len zs) (len zs + len (live c))); split; try done.
  - intros _. apply len_zero_nil. lia.
  - intros E. rewrite E, (@len_nil sendItem) in *. lia.
Qed.

Lemma file_bytes_len fd o n : 0 <= n -> len (file_bytes fd o n) = n.
Proof. intros. unfold file_bytes, len. rewrite length_fmap, length_seqZ. lia. Qed.

Lemma file_bytes_drop fd o n k :
  0 <= k <= n -> drop (Z.to_nat k) (file_bytes fd o n) = file_bytes fd (o + k) (n - k).
Proof.
  intros Hk. unfold file_bytes. replace n with (k + (n - k)) at 1 by lia.
  rewrite seqZ_app, fmap_app by lia.
  rewrite drop_app_ge by (rewrite length_fmap, length_seqZ; lia).
  rewrite length_fmap, length_seqZ, Nat.sub_diag. cbn [drop].
  rewrite Z.add_0_l, <- (Z.add_0_r k) at 1. rewrite <- fmap_add_seqZ, <- list_fmap_compose.
  apply list_fmap_ext. intros _ x _. unfold compose. f_equal. lia.
Qed.

Lemma item_rest_pos it : item_ok it -> 0 < len (item_rest it).
Proof.
  unfold item_ok, item_rest. destruct (it_file it) as [f|].
  - intros (_ & _ & _ & Hr). rewrite file_bytes_len; lia.
  - intros (d & -> & Ho). cbn. rewrite len_drop. lia.
Qed.

Lemma item_mem_rest it : item_ok it -> it_file it = None -> item_mem it = len (item_rest it).
Proof.
  unfold item_ok, item_mem, item_rest, item_len. intros Hok E. rewrite E in *.
  destruct Hok as (d & -> & Ho). cbn. rewrite len_drop. lia.
Qed.

Lemma item_mem_nonneg it : item_ok it -> 0 <= item_mem it.
Proof.
  intros Hok. destruct (it_file it) eqn:E; [unfold item_mem; by rewrite E|].
  rewrite item_mem_rest by done. apply len_nonneg.
Qed.

(** ** Taking bytes off the head *)

Definition advance_item (n : Z) (it : sendItem) : sendItem :=
  match it_file it with
  | Some f => SendItem (it_data it) (it_offset it) (it_buf it) (Some (advance n f))
  | None => SendItem (it_data it) (it_offset it + n) (it_buf it) None
  end.

(** [consumeLocked] on the live items: how many drain, and what is left. *)
Fixpoint consume_list (left : Z) (l : list sendItem) : nat * list sendItem :=
  match l with
  | [] => (O, [])
  | it :: l' =>
      if left <? len (item_rest it) then (O, advance_item left it :: l')
      else let '(k, r) := consume_list (left - len (item_rest it)) l' in (S k, r)
  end.

Lemma item_rest_len it : item_ok it ->
  len (item_rest it) = match it_file it with Some f => fs_remaining f | None => item_len it - it_offset it end.
Proof.
  unfold item_ok, item_rest, item_len. destruct (it_file it) as [f|].
  - intros (_ & _ & _ & Hr). rewrite file_bytes_len; lia.
  - intros (d & -> & Ho). cbn. rewrite len_drop. lia.
Qed.

Lemma insert_middle {A} (zs lv : list A) x y : <[length zs := y]> (zs ++ x :: lv) = zs ++ y :: lv.
Proof. by rewrite insert_app_r_alt, Nat.sub_diag by lia. Qed.

Lemma consume_loop_list fuel lv : forall left zs c,
  sends c = zs ++ lv -> sendHead c = len zs -> Forall item_ok lv -> (length lv <= fuel)%nat ->
  consume_loop fuel left c =
    set_queue (zs ++ replicate (consume_list left lv).1 zeroItem ++ (consume_list left lv).2)
      (len zs + Z.of_nat (consume_list left lv).1) c.
Proof.
  revert lv. induction fuel as [|fuel IH]; intros lv left zs c Hs Hh Hok Hf.
  - destruct lv; [|cbn in Hf; lia]. cbn. rewrite <- Hs, Z.add_0_r, <- Hh. by destruct c.
  - destruct lv as [|it lv].
    { cbn. replace (at_ (sends c) (sendHead c)) with (@None sendItem).
      - rewrite <- Hs, Z.add_0_r, <- Hh. by destruct c.
      - rewrite Hs, Hh, app_nil_r. unfold at_. destruct (Z.leb_spec 0 (len zs)); [|done].
        unfold len. rewrite Nat2Z.id. symmetry. apply lookup_ge_None_2. lia. }
    apply Forall_cons in Hok as [Hit Hok]. cbn [consume_loop].
    replace (at_ (sends c) (sendHead c)) with (Some it).
    2: { rewrite Hs, Hh. unfold at_. pose proof (len_nonneg zs). destruct (Z.leb_spec 0 (len zs)); [|lia].
         unfold len. by rewrite Nat2Z.id, list_lookup_middle. }
    assert (Hnext : forall left', consume_loop fuel left'
        (set_queue (sends (releaseItemLocked (sendHead c) c)) (sendHead (releaseItemLocked (sendHead c) c) + 1)
           (releaseItemLocked (sendHead c) c)) =
      set_queue (zs ++ replicate (S (consume_list left' lv).1) zeroItem ++ (consume_list left' lv).2)
        (len zs + Z.of_nat (S (consume_list left' lv).1)) c).
    { intros left'. rewrite (IH lv left' (zs ++ [zeroItem])).
      - unfold releaseItemLocked, set_queue. cbn. f_equal; [by rewrite <- (assoc_L (++))|].
        rewrite len_app, len_cons, (@len_nil sendItem). lia.
      - cbn. rewrite Hs, Hh. unfold len. rewrite Nat2Z.id, insert_middle. by rewrite <- (assoc_L (++)).
      - cbn. rewrite Hh, len_app, len_cons, (@len_nil sendItem). lia.
      - done.
      - cbn in Hf. lia. }
    pose proof (item_rest_len it Hit) as Hlen.
    assert (Hset : forall it', set_item (sendHead c) it' c = set_queue (zs ++ it' :: lv) (len zs) c).
    { intros it'. unfold set_item. rewrite Hs, Hh. unfold len. by rewrite Nat2Z.id, insert_middle. }
    cbn [consume_list]. rewrite Hlen. unfold item_ok in Hit. unfold advance_item.
    destruct (it_file it) as [f|] eqn:Ef.
    + destruct Hit as (-> & -> & -> & Hr). destruct (left <? fs_remaining f).
      * rewrite Hset. cbn. by rewrite Z.add_0_r.
      * rewrite Hnext. by destruct (consume_list (left - fs_remaining f) lv).
    + destruct (left <? item_len it - it_offset it).
      * rewrite Hset. cbn. by rewrite Z.add_0_r.
      * rewrite Hnext. by destruct (consume_list (left - (item_len it - it_offset it)) lv).
Qed.

Lemma advance_item_ok n it :
  item_ok it -> 0 <= n < len (item_rest it) ->
  item_ok (advance_item n it) /\ item_rest (advance_item n it) = drop (Z.to_nat n) (item_rest it) /\
  item_mem (advance_item n it) = item_mem it - (if it_file it then 0 else n).
Proof.
  intros Hok Hn. rewrite item_rest_len in Hn by done.
  unfold item_ok, advance_item, item_rest, item_mem, item_len in *. destruct (it_file it) as [f|] eqn:Ef; cbn in *.
  - destruct Hok as (-> & -> & -> & Hr). split_and!; try done; try lia. by rewrite file_bytes_drop by lia.
  - destruct Hok as (d & Hd & Ho). rewrite Hd in *. cbn. split_and!; [exists d; split; [done|lia]| |lia].
    rewrite drop_drop. f_equal. lia.
Qed.

Lemma consume_list_spec lv : forall left,
  Forall item_ok lv -> 0 <= left <= len (lv ≫= item_rest) ->
  let r := (consume_list left lv).2 in
  Forall item_ok r /\ (r ≫= item_rest) = drop (Z.to_nat left) (lv ≫= item_rest).
Proof.
  induction lv as [|it lv IH]; intros left Hok Hl; cbn.
  - split; [done|]. by rewrite drop_nil.
  - apply Forall_cons in Hok as [Hit Hok]. cbn in Hl. rewrite len_app in Hl.
    destruct (Z.ltb_spec left (len (item_rest it))).
    + destruct (advance_item_ok left it Hit ltac:(lia)) as (Hok' & Hr & _). cbn. split; [by constructor|].
      rewrite Hr, drop_app_le; [done|unfold len in *; lia].
    + specialize (IH (left - len (item_rest it)) Hok ltac:(lia)).
      destruct (consume_list (left - len (item_rest it)) lv) as [k r]. cbn in *.
      destruct IH as [? ->]. split; [done|]. rewrite drop_app_ge by (unfold len in *; lia). f_equal. unfold len. lia.
Qed.

(** The bytes in memory ahead of the first file. *)
Definition gather_all (l : list sendItem) : bytes := gather (length l) l.

Lemma consume_list_mem lv : forall left,
  Forall item_ok lv -> 0 <= left <= len (gather_all lv) ->
  total item_mem (consume_list left lv).2 = total item_mem lv - left.
Proof.
  induction lv as [|it lv IH]; intros left Hok Hl; cbn in *.
  - rewrite (@len_nil Z) in Hl. lia.
  - apply Forall_cons in Hok as [Hit Hok]. unfold gather_all in Hl. cbn in Hl.
    destruct (it_file it) as [f|] eqn:Ef.
    + rewrite (@len_nil Z) in Hl. assert (left = 0) as -> by lia.
      pose proof (item_rest_pos it Hit). destruct (Z.ltb_spec 0 (len (item_rest it))); [|lia]. cbn.
      destruct (advance_item_ok 0 it Hit ltac:(lia)) as (_ & _ & ->). rewrite Ef. lia.
    + rewrite len_app in Hl. fold (gather_all lv) in Hl.
      assert (len (item_rest it) = len (drop (Z.to_nat (it_offset it)) (default [] (it_data it)))) as Er
        by (unfold item_rest; by rewrite Ef).
      rewrite <- Er in Hl. pose proof (item_mem_rest it Hit Ef).
      destruct (Z.ltb_spec left (len (item_rest it))).
      * cbn. destruct (advance_item_ok left it Hit ltac:(lia)) as (_ & _ & ->). rewrite Ef. lia.
      * specialize (IH (left - len (item_rest it)) Hok ltac:(lia)).
        destruct (consume_list (left - len (item_rest it)) lv) as [k r]. cbn in *. lia.
Qed.

Lemma consumeLocked_spec n c :
  queue_ok c -> 0 <= n <= len (queue_bytes c) ->
  exists zs, consumeLocked n c = set_queue (zs ++ (consume_list n (live c)).2) (len zs) c /\
    Forall (eq zeroItem) zs.
Proof.
  intros (zs & Hs & Hh & Hz & Hl) Hn. unfold consumeLocked.
  rewrite (consume_loop_list _ (live c) n zs c Hs Hh Hl).
  - exists (zs ++ replicate (consume_list n (live c)).1 zeroItem). split.
    + rewrite <- (assoc_L (++)). f_equal. rewrite len_app, len_replicate. lia.
    + apply Forall_app. split; [done|]. by apply Forall_replicate.
  - rewrite Hs, length_app. lia.
Qed.

(** ** Adding to the tail *)

(** [c'] is [c] with its queue replaced by one that holds [b] more, in memory
    or not. *)
Record appended (b : bytes) (mem : Z) (c c' : Connection) : Prop := {
  ap_conn : c' = set_queue (sends c') (sendHead c') c;
  ap_ok : queue_ok c';
  ap_bytes : queue_bytes c' = queue_bytes c ++ b;
  ap_mem : queue_mem c' = queue_mem c + mem;
  ap_live : live c' <> [];
}.

Lemma append_item it c :
  queue_ok c -> item_ok it ->
  appended (item_rest it) (item_mem it) c
    (let c := if queue_empty c then rewindQueueLocked c else c in set_queue (sends c ++ [it]) (sendHead c) c).
Proof.
  intros Hq Hit. pose proof (queue_empty_live c Hq) as He.
  destruct (queue_empty c); cbn zeta.
  - assert (live c = []) as Hl by by apply He.
    destruct (queue_ok_intro (set_queue ([] ++ [it]) 0 (rewindQueueLocked c)) [] [it]) as [Hok Hlv];
      [done|done|done|by apply Forall_singleton|].
    constructor; try done.
    + unfold queue_bytes. rewrite Hl. change (sends (rewindQueueLocked c)) with (@nil sendItem).
      change (sendHead (rewindQueueLocked c)) with 0. rewrite Hlv. cbn. by rewrite app_nil_r.
    + unfold queue_mem. rewrite Hl. change (sends (rewindQueueLocked c)) with (@nil sendItem).
      change (sendHead (rewindQueueLocked c)) with 0. rewrite Hlv. cbn. lia.
  - destruct Hq as (zs & Hs & Hh & Hz & Hl).
    destruct (queue_ok_intro (set_queue (sends c ++ [it]) (sendHead c) c) zs (live c ++ [it])) as [Hok Hlv].
    + cbn. rewrite Hs at 1. by rewrite <- (assoc_L (++)).
    + done.
    + done.
    + apply Forall_app. split; [done|by apply Forall_singleton].
    + constructor; try done.
      * unfold queue_bytes. rewrite Hlv, bind_app. cbn. by rewrite app_nil_r.
      * unfold queue_mem. rewrite Hlv, total_app. cbn. lia.
      * rewrite Hlv. by destruct (live c).
Qed.

Lemma item_mem_item b d : 0 < len d -> item_ok (SendItem (Some d) 0 b None) /\
  item_rest (SendItem (Some d) 0 b None) = d /\ item_mem (SendItem (Some d) 0 b None) = len d.
Proof. intros Hd. split_and!; [|done|unfold item_mem, item_len; cbn; lia]. exists d. cbn. split; [done|lia]. Qed.

Lemma queueOwnedLocked_spec d c :
  queue_ok c -> 0 < len d -> appended d (len d) c (queueOwnedLocked d c).
Proof.
  intros Hq Hd. destruct (item_mem_item None d Hd) as (Hit & Hr & Hm).
  pose proof (append_item _ c Hq Hit) as Hap. by rewrite Hr, Hm in Hap.
Qed.

Lemma last_app_live zs lv (tail : sendItem) :
  Forall (eq zeroItem) zs -> last (zs ++ lv) = Some tail -> it_buf tail <> None ->
  exists lv', lv = lv' ++ [tail].
Proof.
  intros Hz Hl Hb. destruct lv as [|x lv] using rev_ind.
  - rewrite app_nil_r in Hl. apply last_Some_elem_of in Hl. rewrite Forall_forall in Hz.
    specialize (Hz tail Hl). by subst tail.
  - rewrite (assoc_L (++)), last_snoc in Hl. injection Hl as ->. by exists lv.
Qed.

Lemma queueLocked_spec first second c :
  queue_ok c -> 0 < len first + len second ->
  appended (first ++ second) (len first + len second) c (queueLocked first second c).
Proof.
  intros Hq Hd. pose proof (len_app first second) as Hlen.
  assert (Hfresh : appended (first ++ second) (len first + len second) c
    (let c := if queue_empty c then rewindQueueLocked c else c in
     set_queue (sends c ++ [SendItem (Some (first ++ second)) 0
       (Some (append_cap (append_cap (retainedSendBuffer cfg) (len first)) (len first + len second))) None]) (sendHead c) c)).
  { destruct (item_mem_item (Some (append_cap (append_cap (retainedSendBuffer cfg) (len first)) (len first + len second)))
      (first ++ second) ltac:(lia)) as (Hit & Hr & Hm).
    pose proof (append_item _ c Hq Hit) as Hap. by rewrite Hr, Hm, Hlen in Hap. }
  unfold queueLocked. destruct (last (sends c)) as [tail|] eqn:Hlast; [|done].
  destruct (it_buf tail) as [cap|] eqn:Hbuf; [|done].
  destruct (Z.eqb_spec (it_offset tail) 0) as [Ho|]; [|done]. cbn [andb].
  destruct (item_len tail + len first + len second <=? cap); [|done]. clear Hfresh.
  destruct Hq as (zs & Hs & Hh & Hz & Hl). rewrite Hs in Hlast.
  destruct (last_app_live _ _ _ Hz Hlast ltac:(congruence)) as [lv' Hlv].
  rewrite Hlv in Hl. apply Forall_app in Hl as [Hl' Ht]. rewrite Forall_singleton in Ht.
  assert (Hf : it_file tail = None).
  { unfold item_ok in Ht. destruct (it_file tail) as [f|] eqn:Ef; [|done]. destruct Ht as (_ & ? & _). congruence. }
  unfold item_ok in Ht. rewrite Hf in Ht. destruct Ht as (d & Hd' & Hod).
  set (it' := SendItem _ _ _ _).
  assert (Hok' : item_ok it') by (unfold item_ok; cbn; rewrite Hf, Hd'; eexists; split; [done|]; cbn; rewrite !len_app; lia).
  assert (Hset : set_item (len (sends c) - 1) it' c = set_queue (zs ++ lv' ++ [it']) (sendHead c) c).
  { unfold set_item. f_equal. rewrite Hs, Hlv, (assoc_L (++)), len_app, len_cons, (@len_nil sendItem).
    replace (Z.to_nat (len (zs ++ lv') + (1 + 0) - 1)) with (length (zs ++ lv')) by (unfold len; lia).
    rewrite insert_middle. by rewrite <- (assoc_L (++)). }
  rewrite Hset.
  destruct (queue_ok_intro (set_queue (zs ++ lv' ++ [it']) (sendHead c) c) zs (lv' ++ [it'])) as [Hok Hlv2];
    [done|done|done|apply Forall_app; split; [done|by apply Forall_singleton]|].
  constructor; try done.
  - unfold queue_bytes. rewrite Hlv2, Hlv, !bind_app. cbn. rewrite !app_nil_r, <- (assoc_L (++)). f_equal.
    unfold item_rest. cbn. rewrite Hf, Hd', Ho. done.
  - unfold queue_mem. rewrite Hlv2, Hlv, !total_app. cbn. unfold item_mem, item_len. cbn. rewrite Hf, Hd'. cbn.
    rewrite !len_app. lia.
  - rewrite Hlv2. by destruct lv'.
Qed.

(** ** What a write attempt offers *)

Lemma gather_prefix k items : forall (Hok : Forall item_ok items),
  exists rest, items ≫= item_rest = gather k items ++ rest.
Proof.
  revert items. induction k as [|k IH]; intros [|it items] Hok; cbn [gather]; eauto.
  apply Forall_cons in Hok as [Hit Hok]. destruct (IH items Hok) as [rest Hr].
  destruct (it_file it) eqn:Ef; [by eexists|]. exists rest. rewrite bind_cons, Hr, (assoc_L (++)).
  unfold item_rest at 1. by rewrite Ef.
Qed.

Lemma gather_le k items : len (gather k items) <= len (gather_all items).
Proof.
  unfold gather_all. revert items. induction k as [|k IH]; intros [|it items]; cbn; try apply len_nonneg; try done.
  - destruct (it_file it); [done|]. rewrite !len_app. specialize (IH items). lia.
Qed.

(** * A connection among its callers *)

(** [ptotal] is the engine's [pendingTotal], of which [others] belongs to other
    connections; [owes] counts the goroutines that have left a critical section
    to call [flushOutput].  Any of them may be the application's, in [Flush]
    ([cs_flush_owed]'s [app]). *)
Record cstate := CState { conn : Connection; ptotal : Z; others : Z; owes : Z }.

(** What the kernel guarantees of a write: it takes no more than it is offered,
    and nothing only when it says why. *)
Definition attempt_ok (a : attempt) (offered : bytes) : Prop :=
  0 <= a_n a <= a_attempted a /\ a_attempted a <= len offered /\ (a_n a = 0 -> a_err a <> WNone).
Definition direct_ok (size : Z) (script : list sysev) : Prop :=
  match write_retry script with Some (Wrote n, _) => 0 < n <= size | _ => True end.

Inductive cstep : cstate -> cstate -> Prop :=
| cs_send c t o w data copyData script script' out :
    direct_ok (len data) script -> send data copyData t script c = Some (out, script') ->
    cstep (CState c t o w) (CState (o_conn out) (t + o_total out) o w)
| cs_sendParts c t o w first second script script' out :
    direct_ok (len first + len second) script -> SendParts first second t script c = Some (out, script') ->
    cstep (CState c t o w) (CState (o_conn out) (t + o_total out) o w)
| cs_sendFile c t o w fd off n c' direct e :
    SendFile fd off n c = (c', direct, e) ->
    cstep (CState c t o w) (CState c' t o (w + Z.b2z direct))
| cs_flush_owed c t o w app c' b e :
    0 < w -> flush_begin c = (c', b, e) -> cstep (CState c t o w) (CState (if b then set_byApp app c' else c') t o (w - 1))
| cs_flush c t o w c' b e :
    flush_begin c = (c', b, e) -> cstep (CState c t o w) (CState (if b then set_byApp false c' else c') t o w)
| cs_flush_round c t o w script res c' d script' :
    flushing c = true -> flush_round t script c = Some (res, c', d, script') ->
    (forall a off c1 s1, flush_attempt script c = Some (a, off, c1, s1) -> attempt_ok a off) ->
    cstep (CState c t o w) (CState c' (t + d) o w)
| cs_cork c t o w : cstep (CState c t o w) (CState (set_corked true c) t o w)
| cs_uncork c t o w c' b :
    uncork c = (c', b) -> cstep (CState c t o w) (CState c' t o (w + Z.b2z b))
| cs_writable c t o w :
    cstep (CState c t o w) (CState (set_blocked false c) t o (w + Z.b2z (negb (queue_empty c))))
| cs_refresh c t o w :
    cstep (CState c t o w)
      (CState (set_readPaused (fst (pauseDecision t (readPaused c) (pendingBytes c))) c) t o w)
| cs_closeAfterSend c t o w c' b :
    closeAfterSendRaw c = (c', b) -> cstep (CState c t o w) (CState c' t o w)
| cs_closeWithError c t o w c' b :
    closeWithError c = (c', b) -> cstep (CState c t o w) (CState c' t o w)
| cs_closeConnection c t o w c' d :
    closeConnection c = (c', d) -> cstep (CState c t o w) (CState c' (t + d) o w)
| cs_others c t o w d : 0 <= o + d -> cstep (CState c t o w) (CState c (t + d) (o + d) w).

Definition newConnection : Connection :=
  Conn [] 0 false false false false false false 0 [] [] false false (Ghost false false false).
Definition cinit : cstate := CState newConnection 0 0 0.

(** Somebody is going to write what is queued, or to close. *)
Definition responsible (c : Connection) (w : Z) : bool :=
  closing c || flushing c || corked c || blocked c || closer c || (0 <? w).

Definition watched (c : Connection) (w : Z) : bool :=
  closing c || flushing c || corked c || blocked c || closer c || told (notes c) || starved (notes c) || (0 <? w).

Record cinv (st : cstate) : Prop := {
  ci_queue : queue_ok (conn st);
  ci_stream : closed (conn st) = false -> accepted (conn st) = wire (conn st) ++ queue_bytes (conn st);
  ci_closed : closed (conn st) = true ->
    closing (conn st) = true /\ live (conn st) = [] /\ wire (conn st) `prefix_of` accepted (conn st);
  ci_pending : pendingBytes (conn st) = queue_mem (conn st);
  ci_total : ptotal st = pendingBytes (conn st) + others st;
  ci_others : 0 <= others st;
  ci_owes : 0 <= owes st;
  ci_resp : live (conn st) <> [] -> watched (conn st) (owes st) = true;
}.

Lemma queue_mem_nonneg c : queue_ok c -> 0 <= queue_mem c.
Proof.
  intros (zs & _ & _ & _ & Hl). unfold queue_mem. induction Hl as [|it l Hit _ IH]; cbn; [done|].
  pose proof (item_mem_nonneg it Hit). lia.
Qed.

(** Nothing but the queue decides these. *)
Lemma same_queue c c' :
  sends c' = sends c -> sendHead c' = sendHead c ->
  live c' = live c /\ queue_bytes c' = queue_bytes c /\ queue_mem c' = queue_mem c /\
  (queue_ok c -> queue_ok c') /\ queue_empty c' = queue_empty c.
Proof.
  intros E1 E2. unfold queue_bytes, queue_mem, queue_ok, queue_empty, live. rewrite E1, E2. done.
Qed.

Lemma addPending_spec n c : 0 < n -> addPending n c = (set_pending (pendingBytes c + n) c, n).
Proof. intros. unfold addPending. destruct (Z.leb_spec n 0); [lia|done]. Qed.

(** The clamp of [subPending] never trims. *)
Lemma subPending_spec n c :
  0 < n <= pendingBytes c -> subPending n c = (set_pending (pendingBytes c - n) c, - n).
Proof.
  intros Hn. unfold subPending. destruct (Z.leb_spec n 0); [lia|].
  destruct (Z.ltb_spec (pendingBytes c - n) 0); [lia|]. destruct (Z.ltb_spec 0 n); [done|lia].
Qed.


Lemma inv_put c1 t o w c2 b n :
  queue_ok c1 -> closed c1 = false -> accepted c1 = wire c1 ++ queue_bytes c1 ++ b ->
  pendingBytes c1 = queue_mem c1 -> t = pendingBytes c1 + o -> 0 <= o -> 0 <= w ->
  appended b n c1 c2 -> 0 < n -> watched c1 w = true ->
  cinv (CState (o_conn (send_finish t n c2)) (t + o_total (send_finish t n c2)) o w).
Proof.
  intros Hq Hcl Hacc Hp Ht Ho Hw [Hc Hok Hb Hm _] Hn Hresp. unfold send_finish. rewrite addPending_spec by done. cbn.
  set (c3 := set_pending _ c2). destruct (same_queue c2 c3 eq_refl eq_refl) as (E1 & E2 & E3 & E4 & _).
  assert (Hf : closed c2 = closed c1 /\ accepted c2 = accepted c1 /\ wire c2 = wire c1 /\
    pendingBytes c2 = pendingBytes c1 /\ watched c2 w = watched c1 w) by (rewrite Hc; done).
  destruct Hf as (F1 & F2 & F3 & F4 & F5).
  constructor; cbn.
  - auto.
  - intros _. rewrite E2, Hb, F2, F3, Hacc. done.
  - congruence.
  - rewrite E3. lia.
  - lia.
  - done.
  - done.
  - intros _. rewrite <- F5 in Hresp. done.
Qed.

Lemma inv_same st c' :
  cinv st -> sends c' = sends (conn st) -> sendHead c' = sendHead (conn st) ->
  closing c' = closing (conn st) \/ closing c' = true -> closed c' = closed (conn st) ->
  pendingBytes c' = pendingBytes (conn st) -> wire c' = wire (conn st) -> accepted c' = accepted (conn st) ->
  forall w, 0 <= w -> (watched (conn st) (owes st) = true -> live (conn st) <> [] -> watched c' w = true) ->
  cinv (CState c' (ptotal st) (others st) w).
Proof.
  intros [] E1 E2 Ec Ed Ep Ew Ea w Hw Hr. destruct (same_queue (conn st) c' E1 E2) as (F1 & F2 & F3 & F4 & _).
  constructor; cbn; rewrite ?F1, ?F2, ?F3, ?Ed, ?Ep, ?Ew, ?Ea; auto.
  intros Hcl. destruct (ci_closed0 Hcl) as (? & ? & ?). split_and!; auto. destruct Ec; congruence.
Qed.

Lemma send_with_inv size all put t script c o w out script' :
  len all = size ->
  (forall sent c, 0 <= sent < size -> queue_ok c -> appended (drop (Z.to_nat sent) all) (size - sent) c (put sent c)) ->
  direct_ok size script -> send_with size all put t script c = Some (out, script') ->
  cinv (CState c t o w) -> cinv (CState (o_conn out) (t + o_total out) o w).
Proof.
  intros Hlen Hput Hdir Hsend Hinv. unfold send_with in Hsend. pose proof (len_nonneg all).
  destruct (Z.eqb_spec size 0) as [|Hsz]; [injection Hsend as <- <-; cbn; by rewrite Z.add_0_r|].
  destruct (refuses c) eqn:Href; [injection Hsend as <- <-; cbn; by rewrite Z.add_0_r|].
  assert (Hcd : closed c = false /\ closing c = false).
  { unfold refuses in Href. destruct (closing c), (closed c); done. }
  destruct Hcd as [Hcd Hcg]. pose proof Hinv as [Hq Hst _ Hp Ht Ho Hw Hr]. cbn [conn ptotal others owes] in *. specialize (Hst Hcd).
  assert (Hrest : forall b, watched (put_accepted all (set_blocked b c)) w = true ->
    let c1 := put_accepted all (set_blocked b c) in
    cinv (CState (o_conn (send_finish t (size - 0) (put 0 c1))) (t + o_total (send_finish t (size - 0) (put 0 c1))) o w)).
  { intros b Hresp. cbn zeta.
    assert (Hq1 : queue_ok (put_accepted all (set_blocked b c))) by (by apply (same_queue c)).
    apply (inv_put (put_accepted all (set_blocked b c)) t o w _ all); try done; try lia.
    - cbn. change (queue_bytes (put_accepted all (set_blocked b c))) with (queue_bytes c).
      by rewrite Hst, <- (assoc_L (++)).
    - apply (Hput 0); [lia|done]. }
  destruct (canWriteDirectlyLocked c) eqn:Hd.
  - unfold canWriteDirectlyLocked in Hd. apply andb_prop in Hd as [Hd Hck]. apply andb_prop in Hd as [He Hfl].
    pose proof (proj1 (queue_empty_live c Hq) He) as Hl.
    assert (Hqb : queue_bytes c = []) by (unfold queue_bytes; by rewrite Hl).
    unfold direct_ok in Hdir. destruct (write_retry script) as [[[n| | | | |e] script1]|]; try done.
    + destruct (Z.eqb_spec n size) as [->|Hne].
      * injection Hsend as <- <-. cbn. rewrite Z.add_0_r.
        constructor; cbn; try done.
        -- rewrite Hqb, app_nil_r in *. intros _. unfold queue_bytes, live in *. cbn. rewrite Hl. cbn.
           rewrite app_nil_r, Hst. f_equal. rewrite take_ge; [done|]. unfold len in *. lia.
        -- congruence.
      * injection Hsend as <- <-.
        set (c1 := put_accepted all (set_blocked (blocked c || (n <? size)) (put_wire (take (Z.to_nat n) all) c))).
        assert (Hq1 : queue_ok c1) by (by apply (same_queue c)).
        apply (inv_put c1 t o w _ (drop (Z.to_nat n) all)); try done; try lia.
        -- cbn. change (queue_bytes c1) with (queue_bytes c). rewrite Hst, Hqb, app_nil_r. cbn.
           by rewrite <- (assoc_L (++)), take_drop.
        -- apply Hput; [lia|done].
        -- unfold watched. cbn. destruct (Z.ltb_spec n size); [|lia].
           rewrite !orb_true_r. cbn. by rewrite ?orb_true_r.
    + destruct (Z.eqb_spec 0 size) as [|_]; [lia|]. injection Hsend as <- <-. apply Hrest. unfold watched. cbn. by rewrite !orb_true_r.
    + injection Hsend as <- <-. cbn. rewrite Z.add_0_r.
      apply (inv_same (CState c t o w)); try done; auto.
  - destruct (Z.eqb_spec 0 size) as [|_]; [lia|]. injection Hsend as <- <-.
    specialize (Hrest (blocked c)). replace (set_blocked (blocked c) c) with c in Hrest by by destruct c.
    apply Hrest. unfold canWriteDirectlyLocked in Hd. unfold watched. cbn.
    destruct (queue_empty c) eqn:He.
    + destruct (flushing c), (corked c); cbn in *; try done; rewrite ?orb_true_r; done.
    + apply Hr. intros Hl. by rewrite (proj2 (queue_empty_live c Hq) Hl) in He.
Qed.

Lemma flush_attempt_spec script c a offered c1 script' :
  queue_ok c -> flush_attempt script c = Some (a, offered, c1, script') -> attempt_ok a offered ->
  c1 = set_queue (sends c1) (sendHead c1) c /\ queue_ok c1 /\ live c1 <> [] /\
  queue_bytes c1 = queue_bytes c /\ queue_mem c1 = queue_mem c /\
  (exists rest, queue_bytes c = offered ++ rest) /\
  (if a_fromFile a then exists it f l, live c1 = it :: l /\ it_file it = Some f /\ a_n a <= len (item_rest it)
   else live c1 = live c /\ a_n a <= len (gather_all (live c))).
Proof.
  intros (zs & Hs & Hh & Hz & Hl) Hf Ha. unfold flush_attempt in Hf.
  destruct (live c) as [|head lv] eqn:Elive.
  { rewrite app_nil_r in Hs. rewrite Hs, Hh in Hf. unfold at_ in Hf. pose proof (len_nonneg zs).
    destruct (Z.leb_spec 0 (len zs)); [|lia]. unfold len in Hf. rewrite Nat2Z.id, lookup_ge_None_2 in Hf; [done|lia]. }
  replace (at_ (sends c) (sendHead c)) with (Some head) in Hf.
  2: { rewrite Hs, Hh. unfold at_. pose proof (len_nonneg zs). destruct (Z.leb_spec 0 (len zs)); [|lia].
       unfold len. by rewrite Nat2Z.id, list_lookup_middle. }
  apply Forall_cons in Hl as [Hit Hlv].
  assert (Hsame : queue_ok c) by (exists zs; rewrite Elive; split_and!; try done; by constructor).
  destruct (it_file head) as [f|] eqn:Ef.
  - pose proof Hit as Hit'. unfold item_ok in Hit'. rewrite Ef in Hit'. destruct Hit' as (Hd & Hb & Ho & Hr).
    destruct (sysSendFileLocked f script) as [[[a' f'] script1]|] eqn:Esf; [|done]. injection Hf as <- <- <- <-.
    assert (fs_fd f' = fs_fd f /\ fs_offset f' = fs_offset f /\ fs_remaining f' = fs_remaining f /\ a_fromFile a' = true)
      as (F1 & F2 & F3 & F4).
    { clear Ha. unfold sysSendFileLocked, sendfile_copy, of_write in Esf.
      repeat (case_match; simplify_eq; try done). }
    set (it' := SendItem _ _ _ _).
    assert (Hok' : item_ok it') by (unfold item_ok; cbn; rewrite F3; done).
    assert (Hrest' : item_rest it' = item_rest head) by (unfold item_rest; cbn; by rewrite Ef, F1, F2, F3).
    destruct (queue_ok_intro (set_item (sendHead c) it' c) zs (it' :: lv)) as [Hok Hlv'].
    { cbn. rewrite Hs, Hh. unfold len. by rewrite Nat2Z.id, insert_middle. }
    { done. } { done. } { by constructor. }
    rewrite F4. split_and!; try done.
    + by rewrite Hlv'.
    + unfold queue_bytes. rewrite Hlv', Elive, !bind_cons. by rewrite Hrest'.
    + unfold queue_mem. rewrite Hlv', Elive. cbn. unfold item_mem. cbn. by rewrite Ef.
    + unfold queue_bytes. rewrite Elive, bind_cons. eexists. f_equal. unfold item_rest. by rewrite Ef.
    + exists it', f', lv. split_and!; try done. rewrite Hrest'. unfold item_rest. rewrite Ef.
      destruct Ha as (? & ? & _). lia.
  - destruct script as [|ev script1]; [done|]. injection Hf as <- <- <- <-.
    replace (a_fromFile (of_write ev _ false)) with false by by destruct ev.
    assert (c = set_queue (sends c) (sendHead c) c) by (by destruct c).
    assert (Hoff : exists k, (if useWritev cfg && (1 <? len (sends c) - sendHead c)
      then gather (Z.to_nat (Z.min (len (sends c) - sendHead c) maxWritevItems)) (drop (Z.to_nat (sendHead c)) (sends c))
      else drop (Z.to_nat (it_offset head)) (default [] (it_data head))) = gather k (head :: lv)).
    { destruct (useWritev cfg && (1 <? len (sends c) - sendHead c)).
      - eexists. f_equal. exact Elive.
      - exists 1%nat. cbn. rewrite Ef. by rewrite app_nil_r. }
    destruct Hoff as [k Hoff]. rewrite Hoff in *.
    split_and!; try done; try (by rewrite Elive).
    + unfold queue_bytes. rewrite Elive. apply gather_prefix. by constructor.
    + pose proof (gather_le k (head :: lv)). destruct Ha as (? & ? & _). lia.
Qed.

Lemma consume_state n c :
  queue_ok c -> 0 <= n <= len (queue_bytes c) ->
  let c' := consumeLocked n c in
  c' = set_queue (sends c') (sendHead c') c /\ queue_ok c' /\
  queue_bytes c' = drop (Z.to_nat n) (queue_bytes c) /\ live c' = (consume_list n (live c)).2.
Proof.
  intros Hq Hn. destruct (consumeLocked_spec n c Hq Hn) as (zs & E & Hz). cbn zeta. rewrite E.
  destruct Hq as (zs0 & _ & _ & _ & Hl). destruct (consume_list_spec (live c) n Hl Hn) as [Hok Hb].
  destruct (queue_ok_intro (set_queue (zs ++ (consume_list n (live c)).2) (len zs) c) zs (consume_list n (live c)).2)
    as [Hq' Hl']; [done..|].
  split_and!; try done. unfold queue_bytes. rewrite Hl'. done.
Qed.

(** Bytes of a file cost no memory. *)
Lemma consume_file_mem n it f l :
  item_ok it -> Forall item_ok l -> it_file it = Some f -> 0 <= n <= len (item_rest it) ->
  total item_mem (consume_list n (it :: l)).2 = total item_mem (it :: l).
Proof.
  intros Hit Hl Ef Hn. assert (item_mem it = 0) as Hm by (unfold item_mem; by rewrite Ef).
  cbn [consume_list]. destruct (Z.ltb_spec n (len (item_rest it))).
  - cbn. destruct (advance_item_ok n it Hit ltac:(lia)) as (_ & _ & ->). rewrite Ef. lia.
  - pose proof (consume_list_mem l (n - len (item_rest it)) Hl) as Hc.
    pose proof (len_nonneg (gather_all l)). destruct (consume_list (n - len (item_rest it)) l). cbn in *. lia.
Qed.

(** The state after a write took [n] bytes of what was offered. *)
Lemma write_taken c c1 c2 t o w a offered rest d :
  cinv (CState c t o w) -> live c1 <> [] -> closed c = false ->
  c1 = set_queue (sends c1) (sendHead c1) c -> queue_ok c1 ->
  queue_bytes c1 = queue_bytes c -> queue_mem c1 = queue_mem c ->
  queue_bytes c = offered ++ rest -> 0 < a_n a <= len offered ->
  (if a_fromFile a then exists it f l, live c1 = it :: l /\ it_file it = Some f /\ a_n a <= len (item_rest it)
   else live c1 = live c /\ a_n a <= len (gather_all (live c))) ->
  (let c' := put_wire (take (Z.to_nat (a_n a)) offered) c1 in
   if a_fromFile a then (c', 0) else subPending (a_n a) c') = (c2, d) ->
  forall b1 b2 g, (b1 || b2 || starved g) = true ->
  cinv (CState (set_notes g (set_blocked b1 (set_flushing b2 (consumeLocked (a_n a) c2)))) (t + d) o w).
Proof.
  intros Hinv Hl1 Hcd Hc1 Hq1 Hb1 Hm1 Hqb Hn Hkind Hsub b1 b2 g Hb.
  pose proof Hinv as [Hq Hst _ Hp Ht Ho Hw Hr]. cbn [conn ptotal others owes] in *. specialize (Hst Hcd).
  set (n := a_n a) in *. pose proof (len_nonneg rest).
  assert (Hlen : 0 <= n <= len (queue_bytes c1)) by (rewrite Hb1, Hqb, len_app; lia).
  assert (Hmem : total item_mem (consume_list n (live c1)).2 = queue_mem c - (if a_fromFile a then 0 else n)).
  { destruct Hq1 as (zs & _ & _ & _ & Hok). destruct (a_fromFile a).
    - destruct Hkind as (it & f & l & E & Ef & Hle). rewrite E in *. apply Forall_cons in Hok as [Hit Hok].
      rewrite (consume_file_mem n it f l) by (done || lia). rewrite <- Hm1. unfold queue_mem. rewrite E. lia.
    - destruct Hkind as [E Hle]. rewrite E in *. rewrite consume_list_mem by (done || lia). unfold queue_mem. lia. }
  assert (Hmn : 0 <= total item_mem (consume_list n (live c1)).2).
  { destruct (consume_state n c1 Hq1 Hlen) as (_ & Hq' & _ & Hl'). rewrite <- Hl'. by apply queue_mem_nonneg. }
  assert (Hc2 : c2 = set_pending (pendingBytes c - (if a_fromFile a then 0 else n)) (put_wire (take (Z.to_nat n) offered) c1) /\
    d = - (if a_fromFile a then 0 else n)).
  { destruct (a_fromFile a); cbn zeta in Hsub.
    - injection Hsub as <- <-. rewrite Z.sub_0_r. split; [|done]. rewrite Hc1. by destruct c.
    - rewrite subPending_spec in Hsub by (rewrite Hc1; cbn; lia). injection Hsub as <- <-. rewrite Hc1. done. }
  destruct Hc2 as [-> ->].
  set (c2 := set_pending _ _). destruct (same_queue c1 c2 eq_refl eq_refl) as (F1 & F2 & F3 & F4 & _).
  destruct (consume_state n c2 (F4 Hq1) ltac:(by rewrite F2)) as (E & Hq' & Hb' & Hl'). rewrite F1 in Hl'. rewrite F2 in Hb'.
  set (c3 := consumeLocked n c2) in *. clearbody c3. set (c4 := set_notes g (set_blocked b1 (set_flushing b2 c3))).
  destruct (same_queue c3 c4 eq_refl eq_refl) as (G1 & G2 & G3 & G4 & _).
  assert (Hfields : closed c4 = closed c /\ accepted c4 = accepted c /\ wire c4 = wire c ++ take (Z.to_nat n) offered /\
    pendingBytes c4 = pendingBytes c - (if a_fromFile a then 0 else n)).
  { subst c4. cbn. rewrite E. subst c2. cbn. rewrite Hc1. done. }
  destruct Hfields as (K1 & K2 & K3 & K4).
  constructor; cbn [conn ptotal others owes].
  - by apply G4.
  - intros _. rewrite G2, Hb', K2, K3, Hst, Hb1, Hqb, <- (assoc_L (++)). f_equal.
    rewrite drop_app_le by (unfold len in *; lia). by rewrite (assoc_L (++)), take_drop.
  - congruence.
  - rewrite G3, K4. unfold queue_mem. rewrite Hl'. lia.
  - lia.
  - done.
  - done.
  - intros _. subst c4. unfold watched. cbn. destruct b1, b2, (starved g); try done; rewrite ?orb_true_r; done.
Qed.

Lemma consume_flushing fuel : forall left c, flushing (consume_loop fuel left c) = flushing c.
Proof.
  induction fuel as [|fuel IH]; intros left c; cbn; [done|].
  repeat case_match; try done; by rewrite IH.
Qed.

(** Replacing the queue by one with the same bytes. *)
Lemma inv_requeue c c1 t o w :
  cinv (CState c t o w) -> closed c = false -> live c <> [] ->
  c1 = set_queue (sends c1) (sendHead c1) c -> queue_ok c1 ->
  queue_bytes c1 = queue_bytes c -> queue_mem c1 = queue_mem c -> cinv (CState c1 t o w).
Proof.
  intros [Hq Hst Hcd Hp Ht Ho Hw Hr] Hcl Hl Hc Hq1 Hb Hm. cbn [conn ptotal others owes] in *.
  constructor; cbn [conn ptotal others owes]; rewrite ?Hb, ?Hm; try done; rewrite Hc; cbn; try done.
  - congruence.
  - intros _. by apply Hr.
Qed.

Lemma flush_round_inv c t o w script res c' d script' :
  cinv (CState c t o w) -> flushing c = true -> flush_round t script c = Some (res, c', d, script') ->
  (forall a off c1 s1, flush_attempt script c = Some (a, off, c1, s1) -> attempt_ok a off) ->
  cinv (CState c' (t + d) o w).
Proof.
  intros Hinv Hfl Hround Hatt. pose proof Hinv as [Hq Hst Hcd Hp Ht Ho Hw Hr]. cbn [conn ptotal others owes] in *.
  unfold flush_round in Hround.
  destruct (queue_empty c) eqn:He.
  { injection Hround as <- <- <- <-. pose proof (proj1 (queue_empty_live c Hq) He) as Hl. rewrite Z.add_0_r.
    assert (Hl' : live (set_flushing false (rewindQueueLocked c)) = []) by done.
    unfold queue_bytes, queue_mem in *. rewrite Hl in *.
    constructor; cbn [conn ptotal others owes]; unfold queue_bytes, queue_mem; rewrite ?Hl'; try done.
    exists []. by rewrite Hl'. }
  destruct (flush_attempt script c) as [[[[a offered] c1] script1]|] eqn:Ea; [|done].
  specialize (Hatt _ _ _ _ eq_refl).
  destruct (flush_attempt_spec _ _ _ _ _ _ Hq Ea Hatt) as (Hc1 & Hq1 & Hl1 & Hb1 & Hm1 & [rest Hrest] & Hkind).
  destruct Hatt as (Hn & Hat & Hzero).
  assert (Hclosed : closed c = false).
  { destruct (closed c); [|done]. destruct (Hcd eq_refl) as (_ & Hl & _).
    by rewrite (proj2 (queue_empty_live c Hq) Hl) in He. }
  destruct (Z.ltb_spec 0 (a_n a)).
  - destruct (if a_fromFile a then _ else _) as [c2 d2] eqn:Esub.
    pose proof (write_taken c c1 c2 t o w a offered rest d2 Hinv Hl1 Hclosed Hc1 Hq1 Hb1 Hm1 Hrest ltac:(lia) Hkind Esub) as Hw2.
    destruct (a_n a <? a_attempted a); injection Hround as <- <- <- <-.
    + set (c3 := consumeLocked (a_n a) c2) in *. destruct (at_end _ _).
      * by apply (Hw2 (blocked c3) false (Ghost (byApp (notes c3)) (told (notes c3)) true)), orb_true_r.
      * by apply (Hw2 true false (notes c3)).
    + specialize (Hw2 (blocked (consumeLocked (a_n a) c2)) (flushing (consumeLocked (a_n a) c2)) (notes (consumeLocked (a_n a) c2))).
      replace (set_notes _ _) with (consumeLocked (a_n a) c2) in Hw2 by by destruct (consumeLocked (a_n a) c2).
      apply Hw2. unfold consumeLocked at 2. rewrite consume_flushing.
      replace (flushing c2) with (flushing c1).
      * rewrite Hc1. cbn. rewrite Hfl. by rewrite orb_true_r.
      * unfold subPending in Esub. repeat case_match; by simplify_eq.
  - assert (Hlive : live c <> []) by (intros E; by rewrite (proj2 (queue_empty_live c Hq) E) in He).
    pose proof (inv_requeue c c1 t o w Hinv Hclosed Hlive Hc1 Hq1 Hb1 Hm1) as Hinv1.
    assert (a_n a = 0) as Hz by lia. specialize (Hzero Hz).
    destruct (a_err a); try done; injection Hround as <- <- <- <-; rewrite Z.add_0_r; try done.
    + apply (inv_same (CState c1 t o w)); try done; auto. intros _ _. unfold watched. cbn.
      by rewrite ?orb_true_r.
    + destruct (byApp _); apply (inv_same (CState c1 t o w)); try done; auto; intros _ _; unfold watched; cbn; by rewrite ?orb_true_r.
Qed.

Lemma SendFile_inv fd off n c c' direct e t o w :
  SendFile fd off n c = (c', direct, e) -> cinv (CState c t o w) -> cinv (CState c' t o (w + Z.b2z direct)).
Proof.
  intros Hs Hinv. unfold SendFile in Hs.
  destruct (Z.ltb_spec off 0); [simplify_eq/=; by rewrite Z.add_0_r|]. cbn [orb] in Hs.
  destruct (Z.ltb_spec n 0); [simplify_eq/=; by rewrite Z.add_0_r|].
  destruct (Z.eqb_spec n 0); [simplify_eq/=; by rewrite Z.add_0_r|].
  destruct (refuses c) eqn:Href; [simplify_eq/=; by rewrite Z.add_0_r|].
  assert (Hcd : closed c = false) by (unfold refuses in Href; destruct (closing c), (closed c); done).
  pose proof Hinv as [Hq Hst _ Hp Ht Ho Hw Hr]. cbn [conn ptotal others owes] in *. specialize (Hst Hcd).
  set (it := SendItem None 0 None (Some (FileSegment fd off n false))) in Hs.
  set (c0 := put_accepted (file_bytes fd off n) c).
  assert (Hit : item_ok it) by (cbn; split_and!; try done; lia).
  destruct (append_item it c0 Hq Hit) as [Hc Hok Hb Hm _].
  assert (E : c' = (let c := if queue_empty c0 then rewindQueueLocked c0 else c0 in set_queue (sends c ++ [it]) (sendHead c) c)
    /\ direct = canWriteDirectlyLocked c).
  { injection Hs as <- <- _. split; [|done]. change (queue_empty c0) with (queue_empty c). by destruct (queue_empty c). }
  destruct E as [E ->]. rewrite <- E in Hc, Hok, Hb, Hm. clear E Hs.
  change (queue_bytes c0) with (queue_bytes c) in Hb. change (queue_mem c0) with (queue_mem c) in Hm.
  assert (0 <= Z.b2z (canWriteDirectlyLocked c)) by (destruct (canWriteDirectlyLocked c); cbn; lia).
  constructor; cbn [conn ptotal others owes]; try done; try lia.
  - intros _. rewrite Hb, Hc. cbn. rewrite Hst, <- (assoc_L (++)). done.
  - rewrite Hc. cbn. congruence.
  - rewrite Hm, Hc. cbn. unfold item_mem. cbn. lia.
  - rewrite Hc. cbn. lia.
  - intros _. rewrite Hc. unfold watched. cbn. unfold canWriteDirectlyLocked. destruct (queue_empty c) eqn:He.
    + destruct (flushing c), (corked c); cbn; rewrite ?orb_true_r; try done.
      destruct (Z.ltb_spec 0 (w + 1)); [by rewrite ?orb_true_r|lia].
    + cbn. rewrite Z.add_0_r. apply Hr. intros E. by rewrite (proj2 (queue_empty_live c Hq) E) in He.
Qed.

Lemma flush_begin_inv c c' b e t o w w' :
  flush_begin c = (c', b, e) -> cinv (CState c t o w) -> w' = w \/ w' = w - 1 /\ 0 < w ->
  forall app, cinv (CState (if b then set_byApp app c' else c') t o w').
Proof.
  intros Hf Hinv Hw' app. assert (0 <= w') by (pose proof (ci_owes _ Hinv); cbn in *; lia).
  unfold flush_begin in Hf. destruct (closing c || closed c || flushing c) eqn:Hb; injection Hf as <- <- <-.
  - apply (inv_same (CState c t o w)); try done; auto. intros _ Hl. unfold watched.
    destruct (closing c); [done|]. destruct (flushing c); [done|]. cbn in Hb. rewrite orb_false_r in Hb.
    by destruct (ci_closed _ Hinv Hb) as (_ & Hn & _).
  - apply (inv_same (CState c t o w)); try done; auto. intros _ _. unfold watched. cbn. by rewrite orb_true_r.
Qed.

Lemma close_inv c c' d t o w :
  closeConnection c = (c', d) -> cinv (CState c t o w) -> cinv (CState c' (t + d) o w).
Proof.
  intros Hc Hinv. unfold closeConnection in Hc. destruct (closed c) eqn:Hcd.
  - injection Hc as <- <-. by rewrite Z.add_0_r.
  - destruct Hinv as [Hq Hst _ Hp Ht Ho Hw _]. cbn [conn ptotal others owes] in *.
    pose proof (queue_mem_nonneg c Hq). injection Hc as <- <-.
    constructor; cbn; try done.
    + exists []. done.
    + intros _. split_and!; try done. rewrite (Hst Hcd). by eexists.
    + destruct (Z.ltb_spec 0 (pendingBytes c)); lia.
Qed.

Lemma cstep_inv st st' : cinv st -> cstep st st' -> cinv st'.
Proof.
  intros Hinv Hs.
  destruct Hs as [c t o w data cp script script' out Hd Hs|c t o w first second script script' out Hd Hs
    |c t o w fd off n c' direct e Hs|c t o w app c' b e Hw Hs|c t o w c' b e Hs|c t o w script res c' d script' Hfl Hs Ha
    |c t o w|c t o w c' b Hs|c t o w|c t o w|c t o w c' b Hs|c t o w c' b Hs|c t o w c' d Hs|c t o w d Hd].
  - apply (send_with_inv (len data) data _ t script c o w out script' eq_refl) with (3 := Hs); [|done|done].
    intros sent c0 Hsent Hq0. cbn zeta. pose proof (len_drop (Z.to_nat sent) data) as Hld.
    rewrite Z2Nat.id in Hld by lia. destruct cp.
    + pose proof (queueLocked_spec (drop (Z.to_nat sent) data) [] c0 Hq0) as Hap.
      rewrite (@len_nil Z), app_nil_r, Z.add_0_r in Hap. rewrite Hld in Hap.
      replace (Z.max 0 (len data - sent)) with (len data - sent) in Hap by lia. apply Hap. lia.
    + pose proof (queueOwnedLocked_spec (drop (Z.to_nat sent) data) c0 Hq0) as Hap. rewrite Hld in Hap.
      replace (Z.max 0 (len data - sent)) with (len data - sent) in Hap by lia. apply Hap. lia.
  - apply (send_with_inv (len first + len second) (first ++ second) _ t script c o w out script' (len_app _ _)) with (3 := Hs);
      [|done|done].
    intros sent c0 Hsent Hq0. cbn beta. destruct (Z.ltb_spec sent (len first)).
    + pose proof (queueLocked_spec (drop (Z.to_nat sent) first) second c0 Hq0) as Hap.
      pose proof (len_drop (Z.to_nat sent) first) as Hld. rewrite Z2Nat.id in Hld by lia.
      rewrite drop_app_le by (unfold len in *; lia).
      replace (len (drop (Z.to_nat sent) first) + len second) with (len first + len second - sent) in Hap by lia.
      apply Hap. lia.
    + pose proof (queueLocked_spec (drop (Z.to_nat (sent - len first)) second) [] c0 Hq0) as Hap.
      pose proof (len_drop (Z.to_nat (sent - len first)) second) as Hld. rewrite Z2Nat.id in Hld by lia.
      rewrite drop_app_ge by (unfold len in *; lia).
      rewrite (@len_nil Z), app_nil_r in Hap.
      replace (Z.to_nat sent - length first)%nat with (Z.to_nat (sent - len first)) by (unfold len; lia).
      replace (len (drop (Z.to_nat (sent - len first)) second) + 0) with (len first + len second - sent) in Hap by lia.
      apply Hap. lia.
  - by apply (SendFile_inv fd off n c c' direct e).
  - apply (flush_begin_inv c c' b e t o w); auto.
  - apply (flush_begin_inv c c' b e t o w); auto.
  - by apply (flush_round_inv c t o w script res c' d script').
  - apply (inv_same (CState c t o w)); try done; auto; [apply Hinv|].
    intros _ _. unfold watched. cbn. by rewrite ?orb_true_r.
  - unfold uncork in Hs. injection Hs as <- <-. pose proof (ci_owes _ Hinv) as Hw. cbn in Hw.
    assert (0 <= Z.b2z (corked c && negb (queue_empty c))) by (destruct (corked c), (queue_empty c); cbn; lia).
    apply (inv_same (CState c t o w)); try done; auto; [lia|].
    intros Hr Hl. unfold watched in *. cbn in *.
    replace (queue_empty c) with false in *.
    2: { destruct (queue_empty c) eqn:He; [|done]. by apply (queue_empty_live c (ci_queue _ Hinv)) in He. }
    destruct (Z.ltb_spec 0 w), (Z.ltb_spec 0 (w + Z.b2z (corked c && negb false))), (corked c);
      cbn in *; try lia; rewrite ?orb_true_r in *; done.
  - pose proof (ci_owes _ Hinv) as Hw. cbn in Hw.
    assert (0 <= Z.b2z (negb (queue_empty c))) by (destruct (queue_empty c); cbn; lia).
    apply (inv_same (CState c t o w)); try done; auto; [lia|].
    intros _ Hl. unfold watched. cbn. replace (queue_empty c) with false.
    + destruct (Z.ltb_spec 0 (w + Z.b2z (negb false))); [by rewrite ?orb_true_r|cbn in *; lia].
    + destruct (queue_empty c) eqn:He; [|done]. by apply (queue_empty_live c (ci_queue _ Hinv)) in He.
  - apply (inv_same (CState c t o w)); try done; auto. apply Hinv.
  - unfold closeAfterSendRaw in Hs. destruct (refuses c); injection Hs as <- <-; [done|].
    apply (inv_same (CState c t o w)); try done; auto. apply Hinv.
  - unfold closeWithError in Hs. injection Hs as <- <-.
    apply (inv_same (CState c t o w)); try done; auto; [apply Hinv].
  - by apply (close_inv c c' d).
  - destruct Hinv. cbn in *. constructor; cbn; try done; lia.
Qed.

Lemma creachable_inv st : rtc cstep cinit st -> cinv st.
Proof.
  intros Hr. assert (H1 : cinv cinit).
  { constructor; cbn; try done. by exists []. }
  remember cinit as x. clear Heqx. induction Hr as [|x y z Hs _ IH]; [done|]. apply IH. by apply (cstep_inv x).
Qed.

(** Once everything is out and nothing more is taken, the stream is final. *)
Definition drained (c : Connection) : Prop :=
  closeAfterSend c = true /\ wire c = accepted c /\ (closed c = false -> queue_empty c = true).

Lemma drained_step st st' : cinv st -> drained (conn st) -> cstep st st' ->
  drained (conn st') /\ accepted (conn st') = accepted (conn st).
Proof.
  intros Hinv (Hca & Hw & He) Hs.
  assert (Hrf : refuses (conn st) = true) by (unfold refuses; by rewrite Hca, orb_true_r).
  destruct Hs as [c t o w data cp script script' out Hd Hs|c t o w first second script script' out Hd Hs
    |c t o w fd off n c' direct e Hs|c t o w app c' b e Hw' Hs|c t o w c' b e Hs|c t o w script res c' d script' Hfl Hs Ha
    |c t o w|c t o w c' b Hs|c t o w|c t o w|c t o w c' b Hs|c t o w c' b Hs|c t o w c' d Hs|c t o w d Hd];
    cbn [conn] in *; try (split; [split_and!|]; done).
  - unfold send, send_with in Hs. rewrite Hrf in Hs. destruct (len data =? 0); simplify_eq; by split; [split_and!|].
  - unfold SendParts, send_with in Hs. rewrite Hrf in Hs.
    destruct (len first + len second =? 0); simplify_eq; by split; [split_and!|].
  - unfold SendFile in Hs. rewrite Hrf in Hs. repeat case_match; simplify_eq; by split; [split_and!|].
  - unfold flush_begin in Hs. case_match; simplify_eq; by split; [split_and!|].
  - unfold flush_begin in Hs. case_match; simplify_eq; by split; [split_and!|].
  - unfold flush_round in Hs. destruct (queue_empty c) eqn:Hq.
    + injection Hs as <- <- <- <-. split; [split_and!|]; done.
    + destruct (closed c) eqn:Hcd; [|by specialize (He eq_refl)].
      destruct (ci_closed _ Hinv Hcd) as (_ & Hl & _). cbn in Hl.
      by rewrite (proj2 (queue_empty_live c (ci_queue _ Hinv)) Hl) in Hq.
  - unfold uncork in Hs. injection Hs as <- <-. by split; [split_and!|].
  - unfold closeAfterSendRaw in Hs. rewrite Hrf in Hs. injection Hs as <- <-. by split; [split_and!|].
  - unfold closeWithError in Hs. injection Hs as <- <-. by split; [split_and!|].
  - unfold closeConnection in Hs. destruct (closed c) eqn:Hcd; injection Hs as <- <-;
      (split; [split_and!; cbn; (done || congruence)|done]).
Qed.

(** * The contract *)

(** C1: a connection is one ordered byte stream.  Whatever goroutines send,
    flush, cork and close, what the socket has taken followed by what is queued
    is exactly what every accepted send promised, in order, with no byte lost,
    repeated or reordered; once closed, the socket has taken a prefix of it. *)
Theorem connection_stream st :
  rtc cstep cinit st ->
  (closed (conn st) = false -> accepted (conn st) = wire (conn st) ++ queue_bytes (conn st)) /\
  wire (conn st) `prefix_of` accepted (conn st).
Proof.
  intros Hr. pose proof (creachable_inv st Hr) as Hinv. split; [apply Hinv|].
  destruct (closed (conn st)) eqn:Hc; [by apply (ci_closed _ Hinv)|].
  rewrite (ci_stream _ Hinv Hc). by eexists.
Qed.

(** C32: no queued byte is forgotten.  In every reachable state with bytes
    queued, somebody is going to write them or to close the connection: a goroutine is
    flushing or on its way to flush, the round that corked the connection will
    end, the socket has refused bytes and its next write edge resumes the flush, a
    goroutine has the error of a failed write and closes with it, or the connection is
    closing.  There are two ways out of this, and the theorem is about the runs that take
    neither: [Flush] has returned a write's error to the application, which is
    then the only one to know; or a file turned out shorter than the range
    [SendFile] was given ([flush_error_strands], [short_file_stalls]). *)
Theorem connection_no_stall st :
  rtc cstep cinit st -> queue_bytes (conn st) <> [] -> told (notes (conn st)) = false -> starved (notes (conn st)) = false ->
  responsible (conn st) (owes st) = true.
Proof.
  intros Hr Hq Ht Hs. pose proof (ci_resp _ (creachable_inv st Hr)) as Hw. unfold watched in Hw. rewrite Ht, Hs, !orb_false_r in Hw.
  apply Hw. intros E. apply Hq. unfold queue_bytes. by rewrite E.
Qed.

(** Backpressure counts the truth.  The connection's [pendingBytes] is
    exactly what it holds in memory, files excluded, the engine's total is the
    sum over its connections, and the clamp in [subPending] never has to trim;
    so the budget cannot drift, and closing gives the connection's share back. *)
Theorem pending_accounting st :
  rtc cstep cinit st ->
  pendingBytes (conn st) = queue_mem (conn st) /\ 0 <= pendingBytes (conn st) /\
  ptotal st = pendingBytes (conn st) + others st /\
  (closed (conn st) = true -> ptotal st = others st).
Proof.
  intros Hr. destruct (creachable_inv st Hr). pose proof (queue_mem_nonneg _ ci_queue0).
  split_and!; try done; try lia. intros Hc. destruct (ci_closed0 Hc) as (_ & Hl & _).
  assert (queue_mem (conn st) = 0) by (unfold queue_mem; by rewrite Hl). lia.
Qed.

(** C33: [CloseAfterSend] closes after sending.  When the flush loop, or
    [CloseAfterSend] itself, goes on to close because everything queued is out,
    the socket has taken every byte ever accepted, and nothing accepted later
    can make that untrue. *)
Theorem closeAfterSend_complete st :
  rtc cstep cinit st ->
  (forall script refresh c' d script',
     flush_round (ptotal st) script (conn st) = Some (FlushDone true refresh, c', d, script') ->
     closed (conn st) = false -> drained c') /\
  (forall c', closeAfterSendRaw (conn st) = (c', true) -> drained c') /\
  (drained (conn st) -> forall st', rtc cstep st st' ->
     wire (conn st') = accepted (conn st) /\ accepted (conn st') = accepted (conn st)).
Proof.
  intros Hr. pose proof (creachable_inv st Hr) as Hinv. split_and!.
  - intros script refresh c' d script' Hf Hcd. unfold flush_round in Hf.
    destruct (queue_empty (conn st)) eqn:He.
    + injection Hf as Hca _ <- _ _. cbn in Hca. split_and!; [done| |done]. cbn.
      rewrite (ci_stream _ Hinv Hcd). unfold queue_bytes.
      rewrite (proj1 (queue_empty_live _ (ci_queue _ Hinv)) He). cbn. by rewrite app_nil_r.
    + repeat case_match; simplify_eq.
  - intros c' Hc. unfold closeAfterSendRaw in Hc. destruct (refuses (conn st)) eqn:Href; [done|].
    injection Hc as <- Hb. apply andb_prop in Hb as [He _].
    assert (closed (conn st) = false) as Hcd by (unfold refuses in Href; destruct (closing (conn st)), (closed (conn st)); done).
    split_and!; [done| |done]. cbn. rewrite (ci_stream _ Hinv Hcd). unfold queue_bytes.
    rewrite (proj1 (queue_empty_live _ (ci_queue _ Hinv)) He). cbn. by rewrite app_nil_r.
  - intros Hd st' Hr'. revert Hd Hinv. clear Hr. induction Hr' as [x|x y z Hs _ IH]; intros Hd Hinv.
    + split; [|done]. by destruct Hd as (_ & ? & _).
    + destruct (drained_step x y Hinv Hd Hs) as [Hd' E]. rewrite <- E. apply IH; [done|]. by apply (cstep_inv x).
Qed.
End conn.

(** * A run *)

(** Appends that grow to exactly what they need; a file of zeroes. *)
Lemma max_fits (c n : Z) : n <= Z.max c n.
Proof. lia. Qed.
Lemma max_same (c n : Z) : n <= c -> Z.max c n = c.
Proof. lia. Qed.
#[local] Instance exact_cap : AppendCap := Build_AppendCap Z.max max_fits max_same.
#[local] Instance zero_files : Files := Build_Files (fun _ _ => 0) (fun _ => 1000).

Definition demo_cfg : EngineConfig := Build_EngineConfig true 64 16 1024 256 32.

(** Three bytes sent of which the socket takes one, a file after them, the rest
    flushed at the next write edge, and the connection closed after it. *)
Definition conn_demo : cstate :=
  CState (Conn [] 0 true false false false false true 0 [7; 8; 9; 0; 0] [7; 8; 9; 0; 0] false false (Ghost false false false)) 0 0 0.

Ltac flush_ok :=
  let E := fresh in intros ? ? ? ? E; vm_compute in E; simplify_eq; vm_compute; repeat split; discriminate.

Lemma conn_demo_run : rtc (cstep demo_cfg) cinit conn_demo.
Proof.
  run_step (by eapply (cs_send _ _ _ _ _ [7; 8; 9] true [EINTR; Wrote 1])).
  run_step (by eapply (cs_sendFile _ _ _ _ _ 4 10 2)).
  run_step (by eapply cs_closeAfterSend).
  run_step (apply cs_writable).
  run_step (by eapply cs_flush_owed).
  run_step (eapply (cs_flush_round _ _ _ _ _ [Wrote 2]); [done|vm_compute; reflexivity|flush_ok]).
  run_step (eapply (cs_flush_round _ _ _ _ _ [Unsupported; Wrote 2; Wrote 2]); [done|vm_compute; reflexivity|flush_ok]).
  run_step (eapply (cs_flush_round _ _ _ _ _ []); [done|vm_compute; reflexivity|flush_ok]).
  run_step (by eapply cs_closeWithError).
  apply rtc_refl.
Qed.

(** The state after the first send. *)
Definition conn_demo1 : cstate :=
  CState (Conn [SendItem (Some [8; 9]) 0 (Some 32) None] 0 false false false false false false 2 [7] [7; 8; 9] true false (Ghost false false false))
    2 0 0.

Lemma conn_demo1_run : rtc (cstep demo_cfg) cinit conn_demo1.
Proof.
  run_step (by eapply (cs_send _ _ _ _ _ [7; 8; 9] true [EINTR; Wrote 1])).
  apply rtc_refl.
Qed.

Lemma connection_stream_witness : accepted (conn conn_demo1) = wire (conn conn_demo1) ++ queue_bytes (conn conn_demo1).
Proof. apply (connection_stream demo_cfg conn_demo1 conn_demo1_run). reflexivity. Defined.

Lemma connection_no_stall_witness : responsible (conn conn_demo1) (owes conn_demo1) = true.
Proof. apply (connection_no_stall demo_cfg conn_demo1 conn_demo1_run); [vm_compute; discriminate|reflexivity|reflexivity]. Defined.

Lemma pending_accounting_witness : pendingBytes (conn conn_demo1) = queue_mem (conn conn_demo1).
Proof. apply (pending_accounting demo_cfg conn_demo1 conn_demo1_run). Defined.

Lemma closeAfterSend_complete_witness : wire (conn conn_demo) = accepted (conn conn_demo).
Proof.
  apply (closeAfterSend_complete demo_cfg conn_demo conn_demo_run); [|apply rtc_refl].
  split; [reflexivity|]. split; [reflexivity|]. reflexivity.
Defined.

(** * What goes wrong *)

(** A handler sends while the connection is corked and calls [Flush], whose write
    fails.  It returns the error and nothing else happens: the round's own
    [uncork] finds the cork off, and the connection stays open with its bytes queued
    and nobody to write them or to close it. *)
Theorem flush_error_strands :
  exists st, rtc (cstep demo_cfg) cinit st /\ queue_bytes (conn st) = [7; 8; 9] /\ closing (conn st) = false /\
    responsible (conn st) (owes st) = false /\ starved (notes (conn st)) = false /\ (uncork (conn st)).2 = false.
Proof.
  eexists. split; [|split_and!].
  - run_step (apply cs_cork). run_step (by eapply (cs_send _ _ _ _ _ [7; 8; 9] true [])). run_step (by eapply cs_uncork).
    run_step (by eapply (cs_flush_owed _ _ _ _ _ true)).
    run_step (eapply (cs_flush_round _ _ _ _ _ [Failed 32]); [done|vm_compute; reflexivity|flush_ok]). apply rtc_refl.
  - vm_compute. reflexivity.
  - reflexivity.
  - reflexivity.
  - reflexivity.
  - reflexivity.
Qed.

(** A file that turns out shorter than the range closes the connection, says
    [SendFile]; but the call that reaches its end takes fewer bytes than it was
    asked to, which is read as a full socket, and the flush waits for a write
    edge that a socket with room does not raise. *)
Theorem short_file_stalls :
  exists st, rtc (cstep demo_cfg) cinit st /\ len (queue_bytes (conn st)) = 4 /\ closing (conn st) = false /\ blocked (conn st) = false /\
    responsible (conn st) (owes st) = false /\ told (notes (conn st)) = false.
Proof.
  eexists. split; [|split_and!].
  - run_step (by eapply (cs_sendFile _ _ _ _ _ 4 990 14)). run_step (by eapply (cs_flush_owed _ _ _ _ _ false)).
    run_step (eapply (cs_flush_round _ _ _ _ _ [Wrote 10]); [done|vm_compute; reflexivity|flush_ok]). apply rtc_refl.
  - vm_compute. reflexivity.
  - reflexivity.
  - reflexivity.
  - reflexivity.
  - reflexivity.
Qed.
