(* ===== verification/Schedule.v ===== *)
(** Who works on a connection, and when (src/go/connection.go [process], with
    [noteEvent] and [submitReady] of src/go/engine.go).

    The event loop folds readiness into [pendingEvents] and submits the
    connection unless it is [scheduled] already; a worker runs [process], whose
    rounds take the pending events, flush, read, and defer a read that would
    come before queued output.  The connection's output half is the state of
    Connection.v, whose steps interleave with these. *)
From S2P Require Import Prelude.
From S2P Require Import Connection.

Definition evIn : Z := 0x1.
Definition evPri : Z := 0x2.
Definition evOut : Z := 0x4.
Definition evErr : Z := 0x8.
Definition evHup : Z := 0x10.
Definition evRdHup : Z := 0x2000.
Definition evAll : Z := Z.lor evIn (Z.lor evPri (Z.lor evOut (Z.lor evErr (Z.lor evHup evRdHup)))).

Definition has (ev bit : Z) : bool := negb (Z.land ev bit =? 0).

(** Where a worker is in [process]. *)
Inductive phase :=
| Top (deferred : Z)
| Body (events : Z)
| Flushing (events : Z)
| Input (events : Z)
| Reading (events : Z)
| Finish (events deferred : Z)
| Dead.

(** [tasks] counts submissions no worker has started; [owedIn] is a ghost: the
    loop has reported readable bytes that no read has started on. *)
Record sched := Sched {
  base : cstate;
  pendingEvents : Z;
  scheduled : bool;
  tasks : Z;
  workers : list phase;
  owedIn : bool;
}.

(** [noteEvent]'s critical section: the new events and whether the connection
    is to be submitted. *)
Definition noteEvent (c : Connection) (pending : Z) (sch : bool) (events : Z) : Z * bool * bool :=
  if closing c || closed c then (pending, sch, false)
  else
    let events := Z.land events evAll in
    if events =? 0 then (pending, sch, false)
    else if (events =? evOut) && queue_empty c && (pending =? 0) then (pending, sch, false)
    else (Z.lor pending events, true, negb sch).

(** The critical section at the top of a round: [None] leaves [process]. *)
Definition process_top (c : Connection) (pending deferred : Z) : Z * option (Z * bool) :=
  let pending := Z.lor pending deferred in
  if pending =? deferred then (pending, None)
  else (0, Some (pending, negb (closed c || closing c))).

(** The rest of a round, up to the next decision that looks at the queue. *)
Definition process_body (queued : bool) (events : Z) : phase :=
  if has events evOut && queued then Flushing events else Input events.

Definition process_input (queued : bool) (events : Z) : phase :=
  if has events evIn
  then if queued then Finish events (Z.lor evIn (Z.land events evRdHup)) else Reading events
  else Finish events 0.

Definition process_finish (events deferred : Z) : phase :=
  if has events evErr then Dead
  else if negb (Z.land (Z.land events (Z.lor evHup evRdHup)) (Z.lnot deferred) =? 0) then Dead
  else Top deferred.

Definition hasQueuedOutput (c : Connection) : bool := negb (queue_empty c).

Section sched.
Context `{!AppendCap, !Files} (cfg : EngineConfig).

Definition set_conn (c : Connection) (b : cstate) : cstate := CState c (ptotal b) (others b) (owes b).

Inductive sstep : sched -> sched -> Prop :=
(** any step of the output half: sends, flushes, closes *)
| ss_base b b' p s t w o : cstep cfg b b' -> sstep (Sched b p s t w o) (Sched b' p s t w o)
| ss_note b p s t w o ev p' s' submit :
    noteEvent (conn b) p s ev = (p', s', submit) ->
    sstep (Sched b p s t w o)
      (Sched b p' s' (t + Z.b2z submit) w
        (o || (has ev evIn && negb (closing (conn b) || closed (conn b)))))
(** the task pool starts a task, or refuses it *)
| ss_start b p s t w o : 0 < t -> sstep (Sched b p s t w o) (Sched b p s (t - 1) (w ++ [Top 0]) o)
| ss_refused b p s t w o c' r :
    0 < t -> closeWithError (conn b) = (c', r) ->
    sstep (Sched b p s t w o) (Sched (set_conn c' b) p false (t - 1) w o)
(** [process] *)
| ss_leave b p s t w o w1 w2 d p' :
    w = w1 ++ Top d :: w2 -> process_top (conn b) p d = (p', None) ->
    sstep (Sched b p s t w o) (Sched b p' false t (w1 ++ w2) o)
| ss_take b p s t w o w1 w2 d p' ev alive :
    w = w1 ++ Top d :: w2 -> process_top (conn b) p d = (p', Some (ev, alive)) ->
    sstep (Sched b p s t w o) (Sched b p' s t (w1 ++ (if alive then Body ev else Dead) :: w2) o)
| ss_body b p s t w o w1 w2 ev :
    w = w1 ++ Body ev :: w2 ->
    sstep (Sched b p s t w o) (Sched b p s t (w1 ++ process_body (hasQueuedOutput (conn b)) ev :: w2) o)
| ss_flushed b p s t w o w1 w2 ev (ok : bool) :
    w = w1 ++ Flushing ev :: w2 ->
    sstep (Sched b p s t w o) (Sched b p s t (w1 ++ (if ok then Input ev else Dead) :: w2) o)
| ss_input b p s t w o w1 w2 ev :
    w = w1 ++ Input ev :: w2 ->
    sstep (Sched b p s t w o)
      (Sched b p s t (w1 ++ process_input (hasQueuedOutput (conn b)) ev :: w2)
        (o && negb (has ev evIn && negb (hasQueuedOutput (conn b)))))
| ss_priority_failed b p s t w o w1 w2 ev :
    w = w1 ++ Input ev :: w2 -> has ev evPri = true ->
    sstep (Sched b p s t w o) (Sched b p s t (w1 ++ Dead :: w2) o)
| ss_read b p s t w o w1 w2 ev (ok : bool) :
    w = w1 ++ Reading ev :: w2 ->
    sstep (Sched b p s t w o) (Sched b p s t (w1 ++ (if ok then Finish ev 0 else Dead) :: w2) o)
| ss_finish b p s t w o w1 w2 ev d :
    w = w1 ++ Finish ev d :: w2 ->
    sstep (Sched b p s t w o) (Sched b p s t (w1 ++ process_finish ev d :: w2) o)
| ss_dead b p s t w o w1 w2 c' r :
    w = w1 ++ Dead :: w2 -> closeWithError (conn b) = (c', r) ->
    sstep (Sched b p s t w o) (Sched (set_conn c' b) p s t (w1 ++ Top 0 :: w2) o)
(** a handler panics while a worker reads *)
| ss_panic b p s t w o w1 w2 ev c' r :
    w = w1 ++ Reading ev :: w2 -> closeWithError (conn b) = (c', r) ->
    sstep (Sched b p s t w o) (Sched (set_conn c' b) p false t (w1 ++ w2) o).

Definition sinit : sched := Sched cinit 0 false 0 [] false.

(** Does a worker still have to look at readable bytes? *)
Definition holds_in (ph : phase) : bool :=
  match ph with
  | Top d | Finish _ d => has d evIn
  | Body ev | Flushing ev | Input ev => has ev evIn
  | Reading _ | Dead => false
  end.
Definition is_dead (ph : phase) : bool := match ph with Dead => true | _ => false end.

Record sinv (st : sched) : Prop := {
  si_one : tasks st + len (workers st) = Z.b2z (scheduled st);
  si_tasks : 0 <= tasks st;
  si_owed : owedIn st = true -> closing (conn (base st)) = false ->
    has (pendingEvents st) evIn || existsb holds_in (workers st) || existsb is_dead (workers st) = true;
}.

Lemma has_lor a b bit : has (Z.lor a b) bit = has a bit || has b bit.
Proof.
  unfold has. rewrite Z.land_lor_distr_l.
  destruct (Z.eqb_spec (Z.land a bit) 0) as [E1|E1], (Z.eqb_spec (Z.land b bit) 0) as [E2|E2];
    destruct (Z.eqb_spec (Z.lor (Z.land a bit) (Z.land b bit)) 0) as [E3|E3]; try done;
    try (apply Z.lor_eq_0_iff in E3 as [? ?]; congruence).
  rewrite E1, E2 in E3. done.
Qed.

Lemma has_evIn_all ev : has (Z.land ev evAll) evIn = has ev evIn.
Proof. unfold has. rewrite <- Z.land_assoc. done. Qed.

(** Closing is final. *)
Lemma closeWithError_closing c c' r : closeWithError c = (c', r) -> closing c' = true.
Proof. unfold closeWithError. by intros [= <- _]. Qed.

Lemma send_with_closing size all put t script c out script' :
  (forall n c, closing (put n c) = closing c) ->
  send_with cfg size all put t script c = Some (out, script') -> closing (o_conn out) = closing c.
Proof.
  intros Hput Hs. unfold send_with, send_finish, addPending in Hs. cbv zeta in Hs.
  repeat case_match; simplify_eq/=; try done; by rewrite Hput.
Qed.

Lemma queueLocked_closing a b c : closing (queueLocked cfg a b c) = closing c.
Proof. unfold queueLocked. repeat case_match; done. Qed.
Lemma queueOwnedLocked_closing a c : closing (queueOwnedLocked a c) = closing c.
Proof. unfold queueOwnedLocked. by case_match. Qed.

Lemma consume_closing fuel : forall left c, closing (consume_loop fuel left c) = closing c.
Proof.
  induction fuel as [|fuel IH]; intros left c; cbn; [done|].
  repeat case_match; try done; by rewrite IH.
Qed.

Lemma flush_round_closing t script c res c' d script' :
  flush_round cfg t script c = Some (res, c', d, script') -> closing c' = closing c.
Proof.
  unfold flush_round, flush_attempt, subPending, consumeLocked. intros Hs.
  repeat case_match; simplify_eq/=; try done; by rewrite ?consume_closing.
Qed.

Lemma cstep_closing b b' : cstep cfg b b' -> closing (conn b) = true -> closing (conn b') = true.
Proof.
  intros Hs Hc. destruct Hs as [c t o w data cp script script' out Hd Hs|c t o w first second script script' out Hd Hs
    |c t o w fd off n c' direct e Hs|c t o w app c' b e Hw Hs|c t o w c' b e Hs|c t o w script res c' d script' Hfl Hs Ha
    |c t o w|c t o w c' b Hs|c t o w|c t o w|c t o w c' b Hs|c t o w c' b Hs|c t o w c' d Hs|c t o w d Hd];
    cbn [conn] in *; try done.
  - unfold send in Hs. apply send_with_closing in Hs; [congruence|]. intros n c0.
    destruct cp; [apply queueLocked_closing|apply queueOwnedLocked_closing].
  - unfold SendParts in Hs. apply send_with_closing in Hs; [congruence|]. intros n c0.
    case_match; apply queueLocked_closing.
  - unfold SendFile in Hs. repeat case_match; by simplify_eq/=.
  - unfold flush_begin in Hs. case_match; by simplify_eq/=.
  - unfold flush_begin in Hs. case_match; by simplify_eq/=.
  - by rewrite (flush_round_closing _ _ _ _ _ _ _ Hs).
  - unfold uncork in Hs. by simplify_eq/=.
  - unfold closeAfterSendRaw in Hs. case_match; by simplify_eq/=.
  - unfold closeWithError in Hs. by simplify_eq/=.
  - unfold closeConnection in Hs. case_match; by simplify_eq/=.
Qed.

(** At most one worker. *)
Lemma one_worker t w1 (x : phase) w2 s :
  0 <= t -> t + len (w1 ++ x :: w2) = Z.b2z s -> w1 = [] /\ w2 = [] /\ t = 0 /\ s = true.
Proof.
  intros Ht E. rewrite len_app, len_cons in E. pose proof (len_nonneg w1). pose proof (len_nonneg w2).
  assert (len w1 = 0 /\ len w2 = 0 /\ t = 0 /\ s = true) as (? & ? & ? & ?) by (destruct s; cbn in E; lia).
  split_and!; try done; by apply len_zero_nil.
Qed.

Lemma sstep_inv st st' : sinv st -> sstep st st' -> sinv st'.
Proof.
  intros Hinv Hs. pose proof Hinv as [H1 H2 H4].
  destruct Hs as [b b' p s t w o Hs|b p s t w o ev p' s' submit Hs|b p s t w o Ht|b p s t w o c' r Ht Hs
    |b p s t w o w1 w2 d p' E Hs|b p s t w o w1 w2 d p' ev alive E Hs|b p s t w o w1 w2 ev E
    |b p s t w o w1 w2 ev ok E|b p s t w o w1 w2 ev E|b p s t w o w1 w2 ev E Hp|b p s t w o w1 w2 ev ok E
    |b p s t w o w1 w2 ev d E|b p s t w o w1 w2 c' r E Hs|b p s t w o w1 w2 ev c' r E Hs];
    cbn [base pendingEvents scheduled tasks workers owedIn] in *;
    try (subst w; destruct (one_worker _ _ _ _ _ H2 H1) as (-> & -> & -> & ->); cbn [app existsb] in *).
  - constructor; cbn; try done. intros Ho Hc. apply H4; [done|].
    destruct (closing (conn b)) eqn:E; [|done]. by rewrite (cstep_closing _ _ Hs E) in Hc.
  - unfold noteEvent in Hs. destruct (closing (conn b) || closed (conn b)) eqn:Ec.
    { simplify_eq. constructor; cbn; rewrite ?Z.add_0_r; try done. intros Ho. apply H4.
      by rewrite andb_false_r, orb_false_r in Ho. }
    set (e := Z.land ev evAll) in *. assert (He : has e evIn = has ev evIn) by apply has_evIn_all.
    clearbody e.
    destruct (Z.eqb_spec e 0) as [Ez|].
    { injection Hs as <- <- <-. constructor; cbn; rewrite ?Z.add_0_r; try done. intros Ho. apply H4.
      rewrite <- He, Ez in Ho. by rewrite orb_false_r in Ho. }
    destruct (Z.eqb_spec e evOut) as [Eo|]; cbn [andb] in Hs.
    + assert (has ev evIn = false) as Hin by (rewrite <- He, Eo; done).
      destruct (queue_empty (conn b) && (p =? 0)); injection Hs as <- <- <-;
        (constructor; cbn; rewrite ?Z.add_0_r; try done); rewrite ?Hin, ?orb_false_r.
      * done.
      * destruct s; cbn in *; lia.
      * destruct s; cbn in *; lia.
      * intros Ho Hc. specialize (H4 Ho Hc). rewrite has_lor. destruct (has p evIn); [done|].
        cbn in *. by destruct (has e evIn).
    + injection Hs as <- <- <-. constructor; cbn; try done.
      * destruct s; cbn in *; lia.
      * destruct s; cbn in *; lia.
      * intros Ho Hc. rewrite has_lor, He. destruct (has ev evIn); [by rewrite orb_true_r|].
        rewrite orb_false_r in *. by apply H4.
  - constructor; cbn; try (done || lia).
    + rewrite len_app, len_cons, (@len_nil phase). lia.
    + intros Ho Hc. specialize (H4 Ho Hc). rewrite !existsb_app. destruct (has p evIn); [done|].
      cbn in *. apply orb_prop in H4 as [->| ->]; rewrite ?orb_true_r; done.
  - pose proof (len_nonneg w). constructor; cbn; try (done || lia).
    + destruct s; cbn in *; lia.
    + intros _ Hc. by rewrite (closeWithError_closing _ _ _ Hs) in Hc.
  - unfold process_top in Hs. destruct (Z.eqb_spec (Z.lor p d) d) as [Ed|]; simplify_eq.
    constructor; cbn; try done.
    intros Ho Hc. specialize (H4 Ho Hc). rewrite has_lor. cbn in H4. rewrite !orb_false_r in *. done.
  - unfold process_top in Hs. destruct (Z.eqb_spec (Z.lor p d) d); simplify_eq.
    constructor; cbn; try done. intros Ho Hc. specialize (H4 Ho Hc). cbn in H4. rewrite !orb_false_r in *.
    destruct (closed (conn b) || closing (conn b)); cbn; [done|]. rewrite has_lor. by rewrite orb_false_r.
  - constructor; cbn; try done. intros Ho Hc. specialize (H4 Ho Hc). unfold process_body. cbn in H4.
    destruct (has ev evOut && _); cbn; done.
  - constructor; cbn; try done. intros Ho Hc. specialize (H4 Ho Hc). destruct ok; cbn in *; [done|].
    by rewrite ?orb_true_r.
  - constructor; cbn; try done. intros Ho Hc. apply andb_prop in Ho as [Ho Hn]. specialize (H4 Ho Hc).
    unfold process_input. cbn in H4. rewrite !orb_false_r in *.
    destruct (has ev evIn) eqn:Ein; cbn in *; rewrite ?orb_false_r in *.
    + destruct (hasQueuedOutput (conn b)); [|done]. cbn. rewrite has_lor. cbn. by rewrite ?orb_true_r.
    + by rewrite H4.
  - constructor; cbn; try done. intros Ho Hc. by rewrite ?orb_true_r.
  - constructor; cbn; try done. intros Ho Hc. specialize (H4 Ho Hc). cbn in H4. rewrite !orb_false_r in H4.
    rewrite H4. done.
  - constructor; cbn; try done. intros Ho Hc. specialize (H4 Ho Hc). cbn in H4. unfold process_finish.
    destruct (has ev evErr); [by rewrite ?orb_true_r|]. destruct (negb _); [by rewrite ?orb_true_r|]. done.
  - constructor; cbn; try done. intros _ Hc. by rewrite (closeWithError_closing _ _ _ Hs) in Hc.
  - constructor; cbn; try done. intros _ Hc. by rewrite (closeWithError_closing _ _ _ Hs) in Hc.
Qed.

Lemma sreachable_inv st : rtc sstep sinit st -> sinv st.
Proof.
  intros Hr. assert (H1 : sinv sinit) by (constructor; cbn; done).
  remember sinit as x. clear Heqx. induction Hr as [|x y z Hs _ IH]; [done|]. apply IH. by apply (sstep_inv x).
Qed.

(** C34: one worker at a time.  In every reachable state the tasks submitted for
    a connection and the workers running it are at most one together, and there
    is one exactly while [scheduled] is set: two workers never run the handler
    of one connection at once, and [noteEvent] never submits it twice. *)
Theorem process_exclusive st :
  rtc sstep sinit st ->
  tasks st + len (workers st) = Z.b2z (scheduled st) /\ 0 <= tasks st /\
  (forall ev p' s', noteEvent (conn (base st)) (pendingEvents st) (scheduled st) ev = (p', s', true) ->
     tasks st = 0 /\ workers st = []).
Proof.
  intros Hr. destruct (sreachable_inv st Hr) as [H1 H2 _]. split; [done|]. split; [done|].
  intros ev p' s' Hn. assert (scheduled st = false) as Hs.
  { unfold noteEvent in Hn. destruct (scheduled st); [|done]. repeat case_match; by simplify_eq. }
  rewrite Hs in H1. cbn [Z.b2z] in H1. pose proof (len_nonneg (workers st)).
  split; [lia|]. apply len_zero_nil. lia.
Qed.

(** C36: readiness is not dropped.  While the connection is open, bytes the loop
    reported as readable and no read has started on are still recorded, in
    [pendingEvents] or in the round of the worker; and when no worker holds the
    connection they are in [pendingEvents], so that any further event, a write
    edge included, submits the connection again. *)
Theorem readiness_kept st :
  rtc sstep sinit st -> owedIn st = true -> closing (conn (base st)) = false ->
  has (pendingEvents st) evIn || existsb holds_in (workers st) || existsb is_dead (workers st) = true /\
  (scheduled st = false -> closed (conn (base st)) = false ->
   has (pendingEvents st) evIn = true /\
   noteEvent (conn (base st)) (pendingEvents st) (scheduled st) evOut =
     (Z.lor (pendingEvents st) evOut, true, true)).
Proof.
  intros Hr Ho Hc. destruct (sreachable_inv st Hr) as [H1 H2 H4]. specialize (H4 Ho Hc). split; [done|].
  intros Hs Hcl. pose proof (len_nonneg (workers st)). rewrite Hs in H1. cbn in H1.
  assert (workers st = []) as Hw by (apply len_zero_nil; lia). rewrite Hw in H4. cbn in H4. rewrite !orb_false_r in H4.
  split; [done|]. unfold noteEvent. rewrite Hc, Hcl, Hs. cbn.
  destruct (Z.eqb_spec (pendingEvents st) 0) as [E|]; [by rewrite E in H4|]. by rewrite andb_false_r.
Qed.
End sched.

(** Nothing is left that would look at the connection again: no worker, no
    task, no flush under way or owed, no full socket to become writable. *)
Definition idle (st : sched) : Prop :=
  tasks st = 0 /\ workers st = [] /\ scheduled st = false /\ owes (base st) = 0 /\
  flushing (conn (base st)) = false /\ blocked (conn (base st)) = false /\ corked (conn (base st)) = false /\
  queue_empty (conn (base st)) = true /\ closing (conn (base st)) = false.

#[local] Existing Instance exact_cap.
#[local] Existing Instance zero_files.

Definition sched_demo : sched :=
  Sched (CState (Conn [] 0 false false false false false false 0 [0; 0] [0; 0] false false (Ghost false false false)) 0 0 0) evIn false 0 [] true.

Lemma sched_demo_run : rtc (sstep demo_cfg) sinit sched_demo.
Proof.
  run_step (apply ss_base; by eapply (cs_sendFile _ _ _ _ _ 4 10 2)).
  run_step (by eapply (ss_note _ _ _ _ _ _ _ evIn)).
  run_step (by apply ss_start).
  run_step (by eapply (ss_take _ _ _ _ _ _ _ [] [])).
  run_step (by apply (ss_body _ _ _ _ _ _ _ [] [])).
  run_step (by apply (ss_input _ _ _ _ _ _ _ [] [])).
  run_step (by apply (ss_finish _ _ _ _ _ _ _ [] [])).
  run_step (by eapply (ss_leave _ _ _ _ _ _ _ [] [])).
  run_step (apply ss_base; by eapply cs_flush_owed).
  run_step (apply ss_base; eapply (cs_flush_round _ _ _ _ _ [Wrote 2]); [done|vm_compute; reflexivity|flush_ok]).
  run_step (apply ss_base; eapply (cs_flush_round _ _ _ _ _ []); [done|vm_compute; reflexivity|flush_ok]).
  apply rtc_refl.
Qed.

(** A deferred read can be left with nobody to run it.  A file sent from
    another goroutine is queued while its flush has not started; a read edge
    that arrives then is deferred in favour of a later round, and the flush
    drains the queue without ever filling the socket: the reachable state has
    readable bytes recorded and nothing scheduled, flushing, owed or armed. *)
Theorem readiness_stranded :
  exists st, rtc (sstep demo_cfg) sinit st /\ owedIn st = true /\ pendingEvents st = evIn /\ idle st.
Proof. exists sched_demo. split; [apply sched_demo_run|]. repeat split. Qed.

Lemma process_exclusive_witness : tasks sched_demo + len (workers sched_demo) = Z.b2z (scheduled sched_demo).
Proof. apply (process_exclusive demo_cfg sched_demo sched_demo_run). Defined.

Lemma readiness_kept_witness :
  noteEvent (conn (base sched_demo)) (pendingEvents sched_demo) (scheduled sched_demo) evOut = (Z.lor evIn evOut, true, true).
Proof.
  apply (readiness_kept demo_cfg sched_demo sched_demo_run); reflexivity.
Defined.
