(* ===== verification/Backpressure.v ===== *)
(** Pausing and resuming reads across an engine (src/go/engine.go:
    [refreshConnection], [resumeBudgetPaused], [request] and [drainCommands],
    with the watermark checks of src/go/connection.go).

    Each connection is what these look at: its backlog and its read flags; the
    backlog moves by [addPending] and [subPending], whose accounting is in
    Connection.v.  The loop's rounds and the workers' sends and flushes
    interleave in [bstep].  [setReadPaused], a registration with the kernel, is
    assumed to succeed. *)
From S2P Require Import Prelude.
From S2P Require Import Connection.

Record rconn := RConn {
  pending : Z;
  usable : bool;
  readPaused : bool;
  budgetPaused : bool;
  readStalled : bool;
}.

Record engine := Engine {
  conns : list rconn;
  pendingTotal : Z;
  (** [e.budgetPaused], by index *)
  budgetList : list nat;
  (** refresh commands queued for the loop *)
  commands : list nat;
  (** reads handed back to [noteEvent] with [evIn]; those it accepts are
      [e.redeliver] *)
  redeliver : list nat;
  readsPausedByWatermark : Z;
  readsPausedByBudget : Z;
  readsResumed : Z;
}.

Section backpressure.
Context (cfg : EngineConfig).

Definition changed (total : Z) (c : rconn) : bool :=
  negb (Bool.eqb (fst (pauseDecision cfg total (readPaused c) (pending c))) (readPaused c)).

Definition set_conn (i : nat) (c : rconn) (e : engine) : engine :=
  Engine (<[i := c]> (conns e)) (pendingTotal e) (budgetList e) (commands e) (redeliver e)
    (readsPausedByWatermark e) (readsPausedByBudget e) (readsResumed e).

(** The backlog of connection [i] moves by [d]; a watermark crossing requests a
    refresh. *)
Definition move (i : nat) (d : Z) (e : engine) : engine :=
  match conns e !! i with
  | Some c =>
      let c := RConn (pending c + d) (usable c) (readPaused c) (budgetPaused c) (readStalled c) in
      let total := pendingTotal e + d in
      Engine (<[i := c]> (conns e)) total (budgetList e)
        (if changed total c then commands e ++ [i] else commands e) (redeliver e)
        (readsPausedByWatermark e) (readsPausedByBudget e) (readsResumed e)
  | None => e
  end.

(** [refreshConnection] *)
Definition refreshConnection (i : nat) (e : engine) : engine :=
  match conns e !! i with
  | Some c =>
      let '(pauseReads, byBudget) := pauseDecision cfg (pendingTotal e) (readPaused c) (pending c) in
      let changed := negb (Bool.eqb (readPaused c) pauseReads) in
      let track := usable c && pauseReads && byBudget && negb (budgetPaused c) in
      let budgetPaused := if track then true else budgetPaused c in
      let budgetPaused := if negb pauseReads then false else budgetPaused in
      let settle := readStalled c && negb pauseReads in
      let again := settle && usable c && negb changed in
      Engine (<[i := RConn (pending c) (usable c) pauseReads budgetPaused (readStalled c && negb settle)]> (conns e))
        (pendingTotal e)
        (if track then budgetList e ++ [i] else budgetList e) (commands e)
        (if again then redeliver e ++ [i] else redeliver e)
        (readsPausedByWatermark e + Z.b2z (changed && pauseReads && negb byBudget))
        (readsPausedByBudget e + Z.b2z (changed && pauseReads && byBudget))
        (readsResumed e + Z.b2z (changed && negb pauseReads))
  | None => e
  end.

(** [resumeBudgetPaused]: the list is emptied before it is walked. *)
Definition clear_budget (i : nat) (e : engine) : engine :=
  match conns e !! i with
  | Some c => set_conn i (RConn (pending c) (usable c) (readPaused c) false (readStalled c)) e
  | None => e
  end.

Definition resumeBudgetPaused (e : engine) : engine :=
  if match budgetList e with [] => true | _ => false end || (budgetResumeBytes cfg <? pendingTotal e) then e
  else
    let waiting := budgetList e in
    let e := Engine (conns e) (pendingTotal e) [] (commands e) (redeliver e)
      (readsPausedByWatermark e) (readsPausedByBudget e) (readsResumed e) in
    fold_left (fun e i => refreshConnection i (clear_budget i e)) waiting e.

(** [drainCommands], for the refreshes among them. *)
Definition drainCommands (e : engine) : engine :=
  let batch := commands e in
  let e := Engine (conns e) (pendingTotal e) (budgetList e) [] (redeliver e)
    (readsPausedByWatermark e) (readsPausedByBudget e) (readsResumed e) in
  fold_left (fun e i => refreshConnection i e) batch e.

(** A round of the loop: the commands, then the budget; the redelivered reads
    go to the workers. *)
Definition round (e : engine) : engine :=
  let e := resumeBudgetPaused (drainCommands e) in
  Engine (conns e) (pendingTotal e) (budgetList e) (commands e) []
    (readsPausedByWatermark e) (readsPausedByBudget e) (readsResumed e).

(** [readLoop] stops with the backlog full: the stall is marked and a refresh
    requested. *)
Definition stall (i : nat) (e : engine) : engine :=
  match conns e !! i with
  | Some c =>
      let e := set_conn i (RConn (pending c) (usable c) (readPaused c) (budgetPaused c) true) e in
      Engine (conns e) (pendingTotal e) (budgetList e) (commands e ++ [i]) (redeliver e)
        (readsPausedByWatermark e) (readsPausedByBudget e) (readsResumed e)
  | None => e
  end.

Inductive bstep : engine -> engine -> Prop :=
| b_queue i n e : 0 < n -> bstep e (move i n e)
| b_drain i n e c : conns e !! i = Some c -> 0 < n <= pending c -> bstep e (move i (- n) e)
| b_stall i e : bstep e (stall i e)
| b_round e : bstep e (round e).

Definition engine_init (n : nat) : engine :=
  Engine (replicate n (RConn 0 true false false false)) 0 [] [] [] 0 0 0.

(** * Hysteresis *)

(** Hysteresis.  A refresh that stops a connection's reads finds its
    backlog at the high watermark or the engine's total at the budget; one that
    lets them run again finds the backlog at or below the low watermark (or no
    watermark configured) and the total below the budget.  Between the two
    marks nothing changes. *)
Theorem refresh_hysteresis i e c c' :
  conns e !! i = Some c -> conns (refreshConnection i e) !! i = Some c' ->
  (readPaused c = false -> readPaused c' = true ->
     0 < maxPendingBytes cfg <= pendingTotal e \/ 0 < writeHighWatermark cfg <= pending c) /\
  (readPaused c = true -> readPaused c' = false ->
     (maxPendingBytes cfg <= 0 \/ pendingTotal e < maxPendingBytes cfg) /\
     (writeHighWatermark cfg <= 0 \/ pending c < writeHighWatermark cfg /\ pending c <= writeLowWatermark cfg)) /\
  pending c' = pending c.
Proof.
  intros Hc Hc'. unfold refreshConnection in Hc'. rewrite Hc in Hc'.
  destruct (pauseDecision cfg (pendingTotal e) (readPaused c) (pending c)) as [p b] eqn:Ep. cbn [conns] in Hc'.
  rewrite list_lookup_insert_eq in Hc' by (by eapply lookup_lt_Some). injection Hc' as <-. cbn [readPaused pending].
  unfold pauseDecision in Ep.
  destruct (Z.ltb_spec 0 (maxPendingBytes cfg)), (Z.leb_spec (maxPendingBytes cfg) (pendingTotal e)),
    (Z.leb_spec (writeHighWatermark cfg) 0), (Z.leb_spec (writeHighWatermark cfg) (pending c)),
    (Z.ltb_spec (writeLowWatermark cfg) (pending c)); cbn in Ep; injection Ep as <- <-;
    destruct (readPaused c); cbn; split_and!; intros; try done; try lia.
Qed.

(** * Resuming *)

(** What a refresh leaves alone. *)
Lemma refresh_other i j e : i <> j -> conns (refreshConnection i e) !! j = conns e !! j.
Proof.
  intros Hij. unfold refreshConnection. destruct (conns e !! i); [|done].
  destruct (pauseDecision _ _ _ _). cbn. by apply list_lookup_insert_ne.
Qed.

Lemma refresh_total i e : pendingTotal (refreshConnection i e) = pendingTotal e.
Proof. unfold refreshConnection. destruct (conns e !! i); [|done]. by destruct (pauseDecision _ _ _ _). Qed.

Lemma clear_total i e : pendingTotal (clear_budget i e) = pendingTotal e.
Proof. unfold clear_budget. by destruct (conns e !! i). Qed.

Lemma clear_pending i j e c :
  conns e !! j = Some c ->
  exists c', conns (clear_budget i e) !! j = Some c' /\ pending c' = pending c /\ readPaused c' = readPaused c.
Proof.
  intros Hj. unfold clear_budget. destruct (conns e !! i) as [x|] eqn:Hi; [|eauto].
  destruct (decide (i = j)) as [->|Hij]; cbn.
  - rewrite list_lookup_insert_eq by (by eapply lookup_lt_Some). eexists. split; [done|]. by simplify_eq.
  - rewrite list_lookup_insert_ne by done. eauto.
Qed.

(** A connection whose own backlog does not hold it, with the total below the
    budget, is running after its refresh. *)
Definition holds_itself (c : rconn) : Prop := 0 < writeHighWatermark cfg /\ writeLowWatermark cfg < pending c.

Lemma refresh_resumes i e c :
  conns e !! i = Some c -> ~ holds_itself c -> pendingTotal e < maxPendingBytes cfg ->
  writeLowWatermark cfg < writeHighWatermark cfg \/ writeHighWatermark cfg <= 0 ->
  exists c', conns (refreshConnection i e) !! i = Some c' /\ readPaused c' = false /\ pending c' = pending c.
Proof.
  intros Hc Hown Ht Hlh. unfold refreshConnection. rewrite Hc.
  assert (pauseDecision cfg (pendingTotal e) (readPaused c) (pending c) = (false, false)) as ->.
  { unfold pauseDecision, holds_itself in *.
    destruct (Z.ltb_spec 0 (maxPendingBytes cfg)), (Z.leb_spec (maxPendingBytes cfg) (pendingTotal e)),
      (Z.leb_spec (writeHighWatermark cfg) 0), (Z.leb_spec (writeHighWatermark cfg) (pending c)),
      (Z.ltb_spec (writeLowWatermark cfg) (pending c)); cbn; try lia; try done; by rewrite andb_false_r. }
  cbn [conns]. rewrite list_lookup_insert_eq by (by eapply lookup_lt_Some). by eexists.
Qed.

Lemma resume_fold i l : forall e c,
  conns e !! i = Some c -> ~ holds_itself c -> pendingTotal e < maxPendingBytes cfg ->
  writeLowWatermark cfg < writeHighWatermark cfg \/ writeHighWatermark cfg <= 0 ->
  i ∈ l \/ readPaused c = false ->
  exists c', conns (fold_left (fun e i => refreshConnection i (clear_budget i e)) l e) !! i = Some c' /\
    readPaused c' = false.
Proof.
  induction l as [|j l IH]; intros e c Hc Hown Ht Hlh Hi; cbn.
  - destruct Hi as [Hi|Hi]; [by apply elem_of_nil in Hi|eauto].
  - destruct (clear_pending j i e c Hc) as (c1 & Hc1 & Hp1 & Hr1).
    assert (Hown1 : ~ holds_itself c1) by (unfold holds_itself in *; by rewrite Hp1).
    assert (Ht1 : pendingTotal (clear_budget j e) < maxPendingBytes cfg) by (by rewrite clear_total).
    destruct (decide (j = i)) as [->|Hji].
    + destruct (refresh_resumes i _ c1 Hc1 Hown1 Ht1 Hlh) as (c2 & Hc2 & Hr2 & Hp2).
      apply (IH _ c2); auto.
      * unfold holds_itself in *. by rewrite Hp2.
      * by rewrite refresh_total.
    + apply (IH _ c1); auto.
      * by rewrite refresh_other.
      * by rewrite refresh_total.
      * rewrite Hr1. destruct Hi as [Hi|]; [|auto]. apply elem_of_cons in Hi as [->|]; [done|auto].
Qed.

(** The budget's list is served.  Once the total has drained to the resume
    mark, a round that reaches [resumeBudgetPaused] re-arms the reads of every
    connection the budget had stopped, except those whose own backlog is above
    the low watermark. *)
Theorem budget_resumes e i c :
  0 < maxPendingBytes cfg -> budgetResumeBytes cfg < maxPendingBytes cfg ->
  writeLowWatermark cfg < writeHighWatermark cfg \/ writeHighWatermark cfg <= 0 ->
  i ∈ budgetList e -> conns e !! i = Some c -> ~ holds_itself c -> pendingTotal e <= budgetResumeBytes cfg ->
  exists c', conns (resumeBudgetPaused e) !! i = Some c' /\ readPaused c' = false.
Proof.
  intros Hm Hb Hlh Hi Hc Hown Ht. unfold resumeBudgetPaused.
  destruct (budgetList e) as [|x l] eqn:E; [by apply elem_of_nil in Hi|].
  destruct (Z.ltb_spec (budgetResumeBytes cfg) (pendingTotal e)); [lia|]. cbn [orb].
  apply (resume_fold i _ _ c); cbn; auto; lia.
Qed.
End backpressure.

(** * Where reads stay stopped *)

(** Connection 0 fills its own backlog and is paused; connection 1 takes the
    total over the budget; connection 0 drains while the total is still over,
    and connection 1 after it. *)
Definition stuck_engine : engine :=
  Engine [RConn 0 true true false false; RConn 0 true false false false] 0 [] [] [] 1 1 1.

Lemma stuck_engine_run : rtc (bstep demo_cfg) (engine_init 2) stuck_engine.
Proof.
  run_norm.
  run_step (by apply (b_queue _ 0 100)). run_step (apply b_round).
  run_step (by apply (b_queue _ 1 1100)). run_step (apply b_round).
  run_step (by eapply (b_drain _ 0 100)).
  run_step (by eapply (b_drain _ 1 1100)). run_step (apply b_round).
  apply rtc_refl.
Qed.

(** A connection paused on its own account can stay paused for ever.  If it
    drains while the total is at the budget, [pauseStateChangedLocked] sees no
    change and requests nothing, and it is not on the budget's list, which only
    [refreshConnection] adds to: the reachable state has the connection open,
    its reads stopped, nothing pending anywhere and no command queued, and no
    number of rounds of the loop changes it. *)
Theorem paused_forever :
  exists e c, rtc (bstep demo_cfg) (engine_init 2) e /\ conns e !! 0%nat = Some c /\
    usable c = true /\ readPaused c = true /\ pending c = 0 /\ pendingTotal e = 0 /\ commands e = [] /\
    round demo_cfg e = e.
Proof. exists stuck_engine. eexists. split; [apply stuck_engine_run|]. repeat split. Qed.

(** Connection 2 is stopped by the budget; 1, whose backlog stopped it too,
    drains first and is resumed with the total still above the resume mark; 0,
    never paused, drains last. *)
Definition lost_cfg : EngineConfig := Build_EngineConfig true 300 75 1000 250 32.

Definition lost_engine : engine :=
  Engine [RConn 0 true false false false; RConn 0 true false false false; RConn 0 true true true false]
    0 [1%nat; 2%nat] [] [] 0 2 1.

Lemma lost_engine_run : rtc (bstep lost_cfg) (engine_init 3) lost_engine.
Proof.
  run_norm.
  run_step (by apply (b_queue _ 0 260)).
  run_step (by apply (b_queue _ 1 750)). run_step (apply b_round).
  run_step (by apply (b_queue _ 2 10)). run_step (apply b_round).
  run_step (by eapply (b_drain _ 2 10)).
  run_step (by eapply (b_drain _ 1 750)). run_step (apply b_round).
  run_step (by eapply (b_drain _ 0 260)).
  apply rtc_refl.
Qed.

(** The budget's recovery wakes nobody by itself.  When the last bytes over
    the resume mark belong to a connection that was never paused, its flush
    requests no refresh: the reachable state has a connection stopped by the
    budget on the list, the total at zero and no command to wake the loop, and
    only a round started by some other event would resume it. *)
Theorem budget_recovery_unnoticed :
  exists e c, rtc (bstep lost_cfg) (engine_init 3) e /\ conns e !! 2%nat = Some c /\ 2%nat ∈ budgetList e /\
    usable c = true /\ readPaused c = true /\ pending c = 0 /\ pendingTotal e = 0 /\ commands e = [] /\
    option_map readPaused (conns (round lost_cfg e) !! 2%nat) = Some false.
Proof.
  exists lost_engine. eexists. split; [apply lost_engine_run|]. split; [reflexivity|].
  split; [set_solver|]. repeat split.
Qed.

Lemma refresh_hysteresis_witness :
  0 < maxPendingBytes demo_cfg <= 100 \/ 0 < writeHighWatermark demo_cfg <= 100.
Proof.
  apply (refresh_hysteresis demo_cfg 0 (move demo_cfg 0 100 (engine_init 2))
    (RConn 100 true false false false) (RConn 100 true true false false)); reflexivity.
Defined.

Lemma budget_resumes_witness :
  exists c', conns (resumeBudgetPaused lost_cfg lost_engine) !! 2%nat = Some c' /\ readPaused c' = false.
Proof.
  apply (budget_resumes lost_cfg lost_engine 2 (RConn 0 true true true false)); cbn; try lia; try reflexivity.
  - set_solver.
  - unfold holds_itself. cbn. lia.
Defined.
