(* ===== verification/Huffman.v ===== *)
(** Huffman coding of header strings (src/go/internal/hpack/huffman.go): the
    decoding tree [buildHuffmanTree] makes from the tables, the bit-by-bit
    decoder, and the encoder that packs codes through a 64-bit accumulator.

    Both sides are related to a sequence of bits, most significant first. The
    facts about the 256 codes (every path of the tree spells the code of its
    leaf) are decided by evaluation. *)
From Stdlib Require Import String.
From S2P Require Import Prelude.
From S2P Require Import HpackTables.

Inductive hpack_error :=
| ErrInvalidIndex | ErrIntegerOverflow | ErrTruncated | ErrInvalidHuffman
| ErrStringTooLong | ErrInvalidSizeUpdate.

(** * The decoding tree *)

Record huffmanNode := Node { child0 : Z; child1 : Z; sym : Z }.
Definition emptyNode : huffmanNode := Node 0 0 0.

Definition child (n : huffmanNode) (bit : bool) : Z := if bit then child1 n else child0 n.
Definition set_child (bit : bool) (next : Z) (n : huffmanNode) : huffmanNode :=
  if bit then Node (child0 n) next (sym n) else Node next (child1 n) (sym n).

(** [huffmanTree[i]]; every index the code follows is in the tree. *)
Definition node_at (t : list huffmanNode) (i : Z) : huffmanNode := default emptyNode (at_ t i).

(** The walk that adds one code, over the bits [i-1 .. 0] of [code]. *)
Fixpoint add_code (t : list huffmanNode) (node : Z) (i : nat) (code : Z) : list huffmanNode * Z :=
  match i with
  | O => (t, node)
  | S i =>
      let bit := Z.testbit code (Z.of_nat i) in
      let next := child (node_at t node) bit in
      if next =? 0 then
        let t := t ++ [emptyNode] in
        let next := u16 (len t - 1) in
        let t := alter (set_child bit next) (Z.to_nat node) t in
        add_code t next i code
      else add_code t next i code
  end.

Definition code_of (s : Z) : Z := default 0 (at_ huffmanCodes s).
Definition code_len (s : Z) : Z := default 0 (at_ huffmanCodeLen s).

Definition add_symbol (t : list huffmanNode) (s : Z) : list huffmanNode :=
  let '(t, node) := add_code t 0 (Z.to_nat (code_len s)) (code_of s) in
  alter (fun n => Node (child0 n) (child1 n) (u8 s)) (Z.to_nat node) t.

Definition buildHuffmanTree : list huffmanNode := fold_left add_symbol (seqZ 0 256) [emptyNode].

(** The tree the package holds once [init] has run. *)
Definition huffmanTree : list huffmanNode := Eval vm_compute in buildHuffmanTree.

(** * Decoding *)

Record dstate := DState { d_out : bytes; d_node : Z; d_depth : Z; d_ones : bool }.

Definition decode_bit (maxLen : Z) (bit : bool) (s : dstate) : result hpack_error dstate :=
  let next := child (node_at huffmanTree (d_node s)) bit in
  if next =? 0 then Err ErrInvalidHuffman
  else if child0 (node_at huffmanTree next) =? 0 then
    let out := d_out s ++ [sym (node_at huffmanTree next)] in
    if (0 <? maxLen) && (maxLen <? len out) then Err ErrStringTooLong
    else Ok (DState out 0 0 true)
  else Ok (DState (d_out s) next (d_depth s + 1) (d_ones s && bit)).

(** The inner loop, over the bits [i-1 .. 0] of a byte. *)
Fixpoint decode_byte (maxLen : Z) (i : nat) (b : Z) (s : dstate) : result hpack_error dstate :=
  match i with
  | O => Ok s
  | S i =>
      let! s := decode_bit maxLen (Z.land (Z.shiftr b (Z.of_nat i)) 1 =? 1) s in
      decode_byte maxLen i b s
  end.

Fixpoint decode_bytes (maxLen : Z) (e : bytes) (s : dstate) : result hpack_error dstate :=
  match e with
  | [] => Ok s
  | b :: e => let! s := decode_byte maxLen 8 b s in decode_bytes maxLen e s
  end.

Definition huffmanDecode (e : bytes) (maxLen : Z) : result hpack_error bytes :=
  let! s := decode_bytes maxLen e (DState [] 0 0 true) in
  if (7 <? d_depth s) || negb (d_ones s) then Err ErrInvalidHuffman else Ok (d_out s).

(** * Encoding *)

Definition huffmanLen (s : bytes) : Z := (fold_left (fun bits c => bits + code_len c) s 0 + 7) / 8.

(** [for n >= 8 { n -= 8; dst = append(dst, byte(acc>>n)) }]; at most 37 bits
    are ever held, so four rounds. *)
Fixpoint emit_bytes (fuel : nat) (acc n : Z) (dst : bytes) : bytes * Z :=
  match fuel with
  | O => (dst, n)
  | S fuel =>
      if 8 <=? n then emit_bytes fuel acc (n - 8) (dst ++ [u8 (Z.shiftr acc (n - 8))]) else (dst, n)
  end.

Fixpoint huffman_loop (s : bytes) (acc n : Z) (dst : bytes) : bytes * Z * Z :=
  match s with
  | [] => (dst, acc, n)
  | c :: s =>
      let acc := Z.lor (u64 (Z.shiftl acc (code_len c))) (code_of c) in
      let '(dst, n) := emit_bytes 5 acc (n + code_len c) dst in
      huffman_loop s acc n dst
  end.

Definition huffmanAppend (dst s : bytes) : bytes :=
  let '(dst, acc, n) := huffman_loop s 0 0 dst in
  if 0 <? n
  then dst ++ [Z.lor (u8 (u64 (Z.shiftl acc (8 - n)))) (u8 (Z.shiftr 0xff n))]
  else dst.

(** * Bits *)

(** The low [n] bits of [v], most significant first. *)
Fixpoint Z_bits (n : nat) (v : Z) : list bool :=
  match n with
  | O => []
  | S n => Z.testbit v (Z.of_nat n) :: Z_bits n v
  end.

Definition bits (e : bytes) : list bool := e ≫= Z_bits 8.
Definition code_bits (c : Z) : list bool := Z_bits (Z.to_nat (code_len c)) (code_of c).

Lemma Z_bits_length n v : length (Z_bits n v) = n.
Proof. induction n; cbn; congruence. Qed.

Lemma Z_bits_ext n v w :
  (forall i, 0 <= i < Z.of_nat n -> Z.testbit v i = Z.testbit w i) -> Z_bits n v = Z_bits n w.
Proof.
  induction n as [|n IH]; intros H; cbn; [done|]. f_equal; [apply H; lia|].
  apply IH. intros. apply H. lia.
Qed.

Lemma Z_bits_app a b v : Z_bits (a + b) v = Z_bits a (Z.shiftr v (Z.of_nat b)) ++ Z_bits b v.
Proof.
  induction a as [|a IH]; cbn; [done|]. f_equal; [|done].
  rewrite Z.shiftr_spec by lia. f_equal. lia.
Qed.

Lemma Z_bits_inj n v w : 0 <= v < 2 ^ Z.of_nat n -> 0 <= w < 2 ^ Z.of_nat n -> Z_bits n v = Z_bits n w -> v = w.
Proof.
  intros Hv Hw H. apply Z.bits_inj'. intros i Hi.
  destruct (Z.lt_ge_cases i (Z.of_nat n)) as [Hl|Hl].
  - clear Hv Hw. revert i Hi Hl. induction n as [|n IH]; intros i Hi Hl; [lia|].
    cbn in H. injection H as H0 H. destruct (Z.eq_dec i (Z.of_nat n)) as [->|]; [done|].
    apply IH; [done|lia|lia].
  - rewrite <- (Z.mod_small v (2 ^ Z.of_nat n)), <- (Z.mod_small w (2 ^ Z.of_nat n)) by done.
    by rewrite !Z.mod_pow2_bits_high by lia.
Qed.

Lemma testbit_u8 v i : 0 <= i < 8 -> Z.testbit (u8 v) i = Z.testbit v i.
Proof. intros. unfold u8. apply Z.mod_pow2_bits_low. lia. Qed.

Lemma testbit_u64 v i : 0 <= i < 64 -> Z.testbit (u64 v) i = Z.testbit v i.
Proof. intros. unfold u64. apply Z.mod_pow2_bits_low. lia. Qed.

Lemma bits_app e e' : bits (e ++ e') = bits e ++ bits e'.
Proof. apply bind_app. Qed.

Lemma bits_length e : length (bits e) = (8 * length e)%nat.
Proof. unfold bits. induction e as [|b e IH]; [done|]. rewrite bind_cons, length_app, IH, Z_bits_length. cbn [length]. lia. Qed.

Lemma bits_inj e e' : bytes_ok e -> bytes_ok e' -> bits e = bits e' -> e = e'.
Proof.
  intros He. revert e'. induction He as [|b e Hb He IH]; intros e' He' H.
  - destruct He'; [done|discriminate H].
  - destruct He' as [|b' e' Hb' He']; [discriminate H|].
    unfold bits in H. rewrite !bind_cons in H.
    apply app_inj_1 in H as [H1 H2]; [|done].
    f_equal; [by apply (Z_bits_inj 8)|by apply IH].
Qed.

(** * Encoding as bits *)

(** A fact about every byte, decided by evaluation. *)
Lemma all_bytes (f : Z -> bool) c : forallb f (seqZ 0 256) = true -> byte_ok c -> f c = true.
Proof.
  rewrite forallb_forall. intros H Hc. apply H. apply list_elem_of_In, elem_of_seqZ. unfold byte_ok in Hc. lia.
Qed.

(** The table's codes fit their lengths, which are between 5 and 30. *)
Lemma code_len_range c : byte_ok c -> 5 <= code_len c <= 30.
Proof.
  intros Hc. pose proof (all_bytes (fun c => (5 <=? code_len c) && (code_len c <=? 30)) c ltac:(vm_compute; reflexivity) Hc) as H. cbv beta in H. lia.
Qed.

Lemma code_of_range c : byte_ok c -> 0 <= code_of c < 2 ^ code_len c.
Proof.
  intros Hc. pose proof (all_bytes (fun c => (0 <=? code_of c) && (code_of c <? 2 ^ code_len c)) c ltac:(vm_compute; reflexivity) Hc) as H. cbv beta in H. lia.
Qed.

Lemma push_code acc n c :
  byte_ok c -> 0 <= n < 8 ->
  Z_bits (Z.to_nat (n + code_len c)) (Z.lor (u64 (Z.shiftl acc (code_len c))) (code_of c))
  = Z_bits (Z.to_nat n) acc ++ code_bits c.
Proof.
  intros Hc Hn. pose proof (code_len_range c Hc) as Hl. pose proof (code_of_range c Hc) as Ho.
  replace (Z.to_nat (n + code_len c)) with (Z.to_nat n + Z.to_nat (code_len c))%nat by lia.
  rewrite Z_bits_app. f_equal; apply Z_bits_ext; intros i Hi; rewrite ?Z.shiftr_spec by lia;
    rewrite Z.lor_spec, testbit_u64, Z.shiftl_spec by lia.
  - rewrite <- (Z.mod_small (code_of c) (2 ^ code_len c)) by done.
    rewrite Z.mod_pow2_bits_high by lia. rewrite orb_false_r. f_equal. lia.
  - by rewrite Z.testbit_neg_r by lia.
Qed.

Lemma emit_bytes_spec fuel acc n dst :
  0 <= n < 8 * Z.of_nat fuel ->
  exists o, emit_bytes fuel acc n dst = (dst ++ o, n mod 8) /\ bytes_ok o /\
    Z_bits (Z.to_nat n) acc = bits o ++ Z_bits (Z.to_nat (n mod 8)) acc.
Proof.
  revert n dst. induction fuel as [|fuel IH]; intros n dst Hn; [lia|].
  cbn [emit_bytes]. destruct (Z.leb_spec 8 n).
  - destruct (IH (n - 8) (dst ++ [u8 (Z.shiftr acc (n - 8))])) as (o & E & Ho & Hb); [lia|].
    replace ((n - 8) mod 8) with (n mod 8) in * by (Z.div_mod_to_equations; lia).
    exists (u8 (Z.shiftr acc (n - 8)) :: o). rewrite E, <- (assoc_L (++)).
    split; [done|]. split; [constructor; auto with fib|].
    replace (Z.to_nat n) with (8 + Z.to_nat (n - 8))%nat by lia.
    unfold bits. rewrite Z_bits_app, bind_cons, <- (assoc_L (++)), Hb. f_equal.
    apply Z_bits_ext. intros. rewrite testbit_u8 by lia. f_equal. f_equal. lia.
  - exists []. rewrite app_nil_r, Z.mod_small by lia. done.
Qed.

Lemma huffman_loop_spec s acc n dst :
  bytes_ok s -> 0 <= n < 8 ->
  exists o acc' n', huffman_loop s acc n dst = (dst ++ o, acc', n') /\ bytes_ok o /\ 0 <= n' < 8 /\
    Z_bits (Z.to_nat n) acc ++ (s ≫= code_bits) = bits o ++ Z_bits (Z.to_nat n') acc'.
Proof.
  intros Hs. revert acc n dst. induction Hs as [|c s Hc Hs IH]; intros acc n dst Hn.
  - exists [], acc, n. cbn. rewrite !app_nil_r. done.
  - cbn [huffman_loop]. pose proof (code_len_range c Hc).
    set (acc' := Z.lor _ _).
    destruct (emit_bytes_spec 5 acc' (n + code_len c) dst) as (o & -> & Ho & Hb); [lia|].
    destruct (IH acc' ((n + code_len c) mod 8) (dst ++ o)) as (o' & a & k & -> & Ho' & Hk & Hb');
      [apply Z.mod_pos_bound; lia|].
    exists (o ++ o'), a, k. rewrite <- (assoc_L (++)). split; [done|].
    split; [by apply Forall_app|]. split; [done|].
    rewrite bind_cons, (assoc_L (++)), <- push_code by done.
    fold acc'. rewrite Hb, bits_app, <- !(assoc_L (++)). by f_equal.
Qed.

(** What the encoder writes: the codes, then fewer than eight ones. *)
Lemma huffmanAppend_bits dst s :
  bytes_ok s ->
  exists o k, huffmanAppend dst s = dst ++ o /\ bytes_ok o /\ (k < 8)%nat /\
    bits o = (s ≫= code_bits) ++ replicate k true.
Proof.
  intros Hs. unfold huffmanAppend.
  destruct (huffman_loop_spec s 0 0 dst) as (o & acc & n & -> & Ho & Hn & Hb); [done|lia|].
  change (Z_bits (Z.to_nat 0) 0) with (@nil bool) in Hb. rewrite app_nil_l in Hb. destruct (Z.ltb_spec 0 n).
  - set (b := Z.lor _ _). exists (o ++ [b]), (Z.to_nat (8 - n)).
    assert (Hbits : Z_bits 8 b = Z_bits (Z.to_nat n) acc ++ replicate (Z.to_nat (8 - n)) true).
    { subst b. replace 8%nat with (Z.to_nat n + Z.to_nat (8 - n))%nat at 1 by lia.
      rewrite Z_bits_app. f_equal.
      - apply Z_bits_ext. intros i Hi. rewrite Z.shiftr_spec, Z.lor_spec, !testbit_u8, testbit_u64, Z.shiftl_spec by lia.
        rewrite Z.shiftr_spec by lia. change 0xff with (Z.ones 8). rewrite Z.ones_spec_high by lia.
        rewrite orb_false_r. f_equal. lia.
      - transitivity (Z_bits (Z.to_nat (8 - n)) (Z.ones 8)).
        + apply Z_bits_ext. intros i Hi. rewrite Z.lor_spec, !testbit_u8, testbit_u64, Z.shiftl_spec by lia.
          rewrite (Z.testbit_neg_r acc) by lia. rewrite Z.shiftr_spec by lia. change 0xff with (Z.ones 8).
          rewrite !Z.ones_spec_low by lia. done.
        + assert (Hr : (Z.to_nat (8 - n) <= 8)%nat) by lia. revert Hr. generalize (Z.to_nat (8 - n)).
          intros m. induction m as [|m IH]; intros Hm; cbn; [done|]. rewrite Z.ones_spec_low by lia.
          f_equal. apply IH. lia. }
    split; [by rewrite (assoc_L (++))|]. split.
    { apply Forall_app. split; [done|]. apply Forall_singleton. subst b.
      apply lor_byte_ok; apply u8_byte_ok. }
    split; [lia|].
    rewrite Hb, bits_app, <- (assoc_L (++)). f_equal. unfold bits. cbn [mbind list_bind]. by rewrite app_nil_r.
  - exists o, 0%nat. replace n with 0 in * by lia. cbn in Hb. rewrite app_nil_r in *.
    split; [done|]. split; [done|]. split; [lia|]. by rewrite Hb.
Qed.

(** * Decoding as bits *)

Fixpoint run_bits (maxLen : Z) (bs : list bool) (s : dstate) : result hpack_error dstate :=
  match bs with
  | [] => Ok s
  | b :: bs => let! s := decode_bit maxLen b s in run_bits maxLen bs s
  end.

Lemma run_bits_app maxLen bs cs s :
  run_bits maxLen (bs ++ cs) s = let! s := run_bits maxLen bs s in run_bits maxLen cs s.
Proof.
  revert s. induction bs as [|b bs IH]; intros s; cbn; [done|]. destruct (decode_bit maxLen b s); [apply IH|done].
Qed.

Lemma decode_byte_bits maxLen n b s : decode_byte maxLen n b s = run_bits maxLen (Z_bits n b) s.
Proof.
  revert s. induction n as [|n IH]; intros s; cbn [decode_byte Z_bits run_bits]; [done|].
  replace (Z.land (Z.shiftr b (Z.of_nat n)) 1 =? 1) with (Z.testbit b (Z.of_nat n)).
  - destruct (decode_bit _ _ s); [apply IH|done].
  - rewrite (Z.land_ones _ 1) by lia. change (2 ^ 1) with 2. rewrite <- Z.bit0_mod, Z.shiftr_spec by lia.
    rewrite Z.add_0_l. by destruct (Z.testbit b (Z.of_nat n)).
Qed.

Lemma decode_bytes_bits maxLen e s : decode_bytes maxLen e s = run_bits maxLen (bits e) s.
Proof.
  revert s. induction e as [|b e IH]; intros s; [done|]. unfold bits. cbn [decode_bytes].
  rewrite bind_cons, run_bits_app, decode_byte_bits. destruct (run_bits _ _ s); [apply IH|done].
Qed.

(** Where a path from an inner node leads when only its end is a leaf, or when
    it stays inside. *)
Fixpoint walk (node : Z) (bs : list bool) : option Z :=
  match bs with
  | [] => None
  | b :: bs =>
      let next := child (node_at huffmanTree node) b in
      if next =? 0 then None
      else if child0 (node_at huffmanTree next) =? 0
           then match bs with [] => Some (sym (node_at huffmanTree next)) | _ => None end
           else walk next bs
  end.

Fixpoint walk_inner (node : Z) (bs : list bool) : option Z :=
  match bs with
  | [] => Some node
  | b :: bs =>
      let next := child (node_at huffmanTree node) b in
      if next =? 0 then None
      else if child0 (node_at huffmanTree next) =? 0 then None else walk_inner next bs
  end.

Lemma walk_run maxLen node bs c out depth ones :
  walk node bs = Some c ->
  run_bits maxLen bs (DState out node depth ones)
  = if (0 <? maxLen) && (maxLen <? len (out ++ [c])) then Err ErrStringTooLong else Ok (DState (out ++ [c]) 0 0 true).
Proof.
  revert node depth ones. induction bs as [|b bs IH]; intros node depth ones H; [done|].
  cbn [run_bits]. unfold decode_bit. cbn [d_node d_out d_depth d_ones]. cbn [walk] in H.
  destruct (child _ b =? 0); [done|]. destruct (child0 _ =? 0).
  - destruct bs; [|done]. injection H as ->. by destruct (_ && _).
  - by apply IH.
Qed.

Lemma walk_inner_run maxLen node bs node' out depth ones :
  walk_inner node bs = Some node' ->
  run_bits maxLen bs (DState out node depth ones) = Ok (DState out node' (depth + len bs) (ones && forallb id bs)).
Proof.
  revert node depth ones. induction bs as [|b bs IH]; intros node depth ones H.
  - injection H as ->. cbn. rewrite andb_true_r, len_nil, Z.add_0_r. done.
  - cbn [run_bits]. unfold decode_bit. cbn [d_node d_out d_depth d_ones]. cbn [walk_inner] in H.
    destruct (child _ b =? 0); [done|]. destruct (child0 _ =? 0); [done|].
    rewrite (IH _ _ _ H), len_cons. cbn [forallb]. rewrite <- andb_assoc.
    f_equal. f_equal. lia.
Qed.

Definition walks (c : Z) : bool := bool_decide (walk 0 (code_bits c) = Some c).

Lemma walk_code c : byte_ok c -> walk 0 (code_bits c) = Some c.
Proof.
  intros Hc. pose proof (all_bytes walks c ltac:(vm_compute; reflexivity) Hc) as H.
  by apply bool_decide_eq_true in H.
Qed.

Lemma walk_padding k : (k < 8)%nat -> is_Some (walk_inner 0 (replicate k true)).
Proof. intros Hk. do 8 (destruct k as [|k]; [vm_compute; eauto|]). lia. Qed.

(** Decoding the codes of [s] from the root. *)
Lemma run_codes maxLen s out :
  bytes_ok s ->
  run_bits maxLen (s ≫= code_bits) (DState out 0 0 true)
  = if bool_decide (s = []) then Ok (DState out 0 0 true)
    else if (0 <? maxLen) && (maxLen <? len (out ++ s)) then Err ErrStringTooLong
    else Ok (DState (out ++ s) 0 0 true).
Proof.
  intros Hs. revert out. induction Hs as [|c s Hc Hs IH]; intros out; [done|].
  rewrite bind_cons, run_bits_app, (walk_run _ _ _ c) by by apply walk_code.
  rewrite bool_decide_false by done.
  assert (E : len (out ++ c :: s) = len (out ++ [c]) + len s) by len_lia.
  destruct (Z.ltb_spec 0 maxLen); cbn [andb].
  - destruct (Z.ltb_spec maxLen (len (out ++ [c]))).
    + destruct (Z.ltb_spec maxLen (len (out ++ c :: s))); [done|]. pose proof (len_nonneg s). lia.
    + rewrite IH, <- (assoc_L (++)). cbn [app].
      destruct (Z.ltb_spec 0 maxLen); [|lia]. cbn [andb].
      case_bool_decide as Es; [|done]. subst s. destruct (Z.ltb_spec maxLen (len (out ++ [c]))); [lia|done].
  - rewrite IH, <- (assoc_L (++)). cbn [app]. destruct (Z.ltb_spec 0 maxLen); [lia|]. cbn [andb].
    case_bool_decide as Es; [by subst s|done].
Qed.

(** The path from the root to every node, and what the tree says of it. *)
Definition paths : list (list bool) := Eval vm_compute in
  fold_left (fun ps i =>
      let p := default [] (at_ ps i) in
      let n := node_at huffmanTree i in
      let ps := if child0 n =? 0 then ps else <[Z.to_nat (child0 n) := p ++ [false]]> ps in
      if child1 n =? 0 then ps else <[Z.to_nat (child1 n) := p ++ [true]]> ps)
    (seqZ 0 (len huffmanTree)) (replicate (length huffmanTree) []).

Definition path (i : Z) : list bool := default [] (at_ paths i).

Definition edge_ok (i : Z) (b : bool) : bool :=
  let c := child (node_at huffmanTree i) b in
  (c =? 0) ||
  ((0 <=? c) && (c <? len huffmanTree) && bool_decide (path c = path i ++ [b]) &&
   (negb (child0 (node_at huffmanTree c) =? 0) ||
    (bool_decide (path c = code_bits (sym (node_at huffmanTree c))) &&
     (0 <=? sym (node_at huffmanTree c)) && (sym (node_at huffmanTree c) <? 256)))).

Lemma edges i b : 0 <= i < len huffmanTree -> edge_ok i b = true.
Proof.
  intros Hi.
  assert (H : forallb (fun i => edge_ok i true && edge_ok i false) (seqZ 0 (len huffmanTree)) = true)
    by (vm_compute; reflexivity).
  rewrite forallb_forall in H. specialize (H i). cbv beta in H.
  rewrite <- list_elem_of_In, elem_of_seqZ in H. specialize (H ltac:(lia)).
  apply andb_true_iff in H as [? ?]. by destruct b.
Qed.

(** The decoder's state is what it has read: symbols, then a path. *)
Definition read_ok (bs : list bool) (s : dstate) : Prop :=
  bytes_ok (d_out s) /\ 0 <= d_node s < len huffmanTree /\
  bs = (d_out s ≫= code_bits) ++ path (d_node s) /\
  d_depth s = len (path (d_node s)) /\ d_ones s = forallb id (path (d_node s)).

Lemma decode_bit_ok maxLen bs b s s' :
  read_ok bs s -> decode_bit maxLen b s = Ok s' -> read_ok (bs ++ [b]) s'.
Proof.
  intros (Ho & Hn & -> & Hd & H1). unfold decode_bit. pose proof (edges _ b Hn) as He.
  unfold edge_ok in He. destruct (child _ b =? 0) eqn:E; [done|]. cbn [orb] in He.
  apply andb_true_iff in He as [He Hl]. apply andb_true_iff in He as [He Hp].
  apply bool_decide_eq_true in Hp. destruct (child0 _ =? 0) eqn:E0; cbn [negb orb] in Hl.
  - apply andb_true_iff in Hl as [Hl ?]. apply andb_true_iff in Hl as [Hl ?]. apply bool_decide_eq_true in Hl.
    destruct ((0 <? maxLen) && _); [done|]. intros [= <-]. unfold read_ok. cbn [d_out d_node d_depth d_ones].
    split; [apply Forall_app; split; [done|]; apply Forall_singleton; unfold byte_ok; lia|].
    split; [by vm_compute|]. split; [|done].
    rewrite bind_app, <- (assoc_L (++)), <- Hp, Hl. change (path 0) with (@nil bool).
    rewrite !app_nil_r. unfold mbind, list_bind at 3. by rewrite app_nil_r.
  - intros [= <-]. unfold read_ok. cbn [d_out d_node d_depth d_ones].
    split; [done|]. split; [lia|]. rewrite Hp. split; [by rewrite (assoc_L (++))|].
    split; [len_lia|]. rewrite forallb_app, H1. cbn [forallb id]. by rewrite andb_true_r.
Qed.

Lemma run_bits_ok maxLen bs bs' s s' :
  read_ok bs s -> run_bits maxLen bs' s = Ok s' -> read_ok (bs ++ bs') s'.
Proof.
  revert bs s. induction bs' as [|b bs' IH]; intros bs s Hr H; cbn in H.
  - injection H as <-. by rewrite app_nil_r.
  - destruct (decode_bit maxLen b s) as [s1|] eqn:E; [|done].
    replace (bs ++ b :: bs') with ((bs ++ [b]) ++ bs') by by rewrite <- (assoc_L (++)).
    eapply IH; [|done]. by eapply decode_bit_ok.
Qed.

(** * Round trip *)

Lemma huffmanAppend_dst dst s : bytes_ok s -> huffmanAppend dst s = dst ++ huffmanAppend [] s.
Proof.
  intros Hs. destruct (huffmanAppend_bits dst s Hs) as (o & k & -> & Ho & Hk & Hb).
  destruct (huffmanAppend_bits [] s Hs) as (o' & k' & -> & Ho' & Hk' & Hb'). cbn [app]. f_equal.
  apply bits_inj; [done..|].
  assert (k = k') as ->; [|congruence].
  apply (f_equal length) in Hb, Hb'. rewrite length_app, bits_length, length_replicate in Hb, Hb'. lia.
Qed.

Lemma huffmanAppend_ok s : bytes_ok s -> bytes_ok (huffmanAppend [] s).
Proof. intros Hs. by destruct (huffmanAppend_bits [] s Hs) as (o & k & -> & Ho & _). Qed.

Definition too_long (maxLen : Z) (s : bytes) : bool := (0 <? maxLen) && (maxLen <? len s).

Lemma huffmanDecode_append s maxLen :
  bytes_ok s ->
  huffmanDecode (huffmanAppend [] s) maxLen = if too_long maxLen s then Err ErrStringTooLong else Ok s.
Proof.
  intros Hs. destruct (huffmanAppend_bits [] s Hs) as (o & k & -> & _ & Hk & Hb).
  unfold huffmanDecode. rewrite app_nil_l, decode_bytes_bits, Hb, run_bits_app, run_codes by done.
  rewrite app_nil_l. unfold too_long.
  assert (E : run_bits maxLen (replicate k true) (DState s 0 0 true)
    = Ok (DState s (default 0 (walk_inner 0 (replicate k true))) (Z.of_nat k) true)).
  { destruct (walk_padding k Hk) as [n Hn]. rewrite (walk_inner_run _ _ _ _ _ _ _ Hn), Hn, len_replicate. cbn [default].
    f_equal. f_equal. clear. induction k; cbn; [done|]. done. }
  case_bool_decide as Es.
  - subst s. rewrite E. cbn [d_depth d_ones d_out negb]. change (len (@nil Z)) with 0.
    destruct (Z.ltb_spec 7 (Z.of_nat k)); [lia|]. cbn [orb].
    destruct (Z.ltb_spec 0 maxLen), (Z.ltb_spec maxLen 0); cbn [andb]; (lia || done).
  - destruct ((0 <? maxLen) && _); [done|]. rewrite E. cbn [d_depth d_ones d_out negb].
    destruct (Z.ltb_spec 7 (Z.of_nat k)); [lia|]. done.
Qed.

Lemma huffmanDecode_inv e maxLen s :
  bytes_ok e -> huffmanDecode e maxLen = Ok s -> bytes_ok s /\ e = huffmanAppend [] s.
Proof.
  intros He. unfold huffmanDecode. rewrite decode_bytes_bits.
  destruct (run_bits _ _ _) as [st|] eqn:E; [|done].
  apply (run_bits_ok maxLen []) in E as (Ho & Hn & Hb & Hd & H1); [|by repeat split].
  destruct ((7 <? d_depth st) || negb (d_ones st)) eqn:Ec; [done|]. intros [= <-]. split; [done|].
  apply orb_false_iff in Ec as [Ec1 Ec2]. apply negb_false_iff in Ec2.
  destruct (huffmanAppend_bits [] (d_out st) Ho) as (o & k & -> & Hok & Hk & Hbo).
  rewrite app_nil_l in *. apply bits_inj; [done..|]. rewrite Hbo, Hb. f_equal.
  assert (Hp : path (d_node st) = replicate (length (path (d_node st))) true).
  { rewrite H1 in Ec2. revert Ec2. generalize (path (d_node st)). intros p. induction p as [|b p IH]; [done|].
    cbn. intros [Hb1 Hb2]%andb_true_iff. f_equal; [done|by apply IH]. }
  rewrite Hp. f_equal.
  apply (f_equal length) in Hb, Hbo. rewrite length_app, bits_length in Hb, Hbo. rewrite length_replicate in Hbo.
  unfold len in Hd. apply Z.ltb_ge in Ec1. lia.
Qed.

Lemma huffmanLen_bits s acc :
  bytes_ok s -> fold_left (fun bits c => bits + code_len c) s acc = acc + len (s ≫= code_bits).
Proof.
  intros Hs. revert acc. induction Hs as [|c s Hc Hs IH]; intros acc; cbn [fold_left]; [change (len ([] ≫= code_bits)) with 0; lia|].
  rewrite IH, bind_cons, len_app. pose proof (code_len_range c Hc).
  assert (len (code_bits c) = code_len c) as ->; [|lia].
  unfold len, code_bits. rewrite Z_bits_length. lia.
Qed.

Lemma huffmanAppend_len s : bytes_ok s -> len (huffmanAppend [] s) = huffmanLen s.
Proof.
  intros Hs. unfold huffmanLen. rewrite huffmanLen_bits by done.
  destruct (huffmanAppend_bits [] s Hs) as (o & k & -> & _ & Hk & Hb). rewrite app_nil_l.
  apply (f_equal length) in Hb. rewrite length_app, bits_length, length_replicate in Hb.
  unfold len. Z.div_mod_to_equations. lia.
Qed.

(** Huffman coding is a bijection between strings and valid encodings.
    [huffmanDecode] accepts exactly what [huffmanAppend] produces, no padding
    or code having a second spelling, and gives back the string; it refuses one
    longer than [maxLen]; and the encoding has [huffmanLen] bytes. *)
Theorem huffman_roundtrip s e maxLen :
  bytes_ok s -> bytes_ok e ->
  (huffmanDecode e maxLen = Ok s <-> e = huffmanAppend [] s /\ too_long maxLen s = false) /\
  (too_long maxLen s = true -> huffmanDecode (huffmanAppend [] s) maxLen = Err ErrStringTooLong) /\
  len (huffmanAppend [] s) = huffmanLen s.
Proof.
  intros Hs He. pose proof (huffmanDecode_append s maxLen Hs) as Hd. split; [split|split].
  - intros H. destruct (huffmanDecode_inv _ _ _ He H) as [_ ->]. split; [done|].
    rewrite Hd in H. by destruct (too_long maxLen s).
  - intros [-> Ht]. by rewrite Hd, Ht.
  - intros Ht. by rewrite Hd, Ht.
  - by apply huffmanAppend_len.
Qed.

(** "www.example.com" is RFC 7541's own example. *)
Lemma huffman_roundtrip_witness :
  huffmanDecode [0xf1; 0xe3; 0xc2; 0xe5; 0xf2; 0x3a; 0x6b; 0xa0; 0xab; 0x90; 0xf4; 0xff] 64
  = Ok (str "www.example.com").
Proof.
  apply (huffman_roundtrip (str "www.example.com")).
  - repeat (constructor; [unfold byte_ok; vm_compute; split; congruence|]). constructor.
  - repeat (constructor; [unfold byte_ok; vm_compute; split; congruence|]). constructor.
  - split; vm_compute; reflexivity.
Defined.
