(* ===== verification/Hpack.v ===== *)
(** HPACK header compression (src/go/internal/hpack/hpack.go): the dynamic
    table, the decoder of header blocks, and the encoder.

    Strings and blocks are byte lists.  [Decode] calls [emit] for each field;
    [emit] is a state transformer that may fail.  The loop over a block is
    given its length as fuel, and never runs out of it: every round consumes a
    byte. *)
From Stdlib Require Import String.
From S2P Require Import Prelude.
From S2P Require Import HpackTables.
From S2P Require Import Huffman.

(** [f.size()] *)
Definition fsize (f : HeaderField) : Z := len (Name f) + len (Value f) + 32.

Definition DefaultTableSize : Z := 4096.

(** * The dynamic table: newest entry last *)

Record dynamicTable := Table { entries : list HeaderField; size : Z; maxSize : Z }.

Definition get (t : dynamicTable) (index : Z) : option HeaderField :=
  if (index <? 1) || (len (entries t) <? index) then None
  else at_ (entries t) (len (entries t) - index).

(** How many of the oldest entries go, and the size left. *)
Fixpoint evict_loop (l : list HeaderField) (sz mx : Z) : nat * Z :=
  match l with
  | f :: l => if mx <? sz then let '(n, sz) := evict_loop l (sz - fsize f) mx in (S n, sz) else (O, sz)
  | [] => (O, sz)
  end.

Definition evict (t : dynamicTable) : dynamicTable :=
  let '(n, sz) := evict_loop (entries t) (size t) (maxSize t) in
  Table (drop n (entries t)) sz (maxSize t).

Definition add (f : HeaderField) (t : dynamicTable) : dynamicTable :=
  evict (Table (entries t ++ [f]) (size t + fsize f) (maxSize t)).

Definition setMaxSize (n : Z) (t : dynamicTable) : dynamicTable := evict (Table (entries t) (size t) n).

(** A combined index: the static table first, then the dynamic. *)
Definition field (t : dynamicTable) (index : Z) : option HeaderField :=
  if index =? 0 then None
  else if index <=? len staticTable then at_ staticTable (index - 1)
  else
    let rest := index - len staticTable in
    if len (entries t) <? rest then None else get t rest.

(** * Integers with a prefix *)

Fixpoint readInt_loop (block : bytes) (value shift : Z) : result hpack_error (Z * bytes) :=
  match block with
  | [] => Err ErrTruncated
  | b :: block =>
      let value := u64 (value + u64 (Z.shiftl (Z.land b 0x7f) shift)) in
      if Z.land b 0x80 =? 0 then Ok (value, block)
      else if 56 <=? shift + 7 then Err ErrIntegerOverflow
      else readInt_loop block value (shift + 7)
  end.

Definition readInt (block : bytes) (n : Z) : result hpack_error (Z * bytes) :=
  match block with
  | [] => Err ErrTruncated
  | b :: block =>
      let mask := Z.shiftl 1 n - 1 in
      let value := Z.land b mask in
      if value <? mask then Ok (value, block) else readInt_loop block value 0
  end.

(** [for value >= 0x80]: a 64-bit value has at most ten groups of seven bits. *)
Fixpoint appendInt_loop (fuel : nat) (dst : bytes) (value : Z) : bytes :=
  match fuel with
  | O => dst ++ [u8 value]
  | S fuel =>
      if 0x80 <=? value
      then appendInt_loop fuel (dst ++ [Z.lor (u8 value) 0x80]) (Z.shiftr value 7)
      else dst ++ [u8 value]
  end.

Definition appendInt (dst : bytes) (first n value : Z) : bytes :=
  let mask := Z.shiftl 1 n - 1 in
  if value <? mask then dst ++ [Z.lor first (u8 value)]
  else appendInt_loop 10 (dst ++ [Z.lor first (u8 mask)]) (value - mask).

(** * Strings *)

Definition readString (maxStringLength : Z) (block : bytes) : result hpack_error (bytes * bytes) :=
  match block with
  | [] => Err ErrTruncated
  | b :: _ =>
      let huffman := negb (Z.land b 0x80 =? 0) in
      let! (length, rest) := readInt block 7 in
      if len rest <? length then Err ErrTruncated
      else
        let raw := take (Z.to_nat length) rest in
        let rest := drop (Z.to_nat length) rest in
        if negb huffman then
          if (0 <? maxStringLength) && (maxStringLength <? len raw) then Err ErrStringTooLong
          else Ok (raw, rest)
        else let! s := huffmanDecode raw maxStringLength in Ok (s, rest)
  end.

Definition appendString (dst s : bytes) : bytes :=
  let n := huffmanLen s in
  if n <? len s then huffmanAppend (appendInt dst 0x80 7 n) s
  else appendInt dst 0x00 7 (len s) ++ s.

(** * The decoder *)

Record Decoder := Dec { d_table : dynamicTable; allowedMaxSize : Z; MaxStringLength : Z }.

Definition NewDecoder (maxTableSize : Z) : Decoder := Dec (Table [] 0 maxTableSize) maxTableSize 0.

Definition readLiteral (d : Decoder) (block : bytes) (n : Z) : result hpack_error (HeaderField * bytes) :=
  let! (index, rest) := readInt block n in
  let! (name, rest) :=
    if 0 <? index then
      match field (d_table d) index with
      | None => Err ErrInvalidIndex
      | Some named => Ok (Name named, rest)
      end
    else readString (MaxStringLength d) rest in
  let! (value, rest) := readString (MaxStringLength d) rest in
  Ok (Field name value, rest).

Definition with_table (t : dynamicTable) (d : Decoder) : Decoder := Dec t (allowedMaxSize d) (MaxStringLength d).

Section decode.
Context {St Er : Type} (emit : HeaderField -> St -> St * option Er).

(** How [Decode] ends: no error, one of its own, or [emit]'s. *)
Inductive ending := Done | Failed (e : hpack_error) | Refused (e : Er).

(** What one round leaves: the decoder, [emit]'s state, the rest of the block,
    whether a size update is still allowed, and the error that ends the loop. *)
Definition emitted (d : Decoder) (f : HeaderField) (rest : bytes) (st : St)
  : Decoder * St * (bytes * bool + ending) :=
  match emit f st with
  | (st, None) => (d, st, inl (rest, false))
  | (st, Some e) => (d, st, inr (Refused e))
  end.

Definition Decode_round (d : Decoder) (st : St) (b : Z) (block : bytes) (start : bool)
  : Decoder * St * (bytes * bool + ending) :=
  if negb (Z.land b 0x80 =? 0) then
    match readInt block 7 with
    | Err e => (d, st, inr (Failed e))
    | Ok (index, rest) =>
        match field (d_table d) index with
        | None => (d, st, inr (Failed ErrInvalidIndex))
        | Some f => emitted d f rest st
        end
    end
  else if Z.land b 0xc0 =? 0x40 then
    match readLiteral d block 6 with
    | Err e => (d, st, inr (Failed e))
    | Ok (f, rest) => emitted (with_table (add f (d_table d)) d) f rest st
    end
  else if Z.land b 0xe0 =? 0x20 then
    if negb start then (d, st, inr (Failed ErrInvalidSizeUpdate))
    else match readInt block 5 with
         | Err e => (d, st, inr (Failed e))
         | Ok (size, rest) =>
             if u64 (allowedMaxSize d) <? size then (d, st, inr (Failed ErrInvalidSizeUpdate))
             else (with_table (setMaxSize size (d_table d)) d, st, inl (rest, start))
         end
  else
    match readLiteral d block 4 with
    | Err e => (d, st, inr (Failed e))
    | Ok (f, rest) => emitted d f rest st
    end.

Fixpoint Decode_loop (fuel : nat) (d : Decoder) (st : St) (block : bytes) (start : bool)
  : option (Decoder * St * ending) :=
  match block with
  | [] => Some (d, st, Done)
  | b :: _ =>
      match fuel with
      | O => None
      | S fuel =>
          match Decode_round d st b block start with
          | (d, st, inl (block, start)) => Decode_loop fuel d st block start
          | (d, st, inr e) => Some (d, st, e)
          end
      end
  end.

Definition Decode (d : Decoder) (st : St) (block : bytes) : option (Decoder * St * ending) :=
  Decode_loop (length block) d st block true.
End decode.
Arguments Done {Er}.
Arguments Failed {Er} e.
Arguments Refused {Er} e.

(** * The encoder *)

Record Encoder := Enc { e_table : dynamicTable; pendingSize : bool; minPending : Z }.

Definition NewEncoder : Encoder := Enc (Table [] 0 DefaultTableSize) false 0.

Definition SetMaxTableSize (n : Z) (e : Encoder) : Encoder :=
  let n := if DefaultTableSize <? n then DefaultTableSize else n in
  if n =? maxSize (e_table e) then e
  else
    let minPending := if negb (pendingSize e) || (n <? minPending e) then n else minPending e in
    Enc (setMaxSize n (e_table e)) true minPending.

Definition Begin (dst : bytes) (e : Encoder) : Encoder * bytes :=
  if negb (pendingSize e) then (e, dst)
  else
    let dst := if minPending e <? maxSize (e_table e) then appendInt dst 0x20 5 (u64 (minPending e)) else dst in
    (Enc (e_table e) false (minPending e), appendInt dst 0x20 5 (u64 (maxSize (e_table e)))).

(** [init]: from the last entry to the first, so the lowest index stays. *)
Definition init_loop {K : Type} `{Countable K} (key : HeaderField -> K) : list HeaderField -> Z -> gmap K Z :=
  fix loop l i := match l with [] => ∅ | f :: l => <[key f := i + 1]> (loop l (i + 1)) end.

Definition pair_key (f : HeaderField) : bytes * bytes := (Name f, Value f).
Definition staticPairIndex : gmap (bytes * bytes) Z := init_loop pair_key staticTable 0.
Definition staticNameIndex : gmap bytes Z := init_loop Name staticTable 0.

(** The search of the table, newest first: [l] is what is left of it and [i]
    counts from 1.  [inl] is the index of the whole field, [inr] the name's. *)
Fixpoint table_search (l : list HeaderField) (i : Z) (name value : bytes) (nameIndex : Z) : Z + Z :=
  match l with
  | [] => inr nameIndex
  | f :: l =>
      if negb (bool_decide (Name f = name)) then table_search l (i + 1) name value nameIndex
      else
        let index := len staticTable + i in
        if bool_decide (Value f = value) then inl index
        else table_search l (i + 1) name value (if nameIndex =? 0 then index else nameIndex)
  end.

Definition AppendField (dst name value : bytes) (sensitive : bool) (e : Encoder) : Encoder * bytes :=
  match staticPairIndex !! (name, value) with
  | Some i => (e, appendInt dst 0x80 7 i)
  | None =>
      let nameIndex := default 0 (staticNameIndex !! name) in
      match table_search (reverse (entries (e_table e))) 1 name value nameIndex with
      | inl index => (e, appendInt dst 0x80 7 index)
      | inr nameIndex =>
          let f := Field name value in
          let '(e, dst) :=
            if sensitive then (e, appendInt dst 0x10 4 nameIndex)
            else if maxSize (e_table e) / 2 <? fsize f then (e, appendInt dst 0x00 4 nameIndex)
            else (Enc (add f (e_table e)) (pendingSize e) (minPending e), appendInt dst 0x40 6 nameIndex) in
          let dst := if nameIndex =? 0 then appendString dst name else dst in
          (e, appendString dst value)
      end
  end.

(** A header block: [Begin], then its fields; true marks a sensitive one. *)
Fixpoint append_fields (fs : list (HeaderField * bool)) (dst : bytes) (e : Encoder) : Encoder * bytes :=
  match fs with
  | [] => (e, dst)
  | (f, sensitive) :: fs =>
      let '(e, dst) := AppendField dst (Name f) (Value f) sensitive e in append_fields fs dst e
  end.

Definition encode_block (fs : list (HeaderField * bool)) (e : Encoder) : Encoder * bytes :=
  let '(e, dst) := Begin [] e in append_fields fs dst e.

(** * Integers: round trip *)

Lemma appendInt_loop_dst fuel dst v : appendInt_loop fuel dst v = dst ++ appendInt_loop fuel [] v.
Proof.
  revert dst v. induction fuel as [|fuel IH]; intros dst v; cbn; [done|].
  destruct (128 <=? v); [|done]. rewrite IH, (IH [_]). by rewrite <- (assoc_L (++)).
Qed.

Lemma appendInt_dst dst first n v : appendInt dst first n v = dst ++ appendInt [] first n v.
Proof.
  unfold appendInt. destruct (v <? _); [done|]. rewrite appendInt_loop_dst, (appendInt_loop_dst _ ([] ++ _)).
  by rewrite <- (assoc_L (++)).
Qed.

Lemma low7 v : Z.land (u8 v) 0x7f = v mod 128.
Proof.
  unfold u8. change 0x7f with (Z.ones 7). rewrite Z.land_ones by lia.
  change (2 ^ 8) with 256. change (2 ^ 7) with 128. Z.div_mod_to_equations. lia.
Qed.

Lemma cont_bits v : Z.land (Z.lor (u8 v) 0x80) 0x7f = v mod 128 /\ Z.land (Z.lor (u8 v) 0x80) 0x80 = 0x80.
Proof.
  split.
  - rewrite Z.land_lor_distr_l, low7. change (Z.land 128 127) with 0. by rewrite Z.lor_0_r.
  - apply Z.bits_inj'. intros i Hi. rewrite Z.land_spec, Z.lor_spec.
    destruct (Z.testbit 128 i); [by rewrite orb_true_r|by rewrite andb_false_r].
Qed.

Lemma final_bit v : 0 <= v < 128 -> Z.land (u8 v) 0x80 = 0.
Proof.
  intros. rewrite u8_small by (unfold byte_ok; lia). apply Z.bits_inj'. intros i Hi. rewrite Z.land_spec, Z.bits_0.
  destruct (Z.eq_dec i 7) as [->|].
  - rewrite <- (Z.mod_small v (2 ^ 7)) by lia. by rewrite Z.mod_pow2_bits_high by lia.
  - change 128 with (2 ^ 7). by rewrite Z.pow2_bits_false, andb_false_r by lia.
Qed.

Lemma readInt_loop_spec fuel v acc shift rest :
  0 <= v < 2 ^ (56 - shift) -> 0 <= shift <= 56 -> 0 <= acc < 2 ^ 7 * 2 ^ shift -> v < 128 ^ (Z.of_nat fuel + 1) ->
  readInt_loop (appendInt_loop fuel [] v ++ rest) acc shift = Ok (acc + v * 2 ^ shift, rest).
Proof.
  revert v acc shift. induction fuel as [|fuel IH]; intros v acc shift Hv Hs Ha Hf.
  all: assert (Hp : 2 ^ (56 - shift) * 2 ^ shift = 2 ^ 56) by (rewrite <- Z.pow_add_r by lia; f_equal; lia).
  all: assert (Hp1 : 0 < 2 ^ shift <= 2 ^ 56) by (split; [lia|apply Z.pow_le_mono_r; lia]).
  all: assert (Hp2 : v * 2 ^ shift < 2 ^ 56) by nia.
  all: assert (Hfin : v < 128 -> readInt_loop ([u8 v] ++ rest) acc shift = Ok (acc + v * 2 ^ shift, rest)).
  1,3: intros Hl; cbn [app readInt_loop]; rewrite final_bit, low7, Z.mod_small by lia; cbn [Z.eqb];
    rewrite Z.shiftl_mul_pow2 by lia; rewrite !u64_small by (rewrite ?u64_small; nia); done.
  { apply Hfin. cbn in Hf. lia. }
  cbn [appendInt_loop app]. destruct (Z.leb_spec 128 v); [|by apply Hfin].
  rewrite appendInt_loop_dst, <- (assoc_L (++)). cbn [app readInt_loop].
  destruct (cont_bits v) as [-> ->]. change (128 =? 0) with false. cbn iota.
  assert (Hsh : shift < 49).
  { destruct (Z.lt_ge_cases shift 49); [done|].
    assert (2 ^ (56 - shift) <= 2 ^ 7) by (apply Z.pow_le_mono_r; lia). lia. }
  destruct (Z.leb_spec 56 (shift + 7)); [lia|].
  assert (Hdm : v = v / 128 * 128 + v mod 128) by (Z.div_mod_to_equations; lia).
  assert (Hm : 0 <= v mod 128 < 128) by (apply Z.mod_pos_bound; lia).
  rewrite Z.shiftr_div_pow2, Z.shiftl_mul_pow2 by lia. change (2 ^ 7) with 128.
  rewrite !u64_small by (rewrite ?u64_small; nia).
  assert (H7 : 2 ^ (shift + 7) = 128 * 2 ^ shift) by (rewrite Z.pow_add_r by lia; lia).
  rewrite IH.
  - rewrite H7. do 2 f_equal. nia.
  - split; [apply Z.div_pos; lia|]. apply Z.div_lt_upper_bound; [lia|].
    replace (56 - shift) with (7 + (56 - (shift + 7))) in Hv by lia. rewrite Z.pow_add_r in Hv by lia. lia.
  - lia.
  - rewrite H7. nia.
  - apply Z.div_lt_upper_bound; [lia|].
    replace (Z.of_nat (S fuel) + 1) with (1 + (Z.of_nat fuel + 1)) in Hf by lia. rewrite Z.pow_add_r in Hf by lia. lia.
Qed.

(** A prefix integer is read back, whatever the representation's bits. *)
Lemma readInt_append first n v rest :
  1 <= n <= 7 -> Z.land first (2 ^ n - 1) = 0 -> 0 <= v < 2 ^ 56 ->
  readInt (appendInt [] first n v ++ rest) n = Ok (v, rest).
Proof.
  intros Hn Hf Hv. unfold appendInt. rewrite Z.shiftl_1_l.
  assert (Hm : 2 <= 2 ^ n <= 2 ^ 7) by (split; [apply (Z.pow_le_mono_r 2 1); lia|apply Z.pow_le_mono_r; lia]).
  assert (Hx : forall x, 0 <= x < 2 ^ n -> Z.land (Z.lor first (u8 x)) (2 ^ n - 1) = x).
  { intros x Hx. rewrite u8_small by (unfold byte_ok; lia). rewrite Z.land_lor_distr_l, Hf, Z.lor_0_l.
    rewrite land_mask by lia. by apply Z.mod_small. }
  destruct (Z.ltb_spec v (2 ^ n - 1)).
  - cbn [app readInt]. rewrite Z.shiftl_1_l, Hx by lia. by destruct (Z.ltb_spec v (2 ^ n - 1)); [|lia].
  - rewrite appendInt_loop_dst, <- (assoc_L (++)). cbn [app readInt]. rewrite Z.shiftl_1_l, Hx by lia.
    destruct (Z.ltb_spec (2 ^ n - 1) (2 ^ n - 1)); [lia|].
    rewrite readInt_loop_spec; [|change (56 - 0) with 56; lia|lia|lia|].
    + do 2 f_equal. lia.
    + change (128 ^ (Z.of_nat 10 + 1)) with (2 ^ 77). change (2 ^ 77) with (2 ^ 56 * 2 ^ 21). lia.
Qed.

(** The byte a representation starts with. *)
Lemma appendInt_head first n v :
  exists x tl, appendInt [] first n v = Z.lor first (u8 x) :: tl /\ (0 <= v -> 0 <= n -> 0 <= x < 2 ^ n).
Proof.
  unfold appendInt. rewrite Z.shiftl_1_l. destruct (Z.ltb_spec v (2 ^ n - 1)).
  - exists v, []. split; [done|]. lia.
  - rewrite appendInt_loop_dst. eexists _, _. split; [done|]. intros. lia.
Qed.

(** * Strings: round trip *)

Lemma huffmanLen_nonneg s : bytes_ok s -> 0 <= huffmanLen s.
Proof. intros. rewrite <- huffmanAppend_len by done. apply len_nonneg. Qed.

Lemma appendString_dst dst s : bytes_ok s -> appendString dst s = dst ++ appendString [] s.
Proof.
  intros Hs. unfold appendString. destruct (huffmanLen s <? len s).
  - rewrite appendInt_dst, huffmanAppend_dst, (huffmanAppend_dst (appendInt [] _ _ _)) by done.
    by rewrite <- (assoc_L (++)).
  - by rewrite appendInt_dst, <- (assoc_L (++)).
Qed.

(** Bits of the first byte of each representation, below [2^n]. *)
Definition class_ok (first n bit want : Z) : bool :=
  forallb (fun x => Z.land (Z.lor first (u8 x)) bit =? want) (seqZ 0 (2 ^ n)).

Lemma class_spec first n bit want x :
  class_ok first n bit want = true -> 0 <= x < 2 ^ n -> Z.land (Z.lor first (u8 x)) bit = want.
Proof.
  intros H Hx. unfold class_ok in H. rewrite forallb_forall in H. apply Z.eqb_eq, H.
  apply list_elem_of_In, elem_of_seqZ. lia.
Qed.

Lemma readString_append mx s rest :
  bytes_ok s -> len s < 2 ^ 56 -> too_long mx s = false ->
  readString mx (appendString [] s ++ rest) = Ok (s, rest).
Proof.
  intros Hs Hl Ht. unfold appendString. pose proof (huffmanLen_nonneg s Hs). pose proof (len_nonneg s).
  destruct (Z.ltb_spec (huffmanLen s) (len s)) as [Hlt|Hge].
  - rewrite huffmanAppend_dst, <- (assoc_L (++)) by done.
    pose proof (readInt_append 0x80 7 (huffmanLen s) (huffmanAppend [] s ++ rest)) as Hr.
    destruct (appendInt_head 0x80 7 (huffmanLen s)) as (x & tl & E & Hx). rewrite E in *. cbn [app readString] in *.
    rewrite Hr by (done || lia).
    rewrite (class_spec 0x80 7 0x80 0x80) by (vm_compute; reflexivity || (apply Hx; lia)).
    change (128 =? 0) with false. cbn [negb].
    rewrite len_app, huffmanAppend_len by done. pose proof (len_nonneg rest).
    destruct (Z.ltb_spec (huffmanLen s + len rest) (huffmanLen s)); [lia|].
    replace (Z.to_nat (huffmanLen s)) with (length (huffmanAppend [] s))
      by (rewrite <- huffmanAppend_len by done; unfold len; lia).
    rewrite take_app_length, drop_app_length, huffmanDecode_append, Ht by done. done.
  - rewrite <- (assoc_L (++)).
    pose proof (readInt_append 0 7 (len s) (s ++ rest)) as Hr.
    destruct (appendInt_head 0 7 (len s)) as (x & tl & E & Hx). rewrite E in *. cbn [app readString] in *.
    rewrite Hr by (done || lia).
    rewrite (class_spec 0 7 0x80 0) by (vm_compute; reflexivity || (apply Hx; lia)).
    change (0 =? 0) with true. cbn [negb].
    rewrite len_app. pose proof (len_nonneg rest). destruct (Z.ltb_spec (len s + len rest) (len s)); [lia|].
    replace (Z.to_nat (len s)) with (length s) by (unfold len; lia).
    rewrite take_app_length, drop_app_length. unfold too_long in Ht. by rewrite Ht.
Qed.

(** * The table *)

Lemma fsize_pos f : 32 <= fsize f.
Proof. unfold fsize. pose proof (len_nonneg (Name f)). pose proof (len_nonneg (Value f)). lia. Qed.

Lemma fsize_nonneg f : 0 <= fsize f.
Proof. pose proof (fsize_pos f). lia. Qed.

(** The newest entries that fit in [m]: what eviction leaves. *)
Fixpoint keep (m : Z) (l : list HeaderField) : list HeaderField :=
  match l with
  | [] => []
  | f :: l' => if m <? total fsize l then keep m l' else l
  end.

Lemma keep_suffix m l : keep m l `suffix_of` l.
Proof.
  induction l as [|f l IH]; cbn [keep]; [done|]. destruct (_ <? _); [|done]. by apply suffix_cons_r.
Qed.

Lemma keep_fits m l : 0 <= m -> total fsize (keep m l) <= m.
Proof.
  intros Hm. induction l as [|f l IH]; cbn [keep]; [done|]. destruct (Z.ltb_spec m (total fsize (f :: l))); [done|lia].
Qed.

Lemma total_suffix k l : k `suffix_of` l -> total fsize k <= total fsize l.
Proof. intros [l' ->]. rewrite total_app. pose proof (total_nonneg fsize l' fsize_nonneg). lia. Qed.

(** Eviction leaves the largest suffix that fits. *)
Lemma keep_largest m k l : k `suffix_of` l -> total fsize k <= m -> k `suffix_of` keep m l.
Proof.
  induction l as [|f l IH]; intros Hk Hm; cbn [keep]; [done|].
  destruct (Z.ltb_spec m (total fsize (f :: l))); [|done].
  destruct k as [|g k]; [apply suffix_nil|].
  apply suffix_cons_inv in Hk as [Hk|Hk]; [rewrite Hk in *; lia|]. by apply IH.
Qed.

Record table_ok (t : dynamicTable) : Prop := {
  t_size : size t = total fsize (entries t);
  t_fits : size t <= maxSize t;
  t_max : 0 <= maxSize t;
}.

Lemma evict_keep t :
  size t = total fsize (entries t) ->
  evict t = Table (keep (maxSize t) (entries t)) (total fsize (keep (maxSize t) (entries t))) (maxSize t).
Proof.
  destruct t as [l sz mx]. cbn. intros ->. unfold evict. cbn [entries size maxSize].
  enough (H : evict_loop l (total fsize l) mx = (length l - length (keep mx l), total fsize (keep mx l))%nat).
  { rewrite H. f_equal. destruct (keep_suffix mx l) as [k Hk].
    replace (length l - length (keep mx l))%nat with (length k)
      by (apply (f_equal length) in Hk; rewrite length_app in Hk; lia).
    rewrite Hk at 1. apply drop_app_length. }
  induction l as [|f l IH]; [done|]. cbn [evict_loop keep].
  destruct (mx <? total fsize (f :: l)); [|f_equal; lia].
  replace (total fsize (f :: l) - fsize f) with (total fsize l) by (cbn; lia). rewrite IH. f_equal. cbn [length].
  destruct (keep_suffix mx l) as [k Hk]. apply (f_equal length) in Hk. rewrite length_app in Hk. lia.
Qed.

Lemma evict_ok t : size t = total fsize (entries t) -> 0 <= maxSize t -> table_ok (evict t).
Proof. intros Hs Hm. rewrite evict_keep by done. split; cbn; [done| |done]. by apply keep_fits. Qed.

Lemma add_ok f t : table_ok t -> table_ok (add f t).
Proof. intros [Hs Hf Hm]. apply evict_ok; cbn; [|done]. rewrite total_app, Hs. cbn. lia. Qed.

Lemma setMaxSize_ok n t : 0 <= n -> table_ok t -> table_ok (setMaxSize n t).
Proof. intros Hn [Hs Hf Hm]. by apply evict_ok. Qed.

Lemma add_entries f t : table_ok t -> entries (add f t) = keep (maxSize t) (entries t ++ [f]).
Proof. intros [Hs Hf Hm]. unfold add. rewrite evict_keep; [done|]. cbn. rewrite total_app, Hs. cbn. lia. Qed.

Lemma setMaxSize_entries n t : table_ok t -> entries (setMaxSize n t) = keep n (entries t).
Proof. intros [Hs Hf Hm]. unfold setMaxSize. by rewrite evict_keep. Qed.

Lemma maxSize_evict t : maxSize (evict t) = maxSize t.
Proof. unfold evict. by destruct (evict_loop _ _ _). Qed.

Lemma entries_bound t : table_ok t -> 32 * len (entries t) <= maxSize t.
Proof.
  intros [Hs Hf _]. enough (32 * len (entries t) <= total fsize (entries t)) by lia. clear.
  induction (entries t) as [|f l IH]; [done|]. rewrite len_cons. cbn [total]. pose proof (fsize_pos f). lia.
Qed.

(** * Looking fields up *)

Lemma init_loop_lookup {K} `{Countable K} (key : HeaderField -> K) l i k j :
  init_loop key l i !! k = Some j ->
  exists f, at_ l (j - i - 1) = Some f /\ key f = k /\ i < j <= i + len l.
Proof.
  revert i. induction l as [|f l IH]; intros i; cbn [init_loop]; [by rewrite lookup_empty|].
  rewrite lookup_insert_Some, len_cons. pose proof (len_nonneg l). intros [[Hk Hj]|[_ Hl]].
  - exists f. subst j. replace (i + 1 - i - 1) with 0 by lia. rewrite at_head. split; [done|]. split; [done|lia].
  - destruct (IH _ Hl) as (g & Hg & Hk & Hj). exists g. rewrite at_cons by lia.
    replace (j - i - 1 - 1) with (j - (i + 1) - 1) by lia. split; [done|]. split; [done|lia].
Qed.

Lemma get_reverse t i : 1 <= i -> get t i = reverse (entries t) !! Z.to_nat (i - 1).
Proof.
  intros Hi. unfold get. destruct (Z.ltb_spec i 1); [lia|]. cbn [orb].
  destruct (Z.ltb_spec (len (entries t)) i) as [Hl|Hl].
  - symmetry. apply lookup_ge_None_2. rewrite length_reverse. unfold len in Hl. lia.
  - unfold at_, len in *. destruct (Z.leb_spec 0 (Z.of_nat (length (entries t)) - i)); [|lia].
    rewrite reverse_lookup by lia. f_equal. lia.
Qed.

Lemma field_dynamic t i f : 1 <= i -> get t i = Some f -> field t (len staticTable + i) = Some f.
Proof.
  intros Hi Hg. unfold field. pose proof (len_nonneg staticTable).
  destruct (Z.eqb_spec (len staticTable + i) 0); [lia|].
  destruct (Z.leb_spec (len staticTable + i) (len staticTable)); [lia|].
  replace (len staticTable + i - len staticTable) with i by lia.
  destruct (Z.ltb_spec (len (entries t)) i) as [Hl|Hl]; [|done].
  unfold get in Hg. destruct (Z.ltb_spec (len (entries t)) i); [|lia]. by rewrite orb_true_r in Hg.
Qed.

Lemma field_static t i f : 1 <= i <= len staticTable -> at_ staticTable (i - 1) = Some f -> field t i = Some f.
Proof.
  intros Hi Hf. unfold field. destruct (Z.eqb_spec i 0); [lia|]. by destruct (Z.leb_spec i (len staticTable)); [|lia].
Qed.

(** The search finds what it says it finds. *)
Lemma table_search_spec t i name value nameIndex l :
  1 <= i -> l = drop (Z.to_nat (i - 1)) (reverse (entries t)) ->
  match table_search l i name value nameIndex with
  | inl index => exists k, index = len staticTable + k /\ 1 <= k <= len (entries t) /\ get t k = Some (Field name value)
  | inr index => index = nameIndex \/
      exists k f, index = len staticTable + k /\ 1 <= k <= len (entries t) /\ get t k = Some f /\ Name f = name
  end.
Proof.
  revert i nameIndex. induction l as [|f l IH]; intros i nameIndex Hi Hl; cbn [table_search]; [by left|].
  assert (Hg : get t i = Some f).
  { rewrite get_reverse by done. rewrite <- (Nat.add_0_r (Z.to_nat (i - 1))), <- lookup_drop, <- Hl. done. }
  assert (Hr : 1 <= i <= len (entries t)).
  { unfold get in Hg. destruct (Z.ltb_spec i 1); [lia|]. destruct (Z.ltb_spec (len (entries t)) i); [done|lia]. }
  assert (Hl' : l = drop (Z.to_nat (i + 1 - 1)) (reverse (entries t))).
  { replace (Z.to_nat (i + 1 - 1)) with (Z.to_nat (i - 1) + 1)%nat by lia. by rewrite <- drop_drop, <- Hl. }
  case_bool_decide as En; cbn [negb]; [|apply IH; [lia|done]].
  case_bool_decide as Ev.
  - exists i. split; [done|]. split; [done|]. rewrite Hg. destruct f. cbn in *. by subst.
  - specialize (IH (i + 1) (if nameIndex =? 0 then len staticTable + i else nameIndex) ltac:(lia) Hl').
    destruct (table_search _ _ _ _ _); [done|]. destruct IH as [->|IH]; [|by right].
    destruct (nameIndex =? 0); [|by left]. right. by exists i, f.
Qed.

(** * Encoder and decoder in step *)

(** The encoder's table is the newest part of the decoder's, which is allowed
    at least as much. *)
Record sync0 (et : dynamicTable) (d : Decoder) : Prop := {
  s_e : table_ok et;
  s_d : table_ok (d_table d);
  s_suffix : entries et `suffix_of` entries (d_table d);
  s_max : maxSize et <= maxSize (d_table d);
  s_default : maxSize et <= DefaultTableSize <= allowedMaxSize d;
  s_allowed : allowedMaxSize d < 2 ^ 56;
}.

Lemma get_suffix et dt i f : entries et `suffix_of` entries dt -> 1 <= i -> get et i = Some f -> get dt i = Some f.
Proof.
  intros [k Hk] Hi. rewrite !get_reverse by done. rewrite Hk, reverse_app. apply lookup_app_l_Some.
Qed.

Lemma add_suffix m m' f l l' :
  l `suffix_of` l' -> 0 <= m <= m' -> keep m (l ++ [f]) `suffix_of` keep m' (l' ++ [f]).
Proof.
  intros Hl Hm. apply keep_largest; [|pose proof (keep_fits m (l ++ [f])); lia].
  etransitivity; [apply keep_suffix|]. destruct Hl as [k ->]. exists k. by rewrite <- (assoc_L (++)).
Qed.

Lemma sync_add et d f : sync0 et d -> sync0 (add f et) (with_table (add f (d_table d)) d).
Proof.
  intros [He Hd Hs Hm Hdef Ha]. split; cbn.
  - by apply add_ok.
  - by apply add_ok.
  - rewrite !add_entries by done. apply add_suffix; [done|]. destruct He. lia.
  - unfold add. by rewrite !maxSize_evict.
  - unfold add. by rewrite maxSize_evict.
  - done.
Qed.

Record field_ok (mx : Z) (f : HeaderField) : Prop := {
  f_name : bytes_ok (Name f);
  f_value : bytes_ok (Value f);
  f_name_len : len (Name f) < 2 ^ 56 /\ too_long mx (Name f) = false;
  f_value_len : len (Value f) < 2 ^ 56 /\ too_long mx (Value f) = false;
}.

(** The name index the encoder writes stands for the name in [t]. *)
Definition names (t : dynamicTable) (name : bytes) (i : Z) : Prop :=
  0 <= i < 2 ^ 56 /\ (i = 0 \/ exists f, field t i = Some f /\ Name f = name).

Lemma readLiteral_append d first n i f rest :
  1 <= n <= 7 -> Z.land first (2 ^ n - 1) = 0 -> names (d_table d) (Name f) i -> field_ok (MaxStringLength d) f ->
  readLiteral d (appendInt [] first n i ++ (if i =? 0 then appendString [] (Name f) else []) ++
                 appendString [] (Value f) ++ rest) n = Ok (f, rest).
Proof.
  intros Hn Hf [Hi Hname] [? ? [? ?] [? ?]]. unfold readLiteral. rewrite readInt_append by done.
  destruct (Z.ltb_spec 0 i) as [Hp|Hp].
  - destruct Hname as [->|(g & -> & Hg)]; [lia|]. destruct (Z.eqb_spec i 0); [lia|].
    rewrite app_nil_l, readString_append, Hg by done. by destruct f.
  - replace i with 0 by lia. cbn [Z.eqb]. rewrite readString_append, readString_append by done. by destruct f.
Qed.

Lemma indexed_round {St Er} (emit : HeaderField -> St -> St * option Er) d st i f rest start :
  0 <= i < 2 ^ 56 -> field (d_table d) i = Some f ->
  exists b tl, appendInt [] 0x80 7 i = b :: tl /\
    Decode_round emit d st b (appendInt [] 0x80 7 i ++ rest) start = emitted emit d f rest st.
Proof.
  intros Hi Hf. destruct (appendInt_head 0x80 7 i) as (x & tl & E & Hx). eexists _, tl. split; [exact E|].
  unfold Decode_round. rewrite (class_spec 0x80 7 0x80 0x80) by (vm_compute; reflexivity || (apply Hx; lia)).
  change (128 =? 0) with false. cbn [negb]. by rewrite readInt_append, Hf by (done || lia).
Qed.

Lemma literal_round {St Er} (emit : HeaderField -> St -> St * option Er) d st first n i f rest start :
  first = 0x40 /\ n = 6 \/ first = 0x10 /\ n = 4 \/ first = 0 /\ n = 4 ->
  names (d_table d) (Name f) i -> field_ok (MaxStringLength d) f ->
  let out := appendInt [] first n i ++ (if i =? 0 then appendString [] (Name f) else []) ++ appendString [] (Value f) in
  exists b tl, out = b :: tl /\ Decode_round emit d st b (out ++ rest) start =
    emitted emit (if first =? 0x40 then with_table (add f (d_table d)) d else d) f rest st.
Proof.
  intros Hk Hi Hf out. pose proof Hi as [Hr _].
  destruct (appendInt_head first n i) as (x & tl & E & Hx).
  exists (Z.lor first (u8 x)), (tl ++ (if i =? 0 then appendString [] (Name f) else []) ++ appendString [] (Value f)).
  split; [by unfold out; rewrite E|].
  assert (Hl : readLiteral d (out ++ rest) n = Ok (f, rest)).
  { unfold out. rewrite <- !(assoc_L (++)). apply readLiteral_append; [lia| |done|done].
    by destruct Hk as [[-> ->]|[[-> ->]|[-> ->]]]. }
  destruct Hk as [[-> ->]|[[-> ->]|[-> ->]]]; specialize (Hx ltac:(lia) ltac:(lia)); unfold Decode_round; cbv zeta.
  - rewrite (class_spec 0x40 6 0x80 0), (class_spec 0x40 6 0xc0 0x40) by (vm_compute; reflexivity || done).
    cbn [Z.eqb negb]. by rewrite Hl.
  - rewrite (class_spec 0x10 4 0x80 0), (class_spec 0x10 4 0xc0 0), (class_spec 0x10 4 0xe0 0)
      by (vm_compute; reflexivity || done). cbn [Z.eqb negb]. by rewrite Hl.
  - rewrite (class_spec 0 4 0x80 0), (class_spec 0 4 0xc0 0), (class_spec 0 4 0xe0 0)
      by (vm_compute; reflexivity || done). cbn [Z.eqb negb]. by rewrite Hl.
Qed.

Lemma static_len : len staticTable = 61.
Proof. reflexivity. Qed.

Lemma sync_names et d k :
  sync0 et d -> 1 <= k <= len (entries et) -> 0 <= len staticTable + k < 2 ^ 56.
Proof.
  intros [He _ _ _ [Hd _] _] Hk. pose proof (entries_bound et He). unfold DefaultTableSize in Hd. rewrite static_len. lia.
Qed.

Lemma AppendField_spec dst f sensitive e d :
  sync0 (e_table e) d -> field_ok (MaxStringLength d) f ->
  exists e' out d',
    AppendField dst (Name f) (Value f) sensitive e = (e', dst ++ out) /\
    pendingSize e' = pendingSize e /\ sync0 (e_table e') d' /\ MaxStringLength d' = MaxStringLength d /\
    forall St Er (emit : HeaderField -> St -> St * option Er) st start rest,
      exists b tl, out = b :: tl /\ Decode_round emit d st b (out ++ rest) start = emitted emit d' f rest st.
Proof.
  intros Hs Hf. unfold AppendField. pose proof Hs as [He Hd Hsuf _ _ _].
  destruct (staticPairIndex !! (Name f, Value f)) as [i|] eqn:Ep.
  { apply init_loop_lookup in Ep as (g & Hg & Hk & Hi). rewrite Z.sub_0_r in Hg. rewrite static_len in Hi.
    exists e, (appendInt [] 0x80 7 i), d. split; [by rewrite appendInt_dst|]. do 3 (split; [done|]).
    intros. apply indexed_round; [lia|]. apply field_static; [rewrite static_len; lia|].
    rewrite Hg. f_equal. destruct f, g. unfold pair_key in Hk. cbn in Hk. by injection Hk as -> ->. }
  pose proof (table_search_spec (e_table e) 1 (Name f) (Value f) (default 0 (staticNameIndex !! Name f)) _ ltac:(lia) eq_refl) as Hts.
  change (drop (Z.to_nat (1 - 1)) (reverse (entries (e_table e)))) with (reverse (entries (e_table e))) in Hts.
  destruct (table_search _ _ _ _ _) as [index|index].
  { destruct Hts as (k & -> & Hk & Hg). exists e, (appendInt [] 0x80 7 (len staticTable + k)), d.
    split; [by rewrite appendInt_dst|]. do 3 (split; [done|]).
    intros. apply indexed_round; [by eapply sync_names|]. apply field_dynamic; [lia|].
    eapply get_suffix; [done|lia|]. rewrite Hg. by destruct f. }
  assert (Hn : names (d_table d) (Name f) index).
  { destruct Hts as [->|(k & g & -> & Hk & Hg & En)].
    - destruct (staticNameIndex !! Name f) as [i|] eqn:En; cbn [default from_option id]; [|split; [lia|by left]].
      apply init_loop_lookup in En as (g & Hg & Hk & Hi). rewrite Z.sub_0_r in Hg. rewrite static_len in Hi.
      split; [lia|]. right. exists g. split; [|done]. apply field_static; [rewrite static_len; lia|done].
    - split; [by eapply sync_names|]. right. exists g. split; [|done]. apply field_dynamic; [lia|].
      eapply get_suffix; [done|lia|done]. }
  set (out first n := appendInt [] first n index ++ (if index =? 0 then appendString [] (Name f) else [])
                      ++ appendString [] (Value f)).
  assert (Hout : forall first n, appendString (if index =? 0 then appendString (appendInt dst first n index) (Name f)
      else appendInt dst first n index) (Value f) = dst ++ out first n).
  { intros first n. destruct Hf as [Hf1 Hf2 _ _]. rewrite appendString_dst by done. unfold out.
    rewrite appendInt_dst. destruct (index =? 0).
    - rewrite (appendString_dst (dst ++ _)) by done. by rewrite <- !(assoc_L (++)).
    - by rewrite app_nil_l, <- (assoc_L (++)). }
  replace (Field (Name f) (Value f)) with f by by destruct f.
  destruct sensitive; [|destruct (_ <? fsize f)].
  - exists e, (out 0x10 4), d. rewrite Hout. do 4 (split; [done|]). intros. apply literal_round; [tauto|done|done].
  - exists e, (out 0 4), d. rewrite Hout. do 4 (split; [done|]). intros. apply literal_round; [tauto|done|done].
  - eexists _, (out 0x40 6), (with_table (add f (d_table d)) d). rewrite Hout. split; [done|]. split; [done|].
    split; [by apply sync_add|]. split; [done|].
    intros. apply (literal_round emit d st 0x40 6 index); [tauto|done|done].
Qed.

(** * Whole blocks *)

(** An [emit] that collects the fields and never fails. *)
Definition collect (f : HeaderField) (st : list HeaderField) : list HeaderField * option Empty_set := (st ++ [f], None).

Lemma append_fields_spec fs dst e d :
  sync0 (e_table e) d -> Forall (fun p => field_ok (MaxStringLength d) (fst p)) fs ->
  exists e' out d', append_fields fs dst e = (e', dst ++ out) /\ pendingSize e' = pendingSize e /\
    sync0 (e_table e') d' /\ MaxStringLength d' = MaxStringLength d /\
    forall fuel st start, (length out <= fuel)%nat ->
      Decode_loop collect fuel d st out start = Some (d', st ++ (fst <$> fs), Done).
Proof.
  intros Hs Hf. revert dst e d Hs Hf. induction fs as [|[f sn] fs IH]; intros dst e d Hs Hf.
  { exists e, [], d. rewrite app_nil_r. do 4 (split; [done|]). intros fuel st start _.
    cbn [fmap list_fmap]. rewrite app_nil_r. by destruct fuel. }
  apply Forall_cons in Hf as [Hf1 Hf]. cbn [append_fields].
  destruct (AppendField_spec dst f sn e d Hs Hf1) as (e1 & o1 & d1 & -> & Hp1 & Hs1 & Hm1 & Hr).
  rewrite <- Hm1 in Hf. destruct (IH (dst ++ o1) e1 d1 Hs1 Hf) as (e2 & o2 & d2 & -> & Hp2 & Hs2 & Hm2 & Hl).
  exists e2, (o1 ++ o2), d2. split; [by rewrite (assoc_L (++))|]. split; [congruence|]. split; [done|].
  split; [congruence|]. intros fuel st start Hfuel.
  destruct (Hr _ _ collect st start o2) as (b & tl & Ho & Hround).
  rewrite Ho in *. cbn [app] in *. destruct fuel as [|fuel]; cbn [length] in Hfuel; [lia|].
  cbn [Decode_loop]. rewrite Hround. unfold emitted, collect. rewrite Hl by (rewrite length_app in Hfuel; lia).
  cbn [fmap list_fmap fst]. by rewrite <- (assoc_L (++)).
Qed.

Lemma size_update_loop n fuel d st out :
  0 <= n <= allowedMaxSize d -> allowedMaxSize d < 2 ^ 56 ->
  (length (appendInt [] 0x20 5 n ++ out) <= fuel)%nat ->
  exists fuel', (length out <= fuel')%nat /\
    Decode_loop collect fuel d st (appendInt [] 0x20 5 n ++ out) true
    = Decode_loop collect fuel' (with_table (setMaxSize n (d_table d)) d) st out true.
Proof.
  intros Hn Ha Hfuel. destruct (appendInt_head 0x20 5 n) as (x & tl & E & Hx).
  pose proof (readInt_append 0x20 5 n out ltac:(lia) eq_refl ltac:(lia)) as Hr.
  rewrite E in *. cbn [app] in *. destruct fuel as [|fuel]; cbn [length] in Hfuel; [lia|].
  exists fuel. split; [rewrite length_app in Hfuel; lia|]. cbn [Decode_loop]. unfold Decode_round.
  specialize (Hx ltac:(lia) ltac:(lia)).
  rewrite (class_spec 0x20 5 0x80 0), (class_spec 0x20 5 0xc0 0), (class_spec 0x20 5 0xe0 0x20)
    by (vm_compute; reflexivity || done). cbn [Z.eqb negb].
  change (32 =? 32) with true. cbn [negb]. rewrite Hr.
  rewrite u64_small by lia. destruct (Z.ltb_spec (allowedMaxSize d) n); [lia|]. done.
Qed.

(** The relation across size changes: a pending change has emptied the
    encoder's table down to [minPending] already. *)
Definition sync (e : Encoder) (d : Decoder) : Prop :=
  if pendingSize e then
    table_ok (e_table e) /\ table_ok (d_table d) /\ entries (e_table e) `suffix_of` entries (d_table d) /\
    maxSize (e_table e) <= DefaultTableSize <= allowedMaxSize d /\ allowedMaxSize d < 2 ^ 56 /\
    0 <= minPending e <= maxSize (e_table e) /\ size (e_table e) <= minPending e
  else sync0 (e_table e) d.

Lemma setMax_size n t : table_ok t -> 0 <= n -> size (setMaxSize n t) <= Z.min n (size t).
Proof.
  intros Ht Hn. pose proof (setMaxSize_ok n t Hn Ht) as [Hs _ _]. rewrite Hs, setMaxSize_entries by done.
  pose proof (keep_fits n (entries t) Hn). pose proof (total_suffix _ _ (keep_suffix n (entries t))).
  destruct Ht as [-> _ _]. lia.
Qed.

Lemma SetMaxTableSize_sync n e d : 0 <= n -> sync e d -> sync (SetMaxTableSize n e) d.
Proof.
  intros Hn Hs. unfold SetMaxTableSize. set (m := if _ <? n then _ else n).
  assert (Hm : 0 <= m <= DefaultTableSize).
  { unfold m. destruct (Z.ltb_spec DefaultTableSize n); unfold DefaultTableSize in *; lia. }
  destruct (Z.eqb_spec m (maxSize (e_table e))); [done|].
  assert (Hc : table_ok (e_table e) /\ table_ok (d_table d) /\ entries (e_table e) `suffix_of` entries (d_table d) /\
    DefaultTableSize <= allowedMaxSize d /\ allowedMaxSize d < 2 ^ 56).
  { unfold sync in Hs. destruct (pendingSize e); [tauto|]. by destruct Hs as [? ? ? ? [? ?] ?]. }
  destruct Hc as (He & Hd & Hsuf & Hdef & Ha). pose proof (setMax_size m (e_table e) He ltac:(lia)) as Hsz.
  assert (Hmx : maxSize (setMaxSize m (e_table e)) = m) by (unfold setMaxSize; by rewrite maxSize_evict).
  unfold sync. cbn [pendingSize e_table minPending]. rewrite Hmx.
  split; [apply setMaxSize_ok; [lia|done]|]. split; [done|].
  split; [rewrite setMaxSize_entries by done; etransitivity; [apply keep_suffix|done]|].
  split; [lia|]. split; [done|].
  destruct (pendingSize e) eqn:Ep; cbn [negb orb]; [|lia].
  unfold sync in Hs. rewrite Ep in Hs. destruct Hs as (_ & _ & _ & _ & _ & Hmin & Hle).
  destruct (Z.ltb_spec m (minPending e)); lia.
Qed.

(** Decoding the announced sizes puts the tables in step. *)
Lemma announced_sync e d n m :
  sync e d -> pendingSize e = true -> maxSize (e_table e) = m -> n = minPending e ->
  let t := setMaxSize n (d_table d) in
  sync0 (e_table e) (with_table (if n <? m then setMaxSize m t else t) d) .
Proof.
  intros Hs Hp Hm Hn t. unfold sync in Hs. rewrite Hp, Hm in Hs.
  destruct Hs as (He & Hd & Hsuf & Hdef & Ha & Hmin & Hle).
  assert (Hn0 : 0 <= n <= m /\ size (e_table e) <= n) by lia.
  assert (Ht : table_ok t) by (apply setMaxSize_ok; [lia|done]).
  assert (Hst : entries (e_table e) `suffix_of` entries t).
  { unfold t. rewrite setMaxSize_entries by done. apply keep_largest; [done|]. destruct He as [E _ _]. lia. }
  assert (Hmt : maxSize t = n) by (unfold t, setMaxSize; by rewrite maxSize_evict).
  destruct (Z.ltb_spec n m); split; cbn [with_table d_table allowedMaxSize]; try done; try lia.
  - apply setMaxSize_ok; [lia|done].
  - rewrite setMaxSize_entries by done. apply keep_largest; [done|]. destruct He as [E _ _]. lia.
  - unfold setMaxSize. rewrite maxSize_evict. cbn. lia.
Qed.

Lemma encode_block_spec fs e d :
  sync e d -> Forall (fun p => field_ok (MaxStringLength d) (fst p)) fs ->
  exists e' d' block, encode_block fs e = (e', block) /\ sync e' d' /\ MaxStringLength d' = MaxStringLength d /\
    Decode collect d [] block = Some (d', fst <$> fs, Done).
Proof.
  intros Hs Hf. unfold encode_block, Begin. destruct (pendingSize e) eqn:Ep; cbn [negb].
  2: { assert (Hs0 : sync0 (e_table e) d) by (unfold sync in Hs; by rewrite Ep in Hs).
    destruct (append_fields_spec fs [] e d Hs0 Hf) as (e' & out & d' & -> & Hp & Hs' & Hm & Hl).
    exists e', d', out. split; [done|]. split; [unfold sync; by rewrite Hp, Ep|]. split; [done|].
    unfold Decode. rewrite Hl by lia. done. }
  set (mn := minPending e). set (mx := maxSize (e_table e)).
  pose proof Hs as Hs1. unfold sync in Hs1. rewrite Ep in Hs1. fold mn mx in Hs1.
  destruct Hs1 as (_ & _ & _ & Hdef & Ha & Hmin & _).
  assert (HD : DefaultTableSize = 4096) by done.
  rewrite !u64_small by lia.
  pose proof (announced_sync e d mn mx Hs Ep eq_refl eq_refl) as Hd1. cbv zeta in Hd1.
  set (e1 := Enc (e_table e) false mn).
  destruct (Z.ltb_spec mn mx) as [Hlt|Hge].
  - destruct (append_fields_spec fs (appendInt (appendInt [] 32 5 mn) 32 5 mx) e1 _ Hd1 Hf)
      as (e' & out & d' & -> & Hp & Hs' & Hm & Hl).
    eexists e', d', _. split; [done|]. split; [unfold sync; by rewrite Hp|]. split; [done|].
    unfold Decode. rewrite appendInt_dst, <- (assoc_L (++)).
    destruct (size_update_loop mn (length (appendInt [] 32 5 mn ++ appendInt [] 32 5 mx ++ out)) d [] (appendInt [] 32 5 mx ++ out))
      as (fuel & Hfu & ->); [lia|done|lia|].
    destruct (size_update_loop mx fuel (with_table (setMaxSize mn (d_table d)) d) [] out) as (fuel' & Hfu' & ->);
      [cbn; lia|done|done|]. by rewrite Hl.
  - destruct (append_fields_spec fs (appendInt [] 32 5 mx) e1 _ Hd1 Hf) as (e' & out & d' & -> & Hp & Hs' & Hm & Hl).
    eexists e', d', _. split; [done|]. split; [unfold sync; by rewrite Hp|]. split; [done|].
    unfold Decode. replace mx with mn in * by lia.
    destruct (size_update_loop mn (length (appendInt [] 32 5 mn ++ out)) d [] out) as (fuel & Hfu & ->); [lia|done|lia|].
    by rewrite Hl.
Qed.

(** What a connection does with its encoder: take a peer's table size setting,
    or send a header block. *)
Inductive hop := Settings (n : Z) | Block (fs : list (HeaderField * bool)).

(** The blocks of one side, decoded by the other; [None] if a block fails. *)
Fixpoint hrun (ops : list hop) (e : Encoder) (d : Decoder) : option (list (list HeaderField)) :=
  match ops with
  | [] => Some []
  | Settings n :: ops => hrun ops (SetMaxTableSize n e) d
  | Block fs :: ops =>
      let '(e, block) := encode_block fs e in
      match Decode collect d [] block with
      | Some (d, got, Done) => cons got <$> hrun ops e d
      | _ => None
      end
  end.

Definition sent (o : hop) : list (list HeaderField) :=
  match o with Settings _ => [] | Block fs => [fst <$> fs] end.

Definition hop_ok (mx : Z) (o : hop) : Prop :=
  match o with
  | Settings n => 0 <= n
  | Block fs => Forall (fun p => field_ok mx (fst p)) fs
  end.

Lemma hrun_sync ops e d :
  sync e d -> Forall (hop_ok (MaxStringLength d)) ops -> hrun ops e d = Some (ops ≫= sent).
Proof.
  revert e d. induction ops as [|o ops IH]; intros e d Hs Hok; [done|].
  apply Forall_cons in Hok as [Ho Hok]. rewrite bind_cons. destruct o as [n|fs]; cbn [hrun sent].
  - rewrite app_nil_l. apply IH; [by apply SetMaxTableSize_sync|done].
  - destruct (encode_block_spec fs e d Hs Ho) as (e' & d' & block & -> & Hs' & Hm & ->).
    rewrite (IH e' d') by (rewrite ?Hm; done). done.
Qed.

(** C21: encoder and decoder stay in step.  A decoder made with a table of at
    least the default size recovers, in order, exactly the fields of every
    header block the encoder writes, for any sequence of blocks, sensitive
    fields and table size settings: no reference to a table entry is ever
    misread, whatever has been evicted in between. *)
Theorem hpack_in_step ops allowed maxString :
  DefaultTableSize <= allowed < 2 ^ 56 -> Forall (hop_ok maxString) ops ->
  hrun ops NewEncoder (Dec (d_table (NewDecoder allowed)) allowed maxString) = Some (ops ≫= sent).
Proof.
  intros Ha Hok. apply hrun_sync; [|done]. unfold sync. cbn. unfold DefaultTableSize in *.
  split; cbn [d_table allowedMaxSize entries size maxSize NewEncoder e_table NewDecoder];
    try done; try lia; split; cbn [entries size maxSize total]; unfold DefaultTableSize; lia.
Qed.

Definition demo_fields : list (HeaderField * bool) :=
  [(Field (str ":method") (str "GET"), false); (Field (str "x-token") (str "abc123"), false);
   (Field (str "cookie") (str "secret"), true); (Field (str "x-token") (str "abc123"), false)].

(** A table size change between two blocks evicts and is announced. *)
Lemma hpack_in_step_witness :
  hrun [Block demo_fields; Settings 0; Settings 100; Block demo_fields] NewEncoder (Dec (d_table (NewDecoder 4096)) 4096 64)
  = Some [fst <$> demo_fields; fst <$> demo_fields].
Proof.
  assert (H : Forall (fun p => field_ok 64 (fst p)) demo_fields).
  { repeat apply Forall_cons_2; [..|apply Forall_nil_2]; split; try (split; vm_compute; reflexivity);
      repeat (apply Forall_cons_2; [unfold byte_ok; vm_compute; split; congruence|]); apply Forall_nil_2. }
  apply (hpack_in_step [Block demo_fields; Settings 0; Settings 100; Block demo_fields] 4096 64).
  - unfold DefaultTableSize. lia.
  - constructor; [exact H|]. constructor; [cbn; lia|]. constructor; [cbn; lia|]. constructor; [exact H|]. constructor.
Defined.

(** * Any block from any peer *)

Lemma readInt_loop_shorter block v s v' rest :
  readInt_loop block v s = Ok (v', rest) -> (length rest < length block)%nat /\ 0 <= v'.
Proof.
  revert v s. induction block as [|b block IH]; intros v s; cbn [readInt_loop length]; [done|].
  destruct (Z.land b 128 =? 0).
  - intros [= <- <-]. split; [lia|apply u64_range].
  - destruct (56 <=? s + 7); [done|]. intros H. apply IH in H as [? ?]. split; [lia|done].
Qed.

Lemma readInt_shorter block n v rest :
  bytes_ok block -> readInt block n = Ok (v, rest) -> (length rest < length block)%nat /\ 0 <= v.
Proof.
  intros Hb. unfold readInt. destruct block as [|b block]; [done|]. apply Forall_cons in Hb as [Hb _].
  cbn [length]. destruct (_ <? _).
  - intros [= <- <-]. split; [lia|]. apply Z.land_nonneg. left. apply Hb.
  - intros [? ?]%readInt_loop_shorter. split; [lia|done].
Qed.

Lemma readInt_loop_ok block v s v' rest : bytes_ok block -> readInt_loop block v s = Ok (v', rest) -> bytes_ok rest.
Proof.
  intros Hb. revert v s. induction Hb as [|b block Hb1 Hb IH]; intros v s; cbn [readInt_loop]; [done|].
  destruct (Z.land b 128 =? 0); [by intros [= <- <-]|]. destruct (56 <=? s + 7); [done|]. apply IH.
Qed.

Lemma readInt_ok block n v rest : bytes_ok block -> readInt block n = Ok (v, rest) -> bytes_ok rest.
Proof.
  intros Hb. unfold readInt. destruct Hb as [|b block Hb1 Hb]; [done|].
  destruct (_ <? _); [by intros [= <- <-]|]. by apply readInt_loop_ok.
Qed.

Lemma readString_shorter mx block s rest :
  bytes_ok block -> readString mx block = Ok (s, rest) -> (length rest < length block)%nat /\ bytes_ok rest.
Proof.
  intros Hb. unfold readString. destruct block as [|b block]; [done|].
  destruct (readInt _ 7) as [[l r]|] eqn:E; [|done]. pose proof (readInt_ok _ _ _ _ Hb E) as Hr.
  apply readInt_shorter in E as [E _]; [|done]. destruct (_ <? l); [done|].
  assert (H : (length (drop (Z.to_nat l) r) < length (b :: block))%nat /\ bytes_ok (drop (Z.to_nat l) r))
    by (split; [rewrite length_drop; lia|by apply Forall_drop]).
  destruct (negb (negb _)).
  - destruct ((0 <? mx) && _); [done|]. by intros [= _ <-].
  - destruct (huffmanDecode _ mx); [|done]. by intros [= _ <-].
Qed.

Lemma readLiteral_shorter d block n f rest :
  bytes_ok block -> readLiteral d block n = Ok (f, rest) -> (length rest < length block)%nat /\ bytes_ok rest.
Proof.
  intros Hb. unfold readLiteral. destruct (readInt block n) as [[i r]|] eqn:E; [|done].
  pose proof (readInt_ok _ _ _ _ Hb E) as Hr. apply readInt_shorter in E as [E _]; [|done].
  destruct (if 0 <? i then _ else _) as [[nm r1]|] eqn:E1; [|done].
  assert ((length r1 <= length r)%nat /\ bytes_ok r1) as [Hl1 Hb1].
  { destruct (0 <? i).
    - destruct (field _ i); [|done]. by injection E1 as _ <-.
    - apply readString_shorter in E1 as [? ?]; [|done]. split; [lia|done]. }
  destruct (readString _ r1) as [[v r2]|] eqn:E2; [|done]. apply readString_shorter in E2 as [? ?]; [|done].
  intros [= _ <-]. split; [lia|done].
Qed.

(** What every decoder keeps. *)
Definition decoder_ok (allowed : Z) (d : Decoder) : Prop :=
  table_ok (d_table d) /\ maxSize (d_table d) <= allowed /\ allowedMaxSize d = allowed /\ 0 <= allowed < 2 ^ 63.

Lemma Decode_round_ok {St Er} (emit : HeaderField -> St -> St * option Er) allowed d st b tl start d' st' r :
  decoder_ok allowed d -> bytes_ok (b :: tl) -> Decode_round emit d st b (b :: tl) start = (d', st', r) ->
  decoder_ok allowed d' /\
  match r with inl (rest, _) => (length rest < length (b :: tl))%nat /\ bytes_ok rest | inr _ => True end.
Proof.
  intros (Ht & Hm & Ha & Hr) Hb. unfold Decode_round, emitted.
  assert (Hd : decoder_ok allowed d) by done.
  assert (Hadd : forall f, decoder_ok allowed (with_table (add f (d_table d)) d)).
  { intros f. split; [by apply add_ok|]. unfold add. cbn. rewrite maxSize_evict. done. }
  destruct (negb (Z.land b 128 =? 0)); [|destruct (Z.land b 192 =? 64); [|destruct (Z.land b 224 =? 32)]].
  - destruct (readInt _ 7) as [[i rest]|] eqn:E; [|by intros [= <- _ <-]].
    pose proof (readInt_ok _ _ _ _ Hb E). apply readInt_shorter in E as [E _]; [|done].
    destruct (field _ i); [|by intros [= <- _ <-]]. destruct (emit _ st) as [? [?|]]; by intros [= <- _ <-].
  - destruct (readLiteral _ _ 6) as [[f rest]|] eqn:E; [|by intros [= <- _ <-]].
    apply readLiteral_shorter in E as [E ?]; [|done]. destruct (emit _ st) as [? [?|]]; by intros [= <- _ <-].
  - destruct start; cbn [negb]; [|by intros [= <- _ <-]].
    destruct (readInt _ 5) as [[sz rest]|] eqn:E; [|by intros [= <- _ <-]].
    pose proof (readInt_ok _ _ _ _ Hb E). apply readInt_shorter in E as [E Hsz]; [|done].
    rewrite Ha, u64_small by lia. destruct (Z.ltb_spec allowed sz); [by intros [= <- _ <-]|].
    intros [= <- _ <-]. split; [|done]. split; [by apply setMaxSize_ok|].
    unfold setMaxSize. cbn. rewrite maxSize_evict. done.
  - destruct (readLiteral _ _ 4) as [[f rest]|] eqn:E; [|by intros [= <- _ <-]].
    apply readLiteral_shorter in E as [E ?]; [|done]. destruct (emit _ st) as [? [?|]]; by intros [= <- _ <-].
Qed.

(** Any peer.  [Decode] ends on every block, whatever the bytes and
    whatever [emit] does, and leaves the dynamic table accounted for and within
    the size this side advertised, so a peer cannot make it hold more. *)
Theorem decode_bounded {St Er} (emit : HeaderField -> St -> St * option Er) allowed d st block :
  decoder_ok allowed d -> bytes_ok block ->
  exists d' st' r, Decode emit d st block = Some (d', st', r) /\ decoder_ok allowed d' /\
    32 * len (entries (d_table d')) <= total fsize (entries (d_table d')) <= allowed.
Proof.
  intros Hd Hb. unfold Decode.
  enough (H : forall n block d st start, (length block <= n)%nat -> decoder_ok allowed d -> bytes_ok block ->
    exists d' st' r, Decode_loop emit n d st block start = Some (d', st', r) /\ decoder_ok allowed d').
  { destruct (H (length block) block d st true) as (d' & st' & r & E & Hd'); [lia|done|done|].
    exists d', st', r. split; [done|]. split; [done|]. destruct Hd' as (Ht & Hm & _).
    pose proof Ht as [Hs Hf _]. pose proof (entries_bound (Table (entries (d_table d')) (size (d_table d')) (size (d_table d')))) as Hbd.
    cbn in Hbd. rewrite <- Hs. split; [|lia]. apply Hbd. split; cbn; [done|lia|]. rewrite Hs. apply total_nonneg, fsize_nonneg. }
  clear. intros n. induction n as [|n IH]; intros block d st start Hn Hd Hb.
  { destruct block; [|cbn in Hn; lia]. by eexists _, _, _. }
  destruct block as [|b tl]; [by eexists _, _, _|]. cbn [Decode_loop].
  destruct (Decode_round emit d st b (b :: tl) start) as [[d1 st1] r] eqn:E.
  apply (Decode_round_ok _ allowed) in E as [Hd1 Hr]; [|done|done].
  destruct r as [[rest start']|e]; [|by eexists _, _, _]. destruct Hr. apply IH; [cbn [length] in *; lia|done|done].
Qed.

(** A block that asks for a table of 4097 bytes is refused and changes nothing. *)
Lemma decode_bounded_witness :
  exists d' st' r, Decode collect (NewDecoder 4096) [] [0x3f; 0xe2; 0x1f] = Some (d', st', r) /\ decoder_ok 4096 d' /\
    32 * len (entries (d_table d')) <= total fsize (entries (d_table d')) <= 4096.
Proof.
  apply (decode_bounded collect 4096 (NewDecoder 4096)).
  - split; [split; cbn; lia|]. cbn. lia.
  - repeat (constructor; [unfold byte_ok; lia|]). constructor.
Defined.
