(* ===== verification/Qpack.v ===== *)
(** QPACK field sections without a dynamic table
    (src/go/http3/internal/qpack/qpack.go): the static table, field lines and
    their decoder.

    [appendInt] and [readInt] are this package's own copies of HPACK's; they are
    shown to be the same functions, up to the error they report. *)
From Stdlib Require Import String.
From S2P Require Import Prelude.
From S2P Require Import HpackTables.
From S2P Require Import Huffman.
From S2P Require Import Hpack.

Inductive qpack_error := ErrDecompression | ErrTooLarge.

(** RFC 9204, appendix A. *)
Definition staticTable : list HeaderField :=
  [ Field (str ":authority") (str "");
    Field (str ":path") (str "/");
    Field (str "age") (str "0");
    Field (str "content-disposition") (str "");
    Field (str "content-length") (str "0");
    Field (str "cookie") (str "");
    Field (str "date") (str "");
    Field (str "etag") (str "");
    Field (str "if-modified-since") (str "");
    Field (str "if-none-match") (str "");
    Field (str "last-modified") (str "");
    Field (str "link") (str "");
    Field (str "location") (str "");
    Field (str "referer") (str "");
    Field (str "set-cookie") (str "");
    Field (str ":method") (str "CONNECT");
    Field (str ":method") (str "DELETE");
    Field (str ":method") (str "GET");
    Field (str ":method") (str "HEAD");
    Field (str ":method") (str "OPTIONS");
    Field (str ":method") (str "POST");
    Field (str ":method") (str "PUT");
    Field (str ":scheme") (str "http");
    Field (str ":scheme") (str "https");
    Field (str ":status") (str "103");
    Field (str ":status") (str "200");
    Field (str ":status") (str "304");
    Field (str ":status") (str "404");
    Field (str ":status") (str "503");
    Field (str "accept") (str "*/*");
    Field (str "accept") (str "application/dns-message");
    Field (str "accept-encoding") (str "gzip, deflate, br");
    Field (str "accept-ranges") (str "bytes");
    Field (str "access-control-allow-headers") (str "cache-control");
    Field (str "access-control-allow-headers") (str "content-type");
    Field (str "access-control-allow-origin") (str "*");
    Field (str "cache-control") (str "max-age=0");
    Field (str "cache-control") (str "max-age=2592000");
    Field (str "cache-control") (str "max-age=604800");
    Field (str "cache-control") (str "no-cache");
    Field (str "cache-control") (str "no-store");
    Field (str "cache-control") (str "public, max-age=31536000");
    Field (str "content-encoding") (str "br");
    Field (str "content-encoding") (str "gzip");
    Field (str "content-type") (str "application/dns-message");
    Field (str "content-type") (str "application/javascript");
    Field (str "content-type") (str "application/json");
    Field (str "content-type") (str "application/x-www-form-urlencoded");
    Field (str "content-type") (str "image/gif");
    Field (str "content-type") (str "image/jpeg");
    Field (str "content-type") (str "image/png");
    Field (str "content-type") (str "text/css");
    Field (str "content-type") (str "text/html; charset=utf-8");
    Field (str "content-type") (str "text/plain");
    Field (str "content-type") (str "text/plain;charset=utf-8");
    Field (str "range") (str "bytes=0-");
    Field (str "strict-transport-security") (str "max-age=31536000");
    Field (str "strict-transport-security") (str "max-age=31536000; includesubdomains");
    Field (str "strict-transport-security") (str "max-age=31536000; includesubdomains; preload");
    Field (str "vary") (str "accept-encoding");
    Field (str "vary") (str "origin");
    Field (str "x-content-type-options") (str "nosniff");
    Field (str "x-xss-protection") (str "1; mode=block");
    Field (str ":status") (str "100");
    Field (str ":status") (str "204");
    Field (str ":status") (str "206");
    Field (str ":status") (str "302");
    Field (str ":status") (str "400");
    Field (str ":status") (str "403");
    Field (str ":status") (str "421");
    Field (str ":status") (str "425");
    Field (str ":status") (str "500");
    Field (str "accept-language") (str "");
    Field (str "access-control-allow-credentials") (str "FALSE");
    Field (str "access-control-allow-credentials") (str "TRUE");
    Field (str "access-control-allow-headers") (str "*");
    Field (str "access-control-allow-methods") (str "get");
    Field (str "access-control-allow-methods") (str "get, post, options");
    Field (str "access-control-allow-methods") (str "options");
    Field (str "access-control-expose-headers") (str "content-length");
    Field (str "access-control-request-headers") (str "content-type");
    Field (str "access-control-request-method") (str "get");
    Field (str "access-control-request-method") (str "post");
    Field (str "alt-svc") (str "clear");
    Field (str "authorization") (str "");
    Field (str "content-security-policy") (str "script-src 'none'; object-src 'none'; base-uri 'none'");
    Field (str "early-data") (str "1");
    Field (str "expect-ct") (str "");
    Field (str "forwarded") (str "");
    Field (str "if-range") (str "");
    Field (str "origin") (str "");
    Field (str "purpose") (str "prefetch");
    Field (str "server") (str "");
    Field (str "timing-allow-origin") (str "*");
    Field (str "upgrade-insecure-requests") (str "1");
    Field (str "user-agent") (str "");
    Field (str "x-forwarded-for") (str "");
    Field (str "x-frame-options") (str "deny");
    Field (str "x-frame-options") (str "sameorigin") ].

(** * Integers and strings *)

Fixpoint readInt_loop (b : bytes) (v shift : Z) : result qpack_error (Z * bytes) :=
  match b with
  | [] => Err ErrDecompression
  | c :: b =>
      let v := u64 (v + u64 (Z.shiftl (Z.land c 0x7f) shift)) in
      if Z.land c 0x80 =? 0 then Ok (v, b)
      else
        let shift := shift + 7 in
        if 56 <=? shift then Err ErrDecompression else readInt_loop b v shift
  end.

Definition readInt (b : bytes) (n : Z) : result qpack_error (Z * bytes) :=
  match b with
  | [] => Err ErrDecompression
  | b0 :: b =>
      let mask := Z.shiftl 1 n - 1 in
      let v := Z.land b0 mask in
      if v <? mask then Ok (v, b) else readInt_loop b v 0
  end.

Fixpoint appendInt_loop (fuel : nat) (dst : bytes) (v : Z) : bytes :=
  match fuel with
  | O => dst ++ [u8 v]
  | S fuel =>
      if 0x80 <=? v then appendInt_loop fuel (dst ++ [Z.lor (u8 v) 0x80]) (Z.shiftr v 7)
      else dst ++ [u8 v]
  end.

Definition appendInt (dst : bytes) (first n v : Z) : bytes :=
  let mask := Z.shiftl 1 n - 1 in
  if v <? mask then dst ++ [Z.lor first (u8 v)]
  else appendInt_loop 10 (dst ++ [Z.lor first (u8 mask)]) (v - mask).

Definition readString (b : bytes) (n maxLen : Z) : result qpack_error (bytes * bytes) :=
  match b with
  | [] => Err ErrDecompression
  | b0 :: _ =>
      let huffman := negb (Z.land b0 (Z.shiftl 1 n) =? 0) in
      let! (length, rest) := readInt b n in
      if len rest <? length then Err ErrDecompression
      else
        let raw := take (Z.to_nat length) rest in
        let rest := drop (Z.to_nat length) rest in
        if (0 <? maxLen) && (maxLen <? len raw) then Err ErrTooLarge
        else if negb huffman then Ok (raw, rest)
        else match huffmanDecode raw maxLen with
             | Err ErrStringTooLong => Err ErrTooLarge
             | Err _ => Err ErrDecompression
             | Ok s => Ok (s, rest)
             end
  end.

Definition appendString (dst : bytes) (first n : Z) (s : bytes) : bytes :=
  let h := huffmanLen s in
  if h <? len s then huffmanAppend (appendInt dst (Z.lor first (Z.shiftl 1 n)) n h) s
  else appendInt dst first n (len s) ++ s.

(** * Encoding *)

(** [init]: from the last entry to the first, so the lowest index stays. *)
Definition init_loop {K : Type} `{Countable K} (key : HeaderField -> K) : list HeaderField -> Z -> gmap K Z :=
  fix loop l i := match l with [] => ∅ | f :: l => <[key f := i]> (loop l (i + 1)) end.

Definition staticPairIndex : gmap (bytes * bytes) Z := init_loop (fun f => (Name f, Value f)) staticTable 0.
Definition staticNameIndex : gmap bytes Z := init_loop Name staticTable 0.

Definition AppendField (dst name value : bytes) (neverIndex : bool) : bytes :=
  match staticPairIndex !! (name, value), neverIndex with
  | Some i, false => appendInt dst 0xc0 6 i
  | _, _ =>
      match staticNameIndex !! name with
      | Some i =>
          let first := if neverIndex then Z.lor 0x50 0x20 else 0x50 in
          appendString (appendInt dst first 4 i) 0 7 value
      | None =>
          let first := if neverIndex then Z.lor 0x20 0x10 else 0x20 in
          appendString (appendString dst first 3 name) 0 7 value
      end
  end.

Definition Prefix : bytes := [0; 0].

(** A field section: [Prefix], then each field line. *)
Definition encode_section (fs : list (HeaderField * bool)) : bytes :=
  fold_left (fun dst p => AppendField dst (Name (fst p)) (Value (fst p)) (snd p)) fs Prefix.

(** * Decoding *)

Section decode.
Context {St Er : Type} (emit : HeaderField -> St -> St * option Er) (maxSize : Z).

Inductive ending := Done | Failed (e : qpack_error) | Refused (e : Er).

(** One field line. *)
Definition readLine (b : Z) (rest : bytes) : result qpack_error (HeaderField * bytes) :=
  if negb (Z.land b 0x80 =? 0) then
    if Z.land b 0x40 =? 0 then Err ErrDecompression
    else
      let! (i, rest) := readInt rest 6 in
      match at_ staticTable i with Some f => Ok (f, rest) | None => Err ErrDecompression end
  else if Z.land b 0xc0 =? 0x40 then
    if Z.land b 0x10 =? 0 then Err ErrDecompression
    else
      let! (i, rest) := readInt rest 4 in
      match at_ staticTable i with
      | Some f => let! (value, rest) := readString rest 7 maxSize in Ok (Field (Name f) value, rest)
      | None => Err ErrDecompression
      end
  else if Z.land b 0xe0 =? 0x20 then
    let! (name, rest) := readString rest 3 maxSize in
    let! (value, rest) := readString rest 7 maxSize in
    Ok (Field name value, rest)
  else Err ErrDecompression.

(** The loop over the lines; each consumes a byte, so the length is fuel enough. *)
Fixpoint Decode_loop (fuel : nat) (st : St) (rest : bytes) (size : Z) : option (St * ending) :=
  match rest with
  | [] => Some (st, Done)
  | b :: _ =>
      match fuel with
      | O => None
      | S fuel =>
          match readLine b rest with
          | Err e => Some (st, Failed e)
          | Ok (f, rest) =>
              let size := size + (len (Name f) + len (Value f) + 32) in
              if (0 <? maxSize) && (maxSize <? size) then Some (st, Failed ErrTooLarge)
              else match emit f st with
                   | (st, Some e) => Some (st, Refused e)
                   | (st, None) => Decode_loop fuel st rest size
                   end
          end
      end
  end.

Definition Decode (st : St) (block : bytes) : option (St * ending) :=
  match readInt block 8 with
  | Err e => Some (st, Failed e)
  | Ok (ric, rest) =>
      if negb (ric =? 0) then Some (st, Failed ErrDecompression)
      else match readInt rest 7 with
           | Err e => Some (st, Failed e)
           | Ok (_, rest) => Decode_loop (length rest) st rest 0
           end
  end.
End decode.
Arguments Done {Er}.
Arguments Failed {Er} e.
Arguments Refused {Er} e.

(** * The copies *)

Lemma appendInt_hpack dst first n v : appendInt dst first n v = Hpack.appendInt dst first n v.
Proof.
  unfold appendInt, Hpack.appendInt. destruct (v <? _); [done|]. generalize 10%nat.
  intros fuel. generalize (dst ++ [Z.lor first (u8 (Z.shiftl 1 n - 1))]) (v - (Z.shiftl 1 n - 1)).
  induction fuel as [|fuel IH]; intros l w; cbn; [done|]. destruct (128 <=? w); [apply IH|done].
Qed.

Lemma readInt_hpack b n x : readInt b n = Ok x <-> Hpack.readInt b n = Ok x.
Proof.
  assert (Hok : forall y : Z * bytes, @Ok qpack_error _ y = Ok x <-> @Ok hpack_error _ y = Ok x)
    by (intros y; split; by intros [= ->]).
  unfold readInt, Hpack.readInt. destruct b as [|b0 b]; [split; discriminate|]. destruct (_ <? _); [apply Hok|].
  generalize (Z.land b0 (Z.shiftl 1 n - 1)) 0. induction b as [|c b IH]; intros v s; cbn; [split; discriminate|].
  destruct (Z.land c 128 =? 0); [apply Hok|]. destruct (56 <=? s + 7); [split; discriminate|]. apply IH.
Qed.

Lemma q_appendInt_dst dst first n v : appendInt dst first n v = dst ++ appendInt [] first n v.
Proof. rewrite !appendInt_hpack. apply appendInt_dst. Qed.

Lemma q_readInt_append first n v rest :
  1 <= n <= 7 -> Z.land first (2 ^ n - 1) = 0 -> 0 <= v < 2 ^ 56 ->
  readInt (appendInt [] first n v ++ rest) n = Ok (v, rest).
Proof. intros. rewrite readInt_hpack, appendInt_hpack. by apply readInt_append. Qed.

Lemma q_appendInt_head first n v :
  0 <= v -> 0 <= n -> exists x tl, appendInt [] first n v = Z.lor first (u8 x) :: tl /\ 0 <= x < 2 ^ n.
Proof.
  intros Hv Hn. rewrite appendInt_hpack. destruct (appendInt_head first n v) as (x & tl & E & Hx).
  exists x, tl. split; [done|]. by apply Hx.
Qed.

(** The three places a string is written: its bits and its prefix. *)
Definition str_slot (first n : Z) : Prop := first = 0 /\ n = 7 \/ first = 0x20 /\ n = 3 \/ first = 0x30 /\ n = 3.

Lemma slot_bits first n x :
  str_slot first n -> 0 <= x < 2 ^ n ->
  Z.land (Z.lor first (u8 x)) (Z.shiftl 1 n) = 0 /\
  Z.land (Z.lor (Z.lor first (Z.shiftl 1 n)) (u8 x)) (Z.shiftl 1 n) <> 0.
Proof.
  intros [[-> ->]|[[-> ->]|[-> ->]]] Hx.
  - by rewrite (class_spec 0 7 128 0), (class_spec 128 7 128 128) by (vm_compute; reflexivity || done).
  - by rewrite (class_spec 0x20 3 8 0), (class_spec 0x28 3 8 8) by (vm_compute; reflexivity || done).
  - by rewrite (class_spec 0x30 3 8 0), (class_spec 0x38 3 8 8) by (vm_compute; reflexivity || done).
Qed.

Lemma slot_mask first n :
  str_slot first n -> 1 <= n <= 7 /\ Z.land first (2 ^ n - 1) = 0 /\ Z.land (Z.lor first (Z.shiftl 1 n)) (2 ^ n - 1) = 0.
Proof. intros [[-> ->]|[[-> ->]|[-> ->]]]; (split; [lia|split; reflexivity]). Qed.

Lemma q_appendString_dst dst first n s : bytes_ok s -> appendString dst first n s = dst ++ appendString [] first n s.
Proof.
  intros Hs. unfold appendString. destruct (huffmanLen s <? len s).
  - rewrite q_appendInt_dst, huffmanAppend_dst, (huffmanAppend_dst (appendInt [] _ _ _)) by done.
    by rewrite <- (assoc_L (++)).
  - by rewrite q_appendInt_dst, <- (assoc_L (++)).
Qed.

Lemma appendString_head first n s :
  bytes_ok s -> str_slot first n ->
  exists x tl, appendString [] first n s = Z.lor first (u8 x) :: tl /\ 0 <= x < 2 ^ (n + 1).
Proof.
  intros Hs Hslot. pose proof (slot_mask first n Hslot) as (Hn & _). unfold appendString.
  pose proof (huffmanLen_nonneg s Hs). pose proof (len_nonneg s). rewrite Z.pow_add_r by lia. change (2 ^ 1) with 2.
  assert (2 ^ n <= 128) by (apply (Z.pow_le_mono_r 2 n 7); lia).
  destruct (_ <? _).
  - rewrite huffmanAppend_dst by done.
    destruct (q_appendInt_head (Z.lor first (Z.shiftl 1 n)) n (huffmanLen s)) as (x & tl & -> & Hx); [done|lia|].
    exists (2 ^ n + x), (tl ++ huffmanAppend [] s). split; [|lia]. cbn [app]. f_equal.
    rewrite <- Z.lor_assoc. f_equal. rewrite Z.shiftl_1_l, !u8_small by (unfold byte_ok; lia).
    rewrite <- (Z.mul_1_l (2 ^ n)). by apply lor_add; [lia|].
  - destruct (q_appendInt_head first n (len s)) as (x & tl & -> & Hx); [done|lia|]. exists x, (tl ++ s). split; [done|lia].
Qed.

Lemma q_readString_append mx first n s rest :
  str_slot first n -> bytes_ok s -> len s < 2 ^ 56 ->
  readString (appendString [] first n s ++ rest) n mx = if too_long mx s then Err ErrTooLarge else Ok (s, rest).
Proof.
  intros Hslot Hs Hl. pose proof (slot_mask first n Hslot) as (Hn & Hm1 & Hm2). unfold appendString.
  pose proof (huffmanLen_nonneg s Hs). pose proof (len_nonneg s). pose proof (len_nonneg rest).
  destruct (Z.ltb_spec (huffmanLen s) (len s)) as [Hlt|Hge].
  - rewrite huffmanAppend_dst, <- (assoc_L (++)) by done.
    pose proof (q_readInt_append (Z.lor first (Z.shiftl 1 n)) n (huffmanLen s) (huffmanAppend [] s ++ rest) Hn Hm2 ltac:(lia)) as Hr.
    destruct (q_appendInt_head (Z.lor first (Z.shiftl 1 n)) n (huffmanLen s)) as (x & tl & E & Hx); [done|lia|].
    rewrite E in *. cbn [app readString] in *. rewrite Hr. clear Hr.
    destruct (slot_bits first n x Hslot Hx) as [_ Hb]. apply Z.eqb_neq in Hb. rewrite Hb. cbn [negb].
    rewrite len_app, huffmanAppend_len by done.
    destruct (Z.ltb_spec (huffmanLen s + len rest) (huffmanLen s)); [lia|].
    replace (Z.to_nat (huffmanLen s)) with (length (huffmanAppend [] s))
      by (rewrite <- huffmanAppend_len by done; unfold len; lia).
    rewrite take_app_length, drop_app_length, huffmanAppend_len, huffmanDecode_append by done. unfold too_long.
    destruct (Z.ltb_spec 0 mx), (Z.ltb_spec mx (huffmanLen s)), (Z.ltb_spec mx (len s)); cbn [andb]; (done || lia).
  - rewrite <- (assoc_L (++)).
    pose proof (q_readInt_append first n (len s) (s ++ rest) Hn Hm1 ltac:(lia)) as Hr.
    destruct (q_appendInt_head first n (len s)) as (x & tl & E & Hx); [done|lia|].
    rewrite E in *. cbn [app readString] in *. rewrite Hr. clear Hr.
    destruct (slot_bits first n x Hslot Hx) as [-> _]. cbn [Z.eqb negb].
    rewrite len_app. destruct (Z.ltb_spec (len s + len rest) (len s)); [lia|].
    replace (Z.to_nat (len s)) with (length s) by (unfold len; lia).
    rewrite take_app_length, drop_app_length. unfold too_long. by destruct ((0 <? mx) && _).
Qed.

(** * Field lines *)

Lemma q_init_loop_lookup {K} `{Countable K} (key : HeaderField -> K) l i k j :
  init_loop key l i !! k = Some j ->
  exists f, at_ l (j - i) = Some f /\ key f = k /\ i <= j < i + len l.
Proof.
  revert i. induction l as [|f l IH]; intros i; cbn [init_loop]; [by rewrite lookup_empty|].
  rewrite lookup_insert_Some, len_cons. pose proof (len_nonneg l). intros [[Hk Hj]|[_ Hl]].
  - exists f. subst j. rewrite Z.sub_diag, at_head. split; [done|]. split; [done|lia].
  - destruct (IH _ Hl) as (g & Hg & Hk & Hj). exists g. rewrite at_cons by lia.
    replace (j - i - 1) with (j - (i + 1)) by lia. split; [done|]. split; [done|lia].
Qed.

Definition line_ok (f : HeaderField) : Prop :=
  bytes_ok (Name f) /\ bytes_ok (Value f) /\ len (Name f) < 2 ^ 56 /\ len (Value f) < 2 ^ 56.

(** What a decoder limited to [mx] makes of the line for [f]. *)
Definition line_read (mx : Z) (f : HeaderField) (rest : bytes) (r : result qpack_error (HeaderField * bytes)) : Prop :=
  r = Ok (f, rest) \/ r = Err ErrTooLarge /\ 0 < mx < fsize f.

Lemma too_long_fsize mx f :
  (too_long mx (Name f) = true \/ too_long mx (Value f) = true) -> 0 < mx < fsize f.
Proof.
  unfold too_long, fsize. pose proof (len_nonneg (Name f)). pose proof (len_nonneg (Value f)).
  intros [[? ?]%andb_true_iff|[? ?]%andb_true_iff]; lia.
Qed.

(** The line [out] and how it is read, for each of the three forms. *)
Definition line_spec (f : HeaderField) (out : bytes) : Prop :=
  exists b tl, out = b :: tl /\ forall mx rest, line_read mx f rest (readLine mx b (out ++ rest)).

Lemma indexed_line f i :
  0 <= i < len staticTable -> at_ staticTable i = Some f -> line_spec f (appendInt [] 0xc0 6 i).
Proof.
  change (len staticTable) with 99. intros Hi Hf.
  destruct (q_appendInt_head 0xc0 6 i) as (x & tl & E & Hx); [lia|lia|].
  eexists _, tl. split; [exact E|]. intros mx rest. left. unfold readLine.
  rewrite (class_spec 0xc0 6 0x80 0x80), (class_spec 0xc0 6 0x40 0x40) by (vm_compute; reflexivity || done).
  cbn [Z.eqb negb]. by rewrite q_readInt_append, Hf by (done || lia).
Qed.

Lemma named_line f g i first :
  line_ok f -> first = 0x50 \/ first = 0x70 -> 0 <= i < len staticTable -> at_ staticTable i = Some g -> Name g = Name f ->
  line_spec f (appendInt [] first 4 i ++ appendString [] 0 7 (Value f)).
Proof.
  change (len staticTable) with 99. intros (Hn & Hv & Ln & Lv) Hfirst Hi Hg Hname.
  destruct (q_appendInt_head first 4 i) as (x & tl & E & Hx); [lia|lia|].
  exists (Z.lor first (u8 x)), (tl ++ appendString [] 0 7 (Value f)). split; [by rewrite E|].
  intros mx rest. unfold readLine.
  assert (Z.land (Z.lor first (u8 x)) 0x80 = 0 /\ Z.land (Z.lor first (u8 x)) 0xc0 = 0x40 /\
          Z.land (Z.lor first (u8 x)) 0x10 = 0x10 /\ Z.land first (2 ^ 4 - 1) = 0) as (-> & -> & -> & Hm).
  { destruct Hfirst as [-> | ->]; repeat split; apply (class_spec _ 4); (vm_compute; reflexivity) || done. }
  cbn [Z.eqb negb]. rewrite <- (assoc_L (++)), q_readInt_append, Hg by (done || lia).
  change (64 =? 64) with true. cbn iota.
  rewrite q_readString_append by (done || by left). unfold line_read.
  destruct (too_long mx (Value f)) eqn:Et; [right; split; [done|]; apply too_long_fsize; by right|].
  left. rewrite Hname. by destruct f.
Qed.

Lemma literal_line f first :
  line_ok f -> first = 0x20 \/ first = 0x30 ->
  line_spec f (appendString [] first 3 (Name f) ++ appendString [] 0 7 (Value f)).
Proof.
  intros (Hn & Hv & Ln & Lv) Hfirst.
  assert (Hslot : str_slot first 3) by (unfold str_slot; destruct Hfirst as [-> | ->]; tauto).
  destruct (appendString_head first 3 (Name f) Hn Hslot) as (x & tl & E & Hx). change (2 ^ (3 + 1)) with (2 ^ 4) in Hx.
  exists (Z.lor first (u8 x)), (tl ++ appendString [] 0 7 (Value f)). split; [by rewrite E|].
  intros mx rest. unfold readLine.
  assert (Z.land (Z.lor first (u8 x)) 0x80 = 0 /\ (Z.land (Z.lor first (u8 x)) 0xc0 =? 0x40) = false /\
          Z.land (Z.lor first (u8 x)) 0xe0 = 0x20) as (-> & -> & ->).
  { destruct Hfirst as [-> | ->]; (split; [apply (class_spec _ 4); (vm_compute; reflexivity) || done|]);
      (split; [|apply (class_spec _ 4); (vm_compute; reflexivity) || done]);
      (rewrite (class_spec _ 4 0xc0 0 x); [done|vm_compute; reflexivity|done]). }
  cbn [Z.eqb negb]. change (32 =? 32) with true. cbn iota. rewrite <- (assoc_L (++)), q_readString_append by done.
  unfold line_read.
  destruct (too_long mx (Name f)) eqn:Et; [right; split; [done|]; apply too_long_fsize; by left|].
  rewrite q_readString_append by (done || by left).
  destruct (too_long mx (Value f)) eqn:Et'; [right; split; [done|]; apply too_long_fsize; by right|].
  left. by destruct f.
Qed.

Lemma AppendField_line dst f neverIndex :
  line_ok f -> exists out, AppendField dst (Name f) (Value f) neverIndex = dst ++ out /\ line_spec f out.
Proof.
  intros Hf. pose proof Hf as (Hn & Hv & _). unfold AppendField.
  assert (Hrest : exists out, match staticNameIndex !! Name f with
      | Some i => appendString (appendInt dst (if neverIndex then Z.lor 0x50 0x20 else 0x50) 4 i) 0 7 (Value f)
      | None => appendString (appendString dst (if neverIndex then Z.lor 0x20 0x10 else 0x20) 3 (Name f)) 0 7 (Value f)
      end = dst ++ out /\ line_spec f out).
  { destruct (staticNameIndex !! Name f) as [i|] eqn:En.
    - apply q_init_loop_lookup in En as (g & Hg & Hk & Hi). rewrite Z.sub_0_r in Hg.
      eexists. split; [by rewrite q_appendString_dst, q_appendInt_dst, <- (assoc_L (++))|].
      apply (named_line f g i); [done| |done|done|done]. destruct neverIndex; [by right|by left].
    - eexists. split; [by rewrite q_appendString_dst, (q_appendString_dst dst), <- (assoc_L (++))|].
      apply (literal_line f); [done|]. destruct neverIndex; [by right|by left]. }
  destruct (staticPairIndex !! (Name f, Value f)) as [i|] eqn:Ep; [destruct neverIndex|]; try exact Hrest.
  apply q_init_loop_lookup in Ep as (g & Hg & Hk & Hi). rewrite Z.sub_0_r in Hg.
  eexists. split; [apply q_appendInt_dst|]. apply indexed_line; [done|].
  rewrite Hg. f_equal. destruct f, g. by injection Hk as -> ->.
Qed.

(** * Sections *)

(** The fields a limit of [mx] lets through, and whether it is all of them. *)
Fixpoint admitted (mx size : Z) (fs : list HeaderField) : list HeaderField * bool :=
  match fs with
  | [] => ([], true)
  | f :: fs =>
      let size := size + fsize f in
      if (0 <? mx) && (mx <? size) then ([], false)
      else let '(l, all) := admitted mx size fs in (f :: l, all)
  end.

Definition encode_lines (fs : list (HeaderField * bool)) (dst : bytes) : bytes :=
  fold_left (fun dst p => AppendField dst (Name (fst p)) (Value (fst p)) (snd p)) fs dst.

Lemma section_lines fs dst :
  Forall (fun p => line_ok (fst p)) fs ->
  exists out, encode_lines fs dst = dst ++ out /\
    forall mx fuel st size, 0 <= size -> (length out <= fuel)%nat ->
      Decode_loop collect mx fuel st out size =
      Some (st ++ fst (admitted mx size (fst <$> fs)),
            if snd (admitted mx size (fst <$> fs)) then Done else Failed ErrTooLarge).
Proof.
  intros Hf. revert dst. induction Hf as [|[f nv] fs Hf1 Hf IH]; intros dst.
  { exists []. rewrite app_nil_r. split; [done|]. intros. cbn. rewrite app_nil_r. by destruct fuel. }
  cbn [encode_lines fold_left fst snd]. cbn [fst] in Hf1.
  destruct (AppendField_line dst f nv Hf1) as (o1 & -> & b & tl & Eo & Hr).
  destruct (IH (dst ++ o1)) as (o2 & E2 & Hd). unfold encode_lines in E2. rewrite E2. exists (o1 ++ o2).
  split; [by rewrite (assoc_L (++))|]. intros mx fuel st size Hsize Hfuel.
  specialize (Hr mx o2). subst o1. cbn [app] in *. destruct fuel as [|fuel]; cbn [length] in Hfuel; [lia|].
  cbn [Decode_loop fmap list_fmap admitted fst]. pose proof (fsize_nonneg f).
  destruct Hr as [-> | [-> Hbig]].
  - fold (fsize f). destruct ((0 <? mx) && (mx <? size + fsize f)); [cbn; by rewrite app_nil_r|].
    cbn [collect]. rewrite Hd by (rewrite ?length_app in Hfuel; lia).
    destruct (admitted mx (size + fsize f) _) as [l all]. cbn [fst snd]. by rewrite <- (assoc_L (++)).
  - destruct (Z.ltb_spec 0 mx), (Z.ltb_spec mx (size + fsize f)); try lia. cbn. by rewrite app_nil_r.
Qed.

(** A field section is read back.  Decoding what [AppendField] wrote after
    [Prefix] gives the fields in order, never-indexed ones too; a limit on the
    section's size stops it with [ErrTooLarge] at exactly the first field that
    would pass the limit. *)
Theorem qpack_roundtrip fs mx :
  Forall (fun p => line_ok (fst p)) fs ->
  Decode collect mx [] (encode_section fs) =
  Some (fst (admitted mx 0 (fst <$> fs)),
        if snd (admitted mx 0 (fst <$> fs)) then Done else Failed ErrTooLarge).
Proof.
  intros Hf. unfold encode_section. destruct (section_lines fs Prefix Hf) as (out & E & Hd).
  unfold encode_lines in E. rewrite E. change (Decode collect mx [] (Prefix ++ out)) with
    (Decode_loop collect mx (length out) [] out 0). by rewrite Hd by lia.
Qed.

Definition demo_lines : list (HeaderField * bool) :=
  [(Field (str ":method") (str "GET"), false); (Field (str ":method") (str "GET"), true);
   (Field (str ":status") (str "418"), false); (Field (str "x-answer") (str "forty-two"), true)].

Lemma qpack_roundtrip_witness :
  Decode collect 150 [] (encode_section demo_lines) = Some (take 3 (fst <$> demo_lines), Failed ErrTooLarge).
Proof.
  rewrite (qpack_roundtrip demo_lines 150).
  - reflexivity.
  - repeat apply Forall_cons_2; [..|apply Forall_nil_2]; (split; [|split]); [..|split; vm_compute; reflexivity| | |split; vm_compute; reflexivity| | |split; vm_compute; reflexivity| | |split; vm_compute; reflexivity];
      repeat (apply Forall_cons_2; [unfold byte_ok; vm_compute; split; congruence|]); apply Forall_nil_2.
Defined.

(** * Any section from any peer *)

Lemma q_readInt_shorter b n v rest :
  bytes_ok b -> readInt b n = Ok (v, rest) -> (length rest < length b)%nat /\ bytes_ok rest.
Proof.
  intros Hb H%readInt_hpack. split; [by eapply readInt_shorter|by eapply readInt_ok].
Qed.

Lemma q_readString_shorter b n mx s rest :
  bytes_ok b -> readString b n mx = Ok (s, rest) -> (length rest < length b)%nat /\ bytes_ok rest.
Proof.
  intros Hb. unfold readString. destruct b as [|b0 b]; [done|].
  destruct (readInt _ n) as [[l r]|] eqn:E; [|done]. apply q_readInt_shorter in E as [E Hr]; [|done].
  destruct (_ <? l); [done|].
  assert (H : (length (drop (Z.to_nat l) r) < length (b0 :: b))%nat /\ bytes_ok (drop (Z.to_nat l) r))
    by (split; [rewrite length_drop; lia|by apply Forall_drop]).
  destruct ((0 <? mx) && _); [done|]. destruct (negb (negb _)); [by intros [= _ <-]|].
  destruct (huffmanDecode _ mx) as [?|[]]; try done. by intros [= _ <-].
Qed.

Lemma readLine_shorter mx b r f rest :
  bytes_ok r -> readLine mx b r = Ok (f, rest) -> (length rest < length r)%nat /\ bytes_ok rest.
Proof.
  intros Hb. unfold readLine. destruct (negb _); [|destruct (_ =? 64); [|destruct (_ =? 32); [|done]]].
  - destruct (_ =? 0); [done|]. destruct (readInt r 6) as [[i r1]|] eqn:E; [|done].
    apply q_readInt_shorter in E; [|done]. destruct (at_ _ i); [|done]. by intros [= _ <-].
  - destruct (_ =? 0); [done|]. destruct (readInt r 4) as [[i r1]|] eqn:E; [|done].
    apply q_readInt_shorter in E as [? ?]; [|done]. destruct (at_ _ i); [|done].
    destruct (readString r1 7 mx) as [[v r2]|] eqn:E1; [|done]. apply q_readString_shorter in E1 as [? ?]; [|done].
    intros [= _ <-]. split; [lia|done].
  - destruct (readString r 3 mx) as [[nm r1]|] eqn:E; [|done]. apply q_readString_shorter in E as [? ?]; [|done].
    destruct (readString r1 7 mx) as [[v r2]|] eqn:E1; [|done]. apply q_readString_shorter in E1 as [? ?]; [|done].
    intros [= _ <-]. split; [lia|done].
Qed.

(** A hostile section.  Decoding ends on every input, and what it hands to
    [emit] never exceeds the limit. *)
Theorem qpack_bounded mx block :
  bytes_ok block ->
  exists got r, Decode collect mx [] block = Some (got, r) /\ (0 < mx -> total fsize got <= mx).
Proof.
  intros Hb. unfold Decode. assert (Hnil : 0 < mx -> total fsize [] <= mx) by (cbn; lia).
  destruct (readInt block 8) as [[ric r]|] eqn:E; [|by eexists _, _].
  apply q_readInt_shorter in E as [_ Hr]; [|done]. destruct (negb _); [by eexists _, _|].
  destruct (readInt r 7) as [[x rest]|] eqn:E1; [|by eexists _, _]. apply q_readInt_shorter in E1 as [_ Hrest]; [|done].
  enough (H : forall n rest st size, (length rest <= n)%nat -> bytes_ok rest -> total fsize st = size ->
    (0 < mx -> size <= mx) ->
    exists got r, Decode_loop collect mx n st rest size = Some (got, r) /\ (0 < mx -> total fsize got <= mx))
    by (apply H; [lia|done|done|done]).
  clear. intros n. induction n as [|n IH]; intros rest st size Hn Hb Hs Hm.
  all: destruct rest as [|b tl]; [eexists _, _; split; [done|by rewrite Hs]|].
  { cbn in Hn. lia. }
  cbn [Decode_loop]. destruct (readLine mx b (b :: tl)) as [[f rest]|] eqn:E; [|eexists _, _; split; [done|by rewrite Hs]].
  apply readLine_shorter in E as [El Er]; [|done]. fold (fsize f).
  destruct ((0 <? mx) && (mx <? size + fsize f)) eqn:Ec; [eexists _, _; split; [done|by rewrite Hs]|].
  cbn [collect]. apply IH; [cbn [length] in *; lia|done|rewrite total_app; cbn; lia|]. intros Hp. lia.
Qed.

Lemma qpack_bounded_witness :
  exists got r, Decode collect 100 [] [0; 0; 0xd1; 0xd1; 0xd1; 0x27; 0xff] = Some (got, r) /\ (0 < 100 -> total fsize got <= 100).
Proof. apply (qpack_bounded 100). repeat (constructor; [unfold byte_ok; lia|]). constructor. Defined.
