(* ===== verification/QuicFrames.v ===== *)
(** QUIC frames (src/go/http3/internal/quic/frames.go): the encoders, and how
    [handleFrames] reads a packet's payload, the ACK frame included.

    Reading is separated from acting: [readFrame] is what [handleFrames] takes
    from the reader for one frame and the errors it raises while doing so;
    what the connection then does with the frame is another component's.  An
    error is its transport error code. *)
From S2P Require Import Prelude.
From S2P Require Import Varint.
From S2P Require Import QuicBuffer.

Definition errInternal : Z := 0x01.
Definition errFrameEncoding : Z := 0x07.
Definition errProtocolViolation : Z := 0x0a.
Definition errApplication : Z := 0x0c.

Definition framePadding : Z := 0x00.
Definition framePing : Z := 0x01.
Definition frameAck : Z := 0x02.
Definition frameAckECN : Z := 0x03.
Definition frameResetStream : Z := 0x04.
Definition frameStopSending : Z := 0x05.
Definition frameCrypto : Z := 0x06.
Definition frameNewToken : Z := 0x07.
Definition frameStream : Z := 0x08.
Definition frameMaxData : Z := 0x10.
Definition frameMaxStreamData : Z := 0x11.
Definition frameMaxStreamsBidi : Z := 0x12.
Definition frameMaxStreamsUni : Z := 0x13.
Definition frameDataBlocked : Z := 0x14.
Definition frameStreamDataBlocked : Z := 0x15.
Definition frameStreamsBlockedBidi : Z := 0x16.
Definition frameStreamsBlockedUni : Z := 0x17.
Definition frameNewConnectionID : Z := 0x18.
Definition frameRetireConnectionID : Z := 0x19.
Definition framePathChallenge : Z := 0x1a.
Definition framePathResponse : Z := 0x1b.
Definition frameConnectionClose : Z := 0x1c.
Definition frameConnectionCloseApp : Z := 0x1d.
Definition frameHandshakeDone : Z := 0x1e.

Definition maxCIDLen : Z := 20.
Definition statelessResetTokenLen : Z := 16.

(** * Encoding *)

Definition appendStopSending (b : bytes) (id code : Z) : bytes :=
  AppendVarint (AppendVarint (b ++ [frameStopSending]) id) code.

Definition appendMaxStreamData (b : bytes) (id max : Z) : bytes :=
  AppendVarint (AppendVarint (b ++ [frameMaxStreamData]) id) max.

Definition appendResetStream (b : bytes) (id code finalSize : Z) : bytes :=
  AppendVarint (AppendVarint (AppendVarint (b ++ [frameResetStream]) id) code) finalSize.

(** The error a connection closes with. *)
Inductive close_error :=
| ApplicationError (Code : Z) (Reason : bytes)
| TransportError (Code : Z) (Reason : bytes)
| OtherError.

Definition appendConnectionClose (b : bytes) (err : close_error) (oneRTT : bool) : bytes :=
  match err with
  | ApplicationError code reason =>
      if oneRTT then
        AppendVarint (AppendVarint (b ++ [frameConnectionCloseApp]) code) (len reason) ++ reason
      else
        AppendVarint (AppendVarint (AppendVarint (b ++ [frameConnectionClose]) errApplication) 0) 0
  | TransportError code reason =>
      let reason := if 256 <? len reason then take 256 reason else reason in
      AppendVarint (AppendVarint (AppendVarint (b ++ [frameConnectionClose]) code) 0) (len reason) ++ reason
  | OtherError =>
      AppendVarint (AppendVarint (AppendVarint (b ++ [frameConnectionClose]) errInternal) 0) 0
  end.

(** The delay field: the microseconds since the largest packet arrived, in the
    application space only. *)
Definition ackDelay (app : bool) (elapsed exponent : Z) : Z := if app then Z.shiftr (u64 elapsed) exponent else 0.

(** The ranges below the largest, newest first. *)
Fixpoint appendAck_loop (b : bytes) (older : list pnRange) (prev : Z) : bytes :=
  match older with
  | [] => b
  | x :: older => appendAck_loop (AppendVarint (AppendVarint b (u64 (prev - hi x - 2))) (u64 (hi x - lo x))) older (lo x)
  end.

(** [None] is the panic on an empty set. *)
Definition appendAck (b : bytes) (r : rangeSet) (delay : Z) : option bytes :=
  match reverse r with
  | [] => None
  | largest :: older =>
      let b := AppendVarint (b ++ [frameAck]) (hi largest) in
      let b := AppendVarint b delay in
      let b := AppendVarint b (u64 (len r - 1)) in
      let b := AppendVarint b (u64 (hi largest - lo largest)) in
      Some (appendAck_loop b older (lo largest))
  end.

(** * Reading *)

Inductive qframe :=
| FPadding
| FPing
| FAck (ranges : list pnRange) (delay : Z)
| FResetStream (id code size : Z)
| FStopSending (id code : Z)
| FCrypto (off : Z) (data : bytes)
| FNewToken (token : bytes)
| FStream (id off : Z) (data : bytes) (fin : bool)
| FMaxData (max : Z)
| FMaxStreamData (id max : Z)
| FMaxStreams (uni : bool) (max : Z)
| FBlocked
| FNewConnectionID (seq retirePrior : Z) (cid token : bytes)
| FRetireConnectionID
| FPathChallenge (data : bytes)
| FPathResponse
| FConnectionClose (app : bool) (code : Z) (reason : bytes)
| FHandshakeDone.

(** The ranges of an ACK after the first; [smallest] is where the last one began. *)
Fixpoint readAck_loop (count : nat) (smallest : Z) (ranges : list pnRange) (r : reader)
  : result Z (list pnRange * reader) :=
  match count with
  | O => Ok (ranges, r)
  | S count =>
      let '(gap, r) := reader_varint r in
      let '(length, r) := reader_varint r in
      if r_bad r || (smallest <? u64 (gap + 2)) || (u64 (u64 (smallest - gap) - 2) <? length) then Err errFrameEncoding
      else
        let hi := u64 (u64 (smallest - gap) - 2) in
        let smallest := u64 (hi - length) in
        readAck_loop count smallest (ranges ++ [PnRange smallest hi]) r
  end.

(** [handleAckFrame], up to the call of [onAckReceived]: the ranges and the
    delay as a [time.Duration] in nanoseconds. *)
Definition readAck (r : reader) (ecn : bool) (exp : Z) : result Z (qframe * reader) :=
  let '(largest, r) := reader_varint r in
  let '(delay, r) := reader_varint r in
  let '(count, r) := reader_varint r in
  let '(first, r) := reader_varint r in
  if r_bad r || (largest <? first) || (2 ^ 16 <? count) then Err errFrameEncoding
  else
    let smallest := u64 (largest - first) in
    let! (ranges, r) := readAck_loop (Z.to_nat count) smallest [PnRange smallest largest] r in
    let r := if ecn then snd (reader_varint (snd (reader_varint (snd (reader_varint r))))) else r in
    if r_bad r then Err errFrameEncoding
    else Ok (FAck ranges (i64 (i64 (u64 (Z.shiftl delay exp)) * 1000)), r).

(** [handleNewConnectionID]'s reading and the checks that need no state. *)
Definition readNewConnectionID (r : reader) : result Z (qframe * reader) :=
  let '(seq, r) := reader_varint r in
  let '(retirePrior, r) := reader_varint r in
  let '(n, r) := reader_byte r in
  let '(cid, r) := reader_bytes n r in
  let '(token, r) := reader_bytes statelessResetTokenLen r in
  if r_bad r then Ok (FNewConnectionID seq retirePrior cid token, r)
  else if (n =? 0) || (maxCIDLen <? n) || (seq <? retirePrior) then Err errFrameEncoding
  else Ok (FNewConnectionID seq retirePrior cid token, r).

Fixpoint skip_zeros (b : bytes) : bytes :=
  match b with
  | 0 :: b => skip_zeros b
  | _ => b
  end.

(** The body of a frame of type [typ]. *)
Definition readBody (isClient : bool) (exp typ : Z) (r : reader) : result Z (qframe * reader) :=
  if typ =? framePadding then Ok (FPadding, Reader (skip_zeros (r_b r)) (r_bad r))
  else if typ =? framePing then Ok (FPing, r)
  else if (typ =? frameAck) || (typ =? frameAckECN) then readAck r (typ =? frameAckECN) exp
  else if typ =? frameResetStream then
    let '(id, r) := reader_varint r in
    let '(code, r) := reader_varint r in
    let '(size, r) := reader_varint r in Ok (FResetStream id code size, r)
  else if typ =? frameStopSending then
    let '(id, r) := reader_varint r in
    let '(code, r) := reader_varint r in Ok (FStopSending id code, r)
  else if typ =? frameCrypto then
    let '(off, r) := reader_varint r in
    let '(n, r) := reader_varint r in
    let '(data, r) := reader_bytes n r in Ok (FCrypto off data, r)
  else if typ =? frameNewToken then
    let '(n, r) := reader_varint r in
    let '(token, r) := reader_bytes n r in
    if negb isClient then Err errProtocolViolation
    else if negb (r_bad r) && (len token =? 0) then Err errFrameEncoding
    else Ok (FNewToken token, r)
  else if (frameStream <=? typ) && (typ <=? Z.lor frameStream 7) then
    let '(id, r) := reader_varint r in
    let '(off, r) := if negb (Z.land typ 0x04 =? 0) then reader_varint r else (0, r) in
    let '(data, r) :=
      if negb (Z.land typ 0x02 =? 0)
      then let '(n, r) := reader_varint r in reader_bytes n r
      else (r_b r, Reader [] (r_bad r)) in
    Ok (FStream id off data (negb (Z.land typ 0x01 =? 0)), r)
  else if typ =? frameMaxData then let '(max, r) := reader_varint r in Ok (FMaxData max, r)
  else if typ =? frameMaxStreamData then
    let '(id, r) := reader_varint r in
    let '(max, r) := reader_varint r in Ok (FMaxStreamData id max, r)
  else if (typ =? frameMaxStreamsBidi) || (typ =? frameMaxStreamsUni) then
    let '(max, r) := reader_varint r in
    if 2 ^ 60 <? max then Err errFrameEncoding else Ok (FMaxStreams (typ =? frameMaxStreamsUni) max, r)
  else if typ =? frameDataBlocked then Ok (FBlocked, snd (reader_varint r))
  else if typ =? frameStreamDataBlocked then Ok (FBlocked, snd (reader_varint (snd (reader_varint r))))
  else if (typ =? frameStreamsBlockedBidi) || (typ =? frameStreamsBlockedUni) then Ok (FBlocked, snd (reader_varint r))
  else if typ =? frameNewConnectionID then readNewConnectionID r
  else if typ =? frameRetireConnectionID then Ok (FRetireConnectionID, snd (reader_varint r))
  else if typ =? framePathChallenge then
    let '(data, r) := reader_bytes 8 r in Ok (FPathChallenge data, r)
  else if typ =? framePathResponse then Ok (FPathResponse, snd (reader_bytes 8 r))
  else if (typ =? frameConnectionClose) || (typ =? frameConnectionCloseApp) then
    let '(code, r) := reader_varint r in
    let r := if typ =? frameConnectionClose then snd (reader_varint r) else r in
    let '(n, r) := reader_varint r in
    let '(reason, r) := reader_bytes n r in
    Ok (FConnectionClose (typ =? frameConnectionCloseApp) code reason, r)
  else if typ =? frameHandshakeDone then
    if negb isClient then Err errProtocolViolation else Ok (FHandshakeDone, r)
  else Err errFrameEncoding.

Definition eliciting (typ : Z) : bool :=
  negb (typ =? framePadding) && negb (typ =? frameAck) && negb (typ =? frameAckECN) &&
  negb (typ =? frameConnectionClose) && negb (typ =? frameConnectionCloseApp).

Definition handshake_frame (typ : Z) : bool :=
  (typ =? framePadding) || (typ =? framePing) || (typ =? frameAck) || (typ =? frameAckECN) ||
  (typ =? frameCrypto) || (typ =? frameConnectionClose).

(** One round of [handleFrames]: the frame, whether it asks for an
    acknowledgement, and the reader left.  [app] says the packet is 1-RTT. *)
Definition readFrame (app isClient : bool) (exp : Z) (r : reader) : result Z (qframe * bool * reader) :=
  let '(typ, r) := reader_varint r in
  if r_bad r then Err errFrameEncoding
  else if negb app && negb (handshake_frame typ) then Err errProtocolViolation
  else
    let! (f, r) := readBody isClient exp typ r in
    if r_bad r then Err errFrameEncoding else Ok (f, eliciting typ, r).

(** The loop over a payload. Every frame takes at least its type byte, so the
    length is fuel enough; [None] would be a lack of it. *)
Fixpoint readFrames_loop (fuel : nat) (app isClient : bool) (exp : Z) (r : reader) (fs : list qframe) (ackEliciting : bool)
  : option (result Z (list qframe * bool)) :=
  match r_b r with
  | [] => Some (Ok (fs, ackEliciting))
  | _ =>
      match fuel with
      | O => None
      | S fuel =>
          match readFrame app isClient exp r with
          | Err e => Some (Err e)
          | Ok (f, el, r) => readFrames_loop fuel app isClient exp r (fs ++ [f]) (ackEliciting || el)
          end
      end
  end.

Definition readFrames (app isClient : bool) (exp : Z) (payload : bytes) : option (result Z (list qframe * bool)) :=
  if len payload =? 0 then Some (Err errProtocolViolation)
  else readFrames_loop (length payload) app isClient exp (Reader payload false) [] false.

(** * Acknowledgement ranges *)

(** Descending ranges with at least one packet number missing between them, all
    below [prev - 1]. *)
Fixpoint desc_ok (prev : Z) (rs : list pnRange) : Prop :=
  match rs with
  | [] => True
  | x :: rs => 0 <= lo x <= hi x /\ hi x + 2 <= prev /\ desc_ok (lo x) rs
  end.

Lemma desc_ok_snoc prev o x :
  desc_ok prev o -> 0 <= lo x <= hi x -> hi x + 2 <= prev -> (forall y, y ∈ o -> hi x + 2 <= lo y) -> desc_ok prev (o ++ [x]).
Proof.
  revert prev. induction o as [|y o IH]; intros prev Ho Hx Hp Hy; cbn; [lia|].
  destruct Ho as (? & ? & Ho). split; [done|]. split; [done|]. apply IH; [done|done| |].
  - apply Hy. set_solver.
  - intros z Hz. apply Hy. set_solver.
Qed.

Lemma ranges_ok_lo l r x : ranges_ok l r -> x ∈ r -> l < lo x /\ lo x <= hi x < 2 ^ 62.
Proof.
  revert l. induction r as [|y r IH]; intros l Hr Hx; [set_solver|]. destruct Hr as (? & ? & Hr).
  apply elem_of_cons in Hx as [->|Hx]; [done|]. destruct (IH _ Hr Hx). lia.
Qed.

Lemma ranges_desc l r prev :
  -1 <= l -> ranges_ok l r -> (forall x, x ∈ r -> hi x + 2 <= prev) -> desc_ok prev (reverse r).
Proof.
  revert l. induction r as [|x r IH]; intros l Hl Hr Hp; [done|]. rewrite reverse_cons.
  destruct Hr as (? & ? & Hr). apply desc_ok_snoc.
  - apply (IH (hi x + 1)); [lia|done|]. intros y Hy. apply Hp. set_solver.
  - lia.
  - apply Hp. set_solver.
  - intros y Hy. rewrite elem_of_reverse in Hy. destruct (ranges_ok_lo _ _ _ Hr Hy). lia.
Qed.

Lemma appendAck_loop_app b older prev : appendAck_loop b older prev = b ++ appendAck_loop [] older prev.
Proof.
  revert b prev. induction older as [|x older IH]; intros b prev; cbn; [by rewrite app_nil_r|].
  rewrite IH, (IH (AppendVarint _ _)). rewrite (AppendVarint_app (AppendVarint b _)), (AppendVarint_app b),
    (AppendVarint_app (AppendVarint [] _)). by rewrite <- !(assoc_L (++)).
Qed.

(** Read what was appended: a step of a round trip. *)
Ltac read_back := rewrite reader_varint_enc by (unfold maxVarint in *; lia).

Lemma readAck_loop_enc older prev acc rest :
  desc_ok prev older -> prev < 2 ^ 62 + 2 ->
  readAck_loop (length older) prev acc (Reader (appendAck_loop [] older prev ++ rest) false)
  = Ok (acc ++ older, Reader rest false).
Proof.
  revert prev acc. induction older as [|x older IH]; intros prev acc Hd Hp; cbn [appendAck_loop readAck_loop length].
  { by rewrite app_nil_r. }
  destruct Hd as (Hx & Hh & Hd). rewrite !u64_small by lia.
  rewrite appendAck_loop_app, (AppendVarint_app (AppendVarint _ _)), <- !(assoc_L (++)).
  do 2 read_back. cbn [r_bad orb].
  rewrite (u64_small (prev - hi x - 2 + 2)) by lia.
  destruct (Z.ltb_spec prev (prev - hi x - 2 + 2)); [lia|]. cbn [orb].
  replace (prev - (prev - hi x - 2)) with (hi x + 2) by lia. rewrite (u64_small (hi x + 2)) by lia.
  replace (hi x + 2 - 2) with (hi x) by lia. rewrite (u64_small (hi x)) by lia.
  destruct (Z.ltb_spec (hi x) (hi x - lo x)); [lia|].
  replace (hi x - (hi x - lo x)) with (lo x) by lia. rewrite u64_small by lia.
  rewrite IH by (done || lia). rewrite <- (assoc_L (++)). by destruct x.
Qed.

Lemma readAck_enc r delay exp rest b :
  ranges_ok (-1) r -> len r <= maxAckRanges -> 0 <= delay <= maxVarint -> appendAck [] r delay = Some b ->
  exists body, b = frameAck :: body /\
    readAck (Reader (body ++ rest) false) false exp
    = Ok (FAck (reverse r) (i64 (i64 (u64 (Z.shiftl delay exp)) * 1000)), Reader rest false).
Proof.
  intros Hr Hl Hd. unfold appendAck. destruct (reverse r) as [|x older] eqn:E; [done|].
  assert (Hlen : len r = 1 + len older) by (rewrite <- (len_cons x), <- E; unfold len; by rewrite length_reverse).
  assert (Hxr : x ∈ r) by (rewrite <- elem_of_reverse, E; set_solver).
  destruct (ranges_ok_lo _ _ _ Hr Hxr) as [? ?].
  assert (Hdesc : desc_ok (2 ^ 62 + 1) (x :: older)).
  { rewrite <- E. apply (ranges_desc (-1)); [lia|done|]. intros y Hy. destruct (ranges_ok_lo _ _ _ Hr Hy). lia. }
  destruct Hdesc as (Hx & _ & Hdo). unfold maxAckRanges in Hl. pose proof (len_nonneg older).
  intros [= <-]. cbn [app]. eexists. rewrite appendAck_loop_app, (AppendVarint_app (AppendVarint _ _)),
    (AppendVarint_app (AppendVarint _ _)), (AppendVarint_app (AppendVarint _ _)), (AppendVarint_app [frameAck]).
  split; [rewrite <- !(assoc_L (++)); reflexivity|].
  rewrite (u64_small (len r - 1)), (u64_small (hi x - lo x)) by lia. rewrite <- !(assoc_L (++)). unfold readAck. do 4 read_back. cbn [r_bad orb].
  destruct (Z.ltb_spec (hi x) (hi x - lo x)); [lia|]. destruct (Z.ltb_spec (2 ^ 16) (len r - 1)); [lia|]. cbn [orb].
  replace (hi x - (hi x - lo x)) with (lo x) by lia. rewrite (u64_small (lo x)) by lia.
  replace (Z.to_nat (len r - 1)) with (length older) by (unfold len in *; lia).
  rewrite readAck_loop_enc by (done || lia). cbn [app r_bad]. by destruct x.
Qed.

(** What an accepted ACK can claim. *)
Lemma readAck_loop_sound count smallest acc r ranges r' prev :
  bytes_ok (r_b r) -> 0 <= smallest < 2 ^ 62 -> desc_ok prev acc ->
  (exists a l, acc = a ++ [PnRange smallest l]) ->
  readAck_loop count smallest acc r = Ok (ranges, r') -> desc_ok prev ranges /\ exists more, ranges = acc ++ more.
Proof.
  revert smallest acc r. induction count as [|count IH]; intros smallest acc r Hb Hs Hd Ha; cbn [readAck_loop].
  { intros [= <- <-]. split; [done|]. exists []. by rewrite app_nil_r. }
  destruct (reader_varint r) as [gap r1] eqn:E1. destruct (reader_varint_range _ _ _ Hb E1) as [Hg Hb1].
  destruct (reader_varint r1) as [length r2] eqn:E2. destruct (reader_varint_range _ _ _ Hb1 E2) as [Hl Hb2].
  unfold maxVarint in *. rewrite (u64_small (gap + 2)) by lia.
  destruct (r_bad r2); [done|]. cbn [orb]. destruct (Z.ltb_spec smallest (gap + 2)); [done|]. cbn [orb].
  rewrite (u64_small (smallest - gap)), (u64_small (smallest - gap - 2)) by lia.
  destruct (Z.ltb_spec (smallest - gap - 2) length); [done|]. rewrite u64_small by lia.
  intros H1. apply IH in H1 as [H1 [more ->]]; [|done|lia| |by eexists _, _].
  - split; [done|]. eexists. by rewrite <- (assoc_L (++)).
  - destruct Ha as (a & l & ->). revert Hd. clear -H H0 Hs Hg Hl. revert prev.
    induction a as [|y a IH]; intros prev; cbn [app desc_ok lo hi]; [intuition lia|].
    intros (? & ? & ?). split; [done|]. split; [done|]. by apply IH.
Qed.

(** An ACK cannot claim nonsense.  Whatever bytes arrive, the ranges of an
    accepted ACK are non-empty, descend, leave a gap between each other and
    stay between zero and the largest packet number a varint holds: the
    subtractions of [handleAckFrame] never wrap around. *)
Theorem ack_sound r ecn exp f r' :
  bytes_ok (r_b r) -> readAck r ecn exp = Ok (f, r') ->
  exists x older delay, f = FAck (x :: older) delay /\ 0 <= lo x <= hi x /\ hi x <= maxVarint /\ desc_ok (lo x) older.
Proof.
  intros Hb. unfold readAck.
  destruct (reader_varint r) as [largest r1] eqn:E1. destruct (reader_varint_range _ _ _ Hb E1) as [H1 Hb1].
  destruct (reader_varint r1) as [delay r2] eqn:E2. destruct (reader_varint_range _ _ _ Hb1 E2) as [H2 Hb2].
  destruct (reader_varint r2) as [count r3] eqn:E3. destruct (reader_varint_range _ _ _ Hb2 E3) as [H3 Hb3].
  destruct (reader_varint r3) as [first r4] eqn:E4. destruct (reader_varint_range _ _ _ Hb3 E4) as [H4 Hb4].
  destruct (r_bad r4); [done|]. cbn [orb]. destruct (Z.ltb_spec largest first); [done|]. cbn [orb].
  destruct (2 ^ 16 <? count); [done|]. unfold maxVarint in *. rewrite u64_small by lia.
  destruct (readAck_loop _ _ _ _) as [[ranges r5]|] eqn:El; [|done].
  apply (readAck_loop_sound _ _ _ _ _ _ (largest + 2)) in El as [Hd [more ->]]; [|done|lia|cbn; lia|by exists [], largest].
  destruct (r_bad _); [done|]. intros [= <- <-]. destruct Hd as (Hx & _ & Hd).
  eexists _, _, _. split; [done|]. split; [done|]. split; [cbn; lia|done].
Qed.

Lemma ack_sound_witness :
  exists x older delay, FAck [PnRange 8 9; PnRange 3 5] 0 = FAck (x :: older) delay /\ 0 <= lo x <= hi x /\
    hi x <= maxVarint /\ desc_ok (lo x) older.
Proof.
  apply (ack_sound (Reader [9; 0; 1; 1; 1; 2] false) false 3 _ (Reader [] false)).
  - cbn. repeat (constructor; [unfold byte_ok; lia|]). constructor.
  - vm_compute. reflexivity.
Defined.

(** The delay of an ACK can come out negative.  The field is shifted and
    scaled to nanoseconds in 64 bits, so a large one wraps: a frame of a dozen
    bytes is read as an acknowledgement delayed by minus 27 years, which
    [rttStats.update] then adds to the round-trip time. *)
Theorem ack_delay_negative :
  exists ranges delay r,
    readAck (Reader (AppendVarint (AppendVarint (AppendVarint (AppendVarint [] 9) (2 ^ 52)) 0) 0) false) false 3
    = Ok (FAck ranges delay, r) /\ delay < - (27 * 365 * 86400 * 10 ^ 9).
Proof. eexists _, _, _. split; [vm_compute; reflexivity|]. lia. Qed.

(** * Round trip *)

(** The frames of this file's encoders. *)
Inductive out_frame :=
| OStopSending (id code : Z)
| OMaxStreamData (id max : Z)
| OResetStream (id code size : Z)
| OClose (err : close_error) (oneRTT : bool)
| OAck (r : rangeSet) (delay : Z).

Definition append_out (b : bytes) (f : out_frame) : bytes :=
  match f with
  | OStopSending id code => appendStopSending b id code
  | OMaxStreamData id max => appendMaxStreamData b id max
  | OResetStream id code size => appendResetStream b id code size
  | OClose err oneRTT => appendConnectionClose b err oneRTT
  | OAck r delay => default b (appendAck b r delay)
  end.

Definition vint_ok (v : Z) : Prop := 0 <= v <= maxVarint.

Definition out_ok (f : out_frame) : Prop :=
  match f with
  | OStopSending id code => vint_ok id /\ vint_ok code
  | OMaxStreamData id max => vint_ok id /\ vint_ok max
  | OResetStream id code size => vint_ok id /\ vint_ok code /\ vint_ok size
  | OClose (ApplicationError code reason) _ => vint_ok code /\ len reason <= maxVarint
  | OClose (TransportError code reason) _ => vint_ok code
  | OClose OtherError _ => True
  | OAck r delay => ranges_ok (-1) r /\ r <> [] /\ len r <= maxAckRanges /\ vint_ok delay
  end.

(** What the peer reads: an application close outside 1-RTT is hidden behind
    APPLICATION_ERROR, and a long transport reason is cut. *)
Definition read_as (exp : Z) (f : out_frame) : qframe :=
  match f with
  | OStopSending id code => FStopSending id code
  | OMaxStreamData id max => FMaxStreamData id max
  | OResetStream id code size => FResetStream id code size
  | OClose (ApplicationError code reason) true => FConnectionClose true code reason
  | OClose (ApplicationError _ _) false => FConnectionClose false errApplication []
  | OClose (TransportError code reason) _ => FConnectionClose false code (take 256 reason)
  | OClose OtherError _ => FConnectionClose false errInternal []
  | OAck r delay => FAck (reverse r) (i64 (i64 (u64 (Z.shiftl delay exp)) * 1000))
  end.

Definition out_eliciting (f : out_frame) : bool := match f with OClose _ _ | OAck _ _ => false | _ => true end.

(** Write an encoding as a concatenation of single varints. *)
Ltac flatten :=
  repeat match goal with
    | |- context [AppendVarint ?b ?v] => lazymatch b with [] => fail | _ => rewrite (AppendVarint_app b v) end
    | |- context [appendAck_loop ?b ?o ?p] => lazymatch b with [] => fail | _ => rewrite (appendAck_loop_app b o p) end
    end; rewrite <- ?(assoc_L (++)), ?app_nil_l.

Lemma append_out_app b f : append_out b f = b ++ append_out [] f.
Proof.
  destruct f as [| | |[] []|r d]; cbn [append_out appendConnectionClose];
    unfold appendStopSending, appendMaxStreamData, appendResetStream, appendAck; try (by flatten).
  destruct (reverse r) as [|x o]; [by rewrite app_nil_r|]. cbn [default from_option id]. by flatten.
Qed.

(** The type byte of a frame is read back as its type. *)
Lemma read_type t rest : 0 <= t < 64 -> reader_varint (Reader ([t] ++ rest) false) = (t, Reader rest false).
Proof.
  intros Ht. replace [t] with (AppendVarint [] t); [read_back; done|].
  unfold AppendVarint. destruct (Z.ltb_spec t (2 ^ 6)); [|lia]. by rewrite u8_small by (unfold byte_ok; lia).
Qed.

Lemma readFrame_enc isClient exp f rest :
  out_ok f -> readFrame true isClient exp (Reader (append_out [] f ++ rest) false)
  = Ok (read_as exp f, out_eliciting f, Reader rest false).
Proof.
  destruct f as [id code|id max|id code size|[code reason|code reason|] []|r d];
    cbn [append_out appendConnectionClose out_ok]; unfold vint_ok; intros Hf.
  10: { destruct Hf as (Hr & Hne & Hl & Hd).
    destruct (appendAck [] r d) as [b|] eqn:E.
    - destruct (readAck_enc r d exp rest b Hr Hl Hd E) as (body & -> & H). cbn [default from_option id].
      change (frameAck :: body) with ([frameAck] ++ body). unfold readFrame.
      rewrite <- (assoc_L (++)), read_type by (unfold frameAck; lia). cbn [r_bad negb andb].
      change (readBody isClient exp frameAck) with (fun r => readAck r false exp). cbv beta. rewrite H. done.
    - unfold appendAck in E. destruct (reverse r) eqn:Er; [|done]. destruct Hne.
      rewrite <- (reverse_involutive r), Er. done. }
  all: try replace (if 256 <? len reason then take 256 reason else reason) with (take 256 reason)
    by (destruct (Z.ltb_spec 256 (len reason)); [done|]; unfold len in *; rewrite take_ge by lia; done).
  all: try (pose proof (len_take 256 reason); pose proof (len_nonneg (take 256 reason))).
  all: try pose proof (len_nonneg reason).
  all: unfold appendStopSending, appendMaxStreamData, appendResetStream; flatten; rewrite <- ?(assoc_L (++)), ?app_nil_l.
  all: unfold readFrame; rewrite read_type by (cbv; split; congruence); cbn [r_bad negb andb].
  all: unfold readBody; cbn -[reader_varint AppendVarint reader_bytes len take maxVarint].
  all: try change (frameMaxStreamData <=? Z.lor frameStream 7) with false.
  all: try change (frameConnectionClose <=? Z.lor frameStream 7) with false.
  all: try change (frameConnectionCloseApp <=? Z.lor frameStream 7) with false.
  all: unfold errApplication, errInternal; cbn iota; repeat read_back; cbn [snd]; repeat read_back.
  all: try rewrite reader_bytes_app by done; cbn [r_bad]; done || idtac.
  all: by destruct rest.
Qed.

(** Frames are read back.  A 1-RTT payload made of acknowledgements, resets,
    flow-control updates and a close is read as exactly those frames, in order:
    an ACK gives back every range of the set, and what a close says to the peer
    is what [appendConnectionClose] promises for its kind of error. The payload
    asks for an acknowledgement exactly if one of its frames does. *)
Theorem frames_roundtrip isClient exp fs :
  fs <> [] -> Forall out_ok fs ->
  readFrames true isClient exp (fold_left append_out fs [])
  = Some (Ok (read_as exp <$> fs, existsb out_eliciting fs)).
Proof.
  intros Hne Hok. unfold readFrames.
  assert (Happ : forall fs b, fold_left append_out fs b = b ++ (fs ≫= append_out [])).
  { clear. intros fs. induction fs as [|f fs IH]; intros b; cbn [fold_left]; [by rewrite app_nil_r|].
    rewrite IH, append_out_app, bind_cons. by rewrite <- (assoc_L (++)). }
  assert (Hpos : forall f, out_ok f -> 1 <= len (append_out [] f)).
  { intros f Hf. pose proof (readFrame_enc isClient exp f [] Hf) as H. rewrite app_nil_r in H.
    destruct (append_out [] f); [cbn in H; done|]. rewrite len_cons. pose proof (len_nonneg l). lia. }
  rewrite Happ, app_nil_l. destruct (Z.eqb_spec (len (fs ≫= append_out [])) 0) as [E|_].
  { destruct fs as [|f fs]; [done|]. apply Forall_cons in Hok as [Hf _]. rewrite bind_cons, len_app in E.
    pose proof (Hpos f Hf). pose proof (len_nonneg (fs ≫= append_out [])). lia. }
  enough (H : forall fuel acc el, (length (fs ≫= append_out []) <= fuel)%nat ->
    readFrames_loop fuel true isClient exp (Reader (fs ≫= append_out []) false) acc el
    = Some (Ok (acc ++ (read_as exp <$> fs), el || existsb out_eliciting fs))) by (by rewrite H).
  clear Hne. induction Hok as [|f fs Hf Hok IH]; intros fuel acc el Hfuel.
  { destruct fuel; cbn; rewrite app_nil_r, orb_false_r; done. }
  rewrite bind_cons in *. pose proof (Hpos f Hf) as Hp. pose proof (readFrame_enc isClient exp f (fs ≫= append_out []) Hf) as Hr.
  rewrite length_app in Hfuel. unfold len in Hp. destruct fuel as [|fuel]; [lia|]. cbn [readFrames_loop r_b].
  destruct (append_out [] f ++ (fs ≫= append_out [])) as [|b tl] eqn:E.
  { apply (f_equal length) in E. rewrite length_app in E. cbn in E. lia. }
  rewrite Hr, IH by lia. cbn [fmap list_fmap existsb]. by rewrite <- (assoc_L (++)), orb_assoc.
Qed.

Lemma frames_roundtrip_witness :
  readFrames true false 3 (fold_left append_out
    [OAck [PnRange 0 4; PnRange 7 7; PnRange 9 12] 5; OResetStream 4 9 100; OClose (ApplicationError 2 [104; 105]) true] [])
  = Some (Ok ([FAck [PnRange 9 12; PnRange 7 7; PnRange 0 4] 40000; FResetStream 4 9 100; FConnectionClose true 2 [104; 105]], true)).
Proof.
  rewrite (frames_roundtrip false 3).
  - reflexivity.
  - done.
  - repeat apply Forall_cons_2; [..|apply Forall_nil_2]; unfold out_ok, vint_ok, maxVarint, maxAckRanges.
    + split; [cbn; lia|]. split; [done|]. split; [unfold len; cbn; lia|lia].
    + lia.
    + unfold len. cbn. lia.
Defined.
