(* ===== verification/QuicParams.v ===== *)
(** QUIC transport parameters (src/go/http3/internal/quic/params.go): what each
    side tells the other during the handshake, its encoding and its parser.

    A [time.Duration] is an [int64] of nanoseconds, with its wrap-around.  A nil
    slice and an empty one differ only for the reset token, which is an option.
    An error is its transport error code. *)
From S2P Require Import Prelude.
From S2P Require Import Varint.

Definition errTransportParameter : Z := 0x08.
Definition statelessResetTokenLen : Z := 16.
Definition Millisecond : Z := 1000000.

Definition paramOriginalDCID : Z := 0x00.
Definition paramMaxIdleTimeout : Z := 0x01.
Definition paramStatelessResetToken : Z := 0x02.
Definition paramMaxUDPPayloadSize : Z := 0x03.
Definition paramInitialMaxData : Z := 0x04.
Definition paramMaxStreamDataBidiLoc : Z := 0x05.
Definition paramMaxStreamDataBidiRem : Z := 0x06.
Definition paramMaxStreamDataUni : Z := 0x07.
Definition paramInitialMaxStreamsBidi : Z := 0x08.
Definition paramInitialMaxStreamsUni : Z := 0x09.
Definition paramAckDelayExponent : Z := 0x0a.
Definition paramMaxAckDelay : Z := 0x0b.
Definition paramDisableMigration : Z := 0x0c.
Definition paramPreferredAddress : Z := 0x0d.
Definition paramActiveCIDLimit : Z := 0x0e.
Definition paramInitialSCID : Z := 0x0f.
Definition paramRetrySCID : Z := 0x10.

Record transportParams := Params {
  originalDCID : bytes;
  initialSCID : bytes;
  retrySCID : bytes;
  hasOriginalDCID : bool;
  hasInitialSCID : bool;
  hasRetrySCID : bool;
  statelessResetToken : option bytes;
  maxIdleTimeout : Z;
  maxUDPPayloadSize : Z;
  initialMaxData : Z;
  maxStreamDataBidiL : Z;
  maxStreamDataBidiR : Z;
  maxStreamDataUni : Z;
  maxStreamsBidi : Z;
  maxStreamsUni : Z;
  ackDelayExponent : Z;
  maxAckDelay : Z;
  disableMigration : bool;
  activeCIDLimit : Z;
}.

Definition defaultParams : transportParams :=
  Params [] [] [] false false false None 0 65527 0 0 0 0 0 0 3 (25 * Millisecond) false 2.

Definition set_originalDCID (v : bytes) (vh : bool) (p : transportParams) : transportParams :=
  Params v (initialSCID p) (retrySCID p) vh (hasInitialSCID p) (hasRetrySCID p) (statelessResetToken
    p) (maxIdleTimeout p) (maxUDPPayloadSize p) (initialMaxData p) (maxStreamDataBidiL p)
    (maxStreamDataBidiR p) (maxStreamDataUni p) (maxStreamsBidi p) (maxStreamsUni p)
    (ackDelayExponent p) (maxAckDelay p) (disableMigration p) (activeCIDLimit p).
Definition set_maxIdleTimeout (v : Z) (p : transportParams) : transportParams :=
  Params (originalDCID p) (initialSCID p) (retrySCID p) (hasOriginalDCID p) (hasInitialSCID p)
    (hasRetrySCID p) (statelessResetToken p) v (maxUDPPayloadSize p) (initialMaxData p)
    (maxStreamDataBidiL p) (maxStreamDataBidiR p) (maxStreamDataUni p) (maxStreamsBidi p)
    (maxStreamsUni p) (ackDelayExponent p) (maxAckDelay p) (disableMigration p) (activeCIDLimit p).
Definition set_statelessResetToken (v : option bytes) (p : transportParams) : transportParams :=
  Params (originalDCID p) (initialSCID p) (retrySCID p) (hasOriginalDCID p) (hasInitialSCID p)
    (hasRetrySCID p) v (maxIdleTimeout p) (maxUDPPayloadSize p) (initialMaxData p)
    (maxStreamDataBidiL p) (maxStreamDataBidiR p) (maxStreamDataUni p) (maxStreamsBidi p)
    (maxStreamsUni p) (ackDelayExponent p) (maxAckDelay p) (disableMigration p) (activeCIDLimit p).
Definition set_maxUDPPayloadSize (v : Z) (p : transportParams) : transportParams :=
  Params (originalDCID p) (initialSCID p) (retrySCID p) (hasOriginalDCID p) (hasInitialSCID p)
    (hasRetrySCID p) (statelessResetToken p) (maxIdleTimeout p) v (initialMaxData p)
    (maxStreamDataBidiL p) (maxStreamDataBidiR p) (maxStreamDataUni p) (maxStreamsBidi p)
    (maxStreamsUni p) (ackDelayExponent p) (maxAckDelay p) (disableMigration p) (activeCIDLimit p).
Definition set_initialMaxData (v : Z) (p : transportParams) : transportParams :=
  Params (originalDCID p) (initialSCID p) (retrySCID p) (hasOriginalDCID p) (hasInitialSCID p)
    (hasRetrySCID p) (statelessResetToken p) (maxIdleTimeout p) (maxUDPPayloadSize p) v
    (maxStreamDataBidiL p) (maxStreamDataBidiR p) (maxStreamDataUni p) (maxStreamsBidi p)
    (maxStreamsUni p) (ackDelayExponent p) (maxAckDelay p) (disableMigration p) (activeCIDLimit p).
Definition set_maxStreamDataBidiL (v : Z) (p : transportParams) : transportParams :=
  Params (originalDCID p) (initialSCID p) (retrySCID p) (hasOriginalDCID p) (hasInitialSCID p)
    (hasRetrySCID p) (statelessResetToken p) (maxIdleTimeout p) (maxUDPPayloadSize p)
    (initialMaxData p) v (maxStreamDataBidiR p) (maxStreamDataUni p) (maxStreamsBidi p)
    (maxStreamsUni p) (ackDelayExponent p) (maxAckDelay p) (disableMigration p) (activeCIDLimit p).
Definition set_maxStreamDataBidiR (v : Z) (p : transportParams) : transportParams :=
  Params (originalDCID p) (initialSCID p) (retrySCID p) (hasOriginalDCID p) (hasInitialSCID p)
    (hasRetrySCID p) (statelessResetToken p) (maxIdleTimeout p) (maxUDPPayloadSize p)
    (initialMaxData p) (maxStreamDataBidiL p) v (maxStreamDataUni p) (maxStreamsBidi p)
    (maxStreamsUni p) (ackDelayExponent p) (maxAckDelay p) (disableMigration p) (activeCIDLimit p).
Definition set_maxStreamDataUni (v : Z) (p : transportParams) : transportParams :=
  Params (originalDCID p) (initialSCID p) (retrySCID p) (hasOriginalDCID p) (hasInitialSCID p)
    (hasRetrySCID p) (statelessResetToken p) (maxIdleTimeout p) (maxUDPPayloadSize p)
    (initialMaxData p) (maxStreamDataBidiL p) (maxStreamDataBidiR p) v (maxStreamsBidi p)
    (maxStreamsUni p) (ackDelayExponent p) (maxAckDelay p) (disableMigration p) (activeCIDLimit p).
Definition set_maxStreamsBidi (v : Z) (p : transportParams) : transportParams :=
  Params (originalDCID p) (initialSCID p) (retrySCID p) (hasOriginalDCID p) (hasInitialSCID p)
    (hasRetrySCID p) (statelessResetToken p) (maxIdleTimeout p) (maxUDPPayloadSize p)
    (initialMaxData p) (maxStreamDataBidiL p) (maxStreamDataBidiR p) (maxStreamDataUni p) v
    (maxStreamsUni p) (ackDelayExponent p) (maxAckDelay p) (disableMigration p) (activeCIDLimit p).
Definition set_maxStreamsUni (v : Z) (p : transportParams) : transportParams :=
  Params (originalDCID p) (initialSCID p) (retrySCID p) (hasOriginalDCID p) (hasInitialSCID p)
    (hasRetrySCID p) (statelessResetToken p) (maxIdleTimeout p) (maxUDPPayloadSize p)
    (initialMaxData p) (maxStreamDataBidiL p) (maxStreamDataBidiR p) (maxStreamDataUni p)
    (maxStreamsBidi p) v (ackDelayExponent p) (maxAckDelay p) (disableMigration p) (activeCIDLimit
    p).
Definition set_ackDelayExponent (v : Z) (p : transportParams) : transportParams :=
  Params (originalDCID p) (initialSCID p) (retrySCID p) (hasOriginalDCID p) (hasInitialSCID p)
    (hasRetrySCID p) (statelessResetToken p) (maxIdleTimeout p) (maxUDPPayloadSize p)
    (initialMaxData p) (maxStreamDataBidiL p) (maxStreamDataBidiR p) (maxStreamDataUni p)
    (maxStreamsBidi p) (maxStreamsUni p) v (maxAckDelay p) (disableMigration p) (activeCIDLimit p).
Definition set_maxAckDelay (v : Z) (p : transportParams) : transportParams :=
  Params (originalDCID p) (initialSCID p) (retrySCID p) (hasOriginalDCID p) (hasInitialSCID p)
    (hasRetrySCID p) (statelessResetToken p) (maxIdleTimeout p) (maxUDPPayloadSize p)
    (initialMaxData p) (maxStreamDataBidiL p) (maxStreamDataBidiR p) (maxStreamDataUni p)
    (maxStreamsBidi p) (maxStreamsUni p) (ackDelayExponent p) v (disableMigration p) (activeCIDLimit
    p).
Definition set_disableMigration (v : bool) (p : transportParams) : transportParams :=
  Params (originalDCID p) (initialSCID p) (retrySCID p) (hasOriginalDCID p) (hasInitialSCID p)
    (hasRetrySCID p) (statelessResetToken p) (maxIdleTimeout p) (maxUDPPayloadSize p)
    (initialMaxData p) (maxStreamDataBidiL p) (maxStreamDataBidiR p) (maxStreamDataUni p)
    (maxStreamsBidi p) (maxStreamsUni p) (ackDelayExponent p) (maxAckDelay p) v (activeCIDLimit p).
Definition set_activeCIDLimit (v : Z) (p : transportParams) : transportParams :=
  Params (originalDCID p) (initialSCID p) (retrySCID p) (hasOriginalDCID p) (hasInitialSCID p)
    (hasRetrySCID p) (statelessResetToken p) (maxIdleTimeout p) (maxUDPPayloadSize p)
    (initialMaxData p) (maxStreamDataBidiL p) (maxStreamDataBidiR p) (maxStreamDataUni p)
    (maxStreamsBidi p) (maxStreamsUni p) (ackDelayExponent p) (maxAckDelay p) (disableMigration p) v.
Definition set_initialSCID (v : bytes) (vh : bool) (p : transportParams) : transportParams :=
  Params (originalDCID p) v (retrySCID p) (hasOriginalDCID p) vh (hasRetrySCID p)
    (statelessResetToken p) (maxIdleTimeout p) (maxUDPPayloadSize p) (initialMaxData p)
    (maxStreamDataBidiL p) (maxStreamDataBidiR p) (maxStreamDataUni p) (maxStreamsBidi p)
    (maxStreamsUni p) (ackDelayExponent p) (maxAckDelay p) (disableMigration p) (activeCIDLimit p).
Definition set_retrySCID (v : bytes) (vh : bool) (p : transportParams) : transportParams :=
  Params (originalDCID p) (initialSCID p) v (hasOriginalDCID p) (hasInitialSCID p) vh
    (statelessResetToken p) (maxIdleTimeout p) (maxUDPPayloadSize p) (initialMaxData p)
    (maxStreamDataBidiL p) (maxStreamDataBidiR p) (maxStreamDataUni p) (maxStreamsBidi p)
    (maxStreamsUni p) (ackDelayExponent p) (maxAckDelay p) (disableMigration p) (activeCIDLimit p).

(** * Encoding *)

Definition appendParamVarint (b : bytes) (id v : Z) : bytes :=
  AppendVarint (AppendVarint (AppendVarint b id) (VarintLen v)) v.

Definition appendParamBytes (b : bytes) (id : Z) (v : bytes) : bytes :=
  AppendVarint (AppendVarint b id) (len v) ++ v.

Definition encode (p : transportParams) : bytes :=
  let b := [] in
  let b := if hasOriginalDCID p then appendParamBytes b paramOriginalDCID (originalDCID p) else b in
  let b := if 0 <? maxIdleTimeout p
           then appendParamVarint b paramMaxIdleTimeout (u64 (Z.quot (maxIdleTimeout p) Millisecond)) else b in
  let b := match statelessResetToken p with
           | Some token => appendParamBytes b paramStatelessResetToken token | None => b end in
  let b := appendParamVarint b paramInitialMaxData (initialMaxData p) in
  let b := appendParamVarint b paramMaxStreamDataBidiLoc (maxStreamDataBidiL p) in
  let b := appendParamVarint b paramMaxStreamDataBidiRem (maxStreamDataBidiR p) in
  let b := appendParamVarint b paramMaxStreamDataUni (maxStreamDataUni p) in
  let b := appendParamVarint b paramInitialMaxStreamsBidi (maxStreamsBidi p) in
  let b := appendParamVarint b paramInitialMaxStreamsUni (maxStreamsUni p) in
  let b := if disableMigration p then appendParamBytes b paramDisableMigration [] else b in
  let b := if hasInitialSCID p then appendParamBytes b paramInitialSCID (initialSCID p) else b in
  if hasRetrySCID p then appendParamBytes b paramRetrySCID (retrySCID p) else b.

(** * Parsing *)

(** [intValue]: the integer a value holds, and whether it is malformed. *)
Definition intValue (v : bytes) : Z * bool :=
  let '(n, r) := reader_varint (Reader v false) in
  (n, r_bad r || (0 <? len (r_b r))).

(** [time.Duration(n) * time.Millisecond] *)
Definition milliseconds (n : Z) : Z := i64 (i64 n * Millisecond).

(** One parameter: the parameters with it, whether its value is bad, and
    whether only a server may send it. *)
Definition parseParam (id : Z) (v : bytes) (p : transportParams) : transportParams * bool * bool :=
  let '(n, bad) := intValue v in
  if id =? paramOriginalDCID then (set_originalDCID v true p, false, true)
  else if id =? paramMaxIdleTimeout then (set_maxIdleTimeout (milliseconds n) p, bad, false)
  else if id =? paramStatelessResetToken then
    (set_statelessResetToken (Some v) p, negb (len v =? statelessResetTokenLen), true)
  else if id =? paramMaxUDPPayloadSize then (set_maxUDPPayloadSize n p, bad || (n <? 1200), false)
  else if id =? paramInitialMaxData then (set_initialMaxData n p, bad, false)
  else if id =? paramMaxStreamDataBidiLoc then (set_maxStreamDataBidiL n p, bad, false)
  else if id =? paramMaxStreamDataBidiRem then (set_maxStreamDataBidiR n p, bad, false)
  else if id =? paramMaxStreamDataUni then (set_maxStreamDataUni n p, bad, false)
  else if id =? paramInitialMaxStreamsBidi then (set_maxStreamsBidi n p, bad || (2 ^ 60 <? n), false)
  else if id =? paramInitialMaxStreamsUni then (set_maxStreamsUni n p, bad || (2 ^ 60 <? n), false)
  else if id =? paramAckDelayExponent then (set_ackDelayExponent n p, bad || (20 <? n), false)
  else if id =? paramMaxAckDelay then (set_maxAckDelay (milliseconds n) p, bad || (2 ^ 14 <=? n), false)
  else if id =? paramDisableMigration then (set_disableMigration true p, negb (len v =? 0), false)
  else if id =? paramPreferredAddress then (p, false, true)
  else if id =? paramActiveCIDLimit then (set_activeCIDLimit n p, bad || (n <? 2), false)
  else if id =? paramInitialSCID then (set_initialSCID v true p, false, false)
  else if id =? paramRetrySCID then (set_retrySCID v true p, false, true)
  else (p, false, false).

(** The loop; a parameter takes at least a byte, so the length is fuel enough. *)
Fixpoint parse_loop (fuel : nat) (isClient : bool) (r : reader) (seen : list Z) (p : transportParams)
  : option (result Z transportParams) :=
  match r_b r with
  | [] => Some (Ok p)
  | _ =>
      match fuel with
      | O => None
      | S fuel =>
          let '(id, r) := reader_varint r in
          let '(n, r) := reader_varint r in
          let '(v, r) := reader_bytes n r in
          if r_bad r then Some (Err errTransportParameter)
          else if bool_decide (id ∈ seen) then Some (Err errTransportParameter)
          else
            let '(p, bad, serverOnly) := parseParam id v p in
            if bad then Some (Err errTransportParameter)
            else if serverOnly && negb isClient then Some (Err errTransportParameter)
            else parse_loop fuel isClient r (id :: seen) p
      end
  end.

Definition parseParams (b : bytes) (isClient : bool) : option (result Z transportParams) :=
  parse_loop (length b) isClient (Reader b false) [] defaultParams.

(** * Lemmas *)

Lemma reader_varint_progress r v r' :
  bytes_ok (r_b r) -> reader_varint r = (v, r') -> r_b r <> [] -> (length (r_b r') < length (r_b r))%nat.
Proof.
  intros Hb. unfold reader_varint. destruct (ReadVarint (r_b r)) as [w n] eqn:E.
  destruct (Z.eqb_spec n 0) as [|Hn]; intros [= <- <-] Hne; cbn [r_b].
  - destruct (r_b r); [done|cbn; lia].
  - destruct (ReadVarint_value _ _ _ Hb E Hn) as [Hq _]. rewrite length_drop. destruct (r_b r); [done|cbn [length]; lia].
Qed.

Lemma reader_varint_shrinks r v r' : reader_varint r = (v, r') -> (length (r_b r') <= length (r_b r))%nat.
Proof.
  unfold reader_varint. destruct (ReadVarint (r_b r)) as [w n]. destruct (n =? 0); intros [= <- <-]; cbn [r_b length]; [lia|].
  rewrite length_drop. lia.
Qed.

Lemma reader_bytes_shrinks n r v r' :
  bytes_ok (r_b r) -> reader_bytes n r = (v, r') ->
  (length (r_b r') <= length (r_b r))%nat /\ bytes_ok (r_b r') /\ bytes_ok v.
Proof.
  intros Hb. unfold reader_bytes. destruct (_ <? _); intros [= <- <-]; cbn [r_b length].
  - split; [lia|]. split; apply Forall_nil_2.
  - rewrite length_drop. split; [lia|]. split; [by apply Forall_drop|by apply Forall_take].
Qed.

(** What one round reads. *)
Lemma round_reads r id r1 n r2 v r3 :
  bytes_ok (r_b r) -> r_b r <> [] ->
  reader_varint r = (id, r1) -> reader_varint r1 = (n, r2) -> reader_bytes n r2 = (v, r3) ->
  (length (r_b r3) < length (r_b r))%nat /\ bytes_ok (r_b r3) /\ bytes_ok v.
Proof.
  intros Hb Hne E1 E2 E3. pose proof (reader_varint_progress _ _ _ Hb E1 Hne).
  destruct (reader_varint_range _ _ _ Hb E1) as [_ Hb1]. destruct (reader_varint_range _ _ _ Hb1 E2) as [_ Hb2].
  pose proof (reader_varint_shrinks _ _ _ E2). destruct (reader_bytes_shrinks _ _ _ _ Hb2 E3) as (? & ? & ?).
  split; [lia|done].
Qed.

Lemma parse_loop_fuel f1 f2 isClient r seen p :
  bytes_ok (r_b r) -> (length (r_b r) <= f1)%nat -> (length (r_b r) <= f2)%nat ->
  parse_loop f1 isClient r seen p = parse_loop f2 isClient r seen p.
Proof.
  revert f2 r seen p. induction f1 as [|f1 IH]; intros f2 r seen p Hb H1 H2.
  - destruct (r_b r) eqn:E; [|cbn in H1; lia]. cbn. rewrite E. by destruct f2; cbn; rewrite E.
  - destruct f2 as [|f2].
    + destruct (r_b r) eqn:E; [|cbn in H2; lia]. cbn. by rewrite E.
    + cbn [parse_loop]. destruct (r_b r) as [|b tl] eqn:E; [done|]. rewrite <- E in *.
      destruct (reader_varint r) as [id r1] eqn:E1. destruct (reader_varint r1) as [n r2] eqn:E2.
      destruct (reader_bytes n r2) as [v r3] eqn:E3.
      destruct (round_reads _ _ _ _ _ _ _ Hb ltac:(by rewrite E) E1 E2 E3) as (Hlt & Hb3 & _).
      destruct (r_bad r3); [done|]. case_bool_decide; [done|]. destruct (parseParam id v p) as [[p' bad] so].
      destruct bad; [done|]. destruct (so && _); [done|]. apply IH; [done|lia|lia].
Qed.

(** The loop on what is left, with just enough fuel. *)
Definition parse_all (isClient : bool) (b : bytes) (seen : list Z) (p : transportParams) : option (result Z transportParams) :=
  parse_loop (length b) isClient (Reader b false) seen p.

Definition enc_param (id : Z) (v : bytes) : bytes := AppendVarint [] id ++ AppendVarint [] (len v) ++ v.

Lemma appendParamBytes_enc b id v : appendParamBytes b id v = b ++ enc_param id v.
Proof.
  unfold appendParamBytes, enc_param. rewrite (AppendVarint_app (AppendVarint b id)), (AppendVarint_app b).
  by rewrite <- !(assoc_L (++)).
Qed.

Lemma appendParamVarint_enc b id v : appendParamVarint b id v = b ++ enc_param id (AppendVarint [] v).
Proof.
  unfold appendParamVarint, enc_param.
  rewrite AppendVarint_len, (AppendVarint_app (AppendVarint (AppendVarint b id) _)), (AppendVarint_app (AppendVarint b id)),
    (AppendVarint_app b). by rewrite <- !(assoc_L (++)).
Qed.

Lemma parse_step isClient id v rest seen p p' so :
  bytes_ok v -> bytes_ok rest -> 0 <= id < 64 -> len v <= maxVarint -> Forall (fun i => i < id) seen ->
  parseParam id v p = (p', false, so) -> (so = true -> isClient = true) ->
  parse_all isClient (enc_param id v ++ rest) seen p = parse_all isClient rest (id :: seen) p'.
Proof.
  intros Hv Hr Hid Hl Hs Hp Hso. unfold parse_all.
  assert (Hne : exists b tl, enc_param id v ++ rest = b :: tl).
  { unfold enc_param. rewrite AppendVarint_shape. cbn. eauto. }
  assert (Hok : bytes_ok (enc_param id v ++ rest)).
  { unfold enc_param. repeat (apply Forall_app; split); auto with fib. }
  destruct (length (enc_param id v ++ rest)) as [|fuel] eqn:El.
  { destruct Hne as (b & tl & E). rewrite E in El. done. }
  cbn [parse_loop r_b]. destruct (enc_param id v ++ rest) as [|b tl] eqn:E; [by destruct Hne as (? & ? & ?)|].
  rewrite <- E in *. unfold enc_param at 1. rewrite <- !(assoc_L (++)). pose proof (len_nonneg v).
  rewrite reader_varint_enc by (unfold maxVarint in *; lia). rewrite reader_varint_enc by (unfold maxVarint in *; lia).
  rewrite reader_bytes_app by done. cbn [r_bad].
  rewrite bool_decide_false by (intros Hi; rewrite Forall_forall in Hs; specialize (Hs _ Hi); lia).
  rewrite Hp. destruct (so && negb isClient) eqn:Es; [destruct so, isClient; try done; by specialize (Hso eq_refl)|].
  apply parse_loop_fuel; cbn [r_b]; [done| |lia].
  unfold enc_param in El. rewrite !length_app in El. rewrite AppendVarint_shape in El. cbn [length] in El. lia.
Qed.

Lemma intValue_enc v : 0 <= v <= maxVarint -> intValue (AppendVarint [] v) = (v, false).
Proof.
  intros Hv. unfold intValue. rewrite <- (app_nil_r (AppendVarint [] v)), reader_varint_enc by done. done.
Qed.

(** * Round trip *)

Definition vint_ok (v : Z) : Prop := 0 <= v <= maxVarint.

(** Parameters [encode] can express: those it leaves out have their defaults. *)
Record params_ok (isClient : bool) (p : transportParams) : Prop := {
  po_odcid : bytes_ok (originalDCID p) /\ len (originalDCID p) <= maxVarint /\
    (hasOriginalDCID p = false -> originalDCID p = []) /\ (hasOriginalDCID p = true -> isClient = true);
  po_iscid : bytes_ok (initialSCID p) /\ len (initialSCID p) <= maxVarint /\ (hasInitialSCID p = false -> initialSCID p = []);
  po_rscid : bytes_ok (retrySCID p) /\ len (retrySCID p) <= maxVarint /\
    (hasRetrySCID p = false -> retrySCID p = []) /\ (hasRetrySCID p = true -> isClient = true);
  po_token : forall t, statelessResetToken p = Some t -> bytes_ok t /\ len t = statelessResetTokenLen /\ isClient = true;
  po_idle : exists ms, maxIdleTimeout p = ms * Millisecond /\ 0 <= ms /\ ms * Millisecond < 2 ^ 63;
  po_data : vint_ok (initialMaxData p) /\ vint_ok (maxStreamDataBidiL p) /\ vint_ok (maxStreamDataBidiR p) /\ vint_ok (maxStreamDataUni p);
  po_streams : 0 <= maxStreamsBidi p <= 2 ^ 60 /\ 0 <= maxStreamsUni p <= 2 ^ 60;
  po_default : maxUDPPayloadSize p = maxUDPPayloadSize defaultParams /\ ackDelayExponent p = ackDelayExponent defaultParams /\
    maxAckDelay p = maxAckDelay defaultParams /\ activeCIDLimit p = activeCIDLimit defaultParams;
}.

(** The encoding as a list of parameters, each there or not, by ascending id. *)
Definition chunks (p : transportParams) : list (bool * Z * bytes) :=
  [(hasOriginalDCID p, paramOriginalDCID, originalDCID p);
   (0 <? maxIdleTimeout p, paramMaxIdleTimeout, AppendVarint [] (u64 (Z.quot (maxIdleTimeout p) Millisecond)));
   (match statelessResetToken p with Some _ => true | None => false end, paramStatelessResetToken,
    default [] (statelessResetToken p));
   (true, paramInitialMaxData, AppendVarint [] (initialMaxData p));
   (true, paramMaxStreamDataBidiLoc, AppendVarint [] (maxStreamDataBidiL p));
   (true, paramMaxStreamDataBidiRem, AppendVarint [] (maxStreamDataBidiR p));
   (true, paramMaxStreamDataUni, AppendVarint [] (maxStreamDataUni p));
   (true, paramInitialMaxStreamsBidi, AppendVarint [] (maxStreamsBidi p));
   (true, paramInitialMaxStreamsUni, AppendVarint [] (maxStreamsUni p));
   (disableMigration p, paramDisableMigration, []);
   (hasInitialSCID p, paramInitialSCID, initialSCID p);
   (hasRetrySCID p, paramRetrySCID, retrySCID p)].

Definition enc_chunk '((c, id, v) : bool * Z * bytes) : bytes := if c then enc_param id v else [].

Lemma opt_bytes (c : bool) b id v : (if c then appendParamBytes b id v else b) = b ++ enc_chunk (c, id, v).
Proof. destruct c; cbn; [apply appendParamBytes_enc|by rewrite app_nil_r]. Qed.

Lemma opt_varint (c : bool) b id v :
  (if c then appendParamVarint b id v else b) = b ++ enc_chunk (c, id, AppendVarint [] v).
Proof. destruct c; cbn; [apply appendParamVarint_enc|by rewrite app_nil_r]. Qed.

Lemma encode_chunks p : encode p = chunks p ≫= enc_chunk.
Proof.
  unfold encode, chunks. rewrite !opt_bytes, opt_varint, !appendParamVarint_enc. cbn [app].
  destruct (statelessResetToken p); rewrite ?appendParamBytes_enc; cbn [mbind list_bind enc_chunk default from_option id];
    rewrite <- ?(assoc_L (++)), ?app_nil_r; done.
Qed.

(** A parameter the parser takes, whatever came before. *)
Definition chunk_ok (isClient : bool) '((c, id, v) : bool * Z * bytes) : Prop :=
  c = true -> bytes_ok v /\ len v <= maxVarint /\ 0 <= id < 64 /\
    forall q, (parseParam id v q).1.2 = false /\ ((parseParam id v q).2 = true -> isClient = true).

Definition apply_chunk (q : transportParams) '((c, id, v) : bool * Z * bytes) : transportParams :=
  if c then (parseParam id v q).1.1 else q.

Fixpoint ascending (low : Z) (cs : list (bool * Z * bytes)) : Prop :=
  match cs with
  | [] => True
  | (_, id, _) :: cs => low < id /\ ascending id cs
  end.

Lemma enc_chunks_ok isClient cs : Forall (chunk_ok isClient) cs -> bytes_ok (cs ≫= enc_chunk).
Proof.
  induction 1 as [|[[c id] v] cs Hc Hcs IH]; [apply Forall_nil_2|]. rewrite bind_cons. apply Forall_app. split; [|done].
  destruct c; cbn; [|apply Forall_nil_2]. destruct (Hc eq_refl) as (? & _). unfold enc_param.
  repeat (apply Forall_app; split); auto with fib.
Qed.

Lemma parse_chunks isClient cs seen low q :
  Forall (chunk_ok isClient) cs -> ascending low cs -> Forall (fun i => i <= low) seen ->
  parse_all isClient (cs ≫= enc_chunk) seen q = Some (Ok (fold_left apply_chunk cs q)).
Proof.
  intros Hcs. revert seen low q. induction Hcs as [|[[c id] v] cs Hc Hcs IH]; intros seen low q Ha Hs; [done|].
  destruct Ha as [Hlow Ha]. rewrite bind_cons. cbn [fold_left]. unfold enc_chunk at 1, apply_chunk at 2.
  destruct c.
  - destruct (Hc eq_refl) as (Hv & Hl & Hid & Hp). specialize (Hp q).
    destruct (parseParam id v q) as [[q' bad] so] eqn:E. destruct Hp as [Hbad Hso]. cbn in Hbad, Hso. subst bad.
    rewrite (parse_step isClient id v _ seen q q' so); [|done|by eapply enc_chunks_ok|done|done| |done|done].
    + apply (IH _ id); [done|]. constructor; [lia|]. eapply Forall_impl; [done|]. cbn. lia.
    + eapply Forall_impl; [done|]. cbn. lia.
  - rewrite app_nil_l. apply (IH _ id); [done|]. eapply Forall_impl; [done|]. cbn. lia.
Qed.

Lemma varint_chunk isClient c id v :
  vint_ok v -> 0 <= id < 64 ->
  (forall q bytes, intValue bytes = (v, false) -> (parseParam id bytes q).1.2 = false /\ (parseParam id bytes q).2 = false) ->
  chunk_ok isClient (c, id, AppendVarint [] v).
Proof.
  intros Hv Hid Hp _. split; [auto with fib|]. split.
  { rewrite AppendVarint_len. unfold VarintLen, maxVarint. bdestruct_all; lia. }
  split; [done|]. intros q. destruct (Hp q (AppendVarint [] v) (intValue_enc v Hv)) as [-> ->]. done.
Qed.

Lemma chunks_ok isClient p : params_ok isClient p -> Forall (chunk_ok isClient) (chunks p).
Proof.
  intros [(? & ? & _ & ?) (? & ? & _) (? & ? & _ & ?) Ht (ms & Hms & ? & ?) (? & ? & ? & ?) [? ?] _].
  unfold chunks. repeat apply Forall_cons_2; [..|apply Forall_nil_2].
  4-9: apply varint_chunk; [unfold vint_ok, maxVarint in *; lia|cbv; split; congruence|];
    intros q bs Hi; unfold parseParam; rewrite Hi; cbn -[Z.ltb]; (split; [|done]); try done;
    bdestruct_all; (done || (exfalso; lia)).
  - intros Hc. do 2 (split; [done|]). split; [cbv; split; congruence|]. intros q. unfold parseParam.
    destruct (intValue _). cbn. split; [done|]. by intros _; auto.
  - apply varint_chunk; [|cbv; split; congruence|intros q bs Hi; unfold parseParam; by rewrite Hi].
    rewrite Hms, Z.quot_mul by done. unfold Millisecond, vint_ok, maxVarint in *. rewrite u64_small by lia. lia.
  - destruct (statelessResetToken p) as [t|]; [|done]. intros _. destruct (Ht t eq_refl) as (? & Hlt & ?). cbn [default from_option id].
    split; [done|]. split; [unfold statelessResetTokenLen, maxVarint in *; lia|]. split; [cbv; split; congruence|].
    intros q. unfold parseParam. destruct (intValue _). cbn -[Z.eqb]. rewrite Hlt. done.
  - intros _. split; [apply Forall_nil_2|]. split; [cbv; congruence|]. split; [cbv; split; congruence|]. done.
  - intros Hc. do 2 (split; [done|]). split; [cbv; split; congruence|]. intros q. unfold parseParam.
    by destruct (intValue _).
  - intros Hc. do 2 (split; [done|]). split; [cbv; split; congruence|]. intros q. unfold parseParam.
    destruct (intValue _). cbn. split; [done|]. by intros _; auto.
Qed.

(** What each parameter of [encode] sets. *)
Lemma parse_sets q v n :
  vint_ok n ->
  (parseParam paramOriginalDCID v q).1.1 = set_originalDCID v true q /\
  (parseParam paramMaxIdleTimeout (AppendVarint [] n) q).1.1 = set_maxIdleTimeout (milliseconds n) q /\
  (parseParam paramStatelessResetToken v q).1.1 = set_statelessResetToken (Some v) q /\
  (parseParam paramInitialMaxData (AppendVarint [] n) q).1.1 = set_initialMaxData n q /\
  (parseParam paramMaxStreamDataBidiLoc (AppendVarint [] n) q).1.1 = set_maxStreamDataBidiL n q /\
  (parseParam paramMaxStreamDataBidiRem (AppendVarint [] n) q).1.1 = set_maxStreamDataBidiR n q /\
  (parseParam paramMaxStreamDataUni (AppendVarint [] n) q).1.1 = set_maxStreamDataUni n q /\
  (parseParam paramInitialMaxStreamsBidi (AppendVarint [] n) q).1.1 = set_maxStreamsBidi n q /\
  (parseParam paramInitialMaxStreamsUni (AppendVarint [] n) q).1.1 = set_maxStreamsUni n q /\
  (parseParam paramDisableMigration v q).1.1 = set_disableMigration true q /\
  (parseParam paramInitialSCID v q).1.1 = set_initialSCID v true q /\
  (parseParam paramRetrySCID v q).1.1 = set_retrySCID v true q.
Proof. intros Hn. unfold parseParam. rewrite intValue_enc by done. destruct (intValue v). split_and!; reflexivity. Qed.

Lemma apply_chunks isClient p : params_ok isClient p -> fold_left apply_chunk (chunks p) defaultParams = p.
Proof.
  intros [(? & ? & Ho & ?) (? & ? & Hi) (? & ? & Hr & ?) Ht (ms & Hms & Hm0 & Hm1) (? & ? & ? & ?) [? ?] (Hd1 & Hd2 & Hd3 & Hd4)].
  assert (Hq : u64 (Z.quot (maxIdleTimeout p) Millisecond) = ms).
  { rewrite Hms, Z.quot_mul by done. apply u64_small. unfold Millisecond in *. lia. }
  assert (Hmil : milliseconds ms = ms * Millisecond).
  { unfold milliseconds. rewrite (i64_small ms), i64_small; unfold Millisecond in *; lia. }
  assert (vint_ok ms /\ vint_ok (maxStreamsBidi p) /\ vint_ok (maxStreamsUni p)) as (? & ? & ?)
    by (unfold vint_ok, maxVarint, Millisecond in *; lia).
  unfold chunks. cbn [fold_left apply_chunk]. rewrite Hq.
  assert (Hz : vint_ok 0) by (unfold vint_ok, maxVarint; lia).
  rewrite !(fun q v => proj1 (parse_sets q v 0 Hz)).
  repeat match goal with
    | |- context [parseParam ?id ?v ?q] =>
        lazymatch v with
        | AppendVarint [] ?n =>
            let H := fresh in assert (H : vint_ok n) by done; destruct (parse_sets q [] n H) as (? & Hs1 & ? & Hs2 & Hs3 & Hs4 & Hs5 & Hs6 & Hs7 & _);
            first [rewrite Hs1|rewrite Hs2|rewrite Hs3|rewrite Hs4|rewrite Hs5|rewrite Hs6|rewrite Hs7];
            clear H Hs1 Hs2 Hs3 Hs4 Hs5 Hs6 Hs7
        | _ =>
            destruct (parse_sets q v 0 Hz) as (? & _ & Hs1 & _ & _ & _ & _ & _ & _ & Hs2 & Hs3 & Hs4);
            first [rewrite Hs1|rewrite Hs2|rewrite Hs3|rewrite Hs4]; clear Hs1 Hs2 Hs3 Hs4
        end
    end.
  rewrite Hmil. clear Hq Hmil.
  destruct p as [od isc rs ho hi hr tok idle udp imd bl br un sb su ade mad dm acl]. cbn in *. subst.
  assert (Hidle : 0 < ms * Millisecond \/ ms * Millisecond = 0) by (unfold Millisecond in *; lia).
  destruct ho, hi, hr, dm, tok; rewrite ?Ho, ?Hi, ?Hr by done;
    (destruct (Z.ltb_spec 0 (ms * Millisecond)); [done|destruct Hidle as [?| ->]; [lia|done]]).
Qed.

(** Transport parameters are read back.  [parseParams] accepts what [encode]
    wrote and returns the same parameters, for either side and whichever
    optional ones are present. *)
Theorem params_roundtrip isClient p :
  params_ok isClient p -> parseParams (encode p) isClient = Some (Ok p).
Proof.
  intros Hp. rewrite encode_chunks. unfold parseParams.
  change (parse_all isClient (chunks p ≫= enc_chunk) [] defaultParams = Some (Ok p)).
  rewrite (parse_chunks isClient (chunks p) [] (-1)).
  - by rewrite (apply_chunks isClient p Hp).
  - by apply chunks_ok.
  - cbv. repeat split.
  - apply Forall_nil_2.
Qed.

Definition demo_params : transportParams :=
  Params [1; 2; 3; 4; 5; 6; 7; 8] [9; 9] [] true true false (Some (replicate 16 7)) (30000 * Millisecond) 65527
    1048576 65536 65536 65536 100 3 3 (25 * Millisecond) true 2.

Lemma params_roundtrip_witness : parseParams (encode demo_params) true = Some (Ok demo_params).
Proof.
  apply (params_roundtrip true demo_params). unfold demo_params.
  split; cbn -[maxVarint len Z.pow]; unfold vint_ok, maxVarint, len, Millisecond; cbn -[Z.pow].
  - split; [by apply bytes_check|]. split; [lia|]. done.
  - split; [by apply bytes_check|]. split; [lia|]. done.
  - split; [by apply bytes_check|]. split; [lia|]. done.
  - intros t [= <-]. split; [by apply bytes_check|]. done.
  - exists 30000. lia.
  - unfold maxVarint. lia.
  - lia.
  - done.
Defined.

(** * Any parameters from any peer *)

(** What accepted parameters satisfy; [isClient] says who parsed them. *)
Record params_valid (isClient : bool) (p : transportParams) : Prop := {
  pv_udp : 1200 <= maxUDPPayloadSize p <= maxVarint;
  pv_streams : 0 <= maxStreamsBidi p <= 2 ^ 60 /\ 0 <= maxStreamsUni p <= 2 ^ 60;
  pv_data : vint_ok (initialMaxData p) /\ vint_ok (maxStreamDataBidiL p) /\ vint_ok (maxStreamDataBidiR p) /\ vint_ok (maxStreamDataUni p);
  pv_exponent : 0 <= ackDelayExponent p <= 20;
  pv_ackdelay : 0 <= maxAckDelay p < 2 ^ 14 * Millisecond;
  pv_cids : 2 <= activeCIDLimit p;
  pv_token : forall t, statelessResetToken p = Some t -> len t = statelessResetTokenLen;
  pv_server : isClient = false -> hasOriginalDCID p = false /\ hasRetrySCID p = false /\ statelessResetToken p = None;
}.

Lemma intValue_range v n bad : bytes_ok v -> intValue v = (n, bad) -> vint_ok n.
Proof.
  intros Hv. unfold intValue. destruct (reader_varint (Reader v false)) as [m r] eqn:E. intros [= <- <-].
  by destruct (reader_varint_range (Reader v false) _ _ Hv E).
Qed.

Lemma milliseconds_small n : 0 <= n < 2 ^ 14 -> milliseconds n = n * Millisecond.
Proof. intros. unfold milliseconds, Millisecond. rewrite (i64_small n), i64_small; lia. Qed.

(** Split the cascade of identifier tests of [parseParam]. *)
Ltac cascade :=
  repeat match goal with
    | |- (if ?id =? ?c then _ else _) = _ -> _ => destruct (id =? c)
    end.

Lemma parseParam_valid isClient id v p p' so :
  bytes_ok v -> params_valid isClient p -> parseParam id v p = (p', false, so) -> (so = true -> isClient = true) ->
  params_valid isClient p'.
Proof.
  intros Hv [? [? ?] (? & ? & ? & ?) ? ? ? ? Hsrv]. unfold parseParam. destruct (intValue v) as [n bad] eqn:E.
  pose proof (intValue_range v n bad Hv E) as Hn.
  assert (Hso : isClient = false -> so = true -> (so = true -> isClient = true) -> False) by (intros -> -> H'; by specialize (H' eq_refl)).
  cascade; intros Heq Hc; injection Heq as Heq; subst p'; subst;
    repeat match goal with
      | H : _ || _ = false |- _ => apply orb_false_iff in H as [_ H]
      | H : (_ <? _) = false |- _ => apply Z.ltb_ge in H
      | H : (_ <=? _) = false |- _ => apply Z.leb_gt in H
      | H : negb _ = false |- _ => apply negb_false_iff in H
      | H : (_ =? _) = true |- _ => apply Z.eqb_eq in H
      end;
    unfold vint_ok in *; split; cbn -[Z.pow maxVarint]; try done; try (split_and?; done || lia); try lia.
  all: try (intros Hf; specialize (Hc eq_refl); congruence).
  rewrite milliseconds_small by lia. unfold Millisecond. lia.
Qed.

Lemma parse_valid b isClient p : bytes_ok b -> parseParams b isClient = Some (Ok p) -> params_valid isClient p.
Proof.
  intros Hb. unfold parseParams.
  assert (H : forall n r seen p, bytes_ok (r_b r) -> params_valid isClient p -> forall p', parse_loop n isClient r seen p = Some (Ok p') -> params_valid isClient p').
  { clear. intros n. induction n as [|n IH]; intros r seen p Hb Hp p'; cbn [parse_loop]; [destruct (r_b r); [by intros [= <-]|done]|].
    destruct (r_b r) as [|b0 tl] eqn:Er; [by intros [= <-]|]. rewrite <- Er in *.
    destruct (reader_varint r) as [id r1] eqn:E1. destruct (reader_varint r1) as [m r2] eqn:E2. destruct (reader_bytes m r2) as [v r3] eqn:E3.
    destruct (round_reads _ _ _ _ _ _ _ Hb ltac:(by rewrite Er) E1 E2 E3) as (Hlt & Hb3 & Hv). destruct (r_bad r3); [done|]. case_bool_decide; [done|].
    destruct (parseParam id v p) as [[p1 bad] so] eqn:Ep. destruct bad; [done|]. destruct (so && negb isClient) eqn:Es; [done|]. apply IH; [done|].
    eapply parseParam_valid; [done|done|done|]. intros ->. by destruct isClient. }
  apply H; [done|]. split; cbn -[Z.pow]; unfold vint_ok, maxVarint, Millisecond; try done; lia.
Qed.

(** ** What is accepted, exactly *)

#[local] Abbreviation after k b := (drop (Z.to_nat k) b).

(** A byte string as parameters: an identifier, a length and that many bytes. *)
Inductive reads_as : bytes -> list (Z * bytes) -> Prop :=
| reads_nil : reads_as [] []
| reads_cons b id k1 n k2 ps :
    b <> [] -> ReadVarint b = (id, k1) -> k1 <> 0 -> ReadVarint (after k1 b) = (n, k2) -> k2 <> 0 ->
    n <= len (after k2 (after k1 b)) -> reads_as (after n (after k2 (after k1 b))) ps ->
    reads_as b ((id, take (Z.to_nat n) (after k2 (after k1 b))) :: ps).

(** The parameters that are an integer, with their bounds (RFC 9000, section 18.2). *)
Definition int_bounds : list (Z * (Z * Z)) :=
  [(paramMaxIdleTimeout, (0, maxVarint)); (paramMaxUDPPayloadSize, (1200, maxVarint)); (paramInitialMaxData, (0, maxVarint)); (paramMaxStreamDataBidiLoc, (0, maxVarint));
   (paramMaxStreamDataBidiRem, (0, maxVarint)); (paramMaxStreamDataUni, (0, maxVarint)); (paramInitialMaxStreamsBidi, (0, 2 ^ 60)); (paramInitialMaxStreamsUni, (0, 2 ^ 60));
   (paramAckDelayExponent, (0, 20)); (paramMaxAckDelay, (0, 2 ^ 14 - 1)); (paramActiveCIDLimit, (2, maxVarint))].

Definition server_only : list Z := [paramOriginalDCID; paramStatelessResetToken; paramPreferredAddress; paramRetrySCID].

Fixpoint assoc {A} (id : Z) (l : list (Z * A)) : option A :=
  match l with [] => None | (i, a) :: l => if i =? id then Some a else assoc id l end.

(** A parameter a peer may send: [isClient] says that it is a server. *)
Definition permitted (isClient : bool) '((id, v) : Z * bytes) : Prop :=
  (id ∈ server_only -> isClient = true) /\
  (forall lo hi, assoc id int_bounds = Some (lo, hi) -> exists n, intValue v = (n, false) /\ lo <= n <= hi) /\
  (id = paramStatelessResetToken -> len v = statelessResetTokenLen) /\ (id = paramDisableMigration -> v = []).

(** What parameters amount to: each field is that of its parameter, or its default. *)
Definition int_of (v : bytes) : Z := (intValue v).1.
Definition params_from (ps : list (Z * bytes)) : transportParams :=
  let field id := assoc id ps in
  let int d id := default d (int_of <$> field id) in
  let time d id := default d (milliseconds ∘ int_of <$> field id) in
  let has id := bool_decide (is_Some (field id)) in
  Params (default [] (field paramOriginalDCID)) (default [] (field paramInitialSCID)) (default [] (field paramRetrySCID))
    (has paramOriginalDCID) (has paramInitialSCID) (has paramRetrySCID) (field paramStatelessResetToken)
    (time 0 paramMaxIdleTimeout) (int 65527 paramMaxUDPPayloadSize) (int 0 paramInitialMaxData) (int 0 paramMaxStreamDataBidiLoc) (int 0 paramMaxStreamDataBidiRem)
    (int 0 paramMaxStreamDataUni) (int 0 paramInitialMaxStreamsBidi) (int 0 paramInitialMaxStreamsUni) (int 3 paramAckDelayExponent)
    (time (25 * Millisecond) paramMaxAckDelay) (has paramDisableMigration) (int 2 paramActiveCIDLimit).

Lemma assoc_snoc {A} id i (a : A) l : assoc i l = None -> assoc id (l ++ [(i, a)]) = if i =? id then Some a else assoc id l.
Proof.
  induction l as [|[j b] l IH]; [done|]. cbn. intros H. destruct (Z.eqb_spec j i); [done|]. rewrite IH by done. destruct (Z.eqb_spec j id), (Z.eqb_spec i id); congruence.
Qed.

Lemma assoc_none {A} i (l : list (Z * A)) : i ∉ l.*1 -> assoc i l = None.
Proof.
  induction l as [|[j b] l IH]; [done|]. cbn. rewrite not_elem_of_cons. intros [H1 H2]. destruct (Z.eqb_spec j i); [congruence|auto].
Qed.

(** One parameter more. *)
Lemma parseParam_from id v ps : id ∉ ps.*1 -> (parseParam id v (params_from ps)).1.1 = params_from (ps ++ [(id, v)]).
Proof.
  intros Hid%assoc_none. unfold params_from at 2. cbn zeta. rewrite !(assoc_snoc _ id v ps Hid). unfold parseParam. destruct (intValue v) as [n bad] eqn:E.
  assert (Ei : int_of v = n) by (unfold int_of; by rewrite E).
  repeat match goal with |- context [if id =? ?c then (?x, _, _) else _] => destruct (Z.eqb_spec id c) as [->|]; [cbn; rewrite ?Ei; reflexivity|] end.
  cbn. repeat match goal with |- context [id =? ?c] => destruct (Z.eqb_spec id c) as [?|_]; [done|] end. reflexivity.
Qed.

Lemma permitted_int isClient id v lo hi n bad :
  assoc id int_bounds = Some (lo, hi) -> bool_decide (id ∈ server_only) = false -> id <> paramStatelessResetToken -> id <> paramDisableMigration -> intValue v = (n, bad) ->
  permitted isClient (id, v) <-> bad = false /\ lo <= n <= hi.
Proof.
  intros Ha Hs Ht Hd Ev. apply bool_decide_eq_false in Hs. unfold permitted. rewrite Ha, Ev. split.
  - intros (_ & H & _). destruct (H lo hi eq_refl) as (m & [= <- ->] & H'). done.
  - intros [-> H]. split_and!; try done. intros lo' hi' [= <- <-]. by exists n.
Qed.

Lemma permitted_other isClient id v b :
  assoc id int_bounds = None -> bool_decide (id ∈ server_only) = b ->
  permitted isClient (id, v) <-> (b = true -> isClient = true) /\ (id = paramStatelessResetToken -> len v = statelessResetTokenLen) /\ (id = paramDisableMigration -> v = []).
Proof. intros Ha <-. unfold permitted. rewrite Ha, bool_decide_eq_true. naive_solver. Qed.

Lemma parseParam_permitted isClient id v p : bytes_ok v -> let '(_, bad, so) := parseParam id v p in (bad = false /\ so && negb isClient = false <-> permitted isClient (id, v)).
Proof.
  intros Hv. unfold parseParam. destruct (intValue v) as [n bad] eqn:E. pose proof (intValue_range v n bad Hv E) as [Hn1 Hn2].
  repeat match goal with |- context [if id =? ?c then (?x, _, _) else _] => destruct (Z.eqb_spec id c) as [->|?] end; cbn [andb].
  all: try (rewrite (permitted_int isClient _ v _ _ n bad) by (reflexivity || done); destruct bad; cbn [orb]; rewrite ?Z.ltb_ge, ?Z.leb_gt; (split; [intros [??]; done || (split; [done|lia])|intros [??]; done || (split; [lia|done])])).
  all: rewrite ?negb_false_iff, ?Z.eqb_eq.
  all: try (rewrite (permitted_other isClient _ v true) by reflexivity; split; [intros [??]; by split_and!|intros (H & H' & _); split; [try done; by apply H'|by apply H]]).
  all: try (rewrite (permitted_other isClient _ v false) by reflexivity; split; [intros [H _]; split_and!; try done; intros _; by apply len_zero_nil|intros (_ & _ & H); split; try done; by rewrite (H eq_refl)]).
  rewrite (permitted_other isClient id v false); [split; [intros _; split_and!; done|done]| |].
  - unfold int_bounds. cbn [assoc]. repeat match goal with |- context [?c =? id] => destruct (Z.eqb_spec c id) as [?|_]; [congruence|] end. done.
  - apply bool_decide_eq_false_2. unfold server_only. rewrite !elem_of_cons, elem_of_nil. tauto.
Qed.

(** What a round of the loop reads. *)
Lemma round_exact b id r1 n r2 v r3 qs :
  bytes_ok b -> b <> [] -> reader_varint (Reader b false) = (id, r1) -> reader_varint r1 = (n, r2) -> reader_bytes n r2 = (v, r3) ->
  reads_as b qs <-> r_bad r3 = false /\ exists qs', qs = (id, v) :: qs' /\ reads_as (r_b r3) qs'.
Proof.
  intros Hb Hne. unfold reader_varint, reader_bytes. cbn [r_b r_bad]. destruct (ReadVarint b) as [id0 k1] eqn:E1. destruct (Z.eqb_spec k1 0) as [->|Hk1].
  { intros [= <- <-]. cbn. intros [= <- <-]. cbn. intros [= <- <-]. cbn. split; [|by intros []]. intros H. inversion H as [|? ? ? ? ? ? _ R1 K1 R2 K2]; subst; [done|]. rewrite E1 in R1. injection R1 as <- <-. congruence. }
  intros [= <- <-]. cbn [r_b r_bad]. destruct (ReadVarint (drop (Z.to_nat k1) b)) as [n0 k2] eqn:E2. destruct (Z.eqb_spec k2 0) as [->|Hk2].
  { intros [= <- <-]. cbn. intros [= <- <-]. cbn. split; [|by intros []]. intros H. inversion H as [|? ? ? ? ? ? _ R1 K1 R2 K2]; subst; [done|]. rewrite E1 in R1. injection R1 as <- <-. congruence. }
  intros [= <- <-]. cbn [r_b r_bad]. destruct (Z.ltb_spec (len (drop (Z.to_nat k2) (drop (Z.to_nat k1) b))) n0); intros [= <- <-]; cbn [r_b r_bad].
  - split; [|by intros []]. intros H'. inversion H' as [|? ? ? ? ? ? _ R1 _ R2 _ Hle Hr]; subst; [done|]. rewrite E1 in R1. injection R1 as <- <-. rewrite E2 in R2. injection R2 as <- <-. lia.
  - split.
    + intros H'. inversion H' as [|? ? ? ? ? ? _ R1 _ R2 _ Hle Hr]; subst; [done|]. rewrite E1 in R1. injection R1 as <- <-. rewrite E2 in R2. injection R2 as <- <-. split; [done|]. by eexists.
    + intros (_ & qs' & -> & H'). by econstructor.
Qed.

(** The loop accepts what reads as parameters that are permitted and come once. *)
Lemma parse_loop_exact fuel isClient b ps :
  bytes_ok b -> (length b <= fuel)%nat -> NoDup ps.*1 ->
  exists r, parse_loop fuel isClient (Reader b false) (reverse ps.*1) (params_from ps) = Some r /\ (forall e, r = Err e -> e = errTransportParameter) /\
    forall p, r = Ok p <-> exists qs, reads_as b qs /\ NoDup (ps ++ qs).*1 /\ Forall (permitted isClient) qs /\ p = params_from (ps ++ qs).
Proof.
  revert b ps. induction fuel as [|fuel IH]; intros b ps Hb Hf Hps; cbn [parse_loop r_b].
  - destruct b; [|cbn in Hf; lia]. eexists. split; [done|]. split; [done|]. intros p. split.
    + intros [= <-]. exists []. rewrite app_nil_r. split_and!; [constructor|done|constructor|done].
    + intros (qs & H & _ & _ & ->). inversion H; [|done]. by rewrite app_nil_r.
  - destruct b as [|c b0] eqn:Eb.
    { eexists. split; [done|]. split; [done|]. intros p. split.
      + intros [= <-]. exists []. rewrite app_nil_r. split_and!; [constructor|done|constructor|done].
      + intros (qs & H & _ & _ & ->). inversion H; [|done]. by rewrite app_nil_r. }
    rewrite <- Eb in *. assert (Hne : b <> []) by (by rewrite Eb). clear Eb.
    destruct (reader_varint (Reader b false)) as [id r1] eqn:E1. destruct (reader_varint r1) as [n r2] eqn:E2. destruct (reader_bytes n r2) as [v r3] eqn:E3.
    destruct (round_reads (Reader b false) _ _ _ _ _ _ Hb Hne E1 E2 E3) as (Hlt & Hb3 & Hv). cbn [r_b] in Hlt.
    assert (E : forall qs, reads_as b qs <-> r_bad r3 = false /\ exists qs', qs = (id, v) :: qs' /\ reads_as (r_b r3) qs') by (intros qs; by eapply round_exact).
    assert (No : forall P : Prop, ~ P -> (forall qs, reads_as b qs -> NoDup (ps ++ qs).*1 -> Forall (permitted isClient) qs -> P) ->
      exists r : result Z transportParams, Some (Err errTransportParameter) = Some r /\ (forall e, r = Err e -> e = errTransportParameter) /\
        forall p, r = Ok p <-> exists qs, reads_as b qs /\ NoDup (ps ++ qs).*1 /\ Forall (permitted isClient) qs /\ p = params_from (ps ++ qs)).
    { intros P NP HP. eexists. split; [done|]. split; [by intros e [= <-]|]. intros p. split; [done|]. intros (qs & H1 & H2 & H3 & _). by destruct (NP (HP qs H1 H2 H3)). }
    destruct (r_bad r3) eqn:Ebad; [apply (No False); [tauto|]; intros qs [H _]%E; done|].
    case_bool_decide as Hseen; rewrite elem_of_reverse in Hseen.
    { apply (No False); [tauto|]. intros qs (_ & qs' & -> & _)%E Hnd _. rewrite fmap_app in Hnd. apply NoDup_app in Hnd as (_ & Hnd & _). by apply (Hnd id); [|left]. }
    pose proof (parseParam_from id v ps Hseen) as Hp. pose proof (parseParam_permitted isClient id v (params_from ps) Hv) as Hpm.
    destruct (parseParam id v (params_from ps)) as [[p' bad] so]. cbn [fst] in Hp. subst p'.
    destruct bad; [apply (No False); [tauto|]; intros qs (_ & qs' & -> & _)%E _ [H _]%Forall_cons; apply Hpm in H as [? _]; done|].
    destruct (so && negb isClient); [apply (No False); [tauto|]; intros qs (_ & qs' & -> & _)%E _ [H _]%Forall_cons; apply Hpm in H as [_ ?]; done|].
    assert (Hpv : permitted isClient (id, v)) by (by apply Hpm).
    destruct (IH (r_b r3) (ps ++ [(id, v)]) Hb3 ltac:(lia)) as (r & Hr & He & Hx).
    { rewrite fmap_app. apply NoDup_app. split_and!; [done| |apply NoDup_singleton]. intros x Hx ->%list_elem_of_singleton. done. }
    exists r. split; [|split; [done|]].
    + rewrite fmap_app, reverse_app in Hr. destruct r3 as [b3 bad3]. cbn in Ebad, Hr |- *. subst bad3. exact Hr.
    + intros p. rewrite Hx. split.
      * intros (qs & H1 & H2 & H3 & ->). exists ((id, v) :: qs). rewrite <- app_assoc in *. split_and!; [by apply E; eauto|done|by constructor|done].
      * intros (qs & (_ & qs' & -> & H1)%E & H2 & [_ H3]%Forall_cons & ->). exists qs'. rewrite <- app_assoc. done.
Qed.

(** C40: parameters are accepted exactly when they may be.  Parsing ends on every
    byte string.  It succeeds if and only if the bytes are a sequence of
    parameters, no identifier comes twice, and each is one the peer may send: an
    integer within the bounds of RFC 9000, a token of 16 bytes, an empty value
    where there is none, and none of the parameters of a server, the preferred
    address among them, from a client.  Each field is then that of its parameter,
    or its default; so what was accepted respects the bounds. *)
Theorem params_accepted b isClient :
  bytes_ok b ->
  exists r, parseParams b isClient = Some r /\ (forall e, r = Err e -> e = errTransportParameter) /\
    forall p, (r = Ok p <-> exists ps, reads_as b ps /\ NoDup ps.*1 /\ Forall (permitted isClient) ps /\ p = params_from ps) /\
              (r = Ok p -> params_valid isClient p).
Proof.
  intros Hb. destruct (parse_loop_exact (length b) isClient b [] Hb ltac:(lia) (NoDup_nil_2)) as (r & Hr & He & Hx). exists r. split; [exact Hr|]. split; [done|].
  intros p. split; [apply Hx|]. intros ->. by apply (parse_valid b).
Qed.

Definition demo_bytes : bytes := [0x0a; 0x01; 0x14; 0x01; 0x02; 0x40; 0x64; 0x0d; 0x01; 0x07; 0x0c; 0x00].

Lemma params_accepted_witness :
  (exists p, parseParams demo_bytes true = Some (Ok p) /\ params_valid true p /\ ackDelayExponent p = 20 /\ maxIdleTimeout p = 100 * Millisecond /\ disableMigration p = true) /\
  parseParams demo_bytes false = Some (Err errTransportParameter) /\ parseParams [0x0a; 0x01; 0x15] true = Some (Err errTransportParameter).
Proof.
  split; [|split; vm_compute; reflexivity].
  destruct (params_accepted demo_bytes true) as (r & Hr & _ & H); [repeat (constructor; [unfold byte_ok; lia|]); constructor|].
  destruct (parseParams demo_bytes true) as [[p|e]|] eqn:E; [|vm_compute in E; discriminate|vm_compute in E; discriminate]. injection Hr as <-. exists p.
  split; [reflexivity|]. split; [by apply H|]. vm_compute in E. injection E as <-. repeat split; vm_compute; reflexivity.
Defined.

(** An idle timeout of 2^58 + 1 milliseconds, some nine million years, wraps to
    one millisecond. *)
Theorem idle_timeout_wraps :
  maxIdleTimeout <$> (match parseParams (appendParamVarint [] paramMaxIdleTimeout (2 ^ 58 + 1)) true with
                      | Some (Ok p) => Some p | _ => None end) = Some Millisecond.
Proof. vm_compute. reflexivity. Qed.
