(* ===== verification/Chacha.v ===== *)
(** ChaCha20-Poly1305 (src/go/http3/internal/quic/chacha.go).

    The key, the nonce and the state are lists of 32-bit words; an array Go
    fills through a pointer is the value returned.  [poly_mac] is RFC 8439's
    definition of the authenticator, over the integers modulo 2^130 - 5: what
    the three-limb arithmetic of [block] and [sum] has to compute. *)
From S2P Require Import Prelude.

Definition chachaKeySize : Z := 32.
Definition chachaNonceSize : Z := 12.
Definition poly1305TagSize : Z := 16.

(** * [math/bits] *)

Definition RotateLeft32 (x k : Z) : Z := Z.lor (u32 (Z.shiftl x k)) (Z.shiftr x (32 - k)).

(** Sum and carry, product in two words, difference and borrow. *)
Definition Add64 (x y carry : Z) : Z * Z := (u64 (x + y + carry), (x + y + carry) / 2 ^ 64).
Definition Mul64 (x y : Z) : Z * Z := (x * y / 2 ^ 64, u64 (x * y)).
Definition Sub64 (x y borrow : Z) : Z * Z := (u64 (x - y - borrow), if x <? y + borrow then 1 else 0).

(** [x &^ y] on 64 bits. *)
Definition and_not (x y : Z) : Z := Z.land x (Z.lxor y (2 ^ 64 - 1)).

(** * ChaCha20 *)

Definition word (x : list Z) (i : nat) : Z := default 0 (x !! i).

Definition qr (a b c d : nat) (x : list Z) : list Z :=
  let x := <[a := u32 (word x a + word x b)]> x in
  let x := <[d := RotateLeft32 (Z.lxor (word x d) (word x a)) 16]> x in
  let x := <[c := u32 (word x c + word x d)]> x in
  let x := <[b := RotateLeft32 (Z.lxor (word x b) (word x c)) 12]> x in
  let x := <[a := u32 (word x a + word x b)]> x in
  let x := <[d := RotateLeft32 (Z.lxor (word x d) (word x a)) 8]> x in
  let x := <[c := u32 (word x c + word x d)]> x in
  <[b := RotateLeft32 (Z.lxor (word x b) (word x c)) 7]> x.

Definition quarters : list (nat * nat * nat * nat) :=
  [(0, 4, 8, 12); (1, 5, 9, 13); (2, 6, 10, 14); (3, 7, 11, 15);
   (0, 5, 10, 15); (1, 6, 11, 12); (2, 7, 8, 13); (3, 4, 9, 14)]%nat.

Definition double_round (x : list Z) : list Z :=
  fold_left (fun x '(a, b, c, d) => qr a b c d x) quarters x.

Fixpoint times {A} (n : nat) (f : A -> A) (x : A) : A :=
  match n with O => x | S n => times n f (f x) end.
Definition rounds (n : nat) (x : list Z) : list Z := times n double_round x.

Definition chacha_init (key : list Z) (counter : Z) (nonce : list Z) : list Z :=
  [0x61707865; 0x3320646e; 0x79622d32; 0x6b206574] ++ key ++ [counter] ++ nonce.

Definition chachaBlock (key : list Z) (counter : Z) (nonce : list Z) : bytes :=
  let s := chacha_init key counter nonce in
  let x := rounds 10 s in
  mjoin (zip_with (fun x s => le_bytes 4 (u32 (x + s))) x s).

(** [chachaKey] and [chachaNonce]: [n] little-endian words. *)
Fixpoint words (n : nat) (b : bytes) : list Z :=
  match n with O => [] | S n => le_val (take 4 b) :: words n (drop 4 b) end.

Definition chachaKey (key : bytes) : list Z := words 8 key.
Definition chachaNonce (nonce : bytes) : list Z := words 3 nonce.

(** A block of key stream for each 64 bytes; the blocks number at most the
    bytes. *)
Fixpoint chachaXOR_loop (fuel : nat) (src : bytes) (key : list Z) (counter : Z) (nonce : list Z) : bytes :=
  match fuel, src with
  | S fuel, _ :: _ =>
      let block := chachaBlock key counter nonce in
      zip_with Z.lxor (take 64 src) block ++ chachaXOR_loop fuel (drop 64 src) key (u32 (counter + 1)) nonce
  | _, _ => []
  end.

Definition chachaXOR (src : bytes) (key : list Z) (counter : Z) (nonce : list Z) : bytes :=
  chachaXOR_loop (length src) src key counter nonce.

(** * Poly1305 *)

Record poly1305 := Poly { r0 : Z; r1 : Z; s0 : Z; s1 : Z; h0 : Z; h1 : Z; h2 : Z }.

Definition le64 (b : bytes) (o : nat) : Z := le_val (take 8 (drop o b)).

Definition newPoly1305 (key : bytes) : poly1305 :=
  Poly (Z.land (le64 key 0) 0x0ffffffc0fffffff) (Z.land (le64 key 8) 0x0ffffffc0ffffffc) (le64 key 16) (le64 key 24) 0 0 0.

Definition set_h (a b c : Z) (p : poly1305) : poly1305 := Poly (r0 p) (r1 p) (s0 p) (s1 p) a b c.

(** [h += m]. *)
Definition absorb (m : bytes) (hibit : Z) (p : poly1305) : poly1305 :=
  let '(a, c) := Add64 (h0 p) (le64 m 0) 0 in
  let '(b, c) := Add64 (h1 p) (le64 m 8) c in
  set_h a b (u64 (h2 p + (c + hibit))) p.

(** [h * r], four limbs. *)
Definition multiply (p : poly1305) : Z * Z * Z * Z :=
  let '(h0r0hi, h0r0lo) := Mul64 (h0 p) (r0 p) in
  let '(h1r0hi, h1r0lo) := Mul64 (h1 p) (r0 p) in
  let '(h0r1hi, h0r1lo) := Mul64 (h0 p) (r1 p) in
  let '(h1r1hi, h1r1lo) := Mul64 (h1 p) (r1 p) in
  let h2r0 := u64 (h2 p * r0 p) in
  let h2r1 := u64 (h2 p * r1 p) in
  let '(m1lo, c) := Add64 h1r0lo h0r1lo 0 in
  let '(m1hi, _) := Add64 h1r0hi h0r1hi c in
  let '(m2lo, c) := Add64 h2r0 h1r1lo 0 in
  let '(m2hi, _) := Add64 0 h1r1hi c in
  let m3 := h2r1 in
  let t0 := h0r0lo in
  let '(t1, c) := Add64 m1lo h0r0hi 0 in
  let '(t2, c) := Add64 m2lo m1hi c in
  let '(t3, _) := Add64 m3 m2hi c in
  (t0, t1, t2, t3).

(** What lies above bit 130 comes back times 5, as 4x plus x. *)
Definition reduce (t : Z * Z * Z * Z) (p : poly1305) : poly1305 :=
  let '(t0, t1, t2, t3) := t in
  let '(a, b, d) := (t0, t1, Z.land t2 3) in
  let '(cc0, cc1) := (and_not t2 3, t3) in
  let '(a, c) := Add64 a cc0 0 in
  let '(b, c) := Add64 b cc1 c in
  let d := u64 (d + c) in
  let cc0 := Z.lor (Z.shiftr cc0 2) (u64 (Z.shiftl cc1 62)) in
  let cc1 := Z.shiftr cc1 2 in
  let '(a, c) := Add64 a cc0 0 in
  let '(b, c) := Add64 b cc1 c in
  let d := u64 (d + c) in
  set_h a b d p.

Definition block (m : bytes) (hibit : Z) (p : poly1305) : poly1305 :=
  let p := absorb m hibit p in reduce (multiply p) p.

(** [n] whole blocks, then the rest padded with zeros. *)
Fixpoint write_blocks (n : nat) (data : bytes) (p : poly1305) : poly1305 :=
  match n with
  | O => if 0 <? len data then block (data ++ replicate (16 - length data) 0) 1 p else p
  | S n => write_blocks n (drop 16 data) (block (take 16 data) 1 p)
  end.

Definition writePadded (data : bytes) (p : poly1305) : poly1305 := write_blocks (length data / 16) data p.

Definition sum (p : poly1305) : bytes :=
  let '(t0, b) := Sub64 (h0 p) 0xfffffffffffffffb 0 in
  let '(t1, b) := Sub64 (h1 p) 0xffffffffffffffff b in
  let '(_, b) := Sub64 (h2 p) 3 b in
  let mask := u64 (b - 1) in
  let a := Z.lor (and_not (h0 p) mask) (Z.land t0 mask) in
  let d := Z.lor (and_not (h1 p) mask) (Z.land t1 mask) in
  let '(a, c) := Add64 a (s0 p) 0 in
  let '(d, _) := Add64 d (s1 p) c in
  le_bytes 8 a ++ le_bytes 8 d.

(** * The AEAD *)

Definition tag (key nonce : list Z) (ciphertext additionalData : bytes) : bytes :=
  let polyKey := take 32 (chachaBlock key 0 nonce) in
  let p := newPoly1305 polyKey in
  let p := writePadded additionalData p in
  let p := writePadded ciphertext p in
  let lens := le_bytes 8 (u64 (len additionalData)) ++ le_bytes 8 (u64 (len ciphertext)) in
  sum (block lens 1 p).

Definition newChaCha20Poly1305 (key : bytes) : option (list Z) :=
  if negb (len key =? chachaKeySize) then None else Some (chachaKey key).

Definition Seal (key : list Z) (nonce plaintext additionalData : bytes) : bytes :=
  let n := chachaNonce nonce in
  let out := chachaXOR plaintext key 1 n in
  out ++ tag key n out additionalData.

Definition Open (key : list Z) (nonce ciphertext additionalData : bytes) : option bytes :=
  if len ciphertext <? poly1305TagSize then None
  else
    let n := chachaNonce nonce in
    let body := take (Z.to_nat (len ciphertext - poly1305TagSize)) ciphertext in
    if negb (bool_decide (tag key n body additionalData = drop (length body) ciphertext)) then None
    else Some (chachaXOR body key 1 n).

(** * RFC 8439's example, section 2.8.2 *)

Definition rfc_key : bytes := seqZ 0x80 32.
Definition rfc_nonce : bytes := [7; 0; 0; 0] ++ seqZ 0x40 8.
Definition rfc_aad : bytes := [0x50; 0x51; 0x52; 0x53] ++ seqZ 0xc0 8.
Definition rfc_text : bytes :=
  [76;97;100;105;101;115;32;97;110;100;32;71;101;110;116;108;101;109;101;110;32;111;102;32;116;104;101;32;99;108;97;115;115;32;111;102;
   32;39;57;57;58;32;73;102;32;73;32;99;111;117;108;100;32;111;102;102;101;114;32;121;111;117;32;111;110;108;121;32;111;110;101;32;116;
   105;112;32;102;111;114;32;116;104;101;32;102;117;116;117;114;101;44;32;115;117;110;115;99;114;101;101;110;32;119;111;117;108;100;32;
   98;101;32;105;116;46].

Example rfc_tag :
  drop 114 (Seal (chachaKey rfc_key) rfc_nonce rfc_text rfc_aad) =
    [0x1a; 0xe1; 0x0b; 0x59; 0x4f; 0x09; 0xe2; 0x6a; 0x7e; 0x90; 0x2e; 0xcb; 0xd0; 0x60; 0x06; 0x91].
Proof. vm_compute. reflexivity. Qed.

(** * The limbs of [math/bits] *)

Abbreviation w64 := (2 ^ 64).

Lemma Add64_spec x y c s c' :
  0 <= x < w64 -> 0 <= y < w64 -> 0 <= c <= 1 -> Add64 x y c = (s, c') ->
  s + w64 * c' = x + y + c /\ 0 <= s < w64 /\ 0 <= c' <= 1.
Proof.
  intros Hx Hy Hc [= <- <-]. unfold u64. pose proof (Z.div_mod (x + y + c) w64 ltac:(lia)).
  pose proof (Z.mod_pos_bound (x + y + c) w64 ltac:(lia)). lia.
Qed.

Lemma Mul64_spec x y hi lo : 0 <= x -> 0 <= y -> Mul64 x y = (hi, lo) -> lo + w64 * hi = x * y /\ 0 <= lo < w64 /\ 0 <= hi.
Proof.
  intros Hx Hy [= <- <-]. unfold u64. pose proof (Z.div_mod (x * y) w64 ltac:(lia)).
  pose proof (Z.mod_pos_bound (x * y) w64 ltac:(lia)). assert (0 <= x * y) by nia.
  pose proof (Z.div_pos (x * y) w64 ltac:(lia) ltac:(lia)). lia.
Qed.

Lemma Sub64_spec x y b d b' :
  0 <= x < w64 -> 0 <= y < w64 -> 0 <= b <= 1 -> Sub64 x y b = (d, b') ->
  d - w64 * b' = x - y - b /\ 0 <= d < w64 /\ 0 <= b' <= 1.
Proof.
  intros Hx Hy Hb [= <- <-]. unfold u64. destruct (Z.ltb_spec x (y + b)).
  - rewrite <- (Z.mod_unique (x - y - b) w64 (-1) (x - y - b + w64)) by lia. lia.
  - rewrite Z.mod_small by lia. lia.
Qed.

(** Name the results of an operation and what they satisfy. *)
Ltac add_step :=
  match goal with
  | |- context [Add64 ?x ?y ?c] =>
      let s := fresh "s" in let k := fresh "k" in let E := fresh "E" in
      destruct (Add64 x y c) as [s k] eqn:E; apply Add64_spec in E; [|lia..]; destruct E as (? & ? & ?)
  end.
Ltac mul_step :=
  match goal with
  | |- context [Mul64 ?x ?y] =>
      let s := fresh "hi" in let k := fresh "lo" in let E := fresh "E" in
      destruct (Mul64 x y) as [s k] eqn:E; apply Mul64_spec in E; [|lia..]; destruct E as (? & ? & ?)
  end.

Lemma le64_range b o : bytes_ok b -> 0 <= le64 b o < w64.
Proof.
  intros Hb. unfold le64. assert (H : bytes_ok (take 8 (drop o b))) by (by apply Forall_take, Forall_drop).
  pose proof (le_val_range _ H) as [? Hlt]. split; [done|]. eapply Z.lt_le_trans; [done|].
  change w64 with (256 ^ 8). apply Z.pow_le_mono_r; [lia|]. unfold len. rewrite length_take. lia.
Qed.

Lemma le64_pair b : length b = 16%nat -> le_val b = le64 b 0 + w64 * le64 b 8.
Proof.
  intros Hl. unfold le64. rewrite drop_0, <- (take_drop 8 b) at 1. rewrite le_val_app.
  rewrite (take_ge (drop 8 b)) by (rewrite length_drop; lia). f_equal. f_equal.
  unfold len. rewrite length_take, Hl. done.
Qed.

(** * A block *)

Definition hval (p : poly1305) : Z := h0 p + w64 * h1 p + 2 ^ 128 * h2 p.
Definition rval (p : poly1305) : Z := r0 p + w64 * r1 p.
Definition sval (p : poly1305) : Z := s0 p + w64 * s1 p.

Record limbs (p : poly1305) (top : Z) : Prop := {
  l_h0 : 0 <= h0 p < w64;
  l_h1 : 0 <= h1 p < w64;
  l_h2 : 0 <= h2 p <= top;
  l_r0 : 0 <= r0 p < 2 ^ 60;
  l_r1 : 0 <= r1 p < 2 ^ 60;
  l_s0 : 0 <= s0 p < w64;
  l_s1 : 0 <= s1 p < w64;
}.

Lemma poly_absorb_spec m hibit p :
  limbs p 4 -> bytes_ok m -> length m = 16%nat -> 0 <= hibit <= 1 ->
  limbs (absorb m hibit p) 6 /\ hval (absorb m hibit p) = hval p + le_val m + 2 ^ 128 * hibit.
Proof.
  intros [] Hm Hl Hb. pose proof (le64_range m 0 Hm). pose proof (le64_range m 8 Hm). rewrite (le64_pair m Hl).
  unfold absorb. do 2 add_step. assert (E : u64 (h2 p + (k0 + hibit)) = h2 p + (k0 + hibit)) by (apply u64_small; lia).
  rewrite E. unfold hval. split; [split; cbn; lia|]. cbn. lia.
Qed.

Lemma multiply_spec p t0 t1 t2 t3 :
  limbs p 6 -> multiply p = (t0, t1, t2, t3) ->
  t0 + w64 * t1 + 2 ^ 128 * t2 + 2 ^ 192 * t3 = hval p * rval p /\
  0 <= t0 < w64 /\ 0 <= t1 < w64 /\ 0 <= t2 < w64 /\ 0 <= t3 < 2 ^ 63.
Proof.
  intros []. unfold multiply, hval, rval.
  do 4 mul_step.
  assert (hi < 2 ^ 60 /\ hi0 < 2 ^ 60 /\ hi1 < 2 ^ 60 /\ hi2 < 2 ^ 60) as (? & ? & ? & ?) by nia.
  assert (Ha : 0 <= h2 p * r0 p <= 6 * (2 ^ 60)) by nia. assert (Hb : 0 <= h2 p * r1 p <= 6 * (2 ^ 60)) by nia.
  rewrite (u64_small (h2 p * r0 p)), (u64_small (h2 p * r1 p)) by lia.
  repeat add_step. intros [= <- <- <- <-].
  replace ((h0 p + w64 * h1 p + 2 ^ 128 * h2 p) * (r0 p + w64 * r1 p)) with
    (h0 p * r0 p + w64 * (h1 p * r0 p) + w64 * (h0 p * r1 p) + 2 ^ 128 * (h1 p * r1 p) + 2 ^ 128 * (h2 p * r0 p) + 2 ^ 192 * (h2 p * r1 p)) by lia.
  lia.
Qed.

Lemma and_not_ldiff x y : 0 <= x < w64 -> and_not x y = Z.ldiff x y.
Proof.
  intros Hx. unfold and_not. apply Z.bits_inj'. intros i Hi. rewrite Z.land_spec, Z.ldiff_spec, Z.lxor_spec.
  change (w64 - 1) with (Z.ones 64). destruct (Z.lt_ge_cases i 64).
  - rewrite Z.ones_spec_low by lia. by rewrite xorb_true_r.
  - rewrite <- (Z.mod_small x w64) by lia. by rewrite Z.mod_pow2_bits_high by lia.
Qed.

Lemma and_not_3 x : 0 <= x < w64 -> and_not x 3 = 4 * (x / 4).
Proof.
  intros Hx. rewrite and_not_ldiff by done. change 3 with (Z.ones 2).
  rewrite Z.ldiff_ones_r, Z.shiftr_div_pow2, Z.shiftl_mul_pow2 by lia. change (2 ^ 2) with 4. lia.
Qed.

Lemma high_bits t2 t3 :
  0 <= t2 < w64 -> 0 <= t3 < w64 ->
  Z.lor (Z.shiftr (4 * (t2 / 4)) 2) (u64 (Z.shiftl t3 62)) = t2 / 4 + 2 ^ 62 * (t3 mod 4).
Proof.
  intros H2 H3. rewrite Z.shiftr_div_pow2, Z.shiftl_mul_pow2 by lia. change (2 ^ 2) with 4.
  rewrite (Z.mul_comm 4 (t2 / 4)), Z.div_mul by lia. unfold u64. change w64 with (4 * 2 ^ 62) at 1.
  rewrite Z.mul_mod_distr_r by lia. rewrite Z.lor_comm, lor_add; [lia|lia|].
  split; [apply Z.div_pos; lia|apply Z.div_lt_upper_bound; lia].
Qed.

Lemma reduce_spec t0 t1 t2 t3 p (t := t0 + w64 * t1 + 2 ^ 128 * t2 + 2 ^ 192 * t3) :
  limbs p 6 -> 0 <= t0 < w64 -> 0 <= t1 < w64 -> 0 <= t2 < w64 -> 0 <= t3 < 2 ^ 63 ->
  limbs (reduce (t0, t1, t2, t3) p) 4 /\ exists c, hval (reduce (t0, t1, t2, t3) p) = t - (2 ^ 130 - 5) * c.
Proof.
  intros [] H0 H1 H2 H3. unfold reduce. rewrite (land_mask 2 t2 ltac:(lia) : Z.land t2 3 = t2 mod 4).
  rewrite and_not_3 by done. rewrite high_bits by lia. rewrite Z.shiftr_div_pow2 by lia. change (2 ^ 2) with 4.
  pose proof (Z.div_mod t2 4 ltac:(lia)) as Q2. pose proof (Z.mod_pos_bound t2 4 ltac:(lia)) as M2.
  pose proof (Z.div_mod t3 4 ltac:(lia)) as Q3. pose proof (Z.mod_pos_bound t3 4 ltac:(lia)) as M3.
  set (q2 := t2 / 4) in *. set (m2 := t2 mod 4) in *. set (q3 := t3 / 4) in *. set (m3 := t3 mod 4) in *. clearbody q2 m2 q3 m3.
  do 2 add_step. rewrite (u64_small (m2 + k0)) by lia. do 2 add_step. rewrite (u64_small (m2 + k0 + k2)) by lia.
  assert (E : s3 + w64 * s4 + 2 ^ 128 * (m2 + k0 + k2) = t - (2 ^ 130 - 5) * (q2 + 2 ^ 62 * t3)) by (unfold t; lia).
  unfold hval. split; [split; cbn; unfold t in *; lia|]. exists (q2 + 2 ^ 62 * t3). exact E.
Qed.

Abbreviation P1305 := (2 ^ 130 - 5).

(** A block adds the message and multiplies by [r], modulo 2^130 - 5. *)
Lemma block_spec m hibit p :
  limbs p 4 -> bytes_ok m -> length m = 16%nat -> 0 <= hibit <= 1 ->
  limbs (block m hibit p) 4 /\ rval (block m hibit p) = rval p /\ sval (block m hibit p) = sval p /\
  hval (block m hibit p) mod P1305 = (hval p + le_val m + 2 ^ 128 * hibit) * rval p mod P1305.
Proof.
  intros Hp Hm Hl Hb. destruct (poly_absorb_spec m hibit p Hp Hm Hl Hb) as [Ha Ev]. unfold block.
  assert (Er : rval (absorb m hibit p) = rval p /\ sval (absorb m hibit p) = sval p).
  { unfold absorb. destruct (Add64 _ _ 0) as [a c]. destruct (Add64 _ _ c) as [b d]. done. }
  destruct (multiply (absorb m hibit p)) as [[[t0 t1] t2] t3] eqn:Et.
  destruct (multiply_spec _ _ _ _ _ Ha Et) as (Et' & H0 & H1 & H2 & H3).
  destruct (reduce_spec t0 t1 t2 t3 (absorb m hibit p) Ha H0 H1 H2 H3) as (Hl' & c & Ec).
  assert (Erd : rval (reduce (t0, t1, t2, t3) (absorb m hibit p)) = rval (absorb m hibit p) /\
    sval (reduce (t0, t1, t2, t3) (absorb m hibit p)) = sval (absorb m hibit p)).
  { unfold reduce. destruct (Add64 t0 _ 0) as [a c1]. destruct (Add64 t1 _ c1) as [b c2]. destruct (Add64 a _ 0) as [a' c3].
    by destruct (Add64 b _ c3). }
  destruct Er as [Er Es], Erd as [Er' Es']. split; [done|]. split; [congruence|]. split; [congruence|].
  rewrite Ec, Et', Ev, Er. set (x := _ * rval p). replace (x - P1305 * c) with (x + - c * P1305) by lia. apply Z.mod_add. lia.
Qed.

(** * The authenticator *)

(** RFC 8439: each block of at most 16 bytes, with a 1 above its 16 bytes. *)
Fixpoint poly_eval (blocks : list bytes) (r acc : Z) : Z :=
  match blocks with
  | [] => acc
  | m :: blocks => poly_eval blocks r ((acc + le_val m + 2 ^ 128) * r mod P1305)
  end.

(** The blocks of a message padded with zeros. *)
Fixpoint pad16_blocks (n : nat) (data : bytes) : list bytes :=
  match n with
  | O => if 0 <? len data then [data ++ replicate (16 - length data) 0] else []
  | S n => take 16 data :: pad16_blocks n (drop 16 data)
  end.
Definition pad16 (data : bytes) : list bytes := pad16_blocks (length data / 16) data.

Definition absorbed (p p' : poly1305) (blocks : list bytes) : Prop :=
  limbs p' 4 /\ rval p' = rval p /\ sval p' = sval p /\
  hval p' mod P1305 = poly_eval blocks (rval p) (hval p mod P1305).

Lemma absorbed_block m p : limbs p 4 -> bytes_ok m -> length m = 16%nat -> absorbed p (block m 1 p) [m].
Proof.
  intros Hp Hm Hl. destruct (block_spec m 1 p Hp Hm Hl ltac:(lia)) as (H1 & H2 & H3 & H4).
  split; [done|]. split; [done|]. split; [done|]. cbn [poly_eval]. rewrite H4.
  rewrite Z.mul_1_r, <- !Z.add_assoc, (Z.mul_mod (hval p mod _ + _)), Z.add_mod_idemp_l, <- Z.mul_mod by lia. done.
Qed.

Lemma poly_eval_app a b r acc : poly_eval (a ++ b) r acc = poly_eval b r (poly_eval a r acc).
Proof. revert acc. induction a as [|m a IH]; intros acc; cbn; [done|]. apply IH. Qed.

Lemma absorbed_app p q s a b : absorbed p q a -> absorbed q s b -> absorbed p s (a ++ b).
Proof.
  intros (? & Er & Es & Ev) (? & Er' & Es' & Ev'). split; [done|]. split; [congruence|]. split; [congruence|].
  by rewrite poly_eval_app, <- Ev, <- Er.
Qed.

Lemma write_blocks_spec n data p :
  limbs p 4 -> bytes_ok data -> (length data / 16 = n)%nat -> absorbed p (write_blocks n data p) (pad16_blocks n data).
Proof.
  revert data p. induction n as [|n IH]; intros data p Hp Hd Hn; cbn [write_blocks pad16_blocks].
  - assert (length data < 16)%nat by (apply Nat.div_small_iff; lia). destruct (Z.ltb_spec 0 (len data)).
    + apply absorbed_block; [done| |rewrite length_app, length_replicate; lia].
      apply Forall_app. split; [done|]. apply Forall_replicate. unfold byte_ok. lia.
    + split; [done|]. by repeat split.
  - assert (Hge : (16 <= length data)%nat) by (destruct (Nat.lt_ge_cases (length data) 16); [rewrite Nat.div_small in Hn; lia|done]).
    change (take 16 data :: pad16_blocks n (drop 16 data)) with ([take 16 data] ++ pad16_blocks n (drop 16 data)).
    assert (Hb : absorbed p (block (take 16 data) 1 p) [take 16 data])
      by (apply absorbed_block; [done|by apply Forall_take|rewrite length_take; lia]).
    eapply absorbed_app; [exact Hb|]. apply IH; [apply Hb|by apply Forall_drop|].
    rewrite length_drop. replace (length data) with (length data - 16 + 1 * 16)%nat in Hn by lia.
    rewrite Nat.div_add in Hn by lia. lia.
Qed.

Lemma writePadded_spec data p : limbs p 4 -> bytes_ok data -> absorbed p (writePadded data p) (pad16 data).
Proof. intros Hp Hd. by apply write_blocks_spec. Qed.

Lemma choose_mask b x y : 0 <= x < w64 -> 0 <= y < w64 -> 0 <= b <= 1 ->
  Z.lor (and_not x (u64 (b - 1))) (Z.land y (u64 (b - 1))) = if b =? 0 then y else x.
Proof.
  intros Hx Hy Hb. rewrite and_not_ldiff by done. assert (b = 0 \/ b = 1) as [->| ->] by lia; cbn [Z.eqb].
  - change (u64 (0 - 1)) with (Z.ones 64). rewrite Z.ldiff_ones_r, Z.land_ones by lia.
    rewrite Z.shiftr_div_pow2, Z.div_small, Z.mod_small by lia. done.
  - change (u64 (1 - 1)) with 0. by rewrite Z.ldiff_0_r, Z.land_0_r, Z.lor_0_r.
Qed.

Lemma le_pair a b : 0 <= a < w64 -> 0 <= b < w64 -> le_bytes 8 a ++ le_bytes 8 b = le_bytes 16 (a + w64 * b).
Proof.
  intros Ha Hb. set (l := le_bytes 8 a ++ le_bytes 8 b). assert (Hl : bytes_ok l) by (apply Forall_app; auto with fib).
  assert (El : length l = 16%nat) by (unfold l; by rewrite length_app, !le_bytes_length).
  rewrite <- (le_bytes_val l Hl), El. f_equal. unfold l. rewrite le_val_app, !le_val_bytes. unfold len. rewrite le_bytes_length.
  change (256 ^ Z.of_nat 8) with w64. by rewrite !Z.mod_small.
Qed.

(** [sum]: the remainder modulo 2^130 - 5, plus [s], in 128 bits. *)
Lemma sum_spec p : limbs p 4 -> sum p = le_bytes 16 ((hval p mod P1305 + sval p) mod 2 ^ 128).
Proof.
  intros []. unfold sum.
  destruct (Sub64 (h0 p) 0xfffffffffffffffb 0) as [t0 b0] eqn:E0. apply Sub64_spec in E0; [|lia..]. destruct E0 as (E0 & Ht0 & Hb0).
  destruct (Sub64 (h1 p) 0xffffffffffffffff b0) as [t1 b1] eqn:E1. apply Sub64_spec in E1; [|lia..]. destruct E1 as (E1 & Ht1 & Hb1).
  destruct (Sub64 (h2 p) 3 b1) as [t2 b2] eqn:E2. apply Sub64_spec in E2; [|lia..]. destruct E2 as (E2 & Ht2 & Hb2).
  rewrite !choose_mask by lia.
  set (a := if b2 =? 0 then t0 else h0 p). set (d := if b2 =? 0 then t1 else h1 p).
  assert (Hm : exists k, a + w64 * d = hval p mod P1305 - 2 ^ 128 * k /\ 0 <= a < w64 /\ 0 <= d < w64).
  { unfold a, d, hval. destruct (Z.eqb_spec b2 0) as [->|Hne].
    - exists t2. split; [|lia]. rewrite <- (Z.mod_unique (h0 p + w64 * h1 p + 2 ^ 128 * h2 p) P1305 1
        (h0 p + w64 * h1 p + 2 ^ 128 * h2 p - P1305)) by lia. lia.
    - exists (h2 p). split; [|lia]. rewrite Z.mod_small by lia. lia. }
  destruct Hm as (k & Ek & Ha & Hd). clearbody a d. do 2 add_step. rewrite le_pair by done. f_equal. unfold sval.
  apply Z.mod_unique with (q := k + k1); lia.
Qed.

(** RFC 8439 section 2.5. *)
Definition clamp : Z := 0x0ffffffc0ffffffc0ffffffc0fffffff.
Definition poly_mac (key : bytes) (blocks : list bytes) : bytes :=
  let r := Z.land (le_val (take 16 key)) clamp in
  let s := le_val (take 16 (drop 16 key)) in
  le_bytes 16 ((poly_eval blocks r 0 + s) mod 2 ^ 128).

Lemma land_bound x m k : 0 <= x -> 0 <= k -> 0 <= m < 2 ^ k -> 0 <= Z.land x m < 2 ^ k.
Proof.
  intros Hx Hk Hm. split; [apply Z.land_nonneg; lia|].
  replace (Z.land x m) with (Z.land x m mod 2 ^ k); [apply Z.mod_pos_bound; lia|].
  rewrite <- Z.land_ones, <- Z.land_assoc by lia. f_equal. rewrite Z.land_ones by lia. by apply Z.mod_small.
Qed.

Lemma land_split x y m n : 0 <= x < w64 -> 0 <= m < w64 -> Z.land (x + w64 * y) (m + w64 * n) = Z.land x m + w64 * Z.land y n.
Proof.
  intros Hx Hm. assert (H : forall a b, 0 <= a < w64 -> a + w64 * b = Z.lor (b * w64) a) by (intros; rewrite (lor_add 64); lia).
  pose proof (land_bound x m 64 ltac:(lia) ltac:(lia) Hm) as Hr.
  rewrite !H by done. apply Z.bits_inj'. intros i Hi. rewrite Z.land_spec, !Z.lor_spec, Z.land_spec.
  assert (Hhi : forall a, 0 <= a < w64 -> 64 <= i -> Z.testbit a i = false).
  { intros a Ha Hi8. rewrite <- (Z.mod_small a w64) by lia. apply Z.mod_pow2_bits_high. lia. }
  destruct (Z.lt_ge_cases i 64).
  - by rewrite !Z.mul_pow2_bits_low by lia.
  - rewrite !Z.mul_pow2_bits by lia. rewrite (Hhi x), (Hhi m) by done. by rewrite Z.land_spec, !orb_false_r.
Qed.

Lemma le64_sub b o : (o + 16 <= length b)%nat -> le_val (take 16 (drop o b)) = le64 b o + w64 * le64 b (o + 8).
Proof.
  intros Hl. rewrite (le64_pair (take 16 (drop o b))) by (rewrite length_take, length_drop; lia).
  unfold le64. rewrite drop_0, take_take, skipn_firstn_comm, drop_drop, take_take. done.
Qed.

Lemma newPoly_spec key :
  bytes_ok key -> length key = 32%nat ->
  limbs (newPoly1305 key) 4 /\ hval (newPoly1305 key) = 0 /\
  rval (newPoly1305 key) = Z.land (le_val (take 16 key)) clamp /\ sval (newPoly1305 key) = le_val (take 16 (drop 16 key)).
Proof.
  intros Hk Hl. pose proof (le64_range key) as Hr. assert (Hr' := fun o => Hr o Hk).
  split; [|split; [done|split]].
  - split; cbn; try lia; try apply Hr'; (apply land_bound; [apply Hr'|lia|split; [lia|reflexivity]]).
  - unfold rval. cbn [newPoly1305 r0 r1]. rewrite <- (drop_0 key) at 3. rewrite le64_sub by lia.
    change clamp with (0x0ffffffc0fffffff + w64 * 0x0ffffffc0ffffffc). rewrite land_split; [done|apply Hr'|lia].
  - unfold sval. cbn [newPoly1305 s0 s1]. by rewrite le64_sub by lia.
Qed.

(** * The key stream *)

Lemma qr_length a b c d x : length (qr a b c d x) = length x.
Proof. unfold qr. by rewrite !length_insert. Qed.

Lemma double_round_length x : length (double_round x) = length x.
Proof.
  unfold double_round. generalize quarters. intros l. revert x. induction l as [|[[[a b] c] d] l IH]; intros x; [done|].
  cbn [fold_left]. rewrite IH. apply qr_length.
Qed.

Lemma times_length {A} (f : list A -> list A) n x :
  (forall x, length (f x) = length x) -> length (times n f x) = length x.
Proof. intros Hf. revert x. induction n as [|n IH]; intros x; [done|]. cbn [times]. by rewrite IH, Hf. Qed.

Lemma rounds_length n x : length (rounds n x) = length x.
Proof. exact (times_length double_round n x double_round_length). Qed.

Lemma words_length n b : length (words n b) = n.
Proof. revert b. induction n; intros b; cbn; congruence. Qed.

Lemma mjoin_le4 (l : list Z) : length (mjoin ((fun w => le_bytes 4 w) <$> l)) = (4 * length l)%nat /\ bytes_ok (mjoin ((fun w => le_bytes 4 w) <$> l)).
Proof.
  induction l as [|w l [IH1 IH2]]; [by split|].
  change (mjoin ((fun w => le_bytes 4 w) <$> w :: l)) with (le_bytes 4 w ++ mjoin ((fun w => le_bytes 4 w) <$> l)). split.
  - rewrite length_app, le_bytes_length, IH1. cbn [length]. lia.
  - apply Forall_app. split; [apply le_bytes_ok|done].
Qed.

Lemma fmap_zip {A B C D} (f : C -> D) (g : A -> B -> C) (a : list A) (b : list B) :
  f <$> zip_with g a b = zip_with (fun x y => f (g x y)) a b.
Proof. revert b. induction a as [|x a IH]; intros [|y b]; cbn; [done..|]. f_equal. apply IH. Qed.

Lemma chachaBlock_shape key counter nonce :
  length key = 8%nat -> length nonce = 3%nat -> length (chachaBlock key counter nonce) = 64%nat /\ bytes_ok (chachaBlock key counter nonce).
Proof.
  intros Hk Hn. unfold chachaBlock. set (s := chacha_init key counter nonce).
  assert (Hs : length s = 16%nat) by (unfold s, chacha_init; rewrite !length_app; cbn; lia).
  replace (zip_with _ _ s) with ((fun w => le_bytes 4 w) <$> zip_with (fun x s => u32 (x + s)) (rounds 10 s) s)
    by apply fmap_zip.
  destruct (mjoin_le4 (zip_with (fun x s => u32 (x + s)) (rounds 10 s) s)) as [H1 H2]. split; [|done].
  rewrite H1, length_zip_with, rounds_length, Hs. lia.
Qed.

Lemma xor_zip_twice a k : (length a <= length k)%nat -> zip_with Z.lxor (zip_with Z.lxor a k) k = a.
Proof.
  revert k. induction a as [|x a IH]; intros [|y k] Hl; cbn in *; try (done || lia).
  rewrite IH by lia. f_equal. by rewrite Z.lxor_assoc, Z.lxor_nilpotent, Z.lxor_0_r.
Qed.

Lemma xor_zip_ok a k : bytes_ok a -> bytes_ok k -> bytes_ok (zip_with Z.lxor a k).
Proof.
  intros Ha. revert k. induction Ha as [|x a Hx Ha IH]; intros [|y k] Hk; cbn; try constructor.
  - apply lxor_byte_ok; [done|]. by apply Forall_cons in Hk as [? _].
  - apply IH. by apply Forall_cons in Hk as [_ ?].
Qed.

Section stream.
Context (key nonce : list Z) (Hkey : length key = 8%nat) (Hnonce : length nonce = 3%nat).

Lemma chachaXOR_step fuel x src counter (l := x :: src) (blk := chachaBlock key counter nonce) :
  chachaXOR_loop (S fuel) l key counter nonce =
    zip_with Z.lxor (take 64 l) blk ++ chachaXOR_loop fuel (drop 64 l) key (u32 (counter + 1)) nonce /\
  length (zip_with Z.lxor (take 64 l) blk) = length (take 64 l).
Proof.
  split; [done|]. unfold blk. rewrite length_zip_with. destruct (chachaBlock_shape key counter nonce Hkey Hnonce) as [-> _].
  rewrite length_take. lia.
Qed.

Lemma chachaXOR_loop_spec fuel src counter :
  (length src <= fuel)%nat ->
  length (chachaXOR_loop fuel src key counter nonce) = length src /\
  chachaXOR_loop fuel (chachaXOR_loop fuel src key counter nonce) key counter nonce = src /\
  (bytes_ok src -> bytes_ok (chachaXOR_loop fuel src key counter nonce)).
Proof.
  revert src counter. induction fuel as [|fuel IH]; intros src counter Hf; [destruct src; [done|cbn in Hf; lia]|].
  destruct src as [|x src]; [done|]. destruct (chachaXOR_step fuel x src counter) as [E Hl].
  set (l := x :: src) in *. set (blk := chachaBlock key counter nonce) in *. rewrite E.
  destruct (IH (drop 64 l) (u32 (counter + 1))) as (L1 & L2 & L3); [rewrite length_drop; unfold l in *; cbn [length] in *; lia|].
  destruct (chachaBlock_shape key counter nonce Hkey Hnonce) as [Bl Bo]. fold blk in Bl, Bo.
  set (a := zip_with Z.lxor (take 64 l) blk) in *. set (r := chachaXOR_loop fuel (drop 64 l) key (u32 (counter + 1)) nonce) in *.
  assert (Hal : length a = Nat.min 64 (length l)) by (rewrite Hl, length_take; lia).
  split; [rewrite length_app, Hal, L1, length_drop; lia|]. split.
  - destruct (a ++ r) as [|y t] eqn:Ear.
    { apply app_eq_nil in Ear as [Ea _]. rewrite Ea in Hal. unfold l in Hal. cbn in Hal. lia. }
    cbn [chachaXOR_loop]. rewrite <- Ear. fold blk.
    assert (Et : take 64 (a ++ r) = a).
    { destruct (Nat.le_gt_cases 64 (length l)); [apply take_app_length'; lia|].
      assert (r = []) as -> by (apply length_zero_iff_nil; rewrite L1, length_drop; lia). rewrite app_nil_r. apply take_ge. lia. }
    assert (Ed : drop 64 (a ++ r) = r).
    { destruct (Nat.le_gt_cases 64 (length l)); [apply drop_app_length'; lia|].
      assert (r = []) as -> by (apply length_zero_iff_nil; rewrite L1, length_drop; lia). rewrite app_nil_r. apply drop_ge. lia. }
    rewrite Et, Ed, L2. unfold a. rewrite xor_zip_twice by (rewrite length_take; lia). apply take_drop.
  - intros Hok. apply Forall_app. split; [apply xor_zip_ok; [by apply Forall_take|done]|apply L3; by apply Forall_drop].
Qed.
End stream.

Lemma chachaXOR_spec key counter nonce src :
  length key = 8%nat -> length nonce = 3%nat ->
  length (chachaXOR src key counter nonce) = length src /\
  chachaXOR (chachaXOR src key counter nonce) key counter nonce = src /\
  (bytes_ok src -> bytes_ok (chachaXOR src key counter nonce)).
Proof.
  intros Hk Hn. destruct (chachaXOR_loop_spec key nonce Hk Hn (length src) src counter) as (H1 & H2 & H3); [lia|].
  unfold chachaXOR. by rewrite H1.
Qed.

(** * The theorems *)

(** The blocks the AEAD authenticates. *)
Definition aead_blocks (additionalData ciphertext : bytes) : list bytes :=
  pad16 additionalData ++ pad16 ciphertext ++
  [le_bytes 8 (len additionalData) ++ le_bytes 8 (len ciphertext)].

(** C35: the three-limb Poly1305 arithmetic computes RFC 8439's authenticator.
    The tag of any additional data and ciphertext is the polynomial of its
    blocks at the clamped key, evaluated modulo 2^130 - 5, plus the second half
    of the key modulo 2^128: no carry is lost in any of the 64-bit steps. *)
Theorem tag_correct key nonce ct ad :
  length key = 8%nat -> length nonce = 3%nat -> bytes_ok ct -> bytes_ok ad -> len ct < 2 ^ 64 -> len ad < 2 ^ 64 ->
  tag key nonce ct ad = poly_mac (take 32 (chachaBlock key 0 nonce)) (aead_blocks ad ct).
Proof.
  intros Hk Hn Hct Had Lc La. destruct (chachaBlock_shape key 0 nonce Hk Hn) as [Bl Bo]. unfold tag.
  set (pk := take 32 (chachaBlock key 0 nonce)).
  assert (Hpk : bytes_ok pk /\ length pk = 32%nat) by (split; [by apply Forall_take|unfold pk; rewrite length_take; lia]).
  destruct (newPoly_spec pk (proj1 Hpk) (proj2 Hpk)) as (L0 & V0 & R0 & S0). set (p0 := newPoly1305 pk) in *.
  pose proof (len_nonneg ct). pose proof (len_nonneg ad). rewrite !u64_small by lia.
  pose proof (writePadded_spec ad p0 L0 Had) as A1. pose proof (writePadded_spec ct _ (proj1 A1) Hct) as A2.
  set (lens := le_bytes 8 (len ad) ++ le_bytes 8 (len ct)).
  assert (A3 : absorbed (writePadded ct (writePadded ad p0)) (block lens 1 (writePadded ct (writePadded ad p0))) [lens]).
  { apply absorbed_block; [apply A2|apply Forall_app; auto with fib|unfold lens; by rewrite length_app, !le_bytes_length]. }
  destruct (absorbed_app _ _ _ _ _ A1 (absorbed_app _ _ _ _ _ A2 A3)) as (L & R & S & V).
  rewrite sum_spec by done. unfold poly_mac, aead_blocks. fold lens. rewrite V, S, R0, S0, V0. done.
Qed.

Lemma tag_correct_witness :
  tag (chachaKey rfc_key) (chachaNonce rfc_nonce) [1; 2; 3] [] =
    poly_mac (take 32 (chachaBlock (chachaKey rfc_key) 0 (chachaNonce rfc_nonce))) (aead_blocks [] [1; 2; 3]).
Proof. apply tag_correct; try reflexivity; by apply bytes_check. Defined.

Lemma tag_shape key nonce ct ad : length (tag key nonce ct ad) = 16%nat /\ bytes_ok (tag key nonce ct ad).
Proof.
  unfold tag, sum. set (p := block _ 1 _). destruct (Sub64 (h0 p) _ 0) as [t0 b0]. destruct (Sub64 (h1 p) _ b0) as [t1 b1].
  destruct (Sub64 (h2 p) 3 b1) as [t2 b2]. destruct (Add64 _ (s0 p) 0) as [a c]. destruct (Add64 _ (s1 p) c) as [d e].
  split; [by rewrite length_app, !le_bytes_length|]. apply Forall_app. auto with fib.
Qed.

(** [Open] takes exactly what [Seal] made. *)
Lemma Open_Seal key nonce ct ad pt :
  length key = 8%nat -> Open key nonce ct ad = Some pt <-> ct = Seal key nonce pt ad.
Proof.
  intros Hk. assert (Hn : length (chachaNonce nonce) = 3%nat) by apply words_length.
  destruct (tag_shape key (chachaNonce nonce) (chachaXOR pt key 1 (chachaNonce nonce)) ad) as [Tl _].
  unfold Open, Seal, poly1305TagSize. split.
  - destruct (Z.ltb_spec (len ct) 16) as [|Hl]; [done|]. case_bool_decide as Et; cbn [negb]; [|done]. intros [= <-].
    destruct (chachaXOR_spec key 1 (chachaNonce nonce) (take (Z.to_nat (len ct - 16)) ct) Hk Hn) as (_ & E2 & _).
    rewrite E2, Et. rewrite length_take, Nat.min_l by (unfold len in *; lia). by rewrite take_drop.
  - intros ->. set (out := chachaXOR pt key 1 (chachaNonce nonce)) in *.
    destruct (chachaXOR_spec key 1 (chachaNonce nonce) pt Hk Hn) as (El & E2 & _). fold out in El, E2.
    destruct (Z.ltb_spec (len (out ++ tag key (chachaNonce nonce) out ad)) 16) as [Hlt|_].
    { rewrite len_app in Hlt. unfold len in Hlt. lia. }
    replace (Z.to_nat (len (out ++ _) - 16)) with (length out) by (rewrite len_app; unfold len; lia).
    rewrite take_app_length, drop_app_length. rewrite bool_decide_true by done. cbn [negb]. by rewrite E2.
Qed.

Lemma Seal_shape key nonce pt ad :
  length key = 8%nat -> len (Seal key nonce pt ad) = len pt + 16 /\ (bytes_ok pt -> bytes_ok (Seal key nonce pt ad)).
Proof.
  intros Hk. assert (Hn : length (chachaNonce nonce) = 3%nat) by apply words_length.
  destruct (chachaXOR_spec key 1 (chachaNonce nonce) pt Hk Hn) as (El & _ & Eo). unfold Seal.
  destruct (tag_shape key (chachaNonce nonce) (chachaXOR pt key 1 (chachaNonce nonce)) ad) as [Tl To].
  split; [rewrite len_app; unfold len; lia|]. intros Hp. apply Forall_app. auto.
Qed.
