(* ===== verification/QuicPacket.v ===== *)
(** QUIC packets (src/go/http3/internal/quic/packet.go, the nonce of crypto.go
    and the packet layout of send.go): headers, packet numbers, header and
    payload protection.

    The AEAD is an interface, [AEAD]; ChaCha20-Poly1305 is the instance the
    package implements itself, the standard library's AES-GCM would be another.
    A header protector is the function from a sample to its five-byte mask. *)
From S2P Require Import Prelude.
From S2P Require Import Varint.
From S2P Require Import Chacha.
From S2P Require Import QuicFrames.

(** * The AEAD interface *)

Class AEAD (K : Type) := {
  aead_seal : K -> bytes -> bytes -> bytes -> bytes;
  aead_open : K -> bytes -> bytes -> bytes -> option bytes;
  aead_key : K -> Prop;
  aead_open_seal k nonce ct ad pt : aead_key k -> aead_open k nonce ct ad = Some pt <-> ct = aead_seal k nonce pt ad;
  aead_seal_len k nonce pt ad : aead_key k -> len (aead_seal k nonce pt ad) = len pt + 16;
  aead_seal_ok k nonce pt ad : aead_key k -> bytes_ok pt -> bytes_ok (aead_seal k nonce pt ad);
}.

#[export] Instance chacha20Poly1305 : AEAD (list Z) := {
  aead_seal := Seal;
  aead_open := Open;
  aead_key k := length k = 8%nat;
  aead_open_seal k nonce ct ad pt H := Open_Seal k nonce ct ad pt H;
  aead_seal_len k nonce pt ad H := proj1 (Seal_shape k nonce pt ad H);
  aead_seal_ok k nonce pt ad H := proj2 (Seal_shape k nonce pt ad H);
}.

(** * Constants *)

Definition Version1 : Z := 1.
Definition packetInitial : Z := 0.
Definition packet0RTT : Z := 1.
Definition packetHandshake : Z := 2.
Definition packetRetry : Z := 3.
Definition packet1RTT : Z := 4.
Definition cidLen : Z := 8.
Definition minInitialDatagram : Z := 1200.
Definition maxDatagram : Z := 1200.
Definition aeadOverhead : Z := 16.

(** * Headers *)

Record header := Header {
  typ : Z; version : Z; dcid : bytes; scid : bytes; token : bytes; pnOffset : Z; end_ : Z;
}.

Inductive packet_error := errBadPacket | errUnknownVersion (h : header).

(** Reading from offset [p]: every slice is within the bounds just checked. *)
Definition sub (b : bytes) (p n : Z) : bytes := take (Z.to_nat n) (drop (Z.to_nat p) b).
Definition byte_at (b : bytes) (p : Z) : Z := default 0 (at_ b p).

(** The part behind the connection IDs. *)
Definition parseTail (b : bytes) (h : header) (p : Z) : result packet_error header :=
  let h t po e := Header (typ h) (version h) (dcid h) (scid h) t po e in
  if typ (h [] 0 0) =? packetRetry then Ok (h (drop (Z.to_nat p) b) 0 (len b))
  else
    let! (tok, p) :=
      if typ (h [] 0 0) =? packetInitial then
        let '(n, l) := ReadVarint (drop (Z.to_nat p) b) in
        if (l =? 0) || (len b - p - l <? n) then Err errBadPacket
        else Ok (sub b (p + l) n, p + l + n)
      else Ok ([], p) in
    let '(length, l) := ReadVarint (drop (Z.to_nat p) b) in
    if l =? 0 then Err errBadPacket
    else if len b - (p + l) <? length then Err errBadPacket
    else Ok (h tok (p + l) (p + l + length)).

Definition parseHeader (b : bytes) (shortDCIDLen : Z) : result packet_error header :=
  if len b =? 0 then Err errBadPacket
  else if Z.land (byte_at b 0) 0x80 =? 0 then
    if len b <? 1 + shortDCIDLen then Err errBadPacket
    else Ok (Header packet1RTT 0 (sub b 1 shortDCIDLen) [] [] (1 + shortDCIDLen) (len b))
  else if len b <? 7 then Err errBadPacket
  else
    let v := be_val (sub b 1 4) in
    let dl := byte_at b 5 in
    if ((maxCIDLen <? dl) && (v =? Version1)) || (len b <? 6 + dl + 1) then Err errBadPacket
    else
      let sl := byte_at b (6 + dl) in
      let p := 6 + dl + 1 in
      if ((maxCIDLen <? sl) && (v =? Version1)) || (len b <? p + sl) then Err errBadPacket
      else
        let h := Header 0 v (sub b 6 dl) (sub b p sl) [] 0 0 in
        if negb (v =? Version1) then Err (errUnknownVersion h)
        else if Z.land (byte_at b 0) 0x40 =? 0 then Err errBadPacket
        else
          let t := Z.land (Z.shiftr (byte_at b 0) 4) 3 in
          parseTail b (Header t v (dcid h) (scid h) [] 0 0) (p + sl).

(** * Packet numbers *)

Definition pnLen (pn largestAcked : Z) : Z :=
  let unacked := if largestAcked <? 0 then u64 (pn + 1) else u64 (pn - u64 largestAcked) in
  if unacked <? 2 ^ 7 then 1 else if unacked <? 2 ^ 15 then 2 else if unacked <? 2 ^ 23 then 3 else 4.

Definition decodePN (largest truncated n : Z) : Z :=
  let expected := u64 (largest + 1) in
  let win := u64 (Z.shiftl 1 (8 * n)) in
  let hwin := win / 2 in
  let mask := win - 1 in
  let candidate := Z.lor (and_not expected mask) truncated in
  if (u64 (candidate + hwin) <=? expected) && (candidate <? 2 ^ 62 - win) then u64 (candidate + win)
  else if (u64 (expected + hwin) <? candidate) && (win <=? candidate) then candidate - win
  else candidate.

(** * Protection *)

(** [chachaHeaderProtector.mask]: the start of the key stream block the sample
    selects. *)
Definition chacha_mask (key : list Z) (sample : bytes) : bytes :=
  take 5 (chachaBlock key (le_val (take 4 sample)) (chachaNonce (drop 4 sample))).

Lemma chacha_mask_shape key sample : length key = 8%nat -> length (chacha_mask key sample) = 5%nat /\ bytes_ok (chacha_mask key sample).
Proof.
  intros Hk. unfold chacha_mask. destruct (chachaBlock_shape key (le_val (take 4 sample)) (chachaNonce (drop 4 sample)) Hk) as [Hl Ho];
    [apply words_length|]. rewrite length_take, Hl. split; [done|]. by apply Forall_take.
Qed.

Section keys.
Context {K : Type} `{AEAD K}.

Record keys := Keys { aead : K; iv : bytes; hp : bytes -> bytes }.

Definition nonce (k : keys) (pn : Z) : bytes :=
  take 4 (iv k) ++ zip_with Z.lxor (drop 4 (iv k)) (be_bytes 8 pn).

(** The bits of the first byte that are protected. *)
Definition first_mask (first : Z) : Z := if negb (Z.land first 0x80 =? 0) then 0x0f else 0x1f.

(** XOR the first byte and the [n] bytes at [pnOffset] with the mask. *)
Definition mask_first (pkt mask : bytes) : bytes :=
  match pkt with
  | first :: rest => Z.lxor first (Z.land (byte_at mask 0) (first_mask first)) :: rest
  | [] => []
  end.

Definition mask_pn (pkt : bytes) (pnOffset n : Z) (mask : bytes) : bytes :=
  take (Z.to_nat pnOffset) pkt ++
  zip_with Z.lxor (sub pkt pnOffset n) (sub mask 1 n) ++ drop (Z.to_nat (pnOffset + n)) pkt.

(** The packet with header protection off, the packet number and its length. *)
Definition unprotect (pkt : bytes) (pnOffset : Z) (hp : bytes -> bytes) (largest : Z) : option (bytes * Z * Z) :=
  if len pkt <? pnOffset + 4 + 16 then None
  else
    let mask := hp (sub pkt (pnOffset + 4) 16) in
    let pkt := mask_first pkt mask in
    let n := Z.land (byte_at pkt 0) 3 + 1 in
    let pkt := mask_pn pkt pnOffset n mask in
    let truncated := fold_left (fun v c => Z.lor (u64 (Z.shiftl v 8)) c) (sub pkt pnOffset n) 0 in
    Some (pkt, decodePN largest truncated n, n).

(** [None] is the panic of a packet too short to be sampled. *)
Definition seal (k : keys) (pkt : bytes) (pnOffset n pn : Z) : option bytes :=
  let hdr := take (Z.to_nat (pnOffset + n)) pkt in
  let payload := drop (Z.to_nat (pnOffset + n)) pkt in
  let pkt := hdr ++ aead_seal (aead k) (nonce k pn) payload hdr in
  if len pkt <? pnOffset + 20 then None
  else
    let mask := hp k (sub pkt (pnOffset + 4) 16) in
    Some (mask_pn (mask_first pkt mask) pnOffset n mask).

Definition open (k : keys) (pkt : bytes) (hdrEnd pn : Z) : option bytes :=
  aead_open (aead k) (nonce k pn) (drop (Z.to_nat hdrEnd) pkt) (take (Z.to_nat hdrEnd) pkt).

(** * The packets [send.go] lays out *)

Definition spaceInitial : Z := 0.
Definition spaceHandshake : Z := 1.
Definition spaceApp : Z := 2.

Record packetPlan := Plan { p_space : Z; p_pn : Z; p_pnLen : Z; p_payload : bytes }.

(** What the layout takes from the connection. *)
Record ids := Ids { c_dcid : bytes; c_scid : bytes; c_token : bytes; c_keyPhase : bool }.

Definition headerLen (c : ids) (space pnLen : Z) : Z :=
  if space =? spaceApp then 1 + len (c_dcid c) + pnLen
  else 1 + 4 + 1 + len (c_dcid c) + 1 + len (c_scid c) + 2 + pnLen +
       (if space =? spaceInitial then VarintLen (len (c_token c)) + len (c_token c) else 0).

Definition packetSize (c : ids) (p : packetPlan) : Z := headerLen c (p_space p) (p_pnLen p) + len (p_payload p) + aeadOverhead.

(** The header up to the packet number. *)
Definition planHeader (c : ids) (p : packetPlan) : bytes :=
  if p_space p =? spaceApp then
    Z.lor (Z.lor 0x40 (u8 (p_pnLen p - 1))) (if c_keyPhase c then 0x04 else 0) :: c_dcid c
  else
    let t := if p_space p =? spaceHandshake then packetHandshake else packetInitial in
    let out := [Z.lor (Z.lor 0xc0 (u8 (Z.shiftl t 4))) (u8 (p_pnLen p - 1))] ++ be_bytes 4 Version1 ++
               [u8 (len (c_dcid c))] ++ c_dcid c ++ [u8 (len (c_scid c))] ++ c_scid c in
    let out := if p_space p =? spaceInitial then AppendVarint out (len (c_token c)) ++ c_token c else out in
    appendVarint2 out (p_pnLen p + len (p_payload p) + aeadOverhead).

Definition sealPlan (c : ids) (k : keys) (p : packetPlan) : option bytes :=
  let out := planHeader c p in
  seal k (out ++ be_bytes (Z.to_nat (p_pnLen p)) (p_pn p) ++ p_payload p) (len out) (p_pnLen p) (p_pn p).
End keys.
Arguments keys : clear implicits.

(** * Answers without a connection *)

Definition IsInitial (datagram : bytes) : bool :=
  if len datagram <? minInitialDatagram then false
  else match parseHeader datagram 0 with Ok h => typ h =? packetInitial | Err _ => false end.

(** [r] is the random byte. *)
Definition VersionNegotiation (r : Z) (datagram : bytes) : option bytes :=
  match parseHeader datagram 0 with
  | Err (errUnknownVersion h) =>
      if (version h =? 0) || (len datagram <? minInitialDatagram) then None
      else Some ([Z.lor 0x80 r; 0; 0; 0; 0; u8 (len (scid h))] ++ scid h ++ [u8 (len (dcid h))] ++ dcid h ++
                 be_bytes 4 Version1 ++ be_bytes 4 0x1a2a3a4a)
  | _ => None
  end.

(** [rnd] are the random bytes, [token] the key's token for a connection ID. *)
Definition StatelessReset (rnd : Z -> bytes) (token : bytes -> bytes) (datagram : bytes) : option bytes :=
  if (len datagram <? 1 + cidLen + 21) || negb (Z.land (byte_at datagram 0) 0x80 =? 0) then None
  else
    let size := Z.min (len datagram - 1) 64 in
    match rnd (size - statelessResetTokenLen) with
    | first :: rest => Some ((Z.lor (Z.land first 0x3f) 0x40 :: rest) ++ token (sub datagram 1 cidLen))
    | [] => None
    end.

(** * Packet numbers *)

Lemma and_not_low x k : 0 <= x < 2 ^ 64 -> 0 <= k -> and_not x (2 ^ k - 1) = x - x mod 2 ^ k.
Proof.
  intros Hx Hk. rewrite and_not_ldiff by done.
  replace (2 ^ k - 1) with (Z.ones k) by (rewrite Z.ones_equiv; lia).
  rewrite Z.ldiff_ones_r, Z.shiftr_div_pow2, Z.shiftl_mul_pow2 by lia. pose proof (Z.div_mod x (2 ^ k)). lia.
Qed.

(** The number closest to the one expected that ends in the bytes sent. *)
Lemma decodePN_spec largest pn n (win := 256 ^ n) :
  1 <= n <= 4 -> 0 <= pn < 2 ^ 62 -> -1 <= largest < 2 ^ 62 ->
  largest + 1 < pn + win / 2 -> pn <= largest + 1 + win / 2 ->
  decodePN largest (pn mod win) n = pn.
Proof.
  intros Hn Hpn Hl H1 H2. unfold decodePN. rewrite (u64_small (largest + 1)) by lia. set (e := largest + 1) in *.
  assert (Hw : win = 2 ^ (8 * n)) by (unfold win; rewrite Z.pow_mul_r by lia; done).
  assert (Hwin : 256 <= win <= 2 ^ 32).
  { rewrite Hw. change 256 with (2 ^ 8). split; apply Z.pow_le_mono_r; lia. }
  rewrite Z.shiftl_mul_pow2, Z.mul_1_l, <- Hw by lia. rewrite (u64_small win) by lia.
  assert (Ha : and_not e (win - 1) = e - e mod win) by (rewrite Hw; apply and_not_low; unfold e; lia). rewrite !Ha.
  assert (Heven : win = 2 * (win / 2)).
  { rewrite Hw. replace (8 * n) with (1 + (8 * n - 1)) by lia. rewrite Z.pow_add_r by lia. change (2 ^ 1) with 2.
    rewrite (Z.mul_comm 2), Z.div_mul by lia. lia. }
  set (hw := win / 2) in *.
  pose proof (Z.div_mod e win ltac:(lia)) as De. pose proof (Z.mod_pos_bound e win ltac:(lia)) as Me.
  pose proof (Z.div_mod pn win ltac:(lia)) as Dp. pose proof (Z.mod_pos_bound pn win ltac:(lia)) as Mp.
  assert (Hc : Z.lor (e - e mod win) (pn mod win) = e / win * win + pn mod win).
  { replace (e - e mod win) with (e / win * 2 ^ (8 * n)) by (rewrite <- Hw; lia). rewrite lor_add by lia. by rewrite <- Hw. }
  rewrite !Hc. set (qe := e / win) in *. set (qp := pn / win) in *. set (m := pn mod win) in *. set (me := e mod win) in *.
  assert (He : 0 <= e <= 2 ^ 62) by (unfold e; lia). clearbody qe qp m me hw e. clear Hc Hw Ha. clearbody win.
  assert (Hq : qp = qe \/ qp = qe + 1 \/ qp = qe - 1) by nia.
  assert (0 <= qe) by nia. assert (qe * win <= 2 ^ 62) by nia.
  rewrite (u64_small (qe * win + m + hw)), (u64_small (e + hw)) by nia.
  destruct Hq as [->|[->| ->]].
  - destruct (Z.leb_spec (qe * win + m + hw) e); [nia|]. cbn [andb].
    destruct (Z.ltb_spec (e + hw) (qe * win + m)); [nia|]. cbn [andb]. lia.
  - destruct (Z.leb_spec (qe * win + m + hw) e); [|nia]. destruct (Z.ltb_spec (qe * win + m) (2 ^ 62 - win)); [|nia]. cbn [andb].
    rewrite u64_small by nia. nia.
  - destruct (Z.leb_spec (qe * win + m + hw) e); [nia|]. cbn [andb].
    destruct (Z.ltb_spec (e + hw) (qe * win + m)); [|nia]. destruct (Z.leb_spec win (qe * win + m)); [|nia]. cbn [andb]. nia.
Qed.

Lemma pnLen_spec pn la : -1 <= la < pn -> pn < 2 ^ 62 -> pn - la < 2 ^ 31 ->
  1 <= pnLen pn la <= 4 /\ pn - la < 256 ^ pnLen pn la / 2.
Proof.
  intros Hla Hpn Hd. unfold pnLen.
  assert (E : (if la <? 0 then u64 (pn + 1) else u64 (pn - u64 la)) = pn - la).
  { destruct (Z.ltb_spec la 0); [rewrite u64_small; lia|]. rewrite (u64_small la), u64_small; lia. }
  rewrite E. destruct (Z.ltb_spec (pn - la) (2 ^ 7)); [split; [lia|]; change (256 ^ 1 / 2) with (2 ^ 7); lia|].
  destruct (Z.ltb_spec (pn - la) (2 ^ 15)); [split; [lia|]; change (256 ^ 2 / 2) with (2 ^ 15); lia|].
  destruct (Z.ltb_spec (pn - la) (2 ^ 23)); [split; [lia|]; change (256 ^ 3 / 2) with (2 ^ 23); lia|].
  split; [lia|]. change (256 ^ 4 / 2) with (2 ^ 31). lia.
Qed.

(** * Protection undone *)

Lemma sub_app a b c : sub (a ++ b ++ c) (len a) (len b) = b.
Proof. unfold sub, len. rewrite !Nat2Z.id, drop_app_length. apply take_app_length. Qed.

Lemma mask_pn_app a b c m :
  mask_pn (a ++ b ++ c) (len a) (len b) m = a ++ zip_with Z.lxor b (sub m 1 (len b)) ++ c.
Proof.
  unfold mask_pn. rewrite sub_app. unfold len at 1. rewrite Nat2Z.id, take_app_length.
  replace (Z.to_nat (len a + len b)) with (length (a ++ b)) by (rewrite length_app; unfold len; lia).
  rewrite (assoc_L (++) a b c), drop_app_length. done.
Qed.

(** The sample lies behind the packet number, whatever stands before. *)
Lemma sample_app a b c : (length b <= 4)%nat -> sub (a ++ b ++ c) (len a + 4) 16 = take 16 (drop (4 - length b) c).
Proof.
  intros Hb. unfold sub. change (Z.to_nat 16) with 16%nat. f_equal.
  rewrite (assoc_L (++)). replace (Z.to_nat (len a + 4)) with (length (a ++ b) + (4 - length b))%nat
    by (rewrite length_app; unfold len; lia).
  rewrite <- drop_drop, drop_app_length. done.
Qed.

Lemma first_mask_keep first x :
  byte_ok first -> byte_ok x ->
  let first' := Z.lxor first (Z.land x (first_mask first)) in
  first_mask first' = first_mask first /\ Z.lxor first' (Z.land x (first_mask first)) = first /\
  Z.land first' 0x80 = Z.land first 0x80 /\ Z.land first' 0x40 = Z.land first 0x40 /\
  (Z.land first 0x80 <> 0 -> Z.shiftr first' 4 = Z.shiftr first 4) /\ byte_ok first'.
Proof.
  intros Hf Hx. cbn zeta.
  assert (Hm : 0 <= Z.land x (first_mask first) < 32).
  { unfold first_mask. destruct (negb _); [change 15 with (2 ^ 4 - 1)|change 31 with (2 ^ 5 - 1)]; rewrite land_mask by lia;
      pose proof (Z.mod_pos_bound x (2 ^ 4)); pose proof (Z.mod_pos_bound x (2 ^ 5)); lia. }
  assert (Hm16 : Z.land first 0x80 <> 0 -> Z.land x (first_mask first) < 16).
  { intros E. unfold first_mask. destruct (Z.eqb_spec (Z.land first 128) 0); [done|]. cbn [negb].
    change 15 with (2 ^ 4 - 1). rewrite land_mask by lia. pose proof (Z.mod_pos_bound x (2 ^ 4)). lia. }
  set (y := Z.land x (first_mask first)) in *. clearbody y.
  assert (H : forallb (fun f => forallb (fun y => (first_mask (Z.lxor f y) =? first_mask f) && (Z.lxor (Z.lxor f y) y =? f) &&
    (Z.land (Z.lxor f y) 0x80 =? Z.land f 0x80) && (Z.land (Z.lxor f y) 0x40 =? Z.land f 0x40) &&
    ((Z.land f 0x80 =? 0) || (16 <=? y) || (Z.shiftr (Z.lxor f y) 4 =? Z.shiftr f 4)) &&
    (0 <=? Z.lxor f y) && (Z.lxor f y <? 256)) (seqZ 0 32)) (seqZ 0 256) = true) by (vm_compute; reflexivity).
  rewrite forallb_forall in H. specialize (H first). rewrite <- list_elem_of_In, elem_of_seqZ in H.
  unfold byte_ok in Hf. specialize (H ltac:(lia)). rewrite forallb_forall in H. specialize (H y).
  rewrite <- list_elem_of_In, elem_of_seqZ in H. specialize (H ltac:(lia)).
  repeat (apply andb_true_iff in H as [H ?]). repeat match goal with E : (_ =? _) = true |- _ => apply Z.eqb_eq in E end.
  split; [done|]. split; [done|]. split; [done|]. split; [done|]. split; [|unfold byte_ok; lia].
  intros Hne. specialize (Hm16 Hne). lia.
Qed.

Section protect.
Context {K : Type} `{AEAD K} (k : keys K).
Context (Hkey : aead_key (aead k)) (Hhp : forall s, length (hp k s) = 5%nat /\ bytes_ok (hp k s)).

(** A packet: first byte, the rest of the header up to the packet number, the
    packet number, the payload. *)
Context (first : Z) (mid pnb pay : bytes) (pn : Z).
Context (Hfirst : byte_ok first) (Hn : len pnb = Z.land first 3 + 1) (Hn4 : 1 <= len pnb <= 4) (Hlong : 4 <= len pnb + len pay).

Let hdr : bytes := (first :: mid) ++ pnb.
Let ct : bytes := aead_seal (aead k) (nonce k pn) pay hdr.
Let mask : bytes := hp k (take 16 (drop (4 - length pnb) ct)).
Let first' : Z := Z.lxor first (Z.land (byte_at mask 0) (first_mask first)).

Definition protected : bytes := (first' :: mid) ++ zip_with Z.lxor pnb (sub mask 1 (len pnb)) ++ ct.

Lemma mask_long : length (sub mask 1 (len pnb)) = length pnb.
Proof. unfold sub. rewrite length_take, length_drop. destruct (Hhp (take 16 (drop (4 - length pnb) ct))) as [E _]. unfold mask. rewrite E. unfold len in *. lia. Qed.

Lemma mask0_ok : byte_ok (byte_at mask 0).
Proof. apply at_bytes_ok, Hhp. Qed.

Lemma seal_protected : seal k ((first :: mid) ++ pnb ++ pay) (len (first :: mid)) (len pnb) pn = Some protected.
Proof.
  unfold seal. assert (El : Z.to_nat (len (first :: mid) + len pnb) = length hdr) by (unfold hdr; rewrite length_app; unfold len; lia).
  rewrite El, (assoc_L (++)). fold hdr. rewrite take_app_length, drop_app_length. fold ct.
  pose proof (aead_seal_len (aead k) (nonce k pn) pay hdr Hkey) as Hc. fold ct in Hc.
  destruct (Z.ltb_spec (len (hdr ++ ct)) (len (first :: mid) + 20)) as [Hlt|_].
  { unfold hdr in Hlt. rewrite !len_app in Hlt. lia. }
  f_equal. unfold hdr. rewrite <- (assoc_L (++)), sample_app by (unfold len in *; lia). fold mask.
  cbn [mask_first app]. fold first'. apply (mask_pn_app (first' :: mid)).
Qed.

Lemma unprotect_protected largest :
  unprotect protected (len (first :: mid)) (hp k) largest =
    Some ((first :: mid) ++ pnb ++ ct, decodePN largest (fold_left (fun v c => Z.lor (u64 (Z.shiftl v 8)) c) pnb 0) (len pnb), len pnb).
Proof.
  unfold unprotect. pose proof (aead_seal_len (aead k) (nonce k pn) pay hdr Hkey) as Hc. fold ct in Hc.
  pose proof mask_long as Hml. set (x := zip_with Z.lxor pnb (sub mask 1 (len pnb))).
  assert (Hx : length x = length pnb) by (unfold x; rewrite length_zip_with; lia).
  assert (Hx' : len x = len pnb) by (unfold len; lia).
  replace (len (first :: mid)) with (len (first' :: mid)) by (by rewrite !len_cons). unfold protected. fold x.
  destruct (Z.ltb_spec (len ((first' :: mid) ++ x ++ ct)) (len (first' :: mid) + 4 + 16)) as [Hlt|_].
  { rewrite !len_app in Hlt. lia. }
  rewrite sample_app by (rewrite Hx; unfold len in *; lia). rewrite Hx. fold mask.
  destruct (first_mask_keep first (byte_at mask 0) Hfirst mask0_ok) as (E1 & E2 & _). fold first' in E1, E2.
  assert (Ef : mask_first ((first' :: mid) ++ x ++ ct) mask = (first :: mid) ++ x ++ ct).
  { cbn [mask_first app]. by rewrite E1, E2. }
  rewrite Ef. replace (byte_at ((first :: mid) ++ x ++ ct) 0) with first by done. rewrite <- Hn.
  replace (len (first' :: mid)) with (len (first :: mid)) by (by rewrite !len_cons).
  assert (Em : mask_pn ((first :: mid) ++ x ++ ct) (len (first :: mid)) (len pnb) mask = (first :: mid) ++ pnb ++ ct).
  { rewrite <- Hx'. rewrite mask_pn_app, Hx'. unfold x. by rewrite xor_zip_twice by lia. }
  rewrite Em, sub_app. done.
Qed.

Lemma open_protected : open k ((first :: mid) ++ pnb ++ ct) (len (first :: mid) + len pnb) pn = Some pay.
Proof.
  unfold open. replace (Z.to_nat (len (first :: mid) + len pnb)) with (length hdr) by (unfold hdr; rewrite length_app; unfold len; lia).
  rewrite (assoc_L (++)). fold hdr. rewrite take_app_length, drop_app_length. by apply aead_open_seal.
Qed.

Lemma protected_len : len protected = len (first :: mid) + len pnb + len pay + 16.
Proof.
  unfold protected. rewrite !len_app, !len_cons. pose proof (aead_seal_len (aead k) (nonce k pn) pay hdr Hkey) as Hc. fold ct in Hc.
  pose proof mask_long. rewrite Hc. unfold len at 2. rewrite length_zip_with. unfold len in *. lia.
Qed.
End protect.

(** * Reading back a header *)

Lemma byte_at_app a x c : byte_at (a ++ x :: c) (len a) = x.
Proof.
  unfold byte_at, at_. pose proof (len_nonneg a). destruct (Z.leb_spec 0 (len a)); [|lia].
  unfold len. rewrite Nat2Z.id, lookup_app_r, Nat.sub_diag by lia. done.
Qed.

Lemma drop_at (a b : bytes) : drop (Z.to_nat (len a)) (a ++ b) = b.
Proof. unfold len. rewrite Nat2Z.id. apply drop_app_length. Qed.

Lemma ReadVarint_2 v rest : 0 <= v < 2 ^ 14 -> ReadVarint (appendVarint2 [] v ++ rest) = (v, 2).
Proof.
  intros Hv. unfold appendVarint2. cbn [app]. unfold ReadVarint.
  assert (E8 : u8 (Z.shiftr v 8) = v / 256) by (unfold u8; rewrite Z.shiftr_div_pow2 by lia; apply Z.mod_small; Z.div_mod_to_equations; lia).
  rewrite E8. assert (Hq : 0 <= v / 256 < 64) by (Z.div_mod_to_equations; lia).
  assert (Ho : Z.lor (v / 256) 64 = 64 + v / 256) by (rewrite Z.lor_comm; apply (lor_add 6 (v / 256) 1); lia).
  rewrite Ho. assert (Es : Z.shiftr (64 + v / 256) 6 = 1) by (rewrite Z.shiftr_div_pow2 by lia; Z.div_mod_to_equations; lia).
  rewrite Es. change (Z.shiftl 1 1) with 2. destruct (Z.ltb_spec (len (64 + v / 256 :: u8 v :: rest)) 2).
  { rewrite !len_cons in *. pose proof (len_nonneg rest). lia. }
  f_equal. cbn [Z.sub Z.to_nat take fold_left].
  assert (El : Z.land (64 + v / 256) 63 = v / 256).
  { change 63 with (2 ^ 6 - 1). rewrite land_mask by lia. Z.div_mod_to_equations. lia. }
  rewrite El. change (take (Z.to_nat (2 - 1)) (u8 v :: rest)) with [u8 v]. cbn [fold_left].
  rewrite shift8_or by (lia || apply u8_byte_ok). unfold u8. Z.div_mod_to_equations. lia.
Qed.

Lemma parse_short first dcid rest :
  Z.land first 0x80 = 0 ->
  parseHeader ((first :: dcid) ++ rest) (len dcid) =
    Ok (Header packet1RTT 0 dcid [] [] (len (first :: dcid)) (len ((first :: dcid) ++ rest))).
Proof.
  intros Hf. unfold parseHeader. cbn [app]. pose proof (len_nonneg dcid). pose proof (len_nonneg rest).
  destruct (Z.eqb_spec (len (first :: dcid ++ rest)) 0); [rewrite len_cons, len_app in *; lia|].
  change (byte_at (first :: dcid ++ rest) 0) with first. rewrite Hf. cbn [Z.eqb].
  destruct (Z.ltb_spec (len (first :: dcid ++ rest)) (1 + len dcid)); [rewrite len_cons, len_app in *; lia|].
  change (sub (first :: dcid ++ rest) 1 (len dcid)) with (sub ([first] ++ dcid ++ rest) (len [first]) (len dcid)).
  rewrite sub_app. by rewrite (len_cons first dcid).
Qed.

(** The connection IDs of a long header, with [tail] behind them. *)
Definition long_ids (first : Z) (d s : bytes) : bytes :=
  (first :: be_bytes 4 Version1) ++ [len d] ++ d ++ [len s] ++ s.

Lemma long_ids_len first d s : len (long_ids first d s) = 7 + len d + len s.
Proof. unfold long_ids. rewrite !len_app, !len_cons, be_bytes_len. change (len (@nil Z)) with 0. lia. Qed.

Lemma parse_long first d s tail n :
  byte_ok first -> Z.land first 0x80 <> 0 -> Z.land first 0x40 <> 0 -> len d <= maxCIDLen -> len s <= maxCIDLen ->
  parseHeader (long_ids first d s ++ tail) n =
    parseTail (long_ids first d s ++ tail) (Header (Z.land (Z.shiftr first 4) 3) Version1 d s [] 0 0) (len (long_ids first d s)).
Proof.
  intros Hf H80 H40 Hd Hs. unfold parseHeader. set (b := long_ids first d s ++ tail).
  pose proof (len_nonneg d). pose proof (len_nonneg s). pose proof (len_nonneg tail). pose proof (long_ids_len first d s) as Hl.
  assert (Hb : len b = 7 + len d + len s + len tail) by (unfold b; rewrite len_app; lia).
  destruct (Z.eqb_spec (len b) 0); [lia|]. replace (byte_at b 0) with first by done.
  destruct (Z.eqb_spec (Z.land first 128) 0); [done|]. destruct (Z.ltb_spec (len b) 7); [lia|].
  set (v := first :: be_bytes 4 Version1) in *. assert (Hv : len v = 5) by done.
  assert (Eb : b = v ++ [len d] ++ d ++ [len s] ++ s ++ tail) by (unfold b, long_ids; by rewrite <- !(assoc_L (++))).
  assert (Ev : sub b 1 4 = be_bytes 4 Version1) by (rewrite Eb; apply (sub_app [first] (be_bytes 4 Version1))).
  assert (Ed : byte_at b 5 = len d) by (rewrite Eb; apply (byte_at_app v)).
  assert (E6 : len (v ++ [len d]) = 6) by (rewrite len_app; rewrite Hv; done).
  assert (Esd : sub b 6 (len d) = d) by (rewrite Eb, (assoc_L (++) v), <- E6; apply sub_app).
  assert (E6d : len ((v ++ [len d]) ++ d) = 6 + len d) by (rewrite len_app; lia).
  assert (Es : byte_at b (6 + len d) = len s) by (rewrite Eb, (assoc_L (++) v), (assoc_L (++) _ d), <- E6d; apply byte_at_app).
  assert (E7 : len (((v ++ [len d]) ++ d) ++ [len s]) = 6 + len d + 1) by (rewrite len_app, E6d; done).
  assert (Ess : sub b (6 + len d + 1) (len s) = s)
    by (rewrite Eb, (assoc_L (++) v), (assoc_L (++) _ d), (assoc_L (++) _ [len s]), <- E7; apply sub_app).
  rewrite Ev, Ed. change (be_val (be_bytes 4 Version1)) with Version1. change (Version1 =? Version1) with true.
  rewrite !andb_true_r. destruct (Z.ltb_spec maxCIDLen (len d)); [lia|]. cbn [orb].
  destruct (Z.ltb_spec (len b) (6 + len d + 1)); [lia|]. rewrite Es.
  destruct (Z.ltb_spec maxCIDLen (len s)); [lia|]. cbn [orb].
  destruct (Z.ltb_spec (len b) (6 + len d + 1 + len s)); [lia|]. cbn [negb].
  destruct (Z.eqb_spec (Z.land first 64) 0); [done|]. rewrite Esd, Ess. cbn [dcid scid].
  replace (6 + len d + 1 + len s) with (len (long_ids first d s)) by lia. done.
Qed.

(** The token, if the type has one. *)
Definition token_bytes (t : Z) (tok : bytes) : bytes :=
  if t =? packetInitial then AppendVarint [] (len tok) ++ tok else [].

Lemma parseTail_spec h tok L pre tail :
  (typ h = packetInitial \/ typ h = packetHandshake /\ tok = []) -> len tok < 2 ^ 62 -> 0 <= L < 2 ^ 14 -> L <= len tail ->
  let b := pre ++ token_bytes (typ h) tok ++ appendVarint2 [] L ++ tail in
  let po := len (pre ++ token_bytes (typ h) tok ++ appendVarint2 [] L) in
  parseTail b h (len pre) = Ok (Header (typ h) (version h) (dcid h) (scid h) tok po (po + L)).
Proof.
  intros Ht Htok HL Htail. cbn zeta. unfold parseTail. cbn [typ].
  assert (Hlast : forall q, drop (Z.to_nat (len q)) (q ++ appendVarint2 [] L ++ tail) = appendVarint2 [] L ++ tail) by (intros; apply drop_at).
  assert (L2 : len (appendVarint2 [] L) = 2) by done. pose proof (len_nonneg pre). pose proof (len_nonneg tok).
  destruct Ht as [Ht|[Ht ->]]; rewrite Ht; unfold token_bytes; cbn [Z.eqb packetInitial packetRetry packetHandshake Pos.eqb].
  - set (vi := AppendVarint [] (len tok)). assert (Evi : ReadVarint (vi ++ (tok ++ appendVarint2 [] L ++ tail)) = (len tok, VarintLen (len tok))).
    { unfold vi. rewrite ReadVarint_AppendVarint by lia. by rewrite Z.mod_small by lia. }
    assert (Hvi : len vi = VarintLen (len tok)) by apply AppendVarint_len.
    assert (Hvl : 1 <= VarintLen (len tok)) by (unfold VarintLen; bdestruct_all; lia).
    rewrite <- !(assoc_L (++)). rewrite drop_at, Evi. destruct (Z.eqb_spec (VarintLen (len tok)) 0); [lia|]. cbn [orb].
    destruct (Z.ltb_spec (len (pre ++ vi ++ tok ++ appendVarint2 [] L ++ tail) - len pre - VarintLen (len tok)) (len tok)) as [Hlt|_].
    { rewrite !len_app in Hlt. pose proof (len_nonneg tail). lia. }
    assert (Esub : sub (pre ++ vi ++ tok ++ appendVarint2 [] L ++ tail) (len pre + VarintLen (len tok)) (len tok) = tok).
    { rewrite <- Hvi, <- len_app, (assoc_L (++) pre). apply sub_app. }
    rewrite Esub. replace (len pre + VarintLen (len tok) + len tok) with (len (pre ++ vi ++ tok)) by (rewrite !len_app; lia).
    replace (pre ++ vi ++ tok ++ appendVarint2 [] L ++ tail) with ((pre ++ vi ++ tok) ++ appendVarint2 [] L ++ tail) by (by rewrite <- !(assoc_L (++))).
    rewrite Hlast, ReadVarint_2 by done. cbn [Z.eqb].
    destruct (Z.ltb_spec (len ((pre ++ vi ++ tok) ++ appendVarint2 [] L ++ tail) - (len (pre ++ vi ++ tok) + 2)) L) as [Hlt|_].
    { rewrite !len_app, L2 in Hlt. lia. }
    replace (len (pre ++ vi ++ tok ++ appendVarint2 [] L)) with (len (pre ++ vi ++ tok) + 2) by (rewrite !len_app, L2; lia). done.
  - cbn [app]. rewrite Hlast, ReadVarint_2 by done. cbn [Z.eqb].
    destruct (Z.ltb_spec (len (pre ++ appendVarint2 [] L ++ tail) - (len pre + 2)) L) as [Hlt|_].
    { rewrite !len_app, L2 in Hlt. lia. }
    replace (len (pre ++ appendVarint2 [] L)) with (len pre + 2) by (rewrite len_app, L2; lia). done.
Qed.

(** * Sealed and read back *)

(** A plan the sender may make: the packet number is [la]'s next or later and
    not too far, the payload long enough to be sampled and short enough for the
    two-byte length. *)
Record plan_ok (c : ids) (p : packetPlan) (la : Z) : Prop := {
  po_space : p_space p = spaceInitial \/ p_space p = spaceHandshake \/ p_space p = spaceApp;
  po_pnLen : p_pnLen p = pnLen (p_pn p) la;
  po_la : -1 <= la < p_pn p;
  po_pn : p_pn p < 2 ^ 62;
  po_near : p_pn p - la < 2 ^ 31;
  po_long : 4 <= p_pnLen p + len (p_payload p);
  po_short : p_pnLen p + len (p_payload p) + aeadOverhead < 2 ^ 14;
  po_dcid : len (c_dcid c) <= maxCIDLen;
  po_scid : len (c_scid c) <= maxCIDLen;
  po_token : len (c_token c) < 2 ^ 62;
}.

Definition plan_type (p : packetPlan) : Z :=
  if p_space p =? spaceApp then packet1RTT else if p_space p =? spaceHandshake then packetHandshake else packetInitial.

(** The header of a plan: its first byte and the rest. *)
Definition plan_first (c : ids) (p : packetPlan) : Z :=
  if p_space p =? spaceApp then Z.lor (Z.lor 0x40 (u8 (p_pnLen p - 1))) (if c_keyPhase c then 0x04 else 0)
  else Z.lor (Z.lor 0xc0 (u8 (Z.shiftl (plan_type p) 4))) (u8 (p_pnLen p - 1)).

Definition plan_mid (c : ids) (p : packetPlan) : bytes :=
  if p_space p =? spaceApp then c_dcid c
  else be_bytes 4 Version1 ++ [len (c_dcid c)] ++ c_dcid c ++ [len (c_scid c)] ++ c_scid c ++
       token_bytes (plan_type p) (c_token c) ++ appendVarint2 [] (p_pnLen p + len (p_payload p) + aeadOverhead).

Lemma planHeader_shape c p la : plan_ok c p la -> planHeader c p = plan_first c p :: plan_mid c p.
Proof.
  intros []. unfold planHeader, plan_first, plan_mid, plan_type. unfold maxCIDLen in *.
  pose proof (len_nonneg (c_dcid c)). pose proof (len_nonneg (c_scid c)).
  rewrite (u8_small (len (c_dcid c))), (u8_small (len (c_scid c))) by (unfold byte_ok; lia).
  destruct po_space0 as [->|[->| ->]]; [| |done]; unfold appendVarint2, token_bytes; cbn [Z.eqb spaceInitial spaceHandshake spaceApp Pos.eqb packetHandshake packetInitial].
  - rewrite (AppendVarint_app (_ ++ _)), <- !(assoc_L (++)). reflexivity.
  - rewrite <- !(assoc_L (++)). reflexivity.
Qed.

(** What the first byte says, before and after protection. *)
Lemma plan_first_bits c p la : plan_ok c p la ->
  byte_ok (plan_first c p) /\ Z.land (plan_first c p) 3 + 1 = p_pnLen p /\ 1 <= p_pnLen p <= 4 /\
  (p_space p = spaceApp -> Z.land (plan_first c p) 0x80 = 0) /\
  (p_space p <> spaceApp -> Z.land (plan_first c p) 0x80 <> 0 /\ Z.land (plan_first c p) 0x40 <> 0 /\
     Z.land (Z.shiftr (plan_first c p) 4) 3 = plan_type p).
Proof.
  intros []. destruct (pnLen_spec (p_pn p) la po_la0 po_pn0 po_near0) as [Hn _]. rewrite <- po_pnLen0 in Hn.
  assert (Hcases : p_pnLen p = 1 \/ p_pnLen p = 2 \/ p_pnLen p = 3 \/ p_pnLen p = 4) by lia.
  unfold plan_first, plan_type. unfold byte_ok.
  destruct po_space0 as [->|[->| ->]], Hcases as [->|[->|[->| ->]]], (c_keyPhase c); vm_compute; repeat split; discriminate || congruence.
Qed.

Lemma plan_parses c p la first' tail rest :
  plan_ok c p la -> byte_ok first' -> Z.land first' 0x80 = Z.land (plan_first c p) 0x80 -> Z.land first' 0x40 = Z.land (plan_first c p) 0x40 ->
  (Z.land (plan_first c p) 0x80 <> 0 -> Z.shiftr first' 4 = Z.shiftr (plan_first c p) 4) ->
  len tail = p_pnLen p + len (p_payload p) + 16 -> (p_space p = spaceApp -> rest = []) ->
  exists h, parseHeader (((first' :: plan_mid c p) ++ tail) ++ rest) (len (c_dcid c)) = Ok h /\
    typ h = plan_type p /\ dcid h = c_dcid c /\ pnOffset h = len (first' :: plan_mid c p) /\
    end_ h = len ((first' :: plan_mid c p) ++ tail) /\
    (p_space p <> spaceApp -> scid h = c_scid c /\ token h = if p_space p =? spaceInitial then c_token c else []).
Proof.
  intros Hok Hf' E80 E40 Esh Ht Hrest. destruct (plan_first_bits c p la Hok) as (_ & _ & Hn & Happ & Hlong). destruct Hok.
  destruct (Z.eq_dec (p_space p) spaceApp) as [Es|Es].
  - rewrite (Hrest Es), app_nil_r. unfold plan_mid, plan_type. rewrite Es. cbn [Z.eqb Pos.eqb spaceApp].
    eexists. rewrite parse_short by (rewrite E80; auto). split; [done|]. cbn. done.
  - destruct (Hlong Es) as (H80 & H40 & Hty).
    assert (Hmid : first' :: plan_mid c p = long_ids first' (c_dcid c) (c_scid c) ++ token_bytes (plan_type p) (c_token c) ++
      appendVarint2 [] (p_pnLen p + len (p_payload p) + aeadOverhead)).
    { unfold plan_mid. destruct (Z.eqb_spec (p_space p) spaceApp); [done|]. unfold long_ids. by rewrite <- !(assoc_L (++)). }
    rewrite Hmid, <- !(assoc_L (++)). rewrite parse_long; [|done|by rewrite E80|by rewrite E40|done|done]. rewrite (Esh H80), Hty.
    set (h0 := Header (plan_type p) Version1 (c_dcid c) (c_scid c) [] 0 0).
    set (tok := if p_space p =? spaceInitial then c_token c else []).
    assert (Htb : token_bytes (plan_type p) (c_token c) = token_bytes (typ h0) tok).
    { unfold token_bytes, tok, h0, plan_type. cbn [typ]. destruct po_space0 as [Ep|[Ep|Ep]]; rewrite Ep; [done|done|by destruct Es]. }
    pose proof (len_nonneg (p_payload p)). pose proof (len_nonneg rest). unfold aeadOverhead in *.
    assert (Htail : len (tail ++ rest) = p_pnLen p + len (p_payload p) + 16 + len rest) by (rewrite len_app; lia).
    pose proof (parseTail_spec h0 tok (p_pnLen p + len (p_payload p) + 16) (long_ids first' (c_dcid c) (c_scid c)) (tail ++ rest)) as Hp.
    rewrite Htb. rewrite Hp; [|unfold tok, h0, plan_type; cbn [typ]; destruct po_space0 as [Ep|[Ep|Ep]]; rewrite Ep; [by left|by right|by destruct Es]
      |unfold tok; destruct (_ =? _); [done|reflexivity]|lia|lia].
    eexists. split; [done|]. cbn [typ dcid pnOffset end_ scid token h0]. split; [done|]. split; [done|]. split; [done|].
    split; [rewrite !len_app; lia|done].
Qed.

Lemma plan_mid_len c p la x : plan_ok c p la -> len (x :: plan_mid c p) + p_pnLen p = headerLen c (p_space p) (p_pnLen p).
Proof.
  intros []. unfold plan_mid, headerLen, token_bytes, plan_type. assert (L2 : forall v, len (appendVarint2 [] v) = 2) by done.
  destruct po_space0 as [->|[->| ->]]; cbn [Z.eqb Pos.eqb spaceInitial spaceHandshake spaceApp packetInitial packetHandshake];
    rewrite !len_cons, ?len_app, ?len_cons, ?be_bytes_len, ?AppendVarint_len, ?L2; change (len (@nil Z)) with 0; lia.
Qed.

(** C26: a packet that is sealed is read back.  For every packet number space,
    the receiver finds the packet's boundaries, type and connection IDs behind
    header protection and in front of whatever packets follow it in the
    datagram; it recovers the full packet number from the one to four bytes
    sent, as long as it has seen no more than the sender's window ahead; and it
    decrypts the payload that was sealed.  The packet is as long as
    [packetSize] says. *)
Theorem packet_roundtrip {K} `{AEAD K} (k : keys K) c p la largest rest :
  aead_key (aead k) -> (forall s, length (hp k s) = 5%nat /\ bytes_ok (hp k s)) -> plan_ok c p la ->
  la <= largest < 2 ^ 62 -> largest + 1 < p_pn p + 256 ^ p_pnLen p / 2 -> (p_space p = spaceApp -> rest = []) ->
  exists pkt h pkt',
    sealPlan c k p = Some pkt /\ len pkt = packetSize c p /\
    parseHeader (pkt ++ rest) (len (c_dcid c)) = Ok h /\
    typ h = plan_type p /\ dcid h = c_dcid c /\ end_ h = len pkt /\
    (p_space p <> spaceApp -> scid h = c_scid c /\ token h = if p_space p =? spaceInitial then c_token c else []) /\
    unprotect pkt (pnOffset h) (hp k) largest = Some (pkt', p_pn p, p_pnLen p) /\
    open k pkt' (pnOffset h + p_pnLen p) (p_pn p) = Some (p_payload p).
Proof.
  intros Hkey Hhp Hok Hlg Hwin Hrest. destruct (plan_first_bits c p la Hok) as (Hf & Hn & Hn4 & _).
  pose proof (planHeader_shape c p la Hok) as Hsh.
  set (first := plan_first c p) in *. set (mid := plan_mid c p) in *.
  set (pnb := be_bytes (Z.to_nat (p_pnLen p)) (p_pn p)). assert (Hpnb : len pnb = p_pnLen p) by (unfold pnb; rewrite be_bytes_len; lia).
  set (pkt := protected k first mid pnb (p_payload p) (p_pn p)).
  assert (Hlong : 4 <= len pnb + len (p_payload p)) by (rewrite Hpnb; apply (po_long _ _ _ Hok)).
  pose proof (seal_protected k Hkey first mid pnb (p_payload p) (p_pn p) ltac:(lia) Hlong) as Hseal. fold pkt in Hseal.
  pose proof (unprotect_protected k Hkey Hhp first mid pnb (p_payload p) (p_pn p) Hf ltac:(lia) ltac:(lia) Hlong largest) as Hun.
  pose proof (open_protected k Hkey first mid pnb (p_payload p) (p_pn p)) as Hopen. fold pkt in Hun.
  pose proof (protected_len k Hkey Hhp first mid pnb (p_payload p) (p_pn p) ltac:(lia)) as Hlen. fold pkt in Hlen.
  assert (Hpn : decodePN largest (fold_left (fun v c => Z.lor (u64 (Z.shiftl v 8)) c) pnb 0) (len pnb) = p_pn p).
  { destruct Hok. destruct (pnLen_spec _ _ po_la0 po_pn0 po_near0) as [_ Hhw]. rewrite <- po_pnLen0 in Hhw.
    assert (256 ^ len pnb <= 256 ^ 4) by (apply Z.pow_le_mono_r; lia).
    rewrite or_fold_be; [|apply be_bytes_ok|lia|rewrite Z.add_0_l, Z.mul_1_l; lia]. rewrite Z.mul_0_l, Z.add_0_l.
    unfold pnb at 1. rewrite be_val_bytes, Z2Nat.id, Hpnb by lia. apply decodePN_spec; lia. }
  rewrite Hpn in Hun.
  set (mask := hp k (take 16 (drop (4 - length pnb) (aead_seal (aead k) (nonce k (p_pn p)) (p_payload p) ((first :: mid) ++ pnb))))).
  destruct (first_mask_keep first (byte_at mask 0) Hf) as (_ & _ & E80 & E40 & Esh & Hf'); [apply at_bytes_ok, Hhp|].
  set (first' := Z.lxor first (Z.land (byte_at mask 0) (first_mask first))) in *.
  set (tail := zip_with Z.lxor pnb (sub mask 1 (len pnb)) ++ aead_seal (aead k) (nonce k (p_pn p)) (p_payload p) ((first :: mid) ++ pnb)).
  assert (Epkt : pkt = (first' :: mid) ++ tail) by done.
  assert (Htail : len tail = p_pnLen p + len (p_payload p) + 16).
  { rewrite Epkt, len_app, !len_cons in Hlen. lia. }
  destruct (plan_parses c p la first' tail rest Hok Hf' E80 E40 Esh Htail Hrest) as (h & Hp & Ht & Hd & Hpo & He & Hs).
  fold mid in Hp, Hpo, He. rewrite <- Epkt in Hp, He. rewrite len_cons in Hpo. rewrite Hpnb in *.
  exists pkt, h, ((first :: mid) ++ pnb ++ aead_seal (aead k) (nonce k (p_pn p)) (p_payload p) ((first :: mid) ++ pnb)).
  assert (Hpo' : pnOffset h = len (first :: mid)) by (rewrite len_cons; lia). rewrite Hpo'.
  split; [|split; [|do 5 (split; [done|]); done]].
  - unfold sealPlan. rewrite Hsh. exact Hseal.
  - rewrite Hlen. unfold packetSize, aeadOverhead. pose proof (plan_mid_len c p la first Hok) as Hml. fold mid in Hml. lia.
Qed.

(** A Handshake packet under ChaCha20-Poly1305 and its header protector. *)
Definition demo_keys : keys (list Z) := Keys (chachaKey rfc_key) (seqZ 1 12) (chacha_mask (chachaKey (seqZ 1 32))).
Definition demo_ids : ids := Ids [1; 2; 3; 4; 5; 6; 7; 8] [9; 10; 11] [] true.

Lemma packet_roundtrip_witness :
  exists pkt h pkt',
    sealPlan demo_ids demo_keys (Plan spaceHandshake 70000 3 [1; 2; 3]) = Some pkt /\
    parseHeader (pkt ++ [1; 2; 3]) 8 = Ok h /\
    unprotect pkt (pnOffset h) (hp demo_keys) 69999 = Some (pkt', 70000, 3) /\
    open demo_keys pkt' (pnOffset h + 3) 70000 = Some [1; 2; 3].
Proof.
  destruct (packet_roundtrip demo_keys demo_ids (Plan spaceHandshake 70000 3 [1; 2; 3]) 100 69999 [1; 2; 3])
    as (pkt & h & pkt' & H1 & _ & H2 & _ & _ & _ & _ & H3 & H4).
  - reflexivity.
  - intros s. by apply chacha_mask_shape.
  - split; [right; left; reflexivity|reflexivity|cbn; lia|cbn; lia|cbn; lia|discriminate|reflexivity|discriminate|discriminate|reflexivity].
  - lia.
  - reflexivity.
  - discriminate.
  - exists pkt, h, pkt'. split; [exact H1|]. split; [exact H2|]. split; [exact H3|exact H4].
Defined.
