(* ===== verification/QuicControl.v ===== *)
(** Connection IDs and path challenges of a QUIC connection
    (src/go/http3/internal/quic/conn.go, frames.go, send.go).

    [control] is the part of [Conn] that keeps the peer's connection IDs, what is
    to be retired of them and the answers to path challenges.  The order in
    which Go ranges over the map of connection IDs is an argument of the frame
    that does so.  A token that is nil is [None]. *)
From S2P Require Import Prelude.
From S2P Require Import Varint.
From S2P Require Import QuicFrames.
From S2P Require Import QuicParams.

Definition errConnectionIDLimit : Z := 0x09.
Definition maxPathResponses : Z := 4.

Record peerCID := PeerCID { cid : bytes; token : option bytes }.

Record control := Control {
  isClient : bool;
  local_limit : Z;              (* local.activeCIDLimit *)
  odcid : bytes;
  dcid : bytes;
  retrySCID : option bytes;
  heardPeer : bool;
  accepted : bool;              (* peerParams != nil *)
  peerCIDs : gmap Z peerCID;
  dcidSeq : Z;
  retiredPrior : Z;
  retireCIDs : list Z;
  peerResetToken : option bytes;
  pathResponses : list bytes;
}.

#[export] Instance eta_control : Eta control := fun c =>
  Control (isClient c) (local_limit c) (odcid c) (dcid c) (retrySCID c) (heardPeer c) (accepted c) (peerCIDs c) (dcidSeq c)
    (retiredPrior c) (retireCIDs c) (peerResetToken c) (pathResponses c).

(** * Starting *)

(** [Dial] and [Accept]; the limit is [defaultParams]'s. *)
Definition dial (odcid : bytes) : control :=
  Control true (activeCIDLimit defaultParams) odcid odcid None false false ∅ 0 0 [] None [].
Definition accept (odcid scid : bytes) : control :=
  Control false (activeCIDLimit defaultParams) odcid scid None false false {[0 := PeerCID scid None]} 0 0 [] None [].

(** The first packet a client hears that is not 1-RTT, in [handlePacket]. *)
Definition hear (scid : bytes) (c : control) : control :=
  if isClient c && negb (heardPeer c)
  then c <| heardPeer := true |> <| dcid := scid |> <| peerCIDs := <[0 := PeerCID scid None]> (peerCIDs c) |>
  else c.

(** [handleRetry]: [token] is the whole token field, [genuine] whether the
    integrity tag is right. *)
Definition handleRetry (scid : bytes) (tokenLen : Z) (genuine : bool) (c : control) : control :=
  if negb (isClient c) || heardPeer c || bool_decide (is_Some (retrySCID c)) || (tokenLen <=? 16) then c
  else if negb genuine || bool_decide (scid = dcid c) then c
  else c <| retrySCID := Some scid |> <| dcid := scid |>.

(** [handlePeerParams], as far as connection IDs go; the error, if any, is in
    the pair, and [parseParams] always ends ([params_accepted]). *)
Definition handlePeerParams (data : bytes) (c : control) : option (option Z * control) :=
  let? parsed := parseParams data (isClient c) in
  Some match parsed with
  | Err e => (Some e, c)
  | Ok p =>
      if negb (hasInitialSCID p) || negb (bool_decide (initialSCID p = dcid c)) then (Some errTransportParameter, c)
      else if isClient c && (negb (hasOriginalDCID p) || negb (bool_decide (originalDCID p = odcid c)))
      then (Some errTransportParameter, c)
      else if isClient c && (negb (eqb (hasRetrySCID p) (bool_decide (is_Some (retrySCID c)))) ||
                             match retrySCID c with Some r => negb (bool_decide (QuicParams.retrySCID p = r)) | None => false end)
      then (Some errTransportParameter, c)
      else
        let c := if isClient c
                 then c <| peerResetToken := statelessResetToken p |>
                        <| peerCIDs := <[0 := PeerCID (dcid c) (statelessResetToken p)]> (peerCIDs c) |>
                 else c in
        (None, c <| accepted := true |>)
  end.

(** * Connection IDs *)

(** One round of the loop that retires. *)
Definition retire (prior : Z) (c : control) (s : Z) : control :=
  if s <? prior then c <| peerCIDs := delete s (peerCIDs c) |> <| retireCIDs := retireCIDs c ++ [s] |> else c.

(** The lowest number in the map, [2^64-1] when it is empty. *)
Definition lowest (m : gmap Z peerCID) : Z := foldr Z.min (2 ^ 64 - 1) (map_to_list m).*1.

Definition move (c : control) : control :=
  let next := lowest (peerCIDs c) in
  if next =? 2 ^ 64 - 1 then c
  else
    let p := default (PeerCID [] None) (peerCIDs c !! next) in
    c <| dcidSeq := next |> <| dcid := cid p |> <| peerResetToken := token p |>.

Definition retire_below (prior : Z) (order : list Z) (c : control) : control :=
  if retiredPrior c <? prior then
    let c := fold_left (retire prior) order (c <| retiredPrior := prior |>) in
    if dcidSeq c <? prior then move c else c
  else c.

(** [handleNewConnectionID] after the checks of the frame itself; [Some] is the
    error. *)
Definition handleNewConnectionID (seq prior : Z) (id tok : bytes) (order : list Z) (c : control) : option Z * control :=
  if len (dcid c) =? 0 then (Some errProtocolViolation, c)
  else if seq <? retiredPrior c then (None, c <| retireCIDs := retireCIDs c ++ [seq] |>)
  else
    match peerCIDs c !! seq with
    | Some old => (if bool_decide (cid old = id) then None else Some errProtocolViolation, c)
    | None =>
        let c := c <| peerCIDs := <[seq := PeerCID id (Some tok)]> (peerCIDs c) |> in
        let c := retire_below prior order c in
        (if local_limit c <? Z.of_nat (size (peerCIDs c)) then Some errConnectionIDLimit else None, c)
    end.

(** What [appendControl] sends of them, and [frameLost] takes back. *)
Definition send_retire (c : control) : option (Z * control) :=
  match retireCIDs c with
  | [] => None
  | s :: l => Some (s, c <| retireCIDs := l |>)
  end.

Definition lost_retire (s : Z) (c : control) : control := c <| retireCIDs := retireCIDs c ++ [s] |>.

(** * Path challenges *)

(** Go's [copy]: what [dst] is after it, and how much was copied. *)
Definition copy {A} (dst src : list A) : list A * Z :=
  let n := Z.min (len dst) (len src) in (take (Z.to_nat n) src ++ drop (Z.to_nat n) dst, n).

(** [None] is a slice out of range. *)
Definition queuePathResponse (data : bytes) (q : list bytes) : option (list bytes) :=
  let? q :=
    if maxPathResponses <=? len q then
      let? tail := slice_from q (len q - maxPathResponses + 1) in
      let '(q, n) := copy q tail in
      slice q 0 n
    else Some q in
  Some (q ++ [data]).

Definition send_path (c : control) : option (bytes * control) :=
  match pathResponses c with
  | [] => None
  | d :: l => Some (d, c <| pathResponses := l |>)
  end.

(** * Runs *)

(** With what happened so far: the sequence numbers the peer offered (its first
    connection ID is number 0), the numbers RETIRE_CONNECTION_ID was sent for,
    and the challenges that came. *)
Record cstate := CState { ctl : control; offered : list Z; retired : list Z; challenges : list bytes }.

(** What a connection that is not closed by an error does with this state.  A
    client takes parameters after it heard from the server, once, and
    NEW_CONNECTION_ID comes in 1-RTT packets only, whose keys TLS gives after the
    parameters. *)
Inductive cstep : cstate -> cstate -> Prop :=
| c_hear c o r ch scid : cstep (CState c o r ch) (CState (hear scid c) o r ch)
| c_retry c o r ch scid n genuine : cstep (CState c o r ch) (CState (handleRetry scid n genuine c) o r ch)
| c_params c o r ch data c' :
    accepted c = false -> isClient c = false \/ heardPeer c = true -> handlePeerParams data c = Some (None, c') ->
    cstep (CState c o r ch) (CState c' o r ch)
| c_new c o r ch payload seq prior id tok rest order c' :
    accepted c = true -> bytes_ok payload ->
    readNewConnectionID (Reader payload false) = Ok (FNewConnectionID seq prior id tok, rest) -> r_bad rest = false ->
    order ≡ₚ (map_to_list (<[seq := PeerCID id (Some tok)]> (peerCIDs c))).*1 ->
    handleNewConnectionID seq prior id tok order c = (None, c') ->
    cstep (CState c o r ch) (CState c' (o ++ [seq]) r ch)
| c_send c o r ch s c' : send_retire c = Some (s, c') -> cstep (CState c o r ch) (CState c' o (r ++ [s]) ch)
| c_lost c o r ch s : s ∈ r -> cstep (CState c o r ch) (CState (lost_retire s c) o r ch)
| c_challenge c o r ch d q :
    queuePathResponse d (pathResponses c) = Some q -> cstep (CState c o r ch) (CState (c <| pathResponses := q |>) o r (ch ++ [d]))
| c_answer c o r ch d c' : send_path c = Some (d, c') -> cstep (CState c o r ch) (CState c' o r ch).

Definition c_start (c : control) : cstate := CState c [0] [] [].
Definition fresh (c : control) : Prop := exists odcid scid, c = dial odcid \/ c = accept odcid scid.

(** The peer's connection ID is known. *)
Definition known (c : control) : Prop := isClient c = false \/ heardPeer c = true.

Record control_ok (x : cstate) : Prop := {
  co_known : accepted (ctl x) = true -> known (ctl x);
  co_start : ~ known (ctl x) -> peerCIDs (ctl x) = ∅;
  co_early : accepted (ctl x) = false ->
    dcidSeq (ctl x) = 0 /\ retiredPrior (ctl x) = 0 /\ retireCIDs (ctl x) = [] /\ retired x = [] /\ offered x = [0] /\
    peerResetToken (ctl x) = None;
  co_use : known (ctl x) -> peerCIDs (ctl x) !! dcidSeq (ctl x) = Some (PeerCID (dcid (ctl x)) (peerResetToken (ctl x)));
  co_keys : forall s p, peerCIDs (ctl x) !! s = Some p -> retiredPrior (ctl x) <= s < 2 ^ 64 - 1 /\ s ∈ offered x;
  co_early_keys : accepted (ctl x) = false -> forall s p, peerCIDs (ctl x) !! s = Some p -> s = 0;
  co_size : Z.of_nat (size (peerCIDs (ctl x))) <= local_limit (ctl x);
  co_limit : local_limit (ctl x) = 2;
  co_gone : forall s, s ∈ retireCIDs (ctl x) ++ retired x -> s < retiredPrior (ctl x) /\ s ∈ offered x;
  co_all : known (ctl x) -> forall s, s ∈ offered x -> is_Some (peerCIDs (ctl x) !! s) \/ s ∈ retireCIDs (ctl x) ++ retired x;
  co_paths : len (pathResponses (ctl x)) <= maxPathResponses /\ pathResponses (ctl x) `suffix_of` challenges x;
}.

(** ** Retiring *)

Lemma fold_retire prior order c :
  let c' := fold_left (retire prior) order c in
  (forall s, peerCIDs c' !! s = if decide (s < prior /\ s ∈ order) then None else peerCIDs c !! s) /\
  (forall s, s ∈ retireCIDs c' <-> s ∈ retireCIDs c \/ (s < prior /\ s ∈ order)) /\
  c' = c <| peerCIDs := peerCIDs c' |> <| retireCIDs := retireCIDs c' |>.
Proof.
  revert c. induction order as [|x order IH]; intros c; cbn [fold_left].
  - split_and!; [intros s; rewrite decide_False; [done|set_solver]|set_solver|by destruct c].
  - destruct (IH (retire prior c x)) as (H1 & H2 & H3). set (c' := fold_left _ order _) in *. split_and!.
    + intros s. rewrite H1. unfold retire. destruct (Z.ltb_spec x prior).
      * change (peerCIDs (c <| peerCIDs := delete x (peerCIDs c) |> <| retireCIDs := retireCIDs c ++ [x] |>)) with (delete x (peerCIDs c)).
        destruct (decide (s = x)) as [->|Hne]; [rewrite (decide_True (P := x < prior /\ x ∈ x :: order)) by (split; [done|left]); rewrite lookup_delete_eq; by destruct (decide _)|].
        rewrite lookup_delete_ne by done. apply decide_ext. set_solver.
      * apply decide_ext. set_solver by lia.
    + intros s. rewrite H2. unfold retire. destruct (Z.ltb_spec x prior); cbn; set_solver by lia.
    + rewrite H3. unfold retire. by destruct (x <? prior).
Qed.

Lemma lowest_spec m :
  (forall s p, m !! s = Some p -> s < 2 ^ 64 - 1) -> m <> ∅ -> lowest m < 2 ^ 64 - 1 /\ is_Some (m !! lowest m).
Proof.
  intros Hb Hne. unfold lowest.
  assert (Hl : forall l, Forall (fun s => s < 2 ^ 64 - 1) l -> l <> [] -> foldr Z.min (2 ^ 64 - 1) l < 2 ^ 64 - 1 /\ foldr Z.min (2 ^ 64 - 1) l ∈ l).
  { induction l as [|s l IH]; [done|]. intros [Hs Hf]%Forall_cons _. cbn [foldr]. destruct l as [|t l]; [cbn [foldr]; rewrite Z.min_l by lia; split; [done|left]|].
    destruct (IH Hf ltac:(done)) as [H1 H2]. split; [lia|]. destruct (Z.min_spec s (foldr Z.min (2 ^ 64 - 1) (t :: l))) as [[_ ->]|[_ ->]]; [left|by right]. }
  destruct (Hl (map_to_list m).*1) as [H1 H2].
  - apply Forall_fmap, Forall_forall. intros [s p] Hin%elem_of_map_to_list. by apply (Hb s p).
  - intros H. apply fmap_nil_inv, map_to_list_empty_iff in H. done.
  - split; [done|]. apply list_elem_of_fmap in H2 as ([s p] & -> & Hin%elem_of_map_to_list). by exists p.
Qed.

(** After the numbers below [prior] are gone, the connection ID in use is one
    that is left, and everything else is as before. *)
Lemma retire_below_spec prior order c :
  order ≡ₚ (map_to_list (peerCIDs c)).*1 -> retiredPrior c < prior ->
  (forall s p, peerCIDs c !! s = Some p -> s < 2 ^ 64 - 1) -> (exists s, prior <= s /\ is_Some (peerCIDs c !! s)) ->
  peerCIDs c !! dcidSeq c = Some (PeerCID (dcid c) (peerResetToken c)) ->
  let c' := retire_below prior order c in
  retiredPrior c' = prior /\
  (forall s, peerCIDs c' !! s = if decide (s < prior) then None else peerCIDs c !! s) /\
  (forall s, s ∈ retireCIDs c' <-> s ∈ retireCIDs c \/ (s < prior /\ is_Some (peerCIDs c !! s))) /\
  peerCIDs c' !! dcidSeq c' = Some (PeerCID (dcid c') (peerResetToken c')) /\
  (isClient c', local_limit c', heardPeer c', accepted c', pathResponses c') =
  (isClient c, local_limit c, heardPeer c, accepted c, pathResponses c).
Proof.
  intros Ho Hp Hb (s0 & Hs0 & Hin0) Hu. unfold retire_below. destruct (Z.ltb_spec (retiredPrior c) prior); [|lia].
  set (c0 := c <| retiredPrior := prior |>). destruct (fold_retire prior order c0) as (H1 & H2 & H3). set (c1 := fold_left _ _ _) in *.
  assert (Hio : forall s, s ∈ order <-> is_Some (peerCIDs c !! s)).
  { intros s. rewrite Ho, list_elem_of_fmap. split; [intros ([t p] & -> & Hin%elem_of_map_to_list); by exists p|].
    intros [p Hin]. exists (s, p). by rewrite elem_of_map_to_list. }
  assert (H1' : forall s, peerCIDs c1 !! s = if decide (s < prior) then None else peerCIDs c !! s).
  { intros s. rewrite H1. change (peerCIDs c0) with (peerCIDs c). destruct (decide (s < prior)) as [Hlt|Hge]; [|by rewrite decide_False by tauto].
    destruct (decide _) as [|Hn]; [done|]. rewrite Hio in Hn. destruct (peerCIDs c !! s) eqn:E; [|done]. exfalso. apply Hn. by split. }
  assert (H2' : forall s, s ∈ retireCIDs c1 <-> s ∈ retireCIDs c \/ (s < prior /\ is_Some (peerCIDs c !! s))) by (intros s; by rewrite H2, Hio).
  assert (Hd : dcidSeq c1 = dcidSeq c /\ dcid c1 = dcid c /\ peerResetToken c1 = peerResetToken c /\ retiredPrior c1 = prior /\
    (isClient c1, local_limit c1, heardPeer c1, accepted c1, pathResponses c1) =
    (isClient c, local_limit c, heardPeer c, accepted c, pathResponses c)) by (rewrite H3; done).
  destruct Hd as (D1 & D2 & D3 & D4 & D5). clearbody c1. rewrite D1. destruct (Z.ltb_spec (dcidSeq c) prior).
  - destruct (lowest_spec (peerCIDs c1)) as [L1 [p L2]].
    { intros s p. rewrite H1'. destruct (decide _); [done|]. apply Hb. }
    { intros E. specialize (H1' s0). rewrite E, lookup_empty, decide_False in H1' by lia. rewrite <- H1' in Hin0. by destruct Hin0. }
    unfold move. destruct (Z.eqb_spec (lowest (peerCIDs c1)) (2 ^ 64 - 1)); [lia|]. rewrite L2. cbn. split_and!; try done.
    rewrite L2. by destruct p.
  - split_and!; [done|done|done| |done]. rewrite D1, D2, D3, H1', decide_False by lia. done.
Qed.

Lemma readNewConnectionID_range payload seq prior id tok rest :
  bytes_ok payload -> readNewConnectionID (Reader payload false) = Ok (FNewConnectionID seq prior id tok, rest) -> r_bad rest = false ->
  0 <= prior <= seq /\ seq < 2 ^ 64 - 1.
Proof.
  intros Hb. unfold readNewConnectionID. destruct (reader_varint (Reader payload false)) as [v r1] eqn:E1.
  destruct (reader_varint_range (Reader payload false) _ _ Hb E1) as [Hv1 Hb1]. destruct (reader_varint r1) as [w r2] eqn:E2. destruct (reader_varint_range r1 _ _ Hb1 E2) as [Hv2 _].
  destruct (reader_byte r2) as [n r3]. destruct (reader_bytes n r3) as [d r4]. destruct (reader_bytes _ r4) as [t r5].
  destruct (r_bad r5) eqn:Eb; [intros [= <- <- <- <- <-]; congruence|]. destruct (_ || (v <? w)) eqn:Ec; [done|]. intros [= <- <- <- <- <-] _.
  rewrite !orb_false_iff, Z.ltb_ge in Ec. unfold maxVarint in *. lia.
Qed.

(** ** The steps *)

Lemma single_keys (m : gmap Z peerCID) p s q : m = {[0 := p]} -> m !! s = Some q -> s = 0.
Proof. intros -> [<- _]%lookup_singleton_Some. done. Qed.

Lemma dial_ok od : control_ok (c_start (dial od)).
Proof.
  assert (Hk : ~ known (dial od)) by (by intros [?|?]).
  constructor; cbn [c_start ctl offered retired challenges]; try done; set_solver.
Qed.

Lemma accept_ok od sc : control_ok (c_start (accept od sc)).
Proof.
  constructor; cbn [c_start ctl offered retired challenges]; try done.
  - intros H. exfalso. apply H. by left.
  - intros s p Hs. pose proof (single_keys _ _ _ _ eq_refl Hs) as ->. split; [cbn; lia|left].
  - intros _ s p. by apply single_keys with (p := PeerCID sc None).
  - set_solver.
  - intros _ s ->%list_elem_of_singleton. left. by eexists.
Qed.

Lemma hear_ok scid c o r ch : control_ok (CState c o r ch) -> control_ok (CState (hear scid c) o r ch).
Proof.
  intros Hi. unfold hear. destruct (isClient c && negb (heardPeer c)) eqn:E; [|done]. apply andb_true_iff in E as [Ec Eh]. rewrite negb_true_iff in Eh.
  destruct Hi as [I1 I2 I3 I4 I5 I6 I7 I8 I9 I10 I11]. cbn [ctl offered retired challenges] in *.
  assert (Hk : ~ known c) by (intros [?|?]; congruence). assert (Ha : accepted c = false) by (destruct (accepted c); [by destruct (Hk (I1 eq_refl))|done]).
  destruct (I3 Ha) as (E1 & E2 & E3 & E4 & E5 & E6). rewrite (I2 Hk). constructor; cbn; try done.
  - intros _. by right.
  - intros H. exfalso. apply H. by right.
  - intros _. by rewrite E1, lookup_insert_eq, E6.
  - intros s p Hs. pose proof (single_keys _ _ _ _ eq_refl Hs) as ->. rewrite E2, E5. split; [lia|left].
  - intros _ s p. by apply single_keys with (p := PeerCID scid None).
  - by rewrite I8.
  - rewrite E5. intros _ s ->%list_elem_of_singleton. left. by eexists.
Qed.

Lemma retry_ok scid n g c o r ch : control_ok (CState c o r ch) -> control_ok (CState (handleRetry scid n g c) o r ch).
Proof.
  intros Hi. unfold handleRetry. destruct (_ || (n <=? 16)) eqn:E; [done|]. destruct (_ || bool_decide (scid = _)); [done|].
  rewrite !orb_false_iff, negb_false_iff in E. destruct E as (((Ec & Eh) & _) & _).
  assert (Hk : ~ known c) by (intros [?|?]; congruence). destruct Hi as [I1 I2 I3 I4 I5 I6 I7 I8 I9 I10 I11]. constructor; try done.
Qed.

Lemma params_ok data c c' o r ch :
  control_ok (CState c o r ch) -> accepted c = false -> known c -> handlePeerParams data c = Some (None, c') -> control_ok (CState c' o r ch).
Proof.
  intros [I1 I2 I3 I4 I5 I6 I7 I8 I9 I10 I11] Ha Hk. unfold handlePeerParams. destruct (parseParams data (isClient c)) as [[p|e]|]; [|done|done].
  destruct (_ || _); [done|]. do 2 (destruct (isClient c && _); [done|]). cbn [ctl offered retired challenges] in *.
  destruct (I3 Ha) as (E1 & E2 & E3 & E4 & E5 & E6). specialize (I4 Hk). specialize (I10 Hk). destruct (isClient c) eqn:Ec; intros [= <-].
  - assert (Hd : forall s q, <[0 := PeerCID (dcid c) (statelessResetToken p)]> (peerCIDs c) !! s = Some q -> s = 0).
    { intros s q. destruct (decide (s = 0)) as [->|]; [done|]. rewrite lookup_insert_ne by done. apply I6. done. }
    rewrite E1 in I4. constructor; cbn; try done.
    + intros _. by rewrite E1, lookup_insert_eq.
    + intros s q Hs. rewrite (Hd s q Hs), E2, E5. split; [lia|left].
    + rewrite map_size_insert_Some; [done|]. by eexists.
    + rewrite E5. intros _ s ->%list_elem_of_singleton. left. by rewrite lookup_insert_eq.
  - constructor; cbn; done.
Qed.

Lemma new_ok payload seq prior id tok rest order c c' o r ch :
  control_ok (CState c o r ch) -> accepted c = true -> bytes_ok payload ->
  readNewConnectionID (Reader payload false) = Ok (FNewConnectionID seq prior id tok, rest) -> r_bad rest = false ->
  order ≡ₚ (map_to_list (<[seq := PeerCID id (Some tok)]> (peerCIDs c))).*1 ->
  handleNewConnectionID seq prior id tok order c = (None, c') -> control_ok (CState c' (o ++ [seq]) r ch).
Proof.
  intros [I1 I2 I3 I4 I5 I6 I7 I8 I9 I10 I11] Ha Hb Hr Hbad Ho. destruct (readNewConnectionID_range _ _ _ _ _ _ Hb Hr Hbad) as [Hps Hs64].
  cbn [ctl offered retired challenges] in *. pose proof (I1 Ha) as Hk. specialize (I4 Hk). specialize (I10 Hk).
  unfold handleNewConnectionID. destruct (_ =? 0); [done|]. destruct (Z.ltb_spec seq (retiredPrior c)).
  { intros [= <-]. constructor; cbn; try done; [by rewrite Ha|intros s p Hs; destruct (I5 s p Hs); set_solver|set_solver by lia|].
    intros _ s. rewrite !elem_of_app, list_elem_of_singleton. intros [Hs| ->]; [|set_solver]. destruct (I10 s Hs) as [?|Hg]; [by left|set_solver]. }
  destruct (peerCIDs c !! seq) as [old|] eqn:Eo.
  { destruct (bool_decide _); [|done]. intros [= <-]. constructor; cbn; try done; [by rewrite Ha|intros s p Hs; destruct (I5 s p Hs); set_solver|set_solver|].
    intros _ s. rewrite !elem_of_app, list_elem_of_singleton. intros [Hs| ->]; [|left; by rewrite Eo]. set_solver. }
  set (c1 := c <| peerCIDs := _ |>). destruct (_ <? Z.of_nat _) eqn:El; [done|]. intros [= <-].
  apply Z.ltb_ge in El.
  assert (Hne : seq <> dcidSeq c) by (intros ->; congruence).
  assert (U1 : peerCIDs c1 !! dcidSeq c1 = Some (PeerCID (dcid c1) (peerResetToken c1))) by (cbn; by rewrite lookup_insert_ne).
  assert (K1 : forall s p, peerCIDs c1 !! s = Some p -> s = seq \/ (s <> seq /\ peerCIDs c !! s = Some p)).
  { intros s p. cbn. destruct (decide (s = seq)) as [->|]; [by left|]. rewrite lookup_insert_ne by done. by right. }
  assert (A1 : forall s, s ∈ o ++ [seq] -> is_Some (peerCIDs c1 !! s) \/ s ∈ retireCIDs c ++ r).
  { intros s. rewrite elem_of_app, list_elem_of_singleton. cbn. destruct (decide (s = seq)) as [->|Hs]; [rewrite lookup_insert_eq; by left; eexists|].
    intros [Hin|?]; [|done]. rewrite lookup_insert_ne by done. by apply I10. }
  destruct (Z.ltb_spec (retiredPrior c1) prior) as [Hlt|Hge].
  - destruct (retire_below_spec prior order c1 Ho Hlt) as (R1 & R2 & R3 & R4 & R5); [| |done|].
    { intros s p [->|[_ Hs]]%K1; [done|]. by apply (I5 s p). }
    { exists seq. cbn. rewrite lookup_insert_eq. split; [lia|by eexists]. }
    set (c2 := retire_below prior order c1) in *. clearbody c2. injection R5 as F1 F2 F3 F4 F5.
    assert (Hk2 : known c2) by (unfold known; rewrite F1, F3; exact Hk).
    constructor; cbn [ctl offered retired challenges]; rewrite ?F4, ?F5; try done.
    + by rewrite Ha.
    + intros s p. rewrite R2, R1. destruct (decide _); [done|]. intros [->|[_ Hs]]%K1; [set_solver by lia|]. destruct (I5 s p Hs). set_solver by lia.
    + by rewrite Ha.
    + by rewrite F2.
    + intros s. rewrite elem_of_app, R3, R1. intros [[Hs|[Hs [p Hp]]]|Hs].
      * destruct (I9 s); [set_solver|]. cbn in Hlt. set_solver by lia.
      * split; [done|]. apply K1 in Hp as [->|[_ Hp]]; [set_solver|]. destruct (I5 s p Hp). set_solver.
      * destruct (I9 s); [set_solver|]. cbn in Hlt. set_solver by lia.
    + intros _ s Hs. rewrite elem_of_app, R3, R2. destruct (A1 s Hs) as [Hin|Hin]; [|set_solver]. destruct (decide (s < prior)); [right; left; by right|by left].
  - assert (E : retire_below prior order c1 = c1) by (unfold retire_below; by rewrite (proj2 (Z.ltb_ge _ _) Hge)). rewrite E in *. cbn in El.
    constructor; cbn [ctl offered retired challenges]; try done.
    + cbn. by rewrite Ha.
    + intros s p [->|[_ Hs]]%K1; [cbn; set_solver by lia|]. destruct (I5 s p Hs). set_solver.
    + cbn. by rewrite Ha.
    + intros s Hs. destruct (I9 s Hs). set_solver.
Qed.

(** ** Path challenges *)

Lemma queuePathResponse_spec d q :
  len q <= maxPathResponses -> queuePathResponse d q = Some (drop (Z.to_nat (len q - maxPathResponses + 1)) q ++ [d]).
Proof.
  intros Hq. unfold queuePathResponse, maxPathResponses in *. destruct (Z.leb_spec 4 (len q)).
  - destruct q as [|a [|b [|e [|f [|g q]]]]]; try (cbv in H; by destruct H); [reflexivity|]. rewrite !len_cons in Hq. pose proof (len_nonneg q). lia.
  - replace (Z.to_nat (len q - 4 + 1)) with 0%nat by lia. done.
Qed.

Lemma cstep_ok x y : cstep x y -> control_ok x -> control_ok y.
Proof.
  intros [c o r ch scid|c o r ch scid n g|c o r ch data c' Ha Hk Hp|c o r ch payload seq prior id tok rest order c' Ha Hb Hr Hbad Ho Hn
    |c o r ch s c' Hs|c o r ch s Hs|c o r ch d q Hq|c o r ch d c' Hs] Hi.
  - by apply hear_ok.
  - by apply retry_ok.
  - by eapply params_ok.
  - by eapply new_ok.
  - unfold send_retire in Hs. destruct (retireCIDs c) as [|t l] eqn:E; [done|]. injection Hs as <- <-.
    destruct Hi as [I1 I2 I3 I4 I5 I6 I7 I8 I9 I10 I11]. cbn [ctl offered retired challenges] in *. rewrite E in *. constructor; cbn; try done.
    + intros Ha. by destruct (I3 Ha) as (_ & _ & ? & _).
    + intros s' Hs'. apply I9. set_solver.
    + intros Hk s' Hs'. destruct (I10 Hk s' Hs') as [?|Hg]; [by left|]. right. set_solver.
  - destruct Hi as [I1 I2 I3 I4 I5 I6 I7 I8 I9 I10 I11]. cbn [ctl offered retired challenges] in *. constructor; cbn; try done.
    + intros Ha. destruct (I3 Ha) as (_ & _ & _ & -> & _). set_solver.
    + intros s' Hs'. apply I9. set_solver.
    + intros Hk s' Hs'. destruct (I10 Hk s' Hs') as [?|Hg]; [by left|]. right. set_solver.
  - destruct Hi as [I1 I2 I3 I4 I5 I6 I7 I8 I9 I10 [P1 P2]]. cbn [ctl offered retired challenges] in *. rewrite queuePathResponse_spec in Hq by done.
    injection Hq as <-. constructor; cbn; try done. split.
    + rewrite len_app, len_drop. unfold maxPathResponses in *. change (len [d]) with 1. pose proof (len_nonneg (pathResponses c)). lia.
    + destruct P2 as [k ->]. set (n := Z.to_nat _). exists (k ++ take n (pathResponses c)).
      by rewrite <- !app_assoc, (app_assoc (take n _)), take_drop.
  - unfold send_path in Hs. destruct (pathResponses c) as [|t l] eqn:E; [done|]. injection Hs as <- <-.
    destruct Hi as [I1 I2 I3 I4 I5 I6 I7 I8 I9 I10 [P1 P2]]. cbn [ctl offered retired challenges] in *. rewrite E in *. constructor; cbn; try done.
    rewrite len_cons in P1. split; [lia|]. etrans; [|exact P2]. by exists [t].
Qed.

Lemma creach_ok c x : fresh c -> rtc cstep (c_start c) x -> control_ok x.
Proof.
  intros Hf Hr. assert (H0 : control_ok (c_start c)) by (destruct Hf as (od & sc & [-> | ->]); [apply dial_ok|apply accept_ok]). revert H0.
  induction Hr as [|a b d Hab _ IH]; [done|]. intros H0. apply IH. by eapply cstep_ok.
Qed.

(** * Theorems *)

(** C31: The peer's connection IDs.  However NEW_CONNECTION_ID frames, Retry, losses and
    path challenges come, once the peer's parameters were accepted and while no error has
    closed the connection: the connection ID in use is one the peer offered and has not
    asked back, under its sequence number and with its reset token; none in force
    is below the highest number asked back, and there are at most as many as was allowed;
    each number ever offered is in force, or is queued for RETIRE_CONNECTION_ID or was
    sent in it, and never both; and the answers that wait are for the latest
    challenges, four at most, queueing one more without a panic. *)
Theorem cids_in_force (c0 : control) (x : cstate) :
  fresh c0 -> rtc cstep (c_start c0) x -> accepted (ctl x) = true ->
  let c := ctl x in
  peerCIDs c !! dcidSeq c = Some (PeerCID (dcid c) (peerResetToken c)) /\ retiredPrior c <= dcidSeq c /\
  Z.of_nat (size (peerCIDs c)) <= 2 /\
  (forall s, s ∈ offered x -> (is_Some (peerCIDs c !! s) <-> s ∉ retireCIDs c ++ retired x)) /\
  (forall s, is_Some (peerCIDs c !! s) -> s ∈ offered x /\ retiredPrior c <= s) /\
  (forall s, s ∈ retireCIDs c ++ retired x -> s ∈ offered x /\ s < retiredPrior c) /\
  pathResponses c `suffix_of` challenges x /\ len (pathResponses c) <= 4 /\
  forall d, exists q, queuePathResponse d (pathResponses c) = Some (q ++ [d]) /\ len q < 4.
Proof.
  intros Hf Hr Ha c. destruct (creach_ok _ _ Hf Hr) as [I1 I2 I3 I4 I5 I6 I7 I8 I9 I10 [P1 P2]]. fold c in I1, I2, I3, I4, I5, I6, I7, I8, I9, I10, P1, P2.
  specialize (I1 Ha). specialize (I4 I1). rewrite I8 in I7. split_and!; [done|by apply (I5 _ _ I4)|done| |..|done|done|].
  - intros s Hs. split; [intros [p Hp] Hg; destruct (I5 s p Hp), (I9 s Hg); lia|]. intros Hg. by destruct (I10 I1 s Hs).
  - intros s [p Hp]. destruct (I5 s p Hp); split; [done|lia].
  - intros s Hs. by destruct (I9 s Hs).
  - intros d. rewrite queuePathResponse_spec by done. eexists. split; [done|]. rewrite len_drop. unfold maxPathResponses in *.
    pose proof (len_nonneg (pathResponses c)). lia.
Qed.

(** A server offers two connection IDs; the second asks the first two back. *)
Definition demo_params : bytes := [0x00; 0x01; 0x07; 0x0f; 0x01; 0x05].
Definition demo_new (seq prior : Z) (id : bytes) : bytes := [seq; prior; len id] ++ id ++ replicate 16 seq.

Definition offer (seq prior : Z) (id : bytes) (x : cstate) : cstate :=
  let c := ctl x in
  CState (handleNewConnectionID seq prior id (replicate 16 seq)
    (map_to_list (<[seq := PeerCID id (Some (replicate 16 seq))]> (peerCIDs c))).*1 c).2 (offered x ++ [seq]) (retired x) (challenges x).

Definition demo_heard : control := hear [5] (dial [7]).
Definition demo_ready : control := (default (None, demo_heard) (handlePeerParams demo_params demo_heard)).2.
Definition demo_moved : cstate := offer 2 2 [9] (offer 1 0 [6] (c_start demo_ready)).

Lemma demo_offer seq prior id c o r ch :
  accepted c = true -> bytes_ok (demo_new seq prior id) ->
  readNewConnectionID (Reader (demo_new seq prior id) false) = Ok (FNewConnectionID seq prior id (replicate 16 seq), Reader [] false) ->
  (handleNewConnectionID seq prior id (replicate 16 seq)
    (map_to_list (<[seq := PeerCID id (Some (replicate 16 seq))]> (peerCIDs c))).*1 c).1 = None ->
  cstep (CState c o r ch) (offer seq prior id (CState c o r ch)).
Proof.
  intros Ha Hb Hr He. unfold offer. cbn [ctl offered retired challenges]. eapply c_new; [done|exact Hb|exact Hr|done|reflexivity|].
  destruct (handleNewConnectionID _ _ _ _ _ _) as [e c']. cbn in *. by rewrite He.
Qed.

Lemma cids_in_force_witness :
  dcidSeq (ctl demo_moved) = 2 /\ dcid (ctl demo_moved) = [9] /\ retireCIDs (ctl demo_moved) ≡ₚ [0; 1] /\
  peerCIDs (ctl demo_moved) !! 2 = Some (PeerCID [9] (Some (replicate 16 2))).
Proof.
  assert (Hr : rtc cstep (c_start (dial [7])) demo_moved).
  { apply (rtc_l _ _ (c_start demo_heard)); [apply c_hear|]. apply (rtc_l _ _ (c_start demo_ready)); [apply c_params with demo_params; [done|by right|by vm_compute]|].
    eapply rtc_l; [apply (demo_offer 1 0 [6]); [done|by apply bytes_check|by vm_compute|by vm_compute]|].
    apply rtc_once. apply (demo_offer 2 2 [9]); [done|by apply bytes_check|by vm_compute|by vm_compute]. }
  destruct (cids_in_force (dial [7]) demo_moved ltac:(exists [7], []; by left) Hr ltac:(done)) as (Hu & _).
  split_and!; [done|done|vm_compute; apply perm_swap || reflexivity|exact Hu].
Defined.
