(* ===== verification/QuicRecovery.v ===== *)
(** QUIC loss detection and congestion control
    (src/go/http3/internal/quic/recovery.go).

    A time is the number of nanoseconds since the zero [time.Time], positive
    for every instant a clock gives; a [time.Duration] is an int64, whose sums,
    products and shifts wrap, and the difference of two times saturates.  Byte
    counts are 64-bit.  What acknowledgement or loss does to the data a packet carried,
    the crypto and stream buffers, is a parameter: [data_acked] and [data_lost]
    act on the rest of the connection, [S].  Of a packet number space only what
    sending keeps is here. *)
From S2P Require Import Prelude.
From S2P Require Import QuicBuffer.
From S2P Require Import QuicFrames.
From S2P Require Import QuicPacket.

Definition millisecond : Z := 1000000.
Definition packetThreshold : Z := 3.
Definition timerGranularity : Z := millisecond.
Definition initialRTT : Z := 333 * millisecond.
Definition minCongestionWindow : Z := 2 * maxDatagram.
Definition initialCongestionWindow : Z := 10 * maxDatagram.
Definition maxProbes : Z := 2.

Inductive frame_kind :=
  | sfCrypto | sfStream | sfMaxData | sfMaxStreamData | sfMaxStreamsBidi | sfMaxStreamsUni
  | sfResetStream | sfStopSending | sfHandshakeDone | sfRetireCID.

Record sentFrame := SentFrame { sf_kind : frame_kind; sf_fin : bool; sf_stream : Z; sf_off : Z; sf_n : Z }.

Record sentPacket := SentPacket {
  pn : Z; time : Z; size : Z; ackEliciting : bool; inFlight : bool; frames : list sentFrame;
}.

(** * Round-trip times *)

Record rttStats := RTT { latest : Z; smoothed : Z; rttvar : Z; min_ : Z; hasSample : bool }.

Definition newRTTStats : rttStats := RTT 0 initialRTT (initialRTT / 2) 0 false.

(** [now.Sub(t)]: the difference, at the nearest end of int64 when it is out
    of range. *)
Definition time_sub (now t : Z) : Z := Z.max (- 2 ^ 63) (Z.min (now - t) (2 ^ 63 - 1)).

(** Go's division truncates. *)
Definition update (r : rttStats) (latest ackDelay : Z) : rttStats :=
  if negb (hasSample r) then RTT latest latest (Z.quot latest 2) latest true
  else
    let m := Z.min (min_ r) latest in
    let adjusted := if i64 (m + ackDelay) <=? latest then i64 (latest - ackDelay) else latest in
    let diff := i64 (smoothed r - adjusted) in
    let diff := if diff <? 0 then i64 (- diff) else diff in
    RTT latest (Z.quot (i64 (i64 (7 * smoothed r) + adjusted)) 8) (Z.quot (i64 (i64 (3 * rttvar r) + diff)) 4) m true.

Definition pto (r : rttStats) : Z := i64 (smoothed r + Z.max (i64 (4 * rttvar r)) timerGranularity).

(** * NewReno *)

Record newReno := Reno { cwnd : Z; ssthresh : Z; bytesInFlight : Z; recoveryStart : Z }.

Definition newNewReno : newReno := Reno initialCongestionWindow (2 ^ 64 - 1) 0 0.

Definition canSend (cc : newReno) : bool := u64 (bytesInFlight cc + maxDatagram) <=? cwnd cc.

Definition add_flight (d : Z) (cc : newReno) : newReno :=
  Reno (cwnd cc) (ssthresh cc) (u64 (bytesInFlight cc + d)) (recoveryStart cc).

Definition onAcked (p : sentPacket) (cc : newReno) : newReno :=
  let cc := add_flight (- size p) cc in
  if negb (recoveryStart cc <? time p) then cc
  else if cwnd cc <? ssthresh cc then Reno (u64 (cwnd cc + size p)) (ssthresh cc) (bytesInFlight cc) (recoveryStart cc)
  else Reno (u64 (cwnd cc + u64 (maxDatagram * size p) / cwnd cc)) (ssthresh cc) (bytesInFlight cc) (recoveryStart cc).

Definition onCongestion (sent now : Z) (cc : newReno) : newReno :=
  if negb (recoveryStart cc <? sent) then cc
  else let t := Z.max (cwnd cc / 2) minCongestionWindow in Reno t t (bytesInFlight cc) now.

(** * The connection *)

Record pnSpace := Space {
  hasTx : bool;
  discarded : bool;
  nextPN : Z;
  largestAcked : Z;
  sent : list sentPacket;
  eliciting : Z;                (* ackElicitingInFlight *)
  lossTime : Z;
  lastAckElicitingSent : Z;
  probes : Z;
}.

Section recovery.
Context {S : Type} (data_acked data_lost : Z -> sentFrame -> S -> S).
(** Whether a space has handshake data waiting to be sent, or sent again. *)
Context (crypto_waiting : Z -> S -> bool).

Record Conn := MkConn {
  isClient : bool;
  handshakeComplete : bool;
  handshakeConfirmed : bool;
  addressValidated : bool;
  peerMaxAckDelay : Z;
  bytesRecv : Z;
  bytesSent : Z;
  spaces : list pnSpace;
  rtt : rttStats;
  cc : newReno;
  ptoCount : Z;
  lossDeadline : Z;
  lastActivity : Z;
  sentSinceRecv : bool;
  maxDataPending : bool;
  maxStreamsBidiPending : bool;
  maxStreamsUniPending : bool;
  handshakeDonePending : bool;
  retireCIDs : list Z;
  data : S;
}.

Definition no_space : pnSpace := Space false true 0 (-1) [] 0 0 0 0.
Definition space (i : Z) (c : Conn) : pnSpace := default no_space (at_ (spaces c) i).

Definition with_spaces (l : list pnSpace) (c : Conn) : Conn :=
  MkConn (isClient c) (handshakeComplete c) (handshakeConfirmed c) (addressValidated c) (peerMaxAckDelay c) (bytesRecv c) (bytesSent c)
    l (rtt c) (cc c) (ptoCount c) (lossDeadline c) (lastActivity c) (sentSinceRecv c) (maxDataPending c)
    (maxStreamsBidiPending c) (maxStreamsUniPending c) (handshakeDonePending c) (retireCIDs c) (data c).
Definition set_space (i : Z) (s : pnSpace) (c : Conn) : Conn := with_spaces (<[Z.to_nat i := s]> (spaces c)) c.
Definition set_cc (x : newReno) (c : Conn) : Conn :=
  MkConn (isClient c) (handshakeComplete c) (handshakeConfirmed c) (addressValidated c) (peerMaxAckDelay c) (bytesRecv c) (bytesSent c)
    (spaces c) (rtt c) x (ptoCount c) (lossDeadline c) (lastActivity c) (sentSinceRecv c) (maxDataPending c)
    (maxStreamsBidiPending c) (maxStreamsUniPending c) (handshakeDonePending c) (retireCIDs c) (data c).
Definition set_rtt (x : rttStats) (c : Conn) : Conn :=
  MkConn (isClient c) (handshakeComplete c) (handshakeConfirmed c) (addressValidated c) (peerMaxAckDelay c) (bytesRecv c) (bytesSent c)
    (spaces c) x (cc c) (ptoCount c) (lossDeadline c) (lastActivity c) (sentSinceRecv c) (maxDataPending c)
    (maxStreamsBidiPending c) (maxStreamsUniPending c) (handshakeDonePending c) (retireCIDs c) (data c).
Definition set_timer (n d : Z) (c : Conn) : Conn :=
  MkConn (isClient c) (handshakeComplete c) (handshakeConfirmed c) (addressValidated c) (peerMaxAckDelay c) (bytesRecv c) (bytesSent c)
    (spaces c) (rtt c) (cc c) n d (lastActivity c) (sentSinceRecv c) (maxDataPending c)
    (maxStreamsBidiPending c) (maxStreamsUniPending c) (handshakeDonePending c) (retireCIDs c) (data c).
Definition set_activity (t : Z) (c : Conn) : Conn :=
  MkConn (isClient c) (handshakeComplete c) (handshakeConfirmed c) (addressValidated c) (peerMaxAckDelay c) (bytesRecv c) (bytesSent c)
    (spaces c) (rtt c) (cc c) (ptoCount c) (lossDeadline c) t true (maxDataPending c)
    (maxStreamsBidiPending c) (maxStreamsUniPending c) (handshakeDonePending c) (retireCIDs c) (data c).
Definition set_confirmed (c : Conn) : Conn :=
  MkConn (isClient c) (handshakeComplete c) true (addressValidated c) (peerMaxAckDelay c) (bytesRecv c) (bytesSent c)
    (spaces c) (rtt c) (cc c) (ptoCount c) (lossDeadline c) (lastActivity c) (sentSinceRecv c) (maxDataPending c)
    (maxStreamsBidiPending c) (maxStreamsUniPending c) (handshakeDonePending c) (retireCIDs c) (data c).
Definition set_pending (md mb mu hd : bool) (cids : list Z) (d : S) (c : Conn) : Conn :=
  MkConn (isClient c) (handshakeComplete c) (handshakeConfirmed c) (addressValidated c) (peerMaxAckDelay c) (bytesRecv c) (bytesSent c)
    (spaces c) (rtt c) (cc c) (ptoCount c) (lossDeadline c) (lastActivity c) (sentSinceRecv c) md mb mu hd cids d.

Definition with_sent (l : list sentPacket) (s : pnSpace) : pnSpace :=
  Space (hasTx s) (discarded s) (nextPN s) (largestAcked s) l (eliciting s) (lossTime s) (lastAckElicitingSent s) (probes s).
Definition add_eliciting (d : Z) (s : pnSpace) : pnSpace :=
  Space (hasTx s) (discarded s) (nextPN s) (largestAcked s) (sent s) (eliciting s + d) (lossTime s) (lastAckElicitingSent s) (probes s).
Definition with_lossTime (t : Z) (s : pnSpace) : pnSpace :=
  Space (hasTx s) (discarded s) (nextPN s) (largestAcked s) (sent s) (eliciting s) t (lastAckElicitingSent s) (probes s).
Definition with_largest (n : Z) (s : pnSpace) : pnSpace :=
  Space (hasTx s) (discarded s) (nextPN s) n (sent s) (eliciting s) (lossTime s) (lastAckElicitingSent s) (probes s).
Definition with_probes (n : Z) (s : pnSpace) : pnSpace :=
  Space (hasTx s) (discarded s) (nextPN s) (largestAcked s) (sent s) (eliciting s) (lossTime s) (lastAckElicitingSent s) n.
Definition with_lastSent (t : Z) (s : pnSpace) : pnSpace :=
  Space (hasTx s) (discarded s) (nextPN s) (largestAcked s) (sent s) (eliciting s) (lossTime s) t (probes s).

(** ** What was in a packet *)

Definition frameAcked (sp : Z) (f : sentFrame) (c : Conn) : Conn :=
  match sf_kind f with
  | sfCrypto | sfStream | sfResetStream =>
      set_pending (maxDataPending c) (maxStreamsBidiPending c) (maxStreamsUniPending c) (handshakeDonePending c) (retireCIDs c)
        (data_acked sp f (data c)) c
  | _ => c
  end.

Definition frameLost (sp : Z) (f : sentFrame) (c : Conn) : Conn :=
  let keep := set_pending (maxDataPending c) (maxStreamsBidiPending c) (maxStreamsUniPending c) (handshakeDonePending c) in
  match sf_kind f with
  | sfCrypto | sfStream | sfMaxStreamData | sfResetStream | sfStopSending => keep (retireCIDs c) (data_lost sp f (data c)) c
  | sfMaxData => set_pending true (maxStreamsBidiPending c) (maxStreamsUniPending c) (handshakeDonePending c) (retireCIDs c) (data c) c
  | sfMaxStreamsBidi => set_pending (maxDataPending c) true (maxStreamsUniPending c) (handshakeDonePending c) (retireCIDs c) (data c) c
  | sfMaxStreamsUni => set_pending (maxDataPending c) (maxStreamsBidiPending c) true (handshakeDonePending c) (retireCIDs c) (data c) c
  | sfHandshakeDone => set_pending (maxDataPending c) (maxStreamsBidiPending c) (maxStreamsUniPending c) true (retireCIDs c) (data c) c
  | sfRetireCID => keep (retireCIDs c ++ [sf_off f]) (data c) c
  end.

Definition each {A} (f : A -> Conn -> Conn) (l : list A) (c : Conn) : Conn := fold_left (fun c x => f x c) l c.

(** ** Sending *)

Definition discardSpace (i : Z) (c : Conn) : Conn :=
  let s := space i c in
  if discarded s then c
  else
    let c := each (fun p c => if inFlight p then set_cc (add_flight (- size p) (cc c)) c else c) (sent s) c in
    set_timer 0 (lossDeadline c) (set_space i (Space false true 0 (largestAcked s) [] 0 0 0 0) c).

Definition onPacketSent (i : Z) (p : sentPacket) (c : Conn) : Conn :=
  let s := with_sent (sent (space i c) ++ [p]) (space i c) in
  let s := if ackEliciting p then add_eliciting 1 (with_lastSent (time p) s) else s in
  let c := set_space i s c in
  let c := if ackEliciting p && negb (sentSinceRecv c) then set_activity (time p) c else c in
  let c := if inFlight p then set_cc (add_flight (size p) (cc c)) c else c in
  if (i =? spaceHandshake) && isClient c && negb (discarded (space spaceInitial c))
  then discardSpace spaceInitial c else c.

Definition with_keys (s : pnSpace) : pnSpace :=
  Space true (discarded s) (nextPN s) (largestAcked s) (sent s) (eliciting s) (lossTime s) (lastAckElicitingSent s) (probes s).

(** A Retry starts the Initial space again under new keys: one packet of it,
    and the whole; [next] is how far the space's handshake data has been sent,
    all of which is lost. *)
Definition retry_packet (p : sentPacket) (c : Conn) : Conn :=
  let c := if inFlight p then set_cc (add_flight (- size p) (cc c)) c else c in
  if ackEliciting p then set_space spaceInitial (add_eliciting (-1) (space spaceInitial c)) c else c.

Definition handleRetry (next : Z) (c : Conn) : Conn :=
  let c := set_space spaceInitial (with_keys (space spaceInitial c)) c in
  let c := each retry_packet (sent (space spaceInitial c)) c in
  let c := set_space spaceInitial (with_sent [] (space spaceInitial c)) c in
  let c := frameLost spaceInitial (SentFrame sfCrypto false 0 0 next) c in
  set_timer 0 (lossDeadline c) c.

Definition confirmHandshake (c : Conn) : Conn :=
  if handshakeConfirmed c || negb (handshakeComplete c) then c
  else discardSpace spaceHandshake (set_confirmed c).

(** ** Loss *)

Definition lossDelay (r : rttStats) : Z := Z.max (Z.quot (i64 (9 * Z.max (latest r) (smoothed r))) 8) timerGranularity.

(** The packets kept, those lost, and the time the next one is. *)
Fixpoint loss_scan (delay now largest : Z) (l : list sentPacket) (t : Z) : list sentPacket * list sentPacket * Z :=
  match l with
  | [] => ([], [], t)
  | p :: l =>
      if largest <? pn p then let '(kept, lost, t) := loss_scan delay now largest l t in (p :: kept, lost, t)
      else if negb (now - delay <? time p) || (pn p + packetThreshold <=? largest) then
        let '(kept, lost, t) := loss_scan delay now largest l t in (kept, p :: lost, t)
      else
        let t' := time p + delay in
        let t := if (t =? 0) || (t' <? t) then t' else t in
        let '(kept, lost, t) := loss_scan delay now largest l t in (p :: kept, lost, t)
  end.

(** One lost packet; the state carries the time of the last in flight. *)
Definition lose (i : Z) (p : sentPacket) (x : Conn * Z) : Conn * Z :=
  let '(c, last) := x in
  let c := if ackEliciting p then set_space i (add_eliciting (-1) (space i c)) c else c in
  let '(c, last) := if inFlight p then (set_cc (add_flight (- size p) (cc c)) c, time p) else (c, last) in
  (each (frameLost i) (frames p) c, last).

Definition detectLost (i now : Z) (c : Conn) : Conn :=
  let s := with_lossTime 0 (space i c) in
  let c := set_space i s c in
  if largestAcked s <? 0 then c
  else
    let '(kept, lost, t) := loss_scan (lossDelay (rtt c)) now (largestAcked s) (sent s) 0 in
    let c := set_space i (with_sent kept (with_lossTime t s)) c in
    match lost with
    | [] => c
    | _ =>
        let '(c, last) := fold_left (fun x p => lose i p x) lost (c, 0) in
        if negb (last =? 0) then set_cc (onCongestion last now (cc c)) c else c
    end.

(** ** Acknowledgement *)

Fixpoint skip_below (n : Z) (asc : list pnRange) : list pnRange :=
  match asc with r :: rest => if hi r <? n then skip_below n rest else asc | [] => [] end.

(** The scan over [sent] with a pointer into the ranges, lowest first: the
    packets acknowledged and those kept. *)
Fixpoint ack_scan (asc : list pnRange) (l : list sentPacket) : list sentPacket * list sentPacket :=
  match l with
  | [] => ([], [])
  | p :: l =>
      let asc := skip_below (pn p) asc in
      let '(acked, kept) := ack_scan asc l in
      match asc with
      | r :: _ => if lo r <=? pn p then (p :: acked, kept) else (acked, p :: kept)
      | [] => (acked, p :: kept)
      end
  end.

Definition peerCompletedAddressValidation (c : Conn) : bool :=
  negb (isClient c) || handshakeConfirmed c || (0 <=? largestAcked (space spaceHandshake c)).

Definition ack_packet (i : Z) (p : sentPacket) (c : Conn) : Conn :=
  let c := if ackEliciting p then set_space i (add_eliciting (-1) (space i c)) c else c in
  let c := if inFlight p then set_cc (onAcked p (cc c)) c else c in
  each (frameAcked i) (frames p) c.

Definition sample_rtt (i largest ackDelay now : Z) (acked : list sentPacket) (c : Conn) : Conn :=
  match last acked with
  | Some newest =>
      if (pn newest =? largest) && existsb ackEliciting acked then
        let d := if i =? spaceInitial then 0
                 else if handshakeConfirmed c then Z.min ackDelay (peerMaxAckDelay c) else ackDelay in
        set_rtt (update (rtt c) (time_sub now (time newest)) d) c
      else c
  | None => c
  end.

(** [None] is the error for an acknowledgement of a packet not sent. *)
Definition onAckReceived (i : Z) (ranges : list pnRange) (ackDelay now : Z) (c : Conn) : option Conn :=
  match ranges with
  | [] => None
  | r :: _ =>
      let s := space i c in
      let largest := hi r in
      if nextPN s <=? largest then None
      else
        let s := if largestAcked s <? largest then with_largest largest s else s in
        let '(acked, kept) := ack_scan (reverse ranges) (sent s) in
        let c := set_space i (with_sent kept s) c in
        match acked with
        | [] => Some c
        | _ =>
            let c := sample_rtt i largest ackDelay now acked c in
            let c := detectLost i now c in
            let c := each (ack_packet i) acked c in
            let c := if (i =? spaceApp) && isClient c && negb (handshakeConfirmed c) then confirmHandshake c else c in
            Some (if peerCompletedAddressValidation c then set_timer 0 (lossDeadline c) c else c)
        end
  end.

(** ** Timers *)

Definition atAmplificationLimit (c : Conn) : bool :=
  negb (isClient c) && negb (addressValidated c) && (3 * bytesRecv c <? bytesSent c + maxDatagram).

(** The earliest loss time and its space. *)
Definition lossTimeSpace (c : Conn) : Z * Z :=
  fold_left (fun '(t, sp) i =>
    let lt := lossTime (space i c) in
    if negb (lt =? 0) && ((t =? 0) || (lt <? t)) then (lt, i) else (t, sp)) [0; 1; 2] (0, 0).

Definition ackElicitingInFlight (c : Conn) : bool := existsb (fun i => 0 <? eliciting (space i c)) [0; 1; 2].

(** One space of [ptoTimeSpace]; [None] when the loop has been left. *)
Definition pto_space (c : Conn) (duration : Z) (x : option (Z * Z) * (Z * Z)) (i : Z) : option (Z * Z) * (Z * Z) :=
  match x with
  | (Some r, _) => (Some r, r)
  | (None, (t, sp)) =>
      let s := space i c in
      if eliciting s =? 0 then (None, (t, sp))
      else if (i =? spaceApp) && negb (handshakeConfirmed c) && negb (t =? 0) then (Some (t, sp), (t, sp))
      else
        let d := if (i =? spaceApp) && handshakeConfirmed c then i64 (duration + i64 (Z.shiftl (peerMaxAckDelay c) (ptoCount c)))
                 else duration in
        let pt := lastAckElicitingSent s + d in
        if (t =? 0) || (pt <? t) then (None, (pt, i)) else (None, (t, sp))
  end.

Definition ptoTimeSpace (now : Z) (c : Conn) : Z * Z :=
  let duration := i64 (Z.shiftl (pto (rtt c)) (ptoCount c)) in
  if negb (ackElicitingInFlight c) then
    (now + duration, if hasTx (space spaceHandshake c) then spaceHandshake else spaceInitial)
  else snd (fold_left (pto_space c duration) [0; 1; 2] (None, (0, spaceInitial))).

Definition setLossDetectionTimer (now : Z) (c : Conn) : Conn :=
  let '(t, _) := lossTimeSpace c in
  if negb (t =? 0) then set_timer (ptoCount c) t c
  else if atAmplificationLimit c || (negb (ackElicitingInFlight c) && peerCompletedAddressValidation c)
  then set_timer (ptoCount c) 0 c
  else set_timer (ptoCount c) (fst (ptoTimeSpace now c)) c.

(** The probes' frames: of the oldest ack-eliciting packets, two in 1-RTT. *)
Fixpoint probe_packets (i : Z) (l : list sentPacket) (n : Z) : list sentPacket :=
  match l with
  | [] => []
  | p :: l =>
      if negb (ackEliciting p) then probe_packets i l n
      else if (i =? spaceApp) && (n + 1 =? maxProbes) then [p] else p :: probe_packets i l (n + 1)
  end.

Definition probe (i : Z) (c : Conn) : Conn :=
  let c := set_space i (with_probes maxProbes (space i c)) c in
  let c := each (fun j c =>
    let hs := space j c in
    if negb (j =? i) && hasTx hs && negb (discarded hs) && crypto_waiting j (data c)
    then set_space j (with_probes (Z.max (probes hs) 1) hs) c else c) [spaceInitial; spaceHandshake] c in
  each (fun p c => each (frameLost i) (frames p) c) (probe_packets i (sent (space i c)) 0) c.

Definition onLossDetectionTimeout (now : Z) (c : Conn) : Conn :=
  let '(t, sp) := lossTimeSpace c in
  if negb (t =? 0) then detectLost sp now c
  else
    let c :=
      if negb (ackElicitingInFlight c) then
        let j := if hasTx (space spaceHandshake c) then spaceHandshake else spaceInitial in
        set_space j (with_probes 1 (space j c)) c
      else probe (snd (ptoTimeSpace now c)) c in
    set_timer (ptoCount c + 1) (lossDeadline c) c.
End recovery.
Arguments Conn : clear implicits.

(** * Scans *)

Definition covered (ranges : list pnRange) (n : Z) : bool := existsb (fun r => (lo r <=? n) && (n <=? hi r)) ranges.

(** Ascending ranges that do not touch. *)
Fixpoint asc_ok (prev : Z) (rs : list pnRange) : Prop :=
  match rs with [] => True | r :: rs => prev < lo r /\ lo r <= hi r /\ asc_ok (hi r) rs end.

Lemma asc_ok_above prev rs n : asc_ok prev rs -> n <= prev -> covered rs n = false.
Proof.
  revert prev. induction rs as [|r rs IH]; intros prev; [done|]. intros (H1 & H2 & H3) Hn. cbn.
  destruct (Z.leb_spec (lo r) n); [lia|]. cbn. apply (IH (hi r)); [done|lia].
Qed.

Lemma skip_below_spec prev asc n :
  asc_ok prev asc ->
  (exists prev', asc_ok prev' (skip_below n asc)) /\
  (forall m, n <= m -> covered (skip_below n asc) m = covered asc m) /\
  match skip_below n asc with r :: rest => n <= hi r /\ asc_ok (hi r) rest | [] => True end.
Proof.
  revert prev. induction asc as [|r asc IH]; intros prev Ha; cbn [skip_below]; [split; [by exists prev|done]|].
  destruct Ha as (H1 & H2 & H3). destruct (Z.ltb_spec (hi r) n).
  - destruct (IH _ H3) as (Hp & Hc & Hh). split; [done|]. split; [|done]. intros m Hm. rewrite Hc by done. cbn.
    destruct (Z.leb_spec m (hi r)); [lia|]. by rewrite andb_false_r.
  - split; [by exists prev|]. split; [done|]. split; [done|done].
Qed.

(** Packet numbers go up. *)
Fixpoint pn_sorted (l : list sentPacket) : Prop :=
  match l with [] => True | p :: l => Forall (fun q => pn p < pn q) l /\ pn_sorted l end.

Definition select (f : sentPacket -> bool) (l : list sentPacket) : list sentPacket := List.filter f l.

Lemma select_ext f g l : (forall p, p ∈ l -> f p = g p) -> select f l = select g l.
Proof. intros H. apply List.filter_ext_in. intros p Hp. apply H. by apply list_elem_of_In. Qed.

(** The pointer scan finds exactly the packets the ranges cover. *)
Lemma ack_scan_spec prev asc l :
  asc_ok prev asc -> pn_sorted l ->
  ack_scan asc l = (select (fun p => covered asc (pn p)) l, select (fun p => negb (covered asc (pn p))) l).
Proof.
  revert prev asc. induction l as [|p l IH]; intros prev asc Ha Hs; [done|]. cbn [ack_scan]. destruct Hs as [Hp Hs].
  destruct (skip_below_spec prev asc (pn p) Ha) as ((prev' & Ha') & Hc & Hh).
  rewrite (IH prev' _ Ha' Hs). rewrite Forall_forall in Hp.
  assert (Hf : forall q, q ∈ l -> covered (skip_below (pn p) asc) (pn q) = covered asc (pn q)).
  { intros q Hq. apply Hc. specialize (Hp q Hq). lia. }
  rewrite (select_ext _ (fun q => covered asc (pn q)) l Hf).
  rewrite (select_ext (fun q => negb _) (fun q => negb (covered asc (pn q))) l) by (intros q Hq; by rewrite Hf).
  pose proof (Hc (pn p) ltac:(lia)) as Hcp. cbn [select List.filter]. fold (select (fun q => covered asc (pn q)) l).
  fold (select (fun q => negb (covered asc (pn q))) l). rewrite <- Hcp.
  destruct (skip_below (pn p) asc) as [|r rest]; [done|]. destruct Hh as [Hhi Hrest]. destruct (Z.leb_spec (lo r) (pn p)).
  - assert (E : covered (r :: rest) (pn p) = true) by (cbn; destruct (Z.leb_spec (lo r) (pn p)), (Z.leb_spec (pn p) (hi r)); try lia; done).
    by rewrite E.
  - assert (E : covered (r :: rest) (pn p) = false).
    { cbn. destruct (Z.leb_spec (lo r) (pn p)); [lia|]. cbn. apply (asc_ok_above (hi r)); [done|lia]. }
    by rewrite E.
Qed.

(** Which packets the time and packet thresholds give up. *)
Definition given_up (delay now largest : Z) (p : sentPacket) : bool :=
  (pn p <=? largest) && ((time p <=? now - delay) || (pn p + packetThreshold <=? largest)).

Lemma loss_scan_spec delay now largest l t :
  exists t', loss_scan delay now largest l t =
    (select (fun p => negb (given_up delay now largest p)) l, select (given_up delay now largest) l, t').
Proof.
  revert t. induction l as [|p l IH]; intros t; [by exists t|]. cbn [loss_scan select List.filter].
  fold (select (given_up delay now largest) l) (select (fun p => negb (given_up delay now largest p)) l).
  assert (Eg : given_up delay now largest p =
    if largest <? pn p then false else negb (now - delay <? time p) || (pn p + packetThreshold <=? largest)).
  { unfold given_up. rewrite (Z.leb_antisym largest (pn p)), (Z.leb_antisym (now - delay) (time p)). by destruct (largest <? pn p). }
  rewrite Eg. destruct (largest <? pn p); [destruct (IH t) as [t' ->]; by exists t'|].
  destruct (_ || _); [destruct (IH t) as [t' ->]; by exists t'|].
  destruct (IH (if (t =? 0) || (time p + delay <? t) then time p + delay else t)) as [t' ->]. by exists t'.
Qed.

Lemma select_perm f l : l ≡ₚ select f l ++ select (fun p => negb (f p)) l.
Proof.
  induction l as [|p l IH]; [done|]. cbn [select List.filter]. fold (select f l) (select (fun p => negb (f p)) l).
  destruct (f p); cbn [negb].
  - by rewrite <- app_comm_cons, <- IH.
  - rewrite <- Permutation_middle, <- IH. done.
Qed.

Lemma select_sub f l p : p ∈ select f l <-> p ∈ l /\ f p = true.
Proof. rewrite !list_elem_of_In. apply List.filter_In. Qed.

Lemma select_sorted f l : pn_sorted l -> pn_sorted (select f l).
Proof.
  induction l as [|p l IH]; [done|]. intros [Hp Hs]. cbn [select List.filter]. destruct (f p); [|by apply IH].
  split; [|by apply IH]. rewrite Forall_forall in *. intros q [Hq _]%select_sub. by apply Hp.
Qed.

Lemma select_Forall (P : sentPacket -> Prop) f l : Forall P l -> Forall P (select f l).
Proof. rewrite !Forall_forall. intros H p [Hp _]%select_sub. by apply H. Qed.

Lemma select_total (g : sentPacket -> Z) f l : total g l = total g (select f l) + total g (select (fun p => negb (f p)) l).
Proof.
  induction l as [|p l IH]; [done|]. cbn [select List.filter total]. fold (select f l) (select (fun p => negb (f p)) l).
  destruct (f p); cbn [negb total]; lia.
Qed.

Lemma select_cnt (g : sentPacket -> bool) f l : cnt g l = cnt g (select f l) + cnt g (select (fun p => negb (f p)) l).
Proof.
  induction l as [|p l IH]; [done|]. cbn [select List.filter cnt]. fold (select f l) (select (fun p => negb (f p)) l).
  destruct (f p); cbn [negb cnt]; lia.
Qed.

(** * Accounting *)

Definition flight (p : sentPacket) : Z := if inFlight p then size p else 0.
Definition in_flight (s : pnSpace) : Z := total flight (sent s).

Record space_ok (s : pnSpace) : Prop := {
  so_packets : Forall (fun p => 0 <= size p /\ 0 < time p /\ pn p < nextPN s) (sent s);
  so_sorted : pn_sorted (sent s);
  so_last : 0 < eliciting s -> 0 < lastAckElicitingSent s;
}.

Section accounting.
Context {S : Type} (data_acked data_lost : Z -> sentFrame -> S -> S) (crypto_waiting : Z -> S -> bool).
Implicit Types c : Conn S.

(** The counters, with [debt] the packets taken from [sent] of space [i] whose
    sizes and counts have not been taken off yet. *)
Record owes (i : Z) (debt : list sentPacket) c : Prop := {
  o_len : length (spaces c) = 3%nat;
  o_spaces : forall j, 0 <= j < 3 -> space_ok (space j c) /\
    eliciting (space j c) = cnt ackEliciting (sent (space j c)) + (if j =? i then cnt ackEliciting debt else 0);
  o_flight : bytesInFlight (cc c) = total in_flight (spaces c) + total flight debt;
  o_debt : Forall (fun p => 0 <= size p) debt;
  o_cwnd : minCongestionWindow <= cwnd (cc c);
  o_sum : cwnd (cc c) + bytesInFlight (cc c) < 2 ^ 64;
}.

Definition settled c : Prop := owes 0 [] c.

Lemma owes_nil i j c : owes i [] c -> owes j [] c.
Proof.
  intros [H1 H2 H3 H4 H5 H6]. split; try done. intros k Hk. destruct (H2 k Hk) as [? E]. split; [done|]. cbn in *.
  destruct (k =? i), (k =? j); lia.
Qed.

Lemma space_lookup i c : 0 <= i < 3 -> length (spaces c) = 3%nat -> spaces c !! Z.to_nat i = Some (space i c).
Proof.
  intros Hi Hl. unfold space, at_. destruct (Z.leb_spec 0 i); [|lia].
  destruct (lookup_lt_is_Some_2 (spaces c) (Z.to_nat i) ltac:(lia)) as [s ->]. done.
Qed.

Lemma space_set i j s c : 0 <= i < 3 -> 0 <= j < 3 -> length (spaces c) = 3%nat ->
  space j (set_space i s c) = if j =? i then s else space j c.
Proof.
  intros Hi Hj Hl. unfold space, at_, set_space. cbn [spaces with_spaces]. destruct (Z.leb_spec 0 j); [|lia].
  destruct (Z.eqb_spec j i) as [->|Hne].
  - by rewrite list_lookup_insert_eq by lia.
  - by rewrite list_lookup_insert_ne by lia.
Qed.

Lemma flight_nonneg l : Forall (fun p => 0 <= size p) l -> 0 <= total flight l.
Proof. induction 1 as [|p l Hp Hl IH]; cbn; [lia|]. unfold flight at 1. destruct (inFlight p); lia. Qed.

Lemma space_ok_flight s : space_ok s -> 0 <= in_flight s.
Proof. intros []. apply flight_nonneg. eapply Forall_impl; [exact so_packets0|]. by intros p [? _]. Qed.

Lemma spaces_nonneg i debt c : owes i debt c -> 0 <= total in_flight (spaces c).
Proof.
  intros [Hl Hs _ _ _ _]. destruct (spaces c) as [|a [|b [|d [|]]]] eqn:E; try done. cbn [total].
  assert (H : forall j s, 0 <= j < 3 -> spaces c !! Z.to_nat j = Some s -> 0 <= in_flight s).
  { intros j s Hj Hlk. rewrite space_lookup in Hlk by (done || by rewrite E). injection Hlk as <-. apply space_ok_flight, (Hs j Hj). }
  pose proof (H 0 a ltac:(lia) ltac:(by rewrite E)). pose proof (H 1 b ltac:(lia) ltac:(by rewrite E)).
  pose proof (H 2 d ltac:(lia) ltac:(by rewrite E)). lia.
Qed.

(** Changing one space. *)
Lemma owes_set i debt debt' s c :
  0 <= i < 3 -> owes i debt c -> space_ok s -> Forall (fun p => 0 <= size p) debt' ->
  eliciting s = cnt ackEliciting (sent s) + cnt ackEliciting debt' ->
  in_flight s + total flight debt' = in_flight (space i c) + total flight debt ->
  owes i debt' (set_space i s c).
Proof.
  intros Hi [Hl Hs Hf Hd Hcw Hsum] Hok Hd' He Hin. split; try done.
  - cbn. by rewrite length_insert.
  - intros j Hj. rewrite space_set by done. destruct (Z.eqb_spec j i) as [->|Hne].
    + split; [done|]. done.
    + destruct (Hs j Hj) as [? E]. split; [done|]. destruct (Z.eqb_spec j i); [done|]. done.
  - cbn [cc set_space with_spaces spaces]. rewrite (total_insert _ _ _ (space i c)) by (by apply space_lookup). lia.
Qed.

(** ** Paying off a packet *)

Definition pay_space (i : Z) (p : sentPacket) c : Conn S :=
  if ackEliciting p then set_space i (add_eliciting (-1) (space i c)) c else c.

Lemma owes_pay i p debt c x :
  0 <= i < 3 -> owes i (p :: debt) c ->
  bytesInFlight x = bytesInFlight (cc c) - flight p -> minCongestionWindow <= cwnd x -> cwnd x + bytesInFlight x < 2 ^ 64 ->
  owes i debt (set_cc x (pay_space i p c)).
Proof.
  intros Hi Ho Hb Hcw Hsum. pose proof Ho as [Hl Hs Hf Hd _ _]. apply Forall_cons in Hd as [Hp Hd]. destruct (Hs i Hi) as [Hok He].
  rewrite Z.eqb_refl in He. cbn [cnt] in He. cbn [total] in Hf.
  assert (Hc : exists c0, pay_space i p c = c0 /\ length (spaces c0) = 3%nat /\ total in_flight (spaces c0) = total in_flight (spaces c) /\
    forall j, 0 <= j < 3 -> space_ok (space j c0) /\
      eliciting (space j c0) = cnt ackEliciting (sent (space j c0)) + (if j =? i then cnt ackEliciting debt else 0)).
  { unfold pay_space. destruct (ackEliciting p) eqn:Ea; cbn [Z.b2z] in He.
    - eexists. split; [done|]. split; [cbn; by rewrite length_insert|]. split.
      + cbn [spaces set_space with_spaces]. rewrite (total_insert _ _ _ (space i c)) by (by apply space_lookup).
        unfold in_flight at 2 3. cbn [sent add_eliciting]. lia.
      + intros j Hj. rewrite space_set by done. destruct (Z.eqb_spec j i) as [->|Hne].
        * cbn [sent eliciting add_eliciting]. split; [|lia]. destruct Hok. split; [done|done|]. cbn. intros; apply so_last0; lia.
        * destruct (Hs j Hj) as [? E]. split; [done|]. destruct (Z.eqb_spec j i); [done|]. done.
    - exists c. split; [done|]. split; [done|]. split; [done|]. intros j Hj. destruct (Hs j Hj) as [? E]. split; [done|].
      destruct (j =? i); cbn in *; [|done]. rewrite Ea in E. cbn in E. lia. }
  destruct Hc as (c0 & -> & L & T & Sp). split; try done. cbn [cc set_cc spaces]. rewrite Hb, T. lia.
Qed.

Lemma flight_le i debt p c : owes i debt c -> p ∈ debt -> 0 <= flight p <= bytesInFlight (cc c).
Proof.
  intros Ho Hp. pose proof (spaces_nonneg _ _ _ Ho). destruct Ho as [_ _ Hf Hd _ _]. rewrite Forall_forall in Hd.
  assert (Hfl : 0 <= flight p <= total flight debt).
  { rewrite list_elem_of_In in Hp. clear Hf. induction debt as [|q debt IH]; [done|]. 
    assert (Hq : 0 <= flight q) by (unfold flight; destruct (inFlight q); [apply Hd, list_elem_of_here|lia]).
    assert (Hr : 0 <= total flight debt) by (apply flight_nonneg, Forall_forall; intros y Hy; apply Hd; by right).
    cbn [total]. destruct Hp as [->|Hp]; [lia|]. destruct (IH ltac:(intros y Hy; apply Hd; by right) Hp). lia. }
  lia.
Qed.

Lemma add_flight_back p x : 0 <= size p <= bytesInFlight x -> bytesInFlight x < 2 ^ 64 ->
  add_flight (- size p) x = Reno (cwnd x) (ssthresh x) (bytesInFlight x - size p) (recoveryStart x).
Proof. intros H1 H2. unfold add_flight. rewrite u64_small by lia. f_equal. Qed.

Lemma onAcked_spec p x :
  0 <= size p <= bytesInFlight x -> minCongestionWindow <= cwnd x -> cwnd x + bytesInFlight x < 2 ^ 64 ->
  bytesInFlight (onAcked p x) = bytesInFlight x - size p /\ cwnd x <= cwnd (onAcked p x) <= cwnd x + size p.
Proof.
  intros Hp Hc Hs. unfold onAcked. unfold minCongestionWindow, maxDatagram in *. rewrite add_flight_back by lia.
  cbn [cwnd ssthresh bytesInFlight recoveryStart]. destruct (negb _); [cbn; lia|]. destruct (_ <? _).
  - cbn [cwnd bytesInFlight]. rewrite u64_small by lia. lia.
  - cbn [cwnd bytesInFlight].
    assert (Hq : 0 <= u64 (1200 * size p) / cwnd x <= size p).
    { pose proof (u64_range (1200 * size p)). split; [apply Z.div_pos; lia|]. apply Z.div_le_upper_bound; [lia|].
      assert (u64 (1200 * size p) <= 1200 * size p) by (unfold u64; apply Z.mod_le; lia). nia. }
    rewrite u64_small by lia. lia.
Qed.

Lemma onCongestion_spec sent now x :
  minCongestionWindow <= cwnd x -> minCongestionWindow <= cwnd (onCongestion sent now x) <= cwnd x /\
  bytesInFlight (onCongestion sent now x) = bytesInFlight x.
Proof.
  intros Hc. unfold onCongestion. destruct (negb _); [lia|]. cbn. split; [|done].
  assert (cwnd x / 2 <= cwnd x) by (unfold minCongestionWindow, maxDatagram in *; apply Z.div_le_upper_bound; lia). lia.
Qed.

(** Frames do not touch the counters. *)
Lemma set_pending_same c : exists md mb mu hd cids d, c = set_pending md mb mu hd cids d c.
Proof.
  exists (maxDataPending c), (maxStreamsBidiPending c), (maxStreamsUniPending c), (handshakeDonePending c), (retireCIDs c), (data c). by destruct c.
Qed.

Lemma each_frames (f : sentFrame -> Conn S -> Conn S) fs c :
  (forall fr c, exists md mb mu hd cids d, f fr c = set_pending md mb mu hd cids d c) ->
  exists md mb mu hd cids d, each f fs c = set_pending md mb mu hd cids d c.
Proof.
  intros Hf. revert c. induction fs as [|fr fs IH]; intros c; unfold each; cbn [fold_left].
  - apply set_pending_same.
  - destruct (Hf fr c) as (md & mb & mu & hd & cids & d & ->). destruct (IH (set_pending md mb mu hd cids d c)) as (? & ? & ? & ? & ? & ? & E).
    unfold each in E. rewrite E. do 6 eexists. done.
Qed.

Lemma frameAcked_shape i fr c : exists md mb mu hd cids d, frameAcked data_acked i fr c = set_pending md mb mu hd cids d c.
Proof. unfold frameAcked. destruct (sf_kind fr); try apply set_pending_same; do 6 eexists; reflexivity. Qed.

Lemma frameLost_shape i fr c : exists md mb mu hd cids d, frameLost data_lost i fr c = set_pending md mb mu hd cids d c.
Proof. unfold frameLost. destruct (sf_kind fr); do 6 eexists; reflexivity. Qed.

(** ** The operations *)

Lemma owes_pending i debt c md mb mu hd cids d : owes i debt c -> owes i debt (set_pending md mb mu hd cids d c).
Proof. by intros []. Qed.

Lemma ack_packet_owes i p debt c : 0 <= i < 3 -> owes i (p :: debt) c -> owes i debt (ack_packet data_acked i p c).
Proof.
  intros Hi Ho. unfold ack_packet. destruct (flight_le _ _ p _ Ho (list_elem_of_here _ _)) as [Hf1 Hf2]. pose proof Ho as [_ _ _ _ Hcw Hsum].
  set (c1 := if ackEliciting p then set_space i (add_eliciting (-1) (space i c)) c else c).
  assert (Ec : cc c1 = cc c) by (unfold c1; by destruct (ackEliciting p)).
  assert (H : owes i debt (if inFlight p then set_cc (onAcked p (cc c1)) c1 else c1)).
  { rewrite Ec. unfold flight in *. destruct (inFlight p) eqn:Ei.
    - destruct (onAcked_spec p (cc c)) as [Hb Hc]; [lia|done|done|]. apply (owes_pay i p); try done; unfold flight; rewrite ?Ei; lia.
    - replace c1 with (set_cc (cc c) c1) by (rewrite <- Ec; by destruct c1).
      apply (owes_pay i p); try done. unfold flight. rewrite Ei. lia. }
  destruct (each_frames (frameAcked data_acked i) (frames p) (if inFlight p then set_cc (onAcked p (cc c1)) c1 else c1))
    as (md & mb & mu & hd & cids & d & E); [apply frameAcked_shape|]. fold c1. rewrite E. by apply owes_pending.
Qed.

Lemma lose_owes i p debt c last : 0 <= i < 3 -> owes i (p :: debt) c -> owes i debt (fst (lose data_lost i p (c, last))).
Proof.
  intros Hi Ho. unfold lose. destruct (flight_le _ _ p _ Ho (list_elem_of_here _ _)) as [Hf1 Hf2]. pose proof Ho as [_ _ _ _ Hcw Hsum].
  unfold minCongestionWindow, maxDatagram in Hcw.
  set (c1 := if ackEliciting p then set_space i (add_eliciting (-1) (space i c)) c else c).
  assert (Ec : cc c1 = cc c) by (unfold c1; by destruct (ackEliciting p)).
  assert (H : owes i debt (fst (if inFlight p then (set_cc (add_flight (- size p) (cc c1)) c1, time p) else (c1, last)))).
  { rewrite Ec. unfold flight in *. destruct (inFlight p) eqn:Ei; cbn [fst].
    - rewrite add_flight_back by lia. apply (owes_pay i p); try done; cbn [bytesInFlight cwnd]; unfold flight; rewrite ?Ei; lia.
    - replace c1 with (set_cc (cc c) c1) by (rewrite <- Ec; by destruct c1).
      apply (owes_pay i p); try done. unfold flight. rewrite Ei. lia. }
  destruct (if inFlight p then _ else _) as [c2 l2]. cbn [fst] in *.
  destruct (each_frames (frameLost data_lost i) (frames p) c2) as (md & mb & mu & hd & cids & d & E); [apply frameLost_shape|].
  rewrite E. by apply owes_pending.
Qed.

Lemma lose_all_owes i lost debt c last :
  0 <= i < 3 -> owes i (lost ++ debt) c -> owes i debt (fst (fold_left (fun x p => lose data_lost i p x) lost (c, last))).
Proof.
  intros Hi. revert c last. induction lost as [|p lost IH]; intros c last Ho; [done|]. cbn [fold_left].
  pose proof (lose_owes i p (lost ++ debt) c last Hi Ho) as H. destruct (lose data_lost i p (c, last)) as [c1 l1]. by apply IH.
Qed.

Lemma ack_all_owes i acked c : 0 <= i < 3 -> owes i acked c -> owes i [] (each (ack_packet data_acked i) acked c).
Proof.
  intros Hi. revert c. induction acked as [|p acked IH]; intros c Ho; [done|]. unfold each. cbn [fold_left].
  apply IH. by apply ack_packet_owes.
Qed.

Lemma space_ok_sub s l t : space_ok s -> (forall p, p ∈ l -> p ∈ sent s) -> pn_sorted l -> space_ok (with_sent l (with_lossTime t s)).
Proof.
  intros [] Hl Hs. split; cbn; [|done|done]. rewrite Forall_forall in *. intros p Hp. apply so_packets0. by apply Hl.
Qed.

Lemma detectLost_owes i now debt c : 0 <= i < 3 -> owes i debt c -> owes i debt (detectLost data_lost i now c).
Proof.
  intros Hi Ho. pose proof Ho as [Hl Hs _ Hd Hcw Hsum]. destruct (Hs i Hi) as [Hok He]. rewrite Z.eqb_refl in He.
  unfold detectLost. set (s := with_lossTime 0 (space i c)).
  assert (Hoks : space_ok s) by (unfold s; destruct Hok; by split).
  assert (H1 : owes i debt (set_space i s c)) by (by apply (owes_set i debt)).
  destruct (Z.ltb_spec (largestAcked s) 0); [done|].
  destruct (loss_scan_spec (lossDelay (rtt (set_space i s c))) now (largestAcked s) (sent s) 0) as [t ->].
  set (f := given_up _ now (largestAcked s)). set (lost := select f (sent s)). set (kept := select (fun p => negb (f p)) (sent s)).
  assert (H2 : owes i (lost ++ debt) (set_space i (with_sent kept (with_lossTime t s)) (set_space i s c))).
  { apply (owes_set i debt); try done.
    - apply space_ok_sub; [done| |]; [by intros p [? _]%select_sub|]. apply select_sorted. by destruct Hoks.
    - apply Forall_app. split; [|done]. apply select_Forall. destruct Hoks. eapply Forall_impl; [exact so_packets0|]. by intros p [? _].
    - cbn [eliciting sent with_sent with_lossTime]. change (eliciting s) with (eliciting (space i c)). rewrite He.
      change (sent (space i c)) with (sent s). rewrite (select_cnt ackEliciting f (sent s)), cnt_app. fold lost kept. lia.
    - rewrite space_set, Z.eqb_refl by done. unfold in_flight. cbn [sent with_sent]. rewrite total_app.
      rewrite (select_total flight f (sent s)). fold lost kept. lia. }
  destruct lost as [|p lost'] eqn:El; [done|]. rewrite <- El in H2 |- *.
  pose proof (lose_all_owes i lost debt _ 0 Hi H2) as H3. destruct (fold_left _ _ _) as [c3 last]. cbn [fst] in H3.
  destruct (negb _); [|done]. destruct H3 as [A1 A2 A3 A4 A5 A6]. destruct (onCongestion_spec last now (cc c3) A5) as [Hw Hb].
  split; try done; cbn [cc set_cc spaces]; lia.
Qed.

(** ** Discarding and sending *)

Lemma settled_space j c : settled c -> 0 <= j < 3 ->
  space_ok (space j c) /\ eliciting (space j c) = cnt ackEliciting (sent (space j c)).
Proof. intros [_ Hs _ _ _ _] Hj. destruct (Hs j Hj) as [? E]. split; [done|]. destruct (j =? 0); cbn in E; lia. Qed.

(** The debt of a settled connection may be taken against any space. *)
Lemma settled_set i s c :
  0 <= i < 3 -> settled c -> space_ok s -> eliciting s = cnt ackEliciting (sent s) -> in_flight s = in_flight (space i c) ->
  settled (set_space i s c).
Proof.
  intros Hi Hc Hs He Hf. apply (owes_nil i). apply (owes_set i []); try done; [by apply (owes_nil 0)|cbn; lia|cbn; lia].
Qed.

Lemma settled_timer n d c : settled (set_timer n d c) <-> settled c.
Proof. split; by intros []. Qed.

Lemma total_elem_le {A} (f : A -> Z) (l : list A) (i : nat) x :
  (forall j y, l !! j = Some y -> 0 <= f y) -> l !! i = Some x -> f x <= total f l.
Proof.
  revert i. induction l as [|z l IH]; intros [|i] Hn Hx; [done|done| |]; cbn [total].
  - injection Hx as ->. assert (0 <= total f l); [|lia]. assert (Hl : forall j y, l !! j = Some y -> 0 <= f y) by (intros j; apply (Hn (Datatypes.S j))).
    clear -Hl. induction l as [|z l IH]; cbn; [lia|]. pose proof (Hl 0%nat z eq_refl). specialize (IH (fun j => Hl (Datatypes.S j))). lia.
  - pose proof (Hn 0%nat z eq_refl). specialize (IH i (fun j => Hn (Datatypes.S j)) Hx). lia.
Qed.

Lemma settled_flight i c : 0 <= i < 3 -> settled c -> 0 <= in_flight (space i c) <= bytesInFlight (cc c).
Proof.
  intros Hi Hc. pose proof Hc as [Hl Hs Hf _ _ _]. split; [apply space_ok_flight, (Hs i Hi)|]. rewrite Hf. cbn [total]. rewrite Z.add_0_r.
  apply (total_elem_le in_flight _ (Z.to_nat i)); [|by apply space_lookup]. intros j s Hj.
  assert (Hj3 : 0 <= Z.of_nat j < 3) by (apply lookup_lt_Some in Hj; lia).
  pose proof (space_lookup (Z.of_nat j) c Hj3 Hl) as E. rewrite Nat2Z.id, Hj in E. injection E as ->. apply space_ok_flight, (Hs _ Hj3).
Qed.

Lemma drop_flight l c :
  Forall (fun p => 0 <= size p) l -> total flight l <= bytesInFlight (cc c) < 2 ^ 64 ->
  each (fun p c => if inFlight p then set_cc (add_flight (- size p) (cc c)) c else c) l c =
    set_cc (Reno (cwnd (cc c)) (ssthresh (cc c)) (bytesInFlight (cc c) - total flight l) (recoveryStart (cc c))) c.
Proof.
  intros Hl. revert c. induction Hl as [|p l Hp Hl IH]; intros c Hb; unfold each; cbn [fold_left total] in *.
  - rewrite Z.sub_0_r. by destruct c as [??????? ?? [] ??????????].
  - pose proof (flight_nonneg l Hl). unfold flight at 1 in Hb. destruct (inFlight p) eqn:Ei.
    + etransitivity; [apply IH|]; rewrite add_flight_back by lia; cbn [cc set_cc bytesInFlight cwnd ssthresh recoveryStart]; [lia|].
      unfold set_cc. cbn. do 2 f_equal. unfold flight at 2. rewrite Ei. lia.
    + etransitivity; [apply IH; lia|]. do 2 f_equal. unfold flight at 2. rewrite Ei. lia.
Qed.

Lemma discardSpace_settled i c : 0 <= i < 3 -> settled c -> settled (discardSpace i c).
Proof.
  intros Hi Hc. unfold discardSpace. destruct (discarded (space i c)); [done|]. rewrite settled_timer.
  destruct (settled_space i c Hc Hi) as [[Hp _ _] _]. pose proof (settled_flight i c Hi Hc) as Hf. pose proof Hc as [Hl Hs Hb _ Hw Hsum].
  unfold in_flight in Hf. unfold minCongestionWindow, maxDatagram in *. rewrite drop_flight; [|eapply Forall_impl; [exact Hp|]; by intros p [? _]|lia].
  set (c1 := set_cc _ c). assert (Hsp : forall j, space j c1 = space j c) by done.
  apply (owes_nil i). split; cbn [spaces set_space with_spaces cc c1 set_cc bytesInFlight cwnd].
  - by rewrite length_insert.
  - intros j Hj. rewrite space_set by done. destruct (Z.eqb_spec j i) as [->|Hne].
    + split; [|done]. split; cbn; [constructor|done|lia].
    + rewrite Hsp. destruct (settled_space j c Hc Hj) as [? E]. split; [done|]. lia.
  - rewrite (total_insert _ _ _ (space i c)) by (by apply space_lookup). rewrite Hb. cbn [total]. unfold in_flight at 3. cbn. unfold in_flight. lia.
  - constructor.
  - unfold minCongestionWindow, maxDatagram. lia.
  - lia.
Qed.

(** A packet is numbered before it is recorded. *)
Definition with_next (n : Z) (s : pnSpace) : pnSpace :=
  Space (hasTx s) (discarded s) n (largestAcked s) (sent s) (eliciting s) (lossTime s) (lastAckElicitingSent s) (probes s).

Lemma pn_sorted_snoc l p : pn_sorted l -> Forall (fun q => pn q < pn p) l -> pn_sorted (l ++ [p]).
Proof.
  induction l as [|q l IH]; intros Hs Hp; [done|]. destruct Hs as [H1 H2]. apply Forall_cons in Hp as [Hq Hp]. cbn [app pn_sorted].
  split; [|by apply IH]. apply Forall_app. split; [done|]. by constructor.
Qed.

Lemma onPacketSent_settled i p c :
  0 <= i < 3 -> settled c -> 0 <= size p -> 0 < time p -> pn p < nextPN (space i c) -> Forall (fun q => pn q < pn p) (sent (space i c)) ->
  cwnd (cc c) + bytesInFlight (cc c) + size p < 2 ^ 64 -> settled (onPacketSent i p c).
Proof.
  intros Hi Hc Hsz Ht Hpn Hlt Hsum. destruct (settled_space i c Hc Hi) as [[Hp Hso Hla] He]. pose proof (settled_flight i c Hi Hc).
  pose proof Hc as [Hl Hs Hf _ Hw _]. unfold onPacketSent.
  set (s := if ackEliciting p then _ else _). set (c1 := set_space i s c). set (c2 := if ackEliciting p && _ then _ else c1).
  set (c3 := if inFlight p then _ else c2).
  assert (E3 : spaces c3 = spaces c1) by (unfold c3, c2; by destruct (inFlight p), (_ && _)).
  assert (Es : sent s = sent (space i c) ++ [p]) by (unfold s; by destruct (ackEliciting p)).
  assert (H3 : settled c3).
  { split.
    - rewrite E3. cbn. by rewrite length_insert.
    - intros j Hj. assert (Ej : space j c3 = space j c1) by (unfold space; by rewrite E3). rewrite Ej. unfold c1. rewrite space_set by done.
      destruct (Z.eqb_spec j i) as [->|Hne]; [|destruct (settled_space j c Hc Hj) as [? E]; split; [done|]; destruct (j =? 0); cbn; lia].
      split.
      + assert (En : nextPN s = nextPN (space i c)) by (unfold s; by destruct (ackEliciting p)). split; [|by rewrite Es; apply pn_sorted_snoc|].
        * rewrite Es, En. apply Forall_app. split; [done|]. by constructor.
        * unfold s. destruct (ackEliciting p); cbn; [lia|done].
      + rewrite Es, cnt_app. cbn [cnt]. transitivity (cnt ackEliciting (sent (space i c)) + Z.b2z (ackEliciting p)); [|destruct (i =? 0); cbn; lia].
        unfold s. destruct (ackEliciting p); cbn [eliciting add_eliciting with_sent with_lastSent Z.b2z]; lia.
    - rewrite E3. unfold c1. cbn [spaces set_space with_spaces total]. rewrite (total_insert _ _ _ (space i c)) by (by apply space_lookup).
      unfold in_flight at 3. rewrite Es, total_app. cbn [total]. fold (in_flight (space i c)).
      assert (Eb : bytesInFlight (cc c3) = bytesInFlight (cc c) + flight p); [|rewrite Eb, Hf; cbn; lia].
      unfold c3, flight. destruct (inFlight p); [|unfold c2; destruct (_ && _); cbn; lia].
      assert (E2 : cc c2 = cc c) by (unfold c2; by destruct (_ && _)). rewrite E2. cbn. unfold minCongestionWindow, maxDatagram in Hw. rewrite u64_small; lia.
    - constructor.
    - unfold c3, c2. by destruct (inFlight p), (_ && _).
    - assert (E2 : cc c2 = cc c) by (unfold c2; by destruct (_ && _)). unfold c3. unfold minCongestionWindow, maxDatagram in Hw.
      destruct (inFlight p); rewrite ?E2; cbn [cc set_cc add_flight cwnd bytesInFlight]; [rewrite u64_small by lia|]; lia. }
  clear E3. clearbody c3. destruct (_ && negb (discarded _)); [|done]. by apply discardSpace_settled.
Qed.

Lemma confirmHandshake_settled c : settled c -> settled (confirmHandshake c).
Proof.
  intros Hc. unfold confirmHandshake. destruct (_ || _); [done|]. apply discardSpace_settled; [done|]. by destruct Hc.
Qed.

(** ** Retry *)

Lemma add_eliciting_0 s : add_eliciting 0 s = s.
Proof. destruct s. unfold add_eliciting. cbn. by rewrite Z.add_0_r. Qed.

Lemma retry_packet_spec p c :
  0 <= size p -> length (spaces c) = 3%nat -> flight p <= bytesInFlight (cc c) < 2 ^ 64 ->
  spaces (retry_packet p c) = <[0%nat := add_eliciting (- Z.b2z (ackEliciting p)) (space spaceInitial c)]> (spaces c) /\
  cc (retry_packet p c) = Reno (cwnd (cc c)) (ssthresh (cc c)) (bytesInFlight (cc c) - flight p) (recoveryStart (cc c)).
Proof.
  intros Hp L Hb. unfold retry_packet. set (c1 := if inFlight p then _ else c).
  assert (Hs : spaces c1 = spaces c) by (unfold c1; by destruct (inFlight p)).
  assert (Hc : cc c1 = Reno (cwnd (cc c)) (ssthresh (cc c)) (bytesInFlight (cc c) - flight p) (recoveryStart (cc c))).
  { unfold c1, flight in *. destruct (inFlight p); cbn [cc set_cc]; [apply add_flight_back; lia|]. rewrite Z.sub_0_r. by destruct (cc c). }
  clearbody c1. assert (Hsp : space spaceInitial c1 = space spaceInitial c) by (unfold space; by rewrite Hs).
  destruct (ackEliciting p); cbn [Z.b2z spaces set_space with_spaces cc]; rewrite Hs; [by rewrite Hsp|]. split; [|done].
  cbn. rewrite add_eliciting_0. symmetry. apply list_insert_id. by apply (space_lookup 0).
Qed.

Lemma retry_packets l c :
  Forall (fun p => 0 <= size p) l -> length (spaces c) = 3%nat -> total flight l <= bytesInFlight (cc c) < 2 ^ 64 ->
  let c' := each retry_packet l c in
  spaces c' = <[0%nat := add_eliciting (- cnt ackEliciting l) (space spaceInitial c)]> (spaces c) /\
  cc c' = Reno (cwnd (cc c)) (ssthresh (cc c)) (bytesInFlight (cc c) - total flight l) (recoveryStart (cc c)).
Proof.
  intros Hl. revert c. induction Hl as [|p l Hp Hl IH]; intros c L Hb; cbn [cnt total] in *.
  - split; [|rewrite Z.sub_0_r; by destruct c as [??????? ?? [] ??????????]]. symmetry. cbn. rewrite add_eliciting_0.
    apply list_insert_id. by apply (space_lookup 0).
  - pose proof (flight_nonneg l Hl) as Hn. assert (Hf : 0 <= flight p) by (unfold flight; destruct (inFlight p); lia).
    destruct (retry_packet_spec p c Hp L) as [Hs Hc]; [lia|].
    destruct (IH (retry_packet p c)) as [Es Ec]; [rewrite Hs; by rewrite length_insert|rewrite Hc; cbn; lia|].
    unfold each in *. cbn [fold_left]. rewrite Es, Ec, Hs, Hc. cbn [cwnd ssthresh bytesInFlight recoveryStart]. split; [|f_equal; lia].
    rewrite list_insert_insert_eq. f_equal. unfold space at 1, at_. rewrite Hs. cbn [Z.leb]. rewrite list_lookup_insert_eq by lia. cbn.
    unfold add_eliciting. cbn. f_equal. lia.
Qed.

Lemma handleRetry_settled next c : settled c -> settled (handleRetry data_lost next c).
Proof.
  intros Hc. unfold handleRetry. set (c1 := set_space spaceInitial _ c). destruct (settled_space 0 c Hc ltac:(done)) as [[Hp _ _] He].
  assert (H1 : settled c1) by (destruct (settled_space 0 c Hc ltac:(done)) as [[] ?]; by apply settled_set).
  assert (E1 : space spaceInitial c1 = with_keys (space 0 c)) by (unfold c1; destruct Hc; by rewrite space_set).
  pose proof (settled_flight 0 c1 ltac:(done) H1) as Hf. change 0 with spaceInitial in Hf. rewrite E1 in Hf |- *. unfold in_flight in Hf.
  cbn [sent with_keys] in *. pose proof H1 as [Hl _ Hb _ Hw Hsum]. cbn [total] in Hb. unfold minCongestionWindow, maxDatagram in Hw.
  destruct (retry_packets (sent (space 0 c)) c1) as [Es Ec]; [eapply Forall_impl; [exact Hp|]; by intros p [? _]|done|lia|].
  set (c2 := each retry_packet _ c1) in *.
  destruct (frameLost_shape spaceInitial (SentFrame sfCrypto false 0 0 next) (set_space spaceInitial (with_sent [] (space spaceInitial c2)) c2))
    as (md & mb & mu & hd & cids & d & ->). apply settled_timer, owes_pending.
  assert (E2 : space spaceInitial c2 = add_eliciting (- cnt ackEliciting (sent (space 0 c))) (with_keys (space 0 c))).
  { unfold space, at_. rewrite Es. cbn [Z.leb]. rewrite E1. by rewrite list_lookup_insert_eq by lia. }
  rewrite E2. assert (L2 : length (spaces c2) = 3%nat) by (rewrite Es; by rewrite length_insert).
  apply (owes_nil 0). split; cbn [spaces set_space with_spaces cc].
  - by rewrite length_insert.
  - intros j Hj. rewrite space_set by done. destruct (Z.eqb_spec j spaceInitial) as [->|Hne].
    + clear -He. set (s := space 0 c) in *. clearbody s. split; [split; cbn; [constructor|done|lia]|cbn; lia].
    + assert (Ej : space j c2 = space j c1).
      { unfold space, at_. destruct (Z.leb_spec 0 j); [|done]. rewrite Es. change spaceInitial with 0 in Hne. by rewrite list_lookup_insert_ne by lia. }
      rewrite Ej. destruct (settled_space j c1 H1 Hj) as [? E]. split; [done|]. cbn. destruct (j =? 0); lia.
  - rewrite Es, Ec. cbn [bytesInFlight total]. change (Z.to_nat spaceInitial) with 0%nat. rewrite list_insert_insert_eq.
    rewrite (total_insert _ _ _ (space 0 c1)) by (by apply (space_lookup 0)). change (space 0 c1) with (space spaceInitial c1). rewrite E1.
    unfold in_flight in *. cbn [sent with_sent with_keys total]. lia.
  - constructor.
  - rewrite Ec. unfold minCongestionWindow, maxDatagram. cbn [cwnd]. lia.
  - rewrite Ec. change spaceInitial with 0 in Hf. cbn [cwnd bytesInFlight]. lia.
Qed.

(** ** Acknowledgement *)

Lemma asc_ok_snoc prev rs r : asc_ok prev rs -> lo r <= hi r -> (forall x, x ∈ rs -> hi x < lo r) -> prev < lo r -> asc_ok prev (rs ++ [r]).
Proof.
  revert prev. induction rs as [|x rs IH]; intros prev Ha Hr Hx Hp; [done|]. destruct Ha as (H1 & H2 & H3). cbn [app asc_ok].
  split; [done|]. split; [done|]. apply IH; [done|done| |apply Hx, list_elem_of_here]. intros y Hy. apply Hx. by right.
Qed.

Lemma desc_ok_asc prev rs : desc_ok prev rs -> asc_ok (-1) (reverse rs) /\ (forall x, x ∈ rs -> hi x + 2 <= prev /\ 0 <= lo x <= hi x).
Proof.
  revert prev. induction rs as [|r rs IH]; intros prev Hd; [split; [done|by intros x ?%elem_of_nil]|]. destruct Hd as (H1 & H2 & H3).
  destruct (IH _ H3) as [Ha Hb]. split.
  - rewrite reverse_cons. apply asc_ok_snoc; [done|lia| |lia]. intros x Hx. rewrite elem_of_reverse in Hx. destruct (Hb x Hx). lia.
  - intros x [->|Hx]%elem_of_cons; [lia|]. destruct (Hb x Hx). lia.
Qed.

Lemma sample_rtt_owes i debt largest ackDelay now acked c : owes i debt c -> owes i debt (sample_rtt i largest ackDelay now acked c).
Proof. intros H. unfold sample_rtt. destruct (last acked) as [p|]; [|done]. destruct (_ && _); [|done]. by destruct H. Qed.

Lemma confirm_settled i c : settled c ->
  settled (let c := if (i =? spaceApp) && isClient c && negb (handshakeConfirmed c) then confirmHandshake c else c in
    if peerCompletedAddressValidation c then set_timer 0 (lossDeadline c) c else c).
Proof.
  intros Hc. set (c1 := if _ && _ && _ then _ else _).
  assert (H : settled c1) by (unfold c1; destruct (_ && _ && _); [by apply confirmHandshake_settled|done]). cbn zeta.
  destruct (peerCompletedAddressValidation c1); [by apply settled_timer|done].
Qed.

(** Taking the acknowledged packets leaves them owed; the rest of the
    acknowledgement pays. *)
Lemma ack_take_owes i f s c :
  0 <= i < 3 -> settled c -> space_ok s -> sent s = sent (space i c) -> eliciting s = eliciting (space i c) ->
  owes i (select f (sent (space i c))) (set_space i (with_sent (select (fun p => negb (f p)) (sent (space i c))) s) c).
Proof.
  intros Hi Hc Hoks Es Ee. destruct (settled_space i c Hc Hi) as [Hok He]. set (acked := select f _). set (kept := select _ _).
  apply (owes_set i []); try done; [by apply (owes_nil 0)| | | |].
  - assert (Hk : space_ok (with_sent kept (with_lossTime (lossTime s) s))); [|by destruct s].
    apply space_ok_sub; [done|rewrite Es; by intros p [? _]%select_sub|apply select_sorted; by destruct Hok].
  - apply select_Forall. destruct Hok. eapply Forall_impl; [exact so_packets0|]. by intros p [? _].
  - cbn [eliciting sent with_sent]. rewrite Ee, He, (select_cnt ackEliciting f). fold acked kept. lia.
  - cbn. unfold in_flight. cbn [sent with_sent]. rewrite (select_total flight f (sent (space i c))). fold acked kept. lia.
Qed.

Lemma ack_settle i largest ackDelay now acked c :
  0 <= i < 3 -> owes i acked c ->
  settled (each (ack_packet data_acked i) acked (detectLost data_lost i now (sample_rtt i largest ackDelay now acked c))).
Proof.
  intros Hi H. apply (owes_nil i). apply ack_all_owes; [done|]. apply detectLost_owes; [done|]. by apply sample_rtt_owes.
Qed.

Lemma onAckReceived_settled i ranges prev ackDelay now c c' :
  0 <= i < 3 -> settled c -> desc_ok prev ranges -> onAckReceived data_acked data_lost i ranges ackDelay now c = Some c' -> settled c'.
Proof.
  intros Hi Hc Hr. unfold onAckReceived. destruct ranges as [|r older] eqn:Er; [done|]. rewrite <- Er in *. clear Er older.
  destruct (_ <=? _); [done|]. set (s := if largestAcked _ <? _ then _ else _).
  destruct (settled_space i c Hc Hi) as [Hok He].
  assert (Es : sent s = sent (space i c)) by (unfold s; by destruct (_ <? _)).
  assert (Ee : eliciting s = eliciting (space i c)) by (unfold s; by destruct (_ <? _)).
  assert (Hoks : space_ok s) by (unfold s; destruct (_ <? _); [destruct Hok; by split|done]).
  destruct (desc_ok_asc _ _ Hr) as [Ha _]. rewrite (ack_scan_spec (-1)); [|done|by destruct Hoks]. rewrite Es.
  set (f := fun p => covered (reverse ranges) (pn p)). set (acked := select f (sent (space i c))).
  set (kept := select (fun p => negb (covered (reverse ranges) (pn p))) (sent (space i c))). intros H.
  pose proof (ack_take_owes i f s c Hi Hc Hoks Es Ee : owes i acked (set_space i (with_sent kept s) c)) as H1.
  destruct acked as [|p acked'] eqn:Ek; [injection H as <-; by apply (owes_nil i)|]. rewrite <- Ek in *.
  injection H as <-. apply confirm_settled. by apply ack_settle.
Qed.

(** ** Timeouts *)

Lemma lossTimeSpace_range c : 0 <= snd (lossTimeSpace c) < 3.
Proof. unfold lossTimeSpace. cbn [fold_left]. repeat (case_match; simplify_eq; cbn [snd]; try lia). Qed.

Lemma ptoTimeSpace_range now c : 0 <= snd (ptoTimeSpace now c) < 3.
Proof.
  unfold ptoTimeSpace. destruct (negb _); [cbn [snd]; destruct (hasTx _); unfold spaceHandshake, spaceInitial; lia|].
  generalize (i64 (Z.shiftl (pto (rtt c)) (ptoCount c))) as d. intros d.
  assert (Hs : forall x i, 0 <= i < 3 -> 0 <= snd (snd x) < 3 -> (forall r, fst x = Some r -> 0 <= snd r < 3) ->
    0 <= snd (snd (pto_space c d x i)) < 3 /\ (forall r, fst (pto_space c d x i) = Some r -> 0 <= snd r < 3)).
  { intros [[r|] [t sp]] i Hi Hx Hr; cbn [pto_space fst snd] in *; [split; [by apply Hr|by intros ? [= <-]; apply Hr]|].
    clear Hr. repeat case_match; cbn [fst snd]; (split; [lia|intros ? [=]; subst; cbn; lia]). }
  unfold fold_left. destruct (Hs (None, (0, spaceInitial)) 0) as [A1 A2]; [lia|cbn; unfold spaceInitial; lia|done|].
  destruct (Hs _ 1 ltac:(lia) A1 A2) as [B1 B2]. by destruct (Hs _ 2 ltac:(lia) B1 B2).
Qed.

Lemma probes_settled i n c : 0 <= i < 3 -> settled c -> settled (set_space i (with_probes n (space i c)) c).
Proof. intros Hi Hc. destruct (settled_space i c Hc Hi) as [Hok He]. apply settled_set; try done. destruct Hok. by split. Qed.

Lemma frames_lost_settled i fs c : settled c -> settled (each (frameLost data_lost i) fs c).
Proof.
  intros Hc. destruct (each_frames (frameLost data_lost i) fs c) as (md & mb & mu & hd & cids & d & ->); [apply frameLost_shape|].
  by apply owes_pending.
Qed.

Lemma each_settled {A} (f : A -> Conn S -> Conn S) l c : (forall x c, x ∈ l -> settled c -> settled (f x c)) -> settled c -> settled (each f l c).
Proof.
  revert c. induction l as [|x l IH]; intros c Hf Hc; [done|]. apply (IH (f x c)); [|by apply Hf; [left|]].
  intros y c' Hy. apply Hf. by right.
Qed.

Lemma probe_settled i c : 0 <= i < 3 -> settled c -> settled (probe data_lost crypto_waiting i c).
Proof.
  intros Hi Hc. unfold probe. apply each_settled; [intros p c' _; apply frames_lost_settled|].
  apply each_settled; [|by apply probes_settled]. intros j c' Hj Hc'.
  assert (0 <= j < 3) by (repeat (apply elem_of_cons in Hj as [->|Hj]; [unfold spaceInitial, spaceHandshake; lia|]); by apply elem_of_nil in Hj).
  destruct (_ && _); [by apply probes_settled|done].
Qed.

Lemma onLossDetectionTimeout_settled now c : settled c -> settled (onLossDetectionTimeout data_lost crypto_waiting now c).
Proof.
  intros Hc. unfold onLossDetectionTimeout. pose proof (lossTimeSpace_range c) as Hr. destruct (lossTimeSpace c) as [t sp]. cbn [snd] in Hr.
  destruct (negb _); [apply (owes_nil sp), detectLost_owes; [done|by apply (owes_nil 0)]|]. apply settled_timer.
  destruct (negb _); [|apply probe_settled; [apply ptoTimeSpace_range|done]].
  apply probes_settled; [|done]. destruct (hasTx _); unfold spaceHandshake, spaceInitial; lia.
Qed.

Lemma setLossDetectionTimer_settled now c : settled c -> settled (setLossDetectionTimer now c).
Proof.
  intros Hc. unfold setLossDetectionTimer. destruct (lossTimeSpace c) as [t sp]. destruct (negb (t =? 0)); [by apply settled_timer|].
  destruct (_ || _); by apply settled_timer.
Qed.

(** ** The probe timeout *)

Lemma elicitingInFlight_spec c : ackElicitingInFlight c = true <-> exists j, 0 <= j < 3 /\ 0 < eliciting (space j c).
Proof.
  unfold ackElicitingInFlight. cbn [existsb]. rewrite !orb_true_iff. split.
  - intros [H|[H|[H|[=]]]]; apply Z.ltb_lt in H; eexists; (split; [|exact H]); lia.
  - intros (j & Hj & H). apply Z.ltb_lt in H. assert (j = 0 \/ j = 1 \/ j = 2) as [->|[->| ->]] by lia; tauto.
Qed.

(** What a probe timeout waits, and what it waits in 1-RTT once the handshake
    is confirmed, where neither has wrapped. *)
Definition waits c : Prop :=
  0 <= i64 (Z.shiftl (pto (rtt c)) (ptoCount c)) /\
  0 <= i64 (i64 (Z.shiftl (pto (rtt c)) (ptoCount c)) + i64 (Z.shiftl (peerMaxAckDelay c) (ptoCount c))).

(** What the loop over the spaces has when it has gone past some. *)
Definition pto_inv c (x : option (Z * Z) * (Z * Z)) (n : Z) : Prop :=
  (fst x = None -> fst (snd x) = 0 -> forall j, 0 <= j < n -> eliciting (space j c) = 0) /\
  (fst (snd x) <> 0 -> 0 < fst (snd x) /\ 0 <= snd (snd x) < 3 /\ 0 < eliciting (space (snd (snd x)) c)) /\
  (forall r, fst x = Some r -> snd x = r /\ fst r <> 0).

Lemma pto_space_inv c d x i :
  settled c -> 0 <= i < 3 -> 0 <= d -> 0 <= i64 (d + i64 (Z.shiftl (peerMaxAckDelay c) (ptoCount c))) ->
  pto_inv c x i -> pto_inv c (pto_space c d x i) (i + 1).
Proof.
  intros Hc Hi Hd Hm (H1 & H2 & H3). destruct (settled_space i c Hc Hi) as [[_ _ Hla] He]. pose proof (cnt_nonneg ackEliciting (sent (space i c))).
  destruct x as [[r|] [t sp]]; cbn [pto_space].
  - destruct (H3 r eq_refl) as [Er Hr]. cbn in Er. subst r. split; [done|]. split; [exact H2|exact H3].
  - cbn [fst snd] in *. destruct (Z.eqb_spec (eliciting (space i c)) 0) as [E|E].
    { split; [|by split]. intros _ Ht j Hj. destruct (decide (j = i)) as [->|]; [done|]. apply H1; [done|done|lia]. }
    destruct (_ && _ && _) eqn:Eb.
    { rewrite !andb_true_iff, !negb_true_iff, Z.eqb_neq in Eb. split; [done|]. split; [done|]. intros r [= <-]. by destruct Eb. }
    specialize (Hla ltac:(lia)). set (d' := if _ && _ then _ else d).
    assert (0 <= d') by (unfold d'; clear -Hd Hm; destruct (_ && _); done). clearbody d'.
    destruct (_ || _) eqn:Ec.
    + split; [cbn; lia|]. split; [cbn; lia|done].
    + apply orb_false_iff in Ec as [Ec _]. apply Z.eqb_neq in Ec. split; [cbn; lia|]. by split.
Qed.

Lemma ptoTimeSpace_spec now c :
  settled c -> waits c -> ackElicitingInFlight c = true ->
  let '(t, sp) := ptoTimeSpace now c in 0 < t /\ 0 <= sp < 3 /\ 0 < eliciting (space sp c).
Proof.
  intros Hc [Hd Hm] Ha. unfold ptoTimeSpace. rewrite Ha. cbn [negb]. set (d := i64 (Z.shiftl (pto _) _)) in *. clearbody d.
  assert (H0 : pto_inv c (None, (0, spaceInitial)) 0) by (split; [intros _ _ j; lia|by split]).
  apply (pto_space_inv c d _ 0) in H0; try done. apply (pto_space_inv c d _ 1) in H0; try done. apply (pto_space_inv c d _ 2) in H0; try done.
  change (fold_left _ _ _) with (pto_space c d (pto_space c d (pto_space c d (None, (0, spaceInitial)) 0) 1) 2).
  destruct (pto_space _ _ _ 2) as [o [t sp]]. destruct H0 as (A1 & A2 & A3). cbn [fst snd] in *.
  assert (t <> 0); [|by apply A2]. destruct o as [r|]; [by destruct (A3 r eq_refl) as [<- ?]|]. intros ->.
  apply elicitingInFlight_spec in Ha as (j & Hj & He). specialize (A1 eq_refl eq_refl j ltac:(lia)). lia.
Qed.

(** * Runs *)

(** What the connection does with recovery: it numbers a packet (a closing
    packet is numbered and not recorded), records a numbered one, takes an
    acknowledgement that decoded ([desc_ok] is what reading an ACK frame
    guarantees), runs out its timer, sets it, installs and gives up a space's
    keys, and starts again at a Retry (a step that may be taken whenever, so
    the checks [handleRetry] makes on the packet do not matter here); the rest
    of it touches neither the spaces' records nor the window. *)
Inductive rstep : Conn S -> Conn S -> Prop :=
  | r_number i c : 0 <= i < 3 -> rstep c (set_space i (with_next (nextPN (space i c) + 1) (space i c)) c)
  | r_send i p c : 0 <= i < 3 -> 0 <= size p -> 0 < time p -> pn p < nextPN (space i c) ->
      Forall (fun q => pn q < pn p) (sent (space i c)) -> cwnd (cc c) + bytesInFlight (cc c) + size p < 2 ^ 64 ->
      rstep c (onPacketSent i p c)
  | r_ack i ranges prev ackDelay now c c' : 0 <= i < 3 -> desc_ok prev ranges ->
      onAckReceived data_acked data_lost i ranges ackDelay now c = Some c' -> rstep c c'
  | r_timeout now c : rstep c (onLossDetectionTimeout data_lost crypto_waiting now c)
  | r_timer now c : rstep c (setLossDetectionTimer now c)
  | r_discard i c : 0 <= i < 3 -> rstep c (discardSpace i c)
  | r_confirm c : rstep c (confirmHandshake c)
  | r_retry next c : rstep c (handleRetry data_lost next c)
  | r_keys i c : 0 <= i < 3 -> rstep c (set_space i (with_keys (space i c)) c)
  | r_other c c' : spaces c' = spaces c -> cc c' = cc c -> rstep c c'.

Lemma rstep_settled c c' : settled c -> rstep c c' -> settled c'.
Proof.
  intros Hc. destruct 1.
  - destruct (settled_space i c Hc ltac:(done)) as [[Hp Hso Hl] He]. apply settled_set; try done. split; cbn; [|done|done].
    eapply Forall_impl; [exact Hp|]. cbn. intros q; lia.
  - by apply onPacketSent_settled.
  - by eapply onAckReceived_settled.
  - by apply onLossDetectionTimeout_settled.
  - by apply setLossDetectionTimer_settled.
  - by apply discardSpace_settled.
  - by apply confirmHandshake_settled.
  - by apply handleRetry_settled.
  - destruct (settled_space i c Hc ltac:(done)) as [[Hp Hso Hl] He]. by apply settled_set.
  - destruct Hc as [A1 A2 A3 A4 A5 A6]. unfold settled. split; rewrite ?H, ?H0; try done. intros j Hj. unfold space. rewrite H. by apply A2.
Qed.

(** A connection as it starts: three spaces with nothing sent. *)
Definition starts c : Prop :=
  spaces c = replicate 3 (Space false false 0 (-1) [] 0 0 0 0) /\ cc c = newNewReno.

Lemma starts_settled c : starts c -> settled c.
Proof.
  intros [Hs Hcc]. split; rewrite ?Hs, ?Hcc; [done| |done|constructor|done|done].
  intros j Hj. assert (E : space j c = Space false false 0 (-1) [] 0 0 0 0).
  { unfold space, at_. rewrite Hs. destruct (Z.leb_spec 0 j); [|lia]. by assert (j = 0 \/ j = 1 \/ j = 2) as [->|[->| ->]] by lia. }
  rewrite E. split; [split; cbn; [constructor|done|lia]|]. by destruct (j =? 0).
Qed.

(** C23: However packets are sent, acknowledged, lost, probed for, dropped with
    their spaces and taken back at a Retry, [bytesInFlight] is exactly the sum of the sizes of the
    packets in flight that are still recorded, each space's count of
    ack-eliciting packets is exactly the number of those it has recorded, no
    counter wraps below zero, and the congestion window never shrinks under
    two datagrams. *)
Theorem recovery_accounting c0 c :
  starts c0 -> rtc rstep c0 c ->
  bytesInFlight (cc c) = total in_flight (spaces c) /\ 0 <= bytesInFlight (cc c) < 2 ^ 64 /\
  minCongestionWindow <= cwnd (cc c) < 2 ^ 64 /\
  (forall j, 0 <= j < 3 -> eliciting (space j c) = cnt ackEliciting (sent (space j c)) /\ pn_sorted (sent (space j c)) /\
     Forall (fun p => pn p < nextPN (space j c)) (sent (space j c))).
Proof.
  intros H0 Hr. assert (Hc : settled c).
  { apply starts_settled in H0. induction Hr as [c|c c1 c2 Hs Hr IH]; [done|]. by apply IH, (rstep_settled c). }
  pose proof (spaces_nonneg _ _ _ Hc). pose proof Hc as [_ _ Hf _ Hw Hsum]. cbn [total] in Hf.
  assert (0 < minCongestionWindow) by done. split; [lia|]. split; [lia|]. split; [lia|].
  intros j Hj. destruct (settled_space j c Hc Hj) as [[Hp Hso _] He]. split; [done|]. split; [done|].
  eapply Forall_impl; [exact Hp|]. by intros p (_ & _ & ?).
Qed.

Lemma reachable_settled c0 c : starts c0 -> rtc rstep c0 c -> settled c.
Proof.
  intros H0%starts_settled Hr. induction Hr as [c|c c1 c2 Hs Hr IH]; [done|]. by apply IH, (rstep_settled c).
Qed.

(** ** What an acknowledgement does to a space *)

Lemma each_pending_sp (f : sentFrame -> Conn S -> Conn S) fs c :
  (forall fr c, exists md mb mu hd cids d, f fr c = set_pending md mb mu hd cids d c) ->
  spaces (each f fs c) = spaces c /\ rtt (each f fs c) = rtt c.
Proof. intros Hf. by destruct (each_frames f fs c Hf) as (md & mb & mu & hd & cids & d & ->). Qed.

(** The packets recorded, space by space. *)
Definition records c : list (list sentPacket) := sent <$> spaces c.

Lemma records_space j c c' : records c' = records c -> sent (space j c') = sent (space j c).
Proof.
  intros H. unfold space, at_. destruct (0 <=? j); [|done]. apply (f_equal (fun l => l !! Z.to_nat j)) in H. unfold records in H.
  rewrite !list_lookup_fmap in H. by destruct (spaces c' !! _), (spaces c !! _); simplify_eq/=.
Qed.

Lemma records_set i s c : 0 <= i < 3 -> length (spaces c) = 3%nat -> sent s = sent (space i c) -> records (set_space i s c) = records c.
Proof.
  intros Hi Hl Hs. unfold records. cbn [spaces set_space with_spaces]. rewrite list_fmap_insert, Hs. apply list_insert_id.
  rewrite list_lookup_fmap, space_lookup by done. done.
Qed.

(** What a lost or acknowledged frame can change. *)
Definition rest c := (maxDataPending c, maxStreamsBidiPending c, maxStreamsUniPending c, handshakeDonePending c, retireCIDs c, data c).

Lemma frameLost_rest i fr c c' : rest c = rest c' -> rest (frameLost data_lost i fr c) = rest (frameLost data_lost i fr c').
Proof. unfold rest, frameLost. intros [=]. destruct (sf_kind fr); cbn; congruence. Qed.

Lemma frameAcked_rest i fr c c' : rest c = rest c' -> rest (frameAcked data_acked i fr c) = rest (frameAcked data_acked i fr c').
Proof. unfold rest, frameAcked. intros [=]. destruct (sf_kind fr); cbn; congruence. Qed.

Lemma each_rest {A} (f : A -> Conn S -> Conn S) l c c' :
  (forall x c c', rest c = rest c' -> rest (f x c) = rest (f x c')) -> rest c = rest c' -> rest (each f l c) = rest (each f l c').
Proof. intros Hf. revert c c'. induction l as [|x l IH]; intros c c' H; [done|]. apply (IH (f x c) (f x c')). by apply Hf. Qed.

(** A packet's frames, one after the other. *)
Definition packet_lost (i : Z) (p : sentPacket) c : Conn S := each (frameLost data_lost i) (frames p) c.
Definition packet_acked (i : Z) (p : sentPacket) c : Conn S := each (frameAcked data_acked i) (frames p) c.

Lemma pay_space_same i p c : 0 <= i < 3 -> length (spaces c) = 3%nat ->
  records (pay_space i p c) = records c /\ rest (pay_space i p c) = rest c /\ length (spaces (pay_space i p c)) = 3%nat.
Proof.
  intros Hi Hl. unfold pay_space. destruct (ackEliciting p); [|done]. split; [by apply records_set|]. split; [done|]. cbn. by rewrite length_insert.
Qed.

Lemma lose_same i p c l : 0 <= i < 3 -> length (spaces c) = 3%nat ->
  let c' := fst (lose data_lost i p (c, l)) in
  records c' = records c /\ rest c' = rest (packet_lost i p c) /\ length (spaces c') = 3%nat.
Proof.
  intros Hi Hl. unfold lose. fold (pay_space i p c). destruct (pay_space_same i p c Hi Hl) as (H1 & H2 & H3).
  set (x := if inFlight p then _ else _). assert (Hx : spaces (fst x) = spaces (pay_space i p c) /\ rest (fst x) = rest c)
    by (unfold x; by destruct (inFlight p)). destruct x as [c1 l1]. cbn [fst] in *. destruct Hx as [Hs Hr].
  destruct (each_pending_sp (frameLost data_lost i) (frames p) c1) as [E _]; [apply frameLost_shape|].
  unfold records in *. rewrite E, Hs. split; [done|]. split; [|done]. apply each_rest; [intros; by apply frameLost_rest|done].
Qed.

Lemma lose_all_same i lost c l : 0 <= i < 3 -> length (spaces c) = 3%nat ->
  let c' := fst (fold_left (fun x p => lose data_lost i p x) lost (c, l)) in
  records c' = records c /\ rest c' = rest (each (packet_lost i) lost c) /\ length (spaces c') = 3%nat.
Proof.
  intros Hi. revert c l. induction lost as [|p lost IH]; intros c l Hl; [done|]. cbn [fold_left].
  destruct (lose_same i p c l Hi Hl) as (H1 & H2 & H3). destruct (lose data_lost i p (c, l)) as [c1 l1]. cbn [fst] in *.
  destruct (IH c1 l1 H3) as (A1 & A2 & A3). split; [by rewrite A1|]. split; [|done]. rewrite A2.
  apply (each_rest (packet_lost i) lost c1 (packet_lost i p c)); [|done]. intros q ? ? Hq. apply each_rest; [intros; by apply frameLost_rest|done].
Qed.

Lemma ack_packet_same i p c : 0 <= i < 3 -> length (spaces c) = 3%nat ->
  let c' := ack_packet data_acked i p c in
  records c' = records c /\ rest c' = rest (packet_acked i p c) /\ length (spaces c') = 3%nat.
Proof.
  intros Hi Hl. unfold ack_packet. fold (pay_space i p c). destruct (pay_space_same i p c Hi Hl) as (H1 & H2 & H3).
  set (x := if inFlight p then _ else _). assert (Hx : spaces x = spaces (pay_space i p c) /\ rest x = rest c)
    by (unfold x; by destruct (inFlight p)). clearbody x. destruct Hx as [Hs Hr].
  destruct (each_pending_sp (frameAcked data_acked i) (frames p) x) as [E _]; [apply frameAcked_shape|].
  cbn zeta. unfold records in *. rewrite E, Hs. split; [done|]. split; [|done]. apply each_rest; [intros; by apply frameAcked_rest|done].
Qed.

Lemma ack_all_same i acked c : 0 <= i < 3 -> length (spaces c) = 3%nat ->
  let c' := each (ack_packet data_acked i) acked c in
  records c' = records c /\ rest c' = rest (each (packet_acked i) acked c) /\ length (spaces c') = 3%nat.
Proof.
  intros Hi. revert c. induction acked as [|p acked IH]; intros c Hl; [done|]. destruct (ack_packet_same i p c Hi Hl) as (H1 & H2 & H3).
  destruct (IH _ H3) as (A1 & A2 & A3). unfold each in *. cbn [fold_left] in *. split; [by rewrite A1|]. split; [|done]. rewrite A2.
  apply (each_rest (packet_acked i) acked _ (packet_acked i p c)); [|done]. intros q ? ? Hq. apply each_rest; [intros; by apply frameAcked_rest|done].
Qed.

Lemma detectLost_same i now c :
  0 <= i < 3 -> length (spaces c) = 3%nat -> 0 <= largestAcked (space i c) ->
  let f := given_up (lossDelay (rtt c)) now (largestAcked (space i c)) in
  let lost := select f (sent (space i c)) in
  let c' := detectLost data_lost i now c in
  sent (space i c') = select (fun p => negb (f p)) (sent (space i c)) /\ rest c' = rest (each (packet_lost i) lost c) /\
  length (spaces c') = 3%nat.
Proof.
  intros Hi Hl Hla f lost. unfold detectLost. set (s := with_lossTime 0 (space i c)). change (largestAcked s) with (largestAcked (space i c)).
  destruct (Z.ltb_spec (largestAcked (space i c)) 0); [lia|]. change (rtt (set_space i s c)) with (rtt c). change (sent s) with (sent (space i c)).
  destruct (loss_scan_spec (lossDelay (rtt c)) now (largestAcked (space i c)) (sent (space i c)) 0) as [t ->]. fold f lost.
  set (kept := select _ _). set (c1 := set_space i (with_sent kept (with_lossTime t s)) (set_space i s c)).
  assert (L1 : length (spaces c1) = 3%nat) by (unfold c1; cbn; by rewrite !length_insert).
  assert (S1 : sent (space i c1) = kept).
  { unfold c1. rewrite space_set, Z.eqb_refl; [done|done|done|]. cbn. by rewrite length_insert. }
  destruct (lose_all_same i lost c1 0 Hi L1) as (A1 & A2 & A3). clearbody lost. destruct lost as [|p lost]; [done|].
  destruct (fold_left _ (p :: lost) (c1, 0)) as [c2 l2]. cbn [fst] in *.
  assert (H2 : sent (space i c2) = kept /\ rest c2 = rest (each (packet_lost i) (p :: lost) c) /\ length (spaces c2) = 3%nat).
  { split; [by rewrite (records_space i _ _ A1)|]. split; [|done]. rewrite A2. apply each_rest; [|done].
    intros q ? ? Hq. apply each_rest; [intros; by apply frameLost_rest|done]. }
  by destruct (negb (l2 =? 0)).
Qed.

Lemma discardSpace_same i j c : 0 <= i < 3 -> 0 <= j < 3 -> i <> j -> settled c ->
  sent (space i (discardSpace j c)) = sent (space i c) /\ rest (discardSpace j c) = rest c.
Proof.
  intros Hi Hj Hij Hc. unfold discardSpace. destruct (discarded (space j c)); [done|].
  destruct (settled_space j c Hc Hj) as [[Hp _ _] _]. pose proof (settled_flight j c Hj Hc) as Hf. pose proof Hc as [Hl _ _ _ Hw Hsum].
  unfold in_flight in Hf. unfold minCongestionWindow, maxDatagram in *. rewrite drop_flight; [|eapply Forall_impl; [exact Hp|]; by intros p [? _]|lia].
  split; [|done]. set (c1 := set_cc _ c). change (space i (set_timer ?n ?d ?x)) with (space i x).
  rewrite space_set by done. destruct (Z.eqb_spec i j); done.
Qed.

Lemma confirm_same i c : 0 <= i < 3 -> settled c ->
  let c' := let c := if (i =? spaceApp) && isClient c && negb (handshakeConfirmed c) then confirmHandshake c else c in
    if peerCompletedAddressValidation c then set_timer 0 (lossDeadline c) c else c in
  sent (space i c') = sent (space i c) /\ rest c' = rest c.
Proof.
  intros Hi Hc. cbn zeta. set (c1 := if _ && _ && _ then _ else _).
  assert (H : sent (space i c1) = sent (space i c) /\ rest c1 = rest c).
  { unfold c1. destruct (Z.eqb_spec i spaceApp) as [->|]; [|done]. destruct (isClient c && negb (handshakeConfirmed c)) eqn:E; cbn [andb]; rewrite ?E; [|done].
    unfold confirmHandshake. destruct (_ || _); [done|]. apply (discardSpace_same spaceApp spaceHandshake (set_confirmed c)); [done|done|done|]. by destruct Hc. }
  destruct (peerCompletedAddressValidation c1); done.
Qed.

Definition acked_by (ranges : list pnRange) (p : sentPacket) : bool := covered ranges (pn p).

Lemma covered_reverse rs n : covered (reverse rs) n = covered rs n.
Proof.
  unfold covered. apply eq_true_iff_eq. rewrite !existsb_exists.
  split; intros (r & Hr & E); exists r; (split; [|done]); rewrite <- list_elem_of_In in *; by rewrite elem_of_reverse in *.
Qed.

Lemma select_select f g l : select f (select g l) = select (fun p => g p && f p) l.
Proof.
  induction l as [|p l IH]; [done|]. cbn [select List.filter]. fold (select g l) (select (fun p => g p && f p) l).
  destruct (g p); cbn [andb select List.filter]; [|done]. fold (select f (select g l)). by rewrite IH.
Qed.

(** C25: An acknowledgement settles each recorded packet of its space exactly
    once.  The packets its ranges cover are acknowledged, and no others, though
    the scan walks packets and ranges together with one pointer; of the others,
    when anything was acknowledged, those the packet threshold gives up, or
    the time threshold with the loss delay the code's int64 arithmetic gives,
    are lost; the rest stay recorded, in order.  The data of the lost
    packets is queued again before the acknowledged data is released.  An
    acknowledgement of a packet number not yet used is refused. *)
Theorem ack_exact c0 c i r older prev ackDelay now :
  starts c0 -> rtc rstep c0 c -> 0 <= i < 3 -> desc_ok prev (r :: older) ->
  let l := sent (space i c) in
  let acked := select (acked_by (r :: older)) l in
  let largest := Z.max (largestAcked (space i c)) (hi r) in
  let gone := given_up (lossDelay (rtt (sample_rtt i (hi r) ackDelay now acked c))) now largest in
  let lost := match acked with [] => [] | _ => select (fun p => negb (acked_by (r :: older) p) && gone p) l end in
  match onAckReceived data_acked data_lost i (r :: older) ackDelay now c with
  | None => nextPN (space i c) <= hi r
  | Some c' =>
      hi r < nextPN (space i c) /\
      sent (space i c') = select (fun p => negb (acked_by (r :: older) p) && match acked with [] => true | _ => negb (gone p) end) l /\
      l ≡ₚ acked ++ lost ++ sent (space i c') /\
      rest c' = rest (each (packet_acked i) acked (each (packet_lost i) lost c))
  end.
Proof.
  intros H0 Hr Hi Hd l acked largest gone lost. pose proof (reachable_settled _ _ H0 Hr) as Hc. clear c0 H0 Hr.
  destruct (settled_space i c Hc Hi) as [Hok _]. pose proof Hc as [Hl _ _ _ _ _].
  destruct (desc_ok_asc _ _ Hd) as [Ha Hb]. destruct (Hb r (list_elem_of_here _ _)) as [_ Hr0].
  unfold onAckReceived. destruct (Z.leb_spec (nextPN (space i c)) (hi r)) as [|Hn]; [done|].
  set (s := if largestAcked _ <? _ then _ else _).
  assert (Es : sent s = l) by (unfold s; by destruct (_ <? _)).
  assert (El : largestAcked s = largest) by (unfold s, largest; destruct (Z.ltb_spec (largestAcked (space i c)) (hi r)); cbn; lia).
  rewrite (ack_scan_spec (-1)); [|done|rewrite Es; by destruct Hok]. rewrite Es.
  rewrite (select_ext (fun p => covered (reverse (r :: older)) (pn p)) (acked_by (r :: older))) by (intros; apply covered_reverse).
  rewrite (select_ext (fun p => negb (covered (reverse (r :: older)) (pn p))) (fun p => negb (acked_by (r :: older) p)))
    by (intros; by rewrite covered_reverse). fold acked.
  set (kept := select (fun p => negb (acked_by (r :: older) p)) l). set (c1 := set_space i (with_sent kept s) c).
  assert (L1 : length (spaces c1) = 3%nat) by (unfold c1; cbn; by rewrite length_insert).
  assert (S1 : space i c1 = with_sent kept s) by (unfold c1; by rewrite space_set, Z.eqb_refl).
  pose proof (select_perm (acked_by (r :: older)) l : l ≡ₚ acked ++ kept) as Hperm.
  destruct acked as [|a acked'] eqn:Eacked.
  { split; [done|]. rewrite S1. cbn [sent with_sent]. split; [apply select_ext; intros; by rewrite andb_true_r|]. by split. }
  rewrite <- Eacked in *. set (c2 := sample_rtt i (hi r) ackDelay now acked c1).
  assert (R2 : rtt c2 = rtt (sample_rtt i (hi r) ackDelay now acked c)).
  { unfold c2, sample_rtt. destruct (last acked) as [q|]; [|done]. by destruct (_ && _). }
  assert (E2 : spaces c2 = spaces c1 /\ rest c2 = rest c).
  { unfold c2, sample_rtt. destruct (last acked) as [q|]; [|done]. by destruct (_ && _). }
  destruct E2 as [E2 E2']. assert (S2 : space i c2 = with_sent kept s) by (unfold space; rewrite E2; exact S1).
  destruct (detectLost_same i now c2 Hi ltac:(by rewrite E2)) as (D1 & D2 & D3); [rewrite S2; cbn; lia|].
  rewrite S2, R2 in D1, D2. cbn [sent largestAcked with_sent] in D1, D2. rewrite El in D1, D2.
  assert (Eg : gone = given_up (lossDelay (rtt (sample_rtt i (hi r) ackDelay now acked c))) now largest) by (by rewrite Eacked).
  rewrite <- Eg in D1, D2.
  unfold kept in D1, D2. rewrite select_select in D1, D2.
  set (c3 := detectLost data_lost i now c2) in *. destruct (ack_all_same i acked c3 Hi D3) as (A1 & A2 & A3).
  set (c4 := each (ack_packet data_acked i) acked c3) in *.
  assert (Hc4 : settled c4).
  { apply (ack_settle i (hi r) ackDelay now acked c1 Hi), (ack_take_owes i (acked_by (r :: older)) s c Hi Hc); [|done|].
    - unfold s. destruct (_ <? _); [destruct Hok; by split|done].
    - unfold s. by destruct (_ <? _). }
  destruct (confirm_same i c4 Hi Hc4) as [F1 F2]. cbn zeta in F1, F2. split; [done|].
  rewrite F1, F2, A2, (records_space i _ _ A1), D1. split; [done|]. split.
  - rewrite Hperm at 1. apply Permutation_app_head. rewrite (select_perm gone kept). unfold kept. by rewrite !select_select.
  - apply each_rest; [intros q ? ? Hq; apply each_rest; [intros; by apply frameAcked_rest|done]|]. rewrite D2.
    apply each_rest; [intros q ? ? Hq; apply each_rest; [intros; by apply frameLost_rest|done]|done].
Qed.

(** ** The probe timer is a way out *)

Lemma packets_lost_spaces i ps c : spaces (each (fun p c => each (frameLost data_lost i) (frames p) c) ps c) = spaces c.
Proof.
  revert c. induction ps as [|p ps IH]; intros c; [done|]. transitivity (spaces (each (frameLost data_lost i) (frames p) c)); [apply IH|].
  apply each_pending_sp, frameLost_shape.
Qed.

Lemma probe_probes i c : 0 <= i < 3 -> length (spaces c) = 3%nat -> probes (space i (probe data_lost crypto_waiting i c)) = maxProbes.
Proof.
  intros Hi Hl. unfold probe. set (c1 := set_space i _ c). set (c2 := each _ [spaceInitial; spaceHandshake] c1).
  assert (H : length (spaces c2) = 3%nat /\ probes (space i c2) = maxProbes).
  { assert (Hstep : forall j c, 0 <= j < 3 -> length (spaces c) = 3%nat /\ probes (space i c) = maxProbes ->
      let c' := if negb (j =? i) && hasTx (space j c) && negb (discarded (space j c)) && crypto_waiting j (data c)
        then set_space j (with_probes (Z.max (probes (space j c)) 1) (space j c)) c else c in
      length (spaces c') = 3%nat /\ probes (space i c') = maxProbes).
    { intros j c' Hj [A B]. destruct (Z.eqb_spec j i) as [->|Hne]; [done|]. cbn zeta. destruct (_ && _); [|done].
      split; [cbn; by rewrite length_insert|]. rewrite space_set by done. by destruct (Z.eqb_spec i j) as [->|]. }
    unfold c2, each. cbn [fold_left]. apply (Hstep spaceHandshake); [done|]. apply (Hstep spaceInitial); [done|]. unfold c1.
    split; [cbn; by rewrite length_insert|]. by rewrite space_set, Z.eqb_refl. }
  destruct H as [_ H]. unfold space. rewrite packets_lost_spaces. exact H.
Qed.

(** While an ack-eliciting packet is in flight, the address limit is not in
    the way and the waits have not wrapped below zero, setting the loss timer always arms it.  When it then runs
    out with no loss time pending, the space it was armed for, which has an
    ack-eliciting packet in flight, gets two probe packets to send whatever
    the congestion window says, and the next wait is doubled: a connection
    that waits for an acknowledgement cannot wait for ever. *)
Theorem loss_timer c0 c now later :
  starts c0 -> rtc rstep c0 c -> waits c -> ackElicitingInFlight c = true -> atAmplificationLimit c = false ->
  let c1 := setLossDetectionTimer now c in
  lossDeadline c1 <> 0 /\
  (fst (lossTimeSpace c) = 0 ->
   let c2 := onLossDetectionTimeout data_lost crypto_waiting later c1 in
   ptoCount c2 = ptoCount c + 1 /\
   exists j, 0 <= j < 3 /\ lossDeadline c1 = fst (ptoTimeSpace now c) /\ 0 < eliciting (space j c) /\ probes (space j c2) = maxProbes).
Proof.
  intros H0 Hr Hw Ha Hlim. pose proof (reachable_settled _ _ H0 Hr) as Hc. clear c0 H0 Hr. pose proof Hc as [Hl _ _ _ _ _]. cbn zeta.
  pose proof (ptoTimeSpace_spec now c Hc Hw Ha) as Hs. pose proof (ptoTimeSpace_spec later c Hc Hw Ha) as Hs'.
  unfold setLossDetectionTimer. rewrite Hlim, Ha. cbn [negb andb orb]. destruct (lossTimeSpace c) as [t sp] eqn:Et. cbn [fst].
  destruct (Z.eqb_spec t 0) as [->|Hne]; cbn [negb]; [|by split]. split; [cbn; destruct (ptoTimeSpace now c); cbn; lia|]. intros _.
  set (c1 := set_timer (ptoCount c) _ c). unfold onLossDetectionTimeout.
  change (lossTimeSpace c1) with (lossTimeSpace c). rewrite Et. cbn [Z.eqb negb]. change (ackElicitingInFlight c1) with (ackElicitingInFlight c).
  rewrite Ha. cbn [negb]. change (ptoTimeSpace later c1) with (ptoTimeSpace later c). destruct (ptoTimeSpace later c) as [t' j]. cbn [snd].
  destruct Hs' as (_ & Hj & He). split.
  - cbn [ptoCount set_timer]. f_equal. unfold probe.
    assert (Ht : forall ps c, ptoCount (each (fun p c => each (frameLost data_lost j) (frames p) c) ps c) = ptoCount c).
    { induction ps as [|p ps IH]; intros x; [done|]. transitivity (ptoCount (each (frameLost data_lost j) (frames p) x)); [apply IH|].
      destruct (each_frames (frameLost data_lost j) (frames p) x) as (md & mb & mu & hd & cids & d & ->); [apply frameLost_shape|done]. }
    rewrite Ht. unfold each. cbn [fold_left]. by repeat case_match.
  - exists j. split; [done|]. split; [done|]. split; [done|]. by apply probe_probes.
Qed.
End accounting.

(** * A run *)

Section demo.
(** The data's fate as a log. *)
Definition demo_acked (sp : Z) (f : sentFrame) (d : list (bool * Z)) := d ++ [(true, sf_off f)].
Definition demo_lost (sp : Z) (f : sentFrame) (d : list (bool * Z)) := d ++ [(false, sf_off f)].
Definition demo_waiting (sp : Z) (d : list (bool * Z)) := false.

Definition demo_conn : Conn (list (bool * Z)) :=
  MkConn false true true true (25 * millisecond) 5000 0 (replicate 3 (Space false false 0 (-1) [] 0 0 0 0)) newRTTStats newNewReno 0 0 0 false
    false false false false [] [].

Definition demo_client : Conn (list (bool * Z)) :=
  MkConn true false false true (25 * millisecond) 0 0 (replicate 3 (Space false false 0 (-1) [] 0 0 0 0)) newRTTStats newNewReno 0 0 0 false
    false false false false [] [].

Definition demo_packet (n : Z) : sentPacket :=
  SentPacket n ((n + 1) * millisecond) 1000 true true [SentFrame sfStream false 0 (900 * n) 900].

Definition demo_send (i : Z) (c : Conn (list (bool * Z))) (n : Z) : Conn (list (bool * Z)) :=
  onPacketSent i (demo_packet n) (set_space i (with_next (n + 1) (space i c)) c).

(** Five packets of stream data. *)
Definition demo_sent := fold_left (demo_send spaceApp) [0; 1; 2; 3; 4] demo_conn.

(** A client's two Initial packets, a Retry, and the next one. *)
Definition demo_retried :=
  demo_send spaceInitial (handleRetry demo_lost 1800 (fold_left (demo_send spaceInitial) [0; 1] demo_client)) 2.

Lemma demo_step i c n :
  0 <= i < 3 -> i <> spaceHandshake -> nextPN (space i c) = n -> 0 <= n -> length (spaces c) = 3%nat ->
  Forall (fun q => pn q < n) (sent (space i c)) -> cwnd (cc c) + bytesInFlight (cc c) + 1000 < 2 ^ 64 ->
  rtc (rstep demo_acked demo_lost demo_waiting) c (demo_send i c n).
Proof.
  intros Hi Hh Hn Hn0 Hl Hf Hsum. eapply rtc_l; [by apply (r_number _ _ _ i)|]. rewrite Hn. apply rtc_once.
  assert (Es : space i (set_space i (with_next (n + 1) (space i c)) c) = with_next (n + 1) (space i c))
    by (rewrite space_set by done; by rewrite Z.eqb_refl).
  apply r_send; try done; rewrite ?Es; cbn; [unfold millisecond; lia|lia|done].
Qed.

Ltac demo_steps := etransitivity; [|apply demo_step;
  [done|done|vm_compute; reflexivity|done|reflexivity|repeat (constructor; [vm_compute; reflexivity|]); constructor|vm_compute; reflexivity]].

Lemma recovery_run : rtc (rstep demo_acked demo_lost demo_waiting) demo_conn demo_sent.
Proof. unfold demo_sent. cbn [fold_left]. do 5 demo_steps. reflexivity. Qed.

Lemma retry_run : rtc (rstep demo_acked demo_lost demo_waiting) demo_client demo_retried.
Proof.
  unfold demo_retried. demo_steps. eapply rtc_r; [|apply r_retry]. cbn [fold_left]. do 2 demo_steps. reflexivity.
Qed.

(** What a peer can do to the round-trip time: two acknowledgements after the
    first whose delay field stands for about -2^62 ns carry [smoothed] so far that
    nine times it wraps, and the loss delay is one millisecond, whatever the
    real round-trip time. *)
Example rtt_wraps :
  let r := update (update (update newRTTStats (100 * millisecond) 0) (100 * millisecond) (- 2 ^ 62)) (100 * millisecond) (- 2 ^ 62) in
  2 ^ 59 < smoothed r /\ lossDelay r = millisecond.
Proof. vm_compute. done. Qed.

(** An acknowledgement of packets 2 and 4: 2 and 4 are acknowledged, 0 and 1 are
    three behind, 3 stays. *)
Lemma recovery_accounting_witness :
  (bytesInFlight (cc demo_sent) = 5000 /\ eliciting (space spaceApp demo_sent) = 5) /\
  (bytesInFlight (cc demo_retried) = 1000 /\ eliciting (space spaceInitial demo_retried) = 1 /\
   pn <$> sent (space spaceInitial demo_retried) = [2]).
Proof.
  assert (H0 : starts demo_conn) by done. split.
  - destruct (recovery_accounting demo_acked demo_lost demo_waiting demo_conn demo_sent H0 recovery_run) as (-> & _ & _ & Hj).
    split; [reflexivity|]. destruct (Hj spaceApp ltac:(done)) as [-> _]. vm_compute. reflexivity.
  - destruct (recovery_accounting demo_acked demo_lost demo_waiting demo_client demo_retried ltac:(done) retry_run) as (-> & _ & _ & Hj).
    split; [reflexivity|]. destruct (Hj spaceInitial ltac:(done)) as [-> _]. split; vm_compute; reflexivity.
Defined.

Lemma ack_exact_witness :
  exists c', onAckReceived demo_acked demo_lost spaceApp [PnRange 4 4; PnRange 2 2] 0 (20 * millisecond) demo_sent = Some c' /\
    pn <$> sent (space spaceApp c') = [3] /\ data c' = [(false, 0); (false, 900); (true, 1800); (true, 3600)].
Proof.
  assert (H0 : starts demo_conn) by done.
  pose proof (ack_exact demo_acked demo_lost demo_waiting demo_conn demo_sent spaceApp (PnRange 4 4) [PnRange 2 2] 6 0 (20 * millisecond)
    H0 recovery_run ltac:(done) ltac:(cbn; lia)) as H.
  destruct (onAckReceived demo_acked demo_lost spaceApp [PnRange 4 4; PnRange 2 2] 0 (20 * millisecond) demo_sent) as [c'|]; [|by vm_compute in H].
  exists c'. split; [done|]. destruct H as (_ & Hs & _ & Hr). split; [rewrite Hs; vm_compute; reflexivity|].
  apply (f_equal snd) in Hr. cbn [rest snd] in Hr. rewrite Hr. vm_compute. reflexivity.
Defined.

Lemma loss_timer_witness :
  lossDeadline (setLossDetectionTimer (6 * millisecond) demo_sent) <> 0 /\ ackElicitingInFlight demo_sent = true.
Proof.
  assert (H0 : starts demo_conn) by done.
  destruct (loss_timer demo_acked demo_lost demo_waiting demo_conn demo_sent (6 * millisecond) 0 H0 recovery_run
    ltac:(split; vm_compute; discriminate) ltac:(vm_compute; reflexivity) ltac:(vm_compute; reflexivity)) as [H _]. split; [exact H|]. vm_compute. reflexivity.
Defined.
End demo.
