(* ===== verification/QuicStream.v ===== *)
(** QUIC streams and flow control: src/go/http3/internal/quic/stream.go, the
    parts of conn.go that open, find and finish streams, the frames of
    frames.go that act on them, and send.go's [appendStreams].

    Streams are pointers shared by the connection's map, its send queue, the
    packets in flight and the application.  [store] holds every stream the
    connection ever made, under its ID, which is never used twice; [streams] is
    the set of keys of the connection's map, and a pointer is an ID.  [events]
    are the handler calls queued for [dispatch].  [sendClose] writes packets,
    which are not here: [sentClose] keeps what was said. *)
From S2P Require Import Prelude.
From S2P Require Import Varint.
From S2P Require Import QuicBuffer.
From S2P Require Import QuicFrames.
From S2P Require Import QuicParams.
From S2P Require Import QuicPacket.
From S2P Require Import QuicRecovery.

Definition errFlowControl : Z := 0x03.
Definition errStreamLimit : Z := 0x04.
Definition errStreamState : Z := 0x05.
Definition errFinalSize : Z := 0x06.

(** The errors [Write] and [openStream] return. *)
Inductive stream_error := ErrClosed | ErrStreamLimit | ErrHandshakeNotComplete.

Record Stream := MkStream {
  id : Z;
  hasSend : bool;
  send : sendBuffer;
  sendMax : Z;
  finQueued : bool;
  finSent : bool;
  finAcked : bool;
  reset : bool;
  resetPending : bool;
  resetAcked : bool;
  resetCode : Z;
  finalSize : Z;
  hasRecv : bool;
  recv : recvBuffer;
  recvMax : Z;
  recvHigh : Z;
  recvFin : Z;                  (* -1 while the final size is unknown *)
  recvDone : bool;
  peerReset : bool;
  streamDataPending : bool;     (* the stream's maxDataPending *)
  stopPending : bool;
  stopSent : bool;
  stopCode : Z;
  recvRead : Z;
  queued : bool;
  done_ : bool;
}.

#[export] Instance eta_Stream : Eta Stream := fun s =>
  MkStream (id s) (hasSend s) (send s) (sendMax s) (finQueued s) (finSent s) (finAcked s) (reset s) (resetPending s) (resetAcked s)
    (resetCode s) (finalSize s) (hasRecv s) (recv s) (recvMax s) (recvHigh s) (recvFin s) (recvDone s) (peerReset s)
    (streamDataPending s) (stopPending s) (stopSent s) (stopCode s) (recvRead s) (queued s) (done_ s).

(** The calls of the connection's handler. *)
Inductive event :=
| OnStreamData (s : Z) (data : bytes) (fin : bool)
| OnStreamReset (s code : Z)
| OnStopSending (s code : Z)
| OnStreamsAvailable
| OnClose (err : close_error).

(** The parts of [Config] streams use. *)
Record Config := MkConfig {
  MaxIncomingStreams : Z;
  MaxIncomingUniStreams : Z;
  StreamReceiveWindow : Z;
  ConnReceiveWindow : Z;
}.

Record Conn := MkConn {
  isClient : bool;
  config : Config;
  handshakeComplete : bool;
  closed : bool;
  peerParams : option transportParams;
  peerMaxData : Z;
  sentData : Z;
  recvMaxData : Z;
  recvData : Z;
  recvConsumed : Z;
  maxDataPending : bool;
  store : gmap Z Stream;
  streams : gset Z;
  openedBidi : Z;
  openedUni : Z;
  peerMaxBidi : Z;
  peerMaxUni : Z;
  peerOpenedBidi : Z;
  peerOpenedUni : Z;
  peerDoneBidi : Z;
  peerDoneUni : Z;
  maxBidi : Z;
  maxUni : Z;
  maxStreamsBidiPending : bool;
  maxStreamsUniPending : bool;
  sendQueue : list Z;
  closeWhenDone : option close_error;
  sentClose : option close_error;
  events : list event;
}.

#[export] Instance eta_Conn : Eta Conn := fun c =>
  MkConn (isClient c) (config c) (handshakeComplete c) (closed c) (peerParams c) (peerMaxData c) (sentData c) (recvMaxData c)
    (recvData c) (recvConsumed c) (maxDataPending c) (store c) (streams c) (openedBidi c) (openedUni c) (peerMaxBidi c)
    (peerMaxUni c) (peerOpenedBidi c) (peerOpenedUni c) (peerDoneBidi c) (peerDoneUni c) (maxBidi c) (maxUni c)
    (maxStreamsBidiPending c) (maxStreamsUniPending c) (sendQueue c) (closeWhenDone c) (sentClose c) (events c).

Definition isBidi (i : Z) : bool := Z.land i 2 =? 0.
Definition isClientStream (i : Z) : bool := Z.land i 1 =? 0.
Definition local (c : Conn) (i : Z) : bool := eqb (isClientStream i) (isClient c).

(** ** The store *)

Definition no_stream : Stream :=
  MkStream 0 false (SendBuffer 0 [] 0 [] []) 0 false false false false false false 0 0 false (RecvBuffer 0 [] 0) 0 0 (-1)
    false false false false false 0 0 false true.
Definition get (i : Z) (c : Conn) : Stream := default no_stream (store c !! i).
Definition put (i : Z) (s : Stream) (c : Conn) : Conn := c <| store := <[i := s]> (store c) |>.
Definition emit (e : event) (c : Conn) : Conn := c <| events := events c ++ [e] |>.

(** ** The end of the connection *)

Definition mark_done (live : gset Z) (m : gmap Z Stream) : gmap Z Stream :=
  map_imap (fun i s => Some (if decide (i ∈ live) then s <| done_ := true |> else s)) m.

Definition terminateLocked (err : close_error) (c : Conn) : Conn :=
  if closed c then c
  else emit (OnClose err)
         (c <| closed := true |> <| store := mark_done (streams c) (store c) |> <| streams := ∅ |> <| sendQueue := [] |>).

Definition closeLocked (err : close_error) (c : Conn) : Conn :=
  if closed c then c else terminateLocked err (c <| sentClose := Some err |>).

Definition closeIfDoneLocked (c : Conn) : Conn :=
  match closeWhenDone c with
  | None => c
  | Some err =>
      if closed c then c
      else if existsb isBidi (elements (streams c)) then c
      else closeLocked err c
  end.

Definition CloseWhenDone (err : close_error) (c : Conn) : Conn :=
  match closeWhenDone c with
  | None => if closed c then c else closeIfDoneLocked (c <| closeWhenDone := Some err |>)
  | Some _ => c
  end.

(** ** Opening, finding and finishing streams *)

(** A stream's first state, from the limits of both sides. *)
Definition fresh_stream (i : Z) (c : Conn) : Stream :=
  let loc := local c i in
  let receives := isBidi i || negb loc in
  let limit :=
    match peerParams c with
    | None => 0
    | Some p => if negb (isBidi i) then maxStreamDataUni p else if loc then maxStreamDataBidiR p else maxStreamDataBidiL p
    end in
  no_stream <| id := i |> <| hasSend := isBidi i || loc |> <| hasRecv := receives |> <| sendMax := limit |>
    <| recvMax := if receives then StreamReceiveWindow (config c) else 0 |> <| done_ := false |>.

Definition newStream (i : Z) (c : Conn) : Conn := put i (fresh_stream i c) c <| streams := {[i]} ∪ streams c |>.

Definition openStream (bidi : bool) (c : Conn) : result stream_error Z * Conn :=
  if closed c then (Err ErrClosed, c)
  else if negb (handshakeComplete c) then (Err ErrHandshakeNotComplete, c)
  else
    let server i := if isClient c then i else Z.lor i 1 in
    if bidi then
      if peerMaxBidi c <=? openedBidi c then (Err ErrStreamLimit, c)
      else
        let i := server (u64 (Z.shiftl (openedBidi c) 2)) in
        (Ok i, newStream i (c <| openedBidi := u64 (openedBidi c + 1) |>))
    else
      if peerMaxUni c <=? openedUni c then (Err ErrStreamLimit, c)
      else
        let i := server (Z.lor (u64 (Z.shiftl (openedUni c) 2)) 2) in
        (Ok i, newStream i (c <| openedUni := u64 (openedUni c + 1) |>)).

(** The loop that opens the peer's streams from [opened] to [seq]. *)
Fixpoint open_up_to (n : nat) (opened i : Z) (c : Conn) : Conn :=
  match n with
  | O => c
  | S n => open_up_to n (opened + 1) i (newStream (Z.lor (u64 (Z.shiftl opened 2)) (Z.land i 3)) c)
  end.

(** [Ok None] is a stream that is already finished. *)
Definition peerStream (i : Z) (recvSide : bool) (c : Conn) : result Z (option Z) * Conn :=
  let loc := local c i in
  if negb (isBidi i) && eqb loc recvSide then (Err errStreamState, c)
  else if decide (i ∈ streams c) then (Ok (Some i), c)
  else
    let seq := Z.shiftr i 2 in
    if loc then
      let opened := if isBidi i then openedBidi c else openedUni c in
      if opened <=? seq then (Err errStreamState, c) else (Ok None, c)
    else
      let opened := if isBidi i then peerOpenedBidi c else peerOpenedUni c in
      let limit := if isBidi i then maxBidi c else maxUni c in
      if seq <? opened then (Ok None, c)
      else if limit <=? seq then (Err errStreamLimit, c)
      else
        let c := open_up_to (Z.to_nat (seq + 1 - opened)) opened i c in
        let c := if isBidi i then c <| peerOpenedBidi := seq + 1 |> else c <| peerOpenedUni := seq + 1 |> in
        (Ok (Some i), c).

Definition sendDone (s : Stream) : bool :=
  if negb (hasSend s) then true else if reset s then resetAcked s else finAcked s && allAcked (send s).
Definition recvFinished (s : Stream) : bool := negb (hasRecv s) || recvDone s || peerReset s.

Definition maybeFinish (i : Z) (c : Conn) : Conn :=
  let s := get i c in
  if done_ s || negb (sendDone s) || negb (recvFinished s) then c
  else
    let c := closeIfDoneLocked (put i (s <| done_ := true |>) c <| streams := streams c ∖ {[i]} |>) in
    if local c i then c
    else if isBidi i then
      let c := c <| peerDoneBidi := u64 (peerDoneBidi c + 1) |> in
      if u64 (maxBidi c - peerDoneBidi c) <? MaxIncomingStreams (config c) / 2 + 1
      then c <| maxBidi := u64 (peerDoneBidi c + MaxIncomingStreams (config c)) |> <| maxStreamsBidiPending := true |>
      else c
    else
      let c := c <| peerDoneUni := u64 (peerDoneUni c + 1) |> in
      if u64 (maxUni c - peerDoneUni c) <? MaxIncomingUniStreams (config c) / 2 + 1
      then c <| maxUni := u64 (peerDoneUni c + MaxIncomingUniStreams (config c)) |> <| maxStreamsUniPending := true |>
      else c.

Definition queueStream (i : Z) (c : Conn) : Conn :=
  let s := get i c in
  if queued s || done_ s then c
  else put i (s <| queued := true |>) c <| sendQueue := sendQueue c ++ [i] |>.

(** ** The application's calls, under the lock *)

Definition writeLocked (i : Z) (p : bytes) (fin : bool) (c : Conn) : option stream_error * Conn :=
  let s := get i c in
  if closed c then (Some ErrClosed, c)
  else if negb (hasSend s) || finQueued s || reset s then (Some ErrClosed, c)
  else
    let s := s <| send := sb_write (send s) p |> in
    let s := if fin then s <| finQueued := true |> <| finalSize := sb_end (send s) |> else s in
    (None, queueStream i (put i s c)).

Definition resetLocked (i code : Z) (c : Conn) : Conn :=
  let s := get i c in
  if negb (hasSend s) || reset s || finAcked s then c
  else
    let nx := next (send s) in
    queueStream i
      (put i (s <| reset := true |> <| resetPending := true |> <| resetCode := code |> <| finalSize := nx |>
                <| send := SendBuffer nx [] nx [] [] |>) c).

Definition Reset (i code : Z) (c : Conn) : Conn := if closed c then c else resetLocked i code c.

Definition stopSendingLocked (i code : Z) (c : Conn) : Conn :=
  let s := get i c in
  if negb (hasRecv s) || recvDone s || stopSent s then c
  else
    queueStream i
      (put i (s <| stopSent := true |> <| stopPending := true |> <| stopCode := code |>
                <| recv := RecvBuffer (offset (recv s)) [] 0 |>) c).

Definition StopSending (i code : Z) (c : Conn) : Conn := if closed c then c else stopSendingLocked i code c.

(** ** Sending *)

Definition sendCredit (c : Conn) (s : Stream) : Z :=
  if (sendMax s <=? next (send s)) || (peerMaxData c <=? sentData c) then 0
  else Z.min (u64 (sendMax s - next (send s))) (u64 (peerMaxData c - sentData c)).

(** [hasLost] drops the lost ranges that were acknowledged since. *)
Definition sendable (i : Z) (c : Conn) : bool * Conn :=
  let s := get i c in
  if stopPending s || streamDataPending s || resetPending s then (true, c)
  else if reset s || negb (hasSend s) then (false, c)
  else
    let '(lost, b) := hasLost (send s) in
    let s := s <| send := b |> in
    let c := put i s c in
    if lost then (true, c)
    else if next (send s) <? sb_end (send s) then (0 <? sendCredit c s, c)
    else (finQueued s && negb (finSent s), c).

Definition add (f : sentFrame) (p : sentPacket) : sentPacket :=
  SentPacket (pn p) (time p) (size p) true (inFlight p) (frames p ++ [f]).

Definition appendStreamFrame (i : Z) (b : bytes) (off : Z) (data : bytes) (p : sentPacket) (c : Conn) : bytes * sentPacket * Conn :=
  let s := get i c in
  let e := u64 (off + len data) in
  let fin := finQueued s && negb (finSent s) && (e =? finalSize s) in
  let typ := Z.lor frameStream 0x02 in
  let typ := if 0 <? off then Z.lor typ 0x04 else typ in
  let typ := if fin then Z.lor typ 0x01 else typ in
  let c := if fin then put i (s <| finSent := true |>) c else c in
  let b := AppendVarint (b ++ [typ]) (id s) in
  let b := if 0 <? off then AppendVarint b off else b in
  let b := AppendVarint b (len data) ++ data in
  (b, add (SentFrame sfStream fin i off (len data)) p, c).

(** One frame of the sort a stream has pending, if it fits. *)
Definition append_if (b f : bytes) (max : Z) : option bytes :=
  if len b + len f <=? max then Some (b ++ f) else None.

(** Lost data first: [Some (.., true)] says the packet is full. Each round that
    goes on takes at least a byte, so a round per byte of room is enough. *)
Fixpoint lost_loop (fuel : nat) (i : Z) (b : bytes) (max : Z) (p : sentPacket) (c : Conn)
  : option (bytes * sentPacket * Conn * bool) :=
  let s := get i c in
  let '(lost, sb) := hasLost (send s) in
  let c := put i (s <| send := sb |>) c in
  if negb lost then Some (b, p, c, false)
  else
    match fuel, QuicBuffer.lost sb with
    | S fuel, l :: _ =>
        let avail := max - len b - 1 - VarintLen (id s) - VarintLen (off l) - 2 in
        if avail <=? 0 then Some (b, p, c, true)
        else
          let? (o, data, sb) := popLost avail sb in
          let c := put i (s <| send := sb |>) c in
          let '(b, p, c) := appendStreamFrame i b o data p c in
          lost_loop fuel i b max p c
    | _, _ => None
    end.

Fixpoint new_loop (fuel : nat) (i : Z) (b : bytes) (max : Z) (p : sentPacket) (c : Conn)
  : option (bytes * sentPacket * Conn * bool) :=
  let s := get i c in
  if sb_end (send s) <=? next (send s) then Some (b, p, c, false)
  else
    match fuel with
    | O => None
    | S fuel =>
        let credit := sendCredit c s in
        let avail := max - len b - 1 - VarintLen (id s) - VarintLen (next (send s)) - 2 in
        if (credit =? 0) || (avail <=? 0) then Some (b, p, c, true)
        else
          let? (o, data, sb) := popNew (Z.min avail credit) (send s) in
          let c := put i (s <| send := sb |>) c <| sentData := u64 (sentData c + len data) |> in
          let '(b, p, c) := appendStreamFrame i b o data p c in
          new_loop fuel i b max p c
    end.

(** STOP_SENDING, MAX_STREAM_DATA and RESET_STREAM, those that are pending and fit. *)
Definition appendPending (i : Z) (b : bytes) (max : Z) (p : sentPacket) (c : Conn) : bytes * sentPacket * Conn :=
  let s := get i c in
  let '(b, p, s) :=
    if stopPending s then
      match append_if b (appendStopSending [] (id s) (stopCode s)) max with
      | Some b => (b, add (SentFrame sfStopSending false i 0 0) p, s <| stopPending := false |>)
      | None => (b, p, s)
      end
    else (b, p, s) in
  let '(b, p, s) :=
    if streamDataPending s then
      match append_if b (appendMaxStreamData [] (id s) (recvMax s)) max with
      | Some b => (b, add (SentFrame sfMaxStreamData false i 0 0) p, s <| streamDataPending := false |>)
      | None => (b, p, s)
      end
    else (b, p, s) in
  let '(b, p, s) :=
    if resetPending s then
      match append_if b (appendResetStream [] (id s) (resetCode s) (finalSize s)) max with
      | Some b => (b, add (SentFrame sfResetStream false i 0 0) p, s <| resetPending := false |>)
      | None => (b, p, s)
      end
    else (b, p, s) in
  (b, p, put i s c).

(** [None] is an index out of range: a panic. *)
Definition appendStreamFrames (i : Z) (b : bytes) (max : Z) (p : sentPacket) (c : Conn) : option (bytes * sentPacket * Conn) :=
  let '(b, p, c) := appendPending i b max p c in
  if reset (get i c) || negb (hasSend (get i c)) then Some (b, p, c)
  else
    let fuel := S (Z.to_nat (max - len b)) in
    let? (b, p, c, full) := lost_loop fuel i b max p c in
    if full : bool then Some (b, p, c)
    else
      let? (b, p, c, full) := new_loop fuel i b max p c in
      let s := get i c in
      if full : bool then Some (b, p, c)
      else if finQueued s && negb (finSent s) && (0 <=? max - len b - 1 - VarintLen (id s) - VarintLen (next (send s)) - 1)
      then Some (appendStreamFrame i b (next (send s)) [] p c)
      else Some (b, p, c).

(** The loop over the send queue: [before] are the streams passed that stay. *)
Fixpoint streams_loop (queue before : list Z) (b : bytes) (max : Z) (p : sentPacket) (c : Conn)
  : option (bytes * sentPacket * Conn * list Z * list Z) :=
  match queue with
  | [] => Some (b, p, c, before, [])
  | i :: rest =>
      if max - len b <=? 16 then Some (b, p, c, before, queue)
      else
        let? (b, p, c) := if done_ (get i c) then Some (b, p, c) else appendStreamFrames i b max p c in
        let '(more, c) := if done_ (get i c) then (false, c) else sendable i c in
        if more : bool then streams_loop rest (before ++ [i]) b max p c
        else streams_loop rest before b max p (put i (get i c <| queued := false |>) c)
  end.

Definition appendStreams (b : bytes) (max : Z) (p : sentPacket) (c : Conn) : option (bytes * sentPacket * Conn) :=
  let? (b, p, c, before, rest) := streams_loop (sendQueue c) [] b max p c in
  let queue :=
    match before, before ++ rest with
    | _ :: _, first :: ((_ :: _) as tail) => tail ++ [first]
    | _, queue => queue
    end in
  Some (b, p, c <| sendQueue := queue |>).

(** ** Acknowledgement and loss *)

Definition onDataAcked (i off n : Z) (fin : bool) (c : Conn) : option Conn :=
  let s := get i c in
  if reset s then Some c
  else
    let? sb := onAck off n (send s) in
    let s := s <| send := sb |> in
    let s := if fin then s <| finAcked := true |> else s in
    Some (maybeFinish i (put i s c)).

Definition onDataLost (i off n : Z) (fin : bool) (c : Conn) : Conn :=
  let s := get i c in
  if reset s || done_ s then c
  else
    let s := s <| send := onLost off n (send s) |> in
    let s := if fin && negb (finAcked s) then s <| finSent := false |> else s in
    queueStream i (put i s c).

Definition onResetAcked (i : Z) (c : Conn) : Conn := maybeFinish i (put i (get i c <| resetAcked := true |>) c).

Definition onResetLost (i : Z) (c : Conn) : Conn :=
  let s := get i c in
  if negb (resetAcked s) && negb (done_ s) then queueStream i (put i (s <| resetPending := true |>) c) else c.

Definition onMaxDataLost (i : Z) (c : Conn) : Conn :=
  let s := get i c in
  if negb (recvDone s) && negb (done_ s) && (recvFin s <? 0) then queueStream i (put i (s <| streamDataPending := true |>) c) else c.

Definition onStopSendingLost (i : Z) (c : Conn) : Conn :=
  let s := get i c in
  if negb (recvDone s) && negb (done_ s) then queueStream i (put i (s <| stopPending := true |>) c) else c.

(** ** Receiving *)

(** [consumed] in its three parts: what was read is counted, and the stream's and
    the connection's windows are moved when half of them is used. *)
Definition read_to (i offset : Z) (c : Conn) : Conn :=
  let s := get i c in
  if recvRead s <? offset
  then put i (s <| recvRead := offset |>) c <| recvConsumed := u64 (recvConsumed c + u64 (offset - recvRead s)) |>
  else c.

Definition widen_stream (i offset : Z) (c : Conn) : Conn :=
  let s := get i c in
  if (recvFin s <? 0) && negb (recvDone s) && (u64 (recvMax s - offset) <? StreamReceiveWindow (config c) / 2)
  then queueStream i (put i (s <| recvMax := u64 (offset + StreamReceiveWindow (config c)) |> <| streamDataPending := true |>) c)
  else c.

Definition widen_conn (c : Conn) : Conn :=
  if u64 (recvMaxData c - recvConsumed c) <? ConnReceiveWindow (config c) / 2
  then c <| recvMaxData := u64 (recvConsumed c + ConnReceiveWindow (config c)) |> <| maxDataPending := true |>
  else c.

Definition consumed (i offset : Z) (c : Conn) : Conn := widen_conn (widen_stream i offset (read_to i offset c)).

Definition deliver (i : Z) (data : bytes) (fin : bool) (c : Conn) : Conn :=
  emit (OnStreamData i data fin) (consumed i (offset (recv (get i c))) c).

(** Each round takes a segment, so one more than there are is enough. *)
Fixpoint deliver_loop (fuel : nat) (i : Z) (c : Conn) : option Conn :=
  match fuel with
  | O => None
  | S fuel =>
      let? (chunk, r) := pop (recv (get i c)) in
      let c := put i (get i c <| recv := r |>) c in
      match chunk with
      | None => Some c
      | Some data => deliver_loop fuel i (deliver i data false c)
      end
  end.

(** What both frames do with how far the peer has got; an error is a code. *)
Definition reach (i e : Z) (c : Conn) : option Z * Conn :=
  let s := get i c in
  if recvHigh s <? e then
    let c := put i (s <| recvHigh := e |>) c <| recvData := u64 (recvData c + u64 (e - recvHigh s)) |> in
    if recvMaxData c <? recvData c then (Some errFlowControl, c) else (None, c)
  else (None, c).

(** Nobody reads it, so it counts as read at once. *)
Definition discard (i e : Z) (c : Conn) : Conn :=
  let c := consumed i e c in
  let s := get i c in
  if stopSent s && (0 <=? recvFin s) && negb (recvDone s) then maybeFinish i (put i (s <| recvDone := true |>) c) else c.

Definition accept (i off : Z) (data : bytes) (c : Conn) : option Conn :=
  let? r := push off data (recv (get i c)) in
  let? c := deliver_loop (S (length (segments r))) i (put i (get i c <| recv := r |>) c) in
  let s := get i c in
  if (0 <=? recvFin s) && (offset (recv s) =? u64 (recvFin s)) && negb (recvDone s)
  then Some (maybeFinish i (deliver i [] true (put i (s <| recvDone := true |>) c)))
  else Some c.

Definition onStreamFrame (i off : Z) (data : bytes) (fin : bool) (c : Conn) : option (option Z * Conn) :=
  let s := get i c in
  let e := u64 (off + len data) in
  if maxVarint <? e then Some (Some errFrameEncoding, c)
  else if (0 <=? recvFin s) && ((u64 (recvFin s) <? e) || fin && negb (e =? u64 (recvFin s))) then Some (Some errFinalSize, c)
  else if fin && (e <? recvHigh s) then Some (Some errFinalSize, c)
  else
    let s := if fin then s <| recvFin := i64 e |> else s in
    let c := put i s c in
    if recvMax s <? e then Some (Some errFlowControl, c)
    else
      let '(err, c) := reach i e c in
      match err with
      | Some _ => Some (err, c)
      | None =>
          if recvDone s || peerReset s || stopSent s then Some (None, discard i e c)
          else let? c := accept i off data c in Some (None, c)
      end.

Definition onResetStream (i code finalSize : Z) (c : Conn) : option Z * Conn :=
  let s := get i c in
  if (0 <=? recvFin s) && negb (finalSize =? u64 (recvFin s)) || (finalSize <? recvHigh s) then (Some errFinalSize, c)
  else if recvMax s <? finalSize then (Some errFlowControl, c)
  else
    let '(err, c) := reach i finalSize c in
    match err with
    | Some _ => (err, c)
    | None =>
        let c := consumed i finalSize (put i (get i c <| recvFin := i64 finalSize |>) c) in
        let s := get i c in
        if recvDone s || peerReset s then (None, c)
        else
          let c := put i (s <| peerReset := true |> <| streamDataPending := false |>
                            <| recv := RecvBuffer (offset (recv s)) [] 0 |>) c in
          let c := if negb (stopSent s) then emit (OnStreamReset i code) c else c in
          (None, maybeFinish i c)
    end.

Definition onStopSending (i code : Z) (c : Conn) : Conn :=
  let s := get i c in
  if reset s || finAcked s then c else emit (OnStopSending i code) (resetLocked i code c).

(** ** The frames that act on streams *)

(** MAX_DATA goes over the connection's map, in the order Go's [range] happens to take. *)
Definition onMaxData (max : Z) (order : list Z) (c : Conn) : Conn :=
  if peerMaxData c <? max then
    fold_left (fun c i => let '(more, c) := sendable i c in if more : bool then queueStream i c else c) order
      (c <| peerMaxData := max |>)
  else c.

Definition on_peer_stream (i : Z) (recvSide : bool) (f : Z -> Conn -> option (option Z * Conn)) (c : Conn) : option (option Z * Conn) :=
  match peerStream i recvSide c with
  | (Err e, c) => Some (Some e, c)
  | (Ok None, c) => Some (None, c)
  | (Ok (Some i), c) => f i c
  end.

(** The cases of [handleFrames] that touch streams, their limits or the life of
    the connection; the others leave this state alone. *)
Definition handleStreamFrame (f : qframe) (order : list Z) (c : Conn) : option (option Z * Conn) :=
  match f with
  | FResetStream i code size => on_peer_stream i true (fun i c => Some (onResetStream i code size c)) c
  | FStopSending i code => on_peer_stream i false (fun i c => Some (None, onStopSending i code c)) c
  | FStream i off data fin => on_peer_stream i true (fun i c => onStreamFrame i off data fin c) c
  | FMaxData max => Some (None, onMaxData max order c)
  | FMaxStreamData i max =>
      on_peer_stream i false (fun i c =>
        Some (None, if sendMax (get i c) <? max then queueStream i (put i (get i c <| sendMax := max |>) c) else c)) c
  | FMaxStreams uni max =>
      if (if uni : bool then peerMaxUni c else peerMaxBidi c) <? max
      then Some (None, emit OnStreamsAvailable (if uni then c <| peerMaxUni := max |> else c <| peerMaxBidi := max |>))
      else Some (None, c)
  | FConnectionClose app code reason =>
      Some (None, terminateLocked (if app : bool then ApplicationError code reason else TransportError code reason) c)
  | _ => Some (None, c)
  end.
