(* ===== verification/QuicFlow.v ===== *)
(** Receiving on QUIC streams: what the flow control of QuicStream guarantees,
    whatever the peer sends.

    The peer's bytes are counted once, by how far each stream has got; what has
    been read is given back; the windows stay open by at least half; nothing the
    peer sends makes the reassembly panic. *)
From S2P Require Import Prelude.
From S2P Require Import Varint.
From S2P Require Import QuicBuffer.
From S2P Require Import QuicFrames.
From S2P Require Import QuicParams.
From S2P Require Import QuicPacket.
From S2P Require Import QuicRecovery.
From S2P Require Import QuicStream.

(** * Reassembly of arbitrary data

    A peer need not send the same bytes twice for the same offsets.  What is kept
    and how far it reaches does not depend on the bytes, so [blank]ing them turns
    any frames into frames of one stream. *)

Definition blank (d : bytes) : bytes := (fun _ => 0) <$> d.
Definition blank_seg (s : segment) : segment := Segment (seg_off s) (blank (seg_data s)).
Definition blank_recv (r : recvBuffer) : recvBuffer := RecvBuffer (offset r) (blank_seg <$> segments r) (buffered r).

Lemma blank_len d : len (blank d) = len d.
Proof. unfold blank, len. by rewrite length_fmap. Qed.

Lemma slice_from_blank d k : slice_from (blank d) k = blank <$> slice_from d k.
Proof.
  unfold slice_from, slice. rewrite blank_len. destruct ((0 <=? k) && (k <=? len d) && (len d <=? len d)); [|done].
  cbn. unfold blank. by rewrite fmap_take, fmap_drop.
Qed.

Lemma search_list_blank o l :
  search_list (fun s => o <? seg_off s) (blank_seg <$> l) = search_list (fun s => o <? seg_off s) l.
Proof.
  unfold search_list, sort_Search.
  assert (Hl : len (blank_seg <$> l) = len l) by (unfold len; by rewrite length_fmap).
  assert (Hat : forall k, at_ (blank_seg <$> l) k = blank_seg <$> at_ l k).
  { intros k. unfold at_. destruct (0 <=? k); [|done]. apply list_lookup_fmap. }
  rewrite Hl. generalize (Z.to_nat (len l)) as n. generalize (len l) as b. generalize 0 as a.
  intros a b n. revert a b. induction n as [|n IH]; intros a b; cbn [search_loop]; [done|].
  destruct (a <? b); [|done]. rewrite !IH, Hat. by destruct (at_ l _).
Qed.

Lemma push_blank o d r : push o (blank d) (blank_recv r) = blank_recv <$> push o d r.
Proof.
  unfold push. rewrite blank_len. cbn [blank_recv offset segments buffered].
  destruct ((u64 (o + len d) <=? offset r) || (len d =? 0)); [done|].
  assert (Hin : (if o <? offset r then let? x := slice_from (blank d) (u64 (offset r - o)) in Some (offset r, x) else Some (o, blank d)) =
    (fun x : Z * bytes => (fst x, blank (snd x))) <$>
      (if o <? offset r then let? x := slice_from d (u64 (offset r - o)) in Some (offset r, x) else Some (o, d))).
  { destruct (o <? offset r); [|done]. rewrite slice_from_blank. by destruct (slice_from d _). }
  rewrite Hin. clear Hin. set (cut := if o <? offset r then let? x := slice_from d _ in _ else _).
  destruct cut as [[o' d']|]; [|done]. cbn [fmap option_fmap option_map fst snd].
  rewrite search_list_blank. unfold blank_recv. cbn [offset segments buffered].
  by rewrite fmap_app, fmap_cons, fmap_take, fmap_drop, blank_len.
Qed.

Lemma pop_blank r :
  pop (blank_recv r) = (fun x : option bytes * recvBuffer => (blank <$> fst x, blank_recv (snd x))) <$> pop r.
Proof.
  unfold pop, blank_recv. cbn [offset segments buffered].
  generalize (buffered r). induction (segments r) as [|s l IH]; intros bf; cbn [fmap list_fmap pop_loop]; [done|].
  cbn [blank_seg seg_off seg_data]. rewrite blank_len. destruct (offset r <? seg_off s); [done|].
  destruct (u64 (seg_off s + len (seg_data s)) <=? offset r); [apply IH|].
  rewrite slice_from_blank. by destruct (slice_from (seg_data s) _).
Qed.

(** What is kept lies below [h], and the buffer is in order. *)
Definition shape (h : Z) (r : recvBuffer) : Prop :=
  exists got, (forall x, got x -> x < h) /\ recv_inv (fun _ => 0) got (stream_of (fun _ => 0) 0 (offset r)) (blank_recv r).

Lemma shape_mono h h' r : h <= h' -> shape h r -> shape h' r.
Proof. intros Hh (got & Hg & Hr). exists got. split; [|done]. intros x Hx%Hg. lia. Qed.

Lemma shape_offset h r : 0 <= h -> shape h r -> 0 <= offset r <= h.
Proof.
  intros Hh (got & Hg & Hr). destruct Hr as [Ho _ _ _ Hb _ _ _]. cbn in *. split; [lia|].
  destruct (decide (offset r <= 0)); [lia|]. specialize (Hb (offset r - 1)). apply Hg in Hb; lia.
Qed.

Lemma shape_init : shape 0 (RecvBuffer 0 [] 0).
Proof. exists (fun _ => False). split; [done|]. apply recv_init_inv. Qed.

Lemma blank_stream d o : blank d = stream_of (fun _ => 0) o (len d).
Proof.
  unfold blank, stream_of. apply list_eq_same_length with (length d); rewrite ?length_fmap, ?length_seqZ; [unfold len; lia|done|].
  intros j x y _. rewrite !list_lookup_fmap. destruct (d !! j), (seqZ 0 (len d) !! j); cbn; congruence.
Qed.

Lemma push_offset o d r r' : push o d r = Some r' -> offset r' = offset r.
Proof.
  unfold push. intros H. destruct (_ || _) in H; [congruence|].
  destruct (if o <? offset r then _ else _) as [[o' d']|] in H; [|done]. by simplify_eq.
Qed.

Lemma push_shape h o d r :
  shape h r -> 0 <= o -> o + len d <= 2 ^ 62 -> o + len d <= h ->
  exists r', push o d r = Some r' /\ shape h r' /\ offset r' = offset r.
Proof.
  intros (got & Hg & Hr) Ho Hm Hh.
  destruct (push_spec _ _ _ _ (Frame o (blank d)) Hr) as (r1 & Hp & Hi).
  { repeat split; cbn; rewrite ?blank_len; [done..|]. apply blank_stream. }
  cbn in Hp, Hi. rewrite push_blank in Hp. destruct (push o d r) as [r'|] eqn:E; [|done]. cbn in Hp. simplify_eq.
  exists r'. split; [done|]. pose proof (push_offset _ _ _ _ E) as Hoff. split; [|done].
  eexists _. split; [|rewrite Hoff; exact Hi]. cbn. rewrite blank_len. intros x [Hx%Hg|Hx]; lia.
Qed.

Lemma pop_shape h r :
  0 <= h -> shape h r ->
  exists chunk r', pop r = Some (chunk, r') /\ shape h r' /\ offset r' <= h /\
    match chunk with
    | None => offset r' = offset r
    | Some d => offset r' = offset r + len d /\ (length (segments r') < length (segments r))%nat
    end.
Proof.
  intros Hh Hs. pose proof Hs as (got & Hg & Hr). destruct (pop_loop_spec (fun _ => 0) (offset r) (segments (blank_recv r)))
    as (chunk & r1 & Hp & Hd & Hoff & Hmax & Hok & Hasc & Hbuf & Hout & Hsub & Hkeep & Hrest).
  { apply Hr. } { apply Hr. } { apply Hr. }
  assert (Hp' : pop (blank_recv r) = Some (chunk, r1)).
  { unfold pop. destruct Hr. by rewrite ri_buffered. }
  rewrite pop_blank in Hp'. destruct (pop r) as [[ck r']|] eqn:E; [|done]. cbn in Hp'. simplify_eq.
  cbn [blank_recv offset] in *. destruct Hr as [? ? ? ? Hb Hh' Hgt ?]. cbn [blank_recv offset segments] in *.
  pose proof (len_nonneg (default [] (blank <$> ck))).
  assert (Hs' : shape h r').
  { exists got. split; [done|]. constructor; cbn [blank_recv offset segments]; try done; [lia|..].
    - intros x Hx. destruct (decide (x < offset r)); [apply Hb; lia|]. apply Hh', Hout. lia.
    - intros x Hx. by apply Hh', Hsub.
    - intros x [Hx|Hx]%Hgt; [left; lia|]. by apply Hkeep. }
  eexists _, _. split; [reflexivity|]. split; [done|]. split; [pose proof (shape_offset _ _ Hh Hs'); lia|].
  destruct ck as [d|]; cbn in Hoff; [rewrite blank_len in Hoff|rewrite len_nil in Hoff; lia].
  split; [done|]. by rewrite !length_fmap in Hrest.
Qed.

(** * The store *)

Lemma get_at i c s : store c !! i = Some s -> get i c = s.
Proof. unfold get. by intros ->. Qed.

Lemma get_put i s c : get i (put i s c) = s.
Proof. unfold get, put. cbn. by rewrite lookup_insert_eq. Qed.

Lemma put_put i s s' c : put i s (put i s' c) = put i s c.
Proof. unfold put. cbn. by rewrite insert_insert_eq. Qed.

Lemma put_same i s c : store c !! i = Some s -> put i s c = c.
Proof. intros Hi. unfold put. rewrite insert_id by done. by destruct c. Qed.

Lemma put_get i c : is_Some (store c !! i) -> put i (get i c) c = c.
Proof. intros [s Hs]. apply put_same. by rewrite (get_at _ _ _ Hs). Qed.

Lemma store_put i s c : store (put i s c) !! i = Some s.
Proof. cbn. apply lookup_insert_eq. Qed.

#[export] Hint Rewrite get_put put_put : fib_rew.
#[export] Hint Resolve store_put : fib.

(** ** What receiving depends on

    [fview] is the part of a stream its receiving side is made of, [flow_view] the
    part of a connection flow control is made of. *)
Definition fview (s : Stream) :=
  (recv s, (recvMax s, recvHigh s, recvRead s), recvFin s, (recvDone s, peerReset s, stopSent s, hasRecv s)).

Definition flow_view (c : Conn) := (config c, (recvData c, recvConsumed c, recvMaxData c), fview <$> store c).

Lemma fview_put i s s' c : store c !! i = Some s -> fview s' = fview s -> fview <$> store (put i s' c) = fview <$> store c.
Proof.
  intros Hi Hs. cbn. rewrite fmap_insert, Hs. apply insert_id. by rewrite lookup_fmap, Hi.
Qed.

Lemma flow_view_put i s s' c : store c !! i = Some s -> fview s' = fview s -> flow_view (put i s' c) = flow_view c.
Proof. intros Hi Hs. unfold flow_view. rewrite (fview_put i s) by done. done. Qed.

Lemma fview_get i c c' : flow_view c = flow_view c' -> fview (get i c) = fview (get i c').
Proof.
  intros [= _ _ _ _ Hs]. apply (f_equal (lookup i)) in Hs. rewrite !lookup_fmap in Hs. unfold get.
  destruct (store c !! i), (store c' !! i); cbn in *; congruence.
Qed.

(** ** The invariant *)

Definition config_ok (cfg : Config) : Prop :=
  2 <= StreamReceiveWindow cfg <= 2 ^ 61 /\ 2 <= ConnReceiveWindow cfg <= 2 ^ 61.

Record recv_core (cfg : Config) (s : Stream) : Prop := {
  rc_order : 0 <= recvRead s <= recvHigh s /\ recvHigh s <= recvMax s <= recvRead s + StreamReceiveWindow cfg;
  rc_high : recvHigh s <= maxVarint;
  rc_fin : recvFin s = -1 \/ recvFin s = recvHigh s;
  rc_shape : stopSent s = false -> peerReset s = false -> recvRead s = offset (recv s) /\ shape (recvHigh s) (recv s);
  rc_done : recvDone s = true -> recvFin s = recvHigh s /\ (stopSent s = false -> recvRead s = recvHigh s);
  rc_reset : peerReset s = true -> recvFin s = recvHigh s /\ recvRead s = recvHigh s;
}.

(** Half of the window stays open while more may come. *)
Definition wide (cfg : Config) (s : Stream) : Prop :=
  hasRecv s = true -> recvFin s < 0 -> recvRead s + StreamReceiveWindow cfg / 2 <= recvMax s.

Record flow (c : Conn) : Prop := {
  fl_config : config_ok (config c);
  fl_streams : forall i s, store c !! i = Some s -> recv_core (config c) s /\ wide (config c) s;
  fl_data : recvData c = msum recvHigh (store c);
  fl_read : recvConsumed c = msum recvRead (store c);
  fl_limit : recvData c <= recvMaxData c /\
             recvConsumed c + ConnReceiveWindow (config c) / 2 <= recvMaxData c <= recvConsumed c + ConnReceiveWindow (config c);
}.

Lemma recv_core_ext cfg s s' : fview s = fview s' -> recv_core cfg s -> recv_core cfg s'.
Proof.
  intros [= H1 H2 H3 H4 H5 H6 H7 H8 H9] []. constructor; rewrite <- ?H1, <- ?H2, <- ?H3, <- ?H4, <- ?H5, <- ?H6, <- ?H7, <- ?H8; done.
Qed.

Lemma wide_ext cfg s s' : fview s = fview s' -> wide cfg s -> wide cfg s'.
Proof. unfold wide. by intros [= _ -> _ -> -> _ _ _ ->]. Qed.

Lemma flow_ext c c' : flow_view c = flow_view c' -> flow c -> flow c'.
Proof.
  intros Hv [H1 H2 H3 H4 H5]. pose proof Hv as [= E1 E2 E3 E4 E5]. constructor; rewrite <- ?E1, <- ?E2, <- ?E3, <- ?E4; [done|..|done].
  - intros i s' Hs'. apply (f_equal (lookup i)) in E5. rewrite !lookup_fmap, Hs' in E5.
    destruct (store c !! i) as [s|] eqn:Hs; cbn in E5; [|done]. apply (inj Some) in E5. destruct (H2 i s Hs).
    split; [eapply recv_core_ext|eapply wide_ext]; eauto.
  - rewrite H3. eapply (msum_view fview); [|done]. by intros s s' [=].
  - rewrite H4. eapply (msum_view fview); [|done]. by intros s s' [=].
Qed.

(** The invariant while an operation works on stream [i], which is [s] now, with
    at least [k] bytes of the connection's window open. *)
Record flow_at (k i : Z) (s : Stream) (c : Conn) : Prop := {
  fa_at : store c !! i = Some s;
  fa_config : config_ok (config c);
  fa_others : forall j t, j <> i -> store c !! j = Some t -> recv_core (config c) t /\ wide (config c) t;
  fa_data : recvData c = msum recvHigh (store c);
  fa_read : recvConsumed c = msum recvRead (store c);
  fa_limit : recvData c <= recvMaxData c /\
             recvConsumed c + k <= recvMaxData c <= recvConsumed c + ConnReceiveWindow (config c);
}.

Definition half (c : Conn) : Z := ConnReceiveWindow (config c) / 2.

Lemma flow_open i s c : flow c -> store c !! i = Some s -> flow_at (half c) i s c /\ recv_core (config c) s /\ wide (config c) s.
Proof. intros [] Hi. split; [constructor; eauto|eauto]. Qed.

Lemma flow_close i s c : flow_at (half c) i s c -> recv_core (config c) s -> wide (config c) s -> flow c.
Proof.
  intros [] ? ?. constructor; try done. intros j t Hj. destruct (decide (j = i)) as [->|]; [simplify_eq; done|eauto].
Qed.

Lemma flow_at_put k i s s' c :
  flow_at k i s c -> recvHigh s' = recvHigh s -> recvRead s' = recvRead s -> flow_at k i s' (put i s' c).
Proof.
  intros [] Hh Hr. constructor; [apply store_put|done|..|done].
  - intros j t Hj. cbn. rewrite lookup_insert_ne by done. eauto.
  - cbn. rewrite (msum_set _ _ _ s) by done. lia.
  - cbn. rewrite (msum_set _ _ _ s) by done. lia.
Qed.

(** Sums of the parts: nothing is counted as read that did not arrive. *)
Lemma fa_sums k i s c : flow_at k i s c -> 0 <= recvRead s <= recvHigh s -> 0 <= recvConsumed c <= recvData c.
Proof.
  intros [] Hs. rewrite fa_data0, fa_read0.
  assert (Hall : forall j t, store c !! j = Some t -> 0 <= recvRead t <= recvHigh t).
  { intros j t Hj. destruct (decide (j = i)) as [->|]; [by simplify_eq|]. destruct (fa_others0 j t n Hj) as [[] _]. lia. }
  split; [apply msum_nonneg|apply msum_le]; intros j t Hj; apply Hall in Hj; lia.
Qed.

Lemma reach_flow k i s e c err c' :
  flow_at k i s c -> recvData c <= 2 ^ 62 -> 0 <= recvRead s <= recvHigh s -> e <= maxVarint ->
  reach i e c = (err, c') ->
  let s' := if recvHigh s <? e then s <| recvHigh := e |> else s in
  match err with Some x => x = errFlowControl | None => flow_at k i s' c' /\ recvData c' <= 2 ^ 63 /\ config c' = config c end.
Proof.
  intros Hf Hd Hs He. pose proof (fa_sums _ _ _ _ Hf Hs) as Hsum. unfold reach.
  rewrite (get_at i c s) by apply Hf. destruct (Z.ltb_spec (recvHigh s) e) as [Hlt|]; [|intros [= <- <-]; split_and!; [done|lia|done]].
  set (c1 := put i (s <| recvHigh := e |>) c <| recvData := _ |>).
  destruct (recvMaxData c1 <? recvData c1) eqn:E; intros [= <- <-]; [done|]. apply Z.ltb_ge in E.
  assert (Hdat : recvData c1 = recvData c + (e - recvHigh s)).
  { unfold c1, maxVarint in *. cbn. rewrite (u64_small (e - _)) by lia. rewrite u64_small; lia. }
  split; [|split; [unfold maxVarint in *; lia|done]].
  destruct Hf. constructor; [apply store_put|done|..].
  - intros j t Hj. cbn. rewrite lookup_insert_ne by done. eauto.
  - rewrite Hdat. cbn. rewrite (msum_set _ _ _ s) by done. cbn. lia.
  - cbn. rewrite (msum_set _ _ _ s) by done. cbn. lia.
  - split; [done|]. exact (proj2 fa_limit0).
Qed.

Lemma queue_flow k i s c : flow_at k i s c -> exists b, flow_at k i (s <| queued := b |>) (queueStream i c).
Proof.
  intros Hf. unfold queueStream. rewrite (get_at i c s) by apply Hf.
  destruct (queued s || done_ s).
  - exists (queued s). by replace (s <| queued := queued s |>) with s by by destruct s.
  - exists true. apply (flow_at_put k i s (s <| queued := true |>)) in Hf; [|done..]. by destruct Hf.
Qed.

Lemma read_to_flow k i s o c :
  flow_at k i s c -> recvData c <= 2 ^ 63 -> 0 <= recvRead s <= recvHigh s -> recvHigh s <= maxVarint -> 0 <= o <= recvHigh s ->
  flow_at 0 i (s <| recvRead := Z.max (recvRead s) o |>) (read_to i o c).
Proof.
  intros Hf Hd Hs Hm Ho. pose proof (fa_sums _ _ _ _ Hf Hs) as Hsum. unfold read_to. rewrite (get_at i c s) by apply Hf.
  assert (Hup : forall s' c', flow_at k i s' c' -> 0 <= recvRead s' <= recvHigh s' -> flow_at 0 i s' c').
  { intros s' c' Hf' Hs'. pose proof (fa_sums _ _ _ _ Hf' Hs'). destruct Hf'. constructor; try done. lia. }
  destruct (Z.ltb_spec (recvRead s) o) as [Hlt|].
  2: { replace (s <| recvRead := _ |>) with s; [by apply Hup|]. rewrite Z.max_l by lia. by destruct s. }
  rewrite Z.max_r by lia. unfold maxVarint in *. destruct Hf.
  rewrite (u64_small (o - _)) by lia. rewrite u64_small by lia.
  assert (Hc : recvConsumed c + (o - recvRead s) = msum recvRead (<[i := s <| recvRead := o |>]> (store c))).
  { rewrite (msum_set _ _ _ s) by done. cbn. lia. }
  assert (Hh : recvData c = msum recvHigh (<[i := s <| recvRead := o |>]> (store c))).
  { rewrite (msum_set _ _ _ s) by done. cbn. lia. }
  assert (Hle : recvConsumed c + (o - recvRead s) <= recvData c).
  { rewrite Hc, Hh. apply msum_le. intros j t Hj. destruct (decide (j = i)) as [->|Hne].
    - rewrite lookup_insert_eq in Hj. simplify_eq. cbn. lia.
    - rewrite lookup_insert_ne in Hj by done. destruct (fa_others0 j t Hne Hj) as [[] _]. lia. }
  constructor; cbn; [apply lookup_insert_eq|done|..|lia]; [|done..].
  intros j t Hj. rewrite lookup_insert_ne by done. eauto.
Qed.

Lemma widen_conn_flow i s c :
  flow_at 0 i s c -> recvData c <= 2 ^ 63 -> 0 <= recvRead s <= recvHigh s -> flow_at (half c) i s (widen_conn c).
Proof.
  intros Hf Hd Hs. pose proof (fa_sums _ _ _ _ Hf Hs) as Hsum. unfold widen_conn, half. destruct Hf as [? [? ?] ? ? ? ?].
  rewrite (u64_small (recvMaxData c - _)) by lia.
  destruct (Z.ltb_spec (recvMaxData c - recvConsumed c) (ConnReceiveWindow (config c) / 2)); constructor; try done; try lia.
  cbn. rewrite u64_small by lia. split; [lia|]. split; [|lia].
  enough (ConnReceiveWindow (config c) / 2 <= ConnReceiveWindow (config c)) by lia. apply Z.div_le_upper_bound; lia.
Qed.

(** What is between a stream's four marks, whichever operation is under way. *)
Definition marks (cfg : Config) (s : Stream) : Prop :=
  0 <= recvRead s <= recvHigh s /\ recvHigh s <= recvMax s <= recvRead s + StreamReceiveWindow cfg /\ recvHigh s <= maxVarint.

Definition renew (m : Z) (p b : bool) (s : Stream) : Stream :=
  s <| recvMax := m |> <| streamDataPending := p |> <| queued := b |>.

Lemma renew_same s : renew (recvMax s) (streamDataPending s) (queued s) s = s.
Proof. by destruct s. Qed.

Lemma widen_stream_flow k i s o c :
  flow_at k i s c -> marks (config c) s -> 0 <= o <= recvRead s ->
  (recvDone s = true -> 0 <= recvFin s) -> (o < recvRead s -> wide (config c) s) ->
  exists m p b, flow_at k i (renew m p b s) (widen_stream i o c) /\
    recvMax s <= m <= recvRead s + StreamReceiveWindow (config c) /\ wide (config c) (renew m p b s).
Proof.
  intros Hf Hm Ho Hdone Hw. unfold widen_stream. rewrite (get_at i c s) by apply Hf.
  pose proof (fa_config _ _ _ _ Hf) as [Hcfg _]. unfold marks, maxVarint in Hm.
  rewrite (u64_small (recvMax s - o)), (u64_small (o + _)) by lia.
  destruct (_ && _ && _) eqn:E.
  - apply andb_true_iff in E as [[E1 E2]%andb_true_iff E3]. apply Z.ltb_lt in E1, E3.
    assert (StreamReceiveWindow (config c) / 2 <= StreamReceiveWindow (config c)) by (apply Z.div_le_upper_bound; lia).
    set (s1 := s <| recvMax := o + StreamReceiveWindow (config c) |> <| streamDataPending := true |>).
    apply (flow_at_put k i s s1) in Hf; [|done..]. apply queue_flow in Hf as [b Hf].
    exists (o + StreamReceiveWindow (config c)), true, b. split; [exact Hf|]. split; [lia|].
    intros Hr Hfin. cbn in *. destruct (decide (o < recvRead s)) as [Hlt|]; [|lia].
    specialize (Hw Hlt Hr Hfin). lia.
  - exists (recvMax s), (streamDataPending s), (queued s). rewrite renew_same. split; [done|]. split; [lia|].
    intros Hr Hfin. destruct (decide (o < recvRead s)) as [Hlt|]; [by apply Hw|].
    apply andb_false_iff in E as [[E|E]%andb_false_iff|E]; [apply Z.ltb_ge in E; lia| |apply Z.ltb_ge in E; lia].
    apply negb_false_iff, Hdone in E. lia.
Qed.

Lemma consumed_flow k i s o c :
  flow_at k i s c -> recvData c <= 2 ^ 63 -> marks (config c) s -> 0 <= o <= recvHigh s ->
  (recvDone s = true -> 0 <= recvFin s) -> wide (config c) s ->
  exists m p b, let s' := renew m p b (s <| recvRead := Z.max (recvRead s) o |>) in
    flow_at (half c) i s' (consumed i o c) /\ recvMax s <= m /\ marks (config c) s' /\ wide (config c) s' /\
    config (consumed i o c) = config c /\ recvData (consumed i o c) = recvData c.
Proof.
  intros Hf Hd Hm Ho Hdone Hw. pose proof Hm as (Hm1 & Hm2 & Hm3).
  assert (Hcfg : config (read_to i o c) = config c /\ recvData (read_to i o c) = recvData c).
  { unfold read_to. by destruct (_ <? _). }
  apply (read_to_flow k i s o) in Hf; [|done..].
  set (s1 := s <| recvRead := _ |>) in *.
  assert (Hr1 : recvRead s1 = Z.max (recvRead s) o) by done.
  assert (Hh1 : recvHigh s1 = recvHigh s) by done. assert (Hx1 : recvMax s1 = recvMax s) by done.
  apply (widen_stream_flow 0 i s1 o) in Hf as (m & p & b & Hf & Hmm & Hwide).
  2: { unfold marks. rewrite (proj1 Hcfg). lia. } 2: lia. 2: done.
  2: { intros Hlt. rewrite (proj1 Hcfg). intros Hr Hfin. specialize (Hw Hr Hfin). cbn in *. lia. }
  rewrite (proj1 Hcfg) in *. exists m, p, b. cbn zeta.
  assert (Hcfg2 : config (widen_stream i o (read_to i o c)) = config c /\ recvData (widen_stream i o (read_to i o c)) = recvData c).
  { rewrite <- (proj1 Hcfg), <- (proj2 Hcfg). unfold widen_stream, queueStream. repeat (case_match; try done). }
  apply widen_conn_flow in Hf; [|by rewrite (proj2 Hcfg2)|cbn; lia].
  replace (half (widen_stream i o (read_to i o c))) with (half c) in Hf by (unfold half; by rewrite (proj1 Hcfg2)).
  split; [done|]. split; [lia|]. split; [|split; [done|]].
  - unfold marks. cbn in *. lia.
  - unfold consumed, widen_conn. rewrite <- (proj1 Hcfg2), <- (proj2 Hcfg2). by destruct (_ <? _).
Qed.

(** ** Operations that do not touch the receiving side *)

Lemma fview_mark_done l m : fview <$> mark_done l m = fview <$> m.
Proof.
  apply map_eq. intros i. unfold mark_done. rewrite !lookup_fmap, map_lookup_imap. destruct (m !! i); cbn; [|done]. by destruct (decide _).
Qed.

Lemma terminate_view e c : flow_view (terminateLocked e c) = flow_view c.
Proof. unfold terminateLocked. destruct (closed c); [done|]. unfold flow_view. cbn. by rewrite fview_mark_done. Qed.

Lemma close_view e c : flow_view (closeLocked e c) = flow_view c.
Proof. unfold closeLocked. destruct (closed c); [done|]. by rewrite terminate_view. Qed.

Lemma closeIfDone_view c : flow_view (closeIfDoneLocked c) = flow_view c.
Proof. unfold closeIfDoneLocked. repeat (case_match; try done). apply close_view. Qed.

Lemma finish_view i s c : store c !! i = Some s -> flow_view (maybeFinish i c) = flow_view c.
Proof.
  intros Hi. unfold maybeFinish. rewrite (get_at _ _ _ Hi). destruct (_ || _ || _); [done|].
  set (c1 := closeIfDoneLocked _).
  assert (H1 : flow_view c1 = flow_view c).
  { unfold c1. rewrite closeIfDone_view. rewrite <- (flow_view_put i s (s <| done_ := true |>) c) by done. done. }
  rewrite <- H1. repeat (case_match; try done).
Qed.

Lemma queue_view i s c : store c !! i = Some s -> flow_view (queueStream i c) = flow_view c.
Proof.
  intros Hi. unfold queueStream. rewrite (get_at _ _ _ Hi). destruct (_ || _); [done|].
  by rewrite <- (flow_view_put i s (s <| queued := true |>) c).
Qed.

(** A change of a stream that its receiving side does not see, then the queue. *)
Lemma put_queue_view i s s' c : store c !! i = Some s -> fview s' = fview s -> flow_view (queueStream i (put i s' c)) = flow_view c.
Proof. intros Hi Hs. rewrite (queue_view i s') by apply store_put. by apply (flow_view_put i s). Qed.

Lemma put_finish_view i s s' c : store c !! i = Some s -> fview s' = fview s -> flow_view (maybeFinish i (put i s' c)) = flow_view c.
Proof. intros Hi Hs. rewrite (finish_view i s') by apply store_put. by apply (flow_view_put i s). Qed.

(** ** Receiving *)

Lemma core_marks cfg s : recv_core cfg s -> marks cfg s.
Proof. intros []. unfold marks. tauto. Qed.

Lemma consume_step i s c o :
  flow_at (half c) i s c -> recvData c <= 2 ^ 63 -> marks (config c) s -> 0 <= o <= recvHigh s ->
  (recvDone s = true -> 0 <= recvFin s) -> wide (config c) s ->
  (forall m p b, let s' := renew m p b (s <| recvRead := Z.max (recvRead s) o |>) in marks (config c) s' -> recv_core (config c) s') ->
  exists m p b, let c' := consumed i o c in
    flow c' /\ store c' !! i = Some (renew m p b (s <| recvRead := Z.max (recvRead s) o |>)) /\
    config c' = config c /\ recvData c' = recvData c.
Proof.
  intros Hf Hd Hm Ho Hdone Hw Hcore.
  destruct (consumed_flow _ _ _ _ _ Hf Hd Hm Ho Hdone Hw) as (m & p & b & Hf' & _ & Hm' & Hw' & Hc & Hdat).
  exists m, p, b. cbn zeta. split; [|split; [apply Hf'|done]].
  replace (half c) with (half (consumed i o c)) in Hf' by (unfold half; by rewrite Hc).
  eapply flow_close; [exact Hf'| |]; rewrite Hc; [by apply Hcore|done].
Qed.

(** Nobody has given up on the stream. *)
Definition reading (s : Stream) : Prop := recvDone s = false /\ peerReset s = false /\ stopSent s = false.

Lemma deliver_loop_flow fuel i s c :
  flow c -> recvData c <= 2 ^ 63 -> store c !! i = Some s -> reading s -> (length (segments (recv s)) < fuel)%nat ->
  exists c' s', deliver_loop fuel i c = Some c' /\ flow c' /\ store c' !! i = Some s' /\ reading s' /\
    recvHigh s' = recvHigh s /\ recvFin s' = recvFin s /\ config c' = config c /\ recvData c' = recvData c.
Proof.
  revert s c. induction fuel as [|fuel IH]; intros s c Hf Hd Hi Hr Hlen; [lia|]. cbn [deliver_loop].
  destruct (flow_open _ _ _ Hf Hi) as (Hat & Hcore & Hw). pose proof Hcore as [Hord Hhi Hfin Hsh _ _].
  destruct Hr as (Hr1 & Hr2 & Hr3). destruct (Hsh Hr3 Hr2) as [Hread Hshape].
  rewrite (get_at _ _ _ Hi). destruct (pop_shape (recvHigh s) (recv s)) as (chunk & r & -> & Hs' & Hle & Hck); [lia|done|].
  set (s1 := s <| recv := r |>).
  destruct chunk as [d|].
  - destruct Hck as [Hoff Hfew]. pose proof (len_nonneg d). unfold deliver. rewrite get_put.
    destruct (consume_step i s1 (put i s1 c) (offset r)) as (m & p & b & Hf2 & Hi2 & Hc2 & Hd2).
    + by apply (flow_at_put _ _ s). + done. + exact (core_marks _ _ Hcore). + cbn. lia. + cbn. congruence. + done.
    + cbn. intros m p b (M1 & M2 & M3). constructor; cbn in *; try done; try congruence. intros _ _. split; [lia|done].
    + cbn [recv]. change (recv s1) with r. set (c2 := consumed i (offset r) (put i s1 c)) in *.
      set (s2 := renew m p b _) in Hi2. destruct (IH s2 (emit (OnStreamData i d false) c2)) as (c' & s' & He & Hf' & Hi' & Hr' & E1 & E2 & E3 & E4).
      * by apply (flow_ext c2). * cbn. by rewrite Hd2. * exact Hi2. * done. * cbn. lia.
      * exists c', s'. split; [exact He|]. repeat (split; [done|]). cbn in *. rewrite Hc2 in E3. rewrite Hd2 in E4. done.
  - exists (put i s1 c), s1. split; [done|]. split; [|split; [apply store_put|done]].
    eapply (flow_close i s1); [by apply (flow_at_put _ _ s)| |done]. destruct Hcore. constructor; try done. cbn. intros _ _. split; [lia|done].
Qed.

(** The stream once the peer is known to have reached [e], with [fin] as its end. *)
Definition reached (e : Z) (fin : bool) (s : Stream) : Stream :=
  let s := if fin then s <| recvFin := i64 e |> else s in
  if recvHigh s <? e then s <| recvHigh := e |> else s.

Lemma reached_core cfg e fin s :
  recv_core cfg s -> wide cfg s -> 0 <= e <= maxVarint -> e <= recvMax s ->
  (0 <= recvFin s -> e <= recvFin s /\ (fin = true -> e = recvFin s)) -> (fin = true -> recvHigh s <= e) ->
  recv_core cfg (reached e fin s) /\ wide cfg (reached e fin s) /\ e <= recvHigh (reached e fin s) /\
  recvRead (reached e fin s) = recvRead s.
Proof.
  intros [Ho Hh Hf Hs Hd Hr] Hw He Hmax Hfin Hlow. unfold reached. rewrite i64_small by (unfold maxVarint in *; lia).
  assert (Hm : forall h, recvHigh s <= h -> shape (recvHigh s) (recv s) -> shape h (recv s)) by (intros; by eapply shape_mono).
  unfold wide in *. destruct fin; cbn; destruct (Z.ltb_spec (recvHigh s) e); cbn.
  all: split; [constructor; cbn in *; intros; try lia; try (destruct Hs; [done..|]; split; [done|]; auto); naive_solver lia|].
  all: split; [intros; cbn in *; naive_solver lia|cbn in *; naive_solver lia].
Qed.

(** Marks the stream done once everything up to its end has been handed on. *)
Lemma finish_flow i s c :
  flow c -> recvData c <= 2 ^ 63 -> store c !! i = Some s -> reading s -> recvFin s = offset (recv s) ->
  flow (maybeFinish i (deliver i [] true (put i (s <| recvDone := true |>) c))).
Proof.
  intros Hf Hd Hi (Hr1 & Hr2 & Hr3) Hfin. destruct (flow_open _ _ _ Hf Hi) as (Hat & Hcore & Hw).
  pose proof Hcore as [Hord Hhi Hfn Hsh _ _]. destruct (Hsh Hr3 Hr2) as [Hread Hshape].
  set (s1 := s <| recvDone := true |>). unfold deliver. rewrite get_put. change (recv s1) with (recv s).
  destruct (consume_step i s1 (put i s1 c) (offset (recv s))) as (m & p & b & Hf2 & Hi2 & _).
  - by apply (flow_at_put _ _ s). - done. - exact (core_marks _ _ Hcore). - cbn. lia. - cbn. lia. - done.
  - cbn. intros m p b (M1 & M2 & M3). constructor; cbn in *; try done; [|split; intros; lia|congruence].
    intros _ _. split; [lia|done].
  - eapply flow_ext; [symmetry; by eapply finish_view|]. eapply flow_ext; [|exact Hf2]. done.
Qed.

(** The data of a stream nobody reads any more. *)
Lemma discard_flow i s e c :
  flow_at (half c) i s c -> recvData c <= 2 ^ 63 -> recv_core (config c) s -> wide (config c) s -> 0 <= e <= recvHigh s ->
  recvDone s || peerReset s || stopSent s = true ->
  flow (discard i e c).
Proof.
  intros Hat Hd Hcore Hw He Hoff. pose proof Hcore as [Hord Hhi Hfin _ Hdone Hreset].
  destruct (consume_step i s c e) as (m & p & b & Hf & Hi & Hcfg & _); [done..|by apply core_marks|done| |done| |].
  { intros Ed. apply Hdone in Ed. lia. }
  { cbn. intros m p b (M1 & M2 & M3). constructor; cbn in *; try done.
    - intros E1 E2. rewrite E1, E2 in Hoff. destruct (recvDone s); [|done]. destruct (Hdone eq_refl) as [_ Hx].
      specialize (Hx E1). rewrite Z.max_l by lia. by apply (rc_shape _ _ Hcore).
    - intros Ed. destruct (Hdone Ed) as [? Hx]. split; [done|]. intros Es. specialize (Hx Es). lia.
    - intros Er. destruct (Hreset Er). split; [done|]. lia. }
  unfold discard. cbn zeta in *. rewrite (get_at _ _ _ Hi). set (c1 := consumed i e c) in *. set (s1 := renew m p b _) in *.
  destruct (stopSent s1 && (0 <=? recvFin s1) && negb (recvDone s1)) eqn:E; [|done].
  apply andb_true_iff in E as [[E1 E2%Z.leb_le]%andb_true_iff E3].
  eapply flow_ext; [symmetry; eapply finish_view, store_put|].
  destruct (flow_open _ _ _ Hf Hi) as (Hat1 & [] & Hw1).
  eapply (flow_close i (s1 <| recvDone := true |>)); [by apply (flow_at_put _ _ s1)| |done].
  constructor; cbn in *; try done; [intros _; split; [lia|congruence]].
Qed.

(** The data of a stream that is read: what it completes is handed on. *)
Lemma accept_flow i s off data c :
  flow_at (half c) i s c -> recvData c <= 2 ^ 63 -> recv_core (config c) s -> wide (config c) s -> reading s ->
  0 <= off -> off + len data <= recvHigh s ->
  exists c', accept i off data c = Some c' /\ flow c'.
Proof.
  intros Hat Hd Hcore Hw Hr Ho Hlen. unfold accept. rewrite (get_at i c s) by apply Hat. pose proof Hcore as [Hord Hhi Hfin Hsh _ _]. destruct (Hsh (proj2 (proj2 Hr)) (proj1 (proj2 Hr))) as [Hread Hshape].
  destruct (push_shape (recvHigh s) off data (recv s)) as (r & -> & Hs' & Hoff'); [done..|unfold maxVarint in *; lia|done|].
  set (s1 := s <| recv := r |>).
  destruct (deliver_loop_flow (S (length (segments r))) i s1 (put i s1 c)) as (c2 & s2 & -> & Hf2 & Hi2 & Hr2 & E1 & E2 & E3 & E4).
  - eapply (flow_close i s1); [by apply (flow_at_put _ _ s)| |done]. destruct Hcore. constructor; try done.
    cbn. intros _ _. split; [lia|done].
  - done. - apply store_put. - done. - cbn. lia.
  - rewrite (get_at _ _ _ Hi2). destruct (_ && _ && _) eqn:E; eexists; (split; [reflexivity|]); [|done].
    apply andb_true_iff in E as [[E5%Z.leb_le E6%Z.eqb_eq]%andb_true_iff _].
    rewrite u64_small in E6 by (unfold maxVarint in *; destruct Hfin; cbn in *; lia).
    apply finish_flow; [done|by rewrite E4|done|done|lia].
Qed.

Lemma onStreamFrame_flow i s off data fin c :
  flow c -> recvData c <= 2 ^ 62 -> store c !! i = Some s -> 0 <= off -> off + len data < 2 ^ 64 ->
  exists err c', onStreamFrame i off data fin c = Some (err, c') /\ (err = None -> flow c').
Proof.
  intros Hf Hd Hi Hoff Hlen. pose proof (len_nonneg data) as Hn. unfold onStreamFrame. rewrite (get_at _ _ _ Hi).
  rewrite u64_small by lia. set (e := off + len data) in *.
  destruct (flow_open _ _ _ Hf Hi) as (Hat & Hcore & Hw). pose proof (core_marks _ _ Hcore) as (M1 & M2 & M3).
  destruct (Z.ltb_spec maxVarint e) as [|Hmax]; [by eexists _, _|].
  destruct ((0 <=? recvFin s) && _) eqn:Efin; [by eexists _, _|].
  destruct (fin && (e <? recvHigh s)) eqn:Elow; [by eexists _, _|].
  set (s1 := if fin then s <| recvFin := i64 e |> else s). assert (Hmx : recvMax s1 = recvMax s) by (by destruct fin).
  destruct (recvMax s1 <? e) eqn:Emax; [by eexists _, _|]. apply Z.ltb_ge in Emax. rewrite Hmx in Emax.
  destruct (reached_core (config c) e fin s) as (Hc2 & Hw2 & He2 & Hr2); [done|done|..].
  { unfold e in *. lia. } { lia. }
  { intros Hp. apply andb_false_iff in Efin as [E|E]; [apply Z.leb_gt in E; lia|].
    destruct Hcore. rewrite (u64_small (recvFin s)) in E by (unfold maxVarint in *; lia).
    apply orb_false_iff in E as [E1%Z.ltb_ge E2]. split; [lia|]. intros ->. cbn in E2. apply negb_false_iff, Z.eqb_eq in E2. lia. }
  { intros ->. cbn in Elow. by apply Z.ltb_ge in Elow. }
  assert (Hat1 : flow_at (half c) i s1 (put i s1 c)) by (apply (flow_at_put _ _ s); [done|by destruct fin..]).
  destruct (reach i e (put i s1 c)) as [err c2] eqn:Er.
  assert (Hrr : recvRead s1 = recvRead s /\ recvHigh s1 = recvHigh s) by (by destruct fin).
  apply (reach_flow _ _ _ _ _ _ _ Hat1) in Er; [|done|lia|done]. cbn zeta in Er.
  change (if recvHigh s1 <? e then _ else s1) with (reached e fin s) in Er. set (s2 := reached e fin s) in *.
  destruct err as [err|]; [by eexists _, _|].
  assert (Hs2 : recvDone s2 = recvDone s1 /\ peerReset s2 = peerReset s1 /\ stopSent s2 = stopSent s1 /\ recv s2 = recv s1).
  { clear. unfold s2, s1, reached. destruct fin; cbn zeta; by destruct (_ <? e). }
  destruct Er as (Hat2 & Hd2 & Hcfg2). change (config (put i s1 c)) with (config c) in Hcfg2.
  replace (half c) with (half c2) in Hat2 by (unfold half; by rewrite Hcfg2). rewrite <- Hcfg2 in *.
  destruct Hs2 as (Q1 & Q2 & Q3 & Q4). rewrite <- Q1, <- Q2, <- Q3.
  destruct (recvDone s2 || peerReset s2 || stopSent s2) eqn:Eoff.
  - eexists _, _. split; [reflexivity|]. intros _. by apply (discard_flow i s2); [..|unfold e in *; lia|].
  - apply orb_false_iff in Eoff as [[E1 E2]%orb_false_iff E3].
    destruct (accept_flow i s2 off data c2) as (c' & -> & Hf'); [done..|]. by eexists _, _.
Qed.

Lemma onResetStream_flow i s code n c err c' :
  flow c -> recvData c <= 2 ^ 62 -> store c !! i = Some s -> 0 <= n <= maxVarint ->
  onResetStream i code n c = (err, c') -> err = None -> flow c'.
Proof.
  intros Hf Hd Hi Hn. unfold onResetStream. rewrite (get_at _ _ _ Hi).
  destruct (flow_open _ _ _ Hf Hi) as (Hat & Hcore & Hw). pose proof Hcore as [Hord Hhi Hfin Hsh Hdone Hreset].
  destruct (_ || _) eqn:Elow; [by intros [= <- <-]|].
  destruct (Z.ltb_spec (recvMax s) n); [by intros [= <- <-]|].
  apply orb_false_iff in Elow as [Efin Elow%Z.ltb_ge].
  assert (Hold : recvFin s = -1 \/ recvFin s = n).
  { destruct Hfin as [|Hfin]; [by left|right]. rewrite u64_small in Efin by (unfold maxVarint in *; lia).
    apply andb_false_iff in Efin as [E%Z.leb_gt|E%negb_false_iff%Z.eqb_eq]; lia. }
  destruct (reach i n c) as [e c1] eqn:Er. apply (reach_flow _ _ _ _ _ _ _ Hat) in Er; [|done|lia|lia].
  destruct e as [e|]; [by intros [= <- <-]|]. cbn zeta in Er.
  destruct Er as (Hat1 & Hd1 & Hc1). set (s1 := if recvHigh s <? n then _ else _) in *.
  assert (Hs1 : s1 = s <| recvHigh := n |>).
  { unfold s1. destruct (Z.ltb_spec (recvHigh s) n); [done|]. assert (n = recvHigh s) as -> by lia. by destruct s. }
  rewrite (get_at i c1 s1) by apply Hat1. set (s2 := s1 <| recvFin := i64 n |>).
  assert (Hfin2 : recvFin s2 = n) by (cbn; apply i64_small; unfold maxVarint in *; lia).
  assert (Hh2 : recvHigh s2 = n /\ recvRead s2 = recvRead s /\ recvMax s2 = recvMax s) by (unfold s2; by rewrite Hs1).
  destruct Hh2 as (Hh2 & Hr2 & Hm2).
  assert (Hat2 : flow_at (half (put i s2 c1)) i s2 (put i s2 c1)).
  { change (half (put i s2 c1)) with (half c1). replace (half c1) with (half c) by (unfold half; by rewrite Hc1). by apply (flow_at_put _ _ s1). }
  assert (Hs2 : recvDone s2 = recvDone s /\ peerReset s2 = peerReset s /\ stopSent s2 = stopSent s /\ recv s2 = recv s)
    by (unfold s2; by rewrite Hs1).
  clearbody s2. clear s1 Hs1 Hat1. set (c2 := put i s2 c1) in *. assert (Hc2 : config c2 = config c) by done.
  destruct (consumed_flow _ i s2 n c2 Hat2) as (m & p & b & Hat3 & Hm3 & Hmarks & Hw3 & Hc3 & _).
  { done. } { unfold marks. rewrite Hc2. lia. } { lia. } { lia. } { intros _ ?. lia. }
  set (c3 := consumed i n c2) in *. rewrite Z.max_r in * by lia. set (s3 := renew m p b _) in *.
  rewrite (get_at i c3 s3) by apply Hat3. destruct Hs2 as (Q1 & Q2 & Q3 & Q4). rewrite Hc2 in Hc3, Hmarks, Hw3.
  replace (half c2) with (half c3) in Hat3 by (unfold half; congruence).
  assert (Hall : recvHigh s3 = n /\ recvRead s3 = n /\ recvFin s3 = n) by done. destruct Hall as (A1 & A2 & A3).
  destruct (recvDone s3 || peerReset s3) eqn:Eover.
  - intros [= <- <-] _. apply (flow_close i s3); rewrite ?Hc3; [done| |done].
    constructor; [by destruct Hmarks as (? & ? & _)|by destruct Hmarks as (_ & _ & ?)|lia|..]; [|intros; lia|intros; lia].
    change (stopSent s3) with (stopSent s2). change (peerReset s3) with (peerReset s2).
    change (recvDone s3) with (recvDone s2) in Eover. change (peerReset s3) with (peerReset s2) in Eover. change (recv s3) with (recv s2).
    rewrite Q3, Q2, Q4. rewrite Q1, Q2 in Eover. intros E1 E2. rewrite E2, orb_false_r in Eover. destruct (Hdone Eover) as [D1 D2].
    specialize (D2 E1). destruct (Hsh E1 E2). split; [lia|]. rewrite A1. by replace n with (recvHigh s) by lia.
  - set (s4 := s3 <| peerReset := true |> <| streamDataPending := false |> <| recv := _ |>).
    set (c4 := if negb (stopSent s3) then _ else put i s4 c3). intros [= <- <-] _.
    assert (Hv4 : flow_view c4 = flow_view (put i s4 c3)) by (unfold c4; by destruct (negb (stopSent s3))).
    assert (Hi4 : store c4 !! i = Some s4) by (unfold c4; destruct (negb (stopSent s3)); apply store_put).
    eapply flow_ext; [symmetry; by eapply finish_view|]. eapply flow_ext; [symmetry; exact Hv4|].
    apply (flow_close i s4); [by apply (flow_at_put _ _ s3)| |change (wide (config c3) s3); by rewrite Hc3].
    change (config (put i s4 c3)) with (config c3). rewrite Hc3.
    assert (B : recvFin s4 = n /\ recvHigh s4 = n /\ recvRead s4 = n) by done.
    constructor; [by destruct Hmarks as (? & ? & _)|by destruct Hmarks as (_ & _ & ?)|lia|done|lia|lia].
Qed.
