(* ===== verification/QuicIds.v ===== *)
(** The identities of QUIC streams: an ID is never given to two streams, what
    the connection's map holds exists, and no operation on a stream changes
    another's identity. *)
From S2P Require Import Prelude.
From S2P Require Import Varint.
From S2P Require Import QuicBuffer.
From S2P Require Import QuicFrames.
From S2P Require Import QuicParams.
From S2P Require Import QuicPacket.
From S2P Require Import QuicRecovery.
From S2P Require Import QuicStream.
From S2P Require Import QuicFlow.

(** * Stream IDs *)

Lemma low_bits n k m : 0 <= n -> 0 <= k < 4 -> 0 <= m < 4 -> Z.land (4 * n + k) m = Z.land k m.
Proof.
  intros Hn Hk Hm. apply Z.bits_inj'. intros b Hb. rewrite !Z.land_spec. destruct (Z.le_gt_cases 2 b).
  - assert (Z.testbit m b = false) as ->; [|by rewrite !andb_false_r].
    destruct (decide (m = 0)) as [->|]; [apply Z.bits_0|]. apply Z.bits_above_log2; [lia|].
    enough (Z.log2 m < 2) by lia. apply Z.log2_lt_pow2; lia.
  - f_equal. rewrite <- (Z.mod_pow2_bits_low (4 * n + k) 2 b) by lia.
    replace ((4 * n + k) mod 2 ^ 2) with k; [done|]. change (2 ^ 2) with 4. rewrite Z.mul_comm, Z.add_comm, Z.mod_add by lia. symmetry. apply Z.mod_small. lia.
Qed.

Lemma make_id n k : 0 <= n < 2 ^ 60 -> 0 <= k < 4 -> Z.lor (u64 (Z.shiftl n 2)) k = 4 * n + k.
Proof. intros Hn Hk. rewrite Z.shiftl_mul_pow2, u64_small by lia. rewrite lor_add by lia. lia. Qed.

Lemma seq_id n k : 0 <= n -> 0 <= k < 4 -> Z.shiftr (4 * n + k) 2 = n.
Proof. intros. rewrite Z.shiftr_div_pow2 by lia. change (2 ^ 2) with 4. rewrite Z.mul_comm, Z.div_add_l, Z.div_small by lia. lia. Qed.

Lemma id_parts i : 0 <= i -> i = 4 * Z.shiftr i 2 + Z.land i 3.
Proof.
  intros. rewrite Z.shiftr_div_pow2 by lia. change 3 with (2 ^ 2 - 1). rewrite land_mask by lia.
  change (2 ^ 2) with 4. apply Z.div_mod. lia.
Qed.

Lemma low_two i : 0 <= Z.land i 3 < 4.
Proof. change 3 with (2 ^ 2 - 1). rewrite land_mask by lia. apply Z.mod_pos_bound. lia. Qed.

(** The kind of a stream is in its two low bits. *)
Lemma bidi_kind n k : 0 <= n -> 0 <= k < 4 -> isBidi (4 * n + k) = isBidi k.
Proof. intros. unfold isBidi. by rewrite low_bits. Qed.

Lemma local_kind c n k : 0 <= n -> 0 <= k < 4 -> local c (4 * n + k) = local c k.
Proof. intros. unfold local, isClientStream. by rewrite low_bits. Qed.

(** How many streams of the kind of [i] were opened. *)
Definition opened (c : Conn) (i : Z) : Z :=
  match local c i, isBidi i with
  | true, true => openedBidi c
  | true, false => openedUni c
  | false, true => peerOpenedBidi c
  | false, false => peerOpenedUni c
  end.

Lemma opened_kind c n k : 0 <= n -> 0 <= k < 4 -> opened c (4 * n + k) = opened c k.
Proof. intros. unfold opened. by rewrite local_kind, bidi_kind. Qed.

(** The IDs of the streams that were ever made. *)
Abbreviation made c := (base.dom (store c) : gset Z).

Record ids_ok (c : Conn) : Prop := {
  io_seq : forall i, i ∈ made c -> 0 <= i /\ Z.shiftr i 2 < opened c i;
  io_live : streams c ⊆ made c;
  io_counts : 0 <= openedBidi c <= peerMaxBidi c /\ 0 <= openedUni c <= peerMaxUni c /\ peerMaxBidi c <= 2 ^ 60 /\ peerMaxUni c <= 2 ^ 60 /\
              0 <= peerOpenedBidi c <= 2 ^ 60 /\ 0 <= peerOpenedUni c <= 2 ^ 60;
}.

Lemma fresh_id c n k :
  ids_ok c -> 0 <= n -> 0 <= k < 4 -> opened c k <= n -> store c !! (4 * n + k) = None.
Proof.
  intros [Hs _ _] Hn Hk Hle. apply not_elem_of_dom. intros Hin. destruct (Hs _ Hin) as [_ Hlt].
  rewrite seq_id, opened_kind in Hlt by lia. lia.
Qed.

(** * Opening streams *)

Lemma fresh_core i c : config_ok (config c) -> recv_core (config c) (fresh_stream i c) /\ wide (config c) (fresh_stream i c).
Proof.
  intros [Hw _]. unfold fresh_stream. split.
  - constructor; cbn; try done; [destruct (_ || _); lia|by left|]. intros _ _. split; [done|]. apply shape_init.
  - intros Hr _. cbn in *. rewrite Hr. enough (StreamReceiveWindow (config c) / 2 <= StreamReceiveWindow (config c)) by lia.
    apply Z.div_le_upper_bound; lia.
Qed.

Lemma newStream_flow i c : flow c -> store c !! i = None -> flow (newStream i c).
Proof.
  intros [] Hi. constructor; [done| |..|done].
  - intros j s Hj. cbn in Hj. apply lookup_insert_Some in Hj as [[<- <-]|[_ Hj]]; [exact (fresh_core i c fl_config)|exact (fl_streams j s Hj)].
  - cbn. rewrite msum_new by done. cbn. lia.
  - cbn. rewrite msum_new by done. cbn. lia.
Qed.

(** What opening the peer's streams leaves alone. *)
Definition rest_of (c : Conn) :=
  (isClient c, config c, peerParams c, (openedBidi c, openedUni c, peerMaxBidi c, peerMaxUni c), (peerOpenedBidi c, peerOpenedUni c),
   (recvData c, recvConsumed c, recvMaxData c, peerMaxData c, sentData c), sendQueue c, events c, closed c).

Lemma fresh_ext i c c' : rest_of c = rest_of c' -> fresh_stream i c = fresh_stream i c'.
Proof. intros [= H1 H2 H3 _]. unfold fresh_stream, local. by rewrite H1, H2, H3. Qed.

Lemma open_up_to_spec n o i c :
  let k := Z.land i 3 in
  0 <= o -> o + Z.of_nat n <= 2 ^ 60 -> flow c -> (forall m, o <= m -> store c !! (4 * m + k) = None) ->
  let c' := open_up_to n o i c in
  flow c' /\ rest_of c' = rest_of c /\
  (forall j s, store c' !! j = Some s <->
     store c !! j = Some s \/ exists m, j = 4 * m + k /\ o <= m < o + Z.of_nat n /\ s = fresh_stream j c) /\
  (forall j, j ∈ streams c' <-> j ∈ streams c \/ exists m, j = 4 * m + k /\ o <= m < o + Z.of_nat n).
Proof.
  intros k Ho Hn Hf Hnone. pose proof (low_two i) as Hk. fold k in Hk.
  revert o c Ho Hn Hf Hnone. induction n as [|n IH]; intros o c Ho Hn Hf Hnone; cbn [open_up_to].
  { split_and!; [done|done|..]; intros; (split; [by left|intros [?|(? & ? & ? & ?)]; [done|lia]]). }
  fold k. rewrite make_id by lia. set (c1 := newStream (4 * o + k) c).
  assert (Hr1 : rest_of c1 = rest_of c) by done.
  destruct (IH (o + 1) c1) as (Hf' & Hr' & Hs' & Hl').
  { lia. } { lia. } { apply newStream_flow; [done|]. apply Hnone. lia. }
  { intros m Hm. cbn. rewrite lookup_insert_ne by lia. apply Hnone. lia. }
  split_and!; [done|by rewrite Hr'|..].
  - intros j s. rewrite Hs'. cbn [c1 newStream put store change]. rewrite lookup_insert_Some. split.
    + intros [[[<- <-]|[_ ?]]|(m & -> & Hm & ->)]; [right; exists o; split_and!; [done|lia|lia|done]|by left|].
      right. exists m. split_and!; [done|lia|lia|]. by apply fresh_ext.
    + intros [Hj|(m & -> & Hm & ->)].
      { left. right. split; [|done]. intros <-. rewrite Hnone in Hj; [done|lia]. }
      destruct (decide (m = o)) as [->|]; [by left; left|]. right. exists m. split_and!; [done|lia|lia|]. symmetry. by apply fresh_ext.
  - intros j. rewrite Hl'. cbn [c1 newStream put streams change]. rewrite elem_of_union, elem_of_singleton. split.
    + intros [[->|?]|(m & -> & Hm)]; [right; exists o; split; [done|lia]|by left|right; exists m; split; [done|lia]].
    + intros [?|(m & -> & Hm)]; [by left; right|]. destruct (decide (m = o)) as [->|]; [by left; left|].
      right. exists m. split; [done|lia].
Qed.

(** [c'] is [c] with streams added, all of them new. *)
Record extends (c c' : Conn) : Prop := {
  ex_rest : isClient c' = isClient c /\ config c' = config c /\ peerParams c' = peerParams c /\ closed c' = closed c /\
            peerMaxData c' = peerMaxData c /\ sentData c' = sentData c /\ recvData c' = recvData c /\
            sendQueue c' = sendQueue c /\ events c' = events c;
  ex_old : forall j s, store c !! j = Some s -> store c' !! j = Some s;
  ex_new : forall j s, store c' !! j = Some s -> store c !! j = Some s \/ (store c !! j = None /\ s = fresh_stream j c);
  ex_live : forall j, j ∈ streams c' <-> j ∈ streams c \/ (store c !! j = None /\ is_Some (store c' !! j));
}.

Lemma extends_refl c : extends c c.
Proof. constructor; [done|done|by left|]. intros j. split; [by left|]. intros [?|[E [s Hs]]]; [done|congruence]. Qed.

Lemma newStream_extends i c c0 :
  store c !! i = None -> store c0 = store c -> streams c0 = streams c -> fresh_stream i c0 = fresh_stream i c ->
  (isClient c0 = isClient c /\ config c0 = config c /\ peerParams c0 = peerParams c /\ closed c0 = closed c /\
    peerMaxData c0 = peerMaxData c /\ sentData c0 = sentData c /\ recvData c0 = recvData c /\
    sendQueue c0 = sendQueue c /\ events c0 = events c) ->
  extends c (newStream i c0).
Proof.
  intros Hi Hs Hl Hf Hr. constructor; [exact Hr|..]; cbn; rewrite ?Hs, ?Hl, ?Hf.
  - intros j s Hj. rewrite lookup_insert_ne; [done|congruence].
  - intros j s [[<- <-]|[_ ?]]%lookup_insert_Some; [by right|by left].
  - intros j. rewrite elem_of_union, elem_of_singleton. split.
    + intros [->|?]; [right|by left]. split; [done|]. by rewrite lookup_insert_eq.
    + intros [?|[E [s Hj]]]; [by right|left]. apply lookup_insert_Some in Hj as [[-> _]|[_ ?]]; [done|congruence].
Qed.

Lemma newStream_ids j c c0 :
  ids_ok c -> store c0 = store c -> streams c0 = streams c -> (forall x, opened c x <= opened c0 x) ->
  0 <= openedBidi c0 <= peerMaxBidi c0 /\ 0 <= openedUni c0 <= peerMaxUni c0 /\ peerMaxBidi c0 <= 2 ^ 60 /\ peerMaxUni c0 <= 2 ^ 60 /\
    0 <= peerOpenedBidi c0 <= 2 ^ 60 /\ 0 <= peerOpenedUni c0 <= 2 ^ 60 ->
  0 <= j -> Z.shiftr j 2 < opened c0 j -> ids_ok (newStream j c0).
Proof.
  intros [Hseq Hlive _] Hst Hstr Hmono Hcnt Hj Hlt. constructor; cbn; rewrite ?Hst, ?Hstr; [| |exact Hcnt].
  - intros x. rewrite dom_insert_L, elem_of_union, elem_of_singleton. intros [->|Hx]; [done|].
    destruct (Hseq x Hx). split; [done|]. eapply Z.lt_le_trans; [done|]. exact (Hmono x).
  - rewrite dom_insert_L. set_solver.
Qed.

(** The next stream of a kind of this side's own. *)
Lemma open_next n k c c0 :
  flow c0 -> ids_ok c -> store c0 = store c -> streams c0 = streams c -> isClient c0 = isClient c -> config c0 = config c ->
  peerParams c0 = peerParams c -> closed c0 = closed c -> peerMaxData c0 = peerMaxData c -> sentData c0 = sentData c ->
  recvData c0 = recvData c -> sendQueue c0 = sendQueue c -> events c0 = events c ->
  0 <= k < 4 -> 0 <= n -> opened c k = n -> opened c0 k = n + 1 -> (forall x, opened c x <= opened c0 x) ->
  0 <= openedBidi c0 <= peerMaxBidi c0 /\ 0 <= openedUni c0 <= peerMaxUni c0 /\ peerMaxBidi c0 <= 2 ^ 60 /\ peerMaxUni c0 <= 2 ^ 60 /\
    0 <= peerOpenedBidi c0 <= 2 ^ 60 /\ 0 <= peerOpenedUni c0 <= 2 ^ 60 ->
  flow (newStream (4 * n + k) c0) /\ ids_ok (newStream (4 * n + k) c0) /\ extends c (newStream (4 * n + k) c0).
Proof.
  intros Hf Hi Hst Hstr H1 H2 H3 ? ? ? ? ? ? Hk Hn Ho Ho' Hmono Hcnt.
  assert (Hnone : store c !! (4 * n + k) = None) by (apply fresh_id; [done|lia|done|lia]).
  split; [apply newStream_flow; [done|by rewrite Hst]|]. split.
  - apply (newStream_ids _ c); [done..|lia|]. rewrite seq_id, opened_kind by lia. lia.
  - apply newStream_extends; [done..| |done]. unfold fresh_stream, local. by rewrite H1, H2, H3.
Qed.

Lemma openStream_spec bidi c r c' :
  flow c -> ids_ok c -> closed c = false -> openStream bidi c = (r, c') -> flow c' /\ ids_ok c' /\ extends c c'.
Proof.
  intros Hf Hi Hcl. unfold openStream. rewrite Hcl. pose proof (extends_refl c).
  destruct (negb (handshakeComplete c)); [by intros [= _ <-]|]. pose proof (io_counts _ Hi) as Hcnt.
  destruct bidi.
  - destruct (Z.leb_spec (peerMaxBidi c) (openedBidi c)); [by intros [= _ <-]|]. intros [= _ <-].
    rewrite (u64_small (openedBidi c + 1)) by lia. set (c0 := c <| openedBidi := _ |>).
    replace (if isClient c then _ else _) with (4 * openedBidi c + (if isClient c then 0 else 1)).
    2: { destruct (isClient c); [rewrite <- (make_id _ 0) by lia; by rewrite Z.lor_0_r|by rewrite make_id by lia]. }
    apply open_next; try done; [by apply (flow_ext c)|destruct (isClient c); lia|lia|..|cbn; lia].
    + unfold opened, local. by destruct (isClient c).
    + unfold opened, local. by destruct (isClient c) eqn:E; cbn; rewrite E.
    + intros x. unfold opened, local. cbn. repeat case_match; cbn; lia.
  - destruct (Z.leb_spec (peerMaxUni c) (openedUni c)); [by intros [= _ <-]|]. intros [= _ <-].
    rewrite (u64_small (openedUni c + 1)) by lia. set (c0 := c <| openedUni := _ |>).
    replace (if isClient c then _ else _) with (4 * openedUni c + (if isClient c then 2 else 3)).
    2: { destruct (isClient c); [by rewrite make_id by lia|]. rewrite <- Z.lor_assoc. change (Z.lor 2 1) with 3. by rewrite make_id by lia. }
    apply open_next; try done; [by apply (flow_ext c)|destruct (isClient c); lia|lia|..|cbn; lia].
    + unfold opened, local. by destruct (isClient c).
    + unfold opened, local. by destruct (isClient c) eqn:E; cbn; rewrite E.
    + intros x. unfold opened, local. cbn. repeat case_match; cbn; lia.
Qed.

Lemma peerStream_spec i side c r c' :
  flow c -> ids_ok c -> 0 <= i <= maxVarint -> peerStream i side c = (r, c') ->
  flow c' /\ ids_ok c' /\ extends c c' /\ (forall j, r = Ok (Some j) -> j = i /\ i ∈ streams c').
Proof.
  intros Hf Hi Hr. unfold peerStream. pose proof (extends_refl c).
  destruct (_ && _); [by intros [= <- <-]|].
  destruct (decide (i ∈ streams c)); [intros [= <- <-]; split_and!; [done..|by intros ? [= <-]]|].
  set (o := if isBidi i then peerOpenedBidi c else peerOpenedUni c).
  destruct (local c i) eqn:El; [destruct (_ <=? _); by intros [= <- <-]|].
  destruct (Z.ltb_spec (Z.shiftr i 2) o) as [|Ho]; [by intros [= <- <-]|].
  destruct (_ <=? Z.shiftr i 2); [by intros [= <- <-]|]. intros [= <- <-].
  set (k := Z.land i 3). pose proof (low_two i) as Hk. pose proof (id_parts i ltac:(lia)) as Hparts. fold k in Hk, Hparts.
  set (q := Z.shiftr i 2) in *. pose proof (io_counts _ Hi) as Hcnt. unfold maxVarint in Hr.
  assert (Ho0 : 0 <= o <= 2 ^ 60) by (unfold o; destruct (isBidi i); lia).
  assert (Hko : opened c k = o /\ local c k = false /\ isBidi k = isBidi i).
  { assert (Hb : isBidi i = isBidi k) by (rewrite Hparts at 1; apply bidi_kind; lia).
    assert (Hl : local c k = false) by (rewrite <- El; rewrite Hparts at 1; symmetry; apply local_kind; lia).
    unfold opened, o. rewrite Hl, Hb. by destruct (isBidi k). }
  destruct Hko as (Hko & Hkl & Hkb).
  destruct (open_up_to_spec (Z.to_nat (q + 1 - o)) o i c) as (Hf1 & Hr1 & Hs1 & Hl1); [lia|lia|done|..].
  { intros m Hm. fold k. apply fresh_id; [done|lia|done|lia]. }
  fold k in Hs1, Hl1. set (c1 := open_up_to _ o i c) in *. rewrite Z2Nat.id in Hs1, Hl1 by lia.
  set (c2 := if isBidi i then _ else _).
  assert (Hc2 : store c2 = store c1 /\ streams c2 = streams c1 /\ flow_view c2 = flow_view c1 /\
    rest_of c2 = rest_of (if isBidi i then c <| peerOpenedBidi := q + 1 |> else c <| peerOpenedUni := q + 1 |>)).
  { injection Hr1 as. unfold c2, rest_of. destruct (isBidi i); cbn; split_and!; try done; congruence. }
  destruct Hc2 as (Hst2 & Hstr2 & Hv2 & Hrest2).
  assert (Hcl : isClient c2 = isClient c) by (apply (f_equal (fun x => fst (fst (fst (fst (fst (fst (fst (fst x))))))))) in Hrest2; by destruct (isBidi i)).
  assert (Hmono : forall x, opened c x <= opened c2 x).
  { intros x. injection Hrest2 as. unfold opened, local. rewrite Hcl. unfold o in *. destruct (isBidi i); cbn in *; repeat case_match; lia. }
  assert (Hok : opened c2 k = q + 1).
  { injection Hrest2 as. unfold opened, local in *. rewrite Hcl, Hkl, Hkb. by destruct (isBidi i). }
  assert (Hn : forall m, o <= m -> store c !! (4 * m + k) = None) by (intros; apply fresh_id; [done|lia|done|lia]).
  split; [by apply (flow_ext c1)|]. split; [|split].
  - constructor.
    + intros j [s Hj]%elem_of_dom. rewrite Hst2 in Hj. apply Hs1 in Hj as [Hj|(m & -> & Hm & _)].
      * destruct (io_seq _ Hi j) as [? ?]; [by apply elem_of_dom_2 in Hj|]. split; [done|]. specialize (Hmono j). lia.
      * split; [lia|]. rewrite seq_id, opened_kind by lia. lia.
    + rewrite Hstr2, Hst2. intros j [Hj|(m & -> & Hm)]%Hl1; apply elem_of_dom.
      * apply (io_live _ Hi), elem_of_dom in Hj as [s Hs]. exists s. apply Hs1. by left.
      * eexists. apply Hs1. right. by exists m.
    + injection Hrest2 as. destruct (isBidi i); cbn in *; lia.
  - constructor.
    + injection Hrest2 as. destruct (isBidi i); cbn in *; split_and!; congruence.
    + intros j s Hj. rewrite Hst2. apply Hs1. by left.
    + intros j s. rewrite Hst2. intros [?|(m & -> & Hm & ->)]%Hs1; [by left|right]. split; [apply Hn; lia|done].
    + intros j. rewrite Hstr2, Hl1, Hst2. split; intros [?|Hx]; [by left| |by left|]; right.
      * destruct Hx as (m & -> & Hm). split; [apply Hn; lia|]. eexists. apply Hs1. right. by exists m.
      * destruct Hx as [Hx [s [?|(m & -> & Hm & _)]%Hs1]]; [congruence|by exists m].
  - intros j [= <-]. split; [done|]. rewrite Hstr2. apply Hl1. right. exists q. split; [done|lia].
Qed.

(** * Operations on the streams there are

    They make no stream, and open none. *)
Record keeps (c c' : Conn) : Prop := {
  ks_made : made c' = made c;
  ks_live : streams c' ⊆ streams c;
  ks_counts : (isClient c', openedBidi c', openedUni c', peerOpenedBidi c', peerOpenedUni c', peerMaxBidi c', peerMaxUni c') =
              (isClient c, openedBidi c, openedUni c, peerOpenedBidi c, peerOpenedUni c, peerMaxBidi c, peerMaxUni c);
}.

#[export] Instance keeps_preorder : PreOrder keeps.
Proof.
  split.
  - by constructor.
  - intros a b c [A1 A2 A3] [B1 B2 B3]. constructor; [congruence|set_solver|congruence].
Qed.

Lemma ids_keep c c' : keeps c c' -> ids_ok c -> ids_ok c'.
Proof.
  intros [Hm Hl Hc] [Hs Hlv Hn]. injection Hc as C1 C2 C3 C4 C5 C6 C7. constructor.
  - intros i. rewrite Hm. intros Hi. destruct (Hs i Hi). split; [done|]. unfold opened, local in *. by rewrite C1, C2, C3, C4, C5.
  - rewrite Hm. set_solver.
  - congruence.
Qed.

Lemma keeps_put i s c : is_Some (store c !! i) -> keeps c (put i s c).
Proof.
  intros Hi. constructor; [|done..]. cbn. rewrite dom_insert_L. apply elem_of_dom in Hi. set_solver.
Qed.

Lemma keeps_made c c' i : keeps c c' -> is_Some (store c !! i) -> is_Some (store c' !! i).
Proof. intros [Hm _ _]. rewrite <- !elem_of_dom. by rewrite Hm. Qed.

Lemma queue_keeps i c : is_Some (store c !! i) -> keeps c (queueStream i c).
Proof.
  intros Hi. unfold queueStream. destruct (_ || _); [done|]. etrans; [by apply (keeps_put i)|]. by constructor.
Qed.

Lemma terminate_keeps e c : keeps c (terminateLocked e c).
Proof.
  unfold terminateLocked. destruct (closed c); [done|]. constructor; [|set_solver|done].
  cbn. apply set_eq. intros i. rewrite !elem_of_dom. unfold mark_done. rewrite map_lookup_imap. by destruct (store c !! i).
Qed.

Lemma close_keeps e c : keeps c (closeLocked e c).
Proof. unfold closeLocked. destruct (closed c); [done|]. etrans; [|apply terminate_keeps]. by constructor. Qed.

Lemma closeIfDone_keeps c : keeps c (closeIfDoneLocked c).
Proof. unfold closeIfDoneLocked. repeat (case_match; try done). apply close_keeps. Qed.

Lemma finish_keeps i c : is_Some (store c !! i) -> keeps c (maybeFinish i c).
Proof.
  intros Hi. unfold maybeFinish. destruct (_ || _ || _); [done|]. set (c1 := closeIfDoneLocked _).
  assert (H1 : keeps c c1).
  { etrans; [by apply (keeps_put i)|]. etrans; [|apply closeIfDone_keeps]. constructor; [done|set_solver|done]. }
  etrans; [exact H1|]. repeat (case_match; try done); by constructor.
Qed.

Lemma put_queue_keeps i s c : is_Some (store c !! i) -> keeps c (queueStream i (put i s c)).
Proof. intros Hi. etrans; [by apply (keeps_put i s)|]. apply queue_keeps. by eexists; apply store_put. Qed.

Lemma put_finish_keeps i s c : is_Some (store c !! i) -> keeps c (maybeFinish i (put i s c)).
Proof. intros Hi. etrans; [by apply (keeps_put i s)|]. apply finish_keeps. by eexists; apply store_put. Qed.

Lemma consumed_keeps i o c : is_Some (store c !! i) -> keeps c (consumed i o c).
Proof.
  intros Hi. unfold consumed.
  assert (H1 : keeps c (read_to i o c)).
  { unfold read_to. destruct (_ <? _); [|done]. etrans; [by apply (keeps_put i)|]. by constructor. }
  assert (H2 : keeps (read_to i o c) (widen_stream i o (read_to i o c))).
  { unfold widen_stream. destruct (_ && _ && _); [|done]. apply put_queue_keeps. by eapply keeps_made. }
  etrans; [exact H1|]. etrans; [exact H2|]. unfold widen_conn. destruct (_ <? _); by constructor.
Qed.

Lemma deliver_keeps i d fin c : is_Some (store c !! i) -> keeps c (deliver i d fin c).
Proof. intros Hi. unfold deliver. etrans; [by apply (consumed_keeps i)|]. by constructor. Qed.

Lemma deliver_loop_keeps fuel i c c' : is_Some (store c !! i) -> deliver_loop fuel i c = Some c' -> keeps c c'.
Proof.
  revert c. induction fuel as [|fuel IH]; intros c Hi; cbn [deliver_loop]; [done|].
  destruct (pop _) as [[[d|] r]|]; [|intros [= <-]; by apply keeps_put|done]. intros H.
  assert (H1 : keeps c (deliver i d false (put i (get i c <| recv := r |>) c))).
  { etrans; [by apply (keeps_put i)|]. apply deliver_keeps. by eexists; apply store_put. }
  etrans; [exact H1|]. apply (IH _ (keeps_made _ _ _ H1 Hi) H).
Qed.

Lemma reach_keeps i e c err c' : is_Some (store c !! i) -> reach i e c = (err, c') -> keeps c c'.
Proof.
  intros Hi. unfold reach. destruct (_ <? _); [|by intros [= <- <-]].
  destruct (_ <? _); intros [= <- <-]; (etrans; [by apply (keeps_put i)|]; by constructor).
Qed.

Lemma onStreamFrame_keeps i off data fin c err c' :
  is_Some (store c !! i) -> onStreamFrame i off data fin c = Some (err, c') -> keeps c c'.
Proof.
  intros Hi. unfold onStreamFrame. do 3 (case_match; [by intros [= <- <-]|]).
  set (s1 := if fin then _ else _). assert (K1 : keeps c (put i s1 c)) by by apply keeps_put.
  pose proof (keeps_made _ _ _ K1 Hi) as Hi1. destruct (recvMax s1 <? _); [by intros [= <- <-]|].
  destruct (reach _ _ _) as [e c2] eqn:Er. apply reach_keeps in Er as K2; [|done]. pose proof (keeps_made _ _ _ K2 Hi1) as Hi2.
  destruct e; [intros [= <- <-]; by etrans|]. case_match.
  - intros [= <- <-]. etrans; [exact K1|]. etrans; [exact K2|]. unfold discard.
    etrans; [by apply (consumed_keeps i (u64 (off + len data)))|]. destruct (_ && _ && _); [|done]. apply put_finish_keeps.
    eapply keeps_made; [by apply consumed_keeps|done].
  - unfold accept. destruct (push _ _ _); [|done]. destruct (deliver_loop _ _ _) as [c3|] eqn:Ed; [|done].
    assert (K3 : keeps c2 (put i (get i c2 <| recv := r |>) c2)) by by apply keeps_put. pose proof (keeps_made _ _ _ K3 Hi2) as Hi3.
    apply deliver_loop_keeps in Ed; [|done]. pose proof (keeps_made _ _ _ Ed Hi3) as Hi4.
    assert (K4 : keeps c c3) by (etrans; [exact K1|]; etrans; [exact K2|]; by etrans).
    destruct ((0 <=? recvFin (get i c3)) && _ && _); intros [= <- <-]; [|done]. etrans; [exact K4|]. etrans; [by apply (keeps_put i)|].
    assert (Hi5 : is_Some (store (put i (get i c3 <| recvDone := true |>) c3) !! i)) by by eexists; apply store_put.
    etrans; [by apply (deliver_keeps i [] true)|]. apply finish_keeps. eapply keeps_made; [by apply deliver_keeps|done].
Qed.

Lemma onResetStream_keeps i code n c err c' : is_Some (store c !! i) -> onResetStream i code n c = (err, c') -> keeps c c'.
Proof.
  intros Hi. unfold onResetStream. do 2 (case_match; [by intros [= <- <-]|]).
  destruct (reach _ _ _) as [e c1] eqn:Er. apply reach_keeps in Er as K1; [|done]. pose proof (keeps_made _ _ _ K1 Hi) as Hi1.
  destruct e; [by intros [= <- <-]|]. set (c2 := put i _ c1).
  assert (K2 : keeps c1 c2) by by apply keeps_put. pose proof (keeps_made _ _ _ K2 Hi1) as Hi2.
  pose proof (consumed_keeps i n c2 Hi2) as K3. pose proof (keeps_made _ _ _ K3 Hi2) as Hi3. set (c3 := consumed i n c2) in *.
  assert (K4 : keeps c c3) by (etrans; [exact K1|]; by etrans).
  clearbody c3. destruct (_ || peerReset _); intros [= <- <-]; [exact K4|]. etrans; [exact K4|].
  destruct (negb (stopSent (get i c3))); [|by apply put_finish_keeps]. etrans; [by apply (keeps_put i)|]. set (c4 := put i _ c3).
  etrans; [|apply finish_keeps; by exists (get i c4); unfold c4; rewrite get_put; apply lookup_insert_eq]. by constructor.
Qed.

(** ** Operations of the sending side *)

Definition quiet (c c' : Conn) : Prop := flow_view c' = flow_view c /\ keeps c c'.

#[export] Instance quiet_preorder : PreOrder quiet.
Proof. split; [by split|]. intros a b c [A1 A2] [B1 B2]. split; [congruence|by etrans]. Qed.

Lemma quiet_made c c' i : quiet c c' -> is_Some (store c !! i) -> is_Some (store c' !! i).
Proof. intros [_ K]. by apply keeps_made. Qed.

Lemma quiet_put i s c : is_Some (store c !! i) -> fview s = fview (get i c) -> quiet c (put i s c).
Proof.
  intros [t Ht] Hs. split; [|by apply keeps_put]. apply (flow_view_put i t); [done|]. by rewrite Hs, (get_at _ _ _ Ht).
Qed.

Lemma quiet_queue i c : is_Some (store c !! i) -> quiet c (queueStream i c).
Proof. intros Hi. split; [|by apply queue_keeps]. destruct Hi as [s Hs]. by eapply queue_view. Qed.

Lemma quiet_finish i c : is_Some (store c !! i) -> quiet c (maybeFinish i c).
Proof. intros Hi. split; [|by apply finish_keeps]. destruct Hi as [s Hs]. by eapply finish_view. Qed.

Lemma quiet_put_queue i s c : is_Some (store c !! i) -> fview s = fview (get i c) -> quiet c (queueStream i (put i s c)).
Proof. intros Hi Hs. etrans; [by apply (quiet_put i s)|]. apply quiet_queue. by eexists; apply store_put. Qed.

Lemma quiet_put_finish i s c : is_Some (store c !! i) -> fview s = fview (get i c) -> quiet c (maybeFinish i (put i s c)).
Proof. intros Hi Hs. etrans; [by apply (quiet_put i s)|]. apply quiet_finish. by eexists; apply store_put. Qed.

Lemma quiet_close e c : quiet c (closeLocked e c).
Proof. split; [apply close_view|apply close_keeps]. Qed.

Lemma quiet_terminate e c : quiet c (terminateLocked e c).
Proof. split; [apply terminate_view|apply terminate_keeps]. Qed.

Lemma quiet_closeIfDone c : quiet c (closeIfDoneLocked c).
Proof. split; [apply closeIfDone_view|apply closeIfDone_keeps]. Qed.

Lemma quiet_emit e c : quiet c (emit e c).
Proof. by split. Qed.

#[export] Hint Resolve quiet_queue quiet_finish quiet_put quiet_put_queue quiet_put_finish quiet_close quiet_terminate quiet_closeIfDone quiet_emit : fib.

Lemma CloseWhenDone_quiet e c : quiet c (CloseWhenDone e c).
Proof. unfold CloseWhenDone. repeat (case_match; try done). etrans; [|apply quiet_closeIfDone]. by split. Qed.

Lemma writeLocked_quiet i p fin c : is_Some (store c !! i) -> quiet c (writeLocked i p fin c).2.
Proof. intros Hi. unfold writeLocked. repeat (case_match; try done). all: by apply quiet_put_queue. Qed.

Lemma resetLocked_quiet i code c : is_Some (store c !! i) -> quiet c (resetLocked i code c).
Proof. intros Hi. unfold resetLocked. case_match; [done|]. by apply quiet_put_queue. Qed.

Lemma onStopSending_quiet i code c : is_Some (store c !! i) -> quiet c (onStopSending i code c).
Proof. intros Hi. unfold onStopSending. case_match; [done|]. etrans; [by apply (resetLocked_quiet i code)|apply quiet_emit]. Qed.

Lemma onDataAcked_quiet i o n fin c c' : is_Some (store c !! i) -> onDataAcked i o n fin c = Some c' -> quiet c c'.
Proof.
  intros Hi. unfold onDataAcked. case_match; [by intros [= <-]|]. destruct (onAck _ _ _); [|done]. intros [= <-].
  apply quiet_put_finish; [done|]. by destruct fin.
Qed.

Lemma onDataLost_quiet i o n fin c : is_Some (store c !! i) -> quiet c (onDataLost i o n fin c).
Proof. intros Hi. unfold onDataLost. case_match; [done|]. apply quiet_put_queue; [done|]. by case_match. Qed.

Lemma onResetAcked_quiet i c : is_Some (store c !! i) -> quiet c (onResetAcked i c).
Proof. intros Hi. by apply quiet_put_finish. Qed.

Lemma onResetLost_quiet i c : is_Some (store c !! i) -> quiet c (onResetLost i c).
Proof. intros Hi. unfold onResetLost. case_match; [|done]. by apply quiet_put_queue. Qed.

Lemma onMaxDataLost_quiet i c : is_Some (store c !! i) -> quiet c (onMaxDataLost i c).
Proof. intros Hi. unfold onMaxDataLost. case_match; [|done]. by apply quiet_put_queue. Qed.

Lemma onStopSendingLost_quiet i c : is_Some (store c !! i) -> quiet c (onStopSendingLost i c).
Proof. intros Hi. unfold onStopSendingLost. case_match; [|done]. by apply quiet_put_queue. Qed.

Lemma sendable_quiet i c : is_Some (store c !! i) -> quiet c (sendable i c).2.
Proof.
  intros Hi. unfold sendable. do 2 (case_match; [done|]). destruct (hasLost _) as [l b]. repeat (case_match; try done); by apply quiet_put.
Qed.

Lemma appendStreamFrame_quiet i b o d p c : is_Some (store c !! i) -> quiet c (appendStreamFrame i b o d p c).2.
Proof. intros Hi. unfold appendStreamFrame. cbn. case_match; [by apply quiet_put|done]. Qed.

Lemma appendPending_quiet i b max p c : is_Some (store c !! i) -> quiet c (appendPending i b max p c).2.
Proof. intros Hi. unfold appendPending. repeat (case_match; simplify_eq; cbn); by apply quiet_put. Qed.

(** [quiet] steps in a row, each on a stream that exists. *)
Ltac quiet_next H := etrans; [exact H|].

Lemma lost_loop_quiet fuel i b max p c b' p' c' full :
  is_Some (store c !! i) -> lost_loop fuel i b max p c = Some (b', p', c', full) -> quiet c c'.
Proof.
  revert b p c. induction fuel as [|fuel IH]; intros b p c Hi; cbn [lost_loop];
    destruct (hasLost (send (get i c))) as [l sb] eqn:El;
    (assert (Q1 : quiet c (put i (get i c <| send := sb |>) c)) by (by apply quiet_put));
    (destruct (negb l); [by intros [= <- <- <- <-]|]); [done|].
  destruct (QuicBuffer.lost sb); [done|]. destruct (_ <=? 0); [by intros [= <- <- <- <-]|].
  destruct (popLost _ sb) as [[[o data] sb']|]; [|done]. set (c1 := put i _ _).
  assert (Q2 : quiet c c1).
  { unfold c1. rewrite put_put. by apply quiet_put. }
  pose proof (quiet_made _ _ _ Q2 Hi) as Hi2. pose proof (appendStreamFrame_quiet i b o data p c1 Hi2) as Q3.
  destruct (appendStreamFrame i b o data p c1) as [[b2 p2] c2]. cbn in Q3. intros H.
  quiet_next Q2. quiet_next Q3. apply (IH _ _ _ (quiet_made _ _ _ Q3 Hi2) H).
Qed.

Lemma new_loop_quiet fuel i b max p c b' p' c' full :
  is_Some (store c !! i) -> new_loop fuel i b max p c = Some (b', p', c', full) -> quiet c c'.
Proof.
  revert b p c. induction fuel as [|fuel IH]; intros b p c Hi; cbn [new_loop];
    (destruct (_ <=? next _); [by intros [= <- <- <- <-]|]); [done|].
  destruct (_ || _); [by intros [= <- <- <- <-]|].
  destruct (popNew _ _) as [[[o data] sb']|]; [|done]. set (c1 := put i _ _ <| sentData := _ |>).
  assert (Q2 : quiet c c1).
  { etrans; [by apply (quiet_put i (get i c <| send := sb' |>))|]. by split. }
  pose proof (quiet_made _ _ _ Q2 Hi) as Hi2. pose proof (appendStreamFrame_quiet i b o data p c1 Hi2) as Q3.
  destruct (appendStreamFrame i b o data p c1) as [[b2 p2] c2]. cbn in Q3. intros H.
  quiet_next Q2. quiet_next Q3. apply (IH _ _ _ (quiet_made _ _ _ Q3 Hi2) H).
Qed.

Lemma appendStreamFrames_quiet i b max p c b' p' c' :
  is_Some (store c !! i) -> appendStreamFrames i b max p c = Some (b', p', c') -> quiet c c'.
Proof.
  intros Hi. unfold appendStreamFrames. pose proof (appendPending_quiet i b max p c Hi) as Q1.
  destruct (appendPending i b max p c) as [[b1 p1] c1]. cbn in Q1. pose proof (quiet_made _ _ _ Q1 Hi) as Hi1.
  destruct (_ || _); [by intros [= <- <- <-]|].
  destruct (lost_loop _ _ _ _ _ _) as [[[[b2 p2] c2] full]|] eqn:E2; [|done]. apply lost_loop_quiet in E2; [|done].
  pose proof (quiet_made _ _ _ E2 Hi1) as Hi2. destruct full; [intros [= <- <- <-]; by etrans|].
  destruct (new_loop _ _ _ _ _ _) as [[[[b3 p3] c3] full]|] eqn:E3; [|done]. apply new_loop_quiet in E3; [|done].
  pose proof (quiet_made _ _ _ E3 Hi2) as Hi3. assert (Q3 : quiet c c3) by (etrans; [exact Q1|]; by etrans).
  destruct full; [by intros [= <- <- <-]|]. destruct (_ && _); [|by intros [= <- <- <-]].
  pose proof (appendStreamFrame_quiet i b3 (next (send (get i c3))) [] p3 c3 Hi3) as Q4.
  destruct (appendStreamFrame i b3 (next (send (get i c3))) [] p3 c3) as [[b4 p4] c4]. intros [= <- <- <-]. cbn in Q4. by etrans.
Qed.

Lemma streams_loop_quiet queue before b max p c b' p' c' before' rest :
  (forall i, i ∈ queue -> is_Some (store c !! i)) ->
  streams_loop queue before b max p c = Some (b', p', c', before', rest) -> quiet c c'.
Proof.
  revert before b p c. induction queue as [|i queue IH]; intros before b p c Hq; cbn [streams_loop]; [by intros [= _ _ <- _ _]|].
  destruct (_ <=? 16); [by intros [= _ _ <- _ _]|]. assert (Hi : is_Some (store c !! i)) by (apply Hq; set_solver).
  set (first := if done_ (get i c) then _ else _).
  destruct first as [[[b1 p1] c1]|] eqn:E1; [|done].
  assert (Q1 : quiet c c1). { unfold first in E1. destruct (done_ _); [by simplify_eq|]. by eapply appendStreamFrames_quiet. }
  pose proof (quiet_made _ _ _ Q1 Hi) as Hi1.
  set (second := if done_ (get i c1) then _ else _).
  assert (Q2 : quiet c1 second.2). { unfold second. destruct (done_ (get i c1)); [done|]. by apply sendable_quiet. }
  destruct second as [more c2] eqn:E2. cbn in Q2. pose proof (quiet_made _ _ _ Q2 Hi1) as Hi2.
  assert (Q3 : quiet c c2) by by etrans.
  destruct more; intros H.
  - quiet_next Q3. eapply IH; [|exact H]. intros j Hj. apply (quiet_made _ _ _ Q3), Hq. set_solver.
  - assert (Q4 : quiet c (put i (get i c2 <| queued := false |>) c2)) by (quiet_next Q3; by apply quiet_put).
    quiet_next Q4. eapply IH; [|exact H]. intros j Hj. apply (quiet_made _ _ _ Q4), Hq. set_solver.
Qed.

Lemma appendStreams_quiet b max p c b' p' c' :
  (forall i, i ∈ sendQueue c -> is_Some (store c !! i)) -> appendStreams b max p c = Some (b', p', c') -> quiet c c'.
Proof.
  intros Hq. unfold appendStreams. destruct (streams_loop _ _ _ _ _ _) as [[[[[b1 p1] c1] bf] rest]|] eqn:E; [|done].
  intros [= _ _ <-]. apply streams_loop_quiet in E; [|done]. etrans; [exact E|]. by split.
Qed.

Lemma onMaxData_quiet max order c : (forall i, i ∈ order -> is_Some (store c !! i)) -> quiet c (onMaxData max order c).
Proof.
  intros Ho. unfold onMaxData. destruct (_ <? max); [|done]. set (c0 := c <| peerMaxData := max |>). apply (transitivity (y := c0)); [by split|].
  assert (Ho0 : forall i, i ∈ order -> is_Some (store c0 !! i)) by done. clearbody c0. clear Ho c. revert c0 Ho0.
  induction order as [|i order IH]; intros c Ho; [done|]. cbn [fold_left].
  assert (Hi : is_Some (store c !! i)) by (apply Ho; set_solver). pose proof (sendable_quiet i c Hi) as Q.
  destruct (sendable i c) as [more c1]. cbn in Q. pose proof (quiet_made _ _ _ Q Hi) as Hi1.
  set (c2 := if more then _ else _). assert (Q2 : quiet c c2) by (quiet_next Q; unfold c2; destruct more; [by apply quiet_queue|done]).
  quiet_next Q2. apply IH. intros j Hj. apply (quiet_made _ _ _ Q2), Ho. set_solver.
Qed.

(** Asking the peer to stop leaves the counts alone. *)
Lemma stopSending_flow i code c : is_Some (store c !! i) -> flow c -> flow (stopSendingLocked i code c).
Proof.
  intros [s Hi] Hf. unfold stopSendingLocked. rewrite (get_at _ _ _ Hi). destruct (negb (hasRecv s) || recvDone s || stopSent s) eqn:E; [done|].
  apply orb_false_iff in E as [[_ Hd]%orb_false_iff Hs].
  destruct (flow_open _ _ _ Hf Hi) as (Hat & [] & Hw). set (s1 := s <| stopSent := true |> <| stopPending := true |> <| stopCode := code |> <| recv := _ |>).
  eapply flow_ext; [symmetry; eapply queue_view, store_put|].
  apply (flow_close i s1); [by apply (flow_at_put _ _ s)| |exact Hw].
  constructor; cbn; try done. by rewrite Hd.
Qed.

Lemma stopSending_keeps i code c : is_Some (store c !! i) -> keeps c (stopSendingLocked i code c).
Proof. intros Hi. unfold stopSendingLocked. case_match; [done|]. by apply put_queue_keeps. Qed.
