(* ===== verification/QuicSend.v ===== *)
(** Sending on QUIC streams: the limits the peer gives, what a packet holds, and
    the queue of the streams that have something to send. *)
From S2P Require Import Prelude.
From S2P Require Import Varint.
From S2P Require Import QuicBuffer.
From S2P Require Import QuicFrames.
From S2P Require Import QuicParams.
From S2P Require Import QuicPacket.
From S2P Require Import QuicRecovery.
From S2P Require Import QuicStream.
From S2P Require Import QuicFlow.
From S2P Require Import QuicIds.

(** * What is in flight *)

(** Whether a frame is a stream's, and whether it carries the data of stream [i]. *)
Definition of_stream (f : sentFrame) : bool :=
  match sf_kind f with sfStream | sfMaxStreamData | sfResetStream | sfStopSending => true | _ => false end.
Definition carries (i : Z) (f : sentFrame) : bool :=
  match sf_kind f with sfStream => sf_stream f =? i | _ => false end.

Definition as_frame (W : bytes) (f : sentFrame) : frame := Frame (sf_off f) (stream_at W (sf_off f) (sf_n f)).

(** The frames of stream [i] among [outs], all the frames ever sent: any of them
    may be acknowledged or declared lost at any time, however often.  [W] is all
    that was written to the stream. *)
Definition flight_of (W : bytes) (outs : list sentFrame) (i : Z) : list frame :=
  as_frame W <$> List.filter (carries i) outs.

Lemma flight_app W l k i : flight_of W (l ++ k) i = flight_of W l i ++ flight_of W k i.
Proof. unfold flight_of. by rewrite List.filter_app, fmap_app. Qed.

(** The invariant of a send buffer depends on the set of frames alone. *)
Lemma sb_inv_equiv W b fl fl' : (forall g, g ∈ fl <-> g ∈ fl') -> sb_inv (SbState W b fl) -> sb_inv (SbState W b fl').
Proof.
  intros He [H1 H2 H3 H4 H5 H6]. constructor; cbn in *; try done.
  - apply Forall_forall. intros g Hg. apply He in Hg. revert g Hg. by apply Forall_forall.
  - intros x Hx. destruct (H6 x Hx) as [?|[?|[?|(g & Hg & Hin)]]]; [tauto..|]. right. right. right. exists g. by rewrite <- He.
Qed.

Lemma hasLost_inv W b fl : sb_inv (SbState W b fl) -> sb_inv (SbState W (hasLost b).2 fl).
Proof.
  intros [H1 H2 [H3 H3'] H4 H5 H6]. cbn in *. destruct (trim_lost_spec _ (base b) _ H3) as (T1 & T2 & T3 & _).
  constructor; cbn; try done.
  - split; [done|]. intros s Hs. by apply H3', T2.
  - intros x Hx. destruct (H6 x Hx) as [?|[?|[Hc|?]]]; [tauto..| |tauto]. destruct (T3 x Hc); tauto.
Qed.

(** Frames sent lie below [nx], the end of what was ever sent. *)
Definition within (nx : Z) (outs : list sentFrame) (i : Z) : Prop :=
  forall f, f ∈ outs -> carries i f = true -> 0 <= sf_off f /\ 0 <= sf_n f /\ sf_off f + sf_n f <= nx.

Lemma flight_written W p outs i nx : within nx outs i -> nx <= len W -> flight_of (W ++ p) outs i = flight_of W outs i.
Proof.
  unfold flight_of. intros Hf Hn. apply list_fmap_ext. intros k f Hk. unfold as_frame. f_equal.
  apply list_elem_of_lookup_2, list_elem_of_In, List.filter_In in Hk as [Hk Hc]. apply list_elem_of_In in Hk.
  destruct (Hf f Hk Hc) as (? & ? & ?). apply stream_at_app; lia.
Qed.

Lemma as_frame_len W f nx : 0 <= sf_off f -> 0 <= sf_n f -> sf_off f + sf_n f <= nx -> nx <= len W -> len (f_data (as_frame W f)) = sf_n f.
Proof. intros. cbn. apply stream_at_len; lia. Qed.

(** * The invariant *)

Record stream_ok (outs : list sentFrame) (W : bytes) (i : Z) (s : Stream) : Prop := {
  so_id : id s = i;
  so_reset : reset s = true -> send s = SendBuffer (finalSize s) [] (finalSize s) [] [];
  so_send : reset s = false -> sb_inv (SbState W (send s) (flight_of W outs i)) /\ (finQueued s = true -> finalSize s = len W);
  so_limit : 0 <= next (send s) <= sendMax s /\ sendMax s <= maxVarint;
  so_within : within (next (send s)) outs i;
}.

Definition sview (s : Stream) := (id s, send s, sendMax s, finQueued s, finalSize s, reset s).
Definition send_view (c : Conn) := (peerMaxData c, sentData c, peerParams c, sview <$> store c).

(** What parsing gives: 62-bit limits. *)
Definition params_ok (p : transportParams) : Prop :=
  0 <= initialMaxData p <= maxVarint /\ 0 <= maxStreamDataBidiL p <= maxVarint /\ 0 <= maxStreamDataBidiR p <= maxVarint /\
  0 <= maxStreamDataUni p <= maxVarint /\ 0 <= maxStreamsBidi p <= 2 ^ 60 /\ 0 <= maxStreamsUni p <= 2 ^ 60.

Record send_inv (outs : list sentFrame) (W : Z -> bytes) (c : Conn) : Prop := {
  sn_streams : forall i s, store c !! i = Some s -> stream_ok outs (W i) i s;
  sn_outs : forall f, f ∈ outs -> of_stream f = true -> is_Some (store c !! sf_stream f);
  sn_data : sentData c = msum (fun s => next (send s)) (store c);
  sn_max : sentData c <= peerMaxData c <= maxVarint;
  sn_params : forall p, peerParams c = Some p -> params_ok p;
  sn_unmade : forall i, store c !! i = None -> W i = [];
}.

Lemma stream_ok_ext outs W i s s' : sview s = sview s' -> stream_ok outs W i s -> stream_ok outs W i s'.
Proof. intros [= H1 H2 H3 H4 H5 H6] []. constructor; rewrite <- ?H1, <- ?H2, <- ?H3, <- ?H4, <- ?H5, <- ?H6; done. Qed.

Lemma send_ext outs W c c' : send_view c = send_view c' -> send_inv outs W c -> send_inv outs W c'.
Proof.
  intros [= E1 E2 E4 E3] [H1 H2 H3 H4 H5 H6]. constructor; rewrite <- ?E1, <- ?E2, <- ?E4; [..|done|done|].
  - intros i s' Hs'. apply (f_equal (lookup i)) in E3. rewrite !lookup_fmap, Hs' in E3.
    destruct (store c !! i) as [s|] eqn:Hs; cbn in E3; [|done]. apply (inj Some) in E3. eapply stream_ok_ext; eauto.
  - intros f Hf Hk. destruct (H2 f Hf Hk) as [s Hs]. apply (f_equal (lookup (sf_stream f))) in E3. rewrite !lookup_fmap, Hs in E3.
    destruct (store c' !! sf_stream f); [eauto|done].
  - rewrite H3. apply (msum_view sview); [|done]. by intros s s' [= _ ->].
  - intros i Hi. apply H6. apply (f_equal (lookup i)) in E3. rewrite !lookup_fmap, Hi in E3. by destruct (store c !! i).
Qed.

(** A change of stream [i], and of what is written and in flight. *)
Lemma send_put i s s' c outs outs' W W' :
  send_inv outs W c -> store c !! i = Some s -> stream_ok outs' (W' i) i s' ->
  (forall j, j <> i -> W' j = W j) -> (forall j, j <> i -> List.filter (carries j) outs' = List.filter (carries j) outs) ->
  (forall f, f ∈ outs' -> of_stream f = true -> f ∈ outs \/ sf_stream f = i) ->
  sentData c + next (send s') - next (send s) <= peerMaxData c ->
  send_inv outs' W' (put i s' c <| sentData := sentData c + next (send s') - next (send s) |>).
Proof.
  intros [H1 H2 H3 H4 H5 H6] Hi Hs' HW Hout Hf Hle. constructor; cbn.
  - intros j t [[<- <-]|[Hne Hj]]%lookup_insert_Some; [done|]. destruct (H1 j t Hj) as [O1 O2 O3 O4 O5].
    constructor; rewrite ?HW by done; try done.
    + intros Hr. destruct (O3 Hr) as [O31 O32]. split; [|done]. unfold flight_of. by rewrite Hout by done.
    + intros f Hin Hc. apply O5; [|done]. apply list_elem_of_In. apply list_elem_of_In in Hin.
      eapply proj1, List.filter_In. rewrite <- Hout by done. by apply List.filter_In.
  - intros f Hin Hk. destruct (Hf f Hin Hk) as [Ho|Ho].
    + destruct (decide (sf_stream f = i)) as [->|]; [by rewrite lookup_insert_eq|]. rewrite lookup_insert_ne by done. eauto.
    + rewrite Ho. by rewrite lookup_insert_eq.
  - rewrite (msum_set _ _ _ s) by done. lia.
  - lia.
  - done.
  - intros j [Hj Hne]%lookup_insert_None. rewrite HW by congruence. by apply H6.
Qed.

(** * Streams with something to send *)

(** [sendable], without its effect. *)
Definition wants (c : Conn) (s : Stream) : bool :=
  stopPending s || streamDataPending s || resetPending s ||
  negb (reset s || negb (hasSend s)) &&
  ((0 <? len (trim_lost (base (send s)) (lost (send s)))) ||
   (if next (send s) <? sb_end (send s) then 0 <? sendCredit c s else finQueued s && negb (finSent s))).

Lemma sendable_wants i c : (sendable i c).1 = wants c (get i c).
Proof.
  unfold sendable, wants. destruct (stopPending _ || _ || _); [done|]. cbn.
  destruct (reset _ || _); [done|]. cbn. destruct (0 <? len _); [done|]. cbn.
  change (sb_end (SendBuffer _ _ _ _ _)) with (sb_end (send (get i c))). by destruct (_ <? _).
Qed.

#[local] Hint Resolve not_elem_of_nil : core.

(** The queue holds the streams that are queued, and every stream that has
    something to send, those of [x] aside, is queued. *)
Record queue_inv (x : list Z) (c : Conn) : Prop := {
  qi_nodup : NoDup (sendQueue c);
  qi_queued : forall i, i ∈ sendQueue c <-> exists s, store c !! i = Some s /\ queued s = true;
  qi_wants : forall i s, i ∉ x -> store c !! i = Some s -> done_ s = false -> wants c s = true -> queued s = true;
  qi_live : forall i, i ∈ streams c <-> exists s, store c !! i = Some s /\ done_ s = false;
}.

(** The part of a stream that says what it has to send. *)
Definition needs (s : Stream) := (sview s, hasSend s, finSent s, (stopPending s, streamDataPending s, resetPending s)).

Lemma wants_ext c c' s s' : needs s = needs s' -> peerMaxData c = peerMaxData c' -> sentData c = sentData c' -> wants c s = wants c' s'.
Proof.
  intros [= N1 N2 N3 N4 N5 N6 N7 N8 N9 N10 N11] E1 E2. unfold wants, sendCredit. rewrite N2, N3, N4, N6, N7, N8, N9, N10, N11, E1, E2. done.
Qed.

(** The peer's limits leave less room the more is sent. *)
Lemma wants_credit c c' s : peerMaxData c = peerMaxData c' -> 0 <= sentData c <= sentData c' -> peerMaxData c' <= maxVarint ->
  wants c' s = true -> wants c s = true.
Proof.
  intros E1 E2 E3. unfold wants. destruct (_ || resetPending s); [done|]. cbn. destruct (negb _); [|done]. cbn.
  destruct (0 <? len _); [done|]. cbn. destruct (next (send s) <? sb_end (send s)); [|done].
  unfold sendCredit. rewrite <- E1. destruct (sendMax s <=? next (send s)) eqn:El; [done|]. cbn.
  destruct (Z.leb_spec (peerMaxData c) (sentData c')); [done|]. destruct (Z.leb_spec (peerMaxData c) (sentData c)); [lia|].
  rewrite !Z.ltb_lt. unfold maxVarint in *. rewrite (u64_small (peerMaxData c - sentData c)), (u64_small (_ - sentData c')) by lia. lia.
Qed.

(** ** Steps that keep the queue right *)

Lemma queue_put x i s s' c :
  queue_inv x c -> store c !! i = Some s -> queued s' = queued s -> done_ s' = done_ s ->
  (i ∉ x -> done_ s = false -> wants c s' = true -> queued s = true) -> queue_inv x (put i s' c).
Proof.
  intros [Q1 Q2 Q3 Q4] Hi Hq Hd Hw. constructor; cbn [put store sendQueue streams change]; [done|..].
  - intros j. rewrite Q2. split; intros (t & Ht & Hb).
    + destruct (decide (j = i)) as [->|]; [exists s'|exists t]; rewrite ?lookup_insert_eq, ?lookup_insert_ne by done; [|done]. split; [done|congruence].
    + apply lookup_insert_Some in Ht as [[<- <-]|[_ Ht]]; [exists s|exists t]; [split; [done|congruence]|done].
  - intros j t Hx [[<- <-]|[_ Ht]]%lookup_insert_Some Hdone Hwant.
    + rewrite Hq. apply Hw; [done|congruence|]. by erewrite <- wants_ext.
    + eapply Q3; [done..|]. by erewrite <- wants_ext.
  - intros j. rewrite Q4. split; intros (t & Ht & Hb).
    + destruct (decide (j = i)) as [->|]; [exists s'|exists t]; rewrite ?lookup_insert_eq, ?lookup_insert_ne by done; [|done]. split; [done|congruence].
    + apply lookup_insert_Some in Ht as [[<- <-]|[_ Ht]]; [exists s|exists t]; [split; [done|congruence]|done].
Qed.

Lemma queue_weaken x c : queue_inv [] c -> queue_inv x c.
Proof. intros [Q1 Q2 Q3 Q4]. constructor; [done|done| |done]. intros i s _. by apply Q3. Qed.

Lemma queue_same x c c' :
  store c' = store c -> sendQueue c' = sendQueue c -> streams c' = streams c -> peerMaxData c' = peerMaxData c -> sentData c' = sentData c ->
  queue_inv x c -> queue_inv x c'.
Proof.
  intros E1 E2 E3 E4 E5 [Q1 Q2 Q3 Q4]. constructor; rewrite ?E1, ?E2, ?E3; try done.
  intros i s Hx Hi Hd Hw. eapply Q3; [done..|]. by erewrite wants_ext.
Qed.

Lemma queue_queue_more i s c l : store c !! i = Some s -> queue_inv (i :: l) c -> queue_inv l (queueStream i c).
Proof.
  intros Hi [Q1 Q2 Q3 Q4]. unfold queueStream. rewrite (get_at _ _ _ Hi). destruct (queued s || done_ s) eqn:E.
  - constructor; try done. intros j t Hn Hj Hd Hw. destruct (decide (j = i)) as [->|]; [|apply (Q3 j t); [set_solver|done..]].
    simplify_eq. by rewrite Hd, orb_false_r in E.
  - apply orb_false_iff in E as [Eq Ed]. set (s' := s <| queued := true |>).
    assert (Hnot : i ∉ sendQueue c) by (rewrite Q2; intros (t & Ht & Hb); congruence).
    constructor; cbn [put store sendQueue streams change].
    + apply NoDup_app. split; [done|]. split; [intros j Hj ->%list_elem_of_singleton; done|apply NoDup_singleton].
    + intros j. rewrite elem_of_app, list_elem_of_singleton, Q2. split.
      * intros [(t & Ht & Hb)| ->]; [|exists s'; by rewrite lookup_insert_eq].
        exists t. rewrite lookup_insert_ne; [done|congruence].
      * intros (t & [[<- <-]|[? Ht]]%lookup_insert_Some & Hb); [by right|left; eauto].
    + intros j t Hn [[<- <-]|[? Ht]]%lookup_insert_Some Hd Hw; [done|]. apply (Q3 j t); [set_solver|done..|]. by erewrite <- wants_ext.
    + intros j. rewrite Q4. split.
      * intros (t & Ht & Hb). destruct (decide (j = i)) as [->|]; [exists s'|exists t]; rewrite ?lookup_insert_eq, ?lookup_insert_ne by done; [|done].
        split; [done|]. by simplify_eq.
      * intros (t & [[<- <-]|[? Ht]]%lookup_insert_Some & Hb); [exists s|exists t]; done.
Qed.

Lemma queue_queue i s c : store c !! i = Some s -> queue_inv [i] c -> queue_inv [] (queueStream i c).
Proof. apply queue_queue_more. Qed.

Lemma queue_put_queue i s s' c :
  queue_inv [] c -> store c !! i = Some s -> queued s' = queued s -> done_ s' = done_ s -> queue_inv [] (queueStream i (put i s' c)).
Proof.
  intros Hq Hi H1 H2. apply (queue_queue i s'); [apply store_put|]. eapply queue_put; [by apply queue_weaken|done|done|done|set_solver].
Qed.

Lemma queue_done i s c :
  queue_inv [] c -> store c !! i = Some s -> queue_inv [] (put i (s <| done_ := true |>) c <| streams := streams c ∖ {[i]} |>).
Proof.
  intros [Q1 Q2 Q3 Q4] Hi. constructor; cbn [put store sendQueue streams change]; [done|..].
  - intros j. rewrite Q2. split.
    + intros (t & Ht & Hb). destruct (decide (j = i)) as [->|]; [|exists t; by rewrite lookup_insert_ne].
      simplify_eq. eexists. by rewrite lookup_insert_eq.
    + intros (t & [[<- <-]|[? Ht]]%lookup_insert_Some & Hb); [exists s|exists t]; done.
  - intros j t _ [[<- <-]|[? Ht]]%lookup_insert_Some Hd Hw; [done|]. eapply Q3; [done..|]. by erewrite <- wants_ext.
  - intros j. rewrite elem_of_difference, elem_of_singleton, Q4. split.
    + intros [(t & Ht & Hb) Hne]. exists t. by rewrite lookup_insert_ne.
    + intros (t & [[<- <-]|[? Ht]]%lookup_insert_Some & Hb); [done|]. split; [by exists t|done].
Qed.

(** ** Calm steps

    They leave the sending side alone and keep the queue right; a closed
    connection stays closed. *)
Record calm (c c' : Conn) : Prop := {
  cm_view : send_view c' = send_view c;
  cm_closed : closed c = true -> closed c' = true;
  cm_queue : closed c' = false -> queue_inv [] c -> queue_inv [] c';
}.

#[export] Instance calm_preorder : PreOrder calm.
Proof.
  split; [by constructor|]. intros a b c [A1 A2 A3] [B1 B2 B3]. constructor; [congruence|eauto|].
  intros Hc Hq. apply B3; [done|]. apply A3; [|done]. destruct (closed b) eqn:E; [|done]. rewrite B2 in Hc; done.
Qed.

Lemma send_view_put i s s' c : store c !! i = Some s -> sview s' = sview s -> send_view (put i s' c) = send_view c.
Proof.
  intros Hi Hs. unfold send_view. cbn. rewrite fmap_insert, Hs. do 2 f_equal. apply insert_id. by rewrite lookup_fmap, Hi.
Qed.

Lemma calm_put i s' c :
  is_Some (store c !! i) -> sview s' = sview (get i c) -> queued s' = queued (get i c) -> done_ s' = done_ (get i c) ->
  (wants c s' = true -> wants c (get i c) = true) -> calm c (put i s' c).
Proof.
  intros [s Hi]. rewrite (get_at _ _ _ Hi). intros Hs Hq Hd Hw. constructor; [by eapply send_view_put|done|].
  intros _ Hinv. eapply queue_put; [done..|]. intros _ Hdone Hwant. eapply qi_wants; eauto; done.
Qed.

Lemma calm_put_queue i s' c :
  is_Some (store c !! i) -> sview s' = sview (get i c) -> queued s' = queued (get i c) -> done_ s' = done_ (get i c) ->
  calm c (queueStream i (put i s' c)).
Proof.
  intros [s Hi]. rewrite (get_at _ _ _ Hi). intros Hs Hq Hd. constructor.
  - unfold queueStream. rewrite get_put. destruct (_ || _); [by eapply send_view_put|]. rewrite put_put.
    rewrite <- (send_view_put i s (s' <| queued := true |>) c) by done. done.
  - unfold queueStream. by destruct (_ || _).
  - intros _ Hinv. by eapply queue_put_queue.
Qed.

Lemma calm_same c c' :
  store c' = store c -> sendQueue c' = sendQueue c -> streams c' = streams c -> peerMaxData c' = peerMaxData c -> sentData c' = sentData c ->
  closed c' = closed c -> peerParams c' = peerParams c -> calm c c'.
Proof.
  intros E1 E2 E3 E4 E5 E6 E7. constructor; [unfold send_view; congruence|congruence|]. intros _. by apply queue_same.
Qed.

Lemma send_view_mark_done l m : sview <$> mark_done l m = sview <$> m.
Proof.
  apply map_eq. intros i. unfold mark_done. rewrite !lookup_fmap, map_lookup_imap. destruct (m !! i); cbn; [|done]. by destruct (decide _).
Qed.

Lemma calm_terminate e c : calm c (terminateLocked e c).
Proof.
  unfold terminateLocked. destruct (closed c) eqn:E; [done|]. constructor; [|done..]. unfold send_view. cbn. by rewrite send_view_mark_done.
Qed.

Lemma calm_close e c : calm c (closeLocked e c).
Proof. unfold closeLocked. destruct (closed c); [done|]. etrans; [|apply calm_terminate]. by apply calm_same. Qed.

Lemma calm_closeIfDone c : calm c (closeIfDoneLocked c).
Proof. unfold closeIfDoneLocked. repeat (case_match; try done). apply calm_close. Qed.

Lemma calm_finish i c : is_Some (store c !! i) -> calm c (maybeFinish i c).
Proof.
  intros [s Hi]. unfold maybeFinish. rewrite (get_at _ _ _ Hi). destruct (_ || _ || _); [done|].
  set (c0 := put i _ c <| streams := _ |>). set (c1 := closeIfDoneLocked c0).
  assert (K1 : calm c c1).
  { etrans; [|apply calm_closeIfDone]. constructor; [|done|intros _ Hq; by apply queue_done]. by rewrite <- (send_view_put i s (s <| done_ := true |>) c). }
  etrans; [exact K1|]. clearbody c1. repeat (case_match; try done); by apply calm_same.
Qed.

Lemma calm_put_finish i s' c :
  is_Some (store c !! i) -> sview s' = sview (get i c) -> queued s' = queued (get i c) -> done_ s' = done_ (get i c) ->
  (wants c s' = true -> wants c (get i c) = true) -> calm c (maybeFinish i (put i s' c)).
Proof. intros. etrans; [by apply (calm_put i s')|]. apply calm_finish. by eexists; apply store_put. Qed.

Lemma calm_emit e c : calm c (emit e c).
Proof. by apply calm_same. Qed.

(** A change of the receiving side only. *)
Lemma calm_recv i s' c :
  is_Some (store c !! i) -> needs s' = needs (get i c) -> queued s' = queued (get i c) -> done_ s' = done_ (get i c) -> calm c (put i s' c).
Proof. intros Hi Hn Hq Hd. apply calm_put; [done|exact (f_equal (fun x => x.1.1.1) Hn)|done|done|]. by erewrite wants_ext. Qed.

Lemma calm_consumed i o c : is_Some (store c !! i) -> calm c (consumed i o c).
Proof.
  intros Hi. unfold consumed.
  assert (K1 : calm c (read_to i o c)).
  { unfold read_to. destruct (_ <? _); [|done]. etrans; [by apply (calm_recv i (get i c <| recvRead := o |>))|]. by apply calm_same. }
  assert (Hi1 : is_Some (store (read_to i o c) !! i)).
  { unfold read_to. destruct (_ <? _); [|done]. by eexists; apply lookup_insert_eq. }
  assert (K2 : calm (read_to i o c) (widen_stream i o (read_to i o c))).
  { unfold widen_stream. destruct (_ && _ && _); [|done]. by apply calm_put_queue. }
  etrans; [exact K1|]. etrans; [exact K2|]. unfold widen_conn. destruct (_ <? _); [|done]. by apply calm_same.
Qed.

Lemma calm_deliver i d fin c : is_Some (store c !! i) -> calm c (deliver i d fin c).
Proof. intros Hi. unfold deliver. etrans; [by apply (calm_consumed i)|apply calm_emit]. Qed.

Lemma calm_deliver_loop fuel i c c' : is_Some (store c !! i) -> deliver_loop fuel i c = Some c' -> calm c c'.
Proof.
  revert c. induction fuel as [|fuel IH]; intros c Hi; cbn [deliver_loop]; [done|].
  destruct (pop _) as [[[d|] r]|]; [|intros [= <-]; by apply calm_recv|done]. intros H.
  assert (Hi1 : is_Some (store (put i (get i c <| recv := r |>) c) !! i)) by by eexists; apply store_put.
  etrans; [by apply (calm_recv i (get i c <| recv := r |>))|]. etrans; [by apply (calm_deliver i d false)|].
  apply IH; [|done]. eapply keeps_made; [by apply deliver_keeps|done].
Qed.

Lemma calm_reach i e c err c' : is_Some (store c !! i) -> reach i e c = (err, c') -> calm c c'.
Proof.
  intros Hi. unfold reach. destruct (_ <? _); [|by intros [= <- <-]].
  destruct (_ <? _); intros [= <- <-]; (etrans; [by apply (calm_recv i (get i c <| recvHigh := e |>))|]; by apply calm_same).
Qed.

Lemma calm_discard i e c : is_Some (store c !! i) -> calm c (discard i e c).
Proof.
  intros Hi. unfold discard. etrans; [by apply (calm_consumed i e)|].
  assert (Hi1 : is_Some (store (consumed i e c) !! i)) by (eapply keeps_made; [by apply consumed_keeps|done]).
  destruct (_ && _ && _); [|done]. apply calm_put_finish; [done..|]. by erewrite wants_ext.
Qed.

Lemma calm_accept i off data c c' : is_Some (store c !! i) -> accept i off data c = Some c' -> calm c c'.
Proof.
  intros Hi. unfold accept. destruct (push _ _ _) as [r|]; [|done]. destruct (deliver_loop _ _ _) as [c3|] eqn:Ed; [|done].
  assert (Hi2 : is_Some (store (put i (get i c <| recv := r |>) c) !! i)) by by eexists; apply store_put.
  pose proof (deliver_loop_keeps _ _ _ _ Hi2 Ed) as Hk. pose proof (keeps_made _ _ _ Hk Hi2) as Hi3.
  apply calm_deliver_loop in Ed; [|done].
  assert (K : calm c c3) by (etrans; [by apply (calm_recv i (get i c <| recv := r |>))|exact Ed]).
  destruct ((0 <=? recvFin (get i c3)) && _ && _); intros [= <-]; [|exact K]. etrans; [exact K|].
  set (s3 := get i c3 <| recvDone := true |>).
  assert (Hi4 : is_Some (store (put i s3 c3) !! i)) by by eexists; apply store_put.
  etrans; [by apply (calm_recv i s3)|]. etrans; [by apply (calm_deliver i [] true)|]. apply calm_finish.
  eapply keeps_made; [by apply deliver_keeps|done].
Qed.

Lemma calm_onStreamFrame i off data fin c err c' :
  is_Some (store c !! i) -> onStreamFrame i off data fin c = Some (err, c') -> calm c c'.
Proof.
  intros Hi. unfold onStreamFrame. do 3 (case_match; [by intros [= <- <-]|]).
  set (s1 := if fin then _ else _). assert (K1 : calm c (put i s1 c)) by (apply calm_recv; [done|unfold s1; by destruct fin..]).
  assert (Hi1 : is_Some (store (put i s1 c) !! i)) by by eexists; apply store_put.
  destruct (recvMax s1 <? _); [by intros [= <- <-]|].
  destruct (reach _ _ _) as [e c2] eqn:Er. pose proof (reach_keeps _ _ _ _ _ Hi1 Er) as Hk. pose proof (keeps_made _ _ _ Hk Hi1) as Hi2.
  apply calm_reach in Er; [|done]. assert (K2 : calm c c2) by by etrans.
  destruct e; [by intros [= <- <-]|]. destruct (_ || stopSent s1).
  - intros [= <- <-]. etrans; [exact K2|]. by apply calm_discard.
  - destruct (accept i off data c2) as [c3|] eqn:Ea; [|done]. intros [= <- <-]. etrans; [exact K2|]. by eapply calm_accept.
Qed.

Lemma calm_onResetStream i code n c err c' : is_Some (store c !! i) -> onResetStream i code n c = (err, c') -> calm c c'.
Proof.
  intros Hi. unfold onResetStream. do 2 (case_match; [by intros [= <- <-]|]).
  destruct (reach _ _ _) as [e c1] eqn:Er. pose proof (reach_keeps _ _ _ _ _ Hi Er) as Hk. pose proof (keeps_made _ _ _ Hk Hi) as Hi1.
  apply calm_reach in Er; [|done]. destruct e; [by intros [= <- <-]|]. set (c2 := put i _ c1).
  assert (K2 : calm c c2) by (etrans; [exact Er|]; by apply calm_recv).
  assert (Hi2 : is_Some (store c2 !! i)) by by eexists; apply store_put.
  pose proof (calm_consumed i n c2 Hi2) as K3. pose proof (keeps_made _ _ _ (consumed_keeps i n c2 Hi2) Hi2) as Hi3. set (c3 := consumed i n c2) in *.
  assert (K4 : calm c c3) by by etrans. clearbody c3.
  destruct (_ || peerReset _); intros [= <- <-]; [exact K4|]. etrans; [exact K4|].
  set (s4 := get i c3 <| peerReset := true |> <| streamDataPending := false |> <| recv := _ |>).
  assert (K5 : calm c3 (put i s4 c3)).
  { apply calm_put; [done..|]. unfold wants. cbn. destruct (stopPending _), (streamDataPending _), (resetPending _); done. }
  etrans; [exact K5|]. destruct (negb (stopSent (get i c3))).
  - etrans; [apply (calm_emit (OnStreamReset i code))|]. apply calm_finish. exists s4. apply lookup_insert_eq.
  - apply calm_finish. by eexists; apply store_put.
Qed.

Lemma calm_stopSending i code c : is_Some (store c !! i) -> calm c (stopSendingLocked i code c).
Proof. intros Hi. unfold stopSendingLocked. case_match; [done|]. by apply calm_put_queue. Qed.

Lemma calm_CloseWhenDone e c : calm c (CloseWhenDone e c).
Proof. unfold CloseWhenDone. repeat (case_match; try done). etrans; [|apply calm_closeIfDone]. by apply calm_same. Qed.

(** * The sending side *)

Lemma sb_inv_more W b fl fl' :
  sb_inv (SbState W b fl) -> Forall (frame_ok W (next b)) fl' -> (forall g, g ∈ fl -> g ∈ fl') -> sb_inv (SbState W b fl').
Proof.
  intros [H1 H2 H3 H4 H5 H6] Hf Hsub. constructor; cbn in *; try done.
  intros x Hx. destruct (H6 x Hx) as [?|[?|[?|(g & Hg & Hin)]]]; [tauto..|]. right. right. right. exists g. split; [by apply Hsub|done].
Qed.

Lemma ack_keep W b fl F : sb_inv (SbState W b fl) -> F ∈ fl ->
  exists b', onAck (f_off F) (len (f_data F)) b = Some b' /\ sb_inv (SbState W b' fl) /\
    next b' = next b /\ lost b' = lost b /\ base b <= base b' /\ sb_end b' = sb_end b.
Proof.
  intros Hi HF. pose proof (inv_frames _ Hi) as Hfr. cbn in Hfr. rewrite Forall_forall in Hfr.
  destruct (onAck_spec W b fl F Hi (Hfr F HF)) as (b' & Ha & Hb & Hn & Hl & _). exists b'. split; [done|].
  apply list_elem_of_split in HF as (l1 & l2 & ->). pose proof (onAck_inv _ _ _ _ _ _ Hi Ha) as Hi'.
  assert (Hi2 : sb_inv (SbState W b' (l1 ++ F :: l2))).
  { eapply sb_inv_more; [exact Hi'|rewrite Hn; apply Forall_forall, Hfr|set_solver]. }
  split; [done|]. split_and!; [done|done|lia|]. by rewrite (sb_end_eq _ _ _ Hi), (sb_end_eq _ _ _ Hi2).
Qed.

Lemma trim_mono b1 b2 l : b1 <= b2 -> 0 <? len (trim_lost b2 l) = true -> 0 <? len (trim_lost b1 l) = true.
Proof.
  intros Hb. induction l as [|x l IH]; cbn; [done|]. destruct (Z.leb_spec (QuicBuffer.end_ x) b2), (Z.leb_spec (QuicBuffer.end_ x) b1); [auto| |lia|done].
  intros _. rewrite len_cons. pose proof (len_nonneg l). apply Z.ltb_lt. lia.
Qed.

Definition write_ghost (W : Z -> bytes) (i : Z) (p : bytes) : Z -> bytes := fun j => if decide (j = i) then W i ++ p else W j.

Lemma send_nodata outs W i s s' c :
  send_inv outs W c -> store c !! i = Some s -> stream_ok outs (W i) i s' -> next (send s') = next (send s) -> send_inv outs W (put i s' c).
Proof.
  intros Hs Hi Hok Hn. assert (H := send_put i s s' c outs outs W W Hs Hi Hok). rewrite Hn in H.
  eapply send_ext; [|apply H]; [|done|done|intros f Hf _; by left|pose proof (sn_max _ _ _ Hs); lia].
  unfold send_view. cbn. replace (sentData c + next (send s) - next (send s)) with (sentData c) by lia. done.
Qed.

Lemma queue_send i s c outs W : store c !! i = Some s -> send_inv outs W c -> send_inv outs W (queueStream i c).
Proof.
  intros Hi. apply send_ext. unfold queueStream. rewrite (get_at _ _ _ Hi). destruct (_ || _); [done|].
  by rewrite <- (send_view_put i s (s <| queued := true |>) c).
Qed.

Lemma finish_send i c outs W : is_Some (store c !! i) -> send_inv outs W c -> send_inv outs W (maybeFinish i c).
Proof. intros Hi. apply send_ext. symmetry. apply cm_view. by apply calm_finish. Qed.

Lemma write_send i p fin c c' outs W :
  send_inv outs W c -> is_Some (store c !! i) -> len (W i) + len p <= 2 ^ 62 -> writeLocked i p fin c = (None, c') ->
  send_inv outs (write_ghost W i p) c'.
Proof.
  intros Hs [s Hi] Hlen. unfold writeLocked. rewrite (get_at _ _ _ Hi). destruct (closed c); [done|].
  destruct (negb (hasSend s) || finQueued s || reset s) eqn:E; [done|]. intros [= <-].
  apply orb_false_iff in E as [[_ Eq]%orb_false_iff Er]. destruct (sn_streams _ _ _ Hs i s Hi) as [O1 O2 O3 O4 O5].
  destruct (O3 Er) as [Hsb _]. pose proof (write_inv _ _ _ p Hlen Hsb) as Hsb'. pose proof (inv_range _ Hsb) as Hrg. cbn in Hrg.
  set (s1 := s <| send := sb_write (send s) p |>). set (s2 := if fin then _ else s1).
  assert (Hwi : write_ghost W i p i = W i ++ p) by (unfold write_ghost; by rewrite decide_True).
  assert (Hok : stream_ok outs (write_ghost W i p i) i s2).
  { rewrite Hwi. constructor; [by unfold s2; destruct fin|unfold s2; destruct fin; cbn; congruence|..|by unfold s2; destruct fin|by unfold s2; destruct fin].
    intros _. erewrite flight_written; [|exact O5|lia]. unfold s2. destruct fin; cbn; (split; [done|]); [|congruence].
    intros _. by rewrite (sb_end_eq _ _ _ Hsb'). }
  assert (Hn : next (send s2) = next (send s)) by (unfold s2; by destruct fin).
  apply (queue_send i s2); [apply store_put|].
  assert (H := send_put i s s2 c outs outs W (write_ghost W i p) Hs Hi Hok).
  rewrite Hn in H. eapply send_ext; [|apply H]; [|intros j Hj; unfold write_ghost; by rewrite decide_False|done|intros f Hf _; by left|].
  - unfold send_view. cbn. replace (sentData c + next (send s) - next (send s)) with (sentData c) by lia. done.
  - pose proof (sn_max _ _ _ Hs). lia.
Qed.

Lemma reset_send i code c outs W : send_inv outs W c -> is_Some (store c !! i) -> send_inv outs W (resetLocked i code c).
Proof.
  intros Hs [s Hi]. unfold resetLocked. rewrite (get_at _ _ _ Hi). destruct (_ || _ || _); [done|].
  set (s1 := s <| reset := true |> <| resetPending := true |> <| resetCode := code |> <| finalSize := _ |> <| send := _ |>).
  destruct (sn_streams _ _ _ Hs i s Hi). apply (queue_send i s1); [apply store_put|]. apply (send_nodata outs W i s); [done..| |done].
  by constructor.
Qed.

Lemma trim_send i s b c outs W :
  send_inv outs W c -> store c !! i = Some s -> reset s = false -> b = (hasLost (send s)).2 -> send_inv outs W (put i (s <| send := b |>) c).
Proof.
  intros Hs Hi Hr ->. destruct (sn_streams _ _ _ Hs i s Hi) as [O1 O2 O3 O4 O5]. destruct (O3 Hr) as [Hsb Hfin].
  apply (send_nodata outs W i s); [done..| |done]. constructor; [done|cbn; congruence| |done|done]. intros _. split; [by apply hasLost_inv|done].
Qed.

Lemma sendable_send i c outs W : send_inv outs W c -> is_Some (store c !! i) -> send_inv outs W (sendable i c).2.
Proof.
  intros Hs [s Hi]. unfold sendable. rewrite (get_at _ _ _ Hi). destruct (_ || _ || _); [done|].
  destruct (reset s) eqn:Er; [done|]. destruct (negb _); [done|]. cbn [orb].
  destruct (hasLost (send s)) as [l b] eqn:El. assert (Hb : b = (hasLost (send s)).2) by by rewrite El.
  repeat (case_match; try done); by apply trim_send.
Qed.

Lemma carries_made i f c outs W : send_inv outs W c -> f ∈ outs -> carries i f = true -> is_Some (store c !! i).
Proof.
  intros Hs Hf Hc. unfold carries in Hc. destruct (sf_kind f) eqn:Ek; try done. apply Z.eqb_eq in Hc as <-.
  apply (sn_outs _ _ _ Hs); [done|]. unfold of_stream. by rewrite Ek.
Qed.

(** The acknowledgement of any frame ever sent is taken without a panic. *)
Lemma acked_send i f fin c outs W :
  send_inv outs W c -> f ∈ outs -> carries i f = true -> exists c', onDataAcked i (sf_off f) (sf_n f) fin c = Some c' /\ send_inv outs W c'.
Proof.
  intros Hs Hf Hc. unfold onDataAcked. destruct (carries_made _ _ _ _ _ Hs Hf Hc) as [s Hi].
  rewrite (get_at _ _ _ Hi). destruct (reset s) eqn:Er; [by eexists|].
  destruct (sn_streams _ _ _ Hs i s Hi) as [O1 O2 O3 O4 O5]. destruct (O3 Er) as [Hsb Hfin]. pose proof (inv_range _ Hsb) as Hrg. cbn in Hrg.
  destruct (O5 f Hf Hc) as (? & ? & ?).
  destruct (ack_keep _ _ _ (as_frame (W i) f) Hsb) as (b' & Ha & Hb & Hn & _).
  { apply list_elem_of_fmap_2, list_elem_of_In, List.filter_In. split; [by apply list_elem_of_In|done]. }
  rewrite (as_frame_len _ _ (next (send s))) in Ha by lia. cbn [as_frame f_off] in Ha. rewrite Ha. eexists. split; [reflexivity|].
  set (s1 := if fin then _ else _).
  assert (Hs1 : next (send s1) = next (send s)) by (unfold s1; destruct fin; exact Hn).
  apply finish_send; [by eexists; apply store_put|]. apply (send_nodata outs W i s); [done..| |done].
  constructor; [unfold s1; by destruct fin|unfold s1; destruct fin; cbn; congruence| |rewrite Hs1; unfold s1; by destruct fin|by rewrite Hs1].
  intros _. unfold s1. by destruct fin.
Qed.

Lemma lost_send i f fin c outs W :
  send_inv outs W c -> f ∈ outs -> carries i f = true -> send_inv outs W (onDataLost i (sf_off f) (sf_n f) fin c).
Proof.
  intros Hs Hf Hc. unfold onDataLost. destruct (carries_made _ _ _ _ _ Hs Hf Hc) as [s Hi].
  rewrite (get_at _ _ _ Hi). destruct (reset s) eqn:Er; [done|]. destruct (done_ s); [done|]. cbn [orb].
  destruct (sn_streams _ _ _ Hs i s Hi) as [O1 O2 O3 O4 O5]. destruct (O3 Er) as [Hsb Hfin]. pose proof (inv_range _ Hsb) as Hrg. cbn in Hrg.
  destruct (O5 f Hf Hc) as (? & ? & ?). set (F := as_frame (W i) f).
  assert (HF : F ∈ flight_of (W i) outs i).
  { apply list_elem_of_fmap_2, list_elem_of_In, List.filter_In. split; [by apply list_elem_of_In|done]. }
  assert (HlF : len (f_data F) = sf_n f) by (by apply (as_frame_len _ _ (next (send s))); lia).
  pose proof (onLost_inv _ _ _ (flight_of (W i) outs i) _ Hsb HF ltac:(tauto) ltac:(tauto)) as Hsb'.
  pose proof (inv_frames _ Hsb) as Hfr. rewrite Forall_forall in Hfr.
  destruct (onLost_spec _ _ _ F Hsb (Hfr F HF)) as (_ & _ & Hn & _). rewrite HlF in Hsb', Hn. cbn [F as_frame f_off] in Hsb', Hn.
  set (s1 := if fin && _ then _ else _).
  assert (Hs1 : sview s1 = sview (s <| send := onLost (sf_off f) (sf_n f) (send s) |>)) by (unfold s1; by case_match).
  apply (queue_send i s1); [apply store_put|]. apply (send_nodata outs W i s); [done..| |].
  - eapply stream_ok_ext; [symmetry; exact Hs1|]. constructor; [done|cbn; congruence|done| |]; cbn; by rewrite Hn.
  - injection Hs1 as _ Hs1 _. by rewrite Hs1.
Qed.

(** * Filling a packet *)

Lemma VarintLen_range v : 1 <= VarintLen v <= 8.
Proof. unfold VarintLen. repeat case_match; lia. Qed.

Lemma VarintLen_small v : 0 <= v < 16384 -> VarintLen v <= 2.
Proof. intros Hv. unfold VarintLen. repeat case_match; bdestruct_all; lia. Qed.

Lemma appendVarint_len b v : len (AppendVarint b v) = len b + VarintLen v.
Proof. by rewrite AppendVarint_app, len_app, AppendVarint_len. Qed.

Lemma appendStreamFrame_len i b o d p c :
  len (appendStreamFrame i b o d p c).1.1 =
    len b + 1 + VarintLen (id (get i c)) + (if 0 <? o then VarintLen o else 0) + VarintLen (len d) + len d.
Proof.
  unfold appendStreamFrame. cbn [fst snd]. rewrite len_app, appendVarint_len.
  destruct (0 <? o); rewrite ?appendVarint_len, len_app; change (len [?x]) with 1; cbn; lia.
Qed.

(** What packing frames of stream [i] into a packet may change. *)
Record packs (i : Z) (c c' : Conn) : Prop := {
  pk_store : exists s', store c' = <[i := s']> (store c) /\ queued s' = queued (get i c) /\ done_ s' = done_ (get i c) /\
             id s' = id (get i c) /\ reset s' = reset (get i c);
  pk_conn : (closed c', sendQueue c', streams c', peerMaxData c', peerParams c') = (closed c, sendQueue c, streams c, peerMaxData c, peerParams c);
  pk_sent : sentData c <= sentData c';
}.

Lemma packs_refl i c : is_Some (store c !! i) -> packs i c c.
Proof. intros [s Hs]. constructor; [|done|lia]. exists s. rewrite (get_at _ _ _ Hs). split_and!; [|done..]. by rewrite insert_id. Qed.

Lemma packs_trans i a b c : packs i a b -> packs i b c -> packs i a c.
Proof.
  intros [(s1 & A1 & A2 & A3 & A4 & A5) A6 A7] [(s2 & B1 & B2 & B3 & B4 & B5) B6 B7]. constructor; [|congruence|lia].
  assert (Hg : get i b = s1) by (unfold get; by rewrite A1, lookup_insert_eq). rewrite Hg in *.
  exists s2. rewrite B1, A1, insert_insert_eq. split_and!; [done|congruence..].
Qed.

Lemma packs_put i s' c :
  queued s' = queued (get i c) -> done_ s' = done_ (get i c) -> id s' = id (get i c) -> reset s' = reset (get i c) -> packs i c (put i s' c).
Proof. intros. constructor; [|done|cbn; lia]. exists s'. done. Qed.

Lemma packs_made i c c' : packs i c c' -> is_Some (store c' !! i).
Proof. intros [(s' & -> & _) _ _]. by rewrite lookup_insert_eq. Qed.

Lemma packs_get i c c' : packs i c c' -> queued (get i c') = queued (get i c) /\ done_ (get i c') = done_ (get i c) /\
  id (get i c') = id (get i c) /\ reset (get i c') = reset (get i c).
Proof. intros [(s' & Hs & H) _ _]. unfold get at 1 3 5 7. by rewrite Hs, lookup_insert_eq. Qed.

Lemma frame_packs i b o d p c : is_Some (store c !! i) -> packs i c (appendStreamFrame i b o d p c).2.
Proof. intros Hi. unfold appendStreamFrame. cbn. case_match; [by apply packs_put|by apply packs_refl]. Qed.

Lemma frame_send i b o d p c outs W :
  is_Some (store c !! i) -> send_inv outs W c -> send_inv outs W (appendStreamFrame i b o d p c).2.
Proof.
  intros [s Hi]. apply send_ext. unfold appendStreamFrame. cbn. case_match; [|done].
  rewrite (send_view_put i s); [done..|]. by rewrite (get_at _ _ _ Hi).
Qed.

Lemma frame_adds i b o d p c :
  exists fin, frames (appendStreamFrame i b o d p c).1.2 = frames p ++ [SentFrame sfStream fin i o (len d)].
Proof. unfold appendStreamFrame. cbn. eauto. Qed.

(** Data taken from the buffer and put into a frame. *)
Lemma taken_send i s sb o d fin c outs W :
  send_inv outs W c -> store c !! i = Some s -> reset s = false ->
  sb_inv (SbState (W i) sb (Frame o d :: flight_of (W i) outs i)) -> next (send s) <= next sb <= sendMax s ->
  sentData c + next sb - next (send s) <= peerMaxData c ->
  send_inv (outs ++ [SentFrame sfStream fin i o (len d)]) W
    (put i (s <| send := sb |>) c <| sentData := sentData c + next sb - next (send s) |>).
Proof.
  intros Hs Hi Hr Hsb Hn Hm. destruct (sn_streams _ _ _ Hs i s Hi) as [O1 O2 O3 O4 O5]. destruct (O3 Hr) as [_ Hfin].
  set (f := SentFrame sfStream fin i o (len d)). assert (Hc : carries i f = true) by (unfold carries; cbn; apply Z.eqb_refl).
  pose proof (inv_frames _ Hsb) as Hfr. cbn in Hfr. apply Forall_cons_1 in Hfr as [(F1 & F2 & F3) _]. cbn in F1, F2, F3.
  assert (H := send_put i s (s <| send := sb |>) c outs (outs ++ [f]) W W Hs Hi). eapply send_ext; [|apply H]; [done| |done| |..].
  - constructor; [done|cbn; congruence|..].
    + intros _. split; [|done]. eapply sb_inv_equiv; [|exact Hsb]. intros g. rewrite flight_app. unfold flight_of at 3. cbn [List.filter].
      rewrite Hc. cbn. unfold as_frame. cbn. rewrite <- F3. set_solver.
    + cbn. lia.
    + intros g Hg Hcg. apply elem_of_app in Hg as [Hg|Hg%list_elem_of_singleton]; [destruct (O5 g Hg Hcg) as (? & ? & ?); cbn; lia|subst g].
      cbn. pose proof (len_nonneg d). lia.
  - intros j Hj. rewrite List.filter_app. cbn [List.filter]. replace (carries j f) with false; [by rewrite app_nil_r|].
    unfold carries. cbn. symmetry. apply Z.eqb_neq. congruence.
  - intros g Hg _. apply elem_of_app in Hg as [Hg|Hg%list_elem_of_singleton]; [by left|right; by subst g].
  - done.
Qed.

Lemma get_set_sent i c x : get i (c <| sentData := x |>) = get i c.
Proof. done. Qed.

Lemma new_loop_spec fuel i b max p c outs W :
  send_inv (outs ++ frames p) W c -> is_Some (store c !! i) -> reset (get i c) = false ->
  0 <= sentData c -> max <= 16384 -> len b <= max + 7 -> (Z.to_nat (max - len b) < fuel)%nat ->
  exists b' p' c' full, new_loop fuel i b max p c = Some (b', p', c', full) /\
    send_inv (outs ++ frames p') W c' /\ packs i c c' /\ len b <= len b' /\ len b' <= max + 7 /\ (len b <= max -> len b' <= max).
Proof.
  revert b p c. induction fuel as [|fuel IH]; intros b p c Hs [s Hi] Hr Hpos Hmax Hb Hfuel; [lia|]. cbn [new_loop].
  rewrite (get_at _ _ _ Hi) in *. pose proof (packs_refl i c (mk_is_Some _ _ Hi)) as Hrefl.
  destruct (Z.leb_spec (sb_end (send s)) (next (send s))); [eexists _, _, _, _; split; [done|]; split_and!; [done..|lia|lia|lia]|].
  set (credit := sendCredit c s). set (avail := max - len b - 1 - _ - _ - 2).
  destruct ((credit =? 0) || (avail <=? 0)) eqn:E; [eexists _, _, _, _; split; [done|]; split_and!; [done..|lia|lia|lia]|].
  apply orb_false_iff in E as [Ec%Z.eqb_neq Ea%Z.leb_gt].
  destruct (sn_streams _ _ _ Hs i s Hi) as [O1 O2 O3 O4 O5]. destruct (O3 Hr) as [Hsb Hfin]. pose proof (inv_range _ Hsb) as Hrg. cbn in Hrg.
  pose proof (sn_max _ _ _ Hs) as Hsm. pose proof (VarintLen_range (id s)). pose proof (VarintLen_range (next (send s))). pose proof (len_nonneg b).
  assert (Hcr : 0 < credit /\ next (send s) + credit <= sendMax s /\ sentData c + credit <= peerMaxData c).
  { unfold credit, sendCredit, maxVarint in *. destruct (Z.leb_spec (sendMax s) (next (send s))); [done|]. cbn in *.
    destruct (Z.leb_spec (peerMaxData c) (sentData c)); [done|]. rewrite !u64_small in * by lia. lia. }
  set (n := Z.min avail credit). assert (Hn : 0 < n < 2 ^ 62) by (unfold n, avail, maxVarint in *; lia).
  rewrite (popNew_spec _ _ _ n ltac:(lia) Hsb). set (e := Z.min _ _). set (d := stream_at _ _ _). set (sb := SendBuffer _ _ _ _ _).
  assert (Hend : sb_end (send s) = len (W i)) by by apply (sb_end_eq _ _ _ Hsb).
  assert (Hld : len d = e - next (send s)) by (unfold d; apply stream_at_len; lia).
  assert (Hsb' : sb_inv (SbState (W i) sb (Frame (next (send s)) d :: flight_of (W i) (outs ++ frames p) i))).
  { apply (popNew_inv _ _ _ n _ _ _ ltac:(lia) Hsb). apply (popNew_spec _ _ _ n ltac:(lia) Hsb). }
  rewrite (u64_small (sentData c + len d)) by (unfold maxVarint in *; lia).
  set (c1 := put i (s <| send := sb |>) c <| sentData := _ |>).
  assert (Hs1 : forall fin, send_inv ((outs ++ frames p) ++ [SentFrame sfStream fin i (next (send s)) (len d)]) W c1).
  { intros fin. eapply send_ext; [|apply (taken_send i s sb (next (send s)) d fin c _ W Hs Hi Hr Hsb')]; [|cbn; lia|cbn; lia].
    unfold send_view. cbn. do 3 f_equal. rewrite Hld. cbn. lia. }
  assert (Hi1 : is_Some (store c1 !! i)) by (eexists; apply lookup_insert_eq).
  assert (Hg1 : get i c1 = s <| send := sb |>) by (unfold c1, get; cbn; by rewrite lookup_insert_eq).
  assert (Hp1 : packs i c c1).
  { constructor; [|done|cbn; lia]. exists (s <| send := sb |>). by rewrite (get_at _ _ _ Hi). }
  pose proof (appendStreamFrame_len i b (next (send s)) d p c1) as Hlen. destruct (frame_adds i b (next (send s)) d p c1) as [fin Hfr].
  pose proof (frame_packs i b (next (send s)) d p c1 Hi1) as Hp2.
  pose proof (frame_send i b (next (send s)) d p c1 _ W Hi1 (Hs1 fin)) as Hs2.
  rewrite Hg1 in Hlen. change (id (s <| send := sb |>)) with (id s) in Hlen.
  destruct (appendStreamFrame i b (next (send s)) d p c1) as [[b2 p2] c2]. cbn [fst snd] in *. rewrite <- app_assoc, <- Hfr in Hs2.
  pose proof (VarintLen_small (len d) ltac:(lia)). pose proof (VarintLen_range (len d)).
  assert (Hb2 : len b < len b2 <= max) by (destruct (0 <? next (send s)); lia).
  destruct (IH b2 p2 c2) as (b' & p' & c' & full & -> & Hs' & Hp' & Hlb & Hlm & Hlm'); [done|by eapply packs_made|..].
  { destruct (packs_get _ _ _ Hp2) as (_ & _ & _ & ->). by rewrite Hg1. }
  { pose proof (pk_sent _ _ _ Hp1). pose proof (pk_sent _ _ _ Hp2). lia. } { done. } { lia. } { lia. }
  eexists _, _, _, _. split; [reflexivity|]. split_and!; [done|..|lia|lia|lia]. eapply packs_trans; [exact Hp1|]. by eapply packs_trans.
Qed.

Lemma trim_idem b l : trim_lost b (trim_lost b l) = trim_lost b l.
Proof.
  induction l as [|x l IH]; cbn; [done|]. destruct (QuicBuffer.end_ x <=? b) eqn:E; [done|]. cbn. by rewrite E.
Qed.

(** Where the lost data that is sent again starts: at the range's start, or at
    what is still kept when an acknowledgement came in between. *)
Lemma popLost_head W b fl n l rest o d b' :
  sb_inv (SbState W b fl) -> trim_lost (base b) (lost b) = lost b -> lost b = l :: rest -> 0 < n < 2 ^ 62 ->
  popLost n b = Some ((o, d), b') -> o = Z.max (off l) (base b) /\ len d <= n.
Proof.
  intros Hi Ht Hl Hn. unfold popLost, hasLost. rewrite Ht. cbn [fst snd QuicBuffer.lost base buf next acked].
  pose proof (inv_range _ Hi) as Hrg. pose proof (inv_lost _ Hi) as [Hsep Hends]. cbn in Hrg, Hsep, Hends.
  rewrite Hl in *. destruct (separated_ends _ _ l Hsep ltac:(set_solver)) as [Ho He].
  specialize (Hends l ltac:(set_solver)). cbn in Ht. destruct (Z.leb_spec (QuicBuffer.end_ l) (base b)) as [|Hb].
  { pose proof (f_equal len Ht) as Hbad. assert (Hle : len (trim_lost (base b) rest) <= len rest).
    { clear. induction rest as [|x r IH]; cbn; [lia|]. destruct (_ <=? _); rewrite ?len_cons; lia. }
    rewrite len_cons in Hbad. lia. }
  rewrite len_cons. pose proof (len_nonneg rest). destruct (Z.ltb_spec 0 (1 + len rest)); [|lia].
  destruct (Z.eqb_spec n 0); [lia|]. cbn [negb orb].
  set (x := Z.max (off l) (base b)). set (e := Z.min _ _).
  assert (He' : e = Z.min (QuicBuffer.end_ l) (x + n)) by (unfold e; rewrite u64_small; [done|lia]).
  destruct (slice _ _ _) as [y|] eqn:Es; [|done]. intros [= <- <- _]. split; [done|].
  apply slice_len in Es. rewrite !u64_small in Es by lia. lia.
Qed.

Lemma lost_loop_spec fuel i b max p c outs W :
  send_inv (outs ++ frames p) W c -> is_Some (store c !! i) -> reset (get i c) = false ->
  max <= 16384 -> len b <= max + 7 -> (Z.to_nat (max - len b) < fuel)%nat ->
  exists b' p' c' full, lost_loop fuel i b max p c = Some (b', p', c', full) /\
    send_inv (outs ++ frames p') W c' /\ packs i c c' /\ len b <= len b' /\ len b' <= max + 7.
Proof.
  revert b p c. induction fuel as [|fuel IH]; intros b p c Hs [s Hi] Hr Hmax Hb Hfuel; [lia|]. cbn [lost_loop].
  rewrite (get_at _ _ _ Hi) in *. destruct (sn_streams _ _ _ Hs i s Hi) as [O1 O2 O3 O4 O5]. destruct (O3 Hr) as [Hsb Hfin].
  pose proof (trim_send i s (hasLost (send s)).2 c _ W Hs Hi Hr eq_refl) as Hs0. pose proof (hasLost_inv _ _ _ Hsb) as Hsb0.
  destruct (hasLost (send s)) as [l sb] eqn:El. cbn [snd] in Hs0, Hsb0. set (s0 := s <| send := sb |>) in *.
  assert (Hp0 : packs i c (put i s0 c)) by (apply packs_put; by rewrite (get_at _ _ _ Hi)).
  destruct l; cbn [negb]; [|eexists _, _, _, _; split; [done|]; split_and!; [done|done|lia|lia]].
  assert (Htrim : trim_lost (base sb) (QuicBuffer.lost sb) = QuicBuffer.lost sb /\ next sb = next (send s) /\ base sb = base (send s) /\ 0 < len (QuicBuffer.lost sb)).
  { unfold hasLost in El. injection El as E1 E2. subst sb. cbn. rewrite trim_idem. split_and!; try done. by apply Z.ltb_lt. }
  destruct Htrim as (Htrim & Hnx & Hbase & Hne). destruct (QuicBuffer.lost sb) as [|l rest] eqn:Elost; [by unfold len in Hne|].
  set (avail := max - len b - 1 - _ - _ - 2). pose proof (inv_range _ Hsb0) as Hrg. cbn in Hrg.
  destruct (Z.leb_spec avail 0) as [|Ha]; [eexists _, _, _, _; split; [done|]; split_and!; [done|done|lia|lia]|].
  pose proof (VarintLen_range (id s)). pose proof (VarintLen_range (off l)). pose proof (len_nonneg b).
  assert (Hav : 0 < avail < 2 ^ 62) by (unfold avail in *; lia).
  destruct (popLost_spec _ _ _ avail Hav Hsb0) as (o & e & lost' & Hpop & Hoe & Hen & _). rewrite Hpop.
  set (d := stream_at (W i) o (e - o)) in *. set (sb1 := SendBuffer (base sb) (buf sb) (next sb) lost' (acked sb)) in *. set (s1 := s <| send := sb1 |>).
  destruct (popLost_head _ _ _ avail l rest o d sb1 Hsb0) as [Ho Hd]; [by rewrite Elost|done|done|done|].
  pose proof (popLost_inv _ _ _ _ _ _ _ Hav Hsb0 Hpop) as Hsb1. rewrite put_put.
  assert (Hs1 : forall fin, send_inv ((outs ++ frames p) ++ [SentFrame sfStream fin i o (len d)]) W (put i s1 c)).
  { intros fin. eapply send_ext; [|apply (taken_send i s sb1 o d fin c _ W Hs Hi Hr Hsb1)]; [|cbn; lia|cbn; pose proof (sn_max _ _ _ Hs); lia].
    unfold send_view. cbn. do 3 f_equal. cbn. lia. }
  assert (Hi1 : is_Some (store (put i s1 c) !! i)) by (eexists; apply store_put).
  assert (Hp1 : packs i c (put i s1 c)) by (apply packs_put; by rewrite (get_at _ _ _ Hi)).
  pose proof (appendStreamFrame_len i b o d p (put i s1 c)) as Hlen. destruct (frame_adds i b o d p (put i s1 c)) as [fin Hfr].
  pose proof (frame_packs i b o d p _ Hi1) as Hp2. pose proof (frame_send i b o d p _ _ W Hi1 (Hs1 fin)) as Hs2.
  rewrite get_put in Hlen. change (id s1) with (id s) in Hlen.
  destruct (appendStreamFrame i b o d p (put i s1 c)) as [[b2 p2] c2]. cbn [fst snd] in *. rewrite <- app_assoc, <- Hfr in Hs2.
  pose proof (len_nonneg d). pose proof (VarintLen_small (len d) ltac:(lia)). pose proof (VarintLen_range (len d)). pose proof (VarintLen_range o).
  assert (Hb2 : len b < len b2 <= max + 7) by (destruct (0 <? o); lia).
  destruct (IH b2 p2 c2) as (b' & p' & c' & full & -> & Hs' & Hp' & Hlb & Hlm); [done|by eapply packs_made|..].
  { destruct (packs_get _ _ _ Hp2) as (_ & _ & _ & ->). by rewrite get_put. } { done. } { lia. } { lia. }
  eexists _, _, _, _. split; [reflexivity|]. split_and!; [done| |lia|lia]. eapply packs_trans; [exact Hp1|]. by eapply packs_trans.
Qed.

(** Frames without data add nothing to what is in flight. *)
Lemma send_outs f c outs W :
  send_inv outs W c -> (forall j, carries j f = false) -> (of_stream f = true -> is_Some (store c !! sf_stream f)) -> send_inv (outs ++ [f]) W c.
Proof.
  intros [H1 H2 H3 H4 H5 H6] Hc Hk. constructor; try done.
  - intros i s Hi. destruct (H1 i s Hi) as [O1 O2 O3 O4 O5].
    assert (Hf : List.filter (carries i) (outs ++ [f]) = List.filter (carries i) outs).
    { rewrite List.filter_app. cbn. rewrite Hc. by rewrite app_nil_r. }
    constructor; try done; [unfold flight_of; by rewrite Hf|].
    intros g Hg Hcg. apply elem_of_app in Hg as [Hg|Hg%list_elem_of_singleton]; [by apply O5|]. subst g. by rewrite Hc in Hcg.
  - intros g Hg Hkg. apply elem_of_app in Hg as [Hg|Hg%list_elem_of_singleton]; [by apply H2|]. subst g. auto.
Qed.

(** One of the three frames that carry no data. *)
Lemma pending_one (pend : bool) b f max kind p i s s1 c outs W (r : bytes * sentPacket * Stream) :
  r = (if pend then match append_if b f max with Some b => (b, add (SentFrame kind false i 0 0) p, s1) | None => (b, p, s) end else (b, p, s)) ->
  kind <> sfStream -> is_Some (store c !! i) -> send_inv (outs ++ frames p) W c -> len b <= max + 7 ->
  sview s1 = sview s -> queued s1 = queued s -> done_ s1 = done_ s ->
  send_inv (outs ++ frames r.1.2) W c /\ sview r.2 = sview s /\ queued r.2 = queued s /\ done_ r.2 = done_ s /\
  len b <= len r.1.1 <= max + 7 /\ (len b <= max -> len r.1.1 <= max).
Proof.
  intros -> Hk Hi Hs Hb E1 E2 E3. pose proof (len_nonneg f). unfold append_if.
  destruct pend; [|cbn; split_and!; [done..|lia|lia|lia]].
  destruct (Z.leb_spec (len b + len f) max); cbn; [|split_and!; [done..|lia|lia|lia]].
  rewrite len_app. split_and!; [|done..|lia|lia|lia]. rewrite app_assoc. apply send_outs; [done| |done].
  intros j. unfold carries. cbn. by destruct kind.
Qed.

Lemma appendPending_spec i b max p c outs W :
  send_inv (outs ++ frames p) W c -> is_Some (store c !! i) -> len b <= max + 7 ->
  let r := appendPending i b max p c in
  send_inv (outs ++ frames r.1.2) W r.2 /\ packs i c r.2 /\ len b <= len r.1.1 <= max + 7 /\ (len b <= max -> len r.1.1 <= max).
Proof.
  intros Hs Hi Hb. unfold appendPending. cbn zeta.
  set (r1 := if stopPending (get i c) then _ else _).
  destruct (pending_one _ b _ max sfStopSending p i _ _ c outs W r1 eq_refl) as (A1 & A2 & A3 & A4 & A5 & A6); [done..|].
  destruct r1 as [[b1 p1] s1]. cbn [fst snd] in *.
  set (r2 := if streamDataPending s1 then _ else _).
  destruct (pending_one _ b1 _ max sfMaxStreamData p1 i _ _ c outs W r2 eq_refl) as (B1 & B2 & B3 & B4 & B5 & B6); [done|done|done|lia|done|done|done|].
  destruct r2 as [[b2 p2] s2]. cbn [fst snd] in *.
  set (r3 := if resetPending s2 then _ else _).
  destruct (pending_one _ b2 _ max sfResetStream p2 i _ _ c outs W r3 eq_refl) as (C1 & C2 & C3 & C4 & C5 & C6); [done|done|done|lia|done|done|done|].
  destruct r3 as [[b3 p3] s3]. cbn [fst snd] in *.
  assert (Hv : sview s3 = sview (get i c)) by congruence.
  split; [|split; [|split; lia]].
  - destruct Hi as [s Hi]. eapply send_ext; [|exact C1]. symmetry. apply (send_view_put i s); [done|]. by rewrite Hv, (get_at _ _ _ Hi).
  - injection Hv as V1 _ _ _ _ V6. apply packs_put; congruence.
Qed.

Lemma appendStreamFrames_spec i b max p c outs W :
  send_inv (outs ++ frames p) W c -> is_Some (store c !! i) -> 0 <= sentData c -> max <= 16384 -> len b <= max ->
  exists b' p' c', appendStreamFrames i b max p c = Some (b', p', c') /\
    send_inv (outs ++ frames p') W c' /\ packs i c c' /\ len b <= len b' /\ len b' <= max + 7.
Proof.
  intros Hs Hi Hpos Hmax Hb. unfold appendStreamFrames.
  destruct (appendPending_spec i b max p c outs W Hs Hi ltac:(lia)) as (Hs1 & Hp1 & Hl1 & Hm1).
  destruct (appendPending i b max p c) as [[b1 p1] c1]. cbn [fst snd] in *. pose proof (packs_made _ _ _ Hp1) as Hi1.
  pose proof (pk_sent _ _ _ Hp1). specialize (Hm1 Hb).
  destruct (reset (get i c1)) eqn:Er; [eexists _, _, _; split; [reflexivity|]; split_and!; [done..|lia|lia]|].
  destruct (negb _); cbn [orb]; [eexists _, _, _; split; [reflexivity|]; split_and!; [done..|lia|lia]|].
  destruct (lost_loop_spec (S (Z.to_nat (max - len b1))) i b1 max p1 c1 outs W) as (b2 & p2 & c2 & full2 & -> & Hs2 & Hp2 & Hl2 & Hm2);
    [done..|lia|lia|]. pose proof (packs_made _ _ _ Hp2) as Hi2. pose proof (pk_sent _ _ _ Hp2).
  pose proof (packs_trans _ _ _ _ Hp1 Hp2) as Hp12.
  destruct full2; [eexists _, _, _; split; [reflexivity|]; split_and!; [done..|lia|lia]|].
  destruct (new_loop_spec (S (Z.to_nat (max - len b1))) i b2 max p2 c2 outs W) as (b3 & p3 & c3 & full3 & -> & Hs3 & Hp3 & Hl3 & Hm3 & Hm3');
    [done|done| |lia|done|lia|lia|].
  { destruct (packs_get _ _ _ Hp2) as (_ & _ & _ & ->). done. }
  pose proof (packs_made _ _ _ Hp3) as Hi3. pose proof (packs_trans _ _ _ _ Hp12 Hp3) as Hp13.
  destruct full3; [eexists _, _, _; split; [reflexivity|]; split_and!; [done..|lia|lia]|].
  destruct (_ && _ && _) eqn:Efin; [|eexists _, _, _; split; [reflexivity|]; split_and!; [done..|lia|lia]].
  apply andb_true_iff in Efin as [_ Eroom%Z.leb_le]. destruct Hi3 as [s Hi3].
  set (o := next (send (get i c3))) in *.
  destruct (frame_adds i b3 o [] p3 c3) as [fin Hfr]. pose proof (appendStreamFrame_len i b3 o [] p3 c3) as Hlen.
  pose proof (frame_packs i b3 o [] p3 c3 (mk_is_Some _ _ Hi3)) as Hp4. change (len []) with 0 in *. change (VarintLen 0) with 1 in Hlen.
  assert (Hs4 : send_inv (outs ++ frames p3 ++ [SentFrame sfStream fin i o 0]) W (appendStreamFrame i b3 o [] p3 c3).2).
  { apply frame_send; [by eexists|]. rewrite app_assoc.
    assert (Hr3 : reset s = false). { destruct (packs_get _ _ _ Hp13) as (_ & _ & _ & Hr). destruct (packs_get _ _ _ Hp1) as (_ & _ & _ & Hr'). rewrite (get_at _ _ _ Hi3) in Hr. congruence. }
    destruct (sn_streams _ _ _ Hs3 i s Hi3) as [O1 O2 O3 O4 O5]. destruct (O3 Hr3) as [Hsb _]. pose proof (inv_range _ Hsb) as Hrg. cbn in Hrg.
    assert (Ho : o = next (send s)) by (unfold o; by rewrite (get_at _ _ _ Hi3)).
    eapply send_ext; [|apply (taken_send i s (send s) o [] fin c3 _ W Hs3 Hi3 Hr3)]; [|..|lia|pose proof (sn_max _ _ _ Hs3); lia].
    - unfold send_view. cbn. rewrite insert_id by (rewrite Hi3; by destruct s). do 3 f_equal. lia.
    - eapply sb_inv_more; [exact Hsb| |set_solver]. apply Forall_cons. split; [|apply (inv_frames _ Hsb)].
      split_and!; cbn; change (len []) with 0; [lia|lia|done]. }
  destruct (appendStreamFrame i b3 o [] p3 c3) as [[b4 p4] c4]. cbn [fst snd] in *. rewrite <- Hfr in Hs4.
  exists b4, p4, c4. split; [done|]. split; [done|]. split; [by eapply packs_trans|].
  pose proof (VarintLen_range (id (get i c3))). pose proof (VarintLen_range o). destruct (0 <? o); lia.
Qed.

(** ** The queue while a packet is filled *)

Lemma sent_nonneg outs W c : send_inv outs W c -> 0 <= sentData c.
Proof. intros [H1 _ -> _ _ _]. apply msum_nonneg. intros i s Hi. destruct (H1 i s Hi). lia. Qed.

Lemma queue_packs i c c' l :
  queue_inv [] (c <| sendQueue := l |>) -> packs i c c' -> is_Some (store c !! i) -> queued (get i c) = true ->
  0 <= sentData c -> peerMaxData c <= maxVarint -> queue_inv [] (c' <| sendQueue := l |>).
Proof.
  intros [Q1 Q2 Q3 Q4] [(s' & Hst & Hq & Hd & _) Hc Hsent] [s Hi] Hqd H0 Hm. cbn in *. injection Hc as C1 C2 C3 C4 C5.
  rewrite (get_at _ _ _ Hi) in *. constructor; cbn; rewrite ?Hst, ?C3; [done|..].
  - intros j. rewrite Q2. split; intros (t & Ht & Hb).
    + destruct (decide (j = i)) as [->|]; [exists s'|exists t]; rewrite ?lookup_insert_eq, ?lookup_insert_ne by done; [split; [done|congruence]|done].
    + apply lookup_insert_Some in Ht as [[<- <-]|[_ Ht]]; [by exists s|by exists t].
  - intros j t _ [[<- <-]|[_ Ht]]%lookup_insert_Some Hdn Hw; [congruence|]. apply (Q3 j t); [done..|].
    eapply (wants_credit (c <| sendQueue := l |>) (c' <| sendQueue := l |>)); [done|done|cbn; congruence|done].
  - intros j. rewrite Q4. split; intros (t & Ht & Hb).
    + destruct (decide (j = i)) as [->|]; [exists s'|exists t]; rewrite ?lookup_insert_eq, ?lookup_insert_ne by done; [split; [done|congruence]|done].
    + apply lookup_insert_Some in Ht as [[<- <-]|[_ Ht]]; [exists s|by exists t]. split; [done|congruence].
Qed.

Lemma wants_trim c s b : b = (hasLost (send s)).2 -> wants c (s <| send := b |>) = wants c s.
Proof. intros ->. unfold wants, sendCredit, sb_end. cbn. by rewrite trim_idem. Qed.

Lemma sendable_put i c : is_Some (store c !! i) ->
  exists b, (sendable i c).2 = put i (get i c <| send := b |>) c /\ (b = send (get i c) \/ b = (hasLost (send (get i c))).2).
Proof.
  intros Hi. assert (Hsame : exists b, c = put i (get i c <| send := b |>) c /\ (b = send (get i c) \/ b = (hasLost (send (get i c))).2)).
  { exists (send (get i c)). split; [|by left]. replace (get i c <| send := send (get i c) |>) with (get i c) by by destruct (get i c). by rewrite put_get. }
  unfold sendable. destruct (_ || _ || _); [done|]. destruct (_ || _); [done|].
  destruct (hasLost (send (get i c))) as [l b] eqn:E. exists b. split; [|by right]. repeat (case_match; try done).
Qed.

Lemma sendable_after i c : is_Some (store c !! i) ->
  let r := sendable i c in packs i c r.2 /\ wants r.2 (get i r.2) = r.1.
Proof.
  intros Hi. cbn zeta. rewrite sendable_wants. destruct (sendable_put i c Hi) as (b & -> & Hb). split.
  - by apply packs_put.
  - rewrite get_put. destruct Hb as [-> | ->]; [by replace (get i c <| send := send (get i c) |>) with (get i c) by by destruct (get i c)|].
    by rewrite <- (wants_trim c (get i c) _ eq_refl).
Qed.

Lemma queue_remove i s c before rest :
  queue_inv [] (c <| sendQueue := before ++ i :: rest |>) -> store c !! i = Some s -> done_ s = true \/ wants c s = false ->
  queue_inv [] (put i (s <| queued := false |>) c <| sendQueue := before ++ rest |>).
Proof.
  intros [Q1 Q2 Q3 Q4] Hi Hw. cbn in *. assert (Hnd : NoDup (before ++ rest) /\ i ∉ before ++ rest).
  { apply (NoDup_Permutation_proper _ _ (symmetry (Permutation_middle before rest i))) in Q1. by apply NoDup_cons in Q1 as [? ?]. }
  destruct Hnd as [Hnd Hni]. constructor; cbn; [done|..].
  - intros j. split.
    + intros Hj. destruct (proj1 (Q2 j)) as (t & Ht & Hb); [set_solver|]. exists t. rewrite lookup_insert_ne; [done|]. by intros <-.
    + intros (t & [[<- <-]|[Hne Ht]]%lookup_insert_Some & Hb); [done|]. assert (Hj : j ∈ before ++ i :: rest) by (apply Q2; eauto). set_solver.
  - intros j t _ [[<- <-]|[_ Ht]]%lookup_insert_Some Hd Hwt; [|by apply (Q3 j t)]. cbn in Hd. exfalso.
    destruct Hw as [?|Hw]; [congruence|]. assert (wants c s = true) by (by erewrite wants_ext). congruence.
  - intros j. rewrite Q4. split; intros (t & Ht & Hb).
    + destruct (decide (j = i)) as [->|]; [exists (s <| queued := false |>)|exists t]; rewrite ?lookup_insert_eq, ?lookup_insert_ne by done; [by simplify_eq|done].
    + apply lookup_insert_Some in Ht as [[<- <-]|[_ Ht]]; [by exists s|by exists t].
Qed.

Lemma packs_send_view i c c' x : packs i c c' -> is_Some (store c !! x) -> is_Some (store c' !! x).
Proof. intros [(s' & -> & _) _ _] [s Hs]. destruct (decide (x = i)) as [->|]; rewrite ?lookup_insert_eq, ?lookup_insert_ne by done; eauto. Qed.

Lemma streams_loop_spec queue before b max p c outs W :
  send_inv (outs ++ frames p) W c -> queue_inv [] (c <| sendQueue := before ++ queue |>) -> max <= 16384 -> len b <= max + 7 ->
  exists b' p' c' bf rest, streams_loop queue before b max p c = Some (b', p', c', bf, rest) /\
    send_inv (outs ++ frames p') W c' /\ queue_inv [] (c' <| sendQueue := bf ++ rest |>) /\ len b <= len b' <= max + 7 /\ closed c' = closed c.
Proof.
  revert before b p c. induction queue as [|i queue IH]; intros before b p c Hs Hq Hmax Hb; cbn [streams_loop].
  { eexists _, _, _, _, _. split; [reflexivity|]. split_and!; [done|done|lia|lia|done]. }
  destruct (Z.leb_spec (max - len b) 16) as [|Hroom]; [eexists _, _, _, _, _; split; [reflexivity|]; split_and!; [done|done|lia|lia|done]|].
  pose proof (sent_nonneg _ _ _ Hs) as H0. pose proof (sn_max _ _ _ Hs) as Hsm.
  destruct (proj1 (qi_queued _ _ Hq i)) as (s & Hi & Hqd); [cbn; set_solver|]. cbn in Hi. rewrite (get_at _ _ _ Hi).
  assert (Hpk : exists b1 p1 c1, (if done_ s then Some (b, p, c) else appendStreamFrames i b max p c) = Some (b1, p1, c1) /\
    send_inv (outs ++ frames p1) W c1 /\ packs i c c1 /\ len b <= len b1 /\ len b1 <= max + 7).
  { destruct (done_ s); [|apply appendStreamFrames_spec; [done|by eexists|done|done|lia]].
    eexists _, _, _. split; [reflexivity|]. split_and!; [done|by apply packs_refl; eexists|lia|lia]. }
  destruct Hpk as (b1 & p1 & c1 & -> & Hs1 & Hp1 & Hl1 & Hm1). pose proof (packs_made _ _ _ Hp1) as Hi1.
  destruct (packs_get _ _ _ Hp1) as (Hq1 & Hd1 & _). rewrite (get_at _ _ _ Hi) in Hq1, Hd1.
  apply (queue_packs i c c1) in Hq; [|done|by eexists|by rewrite (get_at _ _ _ Hi)|done|lia].
  set (r := if done_ (get i c1) then (false, c1) else sendable i c1).
  assert (Hr : packs i c1 r.2 /\ send_inv (outs ++ frames p1) W r.2 /\ (r.1 = false -> done_ (get i r.2) = true \/ wants r.2 (get i r.2) = false)).
  { unfold r. destruct (done_ (get i c1)) eqn:Ed; cbn; [split_and!; [by apply packs_refl|done|by left]|].
    destruct (sendable_after i c1 Hi1) as [Ha Hw]. split_and!; [done|by apply sendable_send|]. intros Hf. right. congruence. }
  destruct r as [more c2]. cbn [fst snd] in Hr. destruct Hr as (Hp2 & Hs2 & Hmore).
  apply (queue_packs i c1 c2) in Hq; [|done|done|congruence|by eapply sent_nonneg|pose proof (sn_max _ _ _ Hs1); lia].
  assert (Hcl : closed c2 = closed c).
  { pose proof (pk_conn _ _ _ Hp1) as C1. pose proof (pk_conn _ _ _ Hp2) as C2. injection C1 as C1 _ _ _ _. injection C2 as C2 _ _ _ _. congruence. }
  pose proof (packs_made _ _ _ Hp2) as [s2 Hi2]. rewrite (get_at _ _ _ Hi2) in *. destruct more.
  - destruct (IH (before ++ [i]) b1 p1 c2) as (b' & p' & c' & bf & rest & -> & Hs' & Hq' & Hl' & Hc'); [done|by rewrite <- app_assoc|done|done|].
    eexists _, _, _, _, _. split; [reflexivity|]. split_and!; [done|done|lia|lia|congruence].
  - set (s3 := s2 <| queued := false |>).
    destruct (IH before b1 p1 (put i s3 c2)) as (b' & p' & c' & bf & rest & -> & Hs' & Hq' & Hl' & Hc'); [..|done|done|].
    + eapply send_ext; [|exact Hs2]. symmetry. by apply (send_view_put i s2).
    + by apply queue_remove; [..|apply Hmore].
    + eexists _, _, _, _, _. split; [reflexivity|]. split_and!; [done|done|lia|lia|]. rewrite Hc'. done.
Qed.

Lemma queue_perm x c l : queue_inv x c -> l ≡ₚ sendQueue c -> queue_inv x (c <| sendQueue := l |>).
Proof.
  intros [Q1 Q2 Q3 Q4] Hl. constructor; cbn; [by rewrite Hl| |done|done]. intros i. rewrite Hl. apply Q2.
Qed.

(** A packet is filled without a panic, within its room but for the last seven bytes. *)
Lemma appendStreams_spec b max p c outs W :
  send_inv (outs ++ frames p) W c -> queue_inv [] c -> max <= 16384 -> len b <= max ->
  exists b' p' c', appendStreams b max p c = Some (b', p', c') /\
    send_inv (outs ++ frames p') W c' /\ queue_inv [] c' /\ len b <= len b' <= max + 7 /\ closed c' = closed c.
Proof.
  intros Hs Hq Hmax Hb. unfold appendStreams.
  destruct (streams_loop_spec (sendQueue c) [] b max p c outs W) as (b' & p' & c' & bf & rest & -> & Hs' & Hq' & Hl & Hc); [done| |done|lia|].
  { by eapply queue_same; [..|exact Hq]. }
  eexists _, _, _. split; [reflexivity|]. split_and!; [..|lia|lia|done].
  - by eapply send_ext; [|exact Hs'].
  - match goal with |- queue_inv [] (c' <| sendQueue := ?l |>) => refine (queue_perm [] (c' <| sendQueue := bf ++ rest |>) l Hq' _) end.
    cbn [sendQueue change]. destruct bf as [|f bf]; [done|]. cbn [app]. destruct (bf ++ rest) as [|g tl]; [done|]. symmetry. apply Permutation_cons_append.
Qed.

(** * The other operations and the queue *)

Lemma write_queue i p fin c c' : is_Some (store c !! i) -> writeLocked i p fin c = (None, c') -> queue_inv [] c -> queue_inv [] c' /\ closed c' = closed c.
Proof.
  intros [s Hi]. unfold writeLocked. rewrite (get_at _ _ _ Hi). destruct (closed c) eqn:Ec; [done|]. destruct (_ || _ || _); [done|]. intros [= <-] Hq. split.
  - eapply queue_put_queue; [done|done|by destruct fin..].
  - unfold queueStream. by destruct (_ || _).
Qed.

Lemma reset_queue i code c : is_Some (store c !! i) -> queue_inv [] c -> queue_inv [] (resetLocked i code c).
Proof. intros [s Hi] Hq. unfold resetLocked. rewrite (get_at _ _ _ Hi). destruct (_ || _ || _); [done|]. by eapply queue_put_queue. Qed.

Lemma acked_queue i f fin c c' outs W :
  send_inv outs W c -> f ∈ outs -> carries i f = true -> onDataAcked i (sf_off f) (sf_n f) fin c = Some c' ->
  closed c' = false -> queue_inv [] c -> queue_inv [] c'.
Proof.
  intros Hs Hf Hc. unfold onDataAcked. destruct (carries_made _ _ _ _ _ Hs Hf Hc) as [s Hi].
  rewrite (get_at _ _ _ Hi). destruct (reset s) eqn:Er; [by intros [= <-]|].
  destruct (sn_streams _ _ _ Hs i s Hi) as [O1 O2 O3 O4 O5]. destruct (O3 Er) as [Hsb Hfin]. pose proof (inv_range _ Hsb) as Hrg. cbn in Hrg.
  destruct (O5 f Hf Hc) as (? & ? & ?).
  destruct (ack_keep _ _ _ (as_frame (W i) f) Hsb) as (b' & Ha & Hb & Hn & Hl & Hbs & He).
  { apply list_elem_of_fmap_2, list_elem_of_In, List.filter_In. split; [by apply list_elem_of_In|done]. }
  rewrite (as_frame_len _ _ (next (send s))) in Ha by lia. cbn [as_frame f_off] in Ha. rewrite Ha. intros [= <-] Hcl Hq.
  set (s1 := if fin then _ else _) in *. apply (cm_queue _ _ (calm_finish i (put i s1 c) (mk_is_Some _ _ (store_put _ _ _)))); [done|].
  eapply queue_put; [done|done|unfold s1; by destruct fin..|]. intros _ Hd Hw. apply (qi_wants _ _ Hq i s); [done..|].
  assert (Hw1 : wants c (s <| send := b' |>) = true) by (rewrite <- Hw; unfold s1; destruct fin; [|done]; by apply wants_ext).
  revert Hw1. clear -Hn Hl Hbs He. unfold wants, sendCredit. cbn. rewrite Hn, Hl, He.
  destruct (_ || resetPending s); [done|]. cbn. destruct (negb _); [|done]. cbn.
  destruct (0 <? len (trim_lost (base b') (lost (send s)))) eqn:E; [|cbn; intros ->; apply orb_true_r].
  apply (trim_mono (base (send s))) in E; [|lia]. by rewrite E.
Qed.

Lemma lost_queue i o n fin c : is_Some (store c !! i) -> queue_inv [] c -> queue_inv [] (onDataLost i o n fin c).
Proof.
  intros [s Hi] Hq. unfold onDataLost. rewrite (get_at _ _ _ Hi). destruct (_ || _); [done|]. eapply queue_put_queue; [done|done|by case_match..].
Qed.

(** New streams have nothing to send. *)
Lemma fresh_wants i c c' : wants c' (fresh_stream i c) = false.
Proof. unfold wants, fresh_stream. cbn. by destruct (_ || _). Qed.

Lemma extends_queue c c' : extends c c' -> queue_inv [] c -> queue_inv [] c'.
Proof.
  intros [(E1 & E2 & E3 & E4 & E5 & E6 & E7 & E8 & E9) Hold Hnew Hlive] [Q1 Q2 Q3 Q4]. constructor; rewrite ?E8; [done|..].
  - intros i. rewrite Q2. split; intros (s & Hs & Hb); [exists s; eauto|]. destruct (Hnew i s Hs) as [?|[_ ->]]; [by exists s|done].
  - intros i s _ Hs Hd Hw. destruct (Hnew i s Hs) as [Ho|[_ ->]]; [|by rewrite fresh_wants in Hw]. apply (Q3 i s); [done..|]. by erewrite wants_ext.
  - intros i. rewrite Hlive. split.
    + intros [Hi%Q4|[Hn [s Hs]]]; [destruct Hi as (s & Hs & Hd); exists s; eauto|]. exists s. split; [done|].
      destruct (Hnew i s Hs) as [?|[_ ->]]; [congruence|done].
    + intros (s & Hs & Hd). destruct (Hnew i s Hs) as [Ho|[Hn _]]; [left; apply Q4; eauto|]. right. split; [done|by eexists].
Qed.

(** A map with elements of no weight added. *)
Lemma msum_extend {A} (f : A -> Z) (m m' : gmap Z A) :
  (forall i x, m !! i = Some x -> m' !! i = Some x) -> (forall i x, m' !! i = Some x -> m !! i = Some x \/ f x = 0) -> msum f m' = msum f m.
Proof.
  revert m. induction m' as [|i x m' Hi IH] using map_ind; intros m Hold Hnew.
  { replace m with (∅ : gmap Z A); [done|]. symmetry. apply map_eq. intros j. rewrite lookup_empty.
    destruct (m !! j) eqn:E; [|done]. apply Hold in E. by rewrite lookup_empty in E. }
  rewrite msum_new by done. destruct (m !! i) as [y|] eqn:Ey.
  - assert (y = x) as ->. { apply Hold in Ey. rewrite lookup_insert_eq in Ey. congruence. }
    rewrite (msum_delete f m i x Ey). f_equal. apply IH.
    + intros j z [Hne Hj]%lookup_delete_Some. apply Hold in Hj. by rewrite lookup_insert_ne in Hj.
    + intros j z Hj. destruct (decide (j = i)) as [->|]; [congruence|]. rewrite lookup_delete_ne by done. apply Hnew. by rewrite lookup_insert_ne.
  - assert (f x = 0) as ->. { destruct (Hnew i x) as [?|?]; [apply lookup_insert_eq|congruence|done]. }
    apply IH.
    + intros j z Hj. pose proof (Hold j z Hj) as Hj'. rewrite lookup_insert_ne in Hj'; [done|congruence].
    + intros j z Hj. apply Hnew. rewrite lookup_insert_ne; [done|congruence].
Qed.

Lemma fresh_send outs W i c : send_inv outs W c -> store c !! i = None -> stream_ok outs (W i) i (fresh_stream i c).
Proof.
  intros Hs Hi. rewrite (sn_unmade _ _ _ Hs i Hi).
  assert (Hf : List.filter (carries i) outs = []).
  { destruct (List.filter (carries i) outs) as [|f l] eqn:E; [done|]. assert (Hin : List.In f (List.filter (carries i) outs)) by (rewrite E; by left).
    apply List.filter_In in Hin as [Hin Hc]. apply list_elem_of_In in Hin. destruct (carries_made _ _ _ _ _ Hs Hin Hc) as [s Hs']. congruence. }
  constructor; [done|done|..].
  - intros _. split; [|done]. unfold flight_of. rewrite Hf. apply sb_init_inv.
  - unfold fresh_stream. cbn. pose proof (sn_params _ _ _ Hs) as Hp. destruct (peerParams c) as [p|]; [|unfold maxVarint; lia].
    destruct (Hp p eq_refl) as (_ & ? & ? & ? & _). repeat case_match; lia.
  - intros f Hin Hc. destruct (carries_made _ _ _ _ _ Hs Hin Hc) as [s Hs']. congruence.
Qed.

Lemma extends_send outs W c c' : extends c c' -> send_inv outs W c -> send_inv outs W c'.
Proof.
  intros Hx Hs. pose proof Hx as [(E1 & E2 & E3 & E4 & E5 & E6 & E7 & E8 & E9) Hold Hnew Hlive]. destruct Hs as [H1 H2 H3 H4 H5 H6] eqn:Ehs. clear Ehs.
  constructor; rewrite ?E3, ?E5, ?E6; try done.
  - intros i s Hi. destruct (Hnew i s Hi) as [?|[Hn ->]]; [eauto|]. by apply fresh_send.
  - intros f Hf Hk. destruct (H2 f Hf Hk) as [s Hi]. eauto.
  - rewrite H3. symmetry. apply msum_extend; [done|]. intros i s Hi. destruct (Hnew i s Hi) as [?|[Hn ->]]; [by left|by right].
  - intros i Hi. apply H6. destruct (store c !! i) eqn:E; [|done]. apply Hold in E. congruence.
Qed.

(** ** More room from the peer *)

Lemma maxdata_send max order c outs W :
  send_inv outs W c -> (forall i, i ∈ order -> is_Some (store c !! i)) -> max <= maxVarint -> send_inv outs W (onMaxData max order c).
Proof.
  intros Hs Ho Hm. unfold onMaxData. destruct (Z.ltb_spec (peerMaxData c) max); [|done].
  set (c0 := c <| peerMaxData := max |>).
  assert (Hs0 : send_inv outs W c0). { destruct Hs. constructor; try done. cbn. lia. }
  assert (Ho0 : forall i, i ∈ order -> is_Some (store c0 !! i)) by done. clearbody c0. clear Hs Ho. revert c0 Hs0 Ho0.
  induction order as [|i order IH]; intros c1 Hs1 Ho1; [done|]. cbn [fold_left].
  assert (Hi : is_Some (store c1 !! i)) by (apply Ho1; set_solver). pose proof (sendable_send i c1 outs W Hs1 Hi) as Hs2.
  pose proof (sendable_quiet i c1 Hi) as Hq. destruct (sendable i c1) as [more c2]. cbn in Hs2, Hq.
  pose proof (quiet_made _ _ _ Hq Hi) as [s2 Hi2].
  apply IH; [destruct more; [by eapply queue_send|done]|].
  intros j Hj. apply (quiet_made c2); [destruct more; [by apply quiet_queue; eexists|done]|]. apply (quiet_made _ _ _ Hq), Ho1. set_solver.
Qed.

Lemma maxdata_queue max order c :
  queue_inv [] c -> (forall i, i ∈ order <-> i ∈ streams c) -> queue_inv [] (onMaxData max order c) /\ closed (onMaxData max order c) = closed c.
Proof.
  intros Hq Ho. unfold onMaxData. destruct (peerMaxData c <? max); [|done].
  set (c0 := c <| peerMaxData := max |>).
  assert (Hq0 : queue_inv order c0).
  { destruct Hq as [Q1 Q2 Q3 Q4]. constructor; try done. intros i s Hn Hi Hd _. exfalso. apply Hn, Ho, Q4. eauto. }
  assert (Ho0 : forall i, i ∈ order -> is_Some (store c0 !! i)).
  { intros i Hi. apply Ho, (qi_live _ _ Hq) in Hi as (s & Hs & _). by exists s. }
  change (closed c) with (closed c0). clearbody c0. clear Hq Ho. revert c0 Hq0 Ho0.
  induction order as [|i order IH]; intros c1 Hq1 Ho1; [done|]. cbn [fold_left].
  assert (Hi : is_Some (store c1 !! i)) by (apply Ho1; set_solver).
  pose proof (sendable_wants i c1) as Hw. destruct (sendable_put i c1 Hi) as (b & Hc2 & Hb). destruct Hi as [s Hi].
  rewrite (get_at _ _ _ Hi) in *. destruct (sendable i c1) as [more c2]. cbn in Hw, Hc2. subst c2. set (s2 := s <| send := b |>).
  assert (Hw2 : wants c1 s2 = more).
  { rewrite Hw. unfold s2. destruct Hb as [-> | ->]; [|by apply wants_trim]. by replace (s <| send := send s |>) with s by by destruct s. }
  assert (Hq2 : queue_inv (i :: order) (put i s2 c1)) by (eapply queue_put; [done..|]; set_solver).
  set (c3 := if more then queueStream i (put i s2 c1) else put i s2 c1).
  assert (Hq3 : queue_inv order c3 /\ closed c3 = closed c1).
  { unfold c3. destruct more; [split; [|by unfold queueStream; case_match]|split; [|done]].
    - assert (Hsub : forall l, queue_inv (i :: l) (put i s2 c1) -> queue_inv l (queueStream i (put i s2 c1))) by (intros l; apply (queue_queue_more i s2), store_put).
      by apply Hsub.
    - destruct Hq2 as [Q1 Q2 Q3 Q4]. constructor; try done. intros j t Hn Hj Hd Hwt. destruct (decide (j = i)) as [->|]; [|apply (Q3 j t); [set_solver|done..]].
      rewrite store_put in Hj. assert (t = s2) as -> by congruence. exfalso. assert (wants c1 s2 = true) by (rewrite <- Hwt; by apply wants_ext). congruence. }
  destruct (IH c3) as [Hq4 Hc4]; [by destruct Hq3| |split; [done|destruct Hq3; congruence]].
  intros j Hj. assert (Hk : is_Some (store (put i s2 c1) !! j)).
  { destruct (decide (j = i)) as [->|]; [by eexists; apply store_put|]. cbn. rewrite lookup_insert_ne by done. apply Ho1. set_solver. }
  unfold c3. destruct more; [|done]. by eapply keeps_made; [apply queue_keeps; eexists; apply store_put|].
Qed.
