(* ===== verification/QuicConn.v ===== *)
(** A QUIC connection's streams under any peer and any application: the steps
    that act on them, their invariant, and what follows.

    A step is what happens under the connection's lock: a call of the
    application, a frame of a packet that arrived, whatever its bytes, a packet
    that is filled, an acknowledgement or a loss.  [outs] are all the frames ever
    sent, [wrote] what the application wrote to each stream. *)
From S2P Require Import Prelude.
From S2P Require Import Varint.
From S2P Require Import QuicBuffer.
From S2P Require Import QuicFrames.
From S2P Require Import QuicParams.
From S2P Require Import QuicPacket.
From S2P Require Import QuicRecovery.
From S2P Require Import QuicStream.
From S2P Require Import QuicFlow.
From S2P Require Import QuicIds.
From S2P Require Import QuicSend.

(** [newConn], as far as streams go. *)
Definition newConn (client : bool) (cfg : Config) : Conn :=
  MkConn client cfg false false None 0 0 (ConnReceiveWindow cfg) 0 0 false ∅ ∅ 0 0 0 0 0 0 0 0
    (MaxIncomingStreams cfg) (MaxIncomingUniStreams cfg) false false [] None None [].

(** The limits [handlePeerParams] takes over from the parameters it accepted. *)
Definition take_params (p : transportParams) (c : Conn) : Conn :=
  c <| peerParams := Some p |> <| peerMaxData := initialMaxData p |> <| peerMaxBidi := maxStreamsBidi p |> <| peerMaxUni := maxStreamsUni p |>.

(** A frame that arrived, as far as streams go: an error closes the connection.
    The frames that are about no stream do nothing here: what an ACK does is in
    [QuicRecovery] and in [stream_acked] and [stream_lost] below, and what
    NEW_CONNECTION_ID and PATH_CHALLENGE do is in [QuicControl]. *)
Definition handleFrame (f : qframe) (order : list Z) (c : Conn) : option Conn :=
  let? (err, c) := handleStreamFrame f order c in
  match err with
  | None => Some c
  | Some e => Some (closeLocked (TransportError e []) c)
  end.

(** The frames whose handling is modelled in full: those about streams and
    their limits, and CONNECTION_CLOSE. *)
Definition on_streams (f : qframe) : bool :=
  match f with
  | FResetStream _ _ _ | FStopSending _ _ | FStream _ _ _ _ | FMaxData _ | FMaxStreamData _ _ | FMaxStreams _ _ | FConnectionClose _ _ _ => true
  | _ => false
  end.

(** [frameAcked] and [frameLost], for the frames of streams. *)
Definition stream_acked (f : sentFrame) (c : Conn) : option Conn :=
  match sf_kind f with
  | sfStream => onDataAcked (sf_stream f) (sf_off f) (sf_n f) (sf_fin f) c
  | sfResetStream => Some (onResetAcked (sf_stream f) c)
  | _ => Some c
  end.

Definition stream_lost (f : sentFrame) (c : Conn) : Conn :=
  match sf_kind f with
  | sfStream => onDataLost (sf_stream f) (sf_off f) (sf_n f) (sf_fin f) c
  | sfMaxStreamData => onMaxDataLost (sf_stream f) c
  | sfResetStream => onResetLost (sf_stream f) c
  | sfStopSending => onStopSendingLost (sf_stream f) c
  | _ => c
  end.

Record qstate := QState { conn : Conn; outs : list sentFrame; wrote : Z -> bytes }.

(** Before the peer's parameters are known there are no keys for the packets that carry stream frames. *)
Definition unopened (c : Conn) : Prop := store c = ∅ /\ openedBidi c = 0 /\ openedUni c = 0 /\ sentData c = 0.

Inductive qstep : qstate -> qstate -> Prop :=
| q_params c o W p :
    unopened c -> params_ok p -> qstep (QState c o W) (QState (take_params p c) o W)
| q_handshake c o W :
    qstep (QState c o W) (QState (c <| handshakeComplete := true |>) o W)
| q_open c o W bidi r c' :
    closed c = false -> openStream bidi c = (r, c') -> qstep (QState c o W) (QState c' o W)
| q_write c o W i p fin c' :
    i ∈ made c -> len (W i) + len p <= 2 ^ 62 -> writeLocked i p fin c = (None, c') ->
    qstep (QState c o W) (QState c' o (write_ghost W i p))
| q_reset c o W i code :
    i ∈ made c -> qstep (QState c o W) (QState (Reset i code c) o W)
| q_stop c o W i code :
    i ∈ made c -> qstep (QState c o W) (QState (StopSending i code c) o W)
| q_frame c o W payload exp f el r order c' :
    closed c = false -> recvData c <= 2 ^ 62 -> bytes_ok payload -> len payload <= 65535 ->
    readFrame true (isClient c) exp (Reader payload false) = Ok (f, el, r) -> order ≡ₚ elements (streams c) ->
    handleFrame f order c = Some c' -> qstep (QState c o W) (QState c' o W)
| q_send c o W b max p b' p' c' :
    closed c = false -> Forall (fun f => of_stream f = false) (frames p) -> max <= maxDatagram -> len b <= max ->
    appendStreams b max p c = Some (b', p', c') -> qstep (QState c o W) (QState c' (o ++ frames p') W)
| q_acked c o W f c' :
    f ∈ o -> stream_acked f c = Some c' -> qstep (QState c o W) (QState c' o W)
| q_lost c o W f :
    f ∈ o -> qstep (QState c o W) (QState (stream_lost f c) o W)
| q_close c o W err :
    qstep (QState c o W) (QState (closeLocked err c) o W)
| q_when_done c o W err :
    qstep (QState c o W) (QState (CloseWhenDone err c) o W).

Definition q_init (client : bool) (cfg : Config) : qstate := QState (newConn client cfg) [] (fun _ => []).

(** * What frames hold *)

Definition varint_ok (v : Z) : Prop := 0 <= v <= maxVarint.

Definition frame_vals (f : qframe) : Prop :=
  match f with
  | FResetStream i _ n => varint_ok i /\ varint_ok n
  | FStopSending i _ => varint_ok i
  | FStream i off data _ => varint_ok i /\ varint_ok off /\ len data <= 65535
  | FMaxData m => varint_ok m
  | FMaxStreamData i m => varint_ok i /\ varint_ok m
  | FMaxStreams _ m => 0 <= m <= 2 ^ 60
  | _ => True
  end.

Lemma reader_varint_shorter r v r' : reader_varint r = (v, r') -> len (r_b r') <= len (r_b r).
Proof.
  unfold reader_varint. destruct (ReadVarint (r_b r)) as [w n]. destruct (n =? 0); intros [= <- <-]; cbn; [apply len_nonneg|].
  rewrite len_drop. pose proof (len_nonneg (r_b r)). lia.
Qed.

Lemma reader_bytes_shorter n r d r' : reader_bytes n r = (d, r') -> len d <= len (r_b r).
Proof.
  unfold reader_bytes. destruct (_ <? _); intros [= <- <-]; [change (len (@nil Z)) with 0; apply len_nonneg|]. rewrite len_take. lia.
Qed.

(** Reads the next integer of a frame, with its range. *)
Ltac next_varint :=
  match goal with
  | Hb : bytes_ok (r_b ?r) |- context [reader_varint ?r] =>
      let E := fresh "E" in let v := fresh "v" in let r' := fresh "r" in let Hv := fresh "Hv" in
      destruct (reader_varint r) as [v r'] eqn:E; destruct (reader_varint_range _ _ _ Hb E) as [Hv ?];
      pose proof (reader_varint_shorter _ _ _ E); clear E
  end.

Lemma readBody_vals cl exp typ r f r' : bytes_ok (r_b r) -> len (r_b r) <= 65535 -> readBody cl exp typ r = Ok (f, r') -> frame_vals f.
Proof.
  intros Hb Hl. unfold readBody.
  destruct (_ =? framePadding); [by intros [= <- <-]|]. destruct (_ =? framePing); [by intros [= <- <-]|].
  destruct (_ || _). { unfold readAck. intros H. repeat (case_match; simplify_eq; try done). }
  destruct (_ =? frameResetStream). { do 3 next_varint. by intros [= <- <-]. }
  destruct (_ =? frameStopSending). { do 2 next_varint. by intros [= <- <-]. }
  destruct (_ =? frameCrypto). { intros H. repeat (case_match; simplify_eq; try done). }
  destruct (_ =? frameNewToken). { intros H. repeat (case_match; simplify_eq; try done). }
  destruct ((_ <=? _) && _).
  { next_varint. set (o := if _ : bool then reader_varint r0 else (0, r0)).
    assert (Ho : varint_ok o.1 /\ bytes_ok (r_b o.2) /\ len (r_b o.2) <= len (r_b r0)).
    { unfold o. destruct (negb _); [next_varint; done|]. cbn. split_and!; [unfold varint_ok, maxVarint; lia|done|lia]. }
    destruct o as [off r1]. cbn [fst snd] in Ho. destruct Ho as (Ho & Hb1 & Hl1).
    destruct (negb _); [|intros [= <- <-]; cbn; split_and!; [done|done|lia]].
    next_varint. destruct (reader_bytes v0 r2) as [d r3] eqn:Ed. apply reader_bytes_shorter in Ed.
    intros [= <- <-]. cbn. split_and!; [done|done|lia]. }
  destruct (_ =? frameMaxData). { next_varint. by intros [= <- <-]. }
  destruct (_ =? frameMaxStreamData). { do 2 next_varint. by intros [= <- <-]. }
  destruct (_ || _). { next_varint. destruct (Z.ltb_spec (2 ^ 60) v); [done|]. intros [= <- <-]. cbn. lia. }
  intros H. repeat (case_match; simplify_eq; try done). unfold readNewConnectionID in H. repeat (case_match; simplify_eq; try done).
Qed.

Lemma readFrame_vals app cl exp b f el r :
  bytes_ok b -> len b <= 65535 -> readFrame app cl exp (Reader b false) = Ok (f, el, r) -> frame_vals f.
Proof.
  intros Hb Hl. unfold readFrame. destruct (reader_varint (Reader b false)) as [typ r0] eqn:E0.
  destruct (reader_varint_range (Reader b false) _ _ Hb E0) as [_ Hb0]. pose proof (reader_varint_shorter _ _ _ E0) as Hl0. cbn in Hl0.
  destruct (r_bad r0); [done|]. destruct (_ && _); [done|].
  destruct (readBody cl exp typ r0) as [[f' r1]|] eqn:Eb; [|done]. destruct (r_bad r1); [done|]. intros [= <- <- <-].
  eapply readBody_vals; [exact Hb0|lia|exact Eb].
Qed.

(** * The invariant *)

Record conn_inv (st : qstate) : Prop := {
  ci_ids : ids_ok (conn st);
  ci_send : send_inv (outs st) (wrote st) (conn st);
  ci_flow : closed (conn st) = false -> flow (conn st);
  ci_queue : closed (conn st) = false -> queue_inv [] (conn st);
}.

(** An operation on the receiving side that leaves the counts right. *)
Lemma calm_inv c c' o W :
  conn_inv (QState c o W) -> calm c c' -> keeps c c' -> (closed c' = false -> flow c') -> conn_inv (QState c' o W).
Proof.
  intros [I1 I2 I3 I4] [K1 K2 K3] Hk Hf. cbn in *. constructor; cbn; [by eapply ids_keep|by eapply send_ext|done|].
  intros Hc. apply K3; [done|]. apply I4. destruct (closed c); [|done]. rewrite K2 in Hc; done.
Qed.

Lemma quiet_flow c c' : quiet c c' -> flow c -> flow c'.
Proof. intros [Hv _]. by apply flow_ext. Qed.

(** An operation on the sending side. *)
Lemma quiet_inv c c' o o' W W' :
  conn_inv (QState c o W) -> quiet c c' -> send_inv o' W' c' -> (closed c = true -> closed c' = true) ->
  (closed c' = false -> queue_inv [] c -> queue_inv [] c') -> conn_inv (QState c' o' W').
Proof.
  intros [I1 I2 I3 I4] Hq Hs Hc Hqu. cbn in *. assert (Hcl : closed c' = false -> closed c = false) by (destruct (closed c); [intros H; rewrite Hc in H; done|done]).
  constructor; cbn; [destruct Hq; by eapply ids_keep|done|..].
  - intros H. eapply quiet_flow; [exact Hq|auto].
  - auto.
Qed.

(** The same when it is calm, too. *)
Lemma calm_quiet_inv c c' o W : conn_inv (QState c o W) -> calm c c' -> quiet c c' -> conn_inv (QState c' o W).
Proof.
  intros Hi Hc Hq. eapply quiet_inv; [exact Hi|exact Hq| |apply Hc|apply Hc]. eapply send_ext; [symmetry; apply Hc|]. apply (ci_send _ Hi).
Qed.

Lemma extends_inv c c' o W : conn_inv (QState c o W) -> extends c c' -> ids_ok c' -> (closed c' = false -> flow c') -> conn_inv (QState c' o W).
Proof.
  intros [I1 I2 I3 I4] Hx Hi Hf. constructor; cbn in *; [done|by eapply extends_send|done|].
  intros Hc. eapply extends_queue; [exact Hx|]. apply I4. destruct (ex_rest _ _ Hx) as (_ & _ & _ & <- & _). done.
Qed.

Lemma newConn_inv client cfg : config_ok cfg -> conn_inv (q_init client cfg).
Proof.
  intros Hc. constructor; cbn.
  - constructor; cbn; [set_solver|set_solver|lia].
  - constructor; cbn; [done|set_solver|done|unfold maxVarint; lia|done|done].
  - intros _. constructor; cbn; [done|done|done|done|]. destruct Hc as [? [? ?]].
    enough (ConnReceiveWindow cfg / 2 <= ConnReceiveWindow cfg) by lia. apply Z.div_le_upper_bound; lia.
  - intros _. constructor; cbn; [constructor|..]; try done; intros i; (split; [set_solver|intros (s & Hs & _); done]).
Qed.

(** A frame that acts on a stream of the peer's choice. *)
Lemma peer_inv i side (act : Z -> Conn -> option (option Z * Conn)) c o W e c' :
  conn_inv (QState c o W) -> closed c = false -> varint_ok i -> on_peer_stream i side act c = Some (e, c') ->
  (forall c1 e1 c2, conn_inv (QState c1 o W) -> closed c1 = false -> recvData c1 = recvData c -> i ∈ made c1 -> act i c1 = Some (e1, c2) ->
     conn_inv (QState (match e1 with None => c2 | Some x => closeLocked (TransportError x []) c2 end) o W)) ->
  conn_inv (QState (match e with None => c' | Some x => closeLocked (TransportError x []) c' end) o W).
Proof.
  intros Hi Hcl Hv. unfold on_peer_stream. destruct (peerStream i side c) as [r c1] eqn:Ep.
  pose proof (ci_flow _ Hi Hcl) as Hf. cbn in Hf. destruct (peerStream_spec _ _ _ _ _ Hf (ci_ids _ Hi) Hv Ep) as (Hf1 & Hi1 & Hx & Hr).
  assert (Hinv1 : conn_inv (QState c1 o W)) by (eapply extends_inv; eauto).
  destruct (ex_rest _ _ Hx) as (_ & _ & _ & Hc1 & _ & _ & Hd1 & _).
  destruct r as [[j|]|x]; intros H Hact; [|simplify_eq; done|simplify_eq; eapply calm_quiet_inv; [exact Hinv1|apply calm_close|apply quiet_close]].
  destruct (Hr j eq_refl) as [-> Hlive]. eapply Hact; [exact Hinv1|congruence|done| |exact H]. by apply (io_live _ Hi1).
Qed.

Lemma closed_queue i c : closed (queueStream i c) = closed c.
Proof. unfold queueStream. by case_match. Qed.

Lemma closed_close e c : closed (closeLocked e c) = true.
Proof. unfold closeLocked, terminateLocked. destruct (closed c) eqn:E; [done|]. cbn. by rewrite E. Qed.

Lemma closed_reset i code c : closed (resetLocked i code c) = closed c.
Proof. unfold resetLocked. case_match; [done|]. by rewrite closed_queue. Qed.

Lemma resetLocked_inv i code c o W : conn_inv (QState c o W) -> i ∈ made c -> conn_inv (QState (resetLocked i code c) o W).
Proof.
  intros Hi Hm%elem_of_dom. eapply quiet_inv; [exact Hi|by apply resetLocked_quiet|apply reset_send; [apply (ci_send _ Hi)|done]|by rewrite closed_reset|].
  intros _. by apply reset_queue.
Qed.

Lemma handleFrame_inv f order c c' o W :
  conn_inv (QState c o W) -> closed c = false -> recvData c <= 2 ^ 62 -> frame_vals f -> order ≡ₚ elements (streams c) ->
  handleFrame f order c = Some c' -> conn_inv (QState c' o W).
Proof.
  intros Hi Hcl Hd Hv Ho. unfold handleFrame. destruct (handleStreamFrame f order c) as [[e c1]|] eqn:E; [|done]. intros H.
  assert (Hc' : c' = match e with None => c1 | Some x => closeLocked (TransportError x []) c1 end) by (destruct e; congruence).
  subst c'. clear H. revert E.
  assert (Hend : forall x c2, conn_inv (QState c2 o W) -> conn_inv (QState (closeLocked (TransportError x []) c2) o W)).
  { intros x c2 H2. eapply calm_quiet_inv; [exact H2|apply calm_close|apply quiet_close]. }
  destruct f; cbn [handleStreamFrame frame_vals] in *; try (intros [= <- <-]; done).
  - destruct Hv as [Hv1 Hv2]. intros E. eapply peer_inv; [exact Hi|done|exact Hv1|exact E|]. clear E.
    intros c2 e2 c3 H2 Hc2 Hd2 Hm2%elem_of_dom [= E]. pose proof Hm2 as [s Hs].
    assert (Hk := onResetStream_keeps _ _ _ _ _ _ Hm2 E). assert (Hcm := calm_onResetStream _ _ _ _ _ _ Hm2 E).
    destruct e2 as [x|].
    + eapply calm_inv; [exact H2|etrans; [exact Hcm|apply calm_close]|etrans; [exact Hk|apply close_keeps]|].
      by rewrite closed_close.
    + eapply calm_inv; [exact H2|exact Hcm|exact Hk|]. intros _. eapply (onResetStream_flow id s code size c2); [by apply (ci_flow _ H2)|by rewrite Hd2|exact Hs|exact Hv2|exact E|done].
  - intros E. eapply peer_inv; [exact Hi|done|exact Hv|exact E|]. clear E.
    intros c2 e2 c3 H2 Hc2 Hd2 Hm2 [= <- <-]. unfold onStopSending. case_match; [done|].
    eapply calm_quiet_inv; [by eapply resetLocked_inv|apply calm_emit|apply quiet_emit].
  - destruct Hv as (Hv1 & Hv2 & Hv3). intros E. eapply peer_inv; [exact Hi|done|exact Hv1|exact E|]. clear E.
    intros c2 e2 c3 H2 Hc2 Hd2 Hm2%elem_of_dom E. pose proof Hm2 as [s Hs].
    assert (Hk := onStreamFrame_keeps _ _ _ _ _ _ _ Hm2 E). assert (Hcm := calm_onStreamFrame _ _ _ _ _ _ _ Hm2 E).
    destruct (onStreamFrame_flow id s off data fin c2) as (e3 & c4 & E' & Hf4); [by apply (ci_flow _ H2)|by rewrite Hd2|done|apply Hv2|unfold varint_ok, maxVarint in *; lia|].
    rewrite E in E'. simplify_eq. destruct e3 as [x|].
    + eapply calm_inv; [exact H2|etrans; [exact Hcm|apply calm_close]|etrans; [exact Hk|apply close_keeps]|].
      by rewrite closed_close.
    + eapply calm_inv; [exact H2|exact Hcm|exact Hk|]. intros _. by apply Hf4.
  - intros [= <- <-]. assert (Hko : forall i, i ∈ order <-> i ∈ streams c) by (intros i; by rewrite Ho, elem_of_elements).
    assert (Hkm : forall i, i ∈ order -> is_Some (store c !! i)) by (intros i Hin; apply elem_of_dom, (io_live _ (ci_ids _ Hi)), Hko, Hin).
    eapply quiet_inv; [exact Hi|by apply onMaxData_quiet|apply maxdata_send; [apply (ci_send _ Hi)|done|apply Hv]|..].
    + by rewrite Hcl.
    + intros _ Hq. by apply maxdata_queue.
  - destruct Hv as [Hv1 Hv2]. intros E. eapply peer_inv; [exact Hi|done|exact Hv1|exact E|]. clear E.
    intros c2 e2 c3 H2 Hc2 Hd2 Hm2%elem_of_dom [= <- <-]. destruct (Z.ltb_spec (sendMax (get id c2)) max) as [Hlt|]; [|done].
    pose proof Hm2 as [s Hs]. rewrite (get_at _ _ _ Hs) in *. set (s1 := s <| sendMax := max |>).
    eapply quiet_inv; [exact H2|apply quiet_put_queue; [done|by rewrite (get_at _ _ _ Hs)]|..].
    + apply (queue_send id s1); [apply store_put|]. apply (send_nodata o W id s); [apply (ci_send _ H2)|done| |done].
      destruct (sn_streams _ _ _ (ci_send _ H2) id s Hs). constructor; try done. cbn. destruct Hv2. lia.
    + by rewrite closed_queue.
    + intros _ Hq. by eapply queue_put_queue.
  - destruct (_ <? max) eqn:Elt; intros [= <- <-]; [|done]. destruct Hi as [[I1 I2 I3] I4 I5 I6]. cbn in *. apply Z.ltb_lt in Elt.
    destruct uni; (constructor; cbn; [constructor; cbn; [done|done|lia]|by eapply send_ext; [|exact I4]|by intros; eapply flow_ext; [|apply I5]|]);
      (intros; eapply queue_same; [..|apply I6]; done).
  - intros [= <- <-]. eapply calm_quiet_inv; [exact Hi|apply calm_terminate|apply quiet_terminate].
Qed.

Lemma stream_known f c o W : send_inv o W c -> f ∈ o -> of_stream f = true -> is_Some (store c !! sf_stream f).
Proof. intros Hs. apply (sn_outs _ _ _ Hs). Qed.

Lemma stream_acked_inv f c c' o W : conn_inv (QState c o W) -> f ∈ o -> stream_acked f c = Some c' -> conn_inv (QState c' o W).
Proof.
  intros Hi Hf. pose proof (ci_send _ Hi) as Hs. cbn in Hs. pose proof (stream_known _ _ _ _ Hs Hf) as Hk. unfold of_stream in Hk.
  unfold stream_acked. destruct (sf_kind f) eqn:Ek; try (by intros [= <-]); specialize (Hk eq_refl).
  - intros E. assert (Hc : carries (sf_stream f) f = true) by (unfold carries; rewrite Ek; apply Z.eqb_refl).
    destruct (acked_send (sf_stream f) f (sf_fin f) c o W Hs Hf Hc) as (c2 & E2 & Hs2). assert (c2 = c') as -> by congruence.
    eapply quiet_inv; [exact Hi|by eapply onDataAcked_quiet|done|..].
    + unfold onDataAcked in E. destruct (reset _); [congruence|]. destruct (onAck _ _ _); [|done]. injection E as <-.
      intros Hcl. apply (cm_closed _ _ (calm_finish _ _ (mk_is_Some _ _ (store_put _ _ _)))). done.
    + intros Hcl Hq. by apply (acked_queue (sf_stream f) f (sf_fin f) c c' o W).
  - intros [= <-]. eapply calm_quiet_inv; [exact Hi| |by apply onResetAcked_quiet].
    apply calm_put_finish; [done..|]. by erewrite wants_ext.
Qed.

Lemma stream_lost_inv f c o W : conn_inv (QState c o W) -> f ∈ o -> conn_inv (QState (stream_lost f c) o W).
Proof.
  intros Hi Hf. pose proof (ci_send _ Hi) as Hs. cbn in Hs. pose proof (stream_known _ _ _ _ Hs Hf) as Hk. unfold of_stream in Hk.
  unfold stream_lost. destruct (sf_kind f) eqn:Ek; try done; specialize (Hk eq_refl).
  - assert (Hc : carries (sf_stream f) f = true) by (unfold carries; rewrite Ek; apply Z.eqb_refl).
    eapply quiet_inv; [exact Hi|by apply onDataLost_quiet|by apply lost_send|..|intros _; by apply lost_queue].
    unfold onDataLost. case_match; [done|]. by rewrite closed_queue.
  - eapply calm_quiet_inv; [exact Hi| |by apply onMaxDataLost_quiet]. unfold onMaxDataLost. case_match; [|done]. by apply calm_put_queue.
  - eapply calm_quiet_inv; [exact Hi| |by apply onResetLost_quiet]. unfold onResetLost. case_match; [|done]. by apply calm_put_queue.
  - eapply calm_quiet_inv; [exact Hi| |by apply onStopSendingLost_quiet]. unfold onStopSendingLost. case_match; [|done]. by apply calm_put_queue.
Qed.

Lemma send_outs_list l c o W : send_inv o W c -> Forall (fun f => of_stream f = false) l -> send_inv (o ++ l) W c.
Proof.
  intros Hs Hl. revert o Hs. induction Hl as [|f l Hf Hl IH]; intros o Hs; [by rewrite app_nil_r|].
  replace (o ++ f :: l) with ((o ++ [f]) ++ l) by by rewrite <- app_assoc. apply IH. apply send_outs; [done| |congruence].
  intros j. unfold carries. unfold of_stream in Hf. by destruct (sf_kind f).
Qed.

Lemma qstep_inv st st' : conn_inv st -> qstep st st' -> conn_inv st'.
Proof.
  intros Hi Hstep. destruct Hstep as [c o W p Hu Hp|c o W|c o W bidi r c' Hcl E|c o W i p fin c' Hm Hlen E|c o W i code Hm|c o W i code Hm
    |c o W payload exp f el r order c' Hcl Hd Hb Hl Hr Ho E|c o W b max p b' p' c' Hcl Hfr Hmax Hb E|c o W f c' Hf E|c o W f Hf|c o W err|c o W err].
  - destruct Hi as [[I1 I2 I3] [S1 S2 S3 S4 S5 S6] I5 I6]. destruct Hu as (Hu & Hb & Hun & Hsd). destruct Hp as (P1 & P2 & P3 & P4 & P5 & P6).
    cbn in *. constructor; cbn.
    + constructor; cbn; [done|done|lia].
    + constructor; cbn; [done|done|done|lia| |done]. by intros ? [= <-].
    + intros Hc. by eapply flow_ext; [|apply I5].
    + intros Hc. destruct (I6 Hc) as [Q1 Q2 Q3 Q4]. constructor; try done. cbn. rewrite Hu. intros i s _ Hs. done.
  - destruct Hi as [[I1 I2 I3] [S1 S2 S3 S4 S5 S6] I5 I6]. cbn in *. constructor; cbn; [by constructor|by constructor|..].
    + intros Hc. by eapply flow_ext; [|apply I5].
    + intros Hc. by eapply queue_same; [..|apply I6].
  - destruct (openStream_spec _ _ _ _ (ci_flow _ Hi Hcl) (ci_ids _ Hi) Hcl E) as (Hf & Hid & Hx). by eapply extends_inv.
  - apply elem_of_dom in Hm. eapply quiet_inv; [exact Hi| |eapply write_send; [apply (ci_send _ Hi)|done|done|exact E]|..].
    + pose proof (writeLocked_quiet i p fin c Hm) as Hq. by rewrite E in Hq.
    + unfold writeLocked in E. by destruct (closed c).
    + intros _ Hq. by destruct (write_queue _ _ _ _ _ Hm E Hq).
  - unfold Reset. destruct (closed c) eqn:Ec; [done|]. by apply resetLocked_inv.
  - unfold StopSending. destruct (closed c) eqn:Ec; [done|]. apply elem_of_dom in Hm.
    eapply calm_inv; [exact Hi|by apply calm_stopSending|by apply stopSending_keeps|]. intros _. apply stopSending_flow; [done|]. by apply (ci_flow _ Hi).
  - eapply handleFrame_inv; [exact Hi|done|done|by eapply readFrame_vals|exact Ho|exact E].
  - assert (Hs0 : send_inv (o ++ frames p) W c) by (apply send_outs_list; [apply (ci_send _ Hi)|done]).
    destruct (appendStreams_spec b max p c o W Hs0 (ci_queue _ Hi Hcl)) as (b2 & p2 & c2 & E2 & Hs2 & Hq2 & _ & Hc2); [unfold maxDatagram in *; lia|done|].
    rewrite E in E2. simplify_eq. eapply quiet_inv; [exact Hi| |exact Hs2|by rewrite Hc2|done].
    eapply appendStreams_quiet; [|exact E]. intros i Hin. apply (qi_queued _ _ (ci_queue _ Hi Hcl)) in Hin as (s & Hs & _). by exists s.
  - by eapply stream_acked_inv.
  - by apply stream_lost_inv.
  - eapply calm_quiet_inv; [exact Hi|apply calm_close|apply quiet_close].
  - eapply calm_quiet_inv; [exact Hi|apply calm_CloseWhenDone|apply CloseWhenDone_quiet].
Qed.

Lemma qreach_inv client cfg st : config_ok cfg -> rtc qstep (q_init client cfg) st -> conn_inv st.
Proof.
  intros Hc Hr. assert (H0 : conn_inv (q_init client cfg)) by by apply newConn_inv. revert H0.
  induction Hr as [|x y z Hxy _ IH]; [done|]. intros H0. apply IH. by eapply qstep_inv.
Qed.

(** * Theorems *)

(** C22: Flow control of what arrives.  Whatever frames the peer sends and whatever the
    application does, while the connection is open: the bytes counted against the
    connection's window are how far each stream has got, and never more than was
    allowed; the bytes counted as read are how far each stream was read; the window
    is at least half open beyond what was read, and never wider than configured;
    and the same holds of each stream that more may come on. *)
Theorem receive_flow_control (client : bool) (cfg : Config) (st : qstate) :
  config_ok cfg -> rtc qstep (q_init client cfg) st -> closed (conn st) = false ->
  let c := conn st in
  recvData c = msum recvHigh (store c) /\ recvConsumed c = msum recvRead (store c) /\
  recvConsumed c <= recvData c <= recvMaxData c /\
  recvConsumed c + ConnReceiveWindow (config c) / 2 <= recvMaxData c <= recvConsumed c + ConnReceiveWindow (config c) /\
  forall i s, store c !! i = Some s ->
    0 <= recvRead s <= recvHigh s /\ recvHigh s <= recvMax s <= recvRead s + StreamReceiveWindow (config c) /\
    (hasRecv s = true -> recvFin s < 0 -> recvRead s + StreamReceiveWindow (config c) / 2 <= recvMax s).
Proof.
  intros Hc Hr Hcl c. destruct (ci_flow _ (qreach_inv _ _ _ Hc Hr) Hcl) as [F1 F2 F3 F4 F5]. fold c in F1, F2, F3, F4, F5.
  split_and!; [done|done| |lia|lia|lia|].
  - rewrite F3, F4. apply msum_le. intros i s Hi. destruct (F2 i s Hi) as [[] _]. lia.
  - intros i s Hi. destruct (F2 i s Hi) as [[] Hw]. split_and!; [lia..|exact Hw].
Qed.

(** C27: The limits of the peer.  Of the bytes of a stream no more were ever sent than
    the peer allowed on it, and of all streams together no more than it allowed on
    the connection; every frame of data sent lies within what was sent of its
    stream. *)
Theorem send_within_limits (client : bool) (cfg : Config) (st : qstate) :
  config_ok cfg -> rtc qstep (q_init client cfg) st ->
  let c := conn st in
  sentData c = msum (fun s => next (send s)) (store c) /\ sentData c <= peerMaxData c /\
  forall i s, store c !! i = Some s -> 0 <= next (send s) <= sendMax s /\
    forall f, f ∈ outs st -> carries i f = true -> 0 <= sf_off f /\ sf_off f + sf_n f <= next (send s).
Proof.
  intros Hc Hr c. destruct (ci_send _ (qreach_inv _ _ _ Hc Hr)) as [S1 S2 S3 S4 S5 S6]. fold c in S1, S2, S3, S4.
  split_and!; [done|lia|]. intros i s Hi. destruct (S1 i s Hi) as [O1 O2 O3 O4 O5]. split; [lia|].
  intros f Hf Hcf. destruct (O5 f Hf Hcf) as (? & ? & ?). lia.
Qed.

(** C24: Nothing that can be sent is forgotten.  While the connection is open, a stream
    that is not finished and has a frame it may send is in the send queue, once,
    and [queued] says so; the queue holds no other streams than those [queued]. *)
Theorem sendable_queued (client : bool) (cfg : Config) (st : qstate) :
  config_ok cfg -> rtc qstep (q_init client cfg) st -> closed (conn st) = false ->
  let c := conn st in
  NoDup (sendQueue c) /\
  (forall i, i ∈ streams c -> (sendable i c).1 = true -> i ∈ sendQueue c) /\
  forall i, i ∈ sendQueue c <-> exists s, store c !! i = Some s /\ queued s = true.
Proof.
  intros Hc Hr Hcl c. destruct (ci_queue _ (qreach_inv _ _ _ Hc Hr) Hcl) as [Q1 Q2 Q3 Q4]. fold c in Q1, Q2, Q3, Q4.
  split_and!; [done| |done]. intros i Hi Hs. rewrite sendable_wants in Hs. apply Q4 in Hi as (s & Hi & Hd).
  rewrite (get_at _ _ _ Hi) in Hs. apply Q2. exists s. split; [done|]. apply (Q3 i s); [apply not_elem_of_nil|done..].
Qed.

(** C29: No frame about a stream makes the code panic.  On any open connection any bytes
    that read as RESET_STREAM, STOP_SENDING, STREAM, MAX_DATA, MAX_STREAM_DATA,
    MAX_STREAMS or CONNECTION_CLOSE are handled to the end, with the connection open or
    closed after, no slice of the reassembly buffer out of range; and any frame
    ever sent may be acknowledged at any time, as often as the peer likes, no slice of
    the send buffer out of range. *)
Theorem stream_frames_never_panic (client : bool) (cfg : Config) (st : qstate) :
  config_ok cfg -> rtc qstep (q_init client cfg) st ->
  let c := conn st in
  (forall payload exp f el r order, closed c = false -> recvData c <= 2 ^ 62 -> bytes_ok payload -> len payload <= 65535 ->
     readFrame true (isClient c) exp (Reader payload false) = Ok (f, el, r) -> on_streams f = true ->
     is_Some (handleFrame f order c)) /\
  (forall f, f ∈ outs st -> is_Some (stream_acked f c)).
Proof.
  intros Hc Hr c. pose proof (qreach_inv _ _ _ Hc Hr) as Hi. split.
  - intros payload exp f el r order Hcl Hd Hb Hl Hf _. apply readFrame_vals in Hf; [|done..]. unfold handleFrame.
    enough (is_Some (handleStreamFrame f order c)) as [[e c'] ->] by (destruct e; eauto).
    destruct f; cbn [handleStreamFrame frame_vals] in *; unfold on_peer_stream; try (by eexists).
    all: try (destruct (peerStream id _ c) as [[[j|]|] c'] eqn:Ep; try (by eexists)).
    + destruct Hf as (Hv1 & Hv2 & Hv3).
      destruct (peerStream_spec _ _ _ _ _ (ci_flow _ Hi Hcl) (ci_ids _ Hi) Hv1 Ep) as (Hf1 & Hi1 & Hx & Hj). destruct (Hj j eq_refl) as [-> Hlive].
      destruct (ex_rest _ _ Hx) as (_ & _ & _ & _ & _ & _ & Hd1 & _). apply (io_live _ Hi1), elem_of_dom in Hlive as [s Hs].
      destruct (onStreamFrame_flow id s off data fin c') as (e & c2 & -> & _); [done|by rewrite Hd1|done|apply Hv2|unfold varint_ok, maxVarint in *; lia|by eexists].
    + destruct uni; case_match; by eexists.
  - intros f Hf. unfold stream_acked. destruct (sf_kind f) eqn:Ek; try (by eexists).
    destruct (acked_send (sf_stream f) f (sf_fin f) c _ _ (ci_send _ Hi) Hf) as (c' & -> & _); [|by eexists].
    unfold carries. rewrite Ek. apply Z.eqb_refl.
Qed.

(** What is read is given back.  Once the peer's side of every stream is over and
    this side stopped none of them early, every byte counted against the connection's
    window has been given back. *)
Theorem window_returned (client : bool) (cfg : Config) (st : qstate) :
  config_ok cfg -> rtc qstep (q_init client cfg) st -> closed (conn st) = false ->
  (forall i s, store (conn st) !! i = Some s -> peerReset s = true \/ recvDone s = true /\ stopSent s = false) ->
  recvConsumed (conn st) = recvData (conn st).
Proof.
  intros Hc Hr Hcl Hall. destruct (ci_flow _ (qreach_inv _ _ _ Hc Hr) Hcl) as [F1 F2 F3 F4 F5]. rewrite F3, F4.
  apply Z.le_antisymm; apply msum_le; intros i s Hi; destruct (F2 i s Hi) as [[C1 C2 C3 C4 C5 C6] _];
    destruct (Hall i s Hi) as [H|[H1 H2]]; [apply C6 in H|apply C5 in H1|apply C6 in H|apply C5 in H1]; intuition lia.
Qed.

(** C37: What a packet holds.  A packet of [max] bytes is filled from the send queue
    without a panic, and holds at most seven bytes more than [max]. *)
Theorem packet_filled (client : bool) (cfg : Config) (st : qstate) (b : bytes) (max : Z) (p : sentPacket) :
  config_ok cfg -> rtc qstep (q_init client cfg) st -> closed (conn st) = false ->
  Forall (fun f => of_stream f = false) (frames p) -> max <= maxDatagram -> len b <= max ->
  exists b' p' c', appendStreams b max p (conn st) = Some (b', p', c') /\ len b <= len b' <= max + 7 /\
    closed c' = false /\ recvData c' = recvData (conn st).
Proof.
  intros Hc Hr Hcl Hp Hm Hb. pose proof (qreach_inv _ _ _ Hc Hr) as Hi.
  assert (Hs0 : send_inv (outs st ++ frames p) (wrote st) (conn st)) by (apply send_outs_list; [apply (ci_send _ Hi)|done]).
  destruct (appendStreams_spec b max p (conn st) (outs st) (wrote st) Hs0 (ci_queue _ Hi Hcl)) as (b' & p' & c' & E & _ & _ & Hl & Hc'); [unfold maxDatagram in *; lia|done|].
  exists b', p', c'. split; [done|]. split; [done|]. split; [congruence|].
  assert (Hq : quiet (conn st) c').
  { eapply appendStreams_quiet; [|exact E]. intros i Hin. apply (qi_queued _ _ (ci_queue _ Hi Hcl)) in Hin as (s & Hs & _). by exists s. }
  destruct Hq as [Hv _]. by injection Hv.
Qed.

(** * Runs *)

(** Steps that can be carried out on concrete values. *)
Inductive action :=
| ParamsArrive (p : transportParams)
| HandshakeDone
| Open (bidi : bool)
| Write (i : Z) (p : bytes) (fin : bool)
| Stop (i code : Z)
| Arrive (payload : bytes)
| Fill (max : Z)
| Acked (n : nat)
| Lost (n : nat).

Definition empty_packet : sentPacket := SentPacket 0 0 0 false true [].

Definition in_range (v hi : Z) : bool := (0 <=? v) && (v <=? hi).

Definition params_okb (p : transportParams) : bool :=
  in_range (initialMaxData p) maxVarint && in_range (maxStreamDataBidiL p) maxVarint && in_range (maxStreamDataBidiR p) maxVarint &&
  in_range (maxStreamDataUni p) maxVarint && in_range (maxStreamsBidi p) (2 ^ 60) && in_range (maxStreamsUni p) (2 ^ 60).

Definition perform (a : action) (st : qstate) : option qstate :=
  let '(QState c o W) := st in
  match a with
  | ParamsArrive p =>
      if bool_decide (store c = ∅) && (openedBidi c =? 0) && (openedUni c =? 0) && (sentData c =? 0) && params_okb p
      then Some (QState (take_params p c) o W) else None
  | HandshakeDone => Some (QState (c <| handshakeComplete := true |>) o W)
  | Open bidi => if closed c then None else Some (QState (openStream bidi c).2 o W)
  | Write i p fin =>
      if bool_decide (i ∈ made c) && (len (W i) + len p <=? 2 ^ 62) then
        match writeLocked i p fin c with
        | (None, c') => Some (QState c' o (write_ghost W i p))
        | _ => None
        end
      else None
  | Stop i code => if bool_decide (i ∈ made c) then Some (QState (StopSending i code c) o W) else None
  | Arrive payload =>
      if closed c || (2 ^ 62 <? recvData c) || negb (forallb (fun b => (0 <=? b) && (b <? 256)) payload) || (65535 <? len payload) then None
      else
        match readFrame true (isClient c) 3 (Reader payload false) with
        | Ok (f, _, _) => let? c' := handleFrame f (elements (streams c)) c in Some (QState c' o W)
        | Err _ => None
        end
  | Fill max =>
      if closed c || (maxDatagram <? max) || (max <? 0) then None
      else let? (_, p, c') := appendStreams [] max empty_packet c in Some (QState c' (o ++ frames p) W)
  | Acked n => let? f := o !! n in let? c' := stream_acked f c in Some (QState c' o W)
  | Lost n => let? f := o !! n in Some (QState (stream_lost f c) o W)
  end.

Fixpoint play (st : qstate) (acts : list action) : option qstate :=
  match acts with
  | [] => Some st
  | a :: acts => let? st := perform a st in play st acts
  end.

Lemma params_okb_ok p : params_okb p = true -> params_ok p.
Proof. unfold params_okb, params_ok, in_range. rewrite !andb_true_iff, !Z.leb_le. intuition. Qed.

Lemma perform_step a st st' : perform a st = Some st' -> qstep st st'.
Proof.
  destruct st as [c o W]. destruct a; cbn [perform].
  - destruct (_ && params_okb p) eqn:E; [|done]. intros [= <-]. rewrite !andb_true_iff, !Z.eqb_eq, bool_decide_eq_true in E.
    destruct E as ((((? & ?) & ?) & ?) & ?). constructor; [done|by apply params_okb_ok].
  - intros [= <-]. constructor.
  - destruct (closed c) eqn:E; [done|]. intros [= <-]. destruct (openStream bidi c) as [r c'] eqn:Eo. by eapply q_open.
  - destruct (_ && _) eqn:E; [|done]. rewrite andb_true_iff, bool_decide_eq_true, Z.leb_le in E. destruct E.
    destruct (writeLocked i p fin c) as [[e|] c'] eqn:Ew; [done|]. intros [= <-]. by eapply q_write.
  - case_bool_decide; [|done]. intros [= <-]. by constructor.
  - destruct (_ || (65535 <? len payload)) eqn:E; [done|]. rewrite !orb_false_iff, !Z.ltb_ge, negb_false_iff in E. destruct E as (((? & ?) & ?) & ?).
    destruct (readFrame _ _ _ _) as [[[f el] r]|] eqn:Er; [|done]. destruct (handleFrame f _ c) as [c'|] eqn:Eh; [|done].
    intros [= <-]. eapply q_frame; [done|done|by apply bytes_check|done|exact Er|reflexivity|exact Eh].
  - destruct (_ || (max <? 0)) eqn:E; [done|]. rewrite !orb_false_iff, !Z.ltb_ge in E. destruct E as ((? & ?) & ?).
    destruct (appendStreams [] max empty_packet c) as [[[b' p'] c']|] eqn:Ea; [|done]. intros [= <-].
    apply (q_send c o W [] max empty_packet b'); [done|constructor|done|done|exact Ea].
  - destruct (o !! n) as [f|] eqn:E; [|done]. cbn. destruct (stream_acked f c) as [c'|] eqn:Ea; [|done]. intros [= <-].
    eapply q_acked; [by eapply list_elem_of_lookup_2|exact Ea].
  - destruct (o !! n) as [f|] eqn:E; [|done]. intros [= <-]. constructor. by eapply list_elem_of_lookup_2.
Qed.

Lemma play_reach acts st st' : play st acts = Some st' -> rtc qstep st st'.
Proof.
  revert st. induction acts as [|a acts IH]; cbn; intros st; [by intros [= ->]|].
  destruct (perform a st) as [st1|] eqn:E; [|done]. intros H. eapply rtc_l; [by eapply perform_step|]. by apply IH.
Qed.

(** The state a run ends in. *)
Definition played (st : qstate) (acts : list action) : qstate := default st (play st acts).

Lemma played_reach st acts : rtc qstep st (played st acts).
Proof. unfold played. destruct (play st acts) as [st'|] eqn:E; [by eapply play_reach|apply rtc_refl]. Qed.

Definition small_config : Config := MkConfig 4 4 1000 2000.

Lemma small_config_ok : config_ok small_config.
Proof. unfold config_ok. cbn. lia. Qed.

Definition some_params : transportParams := Params [] [] [] false false false None 0 65527 5000 5000 5000 5000 4 4 3 0 false 2.

(** A STREAM frame with an offset and a length. *)
Definition stream_frame (i off : Z) (data : bytes) (fin : bool) : bytes :=
  AppendVarint (AppendVarint (AppendVarint [if fin then 0x0f else 0x0e] i) off) (len data) ++ data.

(** A request with its answer: out of order, sent in two packets, the first of which is lost. *)
Definition exchange : list action :=
  [ParamsArrive some_params; HandshakeDone; Arrive (stream_frame 0 3 [4; 5] true); Arrive (stream_frame 0 0 [1; 2; 3] false);
   Write 0 (replicate 60 7) true; Fill 40; Fill 40; Lost 0; Acked 1].

Definition exchanged : qstate := played (q_init false small_config) exchange.

Lemma receive_flow_control_witness :
  recvConsumed (conn exchanged) = msum recvRead (store (conn exchanged)) /\ recvConsumed (conn exchanged) = 5.
Proof.
  split; [|vm_compute; reflexivity].
  apply (receive_flow_control false small_config exchanged small_config_ok (played_reach _ _)). vm_compute; reflexivity.
Defined.

Lemma send_within_limits_witness :
  sentData (conn exchanged) = msum (fun s => next (send s)) (store (conn exchanged)) /\ sentData (conn exchanged) = 60.
Proof.
  split; [|vm_compute; reflexivity]. apply (send_within_limits false small_config exchanged small_config_ok (played_reach _ _)).
Defined.

Lemma sendable_queued_witness : 0 ∈ sendQueue (conn exchanged).
Proof.
  refine (proj1 (proj2 (sendable_queued false small_config exchanged small_config_ok (played_reach _ _) _)) 0 _ _);
    [vm_compute; reflexivity| |vm_compute; reflexivity].
  apply (bool_decide_eq_true_1 (0 ∈ streams (conn exchanged))). vm_compute; reflexivity.
Defined.

Lemma stream_frames_never_panic_witness : is_Some (handleFrame (FStream 0 0 [9] false) [] (conn exchanged)).
Proof.
  apply (proj1 (stream_frames_never_panic false small_config exchanged small_config_ok (played_reach _ _)) (stream_frame 0 0 [9] false) 3 _ true (Reader [] false));
    [vm_compute; reflexivity|vm_compute; discriminate|apply bytes_check; vm_compute; reflexivity|vm_compute; discriminate|vm_compute; reflexivity|reflexivity].
Defined.

Lemma window_returned_witness : recvConsumed (conn exchanged) = recvData (conn exchanged).
Proof.
  apply (window_returned false small_config exchanged small_config_ok (played_reach _ _)); [vm_compute; reflexivity|].
  refine (bool_decide_eq_true_1 (map_Forall (fun (_ : Z) s => peerReset s = true \/ recvDone s = true /\ stopSent s = false) _) _).
  vm_compute; reflexivity.
Defined.

Lemma packet_filled_witness :
  exists b' p' c', appendStreams [] 30 empty_packet (conn exchanged) = Some (b', p', c') /\ len (@nil Z) <= len b' <= 30 + 7 /\
    closed c' = false /\ recvData c' = recvData (conn exchanged).
Proof.
  apply (packet_filled false small_config exchanged [] 30 empty_packet small_config_ok (played_reach _ _));
    [vm_compute; reflexivity|constructor|vm_compute; discriminate|vm_compute; discriminate].
Defined.

(** * What goes wrong *)

(** The packets of an answer are declared lost, and then the first is acknowledged after all. *)
Definition late_ack : list action :=
  [ParamsArrive some_params; HandshakeDone; Arrive (stream_frame 0 0 [1] true); Write 0 (replicate 400 7) true;
   Fill 100; Fill 100; Fill 100; Lost 0; Lost 1; Lost 2; Acked 0].

(** A packet can be longer than it may.  The room for a lost range is counted from
    the offset it was lost at, but the frame starts where the peer has not
    acknowledged yet, and that offset may take more bytes to write. *)
Theorem packet_overruns :
  exists st, rtc qstep (q_init false small_config) st /\ closed (conn st) = false /\
    exists b p c, appendStreams [] 100 empty_packet (conn st) = Some (b, p, c) /\ len b = 101.
Proof.
  exists (played (q_init false small_config) late_ack). split; [apply played_reach|]. split; [vm_compute; reflexivity|].
  destruct (appendStreams [] 100 empty_packet (conn (played (q_init false small_config) late_ack))) as [[[b p] c]|] eqn:E; [|by vm_compute in E].
  exists b, p, c. split; [done|]. assert (Hl : (fun r => len r.1.1) <$> appendStreams [] 100 empty_packet (conn (played (q_init false small_config) late_ack)) = Some 101) by (vm_compute; reflexivity).
  rewrite E in Hl. by injection Hl.
Qed.

(** The peer sends the end of a stream, is told to stop, and then sends its start. *)
Definition stopped_stream (i : Z) : list action :=
  [Arrive (stream_frame i 900 (replicate 100 0) true); Stop i 0; Arrive (stream_frame i 0 (replicate 10 0) false)].

(** The window can be lost for good.  A stream that was stopped is finished with
    the first frame that comes once its end is known, and only what that frame
    reaches counts as read: the rest of it is never given back.  Two such streams
    use up the whole window of this connection, with no stream left open and no
    MAX_DATA to be sent. *)
Theorem stop_leaks_window :
  exists st, rtc qstep (q_init false small_config) st /\ closed (conn st) = false /\ streams (conn st) = ∅ /\
    recvData (conn st) = 2000 /\ recvMaxData (conn st) = 2000 /\ recvConsumed (conn st) = 20 /\ maxDataPending (conn st) = false.
Proof.
  exists (played (q_init false small_config) (stopped_stream 2 ++ stopped_stream 6)). split; [apply played_reach|].
  split_and!; vm_compute; reflexivity.
Qed.

(** The second byte of a stream, again and again. *)
Definition piled_stream (n : nat) : Stream :=
  MkStream 2 false (SendBuffer 0 [] 0 [] []) 0 false false false false false false 0 0
    true (RecvBuffer 0 (replicate n (Segment 1 [0])) (Z.of_nat n)) 1000 2 (-1) false false false false false 0 0 false false.

Lemma search_piled n : search_list (fun s => 1 <? seg_off s) (replicate n (Segment 1 [0])) = Z.of_nat n.
Proof.
  assert (H : first_index (fun s => 1 <? seg_off s) (replicate n (Segment 1 [0])) = Z.of_nat n) by (induction n as [|n IH]; cbn in *; lia).
  rewrite search_list_first; [done|]. intros i x Hi Hx. rewrite H in Hi. unfold at_ in Hx. destruct (0 <=? i); [|done].
  apply lookup_lt_Some in Hx. rewrite length_replicate in Hx. lia.
Qed.

Lemma push_piled n : push 1 [0] (recv (piled_stream n)) = Some (recv (piled_stream (S n))).
Proof.
  unfold push. cbn [recv offset segments piled_stream buffered]. change (len [0]) with 1. cbn -[search_list replicate Z.of_nat take drop].
  rewrite search_piled, Nat2Z.id. change (u64 (1 + 1) <=? 0) with false. cbn [orb]. change (len [0]) with 1.
  replace (Z.of_nat n + 1) with (Z.of_nat (S n)) by lia. rewrite take_ge, drop_ge by (rewrite length_replicate; lia).
  change [Segment 1 [0]] with (replicate 1 (Segment 1 [0])). by rewrite <- replicate_add, Nat.add_comm.
Qed.

Lemma recv_piled n m : piled_stream n <| recv := recv (piled_stream m) |> = piled_stream m.
Proof. reflexivity. Qed.

Lemma pop_piled n : pop (recv (piled_stream (S n))) = Some (None, recv (piled_stream (S n))).
Proof. reflexivity. Qed.

Lemma deliver_gap fuel i s c : pop (recv s) = Some (None, recv s) -> deliver_loop (S fuel) i (put i s c) = Some (put i s c).
Proof. intros H. cbn [deliver_loop]. rewrite get_put, H. cbn. rewrite put_put. by destruct s. Qed.

Lemma accept_gap i off data s r c :
  push off data (recv s) = Some r -> pop r = Some (None, r) -> recvFin s < 0 -> accept i off data (put i s c) = Some (put i (s <| recv := r |>) c).
Proof.
  intros Hp Hr Hf. unfold accept. rewrite get_put, Hp. cbn [mbind option_bind]. rewrite put_put, deliver_gap by done. cbn [mbind option_bind].
  rewrite get_put. destruct (Z.leb_spec 0 (recvFin s)); [lia|]. change (recvFin (s <| recv := r |>)) with (recvFin s).
  by destruct (Z.leb_spec 0 (recvFin s)); [lia|].
Qed.

Lemma accept_piled n c : accept 2 1 [0] (put 2 (piled_stream n) c) = Some (put 2 (piled_stream (S n)) c).
Proof. rewrite <- (recv_piled n). apply accept_gap; [apply push_piled|apply pop_piled|by cbn]. Qed.

Lemma onStreamFrame_piled n c : onStreamFrame 2 1 [0] false (put 2 (piled_stream n) c) = Some (None, put 2 (piled_stream (S n)) c).
Proof.
  unfold onStreamFrame. rewrite get_put. change (len [0]) with 1. change (u64 (1 + 1)) with 2.
  cbn [piled_stream recvFin recvMax recvDone peerReset stopSent andb orb]. change (maxVarint <? 2) with false. change (0 <=? -1) with false.
  change (1000 <? 2) with false. cbn [andb]. fold (piled_stream n). rewrite put_put. unfold reach. rewrite get_put.
  change (recvHigh (piled_stream n) <? 2) with false. cbv iota beta. by rewrite accept_piled.
Qed.

Definition piled (n : nat) : Conn :=
  put 2 (piled_stream n) (conn (played (q_init false small_config) [Arrive (stream_frame 2 1 [0] false)])).

Lemma piled_step n : handleFrame (FStream 2 1 [0] false) (elements (streams (piled n))) (piled n) = Some (piled (S n)).
Proof.
  unfold handleFrame. cbn [handleStreamFrame]. unfold on_peer_stream.
  assert (E : peerStream 2 true (piled n) = (Ok (Some 2), piled n)) by (vm_compute; reflexivity). rewrite E. clear E.
  unfold piled. by rewrite onStreamFrame_piled.
Qed.

(** What is kept of a stream is not bounded.  With two bytes counted against the
    windows, a peer can have any number of copies of one of them kept: [push]
    keeps each copy, and nothing looks at [buffered]. *)
Theorem reassembly_unbounded (n : nat) :
  exists st s, rtc qstep (q_init false small_config) st /\ closed (conn st) = false /\ recvData (conn st) = 2 /\
    store (conn st) !! 2 = Some s /\ length (segments (recv s)) = S n /\ buffered (recv s) = Z.of_nat (S n).
Proof.
  exists (QState (piled (S n)) [] (fun _ => [])), (piled_stream (S n)).
  split_and!; [|reflexivity|vm_compute; reflexivity|apply lookup_insert_eq|apply length_replicate|reflexivity]. induction n as [|n IH].
  - apply (play_reach [Arrive (stream_frame 2 1 [0] false)]). vm_compute. reflexivity.
  - eapply rtc_r; [exact IH|]. eapply (q_frame (piled (S n)) [] _ (stream_frame 2 1 [0] false) 3);
      [reflexivity|vm_compute; discriminate|apply bytes_check; vm_compute; reflexivity|vm_compute; discriminate|vm_compute; reflexivity|reflexivity|apply piled_step].
Qed.
