(* ===== verification/Utf8.v ===== *)
(** Validating UTF-8 that arrives in pieces (src/go/websocket/utf8.go).

    [utf8_Valid] is the standard library's [utf8.Valid], which the validator
    uses in bulk and which is also its specification: the pieces are accepted
    exactly as long as some valid text starts with them. *)
From S2P Require Import Prelude.

(** * [unicode/utf8]'s [Valid] *)

(** What a first byte announces: how many continuation bytes, and the range of
    the first of them. *)
Inductive lead := Ascii | Seq (n : nat) (lo hi : Z) | Invalid.

Definition first (b : Z) : lead :=
  if b <? 0x80 then Ascii
  else if b <? 0xc2 then Invalid
  else if b <? 0xe0 then Seq 1 0x80 0xbf
  else if b =? 0xe0 then Seq 2 0xa0 0xbf
  else if b <? 0xed then Seq 2 0x80 0xbf
  else if b =? 0xed then Seq 2 0x80 0x9f
  else if b <? 0xf0 then Seq 2 0x80 0xbf
  else if b =? 0xf0 then Seq 3 0x90 0xbf
  else if b <? 0xf4 then Seq 3 0x80 0xbf
  else if b =? 0xf4 then Seq 3 0x80 0x8f
  else Invalid.

Definition within (lo hi b : Z) : bool := (lo <=? b) && (b <=? hi).
Definition continues (b : Z) : bool := within 0x80 0xbf b.

Fixpoint utf8_Valid (p : bytes) : bool :=
  match p with
  | [] => true
  | b :: p =>
      match first b with
      | Ascii => utf8_Valid p
      | Invalid => false
      | Seq n lo hi =>
          match n, p with
          | 1%nat, b1 :: p => within lo hi b1 && utf8_Valid p
          | 2%nat, b1 :: b2 :: p => within lo hi b1 && continues b2 && utf8_Valid p
          | 3%nat, b1 :: b2 :: b3 :: p => within lo hi b1 && continues b2 && continues b3 && utf8_Valid p
          | _, _ => false
          end
      end
  end.

(** * The validator *)

Record utf8Validator := Validator { need : Z; lo : Z; hi : Z }.

(** [step]; [None] is false. *)
Definition step (v : utf8Validator) (b : Z) : option utf8Validator :=
  if negb (need v =? 0) then
    if (b <? lo v) || (hi v <? b) then None
    else Some (Validator (need v - 1) 0x80 0xbf)
  else if b <? 0x80 then Some (Validator (need v) 0x80 0xbf)
  else if (0xc2 <=? b) && (b <=? 0xdf) then Some (Validator 1 0x80 0xbf)
  else if b =? 0xe0 then Some (Validator 2 0xa0 0xbf)
  else if b =? 0xed then Some (Validator 2 0x80 0x9f)
  else if (0xe1 <=? b) && (b <=? 0xef) then Some (Validator 2 0x80 0xbf)
  else if b =? 0xf0 then Some (Validator 3 0x90 0xbf)
  else if (0xf1 <=? b) && (b <=? 0xf3) then Some (Validator 3 0x80 0xbf)
  else if b =? 0xf4 then Some (Validator 3 0x80 0x8f)
  else None.

Fixpoint steps (v : utf8Validator) (p : bytes) : option utf8Validator :=
  match p with
  | [] => Some v
  | b :: p => match step v b with Some v => steps v p | None => None end
  end.

(** [for v.need != 0]: the state and what is left of [p]. *)
Fixpoint finish_sequence (v : utf8Validator) (p : bytes) : option (utf8Validator * bytes) :=
  if need v =? 0 then Some (v, p)
  else match p with
       | [] => Some (v, [])
       | b :: p => match step v b with Some v => finish_sequence v p | None => None end
       end.

(** The scan of the last three bytes, from the end: [rp] is what is left of the
    reversed bytes, [i] its length. *)
Fixpoint scan_tail (k : nat) (rp : bytes) (i : nat) (tail : nat) : nat :=
  match k, rp with
  | S k, b :: rp =>
      if negb (Z.land b 0xc0 =? 0x80) then if 0xc0 <=? b then (i - 1)%nat else tail
      else scan_tail k rp (i - 1) tail
  | _, _ => tail
  end.

Definition tail_of (p : bytes) : nat := scan_tail 3 (reverse p) (length p) (length p).

(** [write]; [None] is false. *)
Definition write (v : utf8Validator) (p : bytes) : option utf8Validator :=
  match finish_sequence v p with
  | None => None
  | Some (v, p) =>
      if negb (need v =? 0) then Some v
      else
        let tail := tail_of p in
        if negb (utf8_Valid (take tail p)) then None else steps v (drop tail p)
  end.

Definition complete (v : utf8Validator) : bool := need v =? 0.
Definition reset : utf8Validator := Validator 0 0 0.

(** * States that behave alike

    Between sequences the bounds mean nothing, and the bulk check leaves them
    as they were. *)

Definition veq (v w : utf8Validator) : Prop := need v = need w /\ (need v <> 0 -> lo v = lo w /\ hi v = hi w).

#[export] Instance veq_equiv : Equivalence veq.
Proof.
  split.
  - by intros v.
  - intros v w [E H]. split; [done|]. rewrite <- E. intros Hn. by destruct (H Hn).
  - intros u v w [E1 H1] [E2 H2]. split; [congruence|]. intros Hn. destruct (H1 Hn). rewrite E1 in Hn. destruct (H2 Hn).
    split; congruence.
Qed.

(** Results that behave alike. *)
Definition oeq (a b : option utf8Validator) : Prop :=
  match a, b with
  | Some v, Some w => veq v w
  | None, None => True
  | _, _ => False
  end.

#[export] Instance oeq_equiv : Equivalence oeq.
Proof.
  split.
  - by intros [v|]; cbn.
  - intros [v|] [w|] H; cbn in *; done.
  - intros [u|] [v|] [w|] H1 H2; cbn in *; try done. by etransitivity.
Qed.

Lemma step_veq v w b : veq v w -> step v b = step w b.
Proof.
  intros [E H]. unfold step. rewrite <- E. destruct (Z.eqb_spec (need v) 0) as [E0|Hn]; cbn [negb]; [done|].
  destruct (H Hn) as [-> ->]. done.
Qed.

#[export] Instance steps_proper : Proper (veq ==> eq ==> oeq) steps.
Proof.
  intros v w Hv p ? <-. destruct p as [|b p]; cbn; [done|]. rewrite (step_veq v w b Hv). by destruct (step w b).
Qed.

Lemma steps_app v p q : steps v (p ++ q) = match steps v p with Some w => steps w q | None => None end.
Proof. revert v. induction p as [|b p IH]; intros v; cbn; [done|]. destruct (step v b); [apply IH|done]. Qed.

(** * The states that occur *)

Definition vok (v : utf8Validator) : Prop :=
  0 <= need v <= 3 /\ (need v <> 0 -> 0x80 <= lo v <= hi v /\ hi v <= 0xbf).

Lemma vok_reset : vok reset.
Proof. split; cbn; lia. Qed.

(** Case analysis on the tests of [step]. *)
Ltac step_cases H :=
  unfold step in H;
  repeat match type of H with
    | (if ?c then _ else _) = _ => destruct c eqn:?
    end; try discriminate H; injection H as <-.

Lemma step_vok v b w : vok v -> step v b = Some w -> vok w.
Proof.
  intros [Hn Hb] H. step_cases H; split; cbn [need lo hi]; try lia.
Qed.

Lemma steps_vok v p w : vok v -> steps v p = Some w -> vok w.
Proof.
  revert v. induction p as [|b p IH]; intros v Hv; cbn; [by intros [= <-]|].
  destruct (step v b) as [u|] eqn:E; [|done]. apply IH. by eapply step_vok.
Qed.

(** * The validator and [Valid] *)

Lemma within_spec l h b : (b <? l) || (h <? b) = negb (within l h b).
Proof. unfold within. destruct (Z.ltb_spec b l), (Z.ltb_spec h b), (Z.leb_spec l b), (Z.leb_spec b h); cbn; (done || lia). Qed.

(** [step] on a first byte is what [Valid] looks up. *)
Lemma step_first v b :
  byte_ok b -> need v = 0 ->
  step v b = match first b with
             | Ascii => Some (Validator 0 0x80 0xbf)
             | Seq n l h => Some (Validator (Z.of_nat n) l h)
             | Invalid => None
             end.
Proof.
  intros Hb Hn. unfold step, first. rewrite Hn. cbn [Z.eqb negb]. unfold byte_ok in Hb.
  repeat match goal with |- context [?x <? ?y] => destruct (Z.ltb_spec x y) end;
    repeat match goal with |- context [?x =? ?y] => destruct (Z.eqb_spec x y) end;
    repeat match goal with |- context [?x <=? ?y] => destruct (Z.leb_spec x y) end; cbn; (done || lia).
Qed.

Lemma step_inside v b : need v <> 0 -> step v b = if within (lo v) (hi v) b then Some (Validator (need v - 1) 0x80 0xbf) else None.
Proof. intros Hn. unfold step. destruct (Z.eqb_spec (need v) 0); [done|]. cbn [negb]. rewrite within_spec. by destruct (within _ _ b). Qed.

Lemma first_n b n l h : first b = Seq n l h -> (n = 1 \/ n = 2 \/ n = 3)%nat /\ 0x80 <= l <= h /\ h <= 0xbf /\ 0xc2 <= b.
Proof.
  unfold first. repeat match goal with |- (if ?c then _ else _) = _ -> _ => destruct c eqn:? end;
    try discriminate; intros [= <- <- <-]; lia.
Qed.

(** Whether the state after [p] is between sequences. *)
Definition ends (r : option utf8Validator) : bool := match r with Some v => complete v | None => false end.

Lemma valid_steps p v : bytes_ok p -> need v = 0 -> utf8_Valid p = ends (steps v p).
Proof.
  remember (length p) as k eqn:Hk. assert (Hle : (length p <= k)%nat) by lia. clear Hk. revert p v Hle.
  induction k as [|k IH]; intros [|b p] v Hle Hp Hv; cbn [length] in Hle; try lia.
  1,2: cbn; unfold complete; by rewrite Hv.
  apply Forall_cons in Hp as [Hb Hp]. cbn [utf8_Valid steps]. rewrite step_first by done.
  destruct (first b) as [|n l h|] eqn:Ef; [apply IH; (done || lia)| |done].
  destruct (first_n _ _ _ _ Ef) as (Hn & _).
  destruct Hn as [->|[->| ->]].
  - destruct p as [|b1 p]; [done|]. apply Forall_cons in Hp as [_ Hp]. cbn [steps length] in *.
    rewrite step_inside by done. cbn [lo hi need]. destruct (within l h b1); [|done]. cbn [andb]. apply IH; (done || lia).
  - destruct p as [|b1 [|b2 p]]; [done| |].
    + cbn [steps]. rewrite step_inside by done. cbn [lo hi need]. by destruct (within l h b1).
    + apply Forall_cons in Hp as [_ Hp]. apply Forall_cons in Hp as [_ Hp]. cbn [steps length] in *.
      rewrite step_inside by done. cbn [lo hi need]. destruct (within l h b1); [|done]. cbn [andb].
      rewrite step_inside by done. cbn [lo hi need]. unfold continues. destruct (within 128 191 b2); [|done]. cbn [andb].
      apply IH; (done || lia).
  - destruct p as [|b1 [|b2 [|b3 p]]]; [done| | |].
    + cbn [steps]. rewrite step_inside by done. cbn [lo hi need]. by destruct (within l h b1).
    + cbn [steps]. rewrite step_inside by done. cbn [lo hi need]. destruct (within l h b1); [|done].
      rewrite step_inside by done. cbn [lo hi need]. by destruct (within 128 191 b2).
    + do 3 apply Forall_cons in Hp as [_ Hp]. cbn [steps length] in *.
      rewrite step_inside by done. cbn [lo hi need]. destruct (within l h b1); [|done]. cbn [andb].
      rewrite step_inside by done. cbn [lo hi need]. unfold continues. destruct (within 128 191 b2); [|done]. cbn [andb].
      rewrite step_inside by done. cbn [lo hi need]. destruct (within 128 191 b3); [|done]. cbn [andb].
      apply IH; (done || lia).
Qed.

(** * The last three bytes *)

Definition is_cont (b : Z) : bool := Z.land b 0xc0 =? 0x80.

Lemma is_cont_range b : byte_ok b -> is_cont b = true <-> 0x80 <= b <= 0xbf.
Proof.
  assert (H : forallb (fun b => Bool.eqb (is_cont b) ((0x80 <=? b) && (b <=? 0xbf))) (seqZ 0 256) = true)
    by (vm_compute; reflexivity).
  rewrite forallb_forall in H. intros Hb. specialize (H b). cbv beta in H. rewrite <- list_elem_of_In, elem_of_seqZ in H.
  unfold byte_ok in Hb. specialize (H ltac:(lia)). apply Bool.eqb_prop in H. rewrite H. lia.
Qed.

(** A sequence cut short began at a lead byte, with fewer than three
    continuation bytes after it. *)
Lemma incomplete p v w :
  bytes_ok p -> need v = 0 -> steps v p = Some w -> need w <> 0 ->
  exists q l cs, p = q ++ l :: cs /\ 0xc2 <= l /\ Forall (fun b => is_cont b = true) cs /\ (length cs <= 2)%nat.
Proof.
  intros Hp Hv Hs Hw.
  enough (H : exists q l cs, p = q ++ l :: cs /\ 0xc2 <= l /\ Forall (fun b => is_cont b = true) cs /\
    Z.of_nat (length cs) + need w <= 3).
  { destruct H as (q & l & cs & ? & ? & ? & ?). exists q, l, cs. split; [done|]. split; [done|]. split; [done|].
    pose proof (steps_vok v p w) as Hok. assert (vok v) as Hv' by (split; [lia|lia]). destruct (Hok Hv' Hs). lia. }
  revert w Hs Hw. induction p as [|b p IH] using rev_ind; intros w Hs Hw.
  { cbn in Hs. injection Hs as <-. lia. }
  apply Forall_app in Hp as [Hp Hb]. rewrite Forall_singleton in Hb. rewrite steps_app in Hs.
  destruct (steps v p) as [u|] eqn:Eu; [|done]. cbn in Hs. destruct (step u b) as [w'|] eqn:E; [|done].
  injection Hs as ->. destruct (Z.eq_dec (need u) 0) as [Hu|Hu].
  - rewrite step_first in E by done. exists p, b, []. destruct (first b) as [|n l h|] eqn:Ef; [injection E as <-; done| |done].
    destruct (first_n _ _ _ _ Ef) as (Hn & _ & _ & Hc). injection E as <-. cbn [need length].
    split; [done|]. split; [done|]. split; [apply Forall_nil_2|]. lia.
  - destruct (IH Hp u eq_refl Hu) as (q & l & cs & -> & Hl & Hcs & Hlen).
    rewrite step_inside in E by done. destruct (within (lo u) (hi u) b) eqn:Ew; [|done]. injection E as <-.
    assert (Hok : vok u) by (eapply steps_vok; [|exact Eu]; split; [lia|lia]). destruct Hok as [_ Hr]. specialize (Hr Hu).
    exists q, l, (cs ++ [b]). rewrite <- (assoc_L (++)). split; [done|]. split; [done|]. split.
    + apply Forall_app. split; [done|]. apply Forall_singleton, is_cont_range; [done|]. unfold within in Ew. lia.
    + rewrite length_app. cbn [length need]. lia.
Qed.

Lemma scan_skip k cs rp i tail :
  Forall (fun b => is_cont b = true) cs -> scan_tail (length cs + k) (cs ++ rp) (length cs + i) tail = scan_tail k rp i tail.
Proof.
  intros Hcs. revert i. induction Hcs as [|b cs Hb Hcs IH]; intros i; [done|].
  cbn [length app Nat.add scan_tail]. unfold is_cont in Hb. rewrite Hb. cbn [negb].
  replace (S (length cs + i) - 1)%nat with (length cs + i)%nat by lia. apply IH.
Qed.

(** The scan finds the lead byte of a sequence cut short. *)
Lemma tail_of_lead q l cs :
  byte_ok l -> 0xc2 <= l -> Forall (fun b => is_cont b = true) cs -> (length cs <= 2)%nat ->
  tail_of (q ++ l :: cs) = length q.
Proof.
  intros Hb Hl Hcs Hlen. unfold tail_of. rewrite reverse_app, reverse_cons, <- (assoc_L (++)).
  assert (Hr : Forall (fun b => is_cont b = true) (reverse cs)) by (apply Forall_reverse; done).
  pose proof (length_reverse cs) as El.
  replace (length (q ++ l :: cs)) with (length (reverse cs) + (1 + length q))%nat at 1
    by (rewrite length_app; cbn [length]; lia).
  replace 3%nat with (length (reverse cs) + S (2 - length cs))%nat by lia.
  rewrite scan_skip by done. cbn [app scan_tail].
  assert (Hnc : is_cont l = false).
  { destruct (is_cont l) eqn:E; [|done]. apply is_cont_range in E; [lia|done]. }
  unfold is_cont in Hnc. rewrite Hnc. cbn [negb]. destruct (Z.leb_spec 192 l); lia.
Qed.

(** Whatever it finds is a byte that cannot continue a sequence. *)
Lemma scan_tail_spec k q rp tail p :
  p = reverse rp ++ q -> tail = length p ->
  scan_tail k rp (length rp) tail = tail \/
  exists x, p !! scan_tail k rp (length rp) tail = Some x /\ 0xc0 <= x.
Proof.
  revert q rp. induction k as [|k IH]; intros q rp Hp Ht; cbn [scan_tail]; [by left|].
  destruct rp as [|b rp]; [by left|]. cbn [length]. replace (S (length rp) - 1)%nat with (length rp) by lia.
  destruct (negb _).
  - destruct (Z.leb_spec 192 b); [|by left]. right. exists b. split; [|done].
    rewrite Hp, reverse_cons, <- (assoc_L (++)). apply list_lookup_middle. by rewrite length_reverse.
  - apply (IH (b :: q)); [|done]. by rewrite Hp, reverse_cons, <- (assoc_L (++)).
Qed.

(** * Writing is stepping *)

Lemma bulk v p : bytes_ok p -> need v = 0 -> utf8_Valid (take (tail_of p) p) = false -> steps v p = None.
Proof.
  intros Hp Hv Hinv. destruct (steps v p) as [w|] eqn:Es; [exfalso|done].
  set (t := tail_of p) in *.
  assert (Ha : bytes_ok (take t p)) by (by apply Forall_take).
  rewrite <- (take_drop t p), steps_app in Es. rewrite (valid_steps _ v Ha Hv) in Hinv.
  destruct (steps v (take t p)) as [u|] eqn:Eu; [|done]. cbn [ends] in Hinv. unfold complete in Hinv.
  apply Z.eqb_neq in Hinv.
  destruct (scan_tail_spec 3 [] (reverse p) (length p) p) as [E|(x & Hx & Hc)];
    [by rewrite reverse_involutive, app_nil_r|done| |].
  - assert (Et : t = length p) by (unfold t, tail_of; by rewrite length_reverse in E).
    rewrite Et, drop_all in Es. cbn in Es. injection Es as ->. rewrite Et, firstn_all in Eu.
    destruct (incomplete p v w Hp Hv Eu Hinv) as (q & l & cs & E1 & Hl & Hcs & Hlen).
    assert (byte_ok l) by (rewrite E1 in Hp; apply Forall_app in Hp as [_ Hp]; by apply Forall_cons in Hp as [? _]).
    pose proof (tail_of_lead q l cs ltac:(done) Hl Hcs Hlen) as Htl. rewrite <- E1 in Htl. fold t in Htl.
    rewrite Et, E1, length_app in Htl. cbn [length] in Htl. lia.
  - rewrite length_reverse in Hx. fold (tail_of p) in Hx. fold t in Hx.
    rewrite (drop_S p x t Hx) in Es. cbn [steps] in Es.
    assert (Hok : vok u) by (eapply steps_vok; [|exact Eu]; split; [lia|lia]). destruct Hok as [_ Hr]. specialize (Hr Hinv).
    rewrite step_inside in Es by done. unfold within in Es. destruct (Z.leb_spec x (hi u)); [lia|].
    by rewrite andb_false_r in Es.
Qed.

Lemma finish_steps v p :
  match finish_sequence v p with
  | Some (w, q) => steps v p = steps w q /\ (need w = 0 \/ q = []) /\ exists a, p = a ++ q
  | None => steps v p = None
  end.
Proof.
  revert v. induction p as [|b p IH]; intros v; cbn [finish_sequence steps];
    destruct (Z.eqb_spec (need v) 0).
  - split; [done|]. split; [by left|]. by exists [].
  - split; [done|]. split; [by right|]. by exists [].
  - split; [done|]. split; [by left|]. by exists [].
  - destruct (step v b) as [w|]; [|done]. specialize (IH w). destruct (finish_sequence w p) as [[u q]|]; [|done].
    destruct IH as (? & ? & a & ->). split; [done|]. split; [done|]. by exists (b :: a).
Qed.

Lemma write_steps v p : bytes_ok p -> oeq (write v p) (steps v p).
Proof.
  intros Hp. unfold write. pose proof (finish_steps v p) as H. destruct (finish_sequence v p) as [[w q]|].
  - destruct H as (-> & Hq & a & ->). apply Forall_app in Hp as [_ Hp].
    destruct (Z.eqb_spec (need w) 0) as [Hw|Hw]; cbn [negb]; [|destruct Hq as [?| ->]; done].
    destruct (utf8_Valid (take (tail_of q) q)) eqn:Ev; cbn [negb].
    + replace (steps w q) with (steps w (take (tail_of q) q ++ drop (tail_of q) q)) by by rewrite take_drop.
      rewrite steps_app.
      rewrite (valid_steps _ w) in Ev by (done || by apply Forall_take).
      destruct (steps w (take (tail_of q) q)) as [u|]; [|done]. cbn [ends] in Ev. unfold complete in Ev. apply Z.eqb_eq in Ev.
      apply steps_proper; [|done]. split; [by rewrite Hw, Ev|]. rewrite Hw. done.
    + rewrite (bulk w q Hp Hw Ev). done.
  - rewrite H. done.
Qed.

Lemma write_veq v w p : bytes_ok p -> veq v w -> oeq (write v p) (write w p).
Proof.
  intros Hp Hvw. rewrite (write_steps v p Hp), (write_steps w p Hp). by apply steps_proper.
Qed.

(** The pieces of a text, one after another. *)
Fixpoint writes (v : utf8Validator) (ps : list bytes) : option utf8Validator :=
  match ps with
  | [] => Some v
  | p :: ps => match write v p with Some v => writes v ps | None => None end
  end.

Lemma writes_steps v ps : Forall (fun p => bytes_ok p) ps -> oeq (writes v ps) (steps v (concat ps)).
Proof.
  intros Hps. revert v. induction Hps as [|p ps Hp Hps IH]; intros v; cbn [writes concat]; [done|].
  rewrite steps_app. pose proof (write_steps v p Hp) as Hw.
  destruct (write v p) as [u|], (steps v p) as [u'|]; cbn in Hw; try done.
  rewrite (IH u). by apply steps_proper.
Qed.

(** From any state some bytes finish the sequence. *)
Lemma completable v : vok v -> exists more, bytes_ok more /\ ends (steps v more) = true.
Proof.
  intros [Hn Hr]. destruct (Z.eq_dec (need v) 0) as [E|Hne].
  { exists []. split; [apply Forall_nil_2|]. cbn. unfold complete. by rewrite E. }
  specialize (Hr Hne). exists (lo v :: replicate (Z.to_nat (need v - 1)) 0x80). split.
  { constructor; [unfold byte_ok; lia|]. apply Forall_replicate. unfold byte_ok. lia. }
  cbn [steps].
  rewrite step_inside by done. replace (within (lo v) (hi v) (lo v)) with true by (unfold within; lia).
  assert (need v = 1 \/ need v = 2 \/ need v = 3) as [->|[->| ->]] by lia; reflexivity.
Qed.

(** C38: incremental validation is [utf8.Valid].  However a text is cut into
    pieces, the pieces are accepted and the last one ends on a boundary exactly
    if the text is valid UTF-8; and a piece is refused exactly when no
    continuation whatever could make the text valid. *)
Theorem utf8_incremental ps :
  Forall (fun p => bytes_ok p) ps ->
  (ends (writes reset ps) = utf8_Valid (concat ps)) /\
  (writes reset ps = None <-> forall more, bytes_ok more -> utf8_Valid (concat ps ++ more) = false).
Proof.
  intros Hps. pose proof (writes_steps reset ps Hps) as Hw.
  assert (Hc : bytes_ok (concat ps)) by (clear Hw; induction Hps; cbn; [constructor|by apply Forall_app]).
  split.
  - rewrite (valid_steps _ reset) by done. destruct (writes reset ps), (steps reset (concat ps)); cbn in Hw; try done.
    destruct Hw as [E _]. cbn. unfold complete. by rewrite E.
  - split.
    + intros E more Hm. rewrite E in Hw. destruct (steps reset (concat ps)) eqn:Es; [done|].
      rewrite (valid_steps _ reset) by (done || by apply Forall_app). by rewrite steps_app, Es.
    + intros H. destruct (writes reset ps) as [u|]; [|done]. destruct (steps reset (concat ps)) as [v|] eqn:Es; [|done].
      destruct (completable v (steps_vok _ _ _ vok_reset Es)) as (more & Hm & Hmore).
      specialize (H more Hm). rewrite (valid_steps _ reset), steps_app, Es in H by (done || by apply Forall_app). congruence.
Qed.

(** "é" cut in two, then a stray continuation byte. *)
Lemma utf8_incremental_witness :
  ends (writes reset [[0x61; 0xc3]; [0xa9]]) = true /\ writes reset [[0x61; 0xc3]; [0xa9]; [0xa9]] = None.
Proof.
  split.
  - rewrite (proj1 (utf8_incremental [[0x61; 0xc3]; [0xa9]] ltac:(repeat (apply Forall_cons_2; [by apply bytes_check|]); apply Forall_nil_2))). reflexivity.
  - vm_compute. reflexivity.
Defined.
