(* ===== verification/WsFrame.v ===== *)
(** WebSocket frames (src/go/websocket/frame.go, with [decompressMessage] and
    [keepWindow] of deflate.go and [sendFrame] of handler.go): masking, frame
    sizes, building frames, and [Parser.next], which takes one frame off the
    parser's buffer.

    Slices are their contents; the arrays a parser recycles ([owned],
    [inflated]) have no contents of their own and are left out.  An [int] has 64
    bits.  [flate] is compress/flate's decompressor: what a compressed message
    inflates to after a dictionary, and whether it ended properly. *)
From S2P Require Import Prelude.
From S2P Require Import Utf8.

Definition Continuation : Z := 0x0.
Definition Text : Z := 0x1.
Definition Binary : Z := 0x2.
Definition Close : Z := 0x8.
Definition Ping : Z := 0x9.
Definition Pong : Z := 0xa.

Inductive ws_error := ErrProtocol | ErrMessageTooBig | ErrInvalidPayload.

Record Event := Ev { Opcode : Z; Payload : bytes }.
Record fragmentedMessage := Fragment { fg_opcode : Z; fg_compressed : bool; fg_data : bytes }.

(** * Masking *)

(** Eight bytes at a time, then the rest; [n] counts the words that fit. *)
Fixpoint mask_words (n : nat) (src : bytes) (mask64 : Z) : bytes :=
  match n with
  | O => []
  | S n => le_bytes 8 (Z.lxor (le_val (take 8 src)) mask64) ++ mask_words n (drop 8 src) mask64
  end.

Fixpoint mask_rest (i : Z) (src mask : bytes) : bytes :=
  match src with
  | [] => []
  | b :: src => Z.lxor b (default 0 (at_ mask (Z.land i 3))) :: mask_rest (i + 1) src mask
  end.

Definition applyMask (src mask : bytes) : bytes :=
  let mask32 := le_val mask in
  let mask64 := Z.lor mask32 (Z.shiftl mask32 32) in
  let n := (length src / 8)%nat in
  mask_words n src mask64 ++ mask_rest (8 * Z.of_nat n) (drop (8 * n) src) mask.

(** * Sizes *)

Definition frameHeaderSize (data : bytes) : Z :=
  match data with
  | _ :: b1 :: _ =>
      let size := 2 + if negb (Z.land b1 0x80 =? 0) then 4 else 0 in
      if Z.land b1 0x7f =? 126 then size + 2
      else if Z.land b1 0x7f =? 127 then size + 8
      else size
  | _ => 2
  end.

Definition bytes_at (data : bytes) (o n : nat) : bytes := take n (drop o data).

(** The payload length a complete header announces. *)
Definition payload_len (data : bytes) : Z :=
  match data with
  | _ :: b1 :: _ =>
      let n := Z.land b1 0x7f in
      if n =? 126 then be_val (bytes_at data 2 2)
      else if n =? 127 then be_val (bytes_at data 2 8)
      else n
  | _ => 0
  end.

Definition maxInt : Z := 2 ^ 63 - 1.

Definition frameSize (data : bytes) : option Z :=
  let headerSize := frameHeaderSize data in
  if len data <? headerSize then None
  else if maxInt - headerSize <? payload_len data then None
  else Some (headerSize + payload_len data).

(** [appendCurrentFrame]: at most three rounds, for the first two bytes, the
    rest of the header, and the payload. *)
Fixpoint appendCurrentFrame_loop (fuel : nat) (buffer data : bytes) : bytes * bytes :=
  match fuel with
  | O => (buffer ++ data, [])
  | S fuel =>
      match frameSize buffer with
      | Some frameEnd =>
          let need := frameEnd - len buffer in
          if (need <=? 0) || (len data <=? need) then (buffer ++ data, [])
          else (buffer ++ take (Z.to_nat need) data, drop (Z.to_nat need) data)
      | None =>
          let need := frameHeaderSize buffer - len buffer in
          if (need <=? 0) || (len data <=? need) then (buffer ++ data, [])
          else appendCurrentFrame_loop fuel (buffer ++ take (Z.to_nat need) data) (drop (Z.to_nat need) data)
      end
  end.

Definition appendCurrentFrame (buffer data : bytes) : bytes * bytes := appendCurrentFrame_loop 3 buffer data.

(** * Building frames *)

Definition validCloseCode (code : Z) : bool :=
  if (1000 <=? code) && (code <=? 1014) then negb (code =? 1004) && negb (code =? 1005) && negb (code =? 1006)
  else (3000 <=? code) && (code <=? 4999).

Definition sendable (opcode : Z) : bool :=
  (opcode =? Text) || (opcode =? Binary) || (opcode =? Close) || (opcode =? Ping) || (opcode =? Pong).

(** The header, and its length. *)
Definition frameHeader (opcode payloadLen : Z) : result ws_error bytes :=
  if negb (sendable opcode) then Err ErrProtocol
  else if (8 <=? opcode) && (125 <? payloadLen) then Err ErrProtocol
  else
    let b0 := Z.lor 0x80 opcode in
    if payloadLen <? 126 then Ok [b0; u8 payloadLen]
    else if payloadLen <=? 65535 then Ok ([b0; 126] ++ be_bytes 2 (u16 payloadLen))
    else Ok ([b0; 127] ++ be_bytes 8 (u64 payloadLen)).

Definition MarshalFrame (opcode : Z) (payload : bytes) : result ws_error bytes :=
  if negb (sendable opcode) then Err ErrProtocol
  else if (8 <=? opcode) && (125 <? len payload) then Err ErrProtocol
  else
    let b0 := Z.lor 0x80 opcode in
    let header :=
      if len payload <? 126 then [b0; u8 (len payload)]
      else if len payload <=? 65535 then [b0; 126] ++ be_bytes 2 (u16 (len payload))
      else [b0; 127] ++ be_bytes 8 (u64 (len payload)) in
    Ok (header ++ payload).

(** [sendFrame]'s bytes: a server's as they are, a client's masked with the
    random [key]. *)
Definition sendFrame (client compressed : bool) (key : bytes) (opcode : Z) (payload : bytes) : result ws_error bytes :=
  let! header := frameHeader opcode (len payload) in
  match header with
  | b0 :: b1 :: ext =>
      let b0 := if compressed then Z.lor b0 0x40 else b0 in
      if negb client then Ok ((b0 :: b1 :: ext) ++ payload)
      else Ok ((b0 :: Z.lor b1 0x80 :: ext) ++ key ++ applyMask payload key)
  | _ => Err ErrProtocol
  end.

(** * The parser *)

Record Parser := PState {
  maxMessageBytes : Z;
  fromServer : bool;
  deflate : bool;
  contextTakeover : bool;
  buffer : bytes;
  borrowedBuffer : bool;
  borrowedTail : bytes;
  fragment : option fragmentedMessage;
  text : utf8Validator;
  textChecked : Z;
  pendingConsume : Z;
  window : bytes;
}.

Definition NewParser (max : Z) : Parser :=
  PState (if max <=? 0 then 16777216 else max) false false false [] false [] None reset 0 0 [].

Definition NewServerFrameParser (max : Z) : Parser :=
  PState (if max <=? 0 then 16777216 else max) true false false [] false [] None reset 0 0 [].

Definition set_buffer (b : bytes) (borrowed : bool) (p : Parser) : Parser :=
  PState (maxMessageBytes p) (fromServer p) (deflate p) (contextTakeover p) b borrowed (borrowedTail p)
    (fragment p) (text p) (textChecked p) (pendingConsume p) (window p).
Definition set_tail (t : bytes) (p : Parser) : Parser :=
  PState (maxMessageBytes p) (fromServer p) (deflate p) (contextTakeover p) (buffer p) (borrowedBuffer p) t
    (fragment p) (text p) (textChecked p) (pendingConsume p) (window p).
Definition set_fragment (f : option fragmentedMessage) (p : Parser) : Parser :=
  PState (maxMessageBytes p) (fromServer p) (deflate p) (contextTakeover p) (buffer p) (borrowedBuffer p) (borrowedTail p)
    f (text p) (textChecked p) (pendingConsume p) (window p).
Definition set_text (v : utf8Validator) (checked : Z) (p : Parser) : Parser :=
  PState (maxMessageBytes p) (fromServer p) (deflate p) (contextTakeover p) (buffer p) (borrowedBuffer p) (borrowedTail p)
    (fragment p) v checked (pendingConsume p) (window p).
Definition set_pending (n : Z) (p : Parser) : Parser :=
  PState (maxMessageBytes p) (fromServer p) (deflate p) (contextTakeover p) (buffer p) (borrowedBuffer p) (borrowedTail p)
    (fragment p) (text p) (textChecked p) n (window p).
Definition set_window (w : bytes) (p : Parser) : Parser :=
  PState (maxMessageBytes p) (fromServer p) (deflate p) (contextTakeover p) (buffer p) (borrowedBuffer p) (borrowedTail p)
    (fragment p) (text p) (textChecked p) (pendingConsume p) w.

(** [consume]: an emptied buffer is no longer borrowed. *)
Definition consume (n : Z) (p : Parser) : Parser :=
  if n =? len (buffer p) then set_buffer [] false p
  else set_buffer (drop (Z.to_nat n) (buffer p)) (borrowedBuffer p) p.

Definition finishFrame (frameEnd : Z) (borrowed : bool) (p : Parser) : Parser :=
  if borrowed then set_pending frameEnd p else consume frameEnd p.

(** * Decompression *)

Definition maxWindowSize : Z := 32768.

(** The empty block a sender strips, and a final one. *)
Definition deflateTail : bytes := [0x00; 0x00; 0xff; 0xff; 0x01; 0x00; 0x00; 0xff; 0xff].

Definition keepWindow (window message : bytes) : bytes :=
  if maxWindowSize <=? len message then drop (Z.to_nat (len message - maxWindowSize)) message
  else
    let excess := len window + len message - maxWindowSize in
    (if 0 <? excess then drop (Z.to_nat excess) window else window) ++ message.

Section parser.
Context (flate : bytes -> bytes -> bytes * bool).

(** [decompressMessage]: the length is checked after every read, before the
    error that came with it. *)
Definition decompressMessage (compressed dict : bytes) (limit : Z) : result ws_error bytes :=
  let '(out, ok) := flate dict (compressed ++ deflateTail) in
  if limit <? len out then Err ErrMessageTooBig
  else if ok then Ok out else Err ErrInvalidPayload.

(** [inflate]: the message and the window for the next one. *)
Definition inflate (max : Z) (contextTakeover : bool) (window compressed : bytes) : result ws_error (bytes * bytes) :=
  let! message := decompressMessage compressed (if contextTakeover then window else []) max in
  Ok (message, if contextTakeover then keepWindow window message else window).

(** * Headers *)

Record header := Header {
  h_fin : bool; h_opcode : Z; h_compressed : bool; h_len : Z; h_offset : Z; h_mask : option bytes;
}.
Inductive hres := HMore | HErr (e : ws_error) | HOk (h : header).

(** The checks of the first two bytes. *)
Definition flags_ok (fromServer deflate : bool) (frag : option fragmentedMessage) (first second : Z) : bool :=
  let fin := negb (Z.land first 0x80 =? 0) in
  let opcode := Z.land first 0x0f in
  let masked := negb (Z.land second 0x80 =? 0) in
  let compressed := negb (Z.land first 0x40 =? 0) in
  (Z.land first 0x30 =? 0) && negb (Bool.eqb masked fromServer) &&
  negb (compressed && (negb deflate || (negb (opcode =? Text) && negb (opcode =? Binary)))) &&
  negb ((8 <=? opcode) && (negb fin || (125 <? Z.land second 0x7f))) &&
  (if opcode =? Continuation then match frag with Some _ => true | None => false end
   else if (opcode =? Text) || (opcode =? Binary) then match frag with None => true | Some _ => false end
   else (opcode =? Close) || (opcode =? Ping) || (opcode =? Pong)).

(** The extended length: too little of it, a length that should have been
    shorter, or the length and the bytes read so far. *)
Definition read_length (b : bytes) (second : Z) : option (result ws_error (Z * Z)) :=
  let n := Z.land second 0x7f in
  if n =? 126 then
    if len b <? 4 then None
    else let l := be_val (bytes_at b 2 2) in
         if l <? 126 then Some (Err ErrProtocol) else Some (Ok (l, 4))
  else if n =? 127 then
    if len b <? 10 then None
    else let l := be_val (bytes_at b 2 8) in
         if (l <? 65536) || negb (Z.shiftr l 63 =? 0) then Some (Err ErrProtocol) else Some (Ok (l, 10))
  else Some (Ok (n, 2)).

(** [next] up to the payload. *)
Definition readHeader (max : Z) (fromServer deflate : bool) (frag : option fragmentedMessage) (b : bytes) : hres :=
  match b with
  | first :: second :: _ =>
      if negb (flags_ok fromServer deflate frag first second) then HErr ErrProtocol
      else
        match read_length b second with
        | None => HMore
        | Some (Err e) => HErr e
        | Some (Ok (payloadLen, offset)) =>
            let opcode := Z.land first 0x0f in
            let control := 8 <=? opcode in
            let current := match frag with Some f => len (fg_data f) | None => 0 end in
            if control && (125 <? payloadLen) then HErr ErrProtocol
            else if negb control && ((max <? payloadLen) || (max - payloadLen <? current)) then HErr ErrMessageTooBig
            else
              let hd := Header (negb (Z.land first 0x80 =? 0)) opcode (negb (Z.land first 0x40 =? 0)) payloadLen in
              if negb (Z.land second 0x80 =? 0) then
                if len b <? offset + 4 then HMore
                else HOk (hd (offset + 4) (Some (bytes_at b (Z.to_nat offset) 4)))
              else HOk (hd offset None)
        end
  | _ => HMore
  end.

(** Is the frame's payload text that is checked as it arrives? *)
Definition is_text (frag : option fragmentedMessage) (h : header) : bool :=
  ((h_opcode h =? Text) && negb (h_compressed h)) ||
  ((h_opcode h =? Continuation) &&
   match frag with Some f => (fg_opcode f =? Text) && negb (fg_compressed f) | None => false end).

(** * Partial text *)

(** The masked case, 512 bytes at a time; [i] is where the next chunk starts. *)
Fixpoint check_chunks (fuel : nat) (i : Z) (available mask : bytes) (v : utf8Validator) : option utf8Validator :=
  match fuel with
  | O => Some v
  | S fuel =>
      if len available <=? i then Some v
      else
        let chunk := bytes_at available (Z.to_nat i) 512 in
        match write v (mask_rest i chunk mask) with
        | Some v => check_chunks fuel (i + len chunk) available mask v
        | None => None
        end
  end.

Definition checkPartialText (available : bytes) (mask : option bytes) (p : Parser) : option Parser :=
  if len available <=? textChecked p then Some p
  else
    let v := match mask with
             | None => write (text p) (drop (Z.to_nat (textChecked p)) available)
             | Some m => check_chunks (length available) (textChecked p) available m (text p)
             end in
    match v with
    | Some v => Some (set_text v (len available) p)
    | None => None
    end.

(** * One frame *)

(** [NMore]: the frame is not all there; [NGot None]: a fragment, nothing to
    hand out yet. *)
Inductive nres := NErr (e : ws_error) | NMore | NGot (ev : option Event).

Definition unmask (mask : option bytes) (payload : bytes) : bytes :=
  match mask with Some m => applyMask payload m | None => payload end.

(** A text piece [payload[checked:]] and, at the end of the message, whether it
    ends on a boundary. *)
Definition text_piece (v : utf8Validator) (piece : bytes) (last : bool) : option utf8Validator :=
  match write v piece with
  | Some v => if last && negb (complete v) then None else Some v
  | None => None
  end.

(** A control frame. *)
Definition control_frame (borrow : bool) (h : header) (payload : bytes) (frameEnd : Z) (p : Parser) : Parser * nres :=
  if (h_opcode h =? Close) &&
     ((len payload =? 1) || ((2 <=? len payload) && negb (validCloseCode (be_val (take 2 payload)))))
  then (p, NErr ErrProtocol)
  else if (h_opcode h =? Close) && (2 <? len payload) && negb (utf8_Valid (drop 2 payload))
  then (p, NErr ErrInvalidPayload)
  else (finishFrame frameEnd borrow p, NGot (Some (Ev (h_opcode h) payload))).

(** The first frame of a message; [checked] bytes of its text were validated
    while it was incomplete. *)
Definition data_frame (borrow : bool) (h : header) (is_txt : bool) (checked : Z) (payload : bytes) (frameEnd : Z) (p : Parser)
  : Parser * nres :=
  if h_fin h && h_compressed h then
    match inflate (maxMessageBytes p) (contextTakeover p) (window p) payload with
    | Err e => (p, NErr e)
    | Ok (message, w) =>
        let p := set_window w p in
        if (h_opcode h =? Text) && negb (utf8_Valid message) then (p, NErr ErrInvalidPayload)
        else (finishFrame frameEnd borrow p, NGot (Some (Ev (h_opcode h) message)))
    end
  else if h_fin h then
    let valid :=
      if is_txt then
        if checked =? 0 then utf8_Valid payload
        else match text_piece (text p) (drop (Z.to_nat checked) payload) true with Some _ => true | None => false end
      else true in
    if negb valid then (p, NErr ErrInvalidPayload)
    else
      let p := if is_txt then set_text reset 0 p else p in
      (finishFrame frameEnd borrow p, NGot (Some (Ev (h_opcode h) payload)))
  else
    match (if is_txt then text_piece (text p) (drop (Z.to_nat checked) payload) false else Some (text p)) with
    | None => (p, NErr ErrInvalidPayload)
    | Some v =>
        let p := set_fragment (Some (Fragment (h_opcode h) (h_compressed h) payload)) (set_text v 0 p) in
        (consume frameEnd p, NGot None)
    end.

(** A later frame of the message [f]. *)
Definition continuation_frame (h : header) (is_txt : bool) (checked : Z) (payload : bytes) (frameEnd : Z)
    (f : fragmentedMessage) (p : Parser) : Parser * nres :=
  match (if is_txt then text_piece (text p) (drop (Z.to_nat checked) payload) (h_fin h) else Some (text p)) with
  | None => (p, NErr ErrInvalidPayload)
  | Some v =>
      let data := fg_data f ++ payload in
      let p := consume frameEnd (set_fragment (Some (Fragment (fg_opcode f) (fg_compressed f) data)) (set_text v 0 p)) in
      if negb (h_fin h) then (p, NGot None)
      else if fg_compressed f then
        match inflate (maxMessageBytes p) (contextTakeover p) (window p) data with
        | Err e => (p, NErr e)
        | Ok (message, w) =>
            let p := set_window w p in
            if (fg_opcode f =? Text) && negb (utf8_Valid message) then (p, NErr ErrInvalidPayload)
            else (set_fragment None (set_text reset 0 p), NGot (Some (Ev (fg_opcode f) message)))
        end
      else (set_fragment None (set_text reset 0 p), NGot (Some (Ev (fg_opcode f) data)))
  end.

(** The payload, in place or in an array of its own. *)
Definition load_payload (borrow : bool) (h : header) (payload : bytes) (p : Parser) : Parser :=
  let p := set_text (text p) 0 p in
  if borrow
  then set_buffer (take (Z.to_nat (h_offset h)) (buffer p) ++ payload ++
                   drop (Z.to_nat (h_offset h + h_len h)) (buffer p)) (borrowedBuffer p) p
  else p.

(** [next]; a continuation without a message was refused with the header. *)
Definition next (borrow : bool) (p : Parser) : Parser * nres :=
  match readHeader (maxMessageBytes p) (fromServer p) (deflate p) (fragment p) (buffer p) with
  | HMore => (p, NMore)
  | HErr e => (p, NErr e)
  | HOk h =>
      let is_txt := is_text (fragment p) h in
      let available := drop (Z.to_nat (h_offset h)) (buffer p) in
      if len available <? h_len h then
        if is_txt then
          match checkPartialText available (h_mask h) p with
          | Some p => (p, NMore)
          | None => (p, NErr ErrInvalidPayload)
          end
        else (p, NMore)
      else
        let frameEnd := h_offset h + h_len h in
        let checked := textChecked p in
        let payload := unmask (h_mask h) (take (Z.to_nat (h_len h)) available) in
        let p := load_payload borrow h payload p in
        if 8 <=? h_opcode h then control_frame borrow h payload frameEnd p
        else if (h_opcode h =? Text) || (h_opcode h =? Binary) then data_frame borrow h is_txt checked payload frameEnd p
        else
          match fragment p with
          | Some f => continuation_frame h is_txt checked payload frameEnd f p
          | None => (p, NErr ErrProtocol)
          end
  end.
End parser.

(** * Masking is bytewise *)

Lemma mask_rest_len i src m : length (mask_rest i src m) = length src.
Proof. revert i. induction src as [|b src IH]; intros i; cbn; [done|]. by rewrite IH. Qed.

Lemma mask_rest_app i a b m : mask_rest i (a ++ b) m = mask_rest i a m ++ mask_rest (i + len a) b m.
Proof.
  revert i. induction a as [|x a IH]; intros i; cbn [app mask_rest]; [rewrite len_nil; by replace (i + 0) with i by lia|].
  rewrite IH, len_cons. by replace (i + 1 + len a) with (i + (1 + len a)) by lia.
Qed.

Lemma mask_rest_drop k i src m :
  (k <= length src)%nat -> drop k (mask_rest i src m) = mask_rest (i + Z.of_nat k) (drop k src) m.
Proof.
  intros Hk. rewrite <- (take_drop k src) at 1. rewrite mask_rest_app.
  assert (Hl : length (take k src) = k) by (rewrite length_take; lia).
  rewrite drop_app_length' by (by rewrite mask_rest_len, Hl). unfold len. by rewrite Hl.
Qed.

Lemma mask_rest_take k i src m : take k (mask_rest i src m) = mask_rest i (take k src) m.
Proof.
  destruct (Nat.le_gt_cases k (length src)) as [Hk|Hk].
  - rewrite <- (take_drop k src) at 1. rewrite mask_rest_app.
    rewrite take_app_length'; [done|]. rewrite mask_rest_len, length_take. lia.
  - rewrite !take_ge; [done|lia|rewrite mask_rest_len; lia].
Qed.

Lemma mask_rest_ok i src m : bytes_ok src -> bytes_ok m -> bytes_ok (mask_rest i src m).
Proof.
  intros Hs Hm. revert i. induction Hs as [|b src Hb Hs IH]; intros i; cbn; constructor; [|apply IH].
  apply lxor_byte_ok; [done|]. by apply at_bytes_ok.
Qed.

Lemma mask64_val m : bytes_ok m -> length m = 4%nat -> Z.lor (le_val m) (Z.shiftl (le_val m) 32) = le_val (m ++ m).
Proof.
  intros Hm Hl. pose proof (le_val_range m Hm) as Hr. rewrite le_val_app. unfold len in *. rewrite Hl in *.
  change (256 ^ Z.of_nat 4) with (2 ^ 32) in *. rewrite Z.lor_comm, Z.shiftl_mul_pow2 by lia.
  rewrite lor_add by lia. lia.
Qed.

(** A whole number of words starting on a multiple of four. *)
Lemma mask_words_rest n i src m :
  bytes_ok src -> bytes_ok m -> length m = 4%nat -> (8 * n <= length src)%nat -> i mod 4 = 0 -> 0 <= i ->
  mask_words n src (le_val (m ++ m)) = mask_rest i (take (8 * n) src) m.
Proof.
  intros Hs Hm Hl. revert i src Hs. induction n as [|n IH]; intros i src Hs Hn Hi H0; [done|]. cbn [mask_words].
  destruct src as [|s0 [|s1 [|s2 [|s3 [|s4 [|s5 [|s6 [|s7 src]]]]]]]]; cbn [length] in Hn; try lia.
  destruct m as [|m0 [|m1 [|m2 [|m3 []]]]]; try done.
  replace (8 * S n)%nat with (S (S (S (S (S (S (S (S (8 * n)))))))))%nat by lia.
  assert (Hs8 : bytes_ok [s0; s1; s2; s3; s4; s5; s6; s7]) by (by apply (Forall_take _ 8) in Hs).
  assert (Hrest : bytes_ok src) by (by apply (Forall_drop _ 8) in Hs).
  cbn [take drop]. change (le_bytes 8) with (le_bytes (length [s0; s1; s2; s3; s4; s5; s6; s7])).
  rewrite le_bytes_lxor by (done || by apply Forall_app). cbn [app zip_with mask_rest].
  assert (Hat : forall k, 0 <= k -> Z.land (i + k) 3 = k mod 4).
  { intros k Hk. change 3 with (2 ^ 2 - 1). rewrite land_mask by lia. change (2 ^ 2) with 4. Z.div_mod_to_equations. lia. }
  replace i with (i + 0) at 1 by lia. rewrite <- !Z.add_assoc. cbn [Z.add Pos.add Pos.succ].
  rewrite !Hat by lia. cbn [app] in IH. rewrite drop_0, take_0. cbn [zip_with app]. rewrite (IH (i + 8) src Hrest ltac:(lia) ltac:(Z.div_mod_to_equations; lia) ltac:(lia)).
  reflexivity.
Qed.

(** [applyMask], which works on words, masks byte [i] with key byte [i mod 4]. *)
Lemma applyMask_rest src m : bytes_ok src -> bytes_ok m -> length m = 4%nat -> applyMask src m = mask_rest 0 src m.
Proof.
  intros Hs Hm Hl. unfold applyMask. rewrite mask64_val by done.
  pose proof (Nat.div_mod_eq (length src) 8). pose proof (Nat.mod_upper_bound (length src) 8 ltac:(lia)).
  set (n := (length src / 8)%nat) in *.
  rewrite (mask_words_rest n 0) by (done || lia).
  rewrite <- (take_drop (8 * n) src) at 3. rewrite mask_rest_app. f_equal. f_equal.
  rewrite len_take. unfold len. lia.
Qed.
