(* ===== verification/WsParser.v ===== *)
(** Feeding a WebSocket parser (src/go/websocket/frame.go: [feedOne], [Feed],
    [ReleaseBorrowed], with the loop of [serveFrames] in handler.go).

    The specification is [frame_step], one frame off the front of a stream of
    bytes, and [events], all of them: it knows nothing of buffers, of the order
    in which bytes arrived, or of what part of an unfinished text frame was
    validated already.  The parser, fed the stream in any pieces and by either
    of its two entry points, hands out exactly these events. *)
From S2P Require Import Prelude.
From S2P Require Import Utf8.
From S2P Require Import WsFrame.

(** * Feeding *)

Section feed.
Context (flate : bytes -> bytes -> bytes * bool).

Inductive fres := FErr (e : ws_error) | FNone | FEvent (ev : Event).

(** What an error leaves of a parser. *)
Definition failed (p : Parser) : Parser :=
  PState (maxMessageBytes p) (fromServer p) (deflate p) (contextTakeover p) [] false [] None reset 0 (pendingConsume p) [].

Definition take_pending (p : Parser) : Parser :=
  if negb (pendingConsume p =? 0) then set_pending 0 (consume (pendingConsume p) p) else p.

(** An emptied buffer goes on with the rest of the borrowed read. *)
Definition take_tail (p : Parser) : Parser :=
  set_tail [] (set_buffer (borrowedTail p) true p).

Definition tail_waits (p : Parser) : bool := (len (buffer p) =? 0) && negb (len (borrowedTail p) =? 0).

(** [adopt] copies the borrowed bytes. *)
Definition adopt (p : Parser) : Parser := set_buffer (buffer p) false p.

Definition add_input (data : bytes) (borrow : bool) (p : Parser) : Parser :=
  if borrow && (len (buffer p) =? 0) && negb (len data =? 0) then set_buffer data true p
  else if borrow && negb (borrowedBuffer p) && negb (len (buffer p) =? 0) && negb (len data =? 0) then
    let '(b, t) := appendCurrentFrame (buffer p) data in set_tail t (set_buffer b (borrowedBuffer p) p)
  else set_buffer (buffer p ++ data) (borrowedBuffer p) p.

(** The loop: each round takes a frame off the buffer or moves on to the tail. *)
Fixpoint feed_loop (fuel : nat) (borrow : bool) (p : Parser) : option (Parser * fres) :=
  match fuel with
  | O => None
  | S fuel =>
      match next flate borrow p with
      | (p, NErr e) => Some (failed p, FErr e)
      | (p, NMore) =>
          if tail_waits p then feed_loop fuel borrow (take_tail p)
          else
            let p := if borrowedBuffer p && negb (len (buffer p) =? 0) then adopt p else p in
            Some (p, FNone)
      | (p, NGot (Some ev)) => Some (p, FEvent ev)
      | (p, NGot None) => feed_loop fuel borrow p
      end
  end.

Definition feed_fuel (p : Parser) : nat := S (length (buffer p) + 2 * length (borrowedTail p)).

Definition feedOne (data : bytes) (borrow : bool) (p : Parser) : option (Parser * fres) :=
  let p := take_pending p in
  let p := if tail_waits p then take_tail p else p in
  let p := add_input data borrow p in
  feed_loop (feed_fuel p) borrow p.

Definition ReleaseBorrowed (p : Parser) : Parser :=
  let p := set_tail [] (take_pending p) in
  if borrowedBuffer p then set_buffer [] false p else p.

(** [Reset], with the capacity of the fragment's array. *)
Definition Reset (fragCap : Z) (p : Parser) : Parser :=
  let frag := match fragment p with
              | Some f => if 65536 <? fragCap then None else Some (Fragment 0 (fg_compressed f) [])
              | None => None
              end in
  PState (maxMessageBytes p) (fromServer p) (deflate p) (contextTakeover p) [] false [] frag reset 0 0 [].

(** How a read ends: with nothing more to hand out, with an error, or with a
    frame that ends the loop. *)
Inductive ending := More | Failed (e : ws_error) | Closed.

(** [Feed], and the loop of [serveFrames] between two reads: feed the bytes,
    then nothing, until no event comes or an event [stop]s the loop.  An event
    takes at least two bytes. *)
Fixpoint drain_loop (stop : Event -> bool) (fuel : nat) (borrow : bool) (data : bytes) (p : Parser) (evs : list Event)
  : option (Parser * list Event * ending) :=
  match fuel with
  | O => None
  | S fuel =>
      match feedOne data borrow p with
      | None => None
      | Some (p, FErr e) => Some (p, evs, Failed e)
      | Some (p, FNone) => Some (p, evs, More)
      | Some (p, FEvent ev) =>
          if stop ev then Some (p, evs ++ [ev], Closed)
          else drain_loop stop fuel borrow [] p (evs ++ [ev])
      end
  end.

Definition drain_fuel (data : bytes) (p : Parser) : nat :=
  S (length (buffer p) + length (borrowedTail p) + length data).

Definition never (ev : Event) : bool := false.
Definition Feed (data : bytes) (p : Parser) : option (Parser * list Event * ending) :=
  drain_loop never (drain_fuel data p) false data p [].

(** The frames [serveFrames] acts on: a close frame is the last, and so is a ping
    that [replyPing] cannot answer, which closes the connection; [answered] are
    those it can, or a [PingHandler] takes. *)
Definition last_frame (answered : Event -> bool) (ev : Event) : bool :=
  (Opcode ev =? Close) || ((Opcode ev =? Ping) && negb (answered ev)).
Definition serve_read (answered : Event -> bool) (data : bytes) (p : Parser) : option (Parser * list Event * ending) :=
  match drain_loop (last_frame answered) (drain_fuel data p) true data p [] with
  | Some (p, evs, e) => Some (ReleaseBorrowed p, evs, e)
  | None => None
  end.

(** A connection's reads one after another, until one ends it. *)
Fixpoint reads (feed : bytes -> Parser -> option (Parser * list Event * ending)) (ds : list bytes) (p : Parser)
  : option (list Event * ending) :=
  match ds with
  | [] => Some ([], More)
  | d :: ds =>
      match feed d p with
      | Some (p, evs, More) =>
          match reads feed ds p with Some (evs', e) => Some (evs ++ evs', e) | None => None end
      | Some (_, evs, e) => Some (evs, e)
      | None => None
      end
  end.

(** * The specification *)

(** What a parser remembers between frames. *)
Record core := Core { c_frag : option fragmentedMessage; c_text : utf8Validator; c_window : bytes }.

Record pconfig := PConfig { k_max : Z; k_fromServer : bool; k_deflate : bool; k_takeover : bool }.

Inductive sres := SMore | SErr (e : ws_error) | SGot (ev : option Event) (c : core) (n : Z).

(** The payload bytes there are so far, as sent. *)
Definition arrived (h : header) (b : bytes) : bytes :=
  let l := take (Z.to_nat (h_len h)) (drop (Z.to_nat (h_offset h)) b) in
  match h_mask h with Some m => mask_rest 0 l m | None => l end.

Definition whole (h : header) (b : bytes) : bool := h_offset h + h_len h <=? len b.

(** The text of a frame, after what the message had before it. *)
Definition text_after (txt : bool) (v : utf8Validator) (payload : bytes) (last : bool) : option utf8Validator :=
  if txt then match steps v payload with
              | Some w => if last && negb (complete w) then None else Some w
              | None => None
              end
  else Some v.

Definition finish_message (k : pconfig) (c : core) (opcode : Z) (compressed : bool) (data : bytes) (n : Z) : sres :=
  if compressed then
    match inflate flate (k_max k) (k_takeover k) (c_window c) data with
    | Err e => SErr e
    | Ok (message, w) =>
        if (opcode =? Text) && negb (utf8_Valid message) then SErr ErrInvalidPayload
        else SGot (Some (Ev opcode message)) (Core None reset w) n
    end
  else SGot (Some (Ev opcode data)) (Core None reset (c_window c)) n.

Definition frame_step (k : pconfig) (c : core) (b : bytes) : sres :=
  match readHeader (k_max k) (k_fromServer k) (k_deflate k) (c_frag c) b with
  | HMore => SMore
  | HErr e => SErr e
  | HOk h =>
      let payload := arrived h b in
      let txt := is_text (c_frag c) h in
      let n := h_offset h + h_len h in
      match text_after txt (c_text c) payload (whole h b && h_fin h) with
      | None => SErr ErrInvalidPayload
      | Some v =>
          if negb (whole h b) then SMore
          else if 8 <=? h_opcode h then
            if (h_opcode h =? Close) &&
               ((len payload =? 1) || ((2 <=? len payload) && negb (validCloseCode (be_val (take 2 payload)))))
            then SErr ErrProtocol
            else if (h_opcode h =? Close) && (2 <? len payload) && negb (utf8_Valid (drop 2 payload))
            then SErr ErrInvalidPayload
            else SGot (Some (Ev (h_opcode h) payload)) c n
          else
            let '(opcode, compressed, data) :=
              match c_frag c with
              | Some f => (fg_opcode f, fg_compressed f, fg_data f ++ payload)
              | None => (h_opcode h, h_compressed h, payload)
              end in
            if h_fin h then finish_message k c opcode compressed data n
            else SGot None (Core (Some (Fragment opcode compressed data)) v (c_window c)) n
      end
  end.

(** All the events of a stream, and how it ends: with an error, or with a core
    and the start of a frame that is not all there. *)
Fixpoint events_loop (fuel : nat) (k : pconfig) (c : core) (b : bytes) : option (list Event * (ws_error + core * bytes)) :=
  match fuel with
  | O => None
  | S fuel =>
      match frame_step k c b with
      | SErr e => Some ([], inl e)
      | SMore => Some ([], inr (c, b))
      | SGot ev c n =>
          match events_loop fuel k c (drop (Z.to_nat n) b) with
          | Some (evs, r) => Some (match ev with Some e => e :: evs | None => evs end, r)
          | None => None
          end
      end
  end.

Definition events (k : pconfig) (c : core) (b : bytes) : option (list Event * (ws_error + core * bytes)) :=
  events_loop (S (length b)) k c b.

(** The events up to one that stops the loop. *)
Fixpoint cut (stop : Event -> bool) (evs : list Event) (fin : ws_error + core * bytes) : list Event * ending :=
  match evs with
  | [] => ([], match fin with inl e => Failed e | inr _ => More end)
  | ev :: evs => if stop ev then ([ev], Closed) else let '(l, e) := cut stop evs fin in (ev :: l, e)
  end.

(** * Headers and the bytes behind them *)

Lemma bytes_at_app b m o n : (o + n <= length b)%nat -> bytes_at (b ++ m) o n = bytes_at b o n.
Proof.
  intros H. unfold bytes_at. rewrite drop_app_le by lia. rewrite take_app_le; [done|]. rewrite length_drop. lia.
Qed.

Lemma read_length_app b m s r : read_length b s = Some r -> read_length (b ++ m) s = Some r.
Proof.
  unfold read_length. pose proof (len_nonneg m).
  destruct (_ =? 126).
  - destruct (Z.ltb_spec (len b) 4); [done|]. destruct (Z.ltb_spec (len (b ++ m)) 4); [len_lia|].
    by rewrite bytes_at_app by (unfold len in *; lia).
  - destruct (_ =? 127); [|done]. destruct (Z.ltb_spec (len b) 10); [done|].
    destruct (Z.ltb_spec (len (b ++ m)) 10); [len_lia|]. by rewrite bytes_at_app by (unfold len in *; lia).
Qed.

Lemma be_val_bound l n : bytes_ok l -> (length l <= n)%nat -> 0 <= be_val l < 256 ^ Z.of_nat n.
Proof.
  intros Hl Hn. destruct (be_val_range l Hl) as [? Hlt]. split; [done|]. eapply Z.lt_le_trans; [done|].
  apply Z.pow_le_mono_r; [lia|]. unfold len. lia.
Qed.

(** What [read_length] says, against [payload_len] and the header's size. *)
Lemma read_length_ok b0 b1 b l o :
  bytes_ok (b0 :: b1 :: b) -> read_length (b0 :: b1 :: b) b1 = Some (Ok (l, o)) ->
  l = payload_len (b0 :: b1 :: b) /\ o + (if negb (Z.land b1 0x80 =? 0) then 4 else 0) = frameHeaderSize (b0 :: b1 :: b) /\
  2 <= o <= 10 /\ o <= len (b0 :: b1 :: b) /\ 0 <= l < 2 ^ 63.
Proof.
  intros Hb. unfold read_length, payload_len, frameHeaderSize.
  assert (Hs : forall o n, bytes_ok (bytes_at (b0 :: b1 :: b) o n)) by (intros; by apply Forall_take, Forall_drop).
  assert (Hl : forall o n, (length (bytes_at (b0 :: b1 :: b) o n) <= n)%nat) by (intros; unfold bytes_at; rewrite length_take; lia).
  assert (H7 : 0 <= Z.land b1 0x7f < 128).
  { change 0x7f with (2 ^ 7 - 1). rewrite land_mask by lia. apply Z.mod_pos_bound. lia. }
  destruct (Z.eqb_spec (Z.land b1 127) 126).
  - destruct (Z.ltb_spec (len (b0 :: b1 :: b)) 4); [done|]. destruct (_ <? 126); [done|]. intros [= <- <-].
    pose proof (be_val_bound _ 2 (Hs 2%nat 2%nat) (Hl 2%nat 2%nat)). split; [done|]. split; [lia|]. lia.
  - destruct (Z.eqb_spec (Z.land b1 127) 127).
    + destruct (Z.ltb_spec (len (b0 :: b1 :: b)) 10); [done|].
      destruct (_ <? 65536); [done|]. cbn [orb]. destruct (Z.eqb_spec (Z.shiftr (be_val (bytes_at (b0 :: b1 :: b) 2 8)) 63) 0) as [E|]; [|done].
      cbn [negb]. intros [= <- <-]. pose proof (be_val_bound _ 8 (Hs 2%nat 8%nat) (Hl 2%nat 8%nat)) as Hr.
      rewrite Z.shiftr_div_pow2 in E by lia. split; [done|]. split; [lia|]. split; [lia|]. split; [done|].
      split; [lia|]. destruct (Z.lt_ge_cases (be_val (bytes_at (b0 :: b1 :: b) 2 8)) (2 ^ 63)); [done|].
      assert (1 <= be_val (bytes_at (b0 :: b1 :: b) 2 8) / 2 ^ 63) by (apply Z.div_le_lower_bound; lia). lia.
    + intros [= <- <-]. split; [done|]. split; [lia|]. split; [lia|]. split; [rewrite !len_cons; pose proof (len_nonneg b); lia|lia].
Qed.

Lemma readHeader_app mx fs df fr b m :
  match readHeader mx fs df fr b with
  | HMore => True
  | r => readHeader mx fs df fr (b ++ m) = r
  end.
Proof.
  unfold readHeader. destruct b as [|f [|s b]]; [done|done|]. cbn [app].
  destruct (negb (flags_ok _ _ _ _ _)); [done|].
  destruct (read_length (f :: s :: b) s) as [r|] eqn:E; [|done].
  pose proof (read_length_app _ m _ _ E) as E'. cbn [app] in E'. rewrite E'.
  destruct r as [[l o]|e]; [|done]. destruct (_ && (125 <? l)); [done|]. destruct (_ && _); [done|].
  destruct (negb _); [|done]. pose proof (len_nonneg m).
  destruct (Z.ltb_spec (len (f :: s :: b)) (o + 4)); [done|].
  destruct (Z.ltb_spec (len (f :: s :: b ++ m)) (o + 4)); [len_lia|].
  assert (2 <= o) by (unfold read_length in E; destruct (_ =? 126); [destruct (_ <? 4); [done|]; destruct (_ <? 126); by simplify_eq|];
    destruct (_ =? 127); [destruct (_ <? 10); [done|]; destruct (_ || _); by simplify_eq|by simplify_eq]).
  change (f :: s :: b ++ m) with ((f :: s :: b) ++ m). rewrite (bytes_at_app (f :: s :: b) m); [done|].
  unfold len in *. cbn [length] in *. lia.
Qed.

Record header_ok (b : bytes) (h : header) : Prop := {
  ho_offset : h_offset h = frameHeaderSize b;
  ho_len : h_len h = payload_len b;
  ho_range : 2 <= h_offset h <= len b;
  ho_bound : 0 <= h_len h < 2 ^ 63;
  ho_mask : forall m, h_mask h = Some m -> length m = 4%nat /\ bytes_ok m;
}.

Lemma readHeader_ok mx fs df fr b h : bytes_ok b -> readHeader mx fs df fr b = HOk h -> header_ok b h.
Proof.
  intros Hb. unfold readHeader. destruct b as [|f [|s b]]; [done|done|].
  destruct (negb (flags_ok _ _ _ _ _)); [done|].
  destruct (read_length (f :: s :: b) s) as [[[l o]|e]|] eqn:E; [|done|done].
  destruct (read_length_ok _ _ _ _ _ Hb E) as (-> & Ho & Ho1 & Ho2 & Hl).
  destruct (_ && (125 <? _)); [done|]. destruct (_ && _); [done|]. revert Ho.
  destruct (negb (Z.land s 128 =? 0)); intros Ho.
  - destruct (Z.ltb_spec (len (f :: s :: b)) (o + 4)); [done|]. intros [= <-]. split; cbn [h_offset h_len h_mask]; try lia; try done.
    intros m [= <-]. split; [unfold bytes_at; rewrite length_take, length_drop; unfold len in *; lia|by apply Forall_take, Forall_drop].
  - intros [= <-]. split; cbn [h_offset h_len h_mask]; try lia; done.
Qed.

Lemma arrived_app h b m :
  0 <= h_offset h <= len b -> exists x, arrived h (b ++ m) = arrived h b ++ x /\ (whole h b = true -> x = []).
Proof.
  intros Ho. unfold arrived, whole. rewrite drop_app_le by (unfold len in *; lia). rewrite take_app.
  set (x := take _ m). exists (match h_mask h with Some k => mask_rest (0 + len (take (Z.to_nat (h_len h)) (drop (Z.to_nat (h_offset h)) b))) x k | None => x end).
  split.
  - destruct (h_mask h); [by rewrite mask_rest_app|done].
  - intros Hw%Z.leb_le. assert (x = []) as ->.
    { unfold x. replace (_ - _)%nat with 0%nat; [by rewrite take_0|]. rewrite length_drop. unfold len in *. lia. }
    by destruct (h_mask h).
Qed.

Lemma arrived_len h b :
  0 <= h_offset h <= len b -> 0 <= h_len h -> len (arrived h b) = Z.min (h_len h) (len b - h_offset h).
Proof.
  intros Ho Hl. unfold arrived. set (l := take _ _). assert (E : len l = Z.min (h_len h) (len b - h_offset h)) by (unfold l; len_lia).
  destruct (h_mask h); [|done]. unfold len in *. by rewrite mask_rest_len.
Qed.

Lemma arrived_ok h b : bytes_ok b -> (forall m, h_mask h = Some m -> bytes_ok m) -> bytes_ok (arrived h b).
Proof.
  intros Hb Hm. unfold arrived. assert (bytes_ok (take (Z.to_nat (h_len h)) (drop (Z.to_nat (h_offset h)) b))) by (by apply Forall_take, Forall_drop).
  destruct (h_mask h); [apply mask_rest_ok; auto|done].
Qed.

(** * The specification is monotone in the stream *)

Lemma text_after_extend txt v p x last : text_after txt v p false = None -> text_after txt v (p ++ x) last = None.
Proof.
  unfold text_after. destruct txt; [|done]. rewrite steps_app. by destruct (steps v p).
Qed.

Lemma frame_step_app k c b m :
  bytes_ok b ->
  match frame_step k c b with
  | SMore => True
  | r => frame_step k c (b ++ m) = r
  end.
Proof.
  intros Hb. unfold frame_step.
  pose proof (readHeader_app (k_max k) (k_fromServer k) (k_deflate k) (c_frag c) b m) as Hh.
  destruct (readHeader _ _ _ _ b) as [|e|h] eqn:E; [done|by rewrite Hh|]. rewrite Hh.
  destruct (readHeader_ok _ _ _ _ _ _ Hb E) as [_ _ Hr Hl _].
  destruct (arrived_app h b m ltac:(lia)) as (x & Ex & Hx).
  destruct (whole h b) eqn:Ew.
  - assert (Ew' : whole h (b ++ m) = true) by (unfold whole in *; pose proof (len_nonneg m); rewrite len_app; lia).
    rewrite Ew', Ex, Hx, app_nil_r by done.
    repeat match goal with
      | |- match ?t with _ => _ end => destruct t eqn:?; try done
      end.
  - cbn [andb negb]. destruct (text_after _ _ (arrived h b) false) eqn:Et; [done|].
    by rewrite Ex, text_after_extend.
Qed.

(** A frame takes at least its header. *)
Lemma frame_step_n k c b ev c' n : bytes_ok b -> frame_step k c b = SGot ev c' n -> 2 <= n <= len b.
Proof.
  intros Hb. unfold frame_step. destruct (readHeader _ _ _ _ b) as [|e|h] eqn:E; [done|done|].
  destruct (readHeader_ok _ _ _ _ _ _ Hb E) as [_ _ Hr Hl _].
  destruct (text_after _ _ _ _); [|done]. destruct (whole h b) eqn:Ew; [|done]. cbn [negb].
  assert (H : 2 <= h_offset h + h_len h <= len b) by (unfold whole in Ew; lia).
  assert (Hfin : forall o cm d, finish_message k c o cm d (h_offset h + h_len h) = SGot ev c' n -> 2 <= n <= len b).
  { intros o cm d. unfold finish_message. destruct cm; [|by intros [= <- <- <-]].
    destruct (inflate _ _ _ _ _) as [[? ?]|]; [|done]. destruct (_ && _); [done|]. by intros [= <- <- <-]. }
  destruct (8 <=? _).
  - destruct (_ && _); [done|]. destruct (_ && _); [done|]. by intros [= <- <- <-].
  - destruct (c_frag c); (destruct (h_fin h); [apply Hfin|by intros [= <- <- <-]]).
Qed.

(** * Events *)

Lemma events_loop_fuel f1 f2 k c b :
  bytes_ok b -> (length b < f1)%nat -> (length b < f2)%nat -> events_loop f1 k c b = events_loop f2 k c b.
Proof.
  revert f2 c b. induction f1 as [|f1 IH]; intros [|f2] c b Hb H1 H2; try lia. cbn [events_loop].
  destruct (frame_step k c b) as [|e|ev c' n] eqn:E; [done|done|].
  pose proof (frame_step_n _ _ _ _ _ _ Hb E). rewrite (IH f2); [done|by apply Forall_drop| |];
    rewrite length_drop; unfold len in *; lia.
Qed.

Lemma events_eq k c b :
  bytes_ok b ->
  events k c b =
  match frame_step k c b with
  | SErr e => Some ([], inl e)
  | SMore => Some ([], inr (c, b))
  | SGot ev c n =>
      match events k c (drop (Z.to_nat n) b) with
      | Some (evs, r) => Some (match ev with Some e => e :: evs | None => evs end, r)
      | None => None
      end
  end.
Proof.
  intros Hb. unfold events. cbn [events_loop]. destruct (frame_step k c b) as [|e|ev c' n] eqn:E; [done|done|].
  pose proof (frame_step_n _ _ _ _ _ _ Hb E).
  rewrite (events_loop_fuel (length b) (S (length (drop (Z.to_nat n) b)))); [done|by apply Forall_drop| |lia].
  rewrite length_drop. unfold len in *. lia.
Qed.

(** The events of a longer stream go on where those of its start ended. *)
Lemma events_app k c a b evs r :
  bytes_ok a -> bytes_ok b -> events k c a = Some (evs, r) ->
  events k c (a ++ b) =
  match r with
  | inl e => Some (evs, inl e)
  | inr (c', s) => match events k c' (s ++ b) with Some (evs', r') => Some (evs ++ evs', r') | None => None end
  end.
Proof.
  intros Ha Hb. remember (length a) as n eqn:Hn. revert c a evs Ha Hn. induction n as [n IH] using lt_wf_ind; intros c a evs Ha Hn.
  rewrite events_eq by done. pose proof (frame_step_app k c a b Ha) as Hm.
  destruct (frame_step k c a) as [|e|ev c' m] eqn:E.
  - intros [= <- <-]. cbn [app]. by destruct (events k c (a ++ b)) as [[? ?]|].
  - intros [= <- <-]. rewrite events_eq by (by apply Forall_app). by rewrite Hm.
  - pose proof (frame_step_n _ _ _ _ _ _ Ha E) as Hr.
    destruct (events k c' (drop (Z.to_nat m) a)) as [[evs1 r1]|] eqn:E1; [|done]. intros [= <- <-].
    assert (Hd : bytes_ok (drop (Z.to_nat m) a)) by (by apply Forall_drop).
    rewrite events_eq, Hm by (by apply Forall_app). rewrite drop_app_le by (unfold len in *; lia).
    rewrite (IH (length (drop (Z.to_nat m) a)) ltac:(rewrite length_drop; unfold len in *; lia) c' (drop (Z.to_nat m) a) evs1 Hd eq_refl E1).
    destruct r1 as [e|[c2 s2]]; [done|]. destruct (events k c2 (s2 ++ b)) as [[evs' r']|]; [|done]. by destruct ev.
Qed.

Lemma events_loop_total fuel k c b : bytes_ok b -> (length b < fuel)%nat -> is_Some (events_loop fuel k c b).
Proof.
  revert c b. induction fuel as [|fuel IH]; intros c b Hb Hf; [lia|]. cbn [events_loop].
  destruct (frame_step k c b) as [|e|ev c' n] eqn:E; [by eexists|by eexists|].
  pose proof (frame_step_n _ _ _ _ _ _ Hb E).
  destruct (IH c' (drop (Z.to_nat n) b)) as [[evs r] ->]; [by apply Forall_drop| |by eexists].
  rewrite length_drop. unfold len in *. lia.
Qed.

Lemma events_total k c b : bytes_ok b -> is_Some (events k c b).
Proof. intros Hb. apply events_loop_total; [done|lia]. Qed.

(** * The size of the frame in front *)

Lemma frame_step_size k c b ev c' n :
  bytes_ok b -> frame_step k c b = SGot ev c' n -> n = frameHeaderSize b + payload_len b.
Proof.
  intros Hb. unfold frame_step. destruct (readHeader _ _ _ _ b) as [|e|h] eqn:E; [done|done|].
  destruct (readHeader_ok _ _ _ _ _ _ Hb E) as [<- <- _ _ _].
  destruct (text_after _ _ _ _); [|done]. destruct (whole h b); [|done]. cbn [negb].
  assert (Hfin : forall o cm d, finish_message k c o cm d (h_offset h + h_len h) = SGot ev c' n -> n = h_offset h + h_len h).
  { intros o cm d. unfold finish_message. destruct cm; [|by intros [= <- <- <-]].
    destruct (inflate _ _ _ _ _) as [[? ?]|]; [|done]. destruct (_ && _); [done|]. by intros [= <- <- <-]. }
  destruct (8 <=? _).
  - destruct (_ && _); [done|]. destruct (_ && _); [done|]. by intros [= <- <- <-].
  - destruct (c_frag c); (destruct (h_fin h); [apply Hfin|by intros [= <- <- <-]]).
Qed.

Lemma readHeader_whole mx fs df fr b : frameHeaderSize b <= len b -> readHeader mx fs df fr b <> HMore.
Proof.
  unfold readHeader, frameHeaderSize. destruct b as [|f [|s b]]; [done|done|]. intros H.
  destruct (negb (flags_ok _ _ _ _ _)); [done|]. unfold read_length.
  assert (0 <= if negb (Z.land s 128 =? 0) then 4 else 0) by (destruct (negb _); lia).
  destruct (Z.land s 127 =? 126); [|destruct (Z.land s 127 =? 127)].
  - destruct (Z.ltb_spec (len (f :: s :: b)) 4); [lia|]. destruct (_ <? 126); [done|].
    destruct (_ && (125 <? _)); [done|]. destruct (_ && _); [done|].
    destruct (negb _); [|done]. destruct (Z.ltb_spec (len (f :: s :: b)) (4 + 4)); [lia|done].
  - destruct (Z.ltb_spec (len (f :: s :: b)) 10); [lia|]. destruct (_ || _); [done|].
    destruct (_ && (125 <? _)); [done|]. destruct (_ && _); [done|].
    destruct (negb _); [|done]. destruct (Z.ltb_spec (len (f :: s :: b)) (10 + 4)); [lia|done].
  - destruct (_ && (125 <? _)); [done|]. destruct (_ && _); [done|].
    destruct (negb _); [|done]. destruct (Z.ltb_spec (len (f :: s :: b)) (2 + 4)); [lia|done].
Qed.

(** A frame that is all there is decided. *)
Lemma frame_step_whole k c b : bytes_ok b -> frameSize b = Some (len b) -> frame_step k c b <> SMore.
Proof.
  intros Hb. unfold frameSize. destruct (Z.ltb_spec (len b) (frameHeaderSize b)); [done|].
  destruct (_ <? _); [done|]. intros [= Hs]. unfold frame_step.
  pose proof (readHeader_whole (k_max k) (k_fromServer k) (k_deflate k) (c_frag c) b ltac:(lia)) as Hh.
  destruct (readHeader _ _ _ _ b) as [|e|h] eqn:E; [done|done|].
  destruct (readHeader_ok _ _ _ _ _ _ Hb E) as [Ho Hl _ _ _].
  assert (whole h b = true) as -> by (unfold whole; apply Z.leb_le; lia). cbn [negb].
  destruct (text_after _ _ _ _); [|done].
  assert (Hfin : forall o cm d n, finish_message k c o cm d n <> SMore).
  { intros o cm d n. unfold finish_message. destruct cm; [|done]. destruct (inflate _ _ _ _ _) as [[? ?]|]; [|done]. by destruct (_ && _). }
  destruct (8 <=? _).
  - destruct (_ && _); [done|]. by destruct (_ && _).
  - destruct (c_frag c); (destruct (h_fin h); [apply Hfin|done]).
Qed.

Lemma frameHeaderSize_app b m : 2 <= len b -> frameHeaderSize (b ++ m) = frameHeaderSize b.
Proof. destruct b as [|x [|y b]]; cbn; unfold len; cbn; (done || lia). Qed.

Lemma frameHeaderSize_range b : 2 <= frameHeaderSize b <= 14.
Proof. unfold frameHeaderSize. destruct b as [|x [|y b]]; try lia. destruct (negb _); repeat case_match; lia. Qed.

Lemma payload_len_app b m : frameHeaderSize b <= len b -> payload_len (b ++ m) = payload_len b.
Proof.
  pose proof (frameHeaderSize_range b). destruct b as [|x [|y b]]; try (unfold len; cbn; lia).
  unfold payload_len, frameHeaderSize. cbn [app]. change (x :: y :: b ++ m) with ((x :: y :: b) ++ m). intros H1.
  assert (0 <= if negb (Z.land y 128 =? 0) then 4 else 0) by (destruct (negb _); lia).
  destruct (_ =? 126); [by rewrite bytes_at_app by (unfold len in *; lia)|].
  destruct (_ =? 127); [|done]. by rewrite bytes_at_app by (unfold len in *; lia).
Qed.

Lemma frameSize_app b m n : frameSize b = Some n -> frameSize (b ++ m) = Some n.
Proof.
  unfold frameSize. pose proof (frameHeaderSize_range b). destruct (Z.ltb_spec (len b) (frameHeaderSize b)); [done|].
  rewrite frameHeaderSize_app, payload_len_app by lia. pose proof (len_nonneg m). rewrite len_app.
  destruct (Z.ltb_spec (len b + len m) (frameHeaderSize b)); [lia|done].
Qed.

(** [appendCurrentFrame] leaves a tail only behind a frame that is all there. *)
Lemma appendCurrentFrame_spec fuel buf data b t :
  appendCurrentFrame_loop fuel buf data = (b, t) -> b ++ t = buf ++ data /\ (exists m, b = buf ++ m) /\ (t <> [] -> frameSize b = Some (len b)).
Proof.
  assert (Hall : forall buf data b t, (buf ++ data, []) = (b, t) ->
    b ++ t = buf ++ data /\ (exists m, b = buf ++ m) /\ (t <> [] -> frameSize b = Some (len b))).
  { intros ? d ? ? [= <- <-]. rewrite app_nil_r. split; [done|]. split; [by exists d|done]. }
  revert buf data. induction fuel as [|fuel IH]; intros buf data; cbn [appendCurrentFrame_loop]; [apply Hall|].
  destruct (frameSize buf) as [fe|] eqn:Ef.
  - destruct (_ || _) eqn:Eo; [apply Hall|]. intros [= <- <-]. rewrite <- (assoc_L (++)), take_drop. split; [done|].
    split; [by eexists|]. intros _. apply orb_false_iff in Eo as [E1%Z.leb_gt E2%Z.leb_gt]. rewrite (frameSize_app _ _ _ Ef). f_equal. len_lia.
  - destruct (_ || _); [apply Hall|]. intros (E & (m & Em) & Ht)%IH.
    split; [by rewrite E, <- (assoc_L (++)), take_drop|]. split; [|done]. rewrite Em, <- (assoc_L (++)). by eexists.
Qed.

(** Three rounds are all it takes. *)
Lemma appendCurrentFrame_rounds n buf data :
  appendCurrentFrame_loop (3 + n) buf data = appendCurrentFrame_loop 3 buf data.
Proof.
  assert (H1 : forall n b d, frameHeaderSize b <= len b -> appendCurrentFrame_loop (S n) b d = appendCurrentFrame_loop 1 b d).
  { intros k b d Hb. cbn [appendCurrentFrame_loop]. destruct (frameSize b); [done|].
    by destruct (Z.leb_spec (frameHeaderSize b - len b) 0); [|lia]. }
  assert (H2 : forall n b d, 2 <= len b -> appendCurrentFrame_loop (2 + n) b d = appendCurrentFrame_loop 2 b d).
  { intros k b d Hb. change (2 + k)%nat with (S (1 + k)). change 2%nat with (S 1). cbn [appendCurrentFrame_loop].
    destruct (frameSize b); [done|]. destruct (_ || _) eqn:Eo; [done|].
    apply orb_false_iff in Eo as [E1%Z.leb_gt E2%Z.leb_gt]. apply H1. rewrite frameHeaderSize_app by done. len_lia. }
  change (3 + n)%nat with (S (2 + n)). change 3%nat with (S 2). cbn [appendCurrentFrame_loop].
  destruct (frameSize buf); [done|]. destruct (_ || _) eqn:Eo; [done|].
  apply orb_false_iff in Eo as [E1%Z.leb_gt E2%Z.leb_gt]. apply H2.
  pose proof (frameHeaderSize_range buf). len_lia.
Qed.
End feed.
