(* ===== verification/WsStream.v ===== *)
(** The parser delivers the stream (src/go/websocket/frame.go, handler.go):
    [Parser.next] takes the frame the specification [frame_step] takes, in
    either of its modes and however much of a text it had validated before, and
    so [Feed] and the read loop of [serveFrames] hand out the [events] of the
    stream, cut into reads in whatever way. *)
From S2P Require Import Prelude.
From S2P Require Import Utf8.
From S2P Require Import WsFrame.
From S2P Require Import WsParser.

Definition config (p : Parser) : pconfig := PConfig (maxMessageBytes p) (fromServer p) (deflate p) (contextTakeover p).

Definition header_of (k : pconfig) (c : core) (b : bytes) : hres :=
  readHeader (k_max k) (k_fromServer k) (k_deflate k) (c_frag c) b.

(** A parser with [b] in front of it is in state [c] of the specification, but
    for the part of an unfinished text frame it validated ahead. *)
Record Rel (p : Parser) (c : core) (b : bytes) : Prop := {
  r_frag : fragment p = c_frag c;
  r_window : window p = c_window c;
  r_reset : c_frag c = None -> veq (c_text c) reset;
  r_text : (textChecked p = 0 /\ veq (text p) (c_text c)) \/
           exists h, header_of (config p) c b = HOk h /\ is_text (c_frag c) h = true /\
                     0 < textChecked p <= len (arrived h b) /\
                     oeq (Some (text p)) (steps (c_text c) (take (Z.to_nat (textChecked p)) (arrived h b)));
}.

(** * Text *)

Lemma veq_steps v w p : veq v w -> oeq (steps v p) (steps w p).
Proof. intros. by apply steps_proper. Qed.

(** However much of a text frame was validated, the rest of it gives what all
    of it would have given. *)
Lemma write_rest v c n a :
  bytes_ok a -> 0 <= n <= len a -> oeq (Some v) (steps c (take (Z.to_nat n) a)) ->
  oeq (write v (drop (Z.to_nat n) a)) (steps c a).
Proof.
  intros Ha Hn Hv. rewrite write_steps by (by apply Forall_drop).
  rewrite <- (take_drop (Z.to_nat n) a) at 2. rewrite steps_app.
  destruct (steps c _) as [w|]; [|done]. by apply veq_steps.
Qed.

Lemma rel_text p c b h :
  Rel p c b -> header_of (config p) c b = HOk h -> is_text (c_frag c) h = true ->
  0 <= textChecked p <= len (arrived h b) /\
  oeq (Some (text p)) (steps (c_text c) (take (Z.to_nat (textChecked p)) (arrived h b))).
Proof.
  intros HR Hh Ht. destruct (r_text _ _ _ HR) as [[-> Hv]|(h' & Hh' & _ & Hr & Ho)].
  - split; [pose proof (len_nonneg (arrived h b)); lia|]. done.
  - rewrite Hh in Hh'. injection Hh' as <-. split; [lia|done].
Qed.

Lemma rel_not_text p c b :
  Rel p c b -> (forall h, header_of (config p) c b = HOk h -> is_text (c_frag c) h = false) ->
  textChecked p = 0 /\ veq (text p) (c_text c).
Proof.
  intros HR Hn. destruct (r_text _ _ _ HR) as [?|(h' & Hh' & Ht & _)]; [done|]. by rewrite (Hn _ Hh') in Ht.
Qed.

Lemma check_chunks_steps fuel i a m v :
  bytes_ok a -> bytes_ok m -> 0 <= i <= len a -> len a - i <= Z.of_nat fuel ->
  oeq (check_chunks fuel i a m v) (steps v (drop (Z.to_nat i) (mask_rest 0 a m))).
Proof.
  intros Ha Hm. revert i v. induction fuel as [|fuel IH]; intros i v Hi Hf; cbn [check_chunks].
  { rewrite drop_ge; [done|]. rewrite mask_rest_len. unfold len in *. lia. }
  destruct (Z.leb_spec (len a) i). { rewrite drop_ge; [done|]. rewrite mask_rest_len. unfold len in *. lia. }
  set (ch := bytes_at a (Z.to_nat i) 512).
  assert (Hch : bytes_ok ch) by (by apply Forall_take, Forall_drop).
  assert (Hl : len ch = Z.min 512 (len a - i)) by (unfold ch, bytes_at; len_lia).
  assert (E : drop (Z.to_nat i) (mask_rest 0 a m) = mask_rest i ch m ++ drop (Z.to_nat (i + len ch)) (mask_rest 0 a m)).
  { rewrite !mask_rest_drop by (unfold len in *; lia). rewrite !Z2Nat.id, !Z.add_0_l by lia.
    rewrite <- (take_drop 512 (drop (Z.to_nat i) a)) at 1. rewrite mask_rest_app, drop_drop. f_equal.
    fold ch in |- *. change (take 512 (drop (Z.to_nat i) a)) with ch. f_equal.
    destruct (Z.le_gt_cases 512 (len a - i)); [f_equal; lia|].
    rewrite !drop_ge; [done| |]; unfold len in *; lia. }
  rewrite E, steps_app. pose proof (write_steps v (mask_rest i ch m) ltac:(by apply mask_rest_ok)) as Hw.
  destruct (write v _) as [w|], (steps v (mask_rest i ch m)) as [w'|]; cbn in Hw; try done.
  rewrite (IH (i + len ch) w) by lia. by apply veq_steps.
Qed.

Lemma arrived_partial h b :
  len (drop (Z.to_nat (h_offset h)) b) < h_len h ->
  arrived h b = match h_mask h with Some m => mask_rest 0 (drop (Z.to_nat (h_offset h)) b) m | None => drop (Z.to_nat (h_offset h)) b end.
Proof. intros H. unfold arrived. rewrite take_ge by (unfold len in *; lia). done. Qed.

Lemma arrived_unmask h b :
  bytes_ok b -> (forall m, h_mask h = Some m -> length m = 4%nat /\ bytes_ok m) ->
  unmask (h_mask h) (take (Z.to_nat (h_len h)) (drop (Z.to_nat (h_offset h)) b)) = arrived h b.
Proof.
  intros Hb Hm. unfold unmask, arrived. destruct (h_mask h) as [m|]; [|done]. destruct (Hm m eq_refl).
  apply applyMask_rest; [by apply Forall_take, Forall_drop|done|done].
Qed.

Lemma set_text_same p : set_text (text p) (textChecked p) p = p.
Proof. by destruct p. Qed.

(** The payload of an unfinished text frame. *)
Lemma checkPartial_spec p c h (b := buffer p) (av := drop (Z.to_nat (h_offset h)) b) :
  bytes_ok b -> Rel p c b -> header_of (config p) c b = HOk h -> is_text (c_frag c) h = true -> len av < h_len h ->
  match steps (c_text c) (arrived h b) with
  | Some _ => exists v n, checkPartialText av (h_mask h) p = Some (set_text v n p) /\ Rel (set_text v n p) c b
  | None => checkPartialText av (h_mask h) p = None
  end.
Proof.
  intros Hb HR Hh Ht Hav. destruct (rel_text _ _ _ _ HR Hh Ht) as [Hn Hv].
  pose proof (readHeader_ok _ _ _ _ _ _ Hb Hh) as Ho. pose proof (ho_range _ _ Ho). pose proof (ho_bound _ _ Ho).
  assert (Hl : len (arrived h b) = len av).
  { rewrite arrived_len by lia. unfold av in *. rewrite len_drop in *. lia. }
  assert (Hok : bytes_ok (arrived h b)) by (apply arrived_ok; [done|intros m Hm; by apply (ho_mask _ _ Ho)]).
  unfold checkPartialText. destruct (Z.leb_spec (len av) (textChecked p)) as [Hle|Hlt].
  - assert (E : textChecked p = len (arrived h b)) by lia. rewrite E in Hv. rewrite take_ge in Hv by (unfold len; lia).
    destruct (steps (c_text c) (arrived h b)); [|done]. exists (text p), (textChecked p). by rewrite set_text_same.
  - assert (Hw : oeq (match h_mask h with
             | None => write (text p) (drop (Z.to_nat (textChecked p)) av)
             | Some m => check_chunks (length av) (textChecked p) av m (text p)
             end) (steps (c_text c) (arrived h b))).
    { rewrite <- (write_rest (text p) (c_text c) (textChecked p)) by (done || lia).
      rewrite (arrived_partial _ _ Hav) in *. destruct (h_mask h) as [m|] eqn:Em; [|done].
      rewrite check_chunks_steps; [| | |lia|unfold len; lia].
      - symmetry. apply write_steps, Forall_drop. done.
      - by apply Forall_drop.
      - by apply (ho_mask _ _ Ho m). }
    destruct (match h_mask h with Some _ => _ | None => _ end) as [v|]; destruct (steps _ (arrived h b)) as [w|] eqn:Es; cbn in Hw; try done.
    exists v, (len av). split; [done|]. destruct HR as [? ? ? _]. split; cbn; try done. right. exists h.
    split; [done|]. split; [done|]. rewrite Hl. split; [lia|]. rewrite take_ge by (unfold len in *; lia). by rewrite Es.
Qed.

(** * One frame *)

(** Which frames a header can announce. *)
Lemma header_kind mx fs df fr b h :
  readHeader mx fs df fr b = HOk h ->
  8 <= h_opcode h \/ ((h_opcode h = Text \/ h_opcode h = Binary) /\ fr = None) \/
  (h_opcode h = Continuation /\ exists f, fr = Some f).
Proof.
  unfold readHeader. destruct b as [|f [|s b]]; [done|done|].
  destruct (flags_ok fs df fr f s) eqn:Ef; [|done]. cbn [negb].
  destruct (read_length _ s) as [[[l o]|]|]; [|done|done].
  destruct (_ && (125 <? l)); [done|]. destruct (_ && _); [done|].
  assert (H : forall off m, h_opcode (Header (negb (Z.land f 128 =? 0)) (Z.land f 15) (negb (Z.land f 64 =? 0)) l off m) = Z.land f 15) by done.
  intros Hh. assert (E : h_opcode h = Z.land f 15).
  { destruct (negb (Z.land s 128 =? 0)); [destruct (_ <? _); [done|]|]; by injection Hh as <-. }
  rewrite E. clear - Ef. unfold flags_ok in Ef. apply andb_true_iff in Ef as [_ Ef].
  destruct (Z.eqb_spec (Z.land f 15) Continuation). { right; right. split; [done|]. destruct fr; [by eexists|done]. }
  destruct (Z.eqb_spec (Z.land f 15) Text). { right; left. split; [by left|]. by destruct fr. }
  destruct (Z.eqb_spec (Z.land f 15) Binary). { right; left. split; [by right|]. by destruct fr. }
  cbn [orb] in Ef. left. unfold Close, Ping, Pong in Ef. lia.
Qed.

(** What a parser has behind the frame it took. *)
Record advanced (p p' : Parser) (n : Z) : Prop := {
  a_config : config p' = config p;
  a_tail : borrowedTail p' = borrowedTail p;
  a_rest : drop (Z.to_nat (pendingConsume p')) (buffer p') = drop (Z.to_nat n) (buffer p);
  a_pending : 0 <= pendingConsume p' <= len (buffer p');
  a_borrowed : borrowedBuffer p' = true -> borrowedBuffer p = true;
}.

(** A parser that differs from [p] in the frame itself, which ends at [n], only. *)
Record same_input (p q : Parser) (n : Z) : Prop := {
  si_config : config q = config p;
  si_tail : borrowedTail q = borrowedTail p;
  si_rest : drop (Z.to_nat n) (buffer q) = drop (Z.to_nat n) (buffer p);
  si_len : 0 <= n <= len (buffer q);
  si_pending : pendingConsume q = 0;
  si_borrowed : borrowedBuffer q = borrowedBuffer p;
}.

Lemma same_input_text p q n v k : same_input p q n -> same_input p (set_text v k q) n.
Proof. by intros []. Qed.
Lemma same_input_fragment p q n f : same_input p q n -> same_input p (set_fragment f q) n.
Proof. by intros []. Qed.
Lemma same_input_window p q n w : same_input p q n -> same_input p (set_window w q) n.
Proof. by intros []. Qed.
Create HintDb ws.
#[export] Hint Resolve same_input_text same_input_fragment same_input_window : ws.

Lemma consume_buffer n p : 0 <= n <= len (buffer p) -> buffer (consume n p) = drop (Z.to_nat n) (buffer p).
Proof.
  intros Hn. unfold consume. destruct (Z.eqb_spec n (len (buffer p))); cbn [buffer set_buffer]; [|done].
  rewrite drop_ge; [done|]. unfold len in *. lia.
Qed.

(** [consume] changes the buffer only. *)
Lemma consume_shape n p : exists bb, consume n p = set_buffer (buffer (consume n p)) bb p /\ (bb = true -> borrowedBuffer p = true).
Proof. unfold consume. destruct (_ =? _); [by exists false|by exists (borrowedBuffer p)]. Qed.

Lemma consume_advanced p q n : same_input p q n -> advanced p (consume n q) n.
Proof.
  intros [Hc Ht Hr Hl Hp Hb]. pose proof (consume_buffer n q Hl) as Eb. destruct (consume_shape n q) as (bb & E & Hbb).
  rewrite E, Eb. rewrite Hr. split; cbn; try done.
  - rewrite Hp. by rewrite drop_0.
  - rewrite Hp. pose proof (len_nonneg (drop (Z.to_nat n) (buffer p))). lia.
  - rewrite <- Hb. done.
Qed.

Lemma finish_advanced p q n borrow : same_input p q n -> advanced p (finishFrame n borrow q) n.
Proof.
  intros H. unfold finishFrame. destruct borrow; [|by apply consume_advanced]. destruct H. split; cbn; try done. congruence.
Qed.
#[export] Hint Resolve consume_advanced finish_advanced : ws.

(** Matching state, whatever comes next. *)
Definition matches (p : Parser) (c : core) : Prop := textChecked p = 0 /\ forall b, Rel p c b.

Lemma matches_intro p c :
  fragment p = c_frag c -> window p = c_window c -> (c_frag c = None -> veq (c_text c) reset) ->
  textChecked p = 0 -> veq (text p) (c_text c) -> matches p c.
Proof. intros. split; [done|]. intros b. split; try done. by left. Qed.

Lemma matches_consume p c n : matches p c -> matches (consume n p) c.
Proof.
  intros [H1 H2]. destruct (consume_shape n p) as (bb & -> & _). destruct (H2 []). apply matches_intro; cbn; try done.
  destruct r_text0 as [[_ ?]|(h & ? & ? & ? & _)]; [done|lia].
Qed.
Lemma matches_finish p c n borrow : matches p c -> matches (finishFrame n borrow p) c.
Proof.
  unfold finishFrame. destruct borrow; [|by apply matches_consume]. intros [H1 H2]. destruct (H2 []).
  apply matches_intro; cbn; try done. destruct r_text0 as [[_ ?]|(h & ? & ? & ? & _)]; [done|lia].
Qed.
#[export] Hint Resolve matches_consume matches_finish : ws.

Section stream.
Context (flate : bytes -> bytes -> bytes * bool).

(** What [next] does against what the specification says. *)
Definition refines (p : Parser) (c : core) (r : Parser * nres) (s : sres) : Prop :=
  match s with
  | SMore => exists v n, r = (set_text v n p, NMore) /\ Rel (set_text v n p) c (buffer p)
  | SErr e => exists p', r = (p', NErr e)
  | SGot ev c' n =>
      exists p', r = (p', NGot ev) /\ advanced p p' n /\ (ev = None -> pendingConsume p' = 0) /\ matches p' c'
  end.

Lemma consume_pending n p : pendingConsume (consume n p) = pendingConsume p.
Proof. destruct (consume_shape n p) as (bb & -> & _). done. Qed.

(** The text of a whole frame, as [next] checks it. *)
Lemma whole_text p c h last (b := buffer p) :
  bytes_ok b -> Rel p c b -> header_of (config p) c b = HOk h ->
  oeq (if is_text (c_frag c) h then text_piece (text p) (drop (Z.to_nat (textChecked p)) (arrived h b)) last else Some (text p))
      (text_after (is_text (c_frag c) h) (c_text c) (arrived h b) last).
Proof.
  intros Hb HR Hh. pose proof (readHeader_ok _ _ _ _ _ _ Hb Hh) as Ho. unfold text_after.
  assert (Hok : bytes_ok (arrived h b)) by (apply arrived_ok; [done|intros m Hm; by apply (ho_mask _ _ Ho)]).
  destruct (is_text (c_frag c) h) eqn:Et.
  - destruct (rel_text _ _ _ _ HR Hh Et) as [Hn Hv]. unfold text_piece.
    pose proof (write_rest (text p) (c_text c) (textChecked p) (arrived h b) Hok ltac:(lia) Hv) as Hw.
    destruct (write _ _) as [v|], (steps (c_text c) (arrived h b)) as [w|]; cbn in Hw; try done. destruct Hw as [En Hw].
    unfold complete. rewrite En. by destruct (last && negb (need w =? 0)).
  - destruct (rel_not_text _ _ _ HR) as [_ ?]; [|done]. intros h' Hh'. rewrite Hh in Hh'. by injection Hh' as <-.
Qed.

(** A message in one frame that was not looked at before is checked in bulk. *)
Lemma whole_valid p c h (b := buffer p) :
  bytes_ok b -> Rel p c b -> header_of (config p) c b = HOk h -> c_frag c = None ->
  (if is_text (c_frag c) h then
     if textChecked p =? 0 then utf8_Valid (arrived h b)
     else match text_piece (text p) (drop (Z.to_nat (textChecked p)) (arrived h b)) true with Some _ => true | None => false end
   else true) =
  match text_after (is_text (c_frag c) h) (c_text c) (arrived h b) true with Some _ => true | None => false end.
Proof.
  intros Hb HR Hh Hf. pose proof (whole_text p c h true Hb HR Hh) as Hw. fold b in Hw.
  pose proof (readHeader_ok _ _ _ _ _ _ Hb Hh) as Ho.
  assert (Hok : bytes_ok (arrived h b)) by (apply arrived_ok; [done|intros m Hm; by apply (ho_mask _ _ Ho)]).
  destruct (is_text (c_frag c) h); [|done]. destruct (Z.eqb_spec (textChecked p) 0) as [E|].
  - destruct (r_reset _ _ _ HR Hf) as [Hn _]. rewrite (valid_steps _ (c_text c)) by done. unfold text_after.
    destruct (steps _ _) as [w|]; [|done]. cbn [ends andb]. by destruct (complete w).
  - destruct (text_piece _ _ _), (text_after _ _ _ _); done.
Qed.

(** What [next] works on once it has the payload. *)
Record loaded (p q : Parser) (c : core) (n : Z) : Prop := {
  ld_input : same_input p q n;
  ld_frag : fragment q = c_frag c;
  ld_window : window q = c_window c;
  ld_checked : textChecked q = 0;
}.

Lemma load_loaded borrow p c h :
  Rel p c (buffer p) -> pendingConsume p = 0 -> header_ok (buffer p) h -> h_offset h + h_len h <= len (buffer p) ->
  loaded p (load_payload borrow h (arrived h (buffer p)) p) c (h_offset h + h_len h).
Proof.
  intros HR Hp Ho Hn. pose proof (ho_range _ _ Ho) as Hr. pose proof (ho_bound _ _ Ho) as Hl.
  destruct HR as [Hf Hw _ _]. unfold load_payload. destruct borrow; [|split; try done; split; try done; cbn; lia].
  assert (Ha : len (arrived h (buffer p)) = h_len h) by (rewrite arrived_len; lia).
  split; try done. split; try done; cbn [buffer set_buffer set_text].
  - rewrite (assoc_L (++)), drop_app_length'; [done|]. rewrite length_app, length_take. unfold len in *. lia.
  - rewrite !len_app, Ha, len_take, len_drop. lia.
Qed.

Lemma load_text borrow h pl p : text (load_payload borrow h pl p) = text p.
Proof. by destruct borrow. Qed.

Lemma control_spec borrow p q c h n pl :
  loaded p q c n -> text q = text p -> Rel p c (buffer p) -> textChecked p = 0 -> veq (text p) (c_text c) ->
  refines p c (control_frame borrow h pl n q)
    (if (h_opcode h =? Close) && ((len pl =? 1) || ((2 <=? len pl) && negb (validCloseCode (be_val (take 2 pl)))))
     then SErr ErrProtocol
     else if (h_opcode h =? Close) && (2 <? len pl) && negb (utf8_Valid (drop 2 pl)) then SErr ErrInvalidPayload
     else SGot (Some (Ev (h_opcode h) pl)) c n).
Proof.
  intros [Hi Hf Hw Hc] Ht HR H0 Hv. unfold control_frame. destruct (_ && _); [by eexists|].
  destruct (_ && negb (utf8_Valid _)); [by eexists|]. eexists. split; [done|]. split; [auto with ws|]. split; [done|].
  apply matches_finish, matches_intro; rewrite ?Hf, ?Hw, ?Ht; try done. apply (r_reset _ _ _ HR).
Qed.

(** A message in one frame, once its text is known to be valid. *)
Lemma finish_spec borrow p q c h n pl :
  loaded p q c n -> c_frag c = None -> veq (text q) reset ->
  refines p c
    (if h_compressed h then
       match inflate flate (maxMessageBytes q) (contextTakeover q) (window q) pl with
       | Err e => (q, NErr e)
       | Ok (message, w) =>
           if (h_opcode h =? Text) && negb (utf8_Valid message) then (set_window w q, NErr ErrInvalidPayload)
           else (finishFrame n borrow (set_window w q), NGot (Some (Ev (h_opcode h) message)))
       end
     else (finishFrame n borrow q, NGot (Some (Ev (h_opcode h) pl))))
    (finish_message flate (config p) c (h_opcode h) (h_compressed h) pl n).
Proof.
  intros [Hi Hf Hw Hc] Hn Hv. unfold finish_message. cbn [config k_max k_takeover].
  destruct (h_compressed h).
  - rewrite Hw. replace (maxMessageBytes q) with (maxMessageBytes p) by (symmetry; exact (f_equal k_max (si_config _ _ _ Hi))).
    replace (contextTakeover q) with (contextTakeover p) by (symmetry; exact (f_equal k_takeover (si_config _ _ _ Hi))).
    destruct (inflate _ _ _ _ _) as [[msg w]|e]; [|by eexists]. destruct (_ && _); [by eexists|].
    eexists. split; [done|]. split; [auto with ws|]. split; [done|]. apply matches_finish, matches_intro; cbn; try done. by rewrite Hf.
  - eexists. split; [done|]. split; [auto with ws|]. split; [done|]. apply matches_finish, matches_intro; cbn; try done. by rewrite Hf.
Qed.

Lemma data_spec borrow p q c h (b := buffer p) (n := h_offset h + h_len h) (txt := is_text (c_frag c) h) :
  loaded p q c n -> text q = text p -> bytes_ok b -> Rel p c b -> header_of (config p) c b = HOk h -> c_frag c = None ->
  refines p c (data_frame flate borrow h txt (textChecked p) (arrived h b) n q)
    match text_after txt (c_text c) (arrived h b) (h_fin h) with
    | None => SErr ErrInvalidPayload
    | Some v =>
        if h_fin h then finish_message flate (config p) c (h_opcode h) (h_compressed h) (arrived h b) n
        else SGot None (Core (Some (Fragment (h_opcode h) (h_compressed h) (arrived h b))) v (c_window c)) n
    end.
Proof.
  intros Hld Ht Hb HR Hh Hn. unfold data_frame. pose proof (whole_text p c h (h_fin h) Hb HR Hh) as Hw.
  pose proof (whole_valid p c h Hb HR Hh Hn) as Hval. fold b txt in Hw, Hval.
  assert (Hcmp : h_compressed h = true -> txt = false).
  { intros E. unfold txt, is_text. rewrite E, Hn. cbn. rewrite !andb_false_r. done. }
  assert (Hnt : txt = false -> veq (text q) reset).
  { intros E. rewrite Ht. destruct (rel_not_text _ _ _ HR) as [_ Hv].
    - intros h' Hh'. rewrite Hh in Hh'. by injection Hh' as <-.
    - etransitivity; [exact Hv|]. by apply (r_reset _ _ _ HR). }
  destruct (h_fin h) eqn:Hfin; cbn [andb].
  - destruct (h_compressed h) eqn:Ec.
    + specialize (Hcmp eq_refl). rewrite Hcmp. cbn [text_after].
      pose proof (finish_spec borrow p q c h n (arrived h b) Hld Hn (Hnt Hcmp)) as Hfs. by rewrite Ec in Hfs.
    + rewrite Ht, Hval. destruct (text_after _ _ _ _) as [v|]; [|by eexists]. cbn [negb].
      pose proof (finish_spec borrow p (if txt then set_text reset 0 q else q) c h n (arrived h b)) as Hfs. rewrite Ec in Hfs.
      destruct txt eqn:Et.
      * apply (Hfs ltac:(destruct Hld; split; cbn; auto with ws) Hn). done.
      * by apply Hfs; auto.
  - rewrite Ht. destruct (if txt then _ else _) as [v|], (text_after _ _ _ _) as [w|]; cbn in Hw; try done; [|by eexists].
    destruct Hld as [Hi Hf Hwn Hc]. eexists. split; [done|]. split; [auto with ws|]. split; [intros _; rewrite consume_pending; by destruct Hi|].
    apply matches_consume, matches_intro; cbn; done.
Qed.

Lemma continuation_spec p q c h f (b := buffer p) (n := h_offset h + h_len h) (txt := is_text (c_frag c) h) :
  loaded p q c n -> text q = text p -> bytes_ok b -> Rel p c b -> header_of (config p) c b = HOk h -> c_frag c = Some f ->
  refines p c (continuation_frame flate h txt (textChecked p) (arrived h b) n f q)
    match text_after txt (c_text c) (arrived h b) (h_fin h) with
    | None => SErr ErrInvalidPayload
    | Some v =>
        if h_fin h then finish_message flate (config p) c (fg_opcode f) (fg_compressed f) (fg_data f ++ arrived h b) n
        else SGot None (Core (Some (Fragment (fg_opcode f) (fg_compressed f) (fg_data f ++ arrived h b))) v (c_window c)) n
    end.
Proof.
  intros Hld Ht Hb HR Hh Hn. unfold continuation_frame. pose proof (whole_text p c h (h_fin h) Hb HR Hh) as Hw. fold b txt in Hw.
  rewrite Ht. destruct (if txt then _ else _) as [v|], (text_after _ _ _ _) as [w|]; cbn in Hw; try done; [|by eexists].
  destruct Hld as [Hi Hf Hwn Hc]. set (q1 := set_fragment _ (set_text v 0 q)).
  assert (Hi1 : same_input p q1 n) by (unfold q1; auto with ws).
  pose proof (consume_advanced _ _ _ Hi1) as Ha.
  assert (Hp2 : pendingConsume (consume n q1) = 0) by (rewrite consume_pending; apply (si_pending _ _ _ Hi1)).
  assert (Hm2 : matches (consume n q1) (Core (Some (Fragment (fg_opcode f) (fg_compressed f) (fg_data f ++ arrived h b))) w (c_window c)))
    by (by apply matches_consume, matches_intro).
  assert (Hw2 : window (consume n q1) = c_window c) by (exact (r_window _ _ _ (proj2 Hm2 []))).
  set (q2 := consume n q1) in *. clearbody q2.
  destruct (h_fin h); cbn [negb].
  - unfold finish_message. cbn [config k_max k_takeover]. rewrite Hw2.
    replace (maxMessageBytes q2) with (maxMessageBytes p) by (symmetry; exact (f_equal k_max (a_config _ _ _ Ha))).
    replace (contextTakeover q2) with (contextTakeover p) by (symmetry; exact (f_equal k_takeover (a_config _ _ _ Ha))).
    destruct (fg_compressed f).
    + destruct (inflate _ _ _ _ _) as [[msg w']|e]; [|by eexists]. destruct (_ && _); [by eexists|].
      eexists. split; [done|]. split; [destruct Ha; by split|]. split; [done|]. by apply matches_intro.
    + eexists. split; [done|]. split; [destruct Ha; by split|]. split; [done|]. by apply matches_intro.
  - by eexists.
Qed.

(** [next] takes the frame the specification takes. *)
Lemma next_spec borrow p c :
  bytes_ok (buffer p) -> pendingConsume p = 0 -> Rel p c (buffer p) ->
  refines p c (next flate borrow p) (frame_step flate (config p) c (buffer p)).
Proof.
  intros Hb Hp HR. unfold next, frame_step. rewrite (r_frag _ _ _ HR).
  change (readHeader (maxMessageBytes p) (fromServer p) (deflate p) (c_frag c) (buffer p)) with (header_of (config p) c (buffer p)).
  change (readHeader (k_max (config p)) (k_fromServer (config p)) (k_deflate (config p)) (c_frag c) (buffer p))
    with (header_of (config p) c (buffer p)).
  destruct (header_of (config p) c (buffer p)) as [|e|h] eqn:Hh.
  { exists (text p), (textChecked p). by rewrite set_text_same. }
  { by eexists. }
  pose proof (readHeader_ok _ _ _ _ _ _ Hb Hh) as Ho. pose proof (ho_range _ _ Ho) as Hr. pose proof (ho_bound _ _ Ho) as Hl.
  assert (Hlen : len (drop (Z.to_nat (h_offset h)) (buffer p)) = len (buffer p) - h_offset h) by (rewrite len_drop; lia).
  destruct (Z.ltb_spec (len (drop (Z.to_nat (h_offset h)) (buffer p))) (h_len h)) as [Hlt|Hge].
  { assert (whole h (buffer p) = false) as -> by (unfold whole; apply Z.leb_gt; lia). cbn [andb negb]. unfold text_after.
    destruct (is_text (c_frag c) h) eqn:Et; [|exists (text p), (textChecked p); by rewrite set_text_same].
    pose proof (checkPartial_spec p c h Hb HR Hh Et Hlt) as Hc. cbn zeta in Hc.
    destruct (steps (c_text c) (arrived h (buffer p))); [|rewrite Hc; by eexists].
    destruct Hc as (v & n & -> & HR'). by exists v, n. }
  assert (whole h (buffer p) = true) as -> by (unfold whole; apply Z.leb_le; lia). cbn [andb negb].
  rewrite arrived_unmask by (done || exact (ho_mask _ _ Ho)).
  pose proof (load_loaded borrow p c h HR Hp Ho ltac:(lia)) as Hld. pose proof (load_text borrow h (arrived h (buffer p)) p) as Ht.
  rewrite (ld_frag _ _ _ _ Hld).
  destruct (header_kind _ _ _ _ _ _ Hh) as [Hk|[[Hk Hn]|[Hk [f Hf]]]].
  - destruct (Z.leb_spec 8 (h_opcode h)); [|lia].
    assert (Et : is_text (c_frag c) h = false).
    { unfold is_text, Text, Continuation. destruct (Z.eqb_spec (h_opcode h) 1), (Z.eqb_spec (h_opcode h) 0); (lia || done). }
    rewrite Et. cbn [text_after]. destruct (rel_not_text _ _ _ HR) as [H0 Hv].
    { intros h' Hh'. rewrite Hh in Hh'. by injection Hh' as <-. }
    by apply control_spec.
  - rewrite Hn. destruct (Z.leb_spec 8 (h_opcode h)); [unfold Text, Binary in *; lia|].
    replace ((h_opcode h =? Text) || (h_opcode h =? Binary)) with true by (destruct Hk as [->| ->]; done).
    rewrite <- Hn. by apply data_spec.
  - rewrite Hf. rewrite Hk. cbn [Z.leb Z.eqb orb Z.compare]. rewrite <- Hf. by apply continuation_spec.
Qed.

(** * Feeding *)

(** A parser between calls, whatever it handed out consumed. *)
Record Ready (p : Parser) (c : core) : Prop := {
  rd_ok : bytes_ok (buffer p);
  rd_tail_ok : bytes_ok (borrowedTail p);
  rd_pending : pendingConsume p = 0;
  rd_rel : Rel p c (buffer p);
  rd_tail : borrowedTail p = [] \/ buffer p = [] \/ frameSize (buffer p) = Some (len (buffer p));
}.

Definition stream (p : Parser) : bytes := buffer p ++ borrowedTail p.

(** Nothing borrowed is left, so the next read may come. *)
Definition idle (p : Parser) : Prop := borrowedTail p = [] /\ (borrowedBuffer p = true -> buffer p = []).

Lemma take_pending_advanced p p' n :
  advanced p p' n -> config (take_pending p') = config p /\ buffer (take_pending p') = drop (Z.to_nat n) (buffer p) /\
  borrowedTail (take_pending p') = borrowedTail p /\ pendingConsume (take_pending p') = 0.
Proof.
  intros [Hc Ht Hr Hp Hb]. unfold take_pending. destruct (Z.eqb_spec (pendingConsume p') 0) as [E|]; cbn [negb].
  - rewrite E, drop_0 in Hr. done.
  - pose proof (consume_buffer _ _ Hp) as Eb. destruct (consume_shape (pendingConsume p') p') as (bb & E & _).
    rewrite <- Hr, <- Eb, E. done.
Qed.

Lemma take_pending_matches p c : matches p c -> matches (take_pending p) c.
Proof.
  intros H. unfold take_pending. destruct (negb _); [|done]. apply (matches_consume _ _ (pendingConsume p)) in H as [H0 H].
  split; [done|]. intros b. destruct (H b). by split.
Qed.

Lemma got_ready p p' c c' ev n :
  Ready p c -> frame_step flate (config p) c (buffer p) = SGot ev c' n -> advanced p p' n -> matches p' c' ->
  Ready (take_pending p') c' /\ stream (take_pending p') = drop (Z.to_nat n) (stream p) /\
  config (take_pending p') = config p /\ (length (buffer (take_pending p')) < length (buffer p))%nat /\
  borrowedTail (take_pending p') = borrowedTail p.
Proof.
  intros [Hok Htok _ _ Ht] E Ha Hm. pose proof (frame_step_n _ _ _ _ _ _ _ Hok E) as Hn.
  pose proof (frame_step_size _ _ _ _ _ _ _ Hok E) as Hsz.
  destruct (take_pending_advanced _ _ _ Ha) as (Ec & Eb & Et & Ep). unfold stream. rewrite Eb, Et, Ec.
  split; [|split; [rewrite drop_app_le; [done|unfold len in *; lia]|split; [done|split; [rewrite length_drop; unfold len in *; lia|done]]]].
  split; rewrite ?Eb, ?Et; [by apply Forall_drop|done|done|apply (take_pending_matches _ _ Hm)|].
  destruct Ht as [->|[E0|Hf]]; [by left|rewrite E0 in Hn; unfold len in Hn; cbn in Hn; lia|].
  right; left. apply drop_ge. unfold frameSize in Hf. destruct (_ <? _); [done|]. destruct (_ <? _); [done|]. injection Hf as Hf.
  unfold len in *. lia.
Qed.

Lemma rel_app p c b m : bytes_ok b -> Rel p c b -> Rel p c (b ++ m).
Proof.
  intros Hb [? ? ? Ht]. split; try done. destruct Ht as [?|(h & Hh & Hi & Hr & Hv)]; [by left|right].
  pose proof (readHeader_ok _ _ _ _ _ _ Hb Hh) as Ho. pose proof (ho_range _ _ Ho).
  destruct (arrived_app h b m ltac:(lia)) as (x & Ex & _). exists h.
  split. { unfold header_of in *. pose proof (readHeader_app (k_max (config p)) (k_fromServer (config p)) (k_deflate (config p)) (c_frag c) b m) as Happ.
    by rewrite Hh in Happ. }
  split; [done|]. rewrite Ex, len_app. pose proof (len_nonneg x). split; [lia|].
  rewrite take_app_le by (unfold len in *; lia). done.
Qed.

Lemma rel_nil p c b : Rel p c [] -> Rel p c b.
Proof. intros [? ? ? Ht]. split; try done. destruct Ht as [?|(h & Hh & _)]; [by left|done]. Qed.

Lemma rel_buffer p c b bb t : Rel p c b -> Rel (set_tail t (set_buffer b bb p)) c b.
Proof. by intros []. Qed.

Lemma take_tail_ready p c : Ready p c -> tail_waits p = true -> Ready (take_tail p) c /\ stream (take_tail p) = stream p.
Proof.
  intros [Hok Htok Hp HR Ht] [E0%Z.eqb_eq _]%andb_true_iff. apply len_zero_nil in E0. unfold stream. rewrite E0 in *.
  cbn. rewrite app_nil_r. split; [|done]. split; cbn; try done; [|by left]. apply rel_nil. by destruct HR.
Qed.

Lemma add_input_ready p c data borrow :
  Ready p c -> bytes_ok data -> data = [] \/ idle p ->
  Ready (add_input data borrow p) c /\ stream (add_input data borrow p) = stream p ++ data /\
  config (add_input data borrow p) = config p.
Proof.
  intros [Hok Htok Hp HR Ht] Hd Hcase. unfold add_input.
  destruct (borrow && (len (buffer p) =? 0) && negb (len data =? 0)) eqn:E1.
  { apply andb_true_iff in E1 as [[_ E0%Z.eqb_eq]%andb_true_iff E1%negb_true_iff%Z.eqb_neq]. apply len_zero_nil in E0.
    destruct Hcase as [->|[Et _]]; [done|]. unfold stream. rewrite E0, Et in *. cbn. rewrite Et, app_nil_r.
    split; [|done]. split; cbn; try done; [by rewrite Et|apply rel_nil; by destruct HR|by left]. }
  destruct (borrow && negb (borrowedBuffer p) && negb (len (buffer p) =? 0) && negb (len data =? 0)) eqn:E2.
  { apply andb_true_iff in E2 as [_ E2%negb_true_iff%Z.eqb_neq]. destruct Hcase as [->|[Et _]]; [done|].
    destruct (appendCurrentFrame (buffer p) data) as [b t] eqn:Ea. destruct (appendCurrentFrame_spec _ _ _ _ _ Ea) as (Ebt & (m & Em) & Hf).
    unfold stream. cbn. rewrite Ebt, Et, app_nil_r. assert (Hbt : bytes_ok (b ++ t)) by (rewrite Ebt; by apply Forall_app).
    apply Forall_app in Hbt as [Hb1 Ht1]. split; [|done]. split; cbn; try done.
    - rewrite Em. apply rel_app; [done|]. by destruct HR.
    - destruct t; [by left|]. right; right. by apply Hf. }
  unfold stream. cbn. destruct Hcase as [->|[Et _]].
  - rewrite !app_nil_r. split; [|done]. split; cbn; rewrite ?app_nil_r; try done. by destruct HR.
  - rewrite Et, !app_nil_r. split; [|done].
    split; cbn; try done; [by apply Forall_app|apply rel_app; [done|by destruct HR]|by left].
Qed.

(** What a call of [feedOne] handed out of the events of [s]. *)
Definition fed (k : pconfig) (c : core) (s : bytes) (r : Parser * fres) : Prop :=
  match events flate k c s with
  | Some (evs, fin) =>
      match r with
      | (_, FErr e) => evs = [] /\ fin = inl e
      | (p, FNone) => evs = [] /\ config p = k /\ idle p /\ exists c', fin = inr (c', buffer p) /\ Ready p c'
      | (p, FEvent ev) =>
          exists c' evs', evs = ev :: evs' /\ events flate k c' (stream (take_pending p)) = Some (evs', fin) /\
            Ready (take_pending p) c' /\ config (take_pending p) = k /\ (length (stream (take_pending p)) < length s)%nat
      end
  | None => False
  end.

Lemma fed_fragment k c c' s n r : 
  bytes_ok s -> frame_step flate k c s = SGot None c' n -> fed k c' (drop (Z.to_nat n) s) r -> fed k c s r.
Proof.
  intros Hs E. unfold fed. rewrite (events_eq _ k c) by done. rewrite E.
  destruct (events flate k c' (drop (Z.to_nat n) s)) as [[evs fin]|]; [|done].
  destruct r as [p [e| |ev]]; [done|done|]. intros (c2 & evs' & ? & ? & ? & ? & Hl). exists c2, evs'.
  repeat (split; [done|]). rewrite length_drop in Hl. lia.
Qed.

(** The end of a call that found no more whole frame. *)
Lemma idle_ready p c : Ready p c -> borrowedTail p = [] ->
  let p' := if borrowedBuffer p && negb (len (buffer p) =? 0) then adopt p else p in
  Ready p' c /\ idle p' /\ config p' = config p /\ buffer p' = buffer p.
Proof.
  intros HR Ht. destruct (borrowedBuffer p) eqn:Eb; [destruct (Z.eqb_spec (len (buffer p)) 0) as [E|]|]; cbn.
  - apply len_zero_nil in E. split; [done|]. split; [by split|done].
  - split; [destruct HR as [? ? ? [? ? ? ?] ?]; by split|]. split; [by split|done].
  - split; [done|]. split; [|done]. split; [done|]. by rewrite Eb.
Qed.

Lemma feed_loop_spec fuel borrow p c :
  Ready p c -> (length (buffer p) + 2 * length (borrowedTail p) < fuel)%nat ->
  exists r, feed_loop flate fuel borrow p = Some r /\ fed (config p) c (stream p) r.
Proof.
  revert p c. induction fuel as [|fuel IH]; intros p c HR Hf; [lia|]. cbn [feed_loop].
  pose proof (rd_ok _ _ HR) as Hok. pose proof (rd_tail_ok _ _ HR) as Htok.
  assert (Hs : bytes_ok (stream p)) by (by apply Forall_app).
  pose proof (next_spec borrow p c Hok (rd_pending _ _ HR) (rd_rel _ _ HR)) as Hn.
  pose proof (frame_step_app flate (config p) c (buffer p) (borrowedTail p) Hok) as Happ.
  destruct (frame_step flate (config p) c (buffer p)) as [|e|ev c' n] eqn:E; cbn [refines] in Hn.
  - destruct Hn as (v & n & -> & HR').
    assert (HR1 : Ready (set_text v n p) c) by (destruct HR; by split).
    change (tail_waits (set_text v n p)) with (tail_waits p). destruct (tail_waits p) eqn:Ew.
    + destruct (take_tail_ready _ _ HR1 Ew) as [HR2 Es]. destruct (IH _ _ HR2) as (r & Er & Hfed).
      { cbn. unfold tail_waits in Ew. apply andb_true_iff in Ew as [_ Ew%negb_true_iff%Z.eqb_neq]. unfold len in Ew. lia. }
      exists r. split; [done|]. rewrite Es in Hfed. done.
    + assert (Ht : borrowedTail p = []).
      { destruct (rd_tail _ _ HR) as [?|[E0|Hfs]]; [done| |by destruct (frame_step_whole flate (config p) c (buffer p))].
        unfold tail_waits in Ew. rewrite E0 in Ew. cbn in Ew. apply negb_false_iff, Z.eqb_eq, len_zero_nil in Ew. done. }
      destruct (idle_ready _ _ HR1 Ht) as (HR2 & Hi & Hc & Hbuf). eexists. split; [done|]. unfold fed.
      rewrite events_eq by done. unfold stream. rewrite Ht, app_nil_r, E. split; [done|]. split; [done|]. split; [done|].
      exists c. split; [by rewrite Hbuf|done].
  - destruct Hn as (p' & ->). eexists. split; [done|]. unfold fed. rewrite events_eq by done. unfold stream. rewrite Happ. done.
  - destruct Hn as (p' & -> & Ha & Hp0 & Hm). destruct (got_ready _ _ _ _ _ _ HR E Ha Hm) as (HR2 & Es & Hc & Hlt & Ht).
    fold (stream p) in Happ. destruct ev as [ev|].
    + eexists. split; [done|]. unfold fed. rewrite events_eq, Happ by done. rewrite <- Es.
      destruct (events_total flate (config p) c' (stream (take_pending p'))) as [[evs fin] Ee].
      { apply Forall_app. by destruct HR2. }
      rewrite Ee. exists c', evs. repeat (split; [done|]). unfold stream. rewrite !length_app, Ht. lia.
    + assert (Ep : take_pending p' = p') by (unfold take_pending; by rewrite Hp0). rewrite Ep in *.
      destruct (IH _ _ HR2) as (r & Er & Hfed); [rewrite Ht; lia|]. exists r. split; [done|].
      apply (fed_fragment _ _ c' _ n); [done|done|]. by rewrite Hc, Es in Hfed.
Qed.

Lemma feedOne_spec p c data borrow :
  Ready (take_pending p) c -> bytes_ok data -> data = [] \/ idle (take_pending p) ->
  exists r, feedOne flate data borrow p = Some r /\ fed (config (take_pending p)) c (stream (take_pending p) ++ data) r.
Proof.
  intros HR Hd Hcase. unfold feedOne. set (q := take_pending p) in *. clearbody q.
  assert (H : exists q', (if tail_waits q then take_tail q else q) = q' /\ Ready q' c /\ stream q' = stream q /\
    config q' = config q /\ (data = [] \/ idle q')).
  { destruct (tail_waits q) eqn:Ew; [|by exists q]. destruct (take_tail_ready _ _ HR Ew). exists (take_tail q).
    repeat (split; [done|]). destruct Hcase as [?|[Et _]]; [by left|]. unfold tail_waits in Ew.
    rewrite Et in Ew. by rewrite andb_false_r in Ew. }
  destruct H as (q' & -> & HR' & Es & Ec & Hcase'). rewrite <- Es, <- Ec.
  destruct (add_input_ready q' c data borrow HR' Hd Hcase') as (HR2 & Es2 & Ec2). rewrite <- Es2, <- Ec2.
  apply feed_loop_spec; [done|]. unfold feed_fuel. lia.
Qed.

(** All the events of what a parser has and the bytes it is given, up to one
    that stops it. *)
Lemma drain_loop_spec stop fuel borrow data p c acc evs fin :
  Ready (take_pending p) c -> bytes_ok data -> data = [] \/ idle (take_pending p) ->
  (length (stream (take_pending p) ++ data) < fuel)%nat ->
  events flate (config (take_pending p)) c (stream (take_pending p) ++ data) = Some (evs, fin) ->
  exists p', drain_loop flate stop fuel borrow data p acc = Some (p', acc ++ fst (cut stop evs fin), snd (cut stop evs fin)) /\
    (snd (cut stop evs fin) = More -> exists c' s, fin = inr (c', s) /\ fst (cut stop evs fin) = evs /\
      Ready p' c' /\ idle p' /\ buffer p' = s /\ config p' = config (take_pending p)).
Proof.
  revert data p c acc evs. induction fuel as [|fuel IH]; intros data p c acc evs HR Hd Hcase Hf Hev; [lia|]. cbn [drain_loop].
  destruct (feedOne_spec p c data borrow HR Hd Hcase) as ([p1 r] & -> & Hfed). unfold fed in Hfed. rewrite Hev in Hfed.
  destruct r as [e| |ev].
  - destruct Hfed as [-> ->]. exists p1. cbn. rewrite app_nil_r. done.
  - destruct Hfed as (-> & Hc & Hi & c' & -> & HR'). exists p1. cbn. rewrite app_nil_r. split; [done|]. intros _. by exists c', (buffer p1).
  - destruct Hfed as (c' & evs' & -> & Hev' & HR' & Hc & Hl). cbn [cut]. destruct (stop ev); [by exists p1|].
    destruct (IH [] p1 c' (acc ++ [ev]) evs') as (p' & E & Hp'); [done|constructor|by left|rewrite app_nil_r; lia|by rewrite app_nil_r, Hc|].
    destruct (cut stop evs' fin) as [l e]. cbn [fst snd] in *. exists p'. rewrite E, <- (assoc_L (++)). split; [done|].
    intros He. destruct (Hp' He) as (c2 & s2 & ? & -> & ? & ? & ? & ?). exists c2, s2. by rewrite Hc in *.
Qed.

(** A parser between reads. *)
Definition resting (p : Parser) (c : core) : Prop := Ready p c /\ idle p.

Definition drained (p : Parser) (c : core) : Prop := frame_step flate (config p) c (buffer p) = SMore.

Lemma events_drained k c b evs c' s :
  bytes_ok b -> events flate k c b = Some (evs, inr (c', s)) -> frame_step flate k c' s = SMore.
Proof.
  intros Hb. remember (length b) as n eqn:Hn. revert c b evs Hb Hn. induction n as [n IH] using lt_wf_ind; intros c b evs Hb Hn.
  rewrite events_eq by done. destruct (frame_step flate k c b) as [|e|ev c1 m] eqn:E; [by intros [= <- <- <-]|done|].
  pose proof (frame_step_n _ _ _ _ _ _ _ Hb E). destruct (events flate k c1 _) as [[evs1 r1]|] eqn:E1; [|done].
  intros [= _ ->]. eapply (IH (length (drop (Z.to_nat m) b))); [|by apply Forall_drop|done|exact E1].
  rewrite length_drop. unfold len in *. lia.
Qed.

Lemma resting_take p c : resting p c -> take_pending p = p /\ stream p = buffer p.
Proof.
  intros [HR [Ht _]]. unfold take_pending, stream. rewrite (rd_pending _ _ HR), Ht. cbn. by rewrite app_nil_r.
Qed.

Lemma release_resting p c : resting p c -> resting (ReleaseBorrowed p) c /\ buffer (ReleaseBorrowed p) = buffer p /\ config (ReleaseBorrowed p) = config p.
Proof.
  intros Hr. destruct (resting_take _ _ Hr) as [E _]. destruct Hr as [HR [Ht Hb]]. unfold ReleaseBorrowed. rewrite E. cbn.
  destruct (borrowedBuffer p) eqn:Eb.
  - specialize (Hb eq_refl). rewrite Hb. split; [|done]. split; [|by split]. destruct HR as [Hok ? Hp HR _].
    split; cbn; try done; [apply rel_nil; rewrite Hb in HR; by destruct HR|by left].
  - split; [|done]. split; [|split; [done|]; cbn; by rewrite Eb].
    destruct HR as [? ? ? [] ?]. split; try done; by left.
Qed.

(** One way to feed a parser a read: what it hands out are the events of the
    bytes so far, and it is ready for the next read. *)
Definition delivers (stop : Event -> bool) (feed : bytes -> Parser -> option (Parser * list Event * ending)) : Prop :=
  forall p c data evs fin, resting p c -> bytes_ok data -> events flate (config p) c (buffer p ++ data) = Some (evs, fin) ->
  exists p', feed data p = Some (p', fst (cut stop evs fin), snd (cut stop evs fin)) /\
    (snd (cut stop evs fin) = More -> exists c' s, fin = inr (c', s) /\ fst (cut stop evs fin) = evs /\
      resting p' c' /\ buffer p' = s /\ config p' = config p).

Lemma drain_delivers stop borrow : delivers stop (fun data p => drain_loop flate stop (drain_fuel data p) borrow data p []).
Proof.
  intros p c data evs fin Hr Hd He. destruct (resting_take _ _ Hr) as [E Es].
  destruct (drain_loop_spec stop (drain_fuel data p) borrow data p c [] evs fin) as (p' & Hp' & Hfin).
  - rewrite E. apply Hr.
  - done.
  - right. rewrite E. apply Hr.
  - rewrite E. unfold drain_fuel, stream. rewrite !length_app. lia.
  - by rewrite E, Es.
  - exists p'. split; [done|]. intros Hm. destruct (Hfin Hm) as (c' & s & -> & ? & ? & ? & ? & Hc). rewrite E in Hc.
    exists c', s. split; [done|]. split; [done|]. split; [by split|done].
Qed.

Lemma Feed_delivers : delivers never (Feed flate).
Proof. exact (drain_delivers never false). Qed.

Lemma serve_delivers answered : delivers (last_frame answered) (serve_read flate answered).
Proof.
  intros p c data evs fin Hr Hd He. destruct (drain_delivers (last_frame answered) true _ _ _ _ _ Hr Hd He) as (p' & E & Hfin).
  unfold serve_read. rewrite E. eexists. split; [done|]. intros Hm. destruct (Hfin Hm) as (c' & s & ? & ? & Hr' & Hb & Hc).
  destruct (release_resting _ _ Hr') as (? & -> & ->). by exists c', s.
Qed.

Lemma cut_app stop a b c' s fin :
  snd (cut stop a (inr (c', s))) = More -> cut stop (a ++ b) fin = (a ++ fst (cut stop b fin), snd (cut stop b fin)).
Proof.
  induction a as [|ev a IH]; cbn [cut app]; [by destruct (cut stop b fin)|]. destruct (stop ev); [done|].
  destruct (cut stop a (inr (c', s))) as [l e]. cbn [snd] in *. intros He. by rewrite (IH He).
Qed.

Lemma cut_stop stop a b r fin : snd (cut stop a r) = Closed -> cut stop (a ++ b) fin = cut stop a r.
Proof.
  induction a as [|ev a IH]; cbn [cut app]; [by destruct r|]. destruct (stop ev); [done|].
  destruct (cut stop a r) as [l e]. cbn [snd] in *. intros He. by rewrite (IH He).
Qed.

Lemma cut_error stop a e' r : snd (cut stop a r) = Failed e' -> r = inl e'.
Proof.
  induction a as [|ev a IH]; cbn [cut]; [destruct r; by intros [= ->]|]. destruct (stop ev); [done|].
  by destruct (cut stop a r).
Qed.

Lemma reads_deliver stop feed ds p c evs fin :
  delivers stop feed -> resting p c -> drained p c -> Forall (fun d => bytes_ok d) ds ->
  events flate (config p) c (buffer p ++ concat ds) = Some (evs, fin) ->
  reads feed ds p = Some (cut stop evs fin).
Proof.
  intros Hdel Hr Hdr Hds. revert p c evs Hr Hdr. induction Hds as [|d ds Hd Hds IH]; intros p c evs Hr Hdr He; cbn [reads concat] in *;
    pose proof (rd_ok _ _ (proj1 Hr)) as Hok.
  { rewrite app_nil_r, events_eq, Hdr in He by done. by injection He as <- <-. }
  assert (Hbd : bytes_ok (buffer p ++ d)) by (by apply Forall_app).
  assert (Hcd : bytes_ok (concat ds)) by (clear - Hds; induction Hds; cbn; [constructor|by apply Forall_app]).
  destruct (events_total flate (config p) c (buffer p ++ d) Hbd) as [[evs1 fin1] E1].
  destruct (Hdel p c d evs1 fin1 Hr Hd E1) as (p' & -> & Hfin).
  rewrite (assoc_L (++)), (events_app _ _ _ _ _ _ _ Hbd Hcd E1) in He.
  destruct (snd (cut stop evs1 fin1)) eqn:Ecut.
  - destruct (Hfin eq_refl) as (c1 & s1 & -> & -> & Hr' & Hb' & Hc'). rewrite <- Hb', <- Hc' in He.
    destruct (events flate (config p') c1 _) as [[evs2 fin2]|] eqn:E2; [|done]. injection He as <- <-.
    rewrite (IH p' c1 evs2 Hr'); [|unfold drained; rewrite Hc', Hb'; exact (events_drained _ _ _ _ _ _ Hbd E1)|done].
    rewrite (cut_app _ _ _ _ _ _ Ecut). by destruct (cut stop evs2 fin2).
  - pose proof (cut_error _ _ _ _ Ecut) as ->. injection He as <- <-. by rewrite <- Ecut, <- surjective_pairing.
  - rewrite <- Ecut, <- surjective_pairing. destruct fin1 as [e|[c1 s1]]; [by injection He as <- <-|].
    destruct (events flate _ c1 _) as [[evs2 fin2]|]; [|done]. injection He as <- <-. by rewrite (cut_stop _ _ _ _ _ Ecut).
Qed.

(** A connection's parser before its first byte. *)
Definition fresh (k : pconfig) : Parser :=
  PState (k_max k) (k_fromServer k) (k_deflate k) (k_takeover k) [] false [] None reset 0 0 [].
Definition start : core := Core None reset [].

Lemma fresh_resting k : resting (fresh k) start /\ drained (fresh k) start.
Proof.
  split; [|done]. split; [|by split]. split; cbn; try constructor; try done. by left.
Qed.

Lemma reads_events stop feed k ds evs fin :
  delivers stop feed -> Forall (fun d => bytes_ok d) ds -> events flate k start (concat ds) = Some (evs, fin) ->
  reads feed ds (fresh k) = Some (cut stop evs fin).
Proof.
  intros Hdel Hds He. destruct (fresh_resting k) as [Hr Hd]. assert (Ek : config (fresh k) = k) by (by destruct k).
  eapply reads_deliver; [done|exact Hr|exact Hd|done|by rewrite Ek].
Qed.

(** C5: the stream decides, not the reads.  Cut in whatever way, and whether
    the parser copies its input ([Feed]) or borrows it ([serveFrames]), a
    connection's bytes yield the same messages and control frames in the same
    order, and the same error if any: those the specification reads off the
    whole stream.  [serveFrames] stops at the first close frame, or the first
    ping it cannot answer. *)
Theorem parser_segmentation k ds :
  Forall (fun d => bytes_ok d) ds ->
  exists evs fin,
    events flate k start (concat ds) = Some (evs, fin) /\
    reads (Feed flate) ds (fresh k) = Some (cut never evs fin) /\
    forall answered, reads (serve_read flate answered) ds (fresh k) = Some (cut (last_frame answered) evs fin).
Proof.
  intros Hds. assert (Hc : bytes_ok (concat ds)) by (clear - Hds; induction Hds; cbn; [constructor|by apply Forall_app]).
  destruct (events_total flate k start _ Hc) as [[evs fin] He]. exists evs, fin. split; [done|].
  split; [|intros answered]; apply reads_events; auto using Feed_delivers, serve_delivers.
Qed.
End stream.

(** A stand-in for the decompressor: every message is stored as it is. *)
Definition stored (dict b : bytes) : bytes * bool := (take (length b - 9) b, true).

(** A masked "hi", a ping inside a fragmented text, cut in odd places. *)
Definition demo_reads : list bytes :=
  [[0x81]; [0x82; 1; 2; 3; 4; 0x69]; [0x6b; 0x01; 0x81; 0; 0; 0; 0; 0xc3; 0x89; 0x80]; [0; 0; 0; 0; 0x80; 0x81; 0; 0; 0; 0; 0xa9]].

Lemma parser_segmentation_witness :
  reads (Feed stored) demo_reads (fresh (PConfig 1024 false false false)) =
    Some ([Ev Text [0x68; 0x69]; Ev Ping []; Ev Text [0xc3; 0xa9]], More) /\
  reads (serve_read stored (fun _ => true)) demo_reads (fresh (PConfig 1024 false false false)) =
    Some ([Ev Text [0x68; 0x69]; Ev Ping []; Ev Text [0xc3; 0xa9]], More) /\
  reads (serve_read stored (fun _ => false)) demo_reads (fresh (PConfig 1024 false false false)) =
    Some ([Ev Text [0x68; 0x69]; Ev Ping []], Closed).
Proof.
  destruct (parser_segmentation stored (PConfig 1024 false false false) demo_reads) as (evs & fin & E & H1 & H2).
  { unfold demo_reads. repeat (apply Forall_cons_2; [by apply bytes_check|]). apply Forall_nil_2. }
  rewrite H1, !H2. vm_compute in E. injection E as <- <-. split_and!; reflexivity.
Defined.

(** A parser reset in the middle of a fragmented message keeps the fragment,
    and refuses the first frame of the next message. *)
Definition half_message : Parser :=
  match feedOne stored [0x01; 0x81; 0; 0; 0; 0; 0x61] false (fresh (PConfig 1024 false false false)) with
  | Some (p, _) => p
  | None => fresh (PConfig 1024 false false false)
  end.

Lemma reset_refuses :
  reads (Feed stored) [[0x81; 0x80; 0; 0; 0; 0]] (Reset 8 half_message) = Some ([], Failed ErrProtocol).
Proof. vm_compute. reflexivity. Qed.
