(* ===== verification/WsRoundtrip.v ===== *)
(** What a WebSocket endpoint sends (src/go/websocket/frame.go [MarshalFrame],
    [frameHeader]; handler.go [sendFrame]), its peer's parser reads back. *)
From S2P Require Import Prelude.
From S2P Require Import Utf8.
From S2P Require Import WsFrame.
From S2P Require Import WsParser.
From S2P Require Import WsStream.

(** * Headers *)

(** What the sender announces: the second byte and the extended length. *)
Definition size_bytes (n : Z) : Z * bytes :=
  if n <? 126 then (n, []) else if n <=? 65535 then (126, be_bytes 2 n) else (127, be_bytes 8 n).

Lemma frameHeader_Ok op n :
  0 <= n < 2 ^ 63 -> sendable op = true -> (8 <= op -> n <= 125) ->
  frameHeader op n = Ok (Z.lor 0x80 op :: fst (size_bytes n) :: snd (size_bytes n)).
Proof.
  intros Hn Hop Hc. unfold frameHeader, size_bytes. rewrite Hop. cbn [negb].
  destruct (Z.leb_spec 8 op); [destruct (Z.ltb_spec 125 n); [lia|]|]; cbn [andb].
  all: destruct (Z.ltb_spec n 126); [rewrite u8_small; [done|unfold byte_ok; lia]|].
  all: destruct (Z.leb_spec n 65535); [unfold u16; rewrite Z.mod_small; [done|lia]|rewrite u64_small; [done|lia]].
Qed.

Lemma MarshalFrame_header op pl h : frameHeader op (len pl) = Ok h -> MarshalFrame op pl = Ok (h ++ pl).
Proof.
  unfold frameHeader, MarshalFrame. destruct (negb (sendable op)); [done|]. destruct (_ && _); [done|].
  destruct (_ <? 126); [|destruct (_ <=? 65535)]; by intros [= <-].
Qed.

Definition mask_bit (client : bool) (b : Z) : Z := if client then Z.lor b 0x80 else b.

Lemma mask_bit_bits client b :
  0 <= b < 128 -> negb (Z.land (mask_bit client b) 0x80 =? 0) = client /\ Z.land (mask_bit client b) 0x7f = b /\ byte_ok (mask_bit client b).
Proof.
  intros Hb.
  assert (H : forallb (fun b => (Bool.eqb (negb (Z.land (mask_bit client b) 0x80 =? 0)) client) &&
    (Z.land (mask_bit client b) 0x7f =? b) && (0 <=? mask_bit client b) && (mask_bit client b <? 256)) (seqZ 0 128) = true)
    by (destruct client; vm_compute; reflexivity).
  rewrite forallb_forall in H. specialize (H b). rewrite <- list_elem_of_In, elem_of_seqZ in H. specialize (H ltac:(lia)).
  apply andb_true_iff in H as [[[H1%Bool.eqb_prop H2%Z.eqb_eq]%andb_true_iff H3]%andb_true_iff H4].
  split; [done|]. split; [done|]. unfold byte_ok. lia.
Qed.

Lemma size_bytes_read client n b0 rest (b1 := mask_bit client (fst (size_bytes n))) (ext := snd (size_bytes n)) :
  0 <= n < 2 ^ 63 ->
  read_length (b0 :: b1 :: ext ++ rest) b1 = Some (Ok (n, 2 + len ext)) /\ 0 <= fst (size_bytes n) < 128 /\ bytes_ok ext.
Proof.
  intros Hn. unfold b1, ext, size_bytes, read_length.
  destruct (Z.ltb_spec n 126); [|destruct (Z.leb_spec n 65535)]; cbn [fst snd].
  - destruct (mask_bit_bits client n ltac:(lia)) as (_ & -> & _). destruct (Z.eqb_spec n 126), (Z.eqb_spec n 127); try lia.
    split; [done|]. split; [lia|constructor].
  - destruct (mask_bit_bits client 126 ltac:(lia)) as (_ & -> & _). cbn [Z.eqb Pos.eqb].
    split; [|split; [lia|apply be_bytes_ok]].
    destruct (Z.ltb_spec (len (b0 :: mask_bit client 126 :: be_bytes 2 n ++ rest)) 4).
    { rewrite !len_cons, len_app, be_bytes_len in *. pose proof (len_nonneg rest). lia. }
    unfold bytes_at. change (drop 2 (b0 :: mask_bit client 126 :: be_bytes 2 n ++ rest)) with (be_bytes 2 n ++ rest). rewrite take_app_length' by (by rewrite be_bytes_length).
    rewrite be_val_bytes_small by lia. destruct (Z.ltb_spec n 126); [lia|]. by rewrite be_bytes_len.
  - destruct (mask_bit_bits client 127 ltac:(lia)) as (_ & -> & _). cbn [Z.eqb Pos.eqb].
    split; [|split; [lia|apply be_bytes_ok]].
    destruct (Z.ltb_spec (len (b0 :: mask_bit client 127 :: be_bytes 8 n ++ rest)) 10).
    { rewrite !len_cons, len_app, be_bytes_len in *. pose proof (len_nonneg rest). lia. }
    unfold bytes_at. change (drop 2 (b0 :: mask_bit client 127 :: be_bytes 8 n ++ rest)) with (be_bytes 8 n ++ rest). rewrite take_app_length' by (by rewrite be_bytes_length).
    rewrite be_val_bytes_small by lia. destruct (Z.ltb_spec n 65536); [lia|]. cbn [orb].
    rewrite Z.shiftr_div_pow2, Z.div_small by lia. cbn [Z.eqb negb]. by rewrite be_bytes_len.
Qed.

(** * Frames *)

(** The messages an endpoint may send that a peer with limit [mx] takes. *)
Definition acceptable (mx op : Z) (pl : bytes) : bool :=
  sendable op && (if 8 <=? op then len pl <=? 125 else len pl <=? mx) &&
  (if op =? Text then utf8_Valid pl else true) &&
  (if op =? Close then (len pl =? 0) || ((2 <=? len pl) && validCloseCode (be_val (take 2 pl)) && utf8_Valid (drop 2 pl)) else true).

Lemma sendable_flags client op b1 :
  sendable op = true -> 0 <= b1 < 128 -> (8 <= op -> b1 <= 125) ->
  forall df, flags_ok (negb client) df None (Z.lor 0x80 op) (mask_bit client b1) = true /\
  Z.land (Z.lor 0x80 op) 0x0f = op /\ negb (Z.land (Z.lor 0x80 op) 0x80 =? 0) = true /\
  negb (Z.land (Z.lor 0x80 op) 0x40 =? 0) = false /\ byte_ok (Z.lor 0x80 op).
Proof.
  intros Hop Hb Hc df. destruct (mask_bit_bits client b1 Hb) as (Hm & H7 & _). unfold flags_ok. rewrite Hm, H7.
  replace (negb (Bool.eqb client (negb client))) with true by (by destruct client).
  assert (Hops : op = Text \/ op = Binary \/ op = Close \/ op = Ping \/ op = Pong)
    by (unfold sendable in Hop; lia).
  assert (Hlt : 8 <= op -> (125 <? b1) = false) by (intros; apply Z.ltb_ge; auto).
  destruct Hops as [->|[->|[->|[->| ->]]]]; cbn; rewrite ?Hlt by (unfold Close, Ping, Pong; lia); done.
Qed.

Lemma frame_parses client op n key body mx df (b1 := mask_bit client (fst (size_bytes n))) (ext := snd (size_bytes n))
    (k := if client then key else []) :
  0 <= n < 2 ^ 63 -> sendable op = true -> (if 8 <=? op then n <=? 125 else n <=? mx) = true -> length key = 4%nat ->
  readHeader mx (negb client) df None ((Z.lor 0x80 op :: b1 :: ext) ++ k ++ body) =
    HOk (Header true op false n (2 + len ext + len k) (if client then Some key else None)).
Proof.
  intros Hn Hop Hsz Hk. cbn [app]. destruct (size_bytes_read client n (Z.lor 0x80 op) (k ++ body) Hn) as (Hrl & Hb1 & _).
  fold b1 ext in Hrl. unfold readHeader.
  destruct (sendable_flags client op (fst (size_bytes n)) Hop Hb1) with (df := df) as (Hf & Ho & Hfin & Hcm & _).
  { intros H8. destruct (Z.leb_spec 8 op); [|lia]. unfold size_bytes. destruct (Z.ltb_spec n 126); [cbn|]; lia. }
  fold b1 in Hf. rewrite Hf. cbn [negb]. rewrite Hrl, Ho, Hfin, Hcm.
  destruct (mask_bit_bits client (fst (size_bytes n)) Hb1) as (Hm & _). fold b1 in Hm. rewrite Hm.
  replace ((8 <=? op) && (125 <? n)) with false by (destruct (Z.leb_spec 8 op); cbn; [symmetry; apply Z.ltb_ge; lia|done]).
  replace (negb (8 <=? op) && ((mx <? n) || (mx - n <? 0))) with false
    by (destruct (Z.leb_spec 8 op); cbn; [done|symmetry; apply orb_false_iff; split; apply Z.ltb_ge; lia]).
  unfold k. destruct client; cbn [negb].
  - assert (Hlk : len key = 4) by (unfold len; lia).
    destruct (Z.ltb_spec (len (Z.lor 128 op :: b1 :: ext ++ key ++ body)) (2 + len ext + 4)).
    { rewrite !len_cons, !len_app in *. pose proof (len_nonneg body). lia. }
    rewrite Hlk. do 3 f_equal. unfold bytes_at.
    replace (Z.to_nat (2 + len ext)) with (S (S (length ext))) by (unfold len; lia). cbn [drop].
    change (drop (S (S (length ext))) (Z.lor 128 op :: b1 :: ext ++ key ++ body)) with (drop (length ext) (ext ++ key ++ body)).
    rewrite drop_app_length. by rewrite take_app_length' by lia.
  - f_equal. f_equal. cbn. change (len (@nil Z)) with 0. lia.
Qed.

Lemma mask_rest_twice i src m : mask_rest i (mask_rest i src m) m = src.
Proof.
  revert i. induction src as [|b src IH]; intros i; cbn; [done|]. rewrite IH. f_equal.
  by rewrite Z.lxor_assoc, Z.lxor_nilpotent, Z.lxor_0_r.
Qed.

(** [applyMask] undoes itself. *)
Lemma applyMask_twice src m : bytes_ok src -> bytes_ok m -> length m = 4%nat -> applyMask (applyMask src m) m = src.
Proof.
  intros Hs Hm Hl. rewrite (applyMask_rest src) by done. rewrite applyMask_rest by (done || by apply mask_rest_ok).
  apply mask_rest_twice.
Qed.

(** The bytes of a message on the wire. *)
Definition wire (client : bool) (key : bytes) (op : Z) (pl : bytes) : bytes :=
  (Z.lor 0x80 op :: mask_bit client (fst (size_bytes (len pl))) :: snd (size_bytes (len pl))) ++
  (if client then key else []) ++ (if client then mask_rest 0 pl key else pl).

Lemma acceptable_size mx op pl : acceptable mx op pl = true -> mx < 2 ^ 63 ->
  0 <= len pl < 2 ^ 63 /\ sendable op = true /\ (if 8 <=? op then len pl <=? 125 else len pl <=? mx) = true.
Proof.
  unfold acceptable. intros [[[Hop Hsz]%andb_true_iff _]%andb_true_iff _]%andb_true_iff Hmx. split; [|done].
  pose proof (len_nonneg pl). destruct (8 <=? op); apply Z.leb_le in Hsz; lia.
Qed.

Lemma sendFrame_wire client key op pl mx :
  bytes_ok pl -> bytes_ok key -> length key = 4%nat -> acceptable mx op pl = true -> mx < 2 ^ 63 ->
  sendFrame client false key op pl = Ok (wire client key op pl).
Proof.
  intros Hp Hk Hl Ha Hmx. destruct (acceptable_size _ _ _ Ha Hmx) as (Hn & Hop & Hsz). unfold sendFrame.
  rewrite frameHeader_Ok; [|done|done|]. 2: { intros H8. destruct (Z.leb_spec 8 op); lia. }
  unfold wire. cbn [fst snd]. destruct client; cbn [negb]; [|done]. by rewrite applyMask_rest.
Qed.

Lemma wire_ok client key op pl mx :
  bytes_ok pl -> bytes_ok key -> acceptable mx op pl = true -> mx < 2 ^ 63 -> bytes_ok (wire client key op pl).
Proof.
  intros Hp Hk Ha Hmx. destruct (acceptable_size _ _ _ Ha Hmx) as (Hn & Hop & Hsz). unfold wire.
  destruct (size_bytes_read client (len pl) 0 [] Hn) as (_ & Hb1 & He).
  destruct (mask_bit_bits client _ Hb1) as (_ & _ & Hmb).
  assert (Hb0 : byte_ok (Z.lor 128 op)).
  { apply lor_byte_ok; [unfold byte_ok; lia|]. unfold sendable, Text, Binary, Close, Ping, Pong in Hop. unfold byte_ok. lia. }
  apply Forall_app. split; [by apply Forall_cons_2, Forall_cons_2|].
  apply Forall_app. split; destruct client; try done. by apply mask_rest_ok.
Qed.

Section roundtrip.
Context (flate : bytes -> bytes -> bytes * bool).

Lemma frame_step_wire client key op pl mx df ct more (k := PConfig mx (negb client) df ct) :
  bytes_ok pl -> bytes_ok key -> length key = 4%nat -> acceptable mx op pl = true -> mx < 2 ^ 63 ->
  frame_step flate k start (wire client key op pl ++ more) = SGot (Some (Ev op pl)) start (len (wire client key op pl)).
Proof.
  intros Hp Hk Hl Ha Hmx. destruct (acceptable_size _ _ _ Ha Hmx) as (Hn & Hop & Hsz).
  unfold frame_step. cbn [k_max k_fromServer k_deflate k start c_frag c_text c_window].
  set (ext := snd (size_bytes (len pl))). set (kk := if client then key else []).
  set (body := if client then mask_rest 0 pl key else pl).
  assert (Ew : wire client key op pl ++ more = (Z.lor 0x80 op :: mask_bit client (fst (size_bytes (len pl))) :: ext) ++ kk ++ (body ++ more))
    by (unfold wire; by rewrite <- !(assoc_L (++))).
  rewrite Ew. unfold kk at 1, ext at 1. rewrite frame_parses by done. fold ext kk.
  set (h := Header _ _ _ _ _ _). rewrite <- Ew.
  assert (Hbody : length body = length pl) by (unfold body; destruct client; [apply mask_rest_len|done]).
  assert (Hlen : len (wire client key op pl) = 2 + len ext + len kk + len pl).
  { unfold wire. fold ext kk body. rewrite !len_app, !len_cons. unfold len in *. lia. }
  assert (Harr : arrived h (wire client key op pl ++ more) = pl).
  { unfold arrived. cbn [h h_len h_offset h_mask]. rewrite Ew, (assoc_L (++)), drop_app_length'.
    - rewrite take_app_length' by (unfold len; lia). unfold body. destruct client; [apply mask_rest_twice|done].
    - rewrite length_app. cbn [length]. unfold len. lia. }
  rewrite Harr. assert (Hwh : whole h (wire client key op pl ++ more) = true).
  { unfold whole. cbn [h h_offset h_len]. apply Z.leb_le. rewrite len_app. pose proof (len_nonneg more). lia. }
  rewrite Hwh. cbn [h h_offset h_len h_opcode h_fin h_compressed andb negb]. rewrite Hlen.
  unfold acceptable in Ha. apply andb_true_iff in Ha as [[_ Htxt]%andb_true_iff Hcl].
  assert (Hta : exists v, text_after (is_text None h) reset pl true = Some v).
  { unfold is_text. cbn [h h_opcode h_compressed negb]. rewrite andb_true_r, andb_false_r, orb_false_r.
    destruct (op =? Text); [|by eexists]. cbn. rewrite (valid_steps _ reset Hp eq_refl) in Htxt.
    destruct (steps reset pl) as [w|]; [|done]. cbn in Htxt. rewrite Htxt. by eexists. }
  destruct Hta as [v ->]. destruct (8 <=? op); [|done].
  destruct (Z.eqb_spec op Close) as [->|]; [|done]. cbn [andb]. revert Hcl. cbn [Z.eqb].
  destruct (Z.eqb_spec (len pl) 0) as [E0|]; [rewrite E0; cbn; done|]. cbn [orb].
  intros [[H2 ->]%andb_true_iff ->]%andb_true_iff. apply Z.leb_le in H2. destruct (Z.eqb_spec (len pl) 1); [lia|].
  cbn [negb orb andb]. rewrite !andb_false_r. done.
Qed.

Record message := Msg { m_key : bytes; m_opcode : Z; m_payload : bytes }.

(** A message an endpoint sends, with the key a client draws for it. *)
Definition well_sent (mx : Z) (m : message) : Prop :=
  bytes_ok (m_payload m) /\ bytes_ok (m_key m) /\ length (m_key m) = 4%nat /\ acceptable mx (m_opcode m) (m_payload m) = true.

Definition event_of (m : message) : Event := Ev (m_opcode m) (m_payload m).

Definition sends (client : bool) (m : message) (f : bytes) : Prop :=
  sendFrame client false (m_key m) (m_opcode m) (m_payload m) = Ok f.

Lemma sends_wire client mx ms fs :
  mx < 2 ^ 63 -> Forall (well_sent mx) ms -> Forall2 (sends client) ms fs ->
  fs = (fun m => wire client (m_key m) (m_opcode m) (m_payload m)) <$> ms /\ bytes_ok (concat fs).
Proof.
  intros Hmx Hms. revert fs. induction Hms as [|m ms (Hp & Hk & Hl & Ha) Hms IH]; intros fs Hs.
  { apply Forall2_nil_inv_l in Hs as ->. split; [done|constructor]. }
  apply Forall2_cons_inv_l in Hs as (f & fs' & Hf & Hs & ->). destruct (IH fs' Hs) as [-> Hok].
  unfold sends in Hf. rewrite (sendFrame_wire _ _ _ _ mx) in Hf by done. injection Hf as <-. split; [done|].
  cbn [concat]. apply Forall_app. split; [by apply (wire_ok _ _ _ _ mx)|done].
Qed.

Lemma events_wire client mx df ct ms (k := PConfig mx (negb client) df ct) :
  mx < 2 ^ 63 -> Forall (well_sent mx) ms ->
  bytes_ok (concat ((fun m => wire client (m_key m) (m_opcode m) (m_payload m)) <$> ms)) ->
  events flate k start (concat ((fun m => wire client (m_key m) (m_opcode m) (m_payload m)) <$> ms)) =
    Some (event_of <$> ms, inr (start, [])).
Proof.
  intros Hmx Hms. induction Hms as [|m ms (Hp & Hk & Hl & Ha) Hms IH]; [done|]. cbn [fmap list_fmap concat]. intros Hok.
  rewrite events_eq by done. unfold k at 1. rewrite (frame_step_wire client) by done.
  apply Forall_app in Hok as [_ Hok]. unfold len. rewrite Nat2Z.id, drop_app_length. cbn [fmap list_fmap] in IH. rewrite IH by done. done.
Qed.

Lemma cut_never evs c s : cut never evs (inr (c, s)) = (evs, More).
Proof. induction evs as [|ev evs IH]; cbn; [done|]. by rewrite IH. Qed.

(** C15: what an endpoint sends, its peer receives.  Messages and control frames
    written by [sendFrame], masked by a client or bare from a server, come out
    of the peer's parser unchanged and in order, in whatever pieces the bytes
    arrive, through [Feed] or, up to a close frame or a ping that cannot be
    answered, through the loop of [serveFrames]. *)
Theorem ws_roundtrip client mx df ct ms fs ds (k := PConfig mx (negb client) df ct) :
  mx < 2 ^ 63 -> Forall (well_sent mx) ms -> Forall2 (sends client) ms fs -> concat ds = concat fs ->
  reads (Feed flate) ds (fresh k) = Some (event_of <$> ms, More) /\
  forall answered, reads (serve_read flate answered) ds (fresh k) = Some (cut (last_frame answered) (event_of <$> ms) (inr (start, []))).
Proof.
  intros Hmx Hms Hs Ed. destruct (sends_wire _ _ _ _ Hmx Hms Hs) as [-> Hok].
  pose proof (events_wire client mx df ct ms Hmx Hms Hok) as He. rewrite <- Ed in He, Hok.
  assert (Hds : Forall (fun d => bytes_ok d) ds).
  { clear - Hok. induction ds as [|d ds IH]; [constructor|]. cbn in Hok. apply Forall_app in Hok as [? ?]. constructor; [done|by apply IH]. }
  split.
  - rewrite (reads_events flate never _ k ds _ _ (Feed_delivers _) Hds He). by rewrite cut_never.
  - intros answered. exact (reads_events flate (last_frame answered) _ k ds _ _ (serve_delivers _ answered) Hds He).
Qed.
End roundtrip.

(** A client's "hi" and close frame, cut in the middle of the first payload. *)
Lemma ws_roundtrip_witness :
  reads (serve_read stored (fun _ => true)) [[0x81; 0x82; 1; 2; 3; 4; 0x69]; [0x6b; 0x88; 0x82; 9; 9; 9; 9; 0x0a; 0xe1]] (fresh (PConfig 64 false false false)) =
    Some ([Ev Text [0x68; 0x69]; Ev Close [0x03; 0xe8]], Closed).
Proof.
  apply (ws_roundtrip stored true 64 false false [Msg [1; 2; 3; 4] Text [0x68; 0x69]; Msg [9; 9; 9; 9] Close [0x03; 0xe8]]
    [[0x81; 0x82; 1; 2; 3; 4; 0x69; 0x6b]; [0x88; 0x82; 9; 9; 9; 9; 0x0a; 0xe1]]
    [[0x81; 0x82; 1; 2; 3; 4; 0x69]; [0x6b; 0x88; 0x82; 9; 9; 9; 9; 0x0a; 0xe1]]).
  - reflexivity.
  - repeat (apply Forall_cons_2; [split; [by apply bytes_check|]; split; [by apply bytes_check|]; split; reflexivity|]). apply Forall_nil_2.
  - repeat (apply Forall2_cons_2; [reflexivity|]). apply Forall2_nil_2.
  - reflexivity.
Defined.
