(* ===== verification/WsConn.v ===== *)
(** A WebSocket connection's calls (src/go/websocket/handler.go: [Connection]'s
    write methods, [sendClose], [closeStatus] and [serveFrames]).

    The write methods may run on any goroutine.  Each is a [task] that goes
    through the atomic steps of the code: the load or compare-and-swap of
    [closeSent], the store of [closeState], handing a frame to the transport,
    and asking it to close.  [gstep] interleaves any number of them.  The
    compressor of compress/flate is a parameter. *)
From S2P Require Import Prelude.
From S2P Require Import Utf8.
From S2P Require Import WsFrame.
From S2P Require Import WsParser.

(** * State *)

(** The transport takes frames until it is told to close after sending, or is
    closed. *)
Inductive transport := TOpen | TClosing | TClosed.

Record wire_frame := WireFrame { wf_opcode : Z; wf_payload : bytes; wf_compressed : bool }.

Record Connection := Conn {
  conn : transport;
  wire : list wire_frame;
  compress : bool;
  windowBits : Z;
  closeSent : bool;
  closeState : option (Z * bytes);
}.

Definition CloseNormal : Z := 1000.
Definition CloseProtocolError : Z := 1002.
Definition CloseInvalidPayload : Z := 1007.
Definition CloseMessageTooBig : Z := 1009.

Definition closePayload (payload : bytes) : Z * bytes :=
  if len payload <? 2 then (CloseNormal, []) else (be_val (take 2 payload), drop 2 payload).

Definition closeStatus (c : Connection) : Z * bytes :=
  match closeState c with Some s => s | None => (1006, []) end.

(** * Calls *)

Inductive task :=
  | TWrite (opcode : Z) (payload : bytes)                      (* writeFrame *)
  | TSend (opcode : Z) (payload : bytes) (compressed : bool)   (* ... past the check of closeSent *)
  | TClose (payload : bytes)                                   (* sendClose *)
  | TStore (payload : bytes)                                   (* ... having set closeSent *)
  | TSendClose (payload : bytes)                               (* ... having set closeState *)
  | TFinish                                                    (* ... having sent the frame *)
  | TRet (ok : bool).

Definition WriteMessage (opcode : Z) (payload : bytes) : task :=
  if negb (opcode =? Text) && negb (opcode =? Binary) then TRet false
  else if (opcode =? Text) && negb (utf8_Valid payload) then TRet false
  else TWrite opcode payload.

Definition WriteText (text : bytes) : task := WriteMessage Text text.
Definition WriteBinary (payload : bytes) : task := WriteMessage Binary payload.
Definition PingFrame (payload : bytes) : task := TWrite Ping payload.
Definition PongFrame (payload : bytes) : task := TWrite Pong payload.

Definition CloseCall (code : Z) (reason : bytes) : task :=
  if negb (validCloseCode code) || negb (utf8_Valid reason) then TRet false
  else if 125 <? 2 + len reason then TRet false
  else TClose (be_bytes 2 code ++ reason).

(** * Steps *)

Section conn.
Context (compressMessage : Z -> bytes -> bytes).

Definition set_closeSent (b : bool) (c : Connection) : Connection :=
  Conn (conn c) (wire c) (compress c) (windowBits c) b (closeState c).
Definition set_closeState (s : Z * bytes) (c : Connection) : Connection :=
  Conn (conn c) (wire c) (compress c) (windowBits c) (closeSent c) (Some s).
Definition set_conn (t : transport) (c : Connection) : Connection :=
  Conn t (wire c) (compress c) (windowBits c) (closeSent c) (closeState c).

(** [sendFrame] as the transport sees it; [false] is an error. *)
Definition hand_over (opcode : Z) (payload : bytes) (compressed : bool) (c : Connection) : Connection * bool :=
  match frameHeader opcode (len payload), conn c with
  | Ok _, TOpen =>
      (Conn (conn c) (wire c ++ [WireFrame opcode payload compressed]) (compress c) (windowBits c) (closeSent c) (closeState c), true)
  | _, _ => (c, false)
  end.

Definition CloseAfterSend (c : Connection) : Connection :=
  match conn c with TOpen => set_conn TClosing c | _ => c end.

(** One atomic step of a call. *)
Definition run (t : task) (c : Connection) : Connection * task :=
  match t with
  | TWrite op pl =>
      if closeSent c then (c, TRet false)
      else if compress c && ((op =? Text) || (op =? Binary)) then (c, TSend op (compressMessage (windowBits c) pl) true)
      else (c, TSend op pl false)
  | TSend op pl cmp => let '(c, ok) := hand_over op pl cmp c in (c, TRet ok)
  | TClose pl => if closeSent c then (c, TRet true) else (set_closeSent true c, TStore pl)
  | TStore pl =>
      if 125 <? len pl then (set_closeSent false c, TRet false)
      else (set_closeState (closePayload pl) c, TSendClose pl)
  | TSendClose pl => let '(c, ok) := hand_over Close pl false c in (c, if ok then TFinish else TRet false)
  | TFinish => (CloseAfterSend c, TRet true)
  | TRet ok => (c, TRet ok)
  end.

(** What a caller may start. *)
Inductive begins : task -> Prop :=
  | begin_write op pl : op <> Close -> begins (TWrite op pl)
  | begin_close pl : begins (TClose pl).

Definition gstate : Type := Connection * list task.

Inductive gstep : gstate -> gstate -> Prop :=
  | g_begin c ts t : begins t -> gstep (c, ts) (c, ts ++ [t])
  | g_run c ts i t c' t' : ts !! i = Some t -> run t c = (c', t') -> gstep (c, ts) (c', <[i:=t']> ts)
  | g_lost c ts : gstep (c, ts) (set_conn TClosed c, ts).

Definition opened (cmp : bool) (bits : Z) : Connection := Conn TOpen [] cmp bits false None.

(** * At most one close frame *)

Definition close_frames (c : Connection) : list wire_frame := filter (fun f => wf_opcode f = Close) (wire c).

Definition in_close (t : task) : bool := match t with TStore _ | TSendClose _ | TFinish => true | _ => false end.

(** Where a task that sends a close frame stands against the state. *)
Definition task_inv (c : Connection) (t : task) : Prop :=
  match t with
  | TWrite op _ | TSend op _ _ => op <> Close
  | TStore _ => closeState c = None /\ close_frames c = []
  | TSendClose pl => closeState c = Some (closePayload pl) /\ close_frames c = []
  | _ => True
  end.

Record inv (s : gstate) : Prop := {
  v_once : closeSent s.1 = false -> cnt in_close s.2 = 0 /\ closeState s.1 = None /\ close_frames s.1 = [];
  v_one : cnt in_close s.2 <= 1;
  v_tasks : Forall (task_inv s.1) s.2;
  v_frames : close_frames s.1 = [] \/
    exists f, close_frames s.1 = [f] /\ closeState s.1 = Some (closePayload (wf_payload f)) /\ wf_compressed f = false;
}.

Lemma cnt_two {A} (p : A -> bool) (l : list A) (i j : nat) x y :
  l !! i = Some x -> l !! j = Some y -> i <> j -> p x = true -> p y = true -> 2 <= cnt p l.
Proof.
  revert i j. induction l as [|z l IH]; intros [|i] [|j] Hi Hj Hn Hx Hy; simplify_eq/=.
  - rewrite Hx. pose proof (cnt_lookup_pos p l j y Hj Hy). cbn. lia.
  - rewrite Hy. pose proof (cnt_lookup_pos p l i x Hi Hx). cbn. lia.
  - specialize (IH i j Hi Hj ltac:(lia) Hx Hy). destruct (p z); cbn; lia.
Qed.

(** The other tasks do not look at what the closing one changes. *)
Lemma tasks_closing c c' ts i t t' :
  ts !! i = Some t -> in_close t = true -> cnt in_close ts <= 1 -> Forall (task_inv c) ts -> task_inv c' t' ->
  Forall (task_inv c') (<[i:=t']> ts).
Proof.
  intros Hi Ht Hone Hall Ht'. apply Forall_lookup_2. intros j u Hj. apply list_lookup_insert_Some in Hj as [(<- & <- & _)|[Hne Hj]]; [done|].
  destruct (in_close u) eqn:Eu; [pose proof (cnt_two in_close ts i j t u Hi Hj Hne Ht Eu); lia|].
  pose proof (Forall_lookup_1 _ _ _ _ Hall Hj). by destruct u.
Qed.

Lemma tasks_same c c' ts i t' :
  closeState c' = closeState c -> close_frames c' = close_frames c -> Forall (task_inv c) ts -> task_inv c' t' ->
  Forall (task_inv c') (<[i:=t']> ts).
Proof.
  intros Es Ef Hall Ht'. apply Forall_insert; [|done]. eapply Forall_impl; [exact Hall|]. intros u Hu.
  destruct u; cbn in *; by rewrite ?Es, ?Ef.
Qed.

Lemma hand_over_spec op pl cmp c c' ok :
  hand_over op pl cmp c = (c', ok) ->
  closeSent c' = closeSent c /\ closeState c' = closeState c /\ conn c' = conn c /\
  close_frames c' = close_frames c ++ (if ok && (op =? Close) then [WireFrame op pl cmp] else []).
Proof.
  unfold hand_over. destruct (frameHeader op (len pl)), (conn c) eqn:E; intros [= <- <-]; cbn; rewrite ?app_nil_r; try done.
  do 3 (split; [done|]). unfold close_frames. cbn. rewrite filter_app. f_equal. unfold filter. cbn.
  destruct (Z.eqb_spec op Close); destruct (decide _); cbn in *; (done || congruence).
Qed.

Lemma run_inv c ts i t c' t' :
  inv (c, ts) -> ts !! i = Some t -> run t c = (c', t') -> inv (c', <[i:=t']> ts).
Proof.
  intros [Hs Hone Hall Hfr] Hi Hr. cbn [fst snd] in *. pose proof (cnt_insert in_close ts i t t' Hi) as Hcnt.
  pose proof (Forall_lookup_1 _ _ _ _ Hall Hi) as Ht. pose proof (cnt_nonneg in_close (<[i:=t']> ts)) as H0.
  destruct t as [op pl|op pl cmp|pl|pl|pl| |ok]; cbn [run] in Hr.
  - assert (c' = c /\ in_close t' = false /\ task_inv c t') as (-> & Et & Hti).
    { destruct (closeSent c); [by simplify_eq|]. destruct (_ && _); by simplify_eq. }
    rewrite Et in Hcnt. cbn in Hcnt. split; cbn [fst snd]; rewrite ?Hcnt; try (done || lia); [|by apply (tasks_same c)].
    intros H. destruct (Hs H) as (-> & ? & ?). done.
  - destruct (hand_over op pl cmp c) as [c1 ok] eqn:Eh. simplify_eq. destruct (hand_over_spec _ _ _ _ _ _ Eh) as (E1 & E2 & _ & E3).
    assert (close_frames c' = close_frames c) as E4 by (rewrite E3; cbn in Ht; destruct (Z.eqb_spec op Close); [done|]; by rewrite andb_false_r, app_nil_r).
    cbn in Hcnt. split; cbn [fst snd]; rewrite ?Hcnt, ?E1, ?E2, ?E4; try (done || lia); [|by apply (tasks_same c)].
    intros H. destruct (Hs H) as (-> & ? & ?). done.
  - destruct (closeSent c) eqn:Ec; simplify_eq; cbn in Hcnt.
    + split; cbn [fst snd]; rewrite ?Hcnt, ?Ec; try (done || lia). by apply (tasks_same c').
    + destruct (Hs eq_refl) as (E0 & E1 & E2). split; cbn [fst snd]; rewrite ?Hcnt; try (done || lia).
      by apply (tasks_same c).
  - destruct (125 <? len pl); simplify_eq; cbn in Hcnt; cbn in Ht.
    + split; cbn [fst snd]; try (done || lia); [|by apply (tasks_same c)]. intros _. split; [lia|done].
    + destruct Ht as [E1 E2]. split; cbn [fst snd]; rewrite ?Hcnt; try (done || lia).
      * intros H. destruct (Hs H) as [E0 _]. pose proof (cnt_lookup_pos in_close ts i _ Hi eq_refl). lia.
      * by eapply (tasks_closing c).
      * by left.
  - destruct (hand_over Close pl false c) as [c1 ok] eqn:Eh. destruct (hand_over_spec _ _ _ _ _ _ Eh) as (E1 & E2 & _ & E3).
    cbn in Ht. destruct Ht as [F1 F2]. rewrite F2, andb_true_r in E3. cbn [app] in E3.
    injection Hr as -> <-. pose proof (cnt_lookup_pos in_close ts i _ Hi eq_refl) as Hpos.
    split; cbn [fst snd].
    + intros H. rewrite E1 in H. destruct (Hs H) as [E0 _]. lia.
    + rewrite Hcnt. destruct ok; cbn; lia.
    + eapply (tasks_closing c); try done. by destruct ok.
    + rewrite E2, E3. destruct ok; [|by left]. right. by eexists.
  - injection Hr as <- <-. cbn in Hcnt. pose proof (cnt_lookup_pos in_close ts i _ Hi eq_refl) as Hpos.
    assert (Ec : closeSent (CloseAfterSend c) = closeSent c /\ closeState (CloseAfterSend c) = closeState c /\
      close_frames (CloseAfterSend c) = close_frames c) by (unfold CloseAfterSend; by destruct (conn c)).
    destruct Ec as (E1 & E2 & E3). split; cbn [fst snd]; rewrite ?Hcnt, ?E1, ?E2, ?E3; try (done || lia).
    + intros H. destruct (Hs H) as [E0 _]. lia.
    + by apply (tasks_same c).
  - simplify_eq. rewrite list_insert_id by done. done.
Qed.

Lemma gstep_inv s s' : inv s -> gstep s s' -> inv s'.
Proof.
  intros H Hg. destruct Hg as [c ts t Hb|c ts i t c' t' Hi Hr|c ts].
  - destruct H as [Hs Hone Hall Hfr]. cbn [fst snd] in *.
    assert (Et : cnt in_close [t] = 0 /\ task_inv c t) by (by destruct Hb). destruct Et as [Et Hti].
    split; cbn [fst snd]; rewrite ?cnt_app, ?Et, ?Z.add_0_r; try done. apply Forall_app. split; [done|]. by apply Forall_singleton.
  - by eapply run_inv.
  - by destruct H.
Qed.

Definition reachable (cmp : bool) (bits : Z) (s : gstate) : Prop := rtc gstep (opened cmp bits, []) s.

Lemma conn_inv cmp bits s : reachable cmp bits s -> inv s.
Proof.
  intros H. unfold reachable in H. remember (opened cmp bits, []) as s0 eqn:E0.
  assert (inv s0) as H0 by (subst; split; cbn; (done || lia || (by left) || constructor)). clear E0.
  induction H as [|s1 s2 s3 Hst _ IH]; [done|]. apply IH. by eapply gstep_inv.
Qed.

(** What is still going to the transport. *)
Lemma run_closed t c c' t' :
  run t c = (c', t') -> conn c <> TOpen -> wire c' = wire c /\ conn c' <> TOpen.
Proof.
  intros Hr Hc. assert (Hh : forall op pl cmp, hand_over op pl cmp c = (c, false)).
  { intros op pl cmp. unfold hand_over. destruct (frameHeader _ _), (conn c) eqn:?; done || congruence. }
  destruct t; cbn [run] in Hr; rewrite ?Hh in Hr; repeat case_match; simplify_eq; try done.
  unfold CloseAfterSend. destruct (conn c) eqn:E; [congruence|split; [done|congruence]..].
Qed.

Lemma closed_frozen s s' : rtc gstep s s' -> conn s.1 <> TOpen -> wire s'.1 = wire s.1.
Proof.
  induction 1 as [|s1 s2 s3 Hst _ IH]; [done|]. intros Hc.
  assert (H : wire s2.1 = wire s1.1 /\ conn s2.1 <> TOpen).
  { destruct Hst as [| |]; [done|by eapply run_closed|done]. }
  destruct H as [<- Hc2]. by apply IH.
Qed.

(** C39: the close handshake happens once.  Whatever calls run on whatever
    goroutines, at most one close frame is handed to the transport, uncompressed;
    the status [OnClose] reports is that frame's; once [closeSent] is set no
    call that starts later sends anything; and nothing follows the request to
    close the transport. *)
Theorem close_once cmp bits c ts :
  reachable cmp bits (c, ts) ->
  (close_frames c = [] \/ exists f, close_frames c = [f] /\ wf_compressed f = false /\ closeStatus c = closePayload (wf_payload f)) /\
  (closeSent c = true -> forall t, begins t -> exists ok, run t c = (c, TRet ok)) /\
  (conn c <> TOpen -> forall s', rtc gstep (c, ts) s' -> wire s'.1 = wire c).
Proof.
  intros Hr. destruct (conn_inv _ _ _ Hr) as [_ _ _ Hfr]. cbn [fst snd] in *. split; [|split].
  - destruct Hfr as [?|(f & Hf & Hs & Hu)]; [by left|]. right. exists f. unfold closeStatus. by rewrite Hs.
  - intros Hc t Hb. destruct Hb; cbn; rewrite Hc; by eexists.
  - intros Hc s' Hs'. by apply (closed_frozen (c, ts) s').
Qed.
End conn.

(** * Serving *)

(** What [serveFrames] does about an event: [ping] and [pong] say which of the
    optional handlers there are. *)
Inductive action :=
  | OnMessage (opcode : Z) (payload : bytes)
  | OnPing (payload : bytes)
  | OnPong (payload : bytes)
  | Call (t : task).

Definition on_event (ping pong : bool) (ev : Event) : list action :=
  if (Opcode ev =? Text) || (Opcode ev =? Binary) then [OnMessage (Opcode ev) (Payload ev)]
  else if Opcode ev =? Ping then [if ping then OnPing (Payload ev) else Call (PongFrame (Payload ev))]
  else if Opcode ev =? Pong then (if pong then [OnPong (Payload ev)] else [])
  else if Opcode ev =? Close then [Call (TClose (Payload ev))]
  else [].

Definition closeParserError (e : ws_error) : task :=
  let code := match e with
              | ErrMessageTooBig => CloseMessageTooBig
              | ErrInvalidPayload => CloseInvalidPayload
              | ErrProtocol => CloseProtocolError
              end in
  TClose (be_bytes 2 code).

(** A read; [pinged] says of a ping whether [replyPing] could answer it. *)
Definition serveFrames (flate : bytes -> bytes -> bytes * bool) (ping pong : bool) (pinged : Event -> bool) (data : bytes) (p : Parser)
  : option (Parser * list action) :=
  match serve_read flate (fun ev => ping || pinged ev) data p with
  | Some (p, evs, e) =>
      Some (p, mjoin (on_event ping pong <$> evs) ++ match e with Failed e => [Call (closeParserError e)] | _ => [] end)
  | None => None
  end.

(** * A race *)

(** A write that passed the check of [closeSent] before a close was sent and
    reaches the transport after the close frame: the frame follows the close
    frame on the wire. *)
Lemma data_after_close :
  exists c ts, reachable (fun _ b => b) false 0 (c, ts) /\
    wire c = [WireFrame Close (be_bytes 2 CloseNormal) false; WireFrame Text [0x68] false].
Proof.
  eexists _, _. split.
  - unfold reachable.
    eapply rtc_l; [apply (g_begin _ _ _ (TWrite Text [0x68])); by constructor|].
    eapply rtc_l; [eapply (g_run _ _ _ 0); reflexivity|].
    eapply rtc_l; [apply (g_begin _ _ _ (CloseCall CloseNormal [])); by constructor|].
    do 3 (eapply rtc_l; [eapply (g_run _ _ _ 1); reflexivity|]).
    eapply rtc_l; [eapply (g_run _ _ _ 0); reflexivity|]. apply rtc_refl.
  - reflexivity.
Qed.

(** The same run, read for what the theorem says of it. *)
Lemma close_once_witness :
  exists c ts, reachable (fun _ b => b) false 0 (c, ts) /\ closeStatus c = (CloseNormal, []) /\ wire c <> [].
Proof.
  set (c := Conn TClosing [WireFrame Close (be_bytes 2 CloseNormal) false] false 0 true (Some (CloseNormal, []))).
  assert (H : reachable (fun _ b => b) false 0 (c, [TRet true])).
  { unfold reachable.
    eapply rtc_l; [apply (g_begin _ _ _ (CloseCall CloseNormal [])); by constructor|].
    do 4 (eapply rtc_l; [eapply (g_run _ _ _ 0); reflexivity|]). apply rtc_refl. }
  exists c, [TRet true]. split; [exact H|]. split; [|discriminate].
  destruct (close_once _ _ _ _ _ H) as [[E|(f & Ef & _ & ->)] _]; [discriminate E|].
  vm_compute in Ef. injection Ef as <-. reflexivity.
Defined.
