(* ===== verification/GoText.v ===== *)
(** The functions of Go's bytes, strings and strconv packages that the HTTP code
    is written with, on byte lists: searching, trimming, folding case, numbers. *)
From Stdlib Require Import String.
From S2P Require Import Prelude.
From S2P Require Import HpackTables.

Definition crlf : bytes := [13; 10].
Definition crlf2 : bytes := [13; 10; 13; 10].

(** * Searching *)

(** [bytes.HasPrefix]. *)
Fixpoint is_prefix (p l : bytes) : bool :=
  match p, l with
  | [], _ => true
  | x :: p, y :: l => (x =? y) && is_prefix p l
  | _ :: _, [] => false
  end.

(** [bytes.Index]; [None] is -1. *)
Fixpoint Index (sep l : bytes) : option Z :=
  if is_prefix sep l then Some 0
  else match l with [] => None | _ :: l => option_map (Z.add 1) (Index sep l) end.

Definition IndexByte (c : Z) (l : bytes) : option Z := Index [c] l.

(** [strings.Contains]. *)
Definition Contains (l sep : bytes) : bool := match Index sep l with Some _ => true | None => false end.

(** [bytes.Split] by a byte. *)
Fixpoint SplitByte (c : Z) (l : bytes) : list bytes :=
  match l with
  | [] => [[]]
  | x :: l =>
      if x =? c then [] :: SplitByte c l
      else match SplitByte c l with [] => [[x]] | piece :: rest => (x :: piece) :: rest end
  end.

(** * White space *)

(** The UTF-8 encodings of the code points [unicode.IsSpace] accepts. *)
Definition spaces_utf8 : list bytes :=
  ((fun c => [c]) <$> [9; 10; 11; 12; 13; 32]) ++ [[0xC2; 0x85]; [0xC2; 0xA0]; [0xE1; 0x9A; 0x80]] ++
  ((fun c => [0xE2; 0x80; c]) <$> seqZ 0x80 11) ++
  [[0xE2; 0x80; 0xA8]; [0xE2; 0x80; 0xA9]; [0xE2; 0x80; 0xAF]; [0xE2; 0x81; 0x9F]; [0xE3; 0x80; 0x80]].

Fixpoint trim_loop (fuel : nat) (spaces : list bytes) (l : bytes) : bytes :=
  match fuel with
  | O => l
  | S fuel =>
      match List.find (fun s => is_prefix s l) spaces with
      | Some s => trim_loop fuel spaces (drop (length s) l)
      | None => l
      end
  end.

(** [strings.TrimSpace]: a byte at least is dropped in each round. *)
Definition TrimSpace (l : bytes) : bytes :=
  let l := trim_loop (length l) spaces_utf8 l in
  reverse (trim_loop (length l) (reverse <$> spaces_utf8) (reverse l)).

(** * Case *)

Definition lower (c : Z) : Z := if (65 <=? c) && (c <=? 90) then c + 32 else c.

(** [strings.EqualFold] with an ASCII second argument, which a long s and a
    Kelvin sign can match too. *)
Fixpoint EqualFold (s t : bytes) : bool :=
  match t with
  | [] => match s with [] => true | _ => false end
  | c :: t =>
      match s with
      | [] => false
      | x :: s1 =>
          if x <? 128 then (lower x =? lower c) && EqualFold s1 t
          else if is_prefix [0xC5; 0xBF] s then (lower c =? 115) && EqualFold (drop 2 s) t
          else if is_prefix [0xE2; 0x84; 0xAA] s then (lower c =? 107) && EqualFold (drop 3 s) t
          else false
      end
  end.

(** * Numbers *)

Definition digit (c : Z) : option Z :=
  if (48 <=? c) && (c <=? 57) then Some (c - 48)
  else let c := lower c in if (97 <=? c) && (c <=? 122) then Some (c - 87) else None.

Fixpoint digits (base : Z) (v : Z) (s : bytes) : option Z :=
  match s with
  | [] => Some v
  | c :: s => match digit c with Some d => if d <? base then digits base (v * base + d) s else None | None => None end
  end.

(** [strconv.ParseUint] with a base from 2 to 36; [None] is a syntax or range
    error. *)
Definition ParseUint (s : bytes) (base bitSize : Z) : option Z :=
  match s with
  | [] => None
  | _ => match digits base 0 s with Some v => if v <? 2 ^ bitSize then Some v else None | None => None end
  end.

(** [strconv.ParseInt] with 64 bits. *)
Definition ParseInt (s : bytes) (base : Z) : option Z :=
  match s with
  | 43 :: s => ParseUint s base 63
  | 45 :: s => match ParseUint s base 64 with Some v => if v <=? 2 ^ 63 then Some (- v) else None | None => None end
  | _ => ParseUint s base 63
  end.

(** [strconv.AppendInt] of a number that is not negative; a number below
    [base ^ n] has at most [n] digits. *)
Fixpoint int_digits (fuel : nat) (base n : Z) (acc : bytes) : bytes :=
  match fuel with
  | O => acc
  | S fuel =>
      let d := n mod base in
      let acc := (if d <? 10 then 48 + d else 87 + d) :: acc in
      if n / base =? 0 then acc else int_digits fuel base (n / base) acc
  end.
Definition FormatInt (n base : Z) : bytes := int_digits 64 base n [].

(** * Lemmas *)

Lemma is_prefix_spec p l : is_prefix p l = true <-> exists r, l = p ++ r.
Proof.
  revert l. induction p as [|x p IH]; intros l; cbn [is_prefix]; [split; [by exists l|done]|].
  destruct l as [|y l]; [split; [done|by intros [r ?]]|]. rewrite andb_true_iff, Z.eqb_eq, IH. split.
  - intros [-> [r ->]]. by exists r.
  - intros [r [= -> ->]]. split; [done|by exists r].
Qed.

Lemma is_prefix_app p l x : is_prefix p l = true -> is_prefix p (l ++ x) = true.
Proof. rewrite !is_prefix_spec. intros [r ->]. exists (r ++ x). by rewrite app_assoc. Qed.

Lemma is_prefix_app_inv p l x : len p <= len l -> is_prefix p (l ++ x) = is_prefix p l.
Proof.
  revert l. induction p as [|a p IH]; intros l Hl; [done|]. destruct l as [|b l]; [len_lia|]. cbn [app is_prefix]. by rewrite IH by len_lia.
Qed.

Lemma is_prefix_len p l : is_prefix p l = true -> len p <= len l.
Proof. rewrite is_prefix_spec. intros [r ->]. len_lia. Qed.

Lemma Index_spec sep l i :
  Index sep l = Some i <->
  0 <= i <= len l /\ is_prefix sep (drop (Z.to_nat i) l) = true /\ forall j, 0 <= j < i -> is_prefix sep (drop (Z.to_nat j) l) = false.
Proof.
  revert i. induction l as [|x l IH]; intros i.
  - cbn [Index]. destruct (is_prefix sep []) eqn:E.
    + split; [intros [= <-]; split; [done|]; split; [done|lia]|]. intros (H1 & _ & _). change (len (@nil Z)) with 0 in H1. f_equal. lia.
    + split; [done|]. intros (_ & H2 & _). rewrite drop_nil, E in H2. done.
  - cbn [Index]. destruct (is_prefix sep (x :: l)) eqn:E.
    + split; [intros [= <-]; split; [len_lia|]; split; [done|lia]|]. intros (H1 & H2 & H3). f_equal.
      destruct (decide (i = 0)); [done|]. specialize (H3 0 ltac:(lia)). change (drop (Z.to_nat 0) (x :: l)) with (x :: l) in H3. congruence.
    + assert (Hd : forall j, 0 < j -> drop (Z.to_nat j) (x :: l) = drop (Z.to_nat (j - 1)) l).
      { intros j Hj. replace (Z.to_nat j) with (S (Z.to_nat (j - 1))) by lia. done. }
      destruct (Index sep l) as [k|] eqn:Ek; cbn [option_map].
      * destruct (proj1 (IH k) eq_refl) as (K1 & K2 & K3). split.
        { intros [= <-]. split; [len_lia|]. rewrite Hd by lia. replace (1 + k - 1) with k by lia. split; [done|].
          intros j Hj. destruct (decide (j = 0)) as [->|]; [done|]. rewrite Hd by lia. apply K3. lia. }
        intros (H1 & H2 & H3). f_equal. destruct (decide (i = 0)) as [->|Hi]; [change (drop (Z.to_nat 0) (x :: l)) with (x :: l) in H2; congruence|].
        rewrite Hd in H2 by lia. destruct (Z.lt_trichotomy (i - 1) k) as [Hlt|[Heq|Hgt]]; [|lia|].
        { rewrite K3 in H2 by lia. done. }
        { specialize (H3 (k + 1) ltac:(lia)). rewrite Hd in H3 by lia. replace (k + 1 - 1) with k in H3 by lia. congruence. }
      * split; [done|]. intros (H1 & H2 & H3). destruct (decide (i = 0)) as [->|Hi]; [change (drop (Z.to_nat 0) (x :: l)) with (x :: l) in H2; congruence|].
        assert (Hn : None = Some (i - 1)); [|done]. apply IH. rewrite Hd in H2 by lia. split; [len_lia|]. split; [done|].
        intros j Hj. specialize (H3 (j + 1) ltac:(lia)). rewrite Hd in H3 by lia. by replace (j + 1 - 1) with j in H3 by lia.
Qed.

Lemma Index_None sep l : Index sep l = None <-> forall j, 0 <= j <= len l -> is_prefix sep (drop (Z.to_nat j) l) = false.
Proof.
  split.
  - induction l as [|x l IH]; cbn [Index]; destruct (is_prefix sep _) eqn:E; intros H j Hj; try done.
    + assert (j = 0) as -> by (change (len (@nil Z)) with 0 in Hj; lia). done.
    + destruct (Index sep l) eqn:Ei; [done|]. destruct (decide (j = 0)) as [->|]; [done|].
      replace (Z.to_nat j) with (S (Z.to_nat (j - 1))) by lia. cbn. apply IH; [done|len_lia].
  - intros H. destruct (Index sep l) as [i|] eqn:E; [|done]. apply Index_spec in E as (H1 & H2 & _). rewrite H in H2 by lia. done.
Qed.

Lemma Index_bound sep l i : Index sep l = Some i -> 0 <= i /\ i + len sep <= len l.
Proof.
  intros (H1 & H2 & _)%Index_spec. apply is_prefix_len in H2. len_lia.
Qed.

(** A find stays where it is when more bytes arrive. *)
Lemma Index_app sep l x i : Index sep l = Some i -> Index sep (l ++ x) = Some i.
Proof.
  intros Hi. pose proof (Index_bound _ _ _ Hi) as [B1 B2]. apply Index_spec in Hi as (H1 & H2 & H3). apply Index_spec.
  pose proof (len_nonneg sep). split; [len_lia|]. rewrite drop_app_le by (unfold len in *; lia). split; [by apply is_prefix_app|].
  intros j Hj. rewrite drop_app_le by (unfold len in *; lia). rewrite is_prefix_app_inv by len_lia. by apply H3.
Qed.

(** What was not there is found at the end of what had arrived, at the earliest. *)
Lemma Index_later sep l x i : Index sep l = None -> Index sep (l ++ x) = Some i -> len l < i + len sep.
Proof.
  intros Hn Hi. destruct (Z.le_gt_cases (i + len sep) (len l)) as [Hle|]; [|lia]. exfalso.
  apply Index_spec in Hi as (H1 & H2 & _). pose proof (len_nonneg sep).
  rewrite drop_app_le in H2 by (unfold len in *; lia). rewrite is_prefix_app_inv in H2 by len_lia.
  rewrite (proj1 (Index_None sep l) Hn) in H2 by lia. done.
Qed.

(** Searching on from where an earlier search gave up. *)
Lemma Index_from sep l k :
  0 <= k <= len l -> (forall j, 0 <= j < k -> is_prefix sep (drop (Z.to_nat j) l) = false) ->
  Index sep l = option_map (Z.add k) (Index sep (drop (Z.to_nat k) l)).
Proof.
  intros Hk Hb. assert (Hd : forall j, 0 <= j -> drop (Z.to_nat j) (drop (Z.to_nat k) l) = drop (Z.to_nat (k + j)) l)
    by (intros j Hj; rewrite drop_drop; f_equal; lia).
  destruct (Index sep (drop (Z.to_nat k) l)) as [i|] eqn:E; cbn [option_map].
  - apply Index_spec in E as (H1 & H2 & H3). rewrite Hd in H2 by lia. apply Index_spec. split; [len_lia|]. split; [done|].
    intros j Hj. destruct (Z.lt_ge_cases j k) as [Hlt|Hge]; [apply Hb; lia|]. specialize (H3 (j - k) ltac:(lia)). rewrite Hd in H3 by lia.
    by replace (k + (j - k)) with j in H3 by lia.
  - apply Index_None. intros j Hj. destruct (Z.lt_ge_cases j k) as [Hlt|Hge]; [apply Hb; lia|].
    rewrite Index_None in E. specialize (E (j - k) ltac:(len_lia)). rewrite Hd in E by lia. by replace (k + (j - k)) with j in E by lia.
Qed.

(** A search passes over bytes that do not start what it looks for. *)
Lemma Index_skip x sep a l : Forall (fun y => y <> x) a -> Index (x :: sep) (a ++ l) = option_map (Z.add (len a)) (Index (x :: sep) l).
Proof.
  induction 1 as [|y a Hy Ha IH]; [cbn [app]; change (len (@nil Z)) with 0; by destruct (Index _ l)|].
  cbn [app Index is_prefix]. destruct (Z.eqb_spec x y); [congruence|]. cbn [andb]. rewrite IH. destruct (Index (x :: sep) l); [|done].
  cbn [option_map]. f_equal. rewrite len_cons. lia.
Qed.

Lemma Index_skip_None x sep a : Forall (fun y => y <> x) a -> Index (x :: sep) a = None.
Proof. intros H. rewrite <- (app_nil_r a), Index_skip by done. done. Qed.

(** * Hexadecimal *)

Definition hex_digit (c : Z) : bool := ((48 <=? c) && (c <=? 57)) || ((97 <=? c) && (c <=? 102)).

Lemma digits_app base v a b : digits base v (a ++ b) = match digits base v a with Some v => digits base v b | None => None end.
Proof.
  revert v. induction a as [|c a IH]; intros v; [done|]. cbn [app digits]. destruct (digit c) as [d|]; [|done]. by destruct (d <? base).
Qed.

Lemma int_digits_spec b f n acc : 2 <= b <= 16 -> 0 <= n < b ^ Z.of_nat f -> (0 < f)%nat ->
  exists ds, int_digits f b n acc = ds ++ acc /\ ds <> [] /\ Forall (fun c => hex_digit c = true) ds /\ digits b 0 ds = Some n.
Proof.
  intros Hb. revert n acc. induction f as [|f IH]; intros n acc Hn Hf; [lia|]. cbn [int_digits]. set (c := if n mod b <? 10 then 48 + n mod b else 87 + n mod b).
  pose proof (Z.mod_pos_bound n b ltac:(lia)) as Hm. pose proof (Z.div_mod n b ltac:(lia)) as Hdm.
  assert (Hc : hex_digit c = true /\ digit c = Some (n mod b)).
  { assert (H : forallb (fun d => let c := if d <? 10 then 48 + d else 87 + d in hex_digit c && bool_decide (digit c = Some d)) (seqZ 0 16) = true) by (vm_compute; done).
    rewrite forallb_forall in H. specialize (H (n mod b)). rewrite <- list_elem_of_In, elem_of_seqZ in H. specialize (H ltac:(lia)).
    apply andb_true_iff in H as [H1 H2]. split; [exact H1|]. by apply bool_decide_eq_true in H2. }
  destruct Hc as [Hc1 Hc2]. destruct (Z.eqb_spec (n / b) 0) as [E|E].
  - exists [c]. split; [done|]. split; [done|]. split; [by constructor|]. cbn [digits]. rewrite Hc2. destruct (Z.ltb_spec (n mod b) b); [|lia]. f_equal. rewrite E in Hdm. lia.
  - assert (Hq : 0 <= n / b < b ^ Z.of_nat f).
    { split; [apply Z.div_pos; lia|]. apply Z.div_lt_upper_bound; [lia|]. rewrite Nat2Z.inj_succ, Z.pow_succ_r in Hn by lia. lia. }
    assert (0 < f)%nat by (destruct f; [change (b ^ Z.of_nat 0) with 1 in Hq; lia|lia]).
    destruct (IH (n / b) (c :: acc) Hq ltac:(done)) as (ds & -> & Hne & Hh & Hd). exists (ds ++ [c]). split; [by rewrite <- app_assoc|].
    split; [by destruct ds|]. split; [apply Forall_app; split; [done|by constructor]|]. rewrite digits_app, Hd. cbn [digits]. rewrite Hc2.
    destruct (Z.ltb_spec (n mod b) b); [|lia]. f_equal. lia.
Qed.

Lemma FormatInt_base b n : 2 <= b <= 16 -> 0 <= n < 2 ^ 63 ->
  FormatInt n b <> [] /\ Forall (fun c => hex_digit c = true) (FormatInt n b) /\ ParseUint (FormatInt n b) b 63 = Some n.
Proof.
  intros Hb Hn. unfold FormatInt. destruct (int_digits_spec b 64 n []) as (ds & -> & Hne & Hh & Hd); [done| |lia|].
  { split; [lia|]. pose proof (Z.pow_le_mono_l 2 b (Z.of_nat 64) ltac:(lia)). change (2 ^ Z.of_nat 64) with (2 * 2 ^ 63) in *. lia. }
  rewrite app_nil_r. split; [done|]. split; [done|]. unfold ParseUint. destruct ds as [|d ds]; [done|]. rewrite Hd. destruct (Z.ltb_spec n (2 ^ 63)); [done|lia].
Qed.

Lemma FormatInt_hex n : 0 <= n < 2 ^ 63 ->
  FormatInt n 16 <> [] /\ Forall (fun c => hex_digit c = true) (FormatInt n 16) /\ ParseUint (FormatInt n 16) 16 63 = Some n.
Proof. by apply FormatInt_base. Qed.

(** A decimal number is read back. *)
Lemma ParseInt_FormatInt n : 0 <= n < 2 ^ 63 -> ParseInt (FormatInt n 10) 10 = Some n /\ FormatInt n 10 <> [] /\ Forall (fun c => hex_digit c = true) (FormatInt n 10).
Proof.
  intros Hn. destruct (FormatInt_base 10 n ltac:(lia) Hn) as (H1 & H2 & H3). split; [|done]. destruct (FormatInt n 10) as [|c l]; [done|]. apply Forall_cons in H2 as [Hc _].
  assert (c <> 43 /\ c <> 45) as [Hp Hm] by (unfold hex_digit in Hc; split; intros ->; done). unfold ParseInt. repeat (case_match; try done).
Qed.

Lemma hex_not_space c l spaces : hex_digit c = true -> forallb (fun s => match s with x :: _ => negb (hex_digit x) | [] => false end) spaces = true ->
  List.find (fun s => is_prefix s (c :: l)) spaces = None.
Proof.
  intros Hc. induction spaces as [|s spaces IH]; [done|]. cbn [forallb List.find]. intros [H1 H2]%andb_true_iff. destruct s as [|x s]; [done|].
  cbn [is_prefix]. destruct (Z.eqb_spec x c) as [->|]; [by rewrite Hc in H1|]. by apply IH.
Qed.

Lemma trim_hex c l spaces f : hex_digit c = true -> forallb (fun s => match s with x :: _ => negb (hex_digit x) | [] => false end) spaces = true ->
  trim_loop f spaces (c :: l) = c :: l.
Proof. intros Hc Hs. destruct f as [|f]; [done|]. cbn [trim_loop]. by rewrite hex_not_space. Qed.

Lemma TrimSpace_hex l : Forall (fun c => hex_digit c = true) l -> TrimSpace l = l.
Proof.
  intros H. unfold TrimSpace. destruct l as [|c l]; [done|]. rewrite trim_hex; [|by inversion H|by vm_compute].
  assert (Hr : Forall (fun c => hex_digit c = true) (reverse (c :: l))) by (by apply Forall_reverse).
  destruct (reverse (c :: l)) as [|x r] eqn:E; [by apply (f_equal length) in E; rewrite length_reverse in E|].
  rewrite trim_hex; [|by inversion Hr|by vm_compute]. by rewrite <- E, reverse_involutive.
Qed.
