(* ===== verification/HttpParser.v ===== *)
(** The HTTP/1 request parser (src/go/http/parser.go): framing requests in a
    stream of reads.

    net/http reads a header and decodes a chunked body; it is a parameter here,
    [ReadRequest] and [ReadChunked], of which nothing is assumed but that its
    answer depends on the bytes it is given.  A [Request] is what the parser
    looks at of net/http's, and [other] the rest.  An error carries no text.
    Arrays that are recycled have no contents of their own and are left out, as
    are the fields the server handler keeps in the parser. *)
From Stdlib Require Import String.
From S2P Require Import Prelude.
From S2P Require Import HpackTables.
From S2P Require Import GoText.

(** [Panic] is the run-time panic of a slice out of range. *)
Inductive http_error := ErrHeaderTooLarge | ErrBodyTooLarge | ErrMalformed | ErrUnsupportedTransferEncoding | Panic.

(** What a scan of the bytes so far comes to. *)
Inductive scan (E A : Type) := More | Fail (e : E) | Found (a : A).
Arguments More {E A}.
Arguments Fail {E A} e.
Arguments Found {E A} a.

(** What depends on a slice: [None] is its panic. *)
Definition sliced {A B} (o : option A) (f : A -> scan http_error B) : scan http_error B := match o with Some a => f a | None => Fail Panic end.

(** * Chunked bodies *)

(** A round consumes two bytes at least, so the length of the data is fuel enough. *)
Fixpoint chunked_loop (fuel : nat) (data : bytes) (offset decoded maxTrailer maxBody : Z) : scan http_error Z :=
  match fuel with
  | O => More
  | S fuel =>
      sliced (slice_from data offset) (fun rest =>
      match Index crlf rest with
      | None => More
      | Some lineEnd =>
          sliced (slice data offset (offset + lineEnd)) (fun line =>
          let line := match IndexByte 59 line with Some semicolon => take (Z.to_nat semicolon) line | None => line end in
          match ParseUint (TrimSpace line) 16 63 with
          | None => Fail ErrMalformed
          | Some size =>
              let offset := offset + (lineEnd + 2) in
              if size =? 0 then
                sliced (slice_from data offset) (fun rest =>
                sliced (if 2 <=? len rest then let? b := slice data offset (offset + 2) in Some (bool_decide (b = crlf)) else Some false) (fun last =>
                if last : bool then Found (offset + 2)
                else
                  match Index crlf2 rest with
                  | Some trailerEnd => if maxTrailer <? trailerEnd + 4 then Fail ErrHeaderTooLarge else Found (offset + trailerEnd + 4)
                  | None => if maxTrailer <? len data - offset then Fail ErrHeaderTooLarge else More
                  end))
              else if u64 (maxBody - decoded) <? size then Fail ErrBodyTooLarge
              else if len data - offset <? size then More
              else
                let chunkEnd := offset + size in
                if len data <? chunkEnd + 2 then More
                else
                  sliced (slice data chunkEnd (chunkEnd + 2)) (fun b =>
                  if negb (bool_decide (b = crlf)) then Fail ErrMalformed
                  else chunked_loop fuel data (chunkEnd + 2) (u64 (decoded + size)) maxTrailer maxBody)
          end)
      end)
  end.

Definition chunkedEnd (data : bytes) (offset maxTrailer maxBody : Z) : scan http_error Z :=
  chunked_loop (S (length data)) data offset 0 maxTrailer maxBody.

(** Whether a raw header block has a field, whose name is in lower case. *)
Definition hasHeaderField (header name : bytes) : bool :=
  existsb (fun line =>
    (len name <? len line) && bool_decide (at_ line (len name) = Some 58) && EqualFold (take (length name) line) name)
    (SplitByte 10 header).

(** * The parser *)

Section parser.
Context {R : Type}.

Record Request := MkRequest {
  Method : bytes;
  Host : bytes;
  proto11 : bool;                     (* ProtoAtLeast(1, 1) *)
  TransferEncoding : list bytes;
  ContentLength : Z;
  Hosts : option (list bytes);        (* Header["Host"] *)
  Expects : option (list bytes);      (* Header["Expect"] *)
  Close : bool;
  Body : bytes;
  other : R;
}.

(** [Header.Get("Expect")]. *)
Definition Expect (r : Request) : bytes := match Expects r with Some (v :: _) => v | _ => [] end.

(** The error's text, or the request with no body. *)
Context (ReadRequest : bytes -> result bytes Request).
(** A whole chunked message, its body read up to a number of bytes, and whether
    reading failed. *)
Context (ReadChunked : bytes -> Z -> option (Request * bytes * bool)).

Record Config := MkConfig { MaxHeaderBytes : Z; MaxBodyBytes : Z }.

Definition DefaultConfig : Config := MkConfig (Z.shiftl 1 20) (Z.shiftl 16 20).

Record Parser := MkParser {
  config : Config;
  buffer : bytes;
  headerScan : Z;
  wantContinue : bool;
  continued : bool;
}.

Definition NewParser (c : Config) : Parser :=
  MkParser (MkConfig (if MaxHeaderBytes c <=? 0 then MaxHeaderBytes DefaultConfig else MaxHeaderBytes c)
                     (if MaxBodyBytes c <=? 0 then MaxBodyBytes DefaultConfig else MaxBodyBytes c)) [] 0 false false.

Definition Reset (p : Parser) : Parser := MkParser (config p) [] 0 false false.

Definition TakeBuffered (p : Parser) : bytes * Parser := (buffer p, MkParser (config p) [] 0 false false).

Definition consume (n : Z) (p : Parser) : option Parser :=
  let? rest := if n =? len (buffer p) then Some [] else slice_from (buffer p) n in
  Some (MkParser (config p) rest 0 (wantContinue p) false).

Record frameInfo := FrameInfo { end_ : Z; headerEnd : Z; chunked : bool; request : Request }.

Definition with_close (b : bool) (r : Request) : Request :=
  MkRequest (Method r) (Host r) (proto11 r) (TransferEncoding r) (ContentLength r) (Hosts r) (Expects r) (Close r || b) (Body r) (other r).
Definition with_body (b : bytes) (r : Request) : Request :=
  MkRequest (Method r) (Host r) (proto11 r) (TransferEncoding r) (ContentLength r) (Hosts r) (Expects r) (Close r) b (other r).
Definition with_scan (n : Z) (p : Parser) : Parser := MkParser (config p) (buffer p) n (wantContinue p) (continued p).

Definition expectContinue (r : Request) (p : Parser) : Parser :=
  if negb (continued p) && proto11 r && EqualFold (Expect r) (str "100-continue")
  then MkParser (config p) (buffer p) (headerScan p) true true else p.

(** The body of the request whose header is [buffer[:headerEnd]]. *)
Definition frame_body (e : Z) (p : Parser) : scan http_error frameInfo * Parser :=
  let c := config p in
  match slice (buffer p) 0 e with None => (Fail Panic, p) | Some header =>
  match ReadRequest header with
  | Err text =>
      (Fail (if Contains text (str "unsupported transfer encoding") then ErrUnsupportedTransferEncoding else ErrMalformed), p)
  | Ok req =>
      if negb (proto11 req) && hasHeaderField header (str "transfer-encoding") then (Fail ErrMalformed, p)
      else
        match TransferEncoding req with
        | coding :: more =>
            if negb (len more =? 0) || negb (EqualFold coding (str "chunked")) then (Fail ErrUnsupportedTransferEncoding, p)
            else
              let req := with_close (hasHeaderField header (str "content-length")) req in
              match chunkedEnd (buffer p) e (MaxHeaderBytes c) (MaxBodyBytes c) with
              | Fail err => (Fail err, p)
              | More => (More, expectContinue req p)
              | Found end_ =>
                  if i64 (MaxBodyBytes c + MaxHeaderBytes c) <? end_ - e then (Fail ErrBodyTooLarge, p)
                  else (Found (FrameInfo end_ e true req), p)
              end
        | [] =>
            if ContentLength req <? 0 then (Found (FrameInfo e e false req), p)
            else if MaxBodyBytes c <? ContentLength req then (Fail ErrBodyTooLarge, p)
            else
              let end64 := i64 (e + ContentLength req) in
              if len (buffer p) <? end64 then (More, expectContinue req p)
              else (Found (FrameInfo end64 e false req), p)
        end
  end end.

Definition frameLength (p : Parser) : scan http_error frameInfo * Parser :=
  let c := config p in
  match slice_from (buffer p) (headerScan p) with
  | None => (Fail Panic, p)
  | Some tail =>
      match Index crlf2 tail with
      | None =>
          if MaxHeaderBytes c <? len (buffer p) then (Fail ErrHeaderTooLarge, p)
          else (More, with_scan (Z.max (len (buffer p) - 3) 0) p)
      | Some headerAt =>
          let e := headerAt + headerScan p + 4 in
          if MaxHeaderBytes c <? e then (Fail ErrHeaderTooLarge, p) else frame_body e p
      end
  end.

(** The request of a complete frame, given its body. *)
Definition frame_request (c : Config) (b : bytes) (f : frameInfo) : result http_error Request :=
  if chunked f then
    match slice b 0 (end_ f) with None => Err Panic | Some frame =>
    match ReadChunked frame (i64 (MaxBodyBytes c + 1)) with
    | None => Err ErrMalformed
    | Some (req, body, failed) =>
        if MaxBodyBytes c <? len body then Err ErrBodyTooLarge
        else if failed then Err ErrMalformed
        else Ok (with_body body (with_close (Close (request f)) req))
    end end
  else if 0 <? ContentLength (request f) then
    match slice b (headerEnd f) (end_ f) with
    | Some body => Ok (with_body body (request f))
    | None => Err Panic
    end
  else Ok (request f).

Definition FeedOne (data : bytes) (p : Parser) : scan http_error Request * Parser :=
  let p := MkParser (config p) (buffer p ++ data) (headerScan p) (wantContinue p) (continued p) in
  let '(frame, p) := frameLength p in
  match frame with
  | Fail e => (Fail e, MkParser (config p) [] 0 (wantContinue p) (continued p))
  | More => (More, p)
  | Found f =>
      match frame_request (config p) (buffer p) f with
      | Err e => (Fail e, MkParser (config p) [] (headerScan p) (wantContinue p) (continued p))
      | Ok req => match consume (end_ f) p with Some p => (Found req, p) | None => (Fail Panic, p) end
      end
  end.

(** Requests are at least four bytes long, so the length of the bytes is fuel enough. *)
Fixpoint Feed_loop (fuel : nat) (data : bytes) (p : Parser) : list Request * option http_error * Parser :=
  match fuel with
  | O => ([], None, p)
  | S fuel =>
      match FeedOne data p with
      | (Fail e, p) => ([], Some e, p)
      | (More, p) => ([], None, p)
      | (Found req, p) =>
          if len (buffer p) =? 0 then ([req], None, p)
          else let '(reqs, e, p) := Feed_loop fuel [] p in (req :: reqs, e, p)
      end
  end.

Definition Feed (data : bytes) (p : Parser) : list Request * option http_error * Parser :=
  Feed_loop (S (length (buffer p) + length data)) data p.

(** A connection's reads, until one fails. *)
Fixpoint feed_all (reads : list bytes) (p : Parser) : list Request * option http_error * Parser :=
  match reads with
  | [] => ([], None, p)
  | data :: reads =>
      let '(reqs, e, p) := Feed data p in
      match e with
      | Some _ => (reqs, e, p)
      | None => let '(reqs', e', p') := feed_all reads p in (reqs ++ reqs', e', p')
      end
  end.
End parser.

(** * Chunked framing does not change as bytes arrive *)

(** The same on the bytes that are left: [rest] is [data[offset:]]. *)
Fixpoint chunk_scan (fuel : nat) (rest : bytes) (offset decoded maxTrailer maxBody : Z) : scan http_error Z :=
  match fuel with
  | O => More
  | S fuel =>
      match Index crlf rest with
      | None => More
      | Some lineEnd =>
          let line := take (Z.to_nat lineEnd) rest in
          let line := match IndexByte 59 line with Some semicolon => take (Z.to_nat semicolon) line | None => line end in
          match ParseUint (TrimSpace line) 16 63 with
          | None => Fail ErrMalformed
          | Some size =>
              let rest := drop (Z.to_nat (lineEnd + 2)) rest in
              let offset := offset + lineEnd + 2 in
              if size =? 0 then
                if is_prefix crlf rest then Found (offset + 2)
                else
                  match Index crlf2 rest with
                  | Some trailerEnd =>
                      if maxTrailer <? trailerEnd + 4 then Fail ErrHeaderTooLarge else Found (offset + trailerEnd + 4)
                  | None => if maxTrailer <? len rest then Fail ErrHeaderTooLarge else More
                  end
              else if u64 (maxBody - decoded) <? size then Fail ErrBodyTooLarge
              else if len rest <? size then More
              else if len rest <? size + 2 then More
              else if negb (is_prefix crlf (drop (Z.to_nat size) rest)) then Fail ErrMalformed
              else chunk_scan fuel (drop (Z.to_nat (size + 2)) rest) (offset + size + 2) (u64 (decoded + size)) maxTrailer maxBody
          end
      end
  end.

Lemma chunked_step_shorter (rest : bytes) lineEnd size :
  Index crlf rest = Some lineEnd -> 0 <= size -> size + 2 <= len (drop (Z.to_nat (lineEnd + 2)) rest) ->
  (length (drop (Z.to_nat (size + 2)) (drop (Z.to_nat (lineEnd + 2)) rest)) < length rest)%nat.
Proof.
  intros [H1 H2]%Index_bound Hs Hl. change (len crlf) with 2 in H2. rewrite drop_drop, length_drop. rewrite len_drop in Hl. unfold len in *. lia.
Qed.

Lemma digits_nonneg base v s r : 0 <= base -> 0 <= v -> digits base v s = Some r -> 0 <= r.
Proof.
  intros Hb. revert v. induction s as [|c s IH]; intros v Hv H; cbn in H; [by injection H as <-|].
  destruct (digit c) as [d|] eqn:Ed; [|done]. destruct (d <? base); [|done]. apply (IH (v * base + d)); [|done].
  assert (0 <= d); [|nia]. unfold digit in Ed. destruct (_ && _) eqn:E1; [injection Ed as <-; lia|].
  cbn zeta in Ed. destruct ((97 <=? lower c) && (lower c <=? 122)) eqn:E2; [|done]. injection Ed as <-. lia.
Qed.

Lemma ParseUint_nonneg s bits v : ParseUint s 16 bits = Some v -> 0 <= v.
Proof.
  unfold ParseUint. destruct s; [done|]. destruct (digits 16 0 (z :: s)) as [r|] eqn:E; [|done]. destruct (_ <? _); [|done]. intros [= <-].
  eapply digits_nonneg, E; lia.
Qed.

Lemma chunked_fuel f f' rest off dec mt mb :
  (length rest < f)%nat -> (length rest < f')%nat -> chunk_scan f rest off dec mt mb = chunk_scan f' rest off dec mt mb.
Proof.
  revert f' rest off dec. induction f as [|f IH]; intros f' rest off dec Hf Hf'; [lia|]. destruct f' as [|f']; [lia|]. cbn [chunk_scan].
  destruct (Index crlf rest) as [le|] eqn:Ei; [|done]. destruct (ParseUint _ 16 63) as [size|] eqn:Ep; [|done].
  destruct (size =? 0); [done|]. destruct (_ <? size); [done|]. destruct (_ <? size); [done|]. destruct (Z.ltb_spec (len (drop (Z.to_nat (le + 2)) rest)) (size + 2)); [done|].
  destruct (negb _); [done|]. pose proof (chunked_step_shorter rest le size Ei (ParseUint_nonneg _ _ _ Ep) ltac:(lia)).
  apply IH; lia.
Qed.

(** What the scan says of some bytes it says of any that start with them. *)
Definition settled {E A} (a b : scan E A) : Prop := match a with More => True | _ => b = a end.

Lemma drop_app_len (n : Z) (l x : bytes) : n <= len l -> drop (Z.to_nat n) (l ++ x) = drop (Z.to_nat n) l ++ x.
Proof. intros H. apply drop_app_le. unfold len in H. lia. Qed.

Lemma chunked_app f f' rest x off dec mt mb :
  1 <= mt -> (length rest < f)%nat -> (length (rest ++ x) < f')%nat ->
  settled (chunk_scan f rest off dec mt mb) (chunk_scan f' (rest ++ x) off dec mt mb).
Proof.
  intros Hmt. revert f' rest off dec. induction f as [|f IH]; intros f' rest off dec Hf Hf'; [lia|]. destruct f' as [|f']; [lia|]. cbn [chunk_scan].
  destruct (Index crlf rest) as [le|] eqn:Ei; [|done]. rewrite (Index_app _ _ x _ Ei). destruct (Index_bound _ _ _ Ei) as [B1 B2].
  change (len crlf) with 2 in B2. rewrite take_app_le by (unfold len in *; lia). destruct (ParseUint _ 16 63) as [size|] eqn:Ep; [|done].
  pose proof (ParseUint_nonneg _ _ _ Ep) as Hsz. rewrite drop_app_len by lia. set (r := drop (Z.to_nat (le + 2)) rest) in *.
  destruct (size =? 0).
  - destruct (is_prefix crlf r) eqn:E1; [by rewrite is_prefix_app|].
    destruct (Index crlf2 r) as [t|] eqn:E2.
    + destruct (Index_bound _ _ _ E2) as [C1 C2]. change (len crlf2) with 4 in C2.
      rewrite is_prefix_app_inv, E1, (Index_app _ _ x _ E2) by (change (len crlf) with 2; lia). by destruct (_ <? _).
    + destruct (Z.ltb_spec mt (len r)); [|done]. unfold settled. rewrite is_prefix_app_inv, E1 by (change (len crlf) with 2; lia).
      destruct (Index crlf2 (r ++ x)) as [t|] eqn:E3.
      * pose proof (Index_later _ _ _ _ E2 E3) as Hlat. change (len crlf2) with 4 in Hlat. destruct (Z.ltb_spec mt (t + 4)); [done|lia].
      * destruct (Z.ltb_spec mt (len (r ++ x))); [done|len_lia].
  - destruct (_ <? size); [done|]. destruct (Z.ltb_spec (len r) size); [done|]. destruct (Z.ltb_spec (len (r ++ x)) size); [len_lia|].
    destruct (Z.ltb_spec (len r) (size + 2)); [done|]. destruct (Z.ltb_spec (len (r ++ x)) (size + 2)); [len_lia|].
    rewrite !drop_app_len by lia. assert (2 <= len (drop (Z.to_nat size) r)) by len_lia.
    rewrite is_prefix_app_inv by (change (len crlf) with 2; lia). destruct (negb _); [done|].
    pose proof (chunked_step_shorter rest le size Ei Hsz ltac:(fold r; lia)) as Hlt. fold r in Hlt. rewrite length_app in Hf'.
    apply IH; rewrite ?length_app; lia.
Qed.

Lemma chunked_bound f rest off dec mt mb e : chunk_scan f rest off dec mt mb = Found e -> off < e <= off + len rest.
Proof.
  revert rest off dec. induction f as [|f IH]; intros rest off dec; cbn [chunk_scan]; [done|].
  destruct (Index crlf rest) as [le|] eqn:Ei; [|done]. destruct (Index_bound _ _ _ Ei) as [B1 B2]. change (len crlf) with 2 in B2.
  destruct (ParseUint _ 16 63) as [size|] eqn:Ep; [|done]. pose proof (ParseUint_nonneg _ _ _ Ep) as Hsz.
  set (r := drop (Z.to_nat (le + 2)) rest) in *. assert (Hr : len r = len rest - le - 2) by (unfold r; len_lia).
  destruct (size =? 0).
  - destruct (is_prefix crlf r) eqn:E1; [intros [= <-]; apply is_prefix_len in E1; change (len crlf) with 2 in E1; lia|].
    destruct (Index crlf2 r) as [t|] eqn:E2; [|by destruct (_ <? _)]. destruct (Index_bound _ _ _ E2) as [C1 C2]. change (len crlf2) with 4 in C2.
    destruct (_ <? _); [done|]. intros [= <-]. lia.
  - destruct (_ <? size); [done|]. destruct (_ <? size); [done|]. destruct (Z.ltb_spec (len r) (size + 2)); [done|]. destruct (negb _); [done|].
    intros He%IH. assert (len (drop (Z.to_nat (size + 2)) r) = len r - size - 2) by len_lia. lia.
Qed.

(** The rounds agree while the offset is in range, so no slice panics. *)
Lemma two_bytes (rest : bytes) : (if 2 <=? len rest then Some (bool_decide (take 2 rest = crlf)) else Some false) = Some (is_prefix crlf rest).
Proof.
  destruct rest as [|a [|b rest]]; [done|change (is_prefix crlf [a]) with ((13 =? a) && false); by rewrite andb_false_r|].
  destruct (Z.leb_spec 2 (len (a :: b :: rest))) as [|H]; [|len_lia]. f_equal. change (take 2 (a :: b :: rest)) with [a; b].
  change (is_prefix crlf (a :: b :: rest)) with ((13 =? a) && ((10 =? b) && true)). rewrite andb_true_r.
  destruct (Z.eqb_spec 13 a), (Z.eqb_spec 10 b); subst; apply bool_decide_eq_true_2 || apply bool_decide_eq_false_2; unfold crlf; congruence.
Qed.

Lemma slice_drop (data : bytes) o n : 0 <= o -> 0 <= n -> o + n <= len data -> slice data o (o + n) = Some (take (Z.to_nat n) (drop (Z.to_nat o) data)).
Proof. intros. rewrite slice_Some by lia. by replace (o + n - o) with n by lia. Qed.

Lemma chunked_loop_scan f data off dec mt mb : 0 <= off <= len data -> chunked_loop f data off dec mt mb = chunk_scan f (drop (Z.to_nat off) data) off dec mt mb.
Proof.
  revert off dec. induction f as [|f IH]; intros off dec Ho; [done|]. cbn [chunked_loop chunk_scan]. rewrite slice_from_Some by lia. cbn [sliced]. set (rest := drop (Z.to_nat off) data).
  assert (Hr : len rest = len data - off) by (unfold rest; rewrite len_drop; lia).
  destruct (Index crlf rest) as [le|] eqn:Ei; [|done]. destruct (Index_bound _ _ _ Ei) as [B1 B2]. change (len crlf) with 2 in B2.
  rewrite slice_drop by lia. fold rest. cbn [sliced]. destruct (ParseUint _ 16 63) as [size|] eqn:Ep; [|done]. pose proof (ParseUint_nonneg _ _ _ Ep) as Hsz.
  assert (Ed : drop (Z.to_nat (off + (le + 2))) data = drop (Z.to_nat (le + 2)) rest) by (unfold rest; rewrite drop_drop; f_equal; lia).
  replace (off + le + 2) with (off + (le + 2)) by lia. rewrite slice_from_Some, Ed by lia. cbn [sliced]. set (r := drop (Z.to_nat (le + 2)) rest).
  assert (Hl : len r = len data - (off + (le + 2))) by (unfold r; rewrite len_drop; lia). destruct (size =? 0).
  - replace (if 2 <=? len r then let? b := slice data (off + (le + 2)) (off + (le + 2) + 2) in Some (bool_decide (b = crlf)) else Some false) with (Some (is_prefix crlf r)).
    + cbn [sliced]. by rewrite Hl.
    + rewrite <- two_bytes. destruct (Z.leb_spec 2 (len r)); [|done]. by rewrite slice_drop, Ed by lia.
  - destruct (_ <? size); [done|]. rewrite <- Hl. destruct (Z.ltb_spec (len r) size); [done|]. rewrite Hl.
    destruct (Z.ltb_spec (len data) (off + (le + 2) + size + 2)), (Z.ltb_spec (len data - (off + (le + 2))) (size + 2)); try lia; [done|].
    assert (Ed2 : drop (Z.to_nat (off + (le + 2) + size)) data = drop (Z.to_nat size) r) by (unfold r, rest; rewrite !drop_drop; f_equal; lia).
    rewrite slice_drop, Ed2 by lia. cbn [sliced].
    assert (Hp : bool_decide (take (Z.to_nat 2) (drop (Z.to_nat size) r) = crlf) = is_prefix crlf (drop (Z.to_nat size) r)).
    { assert (2 <= len (drop (Z.to_nat size) r)) by (rewrite len_drop; lia). pose proof (two_bytes (drop (Z.to_nat size) r)) as E. destruct (Z.leb_spec 2 (len (drop (Z.to_nat size) r))); [|lia]. by injection E. }
    rewrite Hp. destruct (negb _); [done|]. rewrite IH by lia. f_equal. unfold r, rest. rewrite !drop_drop. f_equal. lia.
Qed.

Lemma chunkedEnd_scan data off mt mb : 0 <= off <= len data -> chunkedEnd data off mt mb = chunk_scan (S (length data)) (drop (Z.to_nat off) data) off 0 mt mb.
Proof. apply chunked_loop_scan. Qed.

Lemma chunkedEnd_app data x off mt mb : 1 <= mt -> 0 <= off <= len data -> settled (chunkedEnd data off mt mb) (chunkedEnd (data ++ x) off mt mb).
Proof. intros Hm Ho. rewrite !chunkedEnd_scan by len_lia. rewrite drop_app_len by lia. apply chunked_app; [done|rewrite length_drop; lia|rewrite !length_app, length_drop; lia]. Qed.

Lemma chunkedEnd_bound data off mt mb e : 0 <= off <= len data -> chunkedEnd data off mt mb = Found e -> off < e <= len data.
Proof. intros Ho. rewrite chunkedEnd_scan by done. intros H%chunked_bound. rewrite len_drop in H. lia. Qed.

(** * One request off the front of the stream *)

Section stream.
Context {R : Type} (ReadRequest : bytes -> result bytes (@Request R)) (ReadChunked : bytes -> Z -> option (@Request R * bytes * bool)).

Abbreviation frame_body := (frame_body ReadRequest).
Abbreviation frameLength := (frameLength ReadRequest).
Abbreviation FeedOne := (FeedOne ReadRequest ReadChunked).
Abbreviation Feed := (Feed ReadRequest ReadChunked).
Abbreviation Feed_loop := (Feed_loop ReadRequest ReadChunked).
Abbreviation feed_all := (feed_all ReadRequest ReadChunked).
Implicit Types p : Parser.

Definition fresh (c : Config) (b : bytes) : Parser := MkParser c b 0 false false.

(** What the parser makes of bytes it sees all at once: the first request and
    its length. *)
Definition first_request (c : Config) (b : bytes) : scan http_error (Request * Z) :=
  match Index crlf2 b with
  | None => if MaxHeaderBytes c <? len b then Fail ErrHeaderTooLarge else More
  | Some at_ =>
      if MaxHeaderBytes c <? at_ + 4 then Fail ErrHeaderTooLarge
      else
        match fst (frame_body (at_ + 4) (fresh c b)) with
        | More => More
        | Fail e => Fail e
        | Found f => match frame_request ReadChunked c b f with Err e => Fail e | Ok r => Found (r, end_ f) end
        end
  end.

(** The flags do not matter to framing, and framing only sets flags. *)
Definition same_bytes (p q : Parser) : Prop := config p = config q /\ buffer p = buffer q /\ headerScan p = headerScan q.

Lemma expectContinue_same r p : same_bytes (@expectContinue R r p) p.
Proof. unfold expectContinue. by destruct (_ && _). Qed.

Lemma frame_body_same e p :
  fst (frame_body e p) = fst (frame_body e (fresh (config p) (buffer p))) /\ same_bytes (snd (frame_body e p)) p.
Proof.
  unfold HttpParser.frame_body. cbn [config buffer fresh]. destruct (slice _ _ _) as [header|]; [|done]. destruct (ReadRequest header) as [req|text]; [|done].
  destruct (_ && _); [done|]. destruct (TransferEncoding req) as [|coding more].
  - destruct (_ <? _); [done|]. destruct (_ <? _); [done|]. cbn zeta. destruct (_ <? _); [split; [done|apply expectContinue_same]|done].
  - destruct (_ || _); [done|]. destruct (chunkedEnd _ _ _ _); [split; [done|apply expectContinue_same]|done|by destruct (_ <? _)].
Qed.

(** The limits are values of Go's types. *)
Definition in_int64 (c : Config) : Prop := MaxHeaderBytes c < 2 ^ 63 /\ MaxBodyBytes c < 2 ^ 63.

(** The end of a frame is past what an [int64] holds. *)
Definition wrapped (c : Config) (f : @frameInfo R) : Prop :=
  chunked f = false /\ 0 < ContentLength (request f) /\ end_ f < headerEnd f /\ 2 ^ 63 <= MaxHeaderBytes c + MaxBodyBytes c.

Lemma wrapped_panics c b f : wrapped c f -> frame_request ReadChunked c b f = Err Panic.
Proof.
  intros (H1 & H2 & H3 & _). unfold frame_request. rewrite H1. destruct (Z.ltb_spec 0 (ContentLength (request f))); [|lia].
  destruct (slice b (headerEnd f) (end_ f)) eqn:E; [|done]. apply slice_inv in E. lia.
Qed.

(** A frame lies within the bytes it was found in, and stays when more come. *)
Lemma frame_body_bound e c b f :
  in_int64 c -> 4 <= e <= len b -> e <= MaxHeaderBytes c -> fst (frame_body e (fresh c b)) = Found f -> headerEnd f = e /\ (e <= end_ f <= len b \/ wrapped c f).
Proof.
  intros [C1 C2] He Hm. unfold HttpParser.frame_body. cbn [config buffer fresh]. destruct (slice b 0 e) as [header|]; [|done]. destruct (ReadRequest header) as [req|text]; [|done].
  destruct (_ && _); [done|]. destruct (TransferEncoding req) as [|coding more].
  - destruct (Z.ltb_spec (ContentLength req) 0); [intros [= <-]; cbn; split; [done|left; lia]|]. destruct (Z.ltb_spec (MaxBodyBytes c) (ContentLength req)); [done|]. cbn zeta.
    destruct (Z.ltb_spec (len b) (i64 (e + ContentLength req))); [done|]. intros [= <-]. cbn. split; [done|].
    destruct (Z.lt_ge_cases (e + ContentLength req) (2 ^ 63)); [left; rewrite i64_small in * by lia; lia|right]. unfold wrapped. cbn. rewrite i64_wrapped by lia. lia.
  - destruct (_ || _); [done|]. destruct (chunkedEnd b e _ _) as [|?|z] eqn:E; [done|done|]. apply chunkedEnd_bound in E; [|lia].
    destruct (_ <? _); [done|]. intros [= <-]. cbn. split; [done|left; lia].
Qed.

Lemma slice_app_le {A} (b x : list A) lo hi : hi <= len b -> slice (b ++ x) lo hi = slice b lo hi.
Proof.
  intros He. unfold slice. bdestruct_all; try done; try len_lia. f_equal. rewrite drop_app_le, take_app_le by (rewrite ?length_drop; unfold len in *; lia). done.
Qed.

Lemma frame_body_app e c b x :
  1 <= MaxHeaderBytes c -> 4 <= e <= len b -> settled (fst (frame_body e (fresh c b))) (fst (frame_body e (fresh c (b ++ x)))).
Proof.
  intros Hc He. unfold HttpParser.frame_body. cbn [config buffer fresh]. rewrite slice_app_le by lia. destruct (slice b 0 e) as [header|]; [|done].
  destruct (ReadRequest header) as [req|text]; [|done]. destruct (_ && _); [done|]. destruct (TransferEncoding req) as [|coding more].
  - destruct (_ <? 0); [done|]. destruct (_ <? ContentLength req); [done|]. cbn zeta.
    destruct (Z.ltb_spec (len b) (i64 (e + ContentLength req))); [done|]. destruct (Z.ltb_spec (len (b ++ x)) (i64 (e + ContentLength req))); [len_lia|done].
  - destruct (_ || _); [done|]. pose proof (chunkedEnd_app b x e (MaxHeaderBytes c) (MaxBodyBytes c) Hc ltac:(lia)) as H.
    destruct (chunkedEnd b e _ _); [done|by rewrite H|]. rewrite H. by destruct (_ <? _).
Qed.

Lemma frame_request_app c b x f :
  0 <= headerEnd f <= end_ f -> end_ f <= len b -> frame_request ReadChunked c (b ++ x) f = frame_request ReadChunked c b f.
Proof.
  intros Hh He. unfold frame_request. rewrite slice_app_le by lia.
  destruct (chunked f); [done|]. destruct (_ <? _); [|done]. rewrite !slice_Some by len_lia. do 2 f_equal. rewrite drop_app_len by lia.
  apply take_app_le. unfold len in *. rewrite length_drop. lia.
Qed.

Lemma first_request_app c b x : in_int64 c -> 1 <= MaxHeaderBytes c -> settled (first_request c b) (first_request c (b ++ x)).
Proof.
  intros Hi Hc. unfold first_request. destruct (Index crlf2 b) as [i|] eqn:Ei.
  - rewrite (Index_app _ _ x _ Ei). destruct (Index_bound _ _ _ Ei) as [B1 B2]. change (len crlf2) with 4 in B2. destruct (Z.ltb_spec (MaxHeaderBytes c) (i + 4)); [done|].
    pose proof (frame_body_app (i + 4) c b x Hc ltac:(lia)) as Ha. pose proof (frame_body_bound (i + 4) c b) as Hb.
    destruct (fst (frame_body (i + 4) (fresh c b))) as [|e|f]; [done|by rewrite Ha|]. unfold settled in Ha. rewrite Ha.
    destruct (Hb f Hi ltac:(lia) ltac:(lia) eq_refl) as [B4 [B3|B3]]; [|by rewrite !wrapped_panics].
    rewrite frame_request_app by lia. by destruct (frame_request ReadChunked c b f).
  - destruct (Z.ltb_spec (MaxHeaderBytes c) (len b)); [|done]. cbn [settled]. destruct (Index crlf2 (b ++ x)) as [i|] eqn:E2.
    + pose proof (Index_later _ _ _ _ Ei E2) as Hl. change (len crlf2) with 4 in Hl. destruct (Z.ltb_spec (MaxHeaderBytes c) (i + 4)); [done|lia].
    + destruct (Z.ltb_spec (MaxHeaderBytes c) (len (b ++ x))); [done|len_lia].
Qed.

Lemma first_request_bound c b r n : in_int64 c -> first_request c b = Found (r, n) -> 4 <= n <= len b.
Proof.
  intros Hi. unfold first_request. destruct (Index crlf2 b) as [i|] eqn:Ei; [|by destruct (_ <? _)].
  destruct (Index_bound _ _ _ Ei) as [B1 B2]. change (len crlf2) with 4 in B2. destruct (Z.ltb_spec (MaxHeaderBytes c) (i + 4)); [done|].
  pose proof (frame_body_bound (i + 4) c b) as Hb. destruct (fst (frame_body (i + 4) (fresh c b))) as [|e|f]; [done|done|].
  destruct (Hb f Hi ltac:(lia) ltac:(lia) eq_refl) as [B4 [B3|B3]]; [|by rewrite wrapped_panics]. destruct (frame_request ReadChunked c b f); [|done]. intros [= <- <-]. lia.
Qed.

(** * The parser's state *)

(** No header ends before [headerScan], and none will. *)
Definition scanned p : Prop :=
  headerScan p = 0 \/
  0 <= headerScan p /\ headerScan p + 3 <= len (buffer p) /\
  forall j, 0 <= j < headerScan p -> is_prefix crlf2 (drop (Z.to_nat j) (buffer p)) = false.

Lemma scanned_app p data : scanned p -> scanned (MkParser (config p) (buffer p ++ data) (headerScan p) (wantContinue p) (continued p)).
Proof.
  intros [H|(H1 & H2 & H3)]; [by left|]. right. cbn [headerScan buffer]. split; [done|]. split; [len_lia|].
  intros j Hj. rewrite drop_app_len by lia. rewrite is_prefix_app_inv; [by apply H3|]. change (len crlf2) with 4. rewrite len_drop. lia.
Qed.

Lemma scanned_Index p : scanned p ->
  exists tail, slice_from (buffer p) (headerScan p) = Some tail /\ option_map (Z.add (headerScan p)) (Index crlf2 tail) = Index crlf2 (buffer p).
Proof.
  intros H. assert (Hb : 0 <= headerScan p <= len (buffer p)) by (pose proof (len_nonneg (buffer p)); destruct H as [->|(? & ? & _)]; lia).
  exists (drop (Z.to_nat (headerScan p)) (buffer p)). split.
  - rewrite slice_from_Some by lia. done.
  - symmetry. apply Index_from; [done|]. destruct H as [->|(_ & _ & H)]; [lia|exact H].
Qed.

Lemma scanned_none p : Index crlf2 (buffer p) = None -> scanned (with_scan (Z.max (len (buffer p) - 3) 0) p).
Proof.
  intros H. destruct (Z.le_gt_cases (len (buffer p)) 3); [left; cbn; lia|]. right. cbn [headerScan buffer with_scan].
  split; [lia|]. split; [lia|]. intros j Hj. apply Index_None; [done|lia].
Qed.

(** Feeding a parser is asking what its bytes hold, whatever it knew of them. *)
Lemma FeedOne_spec data p :
  in_int64 (config p) -> scanned p -> let b := buffer p ++ data in
  let '(r, p') := FeedOne data p in
  config p' = config p /\
  match first_request (config p) b with
  | More => r = More /\ buffer p' = b /\ scanned p'
  | Fail e => r = Fail e
  | Found (req, n) => r = Found req /\ buffer p' = drop (Z.to_nat n) b /\ scanned p'
  end.
Proof.
  intros Hi Hs b. apply (scanned_app p data) in Hs. unfold HttpParser.FeedOne. set (q := MkParser _ _ _ _ _) in *.
  change b with (buffer q). change (config p) with (config q) in Hi |- *. clearbody q. clear b p data.
  destruct (scanned_Index q Hs) as (tail & Et & Ei). pose proof (first_request_bound (config q) (buffer q)) as Hb. revert Hb. unfold HttpParser.frameLength, first_request. rewrite Et, <- Ei. intros Hb.
  destruct (Index crlf2 tail) as [i|] eqn:E; cbn [option_map] in *.
  - replace (headerScan q + i + 4) with (i + headerScan q + 4) in * by lia. destruct (_ <? _); [done|].
    destruct (frame_body_same (i + headerScan q + 4) q) as [F1 (F2 & F3 & F4)]. rewrite <- F1 in *.
    destruct (frame_body _ q) as [r q']. cbn [fst snd] in *.
    assert (Hs' : scanned q') by (unfold scanned; by rewrite F3, F4).
    destruct r as [|e|f]; [done|done|]. rewrite F2, F3. destruct (frame_request ReadChunked (config q) (buffer q) f) as [req|e]; [|done].
    specialize (Hb req (end_ f) Hi eq_refl). unfold consume. rewrite F3. assert (Er : (if end_ f =? len (buffer q) then Some [] else slice_from (buffer q) (end_ f)) = Some (drop (Z.to_nat (end_ f)) (buffer q))).
    { destruct (Z.eqb_spec (end_ f) (len (buffer q))) as [->|]; [|by rewrite slice_from_Some by lia]. rewrite drop_ge by (unfold len; lia). done. }
    rewrite Er. cbn. rewrite F2. split; [done|]. split; [done|]. split; [done|]. by left.
  - destruct (_ <? _); [done|]. split; [done|]. split; [done|]. split; [done|]. by apply scanned_none.
Qed.

(** * All of it *)

(** The requests in some bytes, what ended them, and what is left. *)
Fixpoint requests (fuel : nat) (c : Config) (b : bytes) : list Request * option http_error * bytes :=
  match fuel with
  | O => ([], None, b)
  | S fuel =>
      match first_request c b with
      | More => ([], None, b)
      | Fail e => ([], Some e, [])
      | Found (r, n) => let '(rs, e, b) := requests fuel c (drop (Z.to_nat n) b) in (r :: rs, e, b)
      end
  end.

Lemma requests_S f c b :
  requests (S f) c b = match first_request c b with
    | More => ([], None, b)
    | Fail e => ([], Some e, [])
    | Found (r, n) => let '(rs, e, b) := requests f c (drop (Z.to_nat n) b) in (r :: rs, e, b)
    end.
Proof. reflexivity. Qed.

Lemma requests_fuel f f' c b : in_int64 c -> (length b < f)%nat -> (length b < f')%nat -> requests f c b = requests f' c b.
Proof.
  intros Hi. revert f' b. induction f as [|f IH]; intros f' b Hf Hf'; [lia|]. destruct f' as [|f']; [lia|]. cbn [requests].
  destruct (first_request c b) as [|e|[r n]] eqn:E; [done|done|]. apply first_request_bound in E; [|done].
  rewrite (IH f'); [done| |]; rewrite length_drop; unfold len in E; lia.
Qed.

Lemma requests_left f c b rs e b' : requests f c b = (rs, e, b') -> (length b' <= length b)%nat.
Proof.
  revert b rs. induction f as [|f IH]; intros b rs; cbn [requests]; [by intros [= <- <- <-]|].
  destruct (first_request c b) as [|err|[r n]]; [by intros [= <- <- <-]|intros [= <- <- <-]; cbn; lia|].
  destruct (requests f c (drop (Z.to_nat n) b)) as [[rs1 e1] b1] eqn:E. intros [= <- <- <-]. apply IH in E. rewrite length_drop in E. lia.
Qed.

Lemma requests_app f f' c b x :
  in_int64 c -> 1 <= MaxHeaderBytes c -> (length b < f)%nat -> (length (b ++ x) < f')%nat ->
  requests f' c (b ++ x) =
    let '(rs, e, b') := requests f c b in
    match e with
    | Some _ => (rs, e, b')
    | None => let '(rs', e', b'') := requests f' c (b' ++ x) in (rs ++ rs', e', b'')
    end.
Proof.
  intros Hi Hc. revert f' b. induction f as [|f IH]; intros f' b Hf Hf'; [lia|]. destruct f' as [|f']; [lia|].
  pose proof (first_request_app c b x Hi Hc) as Ha. rewrite (requests_S f). destruct (first_request c b) as [|e|[r n]] eqn:E.
  - by destruct (requests (S f') c (b ++ x)) as [[? ?] ?].
  - unfold settled in Ha. by rewrite requests_S, Ha.
  - apply first_request_bound in E; [|done]. unfold settled in Ha. rewrite (requests_S f' c (b ++ x)), Ha, drop_app_len by lia.
    rewrite length_app in Hf'. rewrite (IH f') by (rewrite ?length_app, ?length_drop; unfold len in *; lia).
    destruct (requests f c (drop (Z.to_nat n) b)) as [[rs [e|]] b'] eqn:Er; [done|]. apply requests_left in Er. rewrite length_drop in Er.
    rewrite (requests_fuel f' (S f') c (b' ++ x)) by (done || (rewrite length_app; unfold len in *; lia)).
    by destruct (requests (S f') c (b' ++ x)) as [[? ?] ?].
Qed.

Lemma Feed_loop_spec f data p :
  in_int64 (config p) -> 0 <= MaxHeaderBytes (config p) -> scanned p -> (length (buffer p ++ data) < f)%nat ->
  let '(rs, e, p') := Feed_loop f data p in
  let '(rs1, e1, b1) := requests f (config p) (buffer p ++ data) in
  rs = rs1 /\ e = e1 /\ config p' = config p /\ (e = None -> buffer p' = b1 /\ scanned p').
Proof.
  revert data p. induction f as [|f IH]; intros data p Hi Hc Hs Hf; [lia|]. cbn [HttpParser.Feed_loop requests].
  pose proof (FeedOne_spec data p Hi Hs) as H. destruct (FeedOne data p) as [r p'] eqn:E. destruct H as [Hcfg H].
  destruct (first_request (config p) (buffer p ++ data)) as [|e|[req n]] eqn:Ef.
  - by destruct H as (-> & ? & ?).
  - by rewrite H.
  - apply first_request_bound in Ef; [|done]. destruct H as (-> & Hb & Hs'). destruct (Z.eqb_spec (len (buffer p')) 0) as [Ez|Enz].
    + apply len_zero_nil in Ez. rewrite <- Hb, Ez. destruct f as [|f]; cbn [requests]; [done|].
      unfold first_request. cbn [Index is_prefix crlf2]. destruct (Z.ltb_spec (MaxHeaderBytes (config p)) (len (@nil Z))); [change (len (@nil Z)) with 0 in *; lia|].
      by rewrite ?Ez.
    + specialize (IH [] p'). rewrite app_nil_r, Hcfg in IH. rewrite Hb in IH.
      specialize (IH Hi Hc Hs' ltac:(rewrite length_drop; unfold len in *; lia)).
      destruct (Feed_loop f [] p') as [[rs e] p'']. destruct (requests f (config p) _) as [[rs1 e1] b1]. by destruct IH as (-> & -> & -> & ?).
Qed.

(** What is left holds no request yet. *)
Lemma requests_quiet f c b rs b' : in_int64 c -> (length b < f)%nat -> requests f c b = (rs, None, b') -> first_request c b' = More.
Proof.
  intros Hi. revert b rs. induction f as [|f IH]; intros b rs Hf; [lia|]. rewrite requests_S.
  destruct (first_request c b) as [|err|[r n]] eqn:E; [intros [= <- <-]; exact E|done|]. apply first_request_bound in E; [|done].
  destruct (requests f c (drop (Z.to_nat n) b)) as [[rs1 e1] b1] eqn:E1. intros [= <- -> <-]. eapply IH, E1. rewrite length_drop. unfold len in *. lia.
Qed.

Lemma feed_all_spec reads p :
  in_int64 (config p) -> 1 <= MaxHeaderBytes (config p) -> scanned p -> first_request (config p) (buffer p) = More ->
  forall f, (length (buffer p ++ mjoin reads) < f)%nat ->
  let '(rs, e, p1) := feed_all reads p in
  let '(rs1, e1, b1) := requests f (config p) (buffer p ++ mjoin reads) in
  rs = rs1 /\ e = e1 /\ (e = None -> buffer p1 = b1).
Proof.
  intros Hi Hc. revert p Hi Hc. induction reads as [|d reads IH]; intros p Hi Hc Hs Hq f Hf.
  - cbn [HttpParser.feed_all mjoin list_join] in *. rewrite app_nil_r in *. destruct f as [|f]; [lia|]. rewrite requests_S, Hq. done.
  - cbn [HttpParser.feed_all]. change (mjoin (d :: reads)) with (d ++ mjoin reads) in *. rewrite app_assoc in *.
    unfold HttpParser.Feed. set (f1 := S (length (buffer p) + length d)).
    assert (Hf1 : (length (buffer p ++ d) < f1)%nat) by (unfold f1; rewrite length_app; lia).
    pose proof (Feed_loop_spec f1 d p Hi ltac:(lia) Hs Hf1) as HF. rewrite (requests_app f1 f _ (buffer p ++ d)) by done.
    destruct (Feed_loop f1 d p) as [[rs e] p']. destruct (requests f1 (config p) (buffer p ++ d)) as [[rs1 e1] b1] eqn:E1.
    destruct HF as (-> & -> & Hcfg & HF). destruct e1 as [e1|]; [done|]. destruct (HF eq_refl) as [Hb Hs']. rewrite <- Hb in *.
    pose proof (requests_left _ _ _ _ _ _ E1) as Hl. specialize (IH p'). rewrite Hcfg in IH.
    specialize (IH Hi Hc Hs' (requests_quiet _ _ _ _ _ Hi Hf1 E1) f). rewrite !length_app in *. specialize (IH ltac:(lia)).
    destruct (feed_all reads p') as [[rs2 e2] p2]. destruct (requests f (config p) (buffer p' ++ mjoin reads)) as [[rs3 e3] b3].
    destruct IH as (-> & -> & ?). done.
Qed.

(** ** No panic *)

(** The limits fit into an [int64] together. *)
Definition no_wrap (c : Config) : Prop := MaxHeaderBytes c + MaxBodyBytes c < 2 ^ 63.

Lemma chunked_no_panic f rest off dec mt mb : chunk_scan f rest off dec mt mb <> Fail Panic.
Proof.
  revert rest off dec. induction f as [|f IH]; intros rest off dec; cbn [chunk_scan]; [done|]. repeat (case_match; try done).
Qed.

Lemma frame_request_no_panic c b f : 0 <= headerEnd f <= end_ f -> end_ f <= len b -> frame_request ReadChunked c b f <> Err Panic.
Proof.
  intros H1 H2. unfold frame_request. rewrite !slice_Some by lia. destruct (chunked f); [|by destruct (_ <? _)]. destruct (ReadChunked _ _) as [[[req body] []]|]; [| |done]; by destruct (_ <? _).
Qed.

Lemma frame_body_no_panic e c b : 0 <= e <= len b -> fst (frame_body e (fresh c b)) <> Fail Panic.
Proof.
  intros He. unfold HttpParser.frame_body. cbn [config buffer fresh]. rewrite slice_Some by lia. destruct (ReadRequest _) as [req|text]; [|by destruct (Contains _ _)].
  destruct (_ && _); [done|]. destruct (TransferEncoding req) as [|coding more].
  - destruct (_ <? _); [done|]. destruct (_ <? _); [done|]. cbn zeta. by destruct (_ <? _).
  - destruct (_ || _); [done|]. pose proof (chunked_no_panic (S (length b)) (drop (Z.to_nat e) b) e 0 (MaxHeaderBytes c) (MaxBodyBytes c)) as Hn.
    rewrite chunkedEnd_scan by lia. destruct (chunk_scan _ _ _ _ _ _); [done|by intros [= ->]|by destruct (_ <? _)].
Qed.

Lemma first_request_no_panic c b : in_int64 c -> no_wrap c -> first_request c b <> Fail Panic.
Proof.
  intros Hi Hw. unfold first_request. destruct (Index crlf2 b) as [i|] eqn:Ei; [|by destruct (_ <? _)]. destruct (Index_bound _ _ _ Ei) as [B1 B2]. change (len crlf2) with 4 in B2.
  destruct (Z.ltb_spec (MaxHeaderBytes c) (i + 4)); [done|]. pose proof (frame_body_bound (i + 4) c b) as Hb.
  pose proof (frame_body_no_panic (i + 4) c b ltac:(lia)). destruct (fst (frame_body _ _)) as [|e|f]; [done|congruence|].
  destruct (Hb f Hi ltac:(lia) ltac:(lia) eq_refl) as [B4 [B3|(_ & _ & _ & B3)]]; [|unfold no_wrap in Hw; lia].
  pose proof (frame_request_no_panic c b f ltac:(lia) ltac:(lia)). destruct (frame_request ReadChunked c b f); [done|congruence].
Qed.

Lemma requests_no_panic f c b : in_int64 c -> no_wrap c -> snd (fst (requests f c b)) <> Some Panic.
Proof.
  intros Hi Hw. revert b. induction f as [|f IH]; intros b; [done|]. rewrite requests_S. pose proof (first_request_no_panic c b Hi Hw).
  destruct (first_request c b) as [|e|[r n]]; [done|cbn; congruence|]. specialize (IH (drop (Z.to_nat n) b)). by destruct (requests f c _) as [[? ?] ?].
Qed.

Lemma NewParser_int64 c : in_int64 c -> in_int64 (config (NewParser c)).
Proof. intros [H1 H2]. unfold in_int64. cbn [config NewParser MaxHeaderBytes MaxBodyBytes]. destruct (_ <=? 0), (_ <=? 0); split; try done. Qed.

Lemma NewParser_ok c : 1 <= MaxHeaderBytes (config (NewParser c)) /\ scanned (NewParser c) /\ first_request (config (NewParser c)) [] = More.
Proof.
  assert (H : 1 <= MaxHeaderBytes (config (NewParser c))).
  { cbn [config NewParser MaxHeaderBytes]. destruct (Z.leb_spec (MaxHeaderBytes c) 0); [by vm_compute|lia]. }
  split; [done|]. split; [by left|]. unfold first_request. cbn [Index is_prefix crlf2]. change (len (@nil Z)) with 0.
  destruct (Z.ltb_spec (MaxHeaderBytes (config (NewParser c))) 0); [lia|done].
Qed.

(** C4: However the bytes of a connection are cut into reads, the parser hands
    out the same requests, with the same bodies, in the same order, and fails
    with the same error after the same request, as when all of them come in one
    read; it keeps the same bytes for the next request.  When the two limits add
    up to less than 2^63, no slice is out of range on the way. *)
Theorem http_segmentation c reads :
  in_int64 c ->
  let p := NewParser c in
  let '(rs, e, p1) := feed_all reads p in
  let '(rs2, e2, p2) := Feed (mjoin reads) p in
  rs = rs2 /\ e = e2 /\ (no_wrap (config p) -> e <> Some Panic) /\ (e = None -> buffer p1 = buffer p2).
Proof.
  intros Hi%NewParser_int64. destruct (NewParser_ok c) as (H1 & H2 & H3). cbn zeta. set (p := NewParser c) in *. set (b := mjoin reads).
  pose proof (feed_all_spec reads p Hi H1 H2 H3 (S (length b)) ltac:(cbn; fold b; lia)) as HA.
  pose proof (Feed_loop_spec (S (length b)) b p Hi ltac:(lia) H2 ltac:(cbn; lia)) as HB. unfold HttpParser.Feed. cbn [buffer length Nat.add p NewParser] in *.
  fold b in HA. fold p in HB |- *. cbn [app] in *. pose proof (requests_no_panic (S (length b)) (config p) b Hi) as Hn.
  destruct (feed_all reads p) as [[rs e] p1]. destruct (Feed_loop (S (length b)) b p) as [[rs2 e2] p2].
  destruct (requests (S (length b)) (config p) b) as [[rs3 e3] b3]. destruct HA as (-> & -> & HA). destruct HB as (-> & -> & _ & HB).
  split; [done|]. split; [done|]. split; [exact Hn|]. intros He. rewrite (HA He). by destruct (HB He).
Qed.
End stream.

(** * At concrete inputs *)

(** A reader for three methods: [POST] has five bytes of body, [PUT] is chunked, and
    [BIG] announces as many bytes as an [int64] holds. *)
Definition sample_request (coding : list bytes) (length : Z) : @Request unit := MkRequest (str "M") (str "h") true coding length None None false [] tt.
Definition reads_method (h : bytes) : result bytes (@Request unit) :=
  if is_prefix (str "POST ") h then Ok (sample_request [] 5)
  else if is_prefix (str "PUT ") h then Ok (sample_request [str "chunked"] (-1))
  else if is_prefix (str "BIG ") h then Ok (sample_request [] (2 ^ 63 - 1))
  else Err [].
Definition reads_chunk (b : bytes) (n : Z) : option (@Request unit * bytes * bool) := Some (sample_request [str "chunked"] (-1), take (Z.to_nat n) (str "abc"), false).

Definition two_requests : list bytes :=
  [str "POST / HTTP/1.1"; crlf ++ [13]; [10] ++ str "hel"; str "loPUT / HTTP/1.1" ++ crlf2 ++ str "3"; crlf ++ str "abc"; crlf ++ str "0" ++ crlf; crlf].

Lemma http_segmentation_witness :
  let run := feed_all reads_method reads_chunk in
  in_int64 (MkConfig 0 0) /\ no_wrap (config (NewParser (MkConfig 0 0))) /\
  (run two_requests (NewParser (MkConfig 0 0))).1.1 = [with_body (str "hello") (sample_request [] 5); with_body (str "abc") (sample_request [str "chunked"] (-1))] /\
  (run two_requests (NewParser (MkConfig 0 0))).1 = (Feed reads_method reads_chunk (mjoin two_requests) (NewParser (MkConfig 0 0))).1.
Proof.
  cbn zeta. split; [done|]. split; [done|]. split; [vm_compute; reflexivity|].
  pose proof (http_segmentation reads_method reads_chunk (MkConfig 0 0) two_requests ltac:(split; done)) as H. cbn zeta in H.
  destruct (feed_all _ _ _ _) as [[rs e] p1], (Feed _ _ _ _) as [[rs2 e2] p2]. destruct H as (-> & -> & _). reflexivity.
Defined.

(** With no limit on bodies the end of a request wraps around: a header that
    announces 2^63-1 bytes makes the parser slice out of range, and a chunked
    request is too large whatever its size. *)
Theorem unlimited_body_panics :
  let p := NewParser (MkConfig 0 (2 ^ 63 - 1)) in
  (Feed reads_method reads_chunk (str "BIG / HTTP/1.1" ++ crlf2) p).1 = ([], Some Panic) /\
  (Feed reads_method reads_chunk (str "PUT / HTTP/1.1" ++ crlf2 ++ str "0" ++ crlf2) p).1 = ([], Some ErrBodyTooLarge).
Proof. vm_compute. split; reflexivity. Qed.
