(* ===== verification/HttpServer.v ===== *)
(** The HTTP/1 side of a server connection (src/go/http/handler.go): telling
    HTTP/2 from HTTP/1 by the connection's first bytes, and serving the requests
    the parser hands out.

    What happens is a list of events.  The application's handler is the
    parameter [serve], which says whether its response ends the connection, and
    the h2c upgrade of h2_upgrade.go is [upgrade]; a connection that switched to
    HTTP/2 is what it has been fed. *)
From Stdlib Require Import String.
From S2P Require Import Prelude.
From S2P Require Import HpackTables.
From S2P Require Import GoText.
From S2P Require Import HttpParser.

(** "PRI * HTTP/2.0", a blank line, "SM", a blank line. *)
Definition h2Preface : bytes := str "PRI * HTTP/2.0" ++ crlf2 ++ str "SM" ++ crlf2.

Definition StatusBadRequest : Z := 400.
Definition StatusRequestEntityTooLarge : Z := 413.
Definition StatusExpectationFailed : Z := 417.
Definition StatusRequestHeaderFieldsTooLarge : Z := 431.
Definition StatusNotImplemented : Z := 501.

Section server.
Context {R : Type} (ReadRequest : bytes -> result bytes (@Request R)) (ReadChunked : bytes -> Z -> option (@Request R * bytes * bool)).
(** Whether a request was answered in a way that ends the connection. *)
Context (serve : @Request R -> bool).
(** [None]: no upgrade was asked for; otherwise whether the settings were accepted. *)
Context (upgrade : @Request R -> option bool).

Inductive server_event :=
  | Serve (r : @Request R)      (* the handler runs *)
  | SendContinue                (* 100 Continue *)
  | Refuse (status : Z)         (* an error response, and the connection ends *)
  | ToH2 (b : bytes)            (* bytes given to HTTP/2 *)
  | Panics.

Inductive attachment := Http1 (p : Parser) (sniffed : bool) | Http2.

(** The status to refuse a request with, or 0. *)
Definition checkRequest (r : @Request R) : Z :=
  if proto11 r && negb (bool_decide (Method r = str "CONNECT")) &&
     (match Hosts r with None => bool_decide (Host r = []) | Some hosts => 1 <? len hosts end)
  then StatusBadRequest
  else
    match Expects r with
    | None => 0
    | Some [v] => if EqualFold (TrimSpace v) (str "100-continue") then 0 else StatusExpectationFailed
    | Some _ => StatusExpectationFailed
    end.

Definition error_status (e : http_error) : Z :=
  match e with
  | ErrHeaderTooLarge => StatusRequestHeaderFieldsTooLarge
  | ErrBodyTooLarge => StatusRequestEntityTooLarge
  | ErrUnsupportedTransferEncoding => StatusNotImplemented
  | _ => StatusBadRequest
  end.

(** After the loop: 100 Continue if a request waits for it, then the refusal. *)
Definition after_loop (refused : option Z) (p : Parser) : list server_event * attachment :=
  let continue := if wantContinue p then [SendContinue] else [] in
  let p := MkParser (config p) (buffer p) (headerScan p) false (continued p) in
  (continue ++ match refused with Some status => [Refuse status] | None => [] end, Http1 p true).

(** The loop of [OnData]; a round consumes a request. *)
Fixpoint OnData_loop (fuel : nat) (data : bytes) (p : Parser) : list server_event * attachment :=
  match fuel with
  | O => ([], Http1 p true)
  | S fuel =>
      match FeedOne ReadRequest ReadChunked data p with
      | (Fail Panic, p) => ([Panics], Http1 p true)
      | (Fail e, p) => after_loop (Some (error_status e)) p
      | (More, p) => after_loop None p
      | (Found r, p) =>
          if negb (checkRequest r =? 0) then after_loop (Some (checkRequest r)) p
          else
            match upgrade r with
            | Some true => let '(rest, _) := TakeBuffered p in (Serve r :: match rest with [] => [] | _ => [ToH2 rest] end, Http2)
            | Some false => ([Serve r], Http1 p true)
            | None =>
                if Close r || serve r then ([Serve r], Http1 p true)
                else if len (buffer p) =? 0 then let '(evs, a) := after_loop None p in (Serve r :: evs, a)
                else let '(evs, a) := OnData_loop fuel [] p in (Serve r :: evs, a)
            end
      end
  end.

Definition serve_data (data : bytes) (p : Parser) : list server_event * attachment :=
  OnData_loop (S (length (buffer p) + length data)) data p.

(** [sniff] and the protocol it chooses; [disabled] is [config.DisableHTTP2]. *)
Definition OnData (disabled : bool) (data : bytes) (a : attachment) : list server_event * attachment :=
  match a with
  | Http2 => ([ToH2 data], Http2)
  | Http1 p true => serve_data data p
  | Http1 p false =>
      if disabled then serve_data data p
      else
        let p := MkParser (config p) (buffer p ++ data) (headerScan p) (wantContinue p) (continued p) in
        let n := Z.min (len (buffer p)) (len h2Preface) in
        if bool_decide (take (Z.to_nat n) (buffer p) = take (Z.to_nat n) h2Preface) then
          if n <? len h2Preface then ([], Http1 p false)
          else let '(b, _) := TakeBuffered p in ([ToH2 b], Http2)
        else let '(b, p) := TakeBuffered p in serve_data b p
  end.

Fixpoint run_server (disabled : bool) (reads : list bytes) (a : attachment) : list server_event * attachment :=
  match reads with
  | [] => ([], a)
  | data :: reads =>
      let '(evs, a) := OnData disabled data a in
      let '(evs', a) := run_server disabled reads a in (evs ++ evs', a)
  end.

(** * Choosing the protocol *)

(** The bytes given to HTTP/2, if that is all that happened. *)
Fixpoint h2_stream (evs : list server_event) : option bytes :=
  match evs with [] => Some [] | ToH2 b :: evs => option_map (app b) (h2_stream evs) | _ => None end.

Lemma run_h2 disabled reads : run_server disabled reads Http2 = (ToH2 <$> reads, Http2).
Proof. induction reads as [|d reads IH]; [done|]. cbn [run_server OnData]. by rewrite IH. Qed.

Lemma h2_stream_all reads : h2_stream (ToH2 <$> reads) = Some (mjoin reads).
Proof. induction reads as [|d reads IH]; [done|]. rewrite fmap_cons. cbn [h2_stream]. by rewrite IH. Qed.

Lemma prefixes_compare a b l : is_prefix a l = true -> is_prefix b l = true -> is_prefix a b = true \/ is_prefix b a = true.
Proof.
  revert b l. induction a as [|x a IH]; intros b l Ha Hb; [by left|]. destruct b as [|y b]; [by right|]. destruct l as [|z l]; [done|].
  cbn [is_prefix] in *. rewrite !andb_true_iff, !Z.eqb_eq in *. destruct Ha as [-> Ha], Hb as [-> Hb]. destruct (IH b l Ha Hb); tauto.
Qed.

Definition unsniffed (c : Config) (b : bytes) : attachment := Http1 (fresh (config (NewParser c)) b) false.

Lemma take_prefix_cases (b : bytes) :
  let n := Z.to_nat (Z.min (len b) (len h2Preface)) in
  (take n b = take n h2Preface <-> is_prefix h2Preface b = true \/ is_prefix b h2Preface = true).
Proof.
  intros n. split.
  - intros H. destruct (Z.le_gt_cases (len h2Preface) (len b)) as [Hle|Hgt].
    + left. apply is_prefix_spec. exists (drop n b). assert (n = length h2Preface) as E by (unfold n, len in *; lia).
      rewrite E, (take_ge h2Preface) in H by lia. rewrite <- H, E at 1. by rewrite take_drop.
    + right. apply is_prefix_spec. exists (drop n h2Preface). assert (n = length b) as E by (unfold n, len in *; lia).
      rewrite E, (take_ge b) in H by lia. rewrite H, E at 1. by rewrite take_drop.
  - rewrite !is_prefix_spec. intros [[r ->]|[r E]].
    + assert (n = length h2Preface) as -> by (unfold n; rewrite len_app; pose proof (len_nonneg r); unfold len in *; lia).
      by rewrite take_app_length, take_ge.
    + assert (n = length b) as -> by (unfold n; rewrite E, len_app; pose proof (len_nonneg r); unfold len in *; lia).
      rewrite E, take_app_length. by rewrite take_ge.
Qed.

Lemma OnData_unsniffed c b data :
  OnData false data (unsniffed c b) =
  if is_prefix h2Preface (b ++ data) then ([ToH2 (b ++ data)], Http2)
  else if is_prefix (b ++ data) h2Preface then ([], unsniffed c (b ++ data))
  else OnData false (b ++ data) (Http1 (NewParser c) true).
Proof.
  cbn [OnData unsniffed fresh config buffer headerScan wantContinue continued]. set (x := b ++ data).
  pose proof (take_prefix_cases x) as Hc. destruct (bool_decide _) eqn:Eb.
  - apply bool_decide_eq_true in Eb. apply Hc in Eb. destruct (is_prefix h2Preface x) eqn:E1.
    + apply is_prefix_len in E1. destruct (Z.ltb_spec (Z.min (len x) (len h2Preface)) (len h2Preface)); [lia|done].
    + destruct Eb as [|E2]; [done|]. rewrite E2. destruct (Z.ltb_spec (Z.min (len x) (len h2Preface)) (len h2Preface)); [done|].
      exfalso. apply is_prefix_spec in E2 as [r Er]. assert (Hr : len r = 0) by (rewrite Er, len_app in *; pose proof (len_nonneg r); lia).
      apply len_zero_nil in Hr. subst r. rewrite app_nil_r in Er. rewrite <- Er in E1.
      assert (is_prefix h2Preface h2Preface = true) by (apply is_prefix_spec; exists []; by rewrite app_nil_r). congruence.
  - apply bool_decide_eq_false in Eb. assert (is_prefix h2Preface x = false /\ is_prefix x h2Preface = false) as [-> ->].
    { split; apply not_true_is_false; intros E; apply Eb, Hc; tauto. }
    done.
Qed.

(** A server tells HTTP/2 from HTTP/1 by the connection's first bytes,
    however they are cut into reads.  If the connection opens with the HTTP/2
    preface, every byte of it, the preface included, goes to HTTP/2 in order
    and nothing is served as HTTP/1; if it departs from the preface, HTTP/1 sees
    every byte, held back ones included, and is served as though the reads up to
    the first difference had been one; until then nothing happens. *)
Theorem sniff_dispatch c reads :
  let b := mjoin reads in
  let '(evs, a) := run_server false reads (unsniffed c []) in
  if is_prefix h2Preface b then a = Http2 /\ h2_stream evs = Some b
  else if is_prefix b h2Preface then evs = []
  else exists first rest, reads = first ++ rest /\ run_server false (mjoin first :: rest) (Http1 (NewParser c) true) = (evs, a).
Proof.
  cbn zeta. assert (H : forall b, is_prefix h2Preface b = false -> is_prefix b h2Preface = true ->
    let '(evs, a) := run_server false reads (unsniffed c b) in
    if is_prefix h2Preface (b ++ mjoin reads) then a = Http2 /\ h2_stream evs = Some (b ++ mjoin reads)
    else if is_prefix (b ++ mjoin reads) h2Preface then evs = []
    else exists first rest, reads = first ++ rest /\ run_server false ((b ++ mjoin first) :: rest) (Http1 (NewParser c) true) = (evs, a)).
  { induction reads as [|d reads IH]; intros b H1 H2.
    - cbn [run_server mjoin list_join]. by rewrite app_nil_r, H1, H2.
    - change (mjoin (d :: reads)) with (d ++ mjoin reads). rewrite app_assoc. cbn [run_server]. rewrite OnData_unsniffed.
      destruct (is_prefix h2Preface (b ++ d)) eqn:E1.
      + rewrite run_h2. rewrite is_prefix_app by done. split; [done|].
        change ([ToH2 (b ++ d)] ++ (ToH2 <$> reads)) with (ToH2 <$> ((b ++ d) :: reads)). apply h2_stream_all.
      + destruct (is_prefix (b ++ d) h2Preface) eqn:E2.
        * specialize (IH (b ++ d) E1 E2). destruct (run_server false reads (unsniffed c (b ++ d))) as [evs a]. cbn [app].
          destruct (is_prefix h2Preface ((b ++ d) ++ mjoin reads)); [done|]. destruct (is_prefix ((b ++ d) ++ mjoin reads) h2Preface); [done|].
          destruct IH as (first & rest & -> & E). exists (d :: first), rest. split; [done|].
          change (mjoin (d :: first)) with (d ++ mjoin first). by rewrite app_assoc.
        * assert (is_prefix h2Preface ((b ++ d) ++ mjoin reads) = false) as ->.
          { apply not_true_is_false. intros E. destruct (prefixes_compare h2Preface (b ++ d) _ E); [|congruence..].
            apply is_prefix_spec. by eexists. }
          assert (is_prefix ((b ++ d) ++ mjoin reads) h2Preface = false) as ->.
          { apply not_true_is_false. intros E. apply is_prefix_spec in E as [r Er]. rewrite <- app_assoc in Er.
            assert (is_prefix (b ++ d) h2Preface = true); [|congruence]. apply is_prefix_spec. by eexists. }
          destruct (OnData false (b ++ d) (Http1 (NewParser c) true)) as [evs a] eqn:Eo.
          destruct (run_server false reads a) as [evs' a'] eqn:Er. exists [d], reads. split; [done|].
          change (mjoin [d]) with (d ++ []). rewrite app_nil_r. cbn [run_server]. by rewrite Eo, Er. }
  apply (H []); done.
Qed.

(** * What a closing response does not stop *)

Lemma serve_data_first x p r n :
  in_int64 (config p) -> scanned p -> first_request ReadRequest ReadChunked (config p) (buffer p ++ x) = Found (r, n) -> checkRequest r = 0 -> upgrade r = None ->
  exists evs a, serve_data x p = (Serve r :: evs, a) /\
    (Close r = true -> evs = [] /\ exists p', a = Http1 p' true /\ config p' = config p /\ buffer p' = drop (Z.to_nat n) (buffer p ++ x) /\ scanned p').
Proof.
  intros Hi Hs Hf Hc Hu. unfold serve_data. cbn [OnData_loop]. pose proof (FeedOne_spec ReadRequest ReadChunked x p Hi Hs) as H.
  destruct (FeedOne ReadRequest ReadChunked x p) as [o p']. cbn zeta in H. rewrite Hf in H. destruct H as (Hcfg & -> & Hb & Hs'). rewrite Hc, Hu. cbn [Z.eqb negb].
  destruct (Close r); cbn [orb].
  - do 2 eexists. split; [done|]. intros _. split; [done|]. by exists p'.
  - destruct (serve r); [by do 2 eexists|]. destruct (_ =? _); [by destruct (after_loop None p') as [evs a]; do 2 eexists|].
    destruct (OnData_loop _ [] p') as [evs a]. by do 2 eexists.
Qed.

(** A request that closes the connection is the last of its read to be
    served, but not the last of its connection: a request pipelined behind it
    stays in the parser, and is served as soon as the connection reads again,
    before its closing response has left. *)
Theorem served_after_close cfg disabled b r1 n1 r2 n2 :
  in_int64 cfg ->
  first_request ReadRequest ReadChunked (config (NewParser cfg)) b = Found (r1, n1) ->
  first_request ReadRequest ReadChunked (config (NewParser cfg)) (drop (Z.to_nat n1) b) = Found (r2, n2) ->
  checkRequest r1 = 0 -> checkRequest r2 = 0 -> upgrade r1 = None -> upgrade r2 = None -> Close r1 = true ->
  let '(evs, a) := OnData disabled b (Http1 (NewParser cfg) true) in
  evs = [Serve r1] /\ forall x, exists more, fst (OnData disabled x a) = Serve r2 :: more.
Proof.
  intros Hi%NewParser_int64 H1 H2 C1 C2 U1 U2 Hcl. destruct (NewParser_ok ReadRequest ReadChunked cfg) as (Hm & Hs & _).
  destruct (serve_data_first b (NewParser cfg) r1 n1 Hi Hs H1 C1 U1) as (evs & a & E & Hclose). destruct (Hclose Hcl) as (-> & p' & -> & Hcfg & Hb & Hs').
  cbn [OnData]. rewrite E. split; [done|]. intros x. cbn [OnData].
  pose proof (first_request_app ReadRequest ReadChunked (config (NewParser cfg)) (drop (Z.to_nat n1) b) x Hi Hm) as Ha. rewrite H2 in Ha. unfold settled in Ha.
  cbn [buffer NewParser app] in Hb. rewrite <- Hb, <- Hcfg in Ha. rewrite <- Hcfg in Hi. destruct (serve_data_first x p' r2 n2 Hi Hs' Ha C2 U2) as (more & a' & -> & _). by exists more.
Qed.

(** * What bounds a chunked request *)

Lemma no_crlf_tail (n : nat) : Index crlf ([49; 59] ++ replicate n 97) = None.
Proof.
  assert (H : forall k, Index crlf (replicate k 97) = None) by (induction k as [|k IH]; [done|]; cbn [replicate Index is_prefix crlf]; by rewrite IH).
  cbn [app Index is_prefix crlf]. by rewrite H.
Qed.

(** The size line of a chunk is not bounded: after the header of any chunked
    request, a chunk size and extension of any length are kept without an
    error, whatever the limits on headers and bodies. *)
Theorem chunk_line_unbounded cfg h req n :
  in_int64 cfg ->
  Index crlf2 h = Some (len h - 4) -> len h <= MaxHeaderBytes (config (NewParser cfg)) ->
  ReadRequest h = Ok req -> proto11 req = true -> TransferEncoding req = [str "chunked"] ->
  let '(reqs, e, p) := Feed ReadRequest ReadChunked (h ++ [49; 59] ++ replicate n 97) (NewParser cfg) in
  reqs = [] /\ e = None /\ len (buffer p) = len h + 2 + Z.of_nat n.
Proof.
  intros H64%NewParser_int64 Hi Hl Hr Hp Ht. destruct (NewParser_ok ReadRequest ReadChunked cfg) as (Hm & Hs & _). set (tail := [49; 59] ++ replicate n 97).
  assert (Hf : first_request ReadRequest ReadChunked (config (NewParser cfg)) (h ++ tail) = More).
  { unfold first_request. rewrite (Index_app _ _ tail _ Hi). replace (len h - 4 + 4) with (len h) by lia.
    destruct (Z.ltb_spec (MaxHeaderBytes (config (NewParser cfg))) (len h)); [lia|]. unfold frame_body. cbn [config buffer fresh].
    rewrite slice_app_prefix, Hr, Hp, Ht. cbn [negb andb]. change (negb (len (@nil bytes) =? 0) || negb (EqualFold (str "chunked") (str "chunked"))) with false.
    rewrite chunkedEnd_scan by len_lia. assert (Ed : drop (Z.to_nat (len h)) (h ++ tail) = tail) by (unfold len; rewrite Nat2Z.id; apply drop_app_length).
    rewrite Ed. cbn [chunk_scan]. unfold tail. by rewrite no_crlf_tail. }
  unfold Feed. cbn [Feed_loop]. pose proof (FeedOne_spec ReadRequest ReadChunked (h ++ tail) (NewParser cfg) H64 Hs) as H.
  destruct (FeedOne ReadRequest ReadChunked (h ++ tail) (NewParser cfg)) as [o p']. cbn [buffer NewParser app] in H. 
  change (config (MkParser _ [] 0 false false)) with (config (NewParser cfg)) in H. rewrite Hf in H. destruct H as (_ & -> & -> & _).
  split; [done|]. split; [done|]. unfold tail. rewrite !len_app, len_replicate. change (len [49; 59]) with 2. lia.
Qed.
End server.

(** * Witnesses *)

(** A reading of headers that only looks for a few words. *)
Definition demo_read (h : bytes) : result bytes (@Request bytes) :=
  Ok (MkRequest (str "GET") (str "a") true (if Contains h (str "chunked") then [str "chunked"] else []) 0 None None
        (Contains h (str "close")) [] h).
Definition demo_decode (b : bytes) (n : Z) : option (@Request bytes * bytes * bool) := None.

Definition demo_header (s : string) : bytes := str s ++ crlf2.

Lemma served_after_close_witness :
  exists r2, other r2 = demo_header "second" /\
    let '(evs, a) := OnData demo_read demo_decode (fun _ => true) (fun _ => None) true
      (demo_header "close" ++ demo_header "second") (Http1 (NewParser (MkConfig 0 0)) true) in
    len evs = 1 /\ exists more, fst (OnData demo_read demo_decode (fun _ => true) (fun _ => None) true [1] a) = Serve r2 :: more.
Proof.
  destruct (first_request demo_read demo_decode (config (NewParser (MkConfig 0 0))) (demo_header "close" ++ demo_header "second")) as [| |[r1 n1]] eqn:E1;
    [vm_compute in E1; discriminate|vm_compute in E1; discriminate|].
  destruct (first_request demo_read demo_decode (config (NewParser (MkConfig 0 0))) (drop (Z.to_nat n1) (demo_header "close" ++ demo_header "second")))
    as [| |[r2 n2]] eqn:E2;
    [vm_compute in E1; injection E1 as <- <-; vm_compute in E2; discriminate|vm_compute in E1; injection E1 as <- <-; vm_compute in E2; discriminate|].
  pose proof (served_after_close demo_read demo_decode (fun _ => true) (fun _ => None) (MkConfig 0 0) true _ r1 n1 r2 n2 ltac:(split; done) E1 E2) as H.
  vm_compute in E1. injection E1 as <- <-. vm_compute in E2. injection E2 as <- <-. eexists. split; [|].
  2: { specialize (H eq_refl eq_refl eq_refl eq_refl eq_refl).
       destruct (OnData demo_read demo_decode (fun _ => true) (fun _ => None) true (demo_header "close" ++ demo_header "second")
         (Http1 (NewParser (MkConfig 0 0)) true)) as [evs a]. destruct H as [-> H]. split; [reflexivity|]. exact (H [1]). }
  reflexivity.
Defined.

Lemma chunk_line_unbounded_witness :
  let '(reqs, e, p) := Feed demo_read demo_decode (demo_header "chunked" ++ [49; 59] ++ replicate 1000 97) (NewParser (MkConfig 20 20)) in
  reqs = [] /\ e = None /\ len (buffer p) = 1013.
Proof.
  pose proof (chunk_line_unbounded demo_read demo_decode (MkConfig 20 20) (demo_header "chunked") _ 1000
    ltac:(split; done) ltac:(vm_compute; reflexivity) ltac:(vm_compute; discriminate) eq_refl eq_refl eq_refl) as H.
  destruct (Feed demo_read demo_decode (demo_header "chunked" ++ [49; 59] ++ replicate 1000 97) (NewParser (MkConfig 20 20))) as [[rs e] p].
  destruct H as (-> & -> & ->). split; [reflexivity|]. split; reflexivity.
Defined.

(** A chunked body net/http refuses leaves [headerScan] behind, and a short read
    after it slices the buffer out of range. *)
Lemma stale_scan_panics :
  let p0 := NewParser (MkConfig 0 0) in
  let '(_, e1, p1) := Feed demo_read demo_decode (str "chunked and more") p0 in
  let '(_, e2, p2) := Feed demo_read demo_decode (crlf2 ++ [48; 13; 10; 13; 10]) p1 in
  let '(_, e3, _) := Feed demo_read demo_decode [71] p2 in
  e1 = None /\ e2 = Some ErrMalformed /\ e3 = Some Panic.
Proof. vm_compute. done. Qed.
