(* ===== verification/HttpWriter.v ===== *)
(** Writing HTTP/1 responses (src/go/http/response_writer.go, and
    [marshalResponse], [WriteResponse], [WriteInterim] and [appendHeaderLines] of
    handler.go): the header, how it frames the body, and the body as a handler
    writes it piece by piece.

    A header is a finite map from names to values.  [out] is what has been sent
    on the connection; a send fails once the connection is not [up], which may
    be at any time.  Tables and clocks of the standard library are parameters:
    the text of a status, the type of a body, the canonical form of a name, and
    the Date line.  Responses on a multiplexed connection are not modelled. *)
From Stdlib Require Import String.
From stdpp Require Import sorting.
From S2P Require Import Prelude.
From S2P Require Import HpackTables.
From S2P Require Import GoText.
From S2P Require Import HttpParser.

Definition Header : Type := gmap bytes (list bytes).

(** The order of [sort.Strings]. *)
Fixpoint bytes_le (a b : bytes) : bool :=
  match a, b with
  | [], _ => true
  | _ :: _, [] => false
  | x :: a, y :: b => (x <? y) || ((x =? y) && bytes_le a b)
  end.
Definition Strings_le (a b : bytes) : Prop := bytes_le a b = true.
#[export] Instance Strings_le_dec a b : Decision (Strings_le a b) := decide (bytes_le a b = true).

Definition validHeaderValue (v : bytes) : bool :=
  forallb (fun c => negb (((c <? 32) && negb (c =? 9)) || (c =? 127))) v.

Definition statusHasBody (status : Z) : bool := (200 <=? status) && negb (status =? 204) && negb (status =? 304).

Definition writerBufferSize : Z := Z.shiftl 4 10.
Definition minSendFileSize : Z := Z.shiftl 16 10.

Definition appendChunk (out p : bytes) : bytes := out ++ FormatInt (len p) 16 ++ crlf ++ p ++ crlf.

Inductive write_error :=
  | ErrResponseWritten | ErrBodyNotAllowed | ErrContentLength | ErrNotSupported | InvalidHeaderName | InvalidHeaderValue | InvalidStatus | InterimAfterFinal | ErrSend.

Section writer.
Context (StatusText : Z -> bytes) (DetectContentType : bytes -> bytes) (CanonicalHeaderKey : bytes -> bytes) (date : bytes).

(** * Headers *)

(** [strings.Split] and trimming, as the lists in header values are read. *)
Definition list_items (values : list bytes) : list bytes := mjoin ((fun v => TrimSpace <$> SplitByte 44 v) <$> values).

Definition headerHasToken (h : Header) (key token : bytes) : bool :=
  existsb (fun item => EqualFold item token) (list_items (default [] (h !! key))).

(** The lines of one key. *)
Fixpoint value_lines (key : bytes) (values : list bytes) : result write_error bytes :=
  match values with
  | [] => Ok []
  | v :: values =>
      if negb (validHeaderValue v) then Err InvalidHeaderValue
      else match value_lines key values with Ok l => Ok (key ++ [58; 32] ++ v ++ crlf ++ l) | Err e => Err e end
  end.

(** [textproto.CanonicalMIMEHeaderKey] is only empty for an empty key. *)
Fixpoint header_lines (h : Header) (keys : list bytes) : result write_error bytes :=
  match keys with
  | [] => Ok []
  | key :: keys =>
      if bool_decide (key = []) || bool_decide (CanonicalHeaderKey key = []) then Err InvalidHeaderName
      else
        match value_lines key (default [] (h !! key)) with
        | Err e => Err e
        | Ok l => match header_lines h keys with Ok r => Ok (l ++ r) | Err e => Err e end
        end
  end.

Definition sorted_keys (skip : bytes -> bool) (h : Header) : list bytes :=
  merge_sort Strings_le (List.filter (fun k => negb (skip k)) (fst <$> map_to_list h)).

Definition appendHeaderLines (out : bytes) (h : Header) (skip : bytes -> bool) : result write_error bytes :=
  match header_lines h (sorted_keys skip h) with Ok l => Ok (out ++ l) | Err e => Err e end.

Record responseHead := Head {
  h_status : Z; h_header : Header; h_contentLength : Z; h_chunked : bool; h_trailers : list bytes; h_close : bool;
}.

(** What the response looks at of its request. *)
Record answered := Answered { isHead : bool; http11 : bool; http10 : bool; reqClose : bool }.

Fixpoint join (sep : bytes) (l : list bytes) : bytes :=
  match l with [] => [] | [x] => x | x :: l => x ++ sep ++ join sep l end.

Definition TrailerPrefix : bytes := str "Trailer:".

Definition appendResponseHead (out : bytes) (req : answered) (head : responseHead) : result write_error bytes :=
  if (h_status head <? 100) || (999 <? h_status head) then Err InvalidStatus
  else
    let connection :=
      if h_close head && negb (http10 req) then str "close"
      else if negb (h_close head) && http10 req then str "keep-alive" else [] in
    let text := StatusText (h_status head) in
    let text := match text with [] => str "Status" | _ => text end in
    let out := out ++ (if http10 req then str "HTTP/1.0 " else str "HTTP/1.1 ") ++ FormatInt (h_status head) 10 ++ [32] ++ text ++ crlf in
    let out := if bool_decide (is_Some (h_header head !! str "Date")) then out else out ++ str "Date: " ++ date ++ crlf in
    let out := if 0 <=? h_contentLength head then out ++ str "Content-Length: " ++ FormatInt (h_contentLength head) 10 ++ crlf else out in
    let out :=
      if h_chunked head then
        let out := out ++ str "Transfer-Encoding: chunked" ++ crlf in
        match h_trailers head with [] => out | l => out ++ str "Trailer: " ++ join (str ", ") l ++ crlf end
      else out in
    let out := match connection with [] => out | _ => out ++ str "Connection: " ++ connection ++ crlf end in
    match appendHeaderLines out (h_header head) (fun key =>
      EqualFold key (str "Content-Length") || EqualFold key (str "Transfer-Encoding") || EqualFold key (str "Trailer") ||
      is_prefix TrailerPrefix key || (EqualFold key (str "Connection") && negb (bool_decide (connection = [])))) with
    | Err e => Err e
    | Ok out => Ok (out ++ crlf)
    end.

(** * Trailers *)

Definition forbidden : list bytes :=
  str <$> ["Content-Length"; "Transfer-Encoding"; "Trailer"; "Host"; "Content-Type"; "Content-Encoding"; "Content-Range"; "Cache-Control";
           "Expect"; "Max-Forwards"; "Pragma"; "Range"; "Te"; "Authorization"; "Set-Cookie"; "Connection"; "Keep-Alive"; "Upgrade"]%string.
Definition forbiddenTrailer (name : bytes) : bool := bool_decide (CanonicalHeaderKey name ∈ forbidden).

Definition announcedTrailers (h : Header) : list bytes :=
  CanonicalHeaderKey <$> List.filter (fun n => negb (bool_decide (n = [])) && negb (forbiddenTrailer n)) (list_items (default [] (h !! str "Trailer"))).

Definition hasPrefixedTrailers (h : Header) : bool := existsb (is_prefix TrailerPrefix) (fst <$> map_to_list h).

Definition add_values (key : bytes) (values : list bytes) (t : Header) : Header := <[key := default [] (t !! key) ++ values]> t.

(** [trailer()]; [order] is the order in which the map of the header is ranged
    over. *)
Definition trailer (names : list bytes) (h : Header) (order : list (bytes * list bytes)) : Header :=
  let t := fold_left (fun t name => match default [] (h !! name) with [] => t | values => add_values name values t end) names ∅ in
  fold_left (fun t '(key, values) =>
    if is_prefix TrailerPrefix key && negb (forbiddenTrailer (drop (length TrailerPrefix) key))
    then add_values (CanonicalHeaderKey (drop (length TrailerPrefix) key)) values t else t) order t.

(** * A whole response *)

Record Response := MkResponse { StatusCode : Z; r_header : Header; r_body : bytes; Trailer : Header; r_close : bool }.

Definition declaredLength (h : Header) : Z :=
  match default [] (h !! str "Content-Length") with
  | [v] => match ParseInt (TrimSpace v) 10 with Some n => if 0 <=? n then n else -1 | None => -1 end
  | _ => -1
  end.

Definition marshalResponse (req : answered) (r : Response) (close : bool) : result write_error bytes :=
  let status := StatusCode r in
  let hasBody := statusHasBody status in
  let trailing := (0 <? Z.of_nat (size (Trailer r))) && http11 req in
  let kept := List.filter (fun '(k, _) => negb (forbiddenTrailer k)) (map_to_list (Trailer r)) in
  let body_chunked := negb (status =? 304) && hasBody && negb (isHead req) && trailing in
  let length :=
    if status =? 304 then declaredLength (r_header r)
    else if negb hasBody then -1
    else if isHead req then (if declaredLength (r_header r) <? 0 then len (r_body r) else declaredLength (r_header r))
    else if trailing then -1 else len (r_body r) in
  let names := if body_chunked then merge_sort Strings_le ((fun '(k, _) => CanonicalHeaderKey k) <$> kept) else [] in
  match appendResponseHead [] req (Head status (r_header r) length body_chunked names close) with
  | Err e => Err e
  | Ok out =>
      if isHead req || negb hasBody then Ok out
      else if negb body_chunked then Ok (out ++ r_body r)
      else
        let out := match r_body r with [] => out | b => appendChunk out b end in
        let t := list_to_map ((fun '(k, v) => (CanonicalHeaderKey k, v)) <$> kept) : Header in
        match appendHeaderLines (out ++ str "0" ++ crlf) t (fun _ => false) with
        | Err e => Err e
        | Ok out => Ok (out ++ crlf)
        end
  end.

(** * A response written piece by piece *)

Record responseWriter := Writer {
  header : Header;
  sent : Header;
  status : Z;
  declared : Z;
  written : Z;
  buf : bytes;
  committed : bool;
  w_chunked : bool;
  closeAfter : bool;
  trailers : list bytes;
  finished : bool;
}.

Record Context := MkContext {
  req : answered;
  wrote : bool;
  closing : bool;
  w : responseWriter;
  up : bool;
  out : bytes;
  closeRequested : bool;          (* CloseAfterSend was called *)
}.

(** [writer()] makes the writer on first use; one that was never used looks the
    same. *)
Definition new_writer : responseWriter := Writer ∅ ∅ 0 (-1) 0 [] false false false [] false.
Definition NewContext (r : answered) : Context := MkContext r false false new_writer true [] false.

Definition set_w (x : responseWriter) (c : Context) : Context :=
  MkContext (req c) (wrote c) (closing c) x (up c) (out c) (closeRequested c).

(** [Conn.SendOwned], [Send] and [SendFile]. *)
Definition send (b : bytes) (c : Context) : option write_error * Context :=
  if up c then (None, MkContext (req c) (wrote c) (closing c) (w c) true (out c ++ b) (closeRequested c)) else (Some ErrSend, c).

Definition WriteInterim (st : Z) (h : Header) (c : Context) : option write_error * Context :=
  if (st <? 100) || (199 <? st) || (st =? 101) then (Some InvalidStatus, c)
  else if wrote c || negb (status (w c) =? 0) then (Some InterimAfterFinal, c)
  else if negb (http11 (req c)) then (Some ErrNotSupported, c)
  else
    match appendHeaderLines (str "HTTP/1.1 " ++ FormatInt st 10 ++ [32] ++ StatusText st ++ crlf) h (fun _ => false) with
    | Err e => (Some e, c)
    | Ok b => send (b ++ crlf) c
    end.

(** [None] is the panic of an invalid code. *)
Definition WriteHeader (st : Z) (c : Context) : option Context :=
  let x := w c in
  if (st <? 100) || (999 <? st) then None
  else if wrote c || negb (status x =? 0) then Some c
  else if (st <? 200) && negb (st =? 101) then Some (snd (WriteInterim st (header x) c))
  else
    let n := declaredLength (header x) in
    let s := if n <? 0 then delete (str "Content-Length") (header x) else header x in
    Some (set_w (Writer (header x) s st n (written x) (buf x) (committed x) (w_chunked x) (closeAfter x) (trailers x) (finished x)) c).

(** The status a first [Write], [Flush] or [ReadFrom] sets. *)
Definition default_status (c : Context) : Context :=
  if status (w c) =? 0 then match WriteHeader 200 c with Some c => c | None => c end else c.

Definition sniffed (x : responseWriter) : Header :=
  if negb (bool_decide (is_Some (sent x !! str "Content-Type"))) && negb (len (buf x) =? 0) && statusHasBody (status x)
  then <[str "Content-Type" := [DetectContentType (take 512 (buf x))]]> (sent x) else sent x.

(** How [commit] frames the body. *)
Definition commit_head (final : bool) (c : Context) : responseHead :=
  let x := w c in
  let r := req c in
  let close := reqClose r || headerHasToken (sent x) (str "Connection") (str "close") in
  let names := announcedTrailers (sent x) in
  let mk := Head (status x) (sniffed x) in
  if negb (statusHasBody (status x)) then mk (if (status x =? 304) && (0 <=? declared x) then declared x else -1) false [] close
  else if 0 <=? declared x then mk (declared x) false [] close
  else if final && (((len names =? 0) && negb (hasPrefixedTrailers (header x))) || negb (http11 r))
  then mk (if negb (isHead r) || (0 <? written x) then written x else -1) false [] close
  else if isHead r then mk (-1) false [] close
  else if http11 r then mk (-1) true names close
  else mk (-1) false [] true.

Definition commit (final : bool) (c : Context) : option write_error * Context :=
  let head := commit_head final c in
  let x := w c in
  let x := Writer (header x) (sniffed x) (status x) (declared x) (written x) (buf x) (committed x) (w_chunked x) (closeAfter x)
             (announcedTrailers (sent x)) (finished x) in
  match appendResponseHead [] (req c) head with
  | Err e => (Some e, set_w x c)
  | Ok b =>
      let b := match buf x with [] => b | body => if h_chunked head then appendChunk b body else b ++ body end in
      let x := Writer (header x) (sent x) (status x) (declared x) (written x) [] true (h_chunked head) (h_close head) (trailers x) (finished x) in
      send b (MkContext (req c) (wrote c) (h_close head) x (up c) (out c) (closeRequested c))
  end.

Definition sendBody (p : bytes) (c : Context) : option write_error * Context :=
  if negb (w_chunked (w c)) then send p c else send (appendChunk [] p) c.

Definition set_body (n : Z) (b : bytes) (c : Context) : Context :=
  let x := w c in
  set_w (Writer (header x) (sent x) (status x) (declared x) n b (committed x) (w_chunked x) (closeAfter x) (trailers x) (finished x)) c.

(** [Write]; the error, or that all of [p] was taken. *)
Definition Write (p : bytes) (c : Context) : option write_error * Context :=
  if wrote c then (Some ErrResponseWritten, c)
  else
    let c := default_status c in
    let x := w c in
    if finished x then (Some ErrResponseWritten, c)
    else if negb (statusHasBody (status x)) then (Some ErrBodyNotAllowed, c)
    else if (0 <=? declared x) && (declared x <? written x + len p) then (Some ErrContentLength, c)
    else
      let c := set_body (written x + len p) (buf x) c in
      if isHead (req c) || (len p =? 0) then (None, c)
      else if negb (committed x) && (len (buf x) + len p <=? writerBufferSize) then (None, set_body (written x + len p) (buf x ++ p) c)
      else
        let '(e, c) := if negb (committed x) then commit false c else (None, c) in
        match e with Some e => (Some e, c) | None => sendBody p c end.

Definition FlushError (c : Context) : option write_error * Context :=
  if wrote c then (Some ErrResponseWritten, c)
  else
    let c := default_status c in
    if finished (w c) then (None, c)
    else if negb (committed (w c)) then commit false c else (None, c).

(** [io.Copy] through [Write], 32 KB at a time. *)
Fixpoint copy_writes (fuel : nat) (src : bytes) (c : Context) : option write_error * Context :=
  match fuel with
  | O => (None, c)
  | S fuel =>
      match src with
      | [] => (None, c)
      | _ =>
          let '(e, c) := Write (take (Z.to_nat (Z.shiftl 32 10)) src) c in
          match e with Some e => (Some e, c) | None => copy_writes fuel (drop (Z.to_nat (Z.shiftl 32 10)) src) c end
      end
  end.

(** [ReadFrom] of a regular file with these bytes left in it. *)
Definition ReadFrom_file (file : bytes) (c : Context) : option write_error * Context :=
  if wrote c then (Some ErrResponseWritten, c)
  else
    let x := w c in
    if isHead (req c) || finished x || (negb (status x =? 0) && negb (statusHasBody (status x))) || (len file <? minSendFileSize) ||
       ((0 <=? declared x) && (declared x <? written x + len file))
    then copy_writes (length file) file c
    else
      let c :=
        if status x =? 0 then
          let h := if negb (bool_decide (is_Some (header x !! str "Content-Type"))) && (written x =? 0)
                   then <[str "Content-Type" := [DetectContentType (take 512 file)]]> (header x) else header x in
          default_status (set_w (Writer h (sent x) (status x) (declared x) (written x) (buf x) (committed x) (w_chunked x) (closeAfter x) (trailers x) (finished x)) c)
        else c in
      let '(e, c) := if negb (committed (w c)) then commit false c else (None, c) in
      match e with
      | Some e => (Some e, c)
      | None =>
          let '(e, c) := if w_chunked (w c) then send (FormatInt (len file) 16 ++ crlf) c else (None, c) in
          match e with
          | Some e => (Some e, c)
          | None =>
              let '(e, c) := send file c in
              match e with
              | Some e => (Some e, c)
              | None =>
                  let '(e, c) := if w_chunked (w c) then send crlf c else (None, c) in
                  match e with Some e => (Some e, c) | None => (None, set_body (written (w c) + len file) (buf (w c)) c) end
              end
          end
      end.

(** [Finish]; [order] is how the header's map is ranged over. *)
Definition Finish (order : list (bytes * list bytes)) (c : Context) : option write_error * Context :=
  let x := w c in
  if (status x =? 0) || finished x || wrote c then (None, c)
  else
    let c := set_w (Writer (header x) (sent x) (status x) (declared x) (written x) (buf x) (committed x) (w_chunked x) (closeAfter x) (trailers x) true) c in
    let '(e, c) := if negb (committed x) then commit true c else (None, c) in
    match e with
    | Some e => (Some e, c)
    | None =>
        let x := w c in
        let '(e, c) :=
          if w_chunked x then
            let last := match appendHeaderLines (str "0" ++ crlf) (trailer (trailers x) (header x) order) (fun _ => false) with
                        | Ok b => b | Err _ => str "0" ++ crlf end in
            send (last ++ crlf) c
          else (None, c) in
        match e with
        | Some e => (Some e, c)
        | None =>
            let short := (0 <=? declared x) && (written x <? declared x) && negb (isHead (req c)) && statusHasBody (status x) in
            let close := closeAfter x || short in
            (None, MkContext (req c) true (closing c || close) (w c) (up c) (out c) (closeRequested c || close))
        end
    end.

(** [WriteResponse] on an HTTP/1 connection. *)
Definition WriteResponse (r : Response) (c : Context) : option write_error * Context :=
  if negb (status (w c) =? 0) then (Some ErrResponseWritten, c)
  else if wrote c then (Some ErrResponseWritten, c)
  else
    let r := if StatusCode r =? 0 then MkResponse 200 (r_header r) (r_body r) (Trailer r) (r_close r) else r in
    let close := r_close r || reqClose (req c) || headerHasToken (r_header r) (str "Connection") (str "close") in
    match marshalResponse (req c) r close with
    | Err e => (Some e, c)
    | Ok data =>
        let '(e, c) := send data c in
        match e with
        | Some e => (Some e, c)
        | None => (None, MkContext (req c) true (closing c || close) (w c) (up c) (out c) (closeRequested c || close))
        end
    end.

(** * What a handler does *)

Inductive op :=
  | OHeader (h : Header)          (* changes to Header(), any of them *)
  | OStatus (st : Z)              (* WriteHeader *)
  | OWrite (p : bytes)
  | OFlush.

(** What was added to the body, or [None] when the response failed: its header
    could not be written or the connection was gone. *)
Definition do_op (o : op) (c : Context) : option (bytes * Context) :=
  match o with
  | OHeader h =>
      let x := w c in
      Some ([], set_w (Writer h (sent x) (status x) (declared x) (written x) (buf x) (committed x) (w_chunked x) (closeAfter x) (trailers x) (finished x)) c)
  | OStatus st => match WriteHeader st c with Some c => Some ([], c) | None => None end
  | OWrite p =>
      match Write p c with
      | (None, c) => Some (p, c)
      | (Some ErrContentLength, c) | (Some ErrBodyNotAllowed, c) => Some ([], c)
      | (Some _, _) => None
      end
  | OFlush => match FlushError c with (None, c) => Some ([], c) | (Some _, _) => None end
  end.

Fixpoint do_ops (ops : list op) (c : Context) : option (bytes * Context) :=
  match ops with
  | [] => Some ([], c)
  | o :: ops =>
      match do_op o c with
      | None => None
      | Some (b, c) => match do_ops ops c with Some (b', c) => Some (b ++ b', c) | None => None end
      end
  end.
End writer.
