(* ===== verification/HttpFraming.v ===== *)
(** What a response promises it keeps (src/go/http/response_writer.go,
    parser.go): the header [commit] writes frames exactly the body the handler
    wrote, and the chunks of a response end where the scanner of parser.go and
    response_parser.go says. *)
From Stdlib Require Import String.
From S2P Require Import Prelude.
From S2P Require Import HpackTables.
From S2P Require Import GoText.
From S2P Require Import HttpParser.
From S2P Require Import HttpWriter.

Section framing.
Context (StatusText : Z -> bytes) (DetectContentType : bytes -> bytes) (CanonicalHeaderKey : bytes -> bytes) (date : bytes).
Implicit Types c : Context.

Abbreviation appendResponseHead := (appendResponseHead StatusText CanonicalHeaderKey date).
Abbreviation commit := (commit StatusText DetectContentType CanonicalHeaderKey date).
Abbreviation Write := (Write StatusText DetectContentType CanonicalHeaderKey date).
Abbreviation do_ops := (do_ops StatusText DetectContentType CanonicalHeaderKey date).
Abbreviation Finish := (Finish StatusText DetectContentType CanonicalHeaderKey date).

(** The chunks of some pieces. *)
Definition chunks (pieces : list bytes) : bytes := mjoin (appendChunk [] <$> pieces).

Lemma chunks_snoc pieces p : chunks (pieces ++ [p]) = chunks pieces ++ appendChunk [] p.
Proof. unfold chunks. rewrite fmap_app, join_app. change (mjoin (appendChunk [] <$> [p])) with (appendChunk [] p ++ []). by rewrite app_nil_r. Qed.

(** ** The response so far *)

(** How the bytes after the header stand for the body. *)
Definition payload_of (head : responseHead) (headed : bool) (body payload : bytes) : Prop :=
  if headed then payload = []
  else if h_chunked head then exists pieces, payload = chunks pieces /\ mjoin pieces = body /\ Forall (fun p => p <> []) pieces
  else payload = body.

Record so_far (pre body : bytes) c : Prop := {
  sf_up : up c = true;
  sf_open : wrote c = false /\ finished (w c) = false /\ closeRequested c = false;
  sf_written : written (w c) = len body;
  sf_declared : -1 <= declared (w c) /\ (0 <= declared (w c) -> written (w c) <= declared (w c));
  sf_unset : status (w c) = 0 -> declared (w c) = -1 /\ body = [] /\ committed (w c) = false;
  sf_nobody : statusHasBody (status (w c)) = false -> body = [];
  sf_held : committed (w c) = false -> out c = pre /\ buf (w c) = if isHead (req c) then [] else body;
  sf_sent : committed (w c) = true ->
    buf (w c) = [] /\ exists head hb payload,
      appendResponseHead [] (req c) head = Ok hb /\ out c = pre ++ hb ++ payload /\
      w_chunked (w c) = h_chunked head /\ closeAfter (w c) = h_close head /\ payload_of head (isHead (req c)) body payload /\
      h_status head = status (w c) /\
      (statusHasBody (status (w c)) = true -> isHead (req c) = false -> h_chunked head = false ->
        h_contentLength head = declared (w c) /\ (declared (w c) < 0 -> h_close head = true)) /\
      (h_chunked head = true -> isHead (req c) = false /\ statusHasBody (status (w c)) = true);
}.

Lemma so_far_new r : so_far [] [] (NewContext r).
Proof. split; cbn; try done; try lia. intros _. split; [done|]. by destruct (isHead r). Qed.

(** ** Each operation *)

Lemma default_status_cases c :
  wrote c = false ->
  default_status StatusText CanonicalHeaderKey c = c /\ status (w c) <> 0 \/
  status (w c) = 0 /\ exists s n, -1 <= n /\ default_status StatusText CanonicalHeaderKey c =
    set_w (Writer (header (w c)) s 200 n (written (w c)) (buf (w c)) (committed (w c)) (w_chunked (w c)) (closeAfter (w c)) (trailers (w c)) (finished (w c))) c.
Proof.
  intros Hw. unfold default_status. destruct (Z.eqb_spec (status (w c)) 0) as [E|E]; [|by left]. right. split; [done|].
  unfold WriteHeader. rewrite Hw, E. cbn [Z.ltb Z.eqb Z.compare Pos.compare Pos.compare_cont orb negb andb].
  eexists _, (declaredLength (header (w c))). split; [|done]. unfold declaredLength. destruct (default [] _) as [|v [|]]; [lia| |lia].
  destruct (ParseInt _ 10) as [n|]; [|lia]. destruct (Z.leb_spec 0 n); lia.
Qed.

Lemma so_far_status pre body c st n s :
  so_far pre body c -> status (w c) = 0 -> 100 <= st -> -1 <= n -> so_far pre body (set_w (Writer (header (w c)) s st n (written (w c)) (buf (w c)) (committed (w c)) (w_chunked (w c)) (closeAfter (w c)) (trailers (w c)) (finished (w c))) c).
Proof.
  intros [] E Hst Hn. destruct (sf_unset0 E) as (_ & Hb & Hcm). split; cbn [set_w w up wrote finished closeRequested written declared status committed out buf req]; try done.
  - split; [done|]. rewrite sf_written0, Hb. change (len (@nil Z)) with 0. lia.
  - lia.
  - by rewrite Hcm.
Qed.

Lemma default_status_so_far pre body c : so_far pre body c ->
  so_far pre body (default_status StatusText CanonicalHeaderKey c) /\ status (w (default_status StatusText CanonicalHeaderKey c)) <> 0.
Proof.
  intros H. destruct (sf_open _ _ _ H) as (Hw & _ & _). destruct (default_status_cases c Hw) as [[-> ?]|(E & s & n & Hn & ->)]; [done|].
  split; [apply so_far_status; [done|done|lia|done]|done].
Qed.

Lemma send_up b c e c' : up c = true -> send b c = (e, c') ->
  e = None /\ c' = MkContext (req c) (wrote c) (closing c) (w c) true (out c ++ b) (closeRequested c).
Proof. unfold send. intros ->. intros [= <- <-]. done. Qed.

(** Committing before the end. *)
Lemma commit_so_far pre body c e c' :
  so_far pre body c -> committed (w c) = false -> status (w c) <> 0 -> commit false c = (e, c') ->
  e = None -> so_far pre body c' /\ committed (w c') = true /\ status (w c') = status (w c) /\ req c' = req c.
Proof.
  intros H Hcm Hst Hc ->. destruct (sf_held _ _ _ H Hcm) as [Ho Hbuf]. pose proof H as []. unfold HttpWriter.commit in Hc.
  destruct (appendResponseHead [] (req c) _) as [hb|err] eqn:Eh; [|done]. set (head := commit_head _ _ false c) in *.
  cbn [buf] in Hc. apply send_up in Hc; [|done]. destruct Hc as [_ ->]. cbn [req wrote closing w out closeRequested committed status].
  split; [|done]. split; cbn [up wrote finished closeRequested written declared status committed out buf req w w_chunked closeAfter]; try done.
  intros _. split; [done|]. rewrite Ho.
  assert (Hhs : h_status head = status (w c)) by (unfold head, commit_head; repeat (case_match; try done)).
  assert (Hfr : statusHasBody (status (w c)) = true -> isHead (req c) = false -> h_chunked head = false ->
    h_contentLength head = declared (w c) /\ (declared (w c) < 0 -> h_close head = true)).
  { intros H1 H2. unfold head, commit_head. rewrite H1, H2. cbn [negb andb]. destruct (Z.leb_spec 0 (declared (w c))); [cbn; lia|].
    destruct (http11 (req c)); cbn; [done|]. intros _. split; [lia|done]. }
  assert (Hch : h_chunked head = true -> isHead (req c) = false /\ statusHasBody (status (w c)) = true).
  { unfold head, commit_head. destruct (statusHasBody (status (w c))); cbn [negb andb]; [|done]. destruct (0 <=? declared (w c)); [done|].
    by destruct (isHead (req c)). }
  exists head, hb. destruct (buf (w c)) as [|b0 bs] eqn:Eb.
  - exists []. rewrite app_nil_r. split; [done|]. split; [done|]. split; [done|]. split; [done|]. split; [|done]. unfold payload_of.
    destruct (isHead (req c)); [done|]. destruct (h_chunked head); [|done]. exists []. split; [done|]. split; [done|]. constructor.
  - destruct (isHead (req c)); [done|]. rewrite Hbuf in *. destruct (h_chunked head) eqn:Ec.
    + exists (appendChunk [] body). split; [done|]. split; [done|]. split; [done|]. split; [done|]. split; [|done].
      unfold payload_of. rewrite Ec. exists [body]. split; [unfold chunks; cbn [fmap list_fmap mjoin list_join]; by rewrite app_nil_r|].
      split; [cbn; by rewrite app_nil_r|]. constructor; [by rewrite <- Hbuf|constructor].
    + exists body. split; [done|]. split; [done|]. split; [done|]. split; [done|]. split; [|done]. unfold payload_of. by rewrite Ec.
Qed.

(** The count of what was written does not matter to it. *)
Lemma commit_written n c e c' :
  commit false (set_body n (buf (w c)) c) = (e, c') -> exists c'', commit false c = (e, c'') /\ c' = set_body n (buf (w c'')) c''.
Proof.
  unfold HttpWriter.commit. change (commit_head _ _ false (set_body n (buf (w c)) c)) with (commit_head DetectContentType CanonicalHeaderKey false c).
  cbn [req set_body set_w w]. destruct (appendResponseHead [] (req c) _) as [hb|err]; [|intros [= <- <-]; by eexists].
  unfold send. cbn [up set_body set_w]. destruct (up c); intros [= <- <-]; by eexists.
Qed.

Lemma sendBody_so_far pre body p c e c' :
  so_far pre body c -> committed (w c) = true -> isHead (req c) = false -> p <> [] -> statusHasBody (status (w c)) = true ->
  (0 <= declared (w c) -> len (body ++ p) <= declared (w c)) -> status (w c) <> 0 ->
  sendBody p (set_body (len (body ++ p)) (buf (w c)) c) = (e, c') -> e = None /\ so_far pre (body ++ p) c'.
Proof.
  intros H Hcm Hh Hp Hst Hd Hs0 Hsend. pose proof H as []. destruct (sf_sent0 Hcm) as (Hbuf & head & hb & payload & E1 & E2 & E3 & E4 & E5 & E6 & E7).
  unfold sendBody in Hsend. cbn [set_body set_w w w_chunked] in Hsend.
  assert (Hnew : exists payload', e = None /\ c' = MkContext (req c) (wrote c) (closing c)
      (Writer (header (w c)) (sent (w c)) (status (w c)) (declared (w c)) (len (body ++ p)) (buf (w c)) (committed (w c)) (w_chunked (w c)) (closeAfter (w c)) (trailers (w c)) (finished (w c)))
      true (pre ++ hb ++ payload') (closeRequested c) /\ payload_of head (isHead (req c)) (body ++ p) payload').
  { unfold payload_of in *. rewrite Hh in *. rewrite E3 in Hsend. destruct (h_chunked head); cbn [negb] in Hsend.
    - apply send_up in Hsend; [|done]. destruct Hsend as [-> ->]. destruct E5 as (pieces & Ep & Em & Ef).
      exists (chunks (pieces ++ [p])). cbn [set_body set_w w req wrote closing out closeRequested]. split; [done|]. split; [f_equal; rewrite E2, Ep, chunks_snoc, <- !app_assoc; done|].
      exists (pieces ++ [p]). split; [done|]. split; [rewrite join_app, Em; cbn; by rewrite app_nil_r|]. apply Forall_app. split; [done|]. by constructor.
    - apply send_up in Hsend; [|done]. destruct Hsend as [-> ->]. exists (body ++ p). cbn [set_body set_w w req wrote closing out closeRequested]. split; [done|]. split; [|done]. f_equal. by rewrite E2, E5, <- !app_assoc. }
  destruct Hnew as (payload' & -> & -> & Hpl). split; [done|].
  split; cbn [up wrote finished closeRequested written declared status committed out buf req w w_chunked closeAfter]; try done.
  - split; [lia|done].
  - congruence.
  - congruence.
  - intros _. split; [done|]. by exists head, hb, payload'.
Qed.

Lemma sendBody_status p c e c' : sendBody p c = (e, c') -> status (w c') = status (w c).
Proof. unfold sendBody, send. destruct (negb _), (up c); by intros [= <- <-]. Qed.

Lemma commit_declared final c e c' : commit final c = (e, c') -> declared (w c') = declared (w c).
Proof. unfold HttpWriter.commit, send. destruct (appendResponseHead _ _ _); [|by intros [= <- <-]]. cbn [up]. destruct (up c); by intros [= <- <-]. Qed.

(** What goes wrong with a header is not what [Write] refuses a piece with. *)
Lemma header_lines_error h keys e : header_lines CanonicalHeaderKey h keys = Err e -> e = InvalidHeaderName \/ e = InvalidHeaderValue.
Proof.
  assert (Hv : forall key values e, value_lines key values = Err e -> e = InvalidHeaderValue).
  { intros key. induction values as [|v values IH]; [done|]. intros e'. cbn [value_lines]. destruct (negb _); [by intros [= <-]|].
    destruct (value_lines key values); [done|]. intros [= <-]. by apply IH. }
  induction keys as [|key keys IH]; [done|]. cbn [header_lines]. destruct (_ || _); [intros [= <-]; by left|].
  destruct (value_lines key _) as [l|e'] eqn:E; [|intros [= <-]; right; by apply (Hv key _ _ E)]. destruct (header_lines _ h keys); [done|]. intros [= <-]. by apply IH.
Qed.

Lemma commit_error final c e c' : commit final c = (Some e, c') -> e <> ErrContentLength /\ e <> ErrBodyNotAllowed.
Proof.
  unfold HttpWriter.commit. destruct (appendResponseHead [] (req c) _) as [hb|err] eqn:E.
  - unfold send. destruct (up _); intros [= <- <-]; done.
  - intros [= <- <-]. unfold HttpWriter.appendResponseHead in E. destruct (_ || _); [injection E as <-; done|].
    unfold appendHeaderLines in E. destruct (header_lines _ _ _) as [l|e'] eqn:Eh; [done|]. injection E as <-. apply header_lines_error in Eh. by destruct Eh as [->| ->].
Qed.

Lemma Write_so_far pre body p c :
  so_far pre body c ->
  match Write p c with
  | (None, c') => so_far pre (body ++ p) c' /\ status (w c') <> 0
  | (Some ErrContentLength, c') | (Some ErrBodyNotAllowed, c') => so_far pre body c' /\ status (w c') <> 0
  | (Some _, _) => True
  end.
Proof.
  intros H0. destruct (sf_open _ _ _ H0) as (Hw0 & _ & _). unfold HttpWriter.Write. rewrite Hw0.
  destruct (default_status_so_far pre body c H0) as [H Hs0]. set (c1 := default_status _ _ c) in *. clearbody c1. clear c H0 Hw0.
  rewrite (proj1 (proj2 (sf_open _ _ _ H))). destruct (statusHasBody (status (w c1))) eqn:Est; [|done]. cbn [negb]. pose proof H as [].
  destruct (_ && _) eqn:Ed; [done|].
  assert (Hd : 0 <= declared (w c1) -> len (body ++ p) <= declared (w c1)) by (rewrite len_app; rewrite sf_written0 in Ed; lia).
  rewrite sf_written0, <- len_app. set (c2 := set_body (len (body ++ p)) (buf (w c1)) c1).
  assert (Hkeep : (isHead (req c1) = true \/ p = []) -> so_far pre (body ++ p) c2).
  { intros Hk. unfold c2. split; cbn [set_body set_w up wrote finished closeRequested written declared status committed out buf req w w_chunked closeAfter]; try done.
    - split; [lia|]. done.
    - congruence.
    - intros Hc. destruct (sf_held0 Hc) as [-> ->]. split; [done|]. destruct (isHead (req c1)); [done|]. destruct Hk as [| ->]; [done|]. by rewrite app_nil_r.
    - intros Hc. destruct (sf_sent0 Hc) as (Hb & head & hb & payload & E1 & E2 & E3 & E4 & E5 & E6). split; [done|]. exists head, hb, payload.
      split; [done|]. split; [done|]. split; [done|]. split; [done|]. split; [|done]. unfold payload_of in *. destruct (isHead (req c1)); [done|].
      destruct Hk as [| ->]; [done|]. by rewrite app_nil_r. }
  change (isHead (req c2)) with (isHead (req c1)). destruct (isHead (req c1)) eqn:Eh; [split; [apply Hkeep; by left|done]|]. cbn [orb].
  destruct (Z.eqb_spec (len p) 0) as [Ep|Ep]; [split; [apply Hkeep; right; by apply len_zero_nil|done]|].
  assert (Hp : p <> []) by (intros ->; by apply Ep). destruct (committed (w c1)) eqn:Ecm; cbn [negb andb].
  - destruct (sendBody p c2) as [e c'] eqn:Es. destruct (sendBody_so_far pre body p c1 e c' H Ecm Eh Hp Est Hd Hs0 Es) as [-> Hn].
    split; [done|]. by rewrite (sendBody_status p c2 _ _ Es).
  - destruct (len (buf (w c1)) + len p <=? writerBufferSize).
    + split; [|done]. unfold c2. split; cbn [set_body set_w up wrote finished closeRequested written declared status committed out buf req w w_chunked closeAfter]; try done.
      * split; [lia|done].
      * congruence.
      * intros _. destruct (sf_held0 eq_refl) as [-> ->]. rewrite Eh. done.
      * congruence.
    + destruct (commit false c2) as [e c3] eqn:Ec. apply commit_written in Ec as (c4 & Ec & ->). destruct e as [e|]; [destruct (commit_error _ _ _ _ Ec); by destruct e|].
      destruct (commit_so_far pre body c1 _ _ H Ecm Hs0 Ec eq_refl) as (H4 & Hc4 & Hst4 & Hr4).
      destruct (sendBody p _) as [e c'] eqn:Es. assert (Hd4 : declared (w c4) = declared (w c1)) by (by apply (commit_declared _ _ _ _ Ec)).
      destruct (sendBody_so_far pre body p c4 e c' H4 Hc4) as [-> Hn]; try done; [by rewrite Hr4|by rewrite Hst4|by rewrite Hd4|by rewrite Hst4|].
      split; [done|]. rewrite (sendBody_status p _ _ _ Es). cbn. by rewrite Hst4.
Qed.

Lemma WriteHeader_so_far pre body st c c' :
  so_far pre body c -> WriteHeader StatusText CanonicalHeaderKey st c = Some c' -> exists pre', so_far (pre ++ pre') body c' /\ (200 <= st -> pre' = []).
Proof.
  intros H. pose proof H as [].
  assert (Hsame : exists pre', so_far (pre ++ pre') body c /\ (200 <= st -> pre' = [])) by (exists []; by rewrite app_nil_r). unfold WriteHeader. destruct (_ || _) eqn:E0; [done|]. rewrite (proj1 sf_open0). cbn [orb].
  destruct (Z.eqb_spec (status (w c)) 0) as [Es|Es]; cbn [negb]; [|intros [= <-]; exact Hsame].
  destruct (_ && _) eqn:E1.
  - intros [= <-]. unfold WriteInterim. destruct ((st <? 100) || (199 <? st) || (st =? 101)); [exact Hsame|].
    destruct (wrote c || negb (status (w c) =? 0)); [exact Hsame|].
    destruct (negb (http11 (req c))); [exact Hsame|]. destruct (appendHeaderLines _ _ _ _) as [b|e]; [|exact Hsame].
    destruct (send (b ++ crlf) c) as [e c'] eqn:E. apply send_up in E; [|done]. destruct E as [-> ->]. cbn [snd].
    exists (b ++ crlf). split; [|lia]. destruct (sf_unset0 Es) as (_ & Hb & Hcm). destruct (sf_held0 Hcm) as [Ho Hbuf].
    split; cbn [up wrote finished closeRequested written declared status committed out buf req w w_chunked closeAfter]; try done; [|by rewrite Hcm].
    intros _. by rewrite Ho.
  - intros [= <-]. exists []. rewrite app_nil_r. split; [|done]. apply so_far_status; [done|done|lia|].
    unfold declaredLength. destruct (default [] _) as [|v [|]]; [lia| |lia]. destruct (ParseInt _ 10) as [n|]; [|lia]. destruct (Z.leb_spec 0 n); lia.
Qed.

Lemma FlushError_so_far pre body c c' : so_far pre body c -> FlushError StatusText DetectContentType CanonicalHeaderKey date c = (None, c') -> so_far pre body c'.
Proof.
  intros H. unfold FlushError. rewrite (proj1 (sf_open _ _ _ H)). destruct (default_status_so_far pre body c H) as [H1 Hs]. set (c1 := default_status _ _ c) in *.
  rewrite (proj1 (proj2 (sf_open _ _ _ H1))). destruct (committed (w c1)) eqn:E; cbn [negb]; [by intros [= <-]|].
  intros Hc. by destruct (commit_so_far pre body c1 _ _ H1 E Hs Hc eq_refl).
Qed.

Lemma do_ops_so_far pre body ops c b c' : so_far pre body c -> do_ops ops c = Some (b, c') -> exists pre', so_far (pre ++ pre') (body ++ b) c'.
Proof.
  revert pre body c b. induction ops as [|o ops IH]; intros pre body c b H; cbn [HttpWriter.do_ops].
  - intros [= <- <-]. exists []. by rewrite !app_nil_r.
  - destruct (do_op _ _ _ _ o c) as [[b1 c1]|] eqn:E1; [|done].
    assert (H1 : exists pre1, so_far (pre ++ pre1) (body ++ b1) c1).
    { destruct o as [h|st|p|]; cbn [do_op] in E1.
      - injection E1 as <- <-. exists []. rewrite !app_nil_r. by destruct H.
      - destruct (WriteHeader _ _ st c) as [c2|] eqn:E2; [|done]. injection E1 as <- <-. destruct (WriteHeader_so_far pre body st c c2 H E2) as (pre' & ? & _).
        exists pre'. by rewrite app_nil_r.
      - pose proof (Write_so_far pre body p c H) as Hw. destruct (Write p c) as [[e|] c2]; [|injection E1 as <- <-; exists []; rewrite app_nil_r; by destruct Hw].
        destruct e; try done; injection E1 as <- <-; exists []; rewrite !app_nil_r; by destruct Hw.
      - destruct (FlushError _ _ _ _ c) as [[e|] c2] eqn:E2; [done|]. injection E1 as <- <-. exists []. rewrite !app_nil_r. by apply (FlushError_so_far pre body c). }
    destruct H1 as [pre1 H1]. destruct (do_ops ops c1) as [[b2 c2]|] eqn:E2; [|done]. intros [= <- <-].
    destruct (IH _ _ _ _ H1 E2) as [pre2 H2]. exists (pre1 ++ pre2). by rewrite !app_assoc.
Qed.

(** ** The end of the response *)

(** What [Finish] adds after the chunks. *)
Definition last_chunk (x : responseWriter) (order : list (bytes * list bytes)) : bytes :=
  match appendHeaderLines CanonicalHeaderKey (str "0" ++ crlf) (trailer CanonicalHeaderKey (trailers x) (header x) order) (fun _ => false) with
  | Ok b => b | Err _ => str "0" ++ crlf end ++ crlf.

(** The bytes after the header are the body, framed as the header says. *)
Definition framed (c : Context) (head : responseHead) (body payload : bytes) (order : list (bytes * list bytes)) : Prop :=
  if isHead (req c) || negb (statusHasBody (h_status head)) then payload = []
  else if h_chunked head then
    exists pieces, payload = chunks pieces ++ last_chunk (w c) order /\ mjoin pieces = body /\ Forall (fun p => p <> []) pieces
  else payload = body /\ (h_contentLength head = len body \/ (h_contentLength head < 0 \/ len body < h_contentLength head) /\ closeRequested c = true).

Definition mark_finished (c : Context) : Context :=
  let x := w c in
  set_w (Writer (header x) (sent x) (status x) (declared x) (written x) (buf x) (committed x) (w_chunked x) (closeAfter x) (trailers x) true) c.

(** The response when all that is missing is its end. *)
Record ready (pre body : bytes) (c0 c : Context) : Prop := {
  rd_up : up c = true;
  rd_close : closeRequested c = false;
  rd_same : req c = req c0 /\ declared (w c) = declared (w c0) /\ written (w c) = written (w c0) /\ status (w c) = status (w c0);
  rd_sent : exists head hb payload,
    appendResponseHead [] (req c) head = Ok hb /\ out c = pre ++ hb ++ payload /\ w_chunked (w c) = h_chunked head /\ closeAfter (w c) = h_close head /\
    payload_of head (isHead (req c)) body payload /\ h_status head = status (w c) /\
    (statusHasBody (status (w c)) = true -> isHead (req c) = false -> h_chunked head = false ->
      h_contentLength head = declared (w c) /\ (declared (w c) < 0 -> h_close head = true) \/ h_contentLength head = len body) /\
    (h_chunked head = true -> isHead (req c) = false /\ statusHasBody (status (w c)) = true);
}.

Lemma commit_final pre body c c' :
  so_far pre body c -> committed (w c) = false -> status (w c) <> 0 -> commit true (mark_finished c) = (None, c') -> ready pre body c c'.
Proof.
  intros H Hcm Hst Hc. destruct (sf_held _ _ _ H Hcm) as [Ho Hbuf]. pose proof H as []. unfold HttpWriter.commit in Hc.
  change (req (mark_finished c)) with (req c) in Hc.
  destruct (appendResponseHead [] (req c) _) as [hb|err] eqn:Eh; [|done].
  change (commit_head DetectContentType CanonicalHeaderKey true (mark_finished c)) with (commit_head DetectContentType CanonicalHeaderKey true c) in *.
  set (head := commit_head _ _ true c) in *. cbn [buf mark_finished set_w w] in Hc. apply send_up in Hc; [|done]. destruct Hc as [_ ->].
  assert (Hhs : h_status head = status (w c)) by (unfold head, commit_head; repeat (case_match; try done)).
  assert (Hfr : statusHasBody (status (w c)) = true -> isHead (req c) = false -> h_chunked head = false ->
    h_contentLength head = declared (w c) /\ (declared (w c) < 0 -> h_close head = true) \/ h_contentLength head = len body).
  { intros H1 H2. unfold head, commit_head. rewrite H1, H2. cbn [negb andb orb]. destruct (Z.leb_spec 0 (declared (w c))); [left; cbn; lia|].
    destruct (_ || _); [intros _; right; exact sf_written0|]. destruct (http11 (req c)); [done|]. intros _. left. cbn [h_contentLength h_close]. lia. }
  assert (Hch : h_chunked head = true -> isHead (req c) = false /\ statusHasBody (status (w c)) = true).
  { unfold head, commit_head. destruct (statusHasBody (status (w c))); cbn [negb andb]; [|done]. destruct (0 <=? declared (w c)); [done|].
    destruct (_ || _); [done|]. by destruct (isHead (req c)). }
  split; cbn [up closeRequested req w declared written status out w_chunked closeAfter mark_finished set_w]; try done; [by destruct sf_open0 as (_ & _ & ->)|].
  exists head, hb. rewrite Ho. destruct (buf (w c)) as [|b0 bs] eqn:Eb.
  - exists []. rewrite app_nil_r. do 4 (split; [done|]). split; [|done]. unfold payload_of.
    destruct (isHead (req c)); [done|]. destruct (h_chunked head); [|done]. exists []. split; [done|]. split; [done|]. constructor.
  - destruct (isHead (req c)); [done|]. rewrite Hbuf in *. destruct (h_chunked head) eqn:Ec.
    + exists (appendChunk [] body). do 4 (split; [done|]). split; [|done].
      unfold payload_of. rewrite Ec. exists [body]. split; [unfold chunks; cbn [fmap list_fmap mjoin list_join]; by rewrite app_nil_r|].
      split; [cbn; by rewrite app_nil_r|]. constructor; [by rewrite <- Hbuf|constructor].
    + exists body. do 4 (split; [done|]). split; [|done]. unfold payload_of. by rewrite Ec.
Qed.

Lemma committed_ready pre body c : so_far pre body c -> committed (w c) = true -> ready pre body c (mark_finished c).
Proof.
  intros [] Hcm. destruct (sf_sent0 Hcm) as (_ & head & hb & payload & E1 & E2 & E3 & E4 & E5 & E6 & E7 & E8).
  split; cbn [up closeRequested req w declared written status out w_chunked closeAfter mark_finished set_w]; [done|by destruct sf_open0 as (_ & _ & ->)|done|].
  exists head, hb, payload. do 6 (split; [done|]). split; [|done]. intros H1 H2 H3. left. by apply E7.
Qed.

Lemma commit_req final c : req (snd (commit final c)) = req c.
Proof. unfold HttpWriter.commit, send. destruct (appendResponseHead _ _ _); [|done]. cbn [up]. by destruct (up c). Qed.

Lemma default_status_req c : req (default_status StatusText CanonicalHeaderKey c) = req c.
Proof.
  unfold default_status, WriteHeader. destruct (_ =? _); [|done]. cbn [Z.ltb Z.compare Pos.compare Pos.compare_cont orb negb andb]. by destruct (_ || _).
Qed.

Lemma sendBody_req p c : req (snd (sendBody p c)) = req c.
Proof. unfold sendBody, send. by destruct (negb _), (up c). Qed.

Lemma Write_req p c : req (snd (Write p c)) = req c.
Proof.
  unfold HttpWriter.Write. destruct (wrote c); [done|]. rewrite <- (default_status_req c). set (c1 := default_status _ _ c). clearbody c1.
  destruct (finished (w c1)); [done|]. destruct (negb (statusHasBody _)); [done|]. destruct (_ && _); [done|].
  set (c2 := set_body _ _ c1). change (req c1) with (req c2). destruct (isHead (req c2) || _); [done|]. destruct (negb (committed (w c1)) && _); [done|].
  pose proof (commit_req false c2) as Hr. destruct (negb (committed (w c1))); [|apply sendBody_req].
  destruct (commit false c2) as [[e|] c3]; cbn [snd] in *; [done|]. by rewrite sendBody_req.
Qed.

Lemma do_op_req o c b c' : do_op StatusText DetectContentType CanonicalHeaderKey date o c = Some (b, c') -> req c' = req c.
Proof.
  destruct o as [h|st|p|]; cbn [do_op].
  - by intros [= <- <-].
  - unfold WriteHeader, WriteInterim. destruct ((st <? 100) || (999 <? st)); [done|]. destruct (wrote c || negb (status (w c) =? 0)); [by intros [= <- <-]|].
    destruct ((st <? 200) && negb (st =? 101)); [|by intros [= <- <-]]. intros [= <- <-]. destruct ((st <? 100) || (199 <? st) || (st =? 101)); [done|].
    destruct (negb (http11 (req c))); [done|]. destruct (appendHeaderLines _ _ _ _); [|done]. unfold send. by destruct (up c).
  - pose proof (Write_req p c) as H. destruct (Write p c) as [[e|] c1]; [destruct e; try done|]; by intros [= <- <-].
  - unfold FlushError. destruct (wrote c); [done|]. pose proof (default_status_req c) as Hd. set (c1 := default_status _ _ c) in *. clearbody c1.
    destruct (finished (w c1)); [by intros [= <- <-]|]. destruct (negb _); [|by intros [= <- <-]]. pose proof (commit_req false c1) as H.
    destruct (commit false c1) as [[e|] c2]; [done|]. intros [= <- <-]. cbn [snd] in H. congruence.
Qed.

Lemma do_ops_req ops c b c' : do_ops ops c = Some (b, c') -> req c' = req c.
Proof.
  revert c b. induction ops as [|o ops IH]; intros c b; cbn [HttpWriter.do_ops]; [by intros [= <- <-]|].
  destruct (do_op _ _ _ _ o c) as [[b1 c1]|] eqn:E; [|done]. apply do_op_req in E. destruct (do_ops ops c1) as [[b2 c2]|] eqn:E2; [|done].
  intros [= <- <-]. apply IH in E2. congruence.
Qed.

(** C16: Whatever a handler does, in whatever order it sets headers and the
    status, writes and flushes, the response that [Finish] ends is framed as its
    header says: no body for HEAD and for a status without one; the body in
    non-empty chunks, then the last chunk with the trailers; or the body as it
    is, of the length announced, and if the length was not announced or not
    reached, the connection is closed after it.  What precedes it on the
    connection is what interim responses sent. *)
Theorem response_framed r ops body c order c' :
  do_ops ops (NewContext r) = Some (body, c) -> status (w c) <> 0 -> Finish order c = (None, c') ->
  exists pre head hb payload,
    out c' = pre ++ hb ++ payload /\ appendResponseHead [] r head = Ok hb /\ framed c' head body payload order /\
    wrote c' = true /\ (h_close head = true -> closeRequested c' = true).
Proof.
  intros Hops Hst HF. destruct (do_ops_so_far [] [] ops _ _ _ (so_far_new r) Hops) as [pre H]. cbn [app] in H.
  pose proof (do_ops_req _ _ _ _ Hops : req c = r) as Hreq.
  unfold HttpWriter.Finish in HF. destruct (sf_open _ _ _ H) as (Hw & Hf & _). rewrite Hw, Hf in HF. destruct (Z.eqb_spec (status (w c)) 0); [done|]. cbn [orb] in HF.
  fold (mark_finished c) in HF.
  assert (HR : exists c1, (if negb (committed (w c)) then commit true (mark_finished c) else (None, mark_finished c)) = (None, c1) /\ ready pre body c c1).
  { destruct (committed (w c)) eqn:Ec; cbn [negb] in *; [exists (mark_finished c); split; [done|by apply committed_ready]|].
    destruct (commit true (mark_finished c)) as [[e|] c1] eqn:E; [done|]. exists c1. split; [done|]. by apply commit_final. }
  destruct HR as (c1 & E1 & HR). rewrite E1 in HF. destruct HR as [Hup Hcr (R1 & R2 & R3 & R4) (head & hb & payload & A1 & A2 & A3 & A4 & A5 & A6 & A7 & A8)].
  pose proof H as [_ _ Hwr Hde _ Hnb _ _]. rewrite <- R4 in Hnb. rewrite Hwr in R3, Hde. rewrite <- R2 in Hde. rewrite R1, Hreq in *.
  set (last := last_chunk (w c1) order).
  assert (Hend : c' = MkContext (req c1) true (closing c' ) (w c1) true (pre ++ hb ++ payload ++ (if h_chunked head then last else []))
      (closeAfter (w c1) || ((0 <=? declared (w c1)) && (written (w c1) <? declared (w c1)) && negb (isHead r) && statusHasBody (status (w c1))))).
  { rewrite A3 in HF. destruct (h_chunked head).
    - destruct (send _ c1) as [e c2] eqn:Es. apply send_up in Es; [|done]. destruct Es as [-> ->]. injection HF as <-.
      cbn [req w up out closing closeRequested]. rewrite Hcr, A2, R1. cbn [orb]. f_equal. by rewrite <- !app_assoc.
    - injection HF as <-. rewrite Hcr, Hup, A2, R1, app_nil_r. done. }
  rewrite Hend. exists pre, head, hb, (payload ++ (if h_chunked head then last else [])). cbn [out wrote closeRequested].
  split; [done|]. split; [done|]. split; [|split; [done|intros Hcl; by rewrite A4, Hcl]].
  unfold framed. cbn [req w closeRequested]. rewrite R1, A6. unfold payload_of in A5. destruct (isHead r) eqn:Eh; cbn [orb].
  { destruct (h_chunked head); [by destruct (A8 eq_refl)|]. by rewrite A5. }
  destruct (statusHasBody (status (w c1))) eqn:Est; cbn [negb andb].
  - destruct (h_chunked head) eqn:Ec; [destruct A5 as (pieces & -> & ? & ?); by exists pieces|]. rewrite app_nil_r. split; [done|].
    destruct (A7 eq_refl eq_refl eq_refl) as [[Hl Hcl]|Hl]; [|by left]. destruct Hde as [Hd1 Hd2]. rewrite A4, R3, Hl.
    destruct (Z.lt_ge_cases (declared (w c1)) 0) as [Hneg|Hpos]; [right; split; [by left|]; by rewrite Hcl|].
    specialize (Hd2 Hpos). destruct (Z.eq_dec (declared (w c1)) (len body)) as [->|Hne]; [by left|]. right. split; [right; lia|].
    destruct (Z.leb_spec 0 (declared (w c1))); [|lia]. destruct (Z.ltb_spec (len body) (declared (w c1))); [|lia]. by rewrite orb_true_r.
  - destruct (h_chunked head); [by destruct (A8 eq_refl)|]. rewrite app_nil_r, A5. by apply Hnb.
Qed.
End framing.

(** * Where a chunked body ends *)

Lemma hex_line n r : 0 <= n < 2 ^ 63 ->
  Index crlf (FormatInt n 16 ++ crlf ++ r) = Some (len (FormatInt n 16)) /\ IndexByte 59 (FormatInt n 16) = None /\
  ParseUint (TrimSpace (FormatInt n 16)) 16 63 = Some n.
Proof.
  intros Hn. destruct (FormatInt_hex n Hn) as (_ & Hh & Hp).
  assert (Hno : forall x, hex_digit x = false -> Forall (fun y => y <> x) (FormatInt n 16)).
  { intros x Hx. eapply Forall_impl; [exact Hh|]. intros y Hy ->. cbn in Hy. congruence. }
  split; [|split].
  - unfold crlf. rewrite Index_skip by (by apply Hno).
    assert (Index [13; 10] ([13; 10] ++ r) = Some 0) as -> by reflexivity. cbn [option_map]. by rewrite Z.add_0_r.
  - unfold IndexByte. apply Index_skip_None. by apply Hno.
  - by rewrite TrimSpace_hex.
Qed.

(** One chunk. *)
Lemma chunk_scan_chunk f p r off dec mt mb :
  p <> [] -> 0 <= dec -> dec + len p <= mb -> mb < 2 ^ 63 ->
  chunk_scan (S f) (appendChunk [] p ++ r) off dec mt mb = chunk_scan f r (off + len (appendChunk [] p)) (dec + len p) mt mb.
Proof.
  intros Hp Hdec Hmb Hb. pose proof (len_nonneg p) as Hlp. assert (Hn : 0 <= len p < 2 ^ 63) by lia. assert (Hp0 : len p <> 0) by (intros E; by apply len_zero_nil in E).
  unfold appendChunk. cbn [app]. rewrite <- !app_assoc. destruct (hex_line (len p) (p ++ crlf ++ r) Hn) as (H1 & H2 & H3).
  set (hx := FormatInt (len p) 16) in *. clearbody hx. cbn [chunk_scan]. rewrite H1. change (Z.to_nat (len hx)) with (Z.to_nat (Z.of_nat (length hx))).
  rewrite Nat2Z.id, take_app_length, H2, H3. destruct (Z.eqb_spec (len p) 0); [done|].
  assert (E : drop (Z.to_nat (len hx + 2)) (hx ++ crlf ++ p ++ crlf ++ r) = p ++ crlf ++ r).
  { rewrite app_assoc. replace (Z.to_nat (len hx + 2)) with (length (hx ++ crlf)) by (rewrite length_app; change (length crlf) with 2%nat; unfold len; lia). apply drop_app_length. }
  rewrite E. unfold u64. rewrite (Z.mod_small (mb - dec)) by lia. destruct (Z.ltb_spec (mb - dec) (len p)); [lia|].
  assert (El : len (p ++ crlf ++ r) = len p + 2 + len r) by (rewrite !len_app; change (len crlf) with 2; lia). pose proof (len_nonneg r).
  destruct (Z.ltb_spec (len (p ++ crlf ++ r)) (len p)); [lia|]. destruct (Z.ltb_spec (len (p ++ crlf ++ r)) (len p + 2)); [lia|].
  assert (E2 : drop (Z.to_nat (len p)) (p ++ crlf ++ r) = crlf ++ r) by (unfold len; rewrite Nat2Z.id; apply drop_app_length).
  rewrite E2. assert (is_prefix crlf (crlf ++ r) = true) as -> by (apply is_prefix_spec; by eexists). cbn [negb].
  assert (E3 : drop (Z.to_nat (len p + 2)) (p ++ crlf ++ r) = r).
  { rewrite app_assoc. replace (Z.to_nat (len p + 2)) with (length (p ++ crlf)) by (rewrite length_app; change (length crlf) with 2%nat; unfold len; lia). apply drop_app_length. }
  rewrite E3. rewrite (Z.mod_small (dec + len p)) by lia. f_equal. rewrite !len_app. change (len crlf) with 2. lia.
Qed.

(** Lines of a header block. *)
Definition line_ok (l : bytes) : Prop := l <> [] /\ Forall (fun c => c <> 13) l.
Definition block (lines : list bytes) : bytes := mjoin ((fun l => l ++ crlf) <$> lines).

Lemma block_cons l lines : block (l :: lines) = l ++ crlf ++ block lines.
Proof. unfold block. cbn [fmap list_fmap mjoin list_join]. by rewrite <- app_assoc. Qed.

Lemma block_end lines more : lines <> [] -> Forall line_ok lines -> Index crlf2 (block lines ++ crlf ++ more) = Some (len (block lines) - 2).
Proof.
  intros Hne Hl. induction Hl as [|l lines [Hl1 Hl2] Hl IH]; [done|]. rewrite block_cons, <- !app_assoc.
  unfold crlf2. rewrite Index_skip by done. destruct lines as [|l2 lines].
  - cbn [block fmap list_fmap mjoin list_join app crlf Index is_prefix Z.eqb Pos.eqb andb option_map]. f_equal. rewrite !len_app. change (len [13; 10]) with 2. lia.
  - specialize (IH ltac:(done)). inversion Hl as [|? ? [Hn2 Hc2] _ E1]; subst. rewrite block_cons in *. destruct l2 as [|x l2]; [done|].
    inversion Hc2 as [|? ? Hx _]; subst. cbn [app crlf] in IH |- *. rewrite <- !app_assoc in IH |- *. cbn [app] in IH |- *.
    set (rest := x :: l2 ++ 13 :: 10 :: block lines ++ 13 :: 10 :: more) in *. assert (Hi : Index [13; 10; 13; 10] (13 :: 10 :: rest) = option_map (Z.add 2) (Index [13; 10; 13; 10] rest)).
    { cbn [Index is_prefix]. unfold rest at 1. destruct (Z.eqb_spec 13 x); [congruence|]. cbn [Z.eqb Pos.eqb andb]. destruct (Index _ rest); [|done]. cbn. f_equal. lia. }
    rewrite Hi. unfold crlf2 in IH. rewrite IH. cbn [option_map]. f_equal. rewrite !len_app, !len_cons, ?len_app, ?len_cons. lia.
Qed.

(** The last chunk and what follows it. *)
Lemma chunk_scan_last f lines more off dec mt mb :
  Forall line_ok lines -> len (block lines) + 2 <= mt ->
  chunk_scan (S f) ((str "0" ++ crlf) ++ block lines ++ crlf ++ more) off dec mt mb = Found (off + 3 + len (block lines) + 2).
Proof.
  intros Hl Hm. set (r := block lines ++ crlf ++ more). change ((str "0" ++ crlf) ++ r) with (48 :: 13 :: 10 :: r). cbn [chunk_scan].
  assert (E1 : Index crlf (48 :: 13 :: 10 :: r) = Some 1) by reflexivity. rewrite E1.
  change (take (Z.to_nat 1) (48 :: 13 :: 10 :: r)) with [48]. change (drop (Z.to_nat (1 + 2)) (48 :: 13 :: 10 :: r)) with r.
  change (IndexByte 59 [48]) with (@None Z). cbv iota. change (ParseUint (TrimSpace [48]) 16 63) with (Some 0). cbv iota. rewrite Z.eqb_refl.
  destruct lines as [|l lines].
  - assert (is_prefix crlf r = true) as -> by (apply is_prefix_spec; by exists more). f_equal. change (len (block [])) with 0. lia.
  - assert (is_prefix crlf r = false) as ->.
    { unfold r. rewrite block_cons. inversion Hl as [|? ? [H1 H2] _]; subst. destruct l as [|x l]; [done|]. inversion H2; subst. cbn [app is_prefix crlf].
      destruct (Z.eqb_spec 13 x); [congruence|done]. }
    unfold r. rewrite (block_end (l :: lines) more ltac:(done) Hl).
    destruct (Z.ltb_spec mt (len (block (l :: lines)) - 2 + 4)); [lia|]. f_equal. lia.
Qed.

Lemma chunk_scan_chunks f pieces tail off dec mt mb :
  Forall (fun p => p <> []) pieces -> 0 <= dec -> dec + len (mjoin pieces) <= mb -> mb < 2 ^ 63 ->
  chunk_scan (length pieces + f) (chunks pieces ++ tail) off dec mt mb = chunk_scan f tail (off + len (chunks pieces)) (dec + len (mjoin pieces)) mt mb.
Proof.
  intros Hp. revert off dec. induction Hp as [|p pieces Hp Hps IH]; intros off dec Hd Hm Hb.
  - change (chunks []) with (@nil Z). cbn [length Nat.add app mjoin list_join]. change (len (@nil Z)) with 0. by rewrite !Z.add_0_r.
  - change (chunks (p :: pieces)) with (appendChunk [] p ++ chunks pieces). change (mjoin (p :: pieces)) with (p ++ mjoin pieces) in *.
    rewrite len_app in Hm. pose proof (len_nonneg (mjoin pieces)). pose proof (len_nonneg p). cbn [length Nat.add]. rewrite <- app_assoc.
    rewrite chunk_scan_chunk by (done || lia). rewrite IH by lia. f_equal; rewrite len_app; lia.
Qed.

Lemma chunks_long pieces : Forall (fun p => p <> []) pieces -> (length pieces <= length (chunks pieces))%nat.
Proof.
  induction 1 as [|p pieces Hp Hps IH]; [done|]. change (chunks (p :: pieces)) with (appendChunk [] p ++ chunks pieces).
  rewrite length_app. unfold appendChunk. rewrite !length_app. change (length crlf) with 2%nat. change (length (p :: pieces)) with (S (length pieces)). lia.
Qed.

(** The scanner that requests and responses are framed with finds the end
    of a chunked body exactly where the writer put it: for any pieces, whatever
    bytes they hold, with any trailer lines, and whatever follows on the
    connection. *)
Theorem chunked_ends before pieces lines more maxTrailer maxBody :
  Forall (fun p => p <> []) pieces -> Forall line_ok lines ->
  len (mjoin pieces) <= maxBody -> maxBody < 2 ^ 63 -> len (block lines) + 2 <= maxTrailer ->
  let body := chunks pieces ++ (str "0" ++ crlf) ++ block lines ++ crlf in
  chunkedEnd (before ++ body ++ more) (len before) maxTrailer maxBody = Found (len (before ++ body)).
Proof.
  intros Hp Hl Hm Hb Ht body. rewrite chunkedEnd_scan by len_lia. assert (Ed : drop (Z.to_nat (len before)) (before ++ body ++ more) = body ++ more)
    by (unfold len; rewrite Nat2Z.id; apply drop_app_length). rewrite Ed. unfold body at 2. rewrite <- !app_assoc.
  set (tail := _ ++ crlf ++ block lines ++ crlf ++ more). assert (Hlong : (S (length pieces) <= S (length (before ++ body ++ more)))%nat).
  { pose proof (chunks_long pieces Hp). rewrite !length_app. unfold body. rewrite length_app. lia. }
  replace (S (length (before ++ body ++ more))) with (length pieces + S (length (before ++ body ++ more) - length pieces))%nat by lia.
  rewrite chunk_scan_chunks by (done || lia). unfold tail. rewrite (app_assoc (str "0")). rewrite chunk_scan_last by done.
  f_equal. unfold body. rewrite !len_app. change (len (str "0")) with 1. change (len crlf) with 2. lia.
Qed.

(** * Witnesses and examples *)

Definition demo_text (st : Z) : bytes := str "OK".
Definition demo_type (b : bytes) : bytes := str "text/plain".
Definition demo_date : bytes := str "Thu, 01 Jan 1970 00:00:00 GMT".
Definition demo_request : answered := Answered false true false false.

Lemma chunked_ends_witness :
  chunkedEnd ([7; 7] ++ (chunks [[1; 2; 3]; [13; 10; 48]] ++ (str "0" ++ crlf) ++ block [str "A: b"] ++ crlf) ++ [9]) 2 100 6 = Found 29.
Proof.
  pose proof (chunked_ends [7; 7] [[1; 2; 3]; [13; 10; 48]] [str "A: b"] [9] 100 6) as H.
  change (len [7; 7]) with 2 in H. etransitivity; [apply H|vm_compute; reflexivity].
  - constructor; [discriminate|]. constructor; [discriminate|constructor].
  - constructor; [|constructor]. split; [discriminate|]. repeat (constructor; [discriminate|]). constructor.
  - vm_compute. discriminate.
  - reflexivity.
  - vm_compute. discriminate.
Defined.

(** Two writes with a flush between them are two chunks. *)
Lemma response_framed_witness :
  exists c', Finish demo_text demo_type id demo_date [] (snd (default ([], NewContext demo_request)
      (do_ops demo_text demo_type id demo_date [OStatus 200; OWrite [1; 2]; OFlush; OWrite [3]] (NewContext demo_request)))) = (None, c') /\
    exists pre head hb payload, out c' = pre ++ hb ++ payload /\ framed id c' head [1; 2; 3] payload [].
Proof.
  destruct (do_ops demo_text demo_type id demo_date [OStatus 200; OWrite [1; 2]; OFlush; OWrite [3]] (NewContext demo_request)) as [[body c]|] eqn:E;
    [|vm_compute in E; discriminate].
  cbn [default snd]. destruct (Finish demo_text demo_type id demo_date [] c) as [e c'] eqn:EF.
  assert (Hs : status (w c) <> 0) by (vm_compute in E; injection E as <- <-; discriminate).
  assert (Hb : body = [1; 2; 3]) by (vm_compute in E; injection E as <- _; reflexivity).
  assert (He : e = None) by (vm_compute in E; injection E as <- <-; vm_compute in EF; injection EF as <- _; reflexivity). subst e body.
  exists c'. split; [exact EF|].
  destruct (response_framed demo_text demo_type id demo_date demo_request _ [1; 2; 3] c [] c' E Hs EF) as (pre & head & hb & payload & H1 & _ & H2 & _).
  exists pre, head, hb, payload. split; [exact H1|exact H2].
Defined.

(** A file copied into a response whose handler set Content-Length but has
    not called WriteHeader is sent whole, however much longer it is than the
    length announced, and the connection stays open: [ReadFrom] compares the
    file with a length that has not been read yet. *)
Theorem file_overruns_length :
  let file := replicate 16384 97 in
  let c := set_w (Writer {[ str "Content-Length" := [str "10"]; str "Content-Type" := [str "x"] ]} ∅ 0 (-1) 0 [] false false false [] false) (NewContext demo_request) in
  let '(e1, c1) := ReadFrom_file demo_text demo_type id demo_date file c in
  let '(e2, c2) := Finish demo_text demo_type id demo_date [] c1 in
  e1 = None /\ e2 = None /\ closeRequested c2 = false /\ declared (w c2) = 10 /\
  drop (Z.to_nat (len (out c2) - len file)) (out c2) = file /\ Contains (take 200 (out c2)) (str "Content-Length: 10") = true.
Proof. vm_compute. repeat (split; [reflexivity|]). reflexivity. Qed.

(** A header name is only refused when it is empty: one with a line break
    becomes two lines. *)
Lemma header_name_unchecked :
  appendHeaderLines id [] {[ str "X: y" ++ crlf ++ str "Set-Cookie" := [str "a"] ]} (fun _ => false) =
    Ok (str "X: y" ++ crlf ++ str "Set-Cookie: a" ++ crlf).
Proof. vm_compute. reflexivity. Qed.
