(* ===== verification/HttpClient.v ===== *)
(** Reading HTTP/1 responses on a client connection
    (src/go/http/response_parser.go).

    As for requests, net/http is a parameter: [ReadResponse] reads a header,
    [ReadChunked] a whole chunked response with its body up to a limit.  The
    request being answered is known; of it only whether it was HEAD matters. *)
From Stdlib Require Import String.
From S2P Require Import Prelude.
From S2P Require Import HpackTables.
From S2P Require Import GoText.
From S2P Require Import HttpParser.

Inductive response_error := ErrResponseHeaderTooLarge | ErrResponseBodyTooLarge | ErrMalformedResponse | ResponsePanic.

Inductive bodyFraming := framingNone | framingLength | framingChunked | framingUntilClose.

Definition clientParseError (e : http_error) : response_error :=
  match e with
  | ErrHeaderTooLarge => ErrResponseHeaderTooLarge
  | ErrBodyTooLarge => ErrResponseBodyTooLarge
  | ErrMalformed | ErrUnsupportedTransferEncoding => ErrMalformedResponse
  | Panic => ResponsePanic
  end.

Section client.
Context {R : Type}.

Record Reply := MkReply { r_status : Z; r_codings : list bytes; r_length : Z; r_body : bytes; r_rest : R }.

Context (ReadResponse : bytes -> option Reply) (ReadChunked : bytes -> Z -> option (Reply * bytes)).
Context (isHead : bool).

Record responseParser := RParser {
  maxHeader : Z;
  maxBody : Z;
  rbuffer : bytes;
  rheaderScan : Z;
  rhead : option Reply;
  rheaderEnd : Z;
  framing : bodyFraming;
}.

Definition reset (p : responseParser) : responseParser := RParser (maxHeader p) (maxBody p) [] 0 None 0 (framing p).
Definition buffered (p : responseParser) : bool := 0 <? len (rbuffer p).

Definition consume (n : Z) (p : responseParser) : responseParser :=
  RParser (maxHeader p) (maxBody p) (drop (Z.to_nat n) (rbuffer p)) 0 (rhead p) (rheaderEnd p) (framing p).

Definition bodyAllowed (status : Z) : bool := negb isHead && (200 <=? status) && negb (status =? 204) && negb (status =? 304).

Definition interim (r : Reply) : bool := (100 <=? r_status r) && (r_status r <? 200) && negb (r_status r =? 101).

(** How the body of a final response is framed. *)
Definition framing_of (max : Z) (r : Reply) : result response_error bodyFraming :=
  if negb (bodyAllowed (r_status r)) then Ok framingNone
  else
    match r_codings r with
    | coding :: more => if negb (len more =? 0) || negb (EqualFold coding (str "chunked")) then Err ErrMalformedResponse else Ok framingChunked
    | [] => if 0 <=? r_length r then (if max <? r_length r then Err ErrResponseBodyTooLarge else Ok framingLength) else Ok framingUntilClose
    end.

(** Whether a header was complete, and the parser after it. *)
Definition parseHead (p : responseParser) : result response_error bool * responseParser :=
  match slice_from (rbuffer p) (rheaderScan p) with
  | None => (Err ResponsePanic, p)
  | Some tail =>
      match Index crlf2 tail with
      | None =>
          if maxHeader p <? len (rbuffer p) then (Err ErrResponseHeaderTooLarge, p)
          else (Ok false, RParser (maxHeader p) (maxBody p) (rbuffer p) (Z.max (len (rbuffer p) - 3) 0) (rhead p) (rheaderEnd p) (framing p))
      | Some headerAt =>
          let e := rheaderScan p + headerAt + 4 in
          if maxHeader p <? e then (Err ErrResponseHeaderTooLarge, p)
          else
            match ReadResponse (take (Z.to_nat e) (rbuffer p)) with
            | None => (Err ErrMalformedResponse, p)
            | Some head =>
                if interim head then (Ok true, consume e p)
                else
                  match framing_of (maxBody p) head with
                  | Err err => (Err err, RParser (maxHeader p) (maxBody p) (rbuffer p) (rheaderScan p) (Some head) e (framing p))
                  | Ok f => (Ok true, RParser (maxHeader p) (maxBody p) (rbuffer p) (rheaderScan p) (Some head) e f)
                  end
            end
      end
  end.

(** Hand out the response in progress with its body. *)
Definition complete (head : Reply) (end_ : Z) (body : bytes) (p : responseParser) : Reply * responseParser :=
  (MkReply (r_status head) (r_codings head) (r_length head) body (r_rest head),
   consume end_ (RParser (maxHeader p) (maxBody p) (rbuffer p) (rheaderScan p) None (rheaderEnd p) (framing p))).

Definition completeChunked (end_ : Z) (p : responseParser) : result response_error Reply * responseParser :=
  match ReadChunked (take (Z.to_nat end_) (rbuffer p)) (i64 (maxBody p + 1)) with
  | None => (Err ErrMalformedResponse, p)
  | Some (full, body) =>
      if maxBody p <? len body then (Err ErrResponseBodyTooLarge, p)
      else let '(r, p) := complete full end_ body p in (Ok r, p)
  end.

(** The body of the response whose header is [head]. *)
Definition feed_body (head : Reply) (p : responseParser) : scan response_error Reply * responseParser :=
  match framing p with
  | framingNone => let '(r, p) := complete head (rheaderEnd p) [] p in (Found r, p)
  | framingLength =>
      let end_ := i64 (rheaderEnd p + r_length head) in
      if len (rbuffer p) <? end_ then (More, p)
      else
        match slice (rbuffer p) (rheaderEnd p) end_ with
        | Some body => let '(r, p) := complete head end_ body p in (Found r, p)
        | None => (Fail ResponsePanic, p)
        end
  | framingChunked =>
      match chunkedEnd (rbuffer p) (rheaderEnd p) (maxHeader p) (maxBody p) with
      | Fail e => (Fail (clientParseError e), p)
      | More => (More, p)
      | Found end_ => match completeChunked end_ p with (Ok r, p) => (Found r, p) | (Err e, p) => (Fail e, p) end
      end
  | framingUntilClose => if maxBody p <? len (rbuffer p) - rheaderEnd p then (Fail ErrResponseBodyTooLarge, p) else (More, p)
  end.

(** The loop of [feed]; an interim response is four bytes long at least. *)
Fixpoint feed_loop (fuel : nat) (p : responseParser) : scan response_error Reply * responseParser :=
  match fuel with
  | O => (More, p)
  | S fuel =>
      match rhead p with
      | Some head => feed_body head p
      | None =>
          match parseHead p with
          | (Err e, p) => (Fail e, p)
          | (Ok false, p) => (More, p)
          | (Ok true, p) => match rhead p with None => feed_loop fuel p | Some head => feed_body head p end
          end
      end
  end.

Definition with_data (data : bytes) (p : responseParser) : responseParser :=
  RParser (maxHeader p) (maxBody p) (rbuffer p ++ data) (rheaderScan p) (rhead p) (rheaderEnd p) (framing p).

Definition feed (data : bytes) (p : responseParser) : scan response_error Reply * responseParser :=
  feed_loop (S (length (rbuffer p ++ data))) (with_data data p).

(** The response when the server closes the connection, if that ends one. *)
Definition finish (p : responseParser) : option Reply :=
  match rhead p, framing p with
  | Some head, framingUntilClose => Some (fst (complete head (len (rbuffer p)) (drop (Z.to_nat (rheaderEnd p)) (rbuffer p)) p))
  | _, _ => None
  end.

(** Reads up to the one that completes the response or fails; those left. *)
Fixpoint feed_until (reads : list bytes) (p : responseParser) : scan response_error Reply * responseParser * list bytes :=
  match reads with
  | [] => (More, p, [])
  | data :: reads => match feed data p with (More, p) => feed_until reads p | (r, p) => (r, p, reads) end
  end.

(** * The response at the front of some bytes *)

Definition body_at (mh mb e : Z) (head : Reply) (f : bodyFraming) (b : bytes) : scan response_error Reply * responseParser :=
  feed_body head (RParser mh mb b 0 (Some head) e f).

Fixpoint response (fuel : nat) (mh mb : Z) (b : bytes) : scan response_error Reply * bytes :=
  match fuel with
  | O => (More, b)
  | S fuel =>
      match Index crlf2 b with
      | None => (if mh <? len b then Fail ErrResponseHeaderTooLarge else More, b)
      | Some i =>
          if mh <? i + 4 then (Fail ErrResponseHeaderTooLarge, b)
          else
            match ReadResponse (take (Z.to_nat (i + 4)) b) with
            | None => (Fail ErrMalformedResponse, b)
            | Some head =>
                if interim head then response fuel mh mb (drop (Z.to_nat (i + 4)) b)
                else match framing_of mb head with
                     | Err e => (Fail e, b)
                     | Ok f => let '(r, p) := body_at mh mb (i + 4) head f b in (r, rbuffer p)
                     end
            end
      end
  end.

Implicit Types p : responseParser.

(** ** More bytes do not change an answer *)

Lemma completeChunked_app mh mb b x e head f end_ :
  0 <= end_ <= len b ->
  let q b := RParser mh mb b 0 (Some head) e f in
  fst (completeChunked end_ (q (b ++ x))) = fst (completeChunked end_ (q b)) /\
  (forall r, fst (completeChunked end_ (q b)) = Ok r ->
    rbuffer (snd (completeChunked end_ (q (b ++ x)))) = rbuffer (snd (completeChunked end_ (q b))) ++ x).
Proof.
  intros He. unfold completeChunked. cbn [rbuffer maxBody]. rewrite take_app_le by (unfold len in *; lia).
  destruct (ReadChunked _ _) as [[full body]|]; [|done]. destruct (_ <? _); [done|]. split; [done|]. intros r _. cbn. by rewrite drop_app_len by lia.
Qed.

Lemma body_at_app mh mb e head f b x :
  1 <= mh -> 0 <= e <= len b ->
  settled (fst (body_at mh mb e head f b)) (fst (body_at mh mb e head f (b ++ x))) /\
  (forall r, fst (body_at mh mb e head f b) = Found r ->
    rbuffer (snd (body_at mh mb e head f (b ++ x))) = rbuffer (snd (body_at mh mb e head f b)) ++ x).
Proof.
  intros Hm He. unfold body_at, feed_body. cbn [framing rheaderEnd rbuffer maxHeader maxBody]. destruct f.
  - split; [done|]. intros r _. cbn. by rewrite drop_app_len by lia.
  - cbn zeta. destruct (Z.ltb_spec (len b) (i64 (e + r_length head))); [done|]. destruct (Z.ltb_spec (len (b ++ x)) (i64 (e + r_length head))); [len_lia|].
    rewrite slice_app_le by lia. destruct (slice b e (i64 (e + r_length head))) as [body|] eqn:Es; [|done]. apply slice_inv in Es. split; [done|]. intros r _. cbn. by rewrite drop_app_len by lia.
  - pose proof (chunkedEnd_app b x e mh mb Hm He) as Hc. pose proof (chunkedEnd_bound b e mh mb) as Hb.
    destruct (chunkedEnd b e mh mb) as [|err|z]; [done|by rewrite Hc|]. unfold settled in Hc. rewrite Hc. specialize (Hb z He eq_refl).
    destruct (completeChunked_app mh mb b x e head framingChunked z ltac:(lia)) as [E1 E2]. cbn zeta in E1, E2.
    destruct (completeChunked z (RParser mh mb (b ++ x) _ _ _ _)) as [[r|err] q]; destruct (completeChunked z (RParser mh mb b _ _ _ _)) as [[r'|err'] q']; cbn [fst snd] in *; try done.
    + injection E1 as ->. split; [done|]. intros r0 _. by apply (E2 r').
    + by injection E1 as ->.
  - destruct (Z.ltb_spec mb (len b - e)); [|done]. destruct (Z.ltb_spec mb (len (b ++ x) - e)); [done|len_lia].
Qed.

Lemma response_fuel f f' mh mb b : (length b < f)%nat -> (length b < f')%nat -> response f mh mb b = response f' mh mb b.
Proof.
  revert f' b. induction f as [|f IH]; intros f' b Hf Hf'; [lia|]. destruct f' as [|f']; [lia|]. cbn [response].
  destruct (Index crlf2 b) as [i|] eqn:Ei; [|done]. destruct (Index_bound _ _ _ Ei) as [B1 B2]. change (len crlf2) with 4 in B2.
  destruct (_ <? _); [done|]. destruct (ReadResponse _) as [head|]; [|done]. destruct (interim head); [|done].
  apply IH; rewrite length_drop; unfold len in *; lia.
Qed.

Definition ans (mh mb : Z) (b : bytes) : scan response_error Reply * bytes := response (S (length b)) mh mb b.

Lemma ans_eq mh mb b : ans mh mb b =
  match Index crlf2 b with
  | None => (if mh <? len b then Fail ErrResponseHeaderTooLarge else More, b)
  | Some i =>
      if mh <? i + 4 then (Fail ErrResponseHeaderTooLarge, b)
      else
        match ReadResponse (take (Z.to_nat (i + 4)) b) with
        | None => (Fail ErrMalformedResponse, b)
        | Some head =>
            if interim head then ans mh mb (drop (Z.to_nat (i + 4)) b)
            else match framing_of mb head with
                 | Err e => (Fail e, b)
                 | Ok f => let '(r, p) := body_at mh mb (i + 4) head f b in (r, rbuffer p)
                 end
        end
  end.
Proof.
  unfold ans at 1. cbn [response]. destruct (Index crlf2 b) as [i|] eqn:Ei; [|done]. destruct (Index_bound _ _ _ Ei) as [B1 B2]. change (len crlf2) with 4 in B2.
  destruct (_ <? _); [done|]. destruct (ReadResponse _) as [head|]; [|done]. destruct (interim head); [|done].
  unfold ans. apply response_fuel; rewrite length_drop; unfold len in *; lia.
Qed.

(** An answer stays, with the new bytes behind it; where there is none yet, only
    what is left of the bytes matters. *)
Lemma ans_app mh mb b x : 1 <= mh ->
  match ans mh mb b with
  | (More, b') => ans mh mb (b ++ x) = ans mh mb (b' ++ x)
  | (Fail e, _) => fst (ans mh mb (b ++ x)) = Fail e
  | (Found r, b') => ans mh mb (b ++ x) = (Found r, b' ++ x)
  end.
Proof.
  intros Hm. remember (length b) as n eqn:Hn. revert b Hn. induction n as [n IH] using lt_wf_ind. intros b Hn. rewrite (ans_eq mh mb b).
  destruct (Index crlf2 b) as [i|] eqn:Ei.
  - destruct (Index_bound _ _ _ Ei) as [B1 B2]. change (len crlf2) with 4 in B2. pose proof (ans_eq mh mb (b ++ x)) as Ex. rewrite (Index_app _ _ x _ Ei) in Ex.
    destruct (_ <? _); [by rewrite Ex|]. rewrite take_app_le in Ex by (unfold len in *; lia).
    destruct (ReadResponse _) as [head|]; [|by rewrite Ex]. destruct (interim head).
    + rewrite drop_app_len in Ex by lia. specialize (IH (length (drop (Z.to_nat (i + 4)) b)) ltac:(rewrite length_drop; unfold len in *; lia) (drop (Z.to_nat (i + 4)) b) eq_refl).
      rewrite Ex. exact IH.
    + destruct (framing_of mb head) as [f|e] eqn:Ef; [|by rewrite Ex].
      destruct (body_at_app mh mb (i + 4) head f b x Hm ltac:(lia)) as [H1 H2].
      destruct (body_at mh mb (i + 4) head f b) as [r q] eqn:Eb. cbn [fst snd] in H1, H2.
      destruct (body_at mh mb (i + 4) head f (b ++ x)) as [r2 q2] eqn:Eb2. cbn [fst snd] in H1, H2. rewrite Ex. destruct r as [|err|r].
      * assert (Hq : rbuffer q = b).
        { revert Eb. clear. unfold body_at, feed_body. cbn [framing]. destruct f; repeat (case_match; try done); intros; simplify_eq; done. }
        rewrite Hq. rewrite <- Ex. done.
      * unfold settled in H1. by rewrite H1.
      * unfold settled in H1. by rewrite H1, (H2 r eq_refl).
  - destruct (Z.ltb_spec mh (len b)); [|done]. rewrite (ans_eq mh mb (b ++ x)). destruct (Index crlf2 (b ++ x)) as [i|] eqn:E2.
    + pose proof (Index_later _ _ _ _ Ei E2) as Hl. change (len crlf2) with 4 in Hl. destruct (Z.ltb_spec mh (i + 4)); [done|lia].
    + destruct (Z.ltb_spec mh (len (b ++ x))); [done|len_lia].
Qed.

(** ** The parser's state *)

Definition rscanned p : Prop :=
  rheaderScan p = 0 \/
  0 <= rheaderScan p /\ rheaderScan p + 3 <= len (rbuffer p) /\
  forall j, 0 <= j < rheaderScan p -> is_prefix crlf2 (drop (Z.to_nat j) (rbuffer p)) = false.

(** The header in progress is the one at the front of the buffer. *)
Definition headed p : Prop :=
  match rhead p with
  | None => rscanned p
  | Some head =>
      Index crlf2 (rbuffer p) = Some (rheaderEnd p - 4) /\ rheaderEnd p <= maxHeader p /\
      ReadResponse (take (Z.to_nat (rheaderEnd p)) (rbuffer p)) = Some head /\ interim head = false /\ framing_of (maxBody p) head = Ok (framing p)
  end.

(** Nothing more can be made of the bytes. *)
Definition resting p : Prop := headed p /\ (rhead p = None -> Index crlf2 (rbuffer p) = None).

Lemma rscanned_Index p : rscanned p ->
  exists tail, slice_from (rbuffer p) (rheaderScan p) = Some tail /\ option_map (Z.add (rheaderScan p)) (Index crlf2 tail) = Index crlf2 (rbuffer p).
Proof. intros H. apply (scanned_Index (MkParser (MkConfig 0 0) (rbuffer p) (rheaderScan p) false false)). exact H. Qed.

Lemma headed_data data p : headed p -> headed (with_data data p).
Proof.
  unfold headed. cbn [rhead with_data rbuffer rheaderEnd maxHeader maxBody framing]. destruct (rhead p) as [head|].
  - intros (H1 & H2 & H3 & H4 & H5). destruct (Index_bound _ _ _ H1) as [B1 B2]. change (len crlf2) with 4 in B2.
    split; [by apply Index_app|]. split; [done|]. split; [|done]. rewrite take_app_le by (unfold len in *; lia). done.
  - intros H. apply (scanned_app (MkParser (MkConfig 0 0) (rbuffer p) (rheaderScan p) false false) data). exact H.
Qed.

(** [feed_body] only looks at the header and the bytes. *)
Lemma feed_body_at head p : rhead p = Some head ->
  let '(r, q) := body_at (maxHeader p) (maxBody p) (rheaderEnd p) head (framing p) (rbuffer p) in
  let '(r', p') := feed_body head p in
  r' = r /\ maxHeader p' = maxHeader p /\ maxBody p' = maxBody p /\
  match r with More => p' = p | Found _ => rbuffer p' = rbuffer q /\ rhead p' = None /\ rheaderScan p' = 0 | Fail _ => True end.
Proof.
  intros Hh. unfold body_at, feed_body. cbn [framing rheaderEnd rbuffer maxHeader maxBody]. destruct (framing p).
  - done.
  - cbn zeta. destruct (_ <? _); [done|]. by destruct (slice _ _ _).
  - destruct (chunkedEnd _ _ _ _) as [|e|z]; [done|done|]. unfold completeChunked. cbn [rbuffer maxBody].
    destruct (ReadChunked _ _) as [[full body]|]; [|done]. by destruct (_ <? _).
  - by destruct (_ <? _).
Qed.

Lemma response_loop_spec f p :
  headed p -> (length (rbuffer p) < f)%nat ->
  let '(r, p') := feed_loop f p in
  let '(r1, b1) := ans (maxHeader p) (maxBody p) (rbuffer p) in
  r = r1 /\ maxHeader p' = maxHeader p /\ maxBody p' = maxBody p /\
  match r1 with
  | More => rbuffer p' = b1 /\ resting p'
  | Found _ => rbuffer p' = b1 /\ headed p'
  | Fail _ => True
  end.
Proof.
  revert p. induction f as [|f IH]; intros p Hp Hf; [lia|]. cbn [feed_loop]. rewrite ans_eq.
  assert (Hbody : forall q head, rbuffer q = rbuffer p -> maxHeader q = maxHeader p -> maxBody q = maxBody p -> rhead q = Some head -> headed q ->
    let '(r, p') := feed_body head q in
    let '(r1, b1) := (let '(r, x) := body_at (maxHeader p) (maxBody p) (rheaderEnd q) head (framing q) (rbuffer p) in (r, rbuffer x)) in
    r = r1 /\ maxHeader p' = maxHeader p /\ maxBody p' = maxBody p /\
    match r1 with More => rbuffer p' = b1 /\ resting p' | Found _ => rbuffer p' = b1 /\ headed p' | Fail _ => True end).
  { intros q head Hb Hmh Hmb Hq Hhq. pose proof (feed_body_at head q Hq) as H. rewrite Hb, Hmh, Hmb in H.
    destruct (body_at _ _ _ head _ _) as [r x] eqn:Ex. destruct (feed_body head q) as [r' p']. destruct H as (-> & -> & -> & H).
    split; [done|]. split; [done|]. split; [done|]. destruct r as [|e|r]; [|done|].
    - subst p'. split; [|split; [done|by rewrite Hq]]. rewrite Hb. revert Ex. clear. unfold body_at, feed_body. cbn [framing].
      destruct (framing q); repeat (case_match; try done); intros; simplify_eq; done.
    - destruct H as (-> & H1 & H2). split; [done|]. unfold headed. rewrite H1. by left. }
  destruct (rhead p) as [head|] eqn:Eh.
  - pose proof (Hbody p head eq_refl eq_refl eq_refl Eh Hp) as H. unfold headed in Hp. rewrite Eh in Hp. destruct Hp as (H1 & H2 & H3 & H4 & H5).
    rewrite H1. replace (rheaderEnd p - 4 + 4) with (rheaderEnd p) by lia. destruct (Z.ltb_spec (maxHeader p) (rheaderEnd p)); [lia|].
    rewrite H3, H4, H5. exact H.
  - unfold headed in Hp. rewrite Eh in Hp. destruct (rscanned_Index p Hp) as (tail & Et & Ei). unfold parseHead. rewrite Et, <- Ei.
    destruct (Index crlf2 tail) as [i|] eqn:E; cbn [option_map] in *.
    + symmetry in Ei. destruct (Index_bound _ _ _ Ei) as [B1 B2]. change (len crlf2) with 4 in B2. set (e := rheaderScan p + i + 4) in *.
      destruct (Z.ltb_spec (maxHeader p) e) as [|Hle]; [done|]. destruct (ReadResponse (take (Z.to_nat e) (rbuffer p))) as [head|] eqn:Er; [|done].
      destruct (interim head) eqn:Ein.
      * cbn [rhead consume]. rewrite Eh. specialize (IH (consume e p)). cbn [rbuffer consume maxHeader maxBody] in IH.
        apply IH; [|rewrite length_drop; unfold len in *; lia]. unfold headed. cbn [rhead consume]. rewrite Eh. by left.
      * destruct (framing_of (maxBody p) head) as [fr|err] eqn:Ef; [|done]. cbn [rhead].
        apply (Hbody (RParser (maxHeader p) (maxBody p) (rbuffer p) (rheaderScan p) (Some head) e fr) head); try done.
        unfold headed. cbn [rhead rbuffer rheaderEnd maxHeader maxBody framing]. unfold e at 1. replace (rheaderScan p + i + 4 - 4) with (rheaderScan p + i) by lia. done.
    + destruct (Z.ltb_spec (maxHeader p) (len (rbuffer p))) as [|Hle]; [done|]. split; [done|]. split; [done|]. split; [done|]. split; [done|].
      split; [|done]. unfold headed. cbn [rhead]. rewrite Eh.
      apply (scanned_none (MkParser (MkConfig 0 0) (rbuffer p) (rheaderScan p) false false)). by symmetry.
Qed.

(** What a close would complete depends on the bytes only. *)
Lemma resting_finish p q :
  resting p -> resting q -> rbuffer p = rbuffer q -> maxHeader p = maxHeader q -> maxBody p = maxBody q -> finish p = finish q.
Proof.
  intros [Hp Hp0] [Hq Hq0] Hb Hmh Hmb. unfold headed, finish in *. rewrite <- Hb, <- Hmb in *.
  destruct (rhead p) as [h|], (rhead q) as [h'|]; [| | |done].
  - destruct Hp as (P1 & _ & P3 & _ & P5), Hq as (Q1 & _ & Q3 & _ & Q5). rewrite P1 in Q1. injection Q1 as Q1. assert (E : rheaderEnd q = rheaderEnd p) by lia.
    rewrite E in *. rewrite P3 in Q3. injection Q3 as <-. rewrite P5 in Q5. injection Q5 as <-. by destruct (framing p).
  - destruct Hp as (P1 & _). rewrite (Hq0 eq_refl) in P1. done.
  - destruct Hq as (Q1 & _). rewrite (Hp0 eq_refl) in Q1. done.
Qed.

Lemma feed_spec data p :
  headed p ->
  let '(r, p') := feed data p in
  let '(r1, b1) := ans (maxHeader p) (maxBody p) (rbuffer p ++ data) in
  r = r1 /\ maxHeader p' = maxHeader p /\ maxBody p' = maxBody p /\
  match r1 with More => rbuffer p' = b1 /\ resting p' | Found _ => rbuffer p' = b1 /\ headed p' | Fail _ => True end.
Proof.
  intros Hp. apply (headed_data data) in Hp. unfold feed. pose proof (response_loop_spec (S (length (rbuffer p ++ data))) (with_data data p) Hp ltac:(cbn; lia)) as H. exact H.
Qed.

Lemma feed_until_spec reads p :
  1 <= maxHeader p -> resting p -> ans (maxHeader p) (maxBody p) (rbuffer p) = (More, rbuffer p) ->
  let '(r, p1, later) := feed_until reads p in
  let '(r2, b2) := ans (maxHeader p) (maxBody p) (rbuffer p ++ mjoin reads) in
  r = r2 /\ maxHeader p1 = maxHeader p /\ maxBody p1 = maxBody p /\
  match r2 with More => rbuffer p1 = b2 /\ resting p1 | Found _ => rbuffer p1 ++ mjoin later = b2 | Fail _ => True end.
Proof.
  intros Hm. revert p Hm. induction reads as [|d reads IH]; intros p Hm Hr Ha.
  - cbn [feed_until mjoin list_join]. rewrite app_nil_r, Ha. done.
  - cbn [feed_until]. change (mjoin (d :: reads)) with (d ++ mjoin reads). rewrite app_assoc.
    pose proof (feed_spec d p (proj1 Hr)) as H. pose proof (ans_app (maxHeader p) (maxBody p) (rbuffer p ++ d) (mjoin reads) Hm) as Hx.
    destruct (feed d p) as [r p']. destruct (ans (maxHeader p) (maxBody p) (rbuffer p ++ d)) as [r1 b1] eqn:E1. destruct H as (-> & Hmh & Hmb & H).
    destruct r1 as [|e|r1].
    + destruct H as [Hb Hr']. rewrite Hx. specialize (IH p'). rewrite Hmh, Hmb, Hb in IH. apply IH; [done|done|].
      pose proof (ans_app (maxHeader p) (maxBody p) (rbuffer p ++ d) [] Hm) as H0. rewrite E1, !app_nil_r in H0. congruence.
    + destruct (ans _ _ ((rbuffer p ++ d) ++ mjoin reads)) as [r2 b2]. cbn [fst] in Hx. by subst r2.
    + rewrite Hx. destruct H as [-> _]. done.
Qed.

(** However the bytes a server sends are cut into reads, the client gets the
    same response to its request, after the same bytes, or the same error, as
    when they all come at once; the bytes after the response are the same; and
    if the connection closes before there was either, the close completes the
    same response or none. *)
Theorem response_segmentation mh mb reads :
  1 <= mh ->
  let p := RParser mh mb [] 0 None 0 framingNone in
  let '(r, p1, later) := feed_until reads p in
  let '(r2, p2) := feed (mjoin reads) p in
  r = r2 /\
  match r with More => finish p1 = finish p2 | Found _ => rbuffer p1 ++ mjoin later = rbuffer p2 | Fail _ => True end.
Proof.
  intros Hm p. assert (Hr : resting p) by (split; [by left|done]).
  assert (Ha : ans mh mb [] = (More, [])).
  { rewrite ans_eq. cbn [Index is_prefix crlf2]. change (len (@nil Z)) with 0. destruct (Z.ltb_spec mh 0); [lia|done]. }
  pose proof (feed_until_spec reads p Hm Hr Ha) as H1. pose proof (feed_spec (mjoin reads) p (proj1 Hr)) as H2.
  cbn [p maxHeader maxBody rbuffer app] in H1, H2. fold p in H1, H2. destruct (feed_until reads p) as [[r p1] later]. destruct (feed (mjoin reads) p) as [r2 p2].
  destruct (ans mh mb (mjoin reads)) as [r3 b3].
  destruct H1 as (-> & M1 & N1 & H1), H2 as (-> & M2 & N2 & H2). split; [done|]. destruct r3 as [|e|r3]; [|done|].
  - destruct H1 as [B1 R1], H2 as [B2 R2]. apply resting_finish; [done|done|congruence..].
  - destruct H2 as [-> _]. exact H1.
Qed.
End client.

(** A response of four bytes and a body until the close. *)
Lemma response_segmentation_witness :
  let p := RParser 100 100 [] 0 None 0 framingNone in
  let read := fun _ : bytes => Some (MkReply 200 [] (-1) [] tt) in
  let '(r, p1, _) := feed_until read (fun _ _ => None) false [[13; 10]; [13]; [10; 1; 2]; [3]] p in
  r = More /\ option_map r_body (finish p1) = Some [1; 2; 3].
Proof.
  pose proof (response_segmentation (fun _ : bytes => Some (MkReply 200 [] (-1) [] tt)) (fun _ _ => None) false 100 100 [[13; 10]; [13]; [10; 1; 2]; [3]] ltac:(lia)) as H.
  cbn zeta in *. destruct (feed_until _ _ _ _ _) as [[r p1] later] eqn:E. destruct (feed _ _ _ _ _) as [r2 p2] eqn:E2. destruct H as [-> H].
  vm_compute in E2. injection E2 as <- <-. split; [reflexivity|]. rewrite H. vm_compute. reflexivity.
Defined.
