(* ===== verification/Http2Frame.v ===== *)
(** HTTP/2 framing, shared by the server and the client: src/go/http/h2_frame.go.

    [h2ReadFrame] takes a frame off a buffer, the [h2Append...] functions write
    frames, and a header block is split over HEADERS or PUSH_PROMISE and
    CONTINUATION frames.  [encode] is one frame's bytes; the writers are shown to
    append exactly the frames they mean to, and reading gives them back. *)
From Stdlib Require Import String.
From S2P Require Import Prelude.
From S2P Require Import HpackTables.
From S2P Require Import GoText.

Definition h2FrameHeaderLen : Z := 9.
Definition h2DefaultMaxFrameSize : Z := 16384.
Definition h2MaxFrameSizeLimit : Z := Z.shiftl 1 24 - 1.
Definition h2DefaultWindow : Z := 65535.
Definition h2MaxWindow : Z := Z.shiftl 1 31 - 1.
Definition h2MaxStreamID : Z := Z.shiftl 1 31 - 1.

Definition h2FrameData : Z := 0x0.
Definition h2FrameHeaders : Z := 0x1.
Definition h2FramePriority : Z := 0x2.
Definition h2FrameRSTStream : Z := 0x3.
Definition h2FrameSettings : Z := 0x4.
Definition h2FramePushPromise : Z := 0x5.
Definition h2FramePing : Z := 0x6.
Definition h2FrameGoAway : Z := 0x7.
Definition h2FrameWindowUpdate : Z := 0x8.
Definition h2FrameContinuation : Z := 0x9.

Definition h2FlagEndStream : Z := 0x1.
Definition h2FlagAck : Z := 0x1.
Definition h2FlagEndHeaders : Z := 0x4.
Definition h2FlagPadded : Z := 0x8.
Definition h2FlagPriority : Z := 0x20.

Definition h2SettingHeaderTableSize : Z := 0x1.
Definition h2SettingEnablePush : Z := 0x2.
Definition h2SettingMaxConcurrentStreams : Z := 0x3.
Definition h2SettingInitialWindowSize : Z := 0x4.
Definition h2SettingMaxFrameSize : Z := 0x5.
Definition h2SettingMaxHeaderListSize : Z := 0x6.

Definition H2NoError : Z := 0x0.
Definition H2ProtocolError : Z := 0x1.
Definition H2FlowControlError : Z := 0x3.
Definition H2StreamClosed : Z := 0x5.
Definition H2FrameSizeError : Z := 0x6.
Definition H2RefusedStream : Z := 0x7.
Definition H2CompressionError : Z := 0x9.
Definition H2EnhanceYourCalm : Z := 0xb.

(** An error ends the connection, with the reason GOAWAY carries, or a stream. *)
Inductive h2_error :=
| H2ConnError (code : Z) (reason : bytes)
| H2StreamError (id code : Z).

(** The [%d] of an error's reason. *)
Definition num (n : Z) : bytes := FormatInt n 10.

Record h2Frame := Frame { typ : Z; flags : Z; streamID : Z; payload : bytes; flen : Z }.

Definition no_frame : h2Frame := Frame 0 0 0 [] 0.

Definition has (f : h2Frame) (flag : Z) : bool := negb (Z.land (flags f) flag =? 0).

Definition may_pad (t : Z) : bool := (t =? h2FrameData) || (t =? h2FrameHeaders) || (t =? h2FramePushPromise).

(** Padding is removed from the frames that may have it. *)
Definition unpad (f : h2Frame) (e : Z) : result h2_error (h2Frame * Z) :=
  if has f h2FlagPadded && may_pad (typ f) then
    match payload f with
    | [] => Err (H2ConnError H2FrameSizeError (str "padded frame without pad length"))
    | pad :: rest =>
        if len (payload f) <=? pad then Err (H2ConnError H2ProtocolError (str "padding exceeds frame"))
        else Ok (Frame (typ f) (flags f) (streamID f) (take (Z.to_nat (len rest - pad)) rest) (flen f), e)
    end
  else Ok (f, e).

(** The second part of the result is how many bytes the frame took, 0 if it is
    not complete yet. *)
Definition h2ReadFrame (buf : bytes) (maxFrameSize : Z) : result h2_error (h2Frame * Z) :=
  if len buf <? h2FrameHeaderLen then Ok (no_frame, 0)
  else
    let b i := default 0 (at_ buf i) in
    let length := Z.lor (Z.lor (Z.shiftl (b 0) 16) (Z.shiftl (b 1) 8)) (b 2) in
    if maxFrameSize <? length
    then Err (H2ConnError H2FrameSizeError (str "frame of " ++ num length ++ str " bytes exceeds " ++ num maxFrameSize))
    else
      let e := h2FrameHeaderLen + length in
      if len buf <? e then Ok (no_frame, 0)
      else
        let id := Z.land (be_val (take 4 (drop 5 buf))) 0x7fffffff in
        unpad (Frame (b 3) (b 4) id (take (Z.to_nat length) (drop 9 buf)) length) e.

(** * Writing frames *)

Definition h2AppendFrameHeader (dst : bytes) (typ flags streamID length : Z) : bytes :=
  dst ++ [u8 (Z.shiftr length 16); u8 (Z.shiftr length 8); u8 length; u8 typ; flags;
          Z.land (u8 (Z.shiftr streamID 24)) 0x7f; u8 (Z.shiftr streamID 16); u8 (Z.shiftr streamID 8); u8 streamID].

Definition h2AppendSettings (dst : bytes) (settings : list (Z * Z)) : bytes :=
  fold_left (fun dst '(id, value) => (dst ++ be_bytes 2 id) ++ be_bytes 4 value) settings
    (h2AppendFrameHeader dst h2FrameSettings 0 0 (6 * len settings)).

Definition h2AppendWindowUpdate (dst : bytes) (streamID increment : Z) : bytes :=
  h2AppendFrameHeader dst h2FrameWindowUpdate 0 streamID 4 ++ be_bytes 4 (Z.land increment 0x7fffffff).

Definition h2AppendRSTStream (dst : bytes) (streamID code : Z) : bytes :=
  h2AppendFrameHeader dst h2FrameRSTStream 0 streamID 4 ++ be_bytes 4 code.

Definition h2AppendGoAway (dst : bytes) (lastStreamID code : Z) (debug : bytes) : bytes :=
  ((h2AppendFrameHeader dst h2FrameGoAway 0 0 (8 + len debug) ++ be_bytes 4 (Z.land lastStreamID 0x7fffffff)) ++ be_bytes 4 code) ++ debug.

(** The loop over a header block.  Each round that goes on takes [maxFrameSize]
    bytes, at least one, so the length is fuel enough. *)
Fixpoint block_loop (fuel : nat) (dst : bytes) (typ flags streamID : Z) (block : bytes) (maxFrameSize : Z) : bytes :=
  let chunk := if maxFrameSize <? len block then take (Z.to_nat maxFrameSize) block else block in
  let block := drop (length chunk) block in
  let f := if len block =? 0 then Z.lor flags h2FlagEndHeaders else flags in
  let dst := h2AppendFrameHeader dst typ f streamID (len chunk) ++ chunk in
  match fuel, block with
  | _, [] => dst
  | S fuel, _ => block_loop fuel dst h2FrameContinuation 0 streamID block maxFrameSize
  | O, _ => dst
  end.

Definition h2AppendHeaderBlock (dst : bytes) (streamID : Z) (block : bytes) (endStream : bool) (maxFrameSize : Z) : bytes :=
  block_loop (length block) dst h2FrameHeaders (if endStream then h2FlagEndStream else 0) streamID block maxFrameSize.

Definition h2AppendPushPromise (dst : bytes) (streamID promisedID : Z) (block : bytes) (maxFrameSize : Z) : bytes :=
  let chunk := take (Z.to_nat (Z.min (len block) (maxFrameSize - 4))) block in
  let block := drop (length chunk) block in
  let flags := if len block =? 0 then h2FlagEndHeaders else 0 in
  let dst := h2AppendFrameHeader dst h2FramePushPromise flags streamID (4 + len chunk) ++ be_bytes 4 (Z.land promisedID 0x7fffffff) ++ chunk in
  match block with
  | [] => dst
  | _ => block_loop (length block) dst h2FrameContinuation 0 streamID block maxFrameSize
  end.

(** * Settings and fields *)

(** Every setting of the payload goes to [apply]. *)
Fixpoint settings_loop {St} (apply : Z -> Z -> St -> St * option h2_error) (fuel : nat) (payload : bytes) (st : St) : St * option h2_error :=
  match fuel, payload with
  | S fuel, _ :: _ =>
      let '(st, err) := apply (be_val (take 2 payload)) (be_val (take 4 (drop 2 payload))) st in
      match err with Some _ => (st, err) | None => settings_loop apply fuel (drop 6 payload) st end
  | _, _ => (st, None)
  end.

Definition h2ParseSettings {St} (apply : Z -> Z -> St -> St * option h2_error) (payload : bytes) (st : St) : St * option h2_error :=
  if negb (len payload mod 6 =? 0) then (st, Some (H2ConnError H2FrameSizeError (str "SETTINGS length " ++ num (len payload))))
  else settings_loop apply (length payload) payload st.

Definition h2ConnectionHeaders : list bytes :=
  str <$> ["connection"; "keep-alive"; "proxy-connection"; "transfer-encoding"; "upgrade"]%string.

Definition name_byte (c : Z) : bool := negb (((65 <=? c) && (c <=? 90)) || (c <=? 32) || (127 <=? c)).

(** A colon may only come first. *)
Definition h2ValidHeaderName (name : bytes) : bool :=
  match name with
  | [] => false
  | c :: rest => name_byte c && forallb (fun c => name_byte c && negb (c =? 58)) rest
  end.

Definition blank (c : option Z) : bool := match c with Some c => (c =? 32) || (c =? 9) | None => false end.

Definition h2ValidHeaderValue (value : bytes) : bool :=
  forallb (fun c => negb ((c =? 0) || (c =? 13) || (c =? 10))) value && negb (blank (head value) || blank (last value)).

(** * Reading back what was written *)

(** The bytes of a frame without padding. *)
Definition encode (f : h2Frame) : bytes := h2AppendFrameHeader [] (typ f) (flags f) (streamID f) (len (payload f)) ++ payload f.
Definition encs (fs : list h2Frame) : bytes := mjoin (encode <$> fs).

Definition frame (t fl id : Z) (p : bytes) : h2Frame := Frame t fl id p (len p).

Record frame_ok (max : Z) (f : h2Frame) : Prop := {
  fk_typ : byte_ok (typ f);
  fk_flags : byte_ok (flags f);
  fk_id : 0 <= streamID f < 2 ^ 31;
  fk_len : flen f = len (payload f);
  fk_max : len (payload f) <= max;
  fk_pad : has f h2FlagPadded && may_pad (typ f) = false;
}.

Lemma header_app dst t fl id n : h2AppendFrameHeader dst t fl id n = dst ++ h2AppendFrameHeader [] t fl id n.
Proof. done. Qed.

Lemma header_bytes t fl id n : 0 <= id < 2 ^ 31 -> h2AppendFrameHeader [] t fl id n = be_bytes 3 n ++ [u8 t; fl] ++ be_bytes 4 id.
Proof.
  intros Hid. unfold h2AppendFrameHeader. cbn [be_bytes app]. change (8 * Z.of_nat 3) with 24. change (8 * Z.of_nat 2) with 16.
  change (8 * Z.of_nat 1) with 8. change (8 * Z.of_nat 0) with 0. rewrite !Z.shiftr_0_r. do 5 f_equal. f_equal.
  change 0x7f with (2 ^ 7 - 1). rewrite land_mask by lia. rewrite Z.shiftr_div_pow2 by lia. unfold u8.
  rewrite (Z.mod_small (id / 2 ^ 24) (2 ^ 8)) by (split; [apply Z.div_pos; lia|apply Z.div_lt_upper_bound; lia]).
  apply Z.mod_small. split; [apply Z.div_pos; lia|apply Z.div_lt_upper_bound; lia].
Qed.

Lemma encode_bytes f : 0 <= streamID f < 2 ^ 31 ->
  encode f = be_bytes 3 (len (payload f)) ++ [u8 (typ f); flags f] ++ be_bytes 4 (streamID f) ++ payload f.
Proof. intros. unfold encode. rewrite header_bytes by done. by rewrite <- !app_assoc. Qed.

Lemma encode_len f : len (encode f) = 9 + len (payload f).
Proof. unfold encode, h2AppendFrameHeader. rewrite len_app. cbn [app]. unfold len at 1. cbn. lia. Qed.

(** The first three bytes as they are read. *)
Lemma length_bytes a b c : byte_ok a -> byte_ok b -> byte_ok c ->
  Z.lor (Z.lor (Z.shiftl a 16) (Z.shiftl b 8)) c = be_val [a; b; c].
Proof.
  unfold byte_ok. intros Ha Hb Hc. rewrite <- Z.lor_assoc. rewrite (lor_shiftl_add 8) by lia. rewrite (lor_shiftl_add 16) by lia.
  unfold be_val. cbn. lia.
Qed.

(** What is read of a buffer that holds a frame's header. *)
Lemma read_header a b c t fl i0 i1 i2 i3 tail max : byte_ok a -> byte_ok b -> byte_ok c ->
  h2ReadFrame (a :: b :: c :: t :: fl :: i0 :: i1 :: i2 :: i3 :: tail) max =
    let n := be_val [a; b; c] in
    if max <? n then Err (H2ConnError H2FrameSizeError (str "frame of " ++ num n ++ str " bytes exceeds " ++ num max))
    else if len tail <? n then Ok (no_frame, 0)
    else unpad (Frame t fl (Z.land (be_val [i0; i1; i2; i3]) 0x7fffffff) (take (Z.to_nat n) tail) n) (9 + n).
Proof.
  intros Ha Hb Hc. unfold h2ReadFrame, h2FrameHeaderLen. pose proof (len_nonneg tail). cbv zeta. set (buf := a :: b :: c :: t :: fl :: i0 :: i1 :: i2 :: i3 :: tail). assert (Hl : len buf = 9 + len tail) by (unfold buf, len; cbn; lia). rewrite Hl.
  destruct (Z.ltb_spec (9 + len tail) 9); [lia|].
  change (at_ buf 0) with (Some a). change (at_ buf 1) with (Some b). change (at_ buf 2) with (Some c). change (at_ buf 3) with (Some t). change (at_ buf 4) with (Some fl).
  change (take 4 (drop 5 buf)) with [i0; i1; i2; i3]. change (drop 9 buf) with tail. cbn [default from_option id]. rewrite length_bytes by done. set (n := be_val [a; b; c]).
  destruct (Z.ltb_spec max n); [done|]. destruct (Z.ltb_spec (9 + len tail) (9 + n)), (Z.ltb_spec (len tail) n); done || lia.
Qed.

(** One frame, with whatever follows it in the buffer. *)
Lemma read_encode max f rest : max < 2 ^ 24 -> frame_ok max f -> h2ReadFrame (encode f ++ rest) max = Ok (f, 9 + len (payload f)).
Proof.
  intros Hmax [H1 H2 H3 H4 H5 H6]. pose proof (len_nonneg (payload f)) as Hp. pose proof (len_nonneg rest) as Hr.
  rewrite encode_bytes by done. rewrite <- app_assoc. set (n := len (payload f)) in *.
  assert (Hn : be_val (be_bytes 3 n) = n) by (apply be_val_bytes_small; lia).
  assert (Hi : be_val (be_bytes 4 (streamID f)) = streamID f) by (apply be_val_bytes_small; lia).
  cbn [be_bytes app] in *. rewrite (read_header _ _ _ _ _ _ _ _ _ (payload f ++ rest)) by apply u8_byte_ok. rewrite Hn, Hi. cbv zeta.
  destruct (Z.ltb_spec max n); [lia|]. rewrite len_app. destruct (Z.ltb_spec (len (payload f) + len rest) n); [lia|].
  change 0x7fffffff with (2 ^ 31 - 1). rewrite land_mask, Z.mod_small by lia. rewrite u8_small by done.
  unfold n. rewrite take_app_length' by (unfold len; lia). unfold unpad. fold n. rewrite <- H4.
  destruct f as [t fl i p l]. cbn in *. by rewrite H6.
Qed.

Lemma has_header (buf : bytes) : 9 <= len buf -> exists a b c t fl i0 i1 i2 i3 tail, buf = a :: b :: c :: t :: fl :: i0 :: i1 :: i2 :: i3 :: tail.
Proof. intros H. do 9 (destruct buf as [|? buf]; [by vm_compute in H|]). by repeat eexists. Qed.

Lemma unpad_end f e g n : unpad f e = Ok (g, n) -> n = e.
Proof. unfold unpad. repeat case_match; congruence. Qed.

(** A frame that is complete, or wrong, stays so when more arrives. *)
Lemma read_more buf rest max : bytes_ok buf ->
  match h2ReadFrame buf max with
  | Err e => h2ReadFrame (buf ++ rest) max = Err e
  | Ok (f, n) => n = 0 \/ (9 <= n <= len buf /\ h2ReadFrame (buf ++ rest) max = Ok (f, n))
  end.
Proof.
  intros Hb. destruct (Z.lt_ge_cases (len buf) 9) as [Hs|Hs].
  { unfold h2ReadFrame, h2FrameHeaderLen. destruct (Z.ltb_spec (len buf) 9); [by left|lia]. }
  destruct (has_header _ Hs) as (a & b & c & t & fl & i0 & i1 & i2 & i3 & tail & ->). clear Hs.
  rewrite !Forall_cons in Hb. destruct Hb as (Ha & Hb & Hc & _). cbn [app]. rewrite !read_header by done. cbv zeta.
  assert (Hn : bytes_ok [a; b; c]) by (by rewrite !Forall_cons; split_and!; [..|constructor]). apply be_val_range in Hn as [Hn _]. set (n := be_val [a; b; c]) in *.
  destruct (max <? n); [done|]. rewrite len_app. pose proof (len_nonneg rest). destruct (Z.ltb_spec (len tail) n) as [|Hl]; [by left|].
  destruct (Z.ltb_spec (len tail + len rest) n); [lia|]. rewrite take_app_le by (unfold len in *; lia).
  destruct (unpad _ _) as [[f m]|] eqn:E; [|done]. right. apply unpad_end in E as ->. split; [|done].
  rewrite !len_cons. lia.
Qed.

(** All the frames of a buffer, and what is left of it. *)
Fixpoint read_all (fuel : nat) (buf : bytes) (max : Z) : result h2_error (list h2Frame * bytes) :=
  match fuel with
  | O => Ok ([], buf)
  | S fuel =>
      match h2ReadFrame buf max with
      | Err e => Err e
      | Ok (f, n) =>
          if n =? 0 then Ok ([], buf)
          else match read_all fuel (drop (Z.to_nat n) buf) max with Err e => Err e | Ok (fs, rest) => Ok (f :: fs, rest) end
      end
  end.

Definition wire_frames (wire : bytes) : result h2_error (list h2Frame * bytes) := read_all (length wire) wire h2MaxFrameSizeLimit.

Lemma encs_app fs gs : encs (fs ++ gs) = encs fs ++ encs gs.
Proof. unfold encs. by rewrite fmap_app, join_app. Qed.

Lemma encs_cons f fs : encs (f :: fs) = encode f ++ encs fs.
Proof. done. Qed.

Lemma encs_one f : encs [f] = encode f.
Proof. rewrite encs_cons. by rewrite app_nil_r. Qed.

Lemma drop_encode f rest : drop (Z.to_nat (9 + len (payload f))) (encode f ++ rest) = rest.
Proof. apply drop_app_length'. pose proof (encode_len f) as H. unfold len in H at 1. lia. Qed.

Lemma read_all_encs fuel fs max : max < 2 ^ 24 -> Forall (frame_ok max) fs -> (length (encs fs) <= fuel)%nat -> read_all fuel (encs fs) max = Ok (fs, []).
Proof.
  intros Hmax Hfs. revert fuel. induction Hfs as [|f fs Hf Hfs IH]; intros fuel Hfuel.
  { destruct fuel; [done|]. cbn. unfold h2ReadFrame. by destruct (Z.ltb_spec (len (@nil Z)) h2FrameHeaderLen). }
  rewrite encs_cons in *. pose proof (encode_len f) as Hl. pose proof (len_nonneg (payload f)). rewrite length_app in Hfuel. unfold len in Hl at 1.
  destruct fuel as [|fuel]; [lia|]. cbn [read_all]. rewrite read_encode by done. destruct (Z.eqb_spec (9 + len (payload f)) 0); [lia|].
  rewrite drop_encode, IH by lia. done.
Qed.

Lemma wire_frames_encs fs : Forall (frame_ok h2MaxFrameSizeLimit) fs -> wire_frames (encs fs) = Ok (fs, []).
Proof. intros. apply read_all_encs; [by vm_compute|done|done]. Qed.

(** ** What the writers write *)

Definition settings_payload (settings : list (Z * Z)) : bytes := mjoin ((fun '(id, value) => be_bytes 2 id ++ be_bytes 4 value) <$> settings).

Lemma settings_payload_cons i v l : settings_payload ((i, v) :: l) = (be_bytes 2 i ++ be_bytes 4 v) ++ settings_payload l.
Proof. done. Qed.

Lemma settings_payload_len l : len (settings_payload l) = 6 * len l.
Proof.
  induction l as [|[i v] l IH]; [done|]. rewrite settings_payload_cons.
  rewrite !len_app, !be_bytes_len, len_cons, IH. lia.
Qed.

Lemma append_settings dst l : h2AppendSettings dst l = dst ++ encode (frame h2FrameSettings 0 0 (settings_payload l)).
Proof.
  unfold h2AppendSettings, encode. cbn [frame typ flags streamID payload]. rewrite settings_payload_len, (header_app dst), (app_assoc dst).
  generalize (dst ++ h2AppendFrameHeader [] h2FrameSettings 0 0 (6 * len l)) as d. induction l as [|[i v] l IH]; intros d; [by rewrite app_nil_r|].
  cbn [fold_left]. rewrite IH, settings_payload_cons. by rewrite <- !app_assoc.
Qed.

Lemma append_window dst id n : h2AppendWindowUpdate dst id n = dst ++ encode (frame h2FrameWindowUpdate 0 id (be_bytes 4 (Z.land n 0x7fffffff))).
Proof. unfold h2AppendWindowUpdate, encode. rewrite header_app, <- app_assoc. done. Qed.

Lemma append_reset dst id code : h2AppendRSTStream dst id code = dst ++ encode (frame h2FrameRSTStream 0 id (be_bytes 4 code)).
Proof. unfold h2AppendRSTStream, encode. rewrite header_app, <- app_assoc. done. Qed.

Lemma append_goaway dst id code debug :
  h2AppendGoAway dst id code debug = dst ++ encode (frame h2FrameGoAway 0 0 (be_bytes 4 (Z.land id 0x7fffffff) ++ be_bytes 4 code ++ debug)).
Proof.
  unfold h2AppendGoAway, encode. cbn [frame typ flags streamID payload]. rewrite !len_app, !be_bytes_len.
  replace (Z.of_nat 4 + (Z.of_nat 4 + len debug)) with (8 + len debug) by lia. by rewrite header_app, <- !app_assoc.
Qed.

(** The frames of a header block. *)
Fixpoint block_frames (fuel : nat) (t fl id : Z) (block : bytes) (max : Z) : list h2Frame :=
  let chunk := if max <? len block then take (Z.to_nat max) block else block in
  let block := drop (length chunk) block in
  let f := frame t (if len block =? 0 then Z.lor fl h2FlagEndHeaders else fl) id chunk in
  match fuel, block with
  | _, [] => [f]
  | S fuel, _ => f :: block_frames fuel h2FrameContinuation 0 id block max
  | O, _ => [f]
  end.

Lemma block_loop_frames fuel dst t fl id block max : block_loop fuel dst t fl id block max = dst ++ encs (block_frames fuel t fl id block max).
Proof.
  revert dst t fl block. induction fuel as [|fuel IH]; intros dst t fl block; cbn [block_loop block_frames];
    set (chunk := if max <? len block then _ else _); destruct (drop (length chunk) block) as [|x b] eqn:E.
  all: rewrite ?IH, ?encs_one, ?encs_cons; rewrite header_app, <- ?app_assoc; done.
Qed.

Definition header_frames (id : Z) (block : bytes) (endStream : bool) (max : Z) : list h2Frame :=
  block_frames (length block) h2FrameHeaders (if endStream then h2FlagEndStream else 0) id block max.

Lemma append_headers dst id block es max : h2AppendHeaderBlock dst id block es max = dst ++ encs (header_frames id block es max).
Proof. apply block_loop_frames. Qed.

(** A header block that is split: the pieces are the block, only the last says
    that the headers end, and they fit. *)
Record split_ok (t fl id : Z) (block : bytes) (max : Z) (fs : list h2Frame) : Prop := {
  sp_block : mjoin (payload <$> fs) = block;
  sp_shape : exists pre z, fs = pre ++ [z] /\ has z h2FlagEndHeaders = true /\ Forall (fun f => has f h2FlagEndHeaders = false) pre;
  sp_first : exists f rest, fs = f :: rest /\ typ f = t /\ (flags f = fl \/ flags f = Z.lor fl h2FlagEndHeaders) /\
    Forall (fun g => typ g = h2FrameContinuation /\ (flags g = 0 \/ flags g = h2FlagEndHeaders)) rest;
  sp_each : Forall (fun f => streamID f = id /\ flen f = len (payload f) /\ len (payload f) <= max) fs;
}.

Lemma block_frames_one fuel t fl id block max : len block <= max -> block_frames fuel t fl id block max = [frame t (Z.lor fl h2FlagEndHeaders) id block].
Proof.
  intros H. destruct fuel; cbn [block_frames]; (destruct (Z.ltb_spec max (len block)); [lia|]); by rewrite drop_all.
Qed.

Lemma block_frames_more fuel t fl id block max : 1 <= max < len block ->
  block_frames (S fuel) t fl id block max =
    frame t fl id (take (Z.to_nat max) block) :: block_frames fuel h2FrameContinuation 0 id (drop (Z.to_nat max) block) max.
Proof.
  intros H. cbn [block_frames]. destruct (Z.ltb_spec max (len block)); [|lia]. rewrite length_take_le by (unfold len in *; lia).
  destruct (drop (Z.to_nat max) block) as [|x b] eqn:E.
  { apply (f_equal length) in E. rewrite length_drop in E. cbn in E. unfold len in *. lia. }
  destruct (Z.eqb_spec (len (x :: b)) 0) as [Hz|]; [|done]. rewrite len_cons in Hz. pose proof (len_nonneg b). lia.
Qed.

Lemma has_flag f flag : flag <> 0 -> Z.land (flags f) flag = flag -> has f flag = true.
Proof. unfold has. intros H ->. by destruct (Z.eqb_spec flag 0). Qed.

Lemma land_lor_flag a : Z.land (Z.lor a h2FlagEndHeaders) h2FlagEndHeaders = h2FlagEndHeaders.
Proof. rewrite Z.land_comm. apply Z.bits_inj'. intros i Hi. rewrite Z.land_spec, Z.lor_spec. by destruct (Z.testbit a i), (Z.testbit h2FlagEndHeaders i). Qed.

Lemma split_one t fl id block max : len block <= max -> split_ok t fl id block max [frame t (Z.lor fl h2FlagEndHeaders) id block].
Proof.
  intros Hl. set (f := frame t (Z.lor fl h2FlagEndHeaders) id block). constructor.
  - cbn. by rewrite app_nil_r.
  - exists [], f. split_and!; [done|by apply has_flag, land_lor_flag|constructor].
  - exists f, []. split_and!; [done|done|by right|constructor].
  - by rewrite Forall_singleton.
Qed.

Lemma block_frames_split fuel t fl id block max :
  1 <= max -> (length block <= fuel)%nat -> Z.land fl h2FlagEndHeaders = 0 -> split_ok t fl id block max (block_frames fuel t fl id block max).
Proof.
  intros Hmax. revert t fl block. induction fuel as [|fuel IH]; intros t fl block Hf Hfl.
  all: destruct (Z.le_gt_cases (len block) max) as [Hl|Hl]; [rewrite block_frames_one by done; by apply split_one|].
  { unfold len in Hl. lia. }
  rewrite block_frames_more by lia.
  destruct (IH h2FrameContinuation 0 (drop (Z.to_nat max) block)) as [J1 (pre & z & J2 & J3 & J4) (f & rest & J5 & J6 & J7 & J8) J9].
  { rewrite length_drop. lia. }
  { done. }
  constructor.
  - transitivity (take (Z.to_nat max) block ++ mjoin (payload <$> block_frames fuel h2FrameContinuation 0 id (drop (Z.to_nat max) block) max)); [done|]. rewrite J1. apply take_drop.
  - exists (frame t fl id (take (Z.to_nat max) block) :: pre), z. rewrite J2. split_and!; [done|done|]. constructor; [|done].
    unfold has. cbn. by rewrite Hfl.
  - eexists _, _. split_and!; [reflexivity|done|by left|]. rewrite J5. constructor; [|done]. split; [done|]. by destruct J7; [left|right].
  - constructor; [|done]. split_and!; [done|done|]. cbn. rewrite len_take. lia.
Qed.

Lemma header_frames_split id block (es : bool) max : 1 <= max ->
  split_ok h2FrameHeaders (if es then h2FlagEndStream else 0) id block max (header_frames id block es max).
Proof. intros. apply block_frames_split; [done|done|by destruct es]. Qed.

(** A frame of these kinds can be read back. *)
Lemma frame_ok_mk max t fl id p :
  byte_ok t -> byte_ok fl -> 0 <= id < 2 ^ 31 -> len p <= max -> Z.land fl h2FlagPadded = 0 -> frame_ok max (frame t fl id p).
Proof. intros. constructor; try done. unfold has. cbn. by rewrite H3. Qed.

Definition push_frames (id promised : Z) (block : bytes) (max : Z) : list h2Frame :=
  let chunk := take (Z.to_nat (Z.min (len block) (max - 4))) block in
  let rest := drop (length chunk) block in
  let f := frame h2FramePushPromise (if len rest =? 0 then h2FlagEndHeaders else 0) id (be_bytes 4 (Z.land promised 0x7fffffff) ++ chunk) in
  match rest with
  | [] => [f]
  | _ => f :: block_frames (length rest) h2FrameContinuation 0 id rest max
  end.

Lemma append_push dst id promised block max : h2AppendPushPromise dst id promised block max = dst ++ encs (push_frames id promised block max).
Proof.
  unfold h2AppendPushPromise, push_frames. set (chunk := take _ block).
  assert (E : forall fl, h2AppendFrameHeader dst h2FramePushPromise fl id (4 + len chunk) ++ be_bytes 4 (Z.land promised 0x7fffffff) ++ chunk =
                dst ++ encode (frame h2FramePushPromise fl id (be_bytes 4 (Z.land promised 0x7fffffff) ++ chunk))).
  { intros fl. unfold encode. cbn [frame typ flags streamID payload]. rewrite len_app, be_bytes_len. change (Z.of_nat 4) with 4. by rewrite header_app, <- !app_assoc. }
  destruct (drop (length chunk) block) as [|x b]; rewrite E; [by rewrite encs_one|]. by rewrite block_loop_frames, encs_cons, <- app_assoc.
Qed.

(** ** Settings *)

Fixpoint apply_all {St} (apply : Z -> Z -> St -> St * option h2_error) (l : list (Z * Z)) (st : St) : St * option h2_error :=
  match l with
  | [] => (st, None)
  | (i, v) :: l => let '(st, err) := apply i v st in match err with Some _ => (st, err) | None => apply_all apply l st end
  end.

Lemma settings_loop_all {St} (apply : Z -> Z -> St -> St * option h2_error) l fuel st :
  Forall (fun '(i, v) => 0 <= i < 2 ^ 16 /\ 0 <= v < 2 ^ 32) l -> (length l <= fuel)%nat ->
  settings_loop apply fuel (settings_payload l) st = apply_all apply l st.
Proof.
  intros Hl. revert fuel st. induction Hl as [|[i v] l [Hi Hv] Hl IH]; intros fuel st Hf; [by destruct fuel|].
  destruct fuel as [|fuel]; [cbn in Hf; lia|]. rewrite settings_payload_cons. set (r := settings_payload l) in *.
  assert (E1 : take 2 ((be_bytes 2 i ++ be_bytes 4 v) ++ r) = be_bytes 2 i) by done.
  assert (E2 : take 4 (drop 2 ((be_bytes 2 i ++ be_bytes 4 v) ++ r)) = be_bytes 4 v) by done.
  assert (E3 : drop 6 ((be_bytes 2 i ++ be_bytes 4 v) ++ r) = r) by done.
  destruct ((be_bytes 2 i ++ be_bytes 4 v) ++ r) as [|x b] eqn:E; [done|]. cbn [settings_loop apply_all]. rewrite E1, E2, E3.
  rewrite !be_val_bytes_small by done. destruct (apply i v st) as [st' [e|]]; [done|]. apply IH. cbn in Hf. lia.
Qed.

(** What one side sets, the other reads. *)
Lemma settings_read {St} (apply : Z -> Z -> St -> St * option h2_error) l st :
  Forall (fun '(i, v) => 0 <= i < 2 ^ 16 /\ 0 <= v < 2 ^ 32) l -> h2ParseSettings apply (settings_payload l) st = apply_all apply l st.
Proof.
  intros Hl. unfold h2ParseSettings. pose proof (settings_payload_len l) as Hn. rewrite Hn at 1. rewrite (Z.mul_comm 6), Z_mod_mult. cbn.
  apply settings_loop_all; [done|]. unfold len in Hn. lia.
Qed.
