(* ===== verification/Http2Server.v ===== *)
(** HTTP/2 on the server side: src/go/http/h2_server.go and h2_push.go, and the
    switch from HTTP/1.1 of h2_upgrade.go.

    Streams are pointers shared by the connection's map and the requests that
    the application holds.  [store] has every stream the connection ever made,
    under its ID, which is never used twice; [streams] is the set of keys of the
    connection's map, and a pointer is an ID.  [wire] is what was handed to the
    connection below, [closing] says that it was asked to close after that, and
    [served] are the requests given to the application, in order.

    A critical section is one function, and so is the handling of a frame.
    The application is [app]: the calls its handler makes, before it returns,
    for a request; it may make more at any later time.  Go's order of ranging
    over a map is [range].  The fields of a response are listed in the order its
    header is ranged over.  [net/url] is a parameter. *)
From Stdlib Require Import String.
From S2P Require Import Prelude.
From S2P Require Import HpackTables.
From S2P Require Import Huffman.
From S2P Require Import Hpack.
From S2P Require Import GoText.
From S2P Require Import HttpServer.
From S2P Require Import HttpWriter.
From S2P Require Import Http2Frame.

Definition h2StreamWindow : Z := Z.shiftl 1 20.
Definition h2ConnWindow : Z := Z.shiftl 1 24.
Definition DefaultMaxConcurrentStreams : Z := 250.

(** * Text *)

(** The letters and signs a field name is made of. *)
Definition token_byte (c : Z) : bool :=
  ((48 <=? c) && (c <=? 57)) || ((65 <=? c) && (c <=? 90)) || ((97 <=? c) && (c <=? 122)) || bool_decide (c ∈ str "!#$%&'*+-.^_`|~").

Fixpoint canonical (upper : bool) (s : bytes) : bytes :=
  match s with
  | [] => []
  | c :: s =>
      (if upper && (97 <=? c) && (c <=? 122) then c - 32 else if negb upper && (65 <=? c) && (c <=? 90) then c + 32 else c)
        :: canonical (c =? 45) s
  end.

(** [textproto.CanonicalMIMEHeaderKey] *)
Definition CanonicalMIMEHeaderKey (s : bytes) : bytes := if forallb token_byte s then canonical true s else s.

(** [Header.Get] of a canonical key. *)
Definition Get (h : Header) (key : bytes) : bytes := default [] (head (default [] (h !! key))).

Definition hpack_text (e : hpack_error) : bytes :=
  str match e with
      | ErrInvalidIndex => "hpack: invalid table index"
      | ErrIntegerOverflow => "hpack: integer overflow"
      | ErrTruncated => "hpack: truncated header block"
      | ErrInvalidHuffman => "hpack: invalid huffman encoding"
      | ErrStringTooLong => "hpack: string too long"
      | ErrInvalidSizeUpdate => "hpack: invalid dynamic table size update"
      end.

(** * Data *)

Record h2Config := H2Config { MaxConcurrentStreams : Z; MaxHeaderBytes : Z; MaxBodyBytes : Z; overTLS : bool }.

(** A header as it is ranged over. *)
Definition fields : Type := list (bytes * list bytes).

Record Response := MkResponse { StatusCode : Z; rHeader : fields; rBody : bytes; rTrailer : fields; rClose : bool }.

Inductive target {U : Type} := Opaque (host : bytes) | Star | Parsed (u : U).
Arguments target : clear implicits.

Record Request {U : Type} := MkRequest {
  Method : bytes;
  URL : target U;
  RequestURI : bytes;
  Host : bytes;
  ReqHeader : Header;
  Trailer : option Header;
  ReqBody : bytes;
}.
Arguments Request : clear implicits.

#[export] Instance eta_Request {U} : Eta (Request U) := fun r =>
  MkRequest U (Method r) (URL r) (RequestURI r) (Host r) (ReqHeader r) (Trailer r) (ReqBody r).

Record h2ServerStream {U : Type} := MkStream {
  req : option (Request U);
  pushed : bool;
  body : bytes;
  declared : Z;
  s_recvWindow : Z;
  s_recvUnacked : Z;
  remoteDone : bool;
  responded : bool;
  trailer : option fields;
  localDone : bool;
  reset : bool;
  s_sendWindow : Z;
  pending : bytes;
}.
Arguments h2ServerStream : clear implicits.

#[export] Instance eta_Stream {U} : Eta (h2ServerStream U) := fun s =>
  MkStream U (req s) (pushed s) (body s) (declared s) (s_recvWindow s) (s_recvUnacked s) (remoteDone s) (responded s) (trailer s) (localDone s)
    (reset s) (s_sendWindow s) (pending s).

(** The fields [in] and [gotPreface], which only [feed] touches. *)
Record h2Input := Input { inb : bytes; gotPreface : bool }.

Record h2ServerConn {U : Type} := MkServerConn {
  gotSettings : bool;
  dec : Decoder;
  contStream : Z;
  contEndStream : bool;
  contBlock : bytes;
  maxClientID : Z;
  recvWindow : Z;
  recvUnacked : Z;
  store : gmap Z (h2ServerStream U);
  streams : gset Z;
  enc : Encoder;
  peerMaxFrame : Z;
  peerWindow : Z;
  sendWindow : Z;
  goAway : bool;
  peerGoingAway : bool;
  closed : bool;
  lastStreamID : Z;
  pushEnabled : bool;
  nextPushID : Z;
  peerMaxPush : Z;
  pushedStreams : Z;
  wire : bytes;
  closing : bool;
  served : list (Z * Request U);
}.
Arguments h2ServerConn : clear implicits.

#[export] Instance eta_ServerConn {U} : Eta (h2ServerConn U) := fun c =>
  MkServerConn U (gotSettings c) (dec c) (contStream c) (contEndStream c) (contBlock c) (maxClientID c) (recvWindow c)
    (recvUnacked c) (store c) (streams c) (enc c) (peerMaxFrame c) (peerWindow c) (sendWindow c) (goAway c) (peerGoingAway c) (closed c)
    (lastStreamID c) (pushEnabled c) (nextPushID c) (peerMaxPush c) (pushedStreams c) (wire c) (closing c) (served c).

(** What the application may do with a request it was given. *)
Inductive call :=
| Respond (r : Response)
| WriteInterim (status : Z) (header : fields)
| Push (method path : bytes) (header : fields).

Inductive call_error := InvalidStatusCode | InvalidHeader | StreamGone | AlreadyWritten | NotSupported | BadMethod | BadTarget | PushForbidden | ErrPushLimit | AfterResponse.

Section server.
Context {U : Type}.
Abbreviation Conn := (h2ServerConn U).
Abbreviation Stream := (h2ServerStream U).
Context (ParseRequestURI : bytes -> option U) (unicode_lower : bytes -> bytes).
(** [url.Parse]: the scheme, the host and the request URI. *)
Context (ParseURL : bytes -> option (bytes * bytes * bytes)).
Context (cfg : h2Config) (range : Conn -> list Z) (app : Z -> Request U -> list call).

Definition no_stream : Stream := MkStream U None false [] 0 0 0 false false None false false 0 [].
Definition get (i : Z) (c : Conn) : Stream := default no_stream (store c !! i).
Definition put (i : Z) (s : Stream) (c : Conn) : Conn := c <| store := <[i := s]> (store c) |>.

Definition maxStreams : Z := if MaxConcurrentStreams cfg =? 0 then DefaultMaxConcurrentStreams else MaxConcurrentStreams cfg.

Definition newH2ServerConn : Conn :=
  MkServerConn U false (Dec (Table [] 0 DefaultTableSize) DefaultTableSize (MaxHeaderBytes cfg)) 0 false [] 0 h2ConnWindow 0 ∅ ∅ NewEncoder
    h2DefaultMaxFrameSize h2DefaultWindow h2DefaultWindow false false false 0 true 2 (2 ^ 32 - 1) 0 [] false [].

(** [strings.ToLower] *)
Definition ToLower (s : bytes) : bytes := if forallb (fun c => c <? 128) s then lower <$> s else unicode_lower s.

(** * Sending *)

Definition sendLocked (out : bytes) (c : Conn) : Conn := if (0 <? len out) && negb (closed c) then c <| wire := wire c ++ out |> else c.

Definition start (c : Conn) : Conn :=
  sendLocked
    (h2AppendWindowUpdate
       (h2AppendSettings []
          [(h2SettingMaxConcurrentStreams, maxStreams); (h2SettingInitialWindowSize, h2StreamWindow);
           (h2SettingMaxHeaderListSize, u32 (MaxHeaderBytes cfg)); (h2SettingEnablePush, 0)])
       0 (h2ConnWindow - h2DefaultWindow)) c.

Definition fail (code : Z) (reason : bytes) (c : Conn) : Conn :=
  if closed c then c
  else
    sendLocked (h2AppendGoAway [] (lastStreamID c) code reason) c <| closed := true |> <| goAway := true |> <| streams := ∅ |> <| closing := true |>.

Definition shutdown (c : Conn) : Conn := c <| closed := true |> <| streams := ∅ |>.

Definition forgetLocked (i : Z) (c : Conn) : Conn :=
  let s := get i c in
  let c := put i (s <| reset := reset s || negb (localDone s) |> <| pending := [] |>) c in
  if decide (i ∈ streams c) then
    let c := c <| streams := streams c ∖ {[i]} |> in
    if pushed s then c <| pushedStreams := u32 (pushedStreams c - 1) |> else c
  else c.

Definition closeFinishedLocked (c : Conn) : Conn :=
  if closed c || (negb (goAway c) && negb (peerGoingAway c)) || negb (bool_decide (streams c = ∅)) then c
  else c <| closed := true |> <| closing := true |>.

Definition finishStreamLocked (i : Z) (c : Conn) : Conn :=
  let s := get i c in
  if negb (localDone s) || reset s then c
  else
    let c := if negb (remoteDone s) then sendLocked (h2AppendRSTStream [] i H2NoError) (put i (s <| reset := true |>) c) else c in
    closeFinishedLocked (forgetLocked i c).

(** ** Fields *)

Definition h2CheckHeader (header : fields) : bool :=
  forallb (fun '(key, values) =>
    negb (bool_decide (key = []) || bool_decide (CanonicalMIMEHeaderKey key = []) || negb (h2ValidHeaderName (ToLower key)))
    && forallb validHeaderValue values) header.

Fixpoint append_values (name : bytes) (sensitive : bool) (values : list bytes) (e : Encoder) (block : bytes) : Encoder * bytes :=
  match values with
  | [] => (e, block)
  | v :: values => let '(e, block) := AppendField block name v sensitive e in append_values name sensitive values e block
  end.

Fixpoint appendHeaderLocked (header : fields) (e : Encoder) (block : bytes) : Encoder * bytes :=
  match header with
  | [] => (e, block)
  | (key, values) :: header =>
      let name := ToLower key in
      let '(e, block) :=
        if bool_decide (name ∈ h2ConnectionHeaders) || bool_decide (name = str "content-length") then (e, block)
        else append_values name (bool_decide (name = str "set-cookie") || bool_decide (name = str "authorization")) values e block in
      appendHeaderLocked header e block
  end.

Definition h2Trailer (header : fields) : option fields :=
  match List.filter (fun '(key, values) => negb (forbiddenTrailer CanonicalMIMEHeaderKey key) && h2CheckHeader [(key, values)]) header with
  | [] => None
  | l => Some l
  end.

(** ** Bodies *)

Definition endStreamLocked (out : bytes) (i : Z) (c : Conn) : bytes * Conn :=
  let s := get i c <| localDone := true |> in
  match trailer s with
  | None => (out, put i s c)
  | Some header =>
      let '(e, block) := Begin [] (enc c) in
      let '(e, block) := appendHeaderLocked header e block in
      (h2AppendHeaderBlock out i block true (peerMaxFrame c), put i (s <| trailer := None |>) c <| enc := e |>)
  end.

(** Each round takes at least a byte, so the length is fuel enough. *)
Fixpoint flush_loop (fuel : nat) (out : bytes) (i : Z) (c : Conn) : bytes * Conn :=
  let s := get i c in
  match fuel, pending s with
  | S fuel, _ :: _ =>
      let n := Z.min (Z.min (Z.min (len (pending s)) (sendWindow c)) (s_sendWindow s)) (peerMaxFrame c) in
      if n <=? 0 then (out, c)
      else
        let chunk := take (Z.to_nat n) (pending s) in
        let rest := drop (Z.to_nat n) (pending s) in
        let last := len rest =? 0 in
        let flags := if last && bool_decide (trailer s = None) then h2FlagEndStream else 0 in
        let out := h2AppendFrameHeader out h2FrameData flags i (len chunk) ++ chunk in
        let c := put i (s <| pending := rest |> <| s_sendWindow := s_sendWindow s - n |>) c <| sendWindow := sendWindow c - n |> in
        let '(out, c) := if last then endStreamLocked out i c else (out, c) in
        flush_loop fuel out i c
  | _, _ => (out, c)
  end.

Definition flushStreamLocked (out : bytes) (i : Z) (c : Conn) : bytes * Conn := flush_loop (length (pending (get i c))) out i c.

Fixpoint flush_streams (order : list Z) (out : bytes) (c : Conn) : bytes * Conn :=
  match order with
  | [] => (out, c)
  | i :: order =>
      if sendWindow c <=? 0 then (out, c)
      else if len (pending (get i c)) =? 0 then flush_streams order out c
      else let '(out, c) := flushStreamLocked out i c in flush_streams order out (finishStreamLocked i c)
  end.

Definition flushLocked (out : bytes) (c : Conn) : bytes * Conn := flush_streams (range c) out c.

(** * The calls of the application *)

Definition respond (i : Z) (head : bool) (r : Response) (c : Conn) : option call_error * Conn :=
  let status := StatusCode r in
  if (status <? 200) || (999 <? status) then (Some InvalidStatusCode, c)
  else
    let bodyAllowed := negb (status =? 204) && negb (status =? 304) in
    let body := if negb bodyAllowed || head then [] else rBody r in
    if negb (h2CheckHeader (rHeader r)) then (Some InvalidHeader, c)
    else
      let s := get i c in
      if closed c || reset s then (Some StreamGone, c)
      else if responded s then (Some AlreadyWritten, c)
      else
        let '(e, block) := Begin [] (enc c) in
        let '(e, block) := AppendField block (str ":status") (FormatInt status 10) false e in
        let '(e, block) := if bodyAllowed then AppendField block (str "content-length") (FormatInt (len (rBody r)) 10) false e else (e, block) in
        let '(e, block) := appendHeaderLocked (rHeader r) e block in
        let s := s <| responded := true |> in
        let s := if bodyAllowed && negb head then s <| trailer := h2Trailer (rTrailer r) |> else s in
        let c := put i s c <| enc := e |> in
        let out := h2AppendHeaderBlock [] i block ((len body =? 0) && bool_decide (trailer s = None)) (peerMaxFrame c) in
        let '(out, c) :=
          if len body =? 0 then endStreamLocked out i c
          else flushStreamLocked out i (put i (s <| pending := body |>) c) in
        let '(out, c) :=
          if rClose r && negb (goAway c) then (h2AppendGoAway out (lastStreamID c) H2NoError [], c <| goAway := true |>) else (out, c) in
        (None, closeFinishedLocked (finishStreamLocked i (sendLocked out c))).

Definition writeInterim (i status : Z) (header : fields) (c : Conn) : option call_error * Conn :=
  if negb (h2CheckHeader header) then (Some InvalidHeader, c)
  else
    let s := get i c in
    if closed c || reset s then (Some StreamGone, c)
    else if responded s then (Some AlreadyWritten, c)
    else
      let '(e, block) := Begin [] (enc c) in
      let '(e, block) := AppendField block (str ":status") (FormatInt status 10) false e in
      let '(e, block) := appendHeaderLocked header e block in
      (None, sendLocked (h2AppendHeaderBlock [] i block false (peerMaxFrame c)) (c <| enc := e |>)).

Definition is_head (r : Request U) : bool := bool_decide (Method r = str "HEAD").
Definition req_head (i : Z) (c : Conn) : bool := match req (get i c) with Some r => is_head r | None => false end.

(** The calls on a stream that was pushed, which cannot push. *)
Definition basic_call (i : Z) (c : Conn) (a : call) : Conn :=
  match a with
  | Respond r => (respond i (req_head i c) r c).2
  | WriteInterim status header => (writeInterim i status header c).2
  | Push _ _ _ => c
  end.

Definition h2PushForbiddenHeaders : list bytes :=
  str <$> ["content-length"; "content-encoding"; "trailer"; "te"; "expect"; "host"; "connection"; "keep-alive"; "proxy-connection"; "transfer-encoding"; "upgrade"]%string.

(** The authority and the path a push is for. *)
Definition push_target (host path : bytes) : option (bytes * bytes) :=
  if is_prefix [47] path then Some (host, path)
  else
    match ParseURL path with
    | Some (scheme, h, uri) =>
        if bool_decide (scheme = if overTLS cfg then str "https" else str "http") && negb (bool_decide (h = [])) then Some (h, uri) else None
    | None => None
    end.

Definition push_header (header : fields) : Header := fold_left (fun h '(key, values) => add_values (CanonicalMIMEHeaderKey key) values h) header ∅.

Definition push (i : Z) (host method path : bytes) (header : fields) (c : Conn) : option call_error * Conn :=
  if pushed (get i c) then (Some NotSupported, c)
  else
    let method := if bool_decide (method = []) then str "GET" else method in
    if negb (bool_decide (method = str "GET")) && negb (bool_decide (method = str "HEAD")) then (Some BadMethod, c)
    else
    match push_target host path with
    | None => (Some BadTarget, c)
    | Some (authority, path) =>
        match ParseRequestURI path with
        | None => (Some BadTarget, c)
        | Some u =>
            if existsb (fun '(key, _) => bool_decide (ToLower key ∈ h2PushForbiddenHeaders)) header then (Some PushForbidden, c)
            else if negb (h2CheckHeader header) then (Some InvalidHeader, c)
            else if negb (pushEnabled c) then (Some NotSupported, c)
            else if closed c || goAway c || peerGoingAway c || reset (get i c) then (Some StreamGone, c)
            else if localDone (get i c) then (Some AfterResponse, c)
            else if (peerMaxPush c <=? pushedStreams c) || (h2MaxStreamID <? nextPushID c) then (Some ErrPushLimit, c)
            else
              let j := nextPushID c in
              let '(e, block) := Begin [] (enc c) in
              let '(e, block) := AppendField block (str ":method") method false e in
              let '(e, block) := AppendField block (str ":scheme") (if overTLS cfg then str "https" else str "http") false e in
              let '(e, block) := AppendField block (str ":authority") authority false e in
              let '(e, block) := AppendField block (str ":path") path false e in
              let '(e, block) := appendHeaderLocked header e block in
              let r := MkRequest U method (Parsed u) path authority (push_header header) None [] in
              let s := no_stream <| req := Some r |> <| pushed := true |> <| remoteDone := true |> <| s_sendWindow := peerWindow c |> in
              let c := c <| nextPushID := u32 (nextPushID c + 2) |> <| enc := e |> in
              let c := put j s c <| streams := {[j]} ∪ streams c |> <| pushedStreams := u32 (pushedStreams c + 1) |> in
              let c := sendLocked (h2AppendPushPromise [] i j block (peerMaxFrame c)) c in
              (None, fold_left (basic_call j) (app j r) (c <| served := served c ++ [(j, r)] |>))
        end
    end.

Definition perform (i : Z) (c : Conn) (a : call) : Conn :=
  match a with
  | Push method path header => (push i (match req (get i c) with Some r => Host r | None => [] end) method path header c).2
  | _ => basic_call i c a
  end.

(** [serveRequest] *)
Definition serve (i : Z) (r : Request U) (c : Conn) : Conn := fold_left (perform i) (app i r) (c <| served := served c ++ [(i, r)] |>).

(** * Requests *)

Definition reject (i status : Z) (text : bytes) (c : Conn) : Conn :=
  let c := put i (get i c <| body := [] |>) c in
  (respond i (req_head i c) (MkResponse status [(str "Content-Type", [str "text/plain; charset=utf-8"])] (text ++ [10]) [] false) c).2.

Definition finishRequest (i : Z) (c : Conn) : Conn * option h2_error :=
  let s := get i c in
  if (0 <=? declared s) && negb (declared s =? len (body s)) then (c, Some (H2StreamError i H2ProtocolError))
  else
    let c := put i (s <| remoteDone := true |>) c in
    let c := if localDone s then forgetLocked i c else c in
    match req s with
    | Some r =>
        if localDone s then (c, None)
        else (serve i (r <| ReqBody := body s |>) (put i (get i c <| body := [] |>) c), None)
    | None => (c, None)
    end.

(** The request line's fields, each at most once and before the others. *)
Record pseudo := Pseudo { p_method : option bytes; p_scheme : option bytes; p_authority : option bytes; p_path : option bytes }.

Definition set_pseudo (name v : bytes) (p : pseudo) : option pseudo :=
  if bool_decide (name = str ":method") then match p_method p with Some _ => None | None => Some (Pseudo (Some v) (p_scheme p) (p_authority p) (p_path p)) end
  else if bool_decide (name = str ":scheme") then match p_scheme p with Some _ => None | None => Some (Pseudo (p_method p) (Some v) (p_authority p) (p_path p)) end
  else if bool_decide (name = str ":authority") then match p_authority p with Some _ => None | None => Some (Pseudo (p_method p) (p_scheme p) (Some v) (p_path p)) end
  else if bool_decide (name = str ":path") then match p_path p with Some _ => None | None => Some (Pseudo (p_method p) (p_scheme p) (p_authority p) (Some v)) end
  else None.

Fixpoint request_loop (fs : list HeaderField) (p : pseudo) (h : Header) (cookies : list bytes) (regular : bool) : option (pseudo * Header * list bytes) :=
  match fs with
  | [] => Some (p, h, cookies)
  | f :: fs =>
      if is_prefix [58] (Name f) then
        if regular then None else let? p := set_pseudo (Name f) (Value f) p in request_loop fs p h cookies regular
      else if negb (h2ValidHeaderName (Name f)) || negb (h2ValidHeaderValue (Value f)) || bool_decide (Name f ∈ h2ConnectionHeaders) then None
      else if bool_decide (Name f = str "te") && negb (bool_decide (Value f = str "trailers")) then None
      else if bool_decide (Name f = str "cookie") then request_loop fs p h (cookies ++ [Value f]) true
      else request_loop fs p (add_values (CanonicalMIMEHeaderKey (Name f)) [Value f] h) cookies true
  end.

Definition newRequest (fs : list HeaderField) : option (Request U) :=
  let? (p, h, cookies) := request_loop fs (Pseudo None None None None) ∅ [] false in
  let h := match cookies with [] => h | _ => <[str "Cookie" := [join (str "; ") cookies]]> h end in
  let method := default [] (p_method p) in
  let scheme := default [] (p_scheme p) in
  let authority := default [] (p_authority p) in
  let path := default [] (p_path p) in
  if bool_decide (method = []) then None
  else
    let? (url, uri) :=
      if bool_decide (method = str "CONNECT") then
        if negb (bool_decide (scheme = [])) || negb (bool_decide (path = [])) || bool_decide (authority = []) then None
        else Some (Opaque authority, authority)
      else if bool_decide (scheme = []) || bool_decide (path = []) then None
      else if bool_decide (path = str "*") then Some (Star, path)
      else let? u := ParseRequestURI path in Some (Parsed u, path) in
    let host := if bool_decide (authority = []) then Get h (str "Host") else authority in
    Some (MkRequest U method url uri host (delete (str "Host") h) None []).

(** The trailer fields of a request. *)
Fixpoint trailer_loop (fs : list HeaderField) (h : Header) : option Header :=
  match fs with
  | [] => Some h
  | f :: fs =>
      if is_prefix [58] (Name f) || negb (h2ValidHeaderName (Name f)) || negb (h2ValidHeaderValue (Value f)) then None
      else trailer_loop fs (add_values (CanonicalMIMEHeaderKey (Name f)) [Value f] h)
  end.

Definition handleTrailers (i : Z) (fs : list HeaderField) (endStream tooLarge : bool) (c : Conn) : Conn * option h2_error :=
  let s := get i c in
  if remoteDone s then (c, Some (H2StreamError i H2StreamClosed))
  else
    match req s with
    | None => (c, Some (H2StreamError i H2ProtocolError))
    | Some r =>
        if negb endStream then (c, Some (H2StreamError i H2ProtocolError))
        else if tooLarge then (reject i 431 (str "Request Header Fields Too Large") c, None)
        else
          match trailer_loop fs ∅ with
          | None => (c, Some (H2StreamError i H2ProtocolError))
          | Some h => finishRequest i (put i (s <| req := Some (r <| Trailer := Some h |>) |>) c)
          end
    end.

(** What is kept of a header list, its size, and whether it is too large. *)
Definition collect_field (f : HeaderField) (st : list HeaderField * Z * bool) : (list HeaderField * Z * bool) * option Empty_set :=
  let '(fs, size, large) := st in
  let size := size + fsize f in
  let large := large || (MaxHeaderBytes cfg <? size) in
  ((if large then fs else fs ++ [f], size, large), None).

Definition fresh_stream (c : Conn) : Stream := no_stream <| s_recvWindow := h2StreamWindow |> <| s_sendWindow := peerWindow c |> <| declared := -1 |>.

(** The length the client announced: none, one to refuse, or a number. *)
Definition announced (r : Request U) : option (option Z) :=
  let cl := Get (ReqHeader r) (str "Content-Length") in
  if bool_decide (cl = []) then Some None
  else match ParseInt cl 10 with Some n => if n <? 0 then None else Some (Some n) | None => None end.

(** A request without a body is complete; one with a body is waited for. *)
Definition continue_request (i : Z) (r : Request U) (endStream : bool) (c : Conn) : Conn * option h2_error :=
  if endStream then finishRequest i c
  else if EqualFold (Get (ReqHeader r) (str "Expect")) (str "100-continue") then ((writeInterim i 100 [] c).2, None)
  else (c, None).

Definition open_request (i : Z) (fs : list HeaderField) (endStream : bool) (c : Conn) : Conn * option h2_error :=
  match newRequest fs with
  | None => (c, Some (H2StreamError i H2ProtocolError))
  | Some r =>
      let c := put i (get i c <| req := Some r |>) c in
      match announced r with
      | None => (c, Some (H2StreamError i H2ProtocolError))
      | Some None => continue_request i r endStream c
      | Some (Some n) =>
          if MaxBodyBytes cfg <? n then (reject i 413 (str "Request Entity Too Large") c, None)
          else continue_request i r endStream (put i (get i c <| declared := n |>) c)
      end
  end.

(** The fields of a block are trailers, or a request that opens a stream. *)
Definition handle_fields (i : Z) (fs : list HeaderField) (endStream tooLarge : bool) (c : Conn) : Conn * option h2_error :=
  if decide (i ∈ streams c) then handleTrailers i fs endStream tooLarge c
  else if i <=? maxClientID c then (c, None)
  else
    let c := c <| maxClientID := i |> in
    if closed c || goAway c || peerGoingAway c then (c, None)
    else if maxStreams <=? u32 (u32 (Z.of_nat (base.size (streams c))) - pushedStreams c) then (c, Some (H2StreamError i H2RefusedStream))
    else
      let c := put i (fresh_stream c) c <| streams := {[i]} ∪ streams c |> <| lastStreamID := i |> in
      if tooLarge then (reject i 431 (str "Request Header Fields Too Large") c, None)
      else open_request i fs endStream c.

Definition handleHeaderBlock (i : Z) (block : bytes) (endStream : bool) (c : Conn) : Conn * option h2_error :=
  match Decode collect_field (dec c) ([], 0, false) block with
  | None => (c, None)
  | Some (d, (fs, _, tooLarge), ending) =>
      let c := c <| dec := d |> in
      match ending with
      | Failed e => (c, Some (H2ConnError H2CompressionError (hpack_text e)))
      | Refused e => match e with end
      | Done => handle_fields i fs endStream tooLarge c
      end
  end.

Definition handleHeaders (f : h2Frame) (c : Conn) : Conn * option h2_error :=
  let i := streamID f in
  if (i =? 0) || (i mod 2 =? 0) then (c, Some (H2ConnError H2ProtocolError (str "HEADERS on stream " ++ num i)))
  else
    let go block :=
      if negb (has f h2FlagEndHeaders) then
        if MaxHeaderBytes cfg <? len block then (c, Some (H2ConnError H2EnhanceYourCalm (str "header block too large")))
        else (c <| contStream := i |> <| contEndStream := has f h2FlagEndStream |> <| contBlock := block |>, None)
      else handleHeaderBlock i block (has f h2FlagEndStream) c in
    if has f h2FlagPriority then
      if len (payload f) <? 5 then (c, Some (H2ConnError H2FrameSizeError (str "HEADERS priority truncated")))
      else if Z.land (be_val (take 4 (payload f))) 0x7fffffff =? i then (c, Some (H2StreamError i H2ProtocolError))
      else go (drop 5 (payload f))
    else go (payload f).

Definition handleContinuation (f : h2Frame) (c : Conn) : Conn * option h2_error :=
  if contStream c =? 0 then (c, Some (H2ConnError H2ProtocolError (str "unexpected CONTINUATION")))
  else
    let c := c <| contBlock := contBlock c ++ payload f |> in
    if MaxHeaderBytes cfg <? len (contBlock c) then (c, Some (H2ConnError H2EnhanceYourCalm (str "header block too large")))
    else if negb (has f h2FlagEndHeaders) then (c, None)
    else handleHeaderBlock (contStream c) (contBlock c) (contEndStream c) (c <| contStream := 0 |>).

Definition handleData (f : h2Frame) (c : Conn) : Conn * option h2_error :=
  let i := streamID f in
  if i =? 0 then (c, Some (H2ConnError H2ProtocolError (str "DATA on stream 0")))
  else if recvWindow c <? flen f then (c, Some (H2ConnError H2FlowControlError (str "DATA exceeds connection window")))
  else
    let c := c <| recvWindow := recvWindow c - flen f |> <| recvUnacked := recvUnacked c + flen f |> in
    if i mod 2 =? 0 then (c, Some (H2ConnError H2ProtocolError (str "DATA on server stream " ++ num i)))
    else if maxClientID c <? i then (c, Some (H2ConnError H2ProtocolError (str "DATA on idle stream " ++ num i)))
    else
      let c :=
        if h2ConnWindow / 2 <=? recvUnacked c
        then sendLocked (h2AppendWindowUpdate [] 0 (u32 (recvUnacked c))) (c <| recvWindow := recvWindow c + recvUnacked c |> <| recvUnacked := 0 |>)
        else c in
      if decide (i ∈ streams c) then
        let s := get i c in
        if remoteDone s then (c, Some (H2StreamError i H2StreamClosed))
        else if s_recvWindow s <? flen f then (c, Some (H2StreamError i H2FlowControlError))
        else
          let s := s <| s_recvWindow := s_recvWindow s - flen f |> <| s_recvUnacked := s_recvUnacked s + flen f |> in
          if MaxBodyBytes cfg <? len (body s) + len (payload f) then (reject i 413 (str "Request Entity Too Large") (put i s c), None)
          else
            let s := s <| body := body s ++ payload f |> in
            if has f h2FlagEndStream then finishRequest i (put i s c)
            else if h2StreamWindow / 2 <=? s_recvUnacked s then
              (sendLocked (h2AppendWindowUpdate [] i (u32 (s_recvUnacked s)))
                 (put i (s <| s_recvWindow := s_recvWindow s + s_recvUnacked s |> <| s_recvUnacked := 0 |>) c), None)
            else (put i s c, None)
      else (c, None).

(** * The other frames *)

(** The window of every open stream moves with the initial one. *)
Fixpoint shift_windows (order : list Z) (delta : Z) (c : Conn) : Conn * option h2_error :=
  match order with
  | [] => (c, None)
  | i :: order =>
      let s := get i c <| s_sendWindow := s_sendWindow (get i c) + delta |> in
      let c := put i s c in
      if h2MaxWindow <? s_sendWindow s then (c, Some (H2ConnError H2FlowControlError (str "stream window overflow")))
      else shift_windows order delta c
  end.

Definition apply_setting (id value : Z) (c : Conn) : Conn * option h2_error :=
  if id =? h2SettingHeaderTableSize then (c <| enc := SetMaxTableSize (Z.min value DefaultTableSize) (enc c) |>, None)
  else if id =? h2SettingEnablePush then
    if 1 <? value then (c, Some (H2ConnError H2ProtocolError (str "ENABLE_PUSH " ++ num value)))
    else (c <| pushEnabled := value =? 1 |>, None)
  else if id =? h2SettingMaxConcurrentStreams then (c <| peerMaxPush := value |>, None)
  else if id =? h2SettingInitialWindowSize then
    if h2MaxWindow <? value then (c, Some (H2ConnError H2FlowControlError (str "INITIAL_WINDOW_SIZE " ++ num value)))
    else shift_windows (range c) (value - peerWindow c) (c <| peerWindow := value |>)
  else if id =? h2SettingMaxFrameSize then
    if (value <? h2DefaultMaxFrameSize) || (h2MaxFrameSizeLimit <? value) then (c, Some (H2ConnError H2ProtocolError (str "MAX_FRAME_SIZE " ++ num value)))
    else (c <| peerMaxFrame := value |>, None)
  else (c, None).

Definition applySettingsLocked (payload : bytes) (c : Conn) : Conn * option h2_error := h2ParseSettings apply_setting payload c.

Definition flush_all (out : bytes) (c : Conn) : Conn :=
  let '(out, c) := flushLocked out c in closeFinishedLocked (sendLocked out c).

Definition handleSettings (f : h2Frame) (c : Conn) : Conn * option h2_error :=
  if negb (streamID f =? 0) then (c, Some (H2ConnError H2ProtocolError (str "SETTINGS on stream " ++ num (streamID f))))
  else if has f h2FlagAck then
    if negb (len (payload f) =? 0) then (c, Some (H2ConnError H2FrameSizeError (str "SETTINGS ack with payload"))) else (c, None)
  else
    match applySettingsLocked (payload f) c with
    | (c, Some e) => (c, Some e)
    | (c, None) => (flush_all (h2AppendFrameHeader [] h2FrameSettings h2FlagAck 0 0) c, None)
    end.

Definition idleLocked (id : Z) (c : Conn) : bool := if id mod 2 =? 0 then nextPushID c <=? id else maxClientID c <? id.

Definition handleWindowUpdate (f : h2Frame) (c : Conn) : Conn * option h2_error :=
  let i := streamID f in
  if negb (len (payload f) =? 4) then (c, Some (H2ConnError H2FrameSizeError (str "WINDOW_UPDATE length " ++ num (len (payload f)))))
  else
    let increment := Z.land (be_val (payload f)) 0x7fffffff in
    if i =? 0 then
      if increment =? 0 then (c, Some (H2ConnError H2ProtocolError (str "WINDOW_UPDATE of 0")))
      else
        let c := c <| sendWindow := sendWindow c + increment |> in
        if h2MaxWindow <? sendWindow c then (c, Some (H2ConnError H2FlowControlError (str "connection window overflow")))
        else (flush_all [] c, None)
    else if idleLocked i c then (c, Some (H2ConnError H2ProtocolError (str "WINDOW_UPDATE on idle stream " ++ num i)))
    else if decide (i ∈ streams c) then
      if increment =? 0 then (c, Some (H2StreamError i H2ProtocolError))
      else
        let s := get i c <| s_sendWindow := s_sendWindow (get i c) + increment |> in
        let c := put i s c in
        if h2MaxWindow <? s_sendWindow s then (c, Some (H2StreamError i H2FlowControlError))
        else (flush_all [] c, None)
    else (c, None).

Definition handleRSTStream (f : h2Frame) (c : Conn) : Conn * option h2_error :=
  let i := streamID f in
  if i =? 0 then (c, Some (H2ConnError H2ProtocolError (str "RST_STREAM on stream 0")))
  else if negb (len (payload f) =? 4) then (c, Some (H2ConnError H2FrameSizeError (str "RST_STREAM length " ++ num (len (payload f)))))
  else if idleLocked i c then (c, Some (H2ConnError H2ProtocolError (str "RST_STREAM on idle stream " ++ num i)))
  else
    let c := if decide (i ∈ streams c) then forgetLocked i c else c in
    (closeFinishedLocked c, None).

Definition handlePing (f : h2Frame) (c : Conn) : Conn * option h2_error :=
  if negb (streamID f =? 0) then (c, Some (H2ConnError H2ProtocolError (str "PING on stream " ++ num (streamID f))))
  else if negb (len (payload f) =? 8) then (c, Some (H2ConnError H2FrameSizeError (str "PING length " ++ num (len (payload f)))))
  else if has f h2FlagAck then (c, None)
  else (sendLocked (h2AppendFrameHeader [] h2FramePing h2FlagAck 0 8 ++ payload f) c, None).

Definition handleGoAway (f : h2Frame) (c : Conn) : Conn * option h2_error :=
  if negb (streamID f =? 0) then (c, Some (H2ConnError H2ProtocolError (str "GOAWAY on stream " ++ num (streamID f))))
  else if len (payload f) <? 8 then (c, Some (H2ConnError H2FrameSizeError (str "GOAWAY length " ++ num (len (payload f)))))
  else (closeFinishedLocked (c <| peerGoingAway := true |>), None).

Definition dispatch (f : h2Frame) (c : Conn) : Conn * option h2_error :=
  let t := typ f in
  if t =? h2FrameData then handleData f c
  else if t =? h2FrameHeaders then handleHeaders f c
  else if t =? h2FrameContinuation then handleContinuation f c
  else if t =? h2FramePriority then
    if streamID f =? 0 then (c, Some (H2ConnError H2ProtocolError (str "PRIORITY on stream 0")))
    else if negb (len (payload f) =? 5) then (c, Some (H2StreamError (streamID f) H2FrameSizeError))
    else (c, None)
  else if t =? h2FrameRSTStream then handleRSTStream f c
  else if t =? h2FrameSettings then handleSettings f c
  else if t =? h2FramePushPromise then (c, Some (H2ConnError H2ProtocolError (str "client sent PUSH_PROMISE")))
  else if t =? h2FramePing then handlePing f c
  else if t =? h2FrameGoAway then handleGoAway f c
  else if t =? h2FrameWindowUpdate then handleWindowUpdate f c
  else (c, None).

Definition handleFrame (f : h2Frame) (c : Conn) : Conn * option h2_error :=
  if negb (contStream c =? 0) && (negb (typ f =? h2FrameContinuation) || negb (streamID f =? contStream c))
  then (c, Some (H2ConnError H2ProtocolError (str "expected CONTINUATION for stream " ++ num (contStream c))))
  else if negb (gotSettings c) then
    if negb (typ f =? h2FrameSettings) || has f h2FlagAck
    then (c, Some (H2ConnError H2ProtocolError (str "connection preface must be followed by SETTINGS")))
    else dispatch f (c <| gotSettings := true |>)
  else dispatch f c.

Definition resetStream (i code : Z) (c : Conn) : Conn :=
  let c := if decide (i ∈ streams c) then forgetLocked i c else c in
  closeFinishedLocked (sendLocked (h2AppendRSTStream [] i code) c).

Definition handleError (e : h2_error) (c : Conn) : Conn :=
  match e with
  | H2StreamError i code => resetStream i code c
  | H2ConnError code reason => fail code reason c
  end.

(** * Reading *)

(** The loop over the frames of [rest].  Each round that goes on takes at least a
    frame's header, so the length is fuel enough. *)
Fixpoint feed_loop (fuel : nat) (rest : bytes) (c : Conn) : bytes * Conn :=
  match fuel with
  | O => (rest, c)
  | S fuel =>
      match h2ReadFrame rest h2DefaultMaxFrameSize with
      | Err e => let c := handleError e c in if closed c then ([], c) else feed_loop fuel rest c
      | Ok (f, n) =>
          if n =? 0 then (rest, c)
          else
            let rest := drop (Z.to_nat n) rest in
            match handleFrame f c with
            | (c, None) => feed_loop fuel rest c
            | (c, Some e) => let c := handleError e c in if closed c then ([], c) else feed_loop fuel rest c
            end
      end
  end.

Definition feed (data : bytes) (ic : h2Input * Conn) : h2Input * Conn :=
  let '(i, c) := ic in
  let input := inb i ++ data in
  let go rest := let '(rest, c) := feed_loop (S (length rest)) rest c in (Input rest true, c) in
  if negb (gotPreface i) then
    if len input <? len h2Preface then (Input input false, c)
    else if negb (bool_decide (take (length h2Preface) input = h2Preface)) then (Input input false, fail H2ProtocolError (str "bad connection preface") c)
    else go (drop (length h2Preface) input)
  else go input.

(** * The switch from HTTP/1.1 *)

(** [base64.RawURLEncoding]: line ends are skipped, and there is no padding. *)
Definition base64_digit (c : Z) : option Z :=
  if (65 <=? c) && (c <=? 90) then Some (c - 65)
  else if (97 <=? c) && (c <=? 122) then Some (c - 71)
  else if (48 <=? c) && (c <=? 57) then Some (c + 4)
  else if c =? 45 then Some 62
  else if c =? 95 then Some 63
  else None.

Fixpoint base64_groups (l : list Z) : option bytes :=
  match l with
  | [] => Some []
  | [_] => None
  | [a; b] => Some [u8 (Z.lor (Z.shiftl a 2) (Z.shiftr b 4))]
  | [a; b; c] => Some [u8 (Z.lor (Z.shiftl a 2) (Z.shiftr b 4)); u8 (Z.lor (Z.shiftl b 4) (Z.shiftr c 2))]
  | a :: b :: c :: d :: l =>
      let? rest := base64_groups l in
      Some ([u8 (Z.lor (Z.shiftl a 2) (Z.shiftr b 4)); u8 (Z.lor (Z.shiftl b 4) (Z.shiftr c 2)); u8 (Z.lor (Z.shiftl c 6) d)] ++ rest)
  end.

Definition base64_decode (s : bytes) : option bytes :=
  let? digits := mapM base64_digit (List.filter (fun c => negb ((c =? 10) || (c =? 13))) s) in base64_groups digits.

(** [strings.TrimRight] of one byte. *)
Fixpoint skip_byte (c : Z) (s : bytes) : bytes := match s with b :: s' => if b =? c then skip_byte c s' else s | [] => [] end.
Definition TrimRight (c : Z) (s : bytes) : bytes := reverse (skip_byte c (reverse s)).

(** [layered]: the connection has a layer, such as TLS. *)
Definition h2cUpgrade (disabled layered atLeast11 : bool) (h : Header) : option bytes :=
  if disabled || layered || negb atLeast11 then None
  else
    match default [] (h !! str "Http2-Settings") with
    | [value] =>
        if negb (headerHasToken h (str "Upgrade") (str "h2c")) || negb (headerHasToken h (str "Connection") (str "upgrade"))
           || negb (headerHasToken h (str "Connection") (str "http2-settings")) then None
        else
          let? settings := base64_decode (TrimRight 61 value) in
          if negb (len settings mod 6 =? 0) then None else Some settings
    | _ => None
    end.

Definition h2cSwitchingProtocols : bytes :=
  str "HTTP/1.1 101 Switching Protocols" ++ crlf ++ str "Connection: Upgrade" ++ crlf ++ str "Upgrade: h2c" ++ crlf2.

(** [Header.Del] *)
Definition Del (key : bytes) (h : Header) : Header := delete (CanonicalMIMEHeaderKey key) h.

(** The fields of the connection are taken off the request. *)
Definition drop_connection (h : Header) : Header :=
  Del (str "Http2-Settings") (Del (str "Upgrade") (Del (str "Connection")
    (fold_left (fun h name => Del name h) (list_items (default [] (h !! str "Connection"))) h))).

(** [None]: the settings are refused, and HTTP/1.1 goes on. *)
Definition upgradeH2C (r : Request U) (settings rest : bytes) : option (h2Input * Conn) :=
  match applySettingsLocked settings newH2ServerConn with
  | (_, Some _) => None
  | (c, None) =>
      let c := start (c <| wire := wire c ++ h2cSwitchingProtocols |>) in
      let r := r <| ReqHeader := drop_connection (ReqHeader r) |> in
      let s := fresh_stream c <| req := Some r |> <| remoteDone := true |> in
      let c := put 1 s (c <| maxClientID := 1 |>) <| streams := {[1]} ∪ streams c |> <| lastStreamID := 1 |> in
      let c := serve 1 r c in
      Some (if 0 <? len rest then feed rest (Input [] false, c) else (Input [] false, c))
  end.
End server.
