(* ===== verification/Http2Inv.v ===== *)
(** The invariant of an HTTP/2 server connection, and that its parts keep it.

    [fs] are the frames that were sent and [ofs] those collected to be sent;
    [H] are the frames handled so far.  [x] are the streams that are being ended,
    for which what holds of an open stream does not hold right now.  [tr] names
    streams with a response and its body. *)
From Stdlib Require Import String.
From S2P Require Import Prelude.
From S2P Require Import HpackTables.
From S2P Require Import Huffman.
From S2P Require Import Hpack.
From S2P Require Import GoText.
From S2P Require Import HttpWriter.
From S2P Require Import Http2Frame.
From S2P Require Import Http2Server.

(** * What frames say *)

Definition is_data (i : Z) (f : h2Frame) : bool := (typ f =? h2FrameData) && (streamID f =? i).

(** The bytes of a stream's DATA frames. *)
Definition data_of (i : Z) (fs : list h2Frame) : bytes := mjoin (payload <$> List.filter (is_data i) fs).

(** Whether a frame ended the stream. *)
Definition ends (i : Z) (f : h2Frame) : bool :=
  ((typ f =? h2FrameData) || (typ f =? h2FrameHeaders)) && (streamID f =? i) && has f h2FlagEndStream.
Definition ended (i : Z) (fs : list h2Frame) : bool := existsb (ends i) fs.

(** The bytes of all DATA frames. *)
Definition data_total (fs : list h2Frame) : Z := total (fun f => if typ f =? h2FrameData then len (payload f) else 0) fs.

(** What the WINDOW_UPDATE frames of a stream, or of the connection, allow. *)
Definition increment (f : h2Frame) : Z := Z.land (be_val (payload f)) 0x7fffffff.
Definition grants (i : Z) (H : list h2Frame) : Z :=
  total (fun f => if (typ f =? h2FrameWindowUpdate) && (streamID f =? i) && (len (payload f) =? 4) then increment f else 0) H.

(** Frames that carry no data and end no stream. *)
Definition quiet (f : h2Frame) : Prop := typ f <> h2FrameData /\ (typ f = h2FrameHeaders -> has f h2FlagEndStream = false).

Lemma data_of_app i fs gs : data_of i (fs ++ gs) = data_of i fs ++ data_of i gs.
Proof. unfold data_of. by rewrite List.filter_app, fmap_app, join_app. Qed.

Lemma ended_app i fs gs : ended i (fs ++ gs) = ended i fs || ended i gs.
Proof. apply existsb_app. Qed.

Lemma data_total_app fs gs : data_total (fs ++ gs) = data_total fs + data_total gs.
Proof. apply total_app. Qed.

Lemma grants_app i H K : grants i (H ++ K) = grants i H + grants i K.
Proof. apply total_app. Qed.

Lemma quiet_data i fs : Forall quiet fs -> data_of i fs = [].
Proof.
  induction 1 as [|f fs [Hf _] _ IH]; [done|]. unfold data_of in *. cbn. unfold is_data at 1. by destruct (Z.eqb_spec (typ f) h2FrameData).
Qed.

Lemma quiet_total fs : Forall quiet fs -> data_total fs = 0.
Proof. induction 1 as [|f fs [Hf _] _ IH]; [done|]. unfold data_total in *. cbn. destruct (Z.eqb_spec (typ f) h2FrameData); [done|lia]. Qed.

Lemma quiet_ended i fs : Forall quiet fs -> ended i fs = false.
Proof.
  induction 1 as [|f fs [Hd Hh] _ IH]; [done|]. unfold ended in *. cbn. rewrite IH, orb_false_r. unfold ends.
  destruct (Z.eqb_spec (typ f) h2FrameData); [done|]. destruct (Z.eqb_spec (typ f) h2FrameHeaders); [|done]. rewrite Hh by done. apply andb_false_r.
Qed.

(** A frame of another stream. *)
Lemma other_data i fs : Forall (fun f => streamID f <> i) fs -> data_of i fs = [] /\ ended i fs = false.
Proof.
  induction 1 as [|f fs Hf _ [IH1 IH2]]; [done|]. unfold data_of, ended in *. cbn. unfold is_data at 1, ends at 1. rewrite IH2.
  destruct (Z.eqb_spec (streamID f) i); [done|]. by rewrite !andb_false_r.
Qed.

(** * The invariant *)

Section inv.
Context {U : Type} (cfg : h2Config).
Abbreviation Conn := (h2ServerConn U).
Abbreviation Stream := (h2ServerStream U).
Implicit Types (c : Conn) (s : Stream).

Definition limit : Z := h2MaxFrameSizeLimit.

Record stream_inv (H L : list h2Frame) (x : gset Z) (pw : Z) (live : gset Z) (i : Z) s : Prop := {
  v_id : 1 <= i < 2 ^ 31;
  v_done : localDone s = true -> pending s = [];
  v_new : responded s = false -> data_of i L = [] /\ pending s = [] /\ trailer s = None /\ localDone s = false;
  v_end : ended i L = localDone s;
  v_recv : pushed s = false -> s_recvWindow s + s_recvUnacked s = h2StreamWindow /\ 0 <= s_recvUnacked s <= h2StreamWindow;
  v_win : i ∈ live -> s_sendWindow s + len (data_of i L) = pw + grants i H;
  v_live : i ∈ live -> i ∉ x -> localDone s = false /\ reset s = false;
  v_gone : i ∉ live -> reset s = true \/ localDone s = true;
}.

Definition evens (X : gset Z) : gset Z := filter (fun i => i mod 2 = 0) X.
Definition odds (X : gset Z) : gset Z := filter (fun i => i mod 2 = 1) X.

(** The side that opens streams of this kind has not got to it. *)
Definition idle (i : Z) c : Prop := idleLocked i c = true.

Definition tracked (L : list h2Frame) (i : Z) (B : bytes) s : Prop :=
  responded s = true /\ data_of i L `prefix_of` B /\ (localDone s = true \/ reset s = false -> data_of i L ++ pending s = B).

(** What was sent of a body; once the stream was ended, it is all of it. *)
Definition whole (fs : list h2Frame) (i : Z) (B : bytes) : Prop := data_of i fs `prefix_of` B /\ (ended i fs = true -> data_of i fs = B).

Record core (tr : Z -> option bytes) (H fs ofs : list h2Frame) (x : gset Z) c : Prop := {
  k_open : closed c = false;
  k_wire : wire c = encs fs;
  k_ok : Forall (frame_ok limit) (fs ++ ofs);
  k_window : sendWindow c + data_total (fs ++ ofs) = h2DefaultWindow + grants 0 H /\ 0 <= sendWindow c;
  k_streams : forall i s, store c !! i = Some s -> stream_inv H (fs ++ ofs) x (peerWindow c) (streams c) i s;
  k_live : forall i, i ∈ streams c -> is_Some (store c !! i);
  k_ids : forall i s, store c !! i = Some s -> ~ idle i c /\ (pushed s = true <-> i mod 2 = 0);
  k_new : forall i, store c !! i = None -> data_of i (fs ++ ofs) = [] /\ ended i (fs ++ ofs) = false;
  k_idle : forall i, idle i c -> i <> 0 -> grants i H = 0;
  k_push : 2 <= nextPushID c <= 2 ^ 31 /\ nextPushID c mod 2 = 0 /\ 0 <= peerMaxPush c < 2 ^ 32;
  k_pushed : pushedStreams c = Z.of_nat (base.size (evens (streams c))) /\ pushedStreams c < 2 ^ 32;
  k_clients : Z.of_nat (base.size (odds (streams c))) <= maxStreams cfg;
  k_frame : h2DefaultMaxFrameSize <= peerMaxFrame c <= limit;
  k_recv : recvWindow c + recvUnacked c = h2ConnWindow /\ 0 <= recvUnacked c < h2ConnWindow / 2;
  k_max : 0 <= maxClientID c < 2 ^ 31 /\ 0 <= lastStreamID c < 2 ^ 31 /\ 0 <= contStream c < 2 ^ 31 /\ (contStream c <> 0 -> contStream c mod 2 = 1);
  k_track : forall i B, tr i = Some B -> exists s, store c !! i = Some s /\ tracked (fs ++ ofs) i B s;
  k_whole : forall i B, tr i = Some B -> whole fs i B;
}.

(** Bytes that wait, wait for the client. *)
Definition awake (x : gset Z) c : Prop :=
  forall i s, store c !! i = Some s -> i ∈ streams c -> i ∉ x -> pending s <> [] -> sendWindow c <= 0 \/ s_sendWindow s <= 0.

(** A connection that goes away has something to finish. *)
Definition going c : Prop := goAway c = true \/ peerGoingAway c = true -> streams c <> ∅.

(** The end: what was sent stays. *)
Record ended_conn (tr : Z -> option bytes) (fs : list h2Frame) c : Prop := {
  z_closed : closed c = true;
  z_streams : streams c = ∅;
  z_wire : wire c = encs fs;
  z_ok : Forall (frame_ok limit) fs;
  z_track : forall i B, tr i = Some B -> whole fs i B;
}.

(** ** Parts that do not matter *)

Definition cview c :=
  (closed c, wire c, sendWindow c, store c, streams c, (nextPushID c, maxClientID c, peerWindow c, peerMaxPush c, pushedStreams c),
   (peerMaxFrame c, recvWindow c, recvUnacked c, lastStreamID c, contStream c)).

Lemma core_ext tr H fs ofs x c c' : cview c = cview c' -> core tr H fs ofs x c -> core tr H fs ofs x c'.
Proof.
  unfold cview. intros E [K1 K2 K3 K4 K5 K6 K7 K8 K9 K10 K11 K12 K13 K14 K15 K16].
  injection E as E1 E2 E3 E4 E5 E6 E7 E8 E9 E10 E11 E12 E13 E14 E15. unfold idle, idleLocked in *.
  constructor; unfold idle, idleLocked; rewrite <- ?E1, <- ?E2, <- ?E3, <- ?E4, <- ?E5, <- ?E6, <- ?E7, <- ?E8, <- ?E9, <- ?E10, <- ?E11, <- ?E12, <- ?E13, <- ?E14, <- ?E15; done.
Qed.

(** ** Sending *)

Lemma encode_pos f : 0 < len (encode f).
Proof. rewrite encode_len. pose proof (len_nonneg (payload f)). lia. Qed.

Lemma sendLocked_encs fs c : closed c = false -> sendLocked (encs fs) c = c <| wire := wire c ++ encs fs |>.
Proof.
  intros Hc. unfold sendLocked. rewrite Hc, andb_true_r. destruct fs as [|f fs].
  - cbn. rewrite app_nil_r. by destruct c.
  - rewrite encs_cons, len_app. pose proof (encode_pos f). pose proof (len_nonneg (encs fs)). by destruct (Z.ltb_spec 0 (len (encode f) + len (encs fs))); [|lia].
Qed.

Lemma sendLocked_closed out c : closed c = true -> sendLocked out c = c.
Proof. intros Hc. unfold sendLocked. by rewrite Hc, andb_false_r. Qed.

Lemma stored_put i s c : store (put i s c) = <[i := s]> (store c).
Proof. done. Qed.

Lemma stream_at i s c : store c !! i = Some s -> get i c = s.
Proof. intros E. unfold get. by rewrite E. Qed.

Lemma stream_put i s c : get i (put i s c) = s.
Proof. unfold get, put. cbn. by rewrite lookup_insert_eq. Qed.

Lemma puts_put i s s' c : put i s (put i s' c) = put i s c.
Proof. unfold put. cbn. by rewrite insert_insert_eq. Qed.

(** *** The log *)

(** The same data, and the same streams ended. *)
Definition same_log (L L' : list h2Frame) : Prop :=
  (forall i, data_of i L = data_of i L') /\ (forall i, ended i L = ended i L') /\ data_total L = data_total L'.

Lemma same_quiet fs gs ofs : Forall quiet gs -> same_log (fs ++ ofs) ((fs ++ gs) ++ ofs).
Proof.
  intros Hq. repeat split; [intros i|intros i|].
  - rewrite !data_of_app, (quiet_data i gs) by done. by rewrite app_nil_r.
  - rewrite !ended_app, (quiet_ended i gs) by done. by rewrite orb_false_r.
  - rewrite !data_total_app, (quiet_total gs) by done. lia.
Qed.

Lemma stream_inv_log H L L' x pw live i s : same_log L L' -> stream_inv H L x pw live i s -> stream_inv H L' x pw live i s.
Proof. intros (E1 & E2 & _) [V1 V2 V3 V4 V5 V6 V7 V8]. constructor; rewrite <- ?E1, <- ?E2; done. Qed.

Lemma tracked_log L L' i B s : same_log L L' -> tracked L i B s -> tracked L' i B s.
Proof. intros (E1 & _) H. unfold tracked in *. by rewrite <- E1. Qed.

(** Frames that carry no data may be sent at any point. *)
Lemma core_log tr H fs ofs fs' ofs' x c : same_log (fs ++ ofs) (fs' ++ ofs') -> Forall (frame_ok limit) (fs' ++ ofs') -> (forall i B, tr i = Some B -> whole fs' i B) ->
  core tr H fs ofs x c -> core tr H fs' ofs' x (c <| wire := encs fs' |>).
Proof.
  intros Hl Hok Hwh [K1 K2 K3 K4 K5 K6 K7 K8 K9 K10 K11 K12 K13 K14 K15 K16]. constructor; cbn; try done.
  - destruct Hl as (_ & _ & <-). done.
  - intros i s Hi. by eapply stream_inv_log; [|apply K5].
  - intros i Hi. destruct Hl as (<- & <- & _). by apply K8.
  - intros i B HB. destruct (K16 i B HB) as (s & Hs & Ht). exists s. split; [done|]. by eapply tracked_log.
Qed.

(** With what is collected, the body of a stream that is ended is all there. *)
Lemma core_whole tr H fs ofs x c i B : core tr H fs ofs x c -> tr i = Some B -> whole (fs ++ ofs) i B.
Proof.
  intros Hc HB. destruct (k_track _ _ _ _ _ _ Hc i B HB) as (s & Hs & _ & Hp & Ht). split; [done|]. destruct (k_streams _ _ _ _ _ _ Hc i s Hs) as [V1 V2 V3 V4 V5 V6 V7 V8].
  rewrite V4. intros Hd. rewrite <- Ht by auto. by rewrite V2, app_nil_r.
Qed.

Lemma whole_quiet fs gs i B : Forall quiet gs -> whole fs i B -> whole (fs ++ gs) i B.
Proof. intros Hq [H1 H2]. unfold whole. by rewrite data_of_app, ended_app, (quiet_data i gs), (quiet_ended i gs), app_nil_r, orb_false_r. Qed.

Lemma core_sent tr H fs ofs x c : core tr H fs ofs x c -> core tr H (fs ++ ofs) [] x (sendLocked (encs ofs) c).
Proof.
  intros Hc. rewrite sendLocked_encs by apply Hc. rewrite (k_wire _ _ _ _ _ _ Hc), <- encs_app.
  eapply core_log; [|rewrite app_nil_r; apply Hc|intros i B; by eapply core_whole|exact Hc]. rewrite app_nil_r. by repeat split.
Qed.

Lemma core_send tr H fs ofs x c gs : core tr H fs ofs x c -> Forall quiet gs -> Forall (frame_ok limit) gs -> core tr H (fs ++ gs) ofs x (sendLocked (encs gs) c).
Proof.
  intros Hc Hq Hg. rewrite sendLocked_encs by apply Hc. rewrite (k_wire _ _ _ _ _ _ Hc), <- encs_app.
  eapply core_log; [by apply same_quiet| |intros i B HB; by apply whole_quiet, (k_whole _ _ _ _ _ _ Hc)|exact Hc]. pose proof (k_ok _ _ _ _ _ _ Hc) as Hok. rewrite !Forall_app in *. naive_solver.
Qed.

(** *** One stream *)

(** Frames of stream [i] are collected, and the stream changes to [s']. *)
Lemma core_emit tr H fs ofs gs x x' i s s' n c c' :
  core tr H fs ofs x c -> store c !! i = Some s -> pushed s' = pushed s ->
  cview c' = cview (put i s' c <| sendWindow := sendWindow c - n |>) ->
  Forall (frame_ok limit) gs -> (forall j, j <> i -> data_of j gs = [] /\ ended j gs = false) -> data_total gs = n -> n <= sendWindow c ->
  x ⊆ x' -> stream_inv H (fs ++ ofs ++ gs) x' (peerWindow c) (streams c) i s' ->
  (forall B, tr i = Some B -> tracked (fs ++ ofs) i B s -> tracked (fs ++ ofs ++ gs) i B s') ->
  core tr H fs (ofs ++ gs) x' c'.
Proof.
  intros [K1 K2 K3 K4 K5 K6 K7 K8 K9 K10 K11 K12 K13 K14 K15 K16] Hs Hp Hv Hg Ho Hn Hw Hx Hi Ht. eapply core_ext; [symmetry; exact Hv|].
  assert (Hd : forall j, j <> i -> data_of j (fs ++ ofs ++ gs) = data_of j (fs ++ ofs) /\ ended j (fs ++ ofs ++ gs) = ended j (fs ++ ofs)).
  { intros j Hj. destruct (Ho j Hj) as [E1 E2]. rewrite !data_of_app, !ended_app, E1, E2. by rewrite app_nil_r, orb_false_r. }
  constructor; cbn; try done.
  - rewrite app_assoc. by apply Forall_app.
  - rewrite app_assoc, data_total_app, Hn. lia.
  - intros j t. destruct (decide (j = i)) as [->|Hj]; [rewrite lookup_insert_eq; by intros [= <-]|]. rewrite lookup_insert_ne by done. intros Hj'.
    destruct (K5 j t Hj') as [V1 V2 V3 V4 V5 V6 V7 V8]. destruct (Hd j Hj) as [E1 E2]. constructor; rewrite ?E1, ?E2; try done.
    intros Hl Hjx. apply V7; [done|set_solver].
  - intros j Hj. apply K6 in Hj. rewrite lookup_insert_is_Some. destruct (decide (i = j)); naive_solver.
  - intros j t. destruct (decide (j = i)) as [->|Hj]; [rewrite lookup_insert_eq; intros [= <-]; rewrite Hp; by apply K7|]. rewrite lookup_insert_ne by done. apply K7.
  - intros j. destruct (decide (j = i)) as [->|Hj]; [by rewrite lookup_insert_eq|]. rewrite lookup_insert_ne by done. intros Hn'.
    destruct (Hd j Hj) as [-> ->]. by apply K8.
  - intros j B HB. destruct (K16 j B HB) as (t & Hjt & Htr). destruct (decide (j = i)) as [->|Hj].
    + exists s'. rewrite lookup_insert_eq. split; [done|]. apply Ht; [done|]. congruence.
    + exists t. rewrite lookup_insert_ne by done. split; [done|]. unfold tracked in *. destruct (Hd j Hj) as [-> _]. done.
Qed.

(** A stream changes, and nothing is collected. *)
Lemma core_put tr H fs ofs x i s s' c :
  core tr H fs ofs x c -> store c !! i = Some s -> pushed s' = pushed s -> stream_inv H (fs ++ ofs) x (peerWindow c) (streams c) i s' ->
  (forall B, tr i = Some B -> tracked (fs ++ ofs) i B s -> tracked (fs ++ ofs) i B s') -> core tr H fs ofs x (put i s' c).
Proof.
  intros Hc Hs Hp Hi Ht. rewrite <- (app_nil_r ofs). eapply (core_emit tr H fs ofs [] x x i s s' 0); try done.
  - unfold cview. cbn. by rewrite Z.sub_0_r.
  - apply Hc.
  - by rewrite app_nil_r.
  - by rewrite app_nil_r.
Qed.

(** *** Counting streams *)

Lemma size_evens_remove (X : gset Z) (i : Z) : i ∈ X -> base.size (evens X) = ((if decide (i mod 2 = 0)%Z then 1 else 0) + base.size (evens (X ∖ {[i]})))%nat.
Proof.
  intros Hi. destruct (decide (i mod 2 = 0)) as [He|He].
  - replace (evens X) with ({[i]} ∪ evens (X ∖ {[i]})); [rewrite size_union, size_singleton; [done|unfold evens; set_solver]|].
    apply set_eq. intros j. unfold evens. rewrite elem_of_union, elem_of_singleton, !elem_of_filter, elem_of_difference, elem_of_singleton.
    destruct (decide (j = i)) as [->|]; naive_solver.
  - cbn. f_equal. apply set_eq. intros j. unfold evens. rewrite !elem_of_filter, elem_of_difference, elem_of_singleton. naive_solver.
Qed.

Lemma size_odds_le (X Y : gset Z) : X ⊆ Y -> (base.size (odds X) <= base.size (odds Y))%nat.
Proof. intros. apply subseteq_size. unfold odds. set_solver. Qed.

Lemma diff_eq (X : gset Z) i j : j ∉ X ∖ {[i]} -> j ∈ X -> j = i.
Proof. intros. destruct (decide (j = i)); set_solver. Qed.

Lemma diff_not (X : gset Z) i : i ∉ X ∖ {[i]}.
Proof. set_solver. Qed.

Lemma diff_sub (X : gset Z) i : X ∖ {[i]} ⊆ X.
Proof. set_solver. Qed.

Lemma diff_in (X x : gset Z) i j : j ∈ X ∖ {[i]} -> j ∈ x ∪ {[i]} -> j ∈ x ∖ {[i]}.
Proof. set_solver. Qed.

Lemma stream_gone H L x pw (live live' : gset Z) x' j s :
  live' ⊆ live -> (j ∉ live' -> j ∈ live -> reset s = true \/ localDone s = true) -> (j ∈ live' -> j ∈ x -> j ∈ x') ->
  stream_inv H L x pw live j s -> stream_inv H L x' pw live' j s.
Proof.
  intros Hl Hg Hx [V1 V2 V3 V4 V5 V6 V7 V8]. constructor; try done.
  - intros Hj. apply V6. set_solver.
  - intros Hj Hnx. apply V7; set_solver.
  - intros Hj. destruct (decide (j ∈ live)); [by apply Hg|by apply V8].
Qed.

Lemma core_forget tr H fs ofs x i s c :
  core tr H fs ofs x c -> store c !! i = Some s -> i ∈ streams c -> core tr H fs ofs (x ∖ {[i]}) (forgetLocked i c).
Proof.
  intros Hc Hs Hl. pose proof (k_streams _ _ _ _ _ _ Hc _ _ Hs) as [V1 V2 V3 V4 V5 V6 V7 V8].
  set (s' := s <| reset := reset s || negb (localDone s) |> <| pending := [] |>).
  assert (Hc' : core tr H fs ofs (x ∪ {[i]}) (put i s' c)).
  { replace ofs with (ofs ++ []) by by rewrite app_nil_r. eapply (core_emit tr H fs ofs [] x (x ∪ {[i]}) i s s' 0); try done.
    - unfold cview. cbn. by rewrite Z.sub_0_r.
    - apply Hc.
    - set_solver.
    - rewrite app_nil_r. constructor; cbn; try done; [|intros _ Hx; exfalso; apply Hx, elem_of_union; right; by apply elem_of_singleton]. intros Hr. by destruct (V3 Hr) as (? & ? & ? & ?).
    - rewrite app_nil_r. intros B HB (T1 & T2 & T3). split_and!; [done|done|]. cbn. intros [Hd|Hd].
      + rewrite <- (V2 Hd). auto.
      + destruct (localDone s) eqn:Ed; [rewrite <- (V2 eq_refl); auto|]. by destruct (reset s). }
  unfold forgetLocked. rewrite (stream_at _ _ _ Hs). fold s'.
  destruct Hc' as [K1 K2 K3 K4 K5 K6 K7 K8 K9 K10 K11 K12 K13 K14 K15 K16]. cbn in *.
  destruct (decide (i ∈ streams c)) as [_|]; [|done].
  assert (Hst : forall j t, <[i := s']> (store c) !! j = Some t -> stream_inv H (fs ++ ofs) (x ∖ {[i]}) (peerWindow c) (streams c ∖ {[i]}) j t).
  { intros j t Hj. apply (stream_gone H (fs ++ ofs) (x ∪ {[i]}) (peerWindow c) (streams c)); [apply diff_sub| |apply diff_in|by apply K5].
    intros Hnl Hin. assert (j = i) as -> by by eapply diff_eq. rewrite lookup_insert_eq in Hj. injection Hj as <-. cbn. destruct (localDone s); [by right|left; apply orb_true_r]. }
  pose proof (size_evens_remove (streams c) i Hl) as Hsz. pose proof (size_odds_le (streams c ∖ {[i]}) (streams c)) as Hodd.
  destruct (k_ids _ _ _ _ _ _ Hc _ _ Hs) as [_ Hpar]. destruct (pushed s) eqn:Hp.
  - destruct (decide (i mod 2 = 0)) as [_|Hn]; [|exfalso; apply Hn; naive_solver].
    constructor; cbn; try done; [intros j Hj; by apply K6, (diff_sub _ i)| |].
    + destruct K11 as [K11 K11']. unfold u32. rewrite Z.mod_small by lia. lia.
    + assert ((base.size (odds (streams c ∖ {[i]})) <= base.size (odds (streams c)))%nat) by apply Hodd, diff_sub. lia.
  - destruct (decide (i mod 2 = 0)) as [Hn|_]; [naive_solver|].
    constructor; cbn; try done; [intros j Hj; by apply K6, (diff_sub _ i)| |].
    + lia.
    + assert ((base.size (odds (streams c ∖ {[i]})) <= base.size (odds (streams c)))%nat) by apply Hodd, diff_sub. lia.
Qed.

(** *** Header blocks *)

Lemma no_data fs : Forall (fun f => typ f <> h2FrameData) fs -> (forall j, data_of j fs = []) /\ data_total fs = 0.
Proof.
  induction 1 as [|f fs Hf _ [IH1 IH2]]; [done|]. split; [intros j; specialize (IH1 j)|]; unfold data_of, data_total in *; cbn.
  - unfold is_data at 1. by destruct (Z.eqb_spec (typ f) h2FrameData).
  - destruct (Z.eqb_spec (typ f) h2FrameData); [done|lia].
Qed.

(** Continuations are quiet. *)
Lemma continuations_quiet fs : Forall (fun g => typ g = h2FrameContinuation /\ (flags g = 0 \/ flags g = h2FlagEndHeaders)) fs -> Forall quiet fs.
Proof. intros Hf. eapply Forall_impl; [exact Hf|]. intros f [Ht _]. unfold quiet. by rewrite Ht. Qed.

Lemma split_frames t fl i block max fs : split_ok t fl i block max fs -> byte_ok t -> (fl = 0 \/ fl = h2FlagEndStream) -> 0 <= i < 2 ^ 31 -> max <= limit ->
  Forall (frame_ok limit) fs.
Proof.
  intros [S1 S2 (f & rest & -> & Ht & Hf & Hr) S4] Hb Hfl Hi Hm. rewrite Forall_cons in *. destruct S4 as [(E1 & E2 & E3) S4]. split.
  - destruct f as [t' fl' i' p' l']. cbn in *. subst. apply frame_ok_mk; [done| |done|lia|];
      (destruct Hf as [-> | ->]; destruct Hfl as [-> | ->]; [done|done|done|done]).
  - apply Forall_forall. intros g Hg. rewrite Forall_forall in Hr, S4. destruct (Hr g Hg) as [T1 T2]. destruct (S4 g Hg) as (T3 & T4 & T5).
    destruct g as [t' fl' i' p' l']. cbn in *. subst. apply frame_ok_mk; [done|by destruct T2 as [-> | ->]|done|lia|by destruct T2 as [-> | ->]].
Qed.

Record header_facts (i : Z) (es : bool) (gs : list h2Frame) : Prop := {
  hf_ok : Forall (frame_ok limit) gs;
  hf_data : forall j, data_of j gs = [];
  hf_total : data_total gs = 0;
  hf_ended : ended i gs = es;
  hf_other : forall j, j <> i -> ended j gs = false;
  hf_quiet : es = false -> Forall quiet gs;
}.

Lemma header_facts_of i block es max : 1 <= i < 2 ^ 31 -> h2DefaultMaxFrameSize <= max <= limit -> header_facts i es (header_frames i block es max).
Proof.
  intros Hi [Hm1 Hm2]. unfold h2DefaultMaxFrameSize in Hm1. pose proof (header_frames_split i block es max ltac:(lia)) as Hs.
  pose proof (split_frames _ _ _ _ _ _ Hs ltac:(done) ltac:(destruct es; auto) ltac:(lia) Hm2) as Hok.
  destruct Hs as [S1 S2 (f & rest & E & Ht & Hf & Hr) S4]. pose proof (continuations_quiet _ Hr) as Hq.
  assert (Hnd : Forall (fun f => typ f <> h2FrameData) (header_frames i block es max)).
  { rewrite E. constructor; [by rewrite Ht|]. eapply Forall_impl; [exact Hq|]. by intros g [? _]. }
  destruct (no_data _ Hnd) as [D1 D2]. constructor; [done|done|done|..].
  - rewrite E. unfold ended. cbn [existsb]. fold (ended i rest). rewrite quiet_ended, orb_false_r by done. unfold ends. rewrite Ht.
    rewrite E, Forall_cons in S4. destruct S4 as [(-> & _ & _) _]. rewrite !Z.eqb_refl. unfold has. destruct Hf as [-> | ->]; by destruct es.
  - intros j Hj. apply other_data. eapply Forall_impl; [exact S4|]. cbn. intros g (-> & _). done.
  - intros ->. rewrite E. constructor; [|done]. split; [by rewrite Ht|]. intros _. unfold has. destruct Hf as [-> | ->]; done.
Qed.

(** *** What happens to a stream while its body is sent *)

(** The rest of the connection. *)
Record others (i : Z) c c' : Prop := {
  o_window : sendWindow c' <= sendWindow c;
  o_store : forall j, j <> i -> store c' !! j = store c !! j;
  o_streams : streams c' = streams c;
  o_life : goAway c' = goAway c /\ peerGoingAway c' = peerGoingAway c /\ lastStreamID c' = lastStreamID c /\ served c' = served c;
}.

Lemma others_refl i c : others i c c.
Proof. by constructor. Qed.

Lemma others_trans i c1 c2 c3 : others i c1 c2 -> others i c2 c3 -> others i c1 c3.
Proof.
  intros [A1 A2 A3 (A4 & A5 & A6 & A7)] [B1 B2 B3 (B4 & B5 & B6 & B7)]. constructor; [lia| |congruence|split_and!; congruence]. intros j Hj. by rewrite B2, A2.
Qed.

(** What a stream that was flushed waits for. *)
Definition stalled (i : Z) c : Prop := pending (get i c) = [] \/ sendWindow c <= 0 \/ s_sendWindow (get i c) <= 0.

Context (unicode_lower : bytes -> bytes).

(** The header and the frames of a response's end. *)
Lemma endStream_frames out i s c : store c !! i = Some s -> 1 <= i < 2 ^ 31 -> h2DefaultMaxFrameSize <= peerMaxFrame c <= limit ->
  exists gs e, endStreamLocked unicode_lower out i c = (out ++ encs gs, put i (s <| localDone := true |> <| trailer := None |>) c <| enc := e |>) /\
    (if trailer s then header_facts i true gs else gs = []).
Proof.
  intros Hs Hi Hm. unfold endStreamLocked. rewrite (stream_at _ _ _ Hs). cbn [trailer]. destruct s as [rq pu bo de rw ru rd re tl ld rs sw pe]. cbn.
  destruct tl as [header|].
  - destruct (Begin [] (enc c)) as [e b]. destruct (appendHeaderLocked unicode_lower header e b) as [e' b']. rewrite append_headers.
    exists (header_frames i b' true (peerMaxFrame c)), e'. split; [done|]. by apply header_facts_of.
  - exists [], (enc c). split; [|done]. rewrite app_nil_r. by destruct c.
Qed.

(** Part of a body is collected; with the last part the stream is ended. *)
Lemma emit_data tr H fs ofs x i s s' gs chunk c c' :
  core tr H fs ofs x c -> store c !! i = Some s -> i ∈ streams c -> i ∉ x -> responded s = true -> localDone s = false ->
  Forall (frame_ok limit) gs -> (forall j, j <> i -> data_of j gs = [] /\ ended j gs = false) -> data_of i gs = chunk -> data_total gs = len chunk ->
  len chunk <= sendWindow c -> pending s = chunk ++ pending s' -> s_sendWindow s' = s_sendWindow s - len chunk ->
  localDone s' = ended i gs -> (ended i gs = true -> pending s' = []) ->
  (pushed s', reset s', responded s', s_recvWindow s', s_recvUnacked s') = (pushed s, reset s, responded s, s_recvWindow s, s_recvUnacked s) ->
  cview c' = cview (put i s' c <| sendWindow := sendWindow c - len chunk |>) ->
  core tr H fs (ofs ++ gs) (if localDone s' then x ∪ {[i]} else x) c'.
Proof.
  intros Hc Hs Hl Hx Hr Hd Hok Ho Hch Htot Hw Hp Hsw Hld Hend Hsame Hv. injection Hsame as E1 E2 E3 E4 E5.
  destruct (k_streams _ _ _ _ _ _ Hc _ _ Hs) as [V1 V2 V3 V4 V5 V6 V7 V8]. destruct (V7 Hl Hx) as [_ Hrs].
  eapply (core_emit tr H fs ofs gs x _ i s s' (len chunk)); try done.
  - destruct (localDone s'); [apply union_subseteq_l|done].
  - rewrite app_assoc. constructor; rewrite ?(data_of_app i (fs ++ ofs)), ?(ended_app i (fs ++ ofs)), ?Hch; try done.
    + rewrite Hld. done.
    + by rewrite E3, Hr.
    + rewrite V4, Hd. done.
    + rewrite E1, E4, E5. done.
    + intros _. rewrite Hsw, len_app. specialize (V6 Hl). lia.
    + intros _. destruct (localDone s') eqn:El; [intros Hni; exfalso; apply Hni, elem_of_union; right; by apply elem_of_singleton|]. by rewrite E2.
  - intros B HB (T1 & T2 & T3). rewrite app_assoc. unfold tracked. rewrite (data_of_app i (fs ++ ofs)), Hch, E3. specialize (T3 (or_intror Hrs)). subst B.
    rewrite Hp, app_assoc. split_and!; [done|apply prefix_app_r; done|done].
Qed.

Lemma chunk_split (p : bytes) n : 0 <= n <= len p -> p = take (Z.to_nat n) p ++ drop (Z.to_nat n) p /\ len (take (Z.to_nat n) p) = n.
Proof. intros H. split; [by rewrite take_drop|]. rewrite len_take. lia. Qed.

Lemma data_frame_facts fl i p : (forall j, j <> i -> data_of j [frame h2FrameData fl i p] = [] /\ ended j [frame h2FrameData fl i p] = false) /\
  data_of i [frame h2FrameData fl i p] = p /\ data_total [frame h2FrameData fl i p] = len p.
Proof.
  split_and!; [intros j Hj; by apply other_data, Forall_singleton; cbn; congruence| |].
  - unfold data_of. cbn. unfold is_data. cbn. rewrite Z.eqb_refl. cbn. by rewrite app_nil_r.
  - cbn. lia.
Qed.

Lemma flush_loop_core fuel tr H fs ofs x i s c :
  core tr H fs ofs x c -> store c !! i = Some s -> i ∈ streams c -> i ∉ x -> responded s = true -> localDone s = false -> (length (pending s) <= fuel)%nat ->
  exists gs c' s', flush_loop unicode_lower fuel (encs ofs) i c = (encs (ofs ++ gs), c') /\ store c' !! i = Some s' /\ others i c c' /\
    core tr H fs (ofs ++ gs) (if localDone s' then x ∪ {[i]} else x) c' /\
    (localDone s' = false -> pending s' = [] \/ sendWindow c' <= 0 \/ s_sendWindow s' <= 0) /\ reset s' = reset s.
Proof.
  revert ofs s c. induction fuel as [|fuel IH]; intros ofs s c Hc Hs Hl Hx Hr Hd Hf.
  { exists [], c, s. rewrite app_nil_r, Hd. split_and!; try done. intros _. left. destruct (pending s); [done|cbn in Hf; lia]. }
  cbn [flush_loop]. rewrite (stream_at _ _ _ Hs). destruct (pending s) as [|b0 p0] eqn:Ep.
  { exists [], c, s. rewrite app_nil_r, Hd. split_and!; try done. intros _. by left. }
  rewrite <- Ep in *. set (n := Z.min _ (peerMaxFrame c)). pose proof (k_frame _ _ _ _ _ _ Hc) as Hm. unfold h2DefaultMaxFrameSize in Hm.
  assert (Hlen : 1 <= len (pending s)) by (rewrite Ep, len_cons; pose proof (len_nonneg p0); lia).
  destruct (Z.leb_spec n 0) as [Hn|Hn].
  { exists [], c, s. rewrite app_nil_r, Hd. split_and!; try done. intros _. right. lia. }
  destruct (chunk_split (pending s) n ltac:(lia)) as [Hsp Hcl]. set (chunk := take (Z.to_nat n) (pending s)) in *. set (rest := drop (Z.to_nat n) (pending s)) in *.
  pose proof (k_streams _ _ _ _ _ _ Hc _ _ Hs) as [V1 _ _ _ _ _ _ _]. rewrite header_app. rewrite <- app_assoc.
  set (s1 := s <| pending := rest |> <| s_sendWindow := s_sendWindow s - n |>). set (c1 := put i s1 c <| sendWindow := sendWindow c - n |>).
  assert (Hs1 : store c1 !! i = Some s1) by apply lookup_insert_eq.
  assert (Ho1 : others i c c1) by (constructor; [cbn; lia|intros j Hj; by apply lookup_insert_ne|done|done]).
  assert (Hfok : forall fl, fl = 0 \/ fl = h2FlagEndStream -> frame_ok limit (frame h2FrameData fl i chunk)).
  { intros fl Hfl. apply frame_ok_mk; [done|by destruct Hfl as [-> | ->]|lia|lia|by destruct Hfl as [-> | ->]]. }
  destruct (Z.eqb_spec (len rest) 0) as [Hrest|Hrest].
  - assert (Hnil : rest = []) by (destruct rest; [done|rewrite len_cons in Hrest; pose proof (len_nonneg rest); lia]).
    set (fl := if true && _ then _ else _). change (h2AppendFrameHeader [] h2FrameData fl i (len chunk) ++ chunk) with (encode (frame h2FrameData fl i chunk)).
    rewrite <- encs_one, <- encs_app. set (df := frame h2FrameData fl i chunk).
    destruct (endStream_frames (encs (ofs ++ [df])) i s1 c1 Hs1 ltac:(lia) ltac:(done)) as (hs & e & -> & Hh). cbv iota beta. rewrite <- encs_app, <- app_assoc.
    set (s2 := s1 <| localDone := true |> <| trailer := None |>). set (c2 := put i s2 c1 <| enc := e |>).
    assert (Hs2 : store c2 !! i = Some s2) by apply lookup_insert_eq.
    destruct (data_frame_facts fl i chunk) as (D1 & D2 & D3). fold df in D1, D2, D3.
    assert (Hgs : Forall (frame_ok limit) ([df] ++ hs) /\ (forall j, j <> i -> data_of j ([df] ++ hs) = [] /\ ended j ([df] ++ hs) = false) /\
        data_of i ([df] ++ hs) = chunk /\ data_total ([df] ++ hs) = len chunk /\ ended i ([df] ++ hs) = true).
    { change (trailer s1) with (trailer s) in Hh. unfold fl in df. destruct (trailer s) as [tl|].
      - destruct Hh as [F1 F2 F3 F4 F5 F6]. rewrite data_of_app, data_total_app, ended_app, F2, F3, F4, D2, D3, app_nil_r, orb_true_r.
        split_and!; [constructor; [apply Hfok; by left|done]| |done|lia|done]. intros j Hj. destruct (D1 j Hj) as [E1 E2]. by rewrite data_of_app, ended_app, E1, E2, F2, F5.
      - subst hs. rewrite app_nil_r. split_and!; [constructor; [apply Hfok; by right|done]|done|done|done|]. unfold ended. cbn. unfold ends. cbn. by rewrite Z.eqb_refl. }
    destruct Hgs as (G1 & G2 & G3 & G4 & G5).
    assert (Hc2 : core tr H fs (ofs ++ [df] ++ hs) (if localDone s2 then x ∪ {[i]} else x) c2).
    { eapply (emit_data tr H fs ofs x i s s2 ([df] ++ hs) chunk c c2); try done; [lia|cbn; congruence|].
      unfold cview. cbn. by rewrite insert_insert_eq, Hcl. }
    exists ([df] ++ hs), c2, s2. split_and!; [|done| |done|done|done].
    + destruct fuel; [done|]. cbn [flush_loop]. rewrite (stream_at _ _ _ Hs2). change (pending s2) with rest. by rewrite Hnil.
    + eapply others_trans; [exact Ho1|]. constructor; [cbn; lia|intros j Hj; by apply lookup_insert_ne|done|done].
  - change (h2AppendFrameHeader [] h2FrameData (if false && _ then _ else 0) i (len chunk) ++ chunk) with (encode (frame h2FrameData 0 i chunk)).
    rewrite <- encs_one, <- encs_app. set (df := frame h2FrameData 0 i chunk). destruct (data_frame_facts 0 i chunk) as (D1 & D2 & D3). fold df in D1, D2, D3.
    assert (Hne : ended i [df] = false) by (unfold ended; cbn; unfold ends; cbn; by rewrite andb_false_r).
    assert (Hc1 : core tr H fs (ofs ++ [df]) (if localDone s1 then x ∪ {[i]} else x) c1).
    { eapply (emit_data tr H fs ofs x i s s1 [df] chunk c c1); try done; [constructor; [apply Hfok; by left|constructor]|lia|cbn; congruence|by rewrite Hne|by rewrite Hne|].
      unfold cview. cbn. by rewrite Hcl. }
    change (localDone s1) with (localDone s) in Hc1. rewrite Hd in Hc1.
    destruct (IH (ofs ++ [df]) s1 c1 Hc1 Hs1 Hl Hx Hr Hd) as (gs & c' & s' & E & Hs' & Ho' & Hc' & Hst & Hrs).
    { change (pending s1) with rest. unfold rest. rewrite length_drop. lia. }
    exists ([df] ++ gs), c', s'. rewrite E, <- app_assoc in *. split_and!; [done|done|by eapply others_trans|done|done|done].
Qed.

(** *** The end of streams and of the connection *)

Lemma core_ended tr H fs ofs x c c' : core tr H fs ofs x c -> closed c' = true -> streams c' = ∅ -> wire c' = wire c -> ended_conn tr fs c'.
Proof.
  intros Hc H1 H2 H3. constructor; [done|done|by rewrite H3; apply Hc|pose proof (k_ok _ _ _ _ _ _ Hc) as Hok; by apply Forall_app in Hok as [? _]|].
  apply Hc.
Qed.

Lemma close_finished tr H fs ofs x c : core tr H fs ofs x c -> (closeFinishedLocked c = c /\ going c) \/ ended_conn tr fs (closeFinishedLocked c).
Proof.
  intros Hc. unfold closeFinishedLocked. rewrite (k_open _ _ _ _ _ _ Hc). cbn [orb]. unfold going.
  destruct (goAway c) eqn:Eg, (peerGoingAway c) eqn:Ep; cbn [negb andb orb]; try case_bool_decide; cbn [negb].
  all: try (left; split; [done|]; naive_solver).
  all: right; by eapply core_ended.
Qed.

Lemma close_stays c : going c -> closeFinishedLocked c = c.
Proof.
  unfold going, closeFinishedLocked. intros Hg. destruct (closed c); [done|]. cbn [orb].
  destruct (goAway c), (peerGoingAway c); cbn [negb andb orb]; try done; case_bool_decide as E; try done; exfalso; by apply Hg; auto.
Qed.

Lemma close_closed c : closed c = true -> closeFinishedLocked c = c.
Proof. intros H. unfold closeFinishedLocked. by rewrite H. Qed.

Lemma union_diff (x : gset Z) i : i ∉ x -> (x ∪ {[i]}) ∖ {[i]} = x.
Proof. intros. apply set_eq. set_solver. Qed.

(** Everything but stream [i], which may be gone. *)
Record others' (i : Z) c c' : Prop := {
  p_window : sendWindow c' <= sendWindow c;
  p_store : forall j, j <> i -> store c' !! j = store c !! j;
  p_streams : streams c' = streams c \/ streams c' = streams c ∖ {[i]};
}.

Lemma rst_ok i code : 1 <= i < 2 ^ 31 -> Forall (frame_ok limit) [frame h2FrameRSTStream 0 i (be_bytes 4 code)] /\ Forall quiet [frame h2FrameRSTStream 0 i (be_bytes 4 code)].
Proof.
  intros Hi. rewrite !Forall_singleton. split; [|done]. apply frame_ok_mk; [done|done|lia|by rewrite be_bytes_len|done].
Qed.

Lemma finish_core tr H fs ofs x i s c :
  core tr H fs ofs (x ∪ {[i]}) c -> i ∉ x -> store c !! i = Some s -> i ∈ streams c -> localDone s = true -> reset s = false ->
  (exists fs', core tr H fs' ofs x (finishStreamLocked i c) /\ going (finishStreamLocked i c) /\ others' i c (finishStreamLocked i c) /\
     i ∉ streams (finishStreamLocked i c)) \/
  (exists fs', ended_conn tr fs' (finishStreamLocked i c) /\ streams c ⊆ {[i]}).
Proof.
  intros Hc Hx Hs Hl Hd Hr. pose proof (k_streams _ _ _ _ _ _ Hc _ _ Hs) as [V1 V2 V3 V4 V5 V6 V7 V8]. unfold finishStreamLocked. rewrite (stream_at _ _ _ Hs), Hd, Hr. cbn [negb orb].
  set (c1 := if negb (remoteDone s) then _ else c).
  assert (H1 : exists fs1 s1, core tr H fs1 ofs (x ∪ {[i]}) c1 /\ store c1 !! i = Some s1 /\ streams c1 = streams c /\ others' i c c1).
  { unfold c1. destruct (remoteDone s); cbn [negb]; [exists fs, s; split_and!; try done; constructor; [lia|done|by left]|].
    rewrite append_reset. cbn [app]. rewrite <- encs_one. destruct (rst_ok i H2NoError V1) as [R1 R2]. set (s1 := s <| reset := true |>).
    assert (Hp : core tr H fs ofs (x ∪ {[i]}) (put i s1 c)).
    { eapply core_put; [exact Hc|exact Hs|done| |].
      - constructor; cbn; try done; [intros _ Hn; exfalso; apply Hn, elem_of_union; right; by apply elem_of_singleton].
      - intros B HB (T1 & T2 & T3). split_and!; [done|done|]. cbn. intros _. apply T3. by left. }
    eexists _, s1. split; [by eapply core_send|]. rewrite sendLocked_encs by apply Hp. split_and!; [by apply lookup_insert_eq|done|].
    constructor; [done|intros j Hj; by apply lookup_insert_ne|by left]. }
  destruct H1 as (fs1 & s1 & Hc1 & Hs1 & Hl1 & Ho1). clearbody c1.
  assert (Hc2 : core tr H fs1 ofs x (forgetLocked i c1)).
  { rewrite <- (union_diff x i Hx). eapply core_forget; [exact Hc1|exact Hs1|by rewrite Hl1]. }
  assert (Ho2 : streams (forgetLocked i c1) = streams c ∖ {[i]} /\ sendWindow (forgetLocked i c1) = sendWindow c1 /\ forall j, j <> i -> store (forgetLocked i c1) !! j = store c1 !! j).
  { unfold forgetLocked. cbn. destruct (decide (i ∈ streams c1)) as [_|Hn]; [|rewrite Hl1 in Hn; done].
    destruct (pushed (get i c1)); cbn; rewrite Hl1; split_and!; try done; intros j Hj; by apply lookup_insert_ne. }
  destruct Ho2 as (O1 & O2 & O3). destruct (close_finished _ _ _ _ _ _ Hc2) as [[E Hg]|He].
  - left. exists fs1. rewrite E. split_and!; [done|done| |rewrite O1; apply diff_not]. destruct Ho1. constructor; [lia| |by right]. intros j Hj. rewrite O3 by done. auto.
  - right. exists fs1. split; [done|]. pose proof (z_streams _ _ _ He) as Hz. unfold closeFinishedLocked in Hz.
    destruct (_ || _); cbn in Hz; rewrite O1 in Hz; intros j Hj; apply elem_of_singleton; eapply diff_eq; [|exact Hj| |exact Hj]; rewrite Hz; apply not_elem_of_empty.
Qed.

(** Streams that were flushed already stay so. *)
Lemma stall_kept (order : list Z) i c c' :
  (forall j s, store c !! j = Some s -> j ∈ streams c -> j ∉ i :: order -> pending s <> [] -> sendWindow c <= 0 \/ s_sendWindow s <= 0) ->
  others' i c c' -> (forall s, store c' !! i = Some s -> i ∈ streams c' -> pending s <> [] -> sendWindow c' <= 0 \/ s_sendWindow s <= 0) ->
  forall j s, store c' !! j = Some s -> j ∈ streams c' -> j ∉ order -> pending s <> [] -> sendWindow c' <= 0 \/ s_sendWindow s <= 0.
Proof.
  intros Hd [O1 O2 O3] Hi j s Hs Hl Ho Hp. destruct (decide (j = i)) as [->|Hj]; [by apply Hi|]. rewrite O2 in Hs by done.
  destruct (Hd j s Hs) as [Hw|Hw]; [destruct O3 as [O3|O3]; rewrite O3 in Hl; [done|by apply (diff_sub _ i)]| |done|lia|by right].
  rewrite elem_of_cons. intros [?|?]; done.
Qed.

Lemma flush_finish tr H fs ofs i s c :
  core tr H fs ofs ∅ c -> going c -> store c !! i = Some s -> i ∈ streams c -> pending s <> [] ->
  exists o c1, flushStreamLocked unicode_lower (encs ofs) i c = (o, c1) /\
    ((exists fs' gs, o = encs (ofs ++ gs) /\ core tr H fs' (ofs ++ gs) ∅ (finishStreamLocked i c1) /\ going (finishStreamLocked i c1) /\
        others' i c (finishStreamLocked i c1) /\
        (forall t, store (finishStreamLocked i c1) !! i = Some t -> i ∈ streams (finishStreamLocked i c1) -> pending t <> [] ->
           sendWindow (finishStreamLocked i c1) <= 0 \/ s_sendWindow t <= 0)) \/
     (exists fs', ended_conn tr fs' (finishStreamLocked i c1) /\ streams c ⊆ {[i]})).
Proof.
  intros Hc Hg Hs Hl Hp. pose proof (k_streams _ _ _ _ _ _ Hc _ _ Hs) as [V1 V2 V3 V4 V5 V6 V7 V8]. destruct (V7 Hl) as [Hd Hr]; [apply not_elem_of_empty|].
  assert (Hre : responded s = true) by (destruct (responded s); [done|]; destruct (V3 eq_refl) as (_ & ? & _); done).
  unfold flushStreamLocked. rewrite (stream_at _ _ _ Hs).
  destruct (flush_loop_core (length (pending s)) tr H fs ofs ∅ i s c Hc Hs Hl (not_elem_of_empty i) Hre Hd ltac:(lia)) as (gs & c1 & s1 & E & Hs1 & [O1 O2 O3 O4] & Hc1 & Hst & Hrs).
  exists (encs (ofs ++ gs)), c1. split; [done|]. destruct (localDone s1) eqn:Ed.
  - pose proof (k_streams _ _ _ _ _ _ Hc1 _ _ Hs1) as [W1 W2 W3 W4 W5 W6 W7 W8].
    assert (Hr1 : reset s1 = false) by congruence.
    destruct (finish_core tr H fs (ofs ++ gs) ∅ i s1 c1 Hc1 (not_elem_of_empty i) Hs1 ltac:(by rewrite O3) Ed Hr1) as [(fs' & F1 & F2 & F3 & F4)|(fs' & F1 & F2)].
    + left. exists fs', gs. destruct F3 as [P1 P2 P3]. split_and!; [done|done|done| |].
      * constructor; [lia|intros j Hj; rewrite P2, O2; done|by rewrite <- O3].
      * done.
    + right. exists fs'. by rewrite <- O3.
  - left. exists fs, gs. unfold finishStreamLocked. rewrite (stream_at _ _ _ Hs1), Ed. cbn. split_and!; [done|done| |constructor; [done|done|by left]|].
    + unfold going in *. destruct O4 as (-> & -> & _). by rewrite O3.
    + intros t Ht _ Hpt. assert (t = s1) as -> by congruence. destruct (Hst eq_refl) as [?|?]; [done|done].
Qed.

Lemma flush_streams_core order tr H fs ofs c :
  core tr H fs ofs ∅ c -> going c -> NoDup order -> (forall j, j ∈ order -> j ∈ streams c) ->
  (forall j s, store c !! j = Some s -> j ∈ streams c -> j ∉ order -> pending s <> [] -> sendWindow c <= 0 \/ s_sendWindow s <= 0) ->
  exists o c', flush_streams unicode_lower order (encs ofs) c = (o, c') /\
    ((exists fs' gs, o = encs (ofs ++ gs) /\ core tr H fs' (ofs ++ gs) ∅ c' /\ awake ∅ c' /\ going c') \/ (exists fs', ended_conn tr fs' c')).
Proof.
  revert fs ofs c. induction order as [|i order IH]; intros fs ofs c Hc Hg Hnd Hin Hst; cbn [flush_streams].
  { exists (encs ofs), c. split; [done|]. left. exists fs, []. rewrite app_nil_r. split_and!; try done.
    intros j s Hs Hl _ Hp. apply (Hst j s Hs Hl); [apply not_elem_of_nil|done]. }
  destruct (Z.leb_spec (sendWindow c) 0) as [Hw|Hw].
  { exists (encs ofs), c. split; [done|]. left. exists fs, []. rewrite app_nil_r. split_and!; try done. by left. }
  apply NoDup_cons in Hnd as [Hni Hnd]. assert (Hl : i ∈ streams c) by (apply Hin; left).
  destruct (k_live _ _ _ _ _ _ Hc i Hl) as [s Hs]. rewrite (stream_at _ _ _ Hs).
  destruct (Z.eqb_spec (len (pending s)) 0) as [Hz|Hz].
  { assert (Hp : pending s = []) by (destruct (pending s); [done|rewrite len_cons in Hz; pose proof (len_nonneg l); lia]).
    apply (IH fs ofs c); try done; [intros j Hj; apply Hin; by right|]. intros j t Ht Hlj Hnj Hpt.
    destruct (decide (j = i)) as [->|Hji]; [congruence|]. apply (Hst j t Ht Hlj); [|done]. rewrite elem_of_cons. intros [?|?]; done. }
  assert (Hp : pending s <> []) by (intros Hp; by rewrite Hp in Hz).
  destruct (flush_finish tr H fs ofs i s c Hc Hg Hs Hl Hp) as (o & c1 & -> & [(fs' & gs & -> & Hc2 & Hg2 & Ho2 & Hst2)|(fs' & He & Hsub)]).
  - destruct (IH fs' (ofs ++ gs) (finishStreamLocked i c1) Hc2 Hg2 Hnd) as (o' & c' & E & Hres).
    + intros j Hj. assert (Hlj : j ∈ streams c) by (apply Hin; by right). destruct (p_streams _ _ _ Ho2) as [-> | ->]; [done|].
      apply elem_of_difference. split; [done|]. rewrite elem_of_singleton. intros ->. done.
    + eapply stall_kept; [exact Hst|exact Ho2|exact Hst2].
    + exists o', c'. split; [done|]. destruct Hres as [(fs2 & gs2 & -> & R)|R]; [left|by right]. exists fs2, (gs ++ gs2). by rewrite app_assoc.
  - destruct order as [|j order]; [|exfalso; apply Hni; assert (Hj : j ∈ streams c) by (apply Hin; right; left); apply Hsub, elem_of_singleton in Hj as ->; left].
    cbn [flush_streams]. exists o, (finishStreamLocked i c1). split; [done|]. right. by exists fs'.
Qed.

(** * Good states *)

Definition fine tr H c : Prop := (exists fs, core tr H fs [] ∅ c) /\ awake ∅ c /\ going c.
Definition good tr H c : Prop := fine tr H c \/ exists fs, ended_conn tr fs c.

Context (range : Conn -> list Z) (range_ok : forall c, range c ≡ₚ elements (streams c)).

Lemma range_facts c : NoDup (range c) /\ forall j, j ∈ range c <-> j ∈ streams c.
Proof. split; [rewrite range_ok; apply NoDup_elements|]. intros j. rewrite range_ok. apply elem_of_elements. Qed.

(** Once everything may be flushed, it is. *)
Lemma flush_all_good tr H fs ofs c : core tr H fs ofs ∅ c -> going c -> good tr H (flush_all unicode_lower range (encs ofs) c).
Proof.
  intros Hc Hg. destruct (range_facts c) as [Hnd Hin]. unfold flush_all, flushLocked.
  destruct (flush_streams_core (range c) tr H fs ofs c Hc Hg Hnd) as (o & c' & -> & [(fs' & gs & -> & Hc' & Ha & Hg')|(fs' & He)]).
  - intros j. by apply Hin.
  - intros j s Hs Hl Hn. by apply Hin in Hl.
  - pose proof (core_sent _ _ _ _ _ _ Hc') as Hc2. left.
    assert (Hg2 : going (sendLocked (encs (ofs ++ gs)) c')) by (rewrite sendLocked_encs by apply Hc'; done).
    rewrite close_stays by done. split; [by eexists|]. split; [|done]. rewrite sendLocked_encs by apply Hc'. done.
  - right. exists fs'. rewrite sendLocked_closed by apply He. by rewrite close_closed by apply He.
Qed.

(** ** A response *)

Lemma core_retrack tr tr' H fs ofs x c :
  core tr H fs ofs x c -> (forall i B, tr' i = Some B -> whole fs i B /\ exists s, store c !! i = Some s /\ tracked (fs ++ ofs) i B s) -> core tr' H fs ofs x c.
Proof. intros [] Ht. constructor; try done; intros i B HB; by apply Ht. Qed.

Lemma core_collect tr H fs ofs gs x c : core tr H fs ofs x c -> Forall quiet gs -> Forall (frame_ok limit) gs -> core tr H fs (ofs ++ gs) x c.
Proof.
  intros Hc Hq Hg. replace c with (c <| wire := encs fs |>) by (rewrite <- (k_wire _ _ _ _ _ _ Hc); by destruct c).
  eapply core_log; [| |apply Hc|exact Hc].
  - pose proof (same_quiet (fs ++ ofs) gs [] Hq) as E. rewrite !app_nil_r, <- app_assoc in E. exact E.
  - rewrite app_assoc. apply Forall_app. split; [apply Hc|done].
Qed.

Lemma respond_open tr tr' H fs i s s' es gs c c' :
  core tr H fs [] ∅ c -> store c !! i = Some s -> i ∈ streams c -> responded s = false -> header_facts i es gs ->
  responded s' = true -> localDone s' = es -> (es = true -> pending s' = []) ->
  (pushed s', reset s', s_recvWindow s', s_recvUnacked s', s_sendWindow s') = (pushed s, reset s, s_recvWindow s, s_recvUnacked s, s_sendWindow s) ->
  cview c' = cview (put i s' c) -> (forall j, j <> i -> tr' j = tr j) -> (forall B, tr' i = Some B -> B = pending s') ->
  core tr' H fs gs (if es then ∅ ∪ {[i]} else ∅) c'.
Proof.
  intros Hc Hs Hl Hr [F1 F2 F3 F4 F5 F6] Hr' Hd' Hp' Hsame Hv Htr Htri. injection Hsame as E1 E2 E3 E4 E5.
  destruct (k_streams _ _ _ _ _ _ Hc _ _ Hs) as [V1 V2 V3 V4 V5 V6 V7 V8]. rewrite app_nil_r in *. destruct (V3 Hr) as (N1 & N2 & N3 & N4).
  destruct (V7 Hl (not_elem_of_empty i)) as [_ Hrs].
  assert (Hcore : core tr H fs gs (if es then ∅ ∪ {[i]} else ∅) c').
  { rewrite <- (app_nil_l gs). eapply (core_emit tr H fs [] gs ∅ _ i s s' 0); try done.
    - rewrite Hv. unfold cview. cbn. by rewrite Z.sub_0_r.
    - intros j Hj. split; [apply F2|by apply F5].
    - apply Hc.
    - cbn. constructor; rewrite ?data_of_app, ?ended_app, ?F2, ?F4, ?app_nil_r; try done.
      + rewrite Hd'. done.
      + by rewrite Hr'.
      + by rewrite V4, N4, Hd'.
      + by rewrite E1, E3, E4.
      + by rewrite E5.
      + intros _ Hn. rewrite E2, Hd'. destruct es; [exfalso; apply Hn, elem_of_union; right; by apply elem_of_singleton|done].
    - intros B _ (T1 & _). congruence. }
  eapply core_retrack; [exact Hcore|]. intros j B HB. destruct (decide (j = i)) as [->|Hj].
  - split; [unfold whole; rewrite N1, V4, N4; split; [apply prefix_nil|done]|]. exists s'. assert (Hst : store c' !! i = Some s') by (unfold cview in Hv; injection Hv as _ _ _ -> _; apply lookup_insert_eq). split; [done|].
    apply Htri in HB as ->. rewrite <- Hd' in *. unfold tracked. rewrite data_of_app, F2, N1. cbn. split_and!; [done|apply prefix_nil|done].
  - rewrite Htr in HB by done. split; [by apply (k_whole _ _ _ _ _ _ Hcore)|by apply (k_track _ _ _ _ _ _ Hcore)].
Qed.

(** Everything but stream [i]. *)
Record near (i : Z) c c' : Prop := {
  n_window : sendWindow c' <= sendWindow c;
  n_store : forall j, j <> i -> store c' !! j = store c !! j;
  n_streams : streams c' = streams c;
}.

Lemma others_near i c c' : others i c c' -> near i c c'.
Proof. intros []. by constructor. Qed.

(** The header is out, and the body as far as it may be. *)
Definition answered_as tr' H fs i c (gs : list h2Frame) c1 : Prop :=
  exists s1, store c1 !! i = Some s1 /\ core tr' H fs gs (if localDone s1 then ∅ ∪ {[i]} else ∅) c1 /\ near i c c1 /\ reset s1 = false /\
    (localDone s1 = false -> pending s1 = [] \/ sendWindow c1 <= 0 \/ s_sendWindow s1 <= 0).

Lemma respond_empty tr tr' H fs i s s1 e block c :
  core tr H fs [] ∅ c -> store c !! i = Some s -> i ∈ streams c -> responded s = false -> reset s = false ->
  (pushed s1, reset s1, responded s1, s_recvWindow s1, s_recvUnacked s1, s_sendWindow s1, pending s1, localDone s1) =
    (pushed s, reset s, true, s_recvWindow s, s_recvUnacked s, s_sendWindow s, [], false) ->
  (forall j, j <> i -> tr' j = tr j) -> (forall B, tr' i = Some B -> B = []) ->
  exists gs c1, endStreamLocked unicode_lower (encs (header_frames i block (bool_decide (trailer s1 = None)) (peerMaxFrame c))) i (put i s1 c <| enc := e |>) = (encs gs, c1) /\
    answered_as tr' H fs i c gs c1.
Proof.
  intros Hc Hs Hl Hr Hrs Hsame Htr Htri. injection Hsame as E1 E2 E3 E4 E5 E6 E7 E8.
  pose proof (k_streams _ _ _ _ _ _ Hc _ _ Hs) as [V1 _ _ _ _ _ _ _]. pose proof (k_frame _ _ _ _ _ _ Hc) as Hm.
  set (c0 := put i s1 c <| enc := e |>). assert (Hs0 : store c0 !! i = Some s1) by apply lookup_insert_eq.
  destruct (endStream_frames (encs (header_frames i block (bool_decide (trailer s1 = None)) (peerMaxFrame c))) i s1 c0 Hs0 V1 Hm) as (ts & e' & -> & Hts).
  set (s2 := s1 <| localDone := true |> <| trailer := None |>). set (c2 := put i s2 c0 <| enc := e' |>). rewrite <- encs_app.
  assert (Ho : near i c c2) by (constructor; [done| |done]; intros j Hj; cbn; rewrite !lookup_insert_ne by done; done).
  assert (Hs2 : store c2 !! i = Some s2) by apply lookup_insert_eq.
  eexists _, c2. split; [done|]. exists s2. cbn [localDone s2]. split_and!; [done| |done|cbn; congruence|done].
  case_bool_decide as Et.
  - rewrite Et in Hts. subst ts. rewrite app_nil_r. apply (respond_open tr tr' H fs i s s2 true _ c c2); try done.
    + by apply header_facts_of.
    + cbn. congruence.
    + unfold cview. cbn. by rewrite insert_insert_eq.
    + intros B HB. rewrite (Htri B HB). cbn. congruence.
  - assert (Hts' : header_facts i true ts) by (destruct (trailer s1); done). destruct Hts' as [F1 F2 F3 F4 F5 F6].
    assert (Hc0 : core tr' H fs (header_frames i block false (peerMaxFrame c)) ∅ c0).
    { apply (respond_open tr tr' H fs i s s1 false _ c c0); try done; [by apply header_facts_of|congruence|intros B HB; rewrite (Htri B HB); congruence]. }
    eapply (emit_data tr' H fs _ ∅ i s1 s2 ts [] c0 c2); try done.
    + intros j Hj. split; [apply F2|by apply F5].
    + change (len (@nil Z)) with 0. by apply Hc0.
    + cbn. change (len (@nil Z)) with 0. lia.
    + unfold cview. cbn. change (len (@nil Z)) with 0. by rewrite insert_insert_eq, Z.sub_0_r.
Qed.

Lemma respond_full tr tr' H fs i s s1 e block c :
  core tr H fs [] ∅ c -> store c !! i = Some s -> i ∈ streams c -> responded s = false -> reset s = false ->
  (pushed s1, reset s1, responded s1, s_recvWindow s1, s_recvUnacked s1, s_sendWindow s1, localDone s1) =
    (pushed s, reset s, true, s_recvWindow s, s_recvUnacked s, s_sendWindow s, false) ->
  (forall j, j <> i -> tr' j = tr j) -> (forall B, tr' i = Some B -> B = pending s1) ->
  exists gs c1, flushStreamLocked unicode_lower (encs (header_frames i block false (peerMaxFrame c))) i (put i s1 c <| enc := e |>) = (encs gs, c1) /\
    answered_as tr' H fs i c gs c1.
Proof.
  intros Hc Hs Hl Hr Hrs Hsame Htr Htri. injection Hsame as E1 E2 E3 E4 E5 E6 E7.
  pose proof (k_streams _ _ _ _ _ _ Hc _ _ Hs) as [V1 _ _ _ _ _ _ _]. pose proof (k_frame _ _ _ _ _ _ Hc) as Hm.
  set (c0 := put i s1 c <| enc := e |>). assert (Hs0 : store c0 !! i = Some s1) by apply lookup_insert_eq.
  assert (Hc0 : core tr' H fs (header_frames i block false (peerMaxFrame c)) ∅ c0).
  { apply (respond_open tr tr' H fs i s s1 false _ c c0); try done; [by apply header_facts_of|congruence]. }
  unfold flushStreamLocked. rewrite (stream_at _ _ _ Hs0).
  destruct (flush_loop_core (length (pending s1)) tr' H fs _ ∅ i s1 c0 Hc0 Hs0 Hl (not_elem_of_empty i) E3 E7 ltac:(lia)) as (gs & c1 & s2 & -> & Hs2 & Ho & Hc1 & Hst & Hr2).
  eexists _, c1. split; [done|]. exists s2. split_and!; [done|done| |congruence|done].
  eapply others_near, others_trans; [|exact Ho]. constructor; [done| |done|done]. intros j Hj. cbn. by rewrite lookup_insert_ne.
Qed.

Lemma goaway_ok id code debug : len debug <= 1000 ->
  Forall (frame_ok limit) [frame h2FrameGoAway 0 0 (be_bytes 4 (Z.land id 0x7fffffff) ++ be_bytes 4 code ++ debug)] /\
  Forall quiet [frame h2FrameGoAway 0 0 (be_bytes 4 (Z.land id 0x7fffffff) ++ be_bytes 4 code ++ debug)].
Proof.
  intros Hd. rewrite !Forall_singleton. split; [|done]. apply frame_ok_mk; [done|done|lia| |done].
  rewrite !len_app, !be_bytes_len. unfold limit, h2MaxFrameSizeLimit. rewrite Z.shiftl_mul_pow2 by lia. lia.
Qed.

(** The frames go out, and a stream that is done is gone. *)
Lemma respond_sent tr H fs gs i c c1 :
  awake ∅ c -> i ∈ streams c -> answered_as tr H fs i c gs c1 ->
  good tr H (closeFinishedLocked (finishStreamLocked i (sendLocked (encs gs) c1))).
Proof.
  intros Ha Hl (s1 & Hs1 & Hc1 & Ho & Hr & Hst). pose proof (core_sent _ _ _ _ _ _ Hc1) as Hc2.
  assert (Hs2 : store (sendLocked (encs gs) c1) !! i = Some s1) by (rewrite sendLocked_encs by apply Hc1; done).
  assert (Ho2 : near i c (sendLocked (encs gs) c1)) by (rewrite sendLocked_encs by apply Hc1; destruct Ho; constructor; done).
  assert (Hw2 : sendWindow (sendLocked (encs gs) c1) = sendWindow c1) by (rewrite sendLocked_encs by apply Hc1; done).
  set (c2 := sendLocked (encs gs) c1) in *. clearbody c2. destruct Ho2 as [O1 O2 O3].
  destruct (localDone s1) eqn:Ed.
  - destruct (finish_core tr H (fs ++ gs) [] ∅ i s1 c2 Hc2 (not_elem_of_empty i) Hs2 ltac:(by rewrite O3) Ed Hr) as [(fs' & F1 & F2 & F3 & F4)|(fs' & F1 & _)].
    + left. rewrite close_stays by done. split; [by eexists|]. split; [|done]. destruct F3 as [P1 P2 P3].
      intros j s Hs Hin _ Hp. eapply (stall_kept [] i c _); [|constructor| |exact Hs|exact Hin|apply not_elem_of_nil|exact Hp].
      * intros k t Ht Hk _ Hpt. apply (Ha k t Ht Hk (not_elem_of_empty k) Hpt).
      * lia.
      * intros k Hk. rewrite P2, O2; done.
      * by rewrite <- O3.
      * intros t _ Hi. done.
    + right. exists fs'. by rewrite close_closed by apply F1.
  - assert (E : finishStreamLocked i c2 = c2) by (unfold finishStreamLocked; by rewrite (stream_at _ _ _ Hs2), Ed).
    rewrite E. assert (Hg : going c2) by (intros _ Hz; rewrite O3 in Hz; rewrite Hz in Hl; by apply not_elem_of_empty in Hl). rewrite close_stays by done.
    left. split; [by eexists|]. split; [|done]. intros j s Hs Hin _ Hp.
    eapply (stall_kept [] i c c2); [|constructor| |exact Hs|exact Hin|apply not_elem_of_nil|exact Hp].
    * intros k t Ht Hk _ Hpt. apply (Ha k t Ht Hk (not_elem_of_empty k) Hpt).
    * done.
    * done.
    * by left.
    * intros t Ht _ Hpt. assert (t = s1) as -> by congruence. rewrite Hw2. destruct (Hst eq_refl) as [?|?]; [done|done].
Qed.

Lemma answered_goaway tr H fs i c gs c1 code : answered_as tr H fs i c gs c1 ->
  exists gs', h2AppendGoAway (encs gs) (lastStreamID c1) code [] = encs gs' /\ answered_as tr H fs i c gs' (c1 <| goAway := true |>).
Proof.
  intros (s1 & Hs1 & Hc1 & [N1 N2 N3] & Hr & Hst). destruct (goaway_ok (lastStreamID c1) code [] ltac:(by vm_compute)) as [G1 G2].
  eexists. split; [by rewrite append_goaway, <- encs_one, <- encs_app|]. exists s1. split_and!; [done| |by constructor|done|done].
  eapply core_ext; [|by eapply core_collect]. done.
Qed.

(** What is sent as the body of a response. *)
Definition sent_body (head : bool) (r : Response) : bytes :=
  if negb (negb (StatusCode r =? 204) && negb (StatusCode r =? 304)) || head then [] else rBody r.

(** Whether a stream that has not been answered can be. *)
Lemma live_unanswered tr H fs ofs i s c : core tr H fs ofs ∅ c -> store c !! i = Some s -> reset s = false -> responded s = false -> i ∈ streams c.
Proof.
  intros Hc Hs Hr Hp. destruct (k_streams _ _ _ _ _ _ Hc _ _ Hs) as [V1 V2 V3 V4 V5 V6 V7 V8]. destruct (decide (i ∈ streams c)) as [|Hn]; [done|].
  destruct (V3 Hp) as (_ & _ & _ & Hd). destruct (V8 Hn); congruence.
Qed.

Lemma respond_good tr tr' H i head r c err c' :
  good tr H c -> is_Some (store c !! i) -> (forall j, j <> i -> tr' j = tr j) -> (forall B, tr' i = Some B -> B = sent_body head r) ->
  respond unicode_lower i head r c = (err, c') -> match err with Some _ => c' = c | None => good tr' H c' end.
Proof.
  intros Hgood [s Hs] Htr Htri. unfold respond. destruct (_ || (999 <? _)); [by intros [= <- <-]|]. destruct (negb (h2CheckHeader _ _)); [by intros [= <- <-]|].
  rewrite (stream_at _ _ _ Hs). destruct Hgood as [[[fs Hc] [Ha Hg]]|[fs He]]; [|rewrite (z_closed _ _ _ He); by intros [= <- <-]].
  rewrite (k_open _ _ _ _ _ _ Hc). cbn [orb]. destruct (reset s) eqn:Er; [by intros [= <- <-]|]. destruct (responded s) eqn:Ere; [by intros [= <- <-]|].
  pose proof (live_unanswered _ _ _ _ _ _ _ Hc Hs Er Ere) as Hl.
  destruct (k_streams _ _ _ _ _ _ Hc _ _ Hs) as [V1 V2 V3 V4 V5 V6 V7 V8]. destruct (V3 Ere) as (_ & N2 & N3 & N4).
  destruct (Begin [] (enc c)) as [e0 b0]. destruct (AppendField _ (str ":status") _ _ _) as [e1 b1].
  set (allowed := negb (StatusCode r =? 204) && negb (StatusCode r =? 304)) in *. set (eb := if allowed then _ else (e1, b1)). destruct eb as [e2 b2].
  destruct (appendHeaderLocked _ _ e2 b2) as [e block]. rewrite append_headers. cbn [app]. cbv zeta.
  set (s1 := if allowed && negb head then _ else _). set (body := if negb allowed || head then [] else rBody r) in *.
  assert (Hb : sent_body head r = body) by done. rewrite Hb in Htri. clearbody body.
  assert (Hs1 : (pushed s1, reset s1, responded s1, s_recvWindow s1, s_recvUnacked s1, s_sendWindow s1, pending s1, localDone s1) =
                (pushed s, reset s, true, s_recvWindow s, s_recvUnacked s, s_sendWindow s, [], false)).
  { unfold s1. destruct (allowed && negb head); cbn; by rewrite N2, N4. }
  clearbody s1. injection Hs1 as E1 E2 E3 E4 E5 E6 E7 E8.
  change (peerMaxFrame (put i s1 c <| enc := e |>)) with (peerMaxFrame c).
  set (oc := if len body =? 0 then _ else _).
  assert (Hoc : exists gs c1, oc = (encs gs, c1) /\ answered_as tr' H fs i c gs c1).
  { unfold oc. destruct (Z.eqb_spec (len body) 0) as [Hz|Hz].
    - apply (respond_empty tr tr' H fs i s); try done; [congruence|]. intros B HB. rewrite (Htri B HB). destruct body; [done|]. rewrite len_cons in Hz. pose proof (len_nonneg body). lia.
    - cbn [andb]. replace (put i (s1 <| pending := body |>) (put i s1 c <| enc := e |>)) with (put i (s1 <| pending := body |>) c <| enc := e |>)
        by (unfold put; cbn; by rewrite insert_insert_eq).
      apply (respond_full tr tr' H fs i s); try done. cbn. congruence. }
  clearbody oc. destruct Hoc as (gs & c1 & -> & Hans).
  destruct (rClose r && negb (goAway c1)).
  - destruct (answered_goaway _ _ _ _ _ _ _ H2NoError Hans) as (gs' & -> & Hans'). intros [= <- <-]. by eapply respond_sent.
  - intros [= <- <-]. by eapply respond_sent.
Qed.

(** ** Interim responses *)

Lemma good_send tr H gs c : good tr H c -> Forall quiet gs -> Forall (frame_ok limit) gs -> good tr H (sendLocked (encs gs) c).
Proof.
  intros [[[fs Hc] [Ha Hg]]|[fs He]] Hq Hok.
  - pose proof (core_send _ _ _ _ _ _ _ Hc Hq Hok) as Hc'. left. split; [by eexists|]. rewrite sendLocked_encs by apply Hc. done.
  - right. exists fs. by rewrite sendLocked_closed by apply He.
Qed.

(** Parts of the state that matter to nothing here. *)
Lemma good_ext tr H c c' : cview c = cview c' -> goAway c = goAway c' -> peerGoingAway c = peerGoingAway c' -> good tr H c -> good tr H c'.
Proof.
  intros Hv Hg Hp [[[fs Hc] [Ha Hgo]]|[fs [Z1 Z2 Z3 Z4 Z5]]].
  - left. split; [exists fs; by eapply core_ext|]. unfold cview in Hv. injection Hv as E1 E2 E3 E4 E5 _. unfold awake, going in *. rewrite <- E3, <- E4, <- E5, <- Hg, <- Hp. done.
  - right. exists fs. unfold cview in Hv. injection Hv as E1 E2 _ _ E5 _. constructor; [congruence|congruence|congruence|done|done].
Qed.

Lemma writeInterim_good tr H i status header c : good tr H c -> is_Some (store c !! i) -> good tr H (writeInterim unicode_lower i status header c).2.
Proof.
  intros Hgood [s Hs]. unfold writeInterim. destruct (negb _); [done|]. destruct (closed c || _) eqn:Ec; [done|]. destruct (responded _); [done|].
  destruct (Begin [] (enc c)) as [e0 b0]. destruct (AppendField _ _ _ _ _) as [e1 b1]. destruct (appendHeaderLocked _ _ e1 b1) as [e block].
  cbn [snd]. rewrite append_headers. cbn [app]. apply orb_false_iff in Ec as [Ec _].
  assert (Hf : header_facts i false (header_frames i block false (peerMaxFrame c))).
  { destruct Hgood as [[[fs Hc] _]|[fs He]]; [|rewrite (z_closed _ _ _ He) in Ec; done]. apply header_facts_of; [apply (k_streams _ _ _ _ _ _ Hc _ _ Hs)|apply Hc]. }
  destruct Hf as [F1 _ _ _ _ F6]. apply good_send; [by eapply good_ext; [..|exact Hgood]|by apply F6|done].
Qed.

(** ** New streams *)

Lemma idle_new tr H fs ofs x i c : core tr H fs ofs x c -> idle i c -> store c !! i = None.
Proof. intros Hc Hi. destruct (store c !! i) as [s|] eqn:E; [|done]. destruct (k_ids _ _ _ _ _ _ Hc _ _ E) as [Hn _]. done. Qed.

Definition blank_stream c s : Prop :=
  (responded s, pending s, trailer s, localDone s, reset s, s_sendWindow s) = (false, [], None, false, false, peerWindow c) /\
  (pushed s = false -> s_recvWindow s = h2StreamWindow /\ s_recvUnacked s = 0).

Lemma core_open tr H fs i s c c' :
  core tr H fs [] ∅ c -> idle i c -> 1 <= i < 2 ^ 31 -> blank_stream c s -> (pushed s = true <-> i mod 2 = 0) ->
  (closed c', wire c', sendWindow c', peerWindow c', peerMaxPush c', peerMaxFrame c', recvWindow c', recvUnacked c', contStream c') =
    (closed c, wire c, sendWindow c, peerWindow c, peerMaxPush c, peerMaxFrame c, recvWindow c, recvUnacked c, contStream c) ->
  store c' = <[i := s]> (store c) -> streams c' = {[i]} ∪ streams c -> (forall j, idle j c' -> idle j c) -> ~ idle i c' ->
  2 <= nextPushID c' <= 2 ^ 31 /\ nextPushID c' mod 2 = 0 -> pushedStreams c' = Z.of_nat (base.size (evens (streams c'))) /\ pushedStreams c' < 2 ^ 32 ->
  Z.of_nat (base.size (odds (streams c'))) <= maxStreams cfg -> 0 <= maxClientID c' < 2 ^ 31 /\ 0 <= lastStreamID c' < 2 ^ 31 ->
  core tr H fs [] ∅ c'.
Proof.
  intros Hc Hid Hi [Hb Hrw] Hpar Hsame Hst Hlv Hidle Hnid Hnp Hps Hcl Hmx. pose proof (idle_new _ _ _ _ _ _ _ Hc Hid) as Hnone.
  injection Hsame as E1 E2 E3 E4 E5 E6 E7 E8 E9. injection Hb as B1 B2 B3 B4 B5 B6.
  destruct Hc as [K1 K2 K3 K4 K5 K6 K7 K8 K9 K10 K11 K12 K13 K14 K15 K16]. rewrite app_nil_r in *. destruct (K8 i Hnone) as [D1 D2].
  assert (Hnl : i ∉ streams c) by (intros Hl; apply K6 in Hl as [t Ht]; congruence).
  constructor; rewrite ?app_nil_r; try congruence; try done.
  - intros j t Hj. rewrite Hst in Hj. rewrite E4, Hlv. destruct (decide (j = i)) as [->|Hji].
    + rewrite lookup_insert_eq in Hj. injection Hj as <-. constructor; rewrite ?B1, ?B2, ?B3, ?B4, ?B5, ?B6, ?D1, ?D2; try done.
      * intros Hp. destruct (Hrw Hp) as [-> ->]. unfold h2StreamWindow. rewrite Z.shiftl_mul_pow2 by lia. lia.
      * intros _. rewrite K9; [|done|lia]. unfold len. cbn. lia.
      * intros Hn. exfalso. apply Hn, elem_of_union. left. by apply elem_of_singleton.
    + rewrite lookup_insert_ne in Hj by done. destruct (K5 j t Hj) as [V1 V2 V3 V4 V5 V6 V7 V8]. constructor; try done.
      * intros Hl. apply V6. apply elem_of_union in Hl as [Hl|Hl]; [by apply elem_of_singleton in Hl|done].
      * intros Hl. apply V7. apply elem_of_union in Hl as [Hl|Hl]; [by apply elem_of_singleton in Hl|done].
      * intros Hl. apply V8. intros Hin. apply Hl, elem_of_union. by right.
  - intros j Hl. rewrite Hst. rewrite Hlv in Hl. apply elem_of_union in Hl as [Hl|Hl].
    + apply elem_of_singleton in Hl as ->. rewrite lookup_insert_eq. by eexists.
    + assert (j <> i) by congruence. rewrite lookup_insert_ne by done. by apply K6.
  - intros j t Hj. rewrite Hst in Hj. destruct (decide (j = i)) as [->|Hji].
    + rewrite lookup_insert_eq in Hj. injection Hj as <-. done.
    + rewrite lookup_insert_ne in Hj by done. destruct (K7 j t Hj) as [H1 H2]. split; [|done]. intros Hx. by apply H1, Hidle.
  - intros j Hj. apply K8. rewrite Hst in Hj. destruct (decide (j = i)) as [->|Hji]; [by rewrite lookup_insert_eq in Hj|by rewrite lookup_insert_ne in Hj].
  - intros j Hj. apply K9. by apply Hidle.
  - rewrite E5. naive_solver.
  - rewrite E9. naive_solver.
  - intros j B HB. destruct (K16 j B HB) as (t & Ht & Htr). exists t. rewrite Hst. assert (j <> i) by congruence. by rewrite lookup_insert_ne.
Qed.

(** Nothing waits on it, and it keeps the connection going. *)
Lemma open_rest i s c c' : awake ∅ c -> blank_stream c s -> store c' = <[i := s]> (store c) -> streams c' = {[i]} ∪ streams c -> sendWindow c' = sendWindow c ->
  awake ∅ c' /\ going c'.
Proof.
  intros Ha [Hb _] Hst Hlv Hw. injection Hb as _ B2 _ _ _ _. split.
  - intros j t Hj Hl Hx Hp. rewrite Hst in Hj. rewrite Hw. destruct (decide (j = i)) as [->|Hji]; [rewrite lookup_insert_eq in Hj; injection Hj as <-; done|].
    rewrite lookup_insert_ne in Hj by done. apply (Ha j t Hj); [|done|done]. rewrite Hlv in Hl. apply elem_of_union in Hl as [Hl|Hl]; [by apply elem_of_singleton in Hl|done].
  - intros _ Hz. rewrite Hlv in Hz. assert (Hi : i ∈ {[i]} ∪ streams c) by (apply elem_of_union; left; by apply elem_of_singleton). rewrite Hz in Hi. by apply not_elem_of_empty in Hi.
Qed.
End inv.
