(* ===== verification/Http2Flush.v ===== *)
(** How much of a response is sent: exactly what both windows allow. *)
From Stdlib Require Import String.
From S2P Require Import Prelude.
From S2P Require Import HpackTables.
From S2P Require Import Huffman.
From S2P Require Import Hpack.
From S2P Require Import GoText.
From S2P Require Import HttpWriter.
From S2P Require Import Http2Frame.
From S2P Require Import Http2Server.
From S2P Require Import Http2Inv.

Section flush.
Context {U : Type} (unicode_lower : bytes -> bytes).
Abbreviation Conn := (h2ServerConn U).
Abbreviation Stream := (h2ServerStream U).
Implicit Types (c : Conn) (s : Stream).

(** What may be sent of a body, with the two windows as they are. *)
Definition sendable (body : bytes) (conn stream : Z) : Z := Z.max 0 (Z.min (len body) (Z.min conn stream)).

(** [gs] are frames that send that much, and end the stream with the last byte. *)
Record sends (i : Z) (p : bytes) (max n : Z) (gs : list h2Frame) : Prop := {
  sn_data : data_of i gs = take (Z.to_nat n) p;
  sn_total : data_total gs = n;
  sn_size : Forall (fun f => typ f = h2FrameData -> 1 <= len (payload f) <= max) gs;
  sn_end : ended i gs = (0 <? n) && (n =? len p);
  sn_ok : Forall (frame_ok limit) gs;
}.

Lemma sends_nothing i p max : sends i p max 0 [].
Proof. by constructor. Qed.


Lemma header_sizes i block es max n : 1 <= max -> Forall (fun f => typ f = h2FrameData -> 1 <= len (payload f) <= n) (header_frames i block es max).
Proof.
  intros Hm. destruct (header_frames_split i block es max Hm) as [_ _ (f & rest & -> & Ht & _ & Hr) _]. constructor; [by rewrite Ht|]. eapply Forall_impl; [exact Hr|]. intros g [Hg _]. by rewrite Hg.
Qed.

(** The last chunk, and the trailers if there are any. *)
Lemma end_frames out i s c p max : store c !! i = Some s -> 1 <= i < 2 ^ 31 -> h2DefaultMaxFrameSize <= peerMaxFrame c <= limit -> 1 <= len p <= max -> max <= limit ->
  exists gs e, endStreamLocked unicode_lower (out ++ encode (frame h2FrameData (if bool_decide (trailer s = None) then h2FlagEndStream else 0) i p)) i c =
      (out ++ encs gs, put i (s <| localDone := true |> <| trailer := None |>) c <| enc := e |>) /\ sends i p max (len p) gs.
Proof.
  intros Hs Hi Hm Hp Hmax. set (df := frame _ _ i p). destruct (data_frame_facts (flags df) i p) as (_ & D2 & D3). change (frame h2FrameData (flags df) i p) with df in D2, D3.
  assert (Hfok : frame_ok limit df) by (unfold df; case_bool_decide; apply frame_ok_mk; done || lia).
  assert (Hsz : typ df = h2FrameData -> 1 <= len (payload df) <= max) by done.
  assert (Hn : Z.to_nat (len p) = length p) by (unfold len; lia).
  assert (Hb : (0 <? len p) && (len p =? len p) = true) by (rewrite Z.eqb_refl; destruct (Z.ltb_spec 0 (len p)); [done|lia]).
  unfold endStreamLocked. rewrite (stream_at _ _ _ Hs). destruct (trailer s) as [header|] eqn:Et; rewrite ?bool_decide_eq_false_2, ?bool_decide_eq_true_2 in * by done.
  - change (trailer (s <| localDone := true |>)) with (trailer s). rewrite Et. destruct (Begin [] (enc c)) as [e b]. destruct (appendHeaderLocked unicode_lower header e b) as [e' b']. rewrite append_headers.
    destruct (header_facts_of i b' true (peerMaxFrame c) Hi Hm) as [F1 F2 F3 F4 F5 F6]. exists ([df] ++ header_frames i b' true (peerMaxFrame c)), e'.
    split; [rewrite encs_app, encs_one, <- app_assoc; done|]. unfold h2DefaultMaxFrameSize in Hm. constructor.
    + by rewrite data_of_app, F2, D2, app_nil_r, Hn, firstn_all.
    + rewrite data_total_app, F3, D3. lia.
    + constructor; [done|]. apply header_sizes. lia.
    + by rewrite ended_app, F4, Hb, orb_true_r.
    + by constructor.
  - change (trailer (s <| localDone := true |>)) with (trailer s). rewrite Et. exists [df], (enc c). split.
    + rewrite encs_one. f_equal. destruct s. cbn in Et |- *. rewrite Et. by destruct c.
    + constructor; [by rewrite D2, Hn, firstn_all|done|by constructor| |by constructor]. rewrite Hb. unfold ended. cbn. unfold ends. cbn. by rewrite Z.eqb_refl.
Qed.

Lemma sends_more i p max k n gs : 1 <= k <= max -> max <= limit -> 0 <= n -> k + n <= len p -> k < len p -> 1 <= i < 2 ^ 31 -> sends i (drop (Z.to_nat k) p) max n gs ->
  sends i p max (k + n) (frame h2FrameData 0 i (take (Z.to_nat k) p) :: gs).
Proof.
  intros Hk Hmax Hn Hkn Hlt Hi [S1 S2 S3 S4 S5]. set (chunk := take (Z.to_nat k) p). assert (Hc : len chunk = k) by (unfold chunk; rewrite len_take; lia).
  destruct (data_frame_facts 0 i chunk) as (_ & D2 & D3). rewrite <- (app_nil_l gs), app_comm_cons. set (df := frame h2FrameData 0 i chunk) in *.
  assert (Hd : len (drop (Z.to_nat k) p) = len p - k) by (unfold len in *; rewrite length_drop; lia). constructor.
  - rewrite data_of_app, D2, S1. unfold chunk. replace (Z.to_nat (k + n)) with (Z.to_nat k + Z.to_nat n)%nat by lia. by rewrite take_take_drop.
  - rewrite data_total_app, D3, S2. lia.
  - constructor; [intros _; cbn; lia|done].
  - rewrite ended_app, S4, Hd. replace (ended i [df]) with false by (unfold ended; cbn; unfold ends; cbn; by rewrite andb_false_r). cbn [orb].
    destruct (Z.ltb_spec 0 n), (Z.ltb_spec 0 (k + n)), (Z.eqb_spec n (len p - k)), (Z.eqb_spec (k + n) (len p)); done || lia.
  - constructor; [|done]. apply frame_ok_mk; [done|done|lia|lia|done].
Qed.

Lemma flush_loop_exact fuel out i s c : store c !! i = Some s -> 1 <= i < 2 ^ 31 -> h2DefaultMaxFrameSize <= peerMaxFrame c <= limit -> (length (pending s) <= fuel)%nat ->
  let n := sendable (pending s) (sendWindow c) (s_sendWindow s) in
  exists gs c' s', flush_loop unicode_lower fuel out i c = (out ++ encs gs, c') /\ store c' !! i = Some s' /\ sends i (pending s) (peerMaxFrame c) n gs /\
    pending s' = drop (Z.to_nat n) (pending s) /\ sendWindow c' = sendWindow c - n /\ s_sendWindow s' = s_sendWindow s - n /\ wire c' = wire c /\ streams c' = streams c.
Proof.
  revert out s c. induction fuel as [|fuel IH]; intros out s c Hs Hi Hm Hf n; (assert (En : n = sendable (pending s) (sendWindow c) (s_sendWindow s)) by done); clearbody n.
  { assert (Hnil : pending s = []) by (destruct (pending s); [done|cbn in Hf; lia]). assert (Hn0 : n = 0) by (rewrite En; unfold sendable; rewrite Hnil; change (len (@nil Z)) with 0; lia).
    exists [], c, s. rewrite Hn0, app_nil_r, Hnil, !Z.sub_0_r. split_and!; try done. }
  cbn [flush_loop]. rewrite (stream_at _ _ _ Hs). destruct (pending s) as [|b0 p0] eqn:Ep.
  { assert (Hn0 : n = 0) by (rewrite En; unfold sendable; change (len (@nil Z)) with 0; lia). exists [], c, s. rewrite Hn0, app_nil_r, Ep, !Z.sub_0_r. split_and!; try done. }
  rewrite <- Ep in *. unfold h2DefaultMaxFrameSize in Hm. set (k := Z.min _ (peerMaxFrame c)).
  assert (Hlen : 1 <= len (pending s)) by (rewrite Ep, len_cons; pose proof (len_nonneg p0); lia).
  destruct (Z.leb_spec k 0) as [Hk|Hk].
  { assert (Hn0 : n = 0) by (rewrite En; unfold sendable; lia). exists [], c, s. rewrite Hn0, app_nil_r, !Z.sub_0_r. split_and!; try done. }
  cbv zeta. set (chunk := take (Z.to_nat k) (pending s)). set (rest := drop (Z.to_nat k) (pending s)).
  assert (Hcl : len chunk = k) by (unfold chunk; rewrite len_take; lia). assert (Hrl : len rest = len (pending s) - k) by (unfold rest, len in *; rewrite length_drop; lia).
  set (s1 := s <| pending := rest |> <| s_sendWindow := s_sendWindow s - k |>). set (c1 := put i s1 c <| sendWindow := sendWindow c - k |>).
  assert (Hs1 : store c1 !! i = Some s1) by apply lookup_insert_eq. rewrite header_app, <- app_assoc. destruct (Z.eqb_spec (len rest) 0) as [Hrest|Hrest].
  - assert (Hnil : rest = []) by (destruct rest; [done|rewrite len_cons in Hrest; pose proof (len_nonneg rest); lia]).
    assert (Hnk : n = k) by (rewrite En; unfold sendable; lia). assert (Hch : chunk = pending s) by (unfold chunk; apply firstn_all2; unfold len in *; lia). cbn [andb].
    change (h2AppendFrameHeader [] h2FrameData (if bool_decide (trailer s = None) then h2FlagEndStream else 0) i (len chunk) ++ chunk) with
      (encode (frame h2FrameData (if bool_decide (trailer s1 = None) then h2FlagEndStream else 0) i chunk)).
    destruct (end_frames out i s1 c1 chunk (peerMaxFrame c) Hs1 Hi Hm ltac:(lia) ltac:(lia)) as (gs & e & -> & Hsn). cbv iota beta.
    set (s2 := s1 <| localDone := true |> <| trailer := None |>). set (c2 := put i s2 c1 <| enc := e |>). assert (Hs2 : store c2 !! i = Some s2) by apply lookup_insert_eq.
    exists gs, c2, s2. rewrite Hnk. split_and!; try done.
    + destruct fuel; [done|]. cbn [flush_loop]. rewrite (stream_at _ _ _ Hs2). change (pending s2) with rest. by rewrite Hnil.
    + rewrite Hcl in Hsn. by rewrite <- Hch.
  - cbn [andb]. change (h2AppendFrameHeader [] h2FrameData 0 i (len chunk) ++ chunk) with (encode (frame h2FrameData 0 i chunk)).
    destruct (IH (out ++ encode (frame h2FrameData 0 i chunk)) s1 c1 Hs1 Hi Hm) as (gs & c' & s' & E & R1 & R2 & R3 & R4 & R5 & R6 & R7).
    { change (pending s1) with rest. unfold rest. rewrite length_drop. lia. }
    change (pending s1) with rest in *. change (s_sendWindow s1) with (s_sendWindow s - k) in *. change (sendWindow c1) with (sendWindow c - k) in *. change (peerMaxFrame c1) with (peerMaxFrame c) in *.
    set (n' := sendable rest (sendWindow c - k) (s_sendWindow s - k)) in *. assert (Hn' : n = k + n' /\ 0 <= n') by (rewrite En; unfold n', sendable; lia). destruct Hn' as [Hn' Hpos].
    exists (frame h2FrameData 0 i chunk :: gs), c', s'. rewrite E. split_and!; try done; [|..|lia|lia].
    + by rewrite encs_cons, app_assoc.
    + rewrite Hn'. apply sends_more; try done; lia || (unfold n', sendable in *; lia).
    + rewrite R3. unfold rest. rewrite drop_drop. f_equal. lia.
Qed.

(** C8: a body is sent exactly as far as both windows allow.  Of what a stream has
    pending, [flushStreamLocked] puts the first n bytes into DATA frames, none
    empty and none larger than the client takes, n being the least of what is
    pending and the two windows, or nothing if a window is used up; both
    windows shrink by n, the rest stays pending, and the stream is ended with its
    last byte and not before.  Nothing else is sent. *)
Theorem h2_flush_exact out i s c : store c !! i = Some s -> 1 <= i < 2 ^ 31 -> h2DefaultMaxFrameSize <= peerMaxFrame c <= h2MaxFrameSizeLimit ->
  let n := sendable (pending s) (sendWindow c) (s_sendWindow s) in
  exists gs c' s', flushStreamLocked unicode_lower out i c = (out ++ encs gs, c') /\ store c' !! i = Some s' /\ sends i (pending s) (peerMaxFrame c) n gs /\
    pending s' = drop (Z.to_nat n) (pending s) /\ sendWindow c' = sendWindow c - n /\ s_sendWindow s' = s_sendWindow s - n /\ wire c' = wire c.
Proof.
  intros Hs Hi Hm n. unfold flushStreamLocked. rewrite (stream_at _ _ _ Hs).
  destruct (flush_loop_exact (length (pending s)) out i s c Hs Hi Hm ltac:(lia)) as (gs & c' & s' & E & R1 & R2 & R3 & R4 & R5 & R6 & _). by exists gs, c', s'.
Qed.
End flush.

(** Five bytes and a window of three. *)
Definition waiting_stream : h2ServerStream unit := no_stream <| responded := true |> <| s_sendWindow := 3 |> <| pending := [1; 2; 3; 4; 5] |>.
Definition waiting_conn : h2ServerConn unit := put 1 waiting_stream (newH2ServerConn (H2Config 0 0 0 false)).

Lemma h2_flush_exact_witness :
  exists gs c' s', flushStreamLocked (fun x => x) [] 1 waiting_conn = ([] ++ encs gs, c') /\ store c' !! 1 = Some s' /\ sends 1 [1; 2; 3; 4; 5] 16384 3 gs /\
    pending s' = [4; 5] /\ sendWindow c' = 65532 /\ s_sendWindow s' = 0 /\ wire c' = [].
Proof. exact (h2_flush_exact (fun x => x) [] 1 waiting_stream waiting_conn eq_refl ltac:(lia) ltac:(by vm_compute)). Defined.
