(* ===== verification/Http2Calls.v ===== *)
(** What the application's calls do to an HTTP/2 server connection: responses,
    interim responses and pushes keep its invariant. *)
From Stdlib Require Import String.
From S2P Require Import Prelude.
From S2P Require Import HpackTables.
From S2P Require Import Huffman.
From S2P Require Import Hpack.
From S2P Require Import GoText.
From S2P Require Import HttpWriter.
From S2P Require Import Http2Frame.
From S2P Require Import Http2Server.
From S2P Require Import Http2Inv.

(** * Counting *)

Lemma size_new (X : gset Z) i : i ∉ X -> base.size ({[i]} ∪ X) = S (base.size X).
Proof. intros H. rewrite size_union, size_singleton; [done|set_solver]. Qed.

Lemma evens_new (X : gset Z) i : i ∉ X -> i mod 2 = 0 -> base.size (evens ({[i]} ∪ X)) = S (base.size (evens X)) /\ odds ({[i]} ∪ X) = odds X.
Proof.
  intros Hn He. split.
  - replace (evens ({[i]} ∪ X)) with ({[i]} ∪ evens X); [apply size_new; unfold evens; set_solver|]. apply set_eq. intros j. unfold evens. set_solver.
  - apply set_eq. intros j. unfold odds. rewrite !elem_of_filter, elem_of_union, elem_of_singleton. split; [|tauto]. intros [H1 [->|?]]; [lia|done].
Qed.

Lemma odds_new (X : gset Z) i : i ∉ X -> i mod 2 = 1 -> base.size (odds ({[i]} ∪ X)) = S (base.size (odds X)) /\ evens ({[i]} ∪ X) = evens X.
Proof.
  intros Hn He. split.
  - replace (odds ({[i]} ∪ X)) with ({[i]} ∪ odds X); [apply size_new; unfold odds; set_solver|]. apply set_eq. intros j. unfold odds. set_solver.
  - apply set_eq. intros j. unfold evens. rewrite !elem_of_filter, elem_of_union, elem_of_singleton. split; [|tauto]. intros [H1 [->|?]]; [lia|done].
Qed.

Section calls.
Context {U : Type}.
Abbreviation Conn := (h2ServerConn U).
Abbreviation Stream := (h2ServerStream U).
Context (ParseRequestURI : bytes -> option U) (unicode_lower : bytes -> bytes) (ParseURL : bytes -> option (bytes * bytes * bytes)).
Context (cfg : h2Config) (app : Z -> Request U -> list call).
Implicit Types (c : Conn) (s : Stream).

(** * The streams there are *)

Definition known (i : Z) c : Prop := is_Some (store c !! i).
Definition grows c c' : Prop := forall i, known i c -> known i c'.

#[export] Instance grows_preorder : PreOrder grows.
Proof. split; [by intros c i|]. intros c1 c2 c3 H1 H2 i Hi. by apply H2, H1. Qed.

Lemma grows_store c c' : store c' = store c -> grows c c'.
Proof. intros E i. unfold known. by rewrite E. Qed.

Lemma grows_put i s c : grows c (put i s c).
Proof. intros j Hj. unfold known in *. rewrite stored_put. destruct (decide (j = i)) as [->|]; [rewrite lookup_insert_eq; by eexists|by rewrite lookup_insert_ne]. Qed.

Lemma grows_send out c : grows c (sendLocked out c).
Proof. apply grows_store. unfold sendLocked. by case_match. Qed.

Lemma grows_close c : grows c (closeFinishedLocked c).
Proof. apply grows_store. unfold closeFinishedLocked. by case_match. Qed.

Lemma grows_forget i c : grows c (forgetLocked i c).
Proof.
  unfold forgetLocked. etrans; [apply (grows_put i)|]. destruct (decide _); [|reflexivity]. destruct (pushed _); by apply grows_store.
Qed.

Lemma grows_finish i c : grows c (finishStreamLocked i c).
Proof.
  unfold finishStreamLocked. destruct (_ || _); [reflexivity|]. etrans; [|apply grows_close]. etrans; [|apply grows_forget].
  destruct (negb _); [|reflexivity]. etrans; [apply (grows_put i)|apply grows_send].
Qed.

Lemma grows_end out i c : grows c (endStreamLocked unicode_lower out i c).2.
Proof.
  unfold endStreamLocked. cbn [trailer]. destruct (trailer _); [|apply grows_put]. destruct (Begin _ _) as [e b]. destruct (appendHeaderLocked _ _ e b). cbn [snd].
  etrans; [apply (grows_put i)|by apply grows_store].
Qed.

Lemma grows_flush fuel out i c : grows c (flush_loop unicode_lower fuel out i c).2.
Proof.
  revert out c. induction fuel as [|fuel IH]; intros out c; cbn [flush_loop]; [reflexivity|]. destruct (pending (get i c)) as [|b p] eqn:E; [reflexivity|]. rewrite <- E. clear E.
  destruct (_ <=? 0); [reflexivity|]. cbv zeta. set (c1 := put i _ c <| sendWindow := _ |>). set (o1 := _ ++ take _ _).
  assert (H1 : grows c c1) by (unfold c1; etrans; [apply (grows_put i)|by apply grows_store]). clearbody c1 o1.
  destruct (len (drop _ _) =? 0); [|etrans; [exact H1|apply IH]].
  pose proof (grows_end o1 i c1) as H2. destruct (endStreamLocked unicode_lower o1 i c1) as [o2 c2]. cbn in H2. etrans; [exact H1|]. etrans; [exact H2|apply IH].
Qed.

Lemma grows_respond i head r c : grows c (respond unicode_lower i head r c).2.
Proof.
  unfold respond. destruct (_ || (999 <? _)); [reflexivity|]. destruct (negb (h2CheckHeader _ _)); [reflexivity|]. destruct (closed c || _); [reflexivity|].
  destruct (responded _); [reflexivity|]. destruct (Begin [] (enc c)) as [e0 b0]. destruct (AppendField _ (str ":status") _ _ _) as [e1 b1].
  set (eb := if _ : bool then _ else (e1, b1)). destruct eb as [e2 b2]. destruct (appendHeaderLocked _ _ e2 b2) as [e block]. cbv zeta.
  set (s1 := if _ : bool then _ <| trailer := _ |> else _). set (c1 := put i s1 c <| enc := e |>). set (out := h2AppendHeaderBlock _ _ _ _ _).
  set (oc := if len _ =? 0 then _ else _).
  assert (H1 : grows c oc.2).
  { assert (H0 : grows c c1) by (etrans; [apply (grows_put i s1)|by apply grows_store]). unfold oc. destruct (_ =? 0); [etrans; [exact H0|apply grows_end]|].
    unfold flushStreamLocked. etrans; [exact H0|]. etrans; [apply (grows_put i)|apply grows_flush]. }
  destruct oc as [o c2]. cbn in H1. set (oc2 := if _ && negb (goAway c2) then _ else _).
  assert (H2 : grows c2 oc2.2) by (unfold oc2; destruct (rClose r && negb (goAway c2)); [by apply grows_store|reflexivity]). destruct oc2 as [o' c3]. cbn [snd] in *.
  etrans; [exact H1|]. etrans; [exact H2|]. etrans; [|apply grows_close]. etrans; [|apply grows_finish]. apply grows_send.
Qed.

Lemma grows_interim i status header c : grows c (writeInterim unicode_lower i status header c).2.
Proof.
  unfold writeInterim. destruct (negb _); [reflexivity|]. destruct (_ || _); [reflexivity|]. destruct (responded _); [reflexivity|].
  destruct (Begin [] (enc c)) as [e0 b0]. destruct (AppendField _ _ _ _ _) as [e1 b1]. destruct (appendHeaderLocked _ _ e1 b1) as [e block].
  cbn [snd]. etrans; [|apply grows_send]. by apply grows_store.
Qed.

(** * Calls *)

(** A stream that is tracked has been answered. *)
Lemma respond_again tr H i head r c B : good cfg tr H c -> tr i = Some B -> (respond unicode_lower i head r c).2 = c.
Proof.
  intros Hg Ht. unfold respond. destruct (_ || (999 <? _)); [done|]. destruct (negb (h2CheckHeader _ _)); [done|].
  destruct Hg as [[[fs Hc] _]|[fs He]]; [|by rewrite (z_closed _ _ _ He)].
  destruct (k_track _ _ _ _ _ _ _ Hc i B Ht) as (s & Hs & Hr & _). rewrite (stream_at _ _ _ Hs), Hr. by destruct (_ || _).
Qed.

Lemma respond_kept tr H i head r c : good cfg tr H c -> known i c -> good cfg tr H (respond unicode_lower i head r c).2.
Proof.
  intros Hg Hk. destruct (tr i) as [B|] eqn:Ht; [by erewrite respond_again|].
  destruct (respond unicode_lower i head r c) as [err c'] eqn:E. cbn.
  pose proof (respond_good cfg unicode_lower tr tr H i head r c err c' Hg Hk) as R. destruct err; [rewrite R; [done|done|congruence|done]|apply R; [done|congruence|done]].
Qed.

Lemma basic_call_good tr H i a c : good cfg tr H c -> known i c -> good cfg tr H (basic_call unicode_lower i c a) /\ grows c (basic_call unicode_lower i c a).
Proof.
  intros Hg Hk. destruct a; cbn.
  - split; [by apply respond_kept|apply grows_respond].
  - split; [by apply writeInterim_good|apply grows_interim].
  - done.
Qed.

(** Calls one after the other. *)
Lemma calls_good {A} (f : Conn -> A -> Conn) tr H i (l : list A) c :
  (forall a c, good cfg tr H c -> known i c -> good cfg tr H (f c a) /\ grows c (f c a)) ->
  good cfg tr H c -> known i c -> good cfg tr H (fold_left f l c) /\ grows c (fold_left f l c).
Proof.
  intros Hf. revert c. induction l as [|a l IH]; intros c Hg Hk; cbn [fold_left]; [done|]. destruct (Hf a c Hg Hk) as [H1 H2].
  destruct (IH (f c a) H1 (H2 i Hk)) as [H3 H4]. split; [done|]. by etrans.
Qed.

(** ** Pushing *)

Lemma push_facts i j block max : 1 <= i < 2 ^ 31 -> h2DefaultMaxFrameSize <= max <= limit ->
  Forall (frame_ok limit) (push_frames i j block max) /\ Forall quiet (push_frames i j block max).
Proof.
  intros Hi [Hm1 Hm2]. unfold h2DefaultMaxFrameSize in Hm1. unfold push_frames. set (chunk := take _ block). set (rest := drop (length chunk) block).
  assert (Hch : len chunk <= max - 4) by (unfold chunk; rewrite len_take; lia).
  assert (Hf : forall fl, fl = 0 \/ fl = h2FlagEndHeaders -> frame_ok limit (frame h2FramePushPromise fl i (be_bytes 4 (Z.land j 0x7fffffff) ++ chunk))).
  { intros fl Hfl. apply frame_ok_mk; [done|by destruct Hfl as [-> | ->]|lia|rewrite len_app, be_bytes_len; lia|by destruct Hfl as [-> | ->]]. }
  assert (Hq : forall fl, quiet (frame h2FramePushPromise fl i (be_bytes 4 (Z.land j 0x7fffffff) ++ chunk))) by done.
  destruct rest as [|b r] eqn:Er; [rewrite !Forall_singleton; split; [apply Hf; by right|done]|].
  rewrite !Forall_cons. pose proof (block_frames_split (length (b :: r)) h2FrameContinuation 0 i (b :: r) max ltac:(lia) ltac:(done) ltac:(done)) as Hs.
  pose proof (split_frames _ _ _ _ _ _ Hs ltac:(done) ltac:(by left) ltac:(lia) Hm2) as Hok.
  split; [split; [apply Hf; by destruct (_ =? 0); [right|left]|done]|]. split; [done|].
  destruct Hs as [S1 S2 (f & t & -> & Ht & _ & Hr) S4]. constructor; [unfold quiet; by rewrite Ht|by apply continuations_quiet].
Qed.

(** The promised stream is new, and counted. *)
Lemma promise_good tr H c s e i :
  good cfg tr H c -> closed c = false -> blank_stream c s -> pushed s = true -> pushedStreams c < peerMaxPush c -> nextPushID c <= h2MaxStreamID ->
  let j := nextPushID c in
  let c1 := c <| nextPushID := u32 (nextPushID c + 2) |> <| enc := e |> in
  let c2 := put j s c1 <| streams := {[j]} ∪ streams c1 |> <| pushedStreams := u32 (pushedStreams c1 + 1) |> in
  known i c -> good cfg tr H c2 /\ known j c2 /\ (forall block, good cfg tr H (sendLocked (h2AppendPushPromise [] i j block (peerMaxFrame c2)) c2)).
Proof.
  intros Hg Hcl Hb Hp Hmax Hid j c1 c2 [si Hsi]. destruct Hg as [[[fs Hc] [Ha Hgo]]|[fs He]]; [|rewrite (z_closed _ _ _ He) in Hcl; done].
  pose proof (k_push _ _ _ _ _ _ _ Hc) as (P1 & P2 & P3). pose proof (k_pushed _ _ _ _ _ _ _ Hc) as [Q1 Q2].
  unfold h2MaxStreamID in Hid. rewrite Z.shiftl_mul_pow2 in Hid by lia.
  assert (En : u32 (nextPushID c + 2) = j + 2) by (unfold u32; apply Z.mod_small; lia).
  assert (Ep : u32 (pushedStreams c + 1) = pushedStreams c + 1) by (unfold u32; apply Z.mod_small; lia).
  assert (P4 : j mod 2 = 0) by exact P2.
  assert (Hidle : idle j c) by (unfold idle, idleLocked; rewrite P4; apply Z.leb_refl).
  assert (Hnl : j ∉ streams c) by (intros Hl; apply (k_live _ _ _ _ _ _ _ Hc) in Hl as [t Ht]; rewrite (idle_new _ _ _ _ _ _ _ _ Hc Hidle) in Ht; done).
  destruct (evens_new (streams c) j Hnl P2) as [S1 S2].
  assert (Hj : (j + 2) mod 2 = 0) by (rewrite Z.add_mod, P4 by lia; done).
  assert (Hc2 : core cfg tr H fs [] ∅ c2).
  { apply (core_open cfg tr H fs j s c c2); try done.
    - split; [lia|]. assert (j <> 2 ^ 31 - 1) by (intros E; rewrite E in P4; done). lia.
    - unfold idle, idleLocked. cbn. rewrite En. intros k. destruct (Z.eqb_spec (k mod 2) 0); [|done]. intros Hx%Z.leb_le. apply Z.leb_le. change (nextPushID c) with j. lia.
    - unfold idle, idleLocked. cbn [nextPushID c2 put]. cbn. rewrite En, P4. cbn. intros Hx%Z.leb_le. lia.
    - cbn. rewrite En. split; [|done]. assert (j <> 2 ^ 31 - 1) by (intros E; rewrite E in P4; done). subst j. lia.
    - cbn. rewrite Ep, S1. lia.
    - cbn. rewrite S2. apply Hc.
    - pose proof (k_max _ _ _ _ _ _ _ Hc). cbn. tauto. }
  destruct (open_rest j s c c2 Ha Hb eq_refl eq_refl eq_refl) as [Ha2 Hg2].
  assert (Hgood : good cfg tr H c2) by (left; split; [by eexists|done]). split_and!; [done|by eexists; apply lookup_insert_eq|].
  intros block. rewrite append_push. cbn [List.app]. destruct (push_facts i j block (peerMaxFrame c2)) as [F1 F2]; [apply (k_streams _ _ _ _ _ _ _ Hc _ _ Hsi)|apply Hc2|].
  by apply good_send.
Qed.

Lemma push_good tr H i host method path header c :
  good cfg tr H c -> known i c -> let c' := (push ParseRequestURI unicode_lower ParseURL cfg app i host method path header c).2 in good cfg tr H c' /\ grows c c'.
Proof.
  intros Hg Hk. cbv zeta. unfold push. destruct (pushed _); [done|]. cbv zeta. set (m := if bool_decide _ then _ else method). destruct (_ && _); [done|].
  destruct (push_target ParseURL cfg host path) as [[authority p]|]; [|done]. destruct (ParseRequestURI p) as [u|]; [|done].
  destruct (existsb _ header); [done|]. destruct (negb (h2CheckHeader _ header)); [done|]. destruct (negb (pushEnabled c)); [done|].
  destruct (closed c || _ || _ || _) eqn:Ec; [done|]. destruct (localDone _); [done|]. destruct (_ || (h2MaxStreamID <? _)) eqn:El; [done|].
  rewrite !orb_false_iff in Ec. destruct Ec as [[[Ec _] _] _]. rewrite orb_false_iff, Z.leb_gt, Z.ltb_ge in El. destruct El as [El1 El2].
  destruct (Begin [] (enc c)) as [e0 b0]. destruct (AppendField _ (str ":method") _ _ _) as [e1 b1]. destruct (AppendField _ (str ":scheme") _ _ _) as [e2 b2].
  destruct (AppendField _ (str ":authority") _ _ _) as [e3 b3]. destruct (AppendField _ (str ":path") _ _ _) as [e4 b4]. destruct (appendHeaderLocked _ _ e4 b4) as [e block].
  cbn [snd]. set (r := MkRequest U m _ _ _ _ _ _). set (s := no_stream <| req := Some r |> <| pushed := true |> <| remoteDone := true |> <| s_sendWindow := peerWindow c |>).
  destruct (promise_good tr H c s e i Hg Ec) as (G1 & G2 & G3); try done.
  set (c2 := put (nextPushID c) s _ <| streams := _ |> <| pushedStreams := _ |>) in *. specialize (G3 block).
  assert (Hgr : grows c c2) by (etrans; [apply (grows_put (nextPushID c) s)|by apply grows_store]).
  set (c3 := sendLocked _ c2) in *. assert (Hgr3 : grows c2 c3) by apply grows_send. set (c4 := c3 <| served := _ |>).
  assert (Hg4 : good cfg tr H c4) by (by eapply good_ext; [..|exact G3]).
  assert (Hgr4 : grows c3 c4) by by apply grows_store.
  destruct (calls_good (basic_call unicode_lower (nextPushID c)) tr H (nextPushID c) (app (nextPushID c) r) c4) as [R1 R2].
  - intros a c'. apply basic_call_good.
  - done.
  - by apply Hgr4, Hgr3.
  - split; [done|]. etrans; [exact Hgr|]. etrans; [exact Hgr3|]. by etrans.
Qed.

Lemma perform_good tr H i a c : good cfg tr H c -> known i c ->
  good cfg tr H (perform ParseRequestURI unicode_lower ParseURL cfg app i c a) /\ grows c (perform ParseRequestURI unicode_lower ParseURL cfg app i c a).
Proof. intros Hg Hk. destruct a; [by apply basic_call_good|by apply basic_call_good|by apply push_good]. Qed.

Lemma serve_good tr H i r c : good cfg tr H c -> known i c ->
  good cfg tr H (serve ParseRequestURI unicode_lower ParseURL cfg app i r c) /\ grows c (serve ParseRequestURI unicode_lower ParseURL cfg app i r c).
Proof.
  intros Hg Hk. unfold serve. set (c1 := c <| served := _ |>). assert (Hg1 : good cfg tr H c1) by (by eapply good_ext; [..|exact Hg]).
  destruct (calls_good (perform ParseRequestURI unicode_lower ParseURL cfg app i) tr H i (app i r) c1) as [R1 R2]; [|done|done|by split].
  intros a c'. apply perform_good.
Qed.
End calls.
