(* ===== verification/Http2Handle.v ===== *)
(** What arrives on an HTTP/2 server connection: every frame, whatever it holds,
    leaves a state in which the invariant holds. *)
From Stdlib Require Import String.
From S2P Require Import Prelude.
From S2P Require Import HpackTables.
From S2P Require Import Huffman.
From S2P Require Import Hpack.
From S2P Require Import GoText.
From S2P Require Import HttpServer.
From S2P Require Import HttpWriter.
From S2P Require Import Http2Frame.
From S2P Require Import Http2Server.
From S2P Require Import Http2Inv.
From S2P Require Import Http2Calls.

(** * Reasons fit into a frame *)

Lemma int_digits_len fuel base n acc : len (int_digits fuel base n acc) <= Z.of_nat fuel + len acc.
Proof.
  revert n acc. induction fuel as [|fuel IH]; intros n acc; cbn [int_digits]; [lia|]. destruct (_ =? 0); [rewrite len_cons; lia|].
  etrans; [apply IH|]. rewrite len_cons. lia.
Qed.

Lemma num_len n : len (num n) <= 64.
Proof. unfold num, FormatInt. etrans; [apply int_digits_len|]. change (len (@nil Z)) with 0. lia. Qed.

Lemma reason_num (a : bytes) n : (len a <=? 200) = true -> len (a ++ num n) <= 1000.
Proof. intros H%Z.leb_le. rewrite len_app. pose proof (num_len n). lia. Qed.

Lemma reason_text (a : bytes) : (len a <=? 200) = true -> len a <= 1000.
Proof. intros H%Z.leb_le. lia. Qed.

Section handle.
Context {U : Type}.
Abbreviation Conn := (h2ServerConn U).
Abbreviation Stream := (h2ServerStream U).
Context (ParseRequestURI : bytes -> option U) (unicode_lower : bytes -> bytes) (ParseURL : bytes -> option (bytes * bytes * bytes)).
Context (cfg : h2Config) (app : Z -> Request U -> list call).
Implicit Types (c : Conn) (s : Stream).
Abbreviation good := (good cfg).
Abbreviation core := (core cfg).

(** What is on the wire is in order, whatever else is not. *)
Definition sane (tr : Z -> option bytes) c : Prop :=
  (closed c = true -> streams c = ∅) /\
  exists fs, wire c = encs fs /\ Forall (frame_ok limit) fs /\ forall i B, tr i = Some B -> whole fs i B.

(** A stream that is to be reset may be in any state. *)
Definition but_one tr H (i : Z) c : Prop := (1 <= i < 2 ^ 31 /\ exists fs, core tr H fs [] ∅ c /\ awake {[i]} c /\ going c) \/ exists fs, ended_conn tr fs c.

Definition outcome tr H (r : Conn * option h2_error) : Prop :=
  match r with
  | (c, None) => good tr H c
  | (c, Some (H2StreamError i code)) => but_one tr H i c
  | (c, Some (H2ConnError code reason)) => sane tr c /\ len reason <= 1000
  end.

Lemma core_sane tr H fs ofs x c : core tr H fs ofs x c -> sane tr c.
Proof.
  intros Hc. split; [by rewrite (k_open _ _ _ _ _ _ _ Hc)|]. exists fs. split; [apply Hc|]. pose proof (k_ok _ _ _ _ _ _ _ Hc) as Hok. apply Forall_app in Hok as [Hok _]. split; [done|apply Hc].
Qed.

Lemma ended_sane tr fs c : ended_conn tr fs c -> sane tr c.
Proof. intros [Z1 Z2 Z3 Z4 Z5]. split; [done|]. by exists fs. Qed.

Lemma good_sane tr H c : good tr H c -> sane tr c.
Proof. intros [[[fs Hc] _]|[fs He]]; [by eapply core_sane|by eapply ended_sane]. Qed.

Lemma good_but tr H i c : good tr H c -> (closed c = false -> 1 <= i < 2 ^ 31) -> but_one tr H i c.
Proof.
  intros [[[fs Hc] [Ha Hg]]|He] Hi; [left|by right]. split; [apply Hi, Hc|]. exists fs. split_and!; [done| |done]. intros j s Hs Hl _. apply (Ha j s Hs Hl). apply not_elem_of_empty.
Qed.

Lemma sane_ext tr c c' : closed c' = closed c -> streams c' = streams c -> wire c' = wire c -> sane tr c -> sane tr c'.
Proof. intros E1 E2 E3 (H1 & fs & H2). split; [by rewrite E1, E2|]. exists fs. by rewrite E3. Qed.

(** ** Errors *)

Lemma fail_good tr H code reason c : sane tr c -> len reason <= 1000 -> good tr H (fail code reason c).
Proof.
  intros (H1 & fs & H2 & H3 & H4) Hr. right. unfold fail. destruct (closed c) eqn:Ec; [exists fs; constructor; auto|].
  rewrite append_goaway. cbn [List.app]. destruct (goaway_ok (lastStreamID c) code reason Hr) as [G1 G2]. rewrite <- encs_one, sendLocked_encs by done.
  eexists (fs ++ _). constructor; [done|done|rewrite encs_app, <- H2; done|by apply Forall_app|]. intros i B HB. by apply whole_quiet, H4.
Qed.

(** A stream that is gone leaves the others as they were. *)
Lemma forget_rest tr H fs i c : core tr H fs [] ∅ c -> awake {[i]} c -> i ∈ streams c ->
  core tr H fs [] ∅ (forgetLocked i c) /\ awake ∅ (forgetLocked i c).
Proof.
  intros Hc Ha Hl. destruct (k_live _ _ _ _ _ _ _ Hc i Hl) as [s Hs].
  assert (Hc' : core tr H fs [] ∅ (forgetLocked i c)).
  { replace (∅ : gset Z) with ((∅ : gset Z) ∖ {[i]}) by set_solver. by eapply core_forget. }
  split; [done|]. assert (O : streams (forgetLocked i c) = streams c ∖ {[i]} /\ sendWindow (forgetLocked i c) = sendWindow c /\ forall j, j <> i -> store (forgetLocked i c) !! j = store c !! j).
  { unfold forgetLocked. cbn. destruct (decide (i ∈ streams c)) as [_|]; [|done].
    destruct (pushed (get i c)); cbn; split_and!; try done; intros j Hj; by apply lookup_insert_ne. }
  destruct O as (O1 & O2 & O3). intros j t Ht Hj _ Hp. rewrite O2. assert (Hji : j <> i) by (intros ->; rewrite O1 in Hj; by apply diff_not in Hj).
  rewrite O3 in Ht by done. apply (Ha j t Ht); [rewrite O1 in Hj; by apply diff_sub in Hj|by rewrite elem_of_singleton|done].
Qed.

Lemma close_good tr H fs c : core tr H fs [] ∅ c -> awake ∅ c -> good tr H (closeFinishedLocked c).
Proof. intros Hc Ha. destruct (close_finished _ _ _ _ _ _ _ Hc) as [[-> Hg]|He]; [left; split; [by eexists|done]|by right; eexists]. Qed.

Lemma resetStream_good tr H i code c : but_one tr H i c -> good tr H (resetStream i code c).
Proof.
  intros Hb. unfold resetStream. rewrite append_reset. cbn [List.app]. rewrite <- encs_one.
  destruct Hb as [(Hi & fs & Hc & Ha & Hg)|[fs He]].
  - destruct (rst_ok i code Hi) as [R1 R2]. set (c1 := if decide _ then _ else c).
    assert (H1 : core tr H fs [] ∅ c1 /\ awake ∅ c1).
    { unfold c1. destruct (decide (i ∈ streams c)) as [Hl|Hl]; [by apply forget_rest|]. split; [done|]. intros j s Hs Hj _. apply (Ha j s Hs Hj). rewrite elem_of_singleton. by intros ->. }
    destruct H1 as [Hc1 Ha1]. clearbody c1. apply (close_good tr H (fs ++ [frame h2FrameRSTStream 0 i (be_bytes 4 code)])).
    + by apply (core_send cfg tr H fs [] ∅ c1).
    + rewrite sendLocked_encs by apply Hc1. exact Ha1.
  - rewrite decide_False by (rewrite (z_streams _ _ _ He); apply not_elem_of_empty). right. exists fs.
    rewrite sendLocked_closed by apply He. by rewrite close_closed by apply He.
Qed.

Lemma handleError_good tr H c e : outcome tr H (c, Some e) -> good tr H (handleError e c).
Proof. destruct e as [code reason|i code]; cbn; [intros [H1 H2]; by apply fail_good|apply resetStream_good]. Qed.

(** ** Requests *)

Definition sview s := (pushed s, s_recvWindow s, s_recvUnacked s, responded s, trailer s, localDone s, reset s, s_sendWindow s, pending s).

Lemma core_same tr H fs x i s s' c : core tr H fs [] x c -> store c !! i = Some s -> sview s' = sview s -> core tr H fs [] x (put i s' c).
Proof.
  intros Hc Hs Hv. unfold sview in Hv. injection Hv as E1 E2 E3 E4 E5 E6 E7 E8 E9. eapply core_put; [exact Hc|exact Hs|done| |].
  - destruct (k_streams _ _ _ _ _ _ _ Hc _ _ Hs) as [V1 V2 V3 V4 V5 V6 V7 V8]. constructor; rewrite ?E1, ?E2, ?E3, ?E4, ?E5, ?E6, ?E7, ?E8, ?E9; done.
  - intros B _. unfold tracked. by rewrite E4, E6, E7, E9.
Qed.

Lemma awake_same x i s s' c : awake x c -> store c !! i = Some s -> sview s' = sview s -> awake x (put i s' c).
Proof.
  intros Ha Hs Hv j t Hj Hl Hx Hp. unfold sview in Hv. injection Hv as _ _ _ _ _ _ _ E8 E9. rewrite stored_put in Hj. destruct (decide (j = i)) as [->|Hji].
  - rewrite lookup_insert_eq in Hj. injection Hj as <-. rewrite E8. rewrite E9 in Hp. by apply (Ha i s Hs Hl Hx).
  - rewrite lookup_insert_ne in Hj by done. by apply (Ha j t).
Qed.

Lemma good_put tr H i s s' c : good tr H c -> store c !! i = Some s -> sview s' = sview s -> good tr H (put i s' c).
Proof.
  intros [[[fs Hc] [Ha Hg]]|[fs [Z1 Z2 Z3 Z4 Z5]]] Hs Hv; [left; split; [exists fs; by eapply core_same|]; split; [by eapply awake_same|done]|]. right. exists fs. by constructor.
Qed.

Lemma reject_good tr H i status text c : good tr H c -> known i c -> good tr H (reject unicode_lower i status text c).
Proof.
  intros Hg Hk. pose proof Hk as [s Hs]. unfold reject. apply respond_kept; [|by apply grows_put]. eapply good_put; [exact Hg|exact Hs|]. by rewrite (stream_at _ _ _ Hs).
Qed.

(** A stream that is open is not done. *)
Lemma open_stream tr H i s c : good tr H c -> store c !! i = Some s -> i ∈ streams c -> localDone s = false /\ reset s = false /\ 1 <= i < 2 ^ 31.
Proof.
  intros [[[fs Hc] _]|[fs He]] Hs Hl; [|rewrite (z_streams _ _ _ He) in Hl; by apply not_elem_of_empty in Hl].
  destruct (k_streams _ _ _ _ _ _ _ Hc _ _ Hs) as [V1 V2 V3 V4 V5 V6 V7 V8]. destruct (V7 Hl (not_elem_of_empty i)). done.
Qed.

Lemma known_live tr H i c : good tr H c -> i ∈ streams c -> known i c.
Proof. intros [[[fs Hc] _]|[fs He]] Hl; [by apply (k_live _ _ _ _ _ _ _ Hc)|]. rewrite (z_streams _ _ _ He) in Hl. by apply not_elem_of_empty in Hl. Qed.

Abbreviation finishRequest := (finishRequest ParseRequestURI unicode_lower ParseURL cfg app).

Lemma finishRequest_good tr H i c : good tr H c -> i ∈ streams c -> outcome tr H (finishRequest i c).
Proof.
  intros Hg Hl. destruct (known_live _ _ _ _ Hg Hl) as [s Hs]. destruct (open_stream _ _ _ _ _ Hg Hs Hl) as (Hd & Hr & Hi).
  unfold Http2Server.finishRequest. rewrite (stream_at _ _ _ Hs). destruct (_ && _); [by apply good_but|]. rewrite Hd.
  set (s1 := s <| remoteDone := true |>). assert (Hg1 : good tr H (put i s1 c)) by by eapply good_put.
  destruct (req s) as [r|]; [|done]. cbn [outcome]. rewrite stream_put, puts_put. apply serve_good; [|by eexists; apply lookup_insert_eq]. by eapply good_put.
Qed.

Abbreviation handleTrailers := (handleTrailers ParseRequestURI unicode_lower ParseURL cfg app).

Lemma handleTrailers_good tr H i fs endStream large c : good tr H c -> i ∈ streams c -> outcome tr H (handleTrailers i fs endStream large c).
Proof.
  intros Hg Hl. destruct (known_live _ _ _ _ Hg Hl) as [s Hs]. destruct (open_stream _ _ _ _ _ Hg Hs Hl) as (Hd & Hr & Hi).
  assert (He : forall code, outcome tr H (c, Some (H2StreamError i code))) by (intros code; by apply good_but).
  unfold Http2Server.handleTrailers. rewrite (stream_at _ _ _ Hs). destruct (remoteDone s); [apply He|]. destruct (req s) as [r|]; [|apply He].
  destruct (negb endStream); [apply He|]. destruct large; [apply reject_good; [done|by eexists]|]. destruct (trailer_loop fs ∅) as [h|]; [|apply He].
  apply finishRequest_good; [by eapply good_put|done].
Qed.

Abbreviation open_request := (open_request ParseRequestURI unicode_lower ParseURL cfg app).

Lemma open_request_good tr H i fs endStream c : good tr H c -> i ∈ streams c -> outcome tr H (open_request i fs endStream c).
Proof.
  intros Hg Hl. destruct (known_live _ _ _ _ Hg Hl) as [s Hs]. destruct (open_stream _ _ _ _ _ Hg Hs Hl) as (_ & _ & Hi).
  unfold Http2Server.open_request. destruct (newRequest ParseRequestURI fs) as [r|]; [|by apply good_but].
  rewrite (stream_at _ _ _ Hs). set (s1 := s <| req := Some r |>). set (c1 := put i s1 c).
  assert (Hg1 : good tr H c1) by by eapply good_put. assert (Hs1 : store c1 !! i = Some s1) by apply lookup_insert_eq.
  assert (Hgo : forall c', good tr H c' -> i ∈ streams c' -> outcome tr H (continue_request ParseRequestURI unicode_lower ParseURL cfg app i r endStream c')).
  { intros c' Hg' Hl'. unfold continue_request. destruct endStream; [by apply finishRequest_good|]. destruct (EqualFold _ _); [|done]. cbn [outcome]. apply writeInterim_good; [done|by eapply known_live]. }
  destruct (announced r) as [[n|]|]; [|by apply Hgo|by apply good_but].
  destruct (_ <? n); [apply reject_good; [done|by eexists]|]. apply Hgo; [|done]. rewrite (stream_at _ _ _ Hs1). by eapply good_put.
Qed.

(** ** Header blocks *)

(** The client has opened a stream, or skipped some. *)
Lemma good_max tr H i c : good tr H c -> maxClientID c <= i < 2 ^ 31 -> good tr H (c <| maxClientID := i |>).
Proof.
  intros [[[fs Hc] [Ha Hg]]|[fs [Z1 Z2 Z3 Z4 Z5]]] Hi; [|right; exists fs; by constructor]. left. split; [|done]. exists fs.
  assert (Hid : forall j, idle j (c <| maxClientID := i |>) -> idle j c).
  { intros j. unfold idle, idleLocked. cbn. destruct (j mod 2 =? 0); [done|]. rewrite !Z.ltb_lt. lia. }
  destruct Hc as [K1 K2 K3 K4 K5 K6 K7 K8 K9 K10 K11 K12 K13 K14 K15 K16]. constructor; cbn; try done.
  - intros j s Hs. destruct (K7 j s Hs) as [H1 H2]. split; [|done]. intros Hx. by apply H1, Hid.
  - intros j Hj. by apply K9, Hid.
  - destruct K15. split; [lia|tauto].
Qed.

Lemma good_cont tr H i c : good tr H c -> 0 <= i < 2 ^ 31 -> (i <> 0 -> i mod 2 = 1) -> good tr H (c <| contStream := i |>).
Proof.
  intros [[[fs Hc] [Ha Hg]]|[fs [Z1 Z2 Z3 Z4 Z5]]] Hi Ho; [|right; exists fs; by constructor]. left. split; [|done]. exists fs.
  destruct Hc as [K1 K2 K3 K4 K5 K6 K7 K8 K9 K10 K11 K12 K13 K14 K15 K16]. constructor; cbn; try done. tauto.
Qed.

Lemma size_parts (X : gset Z) : base.size X = (base.size (evens X) + base.size (odds X))%nat.
Proof.
  rewrite <- size_union by (unfold evens, odds; intros j; rewrite !elem_of_filter; lia). f_equal. apply set_eq. intros j. unfold evens, odds.
  rewrite elem_of_union, !elem_of_filter. pose proof (Z.mod_pos_bound j 2 ltac:(lia)). split; [|tauto]. intros Hj. assert (j mod 2 = 0 \/ j mod 2 = 1) by lia. tauto.
Qed.

Context (cfg_ok : 0 <= MaxConcurrentStreams cfg < 2 ^ 32).

Lemma maxStreams_range : 0 <= maxStreams cfg < 2 ^ 32.
Proof. unfold maxStreams, DefaultMaxConcurrentStreams. destruct (_ =? 0); lia. Qed.

(** The number of streams the client has open, as it is computed. *)
Lemma client_count tr H fs x c : core tr H fs [] x c -> u32 (u32 (Z.of_nat (base.size (streams c))) - pushedStreams c) = Z.of_nat (base.size (odds (streams c))).
Proof.
  intros Hc. destruct (k_pushed _ _ _ _ _ _ _ Hc) as [-> _]. pose proof (k_clients _ _ _ _ _ _ _ Hc). pose proof maxStreams_range.
  unfold u32. rewrite Zminus_mod_idemp_l, size_parts, Nat2Z.inj_add. rewrite Z.mod_small; lia.
Qed.

Lemma open_good tr H i c : good tr H c -> closed c = false -> maxClientID c < i < 2 ^ 31 -> i mod 2 = 1 ->
  u32 (u32 (Z.of_nat (base.size (streams c))) - pushedStreams c) < maxStreams cfg ->
  let c1 := c <| maxClientID := i |> in let c2 := put i (fresh_stream c1) c1 <| streams := {[i]} ∪ streams c1 |> <| lastStreamID := i |> in
  good tr H c2 /\ i ∈ streams c2.
Proof.
  intros [[[fs Hc] [Ha Hg]]|[fs He]] Hcl Hi Ho Hn c1 c2; [|rewrite (z_closed _ _ _ He) in Hcl; done].
  assert (Hidle : idle i c) by (unfold idle, idleLocked; rewrite Ho; apply Z.ltb_lt; lia).
  assert (Hnl : i ∉ streams c) by (intros Hl; apply (k_live _ _ _ _ _ _ _ Hc) in Hl as [t Ht]; rewrite (idle_new _ _ _ _ _ _ _ _ Hc Hidle) in Ht; done).
  destruct (odds_new (streams c) i Hnl Ho) as [S1 S2]. rewrite (client_count _ _ _ _ _ Hc) in Hn. pose proof (k_max _ _ _ _ _ _ _ Hc) as (M1 & M2 & M3).
  assert (Hb : blank_stream c (fresh_stream c1)) by (split; [done|intros _; done]).
  split; [|change (i ∈ {[i]} ∪ streams c); apply elem_of_union; left; by apply elem_of_singleton]. left.
  destruct (open_rest i (fresh_stream c1) c c2 Ha Hb eq_refl eq_refl eq_refl) as [Ha2 Hg2]. split; [|done]. exists fs.
  apply (core_open cfg tr H fs i (fresh_stream c1) c c2); try done.
  - lia.
  - split; [done|lia].
  - intros j. unfold idle, idleLocked. cbn. destruct (j mod 2 =? 0); [done|]. rewrite !Z.ltb_lt. lia.
  - unfold idle, idleLocked. cbn. rewrite Ho. cbn. rewrite Z.ltb_lt. lia.
  - split; apply (k_push _ _ _ _ _ _ _ Hc).
  - cbn. rewrite S2. apply Hc.
  - cbn. rewrite S1. lia.
  - cbn. lia.
Qed.

Abbreviation handleHeaderBlock := (handleHeaderBlock ParseRequestURI unicode_lower ParseURL cfg app).

Lemma handleHeaderBlock_good tr H i block endStream c : good tr H c -> (closed c = false -> 1 <= i < 2 ^ 31 /\ i mod 2 = 1) -> outcome tr H (handleHeaderBlock i block endStream c).
Proof.
  intros Hg Hi. unfold Http2Server.handleHeaderBlock. destruct (Decode _ _ _ _) as [[[d [[fs sz] large]] en]|]; [|done]. cbv zeta.
  set (c1 := c <| dec := d |>). assert (Hg1 : good tr H c1) by (by eapply good_ext; [..|exact Hg]). change (closed c) with (closed c1) in Hi. clearbody c1. clear Hg c.
  destruct en as [|e|[]]; [|split; [by eapply good_sane|apply reason_text; by destruct e]]. unfold handle_fields.
  destruct (decide (i ∈ streams c1)) as [Hl|Hl]; [by apply handleTrailers_good|]. destruct (Z.leb_spec i (maxClientID c1)) as [|Hmax]; [done|].
  change (closed (c1 <| maxClientID := i |>)) with (closed c1). destruct (closed c1) eqn:Ec; cbn [orb].
  { destruct Hg1 as [[[fs' Hc] _]|[fs' [Z1 Z2 Z3 Z4 Z5]]]; [by rewrite (k_open _ _ _ _ _ _ _ Hc) in Ec|]. right. exists fs'. by constructor. }
  destruct (Hi eq_refl) as [Hi' Ho]. assert (Hg2 : good tr H (c1 <| maxClientID := i |>)) by (apply good_max; [done|lia]).
  destruct (_ || _); [done|]. set (c2 := c1 <| maxClientID := i |>) in *.
  destruct (Z.leb_spec (maxStreams cfg) (u32 (u32 (Z.of_nat (base.size (streams c2))) - pushedStreams c2))) as [Hm|Hm].
  { by apply good_but. }
  destruct (open_good tr H i c1 Hg1 Ec ltac:(lia) Ho Hm) as [Hg3 Hl3]. set (c3 := put i _ _ <| streams := _ |> <| lastStreamID := i |>) in *.
  destruct large; [apply reject_good; [done|by eapply known_live]|by apply open_request_good].
Qed.

(** What [h2ReadFrame] gives. *)
Definition frame_in (f : h2Frame) : Prop := 0 <= streamID f < 2 ^ 31 /\ 0 <= flen f < 2 ^ 24 /\ bytes_ok (payload f).

Lemma odd_pos i : 0 <= i < 2 ^ 31 -> (i =? 0) || (i mod 2 =? 0) = false -> 1 <= i < 2 ^ 31 /\ i mod 2 = 1.
Proof. intros Hi [H1%Z.eqb_neq H2%Z.eqb_neq]%orb_false_iff. pose proof (Z.mod_pos_bound i 2). lia. Qed.

Lemma handleHeaders_good tr H f c : good tr H c -> frame_in f -> outcome tr H (handleHeaders ParseRequestURI unicode_lower ParseURL cfg app f c).
Proof.
  intros Hg [Hi _]. unfold handleHeaders. destruct (_ || _) eqn:E; [split; [by eapply good_sane|by apply reason_num]|]. destruct (odd_pos _ Hi E) as [Hi' Ho].
  assert (Hgo : forall block, outcome tr H
    (if negb (has f h2FlagEndHeaders) then
       if MaxHeaderBytes cfg <? len block then (c, Some (H2ConnError H2EnhanceYourCalm (str "header block too large")))
       else (c <| contStream := streamID f |> <| contEndStream := has f h2FlagEndStream |> <| contBlock := block |>, None)
     else handleHeaderBlock (streamID f) block (has f h2FlagEndStream) c)).
  { intros block. destruct (negb _); [|by apply handleHeaderBlock_good]. destruct (_ <? _); [split; [by eapply good_sane|by apply reason_text]|].
    cbn [outcome]. apply (good_ext cfg tr H (c <| contStream := streamID f |>)); [done|done|done|]. by apply good_cont. }
  destruct (has f h2FlagPriority); [|apply Hgo]. destruct (_ <? 5); [split; [by eapply good_sane|by apply reason_text]|].
  clear E. destruct (_ =? _); [by apply good_but|apply Hgo].
Qed.

Lemma handleContinuation_good tr H f c : good tr H c -> outcome tr H (handleContinuation ParseRequestURI unicode_lower ParseURL cfg app f c).
Proof.
  intros Hg. unfold handleContinuation. destruct (Z.eqb_spec (contStream c) 0) as [|Hn]; [split; [by eapply good_sane|by apply reason_text]|].
  cbv zeta. set (c1 := c <| contBlock := _ |>). assert (Hg1 : good tr H c1) by (by eapply good_ext; [..|exact Hg]).
  change (contStream c) with (contStream c1) in Hn. clearbody c1. clear Hg c.
  destruct (_ <? _); [split; [by eapply good_sane|by apply reason_text]|]. destruct (negb _); [done|].
  apply handleHeaderBlock_good; [apply good_cont; [done|lia|done]|]. intros Hcl.
  destruct Hg1 as [[[fs Hc] _]|[fs He]]; [|change (closed c1 = false) in Hcl; rewrite (z_closed _ _ _ He) in Hcl; done].
  destruct (k_max _ _ _ _ _ _ _ Hc) as (_ & _ & M3 & M4). split; [lia|by apply M4].
Qed.

(** ** DATA *)

Lemma window_ok i n : 0 <= i < 2 ^ 31 -> Forall (frame_ok limit) [frame h2FrameWindowUpdate 0 i (be_bytes 4 (Z.land n 0x7fffffff))] /\
  Forall quiet [frame h2FrameWindowUpdate 0 i (be_bytes 4 (Z.land n 0x7fffffff))].
Proof. intros Hi. rewrite !Forall_singleton. split; [|done]. apply frame_ok_mk; [done|done|lia|by rewrite be_bytes_len|done]. Qed.

Lemma good_window tr H i n c : good tr H c -> 0 <= i < 2 ^ 31 -> good tr H (sendLocked (h2AppendWindowUpdate [] i n) c).
Proof. intros Hg Hi. rewrite append_window. cbn [List.app]. rewrite <- encs_one. destruct (window_ok i n Hi). by apply good_send. Qed.

(** The connection's window for what arrives. *)
Lemma good_received tr H n c : good tr H c -> 0 <= n -> (closed c = false -> n <= recvWindow c) ->
  let c1 := c <| recvWindow := recvWindow c - n |> <| recvUnacked := recvUnacked c + n |> in
  good tr H (if h2ConnWindow / 2 <=? recvUnacked c1
             then sendLocked (h2AppendWindowUpdate [] 0 (u32 (recvUnacked c1))) (c1 <| recvWindow := recvWindow c1 + recvUnacked c1 |> <| recvUnacked := 0 |>)
             else c1).
Proof.
  intros Hg Hn Hw c1.
  assert (Hx : forall rw ru, (closed c = false -> rw + ru = h2ConnWindow /\ 0 <= ru < h2ConnWindow / 2) -> good tr H (c1 <| recvWindow := rw |> <| recvUnacked := ru |>)).
  { intros rw ru Hr. destruct Hg as [[[fs [K1 K2 K3 K4 K5 K6 K7 K8 K9 K10 K11 K12 K13 K14 K15 K16]] [Ha Hg]]|[fs [Z1 Z2 Z3 Z4 Z5]]]; [|right; exists fs; by constructor].
    left. split; [|done]. exists fs. constructor; cbn; try done. by apply Hr. }
  assert (Hold : closed c = false -> recvWindow c + recvUnacked c = h2ConnWindow /\ 0 <= recvUnacked c < h2ConnWindow / 2).
  { intros Hcl. destruct Hg as [[[fs Hc] _]|[fs He]]; [apply Hc|rewrite (z_closed _ _ _ He) in Hcl; done]. }
  destruct (Z.leb_spec (h2ConnWindow / 2) (recvUnacked c1)) as [Hu|Hu].
  - apply good_window; [|lia]. apply Hx. intros Hcl. destruct (Hold Hcl). cbn. split; [lia|]. split; [lia|]. by vm_compute.
  - change c1 with (c1 <| recvWindow := recvWindow c1 |> <| recvUnacked := recvUnacked c1 |>). apply Hx. intros Hcl. destruct (Hold Hcl). cbn in *. lia.
Qed.

(** A stream's window for what arrives. *)
Lemma good_stream_received tr H i s s' c : good tr H c -> store c !! i = Some s ->
  (pushed s', responded s', trailer s', localDone s', reset s', s_sendWindow s', pending s') = (pushed s, responded s, trailer s, localDone s, reset s, s_sendWindow s, pending s) ->
  s_recvWindow s' + s_recvUnacked s' = s_recvWindow s + s_recvUnacked s -> (pushed s = false -> 0 <= s_recvUnacked s' <= h2StreamWindow) -> good tr H (put i s' c).
Proof.
  intros Hg Hs Hsame Hsum Hr. injection Hsame as E1 E4 E5 E6 E7 E8 E9.
  destruct Hg as [[[fs Hc] [Ha Hg]]|[fs [Z1 Z2 Z3 Z4 Z5]]]; [|right; exists fs; by constructor]. left. split; [exists fs|split; [|done]].
  - eapply core_put; [exact Hc|exact Hs|done| |].
    + destruct (k_streams _ _ _ _ _ _ _ Hc _ _ Hs) as [V1 V2 V3 V4 V5 V6 V7 V8]. constructor; rewrite ?E1, ?E4, ?E5, ?E6, ?E7, ?E8, ?E9, ?Hsum; try done.
      intros Hp. destruct (V5 Hp). split; [done|by apply Hr].
    + intros B _. unfold tracked. by rewrite E4, E6, E7, E9.
  - intros j t Hj Hl Hx Hp. rewrite stored_put in Hj. destruct (decide (j = i)) as [->|Hji].
    + rewrite lookup_insert_eq in Hj. injection Hj as <-. rewrite E8. rewrite E9 in Hp. by apply (Ha i s Hs Hl Hx).
    + rewrite lookup_insert_ne in Hj by done. by apply (Ha j t).
Qed.

(** What holds of the window of an open stream. *)
Lemma stream_window tr H i s c : good tr H c -> store c !! i = Some s -> i ∈ streams c -> i mod 2 = 1 ->
  s_recvWindow s + s_recvUnacked s = h2StreamWindow /\ 0 <= s_recvUnacked s.
Proof.
  intros [[[fs Hc] _]|[fs He]] Hs Hl Ho; [|rewrite (z_streams _ _ _ He) in Hl; by apply not_elem_of_empty in Hl].
  destruct (k_ids _ _ _ _ _ _ _ Hc _ _ Hs) as [_ Hp]. assert (pushed s = false) by (destruct (pushed s); [|done]; exfalso; pose proof (proj1 Hp eq_refl); lia).
  destruct (v_recv _ _ _ _ _ _ _ (k_streams _ _ _ _ _ _ _ Hc _ _ Hs)); [done|lia].
Qed.

Lemma handleData_good tr H f c : good tr H c -> frame_in f -> outcome tr H (handleData ParseRequestURI unicode_lower ParseURL cfg app f c).
Proof.
  intros Hg (Hi & Hn & _). unfold handleData. destruct (Z.eqb_spec (streamID f) 0); [split; [by eapply good_sane|by apply reason_text]|].
  destruct (Z.ltb_spec (recvWindow c) (flen f)) as [|Hw]; [split; [by eapply good_sane|by apply reason_text]|]. cbv zeta.
  pose proof (good_received tr H (flen f) c Hg ltac:(lia) ltac:(done)) as Hg2. cbv zeta in Hg2.
  set (c1 := c <| recvWindow := _ |> <| recvUnacked := _ |>) in *.
  assert (Hsane : sane tr c1) by (apply (sane_ext tr c); [done|done|done|by eapply good_sane]).
  destruct (Z.eqb_spec (streamID f mod 2) 0) as [|Ho]; [split; [done|by apply reason_num]|].
  destruct (_ <? _); [split; [done|by apply reason_num]|]. set (c2 := if h2ConnWindow / 2 <=? _ then _ else c1) in *. clearbody c2. clear c1 Hsane Hg Hw c.
  destruct (decide (streamID f ∈ streams c2)) as [Hl|]; [|done]. assert (Ho1 : streamID f mod 2 = 1) by (pose proof (Z.mod_pos_bound (streamID f) 2); lia).
  destruct (known_live _ _ _ _ Hg2 Hl) as [s Hs]. destruct (open_stream _ _ _ _ _ Hg2 Hs Hl) as (_ & _ & Hi'). rewrite (stream_at _ _ _ Hs).
  destruct (stream_window _ _ _ _ _ Hg2 Hs Hl Ho1) as [W1 W2].
  destruct (remoteDone s); [by apply good_but|]. destruct (Z.ltb_spec (s_recvWindow s) (flen f)) as [|Hsw]; [by apply good_but|].
  set (s1 := s <| s_recvWindow := _ |> <| s_recvUnacked := _ |>).
  assert (Hput : forall s', (pushed s', responded s', trailer s', localDone s', reset s', s_sendWindow s', pending s') = (pushed s, responded s, trailer s, localDone s, reset s, s_sendWindow s, pending s) ->
    s_recvWindow s' + s_recvUnacked s' = h2StreamWindow -> 0 <= s_recvUnacked s' <= h2StreamWindow -> good tr H (put (streamID f) s' c2)).
  { intros s' E1 E2 E3. eapply good_stream_received; [exact Hg2|exact Hs|exact E1|lia|done]. }
  destruct (_ <? len (body s1) + _); [apply reject_good; [apply Hput; cbn; [done|lia|lia]|by eexists; apply lookup_insert_eq]|].
  set (s2 := s1 <| body := _ |>). destruct (has f h2FlagEndStream).
  - apply finishRequest_good; [apply Hput; cbn; [done|lia|lia]|done].
  - destruct (_ <=? _); [|apply Hput; cbn; [done|lia|lia]]. apply good_window; [|lia]. apply Hput; cbn; [done|lia|].
    split; [lia|]. by vm_compute.
Qed.
End handle.
