(* ===== verification/Http2Control.v ===== *)
(** The other frames that arrive on an HTTP/2 server connection, the choice
    between them, and the loop that reads them: the invariant holds at every point. *)
From Stdlib Require Import String.
From S2P Require Import Prelude.
From S2P Require Import HpackTables.
From S2P Require Import Huffman.
From S2P Require Import Hpack.
From S2P Require Import GoText.
From S2P Require Import HttpServer.
From S2P Require Import HttpWriter.
From S2P Require Import Http2Frame.
From S2P Require Import Http2Server.
From S2P Require Import Http2Inv.
From S2P Require Import Http2Calls.
From S2P Require Import Http2Handle.

(** * What a frame grants *)

Definition allows (i : Z) (f : h2Frame) : bool := (typ f =? h2FrameWindowUpdate) && (streamID f =? i) && (len (payload f) =? 4).

Lemma grants_snoc i H f : grants i (H ++ [f]) = grants i H + (if allows i f then increment f else 0).
Proof. rewrite grants_app. unfold grants at 2. cbn. unfold allows. lia. Qed.

Section control.
Context {U : Type}.
Abbreviation Conn := (h2ServerConn U).
Abbreviation Stream := (h2ServerStream U).
Context (ParseRequestURI : bytes -> option U) (unicode_lower : bytes -> bytes) (ParseURL : bytes -> option (bytes * bytes * bytes)).
Context (cfg : h2Config) (range : Conn -> list Z) (range_ok : forall c, range c ≡ₚ elements (streams c)) (app : Z -> Request U -> list call).
Implicit Types (c : Conn) (s : Stream).
Abbreviation good := (good cfg).
Abbreviation core := (core cfg).

(** A frame that grants nothing to what is open, or may be opened. *)
Lemma core_hist tr H H' fs ofs x c : core tr H fs ofs x c -> (forall j, j ∈ streams c \/ j = 0 \/ idle j c -> grants j H' = grants j H) -> core tr H' fs ofs x c.
Proof.
  intros [K1 K2 K3 K4 K5 K6 K7 K8 K9 K10 K11 K12 K13 K14 K15 K16] Hh. constructor; try done.
  - rewrite Hh by auto. done.
  - intros i s Hs. destruct (K5 i s Hs) as [V1 V2 V3 V4 V5 V6 V7 V8]. constructor; try done. intros Hl. rewrite Hh by auto. by apply V6.
  - intros i Hi Hn. rewrite Hh by auto. by apply K9.
Qed.

Lemma good_hist tr H H' c : good tr H c -> (closed c = false -> forall j, j ∈ streams c \/ j = 0 \/ idle j c -> grants j H' = grants j H) -> good tr H' c.
Proof.
  intros [[[fs Hc] Ha]|He] Hh; [left|by right]. split; [|done]. exists fs. eapply core_hist; [exact Hc|]. apply Hh, Hc.
Qed.

Lemma good_step tr H f c : good tr H c -> typ f <> h2FrameWindowUpdate -> good tr (H ++ [f]) c.
Proof.
  intros Hg Hf. eapply good_hist; [exact Hg|]. intros _ j _. rewrite grants_snoc. unfold allows. destruct (Z.eqb_spec (typ f) h2FrameWindowUpdate); [done|]. cbn. lia.
Qed.

(** * SETTINGS *)

(** The windows of the open streams may just have changed. *)
Definition steady tr H c : Prop := (exists fs, core tr H fs [] ∅ c /\ going c) \/ exists fs, ended_conn tr fs c.

Definition applied tr H (r : Conn * option h2_error) : Prop :=
  match r with
  | (c, None) => steady tr H c
  | (c, Some (H2ConnError code reason)) => sane tr c /\ len reason <= 1000
  | (c, Some (H2StreamError _ _)) => False
  end.

Lemma good_steady tr H c : good tr H c -> steady tr H c.
Proof. intros [[[fs Hc] [_ Hg]]|He]; [left; by exists fs|by right]. Qed.

Lemma steady_sane tr H c : steady tr H c -> sane tr c.
Proof. intros [(fs & Hc & _)|[fs He]]; [by eapply core_sane|by eapply ended_sane]. Qed.

Definition shifted (delta : Z) s : Stream := s <| s_sendWindow := s_sendWindow s + delta |>.

Lemma shift_spec order delta c : NoDup order -> (forall i, i ∈ order -> is_Some (store c !! i)) ->
  exists st e, shift_windows order delta c = (c <| store := st |>, e) /\
    match e with
    | None => forall i, st !! i = (if decide (i ∈ order) then shifted delta <$> store c !! i else store c !! i)
    | Some (H2ConnError _ reason) => len reason <= 1000
    | Some _ => False
    end.
Proof.
  intros Hnd. revert c. induction Hnd as [|i order Hi Hnd IH]; intros c Hk; cbn [shift_windows].
  { exists (store c), None. split; [by destruct c|]. intros j. by rewrite decide_False by apply not_elem_of_nil. }
  destruct (Hk i ltac:(by left)) as [s Hs]. rewrite (stream_at _ _ _ Hs). change (s <| s_sendWindow := s_sendWindow s + delta |>) with (shifted delta s).
  destruct (_ <? _).
  { eexists _, _. split; [reflexivity|]. by apply reason_text. }
  destruct (IH (put i (shifted delta s) c)) as (st & e & E & He).
  { intros j Hj. rewrite stored_put. destruct (decide (j = i)) as [->|]; [by rewrite lookup_insert_eq|]. rewrite lookup_insert_ne by done. apply Hk. by right. }
  exists st, e. rewrite E. split; [done|]. destruct e as [[]|]; [done|done|]. intros j. rewrite He, stored_put. destruct (decide (j = i)) as [->|Hj].
  - rewrite decide_False by done. rewrite decide_True by by left. by rewrite lookup_insert_eq, Hs.
  - rewrite lookup_insert_ne by done. by rewrite (decide_ext (j ∈ order) (j ∈ i :: order)) by (rewrite elem_of_cons; naive_solver).
Qed.

Lemma shift_core tr H fs delta st c : core tr H fs [] ∅ c -> (forall i, st !! i = (if decide (i ∈ streams c) then shifted delta <$> store c !! i else store c !! i)) ->
  core tr H fs [] ∅ (c <| peerWindow := peerWindow c + delta |> <| store := st |>).
Proof.
  intros [K1 K2 K3 K4 K5 K6 K7 K8 K9 K10 K11 K12 K13 K14 K15 K16] Hst.
  assert (Hback : forall i s', st !! i = Some s' -> exists s, store c !! i = Some s /\ s' = if decide (i ∈ streams c) then shifted delta s else s).
  { intros i s'. rewrite Hst. destruct (decide _); [|by eexists]. rewrite fmap_Some. intros (s & Hs & ->). by exists s. }
  constructor; cbn; try done.
  - intros i s' Hs'. destruct (Hback i s' Hs') as (s & Hs & ->). destruct (K5 i s Hs) as [V1 V2 V3 V4 V5 V6 V7 V8].
    destruct (decide (i ∈ streams c)) as [Hl|Hl]; constructor; try done. intros _. cbn. specialize (V6 Hl). lia.
  - intros i Hi. destruct (K6 i Hi) as [s Hs]. rewrite Hst, decide_True, Hs by done. by eexists.
  - intros i s' Hs'. destruct (Hback i s' Hs') as (s & Hs & ->). destruct (K7 i s Hs). split; [done|]. by destruct (decide _).
  - intros i Hn. apply K8. rewrite Hst in Hn. destruct (decide _); [|done]. by apply fmap_None in Hn.
  - intros i B HB. destruct (K16 i B HB) as (s & Hs & Ht). rewrite Hst, Hs. destruct (decide _); by eexists.
Qed.

Lemma steady_ext tr H c c' : cview c = cview c' -> goAway c = goAway c' -> peerGoingAway c = peerGoingAway c' -> steady tr H c -> steady tr H c'.
Proof.
  intros Hv Hg Hp [(fs & Hc & Hgo)|[fs [Z1 Z2 Z3 Z4 Z5]]].
  - left. exists fs. split; [by eapply core_ext|]. unfold cview in Hv. injection Hv as E1 E2 E3 E4 E5 _. unfold going in *. rewrite <- E5, <- Hg, <- Hp. done.
  - right. exists fs. unfold cview in Hv. injection Hv as E1 E2 _ _ E5 _. constructor; [congruence|congruence|congruence|done|done].
Qed.

Lemma shift_steady tr H value c : steady tr H c -> applied tr H (shift_windows (range c) (value - peerWindow c) (c <| peerWindow := value |>)).
Proof.
  intros Hs. destruct (range_facts range range_ok c) as [Hnd Hin].
  destruct Hs as [(fs & Hc & Hg)|[fs He]].
  - destruct (shift_spec (range c) (value - peerWindow c) (c <| peerWindow := value |>) Hnd) as (st & e & -> & Hspec).
    { intros i Hi. apply (k_live _ _ _ _ _ _ _ Hc). by apply Hin. }
    destruct e as [[code reason|]|]; [|done|].
    + split; [|done]. apply (sane_ext tr c); [done..|]. by eapply core_sane.
    + left. exists fs. split; [|done].
      pose proof (shift_core tr H fs (value - peerWindow c) st c Hc) as Hx. rewrite Zplus_minus in Hx. apply Hx.
      intros i. rewrite Hspec. cbn. destruct (decide (i ∈ range c)) as [Hi|Hi].
      * by rewrite decide_True by by apply Hin.
      * rewrite decide_False; [done|]. intros Hl. by apply Hi, Hin.
  - assert (E : range c = []). { apply Permutation_nil_r. rewrite range_ok, (z_streams _ _ _ He). by rewrite elements_empty. }
    rewrite E. right. exists fs. destruct He as [Z1 Z2 Z3 Z4 Z5]. by constructor.
Qed.

Lemma apply_setting_steady tr H id value c : steady tr H c -> 0 <= value < 2 ^ 32 -> applied tr H (apply_setting range id value c).
Proof.
  intros Hs Hv. assert (Hsane := steady_sane _ _ _ Hs). unfold apply_setting.
  destruct (id =? h2SettingHeaderTableSize); [by eapply steady_ext; [..|exact Hs]|].
  destruct (id =? h2SettingEnablePush); [destruct (1 <? value); [split; [done|by apply reason_num]|by eapply steady_ext; [..|exact Hs]]|].
  destruct (id =? h2SettingMaxConcurrentStreams).
  { destruct Hs as [(fs & [K1 K2 K3 K4 K5 K6 K7 K8 K9 K10 K11 K12 K13 K14 K15 K16] & Hg)|[fs [Z1 Z2 Z3 Z4 Z5]]]; [left|right]; exists fs; [split; [|done]|]; constructor; cbn; try done. tauto. }
  destruct (id =? h2SettingInitialWindowSize); [destruct (h2MaxWindow <? value); [split; [done|by apply reason_num]|by apply shift_steady]|].
  destruct (id =? h2SettingMaxFrameSize); [|done].
  destruct (Z.ltb_spec value h2DefaultMaxFrameSize); cbn [orb]; [split; [done|by apply reason_num]|]. destruct (Z.ltb_spec h2MaxFrameSizeLimit value); [split; [done|by apply reason_num]|].
  destruct Hs as [(fs & [K1 K2 K3 K4 K5 K6 K7 K8 K9 K10 K11 K12 K13 K14 K15 K16] & Hg)|[fs [Z1 Z2 Z3 Z4 Z5]]]; [left|right]; exists fs; [split; [|done]|]; constructor; cbn; try done.
Qed.

Lemma four_bytes (l : bytes) : bytes_ok l -> 0 <= be_val (take 4 l) < 2 ^ 32.
Proof.
  intros Hl. pose proof (be_val_range (take 4 l) ltac:(by apply Forall_take)) as [H1 H2]. split; [done|]. eapply Z.lt_le_trans; [exact H2|]. change (2 ^ 32) with (256 ^ 4).
  apply Z.pow_le_mono_r; [lia|]. unfold len. rewrite length_take. lia.
Qed.

Lemma applySettings_steady tr H payload c : steady tr H c -> bytes_ok payload -> applied tr H (applySettingsLocked range payload c).
Proof.
  intros Hs Hb. unfold applySettingsLocked, h2ParseSettings. destruct (negb _); [split; [by eapply steady_sane|by apply reason_num]|].
  generalize (length payload) as fuel. intros fuel. revert payload c Hs Hb. induction fuel as [|fuel IH]; intros p c Hs Hb; [done|]. cbn [settings_loop]. destruct p as [|b p]; [done|].
  pose proof (apply_setting_steady tr H (be_val (take 2 (b :: p))) (be_val (take 4 (drop 2 (b :: p)))) c Hs ltac:(by apply four_bytes, Forall_drop)) as Ha.
  destruct (apply_setting _ _ _ _) as [c1 [e|]]; [done|]. apply IH; [done|by apply Forall_drop].
Qed.

(** Whatever changed, everything that may be sent is. *)
Lemma flush_steady tr H ofs c : steady tr H c -> Forall quiet ofs -> Forall (frame_ok limit) ofs -> good tr H (flush_all unicode_lower range (encs ofs) c).
Proof.
  intros [(fs & Hc & Hg)|[fs He]] Hq Hok.
  - apply (flush_all_good cfg unicode_lower range range_ok tr H fs ofs); [|done]. by apply (core_collect cfg tr H fs [] ofs).
  - right. exists fs. unfold flush_all, flushLocked. assert (E : range c = []). { apply Permutation_nil_r. rewrite range_ok, (z_streams _ _ _ He). by rewrite elements_empty. }
    rewrite E. cbn [flush_streams]. rewrite sendLocked_closed by apply He. by rewrite close_closed by apply He.
Qed.

Lemma handleSettings_good tr H f c : good tr H c -> frame_in f -> outcome cfg tr H (handleSettings unicode_lower range f c).
Proof.
  intros Hg (_ & _ & Hb). unfold handleSettings. destruct (negb (_ =? _)); [split; [by eapply good_sane|by apply reason_num]|].
  destruct (has f h2FlagAck); [destruct (negb _); [split; [by eapply good_sane|by apply reason_text]|done]|].
  pose proof (applySettings_steady tr H (payload f) c (good_steady _ _ _ Hg) Hb) as Ha. destruct (applySettingsLocked _ _ _) as [c1 [[code reason|]|]]; [done|done|].
  change (h2AppendFrameHeader [] h2FrameSettings h2FlagAck 0 0) with (encs [frame h2FrameSettings h2FlagAck 0 []]). apply flush_steady; [done|by rewrite Forall_singleton|].
  rewrite Forall_singleton. by apply frame_ok_mk.
Qed.

(** * WINDOW_UPDATE *)

(** The connection's window has grown. *)
Lemma core_granted tr H f fs c : core tr H fs [] ∅ c -> allows 0 f = true -> 0 <= increment f -> core tr (H ++ [f]) fs [] ∅ (c <| sendWindow := sendWindow c + increment f |>).
Proof.
  intros [K1 K2 K3 K4 K5 K6 K7 K8 K9 K10 K11 K12 K13 K14 K15 K16] Hf Hi.
  assert (Hz : forall j, j <> 0 -> grants j (H ++ [f]) = grants j H).
  { intros j Hj. rewrite grants_snoc. unfold allows in *. destruct (Z.eqb_spec (streamID f) j); [|rewrite andb_false_r; cbn; lia].
    destruct (Z.eqb_spec (streamID f) 0); [lia|]. rewrite andb_false_r in Hf. done. }
  constructor; cbn; try done.
  - rewrite grants_snoc, Hf. lia.
  - intros i s Hs. destruct (K5 i s Hs) as [V1 V2 V3 V4 V5 V6 V7 V8]. constructor; try done. rewrite Hz by lia. done.
  - intros i Hid Hn. rewrite Hz by done. by apply K9.
Qed.

(** An open stream's window has grown. *)
Lemma core_stream_granted tr H f fs i s c : core tr H fs [] ∅ c -> store c !! i = Some s -> i ∈ streams c -> allows i f = true ->
  core tr (H ++ [f]) fs [] ∅ (put i (shifted (increment f) s) c).
Proof.
  intros Hc Hs Hl Hf. destruct (k_ids _ _ _ _ _ _ _ Hc _ _ Hs) as [Hni _]. pose proof (v_id _ _ _ _ _ _ _ (k_streams _ _ _ _ _ _ _ Hc _ _ Hs)) as Hi.
  assert (Hz : forall j, j <> i -> grants j (H ++ [f]) = grants j H).
  { intros j Hj. rewrite grants_snoc. unfold allows in *. destruct (Z.eqb_spec (streamID f) j); [|rewrite andb_false_r; cbn; lia].
    destruct (Z.eqb_spec (streamID f) i); [lia|]. rewrite andb_false_r in Hf. done. }
  destruct Hc as [K1 K2 K3 K4 K5 K6 K7 K8 K9 K10 K11 K12 K13 K14 K15 K16]. constructor; cbn; try done.
  - rewrite Hz by lia. done.
  - intros j t. destruct (decide (j = i)) as [->|Hj].
    + rewrite lookup_insert_eq. intros [= <-]. destruct (K5 i s Hs) as [V1 V2 V3 V4 V5 V6 V7 V8]. constructor; try done. intros _. rewrite grants_snoc, Hf. cbn. specialize (V6 Hl). lia.
    + rewrite lookup_insert_ne by done. intros Ht. destruct (K5 j t Ht) as [V1 V2 V3 V4 V5 V6 V7 V8]. constructor; try done. by rewrite Hz by done.
  - intros j Hj. rewrite lookup_insert_is_Some. destruct (decide (i = j)); [by left|]. right. split; [done|by apply K6].
  - intros j t. destruct (decide (j = i)) as [->|Hj]; [rewrite lookup_insert_eq; intros [= <-]; apply (K7 i s Hs)|]. rewrite lookup_insert_ne by done. apply K7.
  - intros j. destruct (decide (j = i)) as [->|Hj]; [by rewrite lookup_insert_eq|]. rewrite lookup_insert_ne by done. apply K8.
  - intros j Hid Hn. rewrite Hz; [by apply K9|]. by intros ->.
  - intros j B HB. destruct (K16 j B HB) as (t & Ht & Htr). destruct (decide (j = i)) as [->|Hj].
    + exists (shifted (increment f) s). rewrite lookup_insert_eq. split; [done|]. rewrite Hs in Ht. by injection Ht as <-.
    + exists t. by rewrite lookup_insert_ne by done.
Qed.

Lemma increment_range f : bytes_ok (payload f) -> 0 <= increment f.
Proof. intros Hb. unfold increment. apply Z.land_nonneg. right. lia. Qed.

Lemma handleWindowUpdate_good tr H f c : good tr H c -> frame_in f -> typ f = h2FrameWindowUpdate -> outcome cfg tr (H ++ [f]) (handleWindowUpdate unicode_lower range f c).
Proof.
  intros Hg (Hi & _ & Hb) Ht. pose proof (good_sane _ _ _ _ Hg) as Hsane. unfold handleWindowUpdate. destruct (Z.eqb_spec (len (payload f)) 4) as [Hl4|Hl4]; cbn [negb]; [|split; [done|by apply reason_num]].
  change (Z.land (be_val (payload f)) 2147483647) with (increment f). cbv zeta. pose proof (increment_range f Hb) as Hinc.
  assert (Hal : forall j, allows j f = (streamID f =? j)) by (intros j; unfold allows; rewrite Ht, Hl4, andb_true_r; done).
  destruct (Z.eqb_spec (streamID f) 0) as [H0|H0].
  { destruct (increment f =? 0); [split; [done|by apply reason_text]|]. destruct (_ <? _); [split; [|by apply reason_text]; by apply (sane_ext tr c)|].
    cbn [outcome]. change (@nil Z) with (encs []). apply flush_steady; [|done|done]. destruct Hg as [[[fs Hc] [_ Hg]]|[fs [Z1 Z2 Z3 Z4 Z5]]]; [left|right]; exists fs; [|by constructor].
    split; [|done]. apply core_granted; [done| |done]. by rewrite Hal, H0. }
  destruct (idleLocked (streamID f) c) eqn:Eid; [split; [done|by apply reason_num]|]. destruct (decide (streamID f ∈ streams c)) as [Hl|Hl].
  - destruct (Z.eqb_spec (increment f) 0) as [E0|_].
    { cbn [outcome]. apply good_but; [|lia]. eapply good_hist; [exact Hg|]. intros _ j _. rewrite grants_snoc, E0. destruct (allows j f); lia. }
    destruct (known_live _ _ _ _ _ Hg Hl) as [s Hs]. rewrite (stream_at _ _ _ Hs). change (s <| s_sendWindow := s_sendWindow s + increment f |>) with (shifted (increment f) s).
    destruct Hg as [[[fs Hc] [Ha Hgo]]|[fs He]]; [|rewrite (z_streams _ _ _ He) in Hl; by apply not_elem_of_empty in Hl].
    pose proof (core_stream_granted tr H f fs (streamID f) s c Hc Hs Hl ltac:(by rewrite Hal, Z.eqb_refl)) as Hc'. destruct (_ <? _); cbn [outcome].
    + left. split; [lia|]. exists fs. split_and!; [done| |done]. intros j t Hj Hlj Hx Hp. rewrite elem_of_singleton in Hx. rewrite stored_put, lookup_insert_ne in Hj by done.
      by apply (Ha j t Hj Hlj (not_elem_of_empty j)).
    + change (@nil Z) with (encs []). apply flush_steady; [|done|done]. left. by exists fs.
  - eapply good_hist; [exact Hg|]. intros _ j Hj. rewrite grants_snoc, Hal. destruct (Z.eqb_spec (streamID f) j) as [<-|]; [|lia]. exfalso.
    unfold idle in Hj. rewrite Eid in Hj. destruct Hj as [|[|]]; done.
Qed.

(** * The rest *)

Lemma handleRSTStream_good tr H f c : good tr H c -> frame_in f -> outcome cfg tr H (handleRSTStream f c).
Proof.
  intros Hg (Hi & _). pose proof (good_sane _ _ _ _ Hg) as Hsane. unfold handleRSTStream. destruct (Z.eqb_spec (streamID f) 0); [split; [done|by apply reason_text]|].
  destruct (negb _); [split; [done|by apply reason_num]|]. destruct (idleLocked _ _); [split; [done|by apply reason_num]|]. cbn [outcome].
  destruct Hg as [[[fs Hc] [Ha Hgo]]|[fs He]].
  - destruct (decide (streamID f ∈ streams c)) as [Hl|Hl]; [|by eapply close_good]. destruct (forget_rest cfg tr H fs (streamID f) c Hc) as [H1 H2]; [|done|by eapply close_good].
    intros j s Hs Hj _. by apply (Ha j s Hs Hj (not_elem_of_empty j)).
  - right. exists fs. rewrite decide_False by (rewrite (z_streams _ _ _ He); apply not_elem_of_empty). by rewrite close_closed by apply He.
Qed.

Lemma handlePing_good tr H f c : good tr H c -> outcome cfg tr H (handlePing f c).
Proof.
  intros Hg. pose proof (good_sane _ _ _ _ Hg) as Hsane. unfold handlePing. destruct (negb (_ =? _)); [split; [done|by apply reason_num]|].
  destruct (Z.eqb_spec (len (payload f)) 8) as [H8|H8]; cbn [negb]; [|split; [done|by apply reason_num]]. destruct (has f h2FlagAck); [done|]. cbn [outcome].
  replace (h2AppendFrameHeader [] h2FramePing h2FlagAck 0 8 ++ payload f) with (encs [frame h2FramePing h2FlagAck 0 (payload f)]) by (rewrite encs_one; unfold encode; cbn [frame typ flags streamID payload]; by rewrite H8).
  apply good_send; [done|by rewrite Forall_singleton|]. rewrite Forall_singleton. apply frame_ok_mk; [done|done|done| |done]. by rewrite H8.
Qed.

Lemma handleGoAway_good tr H f c : good tr H c -> outcome cfg tr H (handleGoAway f c).
Proof.
  intros Hg. pose proof (good_sane _ _ _ _ Hg) as Hsane. unfold handleGoAway. destruct (negb (_ =? _)); [split; [done|by apply reason_num]|].
  destruct (_ <? 8); [split; [done|by apply reason_num]|]. cbn [outcome]. destruct Hg as [[[fs Hc] [Ha Hgo]]|[fs [Z1 Z2 Z3 Z4 Z5]]].
  - apply (close_good cfg tr H fs); [by eapply core_ext; [|exact Hc]|done].
  - right. exists fs. rewrite close_closed by done. by constructor.
Qed.

Context (cfg_ok : 0 <= MaxConcurrentStreams cfg < 2 ^ 32).
Abbreviation dispatch := (dispatch ParseRequestURI unicode_lower ParseURL cfg range app).
Abbreviation handleFrame := (handleFrame ParseRequestURI unicode_lower ParseURL cfg range app).

Lemma dispatch_good tr H f c : good tr H c -> frame_in f -> outcome cfg tr (H ++ [f]) (dispatch f c).
Proof.
  intros Hg Hf. unfold Http2Server.dispatch. cbv zeta. destruct (Z.eqb_spec (typ f) h2FrameWindowUpdate) as [Ht|Ht].
  { rewrite Ht. cbn [Z.eqb h2FrameWindowUpdate h2FrameData h2FrameHeaders h2FrameContinuation h2FramePriority h2FrameRSTStream h2FrameSettings h2FramePushPromise h2FramePing h2FrameGoAway Pos.eqb].
    by apply handleWindowUpdate_good. }
  apply (good_step _ _ f) in Hg; [|done]. pose proof (good_sane _ _ _ _ Hg) as Hsane.
  destruct (_ =? h2FrameData); [by apply handleData_good|]. destruct (_ =? h2FrameHeaders); [by apply handleHeaders_good|].
  destruct (_ =? h2FrameContinuation); [by apply handleContinuation_good|]. destruct (_ =? h2FramePriority).
  { destruct (Z.eqb_spec (streamID f) 0); [split; [done|by apply reason_text]|]. destruct (negb _); [|done]. apply good_but; [done|]. destruct Hf. lia. }
  destruct (_ =? h2FrameRSTStream); [by apply handleRSTStream_good|]. destruct (_ =? h2FrameSettings); [by apply handleSettings_good|].
  destruct (_ =? h2FramePushPromise); [split; [done|by apply reason_text]|]. destruct (_ =? h2FramePing); [by apply handlePing_good|].
  destruct (_ =? h2FrameGoAway); [by apply handleGoAway_good|done].
Qed.

Lemma handleFrame_good tr H f c : good tr H c -> frame_in f -> outcome cfg tr (H ++ [f]) (handleFrame f c).
Proof.
  intros Hg Hf. pose proof (good_sane _ _ _ _ Hg) as Hsane. unfold Http2Server.handleFrame. destruct (_ && _); [split; [done|by apply reason_num]|].
  destruct (negb (gotSettings c)); [|by apply dispatch_good]. destruct (negb _ || _); [split; [done|by apply reason_text]|].
  apply dispatch_good; [|done]. by eapply good_ext; [..|exact Hg].
Qed.

(** What becomes of a frame, errors included. *)
Definition handled (f : h2Frame) c : Conn := match handleFrame f c with (c, None) => c | (c, Some e) => handleError e c end.

Lemma handled_good tr H f c : good tr H c -> frame_in f -> good tr (H ++ [f]) (handled f c).
Proof.
  intros Hg Hf. pose proof (handleFrame_good tr H f c Hg Hf) as Ho. unfold handled. destruct (handleFrame f c) as [c' [e|]]; [by apply handleError_good|done].
Qed.

(** * Reading *)

Lemma read_in buf : bytes_ok buf ->
  match h2ReadFrame buf h2DefaultMaxFrameSize with
  | Ok (f, n) => frame_in f
  | Err (H2ConnError _ reason) => len reason <= 1000
  | Err _ => False
  end.
Proof.
  intros Hb. destruct (Z.lt_ge_cases (len buf) 9) as [Hs|Hs].
  { unfold h2ReadFrame, h2FrameHeaderLen. destruct (Z.ltb_spec (len buf) 9); [by split_and!|lia]. }
  destruct (has_header _ Hs) as (a & b & c & t & fl & i0 & i1 & i2 & i3 & tail & ->). clear Hs.
  rewrite !Forall_cons in Hb. destruct Hb as (Ha & Hb & Hc & _ & _ & B0 & B1 & B2 & B3 & Htail). rewrite read_header by done. cbv zeta.
  assert (Hn : bytes_ok [a; b; c]) by (by rewrite !Forall_cons; split_and!; [..|constructor]). apply be_val_range in Hn as [Hn1 Hn2]. set (n := be_val [a; b; c]) in *.
  change (256 ^ len [a; b; c]) with (2 ^ 24) in Hn2.
  destruct (_ <? n). { rewrite !len_app. pose proof (num_len n). pose proof (num_len h2DefaultMaxFrameSize). change (len (str "frame of ")) with 9. change (len (str " bytes exceeds ")) with 15. lia. }
  destruct (_ <? n); [by split_and!|]. set (id := Z.land _ _).
  assert (Hid : 0 <= id < 2 ^ 31). { unfold id. change 2147483647 with (2 ^ 31 - 1). rewrite land_mask by lia. apply Z.mod_pos_bound. lia. }
  clearbody id n. unfold unpad. destruct (_ && _); [|split; [done|split; [done|by apply Forall_take]]]. cbn [payload].
  assert (Hp : bytes_ok (take (Z.to_nat n) tail)) by by apply Forall_take. destruct (take (Z.to_nat n) tail) as [|pad rest]; [by apply reason_text|]. apply Forall_cons in Hp as [_ Hp].
  destruct (_ <=? pad); [by apply reason_text|]. split; [done|split; [done|by apply Forall_take]].
Qed.

Abbreviation feed_loop := (feed_loop ParseRequestURI unicode_lower ParseURL cfg range app).
Abbreviation feed := (feed ParseRequestURI unicode_lower ParseURL cfg range app).

Lemma read_failed tr H code reason c : good tr H c -> len reason <= 1000 -> good tr H (handleError (H2ConnError code reason) c).
Proof. intros Hg Hr. cbn. apply fail_good; [by eapply good_sane|done]. Qed.

Lemma feed_loop_good fuel tr H rest c : good tr H c -> bytes_ok rest ->
  exists H', good tr (H ++ H') (feed_loop fuel rest c).2 /\ bytes_ok (feed_loop fuel rest c).1 /\ Forall frame_in H'.
Proof.
  revert H rest c. induction fuel as [|fuel IH]; intros H rest c Hg Hb; cbn [Http2Server.feed_loop].
  { exists []. by rewrite app_nil_r. }
  pose proof (read_in rest Hb) as Hr. destruct (h2ReadFrame rest h2DefaultMaxFrameSize) as [[f n]|[code reason|]]; [|..|done].
  - destruct (n =? 0); [exists []; by rewrite app_nil_r|]. pose proof (handled_good tr H f c Hg Hr) as Hh. unfold handled in Hh. set (rest' := drop (Z.to_nat n) rest).
    assert (Hb' : bytes_ok rest') by by apply Forall_drop. destruct (handleFrame f c) as [c1 [e|]].
    + destruct (closed _); [exists [f]; by rewrite Forall_singleton|]. destruct (IH (H ++ [f]) rest' _ Hh Hb') as (H' & R1 & R2 & R3). exists (f :: H'). rewrite <- app_assoc in R1. by rewrite Forall_cons.
    + destruct (IH (H ++ [f]) rest' _ Hh Hb') as (H' & R1 & R2 & R3). exists (f :: H'). rewrite <- app_assoc in R1. by rewrite Forall_cons.
  - pose proof (read_failed tr H code reason c Hg Hr) as Hh. destruct (closed _); [exists []; by rewrite app_nil_r|]. by apply IH.
Qed.

Lemma feed_good tr H data inp c : good tr H c -> bytes_ok data -> bytes_ok (inb inp) ->
  exists H', good tr (H ++ H') (feed data (inp, c)).2 /\ bytes_ok (inb (feed data (inp, c)).1) /\ Forall frame_in H'.
Proof.
  intros Hg Hd Hi. assert (Hb : bytes_ok (inb inp ++ data)) by by apply Forall_app. unfold Http2Server.feed.
  assert (Hgo : forall rest, bytes_ok rest -> exists H', good tr (H ++ H') (let '(rest, c) := feed_loop (S (length rest)) rest c in (Input rest true, c)).2 /\
    bytes_ok (inb (let '(rest, c) := feed_loop (S (length rest)) rest c in (Input rest true, c)).1) /\ Forall frame_in H').
  { intros rest Hr. destruct (feed_loop_good (S (length rest)) tr H rest c Hg Hr) as (H' & R1 & R2 & R3). exists H'. by destruct (feed_loop _ _ _). }
  destruct (negb (gotPreface inp)); [|by apply Hgo]. destruct (_ <? _); [exists []; by rewrite app_nil_r|].
  destruct (negb _); [|by apply Hgo, Forall_drop]. exists []. rewrite app_nil_r. split_and!; [|done|done]. apply fail_good; [by eapply good_sane|by apply reason_text].
Qed.
End control.
