(* ===== verification/Http2Headers.v ===== *)
(** Header blocks between two HTTP/2 peers: what one side's encoder and frame
    writer make of a list of fields, the server takes apart again. *)
From Stdlib Require Import String.
From S2P Require Import Prelude.
From S2P Require Import HpackTables.
From S2P Require Import Huffman.
From S2P Require Import Hpack.
From S2P Require Import GoText.
From S2P Require Import HttpServer.
From S2P Require Import HttpWriter.
From S2P Require Import Http2Frame.
From S2P Require Import Http2Server.
From S2P Require Import Http2Inv.
From S2P Require Import Http2Calls.
From S2P Require Import Http2Handle.
From S2P Require Import Http2Control.

(** * Decoding with another function *)

(** What [collect] gathers is what any [emit] that goes on is given. *)
Lemma decode_loop_emit {St} (emit : HeaderField -> St -> St * option Empty_set) (g : St -> HeaderField -> St) fuel d l st block start :
  (forall f st, emit f st = (g st f, None)) ->
  Decode_loop emit fuel d (fold_left g l st) block start =
    (fun '(d, l, e) => (d, fold_left g l st, e)) <$> Decode_loop collect fuel d l block start.
Proof.
  intros Hg. assert (He : forall d f rest l, emitted emit d f rest (fold_left g l st) = (d, fold_left g (l ++ [f]) st, inl (rest, false))).
  { intros. unfold emitted. by rewrite Hg, fold_left_app. }
  assert (Hc : forall d f rest l, emitted collect d f rest l = (d, l ++ [f], inl (rest, false))) by done.
  revert d l block start. induction fuel as [|fuel IH]; intros d l block start; (destruct block as [|b block]; [done|]); [done|]. cbn [Decode_loop].
  unfold Decode_round. destruct (negb _).
  { destruct (readInt _ _) as [[ix rest]|]; [|done]. destruct (field _ _); [|done]. rewrite He, Hc. apply IH. }
  destruct (_ =? 64). { destruct (readLiteral _ _ _) as [[f rest]|]; [|done]. rewrite He, Hc. apply IH. }
  destruct (_ =? 32). { destruct (negb start); [done|]. destruct (readInt _ _) as [[sz rest]|]; [|done]. destruct (_ <? sz); [done|]. apply IH. }
  destruct (readLiteral _ _ _) as [[f rest]|]; [|done]. rewrite He, Hc. apply IH.
Qed.

Section headers.
Context {U : Type}.
Abbreviation Conn := (h2ServerConn U).
Context (ParseRequestURI : bytes -> option U) (unicode_lower : bytes -> bytes) (ParseURL : bytes -> option (bytes * bytes * bytes)).
Context (cfg : h2Config) (range : Conn -> list Z) (app : Z -> Request U -> list call).
Implicit Types (c : Conn).
Abbreviation handleHeaderBlock := (handleHeaderBlock ParseRequestURI unicode_lower ParseURL cfg app).
Abbreviation handle_fields := (handle_fields ParseRequestURI unicode_lower ParseURL cfg app).
Abbreviation handled := (handled ParseRequestURI unicode_lower ParseURL cfg range app).

Definition settle (r : Conn * option h2_error) : Conn := match r with (c, None) => c | (c, Some e) => handleError e c end.
Definition handle_all (fs : list h2Frame) c : Conn := fold_left (fun c f => handled f c) fs c.

(** ** Fields *)

Definition gather (st : list HeaderField * Z * bool) (f : HeaderField) : list HeaderField * Z * bool := (collect_field cfg f st).1.

(** Fields that fit are all kept. *)
Lemma gather_fits l fs n : 0 <= n -> n + total fsize l <= MaxHeaderBytes cfg -> fold_left gather l (fs, n, false) = (fs ++ l, n + total fsize l, false).
Proof.
  revert fs n. induction l as [|f l IH]; intros fs n Hn Hl; cbn [fold_left total fold_right] in *; [by rewrite app_nil_r, Z.add_0_r|].
  unfold gather at 2. cbn [collect_field fst orb]. pose proof (fsize_nonneg f). assert (Ht : 0 <= total fsize l) by (apply total_nonneg, fsize_nonneg). cbn [total] in *.
  destruct (Z.ltb_spec (MaxHeaderBytes cfg) (n + fsize f)); [lia|]. rewrite IH by lia. rewrite <- app_assoc. by rewrite Z.add_assoc.
Qed.

Lemma block_fields i es c e e' block fs : sync e (dec c) -> Forall (fun p => field_ok (MaxStringLength (dec c)) p.1) fs -> encode_block fs e = (e', block) ->
  total fsize (fst <$> fs) <= MaxHeaderBytes cfg ->
  exists d, sync e' d /\ MaxStringLength d = MaxStringLength (dec c) /\ handleHeaderBlock i block es c = handle_fields i (fst <$> fs) es false (c <| dec := d |>).
Proof.
  intros Hs Hf E Hl. destruct (encode_block_spec fs e (dec c) Hs Hf) as (e1 & d & b & E1 & S1 & S2 & S3). rewrite E in E1. injection E1 as <- <-.
  exists d. split_and!; [done|done|]. unfold Http2Server.handleHeaderBlock.
  pose proof (decode_loop_emit (collect_field cfg) gather (length block) (dec c) [] ([], 0, false) block true) as D. cbn [fold_left] in D. unfold Decode in *.
  rewrite D, S3; [|intros f [[l n] large]; done]. cbn [fmap option_fmap option_map]. by rewrite gather_fits by lia.
Qed.

(** ** Frames *)

Lemma more_frames fuel i block max c : contStream c = i -> i <> 0 -> gotSettings c = true -> 1 <= max -> (length block <= fuel)%nat -> len (contBlock c ++ block) <= MaxHeaderBytes cfg ->
  handle_all (block_frames fuel h2FrameContinuation 0 i block max) c =
    settle (handleHeaderBlock i (contBlock c ++ block) (contEndStream c) (c <| contBlock := contBlock c ++ block |> <| contStream := 0 |>)).
Proof.
  revert block c. induction fuel as [|fuel IH]; intros block c Hc Hi Hg Hm Hf Hl.
  all: assert (Hone : forall g, typ g = h2FrameContinuation -> streamID g = i -> handled g c = settle (handleContinuation ParseRequestURI unicode_lower ParseURL cfg app g c)).
  1,3: intros g Ht Hs; unfold Http2Control.handled, handleFrame; rewrite Hc, Hg, Ht, Hs, !Z.eqb_refl; cbn [negb orb]; rewrite andb_false_r; cbn [negb]; unfold dispatch; by rewrite Ht.
  all: assert (Hlast : len block <= max -> handle_all [frame h2FrameContinuation (Z.lor 0 h2FlagEndHeaders) i block] c =
    settle (handleHeaderBlock i (contBlock c ++ block) (contEndStream c) (c <| contBlock := contBlock c ++ block |> <| contStream := 0 |>))).
  1,3: intros Hb; unfold handle_all; cbn [fold_left]; rewrite Hone by done; unfold handleContinuation; destruct (Z.eqb_spec (contStream c) 0); [congruence|]; cbv zeta;
    cbn [payload frame]; change (contBlock (c <| contBlock := contBlock c ++ block |>)) with (contBlock c ++ block);
    (destruct (Z.ltb_spec (MaxHeaderBytes cfg) (len (contBlock c ++ block))); [lia|]); change (contStream (c <| contBlock := contBlock c ++ block |>)) with (contStream c);
    rewrite Hc; done.
  - destruct block; [|cbn in Hf; lia]. rewrite block_frames_one by (change (len (@nil Z)) with 0; lia). apply Hlast. change (len (@nil Z)) with 0. lia.
  - destruct (Z.le_gt_cases (len block) max) as [Hb|Hb]; [rewrite block_frames_one by done; by apply Hlast|]. rewrite block_frames_more by lia. cbn [handle_all fold_left]. fold (handle_all).
    set (chunk := take (Z.to_nat max) block). set (rest := drop (Z.to_nat max) block). assert (Esplit : block = chunk ++ rest) by (unfold chunk, rest; by rewrite take_drop).
    rewrite Hone by done. unfold handleContinuation. destruct (Z.eqb_spec (contStream c) 0); [congruence|]. cbv zeta. cbn [payload frame].
    set (c1 := c <| contBlock := contBlock c ++ chunk |>). assert (Hl1 : len (contBlock c1 ++ rest) <= MaxHeaderBytes cfg) by (change (contBlock c1) with (contBlock c ++ chunk); by rewrite <- app_assoc, <- Esplit).
    destruct (Z.ltb_spec (MaxHeaderBytes cfg) (len (contBlock c1))) as [Hx|_]; [rewrite len_app in Hl1; pose proof (len_nonneg rest); lia|].
    change (negb (has (frame h2FrameContinuation 0 i chunk) h2FlagEndHeaders)) with true. cbv iota. cbn [settle].
    change (fold_left (fun c f => handled f c) (block_frames fuel h2FrameContinuation 0 i rest max) c1) with (handle_all (block_frames fuel h2FrameContinuation 0 i rest max) c1).
    rewrite IH; [|done|done|done|done| |done].
    + change (contBlock c1) with (contBlock c ++ chunk). rewrite <- app_assoc, <- Esplit. done.
    + unfold rest. rewrite length_drop. unfold len in Hb. lia.
Qed.

(** A state that differs in what it keeps of an unfinished block. *)
Definition with_cont (ce : bool) (cb : bytes) c : Conn := c <| contEndStream := ce |> <| contBlock := cb |>.

Lemma all_frames i block (es : bool) max c : contStream c = 0 -> 1 <= i -> i mod 2 = 1 -> gotSettings c = true -> 1 <= max -> len block <= MaxHeaderBytes cfg ->
  exists ce cb, handle_all (header_frames i block es max) c = settle (handleHeaderBlock i block es (with_cont ce cb c)).
Proof.
  intros Hc Hi Ho Hg Hm Hl. unfold header_frames. set (fl := if es then h2FlagEndStream else 0).
  assert (Hfirst : forall g, typ g = h2FrameHeaders -> streamID g = i -> has g h2FlagPriority = false -> handled g c =
    settle (if negb (has g h2FlagEndHeaders) then
       if MaxHeaderBytes cfg <? len (payload g) then (c, Some (H2ConnError H2EnhanceYourCalm (str "header block too large")))
       else (c <| contStream := i |> <| contEndStream := has g h2FlagEndStream |> <| contBlock := payload g |>, None)
     else handleHeaderBlock i (payload g) (has g h2FlagEndStream) c)).
  { intros g Ht Hs Hp. unfold Http2Control.handled, handleFrame. rewrite Hc, Hg. cbn [Z.eqb negb andb]. unfold dispatch. rewrite Ht. cbn [Z.eqb h2FrameHeaders h2FrameData Pos.eqb]. unfold handleHeaders.
    rewrite Hs, Hp. destruct (Z.eqb_spec i 0); [lia|]. rewrite Ho. done. }
  destruct (Z.le_gt_cases (len block) max) as [Hb|Hb].
  - rewrite block_frames_one by done. exists (contEndStream c), (contBlock c). replace (with_cont (contEndStream c) (contBlock c) c) with c by by destruct c.
    unfold handle_all. cbn [fold_left]. rewrite Hfirst by (by destruct es). by destruct es.
  - destruct (length block) as [|fuel] eqn:El; [unfold len in Hb; lia|]. rewrite block_frames_more by lia. unfold handle_all. cbn [fold_left].
    set (chunk := take (Z.to_nat max) block). set (rest := drop (Z.to_nat max) block). assert (Esplit : block = chunk ++ rest) by (unfold chunk, rest; by rewrite take_drop).
    rewrite Hfirst by (by destruct es). replace (has (frame h2FrameHeaders fl i chunk) h2FlagEndHeaders) with false by by destruct es. replace (has (frame h2FrameHeaders fl i chunk) h2FlagEndStream) with es by by destruct es. cbn [negb payload frame].
    destruct (Z.ltb_spec (MaxHeaderBytes cfg) (len chunk)) as [Hx|_]; [rewrite Esplit, len_app in Hl; pose proof (len_nonneg rest); lia|]. cbn [settle].
    set (c1 := c <| contStream := i |> <| contEndStream := es |> <| contBlock := chunk |>).
    pose proof (more_frames fuel i rest max c1) as M. unfold handle_all in M. rewrite M; [|done|lia|done|done| |change (contBlock c1) with chunk; by rewrite <- Esplit].
    + change (contBlock c1) with chunk. rewrite <- Esplit. change (contEndStream c1) with es. exists es, block. do 2 f_equal. unfold c1, with_cont. destruct c. cbn in Hc |- *. by rewrite Hc.
    + unfold rest. rewrite length_drop. unfold len in Hb. lia.
Qed.

(** C18: a header block arrives as it was sent.  A peer whose encoder is in step
    with the server's decoder encodes fields that are within the limits, and
    writes the block as a HEADERS frame and as many CONTINUATION frames as the
    frame size it chose asks for.  The server comes to exactly those fields, as a
    request's or as trailers, and the two sides are in step for the next block. *)
Theorem h2_headers_arrive c e e' block fs i (es : bool) max : sync e (dec c) -> Forall (fun p => field_ok (MaxStringLength (dec c)) p.1) fs -> encode_block fs e = (e', block) ->
  total fsize (fst <$> fs) <= MaxHeaderBytes cfg -> len block <= MaxHeaderBytes cfg -> 1 <= max -> 1 <= i -> i mod 2 = 1 -> contStream c = 0 -> gotSettings c = true ->
  exists ce cb d, sync e' d /\ MaxStringLength d = MaxStringLength (dec c) /\
    handle_all (header_frames i block es max) c = settle (handle_fields i (fst <$> fs) es false (with_cont ce cb c <| dec := d |>)).
Proof.
  intros Hs Hf E Ht Hl Hm Hi Ho Hc Hg. destruct (all_frames i block es max c Hc Hi Ho Hg Hm Hl) as (ce & cb & ->).
  destruct (block_fields i es (with_cont ce cb c) e e' block fs Hs Hf E Ht) as (d & S1 & S2 & ->). by exists ce, cb, d.
Qed.
End headers.
