(* ===== verification/Http2Conn.v ===== *)
(** An HTTP/2 server connection as a whole: how the bytes are cut into pieces does
    not matter, and what holds of every state the frames of a client and the calls
    of the application lead to. *)
From Stdlib Require Import String.
From S2P Require Import Prelude.
From S2P Require Import HpackTables.
From S2P Require Import Huffman.
From S2P Require Import Hpack.
From S2P Require Import GoText.
From S2P Require Import HttpServer.
From S2P Require Import HttpWriter.
From S2P Require Import Http2Frame.
From S2P Require Import Http2Server.
From S2P Require Import Http2Inv.
From S2P Require Import Http2Calls.
From S2P Require Import Http2Handle.
From S2P Require Import Http2Control.

Section conn.
Context {U : Type}.
Abbreviation Conn := (h2ServerConn U).
Abbreviation Stream := (h2ServerStream U).
Context (ParseRequestURI : bytes -> option U) (unicode_lower : bytes -> bytes) (ParseURL : bytes -> option (bytes * bytes * bytes)).
Context (cfg : h2Config) (range : Conn -> list Z) (range_ok : forall c, range c ≡ₚ elements (streams c)) (app : Z -> Request U -> list call).
Implicit Types (c : Conn) (s : Stream).
Abbreviation handleHeaderBlock := (handleHeaderBlock ParseRequestURI unicode_lower ParseURL cfg app).
Abbreviation handleFrame := (handleFrame ParseRequestURI unicode_lower ParseURL cfg range app).
Abbreviation handled := (handled ParseRequestURI unicode_lower ParseURL cfg range app).
Abbreviation feed_loop := (feed_loop ParseRequestURI unicode_lower ParseURL cfg range app).
Abbreviation feed := (feed ParseRequestURI unicode_lower ParseURL cfg range app).
Abbreviation perform := (perform ParseRequestURI unicode_lower ParseURL cfg app).

(** * A closed connection *)

(** What others can see of a connection. *)
Definition obs c := (wire c, served c, closing c, closed c, streams c).
Definition over c : Prop := closed c = true /\ streams c = ∅.

(** Nothing happens that could be seen. *)
Definition still c (r : Conn * option h2_error) : Prop := obs r.1 = obs c.

Lemma obs_over c c' : obs c' = obs c -> over c -> over c'.
Proof. unfold obs. intros E. injection E as _ _ _ E1 E2. unfold over. by rewrite E1, E2. Qed.

Lemma over_close c : over c -> closeFinishedLocked c = c.
Proof. intros [H _]. by apply close_closed. Qed.

Lemma over_send out c : over c -> sendLocked out c = c.
Proof. intros [H _]. by apply sendLocked_closed. Qed.

Lemma over_dead i c : over c -> i ∉ streams c.
Proof. intros [_ ->]. apply not_elem_of_empty. Qed.

Lemma over_range c : over c -> range c = [].
Proof. intros [_ H]. apply Permutation_nil_r. rewrite range_ok, H. by rewrite elements_empty. Qed.

Lemma over_block i block es c : over c -> still c (handleHeaderBlock i block es c).
Proof.
  intros Ho. unfold Http2Server.handleHeaderBlock. destruct (Decode _ _ _ _) as [[[d [[fs sz] large]] en]|]; [|done]. destruct en as [|e|[]]; [|done]. unfold handle_fields.
  rewrite decide_False by by apply (over_dead i c). destruct (_ <=? _); [done|]. destruct Ho as [Hc _].
  change (closed (c <| dec := d |> <| maxClientID := i |>)) with (closed c). by rewrite Hc.
Qed.

Lemma over_headers f c : over c -> still c (handleHeaders ParseRequestURI unicode_lower ParseURL cfg app f c).
Proof.
  intros Ho. unfold handleHeaders. destruct (_ || _); [done|]. cbv zeta. destruct (has f h2FlagPriority); [destruct (_ <? 5); [done|]; destruct (_ =? _); [done|]|].
  all: destruct (negb _); [by destruct (_ <? _)|by apply over_block].
Qed.

Lemma over_continuation f c : over c -> still c (handleContinuation ParseRequestURI unicode_lower ParseURL cfg app f c).
Proof.
  intros Ho. unfold handleContinuation. destruct (_ =? 0); [done|]. cbv zeta. set (c1 := c <| contBlock := _ |>). assert (H1 : over c1) by by apply (obs_over c).
  change (still c1 (if MaxHeaderBytes cfg <? len (contBlock c1) then (c1, Some (H2ConnError H2EnhanceYourCalm (str "header block too large")))
    else if negb (has f h2FlagEndHeaders) then (c1, None) else handleHeaderBlock (contStream c1) (contBlock c1) (contEndStream c1) (c1 <| contStream := 0 |>))).
  clearbody c1. destruct (_ <? _); [done|]. destruct (negb _); [done|]. pose (c2 := c1 <| contStream := 0 |>). exact (over_block _ _ _ c2 H1).
Qed.

Lemma over_data f c : over c -> still c (handleData ParseRequestURI unicode_lower ParseURL cfg app f c).
Proof.
  intros Ho. unfold handleData. destruct (_ =? 0); [done|]. destruct (_ <? _); [done|]. cbv zeta. destruct (_ =? 0); [done|]. destruct (_ <? _); [done|].
  set (c1 := if h2ConnWindow / 2 <=? _ then _ else _). assert (H1 : obs c1 = obs c).
  { unfold c1. destruct (_ <=? _); [|done]. by rewrite over_send. }
  clearbody c1. rewrite decide_False; [done|]. by apply over_dead, (obs_over c).
Qed.

Lemma over_shift order delta c : obs (shift_windows order delta c).1 = obs c.
Proof. revert c. induction order as [|i order IH]; intros c; [done|]. cbn [shift_windows]. destruct (_ <? _); [done|]. by rewrite IH. Qed.

Lemma over_setting id value c : still c (apply_setting range id value c).
Proof.
  unfold apply_setting, still. destruct (_ =? _); [done|]. destruct (_ =? _); [by destruct (_ <? _)|]. destruct (_ =? _); [done|].
  destruct (_ =? _); [destruct (_ <? _); [done|by rewrite over_shift]|]. destruct (_ =? _); [by destruct (_ || _)|done].
Qed.

Lemma over_settings f c : over c -> still c (handleSettings unicode_lower range f c).
Proof.
  intros Ho. unfold handleSettings. destruct (negb (_ =? _)); [done|]. destruct (has _ _); [by destruct (negb _)|].
  assert (H1 : still c (applySettingsLocked range (payload f) c)).
  { unfold applySettingsLocked, h2ParseSettings. destruct (negb _); [done|]. generalize (length (payload f)) as fuel. intros fuel. clear Ho.
    revert c. generalize (payload f) as p. induction fuel as [|fuel IH]; intros p c; [done|]. cbn [settings_loop]. destruct p as [|b p]; [done|].
    pose proof (over_setting (be_val (take 2 (b :: p))) (be_val (take 4 (drop 2 (b :: p)))) c) as E. destruct (apply_setting _ _ _ _) as [c1 [e|]]; [done|]. unfold still in *. by rewrite IH. }
  destruct (applySettingsLocked _ _ _) as [c1 [e|]]; [done|]. unfold still in *. cbn [fst] in *. assert (Ho1 : over c1) by by apply (obs_over c). rewrite <- H1.
  unfold flush_all, flushLocked. rewrite over_range by done. cbn [flush_streams]. by rewrite over_send, over_close.
Qed.

Lemma over_window f c : over c -> still c (handleWindowUpdate unicode_lower range f c).
Proof.
  intros Ho. unfold handleWindowUpdate. destruct (negb _); [done|]. cbv zeta. destruct (_ =? 0).
  - destruct (_ =? 0); [done|]. set (c1 := c <| sendWindow := _ |>). assert (Ho1 : over c1) by by apply (obs_over c). change (obs c) with (obs c1). destruct (_ <? _); [done|].
    unfold flush_all, flushLocked. rewrite over_range by done. cbn [flush_streams]. unfold still. cbn [fst]. by rewrite over_send, over_close.
  - destruct (idleLocked _ _); [done|]. rewrite decide_False; [done|by apply over_dead].
Qed.

Lemma over_dispatch f c : over c -> still c (dispatch ParseRequestURI unicode_lower ParseURL cfg range app f c).
Proof.
  intros Ho. unfold dispatch. cbv zeta.
  destruct (_ =? h2FrameData); [by apply over_data|]. destruct (_ =? h2FrameHeaders); [by apply over_headers|]. destruct (_ =? h2FrameContinuation); [by apply over_continuation|].
  destruct (_ =? h2FramePriority). { destruct (_ =? 0); [done|]. by destruct (negb _). }
  destruct (_ =? h2FrameRSTStream).
  { unfold handleRSTStream. destruct (_ =? 0); [done|]. destruct (negb _); [done|]. destruct (idleLocked _ _); [done|]. rewrite decide_False by by apply over_dead. by rewrite over_close. }
  destruct (_ =? h2FrameSettings); [by apply over_settings|]. destruct (_ =? h2FramePushPromise); [done|].
  destruct (_ =? h2FramePing). { unfold handlePing. destruct (negb _); [done|]. destruct (negb _); [done|]. destruct (has _ _); [done|]. by rewrite over_send. }
  destruct (_ =? h2FrameGoAway).
  { unfold handleGoAway. destruct (negb _); [done|]. destruct (_ <? 8); [done|]. unfold still. cbn [fst]. by rewrite over_close. }
  destruct (_ =? h2FrameWindowUpdate); [by apply over_window|done].
Qed.

Lemma over_error e c : over c -> handleError e c = c.
Proof.
  intros Ho. destruct e as [code reason|i code]; cbn.
  - unfold fail. destruct Ho as [-> _]. done.
  - unfold resetStream. rewrite decide_False by by apply over_dead. by rewrite over_send, over_close.
Qed.

Lemma over_handled f c : over c -> obs (handled f c) = obs c.
Proof.
  intros Ho. assert (H1 : still c (handleFrame f c)).
  { unfold Http2Server.handleFrame. destruct (_ && _); [done|]. destruct (negb (gotSettings c)); [|by apply over_dispatch]. destruct (_ || _); [done|]. pose (c2 := c <| gotSettings := true |>). exact (over_dispatch f c2 Ho). }
  unfold Http2Control.handled. destruct (handleFrame f c) as [c1 [e|]]; [|done]. unfold still in H1. cbn [fst] in H1. rewrite over_error; [done|]. by apply (obs_over c).
Qed.

(** * Pieces *)

Definition loop (rest : bytes) c : bytes * Conn := feed_loop (S (length rest)) rest c.

(** An error that ends the connection stops the loop. *)
Definition stops (f : h2Frame) c : bool := match handleFrame f c with (c, Some e) => closed (handleError e c) | (_, None) => false end.

Lemma conn_error_closes code reason c : closed (handleError (H2ConnError code reason) c) = true.
Proof. cbn. unfold fail. by destruct (closed c) eqn:E. Qed.

Lemma feed_loop_step fuel rest c : bytes_ok rest ->
  feed_loop (S fuel) rest c =
    match h2ReadFrame rest h2DefaultMaxFrameSize with
    | Err e => ([], handleError e c)
    | Ok (f, n) => if n =? 0 then (rest, c) else if stops f c then ([], handled f c) else feed_loop fuel (drop (Z.to_nat n) rest) (handled f c)
    end.
Proof.
  intros Hb. cbn [Http2Server.feed_loop]. pose proof (read_in rest Hb) as Hr. destruct (h2ReadFrame _ _) as [[f n]|[code reason|]]; [|by rewrite conn_error_closes|done].
  destruct (n =? 0); [done|]. unfold stops, Http2Control.handled. by destruct (handleFrame f c) as [c1 [e|]].
Qed.

(** How much a frame takes. *)
Lemma read_takes rest f n : bytes_ok rest -> h2ReadFrame rest h2DefaultMaxFrameSize = Ok (f, n) -> n <> 0 -> 9 <= n <= len rest.
Proof. intros Hb E Hn. pose proof (read_more rest [] h2DefaultMaxFrameSize Hb) as H. rewrite E in H. by destruct H as [|[]]. Qed.

Lemma feed_loop_fuel fuel fuel' rest c : bytes_ok rest -> (length rest < fuel)%nat -> (length rest < fuel')%nat -> feed_loop fuel rest c = feed_loop fuel' rest c.
Proof.
  revert fuel' rest c. induction fuel as [|fuel IH]; intros [|fuel'] rest c Hb H1 H2; [lia..|]. rewrite !feed_loop_step by done.
  destruct (h2ReadFrame _ _) as [[f n]|] eqn:E; [|done]. destruct (Z.eqb_spec n 0) as [|Hn]; [done|]. destruct (stops f c); [done|].
  pose proof (read_takes _ _ _ Hb E Hn). apply IH; [by apply Forall_drop|..]; rewrite length_drop; unfold len in *; lia.
Qed.

Lemma loop_step rest c : bytes_ok rest ->
  loop rest c =
    match h2ReadFrame rest h2DefaultMaxFrameSize with
    | Err e => ([], handleError e c)
    | Ok (f, n) => if n =? 0 then (rest, c) else if stops f c then ([], handled f c) else loop (drop (Z.to_nat n) rest) (handled f c)
    end.
Proof.
  intros Hb. unfold loop. rewrite feed_loop_step by done. destruct (h2ReadFrame _ _) as [[f n]|] eqn:E; [|done]. destruct (Z.eqb_spec n 0) as [|Hn]; [done|]. destruct (stops f c); [done|].
  pose proof (read_takes _ _ _ Hb E Hn). apply feed_loop_fuel; [by apply Forall_drop|..]; rewrite length_drop; unfold len in *; lia.
Qed.

Lemma stops_closed f c : stops f c = true -> closed (handled f c) = true.
Proof. unfold stops, Http2Control.handled. by destruct (handleFrame f c) as [c1 [e|]]. Qed.

(** More bytes are taken up where the loop stopped, unless it has ended the connection. *)
Lemma loop_app rest more c : bytes_ok rest -> bytes_ok more ->
  loop (rest ++ more) c = loop ((loop rest c).1 ++ more) (loop rest c).2 \/ closed (loop rest c).2 = true /\ (loop rest c).1 = [] /\ (loop (rest ++ more) c).2 = (loop rest c).2.
Proof.
  intros Hb Hm. remember (length rest) as k eqn:Ek. revert rest c Hb Ek. induction k as [k IH] using lt_wf_ind. intros rest c Hb ->.
  assert (Hbm : bytes_ok (rest ++ more)) by by apply Forall_app. rewrite (loop_step rest), (loop_step (rest ++ more)) by done. pose proof (read_more rest more h2DefaultMaxFrameSize Hb) as Hr.
  pose proof (read_in rest Hb) as Hin. destruct (h2ReadFrame rest _) as [[f n]|[code reason|]] eqn:E; [|rewrite Hr; right; split; [apply conn_error_closes|done]|done].
  destruct Hr as [->|[Hn ->]]. { cbn [Z.eqb]. left. rewrite <- (loop_step (rest ++ more)) by done. done. }
  destruct (Z.eqb_spec n 0) as [|Hn0]; [lia|]. destruct (stops f c) eqn:Es; [right; split; [by apply stops_closed|done]|].
  rewrite drop_app_le by (unfold len in *; lia). apply (IH (length (drop (Z.to_nat n) rest))); [rewrite length_drop; unfold len in *; lia|by apply Forall_drop|done].
Qed.

Lemma loop_over rest c : over c -> bytes_ok rest -> obs (loop rest c).2 = obs c.
Proof.
  intros Ho Hb. remember (length rest) as k eqn:Ek. revert rest c Ho Hb Ek. induction k as [k IH] using lt_wf_ind. intros rest c Ho Hb ->.
  rewrite loop_step by done. destruct (h2ReadFrame _ _) as [[f n]|e] eqn:E; [|cbn [snd]; by rewrite over_error]. destruct (Z.eqb_spec n 0) as [|Hn]; [done|].
  pose proof (over_handled f c Ho) as Hh. destruct (stops f c); [done|]. pose proof (read_takes _ _ _ Hb E Hn). rewrite <- Hh.
  apply (IH (length (drop (Z.to_nat n) rest))); [rewrite length_drop; unfold len in *; lia|by apply (obs_over c)|by apply Forall_drop|done].
Qed.

(** Two connections that are the same, or both closed and look the same. *)
Definition alike (x y : h2Input * Conn) : Prop := x = y \/ over x.2 /\ obs x.2 = obs y.2.

#[export] Instance alike_preorder : PreOrder alike.
Proof.
  split; [by left|]. intros x y z [->|[H1 H2]]; [done|]. intros [->|[H3 H4]]; [by right|]. right. split; [done|]. congruence.
Qed.

Definition fed (inp : h2Input) : Prop := bytes_ok (inb inp).

Lemma feed_over d inp c : over c -> bytes_ok d -> fed inp -> obs (feed d (inp, c)).2 = obs c.
Proof.
  intros Ho Hd Hi. assert (Hb : bytes_ok (inb inp ++ d)) by by apply Forall_app. unfold Http2Server.feed.
  assert (Hgo : forall rest, bytes_ok rest -> obs (let '(rest, c) := feed_loop (S (length rest)) rest c in (Input rest true, c)).2 = obs c).
  { intros rest Hr. pose proof (loop_over rest c Ho Hr) as E. unfold loop in E. by destruct (feed_loop _ _ _). }
  destruct (negb _); [|by apply Hgo]. destruct (_ <? _); [done|]. destruct (negb _); [|by apply Hgo, Forall_drop]. cbn [snd]. unfold fail. destruct Ho as [-> _]. done.
Qed.

Lemma feed_alike d x y : bytes_ok d -> fed x.1 -> fed y.1 -> alike x y -> alike (feed d x) (feed d y).
Proof.
  destruct x as [xi xc], y as [yi yc]. intros Hd Hx Hy [E|[Ho Hv]]; [injection E as -> ->; by left|]. right. cbn [fst snd] in *.
  assert (Hy' : over yc) by by apply (obs_over xc). pose proof (feed_over d xi xc Ho Hd Hx) as E1. pose proof (feed_over d yi yc Hy' Hd Hy) as E2. split; [by apply (obs_over xc)|]. by rewrite E1, E2.
Qed.

(** Where the loop ends a connection, it is over. *)
Lemma loop_split rest more c : bytes_ok rest -> bytes_ok more -> (closed (loop rest c).2 = true -> streams (loop rest c).2 = ∅) ->
  alike (let '(r, c) := loop ((loop rest c).1 ++ more) (loop rest c).2 in (Input r true, c)) (let '(r, c) := loop (rest ++ more) c in (Input r true, c)).
Proof.
  intros Hb Hm Hcl. destruct (loop_app rest more c Hb Hm) as [->|(H1 & H2 & H3)]; [by left|]. rewrite H2. cbn [List.app]. assert (Ho : over (loop rest c).2) by (split; auto).
  pose proof (loop_over more _ Ho Hm) as E. destruct (loop (rest ++ more) c) as [r' c'] eqn:E'. cbn [snd] in H3. subst c'. destruct (loop more _) as [r2 c2]. cbn [snd] in E. right. cbn.
  split; [by apply (obs_over (loop rest c).2)|done].
Qed.

Lemma feed_split d1 d2 inp c : fed inp -> bytes_ok d1 -> bytes_ok d2 -> (closed (feed d1 (inp, c)).2 = true -> streams (feed d1 (inp, c)).2 = ∅) ->
  alike (feed d2 (feed d1 (inp, c))) (feed (d1 ++ d2) (inp, c)).
Proof.
  intros Hi H1 H2. destruct inp as [i0 got]. unfold fed in Hi. cbn [inb] in Hi. unfold Http2Server.feed at 1 2 4 5. cbn [inb gotPreface]. rewrite app_assoc. set (input := i0 ++ d1).
  assert (Hb : bytes_ok input) by by apply Forall_app.
  assert (Hgo : forall rest, bytes_ok rest -> (closed (let '(r, c) := loop rest c in (Input r true, c)).2 = true -> streams (let '(r, c) := loop rest c in (Input r true, c)).2 = ∅) ->
    alike (feed d2 (let '(r, c) := loop rest c in (Input r true, c))) (let '(r, c) := loop (rest ++ d2) c in (Input r true, c))).
  { intros rest Hr Hcl. pose proof (loop_split rest d2 c Hr H2) as L. destruct (loop rest c) as [r1 c1]. cbn [fst snd] in *. by apply L. }
  destruct got; cbn [negb]; [by apply Hgo|]. rewrite len_app. pose proof (len_nonneg d2) as Hd2. destruct (Z.ltb_spec (len input) (len h2Preface)) as [Hs|Hs].
  { intros _. unfold Http2Server.feed. cbn [inb gotPreface negb]. rewrite len_app. by left. }
  destruct (Z.ltb_spec (len input + len d2) (len h2Preface)) as [|_]; [lia|]. rewrite take_app_le by (unfold len in Hs; lia). case_bool_decide as Hp; cbn [negb].
  - rewrite drop_app_le by (unfold len in Hs; lia). by apply Hgo, Forall_drop.
  - intros _. left. unfold Http2Server.feed. cbn [inb gotPreface negb]. rewrite len_app. destruct (Z.ltb_spec (len input + len d2) (len h2Preface)) as [|_]; [lia|].
    rewrite take_app_le by (unfold len in Hs; lia). rewrite bool_decide_eq_false_2 by done. cbn [negb]. f_equal.
    pose proof (conn_error_closes H2ProtocolError (str "bad connection preface") c) as Hx. cbn [handleError] in Hx. unfold fail at 1. by rewrite Hx.
Qed.
End conn.
