(* ===== verification/Http2Run.v ===== *)
(** The runs of an HTTP/2 server connection, and what holds along them. *)
From Stdlib Require Import String.
From S2P Require Import Prelude.
From S2P Require Import HpackTables.
From S2P Require Import Huffman.
From S2P Require Import Hpack.
From S2P Require Import GoText.
From S2P Require Import HttpServer.
From S2P Require Import HttpWriter.
From S2P Require Import Http2Frame.
From S2P Require Import Http2Server.
From S2P Require Import Http2Inv.
From S2P Require Import Http2Calls.
From S2P Require Import Http2Handle.
From S2P Require Import Http2Control.
From S2P Require Import Http2Conn.

(** * Runs *)

Section run.
Context {U : Type}.
Abbreviation Conn := (h2ServerConn U).
Abbreviation Stream := (h2ServerStream U).
Context (ParseRequestURI : bytes -> option U) (unicode_lower : bytes -> bytes) (ParseURL : bytes -> option (bytes * bytes * bytes)).
Context (cfg : h2Config) (range : Conn -> list Z) (app : Z -> Request U -> list call).
Implicit Types (c : Conn) (s : Stream) (H : list h2Frame).
Abbreviation handled := (handled ParseRequestURI unicode_lower ParseURL cfg range app).
Abbreviation feed_loop := (feed_loop ParseRequestURI unicode_lower ParseURL cfg range app).
Abbreviation feed := (feed ParseRequestURI unicode_lower ParseURL cfg range app).
Abbreviation perform := (perform ParseRequestURI unicode_lower ParseURL cfg app).

(** The state of a run is the connection and the frames handled so far.  The
    application may call at any time for a stream it knows. *)
Inductive step : Conn * list h2Frame -> Conn * list h2Frame -> Prop :=
| step_frame c H f : frame_in f -> step (c, H) (handled f c, H ++ [f])
| step_garbled c H buf e : bytes_ok buf -> h2ReadFrame buf h2DefaultMaxFrameSize = Err e -> step (c, H) (handleError e c, H)
| step_preface c H : step (c, H) (fail H2ProtocolError (str "bad connection preface") c, H)
| step_call c H i a : known i c -> step (c, H) (perform i c a, H)
| step_shutdown c H : step (c, H) (shutdown c, H).

Definition initial : Conn := start cfg (newH2ServerConn cfg).
Definition reachable (x : Conn * list h2Frame) : Prop := rtc step (initial, []) x.

(** What is read takes such steps, and no others. *)
Lemma feed_loop_steps fuel rest c H : bytes_ok rest -> exists H', rtc step (c, H) ((feed_loop fuel rest c).2, H ++ H').
Proof.
  revert rest c H. induction fuel as [|fuel IH]; intros rest c H Hb; [exists []; by rewrite app_nil_r|]. rewrite feed_loop_step by done.
  pose proof (read_in rest Hb) as Hr. destruct (h2ReadFrame _ _) as [[f n]|e] eqn:E.
  - destruct (n =? 0); [exists []; by rewrite app_nil_r|]. destruct (stops _ _ _ _ _ _ f c); [exists [f]; by apply rtc_once, step_frame|].
    destruct (IH (drop (Z.to_nat n) rest) (handled f c) (H ++ [f])) as [H' R]; [by apply Forall_drop|]. exists (f :: H'). eapply rtc_l; [by apply step_frame|]. by rewrite <- app_assoc in R.
  - exists []. rewrite app_nil_r. apply rtc_once. by eapply step_garbled.
Qed.

Lemma feed_steps data inp c H : bytes_ok data -> fed inp -> exists H', rtc step (c, H) ((feed data (inp, c)).2, H ++ H').
Proof.
  intros Hd Hi. assert (Hb : bytes_ok (inb inp ++ data)) by by apply Forall_app. unfold Http2Server.feed.
  assert (Hgo : forall rest, bytes_ok rest -> exists H', rtc step (c, H) ((let '(rest, c) := feed_loop (S (length rest)) rest c in (Input rest true, c)).2, H ++ H')).
  { intros rest Hr. destruct (feed_loop_steps (S (length rest)) rest c H Hr) as [H' R]. exists H'. by destruct (feed_loop _ _ _). }
  destruct (negb _); [|by apply Hgo]. destruct (_ <? _); [exists []; by rewrite app_nil_r|]. destruct (negb _); [|by apply Hgo, Forall_drop].
  exists []. rewrite app_nil_r. apply rtc_once, step_preface.
Qed.

(** ** The invariant holds *)

Context (range_ok : forall c, range c ≡ₚ elements (streams c)) (cfg_ok : 0 <= MaxConcurrentStreams cfg < 2 ^ 32).

Definition hello_frames : list h2Frame :=
  [frame h2FrameSettings 0 0 (settings_payload
     [(h2SettingMaxConcurrentStreams, maxStreams cfg); (h2SettingInitialWindowSize, h2StreamWindow); (h2SettingMaxHeaderListSize, u32 (MaxHeaderBytes cfg)); (h2SettingEnablePush, 0)]);
   frame h2FrameWindowUpdate 0 0 (be_bytes 4 (Z.land (h2ConnWindow - h2DefaultWindow) 0x7fffffff))].

Lemma hello_ok : Forall (frame_ok limit) hello_frames /\ Forall quiet hello_frames.
Proof.
  unfold hello_frames. rewrite !Forall_cons. by split_and!.
Qed.

Lemma initial_good : good cfg (fun _ => None) [] initial.
Proof.
  pose proof (maxStreams_range cfg cfg_ok) as Hm. destruct hello_ok as [H1 H2].
  assert (Hc : core cfg (fun _ => None) [] [] [] ∅ (newH2ServerConn cfg : Conn)).
  { constructor; cbn; try done. destruct Hm. done. }
  unfold initial, start. rewrite append_window, append_settings. cbn [List.app]. rewrite <- encs_one, <- encs_one, <- encs_app. apply good_send; [|done|done].
  left. split; [by exists []|]. split; [intros i s Hs; done|]. intros [|]; done.
Qed.

Lemma shutdown_good tr H c : good cfg tr H c -> good cfg tr H (shutdown c).
Proof.
  intros [[[fs Hc] _]|[fs [Z1 Z2 Z3 Z4 Z5]]]; right; exists fs; [by eapply core_ended|by constructor].
Qed.

Lemma step_good tr c H c' H' : good cfg tr H c -> step (c, H) (c', H') -> good cfg tr H' c'.
Proof.
  intros Hg Hs. remember (c, H) as x eqn:Ex. remember (c', H') as y eqn:Ey. destruct Hs as [c0 H0 f Hf|c0 H0 buf e Hb He|c0 H0|c0 H0 i a Hk|c0 H0]; injection Ex as -> ->; injection Ey as <- <-.
  - by apply handled_good.
  - pose proof (read_in buf Hb) as Hr. rewrite He in Hr. destruct e as [code reason|]; [|done]. by apply read_failed.
  - apply fail_good; [by eapply good_sane|by apply reason_text].
  - by apply perform_good.
  - by apply shutdown_good.
Qed.

Lemma run_good tr c H x : good cfg tr H c -> rtc step (c, H) x -> good cfg tr x.2 x.1.
Proof.
  intros Hg Hr. assert (Hx : good cfg tr (c, H).2 (c, H).1) by done. clear Hg. revert Hr Hx. generalize (c, H) as x0. induction 1 as [|[c0 H0] [c1 H1] x2 Hs _ IH]; [done|]. intros Hg.
  apply IH. by eapply step_good.
Qed.

Lemma reachable_good c H : reachable (c, H) -> good cfg (fun _ => None) H c.
Proof. intros Hr. by apply (run_good _ initial [] (c, H)); [apply initial_good|]. Qed.

(** An open connection. *)
Lemma open_core tr c H : good cfg tr H c -> closed c = false -> exists fs, core cfg tr H fs [] ∅ c /\ awake ∅ c /\ going c /\ wire_frames (wire c) = Ok (fs, []).
Proof.
  intros [[[fs Hc] [Ha Hg]]|[fs He]] Ho; [|rewrite (z_closed _ _ _ He) in Ho; done]. exists fs. split_and!; [done..|]. rewrite (k_wire _ _ _ _ _ _ _ Hc). apply wire_frames_encs.
  pose proof (k_ok _ _ _ _ _ _ _ Hc) as Hok. by rewrite app_nil_r in Hok.
Qed.

(** C7: flow control.  Whatever the client sends and the application does, what is
    on the wire reads back as frames, and while the connection is open the bytes
    of all DATA frames and the window that is left are exactly what the client
    granted: 65535 and its WINDOW_UPDATEs, never overdrawn.  So are those of each
    open stream, from the initial window the client last set. *)
Theorem h2_flow_control c H : reachable (c, H) -> closed c = false ->
  exists fs, wire_frames (wire c) = Ok (fs, []) /\ data_total fs + sendWindow c = h2DefaultWindow + grants 0 H /\ 0 <= sendWindow c /\
    forall i s, store c !! i = Some s -> i ∈ streams c -> len (data_of i fs) + s_sendWindow s = peerWindow c + grants i H.
Proof.
  intros Hr Ho. destruct (open_core _ _ _ (reachable_good _ _ Hr) Ho) as (fs & Hc & _ & _ & Hw). exists fs. split; [done|].
  destruct (k_window _ _ _ _ _ _ _ Hc) as [W1 W2]. rewrite app_nil_r in W1. split_and!; [lia|done|]. intros i s Hs Hl.
  pose proof (v_win _ _ _ _ _ _ _ (k_streams _ _ _ _ _ _ _ Hc i s Hs) Hl) as V. rewrite app_nil_r in V. lia.
Qed.

(** C6: a response arrives as it was given.  Once a call of [respond] succeeded,
    the DATA frames of its stream carry a prefix of its body at all times, and the
    whole of it if the stream was ended, whatever follows.  While the connection
    is open and the stream was not reset, what is not sent yet is still there. *)
Theorem h2_body_intact c H i head r c1 c2 H2 : reachable (c, H) -> known i c -> respond unicode_lower i head r c = (None, c1) -> rtc step (c1, H) (c2, H2) ->
  exists fs, wire_frames (wire c2) = Ok (fs, []) /\ whole fs i (sent_body head r) /\
    (closed c2 = false -> exists s, store c2 !! i = Some s /\ (reset s = false -> data_of i fs ++ pending s = sent_body head r)).
Proof.
  intros Hr Hk E Hrun. set (tr := fun j => if j =? i then Some (sent_body head r) else None).
  assert (Hg1 : good cfg tr H c1).
  { apply (respond_good cfg unicode_lower (fun _ => None) tr H i head r c None c1); [by apply reachable_good|done| | |done]; unfold tr.
    - intros j Hj. by destruct (Z.eqb_spec j i).
    - intros B. rewrite Z.eqb_refl. by intros [= <-]. }
  pose proof (run_good tr c1 H (c2, H2) Hg1 Hrun) as Hg2. cbn [fst snd] in Hg2. assert (Ht : tr i = Some (sent_body head r)) by (unfold tr; by rewrite Z.eqb_refl). clearbody tr.
  destruct (closed c2) eqn:Ec.
  - destruct Hg2 as [[[fs Hc] _]|[fs He]]; [by rewrite (k_open _ _ _ _ _ _ _ Hc) in Ec|]. exists fs. rewrite (z_wire _ _ _ He). split_and!; [apply wire_frames_encs, He|by apply (z_track _ _ _ He)|done].
  - destruct (open_core _ _ _ Hg2 Ec) as (fs & Hc & _ & _ & Hw). exists fs. split_and!; [done|by apply (k_whole _ _ _ _ _ _ _ Hc)|]. intros _.
    destruct (k_track _ _ _ _ _ _ _ Hc i _ Ht) as (s & Hs & _ & _ & T). exists s. split; [done|]. rewrite app_nil_r in T. auto.
Qed.

(** C19: nothing waits without a reason.  Bytes of an open stream that were not
    sent wait for a window that is used up, its own or the connection's; and a
    connection that is going away, for either side, stays open only for streams
    that are not finished. *)
Theorem h2_no_stall c H : reachable (c, H) -> closed c = false ->
  (forall i s, store c !! i = Some s -> i ∈ streams c -> pending s <> [] -> sendWindow c <= 0 \/ s_sendWindow s <= 0) /\
  (goAway c = true \/ peerGoingAway c = true -> streams c <> ∅).
Proof.
  intros Hr Ho. destruct (open_core _ _ _ (reachable_good _ _ Hr) Ho) as (fs & _ & Ha & Hg & _). split; [|done]. intros i s Hs Hl. apply (Ha i s Hs Hl), not_elem_of_empty.
Qed.

(** The limits the connection announced are kept.  The client has at most as
    many streams open as it was allowed; more than half of the connection's
    window for what it sends is always open; a request's stream has its window,
    less what is not acknowledged; and the pushed streams are counted. *)
Theorem h2_limits c H : reachable (c, H) -> closed c = false ->
  Z.of_nat (base.size (odds (streams c))) <= maxStreams cfg /\ h2ConnWindow / 2 < recvWindow c <= h2ConnWindow /\
  (forall i s, store c !! i = Some s -> pushed s = false -> s_recvWindow s + s_recvUnacked s = h2StreamWindow /\ 0 <= s_recvUnacked s) /\
  pushedStreams c = Z.of_nat (base.size (evens (streams c))).
Proof.
  intros Hr Ho. destruct (open_core _ _ _ (reachable_good _ _ Hr) Ho) as (fs & Hc & _). destruct (k_recv _ _ _ _ _ _ _ Hc) as [R1 R2]. destruct (k_pushed _ _ _ _ _ _ _ Hc) as [P _].
  split_and!; [apply Hc| |lia| |done].
  - change (h2ConnWindow / 2) with 8388608 in *. change h2ConnWindow with 16777216 in *. lia.
  - intros i s Hs Hp. destruct (v_recv _ _ _ _ _ _ _ (k_streams _ _ _ _ _ _ _ Hc i s Hs) Hp) as [V1 V2]. split; [done|lia].
Qed.

(** C9: how the bytes are cut into reads does not matter.  For any pieces the
    client's bytes arrive in, what is sent, the requests that are served and
    whether the connection is closed are as if they had arrived at once, and so is
    the whole state of a connection that is still open. *)
Theorem h2_segmentation pieces : Forall (Forall byte_ok) pieces ->
  let one := feed (mjoin pieces) (Input [] false, initial) in
  let many := fold_left (fun x d => feed d x) pieces (Input [] false, initial) in
  (wire many.2, served many.2, closing many.2, closed many.2) = (wire one.2, served one.2, closing one.2, closed one.2) /\ (closed one.2 = false -> many = one).
Proof.
  intros Hp one many. assert (Ha : alike many one /\ fed many.1 /\ fed one.1 /\ exists H, good cfg (fun _ => None) H many.2).
  { unfold one, many. induction pieces as [|d pieces IH] using rev_ind.
    { assert (E : feed (mjoin []) (Input [] false, initial) = (Input [] false, initial)) by done. rewrite E. cbn [fold_left fst snd].
      split_and!; [by left|by apply Forall_nil|by apply Forall_nil|]. exists []. apply initial_good. }
    rewrite Forall_app, Forall_singleton in Hp. destruct Hp as [Hp Hd]. destruct (IH Hp) as (Ha & F1 & F2 & H & Hg). rewrite fold_left_app, join_app. cbn [fold_left mjoin list_join]. rewrite app_nil_r.
    assert (Hj : bytes_ok (mjoin pieces)). { clear -Hp. induction Hp; [done|]. cbn. by apply Forall_app. }
    set (many0 := fold_left _ pieces _) in *. clearbody many0. destruct many0 as [mi mc]. cbn [fst snd] in *.
    destruct (feed_good ParseRequestURI unicode_lower ParseURL cfg range range_ok app cfg_ok (fun _ => None) [] (mjoin pieces) (Input [] false) initial initial_good Hj ltac:(done)) as (H1 & G1 & _).
    destruct (feed_good ParseRequestURI unicode_lower ParseURL cfg range range_ok app cfg_ok (fun _ => None) [] (mjoin pieces ++ d) (Input [] false) initial initial_good ltac:(by apply Forall_app) ltac:(done)) as (_ & _ & F4 & _).
    destruct (feed_good ParseRequestURI unicode_lower ParseURL cfg range range_ok app cfg_ok (fun _ => None) H d mi mc Hg Hd F1) as (H3 & G3 & F3 & _).
    split_and!; [|done|done|by eexists]. etrans; [apply (feed_alike _ _ _ _ _ range_ok _ d (mi, mc) (feed (mjoin pieces) (Input [] false, initial)) Hd F1 F2 Ha)|]. apply feed_split; [done|by apply Forall_nil|done|done|].
    intros Hcl. destruct G1 as [[[fs Hc] _]|[fs He]]; [rewrite (k_open _ _ _ _ _ _ _ Hc) in Hcl; done|apply He]. }
  destruct Ha as ([->|[Ho Hv]] & _ & _ & _); [done|]. unfold obs in Hv. injection Hv as E1 E2 E3 E4 E5. rewrite E1, E2, E3, E4. split; [done|]. rewrite <- E4. destruct Ho as [-> _]. done.
Qed.
End run.
