(* ===== verification/Http2Demo.v ===== *)
(** Runs of an HTTP/2 server connection on concrete frames: witnesses of its
    theorems, and four behaviours that are not as they were meant. *)
From Stdlib Require Import String.
From S2P Require Import Prelude.
From S2P Require Import HpackTables.
From S2P Require Import Huffman.
From S2P Require Import Hpack.
From S2P Require Import GoText.
From S2P Require Import HttpServer.
From S2P Require Import HttpWriter.
From S2P Require Import Http2Frame.
From S2P Require Import Http2Server.
From S2P Require Import Http2Inv.
From S2P Require Import Http2Calls.
From S2P Require Import Http2Handle.
From S2P Require Import Http2Control.
From S2P Require Import Http2Headers.
From S2P Require Import Http2Conn.
From S2P Require Import Http2Run.

(** * A server *)

Definition demo_uri (b : bytes) : option bytes := if is_prefix [47] b then Some b else None.
Definition demo_cfg : h2Config := H2Config 10 1000 100 false.
Definition demo_range (c : h2ServerConn bytes) : list Z := elements (streams c).

(** The handler: it answers every request with five bytes. *)
Definition five (close : bool) : Response := MkResponse 200 [] [1; 2; 3; 4; 5] [] close.
Definition demo_app (close : bool) (i : Z) (r : Request bytes) : list call := [Respond (five close)].

Definition demo_run (app : Z -> Request bytes -> list call) (fs : list h2Frame) (c : h2ServerConn bytes) : h2ServerConn bytes :=
  handle_all demo_uri (fun x => x) (fun _ => None) demo_cfg demo_range app fs c.
Definition demo_step (app : Z -> Request bytes -> list call) := step demo_uri (fun x => x) (fun _ => None) demo_cfg demo_range app.
Definition demo_start : h2ServerConn bytes := initial demo_cfg.

Lemma demo_range_ok c : demo_range c ≡ₚ elements (streams c).
Proof. done. Qed.

Lemma demo_cfg_ok : 0 <= MaxConcurrentStreams demo_cfg < 2 ^ 32.
Proof. done. Qed.

(** Frames that may be read, checked by computation. *)
Definition frame_in_b (f : h2Frame) : bool :=
  (0 <=? streamID f) && (streamID f <? 2 ^ 31) && (0 <=? flen f) && (flen f <? 2 ^ 24) && forallb (fun b => (0 <=? b) && (b <? 256)) (payload f).

Lemma frame_in_check fs : forallb frame_in_b fs = true -> Forall frame_in fs.
Proof.
  intros H. apply Forall_forall. intros f Hf. rewrite forallb_forall in H. apply list_elem_of_In in Hf. apply H in Hf. unfold frame_in_b in Hf.
  rewrite !andb_true_iff, !Z.leb_le, !Z.ltb_lt in Hf. destruct Hf as ((((H1 & H2) & H3) & H4) & H5). split_and!; [done..|by apply bytes_check].
Qed.

Lemma demo_steps app fs c H : forallb frame_in_b fs = true -> rtc (demo_step app) (c, H) (demo_run app fs c, H ++ fs).
Proof.
  intros Hf%frame_in_check. revert c H. induction Hf as [|f fs Hf _ IH]; intros c H; [by rewrite app_nil_r|]. eapply rtc_l; [by apply step_frame|].
  specialize (IH (handled demo_uri (fun x => x) (fun _ => None) demo_cfg demo_range app f c) (H ++ [f])). by rewrite <- app_assoc in IH.
Qed.

(** ** A client *)

Definition request_fields (method : string) (more : list (HeaderField * bool)) : list (HeaderField * bool) :=
  [(Field (str ":method") (str method), false); (Field (str ":scheme") (str "http"), false); (Field (str ":path") (str "/"), false); (Field (str ":authority") (str "a"), false)] ++ more.

Definition request_block (method : string) (more : list (HeaderField * bool)) : bytes := (encode_block (request_fields method more) NewEncoder).2.
Definition client_settings (window : Z) : h2Frame := frame h2FrameSettings 0 0 (settings_payload [(h2SettingInitialWindowSize, window)]).
Definition client_window (i n : Z) : h2Frame := frame h2FrameWindowUpdate 0 i (be_bytes 4 n).
Definition client_data (fl i : Z) (p : bytes) : h2Frame := frame h2FrameData fl i p.

(** A request whose response does not fit into the window, and a little more of it. *)
Definition demo_frames : list h2Frame := client_settings 3 :: header_frames 1 (request_block "GET" []) true 16384 ++ [client_window 1 1].
Definition demo_conn : h2ServerConn bytes := demo_run (demo_app false) demo_frames demo_start.

Lemma demo_reachable : reachable demo_uri (fun x => x) (fun _ => None) demo_cfg demo_range (demo_app false) (demo_conn, demo_frames).
Proof. apply (demo_steps (demo_app false) demo_frames demo_start []). by vm_compute. Qed.

Lemma demo_open : closed demo_conn = false.
Proof. by vm_compute. Qed.

(** Four of the five bytes are out. *)
Lemma h2_flow_control_witness : exists fs, wire_frames (wire demo_conn) = Ok (fs, []) /\ data_total fs + sendWindow demo_conn = h2DefaultWindow + grants 0 demo_frames /\ 0 <= sendWindow demo_conn /\
  forall i s, store demo_conn !! i = Some s -> i ∈ streams demo_conn -> len (data_of i fs) + s_sendWindow s = peerWindow demo_conn + grants i demo_frames.
Proof. exact (h2_flow_control _ _ _ _ _ _ demo_range_ok demo_cfg_ok demo_conn demo_frames demo_reachable demo_open). Defined.

Lemma h2_no_stall_witness :
  (forall i s, store demo_conn !! i = Some s -> i ∈ streams demo_conn -> pending s <> [] -> sendWindow demo_conn <= 0 \/ s_sendWindow s <= 0) /\
  (goAway demo_conn = true \/ peerGoingAway demo_conn = true -> streams demo_conn <> ∅).
Proof. exact (h2_no_stall _ _ _ _ _ _ demo_range_ok demo_cfg_ok demo_conn demo_frames demo_reachable demo_open). Defined.

Lemma h2_limits_witness :
  Z.of_nat (base.size (odds (streams demo_conn))) <= maxStreams demo_cfg /\ h2ConnWindow / 2 < recvWindow demo_conn <= h2ConnWindow /\
  (forall i s, store demo_conn !! i = Some s -> pushed s = false -> s_recvWindow s + s_recvUnacked s = h2StreamWindow /\ 0 <= s_recvUnacked s) /\
  pushedStreams demo_conn = Z.of_nat (base.size (evens (streams demo_conn))).
Proof. exact (h2_limits _ _ _ _ _ _ demo_range_ok demo_cfg_ok demo_conn demo_frames demo_reachable demo_open). Defined.

(** The application answers later. *)
Definition silent (i : Z) (r : Request bytes) : list call := [].
Definition asked : list h2Frame := client_settings 3 :: header_frames 1 (request_block "GET" []) true 16384.
Definition asked_conn : h2ServerConn bytes := demo_run silent asked demo_start.
Definition answered_conn : h2ServerConn bytes := (respond (fun x => x) 1 false (five false) asked_conn).2.
Definition topped : list h2Frame := [client_window 1 1; client_window 1 1].

Lemma h2_body_intact_witness : exists fs, wire_frames (wire (demo_run silent topped answered_conn)) = Ok (fs, []) /\ whole fs 1 (sent_body false (five false)) /\
  (closed (demo_run silent topped answered_conn) = false ->
   exists s, store (demo_run silent topped answered_conn) !! 1 = Some s /\ (reset s = false -> data_of 1 fs ++ pending s = sent_body false (five false))).
Proof.
  apply (h2_body_intact demo_uri (fun x => x) (fun _ => None) demo_cfg demo_range silent demo_range_ok demo_cfg_ok asked_conn asked 1 false (five false) answered_conn _ (asked ++ topped)).
  - apply (demo_steps silent asked demo_start []). by vm_compute.
  - vm_compute. by eexists.
  - by vm_compute.
  - apply (demo_steps silent topped answered_conn asked). by vm_compute.
Defined.

(** The same bytes in one piece, and cut in the preface and within frames. *)
Definition demo_bytes : bytes := h2Preface ++ encs demo_frames.
Definition demo_pieces : list bytes := [take 10 demo_bytes; take 20 (drop 10 demo_bytes); drop 30 demo_bytes].

Lemma h2_segmentation_witness :
  let one := feed demo_uri (fun x => x) (fun _ => None) demo_cfg demo_range (demo_app false) (mjoin demo_pieces) (Input [] false, demo_start) in
  let many := fold_left (fun x d => feed demo_uri (fun x => x) (fun _ => None) demo_cfg demo_range (demo_app false) d x) demo_pieces (Input [] false, demo_start) in
  (wire many.2, served many.2, closing many.2, closed many.2) = (wire one.2, served one.2, closing one.2, closed one.2) /\ (closed one.2 = false -> many = one).
Proof.
  apply (h2_segmentation demo_uri (fun x => x) (fun _ => None) demo_cfg demo_range (demo_app false) demo_range_ok demo_cfg_ok demo_pieces).
  apply Forall_cons_2; [|apply Forall_cons_2; [|apply Forall_cons_2; [|apply Forall_nil_2]]]; apply bytes_check; by vm_compute.
Defined.

(** ** Header blocks *)

Definition ready_conn : h2ServerConn bytes := demo_run silent [client_settings 3] demo_start.

(** The block is cut into frames of ten bytes. *)
Lemma h2_headers_arrive_witness : exists ce cb d, sync (encode_block (request_fields "GET" []) NewEncoder).1 d /\ MaxStringLength d = MaxStringLength (dec ready_conn) /\
  handle_all demo_uri (fun x => x) (fun _ => None) demo_cfg demo_range silent (header_frames 1 (request_block "GET" []) true 10) ready_conn =
    settle (handle_fields demo_uri (fun x => x) (fun _ => None) demo_cfg silent 1 (fst <$> request_fields "GET" []) true false (with_cont ce cb ready_conn <| dec := d |>)).
Proof.
  apply (h2_headers_arrive demo_uri (fun x => x) (fun _ => None) demo_cfg demo_range silent ready_conn NewEncoder _ (request_block "GET" []) (request_fields "GET" [])).
  - replace (dec ready_conn) with (Dec (Table [] 0 DefaultTableSize) DefaultTableSize 1000) by by vm_compute. split; try done; by split.
  - replace (MaxStringLength (dec ready_conn)) with 1000 by by vm_compute. repeat apply Forall_cons_2; [..|apply Forall_nil_2]; split; try (split; by vm_compute); apply bytes_check; by vm_compute.
  - by vm_compute.
  - by vm_compute.
  - by vm_compute.
  - lia.
  - lia.
  - done.
  - by vm_compute.
  - by vm_compute.
Defined.

(** * Not as meant *)

(** The frames a connection has sent. *)
Definition sent_frames (c : h2ServerConn bytes) : list h2Frame := match wire_frames (wire c) with Ok (fs, _) => fs | Err _ => [] end.

Definition closing_frames : list h2Frame := client_settings 3 :: header_frames 1 (request_block "GET" []) true 16384 ++ [client_window 1 100].

(** The end of a response is lost when the connection is going away.  The
    response closes the connection and waits for the client's window; the
    WINDOW_UPDATE that lets it go on finishes the stream, which closes the
    connection before the collected DATA frame is sent.  The client, which
    granted 103 bytes, gets three of five, and no end of the stream. *)
Theorem goaway_truncates : let c := demo_run (demo_app true) closing_frames demo_start in
  closed c = true /\ closing c = true /\ data_of 1 (sent_frames c) = [1; 2; 3] /\ ended 1 (sent_frames c) = false /\ grants 1 closing_frames = 100.
Proof. split_and!; by vm_compute. Qed.

Definition early_frames : list h2Frame :=
  client_settings 3 :: header_frames 1 (request_block "POST" [(Field (str "content-length") (str "101"), false)]) false 16384 ++ [client_window 1 100].

(** C0: a stream is reset before its data is sent.  The response to a request that
    is too large waits for the window; when it may go on, RST_STREAM is sent at
    once and the rest of the response, with END_STREAM, after it. *)
Theorem reset_before_data : let c := demo_run (demo_app false) early_frames demo_start in
  closed c = false /\
  ((fun f => (typ f, streamID f, has f h2FlagEndStream)) <$> drop 4 (sent_frames c)) = [(h2FrameData, 1, false); (h2FrameRSTStream, 1, false); (h2FrameData, 1, true)].
Proof. split_and!; by vm_compute. Qed.

Definition large_frames : list h2Frame :=
  client_settings 0 :: header_frames 1 (request_block "POST" []) false 16384 ++ [client_data 0 1 (replicate 101 7); client_data h2FlagEndStream 1 [9; 9]].

(** C0: a request that was refused is served.  Its body was too large, and the
    response that says so waits for the client's window; the last DATA frame of the
    request then gives it to the handler, with the two bytes that came after. *)
Theorem rejected_served : let c := demo_run (demo_app false) large_frames demo_start in
  responded (get 1 (demo_run (demo_app false) (take 3 large_frames) demo_start)) = true /\ served (demo_run (demo_app false) (take 3 large_frames) demo_start) = [] /\
  ((fun '(i, r) => (i, ReqBody r)) <$> served c) = [(1, [9; 9])].
Proof. split_and!; by vm_compute. Qed.

(** Two requests of one client, the second of which refers to a field of the first. *)
Definition first_request : Encoder * bytes := encode_block (request_fields "GET" [(Field (str "x-a") (str "b"), false)]) NewEncoder.
Definition second_request : Encoder * bytes := encode_block (request_fields "GET" [(Field (str "x-a") (str "b"), false)]) first_request.1.
Definition priority_frames (parent : Z) : list h2Frame :=
  [client_settings 100; frame h2FrameHeaders (h2FlagEndHeaders + h2FlagEndStream + h2FlagPriority) 1 (be_bytes 4 parent ++ [0] ++ first_request.2);
   frame h2FrameHeaders (h2FlagEndHeaders + h2FlagEndStream) 3 second_request.2].

(** C0: the tables get out of step.  A HEADERS frame that depends on its own stream
    is a stream error, and its block is not decoded, though the client has put its
    fields into the table; the next request that refers to one ends the
    connection.  Depending on another stream, both requests are served. *)
Theorem priority_out_of_step :
  closed (demo_run (demo_app false) (priority_frames 1) demo_start) = true /\ served (demo_run (demo_app false) (priority_frames 1) demo_start) = [] /\
  (fst <$> served (demo_run (demo_app false) (priority_frames 0) demo_start)) = [1; 3].
Proof. split_and!; by vm_compute. Qed.
