(* ===== verification/Http3Frames.v ===== *)
(** HTTP/3 frames and fields: src/go/http3/frames.go and fields.go.

    The frame parser hands DATA on as it arrives and every other frame whole.
    [onData] and [onFrame] thread a state and may fail; the parser is proved to
    act on them as if the stream had arrived at once, provided that DATA may be
    cut anywhere. *)
From Stdlib Require Import String.
From S2P Require Import Prelude.
From S2P Require Import Varint.
From S2P Require Import HpackTables.
From S2P Require Import Huffman.
From S2P Require Import Hpack.
From S2P Require Import Qpack.
From S2P Require Import GoText.
From S2P Require Import HttpWriter.
From S2P Require Import Http2Server.

Definition frameData : Z := 0x00.
Definition frameHeaders : Z := 0x01.
Definition frameCancelPush : Z := 0x03.
Definition frameSettings : Z := 0x04.
Definition framePushPromise : Z := 0x05.
Definition frameGoAway : Z := 0x07.
Definition frameMaxPushID : Z := 0x0d.

Definition streamControl : Z := 0x00.
Definition streamPush : Z := 0x01.
Definition streamQPACKEncoder : Z := 0x02.
Definition streamQPACKDecoder : Z := 0x03.

Definition settingMaxFieldSectionSize : Z := 0x06.

Definition ErrCodeNoError : Z := 0x100.
Definition ErrCodeInternalError : Z := 0x102.
Definition ErrCodeStreamCreationError : Z := 0x103.
Definition ErrCodeClosedCriticalStream : Z := 0x104.
Definition ErrCodeFrameUnexpected : Z := 0x105.
Definition ErrCodeFrameError : Z := 0x106.
Definition ErrCodeExcessiveLoad : Z := 0x107.
Definition ErrCodeIDError : Z := 0x108.
Definition ErrCodeSettingsError : Z := 0x109.
Definition ErrCodeMissingSettings : Z := 0x10a.
Definition ErrCodeRequestRejected : Z := 0x10b.
Definition ErrCodeRequestCancelled : Z := 0x10c.
Definition ErrCodeRequestIncomplete : Z := 0x10d.
Definition ErrCodeMessageError : Z := 0x10e.
Definition ErrCodeQPACKDecompressionFailed : Z := 0x200.

(** An error that ends the connection: [connError], or one of QPACK's. *)
Inductive h3_error := connErr (code : Z) (reason : bytes) | decompressionErr.

(** * Frames *)

Definition appendFrameHeader (b : bytes) (typ length : Z) : bytes := AppendVarint (AppendVarint b typ) length.

Definition appendSettings (b : bytes) (settings : list (Z * Z)) : bytes :=
  let payload := fold_left (fun p '(id, value) => AppendVarint (AppendVarint p id) value) settings [] in
  appendFrameHeader b frameSettings (len payload) ++ payload.

(** The loop over the settings; each takes at least two bytes. *)
Fixpoint settings_loop (fuel : nat) (payload : bytes) (seen : gset Z) (maxField : Z) : result h3_error Z :=
  match fuel, payload with
  | S fuel, _ :: _ =>
      let '(id, n) := ReadVarint payload in
      if n =? 0 then Err (connErr ErrCodeFrameError (str "truncated SETTINGS"))
      else
        let payload := drop (Z.to_nat n) payload in
        let '(value, n) := ReadVarint payload in
        if n =? 0 then Err (connErr ErrCodeFrameError (str "truncated SETTINGS"))
        else
          let payload := drop (Z.to_nat n) payload in
          if decide (id ∈ seen) then Err (connErr ErrCodeSettingsError (str "duplicate setting"))
          else if (2 <=? id) && (id <=? 5) then Err (connErr ErrCodeSettingsError (str "HTTP/2 setting in HTTP/3"))
          else settings_loop fuel payload ({[id]} ∪ seen) (if id =? settingMaxFieldSectionSize then value else maxField)
  | _, _ => Ok maxField
  end.

Definition parseSettings (payload : bytes) : result h3_error Z := settings_loop (length payload) payload ∅ 0.

Record frameParser := FrameParser { pbuf : bytes; dataLeft : Z; maxFrame : Z }.

Section parser.
Context {St : Type} (onData : bytes -> St -> St * option h3_error) (onFrame : Z -> bytes -> St -> St * option h3_error) (mx : Z).

(** What the loop leaves: the rest of the buffer, if it is kept, what is left of
    a DATA frame, the state and an error.  Each round takes at least a byte. *)
Fixpoint parse_loop (fuel : nat) (buf : bytes) (left : Z) (st : St) : option bytes * Z * St * option h3_error :=
  match fuel with
  | O => (Some buf, left, st, None)
  | S fuel =>
      if 0 <? left then
        let n := Z.min (len buf) left in
        if n =? 0 then (Some buf, left, st, None)
        else
          let '(st, err) := onData (take (Z.to_nat n) buf) st in
          let buf := drop (Z.to_nat n) buf in
          match err with Some _ => (Some buf, left - n, st, err) | None => parse_loop fuel buf (left - n) st end
      else
        let '(typ, n1) := ReadVarint buf in
        if n1 =? 0 then (Some buf, left, st, None)
        else
          let '(length, n2) := ReadVarint (drop (Z.to_nat n1) buf) in
          if n2 =? 0 then (Some buf, left, st, None)
          else if typ =? frameData then
            let '(st, err) := onData [] st in
            let buf := drop (Z.to_nat (n1 + n2)) buf in
            match err with Some _ => (Some buf, length, st, err) | None => parse_loop fuel buf length st end
          else if mx <? length then (None, left, st, Some (connErr ErrCodeExcessiveLoad (str "frame too large")))
          else if len buf - n1 - n2 <? length then (Some buf, left, st, None)
          else
            let '(st, err) := onFrame typ (take (Z.to_nat length) (drop (Z.to_nat (n1 + n2)) buf)) st in
            let buf := drop (Z.to_nat (n1 + n2 + length)) buf in
            match err with Some _ => (Some buf, left, st, err) | None => parse_loop fuel buf left st end
  end.
End parser.

(** [frameParser.feed] *)
Definition feed_frames {St} (onData : bytes -> St -> St * option h3_error) (onFrame : Z -> bytes -> St -> St * option h3_error) (data : bytes) (p : frameParser) (st : St)
  : frameParser * St * option h3_error :=
  let input := pbuf p ++ data in
  let '(rest, remaining, st, err) := parse_loop onData onFrame (maxFrame p) (S (length input)) input (dataLeft p) st in
  (FrameParser (default input rest) remaining (maxFrame p), st, err).

Definition midFrame (p : frameParser) : bool := (0 <? dataLeft p) || (0 <? len (pbuf p)).

Definition reservedFrame (typ : Z) : bool := (typ =? 2) || (typ =? 6) || (typ =? 8) || (typ =? 9).

(** * Fields *)

Definition connectionHeaders : list bytes := str <$> ["connection"; "keep-alive"; "proxy-connection"; "transfer-encoding"; "upgrade"]%string.

Fixpoint valid_bytes (first : bool) (name : bytes) : bool :=
  match name with
  | [] => true
  | c :: name => negb (((65 <=? c) && (c <=? 90)) || (c <=? 32) || (127 <=? c) || ((c =? 58) && negb first)) && valid_bytes false name
  end.

Definition validName (name : bytes) : bool := negb (bool_decide (name = [])) && valid_bytes true name.

Definition space (c : option Z) : bool := match c with Some c => (c =? 32) || (c =? 9) | None => false end.

Definition validValue (value : bytes) : bool :=
  forallb (fun c => negb ((c =? 0) || (c =? 13) || (c =? 10))) value && negb (space (head value)) && negb (space (last value)).

Definition sendableValue (value : bytes) : bool := forallb (fun c => negb (((c <? 32) && negb (c =? 9)) || (c =? 127))) value.

Definition sensitive (name : bytes) : bool :=
  bool_decide (name = str "authorization") || bool_decide (name = str "cookie") || bool_decide (name = str "set-cookie") || bool_decide (name = str "proxy-authorization").

Section fields.
Context {U : Type} (ParseRequestURI : bytes -> option U) (unicode_lower : bytes -> bytes).
Abbreviation ToLower := (ToLower unicode_lower).

Definition checkHeader (header : fields) : bool :=
  forallb (fun '(key, values) =>
    negb (bool_decide (key = []) || bool_decide (CanonicalMIMEHeaderKey key = []) || negb (validName (ToLower key))) && forallb sendableValue values) header.

(** The fields that are sent, each with whether it is sensitive. *)
Definition sent_fields (skip : bytes -> bool) (header : fields) : list (HeaderField * bool) :=
  mjoin ((fun '(key, values) =>
    let name := ToLower key in
    if bool_decide (name ∈ connectionHeaders) || skip name then [] else (fun v => (Field name v, sensitive name)) <$> values) <$> header).

Definition append_lines (fs : list (HeaderField * bool)) (block : bytes) : bytes := fold_left (fun b p => Qpack.AppendField b (Name p.1) (Value p.1) p.2) fs block.

Definition appendHeader (block : bytes) (header : fields) (skip : bytes -> bool) : bytes :=
  fold_left (fun b '(key, values) =>
    let name := ToLower key in
    if bool_decide (name ∈ connectionHeaders) || skip name then b
    else fold_left (fun b v => Qpack.AppendField b name v (sensitive name)) values b) header block.

Definition appendHeadersFrame (b block : bytes) : bytes := appendFrameHeader b frameHeaders (len block) ++ block.

(** The pseudo-headers seen so far, and what they say. *)
Record request_line := RequestLine { q_method : bytes; q_scheme : bytes; q_authority : bytes; q_path : bytes; q_seen : gset Z }.

Definition set_line (name v : bytes) (q : request_line) : option request_line :=
  let slot n q' := if decide (n ∈ q_seen q) then None else Some q' in
  let '(RequestLine m s a p seen) := q in
  if bool_decide (name = str ":method") then slot 0 (RequestLine v s a p ({[0]} ∪ seen))
  else if bool_decide (name = str ":scheme") then slot 1 (RequestLine m v a p ({[1]} ∪ seen))
  else if bool_decide (name = str ":authority") then slot 2 (RequestLine m s v p ({[2]} ∪ seen))
  else if bool_decide (name = str ":path") then slot 3 (RequestLine m s a v ({[3]} ∪ seen))
  else None.

Fixpoint fields_loop (fs : list HeaderField) (q : request_line) (h : Header) (cookies : list bytes) (regular : bool) : option (request_line * Header * list bytes) :=
  match fs with
  | [] => Some (q, h, cookies)
  | f :: fs =>
      if is_prefix [58] (Name f) then
        if regular then None else let? q := set_line (Name f) (Value f) q in fields_loop fs q h cookies regular
      else if negb (validName (Name f)) || negb (validValue (Value f)) || bool_decide (Name f ∈ connectionHeaders) then None
      else if bool_decide (Name f = str "te") && negb (bool_decide (Value f = str "trailers")) then None
      else if bool_decide (Name f = str "cookie") then fields_loop fs q h (cookies ++ [Value f]) true
      else fields_loop fs q (add_values (CanonicalMIMEHeaderKey (Name f)) [Value f] h) cookies true
  end.

Definition newRequest (fs : list HeaderField) : option (Request U) :=
  let? (q, h, cookies) := fields_loop fs (RequestLine [] [] [] [] ∅) ∅ [] false in
  let h := match cookies with [] => h | _ => <[str "Cookie" := [join (str "; ") cookies]]> h end in
  if bool_decide (q_method q = []) then None
  else
    let? (url, uri) :=
      if bool_decide (q_method q = str "CONNECT") then
        if negb (bool_decide (q_scheme q = [])) || negb (bool_decide (q_path q = [])) || bool_decide (q_authority q = []) then None
        else Some (Http2Server.Opaque (q_authority q), q_authority q)
      else if bool_decide (q_scheme q = []) || bool_decide (q_path q = []) then None
      else if bool_decide (q_path q = str "*") then Some (Star, q_path q)
      else let? u := ParseRequestURI (q_path q) in Some (Parsed u, q_path q) in
    let host := if bool_decide (q_authority q = []) then Get h (str "Host") else q_authority q in
    Some (MkRequest U (q_method q) url uri host (delete (str "Host") h) None []).

Fixpoint trailer_fields (fs : list HeaderField) (h : Header) : option Header :=
  match fs with
  | [] => Some h
  | f :: fs =>
      if is_prefix [58] (Name f) || negb (validName (Name f)) || negb (validValue (Value f)) || bool_decide (Name f ∈ connectionHeaders) then None
      else trailer_fields fs (add_values (CanonicalMIMEHeaderKey (Name f)) [Value f] h)
  end.

Definition trailerFrom (fs : list HeaderField) : option Header := trailer_fields fs ∅.

(** A response as the client sees it. *)
Record ClientResponse := MkClientResponse { c_status : Z; c_header : Header; c_length : Z }.

Fixpoint response_loop (fs : list HeaderField) (status : bytes) (h : Header) : option (bytes * Header) :=
  match fs with
  | [] => Some (status, h)
  | f :: fs =>
      if is_prefix [58] (Name f) then
        if negb (bool_decide (Name f = str ":status")) || negb (bool_decide (status = [])) || negb (bool_decide (h = ∅)) then None
        else response_loop fs (Value f) h
      else if negb (validName (Name f)) || bool_decide (Name f ∈ connectionHeaders) then None
      else response_loop fs status (add_values (CanonicalMIMEHeaderKey (Name f)) [Value f] h)
  end.

(** [Some None] is an interim response. *)
Definition newResponse (fs : list HeaderField) : option (option ClientResponse) :=
  let? (status, h) := response_loop fs [] ∅ in
  let? code := ParseInt status 10 in
  if negb (len status =? 3) || (code <? 100) then None
  else if code <? 200 then if code =? 101 then None else Some None
  else
    let cl := Get h (str "Content-Length") in
    if bool_decide (cl = []) then Some (Some (MkClientResponse code h (-1)))
    else match ParseInt cl 10 with
         | Some n => if n <? 0 then None else Some (Some (MkClientResponse code h n))
         | None => None
         end.

Definition bodyAllowed (head : bool) (status : Z) : bool := negb head && negb (status =? 204) && negb (status =? 304) && (200 <=? status).

(** [Err]: the section is too large or cannot be decoded. *)
Definition decodeFields (block : bytes) (maxSize : Z) : option (result qpack_error (list HeaderField)) :=
  match Qpack.Decode collect maxSize [] block with
  | None => None
  | Some (fs, Done) => Some (Ok fs)
  | Some (_, Failed e) => Some (Err e)
  | Some (_, Refused e) => match e with end
  end.

Definition forbidden_trailers : list bytes :=
  str <$> ["content-length"; "transfer-encoding"; "trailer"; "host"; "content-type"; "content-encoding"; "content-range"; "cache-control"; "expect"; "max-forwards"; "pragma";
           "range"; "te"; "authorization"; "set-cookie"]%string.

Definition validTrailer (name : bytes) (values : list bytes) : bool :=
  negb (bool_decide (name ∈ forbidden_trailers)) && negb (bool_decide (name = []) || bool_decide (name ∈ connectionHeaders) || negb (validName name)) && forallb sendableValue values.
End fields.

(** * Pieces *)

Lemma ReadVarint_short b v n : ReadVarint b = (v, n) -> n <> 0 -> n <= len b.
Proof. destruct b as [|b0 tail]; [intros [= <- <-]; done|]. unfold ReadVarint. destruct (Z.ltb_spec (len (b0 :: tail)) (Z.shiftl 1 (Z.shiftr b0 6))); intros [= <- <-]; done || lia. Qed.

(** A varint that is complete stays so when more arrives. *)
Lemma ReadVarint_more b more v n : bytes_ok b -> ReadVarint b = (v, n) -> n <> 0 -> ReadVarint (b ++ more) = (v, n) /\ 1 <= n <= len b.
Proof.
  intros Hb E Hn. pose proof (ReadVarint_short _ _ _ E Hn) as Hl. destruct (ReadVarint_value _ _ _ Hb E Hn) as [Hq _]. split; [|lia].
  destruct b as [|b0 tail]; [injection E as <- <-; done|]. cbn [app]. unfold ReadVarint in *. destruct (Z.ltb_spec (len (b0 :: tail)) (Z.shiftl 1 (Z.shiftr b0 6))) as [|Hx]; [injection E as <- <-; done|].
  injection E as <- <-. destruct (Z.ltb_spec (len (b0 :: tail ++ more)) (Z.shiftl 1 (Z.shiftr b0 6))) as [Hy|_]; [rewrite !len_cons, ?len_app in *; pose proof (len_nonneg more); lia|].
  rewrite take_app_le; [done|]. rewrite len_cons in Hl. unfold len in *. lia.
Qed.

Section pieces.
Context {St : Type} (onData : bytes -> St -> St * option h3_error) (onFrame : Z -> bytes -> St -> St * option h3_error) (mx : Z).

(** What every call of the two keeps, the parser keeps. *)
Lemma parse_keeps (K : St -> Prop) (R : St -> St -> Prop) :
  (forall st, K st -> R st st) -> (forall a b c, R a b -> R b c -> R a c) -> (forall a b, R a b -> K b) ->
  (forall d st, K st -> R st (onData d st).1) -> (forall t d st, K st -> R st (onFrame t d st).1) ->
  forall fuel buf left st, K st -> R st (parse_loop onData onFrame mx fuel buf left st).1.2.
Proof.
  intros Rr Rt Rk HD HF. induction fuel as [|fuel IH]; intros buf left st Hst; [by apply Rr|]. cbn [parse_loop]. destruct (0 <? left).
  - destruct (_ =? 0); [by apply Rr|]. set (d := take _ buf). specialize (HD d st Hst). destruct (onData d st) as [st1 [e|]]; [done|]. eapply Rt; [exact HD|]. apply IH. by eapply Rk.
  - destruct (ReadVarint buf) as [typ n1]. destruct (n1 =? 0); [by apply Rr|]. destruct (ReadVarint _) as [ln n2]. destruct (n2 =? 0); [by apply Rr|]. destruct (typ =? frameData).
    + specialize (HD [] st Hst). destruct (onData [] st) as [st1 [e|]]; [done|]. eapply Rt; [exact HD|]. apply IH. by eapply Rk.
    + destruct (mx <? ln); [by apply Rr|]. destruct (_ <? ln); [by apply Rr|]. set (d := take _ _). specialize (HF typ d st Hst). destruct (onFrame typ d st) as [st1 [e|]]; [done|]. eapply Rt; [exact HF|]. apply IH. by eapply Rk.
Qed.

(** DATA may be cut anywhere. *)
Definition splittable : Prop := forall a b st, a <> [] -> b <> [] ->
  onData (a ++ b) st = let '(st, err) := onData a st in match err with Some _ => (st, err) | None => onData b st end.

Definition parse (buf : bytes) (left : Z) (st : St) := parse_loop onData onFrame mx (S (length buf)) buf left st.

(** One round, and how to go on. *)
Definition round (k : bytes -> Z -> St -> option bytes * Z * St * option h3_error) (buf : bytes) (left : Z) (st : St) : option bytes * Z * St * option h3_error :=
  if 0 <? left then
    let n := Z.min (len buf) left in
    if n =? 0 then (Some buf, left, st, None)
    else
      let '(st, err) := onData (take (Z.to_nat n) buf) st in
      let buf := drop (Z.to_nat n) buf in
      match err with Some _ => (Some buf, left - n, st, err) | None => k buf (left - n) st end
  else
    let '(typ, n1) := ReadVarint buf in
    if n1 =? 0 then (Some buf, left, st, None)
    else
      let '(length, n2) := ReadVarint (drop (Z.to_nat n1) buf) in
      if n2 =? 0 then (Some buf, left, st, None)
      else if typ =? frameData then
        let '(st, err) := onData [] st in
        let buf := drop (Z.to_nat (n1 + n2)) buf in
        match err with Some _ => (Some buf, length, st, err) | None => k buf length st end
      else if mx <? length then (None, left, st, Some (connErr ErrCodeExcessiveLoad (str "frame too large")))
      else if len buf - n1 - n2 <? length then (Some buf, left, st, None)
      else
        let '(st, err) := onFrame typ (take (Z.to_nat length) (drop (Z.to_nat (n1 + n2)) buf)) st in
        let buf := drop (Z.to_nat (n1 + n2 + length)) buf in
        match err with Some _ => (Some buf, left, st, err) | None => k buf left st end.

Lemma parse_loop_round fuel buf left st : parse_loop onData onFrame mx (S fuel) buf left st = round (parse_loop onData onFrame mx fuel) buf left st.
Proof. done. Qed.

(** A round that goes on has taken something, and whatever goes on agrees. *)
Lemma round_ext (k k' : bytes -> Z -> St -> option bytes * Z * St * option h3_error) buf left st : bytes_ok buf ->
  (forall b l st, (length b < length buf)%nat -> bytes_ok b -> k b l st = k' b l st) -> round k buf left st = round k' buf left st.
Proof.
  intros Hb Hk. unfold round. destruct (0 <? left) eqn:El.
  - apply Z.ltb_lt in El. destruct (Z.eqb_spec (Z.min (len buf) left) 0) as [|Hn]; [done|]. destruct (onData _ st) as [st1 [e|]]; [done|].
    pose proof (len_nonneg buf). apply Hk; [rewrite length_drop; unfold len in *; lia|by apply Forall_drop].
  - destruct (ReadVarint buf) as [typ n1] eqn:E1. destruct (Z.eqb_spec n1 0) as [|H1]; [done|]. destruct (ReadVarint_more _ [] _ _ Hb E1 H1) as [_ B1].
    destruct (ReadVarint (drop (Z.to_nat n1) buf)) as [ln n2] eqn:E2. destruct (Z.eqb_spec n2 0) as [|H2]; [done|].
    destruct (ReadVarint_more _ [] _ _ ltac:(by apply Forall_drop) E2 H2) as [_ B2]. destruct (ReadVarint_value _ _ _ ltac:(by apply Forall_drop) E2 H2) as [_ Hln].
    destruct (typ =? frameData).
    + destruct (onData [] st) as [st1 [e|]]; [done|]. apply Hk; [rewrite length_drop; unfold len in *; lia|by apply Forall_drop].
    + destruct (mx <? ln); [done|]. destruct (_ <? ln); [done|]. destruct (onFrame _ _ _) as [st1 [e|]]; [done|].
      apply Hk; [rewrite length_drop; unfold len in *; lia|by apply Forall_drop].
Qed.

Lemma parse_fuel fuel fuel' buf left st : bytes_ok buf -> (length buf < fuel)%nat -> (length buf < fuel')%nat ->
  parse_loop onData onFrame mx fuel buf left st = parse_loop onData onFrame mx fuel' buf left st.
Proof.
  revert fuel' buf left st. induction fuel as [|fuel IH]; intros [|fuel'] buf left st Hb H1 H2; [lia..|]. rewrite !parse_loop_round. apply round_ext; [done|].
  intros b l st' Hl Hb'. apply IH; [done|lia|lia].
Qed.

Lemma parse_round buf left st : bytes_ok buf -> parse buf left st = round parse buf left st.
Proof.
  intros Hb. unfold parse at 1. rewrite parse_loop_round. apply round_ext; [done|]. intros b l st' Hl Hb'. apply parse_fuel; [done|lia|lia].
Qed.

(** More bytes are taken up where the parser stopped, unless it has failed. *)
Definition resumes (more : bytes) (buf : bytes) (left : Z) (st : St) : Prop :=
  match parse buf left st with
  | (Some buf', left', st', None) => parse (buf ++ more) left st = parse (buf' ++ more) left' st' /\ 0 <= left' /\ bytes_ok buf'
  | (None, _, _, None) => False
  | (_, _, st', Some e) => exists r l, parse (buf ++ more) left st = (r, l, st', Some e)
  end.

Lemma data_resumes more buf left st : splittable -> bytes_ok buf -> bytes_ok more -> 0 < left ->
  (forall b l st, (length b < length buf)%nat -> bytes_ok b -> 0 <= l -> resumes more b l st) -> resumes more buf left st.
Proof.
  intros Hs Hb Hm Hl IH. assert (Hbm : bytes_ok (buf ++ more)) by by apply Forall_app. pose proof (len_nonneg buf) as Hlb. pose proof (len_nonneg more) as Hlm.
  unfold resumes. rewrite (parse_round buf) by done. unfold round at 1. destruct (Z.ltb_spec 0 left) as [_|]; [|lia].
  destruct (Z.eqb_spec (Z.min (len buf) left) 0) as [H0|H0]; [split_and!; [done|lia|done]|]. rewrite (parse_round (buf ++ more)) by done. unfold round. destruct (Z.ltb_spec 0 left) as [_|]; [|lia]. rewrite len_app.
  destruct (Z.eqb_spec (Z.min (len buf + len more) left) 0) as [|_]; [lia|].
  destruct (Z.le_gt_cases left (len buf)) as [Hle|Hgt].
  - replace (Z.min (len buf) left) with left by lia. replace (Z.min (len buf + len more) left) with left by lia. rewrite take_app_le, drop_app_le by (unfold len in *; lia).
    destruct (onData _ st) as [st1 [e|]]; [by eexists _, _|]. rewrite Z.sub_diag.
    assert (Hd : (length (drop (Z.to_nat left) buf) < length buf)%nat) by (rewrite length_drop; unfold len in *; lia).
    specialize (IH _ 0 st1 Hd ltac:(by apply Forall_drop) ltac:(lia)). unfold resumes in IH. by destruct (parse (drop (Z.to_nat left) buf) 0 st1) as [[[[b|] l] st'] [e|]].
  - replace (Z.min (len buf) left) with (len buf) by lia. set (k := Z.min (len more) (left - len buf)). replace (Z.min (len buf + len more) left) with (len buf + k) by lia.
    replace (Z.to_nat (len buf)) with (length buf) by (unfold len; lia). rewrite firstn_all, drop_all.
    assert (Et : take (Z.to_nat (len buf + k)) (buf ++ more) = buf ++ take (Z.to_nat k) more) by (rewrite take_app_ge by (unfold len in *; lia); do 2 f_equal; unfold len in *; lia).
    assert (Ed : drop (Z.to_nat (len buf + k)) (buf ++ more) = drop (Z.to_nat k) more) by (rewrite drop_app_ge by (unfold len in *; lia); f_equal; unfold len in *; lia).
    rewrite Et, Ed. destruct (onData buf st) as [st1 err1] eqn:E1. assert (Hnil : buf <> []) by (intros ->; apply H0; change (len (@nil Z)) with 0; lia).
    destruct (Z.eqb_spec k 0) as [Hk0|Hk0].
    + rewrite Hk0. cbn [Z.to_nat take drop]. rewrite app_nil_r, E1. destruct err1 as [e|]; [by eexists _, _|].
      assert (more = []) as -> by (apply len_zero_nil; lia). rewrite Z.add_0_r.
      rewrite (parse_round []) by done. unfold round at 1. destruct (Z.ltb_spec 0 (left - len buf)); [|lia]. change (Z.min (len []) (left - len buf)) with (Z.min 0 (left - len buf)).
      destruct (Z.eqb_spec (Z.min 0 (left - len buf)) 0); [|lia]. split_and!; [done|lia|done].
    + assert (Hk : take (Z.to_nat k) more <> []). { intros Hx. apply (f_equal (fun l => len l)) in Hx. rewrite len_take in Hx. change (len (@nil Z)) with 0 in Hx. lia. }
      rewrite (Hs buf (take (Z.to_nat k) more) st Hnil Hk), E1. destruct err1 as [e|]; [by eexists _, _|].
      rewrite (parse_round []) by done. unfold round at 1. destruct (Z.ltb_spec 0 (left - len buf)); [|lia]. change (Z.min (len []) (left - len buf)) with (Z.min 0 (left - len buf)).
      destruct (Z.eqb_spec (Z.min 0 (left - len buf)) 0); [|lia]. split_and!; [|lia|done]. cbn [app]. rewrite (parse_round more) by done. unfold round.
      destruct (Z.ltb_spec 0 (left - len buf)); [|lia]. fold k. destruct (Z.eqb_spec k 0); [done|]. replace (left - (len buf + k)) with (left - len buf - k) by lia. done.
Qed.

Lemma parse_resumes more buf left st : splittable -> bytes_ok buf -> bytes_ok more -> 0 <= left -> resumes more buf left st.
Proof.
  intros Hs Hb Hm. remember (length buf) as w eqn:Ew. revert buf left st Hb Ew. induction w as [w IHw] using lt_wf_ind. intros buf left st Hb -> Hl.
  assert (IH : forall b l st, (length b < length buf)%nat -> bytes_ok b -> 0 <= l -> resumes more b l st) by (intros b l st' H1 H2 H3; by apply (IHw (length b))). clear IHw.
  destruct (Z.ltb_spec 0 left) as [Hpos|Hz]; [by apply data_resumes|]. assert (left = 0) as -> by lia.
  assert (Hbm : bytes_ok (buf ++ more)) by by apply Forall_app. unfold resumes. rewrite (parse_round buf) by done. unfold round at 1. cbn [Z.ltb].
  destruct (ReadVarint buf) as [typ n1] eqn:E1. destruct (Z.eqb_spec n1 0) as [H1|H1]; [split_and!; [done|lia|done]|]. destruct (ReadVarint_more _ more _ _ Hb E1 H1) as [E1' B1].
  assert (Hbd : bytes_ok (drop (Z.to_nat n1) buf)) by by apply Forall_drop.
  destruct (ReadVarint (drop (Z.to_nat n1) buf)) as [ln n2] eqn:E2. destruct (Z.eqb_spec n2 0) as [H2|H2]; [split_and!; [done|lia|done]|].
  destruct (ReadVarint_more _ more _ _ Hbd E2 H2) as [E2' B2]. destruct (ReadVarint_value _ _ _ Hbd E2 H2) as [_ Hln].
  assert (B2' : n1 + n2 <= len buf) by (unfold len in *; rewrite length_drop in B2; lia).
  rewrite (parse_round (buf ++ more)) by done. unfold round. cbn [Z.ltb Z.compare]. rewrite E1'. destruct (Z.eqb_spec n1 0); [done|]. rewrite (drop_app_le buf more (Z.to_nat n1)) by (unfold len in *; lia). rewrite E2'.
  destruct (Z.eqb_spec n2 0); [done|].
  assert (Hgo : forall k l st', 0 < k <= len buf -> 0 <= l -> drop (Z.to_nat k) (buf ++ more) = drop (Z.to_nat k) buf ++ more /\ resumes more (drop (Z.to_nat k) buf) l st').
  { intros k l st' Hk Hl'. split; [apply drop_app_le; unfold len in *; lia|]. apply IH; [rewrite length_drop; unfold len in *; lia|by apply Forall_drop|done]. }
  destruct (typ =? frameData) eqn:Et.
  - destruct (onData [] st) as [st1 [e|]]; [by eexists _, _|]. destruct (Hgo (n1 + n2) ln st1 ltac:(lia) ltac:(lia)) as [-> R]. unfold resumes in R.
    by destruct (parse (drop (Z.to_nat (n1 + n2)) buf) ln st1) as [[[[b|] l] st'] [e|]].
  - destruct (mx <? ln) eqn:Em; [by eexists _, _|]. destruct (Z.ltb_spec (len buf - n1 - n2) ln) as [Hshort|Hfull].
    { split_and!; [|lia|done]. rewrite (parse_round (buf ++ more)) by done. unfold round. cbn [Z.ltb Z.compare]. rewrite E1'. destruct (Z.eqb_spec n1 0); [done|]. rewrite (drop_app_le buf more (Z.to_nat n1)) by (unfold len in *; lia). rewrite E2'.
      destruct (Z.eqb_spec n2 0); [done|]. by rewrite Et, Em. }
    rewrite len_app. pose proof (len_nonneg more). destruct (Z.ltb_spec (len buf + len more - n1 - n2) ln) as [|_]; [lia|].
    rewrite (drop_app_le buf more (Z.to_nat (n1 + n2))) by (unfold len in *; lia). rewrite take_app_le by (rewrite length_drop; unfold len in *; lia).
    destruct (onFrame _ _ _) as [st1 [e|]]; [by eexists _, _|]. destruct (Hgo (n1 + n2 + ln) 0 st1 ltac:(lia) ltac:(lia)) as [-> R]. unfold resumes in R.
    by destruct (parse (drop (Z.to_nat (n1 + n2 + ln)) buf) 0 st1) as [[[[b|] l] st'] [e|]].
Qed.
(** ** Whole frames *)

Lemma ReadVarint_header typ n rest : 0 <= typ <= maxVarint -> 0 <= n <= maxVarint ->
  ReadVarint (appendFrameHeader [] typ n ++ rest) = (typ, VarintLen typ) /\
  ReadVarint (drop (Z.to_nat (VarintLen typ)) (appendFrameHeader [] typ n ++ rest)) = (n, VarintLen n) /\
  (forall k, 0 <= k -> drop (Z.to_nat (VarintLen typ + VarintLen n + k)) (appendFrameHeader [] typ n ++ rest) = drop (Z.to_nat k) rest) /\
  len (appendFrameHeader [] typ n) = VarintLen typ + VarintLen n /\ 0 < VarintLen typ /\ 0 < VarintLen n.
Proof.
  intros Ht Hn. unfold appendFrameHeader. rewrite (AppendVarint_app (AppendVarint [] typ)).
  pose proof (AppendVarint_len typ) as Lt. pose proof (AppendVarint_len n) as Ln. pose proof (VarintLen_tail typ). pose proof (VarintLen_tail n).
  assert (R : forall v r, 0 <= v <= maxVarint -> ReadVarint (AppendVarint [] v ++ r) = (v, VarintLen v)).
  { intros v r Hv. unfold maxVarint in Hv. rewrite ReadVarint_AppendVarint by lia. by rewrite Z.mod_small by lia. }
  split_and!; [| | | |lia|lia].
  - rewrite <- (assoc_L (++)). by apply R.
  - rewrite <- (assoc_L (++)), drop_app_length' by (unfold len in Lt; lia). by apply R.
  - intros k Hk. rewrite drop_app_ge by (rewrite length_app; unfold len in *; lia). f_equal. rewrite length_app. unfold len in *. lia.
  - rewrite len_app. lia.
Qed.

Lemma frame_header_bytes b typ n : bytes_ok b -> bytes_ok (appendFrameHeader b typ n).
Proof. intros Hb. unfold appendFrameHeader. by do 2 apply AppendVarint_bytes. Qed.

Lemma parse_frame typ payload rest st : 0 <= typ <= maxVarint -> typ <> frameData -> len payload <= mx -> len payload <= maxVarint -> bytes_ok payload -> bytes_ok rest ->
  parse (appendFrameHeader [] typ (len payload) ++ payload ++ rest) 0 st =
  let '(st, err) := onFrame typ payload st in match err with Some _ => (Some rest, 0, st, err) | None => parse rest 0 st end.
Proof.
  intros Ht Hd Hm Hv Hp Hr. pose proof (len_nonneg payload) as Hl. pose proof (len_nonneg rest).
  destruct (ReadVarint_header typ (len payload) (payload ++ rest) Ht ltac:(lia)) as (E1 & E2 & E3 & E4 & E5 & E6).
  rewrite parse_round by (apply Forall_app; split; [by apply frame_header_bytes|by apply Forall_app]). unfold round. cbn [Z.ltb Z.compare]. rewrite E1, E2.
  destruct (Z.eqb_spec (VarintLen typ) 0); [lia|]. destruct (Z.eqb_spec (VarintLen (len payload)) 0); [lia|]. destruct (Z.eqb_spec typ frameData); [done|].
  destruct (Z.ltb_spec mx (len payload)); [lia|]. rewrite !len_app, E4. destruct (Z.ltb_spec (VarintLen typ + VarintLen (len payload) + (len payload + len rest) - VarintLen typ - VarintLen (len payload)) (len payload)); [lia|].
  rewrite E3 by lia. pose proof (E3 0 ltac:(lia)) as E0. rewrite Z.add_0_r in E0. rewrite E0. change (Z.to_nat 0) with 0%nat. rewrite drop_0.
  rewrite take_app_length', drop_app_length' by (unfold len; lia). done.
Qed.

Lemma parse_data payload rest st : payload <> [] -> len payload <= maxVarint -> bytes_ok payload -> bytes_ok rest ->
  parse (appendFrameHeader [] frameData (len payload) ++ payload ++ rest) 0 st =
  let '(st, err) := onData [] st in
  match err with
  | Some _ => (Some (payload ++ rest), len payload, st, err)
  | None => let '(st, err) := onData payload st in match err with Some _ => (Some rest, 0, st, err) | None => parse rest 0 st end
  end.
Proof.
  intros Hnil Hv Hp Hr. assert (Hl : 0 < len payload) by (destruct payload; [done|]; rewrite len_cons; pose proof (len_nonneg payload); lia). pose proof (len_nonneg rest).
  destruct (ReadVarint_header frameData (len payload) (payload ++ rest) ltac:(unfold frameData, maxVarint; lia) ltac:(lia)) as (E1 & E2 & E3 & E4 & E5 & E6).
  rewrite parse_round by (apply Forall_app; split; [by apply frame_header_bytes|by apply Forall_app]). unfold round at 1. cbn [Z.ltb Z.compare]. rewrite E1, E2.
  destruct (Z.eqb_spec (VarintLen frameData) 0); [lia|]. destruct (Z.eqb_spec (VarintLen (len payload)) 0); [lia|]. change (frameData =? frameData) with true.
  pose proof (E3 0 ltac:(lia)) as E0. rewrite Z.add_0_r in E0. rewrite E0. change (Z.to_nat 0) with 0%nat. rewrite drop_0.
  destruct (onData [] st) as [st1 [e|]]; [done|]. rewrite parse_round by by apply Forall_app. unfold round.
  destruct (Z.ltb_spec 0 (len payload)); [|lia]. rewrite len_app. replace (Z.min (len payload + len rest) (len payload)) with (len payload) by lia.
  destruct (Z.eqb_spec (len payload) 0); [lia|]. rewrite take_app_length', drop_app_length' by (unfold len; lia). rewrite Z.sub_diag. done.
Qed.

Lemma parse_nil st : parse [] 0 st = (Some [], 0, st, None).
Proof. done. Qed.

(** ** What is kept *)

Lemma ReadVarint_need b v : bytes_ok b -> ReadVarint b = (v, 0) -> len b < 8.
Proof.
  destruct b as [|b0 tail]; [done|]. intros [Hb _]%Forall_cons. unfold byte_ok in Hb. unfold ReadVarint.
  assert (Hs : Z.shiftr b0 6 = 0 \/ Z.shiftr b0 6 = 1 \/ Z.shiftr b0 6 = 2 \/ Z.shiftr b0 6 = 3) by (rewrite Z.shiftr_div_pow2 by lia; change (2 ^ 6) with 64; Z.div_mod_to_equations; lia).
  assert (Hn : 0 < Z.shiftl 1 (Z.shiftr b0 6) <= 8) by (destruct Hs as [->|[->|[->| ->]]]; cbv; split; congruence).
  destruct (Z.ltb_spec (len (b0 :: tail)) (Z.shiftl 1 (Z.shiftr b0 6))); intros Ev; [lia|]; injection Ev; intros; lia.
Qed.

(** Between pieces nothing of a DATA frame is kept, and of another frame less than the largest one with its header. *)
Lemma parse_rest buf left st r left' st' : 0 <= mx -> bytes_ok buf -> 0 <= left -> parse buf left st = (r, left', st', None) ->
  exists buf', r = Some buf' /\ (0 < left' -> buf' = []) /\ len buf' < mx + 16.
Proof.
  intros Hmx Hb. remember (length buf) as w eqn:Ew. revert buf left st Hb Ew. induction w as [w IHw] using lt_wf_ind. intros buf left st Hb -> Hl.
  assert (IH : forall k l st, 0 < k -> buf <> [] -> 0 <= l -> parse (drop (Z.to_nat k) buf) l st = (r, left', st', None) -> exists buf', r = Some buf' /\ (0 < left' -> buf' = []) /\ len buf' < mx + 16).
  { intros k l st1 Hk Hn Hl1. apply (IHw (length (drop (Z.to_nat k) buf))); [|by apply Forall_drop|done|done]. rewrite length_drop. destruct buf; [done|cbn [length]; lia]. }
  clear IHw. rewrite parse_round by done. unfold round. pose proof (len_nonneg buf) as Hlb. destruct (Z.ltb_spec 0 left) as [Hpos|Hz].
  - destruct (Z.eqb_spec (Z.min (len buf) left) 0) as [H0|H0].
    + intros [= <- <- <-]. exists buf. split_and!; [done| |lia]. intros _. apply len_zero_nil. lia.
    + destruct (onData _ st) as [st1 [e|]]; [done|]. apply IH; [lia| |lia]. intros ->. apply H0. change (len (@nil Z)) with 0. lia.
  - assert (left = 0) as -> by lia. destruct (ReadVarint buf) as [typ n1] eqn:E1. destruct (Z.eqb_spec n1 0) as [->|H1].
    { intros [= <- <- <-]. apply ReadVarint_need in E1; [|done]. exists buf. split_and!; [done|lia|lia]. }
    destruct (ReadVarint_more _ [] _ _ Hb E1 H1) as [_ B1]. destruct (ReadVarint_value _ _ _ Hb E1 H1) as [Q1 _]. assert (Hnil : buf <> []) by (intros ->; change (len (@nil Z)) with 0 in B1; lia).
    assert (Hd : bytes_ok (drop (Z.to_nat n1) buf)) by by apply Forall_drop.
    assert (Ld : len (drop (Z.to_nat n1) buf) = len buf - n1) by (unfold len in *; rewrite length_drop; lia).
    destruct (ReadVarint (drop (Z.to_nat n1) buf)) as [ln n2] eqn:E2. destruct (Z.eqb_spec n2 0) as [->|H2].
    { intros [= <- <- <-]. apply ReadVarint_need in E2; [|done]. exists buf. split_and!; [done|lia|lia]. }
    destruct (ReadVarint_more _ [] _ _ Hd E2 H2) as [_ B2]. destruct (ReadVarint_value _ _ _ Hd E2 H2) as [Q2 Hln].
    destruct (typ =? frameData); [destruct (onData _ st) as [st1 [e|]]; [done|]; apply IH; [lia|done|lia]|].
    destruct (Z.ltb_spec mx ln); [done|]. destruct (Z.ltb_spec (len buf - n1 - n2) ln).
    + intros [= <- <- <-]. exists buf. split_and!; [done|lia|lia].
    + destruct (onFrame _ _ _) as [st1 [e|]]; [done|]. apply IH; [lia|done|lia].
Qed.
End pieces.

(** * A stream in pieces *)

Definition parser_ok (p : frameParser) : Prop := bytes_ok (pbuf p) /\ 0 <= dataLeft p.

(** A stream that is fed to the parser: where its parser and the state it acts on
    are kept, and what is made of the parser's result.  Once the state is [over]
    nothing more is done with what arrives. *)
Record fed {St S : Type} (onData : bytes -> St -> St * option h3_error) (onFrame : Z -> bytes -> St -> St * option h3_error) (over : St -> bool)
  (parser_of : S -> frameParser) (state_of : S -> St) (keep : frameParser -> St -> S -> S) (then_ : bool -> frameParser * St * option h3_error -> S -> S) : Prop := {
  fed_split : splittable onData;
  fed_data : forall d st, over st = true -> onData d st = (st, None);
  fed_frame : forall t d st, over st = true -> onFrame t d st = (st, None);
  fed_parser : forall p st s, parser_of (keep p st s) = p;
  fed_state : forall p st s, state_of (keep p st s) = st;
  fed_more : forall p st s, then_ false (p, st, None) s = keep p st s;
  fed_last : forall fin x p st s, then_ fin x (keep p st s) = then_ fin x s;
}.

Section fed.
Context {St S : Type} {onData : bytes -> St -> St * option h3_error} {onFrame : Z -> bytes -> St -> St * option h3_error} {over : St -> bool}.
Context {parser_of : S -> frameParser} {state_of : S -> St} {keep : frameParser -> St -> S -> S} {then_ : bool -> frameParser * St * option h3_error -> S -> S}.
Hypothesis F : fed onData onFrame over parser_of state_of keep then_.

Definition feed_with (data : bytes) (fin : bool) (s : S) : S := if over (state_of s) then s else then_ fin (feed_frames onData onFrame data (parser_of s) (state_of s)) s.

(** Nothing more is done once it is over. *)
Lemma parse_over mx buf left st : bytes_ok buf -> over st = true -> exists r l e, parse onData onFrame mx buf left st = (r, l, st, e).
Proof.
  intros Hb Hd. pose proof (fun x => fed_data _ _ _ _ _ _ _ F x st Hd) as HD. pose proof (fun t x => fed_frame _ _ _ _ _ _ _ F t x st Hd) as HF.
  remember (length buf) as w eqn:Ew. revert buf left Hb Ew. induction w as [w IHw] using lt_wf_ind. intros buf left Hb ->.
  assert (IH : forall k l, 0 < k -> buf <> [] -> exists r l' e, parse onData onFrame mx (drop (Z.to_nat k) buf) l st = (r, l', st, e)).
  { intros k l Hk Hn. apply (IHw (length (drop (Z.to_nat k) buf))); [|by apply Forall_drop|done]. rewrite length_drop. destruct buf; [done|cbn [length]; lia]. }
  clear IHw. rewrite parse_round by done. unfold round. rewrite !HD. pose proof (len_nonneg buf). destruct (Z.ltb_spec 0 left).
  - destruct (Z.eqb_spec (Z.min (len buf) left) 0) as [|Hn0]; [by eexists _, _, _|]. apply IH; [lia|]. intros ->. apply Hn0. change (len (@nil Z)) with 0. lia.
  - destruct (ReadVarint buf) as [typ n1] eqn:E1. destruct (Z.eqb_spec n1 0) as [|Hq1]; [by eexists _, _, _|].
    destruct (ReadVarint_more _ [] _ _ Hb E1 Hq1) as [_ B1]. assert (Hnil : buf <> []) by (intros ->; change (len (@nil Z)) with 0 in B1; lia).
    destruct (ReadVarint (drop (Z.to_nat n1) buf)) as [ln n2] eqn:E2. destruct (Z.eqb_spec n2 0) as [|Hq2]; [by eexists _, _, _|].
    destruct (ReadVarint_more _ [] _ _ ltac:(by apply Forall_drop) E2 Hq2) as [_ B2]. destruct (ReadVarint_value _ _ _ ltac:(by apply Forall_drop) E2 Hq2) as [_ Hln].
    destruct (typ =? frameData); [by apply IH; [lia|]|]. destruct (mx <? ln); [by eexists _, _, _|]. destruct (_ <? ln); [by eexists _, _, _|]. rewrite HF. apply IH; [lia|done].
Qed.

Lemma fed_app a b fin s buf left c : parser_ok (parser_of s) -> bytes_ok a -> bytes_ok b -> over (state_of s) = false ->
  parse onData onFrame (maxFrame (parser_of s)) (pbuf (parser_of s) ++ a ++ b) (dataLeft (parser_of s)) (state_of s) = (Some buf, left, c, None) -> over c = false ->
  let s' := feed_with a false s in
  feed_with (a ++ b) fin s = feed_with b fin s' /\ parser_ok (parser_of s') /\ over (state_of s') = false /\ maxFrame (parser_of s') = maxFrame (parser_of s) /\
  parse onData onFrame (maxFrame (parser_of s)) (pbuf (parser_of s') ++ b) (dataLeft (parser_of s')) (state_of s') = (Some buf, left, c, None).
Proof.
  intros [Hp Hl] Ha Hb Hd E Hc. set (p := parser_of s) in *. cbn zeta.
  pose proof (parse_resumes onData onFrame (maxFrame p) b (pbuf p ++ a) (dataLeft p) (state_of s) (fed_split _ _ _ _ _ _ _ F) ltac:(by apply Forall_app) Hb Hl) as R. unfold resumes in R. rewrite (assoc_L (++)) in E.
  destruct (parse onData onFrame (maxFrame p) (pbuf p ++ a) (dataLeft p) (state_of s)) as [[[rest l1] c1] err] eqn:E1.
  destruct err as [e|]; [destruct rest, R as (? & ? & R); congruence|]. destruct rest as [b1|]; [|done]. destruct R as (R1 & R2 & R3). rewrite E in R1.
  assert (Hd1 : over c1 = false).
  { destruct (over c1) eqn:Hd1; [|done]. destruct (parse_over (maxFrame p) (b1 ++ b) l1 c1 ltac:(by apply Forall_app) Hd1) as (? & ? & ? & Ex). congruence. }
  assert (Es : feed_with a false s = keep (FrameParser b1 l1 (maxFrame p)) c1 s).
  { unfold feed_with. rewrite Hd. fold p. unfold feed_frames. fold (parse onData onFrame (maxFrame p) (pbuf p ++ a) (dataLeft p) (state_of s)). rewrite E1. by rewrite (fed_more _ _ _ _ _ _ _ F). }
  rewrite Es, (fed_parser _ _ _ _ _ _ _ F), (fed_state _ _ _ _ _ _ _ F). cbn [pbuf dataLeft maxFrame]. split_and!; [|done..].
  unfold feed_with. rewrite (fed_parser _ _ _ _ _ _ _ F), (fed_state _ _ _ _ _ _ _ F), Hd, Hd1, (fed_last _ _ _ _ _ _ _ F). fold p. f_equal. unfold feed_frames. cbn [pbuf maxFrame dataLeft].
  rewrite (assoc_L (++)). fold (parse onData onFrame (maxFrame p) ((pbuf p ++ a) ++ b) (dataLeft p) (state_of s)). fold (parse onData onFrame (maxFrame p) (b1 ++ b) l1 c1). rewrite E. by rewrite <- R1.
Qed.

(** However a stream that is read to its end is cut, the end finds the same. *)
Lemma fed_pieces pieces s buf left c : parser_ok (parser_of s) -> Forall bytes_ok pieces -> over (state_of s) = false ->
  parse onData onFrame (maxFrame (parser_of s)) (pbuf (parser_of s) ++ mjoin pieces) (dataLeft (parser_of s)) (state_of s) = (Some buf, left, c, None) -> over c = false ->
  feed_with [] true (fold_left (fun s d => feed_with d false s) pieces s) = feed_with (mjoin pieces) true s.
Proof.
  revert s. induction pieces as [|d ds IH]; intros s Hp Hb Hd E Hc; [done|]. apply Forall_cons in Hb as [Hb1 Hb2]. change (mjoin (d :: ds)) with (d ++ mjoin ds) in *. cbn [fold_left].
  destruct (fed_app d (mjoin ds) true s buf left c Hp Hb1 ltac:(by apply Forall_join) Hd E Hc) as (-> & P1 & P2 & P3 & P4). rewrite <- P3 in P4. by apply IH.
Qed.
End fed.
