(* ===== verification/Http3Server.v ===== *)
(** HTTP/3 on the server side: src/go/http3/conn.go and server.go.

    The QUIC connection below is an interface, [Transport], of the calls this
    side makes; QuicStream implements it.  A stream's [Context] is an entry of
    [h_ctx] under the stream's ID: a request being read and answered, or a
    unidirectional stream.  A request stream's frame parser, which nothing but
    [feed] touches, is in [parsers], beside the connection.  The context of a refused request is a nil pointer, and
    using one panics, which is [None].  [h_served] are the requests given to the
    application, in order; [app] are the calls its handler makes before it returns,
    and it may make more at any later time.  The handling of an event and a call of
    the application are one step each. *)
From Stdlib Require Import String.
From S2P Require Import Prelude.
From S2P Require Import Varint.
From S2P Require Import HpackTables.
From S2P Require Import Huffman.
From S2P Require Import Hpack.
From S2P Require Import Qpack.
From S2P Require Import GoText.
From S2P Require Import HttpWriter.
From S2P Require Import Http2Server.
From S2P Require Import Http3Frames.

(** What HTTP/3 asks of a QUIC connection.  [tWrite] says whether it failed. *)
Class Transport (Q : Type) := {
  tWrite : Z -> bytes -> bool -> Q -> bool * Q;
  tStopSending : Z -> Z -> Q -> Q;
  tReset : Z -> Z -> Q -> Q;
  tClose : Z -> bytes -> Q -> Q;
  tCloseWhenDone : Z -> bytes -> Q -> Q;
  tOpen : bool -> Q -> option Z * Q;     (* [OpenStream] and [OpenUniStream] *)
}.

(** * Unidirectional streams *)

Record peerStreams := PeerStreams { p_control : bool; p_encoder : bool; p_decoder : bool; p_settings : bool }.

#[export] Instance eta_peerStreams : Eta peerStreams := fun p => PeerStreams (p_control p) (p_encoder p) (p_decoder p) (p_settings p).

Record uniStream := UniStream { u_typ : Z; u_head : bytes; u_parser : frameParser }.

#[export] Instance eta_uniStream : Eta uniStream := fun u => UniStream (u_typ u) (u_head u) (u_parser u).

Definition newUniStream : uniStream := UniStream (-1) [] (FrameParser [] 0 (Z.shiftl 16 10)).

(** The first bytes of a control stream: its type and SETTINGS. *)
Definition control_hello (maxFieldSection : Z) : bytes := appendSettings (AppendVarint [] streamControl) [(settingMaxFieldSectionSize, u64 maxFieldSection)].

(** A frame whose payload is one varint. *)
Definition one_varint (payload : bytes) : option Z := let '(id, n) := ReadVarint payload in if (n =? 0) || negb (n =? len payload) then None else Some id.

(** A side's own state [W] is what its [onGoAway] acts on. *)
Section control.
Context {W : Type} (onGoAway : Z -> W -> W * option h3_error).

Definition controlFrame (typ : Z) (payload : bytes) (pw : peerStreams * W) : (peerStreams * W) * option h3_error :=
  let '(p, w) := pw in
  if negb (p_settings p) then
    if negb (typ =? frameSettings) then (pw, Some (connErr ErrCodeMissingSettings (str "control stream does not start with SETTINGS")))
    else
      let p := p <| p_settings := true |> in
      match parseSettings payload with Ok _ => ((p, w), None) | Err e => ((p, w), Some e) end
  else if typ =? frameSettings then (pw, Some (connErr ErrCodeFrameUnexpected (str "second SETTINGS")))
  else if typ =? frameGoAway then
    match one_varint payload with
    | None => (pw, Some (connErr ErrCodeFrameError (str "malformed GOAWAY")))
    | Some id => let '(w, err) := onGoAway id w in ((p, w), err)
    end
  else if (typ =? frameMaxPushID) || (typ =? frameCancelPush) then
    match one_varint payload with None => (pw, Some (connErr ErrCodeFrameError (str "malformed frame"))) | Some _ => (pw, None) end
  else if (typ =? frameData) || (typ =? frameHeaders) || (typ =? framePushPromise) then
    (pw, Some (connErr ErrCodeFrameUnexpected (str "request frame on the control stream")))
  else if reservedFrame typ then (pw, Some (connErr ErrCodeFrameUnexpected (str "HTTP/2 frame type")))
  else (pw, None).

(** What a stream of a known type does with its bytes. *)
Definition uni_data (data : bytes) (fin : bool) (u : uniStream) (pw : peerStreams * W) : uniStream * (peerStreams * W) * option h3_error :=
  let closed := if fin then Some (connErr ErrCodeClosedCriticalStream (str "critical stream closed")) else None in
  if u_typ u =? streamControl then
    let '(q, pw, err) :=
      feed_frames (fun _ pw => (pw, Some (connErr ErrCodeFrameUnexpected (str "DATA on the control stream")))) controlFrame data (u_parser u) pw in
    let u := u <| u_parser := q |> in
    match err with Some _ => (u, pw, err) | None => (u, pw, closed) end
  else if (u_typ u =? streamQPACKEncoder) || (u_typ u =? streamQPACKDecoder) then (u, pw, closed)
  else (u, pw, None).

(** [uniStream.handle]; the flag says that the stream is to be stopped. *)
Definition handle (data : bytes) (fin : bool) (u : uniStream) (pw : peerStreams * W) : uniStream * (peerStreams * W) * bool * option h3_error :=
  if u_typ u <? 0 then
    let head := u_head u ++ data in
    let '(typ, n) := ReadVarint head in
    if n =? 0 then (u <| u_head := head |>, pw, false, None)
    else
      let u := u <| u_typ := i64 typ |> <| u_head := [] |> in
      let '(p, w) := pw in
      let go p := let '(u, pw, err) := uni_data (drop (Z.to_nat n) head) fin u (p, w) in (u, pw, false, err) in
      if typ =? streamControl then
        if p_control p then (u, pw, false, Some (connErr ErrCodeStreamCreationError (str "second control stream"))) else go (p <| p_control := true |>)
      else if typ =? streamQPACKEncoder then
        if p_encoder p then (u, pw, false, Some (connErr ErrCodeStreamCreationError (str "second QPACK encoder stream"))) else go (p <| p_encoder := true |>)
      else if typ =? streamQPACKDecoder then
        if p_decoder p then (u, pw, false, Some (connErr ErrCodeStreamCreationError (str "second QPACK decoder stream"))) else go (p <| p_decoder := true |>)
      else if typ =? streamPush then (u, pw, false, Some (connErr ErrCodeIDError (str "push stream without MAX_PUSH_ID")))
      else (u, pw, true, None)
  else let '(u, pw, err) := uni_data data fin u pw in (u, pw, false, err).
End control.

(** * The server *)

Record h3Config := H3Config { h3MaxHeaderBytes : Z; h3MaxBodyBytes : Z }.

Record requestStream {U : Type} := MkRequestStream {
  r_req : option (Request U);
  r_body : bytes;
  r_declared : Z;
  r_trailers : bool;
  r_done : bool;
  r_remoteDone : bool;
  r_responded : bool;
  r_closed : bool;
}.
Arguments requestStream : clear implicits.

#[export] Instance eta_requestStream {U} : Eta (requestStream U) := fun r =>
  MkRequestStream U (r_req r) (r_body r) (r_declared r) (r_trailers r) (r_done r) (r_remoteDone r) (r_responded r) (r_closed r).

Inductive context {U : Type} := CRequest (r : option (requestStream U)) | CUni (u : uniStream).
Arguments context : clear implicits.

Record serverConn {U Q : Type} := MkServer {
  h_qc : Q;
  h_control : option Z;
  h_peer : peerStreams;
  h_streams : option (gset Z);        (* [None] is the nil map *)
  h_nextID : Z;
  h_goingAway : bool;
  h_goAwayID : Z;
  h_ctx : gmap Z (context U);
  h_served : list (Z * Request U);
}.
Arguments serverConn : clear implicits.

#[export] Instance eta_serverConn {U Q} : Eta (serverConn U Q) := fun c =>
  MkServer U Q (h_qc c) (h_control c) (h_peer c) (h_streams c) (h_nextID c) (h_goingAway c) (h_goAwayID c) (h_ctx c) (h_served c).

Record h3Server {U Q : Type} := MkH3Server { parsers : gmap Z frameParser; conn : serverConn U Q }.
Arguments h3Server : clear implicits.

#[export] Instance eta_h3Server {U Q} : Eta (h3Server U Q) := fun s => MkH3Server U Q (parsers s) (conn s).

Section server.
Context {U Q : Type} `{Transport Q}.
Abbreviation Conn := (serverConn U Q).
Abbreviation Req := (requestStream U).
Abbreviation Server := (h3Server U Q).
Context (ParseRequestURI : bytes -> option U) (unicode_lower : bytes -> bytes) (StatusText : Z -> bytes) (cfg : h3Config) (app : Z -> Request U -> list call).

Definition new_conn (q : Q) : Conn := MkServer U Q q None (PeerStreams false false false false) (Some ∅) 0 false 0 ∅ [].

Definition on_qc (f : Q -> Q) (c : Conn) : Conn := c <| h_qc := f (h_qc c) |>.

(** [closeWith] *)
Definition fail (e : h3_error) (c : Conn) : Conn :=
  match e with
  | connErr code reason => on_qc (tClose code reason) c
  | decompressionErr => on_qc (tClose ErrCodeQPACKDecompressionFailed (str "qpack: decompression failed")) c
  end.

Definition abortStream (i code : Z) (c : Conn) : Conn := on_qc (fun q => tReset i code (tStopSending i code q)) c.

Definition no_request : Req := MkRequestStream U None [] (-1) false false false false false.
Definition rget (i : Z) (c : Conn) : Req := match h_ctx c !! i with Some (CRequest (Some r)) => r | _ => no_request end.
Definition rput (i : Z) (r : Req) (c : Conn) : Conn := c <| h_ctx := <[i := CRequest (Some r)]> (h_ctx c) |>.

(** [OnHandshake] *)
Definition OnHandshake (c : Conn) : Conn :=
  match tOpen false (h_qc c) with
  | (None, q) => fail (connErr ErrCodeStreamCreationError (str "cannot open the control stream")) (c <| h_qc := q |>)
  | (Some i, q) =>
      let '(bad, q) := tWrite i (control_hello (h3MaxHeaderBytes cfg)) false q in
      if bad : bool then fail (connErr ErrCodeStreamCreationError (str "cannot open the control stream")) (c <| h_qc := q |>)
      else c <| h_qc := q |> <| h_control := Some i |>
  end.

Definition track (i : Z) (c : Conn) : Conn := match h_streams c with Some s => c <| h_streams := Some ({[i]} ∪ s) |> | None => c end.

Definition untrack (i : Z) (c : Conn) : Conn :=
  let c := c <| h_streams := (fun s => s ∖ {[i]}) <$> h_streams c |> in
  if h_goingAway c && bool_decide (default ∅ (h_streams c) = ∅) then on_qc (tCloseWhenDone ErrCodeNoError []) c else c.

Definition goAway (c : Conn) : Conn :=
  if h_goingAway c then c
  else
    let c := c <| h_goingAway := true |> <| h_goAwayID := h_nextID c |> in
    match h_control c with
    | None => c
    | Some i =>
        let payload := AppendVarint [] (h_goAwayID c) in
        on_qc (fun q => (tWrite i (appendFrameHeader [] frameGoAway (len payload) ++ payload) false q).2) c
    end.

(** ** Responses *)

(** The trailers that are sent. *)
Definition sent_trailers (t : fields) : list (HeaderField * bool) :=
  mjoin ((fun '(key, values) => let name := ToLower unicode_lower key in if validTrailer name values then (fun v => (Field name v, false)) <$> values else []) <$> t).

(** The bytes of a response. *)
Definition response_bytes (head : bool) (r : Response) : bytes :=
  let status := StatusCode r in
  let block := Qpack.AppendField Prefix (str ":status") (FormatInt status 10) false in
  let block := if negb (status =? 204) && negb (status =? 304) then Qpack.AppendField block (str "content-length") (FormatInt (len (rBody r)) 10) false else block in
  let block := appendHeader unicode_lower block (rHeader r) (fun name => bool_decide (name = str "content-length")) in
  let body := if bodyAllowed head status then rBody r else [] in
  let out := appendHeadersFrame [] block in
  let out := if 0 <? len body then appendFrameHeader out frameData (len body) ++ body else out in
  if bodyAllowed head status && (0 <? len (rTrailer r)) then
    let trailer := append_lines (sent_trailers (rTrailer r)) Prefix in
    if len Prefix <? len trailer then appendHeadersFrame out trailer else out
  else out.

Definition WriteResponse (i : Z) (head : bool) (r : Response) (c : Conn) : option call_error * Conn :=
  if (StatusCode r <? 200) || (999 <? StatusCode r) then (Some InvalidStatusCode, c)
  else if negb (checkHeader unicode_lower (rHeader r)) then (Some InvalidHeader, c)
  else if r_responded (rget i c) then (Some AlreadyWritten, c)
  else if r_closed (rget i c) then (Some StreamGone, c)
  else
    let c := rput i (rget i c <| r_responded := true |>) c in
    let '(bad, q) := tWrite i (response_bytes head r) true (h_qc c) in
    let c := c <| h_qc := q |> in
    let c := if negb (r_remoteDone (rget i c)) then on_qc (tStopSending i ErrCodeNoError) c else c in
    let c := if rClose r then goAway c else c in
    let c := match r_req (rget i c) with Some _ => untrack i c | None => c end in
    (if bad : bool then Some StreamGone else None, c).

Definition WriteInterim (i status : Z) (header : fields) (c : Conn) : option call_error * Conn :=
  if negb (checkHeader unicode_lower header) then (Some InvalidHeader, c)
  else if r_responded (rget i c) then (Some AlreadyWritten, c)
  else if r_closed (rget i c) then (Some StreamGone, c)
  else
    let block := Qpack.AppendField Prefix (str ":status") (FormatInt status 10) false in
    let block := appendHeader unicode_lower block header (fun _ => false) in
    let '(bad, q) := tWrite i (appendHeadersFrame [] block) false (h_qc c) in
    (if bad : bool then Some StreamGone else None, c <| h_qc := q |>).

Definition req_is_head (r : option (Request U)) : bool := match r with Some r => bool_decide (Method r = str "HEAD") | None => false end.

Definition perform (i : Z) (c : Conn) (a : call) : Conn :=
  match a with
  | Respond r => (WriteResponse i (req_is_head (r_req (rget i c))) r c).2
  | Http2Server.WriteInterim status header => (WriteInterim i status header c).2
  | Push _ _ _ => c
  end.

(** ** Requests *)

Definition reject (i status : Z) (c : Conn) : Conn :=
  let c := rput i (rget i c <| r_done := true |> <| r_body := [] |>) c in
  (WriteResponse i (req_is_head (r_req (rget i c)))
     (MkResponse status [(str "Content-Type", [str "text/plain; charset=utf-8"])] (StatusText status ++ [10]) [] false) c).2.

Definition abort (i code : Z) (c : Conn) : Conn :=
  let c := rput i (rget i c <| r_done := true |> <| r_body := [] |> <| r_closed := true |>) c in
  let c := abortStream i code c in
  match r_req (rget i c) with Some _ => untrack i c | None => c end.

Definition peerReset (i : Z) (c : Conn) : Conn :=
  let r := rget i c in
  let wasOpen := negb (r_closed r) && negb (r_responded r) in
  let c := rput i (r <| r_done := true |> <| r_body := [] |> <| r_closed := true |>) c in
  if wasOpen then
    let c := on_qc (tReset i ErrCodeRequestCancelled) c in
    match r_req r with Some _ => untrack i c | None => c end
  else c.

(** [ServeHTTP], whatever it calls. *)
Definition serve (i : Z) (r : Request U) (c : Conn) : Conn := fold_left (perform i) (app i r) (c <| h_served := h_served c ++ [(i, r)] |>).

Definition finish (i : Z) (c : Conn) : Conn :=
  let r := rget i c in
  if (0 <=? r_declared r) && negb (r_declared r =? len (r_body r)) then abort i ErrCodeMessageError c
  else
    match r_req r with
    | None => c
    | Some req => serve i (req <| ReqBody := r_body r |>) (rput i (r <| r_done := true |> <| r_body := [] |>) c)
    end.

Definition onData (i : Z) (chunk : bytes) (c : Conn) : Conn * option h3_error :=
  let r := rget i c in
  if r_done r then (c, None)
  else if bool_decide (r_req r = None) || r_trailers r then (c, Some (connErr ErrCodeFrameUnexpected (str "DATA before HEADERS or after trailers")))
  else if h3MaxBodyBytes cfg <? len (r_body r) + len chunk then (reject i 413 c, None)
  else (rput i (r <| r_body := r_body r ++ chunk |>) c, None).

(** The length the client announced: none, one to refuse, or a number. *)
Definition announced_length (r : Request U) : option (option Z) :=
  let cl := Get (ReqHeader r) (str "Content-Length") in
  if bool_decide (cl = []) then Some None
  else match ParseInt cl 10 with Some n => if n <? 0 then None else Some (Some n) | None => None end.

Definition continue_expected (i : Z) (r : Request U) (c : Conn) : Conn :=
  if EqualFold (Get (ReqHeader r) (str "Expect")) (str "100-continue") then (WriteInterim i 100 [] c).2 else c.

Definition open_request (i : Z) (fs : list HeaderField) (c : Conn) : Conn :=
  match newRequest ParseRequestURI fs with
  | None => abort i ErrCodeMessageError c
  | Some req =>
      let c := track i (rput i (rget i c <| r_req := Some req |>) c) in
      match announced_length req with
      | None => abort i ErrCodeMessageError c
      | Some None => continue_expected i req c
      | Some (Some n) =>
          if h3MaxBodyBytes cfg <? n then reject i 413 c
          else continue_expected i req (rput i (rget i c <| r_declared := n |>) c)
      end
  end.

Definition take_trailers (i : Z) (req : Request U) (fs : list HeaderField) (c : Conn) : Conn :=
  match trailerFrom fs with
  | None => abort i ErrCodeMessageError c
  | Some t => rput i (rget i c <| r_req := Some (req <| Trailer := Some t |>) |> <| r_trailers := true |>) c
  end.

Definition onFrame (i typ : Z) (payload : bytes) (c : Conn) : Conn * option h3_error :=
  let r := rget i c in
  if r_done r then (c, None)
  else if typ =? frameHeaders then
    if r_trailers r then (c, Some (connErr ErrCodeFrameUnexpected (str "HEADERS after trailers")))
    else
      match decodeFields payload (h3MaxHeaderBytes cfg) with
      | None => (c, None)
      | Some (Err ErrTooLarge) => (reject i 431 c, None)
      | Some (Err ErrDecompression) => (c, Some decompressionErr)
      | Some (Ok fs) => (match r_req r with Some req => take_trailers i req fs c | None => open_request i fs c end, None)
      end
  else if (typ =? frameCancelPush) || (typ =? frameSettings) || (typ =? framePushPromise) || (typ =? frameGoAway) || (typ =? frameMaxPushID) then
    (c, Some (connErr ErrCodeFrameUnexpected (str "control frame on a request stream")))
  else if reservedFrame typ then (c, Some (connErr ErrCodeFrameUnexpected (str "HTTP/2 frame type")))
  else (c, None).

(** The end of a request stream. *)
Definition feed_end (i : Z) (p : frameParser) (c : Conn) : Conn :=
  if r_done (rget i c) then c
  else
    let c := rput i (rget i c <| r_remoteDone := true |>) c in
    if midFrame p then fail (connErr ErrCodeFrameError (str "request stream ended inside a frame")) c
    else match r_req (rget i c) with None => abort i ErrCodeRequestIncomplete c | Some _ => finish i c end.

Definition feed (i : Z) (data : bytes) (fin : bool) (s : Server) : Server :=
  if r_done (rget i (conn s)) then s
  else
    let '(p, c, err) := feed_frames (onData i) (onFrame i) data (default (FrameParser [] 0 0) (parsers s !! i)) (conn s) in
    let s := s <| parsers := <[i := p]> (parsers s) |> in
    match err with
    | Some e => s <| conn := fail e c |>
    | None => s <| conn := if negb fin then c else feed_end i p c |>
    end.

(** ** Events *)

Definition newRequestStream (i : Z) (c : Conn) : option Req * Conn :=
  if h_goingAway c && (h_goAwayID c <=? i) then (None, abortStream i ErrCodeRequestRejected c)
  else (Some no_request, c <| h_nextID := Z.max (h_nextID c) (u64 (i + 4)) |>).

(** The server has nothing to do on the client's GOAWAY. *)
Definition server_goaway (id : Z) (w : unit) : unit * option h3_error := (w, None).

Definition uni_feed (i : Z) (data : bytes) (fin : bool) (u : uniStream) (c : Conn) : Conn :=
  let '(u, (p, _), stop, err) := handle server_goaway data fin u (h_peer c, tt) in
  let c := c <| h_peer := p |> <| h_ctx := <[i := CUni u]> (h_ctx c) |> in
  let c := if stop : bool then on_qc (tStopSending i ErrCodeStreamCreationError) c else c in
  match err with Some e => fail e c | None => c end.

Definition bidirectional (i : Z) : bool := Z.land i 2 =? 0.

(** The parser of a new request stream. *)
Definition new_parser : frameParser := FrameParser [] 0 (u64 (h3MaxHeaderBytes cfg)).

Definition OnStreamData (i : Z) (data : bytes) (fin : bool) (s : Server) : option Server :=
  let c := conn s in
  match h_ctx c !! i with
  | Some (CRequest (Some _)) => Some (feed i data fin s)
  | Some (CRequest None) => None
  | Some (CUni u) => Some (s <| conn := uni_feed i data fin u c |>)
  | None =>
      if bidirectional i then
        let '(r, c) := newRequestStream i c in
        let c := c <| h_ctx := <[i := CRequest r]> (h_ctx c) |> in
        match r with
        | Some _ => Some (feed i data fin (MkH3Server U Q (<[i := new_parser]> (parsers s)) c))
        | None => Some (s <| conn := c |>)
        end
      else Some (s <| conn := uni_feed i data fin newUniStream c |>)
  end.

Definition OnStreamReset (i : Z) (c : Conn) : option Conn :=
  match h_ctx c !! i with
  | Some (CRequest (Some _)) => Some (peerReset i c)
  | Some (CRequest None) => None
  | Some (CUni u) =>
      Some (if (u_typ u =? streamControl) || (u_typ u =? streamQPACKEncoder) || (u_typ u =? streamQPACKDecoder)
            then fail (connErr ErrCodeClosedCriticalStream (str "critical stream reset")) c else c)
  | None => Some c
  end.

Definition OnStopSending (i : Z) (c : Conn) : option Conn :=
  match h_ctx c !! i with
  | Some (CRequest (Some _)) => Some (peerReset i c)
  | Some (CRequest None) => None
  | _ => Some c
  end.

Definition close_all (s : gset Z) (ctx : gmap Z (context U)) : gmap Z (context U) :=
  set_fold (fun i ctx => match ctx !! i with Some (CRequest (Some r)) => <[i := CRequest (Some (r <| r_closed := true |>))]> ctx | _ => ctx end) ctx s.

Definition OnClose (c : Conn) : Conn := c <| h_ctx := close_all (default ∅ (h_streams c)) (h_ctx c) |> <| h_streams := None |>.
End server.
