(* ===== verification/Http3Inv.v ===== *)
(** What the server of HTTP/3 keeps from step to step.

    A step on behalf of stream [i] changes the request of [i] and no other
    stream's ([moved]); what it serves it serves once, and once the connection is
    going away it takes no request from the ID of its GOAWAY on. *)
From Stdlib Require Import String.
From S2P Require Import Prelude.
From S2P Require Import Varint.
From S2P Require Import HpackTables.
From S2P Require Import Huffman.
From S2P Require Import Hpack.
From S2P Require Import Qpack.
From S2P Require Import GoText.
From S2P Require Import HttpWriter.
From S2P Require Import Http2Server.
From S2P Require Import Http3Frames.
From S2P Require Import Http3Server.

Section request.
Context {U Q : Type} `{Transport Q}.
Abbreviation Conn := (serverConn U Q).
Abbreviation Server := (h3Server U Q).
Context (ParseRequestURI : bytes -> option U) (unicode_lower : bytes -> bytes) (StatusText : Z -> bytes) (cfg : h3Config) (app : Z -> Request U -> list call).
Abbreviation onData := (Http3Server.onData (U := U) (Q := Q) unicode_lower StatusText cfg).
Abbreviation onFrame := (Http3Server.onFrame ParseRequestURI unicode_lower StatusText cfg).
Abbreviation feed := (Http3Server.feed ParseRequestURI unicode_lower StatusText cfg app).
Abbreviation OnStreamData := (Http3Server.OnStreamData ParseRequestURI unicode_lower StatusText cfg app).
Implicit Types (c : Conn) (s : Server) (i : Z).

(** * The store *)

Lemma rget_rput i r c : rget i (rput i r c) = r.
Proof. unfold rget, rput. cbn. by rewrite lookup_insert_eq. Qed.

Lemma rput_rput i r r' c : rput i r (rput i r' c) = rput i r c.
Proof. unfold rput. destruct c. cbn. by rewrite insert_insert_eq. Qed.

Lemma rput_rget i r c : h_ctx c !! i = Some (CRequest (Some r)) -> rput i r c = c.
Proof. intros E. unfold rput. destruct c. cbn in *. by rewrite insert_id. Qed.

Lemma rget_at i r c : h_ctx c !! i = Some (CRequest (Some r)) -> rget i c = r.
Proof. intros E. unfold rget. by rewrite E. Qed.

(** * Steps *)

(** What a request stream does not go back on. *)
Definition later (r r' : requestStream U) : Prop := Is_true (implb (r_done r) (r_done r')) /\ Is_true (implb (r_responded r) (r_responded r')) /\ Is_true (implb (r_closed r) (r_closed r')).

Lemma later_refl r : later r r.
Proof. unfold later. by destruct (r_done r), (r_responded r), (r_closed r). Qed.

Lemma later_trans r1 r2 r3 : later r1 r2 -> later r2 r3 -> later r1 r3.
Proof. unfold later. destruct (r_done r1), (r_responded r1), (r_closed r1), (r_done r2), (r_responded r2), (r_closed r2); cbn; tauto. Qed.

(** The connection is going away as before, or begins to. *)
Definition going c c' : Prop := h_goingAway c' = h_goingAway c /\ h_goAwayID c' = h_goAwayID c \/ h_goingAway c = false /\ h_goingAway c' = true /\ h_goAwayID c' = h_nextID c.

Record moved_by i c c' (r r' : requestStream U) : Prop := {
  mb_from : h_ctx c !! i = Some (CRequest (Some r));
  mb_to : h_ctx c' = <[i := CRequest (Some r')]> (h_ctx c);
  mb_later : later r r';
  mb_served : h_served c' = h_served c \/ r_done r = false /\ r_done r' = true /\ exists q, h_served c' = h_served c ++ [(i, q)];
  mb_next : h_nextID c' = h_nextID c;
  mb_going : going c c';
}.

Definition moved i c c' : Prop := exists r r', moved_by i c c' r r'.

Definition request_at i c : Prop := exists r, h_ctx c !! i = Some (CRequest (Some r)).

Lemma moved_trans i c1 c2 c3 : moved i c1 c2 -> moved i c2 c3 -> moved i c1 c3.
Proof.
  intros (r1 & r2 & [A1 A2 A3 A4 A5 A6]) (r2' & r3 & [B1 B2 B3 B4 B5 B6]). rewrite A2, lookup_insert_eq in B1. injection B1 as <-. exists r1, r3.
  split; [done|by rewrite B2, A2, insert_insert_eq|by eapply later_trans| |congruence|].
  - destruct B4 as [B4|(B4 & B4' & q & B4'')].
    + destruct A4 as [A4|(A4 & A4' & q & A4'')]; [left; congruence|right]. split_and!; [done| |exists q; congruence]. destruct B3 as [B3 _]. rewrite A4' in B3. by destruct (r_done r3).
    + destruct A4 as [A4|(A4 & A4' & _)]; [|congruence]. right. split_and!; [|done|exists q; congruence]. destruct A3 as [A3 _]. rewrite B4 in A3. by destruct (r_done r1).
  - unfold going in *. rewrite A5 in B6. destruct A6 as [[E1 E2]|(E1 & E2 & E3)], B6 as [[F1 F2]|(F1 & F2 & F3)]; rewrite ?F1, ?F2, ?F3, ?E1, ?E2, ?E3; [left|right|right|]; split_and?; congruence.
Qed.

(** A step that leaves requests and GOAWAY alone. *)
Lemma moved_same i c c' : request_at i c -> h_ctx c' = h_ctx c -> h_served c' = h_served c -> h_nextID c' = h_nextID c -> going c c' -> moved i c c'.
Proof. intros [r Er] E1 E2 E3 E4. exists r, r. split; [done|by rewrite insert_id|by apply later_refl|by left|done|done]. Qed.

Lemma going_refl c c' : h_goingAway c' = h_goingAway c -> h_goAwayID c' = h_goAwayID c -> going c c'.
Proof. by left. Qed.

Lemma moved_refl i c : request_at i c -> moved i c c.
Proof. intros Hr. apply moved_same; [done..|by apply going_refl]. Qed.

Lemma moved_at i c c' : moved i c c' -> request_at i c'.
Proof. intros (r & r' & [_ E _ _ _ _]). exists r'. by rewrite E, lookup_insert_eq. Qed.

Lemma moved_from i c c' : moved i c c' -> request_at i c.
Proof. intros (r & r' & [E _ _ _ _ _]). by exists r. Qed.

Lemma moved_qc i c q : request_at i c -> moved i c (c <| h_qc := q |>).
Proof. intros Hr. apply moved_same; [done..|by apply going_refl]. Qed.

Lemma moved_on i f c : request_at i c -> moved i c (on_qc f c).
Proof. apply moved_qc. Qed.

Lemma moved_rput i r' c : request_at i c -> later (rget i c) r' -> moved i c (rput i r' c).
Proof. intros [r Er] Hl. rewrite (rget_at _ _ _ Er) in Hl. exists r, r'. split; [done..|by left|done|by apply going_refl]. Qed.

Lemma moved_track i c : request_at i c -> moved i c (track i c).
Proof. intros Hr. unfold track. destruct (h_streams c); [|by apply moved_refl]. apply moved_same; [done..|by apply going_refl]. Qed.

Lemma moved_untrack i c : request_at i c -> moved i c (untrack i c).
Proof. intros Hr. apply moved_same; [done|unfold untrack; by destruct (h_goingAway _ && _)..|]. apply going_refl; unfold untrack; by destruct (h_goingAway _ && _). Qed.

Lemma moved_goAway i c : request_at i c -> moved i c (goAway c).
Proof.
  intros Hr. unfold goAway. destruct (h_goingAway c) eqn:Eg; [by apply moved_refl|]. apply moved_same; [done|destruct c; cbn; by case_match..|].
  right. destruct c; cbn in *. by case_match.
Qed.

Lemma moved_then i c1 c2 c3 : moved i c1 c2 -> (request_at i c2 -> moved i c2 c3) -> moved i c1 c3.
Proof. intros A B. eapply moved_trans; [exact A|]. apply B. by eapply moved_at. Qed.

Lemma moved_done i c c' : moved i c c' -> r_done (rget i c) = true -> r_done (rget i c') = true.
Proof.
  intros (r & r' & [A1 A2 A3 _ _ _]). rewrite (rget_at _ _ _ A1). unfold rget. rewrite A2, lookup_insert_eq. destruct A3 as [A3 _]. intros Hd. rewrite Hd in A3. by destruct (r_done r').
Qed.

(** ** Calls *)

Lemma moved_write i head r c : request_at i c -> moved i c (WriteResponse unicode_lower i head r c).2.
Proof.
  intros Hr. unfold WriteResponse. destruct (_ || _); [by apply moved_refl|]. destruct (negb _); [by apply moved_refl|]. destruct (r_responded (rget i c)) eqn:Er; [by apply moved_refl|].
  destruct (r_closed (rget i c)); [by apply moved_refl|]. set (c1 := rput i _ c).
  assert (M1 : moved i c c1) by (apply moved_rput; [done|]; unfold later; cbn; rewrite Er; by destruct (r_done _), (r_closed _)). destruct (tWrite _ _ _ _) as [bad q].
  eapply moved_then; [exact M1|]. intros A1. eapply moved_then; [by apply (moved_qc i c1 q)|]. set (c2 := c1 <| h_qc := q |>). intros A2.
  set (c3 := if negb _ then _ else c2). eapply (moved_then i c2 c3); [unfold c3; destruct (negb _); [by apply moved_on|by apply moved_refl]|]. intros A3.
  set (c4 := if rClose r then goAway c3 else c3). eapply (moved_then i c3 c4); [unfold c4; destruct (rClose r); [by apply moved_goAway|by apply moved_refl]|]. intros A4. cbn [snd].
  destruct (r_req (rget i c4)); [by apply moved_untrack|by apply moved_refl].
Qed.

Lemma moved_interim i status header c : request_at i c -> moved i c (WriteInterim unicode_lower i status header c).2.
Proof.
  intros Hr. unfold WriteInterim. destruct (negb _); [by apply moved_refl|]. destruct (r_responded _); [by apply moved_refl|]. destruct (r_closed _); [by apply moved_refl|].
  destruct (tWrite _ _ _ _) as [bad q]. by apply moved_qc.
Qed.

Lemma moved_perform i a c : request_at i c -> moved i c (perform unicode_lower i c a).
Proof. intros Hr. destruct a; [by apply moved_write|by apply moved_interim|by apply moved_refl]. Qed.

Lemma moved_calls i calls c : request_at i c -> moved i c (fold_left (perform unicode_lower i) calls c).
Proof. revert c. induction calls as [|a calls IH]; intros c Hr; [by apply moved_refl|]. cbn [fold_left]. eapply moved_then; [by apply moved_perform|]. apply IH. Qed.

(** ** Requests *)

Lemma moved_abort i code c : request_at i c -> moved i c (abort i code c).
Proof.
  intros Hr. unfold abort. set (c1 := rput i _ c). assert (M1 : moved i c c1) by (apply moved_rput; [done|]; unfold later; cbn; by destruct (r_done _), (r_closed _), (r_responded _)).
  eapply moved_then; [exact M1|]. intros A1. eapply moved_then; [by apply (moved_on i (fun q => tReset i code (tStopSending i code q)))|]. fold (abortStream i code c1). intros A2.
  destruct (r_req (rget i (abortStream i code c1))); [by apply moved_untrack|by apply moved_refl].
Qed.

Lemma moved_reject i status c : request_at i c -> moved i c (reject unicode_lower StatusText i status c).
Proof.
  intros Hr. unfold reject. set (c1 := rput i _ c). assert (M1 : moved i c c1) by (apply moved_rput; [done|]; unfold later; cbn; by destruct (r_done _), (r_closed _), (r_responded _)).
  eapply moved_then; [exact M1|]. apply moved_write.
Qed.

Lemma reject_done i status c : request_at i c -> r_done (rget i (reject unicode_lower StatusText i status c)) = true.
Proof.
  intros Hr. unfold reject. set (c1 := rput i _ c). assert (A1 : request_at i c1) by (eexists; apply lookup_insert_eq). eapply moved_done; [by apply moved_write|]. unfold c1. by rewrite rget_rput.
Qed.

Lemma moved_peerReset i c : request_at i c -> moved i c (peerReset i c).
Proof.
  intros Hr. unfold peerReset. set (c1 := rput i _ c). assert (M1 : moved i c c1) by (apply moved_rput; [done|]; unfold later; cbn; by destruct (r_done _), (r_closed _), (r_responded _)).
  destruct (negb _ && negb _); [|done]. eapply moved_then; [exact M1|]. intros A1. eapply moved_then; [by apply (moved_on i (tReset i ErrCodeRequestCancelled))|]. intros A2.
  destruct (r_req (rget i c)); [by apply moved_untrack|by apply moved_refl].
Qed.

Lemma moved_finish i c : request_at i c -> r_done (rget i c) = false -> moved i c (finish unicode_lower app i c).
Proof.
  intros Hr Hd. unfold finish. destruct (_ && _); [by apply moved_abort|]. destruct (r_req (rget i c)) as [req|] eqn:Eq; [|by apply moved_refl].
  unfold serve. set (c1 := rput i _ c). set (req' := req <| ReqBody := _ |>). set (c2 := c1 <| h_served := h_served c1 ++ [(i, req')] |>). eapply (moved_then i c c2); [|apply moved_calls].
  destruct Hr as [r Er]. rewrite (rget_at _ _ _ Er) in *. exists r, (r <| r_done := true |> <| r_body := [] |>). split.
  - done.
  - unfold c2, c1. by rewrite (rget_at _ _ _ Er).
  - unfold later. rewrite Hd. cbn. by destruct (r_closed r), (r_responded r).
  - right. split_and!; [done|done|]. by exists req'.
  - done.
  - by apply going_refl.
Qed.

Lemma moved_onData i chunk c : request_at i c -> moved i c (onData i chunk c).1.
Proof.
  intros Hr. unfold Http3Server.onData. destruct (r_done _) eqn:Ed; [by apply moved_refl|]. destruct (_ || _); [by apply moved_refl|]. destruct (_ <? _); [by apply moved_reject|].
  apply moved_rput; [done|]. unfold later. cbn. by destruct (r_done _), (r_closed _), (r_responded _).
Qed.

Lemma moved_continue i r c : request_at i c -> moved i c (continue_expected unicode_lower i r c).
Proof. intros Hr. unfold continue_expected. destruct (EqualFold _ _); [by apply moved_interim|by apply moved_refl]. Qed.

Lemma later_kept (r r' : requestStream U) : r_done r' = r_done r -> r_responded r' = r_responded r -> r_closed r' = r_closed r -> later r r'.
Proof. unfold later. intros -> -> ->. by destruct (r_done _), (r_closed _), (r_responded _). Qed.

Lemma moved_open i fs c : request_at i c -> moved i c (open_request ParseRequestURI unicode_lower StatusText cfg i fs c).
Proof.
  intros Hr. unfold open_request. destruct (newRequest _ fs) as [req|]; [|by apply moved_abort]. set (c1 := rput i _ c).
  assert (M1 : moved i c c1) by (apply moved_rput; [done|]; by apply later_kept). eapply moved_then; [exact M1|]. intros A1.
  eapply moved_then; [by apply moved_track|]. set (c2 := track i c1). intros A2. destruct (announced_length req) as [[n|]|]; [|by apply moved_continue|by apply moved_abort].
  destruct (_ <? n); [by apply moved_reject|]. eapply moved_then; [apply (moved_rput i (rget i c2 <| r_declared := n |>)); [done|by apply later_kept]|]. apply moved_continue.
Qed.

Lemma moved_trailers i req fs c : request_at i c -> moved i c (take_trailers i req fs c).
Proof. intros Hr. unfold take_trailers. destruct (trailerFrom fs); [|by apply moved_abort]. apply moved_rput; [done|]. by apply later_kept. Qed.

Lemma moved_onFrame i typ payload c : request_at i c -> moved i c (onFrame i typ payload c).1.
Proof.
  intros Hr. unfold Http3Server.onFrame. destruct (r_done _); [by apply moved_refl|]. destruct (typ =? frameHeaders).
  - destruct (r_trailers _); [by apply moved_refl|]. destruct (decodeFields _ _) as [[fs|[]]|]; [|by apply moved_refl|by apply moved_reject|by apply moved_refl].
    cbn [fst]. destruct (r_req _); [by apply moved_trailers|by apply moved_open].
  - destruct (_ || _); [by apply moved_refl|]. destruct (reservedFrame typ); by apply moved_refl.
Qed.

Lemma moved_fail i e c : request_at i c -> moved i c (fail e c).
Proof. intros Hr. destruct e; by apply moved_on. Qed.

Lemma moved_end i p c : request_at i c -> moved i c (feed_end unicode_lower app i p c).
Proof.
  intros Hr. unfold feed_end. destruct (r_done (rget i c)) eqn:Ed; [by apply moved_refl|]. set (c1 := rput i _ c).
  assert (M1 : moved i c c1) by (apply moved_rput; [done|]; by apply later_kept). eapply moved_then; [exact M1|]. intros A1. destruct (midFrame p); [by apply moved_fail|].
  destruct (r_req _); [|by apply moved_abort]. apply moved_finish; [done|]. unfold c1. by rewrite rget_rput.
Qed.

Lemma moved_feed i data fin s : request_at i (conn s) -> moved i (conn s) (conn (feed i data fin s)).
Proof.
  intros Hr. unfold Http3Server.feed. destruct (r_done _); [by apply moved_refl|]. unfold feed_frames. set (p := default _ _).
  pose proof (parse_keeps (onData i) (onFrame i) (maxFrame p) (request_at i) (moved i) (moved_refl i) (moved_trans i) (moved_at i) (moved_onData i) (moved_onFrame i)
    (S (length (pbuf p ++ data))) (pbuf p ++ data) (dataLeft p) (conn s) Hr) as M.
  destruct (parse_loop _ _ _ _ _ _ _) as [[[rest l] c1] err]. cbn [fst snd] in M. destruct err as [e|]; cbn [conn].
  - eapply moved_then; [exact M|]. apply moved_fail.
  - destruct fin; cbn [negb]; [|done]. eapply moved_then; [exact M|]. apply moved_end.
Qed.

(** * Whatever happens *)

(** What a connection may be given: the events of its streams, its end, and at
    any time a call of the application for a request it was given. *)
Inductive input := Data (i : Z) (data : bytes) (fin : bool) | Reset (i : Z) | Stop (i : Z) | Closed | Call (i : Z) (a : call).

Definition step (x : input) (s : Server) : option Server :=
  match x with
  | Data i data fin => OnStreamData i data fin s
  | Reset i => let? k := OnStreamReset i (conn s) in Some (s <| conn := k |>)
  | Stop i => let? k := OnStopSending i (conn s) in Some (s <| conn := k |>)
  | Closed => Some (s <| conn := OnClose (conn s) |>)
  | Call i a => if bool_decide (i ∈ (h_served (conn s)).*1) then Some (s <| conn := perform unicode_lower i (conn s) a |>) else Some s
  end.

Fixpoint run (xs : list input) (s : Server) : option Server := match xs with [] => Some s | x :: xs => let? t := step x s in run xs t end.

(** Stream IDs are varints. *)
Definition id_ok (x : input) : Prop := match x with Data i _ _ => 0 <= i < 2 ^ 62 | _ => True end.

Record kept c : Prop := {
  k_once : NoDup (h_served c).*1;
  k_done : forall j, j ∈ (h_served c).*1 -> exists r, h_ctx c !! j = Some (CRequest (Some r)) /\ r_done r = true;
  k_next : forall j, request_at j c -> j < h_nextID c;
  k_going : h_goingAway c = true -> forall j, request_at j c -> j < h_goAwayID c;
}.

Lemma kept_new q : kept (new_conn q).
Proof. split; cbn; [by apply NoDup_nil_2|by intros j []%elem_of_nil|intros j [r Hr]; done|done]. Qed.

Lemma kept_moved i c c' : moved i c c' -> kept c -> kept c'.
Proof.
  intros (r & r' & [A1 A2 A3 A4 A5 A6]) [K1 K2 K3 K4].
  assert (Hq : forall j, request_at j c' -> request_at j c).
  { intros j [q Hq]. destruct (decide (j = i)) as [->|Hn]; [by exists r|]. exists q. rewrite A2, lookup_insert_ne in Hq by done. done. }
  assert (Hd : r_done r = true -> r_done r' = true) by (destruct A3 as [A3 _]; destruct (r_done r), (r_done r'); done).
  split.
  - destruct A4 as [->|(A4 & _ & q & ->)]; [done|]. rewrite fmap_app. apply NoDup_app. split_and!; [done| |by apply NoDup_singleton].
    intros j Hj [-> |[]%elem_of_nil]%elem_of_cons. destruct (K2 _ Hj) as (r2 & E2 & D2). cbn in E2. rewrite A1 in E2. injection E2 as <-. congruence.
  - intros j Hj. rewrite A2. destruct (decide (j = i)) as [->|Hn].
    + rewrite lookup_insert_eq. exists r'. split; [done|]. destruct A4 as [A4|(A4 & A4' & q & _)]; [|done]. rewrite A4 in Hj. destruct (K2 _ Hj) as (r2 & E2 & D2). rewrite A1 in E2. injection E2 as <-. auto.
    + rewrite lookup_insert_ne by done. apply K2. destruct A4 as [<-|(_ & _ & q & Eq)]; [done|]. rewrite Eq, fmap_app, elem_of_app in Hj. destruct Hj as [Hj|Hj]; [done|]. cbn in Hj. apply list_elem_of_singleton in Hj. done.
  - intros j Hj. rewrite A5. auto.
  - intros Hg j Hj. destruct A6 as [[E1 E2]|(E1 & E2 & E3)]; [rewrite E2; apply K4; [congruence|auto]|rewrite E3; auto].
Qed.

(** A stream that carries no request, or a request not begun yet. *)
Lemma kept_insert i x c c' : ~ request_at i c -> h_ctx c' = <[i := x]> (h_ctx c) -> h_served c' = h_served c -> h_nextID c <= h_nextID c' ->
  h_goingAway c' = h_goingAway c -> h_goAwayID c' = h_goAwayID c -> (forall r, x = CRequest (Some r) -> i < h_nextID c' /\ (h_goingAway c = true -> i < h_goAwayID c)) -> kept c -> kept c'.
Proof.
  intros Hi E1 E2 E3 E4 E5 Hx [K1 K2 K3 K4].
  assert (Hq : forall j, request_at j c' -> j = i /\ (exists r, x = CRequest (Some r)) \/ request_at j c).
  { intros j [q Hq]. rewrite E1 in Hq. destruct (decide (j = i)) as [->|Hn]; [rewrite lookup_insert_eq in Hq; left; split; [done|]; exists q; congruence|]. rewrite lookup_insert_ne in Hq by done. right. by exists q. }
  split.
  - by rewrite E2.
  - intros j Hj. rewrite E2 in Hj. destruct (K2 j Hj) as (r & Er & Dr). exists r. split; [|done]. rewrite E1, lookup_insert_ne; [done|]. intros ->. apply Hi. by exists r.
  - intros j [[-> [r Er]]|Hj]%Hq; [by destruct (Hx r Er)|]. specialize (K3 j Hj). lia.
  - intros Hg j Hj%Hq. rewrite E4 in Hg. rewrite E5. destruct Hj as [[-> [r Er]]|Hj]; [destruct (Hx r Er); auto|auto].
Qed.

Lemma kept_uni_feed i data fin u c : ~ request_at i c -> kept c -> kept (uni_feed i data fin u c).
Proof.
  intros Hi. unfold uni_feed. destruct (handle _ _ _ _ _) as [[[u' [p' w']] stop] err]. intros K. apply (kept_insert i (CUni u') c); [done| | | | | |done|done];
    destruct stop, err as [[]|]; done.
Qed.

Lemma kept_same c c' : h_ctx c' = h_ctx c -> h_served c' = h_served c -> h_nextID c' = h_nextID c -> h_goingAway c' = h_goingAway c -> h_goAwayID c' = h_goAwayID c -> kept c -> kept c'.
Proof. intros E1 E2 E3 E4 E5 [K1 K2 K3 K4]. unfold request_at in *. split; unfold request_at; rewrite ?E1, ?E2, ?E3, ?E4, ?E5; done. Qed.

(** The end of the connection closes what is left of it. *)
Definition closed_if (b : bool) (x : option (context U)) : option (context U) :=
  match x with Some (CRequest (Some r)) => Some (CRequest (Some (if b then r <| r_closed := true |> else r))) | _ => x end.

Lemma close_all_at (live : gset Z) (ctx : gmap Z (context U)) j : close_all live ctx !! j = closed_if (bool_decide (j ∈ live)) (ctx !! j).
Proof.
  unfold close_all. set (f := fun i ctx => _).
  refine (set_fold_ind_L (fun m (X : gset Z) => m !! j = closed_if (bool_decide (j ∈ X)) (ctx !! j)) f ctx _ _ live); clear live.
  - rewrite bool_decide_eq_false_2 by set_solver. by destruct (ctx !! j) as [[[r|]|u]|].
  - intros i X m Hi IH. unfold f. destruct (decide (i = j)) as [->|Hn].
    + rewrite (bool_decide_eq_false_2 (j ∈ X)) in IH by done. rewrite bool_decide_eq_true_2 by set_solver. destruct (ctx !! j) as [[[r|]|u]|] eqn:Ej; cbn in *; rewrite IH; [by rewrite lookup_insert_eq|done..].
    + rewrite (bool_decide_ext (j ∈ {[i]} ∪ X) (j ∈ X)) by set_solver. rewrite <- IH. destruct (m !! i) as [[[r|]|u]|]; [by rewrite lookup_insert_ne by done|done..].
Qed.

Lemma kept_close c : kept c -> kept (OnClose c).
Proof.
  intros [K1 K2 K3 K4]. assert (Hq : forall j, request_at j (OnClose c) -> request_at j c).
  { intros j [q Hq]. cbn in Hq. rewrite close_all_at in Hq. unfold request_at. destruct (h_ctx c !! j) as [[[r|]|u]|]; try done. by exists r. }
  split; [done| |auto|auto]. intros j Hj. destruct (K2 j Hj) as (r & Er & Dr). cbn. rewrite close_all_at, Er. cbn. destruct (bool_decide _); eauto.
Qed.

Lemma kept_data i data fin s s' : 0 <= i < 2 ^ 62 -> kept (conn s) -> OnStreamData i data fin s = Some s' -> kept (conn s').
Proof.
  intros Hi K. unfold Http3Server.OnStreamData. destruct (h_ctx (conn s) !! i) as [[[r|]|u]|] eqn:Ec; [|done| |].
  - intros [= <-]. eapply kept_moved; [|exact K]. apply moved_feed. by exists r.
  - intros [= <-]. apply kept_uni_feed; [|done]. intros [r Hr]. congruence.
  - assert (Hn : ~ request_at i (conn s)) by (intros [r Hr]; congruence). destruct (bidirectional i); [|intros [= <-]; by apply kept_uni_feed].
    unfold newRequestStream. destruct (h_goingAway (conn s) && (h_goAwayID (conn s) <=? i)) eqn:Eg.
    + intros [= <-]. cbn [conn]. apply (kept_insert i (CRequest None) (conn s)); first [done|cbn; lia].
    + set (c1 := (conn s <| h_nextID := _ |>) <| h_ctx := _ |>). intros [= <-]. assert (Er : request_at i c1) by (exists no_request; cbn; by rewrite lookup_insert_eq).
      eapply kept_moved; [apply moved_feed; exact Er|]. cbn [conn]. apply (kept_insert i (CRequest (Some no_request)) (conn s)); [done..| |done|done| |done].
      * cbn. lia.
      * intros r' _. cbn. rewrite u64_small by lia. split; [lia|]. intros Hg. rewrite Hg in Eg. cbn in Eg. lia.
Qed.

Lemma kept_step x s s' : id_ok x -> kept (conn s) -> step x s = Some s' -> kept (conn s').
Proof.
  intros Hx K. destruct x as [i data fin|i|i| |i a]; cbn [step id_ok] in *.
  - by apply kept_data.
  - unfold OnStreamReset. destruct (h_ctx (conn s) !! i) as [[[r|]|u]|] eqn:Ec; [|done| |]; intros [= <-]; cbn [conn].
    + eapply kept_moved; [|exact K]. apply moved_peerReset. by exists r.
    + destruct (_ || _); [|done]. by apply (kept_same (conn s)).
    + done.
  - unfold OnStopSending. destruct (h_ctx (conn s) !! i) as [[[r|]|u]|] eqn:Ec; [|done| |]; intros [= <-]; cbn [conn]; [|done..].
    eapply kept_moved; [|exact K]. apply moved_peerReset. by exists r.
  - intros [= <-]. by apply kept_close.
  - destruct (bool_decide _) eqn:Eb; intros [= <-]; [|done]. apply bool_decide_eq_true in Eb. destruct (k_done _ K i Eb) as (r & Er & _).
    eapply kept_moved; [|exact K]. apply moved_perform. by exists r.
Qed.

Lemma kept_run xs s s' : Forall id_ok xs -> kept (conn s) -> run xs s = Some s' -> kept (conn s').
Proof.
  revert s. induction xs as [|x xs IH]; intros s Hx K; [by intros [= <-]|]. apply Forall_cons in Hx as [Hx1 Hx2]. cbn [run]. destruct (step x s) as [s1|] eqn:E1; [|done]. apply IH; [done|]. by eapply kept_step.
Qed.

Lemma kept_handshake c : kept c -> kept (OnHandshake cfg c).
Proof. intros K. unfold OnHandshake. destruct (tOpen _ _) as [[i|] q]; [destruct (tWrite _ _ _ _) as [[] q2]|]; by apply (kept_same c). Qed.

(** The ID of the GOAWAY stays what it was. *)
Definition stays c c' : Prop := h_goingAway c = true -> h_goingAway c' = true /\ h_goAwayID c' = h_goAwayID c.

Lemma stays_moved i c c' : moved i c c' -> stays c c'.
Proof. intros (r & r' & [_ _ _ _ _ [[E1 E2]|(E1 & _ & _)]]) Hg; [split; congruence|congruence]. Qed.

Lemma stays_uni i data fin u c : stays c (uni_feed i data fin u c).
Proof. unfold uni_feed. destruct (handle _ _ _ _ _) as [[[u' [p' w']] stop] err]. intros Hg. by destruct stop, err as [[]|]. Qed.

Lemma stays_step x s s' : kept (conn s) -> step x s = Some s' -> stays (conn s) (conn s').
Proof.
  intros K. destruct x as [i data fin|i|i| |i a]; cbn [step].
  - unfold Http3Server.OnStreamData. destruct (h_ctx (conn s) !! i) as [[[r|]|u]|] eqn:Ec; [|done| |].
    + intros [= <-]. apply (stays_moved i), moved_feed. by exists r.
    + intros [= <-]. apply stays_uni.
    + destruct (bidirectional i); [|intros [= <-]; apply stays_uni]. unfold newRequestStream. destruct (h_goingAway (conn s) && _).
      * intros [= <-]. by intros Hg.
      * set (c1 := (conn s <| h_nextID := _ |>) <| h_ctx := _ |>). intros [= <-]. assert (Er : request_at i c1) by (exists no_request; cbn; by rewrite lookup_insert_eq).
        pose proof (stays_moved i _ _ (moved_feed i data fin (MkH3Server U Q (<[i := new_parser cfg]> (parsers s)) c1) Er)) as M. intros Hg. apply M, Hg.
  - unfold OnStreamReset. destruct (h_ctx (conn s) !! i) as [[[r|]|u]|] eqn:Ec; [|done| |]; intros [= <-]; [|by destruct (_ || _)|done]. apply (stays_moved i), moved_peerReset. by exists r.
  - unfold OnStopSending. destruct (h_ctx (conn s) !! i) as [[[r|]|u]|] eqn:Ec; [|done| |]; intros [= <-]; [|done..]. apply (stays_moved i), moved_peerReset. by exists r.
  - by intros [= <-].
  - destruct (bool_decide _) eqn:Eb; intros [= <-]; [|done]. apply bool_decide_eq_true in Eb. destruct (k_done _ K i Eb) as (r & Er & _). apply (stays_moved i), moved_perform. by exists r.
Qed.

Lemma stays_run xs s s' : Forall id_ok xs -> kept (conn s) -> run xs s = Some s' -> stays (conn s) (conn s').
Proof.
  revert s. induction xs as [|x xs IH]; intros s Hx K; [by intros [= <-]|]. apply Forall_cons in Hx as [Hx1 Hx2]. cbn [run]. destruct (step x s) as [s1|] eqn:E1; [|done].
  intros E2 Hg. destruct (stays_step x s s1 K E1 Hg) as [G1 G2]. destruct (IH s1 Hx2 (kept_step x s s1 Hx1 K E1) E2 G1) as [F1 F2]. split; congruence.
Qed.

(** C17: whatever the client sends and whenever the application answers, an
    HTTP/3 connection gives each stream's request to the application at most once;
    and from its GOAWAY on, the ID it named stays the same and no request from that
    ID on is ever given to the application. *)
Theorem h3_goaway_promise q xs1 xs2 s1 s2 : Forall id_ok (xs1 ++ xs2) -> run xs1 (MkH3Server U Q ∅ (OnHandshake cfg (new_conn q))) = Some s1 -> run xs2 s1 = Some s2 ->
  NoDup (h_served (conn s2)).*1 /\
  (h_goingAway (conn s1) = true -> h_goAwayID (conn s2) = h_goAwayID (conn s1) /\ forall j, j ∈ (h_served (conn s2)).*1 -> j < h_goAwayID (conn s1)).
Proof.
  intros [Hx1 Hx2]%Forall_app E1 E2. assert (K0 : kept (OnHandshake cfg (new_conn (U := U) q))) by apply kept_handshake, kept_new.
  pose proof (kept_run xs1 (MkH3Server U Q ∅ _) s1 Hx1 K0 E1) as K1. pose proof (kept_run xs2 _ s2 Hx2 K1 E2) as K2. split; [by apply k_once|]. intros Hg.
  destruct (stays_run xs2 s1 s2 Hx2 K1 E2 Hg) as [G1 G2]. split; [done|]. intros j Hj. rewrite <- G2. apply (k_going _ K2 G1). destruct (k_done _ K2 j Hj) as (r & Er & _). by exists r.
Qed.
End request.
