(* ===== verification/Http3Request.v ===== *)
(** A request over HTTP/3, from the client's stream to the application.

    DATA may be cut anywhere, so a request stream may be cut anywhere too
    ([feed_pieces]); a HEADERS frame, DATA and trailers are then taken one by one. *)
From Stdlib Require Import String.
From S2P Require Import Prelude.
From S2P Require Import Varint.
From S2P Require Import HpackTables.
From S2P Require Import Huffman.
From S2P Require Import Hpack.
From S2P Require Import Qpack.
From S2P Require Import GoText.
From S2P Require Import HttpWriter.
From S2P Require Import Http2Server.
From S2P Require Import Http3Frames.
From S2P Require Import Http3Server.
From S2P Require Import Http3Inv.

Section request.
Context {U Q : Type} `{Transport Q}.
Abbreviation Conn := (serverConn U Q).
Abbreviation Server := (h3Server U Q).
Context (ParseRequestURI : bytes -> option U) (unicode_lower : bytes -> bytes) (StatusText : Z -> bytes) (cfg : h3Config) (app : Z -> Request U -> list call).
Abbreviation onData := (Http3Server.onData (U := U) (Q := Q) unicode_lower StatusText cfg).
Abbreviation onFrame := (Http3Server.onFrame ParseRequestURI unicode_lower StatusText cfg).
Abbreviation feed := (Http3Server.feed ParseRequestURI unicode_lower StatusText cfg app).
Abbreviation OnStreamData := (Http3Server.OnStreamData ParseRequestURI unicode_lower StatusText cfg app).
Abbreviation parse_at i := (parse (onData i) (onFrame i)).
Implicit Types (c : Conn) (s : Server) (i : Z).

(** * Cutting *)

Lemma onData_splittable i : splittable (onData i).
Proof.
  intros a b c _ _. unfold Http3Server.onData. destruct (r_done (rget i c)) eqn:Ed; [by rewrite Ed|].
  destruct (bool_decide (r_req (rget i c) = None)) eqn:Er; cbn [orb]; [done|]. destruct (r_trailers (rget i c)) eqn:Et; [done|].
  rewrite !len_app. pose proof (len_nonneg b). destruct (Z.ltb_spec (h3MaxBodyBytes cfg) (len (r_body (rget i c)) + len a)) as [Ha|Ha].
  - destruct (Z.ltb_spec (h3MaxBodyBytes cfg) (len (r_body (rget i c)) + (len a + len b))) as [|]; [|lia].
    assert (Hd : r_done (rget i (reject unicode_lower StatusText i 413 c)) = true).
    { apply reject_done. apply bool_decide_eq_false in Er. unfold rget in Er. unfold request_at. destruct (h_ctx c !! i) as [[[r|]|u]|]; eauto; done. }
    by rewrite Hd.
  - rewrite rget_rput. cbn. rewrite Ed, Er, Et. cbn [orb]. rewrite len_app, Z.add_assoc.
    destruct (Z.ltb_spec (h3MaxBodyBytes cfg) (len (r_body (rget i c)) + len a + len b)) as [Hb|Hb].
    + f_equal. unfold reject. rewrite !rget_rput, !rput_rput. reflexivity.
    + f_equal. rewrite rput_rput. by rewrite <- (assoc_L (++)).
Qed.

(** ** A stream in pieces *)

Definition parser_of i s : frameParser := default (FrameParser [] 0 0) (parsers s !! i).

(** What [feed] makes of the parser's result. *)
Definition fed_to i (fin : bool) (x : frameParser * Conn * option h3_error) s : Server :=
  let '(p, c, err) := x in
  let s := s <| parsers := <[i := p]> (parsers s) |> in
  match err with
  | Some e => s <| conn := fail e c |>
  | None => s <| conn := if negb fin then c else feed_end unicode_lower app i p c |>
  end.

Lemma server_fed i : fed (onData i) (onFrame i) (fun c => r_done (rget i c)) (parser_of i) conn (fun p c s => MkH3Server U Q (<[i := p]> (parsers s)) c) (fed_to i).
Proof.
  split.
  - apply onData_splittable.
  - intros d c Hd. unfold Http3Server.onData. by rewrite Hd.
  - intros t d c Hd. unfold Http3Server.onFrame. by rewrite Hd.
  - intros p c s. unfold parser_of. cbn [parsers]. by rewrite lookup_insert_eq.
  - done.
  - by intros p c [].
  - intros fin [[p c] err] p' c' [ps c0]. unfold fed_to. cbn. by rewrite insert_insert_eq.
Qed.

(** However a stream that is read to its end is cut, the end finds the same. *)
Lemma feed_pieces i pieces s buf left c : parser_ok (parser_of i s) -> Forall bytes_ok pieces -> r_done (rget i (conn s)) = false ->
  parse_at i (maxFrame (parser_of i s)) (pbuf (parser_of i s) ++ mjoin pieces) (dataLeft (parser_of i s)) (conn s) = (Some buf, left, c, None) -> r_done (rget i c) = false ->
  feed i [] true (fold_left (fun s d => feed i d false s) pieces s) = feed i (mjoin pieces) true s.
Proof. intros. by apply (fed_pieces (server_fed i) pieces s buf left c). Qed.

(** * A request *)

(** A frame that may follow a request's HEADERS: DATA, or one of a type nobody knows. *)
Definition extension (typ : Z) : bool := negb (bool_decide (typ ∈ [frameData; frameHeaders; frameCancelPush; frameSettings; framePushPromise; frameGoAway; frameMaxPushID])) && negb (reservedFrame typ).

Definition body_frame (mx : Z) (f : Z * bytes) : Prop := 0 <= f.1 <= maxVarint /\ len f.2 <= maxVarint /\ (f.1 = frameData \/ extension f.1 = true /\ len f.2 <= mx).

Definition enc_frame (f : Z * bytes) : bytes := appendFrameHeader [] f.1 (len f.2) ++ f.2.

Definition data_of (frames : list (Z * bytes)) : bytes := mjoin ((fun f => if f.1 =? frameData then f.2 else []) <$> frames).

(** A field section a receiver with a limit takes. *)
Definition section_ok (mx : Z) (fs : list (HeaderField * bool)) : Prop :=
  Forall (fun f => line_ok f.1) fs /\ (admitted mx 0 fs.*1).2 = true /\ len (encode_section fs) <= mx.

Definition request_bytes (fs : list (HeaderField * bool)) (frames : list (Z * bytes)) (trailer : option (list (HeaderField * bool))) : bytes :=
  appendHeadersFrame [] (encode_section fs) ++ mjoin (enc_frame <$> frames) ++ match trailer with Some t => appendHeadersFrame [] (encode_section t) | None => [] end.

Lemma admitted_all mx size fs : (admitted mx size fs).2 = true -> (admitted mx size fs).1 = fs.
Proof.
  revert size. induction fs as [|f fs IH]; intros size; [done|]. cbn [admitted]. destruct (_ && _); [done|]. specialize (IH (size + fsize f)).
  destruct (admitted mx (size + fsize f) fs) as [l all]. cbn in *. intros E. by rewrite IH.
Qed.

Lemma decode_section fs mx : Forall (fun f => line_ok f.1) fs -> (admitted mx 0 fs.*1).2 = true -> decodeFields (encode_section fs) mx = Some (Ok fs.*1).
Proof.
  intros Hf Ha. unfold decodeFields. destruct (section_lines fs Prefix Hf) as (out & E & Hd). change (encode_section fs) with (encode_lines fs Prefix). rewrite E.
  change (Decode collect mx [] (Prefix ++ out)) with (Decode_loop collect mx (length out) [] out 0). rewrite Hd by lia. by rewrite Ha, admitted_all.
Qed.

(** ** The frames *)

Lemma onData_ok i chunk r req c : h_ctx c !! i = Some (CRequest (Some r)) -> r_done r = false -> r_req r = Some req -> r_trailers r = false ->
  len (r_body r) + len chunk <= h3MaxBodyBytes cfg -> onData i chunk c = (rput i (r <| r_body := r_body r ++ chunk |>) c, None).
Proof.
  intros Er Hd Hq Ht Hl. unfold Http3Server.onData. rewrite (rget_at _ _ _ Er), Hd, Hq, Ht. rewrite bool_decide_eq_false_2 by done. cbn [orb]. by destruct (Z.ltb_spec (h3MaxBodyBytes cfg) (len (r_body r) + len chunk)); [lia|].
Qed.

Lemma onFrame_extension i typ payload r c : h_ctx c !! i = Some (CRequest (Some r)) -> r_done r = false -> extension typ = true -> onFrame i typ payload c = (c, None).
Proof.
  intros Er Hd [Hx Hres]%andb_true_iff. apply negb_true_iff, bool_decide_eq_false in Hx. apply negb_true_iff in Hres. unfold Http3Server.onFrame. rewrite (rget_at _ _ _ Er), Hd, Hres.
  rewrite !not_elem_of_cons in Hx. destruct Hx as (H1 & H2 & H3 & H4 & H5 & H6 & H7 & _). repeat match goal with |- context [typ =? ?k] => destruct (Z.eqb_spec typ k); [done|] end. done.
Qed.

(** Setting the body twice is setting it once. *)
Lemma rput_body i (r : requestStream U) b b' c : rput i (r <| r_body := b |> <| r_body := b' |>) (rput i (r <| r_body := b |>) c) = rput i (r <| r_body := b' |>) c.
Proof. by rewrite rput_rput. Qed.

Lemma parse_body mx i frames rest r req c : h3MaxHeaderBytes cfg <= mx -> Forall (body_frame (h3MaxHeaderBytes cfg)) frames -> bytes_ok (mjoin (enc_frame <$> frames) ++ rest) ->
  h_ctx c !! i = Some (CRequest (Some r)) -> r_done r = false -> r_req r = Some req -> r_trailers r = false -> len (r_body r) + len (data_of frames) <= h3MaxBodyBytes cfg ->
  parse_at i mx (mjoin (enc_frame <$> frames) ++ rest) 0 c = parse_at i mx rest 0 (rput i (r <| r_body := r_body r ++ data_of frames |>) c).
Proof.
  intros Hmx Hf. revert r c. induction Hf as [|[typ p] frames [Hty [Hlp Hk]] Hf IH]; intros r c Hb Er Hd Hq Ht Hl.
  { unfold data_of. cbn. rewrite app_nil_r. rewrite rput_rget; [done|]. rewrite Er. by destruct r. }
  cbn [fst snd] in *. assert (Eb : mjoin (enc_frame <$> (typ, p) :: frames) ++ rest = appendFrameHeader [] typ (len p) ++ p ++ mjoin (enc_frame <$> frames) ++ rest).
  { cbn. unfold enc_frame at 1. cbn [fst snd]. by rewrite <- !(assoc_L (++)). }
  rewrite Eb in *. apply Forall_app in Hb as [_ [Hbp Hbr]%Forall_app]. assert (Ed : data_of ((typ, p) :: frames) = (if typ =? frameData then p else []) ++ data_of frames) by done.
  rewrite Ed in *. rewrite len_app in Hl. pose proof (len_nonneg (data_of frames)). pose proof (len_nonneg p). destruct Hk as [-> |[Hx Hlx]].
  - change (frameData =? frameData) with true in *. cbn beta iota in *. destruct (decide (p = [])) as [->|Hp].
    + cbn [List.app]. change (len (@nil Z)) with 0 in *. cbn [List.app].
      destruct (ReadVarint_header frameData 0 (mjoin (enc_frame <$> frames) ++ rest) ltac:(unfold frameData, maxVarint; lia) ltac:(unfold maxVarint; lia)) as (E1 & E2 & E3 & _ & E5 & E6).
      rewrite parse_round by (apply Forall_app; split; [by apply frame_header_bytes|done]). unfold round at 1. cbn [Z.ltb Z.compare]. rewrite E1, E2.
      destruct (Z.eqb_spec (VarintLen frameData) 0); [lia|]. destruct (Z.eqb_spec (VarintLen 0) 0); [lia|]. change (frameData =? frameData) with true. cbn beta iota.
      pose proof (E3 0 ltac:(lia)) as E0. rewrite Z.add_0_r in E0. rewrite E0. change (Z.to_nat 0) with 0%nat. rewrite drop_0.
      rewrite (onData_ok i [] r req) by (done || (change (len (@nil Z)) with 0; lia)). rewrite app_nil_r. rewrite rput_rget by (rewrite Er; by destruct r). by apply IH.
    + rewrite parse_data by done. rewrite (onData_ok i [] r req) by (done || (change (len (@nil Z)) with 0; lia)). rewrite app_nil_r. rewrite rput_rget by (rewrite Er; by destruct r).
      rewrite (onData_ok i p r req) by (done || lia). pose (r1 := r <| r_body := r_body r ++ p |>). pose (c1 := rput i r1 c).
      change (parse_at i mx (mjoin (enc_frame <$> frames) ++ rest) 0 c1 = parse_at i mx rest 0 (rput i (r <| r_body := r_body r ++ p ++ data_of frames |>) c)).
      rewrite (IH r1 c1); [|done|by unfold c1, rput; cbn; rewrite lookup_insert_eq|done|done|done|unfold r1; cbn; rewrite len_app; lia]. unfold c1, r1. cbn [r_body]. rewrite rput_body. cbn. by rewrite <- (assoc_L (++)).
  - assert (typ <> frameData) by (intros ->; done). destruct (Z.eqb_spec typ frameData); [done|]. cbn [List.app] in *. rewrite parse_frame by (done || lia). rewrite (onFrame_extension i typ p r) by done. by apply IH.
Qed.

(** What HTTP/3 sends on a request that asks for a 100: an interim response. *)
Definition interim i (req : Request U) (q : Q) : Q :=
  if EqualFold (Get (ReqHeader req) (str "Expect")) (str "100-continue")
  then (tWrite i (appendHeadersFrame [] (Qpack.AppendField Prefix (str ":status") (FormatInt 100 10) false)) false q).2 else q.

(** A request whose HEADERS have arrived, and one that has arrived whole. *)
Definition reading (req : Request U) (body : bytes) (decl : Z) (tr : bool) : requestStream U := MkRequestStream U (Some req) body decl tr false false false false.
Definition arrived (req : Request U) (decl : Z) (tr : bool) : requestStream U := MkRequestStream U (Some req) [] decl tr true true false false.

Definition opened i (req : Request U) c : Conn := on_qc (interim i req) (track i c).

Lemma continue_interim i req r c : h_ctx c !! i = Some (CRequest (Some r)) -> r_responded r = false -> r_closed r = false -> continue_expected unicode_lower i req c = on_qc (interim i req) c.
Proof.
  intros Er Hr Hc. unfold continue_expected, interim, WriteInterim. destruct (EqualFold _ _); [|by destruct c]. cbn [checkHeader forallb negb]. rewrite (rget_at _ _ _ Er), Hr, Hc.
  destruct (tWrite _ _ _ _) as [bad q] eqn:Ew. unfold on_qc. unfold appendHeader in Ew. cbn [fold_left] in Ew. by rewrite Ew.
Qed.

Lemma onFrame_headers i fs req decl c : section_ok (h3MaxHeaderBytes cfg) fs -> newRequest ParseRequestURI fs.*1 = Some req ->
  (announced_length req = Some None /\ decl = -1 \/ announced_length req = Some (Some decl) /\ decl <= h3MaxBodyBytes cfg) -> h_ctx c !! i = Some (CRequest (Some no_request)) ->
  onFrame i frameHeaders (encode_section fs) c = (rput i (reading req [] decl false) (opened i req c), None).
Proof.
  intros (Hf & Ha & _) Hq Hn Er. unfold Http3Server.onFrame. rewrite (rget_at _ _ _ Er). cbn [no_request r_done r_trailers r_req]. change (frameHeaders =? frameHeaders) with true. cbn beta iota.
  rewrite decode_section by done. unfold open_request. rewrite Hq, (rget_at _ _ _ Er). set (r1 := no_request <| r_req := Some req |>).
  assert (E1 : h_ctx (track i (rput i r1 c)) !! i = Some (CRequest (Some r1))) by (unfold track; cbn; destruct (h_streams c); cbn; by rewrite lookup_insert_eq).
  assert (E2 : forall r, rput i r (track i (rput i r1 c)) = rput i r (track i c)) by (intros r; unfold track, rput; destruct c as [? ? ? [] ? ? ? ? ?]; cbn; by rewrite insert_insert_eq).
  assert (E3 : forall r, on_qc (interim i req) (rput i r (track i c)) = rput i r (on_qc (interim i req) (track i c))) by done.
  destruct Hn as [[-> ->]|[-> Hdecl]].
  - rewrite (continue_interim i req r1) by done. rewrite <- (rput_rget i r1 (track i (rput i r1 c))) by done. rewrite E2, E3. done.
  - destruct (Z.ltb_spec (h3MaxBodyBytes cfg) decl); [lia|]. rewrite (rget_at _ _ _ E1), E2.
    rewrite (continue_interim i req (r1 <| r_declared := decl |>)); [by rewrite E3|unfold rput; cbn; by rewrite lookup_insert_eq|done|done].
Qed.

Lemma onFrame_trailers i req body decl t th c : section_ok (h3MaxHeaderBytes cfg) t -> trailerFrom t.*1 = Some th -> h_ctx c !! i = Some (CRequest (Some (reading req body decl false))) ->
  onFrame i frameHeaders (encode_section t) c = (rput i (reading (req <| Trailer := Some th |>) body decl true) c, None).
Proof.
  intros (Hf & Ha & _) Ht Er. unfold Http3Server.onFrame. rewrite (rget_at _ _ _ Er). cbn [reading r_done r_trailers r_req]. change (frameHeaders =? frameHeaders) with true. cbn beta iota.
  rewrite decode_section by done. unfold take_trailers. rewrite Ht, (rget_at _ _ _ Er). done.
Qed.

(** Parsing a request. *)
Lemma parse_request i fs frames trailer th req decl c : h3MaxHeaderBytes cfg <= maxVarint -> section_ok (h3MaxHeaderBytes cfg) fs -> newRequest ParseRequestURI fs.*1 = Some req ->
  (announced_length req = Some None /\ decl = -1 \/ announced_length req = Some (Some decl) /\ decl <= h3MaxBodyBytes cfg) -> len (data_of frames) <= h3MaxBodyBytes cfg -> Forall (body_frame (h3MaxHeaderBytes cfg)) frames ->
  match trailer with Some t => section_ok (h3MaxHeaderBytes cfg) t /\ trailerFrom t.*1 = th /\ th <> None | None => th = None end -> bytes_ok (request_bytes fs frames trailer) -> h_ctx c !! i = Some (CRequest (Some no_request)) ->
  parse_at i (h3MaxHeaderBytes cfg) (request_bytes fs frames trailer) 0 c =
  (Some [], 0, rput i (reading (req <| Trailer := match th with Some _ => th | None => Trailer req end |>) (data_of frames) decl (bool_decide (th <> None))) (opened i req c), None).
Proof.
  intros Hmx Hs Hq Hn Hl Hf Ht Hb Er. unfold request_bytes in *. unfold appendHeadersFrame at 1. unfold appendHeadersFrame at 1 in Hb. rewrite <- (assoc_L (++)) in *.
  pose proof Hb as Hb0. apply Forall_app in Hb as [_ [Hb1 Hb2]%Forall_app]. pose proof Hs as (_ & _ & Hlen).
  rewrite parse_frame by (done || lia || (unfold frameHeaders, maxVarint; lia)). rewrite (onFrame_headers i fs req decl c) by done. cbn beta iota.
  set (c1 := rput i (reading req [] decl false) (opened i req c)). assert (E1 : h_ctx c1 !! i = Some (CRequest (Some (reading req [] decl false)))) by (unfold c1, rput; cbn; by rewrite lookup_insert_eq).
  rewrite (parse_body (h3MaxHeaderBytes cfg) i frames _ (reading req [] decl false) req c1) by done. unfold c1 at 1. rewrite rput_rput. cbn [reading r_body List.app].
  set (c2 := rput i _ (opened i req c)). assert (E2 : h_ctx c2 !! i = Some (CRequest (Some (reading req (data_of frames) decl false)))) by (unfold c2, rput; cbn; by rewrite lookup_insert_eq).
  destruct trailer as [t|].
  - destruct Ht as (Hst & Hth & Hsome). destruct th as [th|]; [|done]. pose proof Hst as (_ & _ & Hlt). rewrite <- (app_nil_r (appendHeadersFrame [] (encode_section t))). unfold appendHeadersFrame. rewrite <- (assoc_L (++)).
    apply Forall_app in Hb2 as [_ Hb2]. unfold appendHeadersFrame in Hb2. apply Forall_app in Hb2 as [_ Hb2].
    rewrite parse_frame by (done || lia || (unfold frameHeaders, maxVarint; lia) || apply Forall_nil_2). rewrite (onFrame_trailers i req (data_of frames) decl t th c2) by done. rewrite parse_nil. unfold c2. by rewrite rput_rput.
  - subst th. rewrite parse_nil. unfold c2. by destruct req.
Qed.

(** ** The stream *)

(** The events of a stream: its bytes in pieces, then its end. *)
Fixpoint stream i (pieces : list bytes) s : option Server :=
  match pieces with
  | [] => OnStreamData i [] true s
  | d :: pieces => let? t := OnStreamData i d false s in stream i pieces t
  end.

Lemma on_request i data fin s : request_at i (conn s) -> OnStreamData i data fin s = Some (feed i data fin s).
Proof. intros [r Er]. unfold Http3Server.OnStreamData. by rewrite Er. Qed.

Lemma stream_feed i pieces s : request_at i (conn s) -> stream i pieces s = Some (feed i [] true (fold_left (fun s d => feed i d false s) pieces s)).
Proof.
  revert s. induction pieces as [|d ds IH]; intros s Hr; cbn [stream fold_left]; rewrite on_request by done; [done|]. apply IH. eapply moved_at. by apply moved_feed.
Qed.

(** A stream the server has not heard of and does not refuse. *)
Definition fresh i c : Prop := h_ctx c !! i = None /\ bidirectional i = true /\ h_goingAway c && (h_goAwayID c <=? i) = false.

Definition begun i s : Server :=
  MkH3Server U Q (<[i := new_parser cfg]> (parsers s)) (conn s <| h_nextID := Z.max (h_nextID (conn s)) (u64 (i + 4)) |> <| h_ctx := <[i := CRequest (Some no_request)]> (h_ctx (conn s)) |>).

Lemma stream_begun i pieces s : fresh i (conn s) -> stream i pieces s = stream i pieces (begun i s).
Proof.
  intros (E1 & E2 & E3). assert (Ef : forall d fin, OnStreamData i d fin s = OnStreamData i d fin (begun i s)).
  { intros d fin. rewrite (on_request i d fin (begun i s)) by (exists no_request; cbn; by rewrite lookup_insert_eq). unfold Http3Server.OnStreamData. rewrite E1, E2. unfold newRequestStream. by rewrite E3. }
  destruct pieces; cbn [stream]; by rewrite Ef.
Qed.

Lemma finish_reading i rq body decl tr c : decl = -1 \/ decl = len body ->
  finish unicode_lower app i (rput i (reading rq body decl tr <| r_remoteDone := true |>) c) = serve unicode_lower app i (rq <| ReqBody := body |>) (rput i (arrived rq decl tr) c).
Proof.
  intros Hd. assert (Eb : (0 <=? decl) && negb (decl =? len body) = false) by (destruct Hd as [-> | ->]; [done|]; rewrite Z.eqb_refl; apply andb_false_r).
  unfold finish. rewrite rget_rput, rput_rput. cbn [reading r_declared r_body r_req r_remoteDone]. unfold reading at 1 2 3. cbn. rewrite Eb. done.
Qed.

Lemma served_by_calls i req c : request_at i c -> r_done (rget i c) = true -> h_served (serve unicode_lower app i req c) = h_served c ++ [(i, req)].
Proof.
  intros [r Er] Hd. unfold serve. set (c1 := c <| h_served := _ |>). assert (A1 : request_at i c1) by by exists r.
  destruct (moved_calls unicode_lower i (app i req) c1 A1) as (r1 & r2 & [B1 _ _ [B4|(B4 & _)] _ _]); [by rewrite B4|]. rewrite (rget_at _ _ _ Er) in Hd. cbn in B1. rewrite Er in B1. injection B1 as <-. congruence.
Qed.

(** C10: a request arrives at an HTTP/3 server as the client meant it.  The
    HEADERS frame of its fields, its body in DATA frames with frames of unknown
    types between them, and its trailers, cut into any pieces, are parsed and
    decoded into exactly that request, which is given to the application once when
    the stream ends, with that body and those trailers; until then the server
    sends nothing but the 100 the client asked for. *)
Theorem h3_request_arrives i pieces fs frames trailer th req s : 0 <= h3MaxHeaderBytes cfg <= maxVarint -> fresh i (conn s) ->
  section_ok (h3MaxHeaderBytes cfg) fs -> newRequest ParseRequestURI fs.*1 = Some req -> announced_length req = Some None \/ announced_length req = Some (Some (len (data_of frames))) ->
  Forall (body_frame (h3MaxHeaderBytes cfg)) frames -> len (data_of frames) <= h3MaxBodyBytes cfg ->
  match trailer with Some t => section_ok (h3MaxHeaderBytes cfg) t /\ trailerFrom t.*1 = th /\ th <> None | None => th = None end ->
  Forall bytes_ok pieces -> mjoin pieces = request_bytes fs frames trailer ->
  exists s' decl, stream i pieces s = Some s' /\
    let full := req <| Trailer := match th with Some _ => th | None => Trailer req end |> <| ReqBody := data_of frames |> in
    conn s' = serve unicode_lower app i full (rput i (arrived (req <| Trailer := match th with Some _ => th | None => Trailer req end |>) decl (bool_decide (th <> None)))
      (opened i req (conn s <| h_nextID := Z.max (h_nextID (conn s)) (u64 (i + 4)) |>))) /\
    h_served (conn s') = h_served (conn s) ++ [(i, full)].
Proof.
  intros Hmx Hfr Hs Hq Hn Hf Hl Ht Hb Ej. rewrite stream_begun by done. set (s0 := begun i s).
  assert (E0 : h_ctx (conn s0) !! i = Some (CRequest (Some no_request))) by (cbn; by rewrite lookup_insert_eq). assert (A0 : request_at i (conn s0)) by by exists no_request.
  assert (exists decl, (announced_length req = Some None /\ decl = -1 \/ announced_length req = Some (Some decl) /\ decl <= h3MaxBodyBytes cfg) /\ (decl = -1 \/ decl = len (data_of frames))) as (decl & Hd & Hd2).
  { destruct Hn as [Hn|Hn]; [exists (-1)|exists (len (data_of frames))]; tauto. }
  pose proof (parse_request i fs frames trailer th req decl (conn s0) ltac:(lia) Hs Hq Hd Hl Hf Ht ltac:(rewrite <- Ej; by apply Forall_join) E0) as P.
  assert (Ep : parser_of i s0 = FrameParser [] 0 (h3MaxHeaderBytes cfg)) by (unfold parser_of, s0, begun, new_parser; cbn; rewrite lookup_insert_eq; cbn; unfold maxVarint in Hmx; by rewrite u64_small by lia).
  rewrite stream_feed by done. rewrite (feed_pieces i pieces s0 [] 0 (rput i (reading (req <| Trailer := match th with Some _ => th | None => Trailer req end |>) (data_of frames) decl (bool_decide (th <> None))) (opened i req (conn s0))));
    [|by rewrite Ep|done|by rewrite (rget_at _ _ _ E0)|rewrite Ep, Ej; exact P|by rewrite rget_rput]. eexists _, decl. split; [done|]. cbn zeta. rewrite Ej. set (rq := req <| Trailer := _ |>) in *.
  set (c1 := rput i (arrived rq decl _) _). assert (Ec : conn (feed i (request_bytes fs frames trailer) true s0) = serve unicode_lower app i (rq <| ReqBody := data_of frames |>) c1).
  { unfold Http3Server.feed. rewrite (rget_at _ _ _ E0). cbn [no_request r_done]. fold (parser_of i s0). rewrite Ep. unfold feed_frames. cbn [pbuf maxFrame dataLeft List.app].
    fold (parse_at i (h3MaxHeaderBytes cfg) (request_bytes fs frames trailer) 0 (conn s0)). rewrite P. cbn [negb conn default from_option id]. unfold feed_end. rewrite !rget_rput. cbn [reading r_done].
    change (midFrame (FrameParser [] 0 (h3MaxHeaderBytes cfg))) with false. cbn beta iota. cbn [reading r_req r_remoteDone conn].
    set (r0 := reading rq _ _ _). cbn. unfold r0. rewrite finish_reading by done. unfold c1. rewrite rput_rput. f_equal.
    unfold rput, opened, on_qc, track, s0, begun. cbn. destruct (conn s) as [? ? ? [] ? ? ? ? ?]; cbn; by rewrite insert_insert_eq. }
  rewrite Ec. split; [done|]. rewrite served_by_calls; [|eexists; apply lookup_insert_eq|unfold c1; by rewrite rget_rput]. unfold c1, rput, opened, on_qc, track. cbn. by destruct (h_streams (conn s)).
Qed.

(** A request the server refuses, because it is going away, panics as soon as more
    of it, or its end, is delivered. *)
Lemma refused_panics i d pieces s : h_ctx (conn s) !! i = None -> bidirectional i = true -> h_goingAway (conn s) = true -> h_goAwayID (conn s) <= i -> stream i (d :: pieces) s = None.
Proof.
  intros E1 E2 E3 E4. cbn [stream]. assert (E0 : OnStreamData i d false s = Some (s <| conn := Http3Server.abortStream i ErrCodeRequestRejected (conn s) <| h_ctx := <[i := CRequest None]> (h_ctx (conn s)) |> |>)).
  { unfold Http3Server.OnStreamData. rewrite E1, E2. unfold newRequestStream. rewrite E3. destruct (Z.leb_spec (h_goAwayID (conn s)) i); [done|lia]. }
  rewrite E0. cbn [mbind option_bind]. set (s1 := s <| conn := _ |>). assert (En : forall d' fin, OnStreamData i d' fin s1 = None) by (intros d' fin; unfold Http3Server.OnStreamData, s1; cbn; by rewrite lookup_insert_eq).
  destruct pieces; cbn [stream]; by rewrite En.
Qed.
End request.
