(* ===== verification/Http3Client.v ===== *)
(** HTTP/3 on the client side: src/go/http3/client.go.

    Requests, connections and streams are pointers: a request is a number, a
    connection is a number, and a stream is the ID of a stream of a connection;
    [reqs] and [ccs] hold them all, and [conns] is the client's map of the
    connections that take requests.  What the callbacks were given, in order, is
    [answers].  The parsers, the peer's unidirectional streams and what is known of
    them are kept beside, since nothing but [feed] and [handle] touch them.

    A step holds the locks it needs from beginning to end, except for the idle
    timer, whose function lets go of the connection's lock between saying that the
    connection is going away and telling the client ([idle_fire], [idle_forget]).
    Dialing is a request to the engine; [dialed] and [failed] are its outcomes. *)
From Stdlib Require Import String.
From S2P Require Import Prelude.
From S2P Require Import Varint.
From S2P Require Import HpackTables.
From S2P Require Import Huffman.
From S2P Require Import Hpack.
From S2P Require Import Qpack.
From S2P Require Import GoText.
From S2P Require Import HttpWriter.
From S2P Require Import Http2Server.
From S2P Require Import Http3Frames.
From S2P Require Import Http3Server.

(** * Requests *)

(** The parts of a request of the caller that are used; [uri] is [URL.RequestURI()]. *)
Record OutRequest := MkOut { oMethod : bytes; oScheme : bytes; urlHost : bytes; uri : bytes; oHost : bytes; oHeader : fields; oBody : bytes }.

Inductive client_error :=
| ErrUnsupportedScheme | ErrClientClosed | errRequestTimeout | errBodyTooLarge | errHeaderTooLarge
| errInvalid                        (* a request that cannot be sent *)
| errMalformed                      (* a response or trailers that cannot be *)
| errNoHeader | errLength | errDecompression
| StreamError (code : Z)
| errConn (closed : bool).          (* the end of the connection, or that it never came up *)

(** A response, with its body and trailers. *)
Record InResponse := MkIn { iHead : ClientResponse; iBody : bytes; iTrailer : option Header }.

Inductive outcome := Success (r : InResponse) | Failure (e : client_error).

Record clientRequest := MkClientRequest { cr_fields : list HeaderField; cr_body : bytes; cr_head : bool; cr_key : bytes; cr_done : bool; cr_stream : option (Z * Z); cr_retried : bool }.

#[export] Instance eta_clientRequest : Eta clientRequest := fun r =>
  MkClientRequest (cr_fields r) (cr_body r) (cr_head r) (cr_key r) (cr_done r) (cr_stream r) (cr_retried r).

Definition validMethod (method : bytes) : bool :=
  forallb (fun c => negb ((c <=? 32) || (127 <=? c) || bool_decide (c ∈ str "()<>@,;:\/[]?={}" ++ [34]))) method && negb (bool_decide (method = [])).

Section fields.
Context (unicode_lower : bytes -> bytes).

(** The loop over the request's header: its fields, and whether one is the user agent. *)
Fixpoint header_fields (header : fields) (fs : list HeaderField) (userAgent : bool) : option (list HeaderField * bool) :=
  match header with
  | [] => Some (fs, userAgent)
  | (key, values) :: header =>
      let name := ToLower unicode_lower key in
      if bool_decide (name ∈ connectionHeaders) || bool_decide (name = str "host") || bool_decide (name = str "content-length") || bool_decide (name = str "te")
      then header_fields header fs userAgent
      else if negb (validName name) then None
      else if forallb sendableValue values then header_fields header (fs ++ (Field name <$> values)) (userAgent || bool_decide (name = str "user-agent"))
      else None
  end.

Definition out_method (q : OutRequest) : bytes := if bool_decide (oMethod q = []) then str "GET" else oMethod q.
Definition out_host (q : OutRequest) : bytes := if bool_decide (oHost q = []) then urlHost q else oHost q.

Definition requestFields (q : OutRequest) (bodyLen : Z) : option (list HeaderField) :=
  let host := out_host q in
  let method := out_method q in
  if negb (validMethod method) then None
  else
    let fs := [Field (str ":method") method] in
    let fs := if bool_decide (method = str "CONNECT") then fs ++ [Field (str ":authority") host]
              else fs ++ [Field (str ":scheme") (str "https"); Field (str ":authority") host; Field (str ":path") (uri q)] in
    let? (fs, userAgent) := header_fields (oHeader q) fs false in
    let fs := if userAgent : bool then fs else fs ++ [Field (str "user-agent") (str "Go-http-client/3")] in
    Some (if 0 <? bodyLen then fs ++ [Field (str "content-length") (FormatInt bodyLen 10)]
          else if bool_decide (method = str "POST") || bool_decide (method = str "PUT") || bool_decide (method = str "PATCH") then fs ++ [Field (str "content-length") (str "0")]
          else fs).
End fields.

(** The bytes of a request. *)
Definition send_bytes (fs : list HeaderField) (body : bytes) : bytes :=
  let block := append_lines ((fun f => (f, sensitive (Name f))) <$> fs) Prefix in
  let out := appendHeadersFrame [] block in
  if 0 <? len body then appendFrameHeader out frameData (len body) ++ body else out.

(** * State *)

Record clientStream := MkClientStream { t_req : Z; t_resp : option ClientResponse; t_trailer : option Header; t_body : bytes; t_trailers : bool; t_done : bool }.

#[export] Instance eta_clientStream : Eta clientStream := fun t => MkClientStream (t_req t) (t_resp t) (t_trailer t) (t_body t) (t_trailers t) (t_done t).

Record clientConn {Q : Type} := MkClientConn {
  cc_key : bytes;
  cc_qc : option Q;
  cc_ready : bool;
  cc_closed : bool;
  cc_goingAway : bool;
  cc_waiting : list Z;
  cc_streams : gset Z;
  cc_idle : bool;                       (* the idle timer is set *)
  cc_ctx : gmap Z clientStream;         (* every stream opened, by ID *)
}.
Arguments clientConn : clear implicits.

#[export] Instance eta_clientConn {Q} : Eta (clientConn Q) := fun k =>
  MkClientConn Q (cc_key k) (cc_qc k) (cc_ready k) (cc_closed k) (cc_goingAway k) (cc_waiting k) (cc_streams k) (cc_idle k) (cc_ctx k).

Record Client {Q : Type} := MkClient {
  conns : gmap bytes Z;
  ccs : gmap Z (clientConn Q);
  nextConn : Z;
  reqs : gmap Z clientRequest;
  nextReq : Z;
  c_closed : bool;
  answers : list (Z * outcome);
}.
Arguments Client : clear implicits.

#[export] Instance eta_Client {Q} : Eta (Client Q) := fun w => MkClient Q (conns w) (ccs w) (nextConn w) (reqs w) (nextReq w) (c_closed w) (answers w).

Record clientConfig := ClientConfig { MaxResponseHeaderBytes : Z; MaxResponseBodyBytes : Z; idleTimeout : bool }.

Section client.
Context {Q : Type} `{Transport Q}.
Abbreviation World := (Client Q).
Context (unicode_lower : bytes -> bytes) (connKey : OutRequest -> bytes) (cfg : clientConfig).
Context (range : gset Z -> list Z).        (* the order in which a map is ranged over *)

Definition no_cc : clientConn Q := MkClientConn Q [] None false true true [] ∅ false ∅.
Definition no_req : clientRequest := MkClientRequest [] [] false [] true None true.
Definition no_ctx : clientStream := MkClientStream 0 None None [] false true.
Definition kget (k : Z) (w : World) : clientConn Q := default no_cc (ccs w !! k).
Definition kput (k : Z) (x : clientConn Q) (w : World) : World := w <| ccs := <[k := x]> (ccs w) |>.
Definition qget (r : Z) (w : World) : clientRequest := default no_req (reqs w !! r).
Definition qput (r : Z) (x : clientRequest) (w : World) : World := w <| reqs := <[r := x]> (reqs w) |>.
Definition sget (k i : Z) (w : World) : clientStream := default no_ctx (cc_ctx (kget k w) !! i).
Definition sput (k i : Z) (t : clientStream) (w : World) : World := kput k (kget k w <| cc_ctx := <[i := t]> (cc_ctx (kget k w)) |>) w.

Definition with_qc (k : Z) (f : Q -> Q) (w : World) : World := kput k (kget k w <| cc_qc := f <$> cc_qc (kget k w) |>) w.

(** ** Requests *)

(** [clientRequest.finish], and whether it called the callback. *)
Definition finish (r : Z) (o : outcome) (w : World) : bool * World :=
  if cr_done (qget r w) then (false, w)
  else (true, qput r (qget r w <| cr_done := true |> <| cr_stream := None |>) w <| answers := answers w ++ [(r, o)] |>).

Definition idle (k : Z) (w : World) : bool :=
  let x := kget k w in bool_decide (cc_streams x = ∅) && bool_decide (cc_waiting x = []) && negb (cc_closed x).

Definition closeIfIdle (k : Z) (w : World) : World := if idle k w then with_qc k (tClose ErrCodeNoError []) w else w.

Definition streamDone (k i : Z) (w : World) : World :=
  let w := kput k (kget k w <| cc_streams := cc_streams (kget k w) ∖ {[i]} |>) w in
  if negb (idle k w) then w
  else if cc_goingAway (kget k w) || c_closed w then closeIfIdle k w
  else if idleTimeout cfg && negb (cc_idle (kget k w)) then kput k (kget k w <| cc_idle := true |>) w
  else w.

Definition abortStream (k i code : Z) (w : World) : World := with_qc k (fun q => tReset i code (tStopSending i code q)) w.

Definition cancel (k i : Z) (w : World) : World := streamDone k i (abortStream k i ErrCodeRequestCancelled w).

(** [clientStream.fail] *)
Definition fail (k i : Z) (e : client_error) (w : World) : World :=
  let w := sput k i (sget k i w <| t_done := true |> <| t_body := [] |>) w in
  (finish (t_req (sget k i w)) (Failure e) (cancel k i w)).2.

(** [clientRequest.abort]: a timeout, or the caller's context. *)
Definition abort (r : Z) (e : client_error) (w : World) : World :=
  let st := cr_stream (qget r w) in
  let '(called, w) := finish r (Failure e) w in
  match st with Some (k, i) => if called : bool then cancel k i w else w | None => w end.

Definition send (k i : Z) (w : World) : World :=
  let r := qget (t_req (sget k i w)) w in
  match cc_qc (kget k w) with
  | None => w
  | Some q =>
      let '(bad, q) := tWrite i (send_bytes (cr_fields r) (cr_body r)) true q in
      let w := kput k (kget k w <| cc_qc := Some q |>) w in
      if bad : bool then fail k i (errConn true) w else w
  end.

(** Put a request on a stream. *)
Definition open_on (k i r : Z) (q : Q) (w : World) : World :=
  let x := kget k w in
  let t := MkClientStream r None None [] false false in
  let w := kput k (x <| cc_qc := Some q |> <| cc_waiting := tail (cc_waiting x) |> <| cc_ctx := <[i := t]> (cc_ctx x) |> <| cc_streams := {[i]} ∪ cc_streams x |> <| cc_idle := false |>) w in
  send k i (qput r (qget r w <| cr_stream := Some (k, i) |>) w).

(** The loop takes a waiting request in every round. *)
Fixpoint start_loop (fuel : nat) (k : Z) (w : World) : World :=
  let x := kget k w in
  match fuel, cc_waiting x, cc_qc x with
  | S fuel, r :: rest, Some q =>
      if negb (cc_ready x) || cc_closed x || cc_goingAway x then w
      else if cr_done (qget r w) then start_loop fuel k (kput k (x <| cc_waiting := rest |>) w)
      else
        match tOpen true q with
        | (None, q) => kput k (x <| cc_qc := Some q |>) w
        | (Some i, q) => start_loop fuel k (open_on k i r q w)
        end
  | _, _, _ => w
  end.

Definition startWaiting (k : Z) (w : World) : World := start_loop (length (cc_waiting (kget k w))) k w.

Definition enqueue (r : Z) (w : World) : World :=
  if c_closed w then (finish r (Failure ErrClientClosed) w).2
  else
    let key := cr_key (qget r w) in
    match conns w !! key with
    | Some k => startWaiting k (kput k (kget k w <| cc_waiting := cc_waiting (kget k w) ++ [r] |>) w)
    | None =>
        let k := nextConn w in
        kput k (MkClientConn Q key None false false false [r] ∅ false ∅) (w <| conns := <[key := k]> (conns w) |> <| nextConn := k + 1 |>)
    end.

Definition Do (q : OutRequest) (w : World) : World :=
  let r := nextReq w in
  let refuse e := w <| nextReq := r + 1 |> <| answers := answers w ++ [(r, Failure e)] |> in
  if negb (bool_decide (oScheme q = str "https")) then refuse ErrUnsupportedScheme
  else
    match requestFields unicode_lower q (len (oBody q)) with
    | None => refuse errInvalid
    | Some fs => enqueue r (qput r (MkClientRequest fs (oBody q) (bool_decide (oMethod q = str "HEAD")) (connKey q) false None false) (w <| nextReq := r + 1 |>))
    end.

(** [clientRequest.retry] *)
Definition retry (r : Z) (e : client_error) (w : World) : World :=
  let again := negb (cr_retried (qget r w)) && negb (cr_done (qget r w)) in
  let w := qput r (qget r w <| cr_retried := true |> <| cr_stream := None |>) w in
  if again then enqueue r w else (finish r (Failure e) w).2.

Definition forget (k : Z) (w : World) : World :=
  let key := cc_key (kget k w) in if bool_decide (conns w !! key = Some k) then w <| conns := delete key (conns w) |> else w.

(** [Client.Close], over the connections in the order of the map. *)
Definition close_conn (w : World) (k : Z) : World :=
  let waiting := cc_waiting (kget k w) in
  let w := kput k (kget k w <| cc_waiting := [] |>) w in
  closeIfIdle k (fold_left (fun w r => (finish r (Failure ErrClientClosed) w).2) waiting w).

Definition Close (order : list Z) (w : World) : World :=
  if c_closed w then w else fold_left close_conn order (w <| c_closed := true |>).

(** ** The connection *)

Definition dialed (k : Z) (q : Q) (w : World) : World := kput k (kget k w <| cc_qc := Some q |>) w.

Definition failed (k : Z) (w : World) : World :=
  let w := forget k w in
  let waiting := cc_waiting (kget k w) in
  let w := kput k (kget k w <| cc_closed := true |> <| cc_waiting := [] |>) w in
  fold_left (fun w r => (finish r (Failure (errConn false)) w).2) waiting w.

(** [closeWith] *)
Definition close_with (k : Z) (e : h3_error) (w : World) : World :=
  match e with
  | connErr code reason => with_qc k (tClose code reason) w
  | decompressionErr => with_qc k (tClose ErrCodeQPACKDecompressionFailed (str "qpack: decompression failed")) w
  end.

Definition OnHandshake (k : Z) (w : World) : World :=
  match cc_qc (kget k w) with
  | None => w
  | Some q =>
      let refuse q := close_with k (connErr ErrCodeStreamCreationError (str "cannot open the control stream")) (kput k (kget k w <| cc_qc := Some q |>) w) in
      match tOpen false q with
      | (None, q) => refuse q
      | (Some i, q) =>
          let '(bad, q) := tWrite i (control_hello (MaxResponseHeaderBytes cfg)) false q in
          if bad : bool then refuse q
          else startWaiting k (kput k (kget k w <| cc_qc := Some q |> <| cc_ready := true |>) w)
      end
  end.

Definition OnClose (k : Z) (w : World) : World :=
  let w := forget k w in
  let x := kget k w in
  let w := kput k (x <| cc_closed := true |> <| cc_waiting := [] |> <| cc_streams := ∅ |> <| cc_idle := false |>) w in
  let w := fold_left (fun w i => (finish (t_req (sget k i w)) (Failure (errConn true)) w).2) (range (cc_streams x)) w in
  fold_left (fun w r => if cc_ready x then retry r (errConn true) w else (finish r (Failure (errConn true)) w).2) (cc_waiting x) w.

Definition handleGoAway (k id : Z) (w : World) : World :=
  let w := forget k w in
  let x := kget k w in
  let unserved := filter (fun i => id <= i) (range (cc_streams x)) in
  let w := kput k (x <| cc_goingAway := true |> <| cc_waiting := [] |> <| cc_streams := cc_streams x ∖ list_to_set unserved |>) w in
  let w := fold_left (fun w i => retry (t_req (sget k i w)) (StreamError ErrCodeRequestRejected) (abortStream k i ErrCodeRequestCancelled w)) unserved w in
  let w := fold_left (fun w r => enqueue r w) (cc_waiting x) w in
  closeIfIdle k w.

(** The idle timer's function: under the connection's lock, then without it. *)
Definition idle_fire (k : Z) (w : World) : bool * World :=
  let x := kget k w in
  let quiet := bool_decide (cc_streams x = ∅) && bool_decide (cc_waiting x = []) in
  (quiet, kput k (x <| cc_idle := false |> <| cc_goingAway := cc_goingAway x || quiet |>) w).

Definition idle_forget (k : Z) (w : World) : World := closeIfIdle k (forget k w).

(** ** Responses *)

Definition onData (k i : Z) (chunk : bytes) (w : World) : World * option h3_error :=
  let t := sget k i w in
  if t_done t then (w, None)
  else if bool_decide (t_resp t = None) || t_trailers t then (w, Some (connErr ErrCodeFrameUnexpected (str "DATA before HEADERS or after trailers")))
  else if MaxResponseBodyBytes cfg <? len (t_body t) + len chunk then (fail k i errBodyTooLarge w, None)
  else (sput k i (t <| t_body := t_body t ++ chunk |>) w, None).

Definition onFrame (k i typ : Z) (payload : bytes) (w : World) : World * option h3_error :=
  let t := sget k i w in
  if t_done t then (w, None)
  else if typ =? frameHeaders then
    if t_trailers t then (w, Some (connErr ErrCodeFrameUnexpected (str "HEADERS after trailers")))
    else
      match decodeFields payload (MaxResponseHeaderBytes cfg) with
      | None => (w, None)
      | Some (Err ErrTooLarge) => (fail k i errHeaderTooLarge w, None)
      | Some (Err ErrDecompression) => (w, Some decompressionErr)
      | Some (Ok fs) =>
          match t_resp t with
          | Some _ =>
              match trailerFrom fs with
              | None => (fail k i errMalformed w, None)
              | Some h => (sput k i (t <| t_trailer := Some h |> <| t_trailers := true |>) w, None)
              end
          | None =>
              match newResponse fs with
              | None => (fail k i errMalformed w, None)
              | Some resp => (sput k i (t <| t_resp := resp |>) w, None)
              end
          end
      end
  else if typ =? framePushPromise then (w, Some (connErr ErrCodeIDError (str "PUSH_PROMISE without MAX_PUSH_ID")))
  else if (typ =? frameCancelPush) || (typ =? frameSettings) || (typ =? frameGoAway) || (typ =? frameMaxPushID) then
    (w, Some (connErr ErrCodeFrameUnexpected (str "control frame on a request stream")))
  else if reservedFrame typ then (w, Some (connErr ErrCodeFrameUnexpected (str "HTTP/2 frame type")))
  else (w, None).

Definition complete (k i : Z) (w : World) : World :=
  let t := sget k i w in
  let w := sput k i (t <| t_done := true |>) w in
  match t_resp t with
  | None => fail k i errNoHeader w
  | Some resp =>
      let allowed := bodyAllowed (cr_head (qget (t_req t) w)) (c_status resp) in
      if allowed && (0 <=? c_length resp) && negb (c_length resp =? len (t_body t)) then fail k i errLength w
      else
        let resp := if allowed then MkClientResponse (c_status resp) (c_header resp) (len (t_body t)) else resp in
        let w := sput k i (sget k i w <| t_body := [] |>) w in
        (finish (t_req t) (Success (MkIn resp (t_body t) (t_trailer t))) (streamDone k i w)).2
  end.

(** The server abandons the response. *)
Definition reset (k i code : Z) (w : World) : World :=
  let t := sget k i w in
  if t_done t then w
  else
    let w := streamDone k i (sput k i (t <| t_done := true |> <| t_body := [] |>) w) in
    if code =? ErrCodeRequestRejected then retry (t_req t) (StreamError code) w
    else (finish (t_req t) (Failure (StreamError code)) w).2.
End client.

(** ** Streams *)

Record h3Client {Q : Type} := MkH3Client {
  k_parsers : gmap (Z * Z) frameParser;
  k_unis : gmap (Z * Z) uniStream;
  k_peers : gmap Z peerStreams;
  world : Client Q;
}.
Arguments h3Client : clear implicits.

#[export] Instance eta_h3Client {Q} : Eta (h3Client Q) := fun s => MkH3Client Q (k_parsers s) (k_unis s) (k_peers s) (world s).

Section streams.
Context {Q : Type} `{Transport Q}.
Abbreviation State := (h3Client Q).
Context (unicode_lower : bytes -> bytes) (connKey : OutRequest -> bytes) (cfg : clientConfig) (range : gset Z -> list Z).

Definition client_parser : frameParser := FrameParser [] 0 (u64 (MaxResponseHeaderBytes cfg)).

Definition feed (k i : Z) (data : bytes) (fin : bool) (s : State) : State :=
  if t_done (sget k i (world s)) then s
  else
    let '(p, w, err) := feed_frames (onData cfg k i) (onFrame cfg k i) data (default client_parser (k_parsers s !! (k, i))) (world s) in
    let s := s <| k_parsers := <[(k, i) := p]> (k_parsers s) |> in
    match err with
    | Some (connErr _ _ as e) => s <| world := close_with k e w |>
    | Some decompressionErr => s <| world := fail cfg k i errDecompression w |>
    | None =>
        if negb fin || t_done (sget k i w) then s <| world := w |>
        else if midFrame p then s <| world := close_with k (connErr ErrCodeFrameError (str "response stream ended inside a frame")) w |>
        else s <| world := complete cfg k i w |>
    end.

Definition uni_feed (k i : Z) (data : bytes) (fin : bool) (u : uniStream) (s : State) : State :=
  let '(u, (p, w), stop, err) :=
    handle (fun id w => (handleGoAway cfg range k id w, None)) data fin u (default (PeerStreams false false false false) (k_peers s !! k), world s) in
  let w := if stop : bool then with_qc k (tStopSending i ErrCodeStreamCreationError) w else w in
  let w := match err with Some e => close_with k e w | None => w end in
  s <| k_unis := <[(k, i) := u]> (k_unis s) |> <| k_peers := <[k := p]> (k_peers s) |> <| world := w |>.

Definition OnStreamData (k i : Z) (data : bytes) (fin : bool) (s : State) : State :=
  match cc_ctx (kget k (world s)) !! i, k_unis s !! (k, i) with
  | Some _, _ => feed k i data fin s
  | None, Some u => uni_feed k i data fin u s
  | None, None =>
      if bidirectional i then s <| world := close_with k (connErr ErrCodeStreamCreationError (str "server-initiated bidirectional stream")) (world s) |>
      else uni_feed k i data fin newUniStream s
  end.

Definition OnStreamReset (k i code : Z) (s : State) : State :=
  match cc_ctx (kget k (world s)) !! i, k_unis s !! (k, i) with
  | Some _, _ => s <| world := reset cfg k i code (world s) |>
  | None, Some u =>
      if (u_typ u =? streamControl) || (u_typ u =? streamQPACKEncoder) || (u_typ u =? streamQPACKDecoder)
      then s <| world := close_with k (connErr ErrCodeClosedCriticalStream (str "critical stream reset")) (world s) |> else s
  | None, None => s
  end.
End streams.
