(* ===== verification/Http3Own.v ===== *)
(** No request of an HTTP/3 client is lost.

    A request that has not been answered is owned by a connection that is still up:
    it waits for a stream of it or is on one.  [owned h] says so of all requests but
    those of [h], which a step has in its hands.  *)
From Stdlib Require Import String.
From S2P Require Import Prelude.
From S2P Require Import Varint.
From S2P Require Import HpackTables.
From S2P Require Import Huffman.
From S2P Require Import Hpack.
From S2P Require Import Qpack.
From S2P Require Import GoText.
From S2P Require Import HttpWriter.
From S2P Require Import Http2Server.
From S2P Require Import Http3Frames.
From S2P Require Import Http3Server.
From S2P Require Import Http3Client.

(** What the client counts on: the streams it opens are new ones.  [issued] is a
    bound on the IDs given out; a connection stays [valid] while it is used. *)
Class Opener (Q : Type) `{Transport Q} := {
  issued : Q -> Z;
  valid : Q -> Prop;
  open_fresh q b o q' : valid q -> tOpen b q = (o, q') -> valid q' /\ issued q <= issued q' /\ (forall i, b = true -> o = Some i -> issued q <= i < issued q');
  write_issued i p fin q : valid q -> valid (tWrite i p fin q).2 /\ issued q <= issued (tWrite i p fin q).2;
  stop_issued i code q : valid q -> valid (tStopSending i code q) /\ issued q <= issued (tStopSending i code q);
  reset_issued i code q : valid q -> valid (tReset i code q) /\ issued q <= issued (tReset i code q);
  close_issued code reason q : valid q -> valid (tClose code reason q) /\ issued q <= issued (tClose code reason q);
}.

Section own.
Context {Q : Type} `{Opener Q}.
Abbreviation World := (Client Q).
Context (cfg : clientConfig) (range : gset Z -> list Z).
Implicit Types (w : World) (k i r : Z) (x : clientConn Q) (h : list Z).

(** * The stores *)

Lemma kget_kput k k' x w : kget k' (kput k x w) = if decide (k = k') then x else kget k' w.
Proof. unfold kget, kput. cbn. destruct (decide (k = k')) as [<-|]; [by rewrite lookup_insert_eq|by rewrite lookup_insert_ne]. Qed.

Lemma kget_same k x w : kget k (kput k x w) = x.
Proof. rewrite kget_kput. by rewrite decide_True. Qed.

Lemma kput_kput k x y w : kput k x (kput k y w) = kput k x w.
Proof. unfold kput. destruct w. cbn. by rewrite insert_insert_eq. Qed.

Lemma qget_qput r r' y w : qget r' (qput r y w) = if decide (r = r') then y else qget r' w.
Proof. unfold qget, qput. cbn. destruct (decide (r = r')) as [<-|]; [by rewrite lookup_insert_eq|by rewrite lookup_insert_ne]. Qed.

Lemma qget_kput r k x w : qget r (kput k x w) = qget r w.
Proof. done. Qed.

Lemma kget_qput k r y w : kget k (qput r y w) = kget k w.
Proof. done. Qed.

(** * Ownership *)

(** Where a request is. *)
Definition waits w r : Prop := exists k x, ccs w !! k = Some x /\ cc_closed x = false /\ r ∈ cc_waiting x.
Definition sent w r : Prop := exists k x i t, ccs w !! k = Some x /\ cc_closed x = false /\ i ∈ cc_streams x /\ cc_ctx x !! i = Some t /\ t_req t = r.

(** A stream is known under its ID, which QUIC gave out. *)
Record conn_ok x : Prop := {
  ck_ctx : forall i, i ∈ cc_streams x -> is_Some (cc_ctx x !! i);
  ck_qc : match cc_qc x with Some q => valid q /\ forall i, is_Some (cc_ctx x !! i) -> i < issued q | None => cc_ctx x = ∅ end;
}.

Record owned (h : list Z) w : Prop := {
  ow_held : forall r, cr_done (qget r w) = false -> r ∈ h \/ waits w r \/ sent w r;
  ow_once : NoDup (answers w).*1;
  ow_answers : forall r, r ∈ (answers w).*1 <-> 0 <= r < nextReq w /\ cr_done (qget r w) = true;
  ow_reqs : forall r, cr_done (qget r w) = false -> 0 <= r < nextReq w;
  ow_next : 0 <= nextReq w /\ 0 <= nextConn w;
  ow_conns : forall key k, conns w !! key = Some k -> exists x, ccs w !! k = Some x /\ cc_key x = key /\ cc_closed x = false;
  ow_ccs : forall k x, ccs w !! k = Some x -> 0 <= k < nextConn w;
  ow_conn : forall k x, ccs w !! k = Some x -> conn_ok x;
  ow_stream : forall r k i, cr_stream (qget r w) = Some (k, i) -> exists x t, ccs w !! k = Some x /\ cc_ctx x !! i = Some t /\ t_req t = r;
}.

(** A change of one connection that lets go of the requests of [rs]. *)
Record releases (rs : list Z) x x' : Prop := {
  rl_waiting : forall r, r ∈ cc_waiting x -> r ∈ cc_waiting x' /\ cc_closed x' = false \/ r ∈ rs;
  rl_streams : forall i t, i ∈ cc_streams x -> cc_ctx x !! i = Some t -> (i ∈ cc_streams x' /\ cc_closed x' = false /\ exists t', cc_ctx x' !! i = Some t' /\ t_req t' = t_req t) \/ t_req t ∈ rs;
  rl_key : cc_key x' = cc_key x;
}.

(** ** What only grows *)

(** Streams keep their requests, and connections that are closed stay so. *)
Definition same_ctx (m m' : gmap Z clientStream) : Prop := forall i t, m !! i = Some t -> exists t', m' !! i = Some t' /\ t_req t' = t_req t.

Definition grows w w' : Prop := forall k x, ccs w !! k = Some x -> exists x', ccs w' !! k = Some x' /\ cc_key x' = cc_key x /\ same_ctx (cc_ctx x) (cc_ctx x').

Lemma same_ctx_refl m : same_ctx m m.
Proof. intros i t E. by exists t. Qed.

Lemma grows_refl w : grows w w.
Proof. intros k x E. exists x. split_and!; [done|done|apply same_ctx_refl]. Qed.

Lemma grows_trans w1 w2 w3 : grows w1 w2 -> grows w2 w3 -> grows w1 w3.
Proof.
  intros A B k x E. destruct (A k x E) as (x2 & E2 & K2 & C2). destruct (B k x2 E2) as (x3 & E3 & K3 & C3). exists x3. split_and!; [done|congruence|].
  intros i t Ht. destruct (C2 i t Ht) as (t2 & Ht2 & R2). destruct (C3 i t2 Ht2) as (t3 & Ht3 & R3). exists t3. split; [done|congruence].
Qed.

Lemma grows_kput k x x' w : ccs w !! k = Some x -> cc_key x' = cc_key x -> same_ctx (cc_ctx x) (cc_ctx x') -> grows w (kput k x' w).
Proof.
  intros Ek E C k1 x1 E1. destruct (decide (k1 = k)) as [->|Hn].
  - rewrite Ek in E1. injection E1 as <-. exists x'. split_and!; [apply lookup_insert_eq|done|done].
  - exists x1. split_and!; [cbn; by rewrite lookup_insert_ne|done|apply same_ctx_refl].
Qed.

Lemma grows_live k w w' : grows w w' -> is_Some (ccs w !! k) -> is_Some (ccs w' !! k).
Proof. intros G [x E]. destruct (G k x E) as (x' & E' & _). by exists x'. Qed.

Lemma grows_stream k i t w w' : grows w w' -> cc_ctx (kget k w) !! i = Some t -> exists t', cc_ctx (kget k w') !! i = Some t' /\ t_req t' = t_req t.
Proof.
  intros G. unfold kget. destruct (ccs w !! k) as [x|] eqn:E; [|done]. destruct (G k x E) as (x' & -> & _ & C). apply C.
Qed.

Lemma owned_kput h rs k x x' w : ccs w !! k = Some x -> (cc_closed x' = true -> conns w !! cc_key x <> Some k) -> (cc_closed x = false -> releases rs x x') ->
  cc_key x' = cc_key x -> conn_ok x' -> same_ctx (cc_ctx x) (cc_ctx x') -> owned h w -> owned (rs ++ h) (kput k x' w).
Proof.
  intros Ek Hcl Hrel Ekey Hok C O. destruct O as [O1 O2 O3 O4 O5 O6 O7 O8 O9]. split; [|done|done|done|done| | | |].
  - intros r Hr. rewrite elem_of_app. destruct (O1 r Hr) as [Hh|[(k1 & x1 & A1 & A2 & A3)|(k1 & x1 & i & t & A1 & A2 & A3 & A4 & A5)]]; [by auto| |].
    + destruct (decide (k1 = k)) as [->|Hn].
      * rewrite Ek in A1. injection A1 as <-. destruct (rl_waiting _ _ _ (Hrel A2) r A3) as [[B1 B2]|B]; [|by auto]. right. left. exists k, x'. split_and!; [apply lookup_insert_eq|done|done].
      * right. left. exists k1, x1. split_and!; [|done|done]. cbn. by rewrite lookup_insert_ne.
    + destruct (decide (k1 = k)) as [->|Hn].
      * rewrite Ek in A1. injection A1 as <-. destruct (rl_streams _ _ _ (Hrel A2) i t A3 A4) as [(B1 & B2 & t' & B3 & B4)|B]; [|left; left; by rewrite <- A5].
        right. right. exists k, x', i, t'. split_and!; [apply lookup_insert_eq|done|done|done|congruence].
      * right. right. exists k1, x1, i, t. split_and!; [|done..]. cbn. by rewrite lookup_insert_ne.
  - intros key k1 E. destruct (O6 key k1 E) as (x1 & B1 & B2 & B3). destruct (decide (k1 = k)) as [->|Hn].
    + rewrite Ek in B1. injection B1 as <-. exists x'. split_and!; [apply lookup_insert_eq|congruence|]. destruct (cc_closed x') eqn:Ec; [|done]. exfalso. apply (Hcl eq_refl). by rewrite B2.
    + exists x1. split_and!; [|done..]. cbn. by rewrite lookup_insert_ne.
  - intros k1 x1 E. destruct (decide (k1 = k)) as [->|Hn]; [by eapply O7|]. cbn in E. rewrite lookup_insert_ne in E by done. by eapply O7.
  - intros k1 x1 E. destruct (decide (k1 = k)) as [->|Hn]; [cbn in E; rewrite lookup_insert_eq in E; by injection E as <-|]. cbn in E. rewrite lookup_insert_ne in E by done. by eapply O8.
  - intros r k1 i E. destruct (O9 r k1 i E) as (x1 & t & B1 & B2 & B3). destruct (decide (k1 = k)) as [->|Hn].
    + rewrite Ek in B1. injection B1 as <-. destruct (C i t B2) as (t' & C1 & C2). exists x', t'. split_and!; [apply lookup_insert_eq|done|congruence].
    + exists x1, t. split_and!; [cbn; by rewrite lookup_insert_ne|done|done].
Qed.

Lemma owned_more h h' w : h ⊆ h' -> owned h w -> owned h' w.
Proof. intros Hs [O1 O2 O3 O4 O5 O6 O7 O8 O9]. split; [|done..]. intros r Hr. destruct (O1 r Hr) as [Hh|Hx]; [left; by apply Hs|by right]. Qed.

(** What a step makes of the requests in its hands. *)
Definition passes (h h' : list Z) w w' : Prop := owned h w -> owned h' w' /\ grows w w'.

Lemma passes_refl h w : passes h h w w.
Proof. intros O. split; [done|apply grows_refl]. Qed.

Lemma passes_trans h1 h2 h3 w1 w2 w3 : passes h1 h2 w1 w2 -> passes h2 h3 w2 w3 -> passes h1 h3 w1 w3.
Proof. intros A B O. destruct (A O) as [O2 G2]. destruct (B O2) as [O3 G3]. split; [done|by eapply grows_trans]. Qed.

(** A connection that changes without letting go of anything. *)
Lemma passes_keep h k x x' w : ccs w !! k = Some x -> cc_closed x' = cc_closed x -> cc_key x' = cc_key x -> cc_waiting x' = cc_waiting x -> cc_streams x' = cc_streams x ->
  same_ctx (cc_ctx x) (cc_ctx x') -> (conn_ok x -> conn_ok x') -> passes h h w (kput k x' w).
Proof.
  intros Ek E1 E2 E3 E4 C Hok O. split; [|by eapply grows_kput]. apply (owned_kput h [] k x); [done| | |done|apply Hok; by eapply ow_conn|done|done].
  - intros Hc Hk. destruct (ow_conns _ _ O _ _ Hk) as (x1 & B1 & _ & B3). congruence.
  - intros Hc. split.
    + intros r Hr. left. split; congruence.
    + intros i t Hi Ht. left. split_and!; [congruence|congruence|]. by apply C.
    + done.
Qed.

(** ** Answering *)

Lemma finish_state r o w : let w' := (finish r o w).2 in
  ccs w' = ccs w /\ conns w' = conns w /\ nextConn w' = nextConn w /\ nextReq w' = nextReq w /\ c_closed w' = c_closed w /\
  cr_done (qget r w') = true /\ (forall r', r' <> r -> qget r' w' = qget r' w).
Proof.
  cbn zeta. unfold finish. destruct (cr_done (qget r w)) eqn:Ed; cbn [snd]; [done|]. split_and!; [done..| |].
  - change (cr_done (qget r (qput r (qget r w <| cr_done := true |> <| cr_stream := None |>) w)) = true). by rewrite qget_qput, decide_True.
  - intros r' Hn. change (qget r' (qput r (qget r w <| cr_done := true |> <| cr_stream := None |>) w) = qget r' w). by rewrite qget_qput, decide_False.
Qed.

Lemma finish_owned h r o w : owned (r :: h) w -> owned h (finish r o w).2.
Proof.
  intros O. pose proof (finish_state r o w) as (E1 & E2 & E3 & E4 & E5 & E6 & E7). pose proof O as [O1 O2 O3 O4 O5 O6 O7 O8 O9]. set (w' := (finish r o w).2) in *.
  assert (Hd : forall r', cr_done (qget r' w') = true <-> cr_done (qget r' w) = true \/ r' = r).
  { intros r'. destruct (decide (r' = r)) as [->|Hn]; [tauto|]. rewrite E7 by done. tauto. }
  assert (Ha : cr_done (qget r w) = false /\ answers w' = answers w ++ [(r, o)] /\ 0 <= r < nextReq w \/ cr_done (qget r w) = true /\ answers w' = answers w).
  { unfold w', finish. destruct (cr_done (qget r w)) eqn:Ed; [by right|left]. split_and!; [done|done|by apply O4..]. }
  split; rewrite ?E1, ?E2, ?E3, ?E4.
  - intros r' Hr'. assert (Hn : r' <> r) by (intros ->; congruence). rewrite E7 in Hr' by done. destruct (O1 r' Hr') as [[->|Hh]%elem_of_cons|[Hw|Hs]]; [done|by auto|right; left|right; right].
    + unfold waits in *. by rewrite E1.
    + unfold sent in *. by rewrite E1.
  - destruct Ha as [(D & -> & _)|(D & ->)]; [|done]. rewrite fmap_app. apply NoDup_app. split_and!; [done| |by apply NoDup_singleton]. intros r' Hr' Hx. cbn in Hx. apply list_elem_of_singleton in Hx as ->. apply O3 in Hr' as [_ Hr']. congruence.
  - intros r'. rewrite Hd. destruct Ha as [(D & -> & Hb)|(D & ->)].
    + rewrite fmap_app, elem_of_app. cbn [fmap list_fmap fst]. rewrite list_elem_of_singleton, O3. naive_solver.
    + rewrite O3. naive_solver.
  - intros r' Hr'. destruct (decide (r' = r)) as [->|Hn]; [congruence|]. rewrite E7 in Hr' by done. by apply O4.
  - done.
  - done.
  - done.
  - done.
  - intros r' k i Hs. apply O9. destruct (decide (r' = r)) as [->|Hn]; [|by rewrite E7 in Hs]. unfold w', finish in Hs. destruct (cr_done (qget r w)); [done|]. cbn [snd] in Hs.
    change (cr_stream (qget r (qput r (qget r w <| cr_done := true |> <| cr_stream := None |>) w)) = Some (k, i)) in Hs. by rewrite qget_qput, decide_True in Hs.
Qed.

Lemma finish_passes h r o w : passes (r :: h) h w (finish r o w).2.
Proof.
  intros O. split; [by apply finish_owned|]. destruct (finish_state r o w) as (E1 & _). intros k x Ek. exists x. rewrite E1. split_and!; [done|done|apply same_ctx_refl].
Qed.

Lemma finish_extra h r o w : passes h h w (finish r o w).2.
Proof.
  intros O. apply finish_passes. by eapply owned_more; [|exact O]; intros z Hz; apply elem_of_cons; right.
Qed.

(** ** Streams *)

Lemma kget_at k x w : ccs w !! k = Some x -> kget k w = x.
Proof. intros E. unfold kget. by rewrite E. Qed.

Definition live k w : Prop := is_Some (ccs w !! k).
Definition on_stream k i r w : Prop := exists x t, ccs w !! k = Some x /\ cc_ctx x !! i = Some t /\ t_req t = r.

Lemma live_grows k w w' : grows w w' -> live k w -> live k w'.
Proof. apply grows_live. Qed.

Lemma on_stream_grows k i r w w' : grows w w' -> on_stream k i r w -> on_stream k i r w'.
Proof. intros G (x & t & E1 & E2 & E3). destruct (G k x E1) as (x' & F1 & _ & C). destruct (C i t E2) as (t' & F2 & F3). exists x', t'. split_and!; [done|done|congruence]. Qed.

Lemma on_stream_live k i r w : on_stream k i r w -> live k w.
Proof. intros (x & t & E & _). by exists x. Qed.

Lemma on_stream_sget k i r w : on_stream k i r w -> t_req (sget k i w) = r.
Proof. intros (x & t & E1 & E2 & E3). unfold sget. by rewrite (kget_at _ _ _ E1), E2. Qed.

Lemma qc_ok x q q' : cc_qc x = Some q -> (valid q -> valid q' /\ issued q <= issued q') -> conn_ok x -> conn_ok (x <| cc_qc := Some q' |>).
Proof.
  intros E Hq [C1 C2]. split; [done|]. cbn. rewrite E in C2. destruct C2 as [C2 C3]. destruct (Hq C2) as [C4 C5]. split; [done|]. intros i Hi. specialize (C3 i Hi). lia.
Qed.

Lemma with_qc_passes h k f w : live k w -> (forall q, valid q -> valid (f q) /\ issued q <= issued (f q)) -> passes h h w (with_qc k f w).
Proof.
  intros [x Ek] Hf. unfold with_qc. rewrite (kget_at _ _ _ Ek). apply (passes_keep h k x); [done..|apply same_ctx_refl|]. intros Hok. destruct (cc_qc x) as [q|] eqn:Eq; cbn.
  - apply (qc_ok x q); [done|apply Hf|done].
  - destruct Hok as [C1 C2]. split; [done|]. cbn. by rewrite Eq in C2.
Qed.

Lemma close_passes h k code reason w : live k w -> passes h h w (with_qc k (tClose code reason) w).
Proof. intros Hl. apply with_qc_passes; [done|]. intros q. apply close_issued. Qed.

Lemma abortStream_passes h k i code w : live k w -> passes h h w (abortStream k i code w).
Proof.
  intros Hl. apply with_qc_passes; [done|]. intros q Hq. destruct (stop_issued i code q Hq) as [V1 I1]. destruct (reset_issued i code _ V1) as [V2 I2]. split; [done|lia].
Qed.

Lemma closeIfIdle_passes h k w : live k w -> passes h h w (closeIfIdle k w).
Proof. intros Hl. unfold closeIfIdle. destruct (idle k w); [by apply close_passes|apply passes_refl]. Qed.

(** A step, and what then goes on. *)
Lemma passes_then h1 h2 h3 w1 w2 w3 : passes h1 h2 w1 w2 -> (grows w1 w2 -> passes h2 h3 w2 w3) -> passes h1 h3 w1 w3.
Proof. intros A B O. destruct (A O) as [O2 G2]. destruct (B G2 O2) as [O3 G3]. split; [done|by eapply grows_trans]. Qed.

Lemma streamDone_passes h k i r w : on_stream k i r w -> passes h (r :: h) w (streamDone cfg k i w).
Proof.
  intros (x & t & Ek & Et & Er). unfold streamDone. rewrite (kget_at _ _ _ Ek). set (x1 := x <| cc_streams := _ |>). set (w1 := kput k x1 w).
  assert (P1 : passes h (r :: h) w w1).
  { intros O. split; [|apply (grows_kput k x); [done|done|apply same_ctx_refl]]. apply (owned_kput h [r] k x); [done| | |done| |apply same_ctx_refl|done].
    - intros Hc Hk. destruct (ow_conns _ _ O _ _ Hk) as (x2 & B1 & _ & B3). cbn in Hc. congruence.
    - intros Hc. split; [by auto| |done]. intros j t' Hj Ht'. destruct (decide (j = i)) as [->|Hn]; [right; apply list_elem_of_singleton; congruence|].
      left. cbn. split_and!; [set_solver|done|]. by exists t'.
    - destruct (ow_conn _ _ O k x Ek) as [C1 C2]. split; [|done]. intros j Hj. cbn in Hj. apply C1. set_solver. }
  eapply passes_then; [exact P1|]. intros G. assert (L1 : live k w1) by (exists x1; apply lookup_insert_eq).
  destruct (negb (idle k w1)); [apply passes_refl|]. destruct (_ || _); [by apply closeIfIdle_passes|]. destruct (_ && _); [|apply passes_refl].
  destruct L1 as [y Ey]. rewrite (kget_at _ _ _ Ey). apply (passes_keep _ k y); [done..|apply same_ctx_refl|]. by intros [C1 C2].
Qed.

Lemma cancel_passes h k i r w : on_stream k i r w -> passes h (r :: h) w (cancel cfg k i w).
Proof.
  intros S. eapply passes_then; [apply abortStream_passes; by eapply on_stream_live|]. intros G. apply streamDone_passes. by eapply on_stream_grows.
Qed.

Lemma sput_passes h k i t w : on_stream k i (t_req t) w -> passes h h w (sput k i t w).
Proof.
  intros (x & t0 & Ek & Et & Er). unfold sput. rewrite (kget_at _ _ _ Ek). assert (C : same_ctx (cc_ctx x) (<[i := t]> (cc_ctx x))).
  { intros j t' Ht'. destruct (decide (j = i)) as [->|Hn]; [exists t; split; [apply lookup_insert_eq|congruence]|]. exists t'. by rewrite lookup_insert_ne. }
  apply (passes_keep h k x); [done..|]. intros [C1 C2]. split; cbn.
  - intros j Hj. destruct (C1 j Hj) as [t' Ht']. destruct (C j t' Ht') as (t2 & E2 & _). by exists t2.
  - destruct (cc_qc x) as [q|]; [|rewrite C2 in Et; done]. destruct C2 as [C2 C3]. split; [done|]. intros j Hj. apply C3. destruct (decide (j = i)) as [->|Hn]; [by exists t0|]. by rewrite lookup_insert_ne in Hj.
Qed.

Lemma fail_passes h k i r e w : on_stream k i r w -> passes h h w (fail cfg k i e w).
Proof.
  intros S. unfold fail. set (t1 := sget k i w <| t_done := true |> <| t_body := [] |>). assert (Er : t_req t1 = r) by (unfold t1; by apply on_stream_sget).
  eapply passes_then; [apply sput_passes; by rewrite Er|]. intros G1. assert (S1 : on_stream k i r (sput k i t1 w)) by by eapply on_stream_grows.
  rewrite (on_stream_sget _ _ _ _ S1). eapply passes_then; [by apply cancel_passes|]. intros G2. apply finish_passes.
Qed.

Lemma owned_drop h r w : cr_done (qget r w) = true -> owned (r :: h) w -> owned h w.
Proof. intros Hd [O1 O2 O3 O4 O5 O6 O7 O8 O9]. split; [|done..]. intros r' Hr'. destruct (O1 r' Hr') as [[->|Hh]%elem_of_cons|Hx]; [congruence|by auto|by auto]. Qed.

Lemma streamDone_reqs k i w : reqs (streamDone cfg k i w) = reqs w.
Proof. unfold streamDone, closeIfIdle. destruct (negb _); [done|]. destruct (_ || _); [by destruct (idle _ _)|]. by destruct (_ && _). Qed.

Lemma abort_passes h r e w : passes h h w (abort cfg r e w).
Proof.
  intros O. unfold abort. destruct (cr_stream (qget r w)) as [[k i]|] eqn:Es.
  - destruct (ow_stream _ _ O r k i Es) as (x & t & S). assert (OS : on_stream k i r w) by by exists x, t.
    destruct (finish_extra h r (Failure e) w O) as [O1 G1]. pose proof (finish_state r (Failure e) w) as (_ & _ & _ & _ & _ & D1 & _). destruct (finish r (Failure e) w) as [called w1]. cbn [snd] in *.
    destruct called; [|done]. destruct (cancel_passes h k i r w1 ltac:(by eapply on_stream_grows) O1) as [O2 G2]. split; [|by eapply grows_trans].
    eapply owned_drop; [|exact O2]. unfold qget, cancel. rewrite streamDone_reqs. exact D1.
  - destruct (finish_extra h r (Failure e) w O) as [O1 G1]. by destruct (finish r (Failure e) w) as [[] w1].
Qed.

(** ** Sending *)

Lemma send_passes h k i r w : on_stream k i r w -> passes h h w (send cfg k i w).
Proof.
  intros S. pose proof S as (x & t & Ek & Et & Er). unfold send. rewrite (kget_at _ _ _ Ek). destruct (cc_qc x) as [q|] eqn:Eq; [|apply passes_refl].
  set (data := send_bytes _ _). pose proof (write_issued i data true q) as W. destruct (tWrite i data true q) as [bad q']. cbn [snd] in W. set (w1 := kput k _ w).
  assert (P1 : passes h h w w1) by (apply (passes_keep h k x); [done..|apply same_ctx_refl|by apply (qc_ok x q)]).
  destruct bad; [|done]. eapply passes_then; [exact P1|]. intros G1. apply (fail_passes h k i r). by eapply on_stream_grows.
Qed.

(** A request of which only the stream is changed. *)
Lemma owned_attach h r y w : cr_done y = cr_done (qget r w) -> (forall k i, cr_stream y = Some (k, i) -> on_stream k i r w) -> owned h w -> owned h (qput r y w).
Proof.
  intros Hd Hs [O1 O2 O3 O4 O5 O6 O7 O8 O9].
  assert (Ed : forall r', cr_done (qget r' (qput r y w)) = cr_done (qget r' w)) by (intros r'; rewrite qget_qput; destruct (decide (r = r')) as [<-|]; [done|done]).
  split; [|done| | |done|done|done|done|].
  - intros r' Hr'. rewrite Ed in Hr'. by apply O1.
  - intros r'. rewrite Ed. apply O3.
  - intros r' Hr'. rewrite Ed in Hr'. by apply O4.
  - intros r' k i. rewrite qget_qput. destruct (decide (r = r')) as [<-|Hn]; [apply Hs|apply O9].
Qed.

Lemma grows_same w w' : ccs w' = ccs w -> grows w w'.
Proof. intros E k x Ek. exists x. rewrite E. split_and!; [done|done|apply same_ctx_refl]. Qed.

Lemma open_on_passes h k i r q q' x w : ccs w !! k = Some x -> cc_qc x = Some q -> tOpen true q = (Some i, q') -> head (cc_waiting x) = Some r -> cr_done (qget r w) = false -> cc_closed x = false ->
  passes h h w (open_on cfg k i r q' w).
Proof.
  intros Ek Eq Eo Eh Ed Ec O. unfold open_on. rewrite (kget_at _ _ _ Ek). set (t := MkClientStream r None None [] false false). set (x1 := x <| cc_qc := Some q' |> <| cc_waiting := _ |> <| cc_ctx := _ |> <| cc_streams := _ |> <| cc_idle := false |>).
  set (w1 := kput k x1 w). destruct (ow_conn _ _ O k x Ek) as [C1 C2]. rewrite Eq in C2. destruct C2 as [C2 C3]. destruct (open_fresh q true (Some i) q' C2 Eo) as (V & I1 & I2). specialize (I2 i eq_refl eq_refl).
  assert (Hfr : cc_ctx x !! i = None) by (destruct (cc_ctx x !! i) as [t0|] eqn:E0; [|done]; specialize (C3 i ltac:(by exists t0)); lia).
  assert (C : same_ctx (cc_ctx x) (<[i := t]> (cc_ctx x))) by (intros j t' Ht'; exists t'; split; [|done]; rewrite lookup_insert_ne; [done|]; intros ->; congruence).
  assert (O1 : owned h w1).
  { pose proof (owned_kput h [r] k x x1 w Ek) as K. assert (K' : owned ([r] ++ h) w1).
    { apply K; [by intros ?; cbn in *; congruence| |done| |done|done].
      - intros _. split; [| |done].
        + intros r' Hr'. destruct (cc_waiting x) as [|r0 rest] eqn:Ew; [done|]. injection Eh as ->. apply elem_of_cons in Hr' as [->|Hr']; [right; by apply list_elem_of_singleton|left]. split; [|done]. unfold x1. cbn. first [done|by rewrite Ew].
        + intros j t' Hj Ht'. left. split_and!; [cbn; set_solver|done|]. by apply C.
      - split; cbn.
        + intros j Hj. destruct (decide (j = i)) as [->|Hn]; [exists t; apply lookup_insert_eq|]. rewrite lookup_insert_ne by done. apply C1. set_solver.
        + split; [done|]. intros j Hj. destruct (decide (j = i)) as [->|Hn]; [lia|]. rewrite lookup_insert_ne in Hj by done. specialize (C3 j Hj). lia. }
    destruct K' as [A1 A2 A3 A4 A5 A6 A7 A8 A9]. split; [|done..]. intros r' Hr'. destruct (A1 r' Hr') as [[->|Hh]%elem_of_cons|Hx]; [|by auto|by auto]. right. right.
    exists k, x1, i, t. split_and!; [apply lookup_insert_eq|done|cbn; set_solver|cbn; apply lookup_insert_eq|done]. }
  assert (S1 : on_stream k i r w1) by (exists x1, t; split_and!; [apply lookup_insert_eq|cbn; apply lookup_insert_eq|done]).
  assert (G1 : grows w w1) by (apply (grows_kput k x); done). set (y := qget r w1 <| cr_stream := Some (k, i) |>).
  assert (O2 : owned h (qput r y w1)). { apply owned_attach; [done| |done]. by intros k' i' [= <- <-]. }
  assert (S2 : on_stream k i r (qput r y w1)) by exact S1. destruct (send_passes h k i r _ S2 O2) as [O3 G3]. split; [done|]. eapply grows_trans; [exact G1|]. eapply grows_trans; [|exact G3]. by apply grows_same.
Qed.

Lemma start_loop_passes h fuel k w : live k w -> passes h h w (start_loop cfg fuel k w).
Proof.
  revert w. induction fuel as [|fuel IH]; intros w Hl; [apply passes_refl|]. pose proof Hl as [x Ek]. cbn [start_loop]. rewrite (kget_at _ _ _ Ek).
  destruct (cc_waiting x) as [|r rest] eqn:Ew; [apply passes_refl|]. destruct (cc_qc x) as [q|] eqn:Eq; [|apply passes_refl].
  destruct (negb (cc_ready x) || cc_closed x || cc_goingAway x) eqn:Eg; [apply passes_refl|]. apply orb_false_iff in Eg as [[_ Ec]%orb_false_iff _].
  destruct (cr_done (qget r w)) eqn:Ed.
  - set (x1 := x <| cc_waiting := rest |>). set (w1 := kput k x1 w). assert (P1 : passes h h w w1).
    { intros O. split; [|apply (grows_kput k x); [done|done|apply same_ctx_refl]]. apply (owned_drop h r w1); [done|]. apply (owned_kput h [r] k x); [done|by intros ?; cbn in *; congruence| |done| |apply same_ctx_refl|done].
      - intros _. split; [| |done]; [|intros j t Hj Ht; left; split_and!; [done|done|by exists t]]. intros r' Hr'. rewrite Ew in Hr'. apply elem_of_cons in Hr' as [->|Hr']; [right; by apply list_elem_of_singleton|left; split; [exact Hr'|done]].
      - by destruct (ow_conn _ _ O k x Ek). }
    eapply passes_then; [exact P1|]. intros G1. apply IH. by eapply live_grows.
  - destruct (tOpen true q) as [[i|] q'] eqn:Eo.
    + eapply passes_then; [eapply open_on_passes; [done|done|done|by rewrite Ew|done|done]|]. intros G1. apply IH. by eapply live_grows.
    + apply (passes_keep h k x); [done..|apply same_ctx_refl|]. apply (qc_ok x q); [done|]. intros V. destruct (open_fresh q true None q' V Eo) as (V1 & I1 & _). done.
Qed.

Lemma startWaiting_passes h k w : live k w -> passes h h w (startWaiting cfg k w).
Proof. apply start_loop_passes. Qed.

(** ** Queueing *)

Lemma owned_place h r w : waits w r -> owned (r :: h) w -> owned h w.
Proof. intros Hw [O1 O2 O3 O4 O5 O6 O7 O8 O9]. split; [|done..]. intros r' Hr'. destruct (O1 r' Hr') as [[->|Hh]%elem_of_cons|Hx]; [by auto|by auto|by auto]. Qed.

(** A connection the client begins. *)
Lemma owned_dial h r key w : conns w !! key = None -> owned (r :: h) w ->
  owned h (kput (nextConn w) (MkClientConn Q key None false false false [r] ∅ false ∅) (w <| conns := <[key := nextConn w]> (conns w) |> <| nextConn := nextConn w + 1 |>)) /\
  grows w (kput (nextConn w) (MkClientConn Q key None false false false [r] ∅ false ∅) (w <| conns := <[key := nextConn w]> (conns w) |> <| nextConn := nextConn w + 1 |>)).
Proof.
  intros Hk O. set (k := nextConn w). set (x := MkClientConn Q key None false false false [r] ∅ false ∅). set (w' := kput k x _). pose proof O as [O1 O2 O3 O4 O5 O6 O7 O8 O9].
  assert (Hn : ccs w !! k = None) by (destruct (ccs w !! k) as [y|] eqn:E; [|done]; specialize (O7 k y E); unfold k in *; lia).
  assert (L : forall k1 y, ccs w !! k1 = Some y -> ccs w' !! k1 = Some y) by (intros k1 y E; cbn; rewrite lookup_insert_ne; [done|congruence]).
  assert (Lk : ccs w' !! k = Some x) by apply lookup_insert_eq.
  split.
  - apply (owned_place h r); [exists k, x; split_and!; [done|done|apply list_elem_of_singleton; done]|]. split; [|done|done|done|cbn; lia| | | |].
    + intros r' Hr'. destruct (O1 r' Hr') as [Hh|[(k1 & y & A1 & A2 & A3)|(k1 & y & i & t & A1 & A)]]; [by auto|right; left; exists k1, y; auto|right; right; exists k1, y, i, t; auto].
    + intros key' k1 E. cbn in E. destruct (decide (key' = key)) as [->|Hne].
      * rewrite (lookup_insert_eq (M := gmap bytes)) in E. injection E as <-. by exists x.
      * rewrite (lookup_insert_ne (M := gmap bytes)) in E by done. destruct (O6 key' k1 E) as (y & B1 & B2). exists y. auto.
    + intros k1 y E. destruct (decide (k1 = k)) as [->|Hne]; [cbn; unfold k; lia|]. cbn in E. rewrite lookup_insert_ne in E by done. specialize (O7 k1 y E). cbn. lia.
    + intros k1 y E. destruct (decide (k1 = k)) as [->|Hne]; [rewrite Lk in E; injection E as <-; split; [set_solver|done]|]. cbn in E. rewrite lookup_insert_ne in E by done. by eapply O8.
    + intros r' k1 i E. destruct (O9 r' k1 i E) as (y & t & B1 & B2). exists y, t. auto.
  - intros k1 y E. exists y. split_and!; [by apply L|done|apply same_ctx_refl].
Qed.

Lemma enqueue_passes h r w : passes (r :: h) h w (enqueue cfg r w).
Proof.
  intros O. unfold enqueue. destruct (c_closed w); [by apply finish_passes|]. destruct (conns w !! cr_key (qget r w)) as [k|] eqn:Ek; [|by apply owned_dial].
  destruct (ow_conns _ _ O _ _ Ek) as (x & E1 & E2 & E3). rewrite (kget_at _ _ _ E1). set (x1 := x <| cc_waiting := cc_waiting x ++ [r] |>). set (w1 := kput k x1 w).
  assert (G1 : grows w w1) by (apply (grows_kput k x); [done|done|apply same_ctx_refl]).
  assert (O1 : owned h w1).
  { apply (owned_place h r); [exists k, x1; split_and!; [apply lookup_insert_eq|done|cbn; apply elem_of_app; right; by apply list_elem_of_singleton]|].
    apply (owned_kput (r :: h) [] k x); [done|by intros ?; cbn in *; congruence| |done| |apply same_ctx_refl|done].
    - intros _. split; [|intros j t Hj Ht; left; split_and!; [done|done|by exists t]|done]. intros r' Hr'. left. split; [|done]. cbn. apply elem_of_app. by left.
    - by destruct (ow_conn _ _ O k x E1). }
  destruct (startWaiting_passes h k w1 ltac:(exists x1; apply lookup_insert_eq) O1) as [O2 G2]. split; [done|by eapply grows_trans].
Qed.

Lemma retry_passes h r e w : passes (r :: h) h w (retry cfg r e w).
Proof.
  intros O. unfold retry. cbn zeta. set (y := qget r w <| cr_retried := true |> <| cr_stream := None |>). assert (O1 : owned (r :: h) (qput r y w)) by by apply owned_attach.
  assert (G1 : grows w (qput r y w)) by by apply grows_same. destruct (_ && _).
  - destruct (enqueue_passes h r _ O1) as [O2 G2]. split; [exact O2|exact (grows_trans _ _ _ G1 G2)].
  - destruct (finish_passes h r (Failure e) _ O1) as [O2 G2]. split; [exact O2|exact (grows_trans _ _ _ G1 G2)].
Qed.

(** Over a list. *)
Lemma fold_passes {A} (f : World -> A -> World) (g : A -> Z) (P : World -> Prop) l h w :
  (forall w a h, a ∈ l -> P w -> passes (g a :: h) h w (f w a)) -> (forall w w', grows w w' -> P w -> P w') -> P w -> passes ((g <$> l) ++ h) h w (fold_left f l w).
Proof.
  intros Hf Hg. revert w. induction l as [|a l IH]; intros w Hp; [apply passes_refl|]. cbn [fmap list_fmap fold_left List.app].
  eapply passes_then; [apply (Hf w a); [by apply elem_of_cons; left|done]|]. intros G. apply IH; [|by eapply Hg]. intros w' a' h' Ha. apply Hf. by apply elem_of_cons; right.
Qed.

(** ** Connections *)

Hypothesis range_perm : forall m, range m ≡ₚ elements m.

Lemma elem_range i m : i ∈ range m <-> i ∈ m.
Proof. by rewrite range_perm, elem_of_elements. Qed.

Lemma forget_passes h k w : passes h h w (forget k w) /\ ccs (forget k w) = ccs w /\ (forall x, ccs w !! k = Some x -> conns (forget k w) !! cc_key x <> Some k).
Proof.
  unfold forget. destruct (bool_decide _) eqn:Eb; [apply bool_decide_eq_true in Eb|apply bool_decide_eq_false in Eb]; (split; [|split; [done|]]).
  - intros O. split; [|by apply grows_same]. destruct O as [O1 O2 O3 O4 O5 O6 O7 O8 O9]. split; [done..| |done|done|done]. intros key k1 E. cbn in E.
    apply (lookup_delete_Some (M := gmap bytes)) in E as [_ E]. by apply O6.
  - intros x Ex. cbn. rewrite (kget_at _ _ _ Ex). by rewrite (lookup_delete_eq (M := gmap bytes)).
  - apply passes_refl.
  - intros x Ex. by rewrite (kget_at _ _ _ Ex) in Eb.
Qed.

(** A connection that lets go of what waits for it and of the streams of [us]. *)
Lemma retire_passes h us k x x' w : ccs w !! k = Some x -> (cc_closed x' = true -> conns w !! cc_key x <> Some k) -> cc_key x' = cc_key x -> cc_waiting x' = [] -> cc_qc x' = cc_qc x -> cc_ctx x' = cc_ctx x ->
  cc_streams x' ⊆ cc_streams x -> (cc_closed x = false -> forall i, i ∈ cc_streams x -> i ∈ us \/ i ∈ cc_streams x' /\ cc_closed x' = false) ->
  passes h (((fun i => t_req (sget k i w)) <$> us) ++ cc_waiting x ++ h) w (kput k x' w).
Proof.
  intros Ek Hc E1 E2 E4 E5 E6 Hs O. split; [|apply (grows_kput k x); [done|done|by rewrite E5; apply same_ctx_refl]]. rewrite (assoc_L (++)). apply (owned_kput h _ k x); [done|done| |done| |by rewrite E5; apply same_ctx_refl|done].
  - intros Hnc. split; [| |done].
    + intros r Hr. right. apply elem_of_app. by right.
    + intros i t Hi Ht. destruct (Hs Hnc i Hi) as [Hu|[Hi' Hc']].
      * right. apply elem_of_app. left. apply list_elem_of_fmap. exists i. split; [|done]. unfold sget. by rewrite (kget_at _ _ _ Ek), Ht.
      * left. split_and!; [done|done|]. exists t. by rewrite E5.
  - destruct (ow_conn _ _ O k x Ek) as [C1 C2]. split; [|by rewrite E4, E5]. intros i Hi. rewrite E5. apply C1. set_solver.
Qed.

(** The streams a connection has are streams. *)
Lemma streams_on h k x w : owned h w -> ccs w !! k = Some x -> forall i, i ∈ cc_streams x -> on_stream k i (t_req (sget k i w)) w.
Proof.
  intros O Ek i Hi. destruct (ck_ctx _ (ow_conn _ _ O k x Ek) i Hi) as [t Ht]. exists x, t. split_and!; [done|done|]. unfold sget. by rewrite (kget_at _ _ _ Ek), Ht.
Qed.

Lemma finish_all h rs e w : passes (rs ++ h) h w (fold_left (fun w r => (finish r (Failure e) w).2) rs w).
Proof.
  pose proof (fold_passes (fun w r => (finish r (Failure e) w).2) (fun r => r) (fun _ => True) rs h w) as K. rewrite list_fmap_id in K. apply K; [|done|done]. intros. apply finish_passes.
Qed.

Lemma failed_passes h k w : live k w -> cc_qc (kget k w) = None -> passes h h w (failed k w).
Proof.
  intros Hl Hq. unfold failed. destruct (forget_passes h k w) as (P1 & Ec & Hk). eapply passes_then; [exact P1|]. intros _. set (w1 := forget k w) in *. destruct Hl as [x Ek].
  assert (E1 : ccs w1 !! k = Some x) by by rewrite Ec. rewrite (kget_at _ _ _ E1). rewrite (kget_at _ _ _ Ek) in Hq. specialize (Hk x Ek). set (x1 := x <| cc_closed := true |> <| cc_waiting := [] |>).
  intros O. assert (Es : forall i, i ∉ cc_streams x).
  { intros i Hi. destruct (ow_conn _ _ O k x E1) as [C1 C2]. rewrite Hq in C2. destruct (C1 i Hi) as [t Ht]. by rewrite C2 in Ht. }
  revert O. change (passes h h w1 (fold_left (fun w r => (finish r (Failure (errConn false)) w).2) (cc_waiting x) (kput k x1 w1))). eapply passes_then; [|intros _; apply finish_all].
  apply (retire_passes h [] k x); [done..|]. intros _ i Hi. by destruct (Es i).
Qed.

Lemma OnClose_passes h k w : live k w -> passes h h w (OnClose cfg range k w).
Proof.
  intros Hl. unfold OnClose. destruct (forget_passes h k w) as (P1 & Ec & Hk). eapply passes_then; [exact P1|]. intros _. set (w1 := forget k w) in *. destruct Hl as [x Ek].
  assert (E1 : ccs w1 !! k = Some x) by by rewrite Ec. rewrite (kget_at _ _ _ E1). specialize (Hk x Ek). set (x1 := x <| cc_closed := true |> <| cc_waiting := [] |> <| cc_streams := ∅ |> <| cc_idle := false |>). set (w2 := kput k x1 w1).
  intros O. assert (S0 := streams_on _ _ _ _ O E1).
  assert (P2 : passes h (((fun i => t_req (sget k i w1)) <$> range (cc_streams x)) ++ cc_waiting x ++ h) w1 w2).
  { apply (retire_passes h (range (cc_streams x)) k x); [done|done|done|done|done|done|cbn; set_solver|]. intros _ i Hi. left. by apply elem_range. }
  revert O. change (passes h h w1 (fold_left (fun w r => if cc_ready x then retry cfg r (errConn true) w else (finish r (Failure (errConn true)) w).2) (cc_waiting x)
    (fold_left (fun w i => (finish (t_req (sget k i w)) (Failure (errConn true)) w).2) (range (cc_streams x)) w2))).
  eapply passes_then; [exact P2|]. intros G2. eapply passes_then.
  - apply (fold_passes (fun w i => (finish (t_req (sget k i w)) (Failure (errConn true)) w).2) (fun i => t_req (sget k i w1)) (fun w => forall i, i ∈ range (cc_streams x) -> on_stream k i (t_req (sget k i w1)) w)).
    + intros w' i h' Hi P. rewrite (on_stream_sget _ _ _ _ (P i Hi)). apply finish_passes.
    + intros w3 w4 G P i Hi. eapply on_stream_grows; [exact G|by apply P].
    + intros i Hi. eapply on_stream_grows; [exact G2|]. apply S0. by apply elem_range.
  - intros G3. pose proof (fold_passes (fun w r => if cc_ready x then retry cfg r (errConn true) w else (finish r (Failure (errConn true)) w).2) (fun r => r) (fun _ => True) (cc_waiting x) h) as K. rewrite list_fmap_id in K.
    apply K; [|done|done]. intros w' r h' _ _. destruct (cc_ready x); [apply retry_passes|apply finish_passes].
Qed.

Lemma handleGoAway_passes h k id w : live k w -> passes h h w (handleGoAway cfg range k id w).
Proof.
  intros Hl. unfold handleGoAway. destruct (forget_passes h k w) as (P1 & Ec & Hk). eapply passes_then; [exact P1|]. intros _. set (w1 := forget k w) in *. destruct Hl as [x Ek].
  assert (E1 : ccs w1 !! k = Some x) by by rewrite Ec. rewrite (kget_at _ _ _ E1). specialize (Hk x Ek). set (us := filter _ _). set (x1 := x <| cc_goingAway := true |> <| cc_waiting := [] |> <| cc_streams := _ |>). set (w2 := kput k x1 w1).
  intros O. assert (S0 := streams_on _ _ _ _ O E1). assert (Hus : forall i, i ∈ us -> i ∈ cc_streams x) by (intros i [_ Hi]%list_elem_of_filter; by apply elem_range).
  assert (P2 : passes h (((fun i => t_req (sget k i w1)) <$> us) ++ cc_waiting x ++ h) w1 w2).
  { apply (retire_passes h us k x); [done|done|done|done|done|done|cbn; set_solver|]. intros Hnc i Hi. cbn. destruct (decide (i ∈ us)) as [Hu|Hu]; [by left|]. right. split; [set_solver|done]. }
  assert (L2 : live k w2) by (exists x1; apply lookup_insert_eq).
  revert O. change (passes h h w1 (closeIfIdle k (fold_left (fun w r => enqueue cfg r w) (cc_waiting x)
    (fold_left (fun w i => retry cfg (t_req (sget k i w)) (StreamError ErrCodeRequestRejected) (abortStream k i ErrCodeRequestCancelled w)) us w2)))).
  eapply passes_then; [exact P2|]. intros G2. eapply passes_then.
  - apply (fold_passes (fun w i => retry cfg (t_req (sget k i w)) (StreamError ErrCodeRequestRejected) (abortStream k i ErrCodeRequestCancelled w)) (fun i => t_req (sget k i w1))
      (fun w => live k w /\ forall i, i ∈ us -> on_stream k i (t_req (sget k i w1)) w)).
    + intros w' i h' Hi [Hl' P]. rewrite (on_stream_sget _ _ _ _ (P i Hi)). eapply passes_then; [by apply abortStream_passes|]. intros _. apply retry_passes.
    + intros w3 w4 G [Hl' P]. split; [by eapply live_grows|]. intros i Hi. eapply on_stream_grows; [exact G|by apply P].
    + split; [done|]. intros i Hi. eapply on_stream_grows; [exact G2|]. by apply S0, Hus.
  - intros G3. pose proof (fold_passes (fun w r => enqueue cfg r w) (fun r => r) (fun _ => True) (cc_waiting x) h) as K. rewrite list_fmap_id in K. eapply passes_then; [apply K; [|done|done]; intros; apply enqueue_passes|].
    intros G4. apply closeIfIdle_passes. eapply live_grows; [exact G4|]. by eapply live_grows.
Qed.

Lemma close_with_passes h k e w : live k w -> passes h h w (close_with k e w).
Proof. intros Hl. destruct e; by apply close_passes. Qed.

Lemma OnHandshake_passes h k w : live k w -> passes h h w (OnHandshake cfg k w).
Proof.
  intros Hl. pose proof Hl as [x Ek]. unfold OnHandshake. rewrite (kget_at _ _ _ Ek). destruct (cc_qc x) as [q|] eqn:Eq; [|apply passes_refl].
  assert (Hput : forall q' b, (valid q -> valid q' /\ issued q <= issued q') -> passes h h w (kput k (x <| cc_qc := Some q' |> <| cc_ready := b |>) w)).
  { intros q' b Hq. apply (passes_keep h k x); [done..|apply same_ctx_refl|]. intros Hok. by destruct (qc_ok x q q' Eq Hq Hok). }
  assert (Href : forall q', (valid q -> valid q' /\ issued q <= issued q') -> passes h h w (close_with k (connErr ErrCodeStreamCreationError (str "cannot open the control stream")) (kput k (x <| cc_qc := Some q' |>) w))).
  { intros q' Hq. eapply passes_then; [apply (passes_keep h k x (x <| cc_qc := Some q' |>)); [done..|apply same_ctx_refl|exact (qc_ok x q q' Eq Hq)]|]. intros G. apply close_with_passes. by eapply live_grows. }
  destruct (tOpen false q) as [[i|] q1] eqn:Eo.
  - pose proof (write_issued i (control_hello (MaxResponseHeaderBytes cfg)) false q1) as W. destruct (tWrite i _ false q1) as [bad q2]. cbn [snd] in W.
    assert (V : valid q -> valid q2 /\ issued q <= issued q2). { intros V. destruct (open_fresh q false _ q1 V Eo) as (V1 & I1 & _). destruct (W V1) as [V2 I2]. split; [done|lia]. }
    destruct bad; [by apply Href|]. eapply passes_then; [by apply Hput|]. intros G. apply startWaiting_passes. by eapply live_grows.
  - apply Href. intros V. by destruct (open_fresh q false _ q1 V Eo) as (V1 & I1 & _).
Qed.

Lemma dialed_passes h k q w : live k w -> cc_qc (kget k w) = None -> valid q -> passes h h w (dialed k q w).
Proof.
  intros [x Ek]. unfold dialed. rewrite (kget_at _ _ _ Ek). intros Hn V. apply (passes_keep h k x); [done..|apply same_ctx_refl|]. intros [C1 C2]. rewrite Hn in C2. split; [done|]. cbn. split; [done|]. rewrite C2. intros i [t Ht]. done.
Qed.

Lemma idle_fire_passes h k w : live k w -> passes h h w (idle_fire k w).2.
Proof. intros [x Ek]. unfold idle_fire. rewrite (kget_at _ _ _ Ek). cbn [snd]. apply (passes_keep h k x); [done..|apply same_ctx_refl|]. by intros [C1 C2]. Qed.

Lemma idle_forget_passes h k w : live k w -> passes h h w (idle_forget k w).
Proof. intros Hl. unfold idle_forget. destruct (forget_passes h k w) as (P1 & Ec & _). eapply passes_then; [exact P1|]. intros G. apply closeIfIdle_passes. by eapply live_grows. Qed.

Lemma Close_passes h order w : Forall (fun k => live k w) order -> passes h h w (Close order w).
Proof.
  intros Hl. unfold Close. destruct (c_closed w); [apply passes_refl|]. eapply (passes_then h h h _ (w <| c_closed := true |>)).
  { intros O. split; [|by apply grows_same]. destruct O as [O1 O2 O3 O4 O5 O6 O7 O8 O9]. by split. }
  intros G. assert (Hl1 : Forall (fun k => live k (w <| c_closed := true |>)) order) by exact Hl. clear Hl G. set (w1 := w <| c_closed := true |>) in *. clearbody w1. revert w1 Hl1.
  induction order as [|k order IH]; intros w1 Hl1; [apply passes_refl|]. apply Forall_cons in Hl1 as [[x Ek] Hl]. cbn [fold_left]. eapply (passes_then h h h _ (close_conn w1 k)).
  - unfold close_conn. rewrite (kget_at _ _ _ Ek). set (x1 := x <| cc_waiting := [] |>). eapply (passes_then h (cc_waiting x ++ h) h _ (kput k x1 w1)).
    + intros O. apply (retire_passes h [] k x x1 w1); [done| |done|done|done|done|done| |done].
      * intros Hc Hk. destruct (ow_conns _ _ O _ _ Hk) as (x2 & B1 & _ & B3). cbn in Hc. congruence.
      * intros Hc i Hi. by right.
    + intros G1. eapply passes_then; [apply finish_all|]. intros G2. apply closeIfIdle_passes. eapply live_grows; [exact G2|]. exists x1. apply lookup_insert_eq.
  - intros G1. apply IH. eapply Forall_impl; [exact Hl|]. intros k' Hk'. by eapply live_grows.
Qed.

Context (unicode_lower : bytes -> bytes) (connKey : OutRequest -> bytes).

Lemma Do_passes w q : passes [] [] w (Do unicode_lower connKey cfg q w).
Proof.
  intros O. unfold Do. pose proof O as [O1 O2 O3 O4 O5 O6 O7 O8 O9]. set (r := nextReq w).
  assert (Hr : forall e, owned [] (w <| nextReq := r + 1 |> <| answers := answers w ++ [(r, Failure e)] |>)).
  { intros e. assert (Hd : cr_done (qget r w) = true) by (destruct (cr_done (qget r w)) eqn:Ed; [done|]; specialize (O4 r Ed); unfold r in *; lia).
    assert (Hn : r ∉ (answers w).*1) by (rewrite O3; unfold r; lia). split; [done| | | |cbn; unfold r; lia|done|done|done|done].
    - cbn. rewrite fmap_app. apply NoDup_app. split_and!; [done| |by apply NoDup_singleton]. intros z Hz Hx. cbn in Hx. apply list_elem_of_singleton in Hx as ->. done.
    - intros z. cbn. rewrite fmap_app, elem_of_app. cbn [fmap list_fmap fst]. rewrite list_elem_of_singleton, O3. change (qget z (w <| nextReq := r + 1 |> <| answers := answers w ++ [(r, Failure e)] |>)) with (qget z w).
      split; [intros [[Hz1 Hz2]| ->]; (split; [unfold r; lia|done])|]. intros [Hz1 Hz2]. destruct (decide (z = r)) as [->|Hne]; [by right|left]. split; [unfold r in *; lia|done].
    - intros z Hz. specialize (O4 z Hz). cbn. unfold r. lia. }
  destruct (negb _); [split; [apply Hr|by apply grows_same]|]. destruct (requestFields _ _ _) as [fs|]; [|split; [apply Hr|by apply grows_same]].
  set (y := MkClientRequest _ _ _ _ _ _ _). set (w1 := qput r y _).
  assert (Ed : cr_done (qget r w1) = false) by (unfold w1; rewrite qget_qput, decide_True by done; done).
  assert (Eq : forall z, z <> r -> qget z w1 = qget z w) by (intros z Hz; unfold w1; by rewrite qget_qput, decide_False by done).
  assert (Hd : cr_done (qget r w) = true) by (destruct (cr_done (qget r w)) eqn:E; [done|]; specialize (O4 r E); unfold r in *; lia).
  assert (O' : owned [r] w1).
  { split; [|done| | |cbn; unfold r; lia|done|done|done|].
    - intros z Hz. destruct (decide (z = r)) as [->|Hne]; [left; by apply list_elem_of_singleton|]. rewrite Eq in Hz by done. destruct (O1 z Hz) as [Hx|Hx]; [by apply elem_of_nil in Hx|by right].
    - intros z. destruct (decide (z = r)) as [->|Hne]; [rewrite Ed; change (answers w1) with (answers w); rewrite O3; unfold r; split; [lia|by intros []]|]. rewrite Eq by done. change (answers w1) with (answers w). rewrite O3. cbn. unfold r in *. split; intros [Z1 Z2]; (split; [lia|done]).
    - intros z Hz. destruct (decide (z = r)) as [->|Hne]; [cbn; unfold r; lia|]. rewrite Eq in Hz by done. specialize (O4 z Hz). cbn. unfold r. lia.
    - intros z k i Hz. destruct (decide (z = r)) as [->|Hne]; [unfold w1 in Hz; by rewrite qget_qput, decide_True in Hz by done|]. rewrite Eq in Hz by done. by apply O9. }
  destruct (enqueue_passes [] r w1 O') as [O2' G2]. split; [done|]. refine (grows_trans _ _ _ _ G2). by apply grows_same.
Qed.

(** ** Responses *)

(** A step of the stream that carries [r]. *)
Definition onward (P : World -> Prop) w w' : Prop := owned [] w' /\ P w' /\ grows w w'.

Lemma onward_of (P : World -> Prop) w w' : (forall w w', grows w w' -> P w -> P w') -> passes [] [] w w' -> owned [] w /\ P w -> onward P w w'.
Proof. intros Hg Hp [O HP]. destruct (Hp O) as [O' G]. split_and!; [done|by eapply Hg|done]. Qed.

Lemma onward_trans P w1 w2 w3 : onward P w1 w2 -> onward P w2 w3 -> onward P w1 w3.
Proof. intros (O1 & P1 & G1) (O2 & P2 & G2). split_and!; [done|done|exact (grows_trans _ _ _ G1 G2)]. Qed.

Lemma onData_passes k i r chunk w : on_stream k i r w -> passes [] [] w (Http3Client.onData cfg k i chunk w).1.
Proof.
  intros S. unfold Http3Client.onData. destruct (t_done _); [apply passes_refl|]. destruct (_ || _); [apply passes_refl|]. destruct (_ <? _); [by eapply fail_passes|].
  apply sput_passes. cbn. by rewrite (on_stream_sget _ _ _ _ S).
Qed.

Lemma onFrame_passes k i r typ payload w : on_stream k i r w -> passes [] [] w (Http3Client.onFrame cfg k i typ payload w).1.
Proof.
  intros S. pose proof (on_stream_sget _ _ _ _ S) as Er. unfold Http3Client.onFrame. destruct (t_done _); [apply passes_refl|]. destruct (typ =? frameHeaders).
  - destruct (t_trailers _); [apply passes_refl|]. destruct (decodeFields _ _) as [[fs|[]]|]; [|apply passes_refl|by eapply fail_passes|apply passes_refl].
    destruct (t_resp _); [destruct (trailerFrom fs)|destruct (newResponse fs)]; try (by eapply fail_passes); (apply sput_passes; cbn; by rewrite Er).
  - destruct (typ =? framePushPromise); [apply passes_refl|]. destruct (_ || _); [apply passes_refl|]. destruct (reservedFrame typ); apply passes_refl.
Qed.

Lemma complete_passes k i r w : on_stream k i r w -> passes [] [] w (complete cfg k i w).
Proof.
  intros S. pose proof (on_stream_sget _ _ _ _ S) as Er. unfold complete. set (t1 := sget k i w <| t_done := true |>). set (w1 := sput k i t1 w).
  assert (P1 : passes [] [] w w1) by (apply sput_passes; unfold t1; cbn; by rewrite Er). eapply passes_then; [exact P1|]. intros G1. assert (S1 : on_stream k i r w1) by (by eapply on_stream_grows).
  destruct (t_resp (sget k i w)) as [resp|]; [|by eapply fail_passes]. destruct (_ && _); [by eapply fail_passes|]. set (w2 := sput k i _ w1).
  eapply (passes_then [] [] [] _ w2); [apply sput_passes; cbn; by rewrite (on_stream_sget _ _ _ _ S1)|]. intros G2. rewrite Er.
  eapply passes_then; [apply (streamDone_passes [] k i r); by eapply on_stream_grows|]. intros G3. apply finish_passes.
Qed.

Lemma reset_passes k i r code w : on_stream k i r w -> passes [] [] w (reset cfg k i code w).
Proof.
  intros S. pose proof (on_stream_sget _ _ _ _ S) as Er. unfold reset. destruct (t_done _); [apply passes_refl|]. set (t1 := sget k i w <| t_done := true |> <| t_body := [] |>). set (w1 := sput k i t1 w).
  eapply (passes_then [] [] [] _ w1); [apply sput_passes; unfold t1; cbn; by rewrite Er|]. intros G1. eapply passes_then; [apply (streamDone_passes [] k i r); by eapply on_stream_grows|]. intros G2. rewrite Er.
  destruct (code =? ErrCodeRequestRejected); [apply retry_passes|apply finish_passes].
Qed.

Abbreviation feed := (Http3Client.feed cfg).

Lemma feed_passes k i r data fin (s : h3Client Q) : on_stream k i r (world s) -> passes [] [] (world s) (world (feed k i data fin s)).
Proof.
  intros Hs O. unfold Http3Client.feed. destruct (t_done _); [by apply passes_refl|]. unfold feed_frames. set (p := default _ _). set (P := on_stream k i r).
  assert (Hg : forall w w', grows w w' -> P w -> P w') by (intros w w' G; by apply on_stream_grows).
  pose proof (parse_keeps (onData cfg k i) (onFrame cfg k i) (maxFrame p) (fun w => owned [] w /\ P w) (onward P)) as M.
  specialize (M ltac:(intros w [OO PP]; split_and!; [done|done|apply grows_refl]) (onward_trans P) ltac:(intros a b (A1 & A2 & _); done)).
  specialize (M ltac:(intros d w [OO PP]; apply onward_of; [done|by eapply onData_passes|done]) ltac:(intros t d w [OO PP]; apply onward_of; [done|by eapply onFrame_passes|done])).
  specialize (M (S (length (pbuf p ++ data))) (pbuf p ++ data) (dataLeft p) (world s) (conj O Hs)).
  destruct (parse_loop _ _ _ _ _ _ _) as [[[rest l] w1] err]. cbn [fst snd] in M. destruct M as (O1 & S1 & G1).
  assert (Hend : forall w2, passes [] [] w1 w2 -> owned [] w2 /\ grows (world s) w2) by (intros w2 P2; destruct (P2 O1) as [O2 G2]; split; [done|exact (grows_trans _ _ _ G1 G2)]).
  assert (L1 : live k w1) by by eapply on_stream_live.
  destruct err as [[code reason|]|]; [apply Hend; by apply close_with_passes|apply Hend; by eapply fail_passes|].
  destruct (_ || _); [by split|]. destruct (midFrame _); [apply Hend; by apply close_with_passes|apply Hend; by eapply complete_passes].
Qed.

(** ** The server's control stream *)

Lemma controlFrame_passes k typ payload (p : peerStreams) w : live k w -> passes [] [] w (controlFrame (fun id w => (handleGoAway cfg range k id w, None)) typ payload (p, w)).1.2.
Proof.
  intros Hl. unfold controlFrame. destruct (negb (p_settings p)); [destruct (negb _); [apply passes_refl|]; destruct (parseSettings payload); apply passes_refl|]. destruct (typ =? frameSettings); [apply passes_refl|].
  destruct (typ =? frameGoAway); [destruct (one_varint payload); [by apply handleGoAway_passes|apply passes_refl]|]. destruct (_ || _); [destruct (one_varint payload); apply passes_refl|].
  destruct (_ || _); [apply passes_refl|]. destruct (reservedFrame typ); apply passes_refl.
Qed.

Lemma uni_data_passes k data fin u (p : peerStreams) w : live k w -> passes [] [] w (uni_data (fun id w => (handleGoAway cfg range k id w, None)) data fin u (p, w)).1.2.2.
Proof.
  intros Hl O. unfold uni_data. destruct (u_typ u =? streamControl); [|destruct (_ || _); by apply passes_refl]. unfold feed_frames. set (q := u_parser u).
  set (R := fun (a b : peerStreams * World) => onward (live k) a.2 b.2).
  pose proof (parse_keeps (fun _ pw => (pw, Some (connErr ErrCodeFrameUnexpected (str "DATA on the control stream")))) (controlFrame (fun id w => (handleGoAway cfg range k id w, None))) (maxFrame q) (fun pw => owned [] pw.2 /\ live k pw.2) R) as M.
  assert (Hr : forall pw : peerStreams * World, owned [] pw.2 /\ live k pw.2 -> R pw pw) by (intros pw [OO LL]; split_and!; [done|done|apply grows_refl]).
  specialize (M Hr ltac:(intros a b c; apply onward_trans) ltac:(intros a b (A1 & A2 & _); done) ltac:(intros d st; apply Hr)).
  specialize (M ltac:(intros t d [p0 w0] [OO LL]; apply onward_of; [intros w1 w2; apply live_grows|by apply controlFrame_passes|done])).
  specialize (M (S (length (pbuf q ++ data))) (pbuf q ++ data) (dataLeft q) (p, w) (conj O Hl)).
  destruct (parse_loop _ _ _ _ _ _ _) as [[[rest l] [p1 w1]] err]. cbn [fst snd] in M. destruct M as (O1 & _ & G1). cbn in O1, G1. by destruct err.
Qed.

Lemma handle_passes k data fin u (p : peerStreams) w : live k w -> passes [] [] w (handle (fun id w => (handleGoAway cfg range k id w, None)) data fin u (p, w)).1.1.2.2.
Proof.
  intros Hl. unfold handle. destruct (u_typ u <? 0).
  - destruct (ReadVarint _) as [typ n]. destruct (n =? 0); [apply passes_refl|].
    assert (Hgo : forall d u0 p0, passes [] [] w (let '(u1, pw, err) := uni_data (fun id w => (handleGoAway cfg range k id w, None)) d fin u0 (p0, w) in (u1, pw, false, err)).1.1.2.2).
    { intros d u0 p0. pose proof (uni_data_passes k d fin u0 p0 w Hl) as D. by destruct (uni_data _ d fin u0 (p0, w)) as [[u1 pw] err]. }
    repeat (match goal with |- context [if ?b then _ else _] => destruct b end; try apply Hgo; try apply passes_refl).
  - pose proof (uni_data_passes k data fin u p w Hl) as D. by destruct (uni_data _ data fin u (p, w)) as [[u1 pw] err].
Qed.

Lemma uni_feed_passes k i data fin u (s : h3Client Q) : live k (world s) -> passes [] [] (world s) (world (Http3Client.uni_feed cfg range k i data fin u s)).
Proof.
  intros Hl O. unfold Http3Client.uni_feed. set (p := default _ _). pose proof (handle_passes k data fin u p (world s) Hl O) as [O1 G1].
  destruct (handle _ _ _ _ _) as [[[u1 [p1 w1]] stop] err]. cbn [fst snd] in *. assert (L1 : live k w1) by by eapply live_grows.
  set (w2 := if stop : bool then _ else w1). assert (P2 : passes [] [] w1 w2) by (unfold w2; destruct stop; [apply with_qc_passes; [done|intros q; apply stop_issued]|apply passes_refl]).
  destruct (P2 O1) as [O2 G2]. assert (L2 : live k w2) by by eapply live_grows.
  assert (P3 : passes [] [] w2 (match err with Some e => close_with k e w2 | None => w2 end)) by (destruct err; [by apply close_with_passes|apply passes_refl]).
  destruct (P3 O2) as [O3 G3]. split; [done|]. exact (grows_trans _ _ _ G1 (grows_trans _ _ _ G2 G3)).
Qed.

Lemma OnStreamData_passes k i data fin (s : h3Client Q) : live k (world s) -> passes [] [] (world s) (world (Http3Client.OnStreamData cfg range k i data fin s)).
Proof.
  intros Hl. pose proof Hl as [x Ek]. unfold Http3Client.OnStreamData. rewrite (kget_at _ _ _ Ek). destruct (cc_ctx x !! i) as [t|] eqn:Et; [apply (feed_passes k i (t_req t)); by exists x, t|].
  destruct (k_unis s !! (k, i)); [by apply uni_feed_passes|]. destruct (bidirectional i); [by apply close_with_passes|by apply uni_feed_passes].
Qed.

Lemma OnStreamReset_passes k i code (s : h3Client Q) : live k (world s) -> passes [] [] (world s) (world (Http3Client.OnStreamReset cfg k i code s)).
Proof.
  intros Hl. pose proof Hl as [x Ek]. unfold Http3Client.OnStreamReset. rewrite (kget_at _ _ _ Ek). destruct (cc_ctx x !! i) as [t|] eqn:Et; [apply (reset_passes k i (t_req t)); by exists x, t|].
  destruct (k_unis s !! (k, i)); [|apply passes_refl]. destruct (_ || _); [by apply close_with_passes|apply passes_refl].
Qed.

(** * Whatever happens *)

(** A step of the client: a call, a timer, an event of a connection, or a change
    of a QUIC connection's own, which gives out no IDs twice. *)
Inductive step : h3Client Q -> h3Client Q -> Prop :=
| step_do s q : step s (s <| world := Do unicode_lower connKey cfg q (world s) |>)
| step_close s order : Forall (fun k => live k (world s)) order -> step s (s <| world := Close order (world s) |>)
| step_abort s r e : step s (s <| world := abort cfg r e (world s) |>)
| step_dialed s k q : live k (world s) -> cc_qc (kget k (world s)) = None -> valid q -> step s (s <| world := dialed k q (world s) |>)
| step_failed s k : live k (world s) -> cc_qc (kget k (world s)) = None -> step s (s <| world := failed k (world s) |>)
| step_handshake s k : live k (world s) -> step s (s <| world := OnHandshake cfg k (world s) |>)
| step_available s k : live k (world s) -> step s (s <| world := startWaiting cfg k (world s) |>)
| step_data s k i data fin : live k (world s) -> step s (OnStreamData cfg range k i data fin s)
| step_reset s k i code : live k (world s) -> step s (OnStreamReset cfg k i code s)
| step_closed s k : live k (world s) -> step s (s <| world := OnClose cfg range k (world s) |>)
| step_idle s k : live k (world s) -> step s (s <| world := (idle_fire k (world s)).2 |>)
| step_forget s k : live k (world s) -> step s (s <| world := idle_forget k (world s) |>)
| step_quic s k f : live k (world s) -> (forall q, valid q -> valid (f q) /\ issued q <= issued (f q)) -> step s (s <| world := with_qc k f (world s) |>).

Definition NewClient : h3Client Q := MkH3Client Q ∅ ∅ ∅ (MkClient Q ∅ ∅ 0 ∅ 0 false []).

Lemma step_owned s s' : step s s' -> owned [] (world s) -> owned [] (world s').
Proof.
  intros St O. assert (Hp : passes [] [] (world s) (world s') -> owned [] (world s')) by (intros P; by destruct (P O)). apply Hp. destruct St; cbn [world].
  - apply Do_passes.
  - by apply Close_passes.
  - apply abort_passes.
  - by apply dialed_passes.
  - by apply failed_passes.
  - by apply OnHandshake_passes.
  - by apply startWaiting_passes.
  - by apply OnStreamData_passes.
  - by apply OnStreamReset_passes.
  - by apply OnClose_passes.
  - by apply idle_fire_passes.
  - by apply idle_forget_passes.
  - by apply with_qc_passes.
Qed.

Lemma new_owned : owned [] (world NewClient).
Proof. split; cbn; try done; [by apply NoDup_nil_2|]. intros r. split; [by intros []%elem_of_nil|lia]. Qed.

Lemma reachable_owned s : rtc step NewClient s -> owned [] (world s).
Proof. apply (rtc_ind_r (fun s => owned [] (world s))); [apply new_owned|]. intros s1 s2 _ St. by apply step_owned. Qed.

(** C12: a callback of the HTTP/3 client is called exactly once.  However calls,
    timers, connections and servers interleave, no request is answered twice, and
    every request not answered yet is owned by a connection that is not closed: it
    waits there for a stream or is on one.  So when every connection has ended,
    every request has been answered. *)
Theorem h3_client_exactly_once s : rtc step NewClient s ->
  let w := world s in
  NoDup (answers w).*1 /\ (forall r, r ∈ (answers w).*1 -> 0 <= r < nextReq w) /\
  (forall r, 0 <= r < nextReq w -> r ∈ (answers w).*1 \/ waits w r \/ sent w r) /\
  ((forall k x, ccs w !! k = Some x -> cc_closed x = true) -> forall r, 0 <= r < nextReq w -> r ∈ (answers w).*1).
Proof.
  intros R. cbn zeta. pose proof (reachable_owned s R) as O.
  assert (Hheld : forall r, 0 <= r < nextReq (world s) -> r ∈ (answers (world s)).*1 \/ waits (world s) r \/ sent (world s) r).
  { intros r Hr. destruct (cr_done (qget r (world s))) eqn:Ed; [left; by apply (ow_answers _ _ O)|]. destruct (ow_held _ _ O r Ed) as [Hx|Hx]; [by apply elem_of_nil in Hx|by right]. }
  split_and!; [by apply (ow_once _ _ O)|intros r Hr; by apply (ow_answers _ _ O)|done|]. intros Hall r Hr.
  destruct (Hheld r Hr) as [Ha|[(k & x & E1 & E2 & _)|(k & x & i & t & E1 & E2 & _)]]; [done|specialize (Hall k x E1); congruence|specialize (Hall k x E1); congruence].
Qed.
End own.
