(* ===== verification/Http3Response.v ===== *)
(** A response over HTTP/3, from the application to the client's callback.

    What [WriteResponse] writes is a HEADERS frame, the body in one DATA frame and
    the trailers; however the stream is cut, the client reads the same response. *)
From Stdlib Require Import String.
From S2P Require Import Prelude.
From S2P Require Import Varint.
From S2P Require Import HpackTables.
From S2P Require Import Huffman.
From S2P Require Import Hpack.
From S2P Require Import Qpack.
From S2P Require Import GoText.
From S2P Require Import HttpWriter.
From S2P Require Import Http2Server.
From S2P Require Import Http3Frames.
From S2P Require Import Http3Server.
From S2P Require Import Http3Inv.
From S2P Require Import Http3Request.
From S2P Require Import Http3Client.
From S2P Require Import Http3Own.

(** * Headers *)

(** Fields under their canonical names, in order. *)
Definition header_from (h : Header) (fs : list HeaderField) : Header := fold_left (fun h f => add_values (CanonicalMIMEHeaderKey (Name f)) [Value f] h) fs h.
Definition header_of : list HeaderField -> Header := header_from ∅.

Definition values_of (key : bytes) (fs : list HeaderField) : list bytes := Value <$> filter (fun f => CanonicalMIMEHeaderKey (Name f) = key) fs.

Lemma add_values_lookup k vs (h : Header) j : add_values k vs h !! j = if decide (k = j) then Some (default [] (h !! k) ++ vs) else h !! j.
Proof. unfold add_values. destruct (decide (k = j)) as [<-|Hn]; [apply (lookup_insert_eq (M := gmap bytes))|by apply (lookup_insert_ne (M := gmap bytes))]. Qed.

Lemma header_from_lookup fs h key :
  header_from h fs !! key = match values_of key fs with [] => h !! key | vs => Some (default [] (h !! key) ++ vs) end.
Proof.
  revert h. induction fs as [|f fs IH]; intros h; [done|]. unfold header_from in *. cbn [fold_left]. rewrite IH, add_values_lookup. unfold values_of. rewrite filter_cons.
  destruct (decide (CanonicalMIMEHeaderKey (Name f) = key)) as [<-|Hn]; [|done]. cbn [fmap list_fmap default from_option id]. destruct (Value <$> filter _ fs) as [|v vs]; [done|]. by rewrite <- (assoc_L (++)).
Qed.

(** Each key holds the values sent under it, in order. *)
Lemma header_of_lookup fs key : header_of fs !! key = match values_of key fs with [] => None | vs => Some vs end.
Proof. unfold header_of. rewrite header_from_lookup. change ((∅ : Header) !! key) with (@None (list bytes)). by destruct (values_of key fs). Qed.

Lemma header_from_nil h fs : header_from h fs = ∅ -> h = ∅ /\ fs = [].
Proof.
  intros E. destruct fs as [|f fs]; [done|]. exfalso. assert (Hl : header_from h (f :: fs) !! CanonicalMIMEHeaderKey (Name f) = None) by by rewrite E.
  rewrite header_from_lookup in Hl. unfold values_of in Hl. rewrite filter_cons, decide_True in Hl by done. done.
Qed.

(** A regular field as a receiver takes it. *)
Definition regular_ok (f : HeaderField) : Prop := is_prefix [58] (Name f) = false /\ validName (Name f) = true /\ Name f ∉ connectionHeaders.

Lemma response_loop_regular fs status h : Forall regular_ok fs -> response_loop fs status h = Some (status, header_from h fs).
Proof.
  intros Hf. revert h. induction Hf as [|f fs (H1 & H2 & H3) Hf IH]; intros h; [done|]. cbn [response_loop]. rewrite H1, H2, bool_decide_eq_false_2 by done. apply IH.
Qed.

Lemma trailer_fields_ok fs h : Forall regular_ok fs -> Forall (fun f => validValue (Value f) = true) fs -> trailer_fields fs h = Some (header_from h fs).
Proof.
  intros Hf. revert h. induction Hf as [|f fs (H1 & H2 & H3) Hf IH]; intros h Hv; [done|]. apply Forall_cons in Hv as [Hv1 Hv]. cbn [trailer_fields]. rewrite H1, H2, Hv1, bool_decide_eq_false_2 by done. by apply IH.
Qed.

(** * The fields of a response *)

Section response.
Context (unicode_lower : bytes -> bytes).

Definition response_fields (r : Response) : list (HeaderField * bool) :=
  [(Field (str ":status") (FormatInt (StatusCode r) 10), false)] ++
  (if negb (StatusCode r =? 204) && negb (StatusCode r =? 304) then [(Field (str "content-length") (FormatInt (len (rBody r)) 10), false)] else []) ++
  sent_fields unicode_lower (fun name => bool_decide (name = str "content-length")) (rHeader r).

Lemma appendHeader_fields skip header block : appendHeader unicode_lower block header skip = append_lines (sent_fields unicode_lower skip header) block.
Proof.
  revert block. induction header as [|[key values] header IH]; intros block; [done|]. unfold appendHeader in *. cbn [fold_left]. rewrite IH. unfold sent_fields. cbn [fmap list_fmap mjoin list_join].
  unfold append_lines. rewrite fold_left_app. f_equal. destruct (_ || _); [done|]. clear. revert block. induction values as [|v values IH]; intros block; [done|]. cbn [fmap list_fmap fold_left fst snd Name Value]. apply IH.
Qed.

Lemma append_encode fs : append_lines fs Prefix = encode_section fs.
Proof. done. Qed.

(** The bytes of a response are those fields, its body and its trailers. *)
Lemma response_frames head r : response_bytes unicode_lower head r =
  request_bytes (response_fields r) (if bodyAllowed head (StatusCode r) && (0 <? len (rBody r)) then [(frameData, rBody r)] else [])
    (if bodyAllowed head (StatusCode r) && (0 <? len (rTrailer r)) && (len Prefix <? len (encode_section (sent_trailers unicode_lower (rTrailer r)))) then Some (sent_trailers unicode_lower (rTrailer r)) else None).
Proof.
  unfold response_bytes, request_bytes. rewrite !appendHeader_fields, append_encode.
  assert (Eb : append_lines (sent_fields unicode_lower (fun name => bool_decide (name = str "content-length")) (rHeader r))
    (if negb (StatusCode r =? 204) && negb (StatusCode r =? 304) then AppendField (AppendField Prefix (str ":status") (FormatInt (StatusCode r) 10) false) (str "content-length") (FormatInt (len (rBody r)) 10) false
     else AppendField Prefix (str ":status") (FormatInt (StatusCode r) 10) false) = encode_section (response_fields r)).
  { unfold response_fields, encode_section. rewrite !fold_left_app. by destruct (negb _ && negb _). }
  rewrite Eb. set (hd := appendHeadersFrame [] (encode_section (response_fields r))). set (tb := encode_section (sent_trailers _ _)).
  assert (Ed : forall out body, appendFrameHeader out frameData (len body) ++ body = out ++ enc_frame (frameData, body)).
  { intros out body. unfold enc_frame, appendFrameHeader. cbn [fst snd]. rewrite (AppendVarint_app (AppendVarint out _)), (AppendVarint_app out), (AppendVarint_app (AppendVarint [] _)). by rewrite <- !(assoc_L (++)). }
  assert (Eh : forall out block, appendHeadersFrame out block = out ++ appendHeadersFrame [] block).
  { intros out block. unfold appendHeadersFrame, appendFrameHeader. rewrite (AppendVarint_app (AppendVarint out _)), (AppendVarint_app out), (AppendVarint_app (AppendVarint [] _)). by rewrite <- !(assoc_L (++)). }
  destruct (bodyAllowed head (StatusCode r)) eqn:Ea; cbn [andb].
  - rewrite Ed. destruct (0 <? len (rBody r)), (0 <? len (rTrailer r)), (len Prefix <? len tb); cbn [andb fmap list_fmap mjoin list_join List.app]; try rewrite (Eh (hd ++ _) tb); try rewrite (Eh hd tb); rewrite ?app_nil_r, <- ?(assoc_L (++)); done.
  - change (0 <? len []) with false. cbn [fmap list_fmap mjoin list_join List.app]. by rewrite app_nil_r.
Qed.

(** ** Names *)

(** Letters are not upper case in a valid name, and so its canonical form gives it back. *)
Lemma canonical_lower b s : forallb (fun c => negb ((65 <=? c) && (c <=? 90))) s = true -> lower <$> canonical b s = s.
Proof.
  revert b. induction s as [|c s IH]; intros b Hs; [done|]. cbn [forallb] in Hs. apply andb_true_iff in Hs as [Hc%negb_true_iff Hs]. cbn [canonical fmap list_fmap]. rewrite IH by done. f_equal.
  rewrite <- andb_assoc. destruct b; cbn [andb negb].
  - destruct (Z.leb_spec 97 c), (Z.leb_spec c 122); cbn [andb]; unfold lower; rewrite ?Hc; try done. destruct (Z.leb_spec 65 (c - 32)), (Z.leb_spec (c - 32) 90); cbn [andb]; lia.
  - rewrite Hc. unfold lower. by rewrite Hc.
Qed.

Lemma valid_lower first s : valid_bytes first s = true -> forallb (fun c => negb ((65 <=? c) && (c <=? 90))) s = true.
Proof.
  revert first. induction s as [|c s IH]; intros first; [done|]. cbn [valid_bytes forallb]. intros [Hc Hs]%andb_true_iff. rewrite (IH false Hs), andb_true_r.
  apply negb_true_iff in Hc. apply orb_false_iff in Hc as [[[Hc _]%orb_false_iff _]%orb_false_iff _]. by rewrite Hc.
Qed.

Lemma valid_canonical s : validName s = true -> lower <$> CanonicalMIMEHeaderKey s = s.
Proof.
  intros [_ Hs]%andb_true_iff. apply valid_lower in Hs. unfold CanonicalMIMEHeaderKey. destruct (forallb token_byte s); [by apply canonical_lower|].
  clear -Hs. induction s as [|c s IH]; [done|]. cbn [forallb] in Hs. apply andb_true_iff in Hs as [Hc%negb_true_iff Hs]. cbn [fmap list_fmap]. rewrite IH by done. unfold lower. by rewrite Hc.
Qed.

(** Valid names are told apart by their canonical forms. *)
Lemma valid_canonical_inj s s' : validName s = true -> validName s' = true -> CanonicalMIMEHeaderKey s = CanonicalMIMEHeaderKey s' -> s = s'.
Proof. intros H H' E. rewrite <- (valid_canonical s), <- (valid_canonical s') by done. by rewrite E. Qed.

(** ** The response *)

Definition status_body (r : Response) : bool := negb (StatusCode r =? 204) && negb (StatusCode r =? 304).

(** What the client makes of a response's fields. *)
Definition received_head (r : Response) : ClientResponse :=
  MkClientResponse (StatusCode r) (header_of (tail (response_fields r)).*1) (if status_body r then len (rBody r) else -1).

Lemma status_text n : 200 <= n <= 999 -> ParseInt (FormatInt n 10) 10 = Some n /\ len (FormatInt n 10) = 3.
Proof.
  intros Hn. assert (F : forallb (fun n => bool_decide (ParseInt (FormatInt n 10) 10 = Some n) && (len (FormatInt n 10) =? 3)) (seqZ 200 800) = true) by (vm_compute; reflexivity).
  rewrite forallb_forall in F. specialize (F n). rewrite <- list_elem_of_In, elem_of_seqZ in F. specialize (F ltac:(lia)). apply andb_true_iff in F as [F1%bool_decide_eq_true F2%Z.eqb_eq]. done.
Qed.

Definition header_ok (r : Response) : Prop := Forall (fun f => regular_ok f.1 /\ Name f.1 <> str "content-length") (sent_fields unicode_lower (fun name => bool_decide (name = str "content-length")) (rHeader r)).

Lemma newResponse_fields r : 200 <= StatusCode r <= 999 -> len (rBody r) < 2 ^ 63 -> header_ok r -> newResponse (response_fields r).*1 = Some (Some (received_head r)).
Proof.
  intros Hs Hb Hh. unfold header_ok in Hh. destruct (status_text _ Hs) as [T1 T2]. unfold received_head, response_fields. fold (status_body r). set (hdr := sent_fields _ _ _) in *. set (cl := if status_body r then _ else _).
  assert (Hreg : Forall regular_ok (cl ++ hdr).*1).
  { rewrite fmap_app. apply Forall_app. split; [unfold cl; destruct (status_body r); [apply Forall_singleton; vm_compute; split_and!; [done|done|intros HH; repeat (apply elem_of_cons in HH as [?|HH]; [done|]); by apply elem_of_nil in HH]|apply Forall_nil_2]|].
    apply Forall_fmap. eapply Forall_impl; [exact Hh|]. by intros f [? _]. }
  unfold newResponse. cbn [List.app fmap list_fmap fst tail]. cbn [response_loop Name Value]. change (is_prefix [58] (str ":status")) with true. cbn iota. rewrite (bool_decide_eq_true_2 (str ":status" = str ":status")) by done.
  rewrite bool_decide_eq_true_2 by done. rewrite bool_decide_eq_true_2 by done. cbn [negb orb]. rewrite response_loop_regular by exact Hreg. cbn beta iota. fold (header_of (cl ++ hdr).*1). cbn [mbind option_bind]. rewrite T1, T2.
  change (negb (3 =? 3)) with false. cbn [orb]. destruct (Z.ltb_spec (StatusCode r) 100); [lia|]. destruct (Z.ltb_spec (StatusCode r) 200); [lia|].
  assert (Hget : Get (header_of (cl ++ hdr).*1) (str "Content-Length") = if status_body r then FormatInt (len (rBody r)) 10 else []).
  { unfold Get. rewrite header_of_lookup. unfold cl. destruct (status_body r).
    - unfold values_of. cbn [List.app fmap list_fmap fst]. rewrite filter_cons, decide_True by (vm_compute; reflexivity). done.
    - assert (E0 : values_of (str "Content-Length") hdr.*1 = []); [|cbn [List.app]; by rewrite E0]. unfold values_of. enough (E1 : filter (fun f => CanonicalMIMEHeaderKey (Name f) = str "Content-Length") hdr.*1 = []) by by rewrite E1. clear -Hh. clearbody hdr. induction Hh as [|f fs [(_ & Hv & _) Hn] _ IH]; [done|].
      cbn [fmap list_fmap fst]. rewrite filter_cons, decide_False; [exact IH|]. intros E. apply Hn. apply valid_canonical_inj; [done|by vm_compute|]. rewrite E. by vm_compute. }
  rewrite Hget. pose proof (len_nonneg (rBody r)). destruct (status_body r) eqn:Eb.
  - destruct (ParseInt_FormatInt (len (rBody r)) ltac:(lia)) as (P1 & P2 & _). rewrite bool_decide_eq_false_2 by done. rewrite P1. destruct (Z.ltb_spec (len (rBody r)) 0); [lia|done].
  - done.
Qed.
End response.

(** * The client's stream *)

Section read.
Context {Q : Type} `{Opener Q}.
Abbreviation World := (Client Q).
Context (unicode_lower : bytes -> bytes) (connKey : OutRequest -> bytes) (cfg : clientConfig) (range : gset Z -> list Z).
Abbreviation onData := (Http3Client.onData (Q := Q) cfg).
Abbreviation onFrame := (Http3Client.onFrame (Q := Q) cfg).
Abbreviation feed := (Http3Client.feed (Q := Q) cfg).
Implicit Types (w : World) (k i : Z) (s : h3Client Q).

Lemma sget_sput k i t w : sget k i (sput k i t w) = t.
Proof. unfold sget, sput. rewrite kget_same. cbn. by rewrite lookup_insert_eq. Qed.

Lemma sput_sput k i t t' w : sput k i t (sput k i t' w) = sput k i t w.
Proof. unfold sput. rewrite kget_same, kput_kput. cbn. by rewrite insert_insert_eq. Qed.

Definition at_stream k i (t : clientStream) w : Prop := exists x, ccs w !! k = Some x /\ cc_ctx x !! i = Some t.

Lemma at_sget k i t w : at_stream k i t w -> sget k i w = t.
Proof. intros (x & E1 & E2). unfold sget. by rewrite (kget_at _ _ _ E1), E2. Qed.

Lemma at_sput k i t t' w : at_stream k i t w -> at_stream k i t' (sput k i t' w).
Proof. intros (x & E1 & E2). unfold sput. eexists. split; [apply lookup_insert_eq|]. cbn. apply lookup_insert_eq. Qed.

Lemma sput_same k i t w : at_stream k i t w -> sput k i t w = w.
Proof. intros (x & E1 & E2). unfold sput, kput. rewrite (kget_at _ _ _ E1), (insert_id _ _ _ E2). destruct w. cbn in *. rewrite insert_id; [done|]. rewrite E1. by destruct x. Qed.

(** The steps of a stream's end leave what is known of streams alone. *)
Lemma ctx_kput k k' x w : cc_ctx x = cc_ctx (kget k w) -> cc_ctx (kget k' (kput k x w)) = cc_ctx (kget k' w).
Proof. intros E. rewrite kget_kput. by destruct (decide (k = k')) as [<-|]. Qed.

Lemma ctx_finish k r o w : cc_ctx (kget k (finish r o w).2) = cc_ctx (kget k w).
Proof. unfold finish. by destruct (cr_done _). Qed.

Lemma ctx_streamDone k i w : cc_ctx (kget k (streamDone cfg k i w)) = cc_ctx (kget k w).
Proof.
  unfold streamDone. set (w1 := kput k _ w). assert (E1 : cc_ctx (kget k w1) = cc_ctx (kget k w)) by by apply ctx_kput. destruct (negb _); [done|].
  destruct (_ || _); [unfold closeIfIdle; destruct (idle k w1); [unfold with_qc; by rewrite ctx_kput|done]|]. destruct (_ && _); [by rewrite ctx_kput|done].
Qed.

Lemma fail_done k i e w : t_done (sget k i (fail cfg k i e w)) = true.
Proof.
  unfold fail, sget at 1. rewrite ctx_finish. unfold cancel. rewrite ctx_streamDone. unfold abortStream, with_qc. rewrite ctx_kput by done.
  fold (sget k i (sput k i (sget k i w <| t_done := true |> <| t_body := [] |>) w)). by rewrite sget_sput.
Qed.

Lemma client_splittable k i : splittable (onData k i).
Proof.
  intros a b w _ _. unfold Http3Client.onData. destruct (t_done (sget k i w)) eqn:Ed; [by rewrite Ed|]. destruct (bool_decide (t_resp (sget k i w) = None)) eqn:Er; cbn [orb]; [done|]. destruct (t_trailers (sget k i w)) eqn:Et; [done|].
  rewrite !len_app. pose proof (len_nonneg b). destruct (Z.ltb_spec (MaxResponseBodyBytes cfg) (len (t_body (sget k i w)) + len a)) as [Ha|Ha].
  - destruct (Z.ltb_spec (MaxResponseBodyBytes cfg) (len (t_body (sget k i w)) + (len a + len b))) as [|]; [|lia]. by rewrite fail_done.
  - rewrite sget_sput. cbn. rewrite Ed, Er, Et. cbn [orb]. rewrite len_app, Z.add_assoc. destruct (Z.ltb_spec (MaxResponseBodyBytes cfg) (len (t_body (sget k i w)) + len a + len b)) as [Hb|Hb].
    + f_equal. unfold fail. rewrite !sget_sput, !sput_sput. done.
    + f_equal. rewrite sput_sput. by rewrite <- (assoc_L (++)).
Qed.

Definition parser_at k i s : frameParser := default (client_parser cfg) (k_parsers s !! (k, i)).

Definition fed_client k i (fin : bool) (x : frameParser * World * option h3_error) s : h3Client Q :=
  let '(p, w, err) := x in
  let s := s <| k_parsers := <[(k, i) := p]> (k_parsers s) |> in
  match err with
  | Some (connErr _ _ as e) => s <| world := close_with k e w |>
  | Some decompressionErr => s <| world := fail cfg k i errDecompression w |>
  | None =>
      if negb fin || t_done (sget k i w) then s <| world := w |>
      else if midFrame p then s <| world := close_with k (connErr ErrCodeFrameError (str "response stream ended inside a frame")) w |>
      else s <| world := complete cfg k i w |>
  end.

Lemma client_fed k i : fed (onData k i) (onFrame k i) (fun w => t_done (sget k i w)) (parser_at k i) world (fun p w s => MkH3Client Q (<[(k, i) := p]> (k_parsers s)) (k_unis s) (k_peers s) w) (fed_client k i).
Proof.
  split.
  - apply client_splittable.
  - intros d w Hd. unfold Http3Client.onData. by rewrite Hd.
  - intros t d w Hd. unfold Http3Client.onFrame. by rewrite Hd.
  - intros p w s. unfold parser_at. cbn [k_parsers]. by rewrite lookup_insert_eq.
  - done.
  - by intros p w [].
  - intros fin [[p w] err] p' w' [ps us qs w0]. unfold fed_client. cbn. destruct err as [[]|]; [by rewrite insert_insert_eq..|]. destruct (_ || _); [by rewrite insert_insert_eq|]. destruct (midFrame p); by rewrite insert_insert_eq.
Qed.

Lemma feed_at k i data fin s : feed k i data fin s = feed_with (onData := onData k i) (onFrame := onFrame k i) (over := fun w => t_done (sget k i w)) (parser_of := parser_at k i) (state_of := world) (then_ := fed_client k i) data fin s.
Proof. done. Qed.

(** ** A response *)

Definition trailers_sent (head : bool) (r : Response) : bool :=
  bodyAllowed head (StatusCode r) && (0 <? len (rTrailer r)) && (len Prefix <? len (encode_section (sent_trailers unicode_lower (rTrailer r)))).

(** A response this client reads: its sections within the limits, and its names and trailers ones that may be received. *)
Record readable (head : bool) (r : Response) : Prop := {
  rd_status : 200 <= StatusCode r <= 999;
  rd_header : header_ok unicode_lower r;
  rd_section : section_ok (MaxResponseHeaderBytes cfg) (response_fields unicode_lower r);
  rd_body : len (rBody r) <= MaxResponseBodyBytes cfg;
  rd_bytes : len (rBody r) <= maxVarint;
  rd_trailers : trailers_sent head r = true ->
    section_ok (MaxResponseHeaderBytes cfg) (sent_trailers unicode_lower (rTrailer r)) /\ Forall (fun f => regular_ok f.1 /\ validValue (Value f.1) = true) (sent_trailers unicode_lower (rTrailer r));
}.

Definition received_body (head : bool) (r : Response) : bytes := if bodyAllowed head (StatusCode r) then rBody r else [].

Definition received_trailer (head : bool) (r : Response) : option Header :=
  if trailers_sent head r then Some (header_of (sent_trailers unicode_lower (rTrailer r)).*1) else None.

Lemma client_headers k i rid r w : 200 <= StatusCode r <= 999 -> len (rBody r) <= maxVarint -> header_ok unicode_lower r -> section_ok (MaxResponseHeaderBytes cfg) (response_fields unicode_lower r) ->
  at_stream k i (MkClientStream rid None None [] false false) w ->
  onFrame k i frameHeaders (encode_section (response_fields unicode_lower r)) w = (sput k i (MkClientStream rid (Some (received_head unicode_lower r)) None [] false false) w, None).
Proof.
  intros Hs Hb Hh (Hf & Ha & _) At. unfold Http3Client.onFrame. rewrite (at_sget _ _ _ _ At). cbn [t_done t_trailers t_resp]. change (frameHeaders =? frameHeaders) with true. cbn beta iota.
  rewrite decode_section by done. rewrite newResponse_fields; [done|done|unfold maxVarint in Hb; lia|done].
Qed.

Lemma client_trailers k i t0 resp t w : section_ok (MaxResponseHeaderBytes cfg) t -> Forall (fun f => regular_ok f.1 /\ validValue (Value f.1) = true) t -> t_done t0 = false -> t_trailers t0 = false -> t_resp t0 = Some resp ->
  at_stream k i t0 w -> onFrame k i frameHeaders (encode_section t) w = (sput k i (t0 <| t_trailer := Some (header_of t.*1) |> <| t_trailers := true |>) w, None).
Proof.
  intros (Hf & Ha & _) Ht D1 D2 D3 At. unfold Http3Client.onFrame. rewrite (at_sget _ _ _ _ At), D1, D2, D3. change (frameHeaders =? frameHeaders) with true. cbn beta iota.
  rewrite decode_section by done. unfold trailerFrom. rewrite trailer_fields_ok; [done| |]; apply Forall_fmap; (eapply Forall_impl; [exact Ht|]); by intros f [? ?].
Qed.

Lemma client_data k i t0 resp chunk w : t_done t0 = false -> t_trailers t0 = false -> t_resp t0 = Some resp -> len (t_body t0) + len chunk <= MaxResponseBodyBytes cfg -> at_stream k i t0 w ->
  onData k i chunk w = (sput k i (t0 <| t_body := t_body t0 ++ chunk |>) w, None).
Proof.
  intros D1 D2 D3 Hl At. unfold Http3Client.onData. rewrite (at_sget _ _ _ _ At), D1, D2, D3. rewrite bool_decide_eq_false_2 by done. cbn [orb]. by destruct (Z.ltb_spec (MaxResponseBodyBytes cfg) (len (t_body t0) + len chunk)); [lia|].
Qed.

(** What is known of the stream when the response has been read. *)
Definition read_whole (rid : Z) (head : bool) (r : Response) : clientStream :=
  MkClientStream rid (Some (received_head unicode_lower r)) (received_trailer head r) (received_body head r) (trailers_sent head r) false.

Lemma parse_response k i rid head r w : MaxResponseHeaderBytes cfg <= maxVarint -> readable head r -> bytes_ok (response_bytes unicode_lower head r) ->
  at_stream k i (MkClientStream rid None None [] false false) w ->
  parse (onData k i) (onFrame k i) (MaxResponseHeaderBytes cfg) (response_bytes unicode_lower head r) 0 w = (Some [], 0, sput k i (read_whole rid head r) w, None).
Proof.
  intros Hmx [R1 R2 R3 R4 R5 R6] Hb At. rewrite response_frames in *. fold (trailers_sent head r) in *. unfold request_bytes in *. unfold appendHeadersFrame at 1. unfold appendHeadersFrame at 1 in Hb. rewrite <- (assoc_L (++)) in *.
  apply Forall_app in Hb as [_ [Hb1 Hb2]%Forall_app]. pose proof R3 as (_ & _ & Hlen). rewrite parse_frame by (done || lia || (unfold frameHeaders, maxVarint; lia)).
  rewrite (client_headers k i rid r w) by done. cbn beta iota. set (t1 := MkClientStream rid (Some (received_head unicode_lower r)) None [] false false). set (w1 := sput k i t1 w). assert (A1 : at_stream k i t1 w1) by by eapply at_sput.
  set (rest := match _ with Some t => _ | None => [] end) in *. apply Forall_app in Hb2 as [Hb2 Hb3]. set (t2 := t1 <| t_body := received_body head r |>).
  assert (P2 : parse (onData k i) (onFrame k i) (MaxResponseHeaderBytes cfg) (mjoin (enc_frame <$> (if bodyAllowed head (StatusCode r) && (0 <? len (rBody r)) then [(frameData, rBody r)] else [])) ++ rest) 0 w1 =
    parse (onData k i) (onFrame k i) (MaxResponseHeaderBytes cfg) rest 0 (sput k i t2 w)).
  { unfold t2, received_body. destruct (bodyAllowed head (StatusCode r)); cbn [andb]; [|cbn; done]. destruct (Z.ltb_spec 0 (len (rBody r))) as [Hpos|Hz].
    - cbn [fmap list_fmap mjoin list_join andb] in *. unfold enc_frame in *. cbn [fst snd] in *. rewrite app_nil_r in *. rewrite <- (assoc_L (++)). apply Forall_app in Hb2 as [_ Hb2].
      rewrite parse_data; [|intros E; rewrite E in Hpos; change (len (@nil Z)) with 0 in Hpos; lia|done|done|done].
      rewrite (client_data k i t1 (received_head unicode_lower r) []) by (done || (change (len (@nil Z)) with 0; cbn [t1 t_body]; change (len (@nil Z)) with 0; lia)).
      change (t1 <| t_body := t_body t1 ++ [] |>) with t1. rewrite (sput_same k i t1 w1) by done. rewrite (client_data k i t1 (received_head unicode_lower r) (rBody r)) by (done || (cbn [t1 t_body]; change (len (@nil Z)) with 0; lia)).
      unfold w1. rewrite sput_sput. done.
    - assert (rBody r = []) as -> by (apply len_zero_nil; pose proof (len_nonneg (rBody r)); lia). done. }
  rewrite P2. set (w2 := sput k i t2 w). assert (A2 : at_stream k i t2 w2) by by eapply at_sput. unfold read_whole, received_trailer. unfold rest. destruct (trailers_sent head r) eqn:Et.
  - destruct (R6 eq_refl) as [S1 S2]. pose proof S1 as (_ & _ & Hlt). unfold rest in Hb3. unfold appendHeadersFrame in Hb3 |- *. apply Forall_app in Hb3 as [_ Hb3].
    rewrite <- (app_nil_r (appendFrameHeader [] frameHeaders (len (encode_section (sent_trailers unicode_lower (rTrailer r)))) ++ encode_section (sent_trailers unicode_lower (rTrailer r)))). rewrite <- (assoc_L (++)).
    rewrite parse_frame by (done || lia || (unfold frameHeaders, maxVarint; lia) || apply Forall_nil_2). rewrite (client_trailers k i t2 (received_head unicode_lower r)) by done. rewrite parse_nil. unfold w2. rewrite sput_sput. done.
  - rewrite parse_nil. done.
Qed.

Lemma streamDone_answers k i w : answers (streamDone cfg k i w) = answers w.
Proof. unfold streamDone, closeIfIdle. destruct (negb _); [done|]. destruct (_ || _); [by destruct (idle _ _)|]. by destruct (_ && _). Qed.

Lemma complete_read k i rid r w : cr_done (qget rid w) = false -> let head := cr_head (qget rid w) in
  answers (complete cfg k i (sput k i (read_whole rid head r) w)) = answers w ++ [(rid, Success (MkIn (received_head unicode_lower r) (received_body head r) (received_trailer head r)))].
Proof.
  intros Hd. cbn zeta. set (head := cr_head (qget rid w)). unfold complete. rewrite sget_sput. cbn [read_whole t_resp t_req t_body t_trailer]. set (w1 := sput k i _ _).
  change (qget rid w1) with (qget rid w). fold head. unfold received_head at 1 2 3 4 5. cbn [c_status c_length c_header].
  assert (Ea : bodyAllowed head (StatusCode r) = true -> status_body r = true /\ received_body head r = rBody r).
  { intros Ha. unfold received_body. rewrite Ha. split; [|done]. unfold bodyAllowed in Ha. unfold status_body. destruct (negb (StatusCode r =? 204)), (negb (StatusCode r =? 304)), head; done. }
  assert (Hfin : forall resp w2, reqs w2 = reqs w -> answers w2 = answers w -> answers (finish rid (Success resp) w2).2 = answers w ++ [(rid, Success resp)]).
  { intros resp w2 E1 E2. unfold finish, qget. rewrite E1. fold (qget rid w). rewrite Hd. cbn. by rewrite E2. }
  destruct (bodyAllowed head (StatusCode r)) eqn:Eb.
  - destruct (Ea eq_refl) as [Es ->]. rewrite Es, Z.eqb_refl, andb_false_r. rewrite Hfin by (rewrite ?streamDone_reqs, ?streamDone_answers; done). unfold received_head. by rewrite Es.
  - cbn [andb]. rewrite Hfin by (rewrite ?streamDone_reqs, ?streamDone_answers; done). done.
Qed.

(** ** The stream *)

Definition client_stream k i (pieces : list bytes) s : h3Client Q :=
  OnStreamData cfg range k i [] true (fold_left (fun s d => OnStreamData cfg range k i d false s) pieces s).

Lemma on_client k i data fin s : is_Some (cc_ctx (kget k (world s)) !! i) -> OnStreamData cfg range k i data fin s = feed k i data fin s.
Proof. intros [t Et]. unfold OnStreamData. by rewrite Et. Qed.

Lemma client_stream_feed k i r pieces s : owned [] (world s) -> on_stream k i r (world s) -> client_stream k i pieces s = feed k i [] true (fold_left (fun s d => feed k i d false s) pieces s).
Proof.
  unfold client_stream. assert (Hc : forall s, on_stream k i r (world s) -> is_Some (cc_ctx (kget k (world s)) !! i)) by (intros s0 (x & t & E1 & E2 & _); rewrite (kget_at _ _ _ E1); by exists t).
  revert s. induction pieces as [|d ds IH]; intros s O S; cbn [fold_left]; [by rewrite on_client by by apply Hc|].
  destruct (feed_passes cfg k i r d false s S O) as [O1 G1]. rewrite (on_client k i d false s) by by apply Hc. apply IH; [done|]. by eapply on_stream_grows.
Qed.

Hypothesis range_perm : forall m, range m ≡ₚ elements m.

(** C11: a response arrives at the HTTP/3 client as the application gave it.  In
    any state the client may be in, with a request on a stream, the bytes
    [WriteResponse] makes, cut into any pieces, are read as the status, the fields
    under their canonical names, the body and the trailers of the response; the
    request's callback is called with them, once, and the length it is told is the
    body's. *)
Theorem h3_response_arrives k i rid r pieces s : rtc (step cfg range unicode_lower connKey) NewClient s -> 0 <= MaxResponseHeaderBytes cfg <= maxVarint ->
  at_stream k i (MkClientStream rid None None [] false false) (world s) -> k_parsers s !! (k, i) = None -> cr_done (qget rid (world s)) = false ->
  readable (cr_head (qget rid (world s))) r -> Forall bytes_ok pieces -> mjoin pieces = response_bytes unicode_lower (cr_head (qget rid (world s))) r ->
  let s' := client_stream k i pieces s in let head := cr_head (qget rid (world s)) in
  answers (world s') = answers (world s) ++ [(rid, Success (MkIn (received_head unicode_lower r) (received_body head r) (received_trailer head r)))].
Proof.
  intros R Hmx At Hp Hd Rd Hb Ej. cbn zeta. set (head := cr_head (qget rid (world s))) in *. assert (O : owned [] (world s)) by by eapply reachable_owned.
  assert (S : on_stream k i rid (world s)) by (destruct At as (x & E1 & E2); eexists x, _; split_and!; [done|done|done]). rewrite (client_stream_feed k i rid) by done.
  assert (Ep : parser_at k i s = FrameParser [] 0 (MaxResponseHeaderBytes cfg)) by (unfold parser_at; rewrite Hp; unfold client_parser; cbn; unfold maxVarint in Hmx; by rewrite u64_small by lia).
  pose proof (parse_response k i rid head r (world s) ltac:(lia) Rd ltac:(rewrite <- Ej; by apply Forall_join) At) as P. rewrite <- Ej in P.
  assert (Ef : feed k i [] true (fold_left (fun s d => feed k i d false s) pieces s) = feed k i (mjoin pieces) true s).
  { apply (fed_pieces (client_fed k i) pieces s [] 0 (sput k i (read_whole rid head r) (world s))); [by rewrite Ep|done|by rewrite (at_sget _ _ _ _ At)|by rewrite Ep|by rewrite sget_sput]. }
  rewrite Ef. unfold Http3Client.feed. rewrite (at_sget _ _ _ _ At). cbn [t_done]. fold (parser_at k i s). rewrite Ep. unfold feed_frames. cbn [pbuf maxFrame dataLeft List.app].
  fold (parse (onData k i) (onFrame k i) (MaxResponseHeaderBytes cfg) (mjoin pieces) 0 (world s)). rewrite P. cbn [negb orb]. rewrite sget_sput. cbn [read_whole t_done default from_option id].
  change (midFrame (FrameParser [] 0 (MaxResponseHeaderBytes cfg))) with false. cbn beta iota. cbn [world]. by apply complete_read.
Qed.
End read.
