(* ===== verification/Http3Exchange.v ===== *)
(** A request of the HTTP/3 client as the HTTP/3 server understands it: what
    [requestFields] lists and [send] writes is what [newRequest] and Http3Request's
    frames are about. *)
From Stdlib Require Import String.
From S2P Require Import Prelude.
From S2P Require Import Varint.
From S2P Require Import HpackTables.
From S2P Require Import Huffman.
From S2P Require Import Hpack.
From S2P Require Import Qpack.
From S2P Require Import GoText.
From S2P Require Import HttpWriter.
From S2P Require Import Http2Frame.
From S2P Require Import Http2Server.
From S2P Require Import Http3Frames.
From S2P Require Import Http3Server.
From S2P Require Import Http3Request.
From S2P Require Import Http3Client.
From S2P Require Import Http3Own.
From S2P Require Import Http3Response.

Section exchange.
Context {U : Type} (ParseRequestURI : bytes -> option U) (unicode_lower : bytes -> bytes).

(** * What the client lists *)

Definition left_out (name : bytes) : bool :=
  bool_decide (name ∈ connectionHeaders) || bool_decide (name = str "host") || bool_decide (name = str "content-length") || bool_decide (name = str "te").

(** The fields of the caller's header. *)
Definition out_lines (header : fields) : list HeaderField :=
  mjoin ((fun '(key, values) => let name := ToLower unicode_lower key in if left_out name then [] else Field name <$> values) <$> header).

Definition has_agent (header : fields) : bool :=
  existsb (fun '(key, _) => negb (left_out (ToLower unicode_lower key)) && bool_decide (ToLower unicode_lower key = str "user-agent")) header.

Lemma header_fields_spec header fs ua fs' ua' : header_fields unicode_lower header fs ua = Some (fs', ua') ->
  fs' = fs ++ out_lines header /\ ua' = ua || has_agent header /\ Forall (fun f => validName (Name f) = true /\ Name f ∉ connectionHeaders /\ left_out (Name f) = false) (out_lines header).
Proof.
  revert fs ua. induction header as [|[key values] header IH]; intros fs ua; cbn [header_fields].
  - intros [= <- <-]. rewrite app_nil_r, orb_false_r. split_and!; [done|done|apply Forall_nil_2].
  - set (name := ToLower unicode_lower key). fold (left_out name). assert (El : out_lines ((key, values) :: header) = (if left_out name then [] else Field name <$> values) ++ out_lines header) by done.
    assert (Ea : has_agent ((key, values) :: header) = negb (left_out name) && bool_decide (name = str "user-agent") || has_agent header) by done. rewrite El, Ea. destruct (left_out name) eqn:Eo.
    + intros E. apply IH in E as (-> & -> & HF). done.
    + destruct (validName name) eqn:Ev; [|done]. cbn [negb]. destruct (forallb sendableValue values); [|done]. intros E. apply IH in E as (-> & -> & HF). split_and!; [by rewrite <- (assoc_L (++))|by rewrite <- orb_assoc|].
      apply Forall_app. split; [|done]. apply Forall_fmap. apply Forall_true. intros v. cbn. split_and!; [done| |done]. apply orb_false_iff in Eo as [[[Eo _]%orb_false_iff _]%orb_false_iff _]. by apply bool_decide_eq_false in Eo.
Qed.

(** What is added to them. *)
Definition agent_line (q : OutRequest) : list HeaderField := if has_agent (oHeader q) then [] else [Field (str "user-agent") (str "Go-http-client/3")].
Definition length_line (q : OutRequest) (n : Z) : list HeaderField :=
  if 0 <? n then [Field (str "content-length") (FormatInt n 10)]
  else if bool_decide (out_method q = str "POST") || bool_decide (out_method q = str "PUT") || bool_decide (out_method q = str "PATCH") then [Field (str "content-length") (str "0")] else [].

Definition regular_lines (q : OutRequest) (n : Z) : list HeaderField := out_lines (oHeader q) ++ agent_line q ++ length_line q n.

Lemma requestFields_spec q n fs : out_method q <> str "CONNECT" -> requestFields unicode_lower q n = Some fs ->
  fs = [Field (str ":method") (out_method q); Field (str ":scheme") (str "https"); Field (str ":authority") (out_host q); Field (str ":path") (uri q)] ++ regular_lines q n /\
  out_method q <> [] /\ Forall (fun f => validName (Name f) = true /\ Name f ∉ connectionHeaders /\ left_out (Name f) = false) (out_lines (oHeader q)).
Proof.
  intros Hc. unfold requestFields. destruct (validMethod (out_method q)) eqn:Em; [|done]. cbn [negb]. rewrite bool_decide_eq_false_2 by done. destruct (header_fields _ _ _ _) as [[fs1 ua]|] eqn:Eh; [|done]. cbn [mbind option_bind].
  apply header_fields_spec in Eh as (-> & -> & HF). cbn [orb]. match goal with |- Some ?x = Some _ -> _ => intros Hq; assert (fs = x) as -> by congruence; clear Hq end. split_and!; [|intros E; rewrite E in Em; done|done].
  unfold regular_lines, agent_line, length_line. set (post := _ || bool_decide (out_method q = str "PATCH")). destruct (has_agent (oHeader q)), (0 <? n), post; rewrite ?app_nil_r; rewrite <- ?(assoc_L (++)); done.
Qed.

(** * What the server makes of them *)

Definition is_cookie (f : HeaderField) : Prop := Name f = str "cookie".
#[local] Instance is_cookie_dec f : Decision (is_cookie f) := decide (Name f = str "cookie").

Lemma fields_loop_regular fs q h cs b : Forall (fun f => regular_ok f /\ validValue (Value f) = true /\ Name f <> str "te") fs ->
  fields_loop fs q h cs b = Some (q, header_from h (filter (fun f => ~ is_cookie f) fs), cs ++ (Value <$> filter is_cookie fs)).
Proof.
  intros Hf. revert h cs b. induction Hf as [|f fs ((H1 & H2 & H3) & H4 & H5) Hf IH]; intros h cs b; [cbn; by rewrite app_nil_r|]. cbn [fields_loop]. rewrite H1, H2, H4. rewrite bool_decide_eq_false_2 by done. rewrite (bool_decide_eq_false_2 (Name f = str "te")) by done. cbn [negb orb andb].
  rewrite !filter_cons. destruct (decide (Name f = str "cookie")) as [Ec|Ec].
  - rewrite bool_decide_eq_true_2 by done. rewrite decide_False by tauto. rewrite decide_True by done. rewrite IH. cbn [fmap list_fmap]. by rewrite <- (assoc_L (++)).
  - rewrite bool_decide_eq_false_2 by done. rewrite decide_True by done. rewrite (decide_False (P := is_cookie f)) by done. by rewrite IH.
Qed.

Lemma fields_loop_line m sc a p rest :
  exists seen, fields_loop ([Field (str ":method") m; Field (str ":scheme") sc; Field (str ":authority") a; Field (str ":path") p] ++ rest) (RequestLine [] [] [] [] ∅) ∅ [] false =
  fields_loop rest (RequestLine m sc a p seen) ∅ [] false.
Proof. eexists. reflexivity. Qed.

(** The cookies, and the other fields, of the client's lines. *)
Definition cookies_of (fs : list HeaderField) : list bytes := Value <$> filter is_cookie fs.

Lemma values_of_other key fs : key <> str "Cookie" -> values_of key (filter (fun f => ~ is_cookie f) fs) = values_of key fs.
Proof.
  intros Hk. unfold values_of. f_equal. induction fs as [|f fs IH]; [done|]. rewrite (filter_cons (fun f => ~ is_cookie f)). destruct (decide (~ is_cookie f)) as [Hn|Hc]; rewrite !filter_cons.
  - destruct (decide _); [by rewrite IH|done].
  - rewrite IH, decide_False; [done|]. intros <-. apply Hk. destruct (decide (is_cookie f)) as [Ec|]; [|tauto]. rewrite Ec. by vm_compute.
Qed.

Lemma values_of_cookie fs : Forall (fun f => validName (Name f) = true) fs -> values_of (str "Cookie") (filter (fun f => ~ is_cookie f) fs) = [].
Proof.
  intros Hv. unfold values_of. enough (E : filter (fun f => CanonicalMIMEHeaderKey (Name f) = str "Cookie") (filter (fun f => ~ is_cookie f) fs) = []) by by rewrite E.
  induction Hv as [|f fs Hf Hv IH]; [done|]. rewrite (filter_cons (fun f => ~ is_cookie f)). destruct (decide (~ is_cookie f)) as [Hn|]; [|done]. rewrite filter_cons, decide_False; [done|]. intros E. apply Hn. apply valid_canonical_inj; [done|by vm_compute|]. rewrite E. by vm_compute.
Qed.

(** Fields whose values are ones a server takes, under names of their own. *)
Definition sendable_header (header : fields) : Prop := Forall (fun f => is_prefix [58] (Name f) = false /\ validValue (Value f) = true) (out_lines header).

Lemma regular_lines_ok q n : 0 <= n < 2 ^ 63 -> sendable_header (oHeader q) ->
  Forall (fun f => validName (Name f) = true /\ Name f ∉ connectionHeaders /\ left_out (Name f) = false) (out_lines (oHeader q)) ->
  Forall (fun f => regular_ok f /\ validValue (Value f) = true /\ Name f <> str "te") (regular_lines q n).
Proof.
  intros Hn Hs Ho. unfold regular_lines. rewrite !Forall_app. split_and!.
  - apply Forall_forall. intros f Hf. rewrite Forall_forall in Ho. destruct (Ho f Hf) as (A1 & A2 & A3). unfold sendable_header in Hs. rewrite Forall_forall in Hs. destruct (Hs f Hf) as [B1 B2]. split_and!; [split_and!; done|done|].
    apply orb_false_iff in A3 as [_ A3]. by apply bool_decide_eq_false in A3.
  - unfold agent_line. destruct (has_agent _); [apply Forall_nil_2|]. apply Forall_singleton. split_and!; [split_and!|..]; try (by vm_compute); refine (bool_decide_eq_false_1 _ _); by vm_compute.
  - assert (Hx : forall v, validValue v = true -> Forall (fun f => regular_ok f /\ validValue (Value f) = true /\ Name f <> str "te") [Field (str "content-length") v]).
    { intros v Hv. apply Forall_singleton. split_and!; [split_and!|done|]; try (by vm_compute); refine (bool_decide_eq_false_1 _ _); by vm_compute. }
    unfold length_line. destruct (0 <? n); [apply Hx|destruct (_ || _); [apply Hx; by vm_compute|apply Forall_nil_2]].
    destruct (ParseInt_FormatInt n Hn) as (_ & _ & Hd). set (v := FormatInt n 10) in *. clearbody v. unfold validValue.
    assert (Hc : forall c, hex_digit c = true -> c <> 0 /\ c <> 13 /\ c <> 10 /\ c <> 32 /\ c <> 9) by (intros c Hc; unfold hex_digit in Hc; lia).
    assert (Hsp : forall o, (forall c, o = Some c -> hex_digit c = true) -> space o = false).
    { intros [c|] Ho'; [|done]. destruct (Hc c (Ho' c eq_refl)) as (_ & _ & _ & C4 & C5). unfold space. destruct (Z.eqb_spec c 32), (Z.eqb_spec c 9); done. }
    rewrite !Hsp.
    + rewrite !andb_true_r. apply forallb_forall. intros c Hin. rewrite <- list_elem_of_In in Hin. rewrite Forall_forall in Hd. destruct (Hc c (Hd c Hin)) as (C1 & C2 & C3 & _). destruct (Z.eqb_spec c 0), (Z.eqb_spec c 13), (Z.eqb_spec c 10); done.
    + intros c Hl. apply last_Some in Hl as [l' ->]. apply Forall_app in Hd as [_ Hd]. by apply Forall_cons in Hd as [Hd _].
    + intros c Hl. destruct v as [|c' v]; [done|]. injection Hl as ->. by apply Forall_cons in Hd as [Hd _].
Qed.

(** ** The request *)

(** What the client writes is one HEADERS frame and at most one DATA frame. *)
Lemma send_frames fs body : send_bytes fs body = request_bytes ((fun f => (f, sensitive (Name f))) <$> fs) (if 0 <? len body then [(frameData, body)] else []) None.
Proof.
  unfold send_bytes, request_bytes. rewrite append_encode. set (hd := appendHeadersFrame [] _). destruct (0 <? len body); cbn [fmap list_fmap mjoin list_join]; rewrite ?app_nil_r; [|done].
  unfold enc_frame, appendFrameHeader. cbn [fst snd]. rewrite (AppendVarint_app (AppendVarint hd _)), (AppendVarint_app hd), (AppendVarint_app (AppendVarint [] _)). by rewrite <- !(assoc_L (++)).
Qed.

Definition lookup_values (vs : list bytes) : option (list bytes) := match vs with [] => None | v :: vs => Some (v :: vs) end.

Lemma values_of_app key a b : values_of key (a ++ b) = values_of key a ++ values_of key b.
Proof. unfold values_of. by rewrite filter_app, fmap_app. Qed.

Lemma values_of_none key fs : Forall (fun f => validName (Name f) = true) fs -> (forall f, f ∈ fs -> CanonicalMIMEHeaderKey (Name f) <> key) -> values_of key fs = [].
Proof.
  intros _ Hn. unfold values_of. enough (E : filter (fun f => CanonicalMIMEHeaderKey (Name f) = key) fs = []) by by rewrite E. induction fs as [|f fs IH]; [done|].
  rewrite filter_cons, decide_False by (apply Hn; by apply elem_of_cons; left). apply IH. intros f' Hf'. apply Hn. by apply elem_of_cons; right.
Qed.

(** The length the client announces. *)
Lemma values_of_length q n : Forall (fun f => validName (Name f) = true /\ Name f ∉ connectionHeaders /\ left_out (Name f) = false) (out_lines (oHeader q)) ->
  values_of (str "Content-Length") (regular_lines q n) = Value <$> length_line q n.
Proof.
  intros Ho. unfold regular_lines. rewrite !values_of_app. rewrite (values_of_none _ (out_lines (oHeader q))), (values_of_none _ (agent_line q)).
  - unfold length_line, values_of. destruct (0 <? n); [|destruct (_ || _)]; [|..|done]; cbn [List.app]; rewrite filter_cons, decide_True by (by vm_compute); done.
  - unfold agent_line. destruct (has_agent _); [apply Forall_nil_2|]. apply Forall_singleton. by vm_compute.
  - unfold agent_line. destruct (has_agent _); [by intros f []%elem_of_nil|]. intros f ->%list_elem_of_singleton. by vm_compute.
  - eapply Forall_impl; [exact Ho|]. by intros f [? _].
  - intros f Hf E. rewrite Forall_forall in Ho. destruct (Ho f Hf) as (A1 & _ & A3). assert (Ef : Name f = str "content-length") by (apply valid_canonical_inj; [done|by vm_compute|rewrite E; by vm_compute]). rewrite Ef in A3. by vm_compute in A3.
Qed.

(** C20: an HTTP/3 server understands what an HTTP/3 client asks.  The bytes the
    client sends for a request are one HEADERS frame and its body in one DATA
    frame, and from those fields the server builds the request the caller made: its
    method, target and host; under every canonical name but Cookie and Host the
    values the client listed, in order; the cookies joined into one; and the length
    it announces, if any, is that of the body. *)
Theorem h3_request_understood q u fs : out_method q <> str "CONNECT" -> out_host q <> [] -> uri q <> [] -> uri q <> str "*" -> ParseRequestURI (uri q) = Some u -> len (oBody q) < 2 ^ 63 ->
  sendable_header (oHeader q) -> requestFields unicode_lower q (len (oBody q)) = Some fs ->
  send_bytes fs (oBody q) = request_bytes ((fun f => (f, sensitive (Name f))) <$> fs) (if 0 <? len (oBody q) then [(frameData, oBody q)] else []) None /\
  exists req, newRequest ParseRequestURI fs = Some req /\
    Method req = out_method q /\ URL req = Parsed u /\ RequestURI req = uri q /\ Host req = out_host q /\ Trailer req = None /\
    (forall key, key <> str "Cookie" -> key <> str "Host" -> ReqHeader req !! key = lookup_values (values_of key (regular_lines q (len (oBody q))))) /\
    ReqHeader req !! str "Cookie" = (match cookies_of (regular_lines q (len (oBody q))) with [] => None | cs => Some [join (str "; ") cs] end) /\
    (announced_length req = Some (Some (len (oBody q))) \/ announced_length req = Some None /\ oBody q = []).
Proof.
  intros Hc Hh Hp Hstar Hu Hb Hs Hf. split; [apply send_frames|]. pose proof (len_nonneg (oBody q)) as Hl0. set (n := len (oBody q)) in *.
  apply requestFields_spec in Hf as (-> & Hm & Ho); [|done]. pose proof (regular_lines_ok q n ltac:(lia) Hs Ho) as Hreg. set (rg := regular_lines q n) in *.
  destruct (fields_loop_line (out_method q) (str "https") (out_host q) (uri q) rg) as [seen E1]. unfold newRequest. rewrite E1, fields_loop_regular by done. cbn [mbind option_bind List.app]. fold (cookies_of rg). cbn [q_method q_scheme q_authority q_path].
  rewrite (bool_decide_eq_false_2 (out_method q = [])) by done. rewrite (bool_decide_eq_false_2 (out_method q = str "CONNECT")) by done. rewrite (bool_decide_eq_false_2 (str "https" = [])) by done. rewrite (bool_decide_eq_false_2 (uri q = [])) by done. cbn [orb].
  rewrite (bool_decide_eq_false_2 (uri q = str "*")) by done. rewrite Hu. cbn [mbind option_bind]. rewrite (bool_decide_eq_false_2 (out_host q = [])) by done. eexists. split; [done|]. cbn [Method URL RequestURI Host Trailer ReqHeader].
  set (hd := header_from ∅ (filter (fun f => ~ is_cookie f) rg)). set (h := match cookies_of rg with [] => hd | _ => _ end).
  assert (Hvalid : Forall (fun f => validName (Name f) = true) rg) by (eapply Forall_impl; [exact Hreg|]; by intros f [(_ & ? & _) _]).
  assert (Hh1 : forall key, key <> str "Cookie" -> h !! key = lookup_values (values_of key rg)).
  { intros key Hk. unfold h. assert (E : hd !! key = lookup_values (values_of key rg)) by (unfold hd; rewrite <- (values_of_other key rg) by done; exact (header_of_lookup (filter (fun f => ~ is_cookie f) rg) key)).
    destruct (cookies_of rg); [done|]. transitivity (hd !! key); [|done]. by apply (lookup_insert_ne (M := gmap bytes)). }
  assert (Hh2 : h !! str "Cookie" = match cookies_of rg with [] => None | cs => Some [join (str "; ") cs] end).
  { unfold h. destruct (cookies_of rg) as [|v vs]; [|apply (lookup_insert_eq (M := gmap bytes))]. unfold hd. pose proof (header_of_lookup (filter (fun f => ~ is_cookie f) rg) (str "Cookie")) as E. unfold header_of in E. rewrite E. by rewrite values_of_cookie. }
  assert (Hdel : forall key, key <> str "Host" -> (delete (str "Host") h : Header) !! key = h !! key) by (intros key Hk; by apply (lookup_delete_ne (M := gmap bytes))).
  split_and!; [done..| | |].
  - intros key Hk1 Hk2. rewrite Hdel by done. by apply Hh1.
  - rewrite Hdel by (intros E; apply (f_equal length) in E; by vm_compute in E). exact Hh2.
  - unfold announced_length, Get. cbn [ReqHeader]. rewrite Hdel by (intros E; apply (f_equal length) in E; by vm_compute in E).
    rewrite Hh1 by (intros E; apply (f_equal length) in E; by vm_compute in E). unfold rg. rewrite values_of_length by done. unfold length_line. destruct (Z.ltb_spec 0 n) as [Hpos|Hz].
    + left. destruct (ParseInt_FormatInt n ltac:(lia)) as (P1 & P2 & _). cbn [fmap list_fmap lookup_values default from_option id head]. cbn [Value]. rewrite bool_decide_eq_false_2 by done. rewrite P1. destruct (Z.ltb_spec n 0); [lia|done].
    + assert (En : n = 0) by lia. assert (Eb : oBody q = []) by (apply len_zero_nil; exact En). destruct (_ || _); [left; by rewrite En|right; done].
Qed.
End exchange.

(** * HTTP/2 and HTTP/3 *)

Section same.
Context {U : Type} (ParseRequestURI : bytes -> option U).

Lemma valid_rest s : valid_bytes false s = forallb (fun c => name_byte c && negb (c =? 58)) s.
Proof.
  induction s as [|c s IH]; [done|]. cbn [valid_bytes forallb]. rewrite IH. f_equal. unfold name_byte. destruct (65 <=? c), (c <=? 90), (c <=? 32), (127 <=? c), (c =? 58); done.
Qed.

Lemma validName_same s : validName s = h2ValidHeaderName s.
Proof.
  destruct s as [|c s]; [done|]. unfold validName. rewrite bool_decide_eq_false_2 by done. cbn [negb andb valid_bytes h2ValidHeaderName]. rewrite valid_rest. f_equal. unfold name_byte. destruct (65 <=? c), (c <=? 90), (c <=? 32), (127 <=? c), (c =? 58); done.
Qed.

Lemma validValue_same s : validValue s = h2ValidHeaderValue s.
Proof. unfold validValue, h2ValidHeaderValue. rewrite negb_orb, andb_assoc. done. Qed.

(** The two ways to know which pseudo-headers have been seen. *)
Definition same_line (q : request_line) (p : pseudo) : Prop :=
  (q_method q = default [] (p_method p) /\ (0 ∈ q_seen q <-> is_Some (p_method p))) /\ (q_scheme q = default [] (p_scheme p) /\ (1 ∈ q_seen q <-> is_Some (p_scheme p))) /\
  (q_authority q = default [] (p_authority p) /\ (2 ∈ q_seen q <-> is_Some (p_authority p))) /\ (q_path q = default [] (p_path p) /\ (3 ∈ q_seen q <-> is_Some (p_path p))).

Lemma set_line_same name v q p : same_line q p -> match set_line name v q, set_pseudo name v p with Some q', Some p' => same_line q' p' | None, None => True | _, _ => False end.
Proof.
  destruct q as [m s a pt seen], p as [pm ps pa pp]. unfold same_line. cbn. intros ((-> & S0) & (-> & S1) & (-> & S2) & (-> & S3)). unfold set_line, set_pseudo. cbn.
  assert (Hs : forall n (o : option bytes), (n ∈ seen <-> is_Some o) -> (if decide (n ∈ seen) then o <> None else o = None)).
  { intros n o E. destruct (decide (n ∈ seen)) as [Hi|Hi]; [apply E in Hi as [x ->]; done|]. destruct o as [x|]; [|done]. destruct Hi. apply E. by exists x. }
  pose proof (Hs 0 pm S0). pose proof (Hs 1 ps S1). pose proof (Hs 2 pa S2). pose proof (Hs 3 pp S3).
  repeat match goal with |- context [bool_decide ?P] => destruct (bool_decide P) end; try done.
  - destruct (decide (0 ∈ seen)), pm; try done. cbn. split_and!; try done; set_solver.
  - destruct (decide (1 ∈ seen)), ps; try done. cbn. split_and!; try done; set_solver.
  - destruct (decide (2 ∈ seen)), pa; try done. cbn. split_and!; try done; set_solver.
  - destruct (decide (3 ∈ seen)), pp; try done. cbn. split_and!; try done; set_solver.
Qed.

Lemma loop_same fs q p h cs b : same_line q p ->
  match fields_loop fs q h cs b, request_loop fs p h cs b with Some (q', h', cs'), Some (p', h2, cs2) => same_line q' p' /\ h' = h2 /\ cs' = cs2 | None, None => True | _, _ => False end.
Proof.
  revert q p h cs b. induction fs as [|f fs IH]; intros q p h cs b Hl; cbn [fields_loop request_loop]; [done|]. destruct (is_prefix [58] (Name f)).
  - destruct b; [done|]. pose proof (set_line_same (Name f) (Value f) q p Hl) as S. destruct (set_line _ _ q) as [q1|], (set_pseudo _ _ p) as [p1|]; try done. cbn [mbind option_bind]. by apply IH.
  - rewrite validName_same, validValue_same. change connectionHeaders with h2ConnectionHeaders. destruct (negb (h2ValidHeaderName (Name f)) || _ || _); [done|]. destruct (_ && _); [done|]. destruct (bool_decide _); by apply IH.
Qed.

(** HTTP/2 and HTTP/3 make the same request of the same fields, and refuse the
    same ones: the two servers' separate checks of pseudo-headers, names, values
    and cookies agree on every list of fields. *)
Theorem h3_h2_same_request fs : Http3Frames.newRequest ParseRequestURI fs = Http2Server.newRequest ParseRequestURI fs.
Proof.
  unfold Http3Frames.newRequest, Http2Server.newRequest. assert (S0 : same_line (RequestLine [] [] [] [] ∅) (Pseudo None None None None)) by (unfold same_line; cbn; split_and!; try done; (split; [set_solver|by intros [? ?]])).
  pose proof (loop_same fs _ _ ∅ [] false S0) as L. destruct (fields_loop fs _ ∅ [] false) as [[[q h] cs]|], (request_loop fs _ ∅ [] false) as [[[p h2] cs2]|]; [|done|done|done].
  destruct L as (((-> & _) & (-> & _) & (-> & _) & (-> & _)) & -> & ->). done.
Qed.
End same.
