(* ===== verification/Http3Quic.v ===== *)
(** HTTP/3 over QUIC: the streams of QuicStream carry Http3Server's connection.

    [dispatch] is conn.go's: the handler calls queued under the connection's lock
    are made after it, batch by batch, until none is left.  A panic in one of them
    ends the whole connection; it is [None]. *)
From Stdlib Require Import String.
From S2P Require Import Prelude.
From S2P Require Import Varint.
From S2P Require Import HpackTables.
From S2P Require Import Huffman.
From S2P Require Import Hpack.
From S2P Require Import Qpack.
From S2P Require Import GoText.
From S2P Require Import HttpWriter.
From S2P Require Import QuicBuffer.
From S2P Require Import QuicFrames.
From S2P Require Import QuicParams.
From S2P Require Import QuicStream.
From S2P Require Import QuicConn.
From S2P Require Import Http2Server.
From S2P Require Import Http3Frames.
From S2P Require Import Http3Server.
From S2P Require Import Http3Client.
From S2P Require Import Http3Own.

#[export] Instance quic_transport : Transport QuicStream.Conn := {
  tWrite i p fin q := let '(err, q) := QuicStream.writeLocked i p fin q in (match err with Some _ => true | None => false end, q);
  tStopSending := QuicStream.StopSending;
  tReset := QuicStream.Reset;
  tClose code reason := QuicStream.closeLocked (ApplicationError code reason);
  tCloseWhenDone code reason := QuicStream.CloseWhenDone (ApplicationError code reason);
  tOpen bidi q := match QuicStream.openStream bidi q with (Ok i, q) => (Some i, q) | (Err _, q) => (None, q) end;
}.

(** QUIC gives out a client's stream IDs in order, within the peer's limit. *)
Definition opener_ok (q : QuicStream.Conn) : Prop := QuicStream.isClient q = true /\ 0 <= QuicStream.openedBidi q /\ QuicStream.peerMaxBidi q <= 2 ^ 60.

(** A call that leaves the limits alone. *)
Definition limits_kept (q q' : QuicStream.Conn) : Prop :=
  QuicStream.isClient q' = QuicStream.isClient q /\ QuicStream.openedBidi q' = QuicStream.openedBidi q /\ QuicStream.peerMaxBidi q' = QuicStream.peerMaxBidi q.

Lemma limits_opener q q' : limits_kept q q' -> opener_ok q -> opener_ok q' /\ 4 * QuicStream.openedBidi q <= 4 * QuicStream.openedBidi q'.
Proof. unfold limits_kept, opener_ok. intros (-> & -> & ->) V. split; [done|lia]. Qed.

Lemma queue_limits i q : limits_kept q (QuicStream.queueStream i q).
Proof. unfold QuicStream.queueStream. by destruct (_ || _). Qed.

Lemma queue_put_limits i s q : limits_kept q (QuicStream.queueStream i (QuicStream.put i s q)).
Proof. destruct (queue_limits i (QuicStream.put i s q)) as (E1 & E2 & E3). unfold limits_kept. rewrite E1, E2, E3. done. Qed.

#[export] Program Instance quic_opener : Opener QuicStream.Conn := { issued q := 4 * QuicStream.openedBidi q; valid := opener_ok }.
Next Obligation.
  intros q b o q' V. unfold tOpen, quic_transport, QuicStream.openStream. destruct (QuicStream.closed q); [intros [= <- <-]; split_and!; [done|lia|done]|]. destruct (negb _); [intros [= <- <-]; split_and!; [done|lia|done]|].
  destruct V as (V1 & V2 & V3). rewrite V1. destruct b.
  - destruct (Z.leb_spec (QuicStream.peerMaxBidi q) (QuicStream.openedBidi q)); [intros [= <- <-]; split_and!; [done|lia|done]|]. intros [= <- <-]. rewrite Z.shiftl_mul_pow2 by lia. change (2 ^ 2) with 4. unfold opener_ok. cbn. rewrite !u64_small by lia.
    split_and!; [done|lia|done|lia|]. intros i _ [= <-]. lia.
  - destruct (_ <=? _); intros [= <- <-]; (split_and!; [done|cbn; lia|done]).
Qed.
Next Obligation.
  intros i p fin q V. apply limits_opener; [|done]. unfold tWrite, quic_transport, QuicStream.writeLocked. destruct (QuicStream.closed q); [done|]. destruct (_ || _ || _); [done|]. apply queue_put_limits.
Qed.
Next Obligation.
  intros i code q V. apply limits_opener; [|done]. unfold tStopSending, quic_transport, QuicStream.StopSending. destruct (QuicStream.closed q); [done|]. unfold QuicStream.stopSendingLocked. destruct (_ || _ || _); [done|apply queue_put_limits].
Qed.
Next Obligation.
  intros i code q V. apply limits_opener; [|done]. unfold tReset, quic_transport, QuicStream.Reset. destruct (QuicStream.closed q); [done|]. unfold QuicStream.resetLocked. destruct (_ || _ || _); [done|apply queue_put_limits].
Qed.
Next Obligation.
  intros code reason q V. apply limits_opener; [|done]. unfold tClose, quic_transport, QuicStream.closeLocked, QuicStream.terminateLocked. destruct (QuicStream.closed q) eqn:Ec; [done|]. cbn. by rewrite Ec.
Qed.

Section dispatch.
Context {U : Type} (ParseRequestURI : bytes -> option U) (unicode_lower : bytes -> bytes) (StatusText : Z -> bytes) (cfg : h3Config) (app : Z -> Request U -> list call).
Abbreviation Server := (h3Server U QuicStream.Conn).

Definition handle_event (e : QuicStream.event) (s : Server) : option Server :=
  match e with
  | QuicStream.OnStreamData i data fin => Http3Server.OnStreamData ParseRequestURI unicode_lower StatusText cfg app i data fin s
  | QuicStream.OnStreamReset i _ => let? c := Http3Server.OnStreamReset i (conn s) in Some (s <| conn := c |>)
  | QuicStream.OnStopSending i _ => let? c := OnStopSending i (conn s) in Some (s <| conn := c |>)
  | QuicStream.OnStreamsAvailable => Some s
  | QuicStream.OnClose _ => Some (s <| conn := Http3Server.OnClose (conn s) |>)
  end.

Fixpoint handle_events (es : list QuicStream.event) (s : Server) : option Server :=
  match es with [] => Some s | e :: es => let? s := handle_event e s in handle_events es s end.

(** A round per batch; a batch can only lead to one more, of the connection's end. *)
Fixpoint dispatch (rounds : nat) (s : Server) : option Server :=
  match rounds, QuicStream.events (h_qc (conn s)) with
  | S rounds, (_ :: _) as es =>
      let? s := handle_events es (s <| conn := on_qc (fun q => q <| QuicStream.events := [] |>) (conn s) |>) in dispatch rounds s
  | _, _ => Some s
  end.

(** A frame of a packet, and the calls it leads to. *)
Definition on_frame (f : qframe) (s : Server) : option Server :=
  let? q := QuicConn.handleFrame f [] (h_qc (conn s)) in dispatch 3 (s <| conn := conn s <| h_qc := q |> |>).

Definition begin_h3 (q : QuicStream.Conn) : Server := MkH3Server U QuicStream.Conn ∅ (Http3Server.OnHandshake cfg (new_conn q)).
End dispatch.

(** * A connection that is going away *)

Module GoingAway.
(** The defaults of the server, and a client that allows what clients allow. *)
Definition quic_config : QuicStream.Config := QuicStream.MkConfig 100 16 (Z.shiftl 1 20) (Z.shiftl 1 24).
Definition client_params : transportParams := Params [] [] [] false false false None 0 65527 65536 65536 65536 65536 100 3 3 (25 * Millisecond) false 2.
Definition quic : QuicStream.Conn := QuicConn.take_params client_params (QuicConn.newConn false quic_config) <| QuicStream.handshakeComplete := true |>.

Definition h3 : h3Config := H3Config (Z.shiftl 1 20) (Z.shiftl 16 20).

(** A handler that answers the request of stream 4 at once, closing the connection, and others later. *)
Definition handler (i : Z) (r : Request bytes) : list call := if i =? 4 then [Respond (MkResponse 200 [] (str "bye") [] true)] else [].

Definition get_request : bytes :=
  appendHeadersFrame [] (encode_section [(Field (str ":method") (str "GET"), false); (Field (str ":scheme") (str "https"), false); (Field (str ":path") (str "/"), false)]).

Definition go : qframe -> h3Server bytes QuicStream.Conn -> option (h3Server bytes QuicStream.Conn) := on_frame Some (fun b => b) (fun _ => []) h3 handler.
Definition server : h3Server bytes QuicStream.Conn := begin_h3 h3 quic.

(** Streams 0 and 4 are asked for and 4 is answered. *)
Definition going_away : option (h3Server bytes QuicStream.Conn) := let? s := go (FStream 0 0 get_request true) server in go (FStream 4 0 get_request true) s.
End GoingAway.

Import GoingAway.

(** The server is going away and says that it will serve streams below 8: stream 0
    is waiting for its answer.  A request on stream 8, which the client sent before
    it could know, ends the whole connection in a panic. *)
Theorem going_away_panics : exists s, going_away = Some s /\ h_goingAway (conn s) = true /\ h_goAwayID (conn s) = 8 /\ (h_served (conn s)).*1 = [0; 4] /\ h_streams (conn s) = Some {[0]} /\
  QuicStream.closed (h_qc (conn s)) = false /\ go (FStream 8 0 get_request true) s = None.
Proof. eexists. split; [vm_compute; reflexivity|]. split_and!; vm_compute; reflexivity. Qed.
