(* ===== verification/Http3Demo.v ===== *)
(** HTTP/3 at work: streams that are numbers, the theorems at concrete inputs, and
    what the client's idle timer may do to a request. *)
From Stdlib Require Import String.
From S2P Require Import Prelude.
From S2P Require Import Varint.
From S2P Require Import HpackTables.
From S2P Require Import Huffman.
From S2P Require Import Hpack.
From S2P Require Import Qpack.
From S2P Require Import GoText.
From S2P Require Import HttpWriter.
From S2P Require Import Http2Server.
From S2P Require Import Http3Frames.
From S2P Require Import Http3Server.
From S2P Require Import Http3Inv.
From S2P Require Import Http3Request.
From S2P Require Import Http3Client.
From S2P Require Import Http3Own.
From S2P Require Import Http3Response.
From S2P Require Import Http3Exchange.

(** A connection that gives out streams and takes all there is to take: the ID of
    its next request stream, and whether it has been closed. *)
#[export] Instance counter : Transport (Z * bool) := {
  tWrite _ _ _ q := (false, q);
  tStopSending _ _ q := q;
  tReset _ _ q := q;
  tClose _ _ q := (q.1, true);
  tCloseWhenDone _ _ q := (q.1, true);
  tOpen bidi q := if bidi then (Some q.1, (q.1 + 4, q.2)) else (Some 2, q);
}.

#[export] Program Instance counter_opener : Opener (Z * bool) := { issued q := q.1; valid _ := True }.
Next Obligation. intros [n c] [] o q' _ [= <- <-]; cbn; split_and!; try done; [lia|]. intros i _ [= <-]. lia. Qed.
Next Obligation. done. Qed.
Next Obligation. done. Qed.
Next Obligation. done. Qed.
Next Obligation. done. Qed.

Definition same (b : bytes) : bytes := b.
Definition parse_uri (b : bytes) : option bytes := Some b.
Definition no_text (n : Z) : bytes := [].
Definition limits : h3Config := H3Config 1000 1000.
Definition client_limits : clientConfig := ClientConfig 1000 1000 true.

(** * The server *)

Definition answer_all (i : Z) (r : Request bytes) : list call := [Respond (MkResponse 200 [] (str "ok") [] (i =? 4))].

Definition post_fields : list (HeaderField * bool) :=
  [(Field (str ":method") (str "POST"), false); (Field (str ":scheme") (str "https"), false); (Field (str ":path") (str "/a"), false); (Field (str ":authority") (str "h"), false); (Field (str "x-a") (str "1"), false);
   (Field (str "content-length") (str "5"), false)].
Definition post_frames : list (Z * bytes) := [(frameData, str "he"); (0x21, str "grease"); (frameData, str "llo")].
Definition post_trailer : list (HeaderField * bool) := [(Field (str "x-sum") (str "9"), false)].

Definition fresh_server : h3Server bytes (Z * bool) := MkH3Server bytes (Z * bool) ∅ (Http3Server.OnHandshake limits (new_conn (3, false))).
Definition post_bytes : bytes := request_bytes post_fields post_frames (Some post_trailer).
(** Byte by byte. *)
Definition post_pieces : list bytes := (fun b => [b]) <$> post_bytes.


Lemma byte_list l : forallb (fun b => (0 <=? b) && (b <? 256)) l = true -> bytes_ok l.
Proof. intros E. apply Forall_forall. intros b Hb. rewrite forallb_forall in E. specialize (E b). rewrite <- list_elem_of_In in E. specialize (E Hb). unfold byte_ok. lia. Qed.

Definition line_okb (f : HeaderField) : bool := forallb (fun b => (0 <=? b) && (b <? 256)) (Name f) && forallb (fun b => (0 <=? b) && (b <? 256)) (Value f) && (len (Name f) <? 2 ^ 56) && (len (Value f) <? 2 ^ 56).

Lemma line_okb_ok f : line_okb f = true -> line_ok f.
Proof. unfold line_okb. intros [[[H1 H2]%andb_true_iff H3]%andb_true_iff H4]%andb_true_iff. split_and!; [by apply byte_list|by apply byte_list|lia|lia]. Qed.

Definition section_okb (mx : Z) (fs : list (HeaderField * bool)) : bool := forallb (fun f => line_okb f.1) fs && (admitted mx 0 fs.*1).2 && (len (encode_section fs) <=? mx).

Lemma section_okb_ok mx fs : section_okb mx fs = true -> section_ok mx fs.
Proof.
  unfold section_okb. intros [[H1 H2]%andb_true_iff H3]%andb_true_iff. split_and!; [|done|lia]. apply Forall_forall. intros f Hf. rewrite forallb_forall in H1. specialize (H1 f). rewrite <- list_elem_of_In in H1. by apply line_okb_ok, H1.
Qed.

Lemma pieces_okb ps : forallb (fun p => forallb (fun b => (0 <=? b) && (b <? 256)) p) ps = true -> Forall bytes_ok ps.
Proof. intros E. apply Forall_forall. intros p Hp. rewrite forallb_forall in E. specialize (E p). rewrite <- list_elem_of_In in E. by apply byte_list, E. Qed.

Definition post_request : Request bytes :=
  MkRequest bytes (str "POST") (Parsed (str "/a")) (str "/a") (str "h") (header_of [Field (str "x-a") (str "1"); Field (str "content-length") (str "5")]) None [].

Lemma h3_request_arrives_witness : exists s', stream parse_uri same no_text limits answer_all 0 post_pieces fresh_server = Some s' /\
  h_served (conn s') = [(0, post_request <| Trailer := Some (header_of [Field (str "x-sum") (str "9")]) |> <| ReqBody := str "hello" |>)].
Proof.
  destruct (h3_request_arrives parse_uri same no_text limits answer_all 0 post_pieces post_fields post_frames (Some post_trailer) (Some (header_of [Field (str "x-sum") (str "9")])) post_request fresh_server) as (s' & decl & E1 & _ & E2).
  - unfold limits, maxVarint. cbn. lia.
  - split_and!; vm_compute; reflexivity.
  - apply section_okb_ok. vm_compute. reflexivity.
  - vm_compute. reflexivity.
  - right. vm_compute. reflexivity.
  - apply Forall_cons_2; [|apply Forall_cons_2; [|apply Forall_cons_2; [|apply Forall_nil_2]]]; (split_and!; [vm_compute; discriminate|vm_compute; discriminate|vm_compute; discriminate|]).
    + by left.
    + right. split; [vm_compute; reflexivity|vm_compute; discriminate].
    + by left.
  - vm_compute. discriminate.
  - split_and!; [apply section_okb_ok; vm_compute; reflexivity|vm_compute; reflexivity|done].
  - apply pieces_okb. vm_compute. reflexivity.
  - vm_compute. reflexivity.
  - exists s'. split; [exact E1|]. rewrite E2. vm_compute. reflexivity.
Defined.

Definition get_bytes : bytes := request_bytes [(Field (str ":method") (str "GET"), false); (Field (str ":scheme") (str "https"), false); (Field (str ":path") (str "/"), false)] [] None.

Abbreviation demo_run := (Http3Inv.run parse_uri same no_text limits answer_all).

Lemma h3_goaway_promise_witness : exists s1 s2, demo_run [Data 0 get_bytes false; Data 0 [] true; Data 4 get_bytes false; Data 4 [] true] fresh_server = Some s1 /\ h_goAwayID (conn s1) = 8 /\ demo_run [Data 8 get_bytes false] s1 = Some s2 /\
  NoDup (h_served (conn s2)).*1 /\ (forall j, j ∈ (h_served (conn s2)).*1 -> j < 8).
Proof.
  set (xs1 := [Data 0 get_bytes false; Data 0 [] true; Data 4 get_bytes false; Data 4 [] true]). set (xs2 := [Data 8 get_bytes false]).
  destruct (demo_run xs1 fresh_server) as [s1|] eqn:E1; [|vm_compute in E1; discriminate]. destruct (demo_run xs2 s1) as [s2|] eqn:E2; [|exfalso; vm_compute in E1; injection E1 as <-; vm_compute in E2; discriminate].
  exists s1, s2. assert (Hg : h_goingAway (conn s1) = true /\ h_goAwayID (conn s1) = 8) by (vm_compute in E1; injection E1 as <-; split; reflexivity). destruct Hg as [G1 G2].
  destruct (h3_goaway_promise parse_uri same no_text limits answer_all (3, false) xs1 xs2 s1 s2) as [N P]; [|exact E1|exact E2|].
  - unfold xs1, xs2. cbn [List.app]. repeat (apply Forall_cons_2; [cbn; lia|]). apply Forall_nil_2.
  - destruct (P G1) as [_ P2]. rewrite G2 in P2. split_and!; done.
Defined.

(** * The client *)

Definition key_of (q : OutRequest) : bytes := urlHost q.
Definition in_order (m : gset Z) : list Z := elements m.

Definition ask (path : string) : OutRequest := MkOut (str "GET") (str "https") (str "h:443") (str path) [] [(str "Accept", [str "x"; str "y"]); (str "Cookie", [str "a=1"; str "b=2"])] [].

Abbreviation demo_do := (Do (Q := Z * bool) same key_of client_limits).
Abbreviation demo_step := (Http3Own.step (Q := Z * bool) client_limits in_order same key_of).

(** A client whose first request is on stream 0 of its first connection. *)
Definition asking : h3Client (Z * bool) := NewClient <| world := demo_do (ask "/") (world NewClient) |>.
Definition dialing : h3Client (Z * bool) := asking <| world := dialed 0 (0, false) (world asking) |>.
Definition asked : h3Client (Z * bool) := dialing <| world := OnHandshake client_limits 0 (world dialing) |>.

Lemma asked_reached : rtc demo_step NewClient asked.
Proof.
  unfold asked, dialing, asking. eapply rtc_l; [apply (step_do client_limits in_order same key_of NewClient (ask "/"))|]. eapply rtc_l; [apply (step_dialed _ _ _ _ _ 0 (0, false)); [eexists; vm_compute; reflexivity|vm_compute; reflexivity|done]|].
  eapply rtc_l; [apply (step_handshake _ _ _ _ _ 0); eexists; vm_compute; reflexivity|]. apply rtc_refl.
Qed.

Lemma all_closed {Q} (m : gmap Z (clientConn Q)) : forallb (fun p => cc_closed p.2) (map_to_list m) = true -> forall k x, m !! k = Some x -> cc_closed x = true.
Proof. intros E k x Hx. rewrite forallb_forall in E. apply (E (k, x)). apply list_elem_of_In. by apply elem_of_map_to_list. Qed.

Definition ended : h3Client (Z * bool) := asked <| world := OnClose client_limits in_order 0 (world asked) |>.

Lemma h3_client_exactly_once_witness : 0 ∈ (answers (world ended)).*1 /\ NoDup (answers (world ended)).*1.
Proof.
  destruct (h3_client_exactly_once client_limits in_order ltac:(done) same key_of ended) as (N & _ & _ & P).
  - unfold ended. eapply rtc_r; [apply asked_reached|]. apply (step_closed _ _ _ _ asked 0). eexists. vm_compute. reflexivity.
  - assert (Hc : forallb (fun p => cc_closed p.2) (map_to_list (ccs (world ended))) = true) by (vm_compute; reflexivity).
    assert (Hr : 0 <= 0 < nextReq (world ended)) by (vm_compute; split; [discriminate|reflexivity]).
    exact (conj (P (all_closed _ Hc) 0 Hr) N).
Defined.

Definition some_response : Response := MkResponse 200 [(str "Content-Type", [str "text/plain"])] (str "hello") [(str "X-Sum", [str "9"])] false.
Definition response_pieces : list bytes := (fun b => [b]) <$> response_bytes same false some_response.

Definition regular_okb (f : HeaderField) : bool := negb (is_prefix [58] (Name f)) && validName (Name f) && negb (bool_decide (Name f ∈ connectionHeaders)).

Lemma regular_okb_ok f : regular_okb f = true -> regular_ok f.
Proof. intros [[H1 H2]%andb_true_iff H3]%andb_true_iff. apply negb_true_iff in H1, H3. apply bool_decide_eq_false in H3. done. Qed.

Lemma response_readable : readable same client_limits false some_response.
Proof.
  split.
  - vm_compute. split; discriminate.
  - unfold header_ok. apply Forall_cons_2; [|apply Forall_nil_2]. split; [apply regular_okb_ok; vm_compute; reflexivity|]. refine (bool_decide_eq_false_1 _ _). vm_compute. reflexivity.
  - apply section_okb_ok. vm_compute. reflexivity.
  - vm_compute. discriminate.
  - vm_compute. discriminate.
  - intros _. split; [apply section_okb_ok; vm_compute; reflexivity|]. apply Forall_cons_2; [|apply Forall_nil_2]. split; [apply regular_okb_ok; vm_compute; reflexivity|vm_compute; reflexivity].
Qed.

Lemma h3_response_arrives_witness : answers (world (client_stream client_limits in_order 0 0 response_pieces asked)) =
  [(0, Success (MkIn (MkClientResponse 200 (header_of [Field (str "content-length") (str "5"); Field (str "content-type") (str "text/plain")]) 5) (str "hello") (Some (header_of [Field (str "x-sum") (str "9")]))))].
Proof.
  assert (Hh : cr_head (qget 0 (world asked)) = false) by (vm_compute; reflexivity).
  rewrite (h3_response_arrives same key_of client_limits in_order ltac:(done) 0 0 0 some_response response_pieces asked).
  - rewrite Hh. vm_compute. reflexivity.
  - apply asked_reached.
  - vm_compute. split; discriminate.
  - eexists. split; vm_compute; reflexivity.
  - vm_compute. reflexivity.
  - vm_compute. reflexivity.
  - rewrite Hh. apply response_readable.
  - apply pieces_okb. vm_compute. reflexivity.
  - rewrite Hh. vm_compute. reflexivity.
Defined.

Lemma h3_request_understood_witness : exists req, newRequest parse_uri (default [] (requestFields same (ask "/x") 0)) = Some req /\ Method req = str "GET" /\ Host req = str "h:443" /\
  ReqHeader req !! str "Accept" = Some [str "x"; str "y"] /\ ReqHeader req !! str "Cookie" = Some [str "a=1; b=2"].
Proof.
  destruct (h3_request_understood parse_uri same (ask "/x") (str "/x") (default [] (requestFields same (ask "/x") 0))) as (_ & req & E1 & E2 & _ & _ & E3 & _ & E4 & E5 & _).
  - discriminate.
  - discriminate.
  - discriminate.
  - discriminate.
  - reflexivity.
  - vm_compute. reflexivity.
  - unfold sendable_header. repeat (apply Forall_cons_2; [split; vm_compute; reflexivity|]). apply Forall_nil_2.
  - vm_compute. reflexivity.
  - exists req. split_and!; [exact E1|rewrite E2; reflexivity|rewrite E3; reflexivity|rewrite E4 by discriminate; vm_compute; reflexivity|rewrite E5; vm_compute; reflexivity].
Defined.

(** * The idle timer *)

(** The client's only connection is idle and its timer fires; before the timer's
    function tells the client, a request is made. *)
Definition quiet : h3Client (Z * bool) := client_stream client_limits in_order 0 0 response_pieces asked.
Definition fired : Client (Z * bool) := (idle_fire 0 (world quiet)).2.
Definition stranded : Client (Z * bool) := idle_forget 0 (demo_do (ask "/late") fired).

(** The request waits for a stream of a connection that takes no more requests and
    is not closed either: nothing puts it on a stream, and though a later request
    gets a connection of its own, this one waits until QUIC gives up on the peer. *)
Theorem idle_race_strands :
  (idle_fire 0 (world quiet)).1 = true /\ cc_idle (kget 0 (world quiet)) = true /\
  cr_done (qget 1 stranded) = false /\ cc_waiting (kget 0 stranded) = [1] /\ cc_goingAway (kget 0 stranded) = true /\ cc_closed (kget 0 stranded) = false /\ cc_qc (kget 0 stranded) = Some (4, false) /\
  conns stranded = ∅ /\ startWaiting client_limits 0 stranded = stranded /\ cc_waiting (kget 1 (demo_do (ask "/later") stranded)) = [2] /\ cc_waiting (kget 0 (demo_do (ask "/later") stranded)) = [1].
Proof. split_and!; vm_compute; reflexivity. Qed.
