(* ===== verification/HttpPool.v ===== *)
(** The client of HTTP/1 and HTTP/2: src/go/http/client.go, and how the streams of
    src/go/http/h2_client.go carry its requests.

    Requests and connections are pointers and so are numbers here; [reqs] and
    [ccs] hold them all.  What the callbacks were given, in order, is [answers].

    Any number of goroutines run at a time: those of callers, timers, event loops,
    workers and TLS handshakes.  A goroutine is the list of what it still has to
    do, and an [instr] is one critical section, under the lock of the client, of a
    connection or of a request, or one atomic operation; [exec] runs it and says
    what its goroutine does next and which goroutines it starts.  An [event] is
    what starts a goroutine from outside.

    The engine promises that the handler of a connection is given one piece of data
    at a time, and that [OnClose] comes once, after the connection came up; it may
    come while data is being handled and, over TLS, while [OnHandshake] runs.  What
    the bytes of a server amount to is an input: for HTTP/1 what the response parser
    (HttpClient) makes of them, for HTTP/2 the frames that end or settle a stream.

    [torn] records that a goroutine acted on a connection that another had taken
    further since it looked: the code does not check for that. *)
From Stdlib Require Import String.
From S2P Require Import Prelude.
From S2P Require Import HpackTables.
From S2P Require Import Hpack.
From S2P Require Import GoText.
From S2P Require Import HttpWriter.
From S2P Require Import Http2Frame.
From S2P Require Import Http2Server.
From S2P Require Import Http3Client.

(** * Requests *)

(** [net.JoinHostPort] *)
Definition JoinHostPort (host port : bytes) : bytes := if bool_decide (58 ∈ host) then [91] ++ host ++ [93; 58] ++ port else host ++ [58] ++ port.

(** A target: the address to dial, and whether to speak TLS to it. *)
Abbreviation hostTarget := (bytes * bool)%type.
Definition secure (t : hostTarget) : bool := t.2.

(** [hostname] and [port] are [URL.Hostname()] and [URL.Port()]. *)
Definition requestTarget (scheme hostname port : bytes) : option hostTarget :=
  let? (sec, port) :=
    if bool_decide (scheme = str "http") then Some (false, if bool_decide (port = []) then str "80" else port)
    else if bool_decide (scheme = str "https") then Some (true, if bool_decide (port = []) then str "443" else port)
    else None in
  if bool_decide (hostname = []) then None else Some (JoinHostPort hostname port, sec).

(** What [Request.Write] wrote, as HTTP/1.0 if the request asks for it. *)
Definition marshalRequest (http10 : bool) (written : option bytes) : option bytes :=
  let? data := written in
  if http10 then
    let? lineEnd := Index [13; 10] data in
    if is_prefix (reverse (str " HTTP/1.1")) (reverse (take (Z.to_nat lineEnd) data)) then Some (<[Z.to_nat (lineEnd - 1) := 48]> data) else None
  else Some data.

Inductive pool_error := ErrClientClosed | ErrAborted | ErrDial | ErrConn | ErrResponse | ErrStream (code : Z) | ErrFields | ErrRejected.

Inductive pool_outcome := Responded | Failed (e : pool_error).

Record request := MkPoolRequest {
  rq_out : OutRequest;
  rq_close : bool;          (* [Request.Close] *)
  rq_11 : bool;             (* [ProtoAtLeast(1, 1)] *)
  rq_keep : bool;           (* it has [Connection: keep-alive] *)
  rq_done : bool;
  rq_retried : bool;
  rq_conn : option Z;
  rq_streamID : Z;
}.

#[export] Instance eta_request : Eta request := fun r =>
  MkPoolRequest (rq_out r) (rq_close r) (rq_11 r) (rq_keep r) (rq_done r) (rq_retried r) (rq_conn r) (rq_streamID r).

Definition retryable (r : request) : bool :=
  bool_decide (oMethod (rq_out r) ∈ [] :: (str <$> ["GET"; "HEAD"; "OPTIONS"; "TRACE"]%string)) && negb (rq_retried r).

Section fields.
Context (unicode_lower : bytes -> bytes).

Fixpoint h2_header_fields (header : fields) (fs : list HeaderField) (userAgent : bool) : option (list HeaderField * bool) :=
  match header with
  | [] => Some (fs, userAgent)
  | (key, values) :: header =>
      let name := ToLower unicode_lower key in
      if bool_decide (name ∈ h2ConnectionHeaders) || bool_decide (name = str "host") || bool_decide (name = str "content-length") || bool_decide (name = str "te")
      then h2_header_fields header fs userAgent
      else if negb (h2ValidHeaderName name) then None
      else if forallb validHeaderValue values then h2_header_fields header (fs ++ (Field name <$> values)) (userAgent || bool_decide (name = str "user-agent"))
      else None
  end.

Definition h2RequestFields (q : OutRequest) (sec : bool) : option (list HeaderField) :=
  let host := out_host q in
  let method := out_method q in
  let fs := [Field (str ":method") method] in
  let fs := if negb (bool_decide (method = str "CONNECT"))
            then fs ++ [Field (str ":scheme") (if sec then str "https" else str "http"); Field (str ":authority") host; Field (str ":path") (uri q)]
            else fs ++ [Field (str ":authority") host] in
  let? (fs, userAgent) := h2_header_fields (oHeader q) fs false in
  let fs := if userAgent : bool then fs else fs ++ [Field (str "user-agent") (str "Go-http-client/2.0")] in
  Some (if 0 <? len (oBody q) then fs ++ [Field (str "content-length") (FormatInt (len (oBody q)) 10)]
        else if bool_decide (method = str "POST") || bool_decide (method = str "PUT") || bool_decide (method = str "PATCH") then fs ++ [Field (str "content-length") (str "0")]
        else fs).
End fields.

(** * State *)

(** The streams of an HTTP/2 connection: the request, and whether the server has
    answered with anything. *)
Record h2Conn := MkH2Conn { hc_streams : gmap Z (Z * bool); hc_nextID : Z; hc_goAway : bool; hc_closed : bool; hc_failed : bool }.

#[export] Instance eta_h2Conn : Eta h2Conn := fun c => MkH2Conn (hc_streams c) (hc_nextID c) (hc_goAway c) (hc_closed c) (hc_failed c).

(** How far the engine is with a connection. *)
Inductive phase := PDialing | PFailed | POpening | PUp | PClosed.

#[export] Instance phase_eq : EqDecision phase. Proof. solve_decision. Defined.

Record clientConn := MkPoolConn {
  cc_host : hostTarget;
  cc_current : option Z;
  cc_sent : bool;
  cc_reused : bool;
  cc_received : bool;
  cc_closed : bool;
  cc_idle : bool;              (* the idle timer is set *)
  cc_settled : bool;
  cc_h2 : option h2Conn;
  cc_streams : Z;
  cc_maxStreams : Z;
  (* the engine *)
  cc_phase : phase;
  cc_ready : bool;             (* nobody is in [OnData], and it may be called *)
  cc_begun : bool;             (* a dial that succeeded is being reported, or was *)
  (* ghost state *)
  cc_won : bool;               (* it was settled as a success *)
  cc_pooled : bool;            (* it no longer counts as dialing *)
  cc_back : bool;              (* it no longer counts as open *)
}.

#[export] Instance eta_clientConn : Eta clientConn := fun c =>
  MkPoolConn (cc_host c) (cc_current c) (cc_sent c) (cc_reused c) (cc_received c) (cc_closed c) (cc_idle c) (cc_settled c) (cc_h2 c) (cc_streams c) (cc_maxStreams c)
    (cc_phase c) (cc_ready c) (cc_begun c) (cc_won c) (cc_pooled c) (cc_back c).

Record hostPool := MkHost { h_open : Z; h_dialing : Z; h_idle : list Z; h_waiting : list Z; h_h2 : list Z; h_multiplexed : bool; h_probed : bool }.

#[export] Instance eta_hostPool : Eta hostPool := fun h => MkHost (h_open h) (h_dialing h) (h_idle h) (h_waiting h) (h_h2 h) (h_multiplexed h) (h_probed h).

Record Client := MkPool {
  hosts : gmap hostTarget hostPool;
  c_closed : bool;
  ccs : gmap Z clientConn;
  nextConn : Z;
  reqs : gmap Z request;
  nextReq : Z;
  answers : list (Z * pool_outcome);
  torn : bool;
}.

#[export] Instance eta_Client : Eta Client := fun w => MkPool (hosts w) (c_closed w) (ccs w) (nextConn w) (reqs w) (nextReq w) (answers w) (torn w).

Record poolConfig := PoolConfig { MaxConnsPerHost : Z; MaxIdleConnsPerHost : Z; idleTimeout : bool; offersH2 : bool; UnencryptedHTTP2 : bool }.

(** What the response parser makes of the bytes it is fed: nothing yet, an error,
    or a response, with its [Close], its status, and whether bytes are left over. *)
Inductive parsed := PMore | PError | PResponse (close : bool) (status : Z) (buffered : bool).

(** The frames that matter to the requests of an HTTP/2 connection. *)
Inductive h2_event :=
| FReceived (id : Z)                       (* HEADERS or DATA of a response *)
| FComplete (id : Z)                       (* the end of a response *)
| FFault (id code : Z)                     (* a frame that is at fault: [resetStream] *)
| FReset (id code : Z)
| FMaxStreams (n : Z)                      (* SETTINGS *)
| FGoAway (last : Z)
| FConnError.

(** What a goroutine does next. *)
Inductive instr :=
| IEnqueue (t : hostTarget) (r : Z) (retry : bool)
| IDial (t : hostTarget)
| ISend (k r : Z)
| IAttach (k r : Z)
| IGiveBack (k r : Z)
| IRelease (k : Z)
| IDiscard (k : Z)                         (* of a connection nobody uses *)
| IAbandoned (k r : Z)                     (* [discard] for an aborted request *)
| IBroken (k r : Z)                        (* [discard] after a response that cannot be read *)
| IFinish (r : Z) (o : pool_outcome)
| IAbort (r : Z)
| IAbandon (r : Z)
| IDetach (r : Z)
| IDialed (k : Z) (err : bool)
| IPool (k : Z) (err : bool)
| IUp (k : Z)                              (* the dial's callback has returned *)
| IReady (k : Z)                           (* [OnData] or [OnHandshake] has returned *)
| IExpire (k : Z)
| IStreamDone (k : Z)
| IRetire (k : Z)
| IData (k : Z) (p : parsed)
| IParse (k r : Z) (p : parsed)
| IAnswer (k r : Z) (reusable : bool)
| IClose (k : Z) (last : bool)             (* [OnClose]; [last]: the end of the connection completes a response *)
| ICloseDial (k : Z)
| ICloseH1 (k : Z) (last : bool)
| ICloseH2 (k : Z)
| IForget (k : Z)
| ILast (t : hostTarget) (r : Z) (retry last : bool)
| IShutdown (k : Z)
| IShut (t : hostTarget) (r : Z) (received : bool)
| IH2Send (k r : Z)
| IH2Open (k r : Z)
| IH2Cancel (k r : Z)
| IFrame (k : Z) (f : h2_event)
| IClientClose.

Section pool.
Context (unicode_lower : bytes -> bytes) (cfg : poolConfig).
(** The orders in which maps are ranged over. *)
Context (range : gset Z -> list Z) (hrange : gset hostTarget -> list hostTarget).

Definition no_conn : clientConn := MkPoolConn ([], false) None false false false true false true None 0 0 PFailed false false false true true.
Definition no_request : request := MkPoolRequest (MkOut [] [] [] [] [] [] []) false false false true true None 0.
Definition no_host : hostPool := MkHost 0 0 [] [] [] false false.

Definition kget (k : Z) (w : Client) : clientConn := default no_conn (ccs w !! k).
Definition kput (k : Z) (x : clientConn) (w : Client) : Client := w <| ccs := <[k := x]> (ccs w) |>.
Definition rget (r : Z) (w : Client) : request := default no_request (reqs w !! r).
Definition rput (r : Z) (x : request) (w : Client) : Client := w <| reqs := <[r := x]> (reqs w) |>.
Definition hget (t : hostTarget) (w : Client) : hostPool := default no_host (hosts w !! t).
Definition hput (t : hostTarget) (h : hostPool) (w : Client) : Client := w <| hosts := <[t := h]> (hosts w) |>.

Definition tear (b : bool) (w : Client) : Client := w <| torn := torn w || b |>.

(** ** The pool of a host *)

Definition mayMultiplex (t : hostTarget) : bool := if negb (secure t) then UnencryptedHTTP2 cfg else offersH2 cfg.

(** The first HTTP/2 connection with room for a stream. *)
Definition pick_h2 (ks : list Z) (w : Client) : option Z := head (filter (fun k => cc_streams (kget k w) < cc_maxStreams (kget k w)) ks).

(** Match waiting requests with connections. *)
Fixpoint dispatch_loop (t : hostTarget) (waiting : list Z) (w : Client) : Client * list (Z * Z) :=
  match waiting with
  | [] => (hput t (hget t w <| h_waiting := [] |>) w, [])
  | r :: rest =>
      if rq_done (rget r w) then dispatch_loop t rest w
      else
        match pick_h2 (h_h2 (hget t w)) w with
        | Some k =>
            let '(w, work) := dispatch_loop t rest (kput k (kget k w <| cc_streams := cc_streams (kget k w) + 1 |> <| cc_idle := false |>) w) in
            (w, (k, r) :: work)
        | None =>
            match last (h_idle (hget t w)) with
            | Some k =>
                let w := hput t (hget t w <| h_idle := removelast (h_idle (hget t w)) |>) (kput k (kget k w <| cc_idle := false |>) w) in
                let '(w, work) := dispatch_loop t rest w in (w, (k, r) :: work)
            | None => (hput t (hget t w <| h_waiting := waiting |>) w, [])
            end
        end
  end.

(** How many connections to dial. *)
Fixpoint dial_loop (need : nat) (h : hostPool) : hostPool * nat :=
  match need with
  | O => (h, O)
  | S need =>
      if (0 <? MaxConnsPerHost cfg) && (MaxConnsPerHost cfg <=? h_open h) then (h, O)
      else let '(h, dials) := dial_loop need (h <| h_open := h_open h + 1 |> <| h_dialing := h_dialing h + 1 |>) in (h, S dials)
  end.

(** [dispatchLocked], and the goroutine's work that [carryOut] does for it. *)
Definition dispatchLocked (t : hostTarget) (w : Client) : Client * list instr :=
  let '(w, work) := dispatch_loop t (h_waiting (hget t w)) w in
  let h := hget t w in
  let need := len (h_waiting h) - h_dialing h in
  let need := if h_multiplexed h || (negb (h_probed h) && mayMultiplex t) then Z.min need (1 - h_dialing h) else need in
  let '(h, dials) := dial_loop (Z.to_nat need) h in
  (hput t h w, ((fun '(k, r) => ISend k r) <$> work) ++ replicate dials (IDial t)).

(** ** Requests *)

(** [clientRequest.finish], and whether it called the callback. *)
Definition finish (r : Z) (o : pool_outcome) (w : Client) : bool * Client :=
  if rq_done (rget r w) then (false, w)
  else (true, rput r (rget r w <| rq_done := true |>) w <| answers := answers w ++ [(r, o)] |>).

Definition enqueue (t : hostTarget) (r : Z) (retry : bool) (w : Client) : Client * list instr :=
  if c_closed w then (w, [IFinish r (Failed ErrClientClosed)])
  else
    let h := hget t w in
    dispatchLocked t (hput t (h <| h_waiting := if retry then r :: h_waiting h else h_waiting h ++ [r] |>) w).

(** ** Connections *)

Definition dial (t : hostTarget) (w : Client) : Client :=
  w <| ccs := <[nextConn w := MkPoolConn t None false false false false false false None 0 0 PDialing false false false false false]> (ccs w) |> <| nextConn := nextConn w + 1 |>.

(** [removeConn] *)
Definition removeConn (k : Z) (ks : list Z) : bool * list Z :=
  match list_find (fun x => x = k) ks with Some (i, _) => (true, delete i ks) | None => (false, ks) end.

(** [idleH2Locked]; the flag says to close the connection. *)
Definition idleH2Locked (k : Z) (w : Client) : bool * Client :=
  let x := kget k w in
  let t := cc_host x in
  let h := hget t w in
  if (0 <? cc_streams x) || cc_idle x then (false, w)
  else
    let idle := len (filter (fun m => cc_streams (kget m w) = 0) (h_h2 h)) in
    if c_closed w || (MaxIdleConnsPerHost cfg <? idle) then
      let '(found, rest) := removeConn k (h_h2 h) in (found, hput t (h <| h_h2 := rest |>) w)
    else (false, if idleTimeout cfg then kput k (x <| cc_idle := true |>) w else w).

(** The first request that is not done yet, and what is behind it. *)
Fixpoint next_waiting (waiting : list Z) (w : Client) : option Z * list Z :=
  match waiting with
  | [] => (None, [])
  | r :: rest => if rq_done (rget r w) then next_waiting rest w else (Some r, rest)
  end.

Definition release (k : Z) (w : Client) : Client * list instr :=
  let t := cc_host (kget k w) in
  if cc_closed (kget k w) then (w, [])
  else
    let '(r, rest) := next_waiting (h_waiting (hget t w)) w in
    let w := hput t (hget t w <| h_waiting := rest |>) w in
    match r with
    | Some r => (w, [ISend k r])
    | None =>
        if negb (c_closed w) && (len (h_idle (hget t w)) <? MaxIdleConnsPerHost cfg) then
          let w := hput t (hget t w <| h_idle := h_idle (hget t w) ++ [k] |>) w in
          (if idleTimeout cfg then kput k (kget k w <| cc_idle := true |>) w else w, [])
        else (w, [IDiscard k])
    end.

(** The part of [dialed] under the connection's lock. *)
Definition dialed (k : Z) (err : bool) (w : Client) : Client * list instr :=
  if cc_settled (kget k w) then (tear err w, [])
  else (kput k (kget k w <| cc_settled := true |> <| cc_won := negb err |>) w, [IPool k err]).

(** The rest of [dialed], under the client's. *)
Definition dialed_pool (k : Z) (err : bool) (w : Client) : Client * list instr * list (list instr) :=
  let x := kget k w in
  let t := cc_host x in
  let w := kput k (x <| cc_pooled := true |> <| cc_back := cc_back x || err |>) w in
  let w := hput t (hget t w <| h_dialing := h_dialing (hget t w) - 1 |> <| h_probed := h_probed (hget t w) || negb err |>) w in
  if negb err then
    match cc_h2 x with
    | None => (w, [IRelease k], [])
    | Some _ =>
        let h := hget t w in
        let w := hput t (h <| h_multiplexed := true |> <| h_h2 := if cc_closed x then h_h2 h else h_h2 h ++ [k] |>) w in
        let '(w, work) := dispatchLocked t w in
        let '(discard, w) := idleH2Locked k w in
        (w, (if discard : bool then [IDiscard k] else []) ++ work, [])
    end
  else
    let h := hget t w in
    let '(failed, rest) := next_waiting (h_waiting h) w in
    let '(w, work) := dispatchLocked t (hput t (h <| h_open := h_open h - 1 |> <| h_waiting := rest |>) w) in
    (w, work, match failed with Some r => [[IFinish r (Failed ErrDial)]] | None => [] end).

Definition expireIdle (k : Z) (w : Client) : Client * list instr :=
  let x := kget k w in
  let t := cc_host x in
  let h := hget t w in
  match cc_h2 x with
  | Some _ =>
      if (cc_streams x =? 0) && cc_idle x then
        let '(found, rest) := removeConn k (h_h2 h) in (hput t (h <| h_h2 := rest |>) w, if found : bool then [IDiscard k] else [])
      else (w, [])
  | None => let '(found, rest) := removeConn k (h_idle h) in (hput t (h <| h_idle := rest |>) w, if found : bool then [IDiscard k] else [])
  end.

Definition streamDone (k : Z) (w : Client) : Client * list instr :=
  let w := kput k (kget k w <| cc_streams := cc_streams (kget k w) - 1 |>) w in
  let '(w, work) := dispatchLocked (cc_host (kget k w)) w in
  let '(discard, w) := idleH2Locked k w in
  (w, (if discard : bool then [IDiscard k] else []) ++ work).

Definition retire (k : Z) (w : Client) : Client :=
  let t := cc_host (kget k w) in hput t (hget t w <| h_h2 := (removeConn k (h_h2 (hget t w))).2 |>) w.

Definition forget (k : Z) (w : Client) : Client * list instr :=
  let x := kget k w in
  let t := cc_host x in
  let h := hget t w in
  let w := tear (negb (cc_pooled x)) w in
  let w := hput t (h <| h_idle := (removeConn k (h_idle h)).2 |> <| h_h2 := (removeConn k (h_h2 h)).2 |> <| h_open := h_open h - 1 |>) w in
  dispatchLocked t (kput k (x <| cc_idle := false |> <| cc_back := true |>) w).

Definition clear_current (k : Z) (w : Client) : Client := kput k (kget k w <| cc_current := None |>) w.

(** [discard]; [own] is the request that is known to be given up with it, and
    [torn] says that another was. *)
Definition discard (k : Z) (own : option Z) (w : Client) : Client :=
  let w := tear (match cc_current (kget k w) with Some r => negb (bool_decide (own = Some r)) | None => false end) w in
  kput k (kget k w <| cc_closed := true |> <| cc_current := None |>) w.

(** The exchange of [r] is over; [torn] if the connection has another by now. *)
Definition unload (k r : Z) (w : Client) : Client :=
  let x := kget k w in
  clear_current k (tear (match cc_current x with Some r' => negb (r' =? r) | None => negb (cc_closed x) end) w).

Definition send (k r : Z) (w : Client) : Client * list instr :=
  let x := kget k w in
  match cc_h2 x with
  | Some _ => (w, [IH2Send k r])
  | None =>
      if cc_closed x then (w, [IEnqueue (cc_host x) r true])
      else (kput k (x <| cc_current := Some r |> <| cc_reused := cc_sent x |> <| cc_sent := true |> <| cc_received := false |>) w, [IAttach k r])
  end.

(** [attach], and whether the request is still to be sent. *)
Definition attach (k r : Z) (w : Client) : bool * Client :=
  if rq_done (rget r w) then (false, w) else (true, rput r (rget r w <| rq_conn := Some k |>) w).

Definition detach (r : Z) (w : Client) : Client := rput r (rget r w <| rq_conn := None |>) w.

(** Whether the connection can carry another request. *)
Definition reusable (close : bool) (status : Z) (buffered : bool) (r : request) : bool :=
  negb close && negb (rq_close r) && negb buffered && negb (status =? 101) && (rq_11 r || rq_keep r).

Definition OnData (k : Z) (p : parsed) (w : Client) : Client * list instr :=
  let x := kget k w in
  let w := kput k (x <| cc_received := true |>) w in
  if cc_closed x then (w, [])
  else match cc_current x with None => (w, [IDiscard k]) | Some r => (w, [IParse k r p]) end.

Definition OnData_parsed (k r : Z) (p : parsed) (w : Client) : list instr :=
  match p with
  | PMore => []
  | PError => [IDetach r; IBroken k r]
  | PResponse close status buffered => [IAnswer k r (reusable close status buffered (rget r w))]
  end.

(** [OnClose] once it found the connection settled, for HTTP/1. *)
Definition OnClose_h1 (k : Z) (last : bool) (w : Client) : Client * list instr :=
  let x := kget k w in
  let w := kput k (x <| cc_current := None |> <| cc_closed := true |>) w in
  (w, IForget k :: match cc_current x with Some r => [IDetach r; ILast (cc_host x) r (cc_reused x && negb (cc_received x)) last] | None => [] end).

(** What becomes of the request that a connection carried when it closed. *)
Definition OnClose_last (t : hostTarget) (r : Z) (retry last : bool) (w : Client) : Client * list instr * list (list instr) :=
  if last then (w, [], [[IFinish r Responded]])
  else if retry && retryable (rget r w) then (rput r (rget r w <| rq_retried := true |>) w, [IEnqueue t r true], [])
  else (w, [], [[IFinish r (Failed ErrConn)]]).

(** ** HTTP/2 *)

Definition startH2 (k : Z) (w : Client) : Client := kput k (kget k w <| cc_maxStreams := 100 |> <| cc_h2 := Some (MkH2Conn ∅ 1 false false false) |>) w.

Definition h2get (k : Z) (w : Client) : h2Conn := default (MkH2Conn ∅ 1 true true false) (cc_h2 (kget k w)).
Definition h2put (k : Z) (c : h2Conn) (w : Client) : Client := kput k (kget k w <| cc_h2 := Some c |>) w.

(** [h2ClientConn.send] under the connection's lock. *)
Definition h2_send (k r : Z) (w : Client) : Client * list instr :=
  let c := h2get k w in
  let t := cc_host (kget k w) in
  if hc_closed c || hc_goAway c then (w, [IDetach r; IStreamDone k; IEnqueue t r true])
  else
    match h2RequestFields unicode_lower (rq_out (rget r w)) (secure t) with
    | None => (w, [IDetach r; IStreamDone k; IFinish r (Failed ErrFields)])
    | Some _ =>
        let id := hc_nextID c in
        let w := tear (bool_decide (is_Some (hc_streams c !! id))) (rput r (rget r w <| rq_streamID := id |>) w) in
        (h2put k (c <| hc_nextID := u32 (id + 2) |> <| hc_streams := <[id := (r, false)]> (hc_streams c) |>) w, [])
    end.

Definition cancel (k r : Z) (w : Client) : Client * list instr :=
  let c := h2get k w in
  let id := rq_streamID (rget r w) in
  match hc_streams c !! id with
  | Some (r', _) => if r' =? r then (h2put k (c <| hc_streams := delete id (hc_streams c) |>) w, [IStreamDone k]) else (w, [])
  | None => (w, [])
  end.

Definition shutdown (k : Z) (w : Client) : Client * list instr :=
  let c := h2get k w in
  (h2put k (c <| hc_closed := true |> <| hc_streams := ∅ |>) w,
   mjoin ((fun id => match hc_streams c !! id with Some (r, received) => [IDetach r; IShut (cc_host (kget k w)) r received] | None => [] end) <$> range (dom (hc_streams c)))).

(** What [shutdown] does with the request of a stream. *)
Definition shutdown_request (t : hostTarget) (r : Z) (received : bool) (w : Client) : Client * list instr * list (list instr) :=
  if negb received && retryable (rget r w) then (rput r (rget r w <| rq_retried := true |>) w, [IEnqueue t r true], [])
  else (w, [], [[IFinish r (Failed ErrConn)]]).

Definition endStream (k id : Z) (retry : bool) (code : Z) (w : Client) : Client * list instr :=
  let c := h2get k w in
  match hc_streams c !! id with
  | None => (w, [])
  | Some (r, _) =>
      (h2put k (c <| hc_streams := delete id (hc_streams c) |>) w,
       [IDetach r; IStreamDone k; if retry : bool then IEnqueue (cc_host (kget k w)) r true else IFinish r (Failed (ErrStream code))])
  end.

Definition complete (k id : Z) (w : Client) : Client * list instr :=
  let c := h2get k w in
  match hc_streams c !! id with
  | None => (w, [])
  | Some (r, _) => (h2put k (c <| hc_streams := delete id (hc_streams c) |>) w, [IDetach r; IStreamDone k; IFinish r Responded])
  end.

Definition handleGoAway (k last : Z) (w : Client) : Client * list instr :=
  let c := h2get k w in
  let unprocessed := filter (fun id => last < id) (range (dom (hc_streams c))) in
  (h2put k (c <| hc_goAway := true |> <| hc_streams := filter (fun p => ~ last < p.1) (hc_streams c) |>) w,
   IRetire k :: mjoin ((fun id => match hc_streams c !! id with Some (r, _) => [IDetach r; IStreamDone k; IEnqueue (cc_host (kget k w)) r true] | None => [] end) <$> unprocessed)).

(** [h2ClientConn.fail] *)
Definition fail (k : Z) (w : Client) : Client := h2put k (h2get k w <| hc_goAway := true |> <| hc_failed := true |>) w.

Definition on_frame (k : Z) (f : h2_event) (w : Client) : Client * list instr :=
  match f with
  | FReceived id =>
      let c := h2get k w in
      (match hc_streams c !! id with Some (r, _) => h2put k (c <| hc_streams := <[id := (r, true)]> (hc_streams c) |>) w | None => w end, [])
  | FComplete id => complete k id w
  | FFault id code => endStream k id false code w
  | FReset id code => endStream k id (code =? 7) code w
  | FMaxStreams n => dispatchLocked (cc_host (kget k w)) (kput k (kget k w <| cc_maxStreams := n |>) w)
  | FGoAway last => handleGoAway k last w
  | FConnError => (fail k w, [IRetire k])
  end.

(** [Client.Close] *)
Definition close_host (w : Client) (t : hostTarget) : Client * list Z * list Z :=
  let h := hget t w in
  (hput t (h <| h_idle := [] |> <| h_waiting := [] |>) w, h_idle h ++ filter (fun k => cc_streams (kget k w) = 0) (h_h2 h), h_waiting h).

Definition Close (w : Client) : Client * list instr :=
  if c_closed w then (w, [])
  else
    let '(w, idle, waiting) := fold_left (fun '(w, idle, waiting) t => let '(w, i, q) := close_host w t in (w, idle ++ i, waiting ++ q)) (hrange (dom (hosts w))) (w <| c_closed := true |>, [], []) in
    (w, (IDiscard <$> idle) ++ ((fun r => IFinish r (Failed ErrClientClosed)) <$> waiting)).

(** * Steps *)

Abbreviation result := (Client * list instr * list (list instr))%type.
Definition only (p : Client * list instr) : result := (p, []).

(** A critical section: the state it leaves, what its goroutine goes on with, and
    the goroutines it starts. *)
Definition exec (i : instr) (w : Client) : result :=
  match i with
  | IEnqueue t r retry => only (enqueue t r retry w)
  | IDial t => only (dial t w, [])
  | ISend k r => only (send k r w)
  | IAttach k r => let '(ok, w) := attach k r w in only (w, if ok : bool then [] else [IGiveBack k r])
  | IGiveBack k r => only (unload k r w, [IRelease k])
  | IRelease k => only (release k w)
  | IDiscard k => only (discard k None w, [])
  | IAbandoned k r => only (discard k (Some r) w, [])
  | IBroken k r => only (discard k (Some r) w, [IFinish r (Failed ErrResponse)])
  | IFinish r o => only ((finish r o w).2, [])
  | IAbort r => let '(called, w) := finish r (Failed ErrAborted) w in only (w, if called : bool then [IAbandon r] else [])
  | IAbandon r =>
      only (detach r w,
            match rq_conn (rget r w) with
            | None => []
            | Some k => match cc_h2 (kget k w) with Some _ => [IH2Cancel k r] | None => [IAbandoned k r] end
            end)
  | IDetach r => only (detach r w, [])
  | IDialed k err => only (dialed k err w)
  | IPool k err => dialed_pool k err w
  | IUp k => only (kput k (kget k w <| cc_phase := PUp |> <| cc_ready := true |>) w, [])
  | IReady k => only (kput k (kget k w <| cc_ready := true |>) w, [])
  | IExpire k => only (expireIdle k w)
  | IStreamDone k => only (streamDone k w)
  | IRetire k => only (retire k w, [])
  | IData k p => only (OnData k p w)
  | IParse k r p => only (w, OnData_parsed k r p w)
  | IAnswer k r again => only (unload k r w, [IDetach r; if again : bool then IRelease k else IDiscard k; IFinish r Responded])
  | IClose k last =>
      only (w, if negb (cc_settled (kget k w)) then [ICloseDial k] else match cc_h2 (kget k w) with Some _ => [ICloseH2 k] | None => [ICloseH1 k last] end)
  | ICloseDial k => only (kput k (kget k w <| cc_closed := true |>) w, [IDialed k true])
  | ICloseH1 k last => only (OnClose_h1 k last w)
  | ICloseH2 k => only (kput k (kget k w <| cc_closed := true |>) w, [IForget k; IShutdown k])
  | IForget k => only (forget k w)
  | ILast t r retry last => OnClose_last t r retry last w
  | IShutdown k => only (shutdown k w)
  | IShut t r received => shutdown_request t r received w
  | IH2Send k r => let '(ok, w) := attach k r w in only (w, if ok : bool then [IH2Open k r] else [IStreamDone k])
  | IH2Open k r => only (h2_send k r w)
  | IH2Cancel k r => only (cancel k r w)
  | IFrame k f => only (on_frame k f w)
  | IClientClose => only (Close w)
  end.

(** What comes from outside. *)
Inductive event :=
| EDo (q : OutRequest) (hostname port : bytes) (close http10 keep : bool) (written : option bytes)
| EConnected (k : Z)
| EDialFailed (k : Z)
| EHandshake (k : Z) (h2 : bool)
| EData (k : Z) (p : parsed)
| EFrames (k : Z) (fs : list h2_event)
| EClosed (k : Z) (last : bool)
| EAbort (r : Z)
| EExpire (k : Z)
| EClose.

(** The goroutine it starts; [None] if it cannot happen. *)
Definition happen (e : event) (w : Client) : option (Client * list instr) :=
  match e with
  | EDo q hostname port close http10 keep written =>
      let r := nextReq w in
      let w := w <| nextReq := r + 1 |> in
      match requestTarget (oScheme q) hostname port, marshalRequest http10 written with
      | Some t, Some _ => Some (rput r (MkPoolRequest q close (negb http10) keep false false None 0) w, [IEnqueue t r false])
      | _, _ => Some (w <| answers := answers w ++ [(r, Failed ErrRejected)] |>, [])
      end
  | EConnected k =>
      let x := kget k w in
      if bool_decide (cc_phase x = PDialing) then
        if secure (cc_host x) then Some (kput k (x <| cc_phase := PUp |>) w, [])
        else
          let w := kput k (x <| cc_phase := POpening |> <| cc_begun := true |>) w in
          Some (if UnencryptedHTTP2 cfg then startH2 k w else w, [IDialed k false; IUp k])
      else None
  | EDialFailed k => if bool_decide (cc_phase (kget k w) = PDialing) then Some (kput k (kget k w <| cc_phase := PFailed |>) w, [IDialed k true]) else None
  | EHandshake k h2 =>
      let x := kget k w in
      if secure (cc_host x) && (bool_decide (cc_phase x = PUp) || bool_decide (cc_phase x = PClosed)) && negb (cc_begun x) then
        let w := kput k (x <| cc_begun := true |>) w in
        Some (if h2 : bool then startH2 k w else w, [IDialed k false; IReady k])
      else None
  | EData k p =>
      let x := kget k w in
      if cc_ready x && bool_decide (cc_h2 x = None) then Some (kput k (x <| cc_ready := false |>) w, [IData k p; IReady k]) else None
  | EFrames k fs =>
      let x := kget k w in
      if cc_ready x && negb (bool_decide (cc_h2 x = None)) then Some (kput k (x <| cc_ready := false |>) w, (IFrame k <$> fs) ++ [IReady k]) else None
  | EClosed k last => if bool_decide (cc_phase (kget k w) = PUp) then Some (kput k (kget k w <| cc_phase := PClosed |>) w, [IClose k last]) else None
  | EAbort r => if r <? nextReq w then Some (w, [IAbort r]) else None
  | EExpire k => if cc_idle (kget k w) then Some (w, [IExpire k]) else None
  | EClose => Some (w, [IClientClose])
  end.

(** A step: something happens, or the goroutine at some place goes on. *)
Inductive choice := Happens (e : event) | Goes (n : nat).

Abbreviation state := (list (list instr) * Client)%type.

Definition choose (c : choice) (s : state) : option state :=
  let '(threads, w) := s in
  match c with
  | Happens e => let? (w, todo) := happen e w in Some (threads ++ [todo], w)
  | Goes n =>
      match threads !! n with
      | Some (i :: todo) => let '(w, next, spawned) := exec i w in Some (<[n := next ++ todo]> threads ++ spawned, w)
      | _ => None
      end
  end.

Definition step (s s' : state) : Prop := exists c, choose c s = Some s'.

Definition NewClient : Client := MkPool ∅ false ∅ 0 ∅ 0 [] false.

Fixpoint run (cs : list choice) (s : state) : option state :=
  match cs with [] => Some s | c :: cs => let? s := choose c s in run cs s end.
End pool.
