(* ===== verification/HttpPoolInv.v ===== *)
(** The invariant of the HTTP client's pool (HttpPool) and its preservation by
    every critical section.

    The goroutines count as one bag of instructions, whatever the order in which
    they run.  [cinv] is what holds of a connection and of the instructions that
    concern it; [inv] adds the hosts and the requests. *)
From S2P Require Import Prelude.
From S2P Require Import Hpack.
From S2P Require Import GoText.
From S2P Require Import Http3Client.
From S2P Require Import HttpPool.
Import HttpPool.

(** * Instructions *)

(** The connections an instruction is about. *)
Definition conns_of (i : instr) : list Z :=
  match i with
  | ISend k _ | IAttach k _ | IGiveBack k _ | IRelease k | IDiscard k | IAbandoned k _ | IBroken k _ | IDialed k _ | IPool k _ | IUp k | IReady k | IExpire k | IStreamDone k
  | IRetire k | IData k _ | IParse k _ _ | IAnswer k _ _ | IClose k _ | ICloseDial k | ICloseH1 k _ | ICloseH2 k | IForget k | IShutdown k | IH2Send k _ | IH2Open k _ | IH2Cancel k _
  | IFrame k _ => [k]
  | IEnqueue _ _ _ | IDial _ | IFinish _ _ | IAbort _ | IAbandon _ | IDetach _ | ILast _ _ _ _ | IShut _ _ _ | IClientClose => []
  end.

(** It leads to the connection no longer counting as open. *)
Definition closer (k : Z) (i : instr) : bool :=
  match i with IClose k' _ | ICloseDial k' | IDialed k' true | ICloseH1 k' _ | ICloseH2 k' | IForget k' | IPool k' true => k' =? k | _ => false end.

(** [OnClose] before it marked the connection as closed, or settled its dial. *)
Definition closing (k : Z) (i : instr) : bool :=
  match i with IClose k' _ | ICloseDial k' | IDialed k' true | ICloseH1 k' _ | ICloseH2 k' => k' =? k | _ => false end.

(** The dial failed, and the client has not been told. *)
Definition forgets (k : Z) (i : instr) : bool := match i with IForget k' => k' =? k | _ => false end.
Definition poolerr (k : Z) (i : instr) : bool := match i with IPool k' true => k' =? k | _ => false end.

Definition pooler (k : Z) (i : instr) : bool := match i with IPool k' _ => k' =? k | _ => false end.
Definition begins (k : Z) (i : instr) : bool := match i with IDialed k' false => k' =? k | _ => false end.
Definition dialerr (k : Z) (i : instr) : bool := match i with IDialed k' true => k' =? k | _ => false end.
Definition ups (k : Z) (i : instr) : bool := match i with IUp k' => k' =? k | _ => false end.
Definition shuts (k : Z) (i : instr) : bool := match i with IShutdown k' => k' =? k | _ => false end.

(** It has the connection, of HTTP/1, to itself. *)
Definition token (k : Z) (i : instr) : bool :=
  match i with ISend k' _ | IRelease k' | IPool k' false | IDialed k' false => k' =? k | _ => false end.

Definition dialer (t : hostTarget) (i : instr) : bool := match i with IDial t' => bool_decide (t' = t) | _ => false end.

(** It will settle the request, or hand it on. *)
Definition holds (r : Z) (i : instr) : Prop :=
  match i with
  | IEnqueue _ r' _ | ISend _ r' | IBroken _ r' | IFinish r' _ | IAnswer _ r' _ | ILast _ r' _ _ | IShut _ r' _ | IH2Send _ r' | IH2Open _ r' => r' = r
  | _ => False
  end.

Definition kinds0 (k : Z) : list (instr -> bool) := [closer k; closing k; poolerr k; pooler k; begins k; dialerr k; ups k; shuts k].
Definition kinds (k : Z) : list (instr -> bool) := kinds0 k ++ [token k].

(** The same instructions as far as a connection is concerned. *)
Definition alike (k : Z) (A B : list instr) : Prop := Forall (fun p => cnt p A = cnt p B) (kinds k).

Lemma kinds_none k p i : p ∈ kinds k -> k ∉ conns_of i -> p i = false.
Proof.
  unfold kinds, kinds0. rewrite elem_of_app, !elem_of_cons, !elem_of_nil. intros Hp Hk.
  destruct Hp as [[->|[->|[->|[->|[->|[->|[->|[->|[]]]]]]]]]|[->|[]]]; destruct i; cbn in *; try done; try (match goal with |- context [if ?e then _ else _] => destruct e end; try done); try (apply Z.eqb_neq; intros ->; apply Hk; apply list_elem_of_here).
Qed.

Lemma cnt_off {A} (p : A -> bool) l : Forall (fun i => p i = false) l -> cnt p l = 0.
Proof. induction 1 as [|i l E _ IH]; [done|]. cbn. by rewrite E, IH. Qed.

Lemma alike_none k A B : Forall (fun i => k ∉ conns_of i) A -> Forall (fun i => k ∉ conns_of i) B -> alike k A B.
Proof.
  intros HA HB. apply Forall_forall. intros p Hp. rewrite !cnt_off; [done|eapply Forall_impl; [exact HB|]|eapply Forall_impl; [exact HA|]]; intros i Hi; by apply (kinds_none k).
Qed.

Lemma cnt_perm {A} (p : A -> bool) l l' : l ≡ₚ l' -> cnt p l = cnt p l'.
Proof. induction 1; cbn; lia. Qed.

Lemma cnt_elem {A} (p : A -> bool) l : 0 < cnt p l -> exists x, x ∈ l /\ p x = true.
Proof. intros (i & x & Hi & Hx)%cnt_pos_inv. exists x. split; [by eapply list_elem_of_lookup_2|done]. Qed.

Lemma alike_refl k A : alike k A A.
Proof. by apply Forall_forall. Qed.

Lemma alike_app k A B J : alike k A B -> alike k (A ++ J) (B ++ J).
Proof. intros H. eapply Forall_impl; [exact H|]. intros p E. by rewrite !cnt_app, E. Qed.

Lemma closers k I : cnt (closer k) I = cnt (closing k) I + cnt (forgets k) I + cnt (poolerr k) I.
Proof. induction I as [|i I IH]; [done|]. cbn [cnt]. rewrite IH. destruct i; cbn [closer closing forgets poolerr]; try destruct err; cbn [Z.b2z]; try destruct (_ =? _); cbn; lia. Qed.

Lemma poolerrs k I : cnt (poolerr k) I <= cnt (pooler k) I.
Proof. induction I as [|i I IH]; [done|]. cbn [cnt]. destruct i; cbn [poolerr pooler]; try destruct err; cbn [Z.b2z]; try destruct (_ =? _); cbn; lia. Qed.

(** * Connections *)

Definition ended (p : phase) : bool := match p with PFailed | PClosed => true | _ => false end.

Definition busy (x : clientConn) : Z := match cc_current x with Some _ => 1 | None => 0 end.

Definition streams_of (x : clientConn) : gmap Z (Z * bool) := match cc_h2 x with Some c => hc_streams c | None => ∅ end.

Record cinv (k : Z) (x : clientConn) (idle : Z) (I : list instr) : Prop := {
  c_close : cnt (closer k) I + Z.b2z (cc_back x) = Z.b2z (ended (cc_phase x));
  c_pool : cnt (pooler k) I + Z.b2z (cc_pooled x) = Z.b2z (cc_settled x);
  c_back : cc_back x = true -> cc_pooled x = true;
  c_up : cnt (ups k) I = Z.b2z (bool_decide (cc_phase x = POpening));
  c_begun : cc_begun x = false -> cc_won x = false /\ cc_h2 x = None /\ cnt (begins k) I = 0;
  c_won : cc_won x = true -> cc_settled x = true;
  c_lost : cc_settled x = true -> cc_won x = false -> 0 < cnt (poolerr k) I + Z.b2z (cc_back x);
  c_early : cc_phase x = PDialing \/ cc_phase x = PFailed -> cc_begun x = false;
  c_unwon : cc_won x = false -> cc_current x = None /\ streams_of x = ∅;
  c_h2 : is_Some (cc_h2 x) -> cc_current x = None;
  c_shut : forall c, cc_h2 x = Some c -> hc_closed c = true -> hc_streams c = ∅;
  c_token : cc_h2 x = None -> cc_closed x = false -> cnt (token k) I + idle + busy x <= 1;
  c_end : cc_phase x = PClosed -> cc_won x = true -> cc_closed x = false -> 0 < cnt (closing k) I;
  c_end2 : forall c, cc_phase x = PClosed -> cc_won x = true -> cc_h2 x = Some c -> hc_closed c = false -> 0 < cnt (closing k) I + cnt (shuts k) I;
  c_stuck : is_Some (cc_current x) -> cc_closed x = true -> 0 < cnt (dialerr k) I;
}.

Lemma alike_eqs k A B : alike k A B -> cnt (closer k) A = cnt (closer k) B /\ cnt (closing k) A = cnt (closing k) B /\ cnt (poolerr k) A = cnt (poolerr k) B /\ cnt (pooler k) A = cnt (pooler k) B /\ cnt (begins k) A = cnt (begins k) B /\
  cnt (dialerr k) A = cnt (dialerr k) B /\ cnt (ups k) A = cnt (ups k) B /\ cnt (shuts k) A = cnt (shuts k) B /\ cnt (token k) A = cnt (token k) B.
Proof. unfold alike, kinds, kinds0. rewrite Forall_app, !Forall_cons. tauto. Qed.

Lemma cinv_alike k x n A B : alike k A B -> cinv k x n A -> cinv k x n B.
Proof. intros (E1 & E2 & E3 & E4 & E5 & E6 & E7 & E8 & E9)%alike_eqs []. constructor; rewrite <- ?E1, <- ?E2, <- ?E3, <- ?E4, <- ?E5, <- ?E6, <- ?E7, <- ?E8, <- ?E9; done. Qed.

(** A token may go from the instructions to the idle list, or back, or get lost. *)
Lemma cinv_trade k x n n' A B : Forall (fun p => cnt p A = cnt p B) (kinds0 k) -> (cc_h2 x = None -> cnt (token k) B + n' <= cnt (token k) A + n) -> cinv k x n A -> cinv k x n' B.
Proof.
  unfold kinds0. rewrite !Forall_cons. intros (E1 & E2 & E3 & E4 & E5 & E6 & E7 & E8 & _) Ht [].
  constructor; rewrite <- ?E1, <- ?E2, <- ?E3, <- ?E4, <- ?E5, <- ?E6, <- ?E7, <- ?E8; try done. intros H1 H2. specialize (c_token0 H1 H2). specialize (Ht H1). lia.
Qed.

(** ** Looking up and changing *)

Lemma pkget_kput k k' x w : kget k (kput k' x w) = if decide (k = k') then x else kget k w.
Proof. unfold kget, kput. cbn. destruct (decide (k = k')) as [->|]; [by rewrite lookup_insert_eq|by rewrite lookup_insert_ne]. Qed.
Lemma pkget_same k x w : kget k (kput k x w) = x.
Proof. rewrite pkget_kput. by rewrite decide_True. Qed.
Lemma prget_rput r r' x w : rget r (rput r' x w) = if decide (r = r') then x else rget r w.
Proof. unfold rget, rput. cbn. destruct (decide (r = r')) as [->|]; [by rewrite lookup_insert_eq|by rewrite lookup_insert_ne]. Qed.
Lemma hget_hput t t' x w : hget t (hput t' x w) = if decide (t = t') then x else hget t w.
Proof. unfold hget, hput. cbn. destruct (decide (t = t')) as [->|]; [by rewrite lookup_insert_eq|by rewrite lookup_insert_ne]. Qed.

Lemma kget_hput k t x w : kget k (hput t x w) = kget k w. Proof. done. Qed.
Lemma kget_rput k r x w : kget k (rput r x w) = kget k w. Proof. done. Qed.
Lemma rget_kput r k x w : rget r (kput k x w) = rget r w. Proof. done. Qed.
Lemma rget_hput r t x w : rget r (hput t x w) = rget r w. Proof. done. Qed.
Lemma hget_kput t k x w : hget t (kput k x w) = hget t w. Proof. done. Qed.
Lemma hget_rput t r x w : hget t (rput r x w) = hget t w. Proof. done. Qed.

(** What a measure of the connections becomes. *)
Lemma msum_kput (f : clientConn -> Z) k x w : f no_conn = 0 -> msum f (ccs (kput k x w)) = msum f (ccs w) + f x - f (kget k w).
Proof.
  intros H0. unfold kput, kget. cbn. destruct (ccs w !! k) as [y|] eqn:E; cbn.
  - by rewrite (msum_set f _ _ y).
  - rewrite msum_new by done. lia.
Qed.

(** * Everything *)

Section inv.
Context (cfg : poolConfig).
Implicit Types (w : HttpPool.Client) (x : clientConn) (I J : list instr).

(** What an instruction takes for granted. *)
Definition ok w (i : instr) : Prop :=
  match i with
  | ISend k _ | IPool k false => cc_won (kget k w) = true
  | IGiveBack k r => cc_won (kget k w) = true /\ cc_h2 (kget k w) = None /\ rq_done (rget r w) = true
  | IAttach k _ | IRelease k | IParse k _ _ | IAnswer k _ _ | IBroken k _ => cc_won (kget k w) = true /\ cc_h2 (kget k w) = None
  | IDialed k false => cc_begun (kget k w) = true
  | IH2Send k _ | IH2Open k _ => cc_won (kget k w) = true /\ is_Some (cc_h2 (kget k w))
  | IH2Cancel k r => cc_begun (kget k w) = true /\ is_Some (cc_h2 (kget k w)) /\ rq_done (rget r w) = true
  | IFrame k _ | IShutdown k => cc_begun (kget k w) = true /\ is_Some (cc_h2 (kget k w))
  | ICloseH1 k _ => cc_begun (kget k w) = true /\ cc_settled (kget k w) = true /\ cc_h2 (kget k w) = None
  | ICloseH2 k => cc_begun (kget k w) = true /\ cc_settled (kget k w) = true /\ is_Some (cc_h2 (kget k w))
  | IForget k => cc_settled (kget k w) = true
  | IAbandon r | IAbandoned _ r => rq_done (rget r w) = true
  | _ => True
  end.

Definition known w (i : instr) : Prop := Forall (fun k => 0 <= k < nextConn w) (conns_of i).

(** A connection has the request. *)
Definition has x (r : Z) : Prop := cc_current x = Some r \/ exists id b, streams_of x !! id = Some (r, b).

Definition is_open (t : hostTarget) x : Z := Z.b2z (bool_decide (cc_host x = t) && negb (cc_back x)).
Definition is_dialing (t : hostTarget) x : Z := Z.b2z (bool_decide (cc_host x = t) && negb (cc_pooled x)).

Lemma is_open_other t x : t <> cc_host x -> is_open t x = 0.
Proof. intros H. unfold is_open. by rewrite bool_decide_eq_false_2. Qed.
Lemma is_dialing_other t x : t <> cc_host x -> is_dialing t x = 0.
Proof. intros H. unfold is_dialing. by rewrite bool_decide_eq_false_2. Qed.

Definition idle_at (k : Z) w : Z := cnt (fun k' => k' =? k) (h_idle (hget (cc_host (kget k w)) w)).

(** [ex] is a host whose waiting requests are still to be seen to. *)
Record inv (ex : option hostTarget) w I : Prop := {
  i_torn : torn w = false;
  i_fresh : forall k, is_Some (ccs w !! k) -> 0 <= k < nextConn w;
  i_known : Forall (known w) I;
  i_conn : forall k, cinv k (kget k w) (idle_at k w) I;
  i_ok : Forall (ok w) I;
  i_open : forall t, h_open (hget t w) = msum (is_open t) (ccs w) + cnt (dialer t) I;
  i_dialing : forall t, h_dialing (hget t w) = msum (is_dialing t) (ccs w) + cnt (dialer t) I;
  i_max : forall t, 0 < MaxConnsPerHost cfg -> h_open (hget t w) <= MaxConnsPerHost cfg;
  i_wait : forall t, ex <> Some t -> h_waiting (hget t w) <> [] -> 0 < h_open (hget t w);
  i_idle : forall t k, k ∈ h_idle (hget t w) -> cc_won (kget k w) = true /\ cc_h2 (kget k w) = None /\ cc_host (kget k w) = t;
  i_h2 : forall t k, k ∈ h_h2 (hget t w) -> cc_won (kget k w) = true /\ is_Some (cc_h2 (kget k w)) /\ cc_host (kget k w) = t;
  i_rconn : forall r k, rq_conn (rget r w) = Some k -> cc_won (kget k w) = true;
  i_answers : NoDup (answers w).*1;
  i_done : forall r, r ∈ (answers w).*1 <-> 0 <= r < nextReq w /\ rq_done (rget r w) = true;
  i_live : forall r, rq_done (rget r w) = false -> 0 <= r < nextReq w;
  i_next : 0 <= nextConn w /\ 0 <= nextReq w;
  i_owned : forall r, rq_done (rget r w) = false -> (exists t, r ∈ h_waiting (hget t w)) \/ Exists (holds r) I \/ exists k, has (kget k w) r;
}.

Lemma inv_perm ex w I J : I ≡ₚ J -> inv ex w I -> inv ex w J.
Proof.
  intros P []. constructor; try done; try (by rewrite <- P).
  - intros k. apply (cinv_alike k _ _ I); [|done]. apply Forall_forall. intros p _. by apply cnt_perm.
  - intros t. by rewrite <- (cnt_perm _ _ _ P).
  - intros t. by rewrite <- (cnt_perm _ _ _ P).
  - intros r Hr. rewrite <- P. auto.
Qed.

(** A connection that was dialed for is one. *)
Lemma won_known ex w I k : inv ex w I -> cc_won (kget k w) = true -> 0 <= k < nextConn w.
Proof. intros V E. apply (i_fresh _ _ _ V). unfold kget in E. destruct (ccs w !! k); [eauto|done]. Qed.

(** ** Changing a connection *)

(** What a connection keeps. *)
Definition later x x' : Prop :=
  cc_host x' = cc_host x /\ (cc_won x = true -> cc_won x' = true) /\ (cc_settled x = true -> cc_settled x' = true) /\
  (cc_begun x = true -> cc_begun x' = true /\ (cc_h2 x = None <-> cc_h2 x' = None)).

Lemma plater_refl x : later x x. Proof. done. Qed.

Lemma some_iff {A} (a b : option A) : (a = None <-> b = None) -> is_Some a -> is_Some b.
Proof. intros H [y ->]. destruct b; [eauto|]. by destruct H as [_ H]; specialize (H eq_refl). Qed.

Lemma ok_later w w' i : (forall k, later (kget k w) (kget k w')) -> (forall k, cc_won (kget k w) = true -> cc_begun (kget k w) = true) ->
  (forall r, rq_done (rget r w) = true -> rq_done (rget r w') = true) -> ok w i -> ok w' i.
Proof.
  intros L B D. assert (Hw : forall k, cc_won (kget k w) = true -> cc_won (kget k w') = true) by (intros k; apply (L k)).
  assert (Hs : forall k, cc_settled (kget k w) = true -> cc_settled (kget k w') = true) by (intros k; apply (L k)).
  assert (Hb : forall k, cc_begun (kget k w) = true -> cc_begun (kget k w') = true) by (intros k; apply (L k)).
  assert (Hn : forall k, cc_begun (kget k w) = true -> cc_h2 (kget k w) = None -> cc_h2 (kget k w') = None) by (intros k E; apply (L k); done).
  assert (Hi : forall k, cc_begun (kget k w) = true -> is_Some (cc_h2 (kget k w)) -> is_Some (cc_h2 (kget k w'))) by (intros k E; apply some_iff, (L k); done).
  destruct i; cbn; try done; try (destruct err; naive_solver); naive_solver.
Qed.

Lemma won_begun ex w I k : inv ex w I -> cc_won (kget k w) = true -> cc_begun (kget k w) = true.
Proof. intros V E. destruct (cc_begun (kget k w)) eqn:Eb; [done|]. destruct (c_begun _ _ _ _ (i_conn _ _ _ V k) Eb) as [E' _]. congruence. Qed.

Lemma inv_conn ex w del J k x' out : inv ex w (del ++ J) -> 0 <= k < nextConn w -> later (kget k w) x' -> cc_back x' = cc_back (kget k w) -> cc_pooled x' = cc_pooled (kget k w) ->
  Forall (fun j => Forall (eq k) (conns_of j)) (del ++ out) -> (forall t, cnt (dialer t) (del ++ out) = 0) ->
  cinv k x' (idle_at k w) (out ++ J) -> Forall (ok (kput k x' w)) out ->
  (forall r, rq_done (rget r w) = false -> Exists (holds r) del \/ has (kget k w) r -> Exists (holds r) out \/ has x' r) ->
  inv ex (kput k x' w) (out ++ J).
Proof.
  intros V Hk L Eb Ep Hc Hd C O Ho. pose proof V as [? Fr Kn Cn Ok Op Di Mx Wa Id H2 Rc An Dn Lv Nx Ow].
  assert (LL : forall k', later (kget k' w) (kget k' (kput k x' w))) by (intros k'; rewrite pkget_kput; destruct (decide (k' = k)) as [->|]; [done|apply plater_refl]).
  pose proof (fun k' => won_begun ex w _ k' V) as WB. apply Forall_app in Kn as [Kni Kn], Ok as [_ Ok], Hc as [Hci Hc].
  assert (forall t, cnt (dialer t) (out ++ J) = cnt (dialer t) (del ++ J)) as Ed.
  { intros t. specialize (Hd t). rewrite !cnt_app in *. pose proof (cnt_nonneg (dialer t) out). pose proof (cnt_nonneg (dialer t) del). lia. }
  constructor; try done.
  - intros k'. unfold kput. cbn. rewrite lookup_insert_is_Some. intros [<-|[_ H]]; [done|auto].
  - apply Forall_app. split; [|done]. eapply Forall_impl; [exact Hc|]. intros j Hj. unfold known. eapply Forall_impl; [exact Hj|]. by intros ? <-.
  - intros k'. unfold idle_at. rewrite pkget_kput, hget_kput. destruct (decide (k' = k)) as [->|Hne].
    + destruct L as [-> _]. done.
    + eapply cinv_alike; [|apply Cn]. apply alike_app. apply alike_none; [eapply Forall_impl; [exact Hci|]|eapply Forall_impl; [exact Hc|]]; intros j Hj Hin; apply Forall_forall with (x := k') in Hj; congruence.
  - apply Forall_app. split; [done|]. eapply Forall_impl; [exact Ok|]. intros j. apply ok_later; auto.
  - intros t. rewrite msum_kput by (unfold is_open; cbn; by rewrite andb_false_r). rewrite Ed, hget_kput, Op. unfold is_open. destruct L as [-> _]. rewrite Eb. lia.
  - intros t. rewrite msum_kput by (unfold is_dialing; cbn; by rewrite andb_false_r). rewrite Ed, hget_kput, Di. unfold is_dialing. destruct L as [-> _]. rewrite Ep. lia.
  - intros t k' (A & B & D)%Id. specialize (LL k') as (E1 & E2 & _ & E3). rewrite E1. split_and!; auto. apply E3; auto.
  - intros t k' (A & B & D)%H2. specialize (LL k') as (E1 & E2 & _ & E3). rewrite E1. split_and!; auto. eapply some_iff; [apply E3; auto|done].
  - intros r k' E%Rc. by apply LL.
  - intros r Hr. assert (Hi : Exists (holds r) del \/ has (kget k w) r -> Exists (holds r) (out ++ J) \/ exists k', has (kget k' (kput k x' w)) r).
    { intros H. destruct (Ho r Hr H) as [?|?]; [left; apply Exists_app; by left|right; exists k; by rewrite pkget_same]. }
    destruct (Ow r Hr) as [H|[[H|H]%Exists_app|[k' H]]]; [by left|right; auto|right; left; apply Exists_app; by right|right].
    destruct (decide (k' = k)) as [->|Hne]; [auto|]. right. exists k'. rewrite pkget_kput. by rewrite decide_False.
Qed.

(** Only the instructions change. *)
Lemma inv_swap ex w del J out : inv ex w (del ++ J) -> (forall k, cinv k (kget k w) (idle_at k w) (out ++ J)) -> (forall t, cnt (dialer t) out = cnt (dialer t) del) ->
  Forall (known w) out -> Forall (ok w) out -> (forall r, rq_done (rget r w) = false -> Exists (holds r) del -> Exists (holds r) out \/ exists k, has (kget k w) r) -> inv ex w (out ++ J).
Proof.
  intros [? Fr Kn Cn Ok Op Di Mx Wa Id H2 Rc An Dn Lv Nx Ow] C Hd Ko Oo Ho. apply Forall_app in Kn as [_ Kn], Ok as [_ Ok]. constructor; try done.
  - by apply Forall_app.
  - by apply Forall_app.
  - intros t. by rewrite Op, !cnt_app, Hd.
  - intros t. by rewrite Di, !cnt_app, Hd.
  - intros r Hr. destruct (Ow r Hr) as [H|[[H|H]%Exists_app|H]]; [by left| |right; left; apply Exists_app; by right|right; by right].
    destruct (Ho r Hr H); [right; left; apply Exists_app; by left|right; by right].
Qed.

(** A request changes, but not whether it is done. *)
Lemma inv_req ex w del J r y out : inv ex w (del ++ J) -> (forall k, alike k del out) -> (forall t, cnt (dialer t) out = cnt (dialer t) del) ->
  Forall (known w) out -> rq_done y = rq_done (rget r w) -> (forall k, rq_conn y = Some k -> cc_won (kget k w) = true) -> Forall (ok (rput r y w)) out ->
  (forall r', rq_done (rget r' w) = false -> Exists (holds r') del -> Exists (holds r') out \/ exists k, has (kget k w) r') ->
  inv ex (rput r y w) (out ++ J).
Proof.
  intros V Al Hd Ko Ey Hc Oo Ho. pose proof V as [? Fr Kn Cn Ok Op Di Mx Wa Id H2 Rc An Dn Lv Nx Ow]. apply Forall_app in Kn as [_ Kn], Ok as [_ Ok].
  assert (Ed : forall r', rq_done (rget r' (rput r y w)) = rq_done (rget r' w)) by (intros r'; rewrite prget_rput; destruct (decide (r' = r)) as [->|]; congruence).
  constructor; try done.
  - by apply Forall_app.
  - intros k. eapply cinv_alike; [|apply Cn]. by apply alike_app.
  - apply Forall_app. split; [done|]. eapply Forall_impl; [exact Ok|]. intros j. apply ok_later; [intros; apply plater_refl|exact (fun k => won_begun ex w _ k V)|]. intros r'. by rewrite Ed.
  - intros t. rewrite hget_rput, Op, !cnt_app, Hd. done.
  - intros t. rewrite hget_rput, Di, !cnt_app, Hd. done.
  - intros r' k. rewrite prget_rput. destruct (decide (r' = r)); [apply Hc|apply Rc].
  - intros r'. rewrite Ed. apply Dn.
  - intros r'. rewrite Ed. apply Lv.
  - intros r'. rewrite Ed. intros Hr. destruct (Ow r' Hr) as [H|[[H|H]%Exists_app|H]]; [by left| |right; left; apply Exists_app; by right|right; by right].
    destruct (Ho r' Hr H); [right; left; apply Exists_app; by left|right; by right].
Qed.

(** A request is done. *)
Lemma inv_finish ex w del J r o out : inv ex w (del ++ J) -> (forall k, alike k del out) -> (forall t, cnt (dialer t) out = cnt (dialer t) del) ->
  Forall (known w) out -> Forall (ok (finish r o w).2) out -> (forall r', Exists (holds r') del -> r' = r \/ Exists (holds r') out) ->
  inv ex (finish r o w).2 (out ++ J).
Proof.
  intros V Al Hd Ko Oo Ho. pose proof V as [? Fr Kn Cn Ok Op Di Mx Wa Id H2 Rc An Dn Lv Nx Ow]. apply Forall_app in Kn as [_ Kn], Ok as [_ Ok].
  assert (Hh : forall r', rq_done (rget r' w) = false -> r' <> r -> (exists t, r' ∈ h_waiting (hget t w)) \/ Exists (holds r') (out ++ J) \/ exists k, has (kget k w) r').
  { intros r' Hr Hne. destruct (Ow r' Hr) as [H|[[H|H]%Exists_app|H]]; [by left| |right; left; apply Exists_app; by right|right; by right].
    destruct (Ho r' H); [done|]. right; left; apply Exists_app; by left. }
  revert Oo. unfold finish. destruct (rq_done (rget r w)) eqn:Er; cbn [snd]; intros Oo.
  - apply (inv_swap ex w del); try done; [intros k; eapply cinv_alike; [|apply Cn]; by apply alike_app|]. intros r' Hr H. destruct (Ho r' H) as [->|?]; [congruence|by left].
  - set (w' := rput _ _ _ <| answers := _ |>).
    assert (Ed : forall r', rq_done (rget r' w') = if decide (r' = r) then true else rq_done (rget r' w)) by (intros r'; change (rget r' w') with (rget r' (rput r (rget r w <| rq_done := true |>) w)); rewrite prget_rput; by destruct (decide (r' = r))).
    assert (Hin : r ∉ (answers w).*1) by (rewrite Dn; intros [_ E]; congruence).
    constructor; try done.
    + by apply Forall_app.
    + intros k. eapply cinv_alike; [|apply Cn]. by apply alike_app.
    + apply Forall_app. split; [done|]. eapply Forall_impl; [exact Ok|]. intros j. apply (ok_later w w'); [intros; apply plater_refl|exact (fun k => won_begun ex w _ k V)|]. intros r'. rewrite Ed. by destruct (decide (r' = r)).
    + intros t. change (hget t w') with (hget t w). rewrite Op, !cnt_app, Hd. done.
    + intros t. change (hget t w') with (hget t w). rewrite Di, !cnt_app, Hd. done.
    + intros r' k. change (rget r' w') with (rget r' (rput r (rget r w <| rq_done := true |>) w)). rewrite prget_rput. destruct (decide (r' = r)) as [->|]; [apply (Rc r)|apply Rc].
    + change (answers w') with (answers w ++ [(r, o)]). rewrite fmap_app. change ([(r, o)].*1) with [r]. apply NoDup_app. split_and!; [done| |apply NoDup_singleton]. intros r' Hr' ->%list_elem_of_singleton. done.
    + intros r'. change (answers w') with (answers w ++ [(r, o)]). rewrite fmap_app. change ([(r, o)].*1) with [r]. rewrite elem_of_app, list_elem_of_singleton, Ed, Dn. change (nextReq w') with (nextReq w). cbn.
      destruct (decide (r' = r)) as [->|]; [|naive_solver]. split; [auto|]. intros _. by right.
    + intros r'. rewrite Ed. destruct (decide (r' = r)); [done|apply Lv].
    + intros r'. rewrite Ed. destruct (decide (r' = r)); [done|]. by intros Hr; apply Hh.
Qed.

(** A host changes. *)
Lemma inv_host ex ex' w del J t h' out : inv ex w (del ++ J) ->
  (forall k, k ∈ h_idle h' -> k ∈ h_idle (hget t w) \/ cc_won (kget k w) = true /\ cc_h2 (kget k w) = None /\ cc_host (kget k w) = t) ->
  (forall k, k ∈ h_h2 h' -> k ∈ h_h2 (hget t w) \/ cc_won (kget k w) = true /\ is_Some (cc_h2 (kget k w)) /\ cc_host (kget k w) = t) ->
  (forall k, cinv k (kget k w) (if decide (cc_host (kget k w) = t) then cnt (fun k' => k' =? k) (h_idle h') else idle_at k w) (out ++ J)) ->
  (forall t', t' <> t -> cnt (dialer t') out = cnt (dialer t') del) ->
  h_open h' = h_open (hget t w) + cnt (dialer t) out - cnt (dialer t) del -> h_dialing h' = h_dialing (hget t w) + cnt (dialer t) out - cnt (dialer t) del ->
  (0 < MaxConnsPerHost cfg -> h_open h' <= MaxConnsPerHost cfg) -> (ex' <> Some t -> h_waiting h' <> [] -> 0 < h_open h') -> (forall t', t' <> t -> ex' <> Some t' -> ex <> Some t') ->
  Forall (known w) out -> Forall (ok w) out ->
  (forall r, rq_done (rget r w) = false -> Exists (holds r) del \/ r ∈ h_waiting (hget t w) -> r ∈ h_waiting h' \/ Exists (holds r) out) ->
  inv ex' (hput t h' w) (out ++ J).
Proof.
  intros [? Fr Kn Cn Ok Op Di Mx Wa Id H2 Rc An Dn Lv Nx Ow] HI HH C Hd Eo Ed HM HW Hex Ko Oo Ho. apply Forall_app in Kn as [_ Kn], Ok as [_ Ok].
  constructor; try done.
  - by apply Forall_app.
  - intros k. unfold idle_at. rewrite kget_hput, hget_hput. specialize (C k). by destruct (decide (cc_host (kget k w) = t)).
  - by apply Forall_app.
  - intros t'. rewrite hget_hput. specialize (Op t'). rewrite !cnt_app in *. destruct (decide (t' = t)) as [->|Hne]; [cbn; lia|rewrite Hd by done; done].
  - intros t'. rewrite hget_hput. specialize (Di t'). rewrite !cnt_app in *. destruct (decide (t' = t)) as [->|Hne]; [cbn; lia|rewrite Hd by done; done].
  - intros t'. rewrite hget_hput. destruct (decide (t' = t)) as [->|]; auto.
  - intros t'. rewrite hget_hput. destruct (decide (t' = t)) as [->|]; auto.
  - intros t' k. rewrite hget_hput. destruct (decide (t' = t)) as [->|]; [intros [H%Id|H]%HI; done|apply Id].
  - intros t' k. rewrite hget_hput. destruct (decide (t' = t)) as [->|]; [intros [H%H2|H]%HH; done|apply H2].
  - intros r Hr. destruct (Ow r Hr) as [[t' H]|[[H|H]%Exists_app|H]].
    + destruct (decide (t' = t)) as [->|Hne]; [|left; exists t'; rewrite hget_hput; by rewrite decide_False].
      destruct (Ho r Hr (or_intror H)) as [?|?]; [left; exists t; rewrite hget_hput; by rewrite decide_True|right; left; apply Exists_app; by left].
    + destruct (Ho r Hr (or_introl H)) as [?|?]; [left; exists t; rewrite hget_hput; by rewrite decide_True|right; left; apply Exists_app; by left].
    + right; left; apply Exists_app; by right.
    + by right; right.
Qed.

(** A connection stops counting as dialing, or as open. *)
Lemma inv_account ex w del J k x' h' out : inv ex w (del ++ J) -> 0 <= k < nextConn w -> later (kget k w) x' ->
  Forall (fun j => Forall (eq k) (conns_of j)) (del ++ out) -> (forall t, cnt (dialer t) (del ++ out) = 0) ->
  cinv k x' (idle_at k w) (out ++ J) -> Forall (ok (kput k x' w)) out ->
  (forall r, rq_done (rget r w) = false -> Exists (holds r) del \/ has (kget k w) r -> Exists (holds r) out \/ has x' r) ->
  let t := cc_host (kget k w) in
  h_idle h' = h_idle (hget t w) -> h_h2 h' = h_h2 (hget t w) -> h_waiting h' = h_waiting (hget t w) ->
  h_open h' = h_open (hget t w) + is_open t x' - is_open t (kget k w) -> h_dialing h' = h_dialing (hget t w) + is_dialing t x' - is_dialing t (kget k w) ->
  h_open h' <= h_open (hget t w) -> (ex = None \/ ex = Some t) -> inv (Some t) (kput k x' (hput t h' w)) (out ++ J).
Proof.
  intros V Hk L Hc Hd C O Ho t Ei Eh Ew Eo Ed Hle Hex. pose proof V as [? Fr Kn Cn Ok Op Di Mx Wa Id H2 Rc An Dn Lv Nx Ow]. set (w' := kput k x' (hput t h' w)).
  assert (Kg : forall k', kget k' w' = if decide (k' = k) then x' else kget k' w) by (intros k'; unfold w'; by rewrite pkget_kput, kget_hput).
  assert (Hg : forall t', hget t' w' = if decide (t' = t) then h' else hget t' w) by (intros t'; unfold w'; by rewrite hget_kput, hget_hput).
  assert (LL : forall k', later (kget k' w) (kget k' w')) by (intros k'; rewrite Kg; destruct (decide (k' = k)) as [->|]; [done|apply plater_refl]).
  pose proof (fun k' => won_begun ex w _ k' V) as WB. apply Forall_app in Kn as [Kni Kn], Ok as [_ Ok], Hc as [Hci Hc].
  assert (forall t, cnt (dialer t) (out ++ J) = cnt (dialer t) (del ++ J)) as Edl.
  { intros t0. specialize (Hd t0). rewrite !cnt_app in *. pose proof (cnt_nonneg (dialer t0) out). pose proof (cnt_nonneg (dialer t0) del). lia. }
  assert (Hsame : forall t', h_idle (hget t' w') = h_idle (hget t' w) /\ h_h2 (hget t' w') = h_h2 (hget t' w) /\ h_waiting (hget t' w') = h_waiting (hget t' w)) by (intros t'; rewrite Hg; by destruct (decide (t' = t)) as [->|]).
  constructor; try done.
  - intros k'. unfold w', kput. cbn. rewrite lookup_insert_is_Some. intros [<-|[_ H]]; [done|auto].
  - apply Forall_app. split; [|done]. eapply Forall_impl; [exact Hc|]. intros j Hj. unfold known. eapply Forall_impl; [exact Hj|]. by intros ? <-.
  - intros k'. unfold idle_at. destruct (Hsame (cc_host (kget k' w'))) as [-> _]. rewrite Kg. destruct (decide (k' = k)) as [->|Hne].
    + destruct L as [-> _]. done.
    + eapply cinv_alike; [|apply Cn]. apply alike_app. apply alike_none; [eapply Forall_impl; [exact Hci|]|eapply Forall_impl; [exact Hc|]]; intros j Hj Hin; apply Forall_forall with (x := k') in Hj; congruence.
  - apply Forall_app. split; [done|]. eapply Forall_impl; [exact Ok|]. intros j. apply ok_later; auto.
  - intros t'. unfold w'. rewrite msum_kput by (unfold is_open; cbn; by rewrite andb_false_r). fold w'. rewrite Edl, Hg. change (ccs (hput t h' w)) with (ccs w). rewrite kget_hput. specialize (Op t').
    destruct (decide (t' = t)) as [->|Hne]; [rewrite ?Eo, ?Ed, ?Op, ?Di; ring|]. rewrite !is_open_other by (try done; destruct L as [-> _]; done). lia.
  - intros t'. unfold w'. rewrite msum_kput by (unfold is_dialing; cbn; by rewrite andb_false_r). fold w'. rewrite Edl, Hg. change (ccs (hput t h' w)) with (ccs w). rewrite kget_hput. specialize (Di t').
    destruct (decide (t' = t)) as [->|Hne]; [rewrite ?Eo, ?Ed, ?Op, ?Di; ring|]. rewrite !is_dialing_other by (try done; destruct L as [-> _]; done). lia.
  - intros t' HM. rewrite Hg. destruct (decide (t' = t)) as [->|]; [|auto]. specialize (Mx t HM). clearbody t. lia.
  - intros t' Ht'. destruct (Hsame t') as (_ & _ & ->). rewrite Hg. destruct (decide (t' = t)) as [->|]; [done|]. apply Wa. destruct Hex as [->| ->]; congruence.
  - intros t' k'. destruct (Hsame t') as (-> & _). intros (A & B & D)%Id. specialize (LL k') as (E1 & E2 & _ & E3). rewrite E1. split_and!; auto. apply E3; auto.
  - intros t' k'. destruct (Hsame t') as (_ & -> & _). intros (A & B & D)%H2. specialize (LL k') as (E1 & E2 & _ & E3). rewrite E1. split_and!; auto. eapply some_iff; [apply E3; auto|done].
  - intros r k' E%Rc. by apply LL.
  - intros r Hr. assert (Hi : Exists (holds r) del \/ has (kget k w) r -> Exists (holds r) (out ++ J) \/ exists k', has (kget k' w') r).
    { intros H. destruct (Ho r Hr H) as [?|?]; [left; apply Exists_app; by left|right; exists k; rewrite Kg; by rewrite decide_True]. }
    destruct (Ow r Hr) as [[t' H]|[[H|H]%Exists_app|[k' H]]].
    + left. exists t'. by destruct (Hsame t') as (_ & _ & ->).
    + right; auto.
    + right; left; apply Exists_app; by right.
    + right. destruct (decide (k' = k)) as [->|Hne]; [auto|]. right. exists k'. rewrite Kg. by rewrite decide_False.
Qed.
End inv.
