(* ===== verification/HttpPoolKeep.v ===== *)
(** Every critical section of the HTTP client's pool keeps its invariant
    (HttpPoolInv), as long as no goroutine finds that a connection was taken
    further under it. *)
From S2P Require Import Prelude.
From S2P Require Import Hpack.
From S2P Require Import GoText.
From S2P Require Import Http3Client.
From S2P Require Import HttpPool.
From S2P Require Import HttpPoolInv.
Import HttpPool.

Section keep.
Context (cfg : poolConfig).
Abbreviation inv := (inv cfg).
Implicit Types (w : HttpPool.Client) (x : clientConn) (I J : list instr) (h : hostPool).

Lemma hput_hput t h h' w : hput t h (hput t h' w) = hput t h w.
Proof. unfold hput. cbn. by rewrite insert_insert_eq. Qed.
Lemma hput_kput t h k x w : hput t h (kput k x w) = kput k x (hput t h w).
Proof. done. Qed.
Lemma hget_same t h w : hget t (hput t h w) = h.
Proof. rewrite hget_hput. by rewrite decide_True. Qed.

(** Changes that matter to nobody. *)
Lemma inv_soft ex w I k x' : inv ex w I -> 0 <= k < nextConn w ->
  cc_host x' = cc_host (kget k w) -> cc_current x' = cc_current (kget k w) -> cc_closed x' = cc_closed (kget k w) -> cc_settled x' = cc_settled (kget k w) -> cc_h2 x' = cc_h2 (kget k w) ->
  cc_phase x' = cc_phase (kget k w) -> cc_begun x' = cc_begun (kget k w) -> cc_won x' = cc_won (kget k w) -> cc_pooled x' = cc_pooled (kget k w) -> cc_back x' = cc_back (kget k w) ->
  inv ex (kput k x' w) I.
Proof.
  intros V Hk E1 E2 E3 E4 E5 E6 E7 E8 E9 E10. assert (Es : streams_of x' = streams_of (kget k w)) by (unfold streams_of; by rewrite E5).
  apply (inv_conn cfg ex w [] I k x' []); try done.
  - unfold later. rewrite E1, E4, E5, E7, E8. done.
  - destruct (i_conn _ _ _ _ V k). cbn. constructor; unfold busy; rewrite ?E1, ?E2, ?E3, ?E4, ?E5, ?E6, ?E7, ?E8, ?E9, ?E10, ?Es; done.
  - intros r _ [H%Exists_nil|H]; [done|]. right. unfold has. by rewrite E2, Es.
Qed.

(** A waiting list that loses only requests that are done or taken care of. *)
Lemma inv_waiting ex w del J t q out : inv ex w (del ++ J) -> (forall k, alike k del out) -> (forall t', cnt (dialer t') out = cnt (dialer t') del) -> Forall (known w) out -> Forall (ok w) out ->
  (forall r, rq_done (rget r w) = false -> Exists (holds r) del \/ r ∈ h_waiting (hget t w) -> r ∈ q \/ Exists (holds r) out) ->
  (ex <> Some t -> q <> [] -> h_waiting (hget t w) <> []) ->
  inv ex (hput t (hget t w <| h_waiting := q |>) w) (out ++ J).
Proof.
  intros V Al Hd Ko Oo Ho Hq. apply (inv_host cfg ex ex w del); try done; cbn; auto.
  - intros k. assert (C := i_conn _ _ _ _ V k). eapply cinv_alike; [apply alike_app, Al|]. unfold idle_at in *. by destruct (decide (cc_host (kget k w) = t)) as [<-|].
  - rewrite Hd. lia.
  - rewrite Hd. lia.
  - apply (i_max _ _ _ _ V).
  - intros H1 H2. apply (i_wait _ _ _ _ V); auto.
Qed.

(** ** [dispatchLocked] *)

Definition set_waiting (t : hostTarget) (q : list Z) w := hput t (hget t w <| h_waiting := q |>) w.

Definition sends (work : list (Z * Z)) : list instr := (fun '(k, r) => ISend k r) <$> work.

Lemma drop_done ex w I t r rest : rq_done (rget r w) = true -> inv ex (set_waiting t (r :: rest) w) I -> inv ex (set_waiting t rest w) I.
Proof.
  intros Hr V. replace (set_waiting t rest w) with (set_waiting t rest (set_waiting t (r :: rest) w)) by (unfold set_waiting; by rewrite hget_same, hput_hput).
  apply (inv_waiting ex _ [] I t rest []); try done; [intros; apply alike_refl|..].
  - intros r' Hr' [H%Exists_nil|H]; [done|]. left. unfold set_waiting in H. rewrite hget_same in H. cbn in H. apply elem_of_cons in H as [->|H]; [|done]. change (rq_done (rget r w) = false) in Hr'. congruence.
  - intros _ _. unfold set_waiting. by rewrite hget_same.
Qed.

Lemma assign_h2 t w I k r rest : k ∈ h_h2 (hget t w) -> inv (Some t) (set_waiting t (r :: rest) w) I ->
  inv (Some t) (set_waiting t rest (kput k (kget k w <| cc_streams := cc_streams (kget k w) + 1 |> <| cc_idle := false |>) w)) (ISend k r :: I).
Proof.
  intros Hk V. set (x' := kget k w <| cc_streams := _ |> <| cc_idle := _ |>).
  assert (Hw : cc_won (kget k w) = true /\ is_Some (cc_h2 (kget k w)) /\ cc_host (kget k w) = t) by (apply (i_h2 _ _ _ _ V t k); unfold set_waiting; by rewrite hget_same).
  assert (Kk : 0 <= k < nextConn w) by (apply (won_known cfg _ _ _ k V); apply Hw).
  assert (V1 : inv (Some t) (kput k x' (set_waiting t (r :: rest) w)) I) by by apply inv_soft.
  replace (set_waiting t rest (kput k x' w)) with (set_waiting t rest (kput k x' (set_waiting t (r :: rest) w))) by (unfold set_waiting; by rewrite hget_kput, hget_same, <- hput_kput, hput_hput).
  unfold set_waiting at 1. change (ISend k r :: I) with ([ISend k r] ++ I). apply (inv_host cfg (Some t) (Some t) _ [] I t); try done; cbn [h_idle h_h2 h_open h_dialing h_waiting]; rewrite ?hget_kput.
  - auto.
  - auto.
  - intros k'. assert (C := i_conn _ _ _ _ V1 k'). unfold idle_at in C |- *. eapply (cinv_trade k' _ _ _ I); [| |exact C].
    + unfold kinds0. rewrite !Forall_cons. split_and!; done.
    + rewrite pkget_kput. destruct (decide (k' = k)) as [->|Hne]; [intros E; destruct Hw as (_ & [y Ey] & _); cbn in E; congruence|]. intros _.
      cbn. rewrite (proj2 (Z.eqb_neq k k')) by done. destruct (decide (cc_host (kget k' (set_waiting t (r :: rest) w)) = t)) as [Et|]; rewrite ?Et, ?hget_kput; cbn [Z.b2z]; rewrite Z.add_0_l; apply Z.le_refl.
  - cbn. lia.
  - cbn. lia.
  - intros HM. apply (i_max _ _ _ _ V t HM).
  - by apply Forall_singleton, Forall_singleton.
  - apply Forall_singleton. cbn. rewrite pkget_same. apply Hw.
  - intros r' _ [H%Exists_nil|H]; [done|]. unfold set_waiting in H. rewrite hget_same in H. cbn in H. apply elem_of_cons in H as [->|H]; [right; by apply Exists_cons_hd|by left].
Qed.

Lemma assign_idle t w I k r rest : last (h_idle (hget t w)) = Some k -> inv (Some t) (set_waiting t (r :: rest) w) I ->
  inv (Some t) (set_waiting t rest (hput t (hget t w <| h_idle := removelast (h_idle (hget t w)) |>) (kput k (kget k w <| cc_idle := false |>) w))) (ISend k r :: I).
Proof.
  intros Hl V. set (x' := kget k w <| cc_idle := _ |>).
  assert (El : h_idle (hget t w) = removelast (h_idle (hget t w)) ++ [k]).
  { apply last_Some in Hl as [l' El]. rewrite El at 2. by rewrite removelast_last, El. }
  assert (Hw : cc_won (kget k w) = true /\ cc_h2 (kget k w) = None /\ cc_host (kget k w) = t).
  { apply (i_idle _ _ _ _ V t k). unfold set_waiting. rewrite hget_same. cbn. rewrite El. apply elem_of_app. right. apply list_elem_of_here. }
  assert (Kk : 0 <= k < nextConn w) by (apply (won_known cfg _ _ _ k V); apply Hw).
  assert (V1 : inv (Some t) (kput k x' (set_waiting t (r :: rest) w)) I) by by apply inv_soft.
  replace (set_waiting t rest _) with (hput t (hget t w <| h_waiting := rest |> <| h_idle := removelast (h_idle (hget t w)) |>) (kput k x' (set_waiting t (r :: rest) w)))
    by (unfold set_waiting; by rewrite hget_same, <- hput_kput, !hput_hput).
  change (ISend k r :: I) with ([ISend k r] ++ I).
  assert (Hh : hget t (kput k x' (set_waiting t (r :: rest) w)) = hget t w <| h_waiting := r :: rest |>) by (rewrite hget_kput; unfold set_waiting; by rewrite hget_same).
  apply (inv_host cfg (Some t) (Some t) _ [] I t); rewrite ?Hh; cbn [h_idle h_h2 h_open h_dialing h_waiting]; try done.
  - intros k' Hk'. left. cbn. rewrite El. apply elem_of_app. by left.
  - auto.
  - intros k'. assert (C := i_conn _ _ _ _ V1 k'). unfold idle_at in C |- *. eapply (cinv_trade k' _ _ _ I); [| |exact C].
    + unfold kinds0. rewrite !Forall_cons. split_and!; done.
    + intros _. destruct (decide (cc_host (kget k' (kput k x' (set_waiting t (r :: rest) w))) = t)) as [Et|Et].
      * rewrite Et, Hh. cbn. rewrite El at 2. rewrite cnt_app. cbn. lia.
      * cbn. destruct (Z.eqb_spec k k') as [<-|]; [|cbn; lia]. destruct Et. rewrite pkget_same. apply Hw.
  - cbn. lia.
  - cbn. lia.
  - intros HM. apply (i_max _ _ _ _ V t) in HM. unfold set_waiting in HM. by rewrite hget_same in HM.
  - by apply Forall_singleton, Forall_singleton.
  - apply Forall_singleton. cbn. rewrite pkget_same. apply Hw.
  - intros r' _ [H%Exists_nil|H]; [done|]. cbn in H. apply elem_of_cons in H as [->|H]; [right; by apply Exists_cons_hd|by left].
Qed.

Lemma dispatch_loop_inv t waiting w I : inv (Some t) (set_waiting t waiting w) I -> let '(w', work) := dispatch_loop t waiting w in inv (Some t) w' (sends work ++ I).
Proof.
  revert w I. induction waiting as [|r rest IH]; intros w I V; cbn [dispatch_loop]; [done|].
  destruct (rq_done (rget r w)) eqn:Er; [apply IH; by eapply drop_done|].
  destruct (pick_h2 (h_h2 (hget t w)) w) as [k|] eqn:Ep.
  - assert (Hk : k ∈ h_h2 (hget t w)) by (unfold pick_h2 in Ep; apply head_Some_elem_of, list_elem_of_filter in Ep; apply Ep).
    pose proof (IH _ _ (assign_h2 t w I k r rest Hk V)) as V'. destruct (dispatch_loop _ _ _) as [w' work]. eapply inv_perm; [|exact V']. cbn. by rewrite Permutation_middle.
  - destruct (last (h_idle (hget t w))) as [k|] eqn:El; [|done].
    pose proof (IH _ _ (assign_idle t w I k r rest El V)) as V'. destruct (dispatch_loop _ _ _) as [w' work]. eapply inv_perm; [|exact V']. cbn. by rewrite Permutation_middle.
Qed.

Lemma dial_loop_spec n h : let '(h', d) := dial_loop cfg n h in
  h_open h' = h_open h + Z.of_nat d /\ h_dialing h' = h_dialing h + Z.of_nat d /\ h_idle h' = h_idle h /\ h_waiting h' = h_waiting h /\ h_h2 h' = h_h2 h /\
  (d = n \/ 0 < MaxConnsPerHost cfg <= h_open h') /\ (0 < MaxConnsPerHost cfg -> h_open h <= MaxConnsPerHost cfg -> h_open h' <= MaxConnsPerHost cfg).
Proof.
  revert h. induction n as [|n IH]; intros h; cbn [dial_loop]; [split_and!; auto; lia|].
  destruct (Z.ltb_spec 0 (MaxConnsPerHost cfg)) as [H0|H0], (Z.leb_spec (MaxConnsPerHost cfg) (h_open h)) as [H1|H1]; cbn [andb].
  1: split_and!; auto; lia.
  all: set (h1 := h <| h_open := _ |> <| h_dialing := _ |>); specialize (IH h1); destruct (dial_loop cfg n h1) as [h' d]; destruct IH as (E1 & E2 & E3 & E4 & E5 & E6 & E7);
    change (h_open h1) with (h_open h + 1) in *; change (h_dialing h1) with (h_dialing h + 1) in *; destruct E6 as [->|E6]; split_and!; auto; lia.
Qed.

Lemma dialing_bounds ex w I t : inv ex w I -> 0 <= h_dialing (hget t w) <= h_open (hget t w).
Proof.
  intros V. rewrite (i_open _ _ _ _ V), (i_dialing _ _ _ _ V). pose proof (cnt_nonneg (dialer t) I). split.
  - assert (0 <= msum (is_dialing t) (ccs w)); [|lia]. apply msum_nonneg. intros k x _. unfold is_dialing. destruct (_ && _); cbn; lia.
  - assert (msum (is_dialing t) (ccs w) <= msum (is_open t) (ccs w)); [|lia]. apply msum_le. intros k x Hk.
    assert (E : kget k w = x) by (unfold kget; by rewrite Hk). pose proof (c_back _ _ _ _ (i_conn _ _ _ _ V k)) as B. rewrite E in B.
    unfold is_dialing, is_open. destruct (bool_decide _), (cc_back x), (cc_pooled x); cbn; lia.
Qed.

Lemma cnt_replicate {A} (p : A -> bool) n y : cnt p (replicate n y) = Z.of_nat n * Z.b2z (p y).
Proof. induction n as [|n IH]; [done|]. cbn [replicate cnt]. rewrite IH. lia. Qed.

Lemma dial_inv t w I need : inv (Some t) w I -> (0 < len (h_waiting (hget t w)) - h_dialing (hget t w) -> h_dialing (hget t w) = 0 -> 0 < need) ->
  let '(h', d) := dial_loop cfg (Z.to_nat need) (hget t w) in inv None (hput t h' w) (replicate d (IDial t) ++ I).
Proof.
  intros V Hn. pose proof (dial_loop_spec (Z.to_nat need) (hget t w)) as S. destruct (dial_loop cfg _ _) as [h' d]. destruct S as (E1 & E2 & E3 & E4 & E5 & E6 & E7).
  pose proof (dialing_bounds _ _ _ t V) as Hb.
  assert (Hc : forall t', cnt (dialer t') (replicate d (IDial t)) = if decide (t = t') then Z.of_nat d else 0).
  { intros t'. rewrite cnt_replicate. cbn. destruct (decide (t = t')); [rewrite bool_decide_eq_true_2 by done|rewrite bool_decide_eq_false_2 by done]; cbn; lia. }
  apply (inv_host cfg (Some t) None w []); try done.
  - intros k. rewrite E3. auto.
  - intros k. rewrite E5. auto.
  - intros k. assert (C := i_conn _ _ _ _ V k). eapply (cinv_alike k _ _ I).
    + apply (alike_app k [] _ I). apply alike_none; [done|]. apply Forall_replicate, not_elem_of_nil.
    + unfold idle_at in *. rewrite E3. by destruct (decide (cc_host (kget k w) = t)) as [<-|].
  - intros t' Hne. rewrite Hc. by rewrite decide_False.
  - rewrite Hc, decide_True by done. cbn. lia.
  - rewrite Hc, decide_True by done. cbn. lia.
  - intros HM. apply E7; [done|]. apply (i_max _ _ _ _ V t HM).
  - intros _ Hw. rewrite E4 in Hw. destruct E6 as [->|E6]; [|lia]. destruct (Z.eq_dec (h_dialing (hget t w)) 0) as [H0|]; [|lia].
    assert (0 < len (h_waiting (hget t w))) by (destruct (h_waiting (hget t w)); [done|rewrite len_cons; pose proof (len_nonneg l); lia]). assert (0 < need) by (apply Hn; lia). lia.
  - intros t' Hne _ [= ->]. done.
  - apply Forall_replicate. apply Forall_nil_2.
  - apply Forall_replicate. done.
  - intros r _ [H%Exists_nil|H]; [done|]. left. by rewrite E4.
Qed.

Lemma dispatch_inv t w I : inv (Some t) w I -> let '(w', out) := dispatchLocked cfg t w in inv None w' (out ++ I).
Proof.
  intros V. assert (V1 : inv (Some t) (set_waiting t (h_waiting (hget t w)) w) I).
  { apply (inv_waiting (Some t) w [] I t _ []); try done; [intros; apply alike_refl|]. intros r _ [H%Exists_nil|H]; [done|by left]. }
  apply dispatch_loop_inv in V1. unfold dispatchLocked. destruct (dispatch_loop _ _ _) as [w1 work].
  set (need := if _ || _ then _ else _). pose proof (dial_inv t w1 _ need V1) as D. destruct (dial_loop cfg _ _) as [h' d].
  eapply inv_perm; [|apply D].
  - fold (sends work). rewrite app_assoc. apply Permutation_app_tail, Permutation_app_comm.
  - intros H1 H2. unfold need. destruct (_ || _); lia.
Qed.
End keep.
