(* ===== verification/HttpPoolSteps.v ===== *)
(** Each instruction of the HTTP client's pool keeps the invariant, and with it
    every run does. *)
From S2P Require Import Prelude.
From S2P Require Import Hpack.
From S2P Require Import GoText.
From S2P Require Import Http3Client.
From S2P Require Import HttpPool.
From S2P Require Import HttpPoolInv.
From S2P Require Import HttpPoolKeep.
Import HttpPool.

(** The same instructions, with at most the tokens. *)
Definition fewer (k : Z) (A B : list instr) : Prop := Forall (fun p => cnt p A = cnt p B) (kinds0 k) /\ cnt (token k) B <= cnt (token k) A.

Ltac alk :=
  unfold fewer, alike, kinds, kinds0; cbn [app]; rewrite ?Forall_cons, ?Forall_nil; cbn [cnt closer closing poolerr pooler begins dialerr ups shuts token];
  repeat match goal with |- context [?a =? ?b] => destruct (a =? b) end; split_and!; done || (cbn; lia).

(** The invariant of connection [k], with its counts worked out. *)
Ltac conn_at V k :=
  let C := fresh "C" in pose proof (i_conn _ _ _ _ V k) as C;
  destruct C as [Cclose Cpool Cback Cup Cbegun Cwon Clost Cearly Cunwon Ch2 Cshut Ctoken Cend Cend2 Cstuck];
  cbn [app cnt closer closing poolerr pooler begins dialerr ups shuts token] in *; rewrite ?Z.eqb_refl in *; cbn [Z.b2z] in *.

Ltac counts := cbn [app cnt closer closing poolerr pooler begins dialerr ups shuts token]; rewrite ?Z.eqb_refl; cbn [Z.b2z].

(** Facts about the elements of a list that is written out. *)
Ltac each := unfold known; cbn [conns_of app]; repeat (apply Forall_cons_2 || apply Forall_nil_2); try done.

Section steps.
Context (unicode_lower : bytes -> bytes) (cfg : poolConfig) (range : gset Z -> list Z) (hrange : gset hostTarget -> list hostTarget).
Context (range_perm : forall s, range s ≡ₚ elements s).
Abbreviation inv := (inv cfg).
Implicit Types (w : HttpPool.Client) (x : clientConn) (I J : list instr) (h : hostPool).

Lemma tear_false w : torn w = false -> tear false w = w.
Proof. destruct w. unfold tear. cbn. by intros ->. Qed.

Lemma not_torn w b : torn w = false -> torn (tear b w) = false -> b = false.
Proof. unfold tear. cbn. intros ->. by destruct b. Qed.

(** One instruction goes and others come, with the state as it is. *)
Lemma swap_one ex w i J out : inv ex w (i :: J) -> (forall k, fewer k [i] out) -> (forall t, cnt (dialer t) out = cnt (dialer t) [i]) -> Forall (known w) out -> Forall (ok w) out ->
  (forall r, rq_done (rget r w) = false -> holds r i -> Exists (holds r) out \/ exists k, has (kget k w) r) -> inv ex w (out ++ J).
Proof.
  intros V Al Hd Ko Oo Ho. apply (inv_swap cfg ex w [i] J out); try done.
  - intros k. destruct (Al k) as [A1 A2]. eapply cinv_trade; [| |apply (i_conn _ _ _ _ V k)].
    + eapply Forall_impl; [exact A1|]. intros p E. change (i :: J) with ([i] ++ J). by rewrite !cnt_app, E.
    + intros _. change (i :: J) with ([i] ++ J). rewrite !cnt_app. lia.
  - intros r Hr [H|H%Exists_nil]%Exists_cons; [auto|done].
Qed.

Lemma known_one ex w i J k : inv ex w (i :: J) -> conns_of i = [k] -> 0 <= k < nextConn w.
Proof. intros V E. pose proof (i_known _ _ _ _ V) as [K _]%Forall_cons. unfold known in K. rewrite E in K. by apply Forall_cons in K as [K _]. Qed.

Lemma ok_one ex w i J : inv ex w (i :: J) -> ok w i.
Proof. intros V. by pose proof (i_ok _ _ _ _ V) as [K _]%Forall_cons. Qed.

Lemma has_none x r : cc_current x = None -> streams_of x = ∅ -> ~ has x r.
Proof. intros E1 E2 [H|(id & b & H)]; [congruence|]. rewrite E2, lookup_empty in H. done. Qed.

Lemma no_streams x : cc_h2 x = None -> streams_of x = ∅.
Proof. unfold streams_of. by intros ->. Qed.

(** ** Requests on connections of HTTP/1 *)

Lemma keep_send k r w J : inv None w (ISend k r :: J) -> let '(w', out) := send k r w in inv None w' (out ++ J).
Proof.
  intros V. pose proof (known_one _ _ _ _ k V eq_refl) as Hk. pose proof (ok_one _ _ _ _ V) as Hw. cbn in Hw. unfold send.
  destruct (cc_h2 (kget k w)) as [c|] eqn:E2; [|destruct (cc_closed (kget k w)) eqn:Ec].
  - apply (swap_one None w (ISend k r) J [IH2Send k r]); try done; [intros k'; alk|each| |].
    + apply Forall_singleton. cbn. by rewrite E2.
    + intros r' _ E. left. by apply Exists_cons_hd.
  - apply (swap_one None w (ISend k r) J [IEnqueue _ r true]); try done; [intros k'; alk|each|each|]. intros r' _ E. left. by apply Exists_cons_hd.
  - set (x := kget k w) in *. assert (Hb : busy x = 0).
    { conn_at V k. fold x in Ctoken. specialize (Ctoken E2 Ec). pose proof (cnt_nonneg (token k) J). unfold idle_at in Ctoken. pose proof (cnt_nonneg (fun k' => k' =? k) (h_idle (hget (cc_host (kget k w)) w))). unfold busy in *. destruct (cc_current x); lia. }
    assert (Hn : cc_current x = None) by (unfold busy in Hb; by destruct (cc_current x)).
    apply (inv_conn cfg None w [ISend k r] J k _ [IAttach k r]); try done; fold x.
    + each.
    + conn_at V k. fold x in Cclose, Cpool, Cback, Cup, Cbegun, Cwon, Clost, Cearly, Cunwon, Ch2, Cshut, Ctoken, Cend, Cend2, Cstuck. constructor; counts; cbn; try done.
      * intros Hw'. congruence.
      * intros [y Hy]. congruence.
      * intros _ _. specialize (Ctoken E2 Ec). unfold busy. cbn. lia.
      * congruence.
    + apply Forall_singleton. cbn. rewrite pkget_same. done.
    + intros r' _ [[H|H%Exists_nil]%Exists_cons|H]; [|done|by apply has_none in H; [|done|apply no_streams]]. right. left. cbn in *. by subst.
Qed.

(** The connection's request is given up; nobody else has it. *)
Lemma keep_discard k own w i out J : inv None w (i :: J) -> conns_of i = [k] -> Forall (fun j => conns_of j = []) out -> (forall t, cnt (dialer t) (i :: out) = 0) ->
  Forall (fun p => p i = false) (kinds k) -> Forall (ok (discard k own w)) out ->
  (forall r, rq_done (rget r w) = false -> holds r i \/ own = Some r -> Exists (holds r) out) -> torn (discard k own w) = false -> inv None (discard k own w) (out ++ J).
Proof.
  intros V Ei Eo Hd Hk0 Oo Ho Ht. pose proof (known_one _ _ _ _ k V Ei) as Hk. pose proof (i_torn _ _ _ _ V) as T0.
  unfold discard in *. set (b := match cc_current (kget k w) with Some r => _ | None => _ end) in *.
  assert (Eb : b = false) by (by apply (not_torn w)). rewrite Eb, (tear_false w T0) in *. unfold b in Eb. clear b.
  set (x := kget k w) in *.
  assert (Al : alike k (i :: J) (out ++ J)).
  { change (i :: J) with ([i] ++ J). apply alike_app. apply Forall_forall. intros p Hp. rewrite (cnt_off p out).
    - cbn. rewrite Forall_forall in Hk0. by rewrite (Hk0 p Hp).
    - eapply Forall_impl; [exact Eo|]. intros j Hj. apply (kinds_none k); [done|]. rewrite Hj. apply not_elem_of_nil. }
  pose proof (cinv_alike k _ _ _ _ Al (i_conn _ _ _ _ V k)) as C. fold x in C.
  apply (inv_conn cfg None w [i] J k _ out); try done; fold x.
  - cbn [app]. apply Forall_cons_2; [rewrite Ei; each|]. eapply Forall_impl; [exact Eo|]. intros j ->. each.
  - destruct C. constructor; cbn; try done; [intros H; split; [done|]; apply c_unwon; done|by intros [y Hy]..].
  - intros r Hr [[H|H%Exists_nil]%Exists_cons|[H|H]]; [left; auto|done| |right; by right]. left. apply Ho; [done|]. right. rewrite H in Eb. by destruct (bool_decide_reflect (own = Some r)).
Qed.

(** The connection is free again. *)
Lemma keep_unload k r w i next J : inv None w (i :: J) -> conns_of i = [k] -> Forall (fun j => Forall (eq k) (conns_of j)) next -> (forall t, cnt (dialer t) (i :: next) = 0) ->
  Forall (fun p => p i = false) (kinds k) -> Forall (fun p => cnt p next = 0) (kinds0 k) -> cnt (token k) next <= 1 -> cc_h2 (kget k w) = None -> Forall (ok (unload k r w)) next ->
  (forall r', rq_done (rget r' w) = false -> holds r' i \/ r' = r -> Exists (holds r') next) -> torn (unload k r w) = false -> inv None (unload k r w) (next ++ J).
Proof.
  intros V Ei Eo Hd Hk0 Hn0 Ht1 E2 Oo Ho Ht. pose proof (known_one _ _ _ _ k V Ei) as Hk. pose proof (i_torn _ _ _ _ V) as T0.
  unfold unload in *. set (b := match cc_current (kget k w) with Some r => _ | None => _ end) in *.
  assert (Eb : b = false) by (by apply (not_torn w)). unfold clear_current in *. rewrite Eb, (tear_false w T0) in *. unfold b in Eb. clear b.
  pose proof (i_conn _ _ _ _ V k) as C. set (x := kget k w) in *.
  assert (C' : cinv k x (idle_at k w) J).
  { eapply cinv_alike; [|exact C]. apply (alike_app k [i] [] J). apply Forall_forall. intros p Hp. cbn. rewrite Forall_forall in Hk0. by rewrite (Hk0 p Hp). }
  apply (inv_conn cfg None w [i] J k _ next); try done; fold x.
  - cbn [app]. apply Forall_cons_2; [rewrite Ei; each|done].
  - unfold kinds0 in Hn0. rewrite !Forall_cons in Hn0. destruct Hn0 as (N1 & N2 & N3 & N4 & N5 & N6 & N7 & N8 & _).
    destruct C'. constructor; rewrite ?cnt_app, ?N1, ?N2, ?N3, ?N4, ?N5, ?N6, ?N7, ?N8; cbn; try done.
    + intros H. split; [done|]. apply c_unwon; done.
    + intros _ Hc. specialize (c_token E2 Hc). unfold busy in *. cbn. destruct (cc_current x); [lia|]. rewrite Hc in Eb. done.
  - intros r' Hr [[H|H%Exists_nil]%Exists_cons|[H|(id & bb & H)]]; [left; auto|done| |by rewrite no_streams in H].
    left. apply Ho; [done|]. right. rewrite H in Eb. by destruct (Z.eqb_spec r' r).
Qed.

Lemma keep_giveback k r w J : inv None w (IGiveBack k r :: J) -> torn (unload k r w) = false -> inv None (unload k r w) ([IRelease k] ++ J).
Proof.
  intros V. destruct (ok_one _ _ _ _ V) as (Hw & E2 & Hr). apply (keep_unload k r w (IGiveBack k r)); try done; [each|each|each|by cbn; rewrite Z.eqb_refl| |].
  - each. unfold ok, unload, clear_current. rewrite pkget_same. done.
  - intros r' Hr' [H| ->]; [done|congruence].
Qed.

Lemma keep_answer k r b w J : inv None w (IAnswer k r b :: J) -> torn (unload k r w) = false ->
  inv None (unload k r w) ([IDetach r; if b : bool then IRelease k else IDiscard k; IFinish r Responded] ++ J).
Proof.
  intros V. destruct (ok_one _ _ _ _ V) as (Hw & E2). apply (keep_unload k r w (IAnswer k r b)); try done.
  - destruct b; each.
  - by destruct b.
  - each.
  - destruct b; each.
  - destruct b; cbn; rewrite ?Z.eqb_refl; cbn; lia.
  - destruct b; each. unfold ok, unload, clear_current. rewrite pkget_same. done.
  - intros r' _ [H|H]; apply Exists_cons_tl, Exists_cons_tl, Exists_cons_hd; by cbn in *.
Qed.

Lemma keep_attach k r w J : inv None w (IAttach k r :: J) -> let '(ok, w') := attach k r w in inv None w' ((if ok : bool then [] else [IGiveBack k r]) ++ J).
Proof.
  intros V. pose proof (known_one _ _ _ _ k V eq_refl) as Hk. destruct (ok_one _ _ _ _ V) as [Hw E2]. unfold attach. destruct (rq_done (rget r w)) eqn:Er.
  - apply (swap_one None w (IAttach k r) J [IGiveBack k r]); try done; [intros k'; alk|each|each].
  - apply (inv_req cfg None w [IAttach k r] J r _ []); try done; [intros k'; alk|cbn; intros k' [= <-]; done|]. intros r' _ [H|H%Exists_nil]%Exists_cons; done.
Qed.

Lemma keep_detach r w J : inv None w (IDetach r :: J) -> inv None (detach r w) J.
Proof.
  intros V. apply (inv_req cfg None w [IDetach r] J r _ []); try done; [intros k'; alk|]. intros r' _ [H|H%Exists_nil]%Exists_cons; done.
Qed.

Lemma keep_finish r o w J : inv None w (IFinish r o :: J) -> inv None (finish r o w).2 J.
Proof.
  intros V. apply (inv_finish cfg None w [IFinish r o] J r o []); try done; [intros k'; alk|]. intros r' [H|H%Exists_nil]%Exists_cons; [left; by symmetry|done].
Qed.

Lemma finish_done r o w : rq_done (rget r (finish r o w).2) = true.
Proof. unfold finish. destruct (rq_done (rget r w)) eqn:E; [done|]. cbn [snd]. change (rq_done (rget r (rput r (rget r w <| rq_done := true |>) w)) = true). rewrite prget_rput. by rewrite decide_True. Qed.

Lemma keep_abort r w J : inv None w (IAbort r :: J) -> let '(called, w') := finish r (Failed ErrAborted) w in inv None w' ((if called : bool then [IAbandon r] else []) ++ J).
Proof.
  intros V. pose proof (inv_finish cfg None w [IAbort r] J r (Failed ErrAborted)) as F. pose proof (finish_done r (Failed ErrAborted) w) as D.
  destruct (finish r (Failed ErrAborted) w) as [called w'] eqn:Ef. cbn [snd] in *.
  destruct called; apply F; try done; try (intros k'; alk); try each; intros r' [H|H%Exists_nil]%Exists_cons; done.
Qed.

Lemma keep_abandon r w J : inv None w (IAbandon r :: J) ->
  inv None (detach r w) (match rq_conn (rget r w) with None => [] | Some k => match cc_h2 (kget k w) with Some _ => [IH2Cancel k r] | None => [IAbandoned k r] end end ++ J).
Proof.
  intros V. pose proof (ok_one _ _ _ _ V) as Hr. cbn in Hr. unfold detach. set (y := rget r w <| rq_conn := None |>). apply (inv_req cfg None w [IAbandon r] J r y); try done.
  - intros k'. destruct (rq_conn (rget r w)) as [k|]; [|alk]. destruct (cc_h2 (kget k w)); alk.
  - intros t. destruct (rq_conn (rget r w)) as [k|]; [|done]. by destruct (cc_h2 (kget k w)).
  - destruct (rq_conn (rget r w)) as [k|] eqn:Ek; [|each]. pose proof (won_known cfg _ _ _ k V (i_rconn _ _ _ _ V _ _ Ek)). destruct (cc_h2 (kget k w)); each.
  - destruct (rq_conn (rget r w)) as [k|] eqn:Ek; [|each]. pose proof (i_rconn _ _ _ _ V _ _ Ek) as Hw. destruct (cc_h2 (kget k w)) eqn:E2; each.
    + cbn. rewrite kget_rput, E2, prget_rput, decide_True by done. split_and!; [by apply (won_begun cfg None w _ k V)|done|done].
    + cbn. rewrite prget_rput. by rewrite decide_True.
  - intros r' _ [H|H%Exists_nil]%Exists_cons; done.
Qed.

Lemma keep_data k p w J : inv None w (IData k p :: J) -> let '(w', out) := OnData k p w in inv None w' (out ++ J).
Proof.
  intros V. pose proof (known_one _ _ _ _ k V eq_refl) as Hk. unfold OnData. set (w' := kput k (kget k w <| cc_received := true |>) w).
  assert (V' : inv None w' (IData k p :: J)) by by apply inv_soft.
  destruct (cc_closed (kget k w)); [|destruct (cc_current (kget k w)) as [r|] eqn:Er].
  - apply (swap_one None w' (IData k p) J []); try done. intros k'; alk.
  - apply (swap_one None w' (IData k p) J [IParse k r p]); try done; [intros k'; alk|each|]. each. cbn. unfold w'. rewrite pkget_same. cbn.
    conn_at V k. split; [destruct (cc_won (kget k w)); [done|]; destruct (Cunwon eq_refl); congruence|]. destruct (cc_h2 (kget k w)) as [c|]; [|done]. rewrite Ch2 in Er; [done|eauto].
  - apply (swap_one None w' (IData k p) J [IDiscard k]); try done; [intros k'; alk|each|each].
Qed.

Lemma keep_parse k r p w J : inv None w (IParse k r p :: J) -> inv None w (OnData_parsed k r p w ++ J).
Proof.
  intros V. pose proof (known_one _ _ _ _ k V eq_refl) as Hk. destruct (ok_one _ _ _ _ V) as [Hw E2]. destruct p as [| |close status buffered]; cbn [OnData_parsed].
  - apply (swap_one None w (IParse k r PMore) J []); try done. intros k'; alk.
  - apply (swap_one None w (IParse k r PError) J [IDetach r; IBroken k r]); try done; [intros k'; alk|each|each].
  - apply (swap_one None w (IParse k r (PResponse close status buffered)) J [IAnswer k r _]); try done; [intros k'; alk|each|each].
Qed.

(** ** The pool *)

Lemma inv_weaken ex t w I : inv None w I -> ex = None \/ ex = Some t -> inv ex w I.
Proof. intros [] _. constructor; try done. intros t' _. by apply i_wait. Qed.

Lemma inv_settle t w I : inv (Some t) w I -> (h_waiting (hget t w) <> [] -> 0 < h_open (hget t w)) -> inv None w I.
Proof. intros [] H. constructor; try done. intros t' _. destruct (decide (t' = t)) as [->|]; [done|]. apply i_wait. congruence. Qed.

Lemma keep_enqueue t r retry w J : inv None w (IEnqueue t r retry :: J) -> let '(w', out) := enqueue cfg t r retry w in inv None w' (out ++ J).
Proof.
  intros V. unfold enqueue. destruct (c_closed w).
  - apply (swap_one None w (IEnqueue t r retry) J [IFinish r _]); try done; [intros k'; alk|each|each|]. intros r' _ H. left. by apply Exists_cons_hd.
  - apply dispatch_inv. set (q := if retry then _ else _). apply (inv_waiting cfg (Some t) w [IEnqueue t r retry] J t q []); try done.
    + by apply (inv_weaken (Some t) t); [|right].
    + intros k'; alk.
    + intros r' _ H. left. assert (r' = r \/ r' ∈ h_waiting (hget t w)) as H'.
      { destruct H as [[H|H%Exists_nil]%Exists_cons|H]; [left; by symmetry|done|by right]. }
      destruct H' as [->|H']; unfold q; destruct retry; rewrite ?elem_of_app, ?elem_of_cons; auto.
Qed.

Lemma next_waiting_spec q w r rest : next_waiting q w = (r, rest) -> (forall r', rq_done (rget r' w) = false -> r' ∈ q -> Some r' = r \/ r' ∈ rest) /\ (r = None -> rest = []) /\ (rest <> [] -> q <> []).
Proof.
  revert r rest. induction q as [|r0 q IH]; intros r rest; cbn.
  - intros [= <- <-]. split_and!; [|done|done]. intros r' _ []%elem_of_nil.
  - destruct (rq_done (rget r0 w)) eqn:E.
    + intros H%IH. destruct H as (A & B & _). split_and!; [|done|done]. intros r' Hr [->|H]%elem_of_cons; [congruence|auto].
    + intros [= <- <-]. split_and!; [|done|done]. intros r' Hr [->|H]%elem_of_cons; auto.
Qed.

Lemma hput_same_lists ex w I t h' : inv ex w I -> h_open h' = h_open (hget t w) -> h_dialing h' = h_dialing (hget t w) -> h_idle h' = h_idle (hget t w) -> h_waiting h' = h_waiting (hget t w) ->
  (forall k, k ∈ h_h2 h' -> k ∈ h_h2 (hget t w) \/ cc_won (kget k w) = true /\ is_Some (cc_h2 (kget k w)) /\ cc_host (kget k w) = t) -> inv ex (hput t h' w) I.
Proof.
  intros V E1 E2 E3 E4 E5. apply (inv_host cfg ex ex w [] I t h' []); try done; rewrite ?E1, ?E2, ?E3, ?E4; auto; cbn [cnt]; try lia.
  - intros k. pose proof (i_conn _ _ _ _ V k) as C. unfold idle_at in *. cbn [app]. by destruct (decide (cc_host (kget k w) = t)) as [<-|].
  - apply (i_max _ _ _ _ V).
  - intros H. by apply (i_wait _ _ _ _ V).
  - intros r _ [H%Exists_nil|H]; [done|by left].
Qed.

Lemma keep_release k w J : inv None w (IRelease k :: J) -> let '(w', out) := release cfg k w in inv None w' (out ++ J).
Proof.
  intros V. pose proof (known_one _ _ _ _ k V eq_refl) as Hk. destruct (ok_one _ _ _ _ V) as [Hw E2]. unfold release. destruct (cc_closed (kget k w)) eqn:Ec.
  { apply (swap_one None w (IRelease k) J []); try done. intros k'; alk. }
  set (t := cc_host (kget k w)). destruct (next_waiting (h_waiting (hget t w)) w) as [r rest] eqn:En. apply next_waiting_spec in En as (N1 & N2 & N3).
  destruct r as [r|].
  - apply (inv_waiting cfg None w [IRelease k] J t rest [ISend k r]); try done; [intros k'; alk|each|each|].
    intros r' Hr' [[H|H%Exists_nil]%Exists_cons|H]; [done|done|]. destruct (N1 r' Hr' H) as [[= ->]|?]; [right; by apply Exists_cons_hd|by left].
  - specialize (N2 eq_refl) as ->. set (w1 := hput t (hget t w <| h_waiting := [] |>) w).
    assert (V1 : inv None w1 (IRelease k :: J)).
    { apply (inv_waiting cfg None w [] (IRelease k :: J) t [] []); try done; [intros; apply alike_refl|]. intros r' Hr' [H%Exists_nil|H]; [done|]. destruct (N1 r' Hr' H) as [?|?%elem_of_nil]; done. }
    destruct (_ && _).
    + set (w2 := hput t (hget t w1 <| h_idle := h_idle (hget t w1) ++ [k] |>) w1).
      assert (V2 : inv None w2 J).
      { apply (inv_host cfg None None w1 [IRelease k] J t _ []); try done; cbn [h_idle h_h2 h_open h_dialing h_waiting].
        - intros k' [H| ->%list_elem_of_singleton]%elem_of_app; [by left|by right].
        - auto.
        - intros k'. pose proof (i_conn _ _ _ _ V1 k') as C. unfold idle_at in C |- *. eapply cinv_trade; [| |exact C].
          + unfold kinds0. rewrite !Forall_cons. split_and!; done.
          + intros _. cbn. destruct (decide (cc_host (kget k' w1) = t)) as [Et|Et].
            * rewrite Et, cnt_app. cbn. lia.
            * destruct (Z.eqb_spec k k') as [->|]; [done|]. cbn. lia.
        - cbn. lia.
        - cbn. lia.
        - intros HM. apply (i_max _ _ _ _ V1 t HM).
        - intros _. apply (i_wait _ _ _ _ V1). done.
        - intros r' _ [[H|H%Exists_nil]%Exists_cons|H]; [done|done|by left]. }
      cbn [app]. destruct (idleTimeout cfg); [|done]. by apply inv_soft.
    + apply (swap_one None w1 (IRelease k) J [IDiscard k]); try done; [intros k'; alk|each|each].
Qed.

Lemma removeConn_sub k ks k' : k' ∈ (removeConn k ks).2 -> k' ∈ ks.
Proof.
  unfold removeConn. destruct (list_find _ ks) as [[i y]|]; cbn; [|done]. rewrite delete_take_drop. rewrite <- (take_drop i ks) at 3. rewrite !elem_of_app. intros [H|H]; [by left|right].
  rewrite <- (take_drop 1 (drop i ks)), drop_drop, elem_of_app. right. by rewrite Nat.add_1_r.
Qed.

Lemma removeConn_cnt (p : Z -> bool) k ks : cnt p (removeConn k ks).2 <= cnt p ks.
Proof.
  unfold removeConn. destruct (list_find _ ks) as [[i y]|]; cbn; [|done]. rewrite delete_take_drop. rewrite <- (take_drop i ks) at 3. rewrite !cnt_app.
  rewrite <- (take_drop 1 (drop i ks)), drop_drop, cnt_app, Nat.add_1_r. pose proof (cnt_nonneg p (take 1 (drop i ks))). lia.
Qed.

(** Connections leave the lists of a host. *)
Lemma drop_lists ex w I t h' : inv ex w I -> h_open h' = h_open (hget t w) -> h_dialing h' = h_dialing (hget t w) -> h_waiting h' = h_waiting (hget t w) ->
  (forall k, k ∈ h_idle h' -> k ∈ h_idle (hget t w)) -> (forall p, cnt p (h_idle h') <= cnt p (h_idle (hget t w))) -> (forall k, k ∈ h_h2 h' -> k ∈ h_h2 (hget t w)) -> inv ex (hput t h' w) I.
Proof.
  intros V E1 E2 E3 Hi Hc Hh. apply (inv_host cfg ex ex w [] I t h' []); try done; rewrite ?E1, ?E2, ?E3; auto; cbn [cnt]; try lia.
  - intros k. eapply (cinv_trade k _ _ _ I); [| |apply (i_conn _ _ _ _ V k)].
    + by apply Forall_forall.
    + intros _. unfold idle_at. cbn [app]. destruct (decide (cc_host (kget k w) = t)) as [->|]; [|lia]. specialize (Hc (fun k' => k' =? k)). lia.
  - apply (i_max _ _ _ _ V).
  - intros H. by apply (i_wait _ _ _ _ V).
  - intros r _ [H%Exists_nil|H]; [done|by left].
Qed.

Lemma add_discard ex w J k : inv ex w J -> 0 <= k < nextConn w -> inv ex w (IDiscard k :: J).
Proof.
  intros V Hk. apply (inv_swap cfg ex w [] J [IDiscard k]); try done; [|each|each|]. 
  - intros k'. eapply cinv_alike; [|apply (i_conn _ _ _ _ V k')]. apply (alike_app k' [] [_] J). alk.
  - intros r _ H%Exists_nil. done.
Qed.

Lemma keep_expire k w J : inv None w (IExpire k :: J) -> let '(w', out) := expireIdle k w in inv None w' (out ++ J).
Proof.
  intros V. pose proof (known_one _ _ _ _ k V eq_refl) as Hk. assert (V0 : inv None w J) by (apply (swap_one None w (IExpire k) J []); try done; intros k'; alk).
  unfold expireIdle. set (t := cc_host (kget k w)). destruct (cc_h2 (kget k w)).
  - destruct (_ && _); [|done]. pose proof (removeConn_sub k (h_h2 (hget t w))) as Hs. destruct (removeConn k (h_h2 (hget t w))) as [found rest]. cbn [snd] in Hs.
    assert (V1 : inv None (hput t (hget t w <| h_h2 := rest |>) w) J) by (apply drop_lists; try done; auto). destruct found; [by apply add_discard|done].
  - pose proof (removeConn_sub k (h_idle (hget t w))) as Hs. pose proof (fun p => removeConn_cnt p k (h_idle (hget t w))) as Hc. destruct (removeConn k (h_idle (hget t w))) as [found rest]. cbn [snd] in *.
    assert (V1 : inv None (hput t (hget t w <| h_idle := rest |>) w) J) by (apply drop_lists; try done; auto). destruct found; [by apply add_discard|done].
Qed.

Lemma keep_idleH2 ex k w J : inv ex w J -> 0 <= k < nextConn w -> let '(d, w') := idleH2Locked cfg k w in inv ex w' ((if d : bool then [IDiscard k] else []) ++ J).
Proof.
  intros V Hk. unfold idleH2Locked. set (t := cc_host (kget k w)). destruct (_ || _); [done|]. destruct (_ || _).
  - pose proof (removeConn_sub k (h_h2 (hget t w))) as Hs. destruct (removeConn k (h_h2 (hget t w))) as [found rest]. cbn [snd] in Hs.
    assert (V1 : inv ex (hput t (hget t w <| h_h2 := rest |>) w) J) by (apply drop_lists; try done; auto). destruct found; [by apply add_discard|done].
  - destruct (idleTimeout cfg); [|done]. by apply inv_soft.
Qed.

Lemma dispatch_conns t w : nextConn (dispatchLocked cfg t w).1 = nextConn w.
Proof.
  assert (L : forall q w0, nextConn (dispatch_loop t q w0).1 = nextConn w0).
  { induction q as [|r q IH]; intros w0; cbn [dispatch_loop]; [done|]. destruct (rq_done _); [apply IH|]. destruct (pick_h2 _ _).
    - specialize (IH (kput z (kget z w0 <| cc_streams := cc_streams (kget z w0) + 1 |> <| cc_idle := false |>) w0)). by destruct (dispatch_loop _ _ _).
    - destruct (last _); [|done]. match goal with |- context [dispatch_loop t q ?a] => specialize (IH a) end. by destruct (dispatch_loop _ _ _). }
  unfold dispatchLocked. specialize (L (h_waiting (hget t w)) w). destruct (dispatch_loop _ _ _) as [w1 work]. cbn in L. destruct (dial_loop _ _ _). done.
Qed.

(** Dispatching, and then seeing to an HTTP/2 connection that has become idle. *)
Lemma dispatch_idle t k w I : inv (Some t) w I -> 0 <= k < nextConn w ->
  let '(w', work) := dispatchLocked cfg t w in let '(d, w'') := idleH2Locked cfg k w' in inv None w'' (((if d : bool then [IDiscard k] else []) ++ work) ++ I).
Proof.
  intros V Hk. pose proof (dispatch_inv cfg t w I V) as D. pose proof (dispatch_conns t w) as N. destruct (dispatchLocked cfg t w) as [w' work]. cbn [fst] in N.
  pose proof (keep_idleH2 None k w' (work ++ I) D) as K. rewrite N in K. specialize (K Hk). destruct (idleH2Locked cfg k w') as [d w'']. by rewrite <- app_assoc.
Qed.

Lemma keep_streamdone k w J : inv None w (IStreamDone k :: J) -> let '(w', out) := streamDone cfg k w in inv None w' (out ++ J).
Proof.
  intros V. pose proof (known_one _ _ _ _ k V eq_refl) as Hk. assert (V0 : inv None w J) by (apply (swap_one None w (IStreamDone k) J []); try done; intros k'; alk).
  unfold streamDone. set (w1 := kput k _ w). assert (V1 : inv None w1 J) by by apply inv_soft.
  pose proof (dispatch_idle (cc_host (kget k w1)) k w1 J (inv_weaken (Some _) _ _ _ V1 (or_intror eq_refl)) Hk) as D.
  destruct (dispatchLocked cfg _ w1) as [w' work]. by destruct (idleH2Locked cfg k w').
Qed.

Lemma keep_retire k w J : inv None w (IRetire k :: J) -> inv None (retire k w) J.
Proof.
  intros V. assert (V0 : inv None w J) by (apply (swap_one None w (IRetire k) J []); try done; intros k'; alk).
  unfold retire. apply drop_lists; try done; cbn; auto. intros k'. apply removeConn_sub.
Qed.

(** ** Dialing and closing *)

Lemma ok_frame w w' i : (forall k, k ∈ conns_of i -> kget k w' = kget k w) -> (forall r, rget r w' = rget r w) -> ok w i -> ok w' i.
Proof.
  intros K R. destruct i; cbn [ok conns_of] in *; rewrite ?R; try done; try (specialize (K _ (list_elem_of_here _ _)); rewrite K; done). all: destruct err; try done; specialize (K _ (list_elem_of_here _ _)); by rewrite K.
Qed.

Lemma keep_dial t w J : inv None w (IDial t :: J) -> inv None (dial t w) J.
Proof.
  intros V. pose proof V as [? Fr Kn Cn Ok Op Di Mx Wa Id H2 Rc An Dn Lv Nx Ow]. apply Forall_cons in Kn as [_ Kn], Ok as [_ Ok]. set (n := nextConn w) in *.
  assert (Hn : ccs w !! n = None) by (destruct (ccs w !! n) eqn:E; [|done]; assert (0 <= n < n) by (apply Fr; eauto); lia).
  set (x := MkPoolConn t None false false false false false false None 0 0 PDialing false false false false false). set (w' := dial t w).
  assert (Kg : forall k, kget k w' = if decide (k = n) then x else kget k w) by (intros k; apply (pkget_kput k n x w)).
  assert (K0 : kget n w = no_conn) by (unfold kget; by rewrite Hn).
  assert (Hne : forall k, cc_won (kget k w) = true -> k <> n) by (intros k E ->; rewrite K0 in E; done).
  assert (Hm : forall f, msum f (ccs w') = msum f (ccs w) + f x) by (intros f; change (ccs w') with (<[n := x]> (ccs w)); rewrite msum_new by done; lia).
  assert (HJ : Forall (fun i => n ∉ conns_of i) J) by (eapply Forall_impl; [exact Kn|]; intros i Hi Hin; apply Forall_forall with (x := n) in Hi; [lia|done]).
  constructor; try done.
  - intros k. change (ccs w') with (<[n := x]> (ccs w)). change (nextConn w') with (n + 1). rewrite lookup_insert_is_Some. intros [<-|[_ H]]; [lia|]. apply Fr in H. lia.
  - eapply Forall_impl; [exact Kn|]. intros i Hi. unfold known in *. eapply Forall_impl; [exact Hi|]. change (nextConn w') with (n + 1). cbn. lia.
  - intros k. unfold idle_at. change (hget ?a w') with (hget a w). rewrite Kg. destruct (decide (k = n)) as [->|Hk].
    + assert (Ei : cnt (fun k' => k' =? n) (h_idle (hget (cc_host x) w)) = 0).
      { apply cnt_off, Forall_forall. intros k' Hk'. destruct (Z.eqb_spec k' n) as [->|]; [|done]. destruct (Id _ _ Hk') as [E _]. by apply Hne in E. }
      rewrite Ei. pose proof (alike_none n J [] HJ (Forall_nil_2 _)) as (E1 & E2 & E3 & E4 & E5 & E6 & E7 & E8 & E9)%alike_eqs. cbn [cnt] in *.
      constructor; rewrite ?E1, ?E2, ?E3, ?E4, ?E5, ?E6, ?E7, ?E8, ?E9; cbn; done.
    + eapply cinv_alike; [|apply Cn]. change (IDial t :: J) with ([IDial t] ++ J). apply (alike_app k [IDial t] [] J). alk.
  - rewrite Forall_forall in *. intros i Hi. apply (ok_frame w); [|done|by apply Ok]. intros k Hk. rewrite Kg. destruct (decide (k = n)) as [->|]; [|done]. by destruct (HJ i Hi).
  - intros t'. change (hget t' w') with (hget t' w). rewrite Hm, Op. cbn [cnt dialer]. unfold is_open. cbn. rewrite andb_true_r. lia.
  - intros t'. change (hget t' w') with (hget t' w). rewrite Hm, Di. cbn [cnt dialer]. unfold is_dialing. cbn. rewrite andb_true_r. lia.
  - intros t' k (A & B & D)%Id. rewrite Kg, decide_False by auto. done.
  - intros t' k (A & B & D)%H2. rewrite Kg, decide_False by auto. done.
  - intros r k E%Rc. rewrite Kg, decide_False by auto. done.
  - change (nextConn w') with (n + 1). change (nextReq w') with (nextReq w). lia.
  - intros r Hr. destruct (Ow r Hr) as [H|[[H|H]%Exists_cons|[k H]]]; [by left|done|right; by left|]. right; right. exists k. rewrite Kg. destruct (decide (k = n)) as [->|]; [|done].
    rewrite K0 in H. apply has_none in H; done.
Qed.

Lemma unsettled k w I : inv None w I -> cc_settled (kget k w) = false ->
  cc_won (kget k w) = false /\ cc_pooled (kget k w) = false /\ cc_back (kget k w) = false /\ cnt (pooler k) I = 0 /\ cnt (poolerr k) I = 0 /\ cnt (forgets k) I = 0.
Proof.
  intros V E. conn_at V k. rewrite E in *. pose proof (cnt_nonneg (pooler k) I). pose proof (cnt_nonneg (poolerr k) I). pose proof (poolerrs k I).
  destruct (cc_pooled (kget k w)) eqn:Ep; cbn in *; [lia|]. assert (cc_back (kget k w) = false) by (destruct (cc_back _); [by specialize (Cback eq_refl)|done]).
  assert (cnt (forgets k) I = 0).
  { apply cnt_off. eapply Forall_impl; [apply (i_ok _ _ _ _ V)|]. intros i Hi. destruct i; try done. cbn. destruct (Z.eqb_spec k0 k) as [->|]; [|done]. cbn in Hi. congruence. }
  split_and!; try done; try lia. destruct (cc_won _); [by specialize (Cwon eq_refl)|done].
Qed.

Lemma keep_dialed k err w J : inv None w (IDialed k err :: J) -> let '(w', out) := dialed k err w in torn w' = false -> inv None w' (out ++ J).
Proof.
  intros V. pose proof (known_one _ _ _ _ k V eq_refl) as Hk. unfold dialed. destruct (cc_settled (kget k w)) eqn:Es.
  - intros Ht. apply not_torn in Ht as ->; [|apply (i_torn _ _ _ _ V)]. rewrite (tear_false w (i_torn _ _ _ _ V)). pose proof (ok_one _ _ _ _ V) as Hb. cbn in Hb.
    apply (inv_swap cfg None w [IDialed k false] J []); try done; [|intros r _ [H|H%Exists_nil]%Exists_cons; done].
    intros k'. conn_at V k'. cbn [app]. constructor; try done.
    + intros E. destruct (Z.eqb_spec k k') as [->|]; [congruence|]. cbn in Cbegun. auto.
    + intros A B. specialize (Ctoken A B). destruct (k =? k'); cbn in Ctoken; lia.
  - intros _. destruct (unsettled k w _ V Es) as (Ew & Ep & Ebk & P1 & P2 & P3). set (x := kget k w) in *.
    apply (inv_conn cfg None w [IDialed k err] J k _ [IPool k err]); try done; fold x.
    + unfold later. cbn. rewrite Ew, Es. done.
    + each.
    + conn_at V k. fold x in Cclose, Cpool, Cback, Cup, Cbegun, Cwon, Clost, Cearly, Cunwon, Ch2, Cshut, Ctoken, Cend, Cend2, Cstuck. rewrite Ep, Ebk, Es in *. pose proof (Cunwon Ew) as [N1 N2].
      assert (Hcl : cc_phase x = PClosed -> err = false -> 0 < cnt (closing k) J).
      { intros Eph ->. pose proof (closers k J). rewrite Eph in Cclose. cbn in *. lia. }
      constructor; counts; cbn; rewrite ?Ep, ?Ebk; cbn in *; try done; try lia.
      * intros Eb. destruct (Cbegun Eb) as (A & B & D). destruct err; cbn in *; rewrite ?Z.eqb_refl in *; cbn in *; [done|]. pose proof (cnt_nonneg (begins k) J). lia.
      * destruct err; cbn; [|done]. intros _ _. rewrite ?Z.eqb_refl. pose proof (cnt_nonneg (poolerr k) J). cbn. lia.
      * intros Eph Hw' _. destruct err; [done|]. specialize (Hcl Eph eq_refl). cbn. lia.
      * intros c Eph Hw' _ _. destruct err; [done|]. specialize (Hcl Eph eq_refl). cbn. pose proof (cnt_nonneg (shuts k) J). lia.
      * intros [y Hy]. congruence.
    + each. cbn. destruct err; [done|]. by rewrite pkget_same.
    + intros r _ [[H|H%Exists_nil]%Exists_cons|H]; [done|done|by right].
Qed.

Lemma keep_up k w J : inv None w (IUp k :: J) -> inv None (kput k (kget k w <| cc_phase := PUp |> <| cc_ready := true |>) w) J.
Proof.
  intros V. pose proof (known_one _ _ _ _ k V eq_refl) as Hk. conn_at V k. set (x := kget k w) in *.
  assert (Eph : cc_phase x = POpening /\ cnt (ups k) J = 0).
  { pose proof (cnt_nonneg (ups k) J). destruct (bool_decide_reflect (cc_phase x = POpening)); cbn in *; [split; [done|lia]|lia]. }
  destruct Eph as [Eph Eu]. rewrite Eph in *. apply (inv_conn cfg None w [IUp k] J k _ []); try done; fold x.
  - each.
  - cbn [app]. constructor; cbn; try done. naive_solver.
  - intros r _ [[H|H%Exists_nil]%Exists_cons|H]; [done|done|by right].
Qed.

Lemma keep_ready k w J : inv None w (IReady k :: J) -> inv None (kput k (kget k w <| cc_ready := true |>) w) J.
Proof.
  intros V. pose proof (known_one _ _ _ _ k V eq_refl) as Hk. apply inv_soft; try done. apply (swap_one None w (IReady k) J []); try done. intros k'; alk.
Qed.

(** A dial was reported: the connection no longer counts as dialing. *)
Lemma keep_pool k err w J : inv None w (IPool k err :: J) -> let '(w', next, spawned) := dialed_pool cfg k err w in inv None w' (next ++ mjoin spawned ++ J).
Proof.
  intros V. pose proof (known_one _ _ _ _ k V eq_refl) as Hk. pose proof (ok_one _ _ _ _ V) as Ho. cbn in Ho. unfold dialed_pool. set (x := kget k w) in *. set (t := cc_host x).
  set (x' := x <| cc_pooled := true |> <| cc_back := cc_back x || err |>).
  assert (HS : cc_settled x = true /\ cc_pooled x = false /\ cc_back x = false /\ cnt (pooler k) J = 0).
  { conn_at V k. fold x in Cpool, Cback. pose proof (cnt_nonneg (pooler k) J). destruct (cc_pooled x), (cc_settled x), (cc_back x); cbn in *; try lia; split_and!; try done; try lia. all: by specialize (Cback eq_refl). }
  destruct HS as (Es & Ep & Eb & P0).
  assert (A : forall h' out, Forall (fun j => Forall (eq k) (conns_of j)) out -> (forall t', cnt (dialer t') out = 0) -> Forall (fun p => cnt p out = 0) (kinds0 k) -> cnt (token k) out <= (if err then 0 else 1) ->
    Forall (ok (kput k x' w)) out -> h_idle h' = h_idle (hget t w) -> h_h2 h' = h_h2 (hget t w) -> h_waiting h' = h_waiting (hget t w) ->
    h_open h' = h_open (hget t w) - Z.b2z err -> h_dialing h' = h_dialing (hget t w) - 1 -> inv (Some t) (kput k x' (hput t h' w)) (out ++ J)).
  { intros h' out O1 O2 O3 O4 O5 E1 E2 E3 E4 E5. apply (inv_account cfg None w [IPool k err] J k x' h' out); try done; fold x; fold t.
    - cbn [app]. apply Forall_cons_2; [each|done].
    - unfold kinds0 in O3. rewrite !Forall_cons in O3. destruct O3 as (N1 & N2 & N3 & N4 & N5 & N6 & N7 & N8 & _). conn_at V k.
      fold x in Cclose, Cpool, Cback, Cup, Cbegun, Cwon, Clost, Cearly, Cunwon, Ch2, Cshut, Ctoken, Cend, Cend2, Cstuck. pose proof (cnt_nonneg (poolerr k) J).
      constructor; rewrite ?cnt_app, ?N1, ?N2, ?N3, ?N4, ?N5, ?N6, ?N7, ?N8; cbn; rewrite ?Eb, ?Es in *; try done.
      + destruct err; cbn in *; lia.
      + rewrite P0. done.
      + intros _ Hw. destruct err; cbn in *; [lia|congruence].
      + intros B C. specialize (Ctoken B C). change (busy x') with (busy x). destruct err; cbn in *; lia.
    - intros r _ [[H|H%Exists_nil]%Exists_cons|H]; [done|done|by right].
    - rewrite E4. unfold is_open. fold x. cbn. rewrite Eb, bool_decide_eq_true_2 by done. destruct err; cbn; lia.
    - rewrite E5. unfold is_dialing. fold x. cbn. rewrite Ep, bool_decide_eq_true_2 by done. cbn. lia.
    - rewrite E4. destruct err; cbn; lia.
    - by left. }
  rewrite (hget_kput t k x' w). set (h1 := hget t w <| h_dialing := _ |> <| h_probed := _ |>).
  assert (Eh : forall h', hput t h' (hput t h1 (kput k x' w)) = kput k x' (hput t h' w)) by (intros h'; by rewrite hput_hput).
  destruct err; cbn [negb].
  - rewrite hget_same. destruct (next_waiting (h_waiting h1) _) as [r rest] eqn:En. apply next_waiting_spec in En as (N1 & _ & _). rewrite Eh.
    set (h2 := h1 <| h_open := _ |> <| h_waiting := rest |>).
    assert (V1 : inv (Some t) (kput k x' (hput t (h1 <| h_open := h_open h1 - 1 |>) w)) ([] ++ J)) by (apply A; try done; each).
    set (spawn := mjoin (match r with Some r => [[IFinish r (Failed ErrDial)]] | None => [] end)).
    assert (V2 : inv (Some t) (kput k x' (hput t h2 w)) (spawn ++ J)).
    { replace (kput k x' (hput t h2 w)) with (set_waiting t rest (kput k x' (hput t (h1 <| h_open := h_open h1 - 1 |>) w))) by (unfold set_waiting; by rewrite hget_kput, hget_same, hput_kput, hput_hput).
      apply (inv_waiting cfg (Some t) _ [] J t rest spawn); try done; unfold spawn; [intros k'; destruct r; alk|by destruct r|destruct r; each|destruct r; each|].
      intros r' Hr' [H%Exists_nil|H]; [done|]. rewrite hget_kput, hget_same in H. destruct (N1 r' Hr' H) as [<-|?]; [right; by apply Exists_cons_hd|by left]. }
    pose proof (dispatch_inv cfg t _ _ V2) as D. destruct (dispatchLocked cfg t (kput k x' (hput t h2 w))) as [w' work]. done.
  - destruct (cc_h2 x) as [c|] eqn:E2.
    + rewrite hget_same, Eh. set (h2 := h1 <| h_multiplexed := _ |> <| h_h2 := _ |>).
      assert (V1 : inv (Some t) (kput k x' (hput t h1 w)) ([] ++ J)) by (apply A; try done; each; cbn; lia).
      assert (V2 : inv (Some t) (kput k x' (hput t h2 w)) J).
      { rewrite <- (hput_hput t h2 h1), <- hput_kput. apply hput_same_lists; try done; rewrite ?hget_kput, ?hget_same; try done.
        intros k'. unfold h2. cbn. destruct (cc_closed x); [by left|]. intros [H| ->%list_elem_of_singleton]%elem_of_app; [by left|right]. rewrite pkget_same. cbn. rewrite E2. done. }
      pose proof (dispatch_idle t k _ _ V2 Hk) as D. destruct (dispatchLocked cfg t (kput k x' (hput t h2 w))) as [w' work]. by destruct (idleH2Locked cfg k w').
    + cbn [app]. assert (V1 : inv (Some t) (kput k x' (hput t h1 w)) ([IRelease k] ++ J)).
      { apply A; try done; [each|each|by cbn; rewrite Z.eqb_refl|each; cbn; rewrite pkget_same; done|cbn; lia]. }
      apply (inv_settle t); [done|]. rewrite ?hget_kput, hget_same. cbn. by apply (i_wait _ _ _ _ V).
Qed.

Lemma dispatch_torn t w : torn (dispatchLocked cfg t w).1 = torn w.
Proof.
  assert (L : forall q w0, torn (dispatch_loop t q w0).1 = torn w0).
  { induction q as [|r q IH]; intros w0; cbn [dispatch_loop]; [done|]. destruct (rq_done _); [apply IH|]. destruct (pick_h2 _ _).
    - specialize (IH (kput z (kget z w0 <| cc_streams := cc_streams (kget z w0) + 1 |> <| cc_idle := false |>) w0)). by destruct (dispatch_loop _ _ _).
    - destruct (last _); [|done]. match goal with |- context [dispatch_loop t q ?a] => specialize (IH a) end. by destruct (dispatch_loop _ _ _). }
  unfold dispatchLocked. specialize (L (h_waiting (hget t w)) w). destruct (dispatch_loop _ _ _) as [w1 work]. cbn in L. destruct (dial_loop _ _ _). done.
Qed.

Lemma keep_forget k w J : inv None w (IForget k :: J) -> let '(w', out) := forget cfg k w in torn w' = false -> inv None w' (out ++ J).
Proof.
  intros V. pose proof (known_one _ _ _ _ k V eq_refl) as Hk. pose proof (ok_one _ _ _ _ V) as Hs. cbn in Hs. unfold forget. set (x := kget k w) in *. set (t := cc_host x).
  destruct (cc_pooled x) eqn:Ep; cbn [negb].
  2:{ match goal with |- context [dispatchLocked cfg t ?a] => pose proof (dispatch_torn t a) as T end. destruct (dispatchLocked cfg t _) as [w' out]. intros E. cbn [fst] in T. rewrite T in E.
      cbn in E. by rewrite orb_true_r in E. }
  rewrite (tear_false w (i_torn _ _ _ _ V)). set (h := hget t w). set (h1 := h <| h_idle := _ |> <| h_h2 := _ |>). set (x' := x <| cc_idle := false |> <| cc_back := true |>).
  assert (V1 : inv None (hput t h1 w) (IForget k :: J)).
  { apply drop_lists; try done; unfold h1; cbn; [intros k'; apply removeConn_sub|intros p; apply removeConn_cnt|intros k'; apply removeConn_sub]. }
  assert (Eb : cc_back x = false /\ cnt (closer k) J = 0 /\ ended (cc_phase x) = true).
  { conn_at V k. fold x in Cclose. pose proof (cnt_nonneg (closer k) J). destruct (cc_back x), (ended (cc_phase x)); cbn in *; try lia; split_and!; done || lia. }
  destruct Eb as (Eb & Ec & Ee).
  assert (V2 : inv (Some t) (kput k x' (hput t (h1 <| h_open := h_open h - 1 |>) (hput t h1 w))) ([] ++ J)).
  { apply (inv_account cfg None (hput t h1 w) [IForget k] J k x' _ []); try done; rewrite ?kget_hput; fold x; fold t; rewrite ?hget_same; try done.
    - each.
    - conn_at V1 k. rewrite kget_hput in *. fold x in Cclose, Cpool, Cback, Cup, Cbegun, Cwon, Clost, Cearly, Cunwon, Ch2, Cshut, Ctoken, Cend, Cend2, Cstuck. pose proof (cnt_nonneg (poolerr k) J).
      cbn [app]. constructor; cbn; rewrite ?Ep, ?Ec, ?Ee in *; try done. intros _ _. lia.
    - intros r _ [[H|H%Exists_nil]%Exists_cons|H]; [done|done|by right].
    - unfold is_open. cbn. rewrite Eb, bool_decide_eq_true_2 by done. cbn. unfold h1. cbn. lia.
    - unfold is_dialing. cbn. rewrite Ep, !andb_false_r. cbn. lia.
    - unfold h1. cbn. lia.
    - by left. }
  rewrite hput_hput in V2. pose proof (dispatch_inv cfg t _ _ V2) as D.
  set (w2 := kput k x' (hput t _ w)) in D |- *. change (kput k x' (hput t _ w)) with w2. destruct (dispatchLocked cfg t w2) as [w' out]. by intros _.
Qed.

Lemma keep_close k last w J : inv None w (IClose k last :: J) ->
  inv None w ((if negb (cc_settled (kget k w)) then [ICloseDial k] else match cc_h2 (kget k w) with Some _ => [ICloseH2 k] | None => [ICloseH1 k last] end) ++ J).
Proof.
  intros V. pose proof (known_one _ _ _ _ k V eq_refl) as Hk. destruct (cc_settled (kget k w)) eqn:Es; cbn [negb].
  2:{ apply (swap_one None w (IClose k last) J [ICloseDial k]); try done; [intros k'; alk|each|each]. }
  assert (Hb : cc_begun (kget k w) = true).
  { apply (won_begun cfg None w _ k V). conn_at V k. destruct (cc_won (kget k w)); [done|]. specialize (Clost Es eq_refl). pose proof (closers k J). pose proof (cnt_nonneg (closing k) J).
    pose proof (cnt_nonneg (forgets k) J). destruct (ended _), (cc_back _); cbn in *; lia. }
  destruct (cc_h2 (kget k w)) eqn:E2.
  - apply (swap_one None w (IClose k last) J [ICloseH2 k]); try done; [intros k'; alk|each|]. each.
  - apply (swap_one None w (IClose k last) J [ICloseH1 k last]); try done; [intros k'; alk|each|each].
Qed.

Lemma keep_closedial k w J : inv None w (ICloseDial k :: J) -> inv None (kput k (kget k w <| cc_closed := true |>) w) ([IDialed k true] ++ J).
Proof.
  intros V. pose proof (known_one _ _ _ _ k V eq_refl) as Hk. apply (inv_conn cfg None w [ICloseDial k] J k _ [IDialed k true]); try done; [each| |each|].
  - conn_at V k. pose proof (cnt_nonneg (dialerr k) J). constructor; counts; cbn; try done. intros _ _. lia.
  - intros r _ [[H|H%Exists_nil]%Exists_cons|H]; [done|done|by right].
Qed.

Lemma keep_closeh1 k last w J : inv None w (ICloseH1 k last :: J) -> let '(w', out) := OnClose_h1 k last w in inv None w' (out ++ J).
Proof.
  intros V. pose proof (known_one _ _ _ _ k V eq_refl) as Hk. destruct (ok_one _ _ _ _ V) as (Hb & Hs & E2). unfold OnClose_h1. set (x := kget k w) in *.
  set (out := IForget k :: _). assert (Ho : Forall (fun j => Forall (eq k) (conns_of j)) out /\ Forall (fun p => cnt p out = 0) [closing k; poolerr k; pooler k; begins k; dialerr k; ups k; shuts k; token k] /\ cnt (closer k) out = 1 /\ forall t, cnt (dialer t) out = 0).
  { unfold out. destruct (cc_current x); cbn; rewrite Z.eqb_refl; split_and!; try done; each. }
  destruct Ho as (O1 & O2 & O3 & O4). apply (inv_conn cfg None w [ICloseH1 k last] J k _ out); try done; fold x.
  - apply Forall_cons_2; [each|done].
  - rewrite !Forall_cons in O2. destruct O2 as (N1 & N2 & N3 & N4 & N5 & N6 & N7 & N8 & _). conn_at V k.
    fold x in Cclose, Cpool, Cback, Cup, Cbegun, Cwon, Clost, Cearly, Cunwon, Ch2, Cshut, Ctoken, Cend, Cend2, Cstuck.
    constructor; rewrite ?cnt_app, ?N1, ?N2, ?N3, ?N4, ?N5, ?N6, ?N7, ?N8, ?O3; cbn; try done.
    + intros H. split; [done|]. by apply no_streams.
    + intros c _ _ E. congruence.
  - unfold out. destruct (cc_current x); each; cbn; by rewrite pkget_same.
  - intros r _ [[H|H%Exists_nil]%Exists_cons|H]; [done|done|]. left. destruct H as [H|(id & b & H)]; [|by rewrite no_streams in H]. unfold out. rewrite H. by apply Exists_cons_tl, Exists_cons_tl, Exists_cons_hd.
Qed.

Lemma keep_closeh2 k w J : inv None w (ICloseH2 k :: J) -> inv None (kput k (kget k w <| cc_closed := true |>) w) ([IForget k; IShutdown k] ++ J).
Proof.
  intros V. pose proof (known_one _ _ _ _ k V eq_refl) as Hk. destruct (ok_one _ _ _ _ V) as (Hb & Hs & E2). apply (inv_conn cfg None w [ICloseH2 k] J k _ [IForget k; IShutdown k]); try done; [each| |each|].
  - conn_at V k. pose proof (cnt_nonneg (closing k) J). pose proof (cnt_nonneg (shuts k) J). constructor; counts; cbn; try done.
    + intros c _ _ _ _. lia.
    + intros [y Hy]. rewrite Ch2 in Hy; done.
  - cbn. rewrite pkget_same. done.
  - cbn. rewrite pkget_same. done.
  - intros r _ [[H|H%Exists_nil]%Exists_cons|H]; [done|done|by right].
Qed.

(** A request whose connection ended goes again, or fails. *)
Lemma keep_last t r retry last w J : inv None w (ILast t r retry last :: J) -> let '(w', next, spawned) := OnClose_last t r retry last w in inv None w' (next ++ mjoin spawned ++ J).
Proof.
  intros V. unfold OnClose_last. destruct last.
  - apply (swap_one None w (ILast t r retry true) J [IFinish r _]); try done; [intros k'; alk|each|each|]. intros r' _ H. left. by apply Exists_cons_hd.
  - destruct (_ && _).
    + apply (inv_req cfg None w [ILast t r retry false] J r _ [IEnqueue t r true]); try done; [intros k'; alk|each|apply (i_rconn _ _ _ _ V)|each|].
      intros r' _ [H|H%Exists_nil]%Exists_cons; [left; by apply Exists_cons_hd|done].
    + apply (swap_one None w (ILast t r retry false) J [IFinish r _]); try done; [intros k'; alk|each|each|]. intros r' _ H. left. by apply Exists_cons_hd.
Qed.

Lemma keep_shut t r received w J : inv None w (IShut t r received :: J) -> let '(w', next, spawned) := shutdown_request t r received w in inv None w' (next ++ mjoin spawned ++ J).
Proof.
  intros V. unfold shutdown_request. destruct (_ && _).
  - apply (inv_req cfg None w [IShut t r received] J r _ [IEnqueue t r true]); try done; [intros k'; alk|each|apply (i_rconn _ _ _ _ V)|each|].
    intros r' _ [H|H%Exists_nil]%Exists_cons; [left; by apply Exists_cons_hd|done].
  - apply (swap_one None w (IShut t r received) J [IFinish r _]); try done; [intros k'; alk|each|each|]. intros r' _ H. left. by apply Exists_cons_hd.
Qed.

(** ** Streams *)

(** The streams of a connection change. *)
Lemma keep_h2 k c c' w i out J : inv None w (i :: J) -> conns_of i = [k] -> cc_h2 (kget k w) = Some c -> cc_begun (kget k w) = true ->
  Forall (fun j => Forall (eq k) (conns_of j)) out -> (forall t, cnt (dialer t) (i :: out) = 0) ->
  Forall (fun p => cnt p out = 0 /\ p i = false) [closer k; closing k; poolerr k; pooler k; begins k; dialerr k; ups k; token k] ->
  (hc_closed c' = true -> hc_streams c' = ∅) -> (hc_closed c' = false -> hc_closed c = false /\ cnt (shuts k) out = 0 /\ shuts k i = false) ->
  (cc_won (kget k w) = false -> hc_streams c' = ∅) -> Forall (ok (h2put k c' w)) out ->
  (forall r, rq_done (rget r w) = false -> holds r i \/ (exists id b, hc_streams c !! id = Some (r, b)) -> Exists (holds r) out \/ exists id b, hc_streams c' !! id = Some (r, b)) ->
  inv None (h2put k c' w) (out ++ J).
Proof.
  intros V Ei E2 Hb O1 O2 O3 Hs Hc Hw O4 Ho. pose proof (known_one _ _ _ _ k V Ei) as Hk. unfold h2put in *. set (x := kget k w) in *.
  apply (inv_conn cfg None w [i] J k _ out); try done; fold x.
  - unfold later. cbn. rewrite E2. done.
  - cbn [app]. apply Forall_cons_2; [rewrite Ei; each|done].
  - rewrite !Forall_cons in O3. destruct O3 as ([N1 M1] & [N2 M2] & [N3 M3] & [N4 M4] & [N5 M5] & [N6 M6] & [N7 M7] & [N8 M8] & _). conn_at V k.
    fold x in Cclose, Cpool, Cback, Cup, Cbegun, Cwon, Clost, Cearly, Cunwon, Ch2, Cshut, Ctoken, Cend, Cend2, Cstuck. rewrite M1, M2, M3, M4, M5, M6, M7, M8 in *. cbn [Z.b2z] in *.
    constructor; rewrite ?cnt_app, ?N1, ?N2, ?N3, ?N4, ?N5, ?N6, ?N7, ?N8; cbn; try done.
    + intros Eb. congruence.
    + intros Ew. split; [by apply Cunwon|]. unfold streams_of. cbn. auto.
    + intros _. apply Ch2. rewrite E2. eauto.
    + intros c0 [= <-]. done.
    + intros c0 Eph Hw' [= <-] Hcl. destruct (Hc Hcl) as (A & B & D). rewrite D in Cend2. cbn in Cend2. specialize (Cend2 c Eph Hw' E2 A). lia.
  - intros r Hr H. assert (H' : holds r i \/ (exists id b, hc_streams c !! id = Some (r, b)) \/ cc_current x = Some r).
    { destruct H as [[H|H%Exists_nil]%Exists_cons|[H|(id & b & H)]]; [by left|done|by right; right|]. unfold streams_of in H. rewrite E2 in H. right; left; eauto. }
    destruct H' as [H'|[H'|H']].
    + destruct (Ho r Hr (or_introl H')) as [?|?]; [by left|right; right; done].
    + destruct (Ho r Hr (or_intror H')) as [?|?]; [by left|right; right; done].
    + conn_at V k. fold x in Ch2. rewrite Ch2 in H'; [done|rewrite E2; eauto].
Qed.

Lemma h2get_some k c w : cc_h2 (kget k w) = Some c -> h2get k w = c.
Proof. unfold h2get. by intros ->. Qed.

Lemma keep_h2send k r w J : inv None w (IH2Send k r :: J) -> let '(ok, w') := attach k r w in inv None w' ((if ok : bool then [IH2Open k r] else [IStreamDone k]) ++ J).
Proof.
  intros V. pose proof (known_one _ _ _ _ k V eq_refl) as Hk. destruct (ok_one _ _ _ _ V) as [Hw E2]. unfold attach. destruct (rq_done (rget r w)) eqn:Er.
  - apply (swap_one None w (IH2Send k r) J [IStreamDone k]); try done; [intros k'; alk|each|each|]. cbn. intros r' Hr' <-. congruence.
  - apply (inv_req cfg None w [IH2Send k r] J r _ [IH2Open k r]); try done; [intros k'; alk|each|cbn; intros k' [= <-]; done|each|].
    intros r' _ [H|H%Exists_nil]%Exists_cons; [left; by apply Exists_cons_hd|done].
Qed.

Lemma keep_h2open k r w J : inv None w (IH2Open k r :: J) -> let '(w', out) := h2_send unicode_lower k r w in torn w' = false -> inv None w' (out ++ J).
Proof.
  intros V. pose proof (known_one _ _ _ _ k V eq_refl) as Hk. destruct (ok_one _ _ _ _ V) as [Hw [c E2]]. unfold h2_send. rewrite (h2get_some k c w E2).
  destruct (hc_closed c || hc_goAway c) eqn:Ec.
  { intros _. apply (swap_one None w (IH2Open k r) J [IDetach r; IStreamDone k; IEnqueue _ r true]); try done; [intros k'; alk|each|each|]. intros r' _ H. left. by apply Exists_cons_tl, Exists_cons_tl, Exists_cons_hd. }
  apply orb_false_iff in Ec as [Ec _]. destruct (h2RequestFields _ _ _).
  2:{ intros _. apply (swap_one None w (IH2Open k r) J [IDetach r; IStreamDone k; IFinish r _]); try done; [intros k'; alk|each|each|]. intros r' _ H. left. by apply Exists_cons_tl, Exists_cons_tl, Exists_cons_hd. }
  set (id := hc_nextID c). set (w1 := rput r _ w).
  assert (V1 : inv None w1 (IH2Open k r :: J)).
  { apply (inv_req cfg None w [IH2Open k r] J r _ [IH2Open k r]); try done; [intros; apply alike_refl|each|apply (i_rconn _ _ _ _ V)|each; cbn; rewrite kget_rput, E2; eauto|]. intros r' _ H. by left. }
  intros Ht. assert (Hid : hc_streams c !! id = None).
  { destruct (hc_streams c !! id) eqn:E; [|done]. exfalso. revert Ht. unfold h2put. cbn. rewrite orb_true_r. done. }
  rewrite Hid in *. rewrite bool_decide_eq_false_2, (tear_false w1 (i_torn _ _ _ _ V1)) by (by intros [y Hy]).
  apply (keep_h2 k c _ w1 (IH2Open k r) []); try done.
  - by apply (won_begun cfg None w1 _ k V1).
  - each.
  - cbn. congruence.
  - intros E. change (cc_won (kget k w) = false) in E. congruence.
  - intros r' _ [H|(id' & b & H)]; right; cbn in *.
    + subst r'. exists id, false. by rewrite lookup_insert_eq.
    + exists id', b. rewrite lookup_insert_ne; [done|]. intros <-. congruence.
Qed.

Lemma keep_cancel k r w J : inv None w (IH2Cancel k r :: J) -> let '(w', out) := cancel k r w in inv None w' (out ++ J).
Proof.
  intros V. pose proof (known_one _ _ _ _ k V eq_refl) as Hk. destruct (ok_one _ _ _ _ V) as (Hb & [c E2] & Hr). unfold cancel. rewrite (h2get_some k c w E2). set (id := rq_streamID _).
  assert (V0 : inv None w ([] ++ J)) by (apply (swap_one None w (IH2Cancel k r)); try done; intros k'; alk).
  destruct (hc_streams c !! id) as [[r' b]|] eqn:E; [|done]. destruct (Z.eqb_spec r' r) as [->|]; [|done]. conn_at V k.
  apply (keep_h2 k c _ w (IH2Cancel k r) [IStreamDone k]); try done; [each|each| | |each|].
  - intros H. cbn in *. rewrite (Cshut c E2 H). apply delete_empty.
  - intros H. destruct (Cunwon H) as [_ N]. unfold streams_of in N. rewrite E2 in N. cbn. rewrite N. apply delete_empty.
  - intros r' Hr' [H|(id' & b' & H)]; [done|]. right. exists id', b'. cbn. rewrite lookup_delete_ne; [done|]. intros <-. rewrite E in H. injection H as -> _. congruence.
Qed.

(** A stream ends, and its request is handed on. *)
Lemma keep_end k c id r b f w J last : inv None w (IFrame k f :: J) -> cc_h2 (kget k w) = Some c -> hc_streams c !! id = Some (r, b) ->
  (exists t, last = IEnqueue t r true) \/ (exists o, last = IFinish r o) -> inv None (h2put k (c <| hc_streams := delete id (hc_streams c) |>) w) ([IDetach r; IStreamDone k; last] ++ J).
Proof.
  intros V E2 E L. destruct (ok_one _ _ _ _ V) as (Hb & _). conn_at V k.
  assert (L' : conns_of last = [] /\ holds r last /\ (forall w', ok w' last) /\ (forall t, dialer t last = false) /\ Forall (fun p => p last = false) (kinds k)) by (destruct L as [[t ->]|[o ->]]; split_and!; try done; each).
  destruct L' as (L1 & L3 & L4 & L2 & L5). unfold kinds, kinds0 in L5. cbn [app] in L5. rewrite !Forall_cons in L5. destruct L5 as (P1 & P2 & P3 & P4 & P5 & P6 & P7 & P8 & P9 & _).
  apply (keep_h2 k c _ w (IFrame k f) [IDetach r; IStreamDone k; last]); try done.
  - each. by rewrite L1.
  - intros t. cbn. by rewrite L2.
  - rewrite !Forall_cons. cbn. rewrite P1, P2, P3, P4, P5, P6, P7, P9. done.
  - intros H. cbn in *. rewrite (Cshut c E2 H). apply delete_empty.
  - intros H. cbn. rewrite P8. done.
  - intros H. destruct (Cunwon H) as [_ N]. unfold streams_of in N. rewrite E2 in N. cbn. rewrite N. apply delete_empty.
  - each.
  - intros r' _ [H|(id' & b' & H)]; [done|]. cbn. destruct (decide (id' = id)) as [->|Hne].
    + left. rewrite E in H. injection H as -> _. by apply Exists_cons_tl, Exists_cons_tl, Exists_cons_hd.
    + right. exists id', b'. by rewrite lookup_delete_ne.
Qed.

Lemma keep_nothing k f w J : inv None w (IFrame k f :: J) -> inv None w ([] ++ J).
Proof. intros V. apply (swap_one None w (IFrame k f)); try done. intros k'; alk. Qed.

Lemma range_dom {A} (m : gmap Z A) id y : m !! id = Some y -> id ∈ range (dom m).
Proof. intros E. rewrite range_perm, elem_of_elements. by apply elem_of_dom_2 in E. Qed.

Lemma keep_goaway k last f w J : inv None w (IFrame k f :: J) -> let '(w', out) := handleGoAway range k last w in inv None w' (out ++ J).
Proof.
  intros V. destruct (ok_one _ _ _ _ V) as (Hb & [c E2]). unfold handleGoAway. rewrite (h2get_some k c w E2). conn_at V k.
  set (each_of := fun id => match hc_streams c !! id with Some _ => _ | None => _ end). set (unprocessed := filter (fun id => last < id) (range (dom (hc_streams c)))) in *.
  assert (Q : forall j, j ∈ mjoin (each_of <$> unprocessed) -> (exists r, j = IDetach r) \/ j = IStreamDone k \/ exists t r, j = IEnqueue t r true).
  { intros j (l & Hj & Hl)%list_elem_of_join. apply list_elem_of_fmap in Hl as (id & -> & _). unfold each_of in Hj. destruct (hc_streams c !! id) as [[r b]|]; [|by apply elem_of_nil in Hj].
    rewrite !elem_of_cons, elem_of_nil in Hj. destruct Hj as [->|[->|[->|[]]]]; eauto. }
  assert (Q0 : forall p : instr -> bool, (forall r, p (IDetach r) = false) -> p (IStreamDone k) = false -> (forall t r, p (IEnqueue t r true) = false) -> cnt p (mjoin (each_of <$> unprocessed)) = 0).
  { intros p H1 H2 H3. apply cnt_off, Forall_forall. intros j [[r ->]|[->|(t & r & ->)]]%Q; auto. }
  apply (keep_h2 k c _ w (IFrame k f) (IRetire k :: mjoin (each_of <$> unprocessed))); try done.
  - apply Forall_cons_2; [each|]. apply Forall_forall. intros j [[r ->]|[->|(t & r & ->)]]%Q; each.
  - intros t. cbn. rewrite Q0; done.
  - rewrite !Forall_cons. cbn. rewrite !Q0; done.
  - intros H. cbn in *. rewrite (Cshut c E2 H). apply map_filter_empty.
  - intros H. cbn. rewrite Q0; done.
  - intros H. destruct (Cunwon H) as [_ N]. unfold streams_of in N. rewrite E2 in N. cbn. rewrite N. apply map_filter_empty.
  - apply Forall_cons_2; [done|]. apply Forall_forall. intros j [[r ->]|[->|(t & r & ->)]]%Q; done.
  - intros r _ [H|(id & b & H)]; [done|]. cbn. destruct (decide (last < id)) as [Hl|Hl].
    + left. apply Exists_cons_tl, Exists_exists. exists (IEnqueue (cc_host (kget k w)) r true). split; [|done]. apply list_elem_of_join. exists (each_of id). split.
      * unfold each_of. rewrite H. rewrite !elem_of_cons. auto.
      * apply list_elem_of_fmap. exists id. split; [done|]. apply list_elem_of_filter. split; [done|]. by apply range_dom in H.
    + right. exists id, b. by apply map_lookup_filter_Some_2.
Qed.

Lemma keep_shutdown k w J : inv None w (IShutdown k :: J) -> let '(w', out) := shutdown range k w in inv None w' (out ++ J).
Proof.
  intros V. destruct (ok_one _ _ _ _ V) as (Hb & [c E2]). unfold shutdown. rewrite (h2get_some k c w E2). conn_at V k.
  set (each_of := fun id => match hc_streams c !! id with Some _ => _ | None => _ end).
  assert (Q : forall j, j ∈ mjoin (each_of <$> range (dom (hc_streams c))) -> (exists r, j = IDetach r) \/ exists t r b, j = IShut t r b).
  { intros j (l & Hj & Hl)%list_elem_of_join. apply list_elem_of_fmap in Hl as (id & -> & _). unfold each_of in Hj. destruct (hc_streams c !! id) as [[r b]|]; [|by apply elem_of_nil in Hj].
    rewrite !elem_of_cons, elem_of_nil in Hj. destruct Hj as [->|[->|[]]]; eauto. }
  assert (Q0 : forall p : instr -> bool, (forall r, p (IDetach r) = false) -> (forall t r b, p (IShut t r b) = false) -> cnt p (mjoin (each_of <$> range (dom (hc_streams c)))) = 0).
  { intros p H1 H2. apply cnt_off, Forall_forall. intros j [[r ->]|(t & r & b & ->)]%Q; auto. }
  apply (keep_h2 k c _ w (IShutdown k) (mjoin (each_of <$> range (dom (hc_streams c))))); try done.
  - apply Forall_forall. intros j [[r ->]|(t & r & b & ->)]%Q; each.
  - intros t. cbn. rewrite Q0; done.
  - rewrite !Forall_cons. cbn. rewrite !Q0; done.
  - apply Forall_forall. intros j [[r ->]|(t & r & b & ->)]%Q; done.
  - intros r _ [H|(id & b & H)]; [done|]. left. apply Exists_exists. exists (IShut (cc_host (kget k w)) r b). split; [|done]. apply list_elem_of_join. exists (each_of id). split.
    + unfold each_of. rewrite H. rewrite !elem_of_cons. auto.
    + apply list_elem_of_fmap. exists id. split; [done|]. by apply range_dom in H.
Qed.

Lemma keep_frame k f w J : inv None w (IFrame k f :: J) -> let '(w', out) := on_frame cfg range k f w in inv None w' (out ++ J).
Proof.
  intros V. pose proof (known_one _ _ _ _ k V eq_refl) as Hk. destruct (ok_one _ _ _ _ V) as (Hb & [c E2]). pose proof (h2get_some k c w E2) as Eg. conn_at V k.
  assert (Hun : cc_won (kget k w) = false -> hc_streams c = ∅) by (intros H; destruct (Cunwon H) as [_ N]; unfold streams_of in N; by rewrite E2 in N).
  destruct f as [id|id|id code|id code|n|last|]; cbn [on_frame].
  - rewrite Eg. destruct (hc_streams c !! id) as [[r b]|] eqn:E; [|by eapply keep_nothing]. apply (keep_h2 k c _ w (IFrame k (FReceived id)) []); try done; [each| | |].
    + intros H. cbn in *. by rewrite (Cshut c E2 H) in E.
    + intros H. by rewrite (Hun H) in E.
    + intros r' _ [H|(id' & b' & H)]; [done|]. right. cbn. destruct (decide (id' = id)) as [->|Hne]; [|exists id', b'; by rewrite lookup_insert_ne]. rewrite E in H. injection H as -> _. exists id, true. by rewrite lookup_insert_eq.
  - unfold complete. rewrite Eg. destruct (hc_streams c !! id) as [[r b]|] eqn:E; [|by eapply keep_nothing]. eapply keep_end; eauto.
  - unfold endStream. rewrite Eg. destruct (hc_streams c !! id) as [[r b]|] eqn:E; [|by eapply keep_nothing]. eapply keep_end; eauto.
  - unfold endStream. rewrite Eg. destruct (hc_streams c !! id) as [[r b]|] eqn:E; [|by eapply keep_nothing]. eapply keep_end; eauto. destruct (code =? 7); eauto.
  - set (w1 := kput k _ w). assert (V1 : inv None w1 J) by (apply inv_soft; try done; by eapply (keep_nothing k)).
    apply dispatch_inv. by apply (inv_weaken (Some _) (cc_host (kget k w))); [|right].
  - by eapply keep_goaway.
  - unfold fail. rewrite Eg. apply (keep_h2 k c _ w (IFrame k FConnError) [IRetire k]); try done; [each|each|apply (Cshut c E2)|each|].
    intros r' _ [H|H]; [done|by right].
Qed.

(** ** Closing the client *)

Lemma keep_clientclose w J : inv None w (IClientClose :: J) -> let '(w', out) := Close hrange w in inv None w' (out ++ J).
Proof.
  intros V. assert (V0 : inv None w ([] ++ J)) by (apply (swap_one None w IClientClose); try done; intros k'; alk). unfold Close. destruct (c_closed w); [done|].
  set (g := fun '(w, idle, waiting) t => let '(w, i, q) := close_host w t in (w, idle ++ i, waiting ++ q)).
  set (bag := fun (idle waiting : list Z) => (IDiscard <$> idle) ++ ((fun r => IFinish r (Failed ErrClientClosed)) <$> waiting)).
  assert (L : forall ts w0 idle waiting, inv None w0 (bag idle waiting ++ J) -> let '(w', idle', waiting') := fold_left g ts (w0, idle, waiting) in inv None w' (bag idle' waiting' ++ J)).
  { induction ts as [|t ts IH]; intros w0 idle waiting V1; [done|]. cbn [fold_left]. unfold g at 2. unfold close_host. set (h := hget t w0). set (more := h_idle h ++ filter _ _). apply IH.
    assert (V2 : inv None (hput t (h <| h_idle := [] |> <| h_waiting := [] |>) w0) (bag more (h_waiting h) ++ bag idle waiting ++ J)).
    { assert (Q : forall j, j ∈ bag more (h_waiting h) -> (exists k, j = IDiscard k /\ 0 <= k < nextConn w0) \/ exists r o, j = IFinish r o).
      { intros j. unfold bag. rewrite elem_of_app, !list_elem_of_fmap. intros [(k & -> & Hk)|(r & -> & _)]; [left|right; eauto]. exists k. split; [done|]. apply (won_known cfg None w0 _ k V1).
        unfold more in Hk. apply elem_of_app in Hk as [Hk|[_ Hk]%list_elem_of_filter]; [by apply (i_idle _ _ _ _ V1) in Hk as [? _]|by apply (i_h2 _ _ _ _ V1) in Hk as [? _]]. }
      assert (Q0 : forall p : instr -> bool, (forall k, p (IDiscard k) = false) -> (forall r o, p (IFinish r o) = false) -> cnt p (bag more (h_waiting h)) = 0).
      { intros p H1 H2. apply cnt_off, Forall_forall. intros j [(k & -> & _)|(r & o & ->)]%Q; auto. }
      apply (inv_host cfg None None w0 [] _ t); try done; cbn [h_idle h_h2 h_open h_dialing h_waiting].
      - intros k []%elem_of_nil.
      - auto.
      - intros k. eapply cinv_trade; [| |apply (i_conn _ _ _ _ V1 k)].
        + unfold kinds0. rewrite !Forall_cons, !(cnt_app _ (bag more (h_waiting h))), !Q0; done.
        + intros _. rewrite (cnt_app _ (bag more (h_waiting h))), Q0 by done. unfold idle_at. destruct (decide (cc_host (kget k w0) = t)); cbn; [|lia].
          pose proof (cnt_nonneg (fun k' => k' =? k) (h_idle (hget (cc_host (kget k w0)) w0))). lia.
      - intros t' _. rewrite Q0; done.
      - rewrite Q0; try done. cbn. fold h. lia.
      - rewrite Q0; try done. cbn. fold h. lia.
      - intros HM. apply (i_max _ _ _ _ V1 t HM).
      - apply Forall_forall. intros j [(k & -> & Hk)|(r & o & ->)]%Q; each.
      - apply Forall_forall. intros j [(k & -> & Hk)|(r & o & ->)]%Q; done.
      - intros r _ [H%Exists_nil|H]; [done|]. right. apply Exists_exists. exists (IFinish r (Failed ErrClientClosed)). split; [|done]. unfold bag. apply elem_of_app. right. apply list_elem_of_fmap. eauto. }
    eapply inv_perm; [|exact V2]. unfold bag. rewrite !fmap_app. solve_Permutation. }
  assert (V1 : inv None (w <| c_closed := true |>) (bag [] [] ++ J)) by (destruct V0; constructor; done).
  apply (L (hrange (dom (hosts w)))) in V1. destruct (fold_left g _ _) as [[w' idle] waiting]. done.
Qed.
End steps.
