(* ===== verification/HttpPoolFresh.v ===== *)
(** A new request of the HTTP client's pool (HttpPool) is one nobody has yet: the
    requests that the hosts, the connections and the goroutines have are below
    [nextReq]. *)
From S2P Require Import Prelude.
From S2P Require Import Hpack.
From S2P Require Import GoText.
From S2P Require Import Http3Client.
From S2P Require Import HttpPool.
From S2P Require Import HttpPoolInv.
Import HttpPool.

(** The requests an instruction is about. *)
Definition reqs_of (i : instr) : list Z :=
  match i with
  | IEnqueue _ r _ | ISend _ r | IAttach _ r | IGiveBack _ r | IAbandoned _ r | IBroken _ r | IFinish r _ | IAbort r | IAbandon r | IDetach r | IParse _ r _ | IAnswer _ r _ | ILast _ r _ _
  | IShut _ r _ | IH2Send _ r | IH2Open _ r | IH2Cancel _ r => [r]
  | _ => []
  end.

Section fresh.
Context (unicode_lower : bytes -> bytes) (cfg : poolConfig) (range : gset Z -> list Z) (hrange : gset hostTarget -> list hostTarget) (n : Z).
Implicit Types (w : HttpPool.Client) (x : clientConn) (I J : list instr) (h : hostPool).

Definition old_instr (i : instr) : Prop := Forall (fun r => r < n) (reqs_of i).
Definition old_conn x : Prop := (forall r, cc_current x = Some r -> r < n) /\ (forall id r b, streams_of x !! id = Some (r, b) -> r < n).
Definition old w : Prop := nextReq w = n /\ (forall t, Forall (fun r => r < n) (h_waiting (hget t w))) /\ (forall k, old_conn (kget k w)).

Lemma old_kput k x w : old w -> old_conn x -> old (kput k x w).
Proof. intros (N & W & C) X. split_and!; [done|done|]. intros k'. rewrite pkget_kput. by destruct (decide (k' = k)). Qed.

Lemma old_hput t h w : old w -> Forall (fun r => r < n) (h_waiting h) -> old (hput t h w).
Proof. intros (N & W & C) X. split_and!; [done| |done]. intros t'. rewrite hget_hput. by destruct (decide (t' = t)). Qed.

Lemma old_waiting t w : old w -> Forall (fun r => r < n) (h_waiting (hget t w)).
Proof. by intros (_ & W & _). Qed.
Lemma old_kget k w : old w -> old_conn (kget k w).
Proof. by intros (_ & _ & C). Qed.
Lemma old_rput r y w : old w -> old (rput r y w). Proof. done. Qed.
Lemma old_tear b w : old w -> old (tear b w). Proof. done. Qed.

(** The same requests. *)
Lemma old_conn_as x x' : old_conn x -> cc_current x' = cc_current x \/ cc_current x' = None -> cc_h2 x' = cc_h2 x -> old_conn x'.
Proof. intros [A B] E1 E2. unfold old_conn, streams_of. rewrite E2. split; [|done]. destruct E1 as [->| ->]; [done|intros r [=]]. Qed.

Lemma old_conn_h2 x c : old_conn x -> (forall id r b, hc_streams c !! id = Some (r, b) -> r < n) -> old_conn (x <| cc_h2 := Some c |>).
Proof. by intros [A B] H. Qed.

Lemma old_h2get k w id r b : old w -> hc_streams (h2get k w) !! id = Some (r, b) -> r < n.
Proof. intros (_ & _ & C). destruct (C k) as [_ S]. unfold streams_of in S. unfold h2get. destruct (cc_h2 (kget k w)); cbn in *; [apply S|by rewrite lookup_empty]. Qed.

(** A connection's streams change to some of what they were. *)
Lemma old_h2put k c w : old w -> (forall id r b, hc_streams c !! id = Some (r, b) -> exists id' b', hc_streams (h2get k w) !! id' = Some (r, b')) -> old (h2put k c w).
Proof. intros O H. apply old_kput; [done|]. apply old_conn_h2; [by apply old_kget|]. intros id r b (id' & b' & E)%H. by apply (old_h2get k w id' r b'). Qed.

Hint Resolve old_rput old_tear old_waiting old_kget : core.
Ltac tidy := repeat (apply old_hput || apply old_rput || apply old_tear); try done; cbn; auto.
Ltac as_was := apply old_kput; [done|]; eapply old_conn_as; [by apply old_kget|by auto|done].

(** ** Dispatching *)

Lemma old_loop t q w : old w -> Forall (fun r => r < n) q -> old (dispatch_loop t q w).1 /\ Forall (fun p => p.2 < n) (dispatch_loop t q w).2.
Proof.
  revert w. induction q as [|r q IH]; intros w O Q; cbn [dispatch_loop]; [split; [tidy|done]|].
  apply Forall_cons in Q as [Hr Q]. destruct (rq_done _); [by apply IH|]. destruct (pick_h2 _ _) as [k|].
  - match goal with |- context [dispatch_loop t q ?a] => destruct (IH a) as [A B]; [as_was|done|destruct (dispatch_loop t q a)] end. split; [done|by apply Forall_cons].
  - destruct (last _) as [k|]; [|split; [|done]; apply old_hput; [done|by apply Forall_cons]].
    match goal with |- context [dispatch_loop t q ?a] => destruct (IH a) as [A B]; [apply old_hput; [as_was|cbn; by apply old_waiting]|done|destruct (dispatch_loop t q a)] end. split; [done|by apply Forall_cons].
Qed.

Lemma old_dials m h : h_waiting (dial_loop cfg m h).1 = h_waiting h.
Proof. revert h. induction m as [|m IH]; intros h; [done|]. cbn [dial_loop]. destruct (_ && _); [done|]. match goal with |- context [dial_loop cfg m ?a] => specialize (IH a); destruct (dial_loop cfg m a) end. done. Qed.

Lemma old_dispatch t w : old w -> old (dispatchLocked cfg t w).1 /\ Forall old_instr (dispatchLocked cfg t w).2.
Proof.
  intros O. unfold dispatchLocked. destruct (old_loop t (h_waiting (hget t w)) w O (old_waiting _ _ O)) as [A B]. destruct (dispatch_loop _ _ _) as [w' work]. cbn [fst snd] in *.
  match goal with |- context [dial_loop cfg ?m ?h] => pose proof (old_dials m h) as E; destruct (dial_loop cfg m h) as [h' d] end. cbn [fst snd] in *. split.
  - apply old_hput; [done|]. rewrite E. by apply old_waiting.
  - apply Forall_app. split; [|apply Forall_replicate; by apply Forall_nil_2]. apply Forall_fmap. eapply Forall_impl; [exact B|]. intros [k r] H. by apply Forall_singleton.
Qed.

Lemma old_next q w r rest : next_waiting q w = (r, rest) -> Forall (fun r => r < n) q -> (forall r', r = Some r' -> r' < n) /\ Forall (fun r => r < n) rest.
Proof.
  revert r rest. induction q as [|r0 q IH]; intros r rest; cbn; [by intros [= <- <-]|]. destruct (rq_done _); intros E [Hr Q]%Forall_cons; [by apply IH|]. injection E as <- <-. split; [by intros ? [= <-]|done].
Qed.

Lemma old_idle k w : old w -> old (idleH2Locked cfg k w).2.
Proof. intros O. unfold idleH2Locked. destruct (_ || _); [done|]. destruct (_ || _); [destruct (removeConn _ _); cbn [snd]; tidy|]. destruct (idleTimeout cfg); [|done]. cbn [snd]. as_was. Qed.

Lemma old_dispatch_idle t k w : old w -> let '(w1, work) := dispatchLocked cfg t w in let '(d, w2) := idleH2Locked cfg k w1 in old w2 /\ Forall old_instr ((if d : bool then [IDiscard k] else []) ++ work).
Proof.
  intros O. destruct (old_dispatch t w O) as [A B]. destruct (dispatchLocked cfg t w) as [w1 work]. cbn [fst snd] in *. pose proof (old_idle k w1 A) as C. destruct (idleH2Locked cfg k w1) as [d w2]. split; [done|].
  apply Forall_app. split; [|done]. destruct d; [|done]. apply Forall_singleton, Forall_nil_2.
Qed.

(** ** Every critical section *)

Definition old_result (s : Client * list instr * list (list instr)) : Prop := old s.1.1 /\ Forall old_instr (s.1.2 ++ mjoin s.2).

Lemma old_only w l : old w -> Forall old_instr l -> old_result (only (w, l)).
Proof. intros A B. split; [done|]. cbn. by rewrite app_nil_r. Qed.

Lemma only_pair (p : Client * list instr) : old p.1 /\ Forall old_instr p.2 -> old_result (only p).
Proof. destruct p. intros []. by apply old_only. Qed.

Ltac insts := repeat (apply Forall_cons_2 || apply Forall_nil_2); try (unfold old_instr; cbn [reqs_of]; repeat (apply Forall_cons_2 || apply Forall_nil_2)); try done.

Lemma old_unload k r w : old w -> old (unload k r w).
Proof. intros O. unfold unload, clear_current. apply old_kput; [done|]. eapply old_conn_as; [by apply (old_kget k w)|by right|done]. Qed.

Lemma old_discard k own w : old w -> old (discard k own w).
Proof. intros O. unfold discard. apply old_kput; [done|]. eapply old_conn_as; [by apply (old_kget k w)|by right|done]. Qed.

Lemma old_finish r o w : old w -> old (finish r o w).2.
Proof. intros O. unfold finish. by destruct (rq_done _). Qed.

Lemma old_attach k r w : old w -> old (attach k r w).2.
Proof. intros O. unfold attach. by destruct (rq_done _). Qed.

Lemma old_streams k w (f : Z -> Z -> bool -> list instr) ids : old w -> (forall id r b, r < n -> Forall old_instr (f id r b)) ->
  Forall old_instr (mjoin ((fun id => match hc_streams (h2get k w) !! id with Some (r, b) => f id r b | None => [] end) <$> ids)).
Proof.
  intros O F. apply Forall_join. apply Forall_fmap, Forall_forall. intros id _. cbn. destruct (_ !! id) as [[r b]|] eqn:E; [|done]. apply F. by apply (old_h2get k w id r b).
Qed.

Lemma old_del k id w : old w -> old (h2put k (h2get k w <| hc_streams := delete id (hc_streams (h2get k w)) |>) w).
Proof. intros O. apply old_h2put; [done|]. cbn. intros id' r b (_ & H)%lookup_delete_Some. eauto. Qed.

Lemma old_end k id retry code w : old w -> old_result (only (endStream k id retry code w)).
Proof.
  intros O. unfold endStream. destruct (_ !! id) as [[r b]|] eqn:E; [|by apply old_only]. pose proof (old_h2get k w id r b O E). apply old_only; [by apply old_del|]. destruct retry; insts.
Qed.

Lemma old_frame k f w : old w -> old_result (only (on_frame cfg range k f w)).
Proof.
  intros O. destruct f; cbn [on_frame].
  - destruct (_ !! id) as [[r b]|] eqn:E; [|by apply old_only]. apply old_only; [|done]. apply old_h2put; [done|]. cbn. intros id' r' b' [[<- [= <- <-]]|[_ H]]%lookup_insert_Some; eauto.
  - unfold complete. destruct (_ !! id) as [[r b]|] eqn:E; [|by apply old_only]. pose proof (old_h2get k w id r b O E). apply old_only; [by apply old_del|]. insts.
  - by apply old_end.
  - by apply old_end.
  - apply only_pair, old_dispatch. as_was.
  - unfold handleGoAway. apply old_only; [|apply Forall_cons; split; [insts|]].
    + apply old_h2put; [done|]. cbn. intros id r b [H _]%map_lookup_filter_Some. eauto.
    + apply (old_streams k w (fun id r b => [IDetach r; IStreamDone k; IEnqueue _ r true])); [done|]. intros; insts.
  - unfold fail. apply old_only; [|insts]. apply old_h2put; [done|]. eauto.
Qed.

Lemma old_pool k err w : old w -> old_result (dialed_pool cfg k err w).
Proof.
  intros O. unfold dialed_pool. set (x := kget k w). set (t := cc_host x). set (w1 := kput k _ w). assert (O1 : old w1) by (unfold w1; as_was).
  set (w2 := hput t _ w1). assert (O2 : old w2) by (unfold w2; tidy). destruct err; cbn [negb].
  - destruct (next_waiting _ _) as [r rest] eqn:E. apply old_next in E as [Hr Hq]; [|by apply old_waiting].
    match goal with |- context [dispatchLocked cfg t ?a] => destruct (old_dispatch t a) as [A B]; [tidy|destruct (dispatchLocked cfg t a)] end. split; [done|]. cbn [fst snd] in *. apply Forall_app. split; [done|]. destruct r; insts. by apply Hr.
  - destruct (cc_h2 x); [|apply old_only; [done|insts]]. match goal with |- context [dispatchLocked cfg t ?a] => pose proof (old_dispatch_idle t k a) as H; destruct (dispatchLocked cfg t a) as [w3 work] end. destruct (idleH2Locked cfg k w3) as [d w4].
    destruct H as [A B]; [tidy|]. by apply old_only.
Qed.

Lemma old_Close w : old w -> old_result (only (Close hrange w)).
Proof.
  intros O. unfold Close. destruct (c_closed w); [by apply old_only|]. set (g := fun '(w, idle, waiting) t => let '(w, i, q) := close_host w t in (w, idle ++ i, waiting ++ q)).
  assert (L : forall ts w0 idle waiting, old w0 -> Forall (fun r => r < n) waiting -> old (fold_left g ts (w0, idle, waiting)).1.1 /\ Forall (fun r => r < n) (fold_left g ts (w0, idle, waiting)).2).
  { induction ts as [|t ts IH]; intros w0 idle waiting O0 Q; [done|]. cbn [fold_left]. unfold g at 2 4, close_host. apply IH; [tidy|]. apply Forall_app. split; [done|by apply old_waiting]. }
  destruct (L (hrange (dom (hosts w))) (w <| c_closed := true |>) [] []) as [A B]; [done|done|]. destruct (fold_left g _ _) as [[w' idle] waiting]. cbn [fst snd] in *. apply old_only; [done|].
  apply Forall_app. split; apply Forall_fmap; [apply Forall_forall; intros k _; apply Forall_nil_2|]. eapply Forall_impl; [exact B|]. intros r Hr. cbn. insts.
Qed.

Lemma old_exec i w : old w -> old_instr i -> old_result (exec unicode_lower cfg range hrange i w).
Proof.
  intros O Hi. unfold old_instr in Hi. destruct i; cbn [HttpPool.exec reqs_of] in *; try (apply Forall_cons in Hi as [Hi _]).
  - unfold enqueue. destruct (c_closed w); [apply old_only; [done|insts]|]. apply only_pair, old_dispatch. apply old_hput; [done|]. cbn. destruct retry; [apply Forall_cons|apply Forall_app]; (split; [|try (by apply old_waiting)]); try done; [by apply old_waiting|insts].
  - apply old_only; [|done]. destruct O as (N & W & C). split_and!; [done|done|]. intros k. unfold dial, kget. cbn. destruct (decide (k = nextConn w)) as [->|]; [rewrite lookup_insert_eq; by split|rewrite lookup_insert_ne by done; apply C].
  - unfold send. destruct (cc_h2 _) eqn:E; [apply old_only; [done|insts]|]. destruct (cc_closed _); [apply old_only; [done|insts]|]. apply old_only; [|insts]. apply old_kput; [done|]. split; [by intros ? [= <-]|]. unfold streams_of. cbn. rewrite E. intros id r' b H. by rewrite lookup_empty in H.
  - pose proof (old_attach k r w O). destruct (attach k r w) as [[] w']; apply old_only; insts.
  - apply old_only; [by apply old_unload|insts].
  - unfold release. destruct (cc_closed _); [by apply old_only|]. destruct (next_waiting _ _) as [r rest] eqn:E. apply old_next in E as [Hr Hq]; [|by apply old_waiting].
    destruct r as [r|]; [apply old_only; [tidy|insts; by apply Hr]|]. destruct (_ && _); [|apply old_only; [tidy|insts]]. apply old_only; [|done]. destruct (idleTimeout cfg); [|by tidy].
    apply old_kput; [by tidy|]. eapply old_conn_as; [by apply (old_kget k w)|by left|done].
  - apply old_only; [by apply old_discard|insts].
  - apply old_only; [by apply old_discard|insts].
  - apply old_only; [by apply old_discard|insts].
  - apply old_only; [by apply old_finish|insts].
  - pose proof (old_finish r (Failed ErrAborted) w O). destruct (finish _ _ _) as [[] w']; apply old_only; insts.
  - apply old_only; [done|]. destruct (rq_conn _) as [k|]; [destruct (cc_h2 _)|]; insts.
  - by apply old_only.
  - unfold dialed. destruct (cc_settled _); [by apply old_only|]. apply old_only; [as_was|insts].
  - by apply old_pool.
  - apply old_only; [as_was|done].
  - apply old_only; [as_was|done].
  - unfold expireIdle. destruct (cc_h2 _); [destruct (_ && _); [|by apply old_only]|]; (destruct (removeConn _ _) as [[] rest]; (apply old_only; [tidy|insts])).
  - unfold streamDone. set (w1 := kput k _ w). assert (O1 : old w1) by (unfold w1; as_was). pose proof (old_dispatch_idle (cc_host (kget k w1)) k w1 O1) as H. destruct (dispatchLocked _ _ _) as [w3 work]. destruct (idleH2Locked cfg k w3) as [d w4]. destruct H. by apply old_only.
  - unfold retire. apply old_only; [tidy|done].
  - unfold OnData. pose proof (old_kget k w O) as [Hc _]. destruct (cc_closed _); [apply old_only; [as_was|done]|]. destruct (cc_current _); apply old_only; try as_was; insts. by apply Hc.
  - apply old_only; [done|]. destruct p; insts.
  - apply old_only; [by apply old_unload|]. destruct reusable; insts.
  - apply old_only; [done|]. destruct (negb _); [|destruct (cc_h2 _)]; insts.
  - apply old_only; [as_was|insts].
  - unfold OnClose_h1. pose proof (old_kget k w O) as [Hc _]. apply old_only; [as_was|]. apply Forall_cons. split; [insts|]. destruct (cc_current _); insts; by apply Hc.
  - apply old_only; [as_was|insts].
  - unfold forget. apply only_pair, old_dispatch. apply old_kput; [tidy|]. eapply old_conn_as; [by apply (old_kget k w)|by left|done].
  - unfold OnClose_last. destruct last0; [split; [done|insts]|]. destruct (_ && _); split; try done; insts.
  - unfold shutdown. apply old_only; [|apply (old_streams k w (fun id r b => [IDetach r; IShut _ r b])); [done|intros; insts]]. apply old_h2put; [done|]. cbn. intros id r b H. by rewrite lookup_empty in H.
  - unfold shutdown_request. destruct (_ && _); split; try done; insts.
  - pose proof (old_attach k r w O). destruct (attach k r w) as [[] w']; apply old_only; insts.
  - unfold h2_send. destruct (_ || _); [apply old_only; [done|insts]|]. destruct (h2RequestFields _ _ _); apply old_only; try done; insts. apply old_kput; [done|]. apply old_conn_h2; [by apply (old_kget k w)|]. cbn.
    intros id r' b [[_ [= <- <-]]|[_ H]]%lookup_insert_Some; [done|]. by eapply old_h2get.
  - unfold cancel. destruct (_ !! _) as [[r' b]|]; [|by apply old_only]. destruct (r' =? r); [|by apply old_only]. apply old_only; [by apply old_del|insts].
  - by apply old_frame.
  - by apply old_Close.
Qed.
End fresh.
