(* ===== verification/HttpPoolRun.v ===== *)
(** The runs of the HTTP client's pool: what becomes of a request. *)
From S2P Require Import Prelude.
From S2P Require Import Hpack.
From S2P Require Import GoText.
From S2P Require Import Http3Client.
From S2P Require Import HttpPool.
From S2P Require Import HttpPoolInv.
From S2P Require Import HttpPoolKeep.
From S2P Require Import HttpPoolSteps.
From S2P Require Import HttpPoolFresh.
Import HttpPool.

Lemma msum_some {A} (f : A -> Z) m : 0 < msum f m -> exists k (y : A), m !! k = Some y /\ 0 < f y.
Proof.
  induction m as [|k x m Hk IH] using map_ind; [rewrite msum_empty; lia|]. rewrite msum_new by done. intros H. destruct (Z.lt_ge_cases 0 (f x)) as [|Hx].
  - exists k, x. by rewrite lookup_insert_eq.
  - destruct IH as (k' & x' & E & Hp); [lia|]. exists k', x'. rewrite lookup_insert_ne by congruence. done.
Qed.

Section run.
Context (unicode_lower : bytes -> bytes) (cfg : poolConfig) (range : gset Z -> list Z) (hrange : gset hostTarget -> list hostTarget).
Context (range_perm : forall s, range s ≡ₚ elements s).
Abbreviation inv := (inv cfg).
Abbreviation exec := (exec unicode_lower cfg range hrange).
Implicit Types (w : HttpPool.Client) (x : clientConn) (I J : list instr).

Lemma keep_exec i w J : inv None w (i :: J) -> let '(w', next, spawned) := exec i w in torn w' = false -> inv None w' (next ++ mjoin spawned ++ J).
Proof.
  intros V. pose proof (known_one cfg None w i J) as Kn. pose proof (ok_one cfg None w i J V) as Ok.
  destruct i; cbn [HttpPool.exec only].
  - pose proof (keep_enqueue cfg _ _ _ _ _ V) as K. by destruct (enqueue _ _ _ _ _).
  - intros _. by apply (keep_dial cfg).
  - pose proof (keep_send cfg _ _ _ _ V) as K. by destruct (send _ _ _).
  - pose proof (keep_attach cfg _ _ _ _ V) as K. destruct (attach _ _ _) as [[] ?]; intros _; exact K.
  - by apply (keep_giveback cfg).
  - pose proof (keep_release cfg _ _ _ V) as K. by destruct (release _ _ _).
  - intros Ht. apply (keep_discard cfg k None w (IDiscard k)); try done; each. intros r _ [H|H]; done.
  - intros Ht. apply (keep_discard cfg k (Some r) w (IAbandoned k r)); try done; each. cbn in Ok. intros r' Hr [H|[= <-]]; [done|congruence].
  - intros Ht. apply (keep_discard cfg k (Some r) w (IBroken k r) [_]); try done; each. intros r' Hr [H|[= <-]]; by apply Exists_cons_hd.
  - intros _. by apply (keep_finish cfg).
  - pose proof (keep_abort cfg _ _ _ V) as K. destruct (finish _ _ _) as [[] ?]; intros _; exact K.
  - intros _. by apply (keep_abandon cfg).
  - intros _. by apply (keep_detach cfg).
  - pose proof (keep_dialed cfg _ _ _ _ V) as K. by destruct (dialed _ _ _).
  - pose proof (keep_pool cfg _ _ _ _ V) as K. by destruct (dialed_pool _ _ _ _) as [[? ?] ?].
  - intros _. by apply (keep_up cfg).
  - intros _. by apply (keep_ready cfg).
  - pose proof (keep_expire cfg _ _ _ V) as K. by destruct (expireIdle _ _).
  - pose proof (keep_streamdone cfg _ _ _ V) as K. by destruct (streamDone _ _ _).
  - intros _. by apply (keep_retire cfg).
  - pose proof (keep_data cfg _ _ _ _ V) as K. by destruct (OnData _ _ _).
  - intros _. by apply (keep_parse cfg).
  - by apply (keep_answer cfg).
  - intros _. by apply (keep_close cfg).
  - intros _. by apply (keep_closedial cfg).
  - pose proof (keep_closeh1 cfg _ _ _ _ V) as K. by destruct (OnClose_h1 _ _ _).
  - intros _. by apply (keep_closeh2 cfg).
  - pose proof (keep_forget cfg _ _ _ V) as K. by destruct (forget _ _ _).
  - pose proof (keep_last cfg _ _ _ _ _ _ V) as K. by destruct (OnClose_last _ _ _ _ _) as [[? ?] ?].
  - pose proof (keep_shutdown cfg range range_perm _ _ _ V) as K. by destruct (shutdown _ _ _).
  - pose proof (keep_shut cfg _ _ _ _ _ V) as K. by destruct (shutdown_request _ _ _ _) as [[? ?] ?].
  - pose proof (keep_h2send cfg _ _ _ _ V) as K. destruct (attach _ _ _) as [[] ?]; intros _; exact K.
  - pose proof (keep_h2open unicode_lower cfg _ _ _ _ V) as K. by destruct (h2_send _ _ _ _).
  - pose proof (keep_cancel cfg _ _ _ _ V) as K. by destruct (cancel _ _ _).
  - pose proof (keep_frame cfg range range_perm _ _ _ _ V) as K. by destruct (on_frame _ _ _ _ _).
  - pose proof (keep_clientclose cfg hrange _ _ V) as K. by destruct (Close _ _).
Qed.

(** What is torn stays torn. *)
Lemma idle_torn k w : torn (idleH2Locked cfg k w).2 = torn w.
Proof. unfold idleH2Locked. destruct (_ || _); [done|]. destruct (_ || _); [by destruct (removeConn _ _)|]. by destruct (idleTimeout cfg). Qed.

Lemma close_torn w : torn (Close hrange w).1 = torn w.
Proof.
  unfold Close. destruct (c_closed w); [done|]. set (g := fun '(w, idle, waiting) t => let '(w, i, q) := close_host w t in (w, idle ++ i, waiting ++ q)).
  assert (L : forall ts w0 idle waiting, torn (fold_left g ts (w0, idle, waiting)).1.1 = torn w0) by (induction ts as [|t ts IH]; intros w0 idle waiting; [done|]; cbn [fold_left]; unfold g at 2, close_host; by rewrite IH).
  specialize (L (hrange (dom (hosts w))) (w <| c_closed := true |>) [] []). by destruct (fold_left g _ _) as [[w' idle] waiting].
Qed.

Lemma exec_torn i w : torn w = true -> torn (exec i w).1.1 = true.
Proof.
  intros T. assert (D : forall t w0, torn w0 = true -> torn (dispatchLocked cfg t w0).1 = true) by (intros t w0 H; by rewrite dispatch_torn).
  assert (DI : forall t k w0, torn w0 = true -> torn (let '(w1, work) := dispatchLocked cfg t w0 in let '(d, w2) := idleH2Locked cfg k w1 in (w2, work, d)).1.1 = true).
  { intros t k w0 H. specialize (D t w0 H). destruct (dispatchLocked cfg t w0) as [w1 work]. pose proof (idle_torn k w1). destruct (idleH2Locked cfg k w1). cbn in *. congruence. }
  assert (F : forall r o, torn (finish r o w).2 = true) by (intros r o; unfold finish; by destruct (rq_done _)).
  assert (A : forall k r, torn (attach k r w).2 = true) by (intros k r; unfold attach; by destruct (rq_done _)).
  destruct i; cbn [HttpPool.exec only fst]; try done.
  - unfold enqueue. destruct (c_closed w); [done|]. by apply D.
  - unfold send. destruct (cc_h2 _); [done|]. by destruct (cc_closed _).
  - specialize (A k r). by destruct (attach k r w).
  - unfold unload, clear_current, tear. cbn. by rewrite T.
  - unfold release. destruct (cc_closed _); [done|]. destruct (next_waiting _ _) as [[r|] rest]; [done|]. destruct (_ && _); [|done]. by destruct (idleTimeout cfg).
  - unfold discard, tear. cbn. by rewrite T.
  - unfold discard, tear. cbn. by rewrite T.
  - unfold discard, tear. cbn. by rewrite T.
  - specialize (F r (Failed ErrAborted)). by destruct (finish _ _ _).
  - unfold dialed. destruct (cc_settled _); [|done]. unfold tear. cbn. by rewrite T.
  - unfold dialed_pool. destruct err; cbn [negb].
    + destruct (next_waiting _ _) as [r rest]. match goal with |- context [dispatchLocked cfg ?t ?a] => specialize (D t a T); by destruct (dispatchLocked cfg t a) end.
    + destruct (cc_h2 _); [|done]. match goal with |- context [dispatchLocked cfg ?t ?a] => specialize (DI t k a T); destruct (dispatchLocked cfg t a) as [w1 work] end. by destruct (idleH2Locked cfg k w1).
  - unfold expireIdle. destruct (cc_h2 _); [destruct (_ && _); [|done]|]; by destruct (removeConn _ _).
  - unfold streamDone. match goal with |- context [dispatchLocked cfg ?t ?a] => specialize (DI t k a T); destruct (dispatchLocked cfg t a) as [w1 work] end. by destruct (idleH2Locked cfg k w1).
  - unfold OnData. destruct (cc_closed _); [done|]. by destruct (cc_current _).
  - unfold unload, clear_current, tear. cbn. by rewrite T.
  - unfold forget. apply D. cbn. by rewrite T.
  - unfold OnClose_last. repeat case_match; done.
  - unfold shutdown_request. by destruct (_ && _).
  - specialize (A k r). by destruct (attach k r w).
  - unfold h2_send. destruct (_ || _); [done|]. destruct (h2RequestFields _ _ _); [|done]. cbn. by rewrite T.
  - unfold cancel. destruct (_ !! _) as [[r' b]|]; [|done]. by destruct (r' =? r).
  - destruct f; cbn [on_frame]; try done.
    + by destruct (_ !! _) as [[r b]|].
    + unfold complete. by destruct (_ !! _) as [[r b]|].
    + unfold endStream. by destruct (_ !! _) as [[r b]|].
    + unfold endStream. by destruct (_ !! _) as [[r b]|].
    + by apply D.
  - by rewrite close_torn.
Qed.

(** ** Events *)

(** A goroutine starts. *)
Lemma inv_begun w J out : inv None w J -> (forall k, alike k [] out) -> (forall t, cnt (dialer t) out = 0) -> Forall (known w) out -> Forall (ok w) out -> inv None w (out ++ J).
Proof.
  intros V Al Hd Ko Oo. apply (inv_swap cfg None w [] J out); try done; [|intros r _ H%Exists_nil; done].
  intros k. eapply cinv_alike; [|apply (i_conn _ _ _ _ V k)]. apply (alike_app k [] out J), Al.
Qed.

Lemma phase_known w J k : inv None w J -> cc_phase (kget k w) <> PFailed -> 0 <= k < nextConn w.
Proof. intros V E. apply (i_fresh _ _ _ _ V). unfold kget in E. destruct (ccs w !! k); [eauto|done]. Qed.

(** Nobody has a connection whose dial was not reported yet. *)
Lemma unbegun w J k : inv None w J -> cc_begun (kget k w) = false -> cnt (token k) J = 0 /\ idle_at k w = 0 /\ cc_won (kget k w) = false.
Proof.
  intros V Eb. conn_at V k. destruct (Cbegun Eb) as (Ew & E2 & B0). split_and!; [| |done].
  - apply cnt_off, Forall_forall. intros i Hi. pose proof (i_ok _ _ _ _ V) as Ok. rewrite Forall_forall in Ok. specialize (Ok i Hi).
    destruct i; try done; cbn in *; try (destruct err; [done|]); match goal with |- (?a =? k) = false => destruct (Z.eqb_spec a k) as [->|]; [|done] end; try (destruct Ok; congruence); congruence.
  - unfold idle_at. apply cnt_off, Forall_forall. intros k' Hk'. destruct (Z.eqb_spec k' k) as [->|]; [|done]. apply (i_idle _ _ _ _ V) in Hk' as [? _]. congruence.
Qed.

Lemma pkput_kput k x x' w : kput k x (kput k x' w) = kput k x w.
Proof. unfold kput. cbn. by rewrite insert_insert_eq. Qed.

(** A dial that succeeded begins to be reported, by a goroutine that ends with [last]. *)
Lemma inv_begin w J k x' last : inv None w J -> 0 <= k < nextConn w -> let x := kget k w in
  cc_begun x = false -> cc_begun x' = true -> cc_host x' = cc_host x -> cc_back x' = cc_back x -> cc_pooled x' = cc_pooled x -> cc_won x' = cc_won x -> cc_settled x' = cc_settled x -> cc_current x' = cc_current x -> cc_closed x' = cc_closed x ->
  cc_h2 x' = None \/ cc_h2 x' = Some (MkH2Conn ∅ 1 false false false) ->
  (last = IUp k /\ cc_phase x = PDialing /\ cc_phase x' = POpening \/ last = IReady k /\ cc_phase x' = cc_phase x /\ (cc_phase x = PUp \/ cc_phase x = PClosed)) ->
  inv None (kput k x' w) ([IDialed k false; last] ++ J).
Proof.
  intros V Hk x Eb Eb' E1 E2 E3 E4 E5 E6 E7 EH L. destruct (unbegun w J k V Eb) as (T0 & I0 & Ew). conn_at V k. fold x in Cclose, Cpool, Cback, Cup, Cbegun, Cwon, Clost, Cearly, Cunwon, Ch2, Cshut, Ctoken, Cend, Cend2, Cstuck, Ew.
  destruct (Cbegun Eb) as (_ & Eh & B0). destruct (Cunwon Ew) as [Ec Es]. assert (ES : streams_of x' = ∅) by (unfold streams_of; by destruct EH as [->| ->]).
  apply (inv_conn cfg None w [] J k x' [IDialed k false; last]); try done; fold x.
  - unfold later. rewrite E1, E4, E5. split_and!; try done. congruence.
  - destruct L as [(-> & _)|(-> & _)]; each.
  - intros t. destruct L as [(-> & _)|(-> & _)]; done.
  - assert (Lc : cnt (closer k) [last] = 0 /\ cnt (closing k) [last] = 0 /\ cnt (poolerr k) [last] = 0 /\ cnt (pooler k) [last] = 0 /\ cnt (begins k) [last] = 0 /\ cnt (dialerr k) [last] = 0 /\ cnt (shuts k) [last] = 0 /\ cnt (token k) [last] = 0)
      by (destruct L as [(-> & _)|(-> & _)]; done).
    destruct Lc as (L1 & L2 & L3 & L4 & L5 & L6 & L7 & L8). cbn [cnt] in *.
    constructor; cbn [app cnt closer closing poolerr pooler begins dialerr ups shuts token]; rewrite ?Z.eqb_refl; cbn [Z.b2z]; rewrite ?E2, ?E3, ?E4, ?E5, ?E6, ?E7; try done; try lia.
    + destruct L as [(-> & P1 & P2)|(-> & P1 & P2)]; [rewrite P2; rewrite P1 in Cclose|rewrite P1]; cbn in *; lia.
    + destruct L as [(-> & P1 & P2)|(-> & P1 & P2)].
      * rewrite P2, bool_decide_eq_true_2 by done. rewrite P1, bool_decide_eq_false_2 in Cup by done. cbn in *. rewrite Z.eqb_refl. cbn. lia.
      * rewrite P1. cbn in *. lia.
    + congruence.
    + intros A B. specialize (Clost A B). lia.
    + destruct L as [(_ & _ & ->)|(_ & -> & [->| ->])]; intros [?|?]; done.
    + intros c Hc Hcl. destruct EH as [EH|EH]; rewrite EH in Hc; [done|]. injection Hc as <-. done.
    + intros _ _. unfold busy. rewrite E6, Ec, T0, I0. lia.
    + intros _ H. congruence.
    + intros c _ H. congruence.
    + rewrite Ec. by intros [y Hy].
  - destruct L as [(-> & _)|(-> & _)]; each; cbn; by rewrite pkget_same.
  - intros r _ [H%Exists_nil|H]; [done|]. by apply has_none in H.
Qed.

(** A connection changes its phase. *)
Lemma inv_phase w J k p out : inv None w J -> 0 <= k < nextConn w -> cc_phase (kget k w) = PDialing \/ cc_phase (kget k w) = PUp ->
  (p = PUp /\ out = [] \/ p = PFailed /\ cc_phase (kget k w) = PDialing /\ out = [IDialed k true] \/ p = PClosed /\ cc_phase (kget k w) = PUp /\ exists last, out = [IClose k last]) ->
  inv None (kput k (kget k w <| cc_phase := p |>) w) (out ++ J).
Proof.
  intros V Hk Hp Ho. pose proof V as V0. conn_at V0 k. set (x := kget k w) in *.
  assert (E0 : cnt (closer k) J = 0 /\ cc_back x = false /\ cnt (ups k) J = 0).
  { pose proof (cnt_nonneg (closer k) J). destruct Hp as [Hp|Hp]; rewrite Hp in *; destruct (cc_back x); cbn in *; split_and!; try done; lia. }
  destruct E0 as (E1 & E2 & E3). pose proof (cnt_nonneg (closing k) J). pose proof (cnt_nonneg (poolerr k) J). pose proof (cnt_nonneg (shuts k) J). pose proof (cnt_nonneg (dialerr k) J).
  apply (inv_conn cfg None w [] J k _ out); try done; fold x.
  - destruct Ho as [(_ & ->)|[(_ & _ & ->)|(_ & _ & last & ->)]]; each.
  - intros t. destruct Ho as [(_ & ->)|[(_ & _ & ->)|(_ & _ & last & ->)]]; done.
  - destruct Ho as [(-> & ->)|[(-> & E & ->)|(-> & E & last & ->)]]; constructor; counts; cbn; rewrite ?E2 in *; cbn in *; try done; try lia; try naive_solver lia.
  - destruct Ho as [(_ & ->)|[(_ & _ & ->)|(_ & _ & last & ->)]]; each.
  - intros r _ [H'%Exists_nil|H']; [done|]. by right.
Qed.

(** What the instructions take for granted of requests that are older. *)
Lemma ok_old w w' i : (forall k, kget k w' = kget k w) -> (forall r, r < nextReq w -> rget r w' = rget r w) -> old_instr (nextReq w) i -> ok w i -> ok w' i.
Proof.
  intros K R O. unfold old_instr in O. destruct i; cbn [ok reqs_of] in *; rewrite ?K; try done; apply Forall_cons in O as [O _]; by rewrite R.
Qed.

(** A new request. *)
Lemma keep_do w J y out as' : inv None w J -> Forall (old_instr (nextReq w)) J -> let r := nextReq w in let w1 := w <| nextReq := r + 1 |> <| answers := answers w ++ as' |> in
  (rq_done y = false /\ rq_conn y = None /\ as' = [] /\ (exists t, out = [IEnqueue t r false]) \/ y = rget r w /\ out = [] /\ exists o, as' = [(r, o)]) ->
  inv None (rput r y w1) (out ++ J).
Proof.
  intros V Old r w1 H. pose proof V as [? Fr Kn Cn Ok Op Di Mx Wa Id H2 Rc An Dn Lv Nx Ow]. set (w' := rput r y w1).
  assert (Eg : forall r', rget r' w' = if decide (r' = r) then y else rget r' w) by (intros r'; unfold w'; by rewrite prget_rput).
  assert (Er : rq_done (rget r w) = true) by (destruct (rq_done (rget r w)) eqn:E; [done|]; apply Lv in E; lia).
  assert (Hn : r ∉ (answers w).*1) by (rewrite Dn; lia).
  assert (Ho : Forall (known w') out /\ Forall (ok w') out /\ (forall k, alike k [] out) /\ forall t, cnt (dialer t) out = 0) by (destruct H as [(_ & _ & _ & t & ->)|(_ & -> & _)]; split_and!; try done; each; intros k; alk).
  destruct Ho as (O1 & O2 & O3 & O4).
  constructor; try done.
  - by apply Forall_app.
  - intros k. eapply cinv_alike; [|apply Cn]. apply (alike_app k [] out J), O3.
  - apply Forall_app. split; [done|]. apply Forall_forall. intros i Hi. rewrite !Forall_forall in *. apply (ok_old w); auto. intros r' Hr'. rewrite Eg. by rewrite decide_False by lia.
  - intros t. rewrite cnt_app, O4. apply Op.
  - intros t. rewrite cnt_app, O4. apply Di.
  - intros r' k. rewrite Eg. destruct (decide (r' = r)) as [->|]; [|apply Rc]. destruct H as [(_ & -> & _)|(-> & _)]; [done|apply Rc].
  - cbn. rewrite fmap_app. apply NoDup_app. destruct H as [(_ & _ & -> & _)|(_ & _ & o & ->)]; cbn; split_and!; try done; [by intros ? _ ?%elem_of_nil|constructor| |apply NoDup_singleton]. by intros r' Hr' ->%list_elem_of_singleton.
  - intros r'. cbn. rewrite fmap_app, elem_of_app, Dn, Eg. destruct H as [(Ey & _ & -> & _)|(-> & _ & o & ->)]; cbn.
    + rewrite elem_of_nil. destruct (decide (r' = r)) as [->|]; [rewrite Ey; unfold r in *; naive_solver lia|]. unfold r in *. naive_solver lia.
    + rewrite list_elem_of_singleton. destruct (decide (r' = r)) as [->|]; [rewrite Er; unfold r in *; naive_solver lia|]. unfold r in *. naive_solver lia.
  - intros r'. rewrite Eg. cbn. destruct (decide (r' = r)) as [->|]; [lia|]. intros ?%Lv. unfold r. lia.
  - cbn. unfold r. lia.
  - intros r'. rewrite Eg. destruct (decide (r' = r)) as [->|].
    + intros Hy. destruct H as [(_ & _ & _ & t & ->)|(-> & _)]; [|congruence]. right; left. by apply Exists_cons_hd.
    + intros [Hw|[Hw|Hw]]%Ow; [by left|right; left; apply Exists_app; by right|by right; right].
Qed.

Lemma alike_quiet k l : Forall (fun i => Forall (fun p => p i = false) (kinds k)) l -> alike k [] l.
Proof. intros H. apply Forall_forall. intros p Hp. rewrite (cnt_off p l); [done|]. eapply Forall_impl; [exact H|]. intros i Hi. rewrite Forall_forall in Hi. auto. Qed.

(** A request is put back as it is. *)
Lemma inv_unput r w I : inv None (rput r (rget r w) w) I -> inv None w I.
Proof.
  intros V. assert (E : forall r', rget r' (rput r (rget r w) w) = rget r' w) by (intros r'; rewrite prget_rput; by destruct (decide (r' = r)) as [->|]).
  pose proof V as [? Fr Kn Cn Ok Op Di Mx Wa Id H2 Rc An Dn Lv Nx Ow]. constructor; try done.
  - eapply Forall_impl; [exact Ok|]. intros i. apply ok_later; [intros; apply plater_refl|exact (fun k => won_begun cfg None _ _ k V)|]. intros r'. by rewrite E.
  - intros r' k. rewrite <- E. apply Rc.
  - intros r'. rewrite <- E. apply Dn.
  - intros r'. rewrite <- E. apply Lv.
  - intros r'. rewrite <- E. apply Ow.
Qed.

Lemma conn_known (f : clientConn -> bool) w J k : f no_conn = false -> f (kget k w) = true -> inv None w J -> 0 <= k < nextConn w.
Proof. intros E0 E V. apply (i_fresh _ _ _ _ V). unfold kget in E. destruct (ccs w !! k); [eauto|]. cbn in E. congruence. Qed.

Lemma keep_happen e w J w' todo : happen cfg e w = Some (w', todo) -> Forall (old_instr (nextReq w)) J -> inv None w J -> inv None w' (todo ++ J).
Proof.
  intros E Old V. destruct e; cbn [happen] in E.
  - pose proof (keep_do w J) as K. cbn zeta in K. assert (R : inv None (w <| nextReq := nextReq w + 1 |> <| answers := answers w ++ [(nextReq w, Failed ErrRejected)] |>) J) by (apply (inv_unput (nextReq w)), (K _ [] [_]); eauto 10).
    destruct (requestTarget _ _ _) as [t|]; [|by injection E as <- <-]. destruct (marshalRequest _ _); [|by injection E as <- <-]. injection E as <- <-.
    specialize (K (MkPoolRequest q close (negb http10) keep false false None 0) [IEnqueue t (nextReq w) false] [] V Old). rewrite app_nil_r in K. destruct w. apply K. left. eauto.
  - destruct (bool_decide_reflect (cc_phase (kget k w) = PDialing)) as [Ep|]; [|done]. assert (Hk : 0 <= k < nextConn w) by (apply (phase_known w J k V); congruence).
    destruct (secure _); injection E as <- <-; [apply (inv_phase w J k PUp []); auto|].
    assert (Eb : cc_begun (kget k w) = false) by (apply (c_early _ _ _ _ (i_conn _ _ _ _ V k)); auto). pose proof (c_begun _ _ _ _ (i_conn _ _ _ _ V k) Eb) as (_ & Eh & _).
    destruct (UnencryptedHTTP2 cfg); [unfold startH2; rewrite pkget_same, pkput_kput|]; apply inv_begin; auto.
  - destruct (bool_decide_reflect (cc_phase (kget k w) = PDialing)) as [Ep|]; [|done]. injection E as <- <-. apply inv_phase; auto. apply (phase_known w J k V); congruence.
  - destruct (secure _); [|done]. cbn [andb] in E. destruct (_ || _) eqn:Ep; [|done]. cbn [andb] in E. destruct (cc_begun (kget k w)) eqn:Eb; [done|]. injection E as <- <-.
    apply orb_prop in Ep. rewrite !bool_decide_eq_true in Ep. assert (Hk : 0 <= k < nextConn w) by (apply (phase_known w J k V); destruct Ep; congruence).
    pose proof (c_begun _ _ _ _ (i_conn _ _ _ _ V k) Eb) as (_ & Eh & _). destruct h2; [unfold startH2; rewrite pkget_same, pkput_kput|]; apply inv_begin; auto.
  - destruct (cc_ready _) eqn:Er; [|done]. destruct (bool_decide _); [|done]. injection E as <- <-. pose proof (conn_known cc_ready w J k eq_refl Er V) as Hk.
    apply inv_begun; [by apply inv_soft|intros k'; alk|done|each|each].
  - destruct (cc_ready _) eqn:Er; [|done]. destruct (bool_decide_reflect (cc_h2 (kget k w) = None)) as [|Eh]; [done|]. injection E as <- <-. pose proof (conn_known cc_ready w J k eq_refl Er V) as Hk.
    assert (Eb : cc_begun (kget k w) = true) by (destruct (cc_begun (kget k w)) eqn:Eb; [done|]; by destruct (c_begun _ _ _ _ (i_conn _ _ _ _ V k) Eb) as (_ & ? & _)).
    apply inv_begun; [by apply inv_soft| | | |].
    + intros k'. apply alike_quiet, Forall_app. split; [apply Forall_fmap, Forall_forall; intros f _|]; each; done.
    + intros t. rewrite cnt_app. rewrite cnt_off; [done|]. apply Forall_fmap, Forall_forall. done.
    + apply Forall_app. split; [|each]. apply Forall_fmap, Forall_forall. intros f _. cbn. each.
    + apply Forall_app. split; [|each]. apply Forall_fmap, Forall_forall. intros f _. cbn. rewrite pkget_same. cbn. split; [done|]. by apply not_eq_None_Some.
  - destruct (bool_decide_reflect (cc_phase (kget k w) = PUp)) as [Ep|]; [|done]. injection E as <- <-. apply inv_phase; eauto 10. apply (phase_known w J k V); congruence.
  - destruct (r <? nextReq w); [|done]. injection E as <- <-. apply inv_begun; try done; [intros k; alk|each|each].
  - destruct (cc_idle _) eqn:Ei; [|done]. injection E as <- <-. pose proof (conn_known cc_idle w J k eq_refl Ei V) as Hk. apply inv_begun; try done; [intros k'; alk|each|each].
  - injection E as <- <-. apply inv_begun; try done; [intros k; alk|each|each].
Qed.

(** ** Runs *)

Lemma old_more n m i : n <= m -> old_instr n i -> old_instr m i.
Proof. intros H O. eapply Forall_impl; [exact O|]. intros r Hr. cbn in *. lia. Qed.

Lemma old_conn_more n m x : n <= m -> old_conn n x -> old_conn m x.
Proof. intros H [A B]. split; [intros r E; specialize (A r E); lia|intros id r b E; specialize (B id r b E); lia]. Qed.

Lemma old_next_request w : old (nextReq w) w -> forall y as', old (nextReq w + 1) (rput (nextReq w) y (w <| nextReq := nextReq w + 1 |> <| answers := as' |>)).
Proof.
  intros (N & W & C) y as'. split_and!; [done| |].
  - intros t. eapply Forall_impl; [apply (W t)|]. intros r. cbn. lia.
  - intros k. eapply old_conn_more; [|apply (C k)]. lia.
Qed.

Lemma old_start k w : old (nextReq w) w -> old (nextReq w) (startH2 k w).
Proof. intros O. unfold startH2. apply old_kput; [done|]. apply (old_conn_h2 (nextReq w) (kget k w <| cc_maxStreams := 100 |>)); [by apply (old_kget _ k w)|]. intros id r b H. cbn in H. by rewrite lookup_empty in H. Qed.

Lemma old_same k x w : old (nextReq w) w -> cc_current x = cc_current (kget k w) -> cc_h2 x = cc_h2 (kget k w) -> old (nextReq w) (kput k x w).
Proof. intros O E1 E2. apply old_kput; [done|]. eapply old_conn_as; [by apply old_kget|by left|done]. Qed.

Lemma old_happen e w w' todo : happen cfg e w = Some (w', todo) -> old (nextReq w) w -> old (nextReq w') w' /\ Forall (old_instr (nextReq w')) todo /\ nextReq w <= nextReq w'.
Proof.
  intros E O. destruct e; cbn [happen] in E.
  - pose proof (old_next_request w O) as K. assert (R : old (nextReq w + 1) (w <| nextReq := nextReq w + 1 |> <| answers := answers w ++ [(nextReq w, Failed ErrRejected)] |>)) by (apply (K no_request (answers w ++ [(nextReq w, Failed ErrRejected)]))).
    destruct (requestTarget _ _ _) as [t|]; [|injection E as <- <-; split_and!; [done|done|cbn; lia]]. destruct (marshalRequest _ _); [|injection E as <- <-; split_and!; [done|done|cbn; lia]].
    injection E as <- <-. split_and!; [destruct w; apply (K _ answers)|each; cbn; lia|cbn; lia].
  - destruct (bool_decide _); [|done]. destruct (secure _); injection E as <- <-; [split_and!; [by apply (old_same k _ w)|done|done]|]. destruct (UnencryptedHTTP2 cfg); split_and!; try done; each; [apply (old_start k (kput k _ w))|]; by apply (old_same k _ w).
  - destruct (bool_decide _); [|done]. injection E as <- <-. split_and!; [by apply (old_same k _ w)|each|done].
  - destruct (_ && _); [|done]. injection E as <- <-. destruct h2; split_and!; try done; each; [apply (old_start k (kput k _ w))|]; by apply (old_same k _ w).
  - destruct (_ && _); [|done]. injection E as <- <-. split_and!; [by apply (old_same k _ w)|each|done].
  - destruct (_ && _); [|done]. injection E as <- <-. split_and!; [by apply (old_same k _ w)| |done]. apply Forall_app. split; [apply Forall_fmap, Forall_forall; intros f _|each]; apply Forall_nil_2.
  - destruct (bool_decide _); [|done]. injection E as <- <-. split_and!; [by apply (old_same k _ w)|each|done].
  - destruct (Z.ltb_spec r (nextReq w)); [|done]. injection E as <- <-. split_and!; [done|each|done].
  - destruct (cc_idle _); [|done]. injection E as <- <-. split_and!; [done|each|done].
  - injection E as <- <-. split_and!; [done|each|done].
Qed.

Lemma happen_torn e w w' todo : happen cfg e w = Some (w', todo) -> torn w' = torn w.
Proof.
  intros E. destruct e; cbn [happen] in E; repeat (case_match; try done); injection E as <- <-; try done; by destruct (UnencryptedHTTP2 cfg) || by destruct h2.
Qed.

(** What every reachable state keeps. *)
Definition good (s : list (list instr) * HttpPool.Client) : Prop := old (nextReq s.2) s.2 /\ Forall (old_instr (nextReq s.2)) (mjoin s.1) /\ (torn s.2 = false -> inv None s.2 (mjoin s.1)).

Lemma pick_thread {A} (T : list (list A)) n l : T !! n = Some l -> mjoin T ≡ₚ l ++ mjoin (delete n T) /\ forall l', mjoin (<[n := l']> T) ≡ₚ l' ++ mjoin (delete n T).
Proof.
  intros E. assert (forall l', mjoin (take n T ++ l' :: drop (S n) T) ≡ₚ l' ++ mjoin (delete n T)) as P.
  { intros l'. rewrite delete_take_drop, !join_app. cbn. by rewrite !(assoc_L (++)), (Permutation_app_comm (mjoin (take n T))). }
  split; [rewrite <- (take_drop_middle T n l E) at 1; apply P|]. intros l'. rewrite (insert_take_drop T n l') by (by eapply lookup_lt_Some). apply P.
Qed.

Lemma pool_good_step c s s' : choose unicode_lower cfg range hrange c s = Some s' -> good s -> good s'.
Proof.
  destruct s as [T w]. intros E (O & Oi & V). destruct c as [e|n]; cbn [choose] in E.
  - destruct (happen cfg e w) as [[w' todo]|] eqn:Eh; [|done]. injection E as <-. destruct (old_happen e w w' todo Eh O) as (O' & Ot & Hle). cbn [fst snd] in *.
    assert (P : mjoin (T ++ [todo]) ≡ₚ todo ++ mjoin T) by (rewrite join_app; cbn; rewrite app_nil_r; apply Permutation_app_comm).
    split_and!; [done| |].
    + rewrite P. apply Forall_app. split; [done|]. eapply Forall_impl; [exact Oi|]. intros i. by apply old_more.
    + cbn [fst snd]. intros Ht. rewrite (happen_torn e w w' todo Eh) in Ht. apply (inv_perm cfg None w' (todo ++ mjoin T)); [by rewrite P|]. apply (keep_happen e w); auto.
  - destruct (T !! n) as [[|i todo]|] eqn:En; [done| |done]. destruct (pick_thread T n _ En) as [P Q]. cbn [fst snd] in *. rewrite P in Oi. apply Forall_cons in Oi as [Hi Oi].
    pose proof (old_exec unicode_lower cfg range hrange (nextReq w) i w O Hi) as [O' Os]. pose proof (exec_torn i w) as Tn. pose proof (keep_exec i w (todo ++ mjoin (delete n T))) as K.
    destruct (exec i w) as [[w' next] spawned]. injection E as <-. cbn [fst snd] in *. pose proof O' as (N & _). unfold good. cbn [fst snd]. rewrite N.
    assert (P' : mjoin (<[n := next ++ todo]> T ++ spawned) ≡ₚ next ++ mjoin spawned ++ todo ++ mjoin (delete n T)).
    { rewrite join_app, Q. rewrite <- !(assoc_L (++)). apply Permutation_app_head. rewrite (assoc_L (++)). apply Permutation_app_comm. }
    split_and!; [done| |].
    + rewrite P'. apply Forall_app in Os as [Os1 Os2]. repeat (apply Forall_app; split; [done|]). done || by apply Forall_app.
    + cbn [snd fst]. intros Ht. apply (inv_perm cfg None w' (next ++ mjoin spawned ++ todo ++ mjoin (delete n T))); [by rewrite P'|]. apply K; [|done]. 
      apply (inv_perm cfg None w (mjoin T)); [done|]. apply V. destruct (torn w); [|done]. by rewrite Tn in Ht.
Qed.

Lemma good_start : good ([], NewClient).
Proof.
  split_and!; [|done|].
  - split_and!; [done|done|]. intros k. change (kget k NewClient) with no_conn. split; [done|]. intros id r b H. by change ((∅ : gmap Z (Z * bool)) !! id = Some (r, b)) in H; rewrite lookup_empty in H.
  - intros _. constructor; try done; try (by constructor).
    + intros k [x Hx]. cbn in Hx. by rewrite lookup_empty in Hx.
    + intros k. change (kget k NewClient) with no_conn. constructor; cbn; try done; by intros [? [=]].
    + intros t H. change (0 <= MaxConnsPerHost cfg). lia.
    + intros t k H. by apply elem_of_nil in H.
    + intros t k H. by apply elem_of_nil in H.
    + intros r. cbn. split; [by intros ?%elem_of_nil|lia].
Qed.

Lemma good_reachable s : rtc (step unicode_lower cfg range hrange) ([], NewClient) s -> good s.
Proof. apply (rtc_ind_r good); [apply good_start|]. intros s1 s2 _ [c E]. by apply (pool_good_step c s1). Qed.

(** The engine has not reported the end of the connection, or a goroutine sees to it. *)
Definition tended (w : HttpPool.Client) (I : list instr) (k : Z) : Prop :=
  is_Some (ccs w !! k) /\ (ended (cc_phase (kget k w)) = false \/ Exists (fun i => closer k i || shuts k i = true) I).

Lemma tended_count w I k : is_Some (ccs w !! k) -> ended (cc_phase (kget k w)) = false \/ 0 < cnt (closer k) I + cnt (shuts k) I -> tended w I k.
Proof.
  intros Hk H. split; [done|]. destruct H as [H|H]; [by left|right]. apply Exists_exists. pose proof (cnt_nonneg (closer k) I). destruct (Z.lt_ge_cases 0 (cnt (closer k) I)) as [P|P].
  - apply cnt_elem in P as (i & Hi & E). exists i. by rewrite E.
  - assert (Q : 0 < cnt (shuts k) I) by lia. apply cnt_elem in Q as (i & Hi & E). exists i. by rewrite E, orb_true_r.
Qed.

(** A connection that has a request. *)
Lemma has_tended w I k r : inv None w I -> has (kget k w) r -> tended w I k.
Proof.
  intros V Hh. conn_at V k. pose proof (closers k I) as CL. pose proof (cnt_nonneg (forgets k) I). pose proof (cnt_nonneg (poolerr k) I). pose proof (cnt_nonneg (closing k) I). pose proof (cnt_nonneg (shuts k) I).
  assert (D : 0 <= cnt (closer k) I - cnt (dialerr k) I) by (clear; induction I as [|i I IH]; [done|]; cbn [cnt]; destruct i; cbn [closer dialerr]; try destruct err; cbn [Z.b2z]; try destruct (_ =? _); cbn; lia).
  assert (Ew : cc_won (kget k w) = true) by (destruct (cc_won (kget k w)) eqn:E; [done|]; destruct (Cunwon eq_refl); exfalso; by eapply has_none).
  pose proof (won_begun cfg None w I k V Ew) as Eb.
  apply tended_count; [unfold kget in Ew; destruct (ccs w !! k); [eauto|done]|]. destruct (cc_phase (kget k w)) eqn:Ep; try (by left); [specialize (Cearly (or_intror eq_refl)); congruence|]. right.
  destruct Hh as [Hc|(id & b & Hs)].
  - destruct (cc_closed (kget k w)) eqn:Ec; [|specialize (Cend eq_refl Ew eq_refl); lia]. assert (0 < cnt (dialerr k) I) by (apply Cstuck; eauto). lia.
  - unfold streams_of in Hs. destruct (cc_h2 (kget k w)) as [c|] eqn:E2; [|by rewrite lookup_empty in Hs]. destruct (hc_closed c) eqn:Ec; [rewrite (Cshut c eq_refl Ec), lookup_empty in Hs; done|]. specialize (Cend2 c eq_refl Ew eq_refl Ec). lia.
Qed.

(** A host where requests wait. *)
Lemma wait_tended w I t : inv None w I -> h_waiting (hget t w) <> [] -> IDial t ∈ I \/ exists k, cc_host (kget k w) = t /\ tended w I k.
Proof.
  intros V H. pose proof (i_wait _ _ _ _ V t ltac:(done) H) as P. rewrite (i_open _ _ _ _ V t) in P. pose proof (cnt_nonneg (dialer t) I). destruct (Z.lt_ge_cases 0 (cnt (dialer t) I)) as [Q|Q].
  - left. apply cnt_elem in Q as (i & Hi & E). destruct i; try done. cbn in E. apply bool_decide_eq_true in E as ->. done.
  - right. assert (M : 0 < msum (is_open t) (ccs w)) by lia. apply msum_some in M as (k & x & Hk & M). assert (Ek : kget k w = x) by (unfold kget; by rewrite Hk). exists k. unfold is_open in M. 
    destruct (bool_decide_reflect (cc_host x = t)) as [Et|]; [|done]. destruct (cc_back x) eqn:Eb; [done|]. rewrite Ek. split; [done|]. apply tended_count; [eauto|].
    conn_at V k. rewrite Ek in *. rewrite Eb in *. pose proof (cnt_nonneg (shuts k) I). destruct (ended (cc_phase x)); cbn in *; [right; lia|by left].
Qed.

(** The connections of a host that have not ended. *)
Definition live (t : hostTarget) (x : clientConn) : Z := Z.b2z (bool_decide (cc_host x = t) && negb (ended (cc_phase x))).

Lemma live_bound w I t : inv None w I -> 0 < MaxConnsPerHost cfg -> msum (live t) (ccs w) <= MaxConnsPerHost cfg.
Proof.
  intros V H. pose proof (i_max _ _ _ _ V t H) as M. rewrite (i_open _ _ _ _ V t) in M. pose proof (cnt_nonneg (dialer t) I). assert (L : msum (live t) (ccs w) <= msum (is_open t) (ccs w)); [|lia].
  apply msum_le. intros k x Hk. conn_at V k. assert (Ek : kget k w = x) by (unfold kget; by rewrite Hk). rewrite Ek in *. unfold live, is_open. pose proof (cnt_nonneg (closer k) I).
  destruct (bool_decide (cc_host x = t)), (ended (cc_phase x)), (cc_back x); cbn in *; lia.
Qed.
End run.

(** C13: Whatever the callers, timers, loops, workers and handshakes do and however
    they interleave, as long as no goroutine acted on a connection that another had
    taken further ([torn]): no callback is called twice; a host never has more than
    [MaxConnsPerHost] connections that have not ended; and no request is lost.  Every
    request was answered, or a goroutine has it in hand, or a connection carries it
    that has not ended or whose end is being seen to, or it waits at a host for
    which a dial is about to start or that has such a connection.  So when the
    goroutines are through and the connections have ended, every request was
    answered. *)
Theorem pool_keeps_requests unicode_lower cfg range hrange (range_perm : forall s, range s ≡ₚ elements s) threads w :
  rtc (step unicode_lower cfg range hrange) ([], NewClient) (threads, w) -> torn w = false ->
  NoDup (answers w).*1 /\
  (forall t, 0 < MaxConnsPerHost cfg -> msum (live t) (ccs w) <= MaxConnsPerHost cfg) /\
  (forall r, 0 <= r < nextReq w ->
     r ∈ (answers w).*1 \/ Exists (holds r) (mjoin threads) \/ (exists k, has (kget k w) r /\ tended w (mjoin threads) k) \/
     exists t, r ∈ h_waiting (hget t w) /\ (IDial t ∈ mjoin threads \/ exists k, cc_host (kget k w) = t /\ tended w (mjoin threads) k)) /\
  (mjoin threads = [] -> map_Forall (fun _ x => ended (cc_phase x) = true) (ccs w) -> forall r, 0 <= r < nextReq w -> r ∈ (answers w).*1).
Proof.
  intros (_ & _ & V)%good_reachable Ht; [|done]. specialize (V Ht). cbn [fst snd] in V.
  assert (A : forall r, 0 <= r < nextReq w -> r ∈ (answers w).*1 \/ Exists (holds r) (mjoin threads) \/ (exists k, has (kget k w) r /\ tended w (mjoin threads) k) \/
     exists t, r ∈ h_waiting (hget t w) /\ (IDial t ∈ mjoin threads \/ exists k, cc_host (kget k w) = t /\ tended w (mjoin threads) k)).
  { intros r Hr. destruct (rq_done (rget r w)) eqn:Ed; [left; by apply (i_done _ _ _ _ V)|right]. destruct (i_owned _ _ _ _ V r Ed) as [[t H]|[H|[k H]]].
    - right; right. exists t. split; [done|]. apply (wait_tended cfg); [done|]. by intros E; rewrite E in H; apply elem_of_nil in H.
    - by left.
    - right; left. exists k. split; [done|]. by apply (has_tended cfg w _ k r). }
  split_and!; [apply (i_answers _ _ _ _ V)|intros t; by apply (live_bound cfg w _ t V)|done|].
  intros E0 En r Hr. assert (N : forall k, ~ tended w [] k).
  { intros k [[x Hx] [H|H%Exists_nil]]; [|done]. specialize (En k x Hx). cbn in En. unfold kget in H. rewrite Hx in H. cbn in H. congruence. }
  rewrite E0 in A. destruct (A r Hr) as [?|[?%Exists_nil|[(k & _ & T)|(t & _ & [?%elem_of_nil|(k & _ & T)])]]]; try done; by apply N in T.
Qed.
