(* ===== verification/HttpPoolDemo.v ===== *)
(** The HTTP client's pool at work: a run in which all goes well, and the races that
    lose a request or a place in the pool. *)
From Stdlib Require Import String.
From S2P Require Import Prelude.
From S2P Require Import HpackTables.
From S2P Require Import Hpack.
From S2P Require Import GoText.
From S2P Require Import Http3Client.
From S2P Require Import HttpPool.
From S2P Require Import HttpPoolInv.
From S2P Require Import HttpPoolRun.
Import HttpPool.

Definition pool_lower (b : bytes) : bytes := b.

Section demo.
Context (cfg : poolConfig).
Abbreviation choose := (choose pool_lower cfg elements elements).
Abbreviation run := (run pool_lower cfg elements elements).

Lemma run_reaches cs s s' : run cs s = Some s' -> rtc (step pool_lower cfg elements elements) s s'.
Proof.
  revert s. induction cs as [|c cs IH]; intros s; cbn [HttpPool.run]; [by intros [= ->]|]. destruct (choose c s) as [s1|] eqn:E; [|done]. intros H%IH. eapply rtc_l; [by exists c|done].
Qed.
End demo.

Definition pool_get : OutRequest := MkOut (str "GET") (str "http") (str "a") (str "/") (str "a") [] [].
Definition do_get : choice := Happens (EDo pool_get (str "a") [] false false false (Some [])).
Definition go (n times : nat) : list choice := replicate times (Goes n).

Definition one_conn : poolConfig := PoolConfig 1 1 false false false.

(** A request on a connection of its own. *)
Definition first_get : list choice := [do_get] ++ go 0 2 ++ [Happens (EConnected 0)] ++ go 1 6.
Definition ok_response : parsed := PResponse false 200 false.

Definition demo_end (cfg : poolConfig) (cs : list choice) : list (list instr) * Client := default ([], NewClient) (run pool_lower cfg elements elements cs ([], NewClient)).

Lemma demo_reached cfg cs : is_Some (run pool_lower cfg elements elements cs ([], NewClient)) -> rtc (step pool_lower cfg elements elements) ([], NewClient) (demo_end cfg cs).
Proof. intros [s E]. unfold demo_end. rewrite E. by apply (run_reaches cfg cs). Qed.

(** Everything is over. *)
Definition all_over (s : list (list instr) * Client) : bool := bool_decide (mjoin s.1 = []) && bool_decide (map_Forall (fun _ x => ended (cc_phase x) = true) (ccs s.2)).

(** ** Two requests on one connection *)

Definition two_gets : list choice :=
  first_get ++ [do_get] ++ go 2 1 ++ [Happens (EData 0 PMore)] ++ go 3 3 ++ [Happens (EData 0 ok_response)] ++ go 4 9 ++ [Happens (EClosed 0 true)] ++ go 5 5 ++ go 6 1.

Lemma pool_keeps_requests_witness :
  let w := (demo_end one_conn two_gets).2 in NoDup (answers w).*1 /\ (forall r, 0 <= r < 2 -> r ∈ (answers w).*1).
Proof.
  destruct (pool_keeps_requests pool_lower one_conn elements elements (fun s => reflexivity _) (demo_end one_conn two_gets).1 (demo_end one_conn two_gets).2) as (A & _ & _ & B).
  - rewrite <- surjective_pairing. apply demo_reached. eexists. vm_compute. reflexivity.
  - vm_compute. reflexivity.
  - split; [exact A|]. apply B; [vm_compute; reflexivity|]. apply (bool_decide_unpack _). vm_compute. exact I.
Defined.

(** ** A request that is aborted while its response arrives *)

(** [abort] takes the connection of request 0; the response comes and hands the
    connection to request 1; then [discard] drops that one. *)
Definition abort_race : list choice :=
  first_get ++ [do_get] ++ go 2 1 ++ [Happens (EAbort 0)] ++ go 3 2 ++ [Happens (EData 0 ok_response)] ++ go 4 9 ++ go 3 1 ++ [Happens (EClosed 0 false)] ++ go 5 3.

(** Aborting a request may lose another: [discard] closes the connection and forgets
    the request it carries by then, so [OnClose] finds none and the callback of
    request 1 is never called. *)
Theorem abort_loses_another :
  rtc (step pool_lower one_conn elements elements) ([], NewClient) (demo_end one_conn abort_race) /\
  let w := (demo_end one_conn abort_race).2 in
  all_over (demo_end one_conn abort_race) = true /\ nextReq w = 2 /\ answers w = [(0, Failed ErrAborted)] /\ h_waiting (hget (str "a:80", false) w) = [].
Proof. split; [apply demo_reached; eexists; vm_compute; reflexivity|]. vm_compute. split_and!; reflexivity. Qed.

(** ** Bytes nobody asked for *)

Definition stray_race : list choice :=
  first_get ++ [Happens (EData 0 ok_response)] ++ go 2 7 ++ [Happens (EData 0 PMore)] ++ go 3 1 ++ [do_get] ++ go 4 3 ++ go 3 2 ++ [Happens (EClosed 0 false)] ++ go 5 3.

(** The same when a server sends bytes on an idle connection: a request that is given
    the connection before [OnData] discards it is lost. *)
Theorem stray_bytes_lose_request :
  rtc (step pool_lower one_conn elements elements) ([], NewClient) (demo_end one_conn stray_race) /\
  let w := (demo_end one_conn stray_race).2 in
  all_over (demo_end one_conn stray_race) = true /\ nextReq w = 2 /\ answers w = [(0, Responded)] /\ h_waiting (hget (str "a:80", false) w) = [].
Proof. split; [apply demo_reached; eexists; vm_compute; reflexivity|]. vm_compute. split_and!; reflexivity. Qed.

(** ** A connection that closes as its handshake ends *)

Definition pool_gets : OutRequest := MkOut (str "GET") (str "https") (str "a") (str "/") (str "a") [] [].
Definition do_gets : choice := Happens (EDo pool_gets (str "a") [] false false false (Some [])).

Definition close_race : list choice :=
  [do_gets] ++ go 0 2 ++ [Happens (EConnected 0); Happens (EHandshake 0 false); Happens (EClosed 0 false)] ++ go 3 2 ++ go 2 4 ++ go 3 1 ++ [do_gets] ++ go 4 1.

(** [OnClose] finds the dial unsettled, [OnHandshake] settles it as a success, and
    the failure [OnClose] reports then goes unheard: nobody forgets the connection,
    its place under [MaxConnsPerHost] is gone, and requests wait with nothing to
    wait for. *)
Theorem close_race_leaks_connection :
  rtc (step pool_lower one_conn elements elements) ([], NewClient) (demo_end one_conn close_race) /\
  let w := (demo_end one_conn close_race).2 in
  all_over (demo_end one_conn close_race) = true /\ answers w = [] /\ h_waiting (hget (str "a:443", true) w) = [0; 1] /\ h_open (hget (str "a:443", true) w) = 1 /\ h_dialing (hget (str "a:443", true) w) = 0.
Proof. split; [apply demo_reached; eexists; vm_compute; reflexivity|]. vm_compute. split_and!; reflexivity. Qed.

(** ** A server that does not choose HTTP/2 *)

Definition h2_offered : poolConfig := PoolConfig 64 16 false true false.

Definition probe_race : list choice :=
  [do_gets] ++ go 0 2 ++ [do_gets] ++ go 1 1 ++ [do_gets] ++ go 2 1 ++ [Happens (EConnected 0); Happens (EHandshake 0 false)] ++ go 4 6.

(** Requests that came before the first connection to a host are not spread over
    connections once it turns out to be HTTP/1.1: [release] takes one of them and
    dials for none, so two of these three wait for the first connection with 63
    connections to spare. *)
Theorem probe_serves_one_by_one :
  rtc (step pool_lower h2_offered elements elements) ([], NewClient) (demo_end h2_offered probe_race) /\
  let w := (demo_end h2_offered probe_race).2 in
  mjoin (demo_end h2_offered probe_race).1 = [] /\ torn w = false /\ answers w = [] /\ h_waiting (hget (str "a:443", true) w) = [1; 2] /\ h_open (hget (str "a:443", true) w) = 1 /\ h_dialing (hget (str "a:443", true) w) = 0.
Proof. split; [apply demo_reached; eexists; vm_compute; reflexivity|]. vm_compute. split_and!; reflexivity. Qed.
